(* ===== verification/_CoqProject ===== *)
-Q . S2P
Prelude.v
Bytes.v
Writes.v
Hash.v
SelfContainer.v
SelfFields.v
SelfLayout.v
SelfRoundTrip.v
ElfObject.v
ModuleTables.v
StringTables.v
HashTable.v
DynamicTables.v
ModuleWriter.v
ModuleHeaders.v
LibcManifest.v
LibcRuntime.v
LibcEncoding.v
LibcText.v
LibcImage.v
LibcParts.v
LibcTotal.v
BrokerProtocol.v
HostRange.v
BrokerState.v
BrokerMemory.v
BrokerFences.v
BrokerLogic.v
BrokerOrder.v
BrokerBuffers.v
BrokerInvariant.v
BrokerRequests.v
BrokerServe.v
BrokerSession.v
BrokerRun.v
BrokerSteps.v
BrokerSim.v
BrokerProgress.v
BrokerClaims.v
BrokerRanges.v
DriverPrelude.v
DriverMemory.v
DirectMemory.v
DescriptorLayout.v
DescriptorSets.v
DescriptorWrites.v
Queries.v
QueueMarkers.v
QueueStreams.v
CopySteps.v
BlitPool.v
BlitWaves.v
XorMaps.v
ImageTiles.v
ImageLayout.v
ImageRuns.v
ImageCopies.v
ImageTransfers.v
ImageEffects.v
ImageClears.v
ImageMoves.v
ShaderKeys.v
ShaderCache.v
ShaderThreads.v
Sync.v
