(* ===== verification/Prelude.v ===== *)
(** * PS5_Vulkan: the toolchain, the GPU broker and the core of the driver, verified

    PS5_Vulkan brings Vulkan programs to the console.  Three parts of it decide
    by themselves whether a program runs right, and are modelled here as
    functions on bytes and on explicit states:

    - the native toolchain ([src/tooling/native]): it turns an image linked by
      LLVM into a module the console's loader takes, builds the C runtime
      module that every application imports, and wraps both in a
      signed-executable container;
    - the GPU broker ([src/tooling/gpu-broker]): one process owns the GPU and
      serves any number of client processes over sockets; it hands out memory,
      runs their command streams on one ring, and must never reuse memory the
      GPU may still read, whatever clients send and whatever the kernel answers;
    - the Vulkan driver ([src/driver]), the parts whose logic is its own: direct
      memory, descriptors, queries, the queue, which builds submissions in a
      buffer the GPU still reads, waits for the GPU's marker, runs the CPU copies
      between the steps and cuts blits into parts for a pool of threads,
      images, whose texels the CPU has to find where the hardware's tile maps
      put them, and the cache of compiled shaders, in memory and on disk.

    ** The files

    This file holds the [outcome] monad of the toolchain's C++ (a value, a
    thrown [std::runtime_error], or undefined behaviour), machine-width
    arithmetic ([u8] to [u64], [s32]), the tactics ([to_prop] and others) and
    lemmas the components share.  [Bytes] is byte buffers with their
    little-endian accesses; [Writes] the algebra of logs of writes.

    Toolchain, bottom up:
    - [Hash]: [hash.hpp], SHA-1 and SHA-256.
    - [SelfContainer]: [self_container.cpp], [sign], [parse], [extract],
      [strip_sections]; [SelfFields], [SelfLayout] and [SelfRoundTrip] prove
      its theorems.
    - [ElfObject]: [elf_object.cpp], the readers of objects, linked images and
      SDK stubs.
    - [ModuleTables] and [ModuleWriter]: [sce_module_writer.cpp], the tables of
      a module and [write_executable]; [StringTables], [HashTable],
      [DynamicTables] and [ModuleHeaders] prove their theorems.
    - [LibcManifest] and [LibcRuntime]: [libc_builder.cpp], the two manifests
      and the runtime image; [LibcEncoding], [LibcText], [LibcImage],
      [LibcParts] and [LibcTotal] prove their theorems.

    Broker:
    - [BrokerProtocol]: [protocol.h], [staging.h], [completion.h], the extent
      limits of [frame_page.h]: message checks, staging classes and pool.
    - [HostRange]: [struct HostRange] of [server.cpp], the first-fit allocator
      of the reserved address ranges.
    - [BrokerState]: the data of [server.cpp] ([Buffer], [Range], [Client],
      [Fences]), the state its threads share under one lock ([Shared]), the
      class [Platform] of everything the broker calls and does not contain (the
      kernel, RADV's platform layer, the GPU driver, the application's callbacks),
      and the state monad [M] in which the code is written.
    - [BrokerMemory]: [owned] to [allocate].  [BrokerFences]: [done] to
      [submit].  [BrokerServe]: [vrange_*] and one message of [serve].
      [BrokerSession]: the client slots - [open_client], both connections of a
      client, [ps5_gpu_broker_close] - the host ranges and
      [ps5_gpu_broker_stop], and [session], a run of the broker over any
      sequence of such events.
    - [BrokerLogic] (triples over [M] and the tactic that runs them),
      [BrokerOrder], [BrokerBuffers], [BrokerInvariant], [BrokerRequests],
      [BrokerRun], [BrokerSteps]: the invariant, and that every operation and
      every event keeps it.  [BrokerSim]: a simulated platform.
      [BrokerProgress]: that every event is dealt with in bounded time.
      [BrokerClaims], [BrokerRanges]: what follows.

    Driver:
    - [DriverPrelude] and [DriverMemory]: sums over lists, and memory the CPU
      and the GPU share as a function from addresses to bytes.
    - [DirectMemory]: [ps5vk_direct_memory.c], the granule region of device
      memory, mappings and their accounts.
    - [DescriptorLayout]: [ps5vk_descriptor_set_layout.c].  [DescriptorSets] and
      [DescriptorWrites]: [ps5vk_descriptor_set.c], pools and their sets on a
      heap of handles; writes, copies, templates, binding, push sets.
    - [Queries]: [ps5vk_query.c], on the mappings of [DirectMemory] and the
      memory of [DriverMemory].
    - [QueueMarkers]: the marker values, deferred evictions and waits of
      [ps5vk_queue.c] ([ps5vk_queue_poll] to [ps5vk_queue_wait_range],
      [ps5vk_queue_run_step]).  [QueueStreams]: [ps5vk_queue_stream_base] and the
      stream [ps5vk_queue_run] builds, on the markers.  [CopySteps]:
      [ps5vk_queue_run_copy_steps], on the streams.  [BlitPool]:
      [ps5vk_blit_pool_run], [ps5vk_blit_worker] and
      [ps5vk_blit_wave_execute] as a step relation of threads; [BlitWaves] joins
      it to the waves of [CopySteps].
    - [XorMaps]: maps that are linear over exclusive or, which a decidable check
      on their values at single bits (Gaussian elimination) shows injective.
    - [ImageTiles]: the tile maps of [ps5vk_image.c] ([ps5vk_tile_extent],
      [ps5vk_tiled_texel_offset], [ps5vk_tiled_depth_offset],
      [ps5vk_tiled_depth4_offset] and their tables).  [ImageLayout]: images
      ([ps5vk_image_storage], [ps5vk_CreateImage], levels, chains, layers) and
      the sides of copies ([ps5vk_image_copy_side], [ps5vk_image_copy_address]),
      on the maps.
    - [ImageRuns] and [ImageCopies]: the walks of [ps5vk_queue.c]
      ([ps5vk_copy_side_run_bytes], [ps5vk_image_write_execute],
      [ps5vk_image_copy_execute], [ps5vk_clear_execute],
      [ps5vk_resolve_execute]).  [ImageTransfers]: the commands of
      [ps5vk_image.c] that record them.  [ImageEffects], [ImageClears] and
      [ImageMoves] join the two: what a command leaves in memory.
    - [ShaderKeys]: the keys of [ps5vk_shader_cache.c] and [ps5vk_nir.c], what
      is hashed and where the file goes.  [ShaderCache]: the files
      ([ps5vk_shader_cache_load], [cache_write]'s bytes) and the queue of
      outputs not written yet.  [ShaderThreads]: [ps5vk_compile_shader_deep] in
      several threads, the writer thread and its calls of the file system, as a
      step relation, and the condition variables the writer and
      [ps5vk_shader_cache_flush] sleep on.
    - [Sync]: [ps5vk_sync.c], fences, semaphores and events, with
      [ps5vk_sync_wait] and [ps5vk_queue_submit] in several threads as a step
      relation on the markers of [QueueMarkers].

    ** What the theorems show

    - Containers: what [sign] writes, [extract] reads back, sealed with the
      digest of what is read; no file makes [parse], [extract], [sign] or the
      ELF readers leave a buffer.
    - Modules: the header and the fourteen program headers of a converted module
      are loadable; string, hash, relocation and dynamic tables answer a
      loader's queries; file offsets are the least congruent ones; identifiers
      are faithful.
    - Runtime: for every pair of manifests that satisfies a decidable condition
      [build_runtime] returns an image that passes the builder's own checks and
      holds what each of its parts wrote, no two of which have a byte in common;
      export storage is disjoint; identifiers and hash tables agree with those
      the module writer makes; accepted manifests satisfy what the image relies
      on; manifest lines read back.
    - Host ranges: [take] and [give] refine an allocator whose state is a set of
      free addresses ([spec_step]); giving back restores; held blocks are
      disjoint.
    - Sessions: for any events and any answers of the platform the broker deals
      with every event (it neither waits for good nor leaves an array), live and
      deferred buffers in the host ranges never overlap, accounts are exact and
      within limits, staging memory is conserved while the GPU is not in doubt,
      and a clean stop leaves nothing behind.
      [session_ok] is the invariant, kept by every [step].
    - Fences: the wrapping comparison is submission order; a buffer freed while
      work is in flight waits for the last submission; [reap] releases exactly
      what the fence has passed, each buffer once; [drain] ends within its timeout.
    - Sparse ranges: the ordered index answers as a search would and stays right.
    - Direct memory: the region is first fit; counters and region are those of
      the mappings held, and a creation that fails leaves nothing.
    - Descriptors: layouts place their bindings; pools are all or nothing and
      never overdrawn when no layout repeats a type; what is written is read
      back; binding places the dynamic offsets in Vulkan's order.
    - Queries: packets, results, and result copies, which write their results'
      own places and no byte between them.
    - The queue: marker values compare as the steps they stand for; a wait ends,
      and says what the GPU has done; a wait for a range leaves nothing kept that
      touches it (a step's writes are kept where its targets ask for it, which a
      target recorded twice can prevent: [skipped_target_hides_writer]); a
      submission is built past the streams the GPU may still read; its words and
      copies happen as recorded, each copy with the GPU idle.
    - Sync objects: a wait that succeeds found a signal whose steps the GPU has
      run, and a submission follows what its semaphores stand for, in every
      interleaving of threads that signal, reset, move, submit and wait.
    - Parallel blits: under every schedule of the threads each part runs once, a
      wave ends (each step but a wait leaves less to do, down to the return), and it leaves the memory its blits leave one after the other.
    - Images: where the maps were measured for the image's shape, in its first
      layer, the samples of a level lie in the image's memory and share no byte,
      and neither do those of two levels, also where levels are packed into one
      tile; the fast path of the address map is the map.
    - Transfers: what an upload puts into an image a readback gives back; copies,
      clears and resolves change exactly the texels they name, for regions that
      begin at a run of the map.  Where the code does otherwise - regions that
      begin inside a run, depth images with levels, wide elements with four
      samples, resolves of components that are not bytes - theorems and evaluated
      examples show that too.
    - Shader cache: a key stands for one compilation; a load takes exactly the
      entries and no torn file; whatever the threads' schedule and whatever
      fails of files and memory, a call returns only what the compiler gives for
      what was asked; while nothing fails what was returned once is found again;
      in every run of the calls, the writer and the flushes, whatever fails, all
      of them return.  Where no writer thread can be made a reader can see a
      partial entry.

    ** Integers, fuel and bounds

    Unsigned values are [Z] with the wrap of their width written where the
    source computes at that width; pointers are 64-bit addresses.  Loops that
    are not structural take fuel: [reap_deferred] gets the length of its list
    (each turn handles one entry), [cursor_loop] the source's own 64 attempts,
    [drain_loop] [timeout / 50000 + 1] turns, which [drain_terminates] shows to
    be enough for a clock that advances by what was slept, a run that exhausts
    it being [OutOfFuel], a result of its own that no session has.  The theorems
    on sessions bound the number of events by 2^32, since a client's token
    counter wraps there ([BrokerClaims.token_wraps]).  In the queue [spin] gets
    [spin_fuel], the nanoseconds of the bounded spin, enough for a clock that
    moves between two looks ([wait_returns] and [waited_step_ran] show it ends
    within it); [steps_loop] two turns more than there are copies; a marker
    comparison is right for steps fewer than 2^31 - 1 apart ([kWindow]), which
    bounds the runs of [Sync] ([stale_signal_unseen]).  The
    rows of an image walk get the region's width as fuel: a turn moves one texel
    at least.

    ** Parameters and their laws

    zlib's [inflate] is an argument of [extract].  [Platform] is arbitrary but
    for [lawful] (RADV's allocator makes exactly the whole pages asked for; the
    words of a time stamp fit 32 bits), [clocked] (the clock does not go back
    and a sleep takes its time) and, in [reap_exact], a fence page that holds the
    number of a submission.  [BrokerClaims.circumstances] collects them with the
    setting [ps5_gpu_broker_start] makes ([retain_on_failure] off).
    [BrokerSim.sim_platform] satisfies them; the witnesses run on it.

    The driver's classes stand for what it calls: [DirectPlatform] (the kernel's
    direct memory, Mesa's [align64]), [Allocator] (Mesa's objects: fresh
    handles), [Buffers] (the buffers applications name), [QueryPlatform] ([ALIGN_POT]), [Gpu] (the marker words
    and clocks the CPU sees, one per look; [GpuLaws]: steps run in order and the
    clock moves), [WaitPackets] (AGC's packet for a swapchain image), [BlitRows]
    (resampling rows; [BlitRowsLaws]: rows run in order and depend on what they
    read), [CompilerTypes] and [ShaderMetadata] (the sizes and limits of the
    compiler's structures), [Blake3] ([Blake3Laws]: 32 bytes, whose hexadecimal
    form tells them apart), [Process] (the process's id, its cache's directory).
    Each has a concrete instance in its file.  That BLAKE3 does not collide on
    the requests of a run is a hypothesis about those requests
    ([ShaderThreads.digests_apart]), and the compiler is a relation from requests
    to results.  In [CopySteps] the results
    of the steps and what they leave in the stream are arbitrary functions.
    What Mesa answers about a format (its texel's size, its aspects) is the
    record [ImageLayout.format]; whether a list can grow is an argument of the
    recordings.

    ** Not modelled

    - [native_app_builder.cpp], file access and process spawning; the
      applications' start-up code.
    - The broker's threads: a step is one message handled under the broker's
      lock, as the code serializes them.  Waits for another thread (a FREE of a
      frame being presented, an application in the background), a start after a
      stop, the compositor and the display are not steps; what a present shows
      is a parameter.
    - Log output and time statistics, which no modelled decision reads.
    - Wakeups of a condition variable without a signal, after which a thread only
      tests again.  [Sync.queue_poll] reads the marker and takes its value over in
      one step, where the code reads it before it takes the lock.
      [QueueStreams.build_stream] leaves out the return for want of memory when a
      recording is split, and its stream has no end to run over.
    - Of the driver: drawing, pipelines and presentation, mostly calls into
      Mesa, which is not part of the repository, or packets whose meaning is the
      hardware's; the format tables, image views and samplers; the
      transfers' GPU paths ([ps5vk_meta_*]), which are draws; what is computed
      in floating point (scaled blits, the encoding of clear values); its
      profiling.  Memory is sequentially consistent, as the pool's atomics are,
      and evictions and flushes leave it as it is.  Images are 2D, the only type
      [ps5vk_CreateImage] takes.
    - The probe programs ([src/src]), the tools and the host simulators: sequences
      of calls into the console's libraries.

    ** What remains

    The compositor's decisions and the display's blending could be modelled in
    the same way. *)

From Stdlib Require Import ZArith List Bool Lia String Ascii.
Import ListNotations.
Open Scope Z_scope.

(** ** Outcomes of C++ code

    [Ok a]: the call returned [a].  [Throw msg]: it threw
    [std::runtime_error(msg)].  [Undefined]: it performed an access the C++
    standard leaves undefined (an out-of-range [span]/[vector] index). *)

Inductive outcome (A : Type) : Type :=
| Ok (a : A)
| Throw (msg : string)
| Undefined.
Arguments Ok {A} a.
Arguments Throw {A} msg.
Arguments Undefined {A}.

Definition bind {A B : Type} (m : outcome A) (k : A -> outcome B) : outcome B :=
  match m with
  | Ok a => k a
  | Throw msg => Throw msg
  | Undefined => Undefined
  end.

Declare Scope outcome_scope.
Delimit Scope outcome_scope with outcome.
Notation "'let!' x ':=' m 'in' k" := (bind m (fun x => k))
  (at level 10, x name, m at level 100, k at level 200) : outcome_scope.
Notation "'let!' ' p ':=' m 'in' k" := (bind m (fun x => match x with p => k end))
  (at level 10, p pattern, m at level 100, k at level 200) : outcome_scope.
Notation "'do!' m 'in' k" := (bind m (fun _ => k))
  (at level 10, m at level 100, k at level 200) : outcome_scope.
Open Scope outcome_scope.

(** The [require(condition, message)] helper every file of [tooling/native]
    declares for itself. *)
Definition require (condition : bool) (message : string) : outcome unit :=
  if condition then Ok tt else Throw message.

(** A range [for] loop threading a state through a body that may throw. *)
Fixpoint for_each {A S : Type} (body : S -> A -> outcome S) (s : S) (l : list A) : outcome S :=
  match l with
  | [] => Ok s
  | a :: l' => let! s' := body s a in for_each body s' l'
  end.

(** The results of a body that may throw, in order ([push_back] in a loop). *)
Fixpoint collect {A B : Type} (body : A -> outcome B) (l : list A) : outcome (list B) :=
  match l with
  | [] => Ok []
  | a :: l' => let! b := body a in let! bs := collect body l' in Ok (b :: bs)
  end.

(** [for (i = first; i < first + count; ++i)]: the values [i] takes. *)
Fixpoint indices (first : Z) (count : nat) : list Z :=
  match count with
  | O => []
  | S n => first :: indices (first + 1) n
  end.

(** The call has a defined result: it returns or throws. *)
Definition defined {A : Type} (m : outcome A) : Prop := m <> Undefined.

(** ** Machine integers: a [w]-bit unsigned value is a [Z] in [0, 2^w). *)

Definition u8 (x : Z) : Z := x mod 2 ^ 8.
Definition u16 (x : Z) : Z := x mod 2 ^ 16.
Definition u32 (x : Z) : Z := x mod 2 ^ 32.
Definition u64 (x : Z) : Z := x mod 2 ^ 64.

(** Two's complement reading of a 64-bit value ([static_cast<std::int64_t>]). *)
Definition s64 (x : Z) : Z := if u64 x <? 2 ^ 63 then u64 x else u64 x - 2 ^ 64.

(** Two's complement reading of a 32-bit value ([static_cast<std::int32_t>]). *)
Definition s32 (x : Z) : Z := if u32 x <? 2 ^ 31 then u32 x else u32 x - 2 ^ 32.

(** [(value + alignment - 1) & ~(alignment - 1)] in [size_t]. *)
Definition align_up_mask (value alignment : Z) : Z :=
  Z.land (u64 (value + alignment - 1)) (u64 (Z.lnot (alignment - 1))).

(** ** Lemmas on outcomes *)

Lemma bind_ok {A B} (m : outcome A) (k : A -> outcome B) b :
  bind m k = Ok b -> exists a, m = Ok a /\ k a = Ok b.
Proof. destruct m; simpl; intros H; try discriminate; eauto. Qed.

Lemma require_ok c msg u : require c msg = Ok u -> c = true.
Proof. destruct c; simpl; congruence. Qed.

Lemma require_bind_ok {B} c msg (k : unit -> outcome B) b :
  bind (require c msg) k = Ok b -> c = true /\ k tt = Ok b.
Proof. destruct c; simpl; intros; [auto | discriminate]. Qed.

Lemma require_true {B} c msg (k : unit -> outcome B) :
  c = true -> bind (require c msg) k = k tt.
Proof. intros ->; reflexivity. Qed.

Lemma require_false {B} c msg (k : unit -> outcome B) :
  c = false -> bind (require c msg) k = Throw msg.
Proof. intros ->; reflexivity. Qed.

Lemma ok_inj {A} (a b : A) : Ok a = Ok b -> a = b.
Proof. congruence. Qed.

Lemma pair_inj {A B} (a c : A) (b d : B) : (a, b) = (c, d) -> a = c /\ b = d.
Proof. intros H. split; congruence. Qed.

Lemma bind_assoc {A B C} (m : outcome A) (f : A -> outcome B) (g : B -> outcome C) :
  bind (bind m f) g = bind m (fun a => bind (f a) g).
Proof. destruct m; reflexivity. Qed.

Lemma defined_ok {A} (a : A) : defined (Ok a).
Proof. discriminate. Qed.

Lemma defined_throw {A} msg : defined (@Throw A msg).
Proof. discriminate. Qed.

Lemma defined_require c msg : defined (require c msg).
Proof. destruct c; discriminate. Qed.

Lemma defined_bind {A B} (m : outcome A) (k : A -> outcome B) :
  defined m -> (forall a, m = Ok a -> defined (k a)) -> defined (bind m k).
Proof. destruct m; simpl; unfold defined; auto; congruence. Qed.

Lemma defined_require_bind {B} c msg (k : unit -> outcome B) :
  (c = true -> defined (k tt)) -> defined (bind (require c msg) k).
Proof. destruct c; simpl; auto using defined_throw. Qed.

Lemma defined_for_each {A S} (body : S -> A -> outcome S) (P : S -> Prop) s l :
  P s ->
  (forall s a, P s -> In a l -> defined (body s a)) ->
  (forall s a s', P s -> In a l -> body s a = Ok s' -> P s') ->
  defined (for_each body s l).
Proof.
  revert s; induction l as [|a l IH]; simpl; intros s Hs Hd Hp; [apply defined_ok|].
  apply defined_bind; [apply Hd; auto|].
  intros s' Hs'. apply IH; eauto.
Qed.

Lemma defined_collect {A B} (body : A -> outcome B) l :
  (forall a, In a l -> defined (body a)) -> defined (collect body l).
Proof.
  induction l as [|a l IH]; simpl; intros Hd; [apply defined_ok|].
  apply defined_bind; [apply Hd; auto|]; intros b _.
  apply defined_bind; [apply IH; auto|]; intros bs _; apply defined_ok.
Qed.

Lemma for_each_app {A S} (body : S -> A -> outcome S) l1 l2 s :
  for_each body s (l1 ++ l2) = let! s' := for_each body s l1 in for_each body s' l2.
Proof.
  revert s; induction l1 as [|a l1 IH]; simpl; intros s; [reflexivity|].
  rewrite bind_assoc. destruct (body s a); simpl; auto.
Qed.

(** Rule of invariants for a loop that returned. *)
Lemma for_each_invariant {A S} (body : S -> A -> outcome S) (P : S -> Prop) l s r :
  (forall s a s', P s -> In a l -> body s a = Ok s' -> P s') ->
  P s -> for_each body s l = Ok r -> P r.
Proof.
  revert s; induction l as [|a l IH]; simpl; intros s Hstep Hs H; [congruence|].
  apply bind_ok in H as (s' & E & H).
  apply (IH s'); [intros; eapply Hstep; eauto | eapply Hstep; eauto | exact H].
Qed.

Lemma fold_left_invariant {A S} (f : S -> A -> S) (P : S -> Prop) l s :
  (forall s a, P s -> P (f s a)) -> P s -> P (fold_left f l s).
Proof. intros Hf. revert s; induction l; simpl; auto. Qed.

Lemma fold_left_invariant_in {A S} (f : S -> A -> S) (P : S -> Prop) l s :
  (forall s a, P s -> In a l -> P (f s a)) -> P s -> P (fold_left f l s).
Proof.
  revert s; induction l as [|a l IH]; intros s Hf Hs; [exact Hs|]. cbn [fold_left].
  apply IH; [intros; apply Hf; [|right]; assumption|apply Hf; [exact Hs|left; reflexivity]].
Qed.

Lemma collect_length {A B} (body : A -> outcome B) l r :
  collect body l = Ok r -> List.length r = List.length l.
Proof.
  revert r; induction l as [|a l IH]; simpl; intros r H; [injection H as <-; reflexivity|].
  apply bind_ok in H as (b & E & H). apply bind_ok in H as (bs & E' & H).
  injection H as <-. simpl. f_equal. auto.
Qed.

Lemma collect_nth {A B} (body : A -> outcome B) l r i a :
  collect body l = Ok r -> nth_error l i = Some a ->
  exists b, body a = Ok b /\ nth_error r i = Some b.
Proof.
  revert r i; induction l as [|x l IH]; simpl; intros r i H Hi.
  - destruct i; discriminate.
  - apply bind_ok in H as (b & E & H). apply bind_ok in H as (bs & E' & H).
    injection H as <-. destruct i; simpl in *; [exists b; split; congruence|eauto].
Qed.

Lemma in_indices a first count :
  In a (indices first count) <-> first <= a < first + Z.of_nat count.
Proof.
  revert first; induction count as [|n IH]; intros first; cbn [indices In].
  - split; [tauto|lia].
  - rewrite IH. lia.
Qed.

Lemma indices_length first count : List.length (indices first count) = count.
Proof. revert first; induction count; simpl; auto. Qed.

(** ** Lemmas on machine integers *)

Lemma u8_range x : 0 <= u8 x < 256.
Proof. apply Z.mod_pos_bound; lia. Qed.
Lemma u16_range x : 0 <= u16 x < 65536.
Proof. apply Z.mod_pos_bound; lia. Qed.
Lemma u32_range x : 0 <= u32 x < 4294967296.
Proof. apply Z.mod_pos_bound; lia. Qed.
Lemma u64_range x : 0 <= u64 x < 18446744073709551616.
Proof. apply Z.mod_pos_bound; lia. Qed.

Lemma u8_small x : 0 <= x < 256 -> u8 x = x.
Proof. apply Z.mod_small. Qed.
Lemma u16_small x : 0 <= x < 65536 -> u16 x = x.
Proof. apply Z.mod_small. Qed.
Lemma u32_small x : 0 <= x < 4294967296 -> u32 x = x.
Proof. apply Z.mod_small. Qed.
Lemma u64_small x : 0 <= x < 18446744073709551616 -> u64 x = x.
Proof. apply Z.mod_small. Qed.

Lemma align_up_mask_spec value k :
  0 <= k < 64 -> 0 <= value -> value + 2 ^ k <= 2 ^ 64 ->
  align_up_mask value (2 ^ k) = (value + 2 ^ k - 1) / 2 ^ k * 2 ^ k.
Proof.
  intros Hk Hv Hb. unfold align_up_mask.
  assert (Hp : 0 < 2 ^ k) by (apply Z.pow_pos_nonneg; lia).
  rewrite (u64_small (value + 2 ^ k - 1)) by lia.
  set (x := value + 2 ^ k - 1) in *.
  replace (2 ^ k - 1) with (Z.ones k) by (rewrite Z.ones_equiv; lia).
  unfold u64. rewrite <- Z.land_ones, (Z.land_comm (Z.lnot _)), Z.land_assoc, Z.land_ones by lia.
  rewrite (Z.mod_small x) by lia.
  rewrite <- Z.ldiff_land, Z.ldiff_ones_r by lia.
  rewrite Z.shiftl_mul_pow2, Z.shiftr_div_pow2 by lia. reflexivity.
Qed.

Lemma align_up_mask_bounds value k :
  0 <= k < 64 -> 0 <= value -> value + 2 ^ k <= 2 ^ 64 ->
  value <= align_up_mask value (2 ^ k) < value + 2 ^ k /\
  align_up_mask value (2 ^ k) mod 2 ^ k = 0.
Proof.
  intros Hk Hv Hb. rewrite align_up_mask_spec by assumption.
  assert (Hp : 0 < 2 ^ k) by (apply Z.pow_pos_nonneg; lia).
  pose proof (Z.div_mod (value + 2 ^ k - 1) (2 ^ k) ltac:(lia)) as D.
  pose proof (Z.mod_pos_bound (value + 2 ^ k - 1) (2 ^ k) Hp) as M.
  split; [|apply Z.mod_mul; lia]. nia.
Qed.

(** ** Automation *)

(** [inv_ok H] turns a hypothesis that a computation returned into the facts
    that its steps returned and its guards held. *)
Ltac inv_ok H :=
  repeat (cbv beta in H;
    lazymatch type of H with
    | bind (require _ _) _ = Ok _ =>
        let G := fresh "G" in apply require_bind_ok in H as [G H]
    | bind _ _ = Ok _ =>
        let v := fresh "v" in let E := fresh "E" in apply bind_ok in H as (v & E & H)
    | Ok _ = Ok _ => injection H as H
    end).

(** The same, leaving the final equation between results alone. *)
Ltac inv_bind H :=
  repeat (cbv beta in H;
    lazymatch type of H with
    | bind (require _ _) _ = Ok _ =>
        let G := fresh "G" in apply require_bind_ok in H as [G H]
    | bind _ _ = Ok _ =>
        let v := fresh "v" in let E := fresh "E" in apply bind_ok in H as (v & E & H)
    end).

(** Boolean guards as propositions. *)
Ltac to_prop :=
  repeat match goal with
  | H : (_ && _)%bool = true |- _ => apply andb_prop in H as [? ?]
  | H : (_ && _)%bool = false |- _ => apply andb_false_iff in H
  | H : (_ || _)%bool = true |- _ => apply orb_true_iff in H
  | H : (_ || _)%bool = false |- _ => apply orb_false_iff in H as [? ?]
  | H : negb _ = true |- _ => apply negb_true_iff in H
  | H : negb _ = false |- _ => apply negb_false_iff in H
  | H : (_ <=? _) = true |- _ => apply Z.leb_le in H
  | H : (_ <=? _) = false |- _ => apply Z.leb_gt in H
  | H : (_ <? _) = true |- _ => apply Z.ltb_lt in H
  | H : (_ <? _) = false |- _ => apply Z.ltb_ge in H
  | H : (_ =? _) = true |- _ => apply Z.eqb_eq in H
  | H : (_ =? _) = false |- _ => apply Z.eqb_neq in H
  end.

Lemma collect_forall {A B} (P : B -> Prop) (body : A -> outcome B) l r :
  (forall a b, In a l -> body a = Ok b -> P b) -> collect body l = Ok r -> Forall P r.
Proof.
  revert r; induction l as [|a l IH]; simpl; intros r H E; inv_ok E; subst; constructor; eauto.
Qed.

Create HintDb outcomes.
#[export] Hint Resolve defined_ok defined_throw defined_require : outcomes.
#[export] Hint Resolve defined_bind defined_require_bind defined_collect : outcomes.
