(* ===== verification/Bytes.v ===== *)
(** * Byte buffers

    [std::vector<std::uint8_t>] and [std::span<std::uint8_t>] as lists of byte
    values, the little-endian loads and stores the four files of
    [tooling/native] share (each declares its own copy), and the algebra of
    writes: what a read of a region sees after a write of another. *)

From Stdlib Require Import ZArith List Bool Lia String Ascii.
From S2P Require Import Prelude.
Import ListNotations.
Open Scope Z_scope.

Definition Bytes := list Z.

(** [data.size()] *)
Definition size {A : Type} (l : list A) : Z := Z.of_nat (List.length l).

(** The byte at a position, for stating properties (zero outside). *)
Definition byte_at (l : Bytes) (i : Z) : Z :=
  if i <? 0 then 0 else nth (Z.to_nat i) l 0.

(** [Bytes b(n)]: value-initialised. *)
Definition zeros (n : Z) : Bytes := repeat 0 (Z.to_nat n).

(** [data.subspan(at, n)], for ranges inside [data]. *)
Definition sub {A : Type} (l : list A) (at_ n : Z) : list A :=
  firstn (Z.to_nat n) (skipn (Z.to_nat at_) l).

(** The buffer after [std::copy(src.begin(), src.end(), l.begin() + at)]. *)
Definition put (l : Bytes) (at_ : Z) (src : Bytes) : Bytes :=
  firstn (Z.to_nat at_) l ++ src ++ skipn (Z.to_nat at_ + List.length src) l.

(** Little-endian value of a byte sequence, and the bytes of a value. *)
Fixpoint le_value (l : Bytes) : Z :=
  match l with
  | [] => 0
  | b :: l' => b + 256 * le_value l'
  end.

Fixpoint le_bytes (n : nat) (v : Z) : Bytes :=
  match n with
  | O => []
  | S n' => v mod 256 :: le_bytes n' (v / 256)
  end.

(** Every element is a byte. *)
Definition bytes_ok (l : Bytes) : Prop := Forall (fun b => 0 <= b < 256) l.

(** ** Accesses with C++'s definedness *)

(** [data\[i\]] *)
Definition index (l : Bytes) (i : Z) : outcome Z :=
  if (0 <=? i) && (i <? size l) then Ok (byte_at l i) else Undefined.

(** [data\[i\] = static_cast<std::uint8_t>(v)] *)
Definition store (l : Bytes) (i v : Z) : outcome Bytes :=
  if (0 <=? i) && (i <? size l) then Ok (put l i [u8 v]) else Undefined.

(** [data.subspan(at, n)]: undefined outside the span. *)
Definition subspan (l : Bytes) (at_ n : Z) : outcome Bytes :=
  if (0 <=? at_) && (0 <=? n) && (at_ + n <=? size l) then Ok (sub l at_ n) else Undefined.

(** [for (i = 0; i < n; ++i) value |= T(data\[at + i\]) << (i * 8)] *)
Definition load_le (n : nat) (l : Bytes) (at_ : Z) : outcome Z :=
  for_each (fun value i =>
      let! b := index l (at_ + i) in
      Ok (Z.lor value (Z.shiftl b (i * 8))))
    0 (indices 0 n).

(** [for (i = 0; i < n; ++i) data\[at + i\] = uint8_t(value >> (i * 8))] *)
Definition store_le (n : nat) (l : Bytes) (at_ value : Z) : outcome Bytes :=
  for_each (fun buffer i => store buffer (at_ + i) (Z.shiftr value (i * 8)))
    l (indices 0 n).

(** [require(at + n <= data.size(), message)], then the load: the shape of
    every field reader of [tooling/native], its [size_t] sum included. *)
Definition checked_load (message : string) (n : nat) (l : Bytes) (at_ : Z) : outcome Z :=
  do! require (u64 (at_ + Z.of_nat n) <=? size l) message in load_le n l at_.

(** [require(at + n <= data.size(), message)], then the store. *)
Definition checked_store (message : string) (n : nat) (l : Bytes) (at_ value : Z) : outcome Bytes :=
  do! require (u64 (at_ + Z.of_nat n) <=? size l) message in store_le n l at_ value.

(** [require(at <= target.size() && source.size() <= target.size() - at, ...)],
    then [std::copy]. *)
Definition checked_copy (target : Bytes) (at_ : Z) (source : Bytes) : outcome Bytes :=
  do! require ((at_ <=? size target) && (size source <=? size target - at_)) "copy outside output" in
  Ok (put target at_ source).

(** [v\[i\]] on a [std::vector]. *)
Definition vector_at {A : Type} (l : list A) (i : Z) : outcome A :=
  if i <? 0 then Undefined
  else match nth_error l (Z.to_nat i) with Some a => Ok a | None => Undefined end.

(** The values of [at] in [for (at = 0; at < limit; at += step)]. *)
Definition offsets_below (limit step : Z) : list Z :=
  map (Z.mul step) (indices 0 (Z.to_nat ((limit + step - 1) / step))).

(** The values of [at] in [for (at = 0; at + step <= limit; at += step)]. *)
Definition offsets_within (limit step : Z) : list Z :=
  map (Z.mul step) (indices 0 (Z.to_nat (limit / step))).

(** [offset <= length && size <= length - offset], in [uint64_t]. *)
Definition range_in_bounds (offset len length_ : Z) : bool :=
  (offset <=? length_) && (len <=? length_ - offset).

(** ** Strings: [std::string] as the sequence of its bytes *)

Definition byte_of_ascii (c : ascii) : Z := Z.of_N (N_of_ascii c).
Definition ascii_of_byte (b : Z) : ascii := ascii_of_N (Z.to_N b).

Definition bytes_of_string (s : string) : Bytes := map byte_of_ascii (list_ascii_of_string s).
Definition string_of_bytes (l : Bytes) : string := string_of_list_ascii (map ascii_of_byte l).

(** ** Sizes and positions *)

Lemma size_nonneg {A} (l : list A) : 0 <= size l.
Proof. unfold size; lia. Qed.

Lemma size_app {A} (l l' : list A) : size (l ++ l') = size l + size l'.
Proof. unfold size. rewrite length_app; lia. Qed.

Lemma size_cons {A} (a : A) l : size (a :: l) = 1 + size l.
Proof. unfold size. simpl List.length. lia. Qed.

Lemma size_nil {A} : size (@nil A) = 0.
Proof. reflexivity. Qed.

Lemma size_zeros n : 0 <= n -> size (zeros n) = n.
Proof. intros. unfold size, zeros. rewrite repeat_length. lia. Qed.

Lemma size_sub {A} (l : list A) a n :
  0 <= a -> 0 <= n -> a + n <= size l -> size (sub l a n) = n.
Proof.
  intros. unfold size, sub in *. rewrite length_firstn, length_skipn. lia.
Qed.

Lemma size_put l a src :
  0 <= a -> a + size src <= size l -> size (put l a src) = size l.
Proof.
  intros. unfold size, put in *. rewrite !length_app, length_firstn, length_skipn. lia.
Qed.

Lemma size_le_bytes n v : size (le_bytes n v) = Z.of_nat n.
Proof.
  revert v; induction n; intros v; [reflexivity|].
  cbn [le_bytes]. rewrite size_cons, IHn. lia.
Qed.

Lemma byte_at_out l i : i < 0 \/ size l <= i -> byte_at l i = 0.
Proof.
  unfold byte_at, size. intros H. destruct (i <? 0) eqn:E; to_prop; [reflexivity|].
  apply nth_overflow. lia.
Qed.

Lemma byte_at_app l l' i :
  byte_at (l ++ l') i = if i <? size l then byte_at l i else byte_at l' (i - size l).
Proof.
  unfold byte_at, size. destruct (i <? Z.of_nat (List.length l)) eqn:E; to_prop;
    destruct (i <? 0) eqn:F; to_prop; try lia; try reflexivity.
  - rewrite app_nth1 by lia. reflexivity.
  - destruct (i - Z.of_nat (List.length l) <? 0) eqn:K; to_prop; try lia.
    rewrite app_nth2 by lia. f_equal. lia.
Qed.

Lemma byte_at_firstn l n i :
  byte_at (firstn n l) i = if i <? Z.of_nat n then byte_at l i else 0.
Proof.
  unfold byte_at. destruct (i <? 0) eqn:F; to_prop.
  - destruct (i <? Z.of_nat n); reflexivity.
  - rewrite nth_firstn. destruct (i <? Z.of_nat n) eqn:E; to_prop;
      destruct (Nat.ltb (Z.to_nat i) n) eqn:K;
      rewrite ?Nat.ltb_lt, ?Nat.ltb_ge in K; try lia; reflexivity.
Qed.

Lemma byte_at_skipn l n i :
  0 <= i -> byte_at (skipn n l) i = byte_at l (Z.of_nat n + i).
Proof.
  intros. unfold byte_at. destruct (i <? 0) eqn:F; to_prop; try lia.
  destruct (Z.of_nat n + i <? 0) eqn:K; to_prop; try lia.
  rewrite nth_skipn. f_equal. lia.
Qed.

Lemma byte_at_zeros n i : byte_at (zeros n) i = 0.
Proof.
  unfold byte_at, zeros. destruct (i <? 0); [reflexivity|].
  apply nth_repeat.
Qed.

Lemma byte_at_sub l a n i :
  0 <= a -> 0 <= i < n -> byte_at (sub l a n) i = byte_at l (a + i).
Proof.
  intros. unfold sub. rewrite byte_at_firstn, byte_at_skipn by lia.
  destruct (i <? Z.of_nat (Z.to_nat n)) eqn:E; to_prop; [f_equal; lia|lia].
Qed.

(** The read-over-write rule every layout proof uses. *)
Lemma byte_at_put l a src i :
  0 <= a -> a + size src <= size l ->
  byte_at (put l a src) i =
  if (a <=? i) && (i <? a + size src) then byte_at src (i - a) else byte_at l i.
Proof.
  intros Ha Hb. unfold put. rewrite !byte_at_app, byte_at_firstn.
  assert (Hf : size (firstn (Z.to_nat a) l) = a)
    by (unfold size in *; rewrite length_firstn; lia).
  rewrite Hf.
  destruct (i <? a) eqn:E1; to_prop.
  - replace (a <=? i) with false by lia. cbn [andb].
    rewrite Z2Nat.id by lia. replace (i <? a) with true by lia. reflexivity.
  - replace (a <=? i) with true by lia. cbn [andb].
    destruct (i - a <? size src) eqn:E2; to_prop.
    + replace (i <? a + size src) with true by lia. reflexivity.
    + replace (i <? a + size src) with false by lia.
      rewrite byte_at_skipn by lia. f_equal. unfold size in *. lia.
Qed.

(** Two buffers of one size that agree on every position are equal. *)
Lemma bytes_ext l l' :
  size l = size l' -> (forall i, 0 <= i < size l -> byte_at l i = byte_at l' i) -> l = l'.
Proof.
  intros Hs Hb. apply (nth_ext _ _ 0 0); [unfold size in Hs; lia|].
  intros n Hn. specialize (Hb (Z.of_nat n)). unfold byte_at, size in *.
  destruct (Z.of_nat n <? 0) eqn:E; to_prop; [lia|].
  rewrite Nat2Z.id in Hb. apply Hb. lia.
Qed.

(** Equal regions: a read of [n] bytes only depends on those bytes. *)
Lemma sub_ext (l l' : Bytes) a n :
  0 <= a -> 0 <= n -> a + n <= size l -> a + n <= size l' ->
  (forall i, a <= i < a + n -> byte_at l i = byte_at l' i) -> sub l a n = sub l' a n.
Proof.
  intros Ha Hn Hl Hl' Hb.
  apply bytes_ext; rewrite !size_sub by assumption; [reflexivity|].
  intros i Hi. rewrite !byte_at_sub by lia. apply Hb. lia.
Qed.

Lemma sub_put_other l a src b n :
  0 <= a -> a + size src <= size l -> 0 <= b -> 0 <= n -> b + n <= size l ->
  b + n <= a \/ a + size src <= b ->
  sub (put l a src) b n = sub l b n.
Proof.
  intros. apply sub_ext; rewrite ?size_put by assumption; try lia.
  intros i Hi. rewrite byte_at_put by assumption.
  destruct ((a <=? i) && (i <? a + size src)) eqn:E; to_prop; [lia|reflexivity].
Qed.

Lemma sub_put_same l a src :
  0 <= a -> a + size src <= size l -> sub (put l a src) a (size src) = src.
Proof.
  intros Ha Hb. pose proof (size_nonneg src).
  apply bytes_ext; rewrite size_sub by (rewrite ?size_put by assumption; lia); [reflexivity|].
  intros i Hi. rewrite byte_at_sub, byte_at_put by lia.
  replace ((a <=? a + i) && (a + i <? a + size src)) with true by lia.
  f_equal. lia.
Qed.

(** A region inside a written region. *)
Lemma sub_put_inside l a src b n :
  0 <= a -> a + size src <= size l -> a <= b -> 0 <= n -> b + n <= a + size src ->
  sub (put l a src) b n = sub src (b - a) n.
Proof.
  intros. pose proof (size_nonneg src).
  apply bytes_ext; rewrite !size_sub by (rewrite ?size_put by assumption; lia); [reflexivity|].
  intros i Hi. rewrite !byte_at_sub, byte_at_put by lia.
  replace ((a <=? b + i) && (b + i <? a + size src)) with true by lia.
  f_equal. lia.
Qed.

Lemma sub_zeros n a k :
  0 <= a -> 0 <= k -> a + k <= n -> sub (zeros n) a k = zeros k.
Proof.
  intros. apply bytes_ext; rewrite size_sub by (rewrite ?size_zeros; lia).
  - rewrite size_zeros; lia.
  - intros i Hi. rewrite byte_at_sub, !byte_at_zeros by lia. reflexivity.
Qed.

Lemma sub_sub (l : Bytes) a n b m :
  0 <= a -> 0 <= n -> a + n <= size l -> 0 <= b -> 0 <= m -> b + m <= n ->
  sub (sub l a n) b m = sub l (a + b) m.
Proof.
  intros. apply bytes_ext; rewrite !size_sub by (rewrite ?size_sub; lia); [reflexivity|].
  intros i Hi. rewrite !byte_at_sub by lia. f_equal. lia.
Qed.

Lemma sub_all {A} (l : list A) : sub l 0 (size l) = l.
Proof. unfold sub, size. rewrite Nat2Z.id. simpl. apply firstn_all. Qed.

(** ** Byte ranges *)

Lemma bytes_ok_app l l' : bytes_ok (l ++ l') <-> bytes_ok l /\ bytes_ok l'.
Proof. apply Forall_app. Qed.

Lemma bytes_ok_firstn n l : bytes_ok l -> bytes_ok (firstn n l).
Proof. intros H. rewrite <- (firstn_skipn n l) in H. apply bytes_ok_app in H. tauto. Qed.

Lemma bytes_ok_skipn n l : bytes_ok l -> bytes_ok (skipn n l).
Proof. intros H. rewrite <- (firstn_skipn n l) in H. apply bytes_ok_app in H. tauto. Qed.

Lemma bytes_ok_sub (l : Bytes) a n : bytes_ok l -> bytes_ok (sub l a n).
Proof. intros. apply bytes_ok_firstn, bytes_ok_skipn. assumption. Qed.

Lemma bytes_ok_put l a src : bytes_ok l -> bytes_ok src -> bytes_ok (put l a src).
Proof.
  intros. unfold put. rewrite !bytes_ok_app.
  auto using bytes_ok_firstn, bytes_ok_skipn.
Qed.

Lemma bytes_ok_zeros n : bytes_ok (zeros n).
Proof.
  unfold bytes_ok, zeros. rewrite Forall_forall. intros b Hb.
  apply repeat_spec in Hb. lia.
Qed.

Lemma bytes_ok_le_bytes n v : bytes_ok (le_bytes n v).
Proof.
  revert v; induction n; intros v; constructor; [apply Z.mod_pos_bound; lia|apply IHn].
Qed.

Lemma bytes_ok_byte_at l i : bytes_ok l -> 0 <= byte_at l i < 256.
Proof.
  intros H. unfold byte_at. destruct (i <? 0); [lia|].
  destruct (Nat.ltb (Z.to_nat i) (List.length l)) eqn:E.
  - apply Nat.ltb_lt in E. unfold bytes_ok in H. rewrite Forall_forall in H.
    apply H, nth_In, E.
  - apply Nat.ltb_ge in E. rewrite nth_overflow by assumption. lia.
Qed.

(** ** Little-endian values *)

Lemma le_value_bytes n v : le_value (le_bytes n v) = v mod 256 ^ Z.of_nat n.
Proof.
  revert v; induction n; intros v; cbn [le_bytes le_value].
  - rewrite Z.mod_1_r. reflexivity.
  - rewrite IHn, Nat2Z.inj_succ, Z.pow_succ_r by lia.
    rewrite Z.rem_mul_r by lia. reflexivity.
Qed.

Lemma le_value_range l : bytes_ok l -> 0 <= le_value l < 256 ^ size l.
Proof.
  induction 1 as [|b l Hb _ IH]; [cbn; lia|].
  cbn [le_value]. rewrite size_cons, Z.pow_add_r by (pose proof (size_nonneg l); lia).
  change (256 ^ 1) with 256. lia.
Qed.

Lemma le_value_zeros n : le_value (zeros n) = 0.
Proof. unfold zeros. induction (Z.to_nat n); cbn [repeat le_value]; lia. Qed.

Lemma le_value_app l l' : le_value (l ++ l') = le_value l + 256 ^ size l * le_value l'.
Proof.
  induction l as [|b l IH]; [change (size []) with 0; rewrite Z.pow_0_r; cbn [app le_value]; lia|].
  cbn [app le_value]. rewrite IH, size_cons, Z.pow_add_r by (pose proof (size_nonneg l); lia).
  change (256 ^ 1) with 256. lia.
Qed.

Lemma le_bytes_mod n v : le_bytes n (v mod 256 ^ Z.of_nat n) = le_bytes n v.
Proof.
  revert v; induction n; intros v; cbn [le_bytes]; [reflexivity|].
  rewrite Nat2Z.inj_succ, Z.pow_succ_r by lia. f_equal.
  - rewrite Z.rem_mul_r by lia. rewrite Z.mul_comm, Z.mod_add by lia. apply Z.mod_mod; lia.
  - rewrite <- (IHn (v / 256)). f_equal.
    rewrite Z.rem_mul_r by lia. rewrite Z.mul_comm, Z.div_add by lia.
    rewrite Z.div_small by (apply Z.mod_pos_bound; lia). lia.
Qed.

(** A disjoint [lor] is an addition. *)
Lemma lor_shiftl_add v b k :
  0 <= k -> 0 <= v < 2 ^ k -> Z.lor v (Z.shiftl b k) = v + b * 2 ^ k.
Proof.
  intros Hk Hv.
  assert (D : Z.land v (Z.shiftl b k) = 0).
  { apply Z.bits_inj'. intros n Hn. rewrite Z.land_spec, Z.bits_0, Z.shiftl_spec by lia.
    destruct (Z.ltb_spec n k).
    - rewrite (Z.testbit_neg_r b) by lia. apply andb_false_r.
    - rewrite <- (Z.mod_small v (2 ^ k)), Z.mod_pow2_bits_high by lia. reflexivity. }
  rewrite <- Z.shiftl_mul_pow2 by lia.
  rewrite Z.add_nocarry_lxor by assumption.
  apply Z.bits_inj'. intros n Hn. rewrite Z.lor_spec, Z.lxor_spec.
  apply (f_equal (fun z => Z.testbit z n)) in D. rewrite Z.land_spec, Z.bits_0 in D.
  destruct (Z.testbit v n), (Z.testbit (Z.shiftl b k) n); simpl in *; congruence.
Qed.

Lemma byte_of_ascii_range c : 0 <= byte_of_ascii c < 256.
Proof. unfold byte_of_ascii. pose proof (N_ascii_bounded c). lia. Qed.

Lemma ascii_of_byte_of_ascii c : ascii_of_byte (byte_of_ascii c) = c.
Proof. unfold ascii_of_byte, byte_of_ascii. rewrite N2Z.id. apply ascii_N_embedding. Qed.

Lemma byte_of_ascii_of_byte b : 0 <= b < 256 -> byte_of_ascii (ascii_of_byte b) = b.
Proof.
  intros. unfold ascii_of_byte, byte_of_ascii. rewrite N_ascii_embedding by lia. lia.
Qed.

Lemma string_of_bytes_of_string s : string_of_bytes (bytes_of_string s) = s.
Proof.
  unfold string_of_bytes, bytes_of_string. rewrite map_map.
  rewrite (map_ext _ (fun c => c)) by (intros; apply ascii_of_byte_of_ascii).
  rewrite map_id. apply string_of_list_ascii_of_string.
Qed.

Lemma bytes_of_string_of_bytes l : bytes_ok l -> bytes_of_string (string_of_bytes l) = l.
Proof.
  intros H. unfold string_of_bytes, bytes_of_string.
  rewrite list_ascii_of_string_of_list_ascii, map_map.
  induction H as [|b l Hb _ IH]; simpl; [reflexivity|].
  rewrite byte_of_ascii_of_byte by assumption. congruence.
Qed.

Lemma bytes_ok_string s : bytes_ok (bytes_of_string s).
Proof.
  unfold bytes_ok, bytes_of_string. rewrite Forall_map, Forall_forall.
  intros c _. apply byte_of_ascii_range.
Qed.

(** ** Loads and stores: when they are defined and what they do *)

Lemma index_ok l i : 0 <= i < size l -> index l i = Ok (byte_at l i).
Proof. intros. unfold index. replace ((0 <=? i) && (i <? size l)) with true by lia. reflexivity. Qed.

Lemma store_ok l i v : 0 <= i < size l -> store l i v = Ok (put l i [u8 v]).
Proof. intros. unfold store. replace ((0 <=? i) && (i <? size l)) with true by lia. reflexivity. Qed.

Lemma subspan_ok (l : Bytes) a n : 0 <= a -> 0 <= n -> a + n <= size l -> subspan l a n = Ok (sub l a n).
Proof.
  intros. unfold subspan.
  replace ((0 <=? a) && (0 <=? n) && (a + n <=? size l)) with true by lia. reflexivity.
Qed.

Lemma subspan_inv (l : Bytes) a n r :
  subspan l a n = Ok r -> 0 <= a /\ 0 <= n /\ a + n <= size l /\ r = sub l a n.
Proof.
  unfold subspan. destruct (_ && _) eqn:G; [|discriminate].
  intros H; injection H as <-. to_prop. auto.
Qed.

Lemma sub_cons (l : Bytes) a n :
  0 <= a -> 0 < n -> a + n <= size l -> sub l a n = byte_at l a :: sub l (a + 1) (n - 1).
Proof.
  intros. apply bytes_ext.
  - rewrite size_cons, !size_sub by lia. lia.
  - rewrite size_sub by lia. intros i Hi. rewrite byte_at_sub by lia.
    destruct (Z.eqb_spec i 0) as [->|Hne].
    + rewrite Z.add_0_r. reflexivity.
    + change (byte_at l a :: sub l (a + 1) (n - 1)) with ([byte_at l a] ++ sub l (a + 1) (n - 1)).
      rewrite byte_at_app. change (size [byte_at l a]) with 1.
      replace (i <? 1) with false by lia. rewrite byte_at_sub by lia. f_equal. lia.
Qed.

Lemma sub_snoc (l : Bytes) a n :
  0 <= a -> 0 <= n -> a + n < size l -> sub l a (n + 1) = sub l a n ++ [byte_at l (a + n)].
Proof.
  intros. apply bytes_ext.
  - rewrite size_app, !size_sub by lia. reflexivity.
  - rewrite size_sub by lia. intros i Hi. rewrite byte_at_app, size_sub by lia.
    rewrite byte_at_sub by lia. destruct (i <? n) eqn:E; to_prop.
    + rewrite byte_at_sub by lia. reflexivity.
    + replace i with n by lia. rewrite Z.sub_diag. reflexivity.
Qed.

Lemma indices_snoc first n :
  indices first (S n) = indices first n ++ [first + Z.of_nat n].
Proof.
  revert first; induction n; intros first.
  - cbn [indices app]. f_equal. lia.
  - change (indices first (S (S n))) with (first :: indices (first + 1) (S n)).
    rewrite IHn. cbn [indices app]. do 2 f_equal. f_equal. lia.
Qed.

Lemma load_le_ok n l a :
  bytes_ok l -> 0 <= a -> a + Z.of_nat n <= size l ->
  load_le n l a = Ok (le_value (sub l a (Z.of_nat n))).
Proof.
  intros Hl Ha. unfold load_le. induction n; intros Hb; [reflexivity|].
  rewrite indices_snoc, for_each_app, IHn by lia. cbn [bind for_each].
  rewrite index_ok by lia. cbn [bind]. f_equal.
  rewrite Nat2Z.inj_succ, <- Z.add_1_r, sub_snoc, le_value_app by lia.
  rewrite size_sub by lia. cbn [le_value].
  pose proof (le_value_range _ (bytes_ok_sub l a (Z.of_nat n) Hl)) as R.
  rewrite size_sub in R by lia.
  replace (256 ^ Z.of_nat n) with (2 ^ (Z.of_nat n * 8)) in *
    by (rewrite Z.mul_comm, Z.pow_mul_r by lia; reflexivity).
  rewrite Z.add_0_l in *. rewrite lor_shiftl_add by lia. lia.
Qed.

(** The little-endian field of [n] bytes at [at_]. *)
Definition field (data : Bytes) (at_ n : Z) : Z := le_value (sub data at_ n).

Lemma field_range data a n :
  bytes_ok data -> 0 <= a -> 0 <= n -> a + n <= size data -> 0 <= field data a n < 256 ^ n.
Proof.
  intros H Ha Hn Hb. unfold field. rewrite <- (size_sub data a n) at 3 by assumption.
  apply le_value_range. auto using bytes_ok_sub.
Qed.

Lemma checked_load_spec message n data a :
  bytes_ok data -> 0 <= a -> a + Z.of_nat n < 2 ^ 64 ->
  checked_load message n data a =
  if a + Z.of_nat n <=? size data then Ok (field data a (Z.of_nat n)) else Throw message.
Proof.
  intros H Ha Hb. unfold checked_load. rewrite u64_small by lia.
  destruct (a + Z.of_nat n <=? size data) eqn:E; to_prop; [|reflexivity].
  apply load_le_ok; assumption.
Qed.

Lemma defined_checked_load {B} message n data a (k : Z -> outcome B) :
  bytes_ok data -> 0 <= a -> a + Z.of_nat n < 2 ^ 64 ->
  (forall v, a + Z.of_nat n <= size data -> v = field data a (Z.of_nat n) ->
     0 <= v < 256 ^ Z.of_nat n -> defined (k v)) ->
  defined (bind (checked_load message n data a) k).
Proof.
  intros H Ha Hb Hk. rewrite checked_load_spec by assumption.
  destruct (_ <=? _) eqn:E; to_prop; [|apply defined_throw].
  cbn [bind]. apply Hk; [assumption|reflexivity|apply field_range; auto; lia].
Qed.

Lemma vector_at_ok {A} (l : list A) i : 0 <= i < size l -> exists a, vector_at l i = Ok a /\ In a l.
Proof.
  intros H. unfold vector_at, size in *. replace (i <? 0) with false by lia.
  destruct (nth_error l (Z.to_nat i)) as [a|] eqn:E; [|apply nth_error_None in E; lia].
  exists a. split; [reflexivity|]. eapply nth_error_In, E.
Qed.

Lemma vector_at_nth {A} (l : list A) i d : 0 <= i < size l -> vector_at l i = Ok (nth (Z.to_nat i) l d).
Proof.
  intros H. unfold vector_at, size in *. replace (i <? 0) with false by lia.
  rewrite (nth_error_nth' l d) by lia. reflexivity.
Qed.

Lemma put_put_adjacent l a s s' :
  0 <= a -> a + size s + size s' <= size l ->
  put (put l a s) (a + size s) s' = put l a (s ++ s').
Proof.
  intros Ha Hb. pose proof (size_nonneg s). pose proof (size_nonneg s').
  assert (S1 : size (put l a s) = size l) by (apply size_put; lia).
  assert (S2 : size (put l a (s ++ s')) = size l) by (apply size_put; rewrite ?size_app; lia).
  apply bytes_ext; [rewrite size_put; lia|].
  intros i Hi. rewrite !byte_at_put by (rewrite ?size_app; lia).
  rewrite size_app, byte_at_app.
  destruct (a + size s <=? i) eqn:E1, (i <? a + size s + size s') eqn:E2,
    (a <=? i) eqn:E3, (i <? a + size s) eqn:E4, (i <? a + (size s + size s')) eqn:E5,
    (i - a <? size s) eqn:E6; cbn [andb]; to_prop; try lia; try reflexivity.
  f_equal. lia.
Qed.

Lemma le_bytes_snoc n v :
  le_bytes (S n) v = le_bytes n v ++ [(v / 256 ^ Z.of_nat n) mod 256].
Proof.
  revert v; induction n; intros v.
  - cbn [le_bytes app]. rewrite Z.div_1_r. reflexivity.
  - change (le_bytes (S (S n)) v) with (v mod 256 :: le_bytes (S n) (v / 256)).
    rewrite IHn. cbn [le_bytes app]. do 3 f_equal.
    rewrite Z.div_div by (try apply Z.pow_nonzero; lia).
    rewrite Nat2Z.inj_succ, Z.pow_succ_r by lia. reflexivity.
Qed.

Lemma store_le_ok n l a v :
  0 <= a -> a + Z.of_nat n <= size l -> store_le n l a v = Ok (put l a (le_bytes n v)).
Proof.
  intros Ha. unfold store_le. induction n; intros Hb.
  - cbn [indices for_each le_bytes]. f_equal.
    apply bytes_ext; [rewrite size_put; rewrite ?size_nil; lia|].
    intros i Hi. rewrite byte_at_put, size_nil by (rewrite ?size_nil; lia).
    destruct ((a <=? i) && (i <? a + 0)) eqn:E; [exfalso; lia|reflexivity].
  - rewrite indices_snoc, for_each_app, IHn by lia. cbn [bind for_each].
    rewrite store_ok by (rewrite size_put; rewrite ?size_le_bytes; lia). cbn [bind].
    rewrite <- (size_le_bytes n v), put_put_adjacent
      by (rewrite ?size_le_bytes; change (size [_]) with 1; lia).
    rewrite le_bytes_snoc. do 4 f_equal.
    unfold u8. change (2 ^ 8) with 256. f_equal.
    rewrite size_le_bytes, Z.shiftr_div_pow2, Z.mul_comm, Z.pow_mul_r by lia. reflexivity.
Qed.

Lemma checked_store_ok message n l a v :
  0 <= a -> a + Z.of_nat n <= size l -> size l < 2 ^ 64 ->
  checked_store message n l a v = Ok (put l a (le_bytes n v)).
Proof.
  intros Ha Hb Hs. unfold checked_store. rewrite u64_small by lia.
  replace (a + Z.of_nat n <=? size l) with true by lia. cbn [require bind]. apply store_le_ok; lia.
Qed.

Lemma checked_copy_ok l a s : a + size s <= size l -> checked_copy l a s = Ok (put l a s).
Proof.
  intros. pose proof (size_nonneg s). unfold checked_copy.
  replace ((a <=? size l) && (size s <=? size l - a)) with true by lia. reflexivity.
Qed.

(** A store or a copy inside a chain. *)
Lemma bind_checked_store {B} message n l a v (k : Bytes -> outcome B) r :
  0 <= a -> a + Z.of_nat n <= size l -> size l < 2 ^ 64 ->
  (size (put l a (le_bytes n v)) = size l -> k (put l a (le_bytes n v)) = r) ->
  bind (checked_store message n l a v) k = r.
Proof.
  intros Ha Hb Hs Hk. rewrite checked_store_ok by assumption. cbn [bind]. apply Hk.
  apply size_put; [lia|rewrite size_le_bytes; lia].
Qed.

Lemma in_offsets_below at_ limit step :
  0 < step -> In at_ (offsets_below limit step) -> 0 <= at_ < limit /\ at_ mod step = 0.
Proof.
  intros Hs H. unfold offsets_below in H. apply in_map_iff in H as (k & <- & Hk).
  apply in_indices in Hk.
  pose proof (Z.mul_div_le (limit + step - 1) step Hs).
  split; [nia|]. rewrite Z.mul_comm. apply Z.mod_mul. lia.
Qed.

Lemma in_offsets_within at_ limit step :
  0 < step -> In at_ (offsets_within limit step) -> 0 <= at_ /\ at_ + step <= limit.
Proof.
  intros Hs H. unfold offsets_within in H. apply in_map_iff in H as (k & <- & Hk).
  apply in_indices in Hk. pose proof (Z.mul_div_le limit step Hs). nia.
Qed.

(** Reading a field: the outcome of [load_le] after writes, in one step. *)
Lemma sub_put_le l a n v :
  0 <= a -> a + Z.of_nat n <= size l ->
  sub (put l a (le_bytes n v)) a (Z.of_nat n) = le_bytes n v.
Proof.
  intros. rewrite <- (size_le_bytes n v). apply sub_put_same; rewrite ?size_le_bytes; lia.
Qed.

Lemma byte_at_le_bytes_0 n i : byte_at (le_bytes n 0) i = 0.
Proof.
  unfold byte_at. destruct (i <? 0); [reflexivity|]. generalize (Z.to_nat i) as k.
  induction n as [|n IH]; intros [|k]; cbn [le_bytes nth]; try reflexivity. apply IH.
Qed.

Create Rewrite HintDb sizes.
Create HintDb bytes.
#[export] Hint Rewrite @size_app @size_cons @size_nil size_le_bytes : sizes.
#[export] Hint Rewrite size_zeros @size_sub size_put using lia : sizes.

(** Sizes, then arithmetic. *)
Ltac sizes := autorewrite with sizes in *; try lia.

#[export] Hint Resolve bytes_ok_zeros bytes_ok_le_bytes bytes_ok_sub bytes_ok_put
  bytes_ok_string : bytes.
