(* ===== verification/Writes.v ===== *)
(** * Logs of writes

    A container or a module image is built by writing fields and blocks at
    ascending offsets of one zeroed buffer.  A log lists those writes; an
    ascending log is one in which no write overlaps an earlier one, so every
    block can be read back from the finished buffer and every byte no block
    covers keeps its initial value. *)

From Stdlib Require Import ZArith List Bool Lia.
From S2P Require Import Prelude Bytes.
Import ListNotations.
Open Scope Z_scope.

(** A write: where, and the bytes. *)
Definition write : Type := Z * Bytes.

Definition apply_writes (l : Bytes) (ws : list write) : Bytes :=
  fold_left (fun l w => put l (fst w) (snd w)) ws l.

(** The writes start at or after [lo], each ends before the next starts, and
    the last one ends at or before [hi]. *)
Fixpoint ascending (lo : Z) (ws : list write) (hi : Z) : Prop :=
  match ws with
  | [] => lo <= hi
  | w :: ws' => lo <= fst w /\ ascending (fst w + size (snd w)) ws' hi
  end.

(** Whether a write of the log covers a position. *)
Definition covers (w : write) (i : Z) : bool := (fst w <=? i) && (i <? fst w + size (snd w)).
Definition covered (ws : list write) (i : Z) : bool := existsb (fun w => covers w i) ws.

Lemma apply_writes_app l ws ws' :
  apply_writes l (ws ++ ws') = apply_writes (apply_writes l ws) ws'.
Proof. apply fold_left_app. Qed.

Lemma ascending_le lo ws hi : ascending lo ws hi -> lo <= hi.
Proof.
  revert lo; induction ws as [|w ws IH]; simpl; intros lo; [auto|].
  intros [H A]. apply IH in A. pose proof (size_nonneg (snd w)). lia.
Qed.

Lemma ascending_app lo ws mid ws' hi :
  ascending lo ws mid -> ascending mid ws' hi -> ascending lo (ws ++ ws') hi.
Proof.
  revert lo; induction ws as [|w ws IH]; simpl; intros lo.
  - intros H. destruct ws'; simpl; intros; [lia|]. intuition lia.
  - intros [H A] A'. auto.
Qed.

Lemma ascending_weaken lo ws hi lo' hi' :
  lo' <= lo -> hi <= hi' -> ascending lo ws hi -> ascending lo' ws hi'.
Proof.
  intros H. revert lo lo' H; induction ws as [|w ws IH]; simpl; intros lo lo' H H'; [lia|].
  intros [A B]. split; [lia|]. apply (IH (fst w + size (snd w))); [lia|assumption|assumption].
Qed.

(** Concatenating logs produced by a loop over indices. *)
Lemma ascending_flat_map (f : Z -> list write) (at_ : Z -> Z) first n :
  (forall i, first <= i < first + Z.of_nat n -> ascending (at_ i) (f i) (at_ (i + 1))) ->
  ascending (at_ first) (flat_map f (indices first n)) (at_ (first + Z.of_nat n)).
Proof.
  revert first; induction n as [|n IH]; intros first H; cbn [indices flat_map ascending].
  - rewrite Z.add_0_r. lia.
  - eapply ascending_app; [apply H; lia|].
    replace (first + Z.of_nat (S n)) with (first + 1 + Z.of_nat n) by lia.
    apply IH. intros i Hi. apply H. lia.
Qed.

Lemma size_apply_writes lo ws hi l :
  0 <= lo -> ascending lo ws hi -> hi <= size l -> size (apply_writes l ws) = size l.
Proof.
  unfold apply_writes. revert lo l; induction ws as [|w ws IH]; simpl; intros lo l H; [auto|].
  intros [A B] Hh. pose proof (ascending_le _ _ _ B). pose proof (size_nonneg (snd w)).
  rewrite (IH (fst w + size (snd w))); [apply size_put; lia|lia|assumption|].
  rewrite size_put by lia. lia.
Qed.

Lemma bytes_ok_apply_writes ws l :
  bytes_ok l -> Forall (fun w => bytes_ok (snd w)) ws -> bytes_ok (apply_writes l ws).
Proof.
  unfold apply_writes. revert l; induction ws as [|w ws IH]; simpl; intros l Hl H; [assumption|].
  inversion H; subst. auto with bytes.
Qed.

(** A position no write covers keeps its byte. *)
Lemma byte_at_apply_other lo ws hi l i :
  0 <= lo -> ascending lo ws hi -> hi <= size l -> covered ws i = false ->
  byte_at (apply_writes l ws) i = byte_at l i.
Proof.
  unfold apply_writes. revert lo l; induction ws as [|w ws IH]; simpl; intros lo l H; [auto|].
  intros [A B] Hh Hc. pose proof (ascending_le _ _ _ B). pose proof (size_nonneg (snd w)).
  apply orb_false_iff in Hc as [C1 C2].
  rewrite (IH (fst w + size (snd w))); try assumption; [|lia|rewrite size_put by lia; lia].
  rewrite byte_at_put by lia. unfold covers in C1. rewrite C1. reflexivity.
Qed.

Lemma ascending_not_covered lo ws hi i :
  ascending lo ws hi -> i < lo -> covered ws i = false.
Proof.
  revert lo; induction ws as [|w ws IH]; simpl; intros lo; [auto|].
  intros [A B] Hi. pose proof (size_nonneg (snd w)). unfold covers.
  replace (fst w <=? i) with false by lia. cbn [andb orb].
  apply (IH (fst w + size (snd w))); [assumption|lia].
Qed.

(** A block of an ascending log reads back. *)
Lemma apply_writes_read lo ws hi l a s :
  0 <= lo -> ascending lo ws hi -> hi <= size l -> In (a, s) ws ->
  sub (apply_writes l ws) a (size s) = s /\ 0 <= a /\ a + size s <= hi.
Proof.
  revert lo l; induction ws as [|w ws IH]; simpl; intros lo l H; [tauto|].
  intros [A B] Hh Hin. pose proof (ascending_le _ _ _ B). pose proof (size_nonneg (snd w)).
  destruct Hin as [->|Hin]; simpl in *.
  - split; [|lia]. change (apply_writes l ((a, s) :: ws)) with (apply_writes (put l a s) ws).
    assert (Hs : size (put l a s) = size l) by (apply size_put; lia).
    transitivity (sub (put l a s) a (size s)); [|apply sub_put_same; lia].
    apply sub_ext; try lia.
    + rewrite (size_apply_writes (a + size s) ws hi); try assumption; lia.
    + intros i Hi. apply (byte_at_apply_other (a + size s) ws hi); try assumption; [lia|lia|].
      apply (ascending_not_covered (a + size s) ws hi); [assumption|lia].
  - change (apply_writes l (w :: ws)) with (apply_writes (put l (fst w) (snd w)) ws).
    apply (IH (fst w + size (snd w))); try assumption; [lia|].
    rewrite size_put by lia. lia.
Qed.

(** The same for one block after the rest of the log has been appended. *)
Lemma apply_writes_field lo ws hi l a n v :
  0 <= lo -> ascending lo ws hi -> hi <= size l -> In (a, le_bytes n v) ws ->
  sub (apply_writes l ws) a (Z.of_nat n) = le_bytes n v /\ 0 <= a /\ a + Z.of_nat n <= hi.
Proof.
  intros H A Hh Hin. pose proof (apply_writes_read _ _ _ _ _ _ H A Hh Hin) as R.
  rewrite size_le_bytes in R. exact R.
Qed.

(** A loop whose body performs a log of writes performs their concatenation. *)
Lemma for_each_writes (body : Bytes -> Z -> outcome Bytes) (f : Z -> list write) js l n :
  (forall l i, In i js -> size l = n -> body l i = Ok (apply_writes l (f i)) /\
                size (apply_writes l (f i)) = n) ->
  size l = n ->
  for_each body l js = Ok (apply_writes l (flat_map f js)).
Proof.
  revert l; induction js as [|i js IH]; simpl; intros l H Hl; [reflexivity|].
  destruct (H l i) as [E S]; auto. rewrite E. cbn [bind].
  rewrite apply_writes_app. apply IH; auto.
Qed.
