(* ===== verification/Hash.v ===== *)
(** * SHA-1 and SHA-256 ([src/tooling/native/hash.hpp])

    The two digests the toolchain computes: FSELF integrity digests and build
    identifiers.  The model keeps the code's arrays, loop bounds and 32-bit
    wrap-around, and its unchecked pointer reads ([load_be32]) are undefined
    outside the padded message.  The lemmas show that the padding is the
    FIPS 180-4 one, that it can be undone, and that both digests are defined on
    every input. *)

From Stdlib Require Import ZArith List Bool Lia String.
From S2P Require Import Prelude Bytes.
Import ListNotations.
Open Scope Z_scope.

(** ** [ps5::crypto::detail] *)

(** [while ((data.size() % 64) != 56) data.push_back(0);]: at most 63 rounds. *)
Fixpoint pad_zeros (fuel : nat) (data : Bytes) : Bytes :=
  match fuel with
  | O => data
  | S n => if size data mod 64 =? 56 then data else pad_zeros n (data ++ [0])
  end.

Definition pad (input : Bytes) : Bytes :=
  let bit_count := u64 (size input * 8) in
  let data := pad_zeros 64 (input ++ [0x80]) in
  data ++ map (fun shift => u8 (Z.shiftr bit_count shift)) [56; 48; 40; 32; 24; 16; 8; 0].

Definition load_be32 (data : Bytes) (at_ : Z) : outcome Z :=
  let! b0 := index data at_ in
  let! b1 := index data (at_ + 1) in
  let! b2 := index data (at_ + 2) in
  let! b3 := index data (at_ + 3) in
  Ok (Z.lor (Z.lor (Z.lor (Z.shiftl b0 24) (Z.shiftl b1 16)) (Z.shiftl b2 8)) b3).

(** The four bytes of each word, most significant first. *)
Definition store_words (words : list Z) : Bytes :=
  flat_map (fun w => [u8 (Z.shiftr w 24); u8 (Z.shiftr w 16); u8 (Z.shiftr w 8); u8 w]) words.

(** [std::rotl], [std::rotr] and [~] on [std::uint32_t]. *)
Definition rotl (x s : Z) : Z := u32 (Z.lor (Z.shiftl x s) (Z.shiftr x (32 - s))).
Definition rotr (x s : Z) : Z := u32 (Z.lor (Z.shiftr x s) (Z.shiftl x (32 - s))).
Definition not32 (x : Z) : Z := u32 (Z.lnot x).

(** [w\[i\]] of a word array. *)
Definition word (w : list Z) (i : Z) : Z := byte_at w i.

(** [for (i = 0; i < 16; ++i) w\[i\] = load_be32(data.data() + offset + i * 4);] *)
Definition load_block (data : Bytes) (offset : Z) (w : list Z) : outcome (list Z) :=
  for_each (fun w i => let! x := load_be32 data (offset + i * 4) in Ok (put w i [x]))
    w (indices 0 16).

(** ** [sha1] *)

Definition sha1_init : list Z :=
  [0x67452301; 0xEFCDAB89; 0x98BADCFE; 0x10325476; 0xC3D2E1F0].

Definition sha1_expand (w : list Z) : list Z :=
  fold_left (fun w i =>
      put w i [rotl (Z.lxor (Z.lxor (Z.lxor (word w (i - 3)) (word w (i - 8)))
                              (word w (i - 14))) (word w (i - 16))) 1])
    (indices 16 64) w.

Definition sha1_fk (i b c d : Z) : Z * Z :=
  if i <? 20 then (Z.lor (Z.land b c) (Z.land (not32 b) d), 0x5A827999)
  else if i <? 40 then (Z.lxor (Z.lxor b c) d, 0x6ED9EBA1)
  else if i <? 60 then (Z.lor (Z.lor (Z.land b c) (Z.land b d)) (Z.land c d), 0x8F1BBCDC)
  else (Z.lxor (Z.lxor b c) d, 0xCA62C1D6).

Definition sha1_round (w : list Z) (s : Z * Z * Z * Z * Z) (i : Z) : Z * Z * Z * Z * Z :=
  let '(a, b, c, d, e) := s in
  let '(f, k) := sha1_fk i b c d in
  let next := u32 (rotl a 5 + f + e + k + word w i) in
  (next, a, rotl b 30, c, d).

Definition sha1_block (data : Bytes) (state : list Z) (offset : Z) : outcome (list Z) :=
  let! w0 := load_block data offset (zeros 80) in
  let w := sha1_expand w0 in
  match state with
  | [s0; s1; s2; s3; s4] =>
      let '(a, b, c, d, e) := fold_left (sha1_round w) (indices 0 80) (s0, s1, s2, s3, s4) in
      Ok [u32 (s0 + a); u32 (s1 + b); u32 (s2 + c); u32 (s3 + d); u32 (s4 + e)]
  | _ => Undefined
  end.

Definition sha1 (input : Bytes) : outcome Bytes :=
  let data := pad input in
  let! state := for_each (sha1_block data) sha1_init (offsets_below (size data) 64) in
  Ok (store_words state).

(** ** [sha256] *)

Definition sha256_k : list Z :=
  [0x428A2F98; 0x71374491; 0xB5C0FBCF; 0xE9B5DBA5; 0x3956C25B; 0x59F111F1; 0x923F82A4;
   0xAB1C5ED5; 0xD807AA98; 0x12835B01; 0x243185BE; 0x550C7DC3; 0x72BE5D74; 0x80DEB1FE;
   0x9BDC06A7; 0xC19BF174; 0xE49B69C1; 0xEFBE4786; 0x0FC19DC6; 0x240CA1CC; 0x2DE92C6F;
   0x4A7484AA; 0x5CB0A9DC; 0x76F988DA; 0x983E5152; 0xA831C66D; 0xB00327C8; 0xBF597FC7;
   0xC6E00BF3; 0xD5A79147; 0x06CA6351; 0x14292967; 0x27B70A85; 0x2E1B2138; 0x4D2C6DFC;
   0x53380D13; 0x650A7354; 0x766A0ABB; 0x81C2C92E; 0x92722C85; 0xA2BFE8A1; 0xA81A664B;
   0xC24B8B70; 0xC76C51A3; 0xD192E819; 0xD6990624; 0xF40E3585; 0x106AA070; 0x19A4C116;
   0x1E376C08; 0x2748774C; 0x34B0BCB5; 0x391C0CB3; 0x4ED8AA4A; 0x5B9CCA4F; 0x682E6FF3;
   0x748F82EE; 0x78A5636F; 0x84C87814; 0x8CC70208; 0x90BEFFFA; 0xA4506CEB; 0xBEF9A3F7;
   0xC67178F2].

Definition sha256_init : list Z :=
  [0x6A09E667; 0xBB67AE85; 0x3C6EF372; 0xA54FF53A; 0x510E527F; 0x9B05688C; 0x1F83D9AB;
   0x5BE0CD19].

Definition sha256_expand (w : list Z) : list Z :=
  fold_left (fun w i =>
      let s0 := Z.lxor (Z.lxor (rotr (word w (i - 15)) 7) (rotr (word w (i - 15)) 18))
                  (Z.shiftr (word w (i - 15)) 3) in
      let s1 := Z.lxor (Z.lxor (rotr (word w (i - 2)) 17) (rotr (word w (i - 2)) 19))
                  (Z.shiftr (word w (i - 2)) 10) in
      put w i [u32 (word w (i - 16) + s0 + word w (i - 7) + s1)])
    (indices 16 48) w.

Definition sha256_round (w : list Z) (s : Z * Z * Z * Z * Z * Z * Z * Z) (i : Z)
  : Z * Z * Z * Z * Z * Z * Z * Z :=
  let '(a, b, c, d, e, f, g, h) := s in
  let s1 := Z.lxor (Z.lxor (rotr e 6) (rotr e 11)) (rotr e 25) in
  let choose := Z.lxor (Z.land e f) (Z.land (not32 e) g) in
  let t1 := u32 (h + s1 + choose + word sha256_k i + word w i) in
  let s0 := Z.lxor (Z.lxor (rotr a 2) (rotr a 13)) (rotr a 22) in
  let majority := Z.lxor (Z.lxor (Z.land a b) (Z.land a c)) (Z.land b c) in
  let t2 := u32 (s0 + majority) in
  (u32 (t1 + t2), a, b, c, u32 (d + t1), e, f, g).

Definition sha256_block (data : Bytes) (state : list Z) (offset : Z) : outcome (list Z) :=
  let! w0 := load_block data offset (zeros 64) in
  let w := sha256_expand w0 in
  match state with
  | [s0; s1; s2; s3; s4; s5; s6; s7] =>
      let '(a, b, c, d, e, f, g, h) :=
        fold_left (sha256_round w) (indices 0 64) (s0, s1, s2, s3, s4, s5, s6, s7) in
      Ok [u32 (s0 + a); u32 (s1 + b); u32 (s2 + c); u32 (s3 + d);
          u32 (s4 + e); u32 (s5 + f); u32 (s6 + g); u32 (s7 + h)]
  | _ => Undefined
  end.

Definition sha256 (input : Bytes) : outcome Bytes :=
  let data := pad input in
  let! state := for_each (sha256_block data) sha256_init (offsets_below (size data) 64) in
  Ok (store_words state).

(** ** Published test vectors *)

Example sha1_abc :
  sha1 (bytes_of_string "abc") =
  Ok [0xA9; 0x99; 0x3E; 0x36; 0x47; 0x06; 0x81; 0x6A; 0xBA; 0x3E;
      0x25; 0x71; 0x78; 0x50; 0xC2; 0x6C; 0x9C; 0xD0; 0xD8; 0x9D].
Proof. vm_compute. reflexivity. Qed.

Example sha256_abc :
  sha256 (bytes_of_string "abc") =
  Ok [0xBA; 0x78; 0x16; 0xBF; 0x8F; 0x01; 0xCF; 0xEA; 0x41; 0x41; 0x40; 0xDE; 0x5D; 0xAE; 0x22; 0x23;
      0xB0; 0x03; 0x61; 0xA3; 0x96; 0x17; 0x7A; 0x9C; 0xB4; 0x10; 0xFF; 0x61; 0xF2; 0x00; 0x15; 0xAD].
Proof. vm_compute. reflexivity. Qed.

Example sha256_two_blocks :
  sha256 (bytes_of_string "abcdbcdecdefdefgefghfghighijhijkijkljklmklmnlmnomnopnopq") =
  Ok [0x24; 0x8D; 0x6A; 0x61; 0xD2; 0x06; 0x38; 0xB8; 0xE5; 0xC0; 0x26; 0x93; 0x0C; 0x3E; 0x60; 0x39;
      0xA3; 0x3C; 0xE4; 0x59; 0x64; 0xFF; 0x21; 0x67; 0xF6; 0xEC; 0xED; 0xD4; 0x19; 0xDB; 0x06; 0xC1].
Proof. vm_compute. reflexivity. Qed.

(** ** Padding *)

(** FIPS 180-4, 5.1.1: a one bit, [k] zero bits with [l + 1 + k = 448 mod 512],
    and the 64-bit big-endian bit length. *)
Definition fips_pad (input : Bytes) : Bytes :=
  input ++ [0x80] ++ zeros ((55 - size input) mod 64) ++ rev (le_bytes 8 (size input * 8)).

Lemma zeros_succ n : 0 <= n -> zeros (n + 1) = 0 :: zeros n.
Proof. intros. unfold zeros. rewrite Z2Nat.inj_add by lia. rewrite Nat.add_1_r. reflexivity. Qed.

Lemma pad_zeros_spec fuel data :
  (56 - size data) mod 64 <= Z.of_nat fuel ->
  pad_zeros fuel data = data ++ zeros ((56 - size data) mod 64).
Proof.
  revert data; induction fuel; intros data Hf; cbn [pad_zeros].
  - pose proof (Z.mod_pos_bound (56 - size data) 64).
    replace ((56 - size data) mod 64) with 0 by lia. symmetry. apply app_nil_r.
  - destruct (Z.eqb_spec (size data mod 64) 56) as [E|E].
    + replace ((56 - size data) mod 64) with 0; [symmetry; apply app_nil_r|].
      Z.div_mod_to_equations; lia.
    + assert (S : (56 - size data) mod 64 = (56 - size (data ++ [0])) mod 64 + 1).
      { rewrite size_app. change (size [0]) with 1. Z.div_mod_to_equations; lia. }
      rewrite IHfuel, <- app_assoc by lia.
      rewrite S, zeros_succ; [reflexivity|apply Z.mod_pos_bound; lia].
Qed.

Lemma be_length_bytes v :
  0 <= v -> map (fun shift => u8 (Z.shiftr v shift)) [56; 48; 40; 32; 24; 16; 8; 0] = rev (le_bytes 8 v).
Proof.
  intros. cbn [map le_bytes rev app]. unfold u8. change (2 ^ 8) with 256.
  rewrite !Z.shiftr_div_pow2, !Z.div_div, Z.div_1_r by lia. reflexivity.
Qed.

Lemma pad_is_fips_pad input : size input < 2 ^ 61 -> pad input = fips_pad input.
Proof.
  intros Hs. pose proof (size_nonneg input). unfold pad, fips_pad.
  rewrite u64_small by lia. rewrite be_length_bytes by lia.
  pose proof (Z.mod_pos_bound (56 - size (input ++ [0x80])) 64).
  rewrite pad_zeros_spec by lia.
  rewrite size_app. change (size [0x80]) with 1.
  replace (56 - (size input + 1)) with (55 - size input) by lia.
  rewrite <- !app_assoc. reflexivity.
Qed.

Lemma size_pad input : size (pad input) mod 64 = 0.
Proof.
  unfold pad. pose proof (Z.mod_pos_bound (56 - size (input ++ [0x80])) 64).
  rewrite size_app, pad_zeros_spec, size_app, size_zeros by lia.
  change (size (map _ _)) with 8. Z.div_mod_to_equations; lia.
Qed.

(** The length field read back, and the message before it. *)
Lemma fips_pad_length input :
  size input < 2 ^ 61 ->
  le_value (rev (sub (fips_pad input) (size (fips_pad input) - 8) 8)) = size input * 8.
Proof.
  intros Hs. pose proof (size_nonneg input).
  assert (E : sub (fips_pad input) (size (fips_pad input) - 8) 8 = rev (le_bytes 8 (size input * 8))).
  { unfold fips_pad. rewrite !app_assoc. set (p := (input ++ [0x80]) ++ _).
    rewrite size_app. change (size (rev (le_bytes 8 (size input * 8)))) with 8.
    replace (size p + 8 - 8) with (size p) by lia.
    unfold sub, size. rewrite Nat2Z.id, skipn_app, skipn_all, Nat.sub_diag. reflexivity. }
  rewrite E, rev_involutive, le_value_bytes. apply Z.mod_small. lia.
Qed.

Lemma fips_pad_injective a b :
  size a < 2 ^ 61 -> size b < 2 ^ 61 -> fips_pad a = fips_pad b -> a = b.
Proof.
  intros Ha Hb E.
  assert (S : size a = size b).
  { pose proof (fips_pad_length a Ha) as La. rewrite E, (fips_pad_length b Hb) in La. lia. }
  assert (F : forall x y : Bytes, firstn (List.length x) (x ++ y) = x).
  { intros x y. rewrite firstn_app, firstn_all, Nat.sub_diag. apply app_nil_r. }
  rewrite <- (F a ([0x80] ++ zeros ((55 - size a) mod 64) ++ rev (le_bytes 8 (size a * 8)))).
  fold (fips_pad a). rewrite E. replace (List.length a) with (List.length b) by (unfold size in S; lia).
  apply F.
Qed.

(** ** Both digests are defined *)

Lemma load_block_ok data offset w :
  0 <= offset -> offset + 64 <= size data -> exists w', load_block data offset w = Ok w'.
Proof.
  intros Ho Hs. unfold load_block.
  assert (H : forall l w, (forall i, In i l -> 0 <= i < 16) -> exists w',
    for_each (fun w i => let! x := load_be32 data (offset + i * 4) in Ok (put w i [x])) w l = Ok w').
  { induction l as [|i l IH]; intros w0 Hi; [eexists; reflexivity|].
    assert (0 <= i < 16) by (apply Hi; left; reflexivity).
    cbn [for_each]. unfold load_be32. rewrite !index_ok by lia. cbn [bind].
    apply IH. intros; apply Hi; right; assumption. }
  apply H. intros i Hi. apply in_indices in Hi. lia.
Qed.

(** A block function that is defined on aligned offsets keeps the state's shape. *)
Lemma blocks_ok {S} (P : S -> Prop) (block : S -> Z -> outcome S) (data : Bytes) s :
  size data mod 64 = 0 -> P s ->
  (forall s o, P s -> 0 <= o -> o + 64 <= size data -> exists s', block s o = Ok s' /\ P s') ->
  exists r, for_each block s (offsets_below (size data) 64) = Ok r /\ P r.
Proof.
  intros Hm Hs Hstep.
  assert (H : forall (l : list Z) s, P s -> (forall x, In x l -> 0 <= x /\ x + 64 <= size data) ->
    exists r, for_each block s l = Ok r /\ P r).
  { induction l as [|o l IH]; intros s0 Hs0 Ho; [exists s0; split; [reflexivity|assumption]|].
    destruct (Hstep s0 o Hs0) as (s' & E & Hs'); [apply Ho; left; reflexivity..|].
    cbn [for_each]. rewrite E. cbn [bind]. apply IH; [assumption|]. intros; apply Ho; right; assumption. }
  apply H; [assumption|]. intros o Ho. apply in_offsets_below in Ho as [Hb Hd]; [|lia].
  split; [lia|]. Z.div_mod_to_equations; lia.
Qed.

Lemma size_store_words words : size (store_words words) = 4 * size words.
Proof.
  induction words as [|w words IH]; [reflexivity|].
  unfold store_words in *. cbn [flat_map]. rewrite size_app, IH. unfold size. cbn [List.length]. lia.
Qed.

Lemma bytes_ok_store_words words : bytes_ok (store_words words).
Proof.
  induction words as [|w words IH]; [constructor|].
  unfold store_words. cbn [flat_map]. apply bytes_ok_app. split; [|exact IH].
  repeat constructor; apply u8_range.
Qed.

Lemma sha1_total input : exists d, sha1 input = Ok d /\ size d = 20 /\ bytes_ok d.
Proof.
  unfold sha1.
  destruct (blocks_ok (fun s => List.length s = 5%nat) (sha1_block (pad input)) (pad input) sha1_init)
    as (r & E & Hr); [apply size_pad | reflexivity | |].
  - intros s o Hs Ho Hb. do 6 (destruct s as [|? s]; try discriminate Hs).
    unfold sha1_block. destruct (load_block_ok (pad input) o (zeros 80) Ho Hb) as (w & ->).
    cbn [bind]. destruct (fold_left _ _ _) as [[[[a b] c] d] e]. eexists; split; reflexivity.
  - rewrite E. cbn [bind]. eexists; split; [reflexivity|].
    split; [|apply bytes_ok_store_words]. rewrite size_store_words. unfold size. rewrite Hr. reflexivity.
Qed.

Lemma sha256_total input : exists d, sha256 input = Ok d /\ size d = 32 /\ bytes_ok d.
Proof.
  unfold sha256.
  destruct (blocks_ok (fun s => List.length s = 8%nat) (sha256_block (pad input)) (pad input) sha256_init)
    as (r & E & Hr); [apply size_pad | reflexivity | |].
  - intros s o Hs Ho Hb. do 9 (destruct s as [|? s]; try discriminate Hs).
    unfold sha256_block. destruct (load_block_ok (pad input) o (zeros 64) Ho Hb) as (w & ->).
    cbn [bind]. destruct (fold_left _ _ _) as [[[[[[[a b] c] d] e] f] g] h]. eexists; split; reflexivity.
  - rewrite E. cbn [bind]. eexists; split; [reflexivity|].
    split; [|apply bytes_ok_store_words]. rewrite size_store_words. unfold size. rewrite Hr. reflexivity.
Qed.
