(* ===== verification/SelfContainer.v ===== *)
(** * FSELF containers ([src/tooling/native/self_container.hpp], [self_container.cpp])

    The plaintext signed-executable container the toolchain wraps a converted
    ELF in: [sign] writes it, [parse] and [extract] read it back (from any
    file, so from arbitrary bytes), [strip_sections] removes the section table
    of an extracted ELF.  zlib's [inflate] is a parameter: extraction of a
    compressed segment calls it. *)

From Stdlib Require Import ZArith List Bool Lia String.
From S2P Require Import Prelude Bytes Hash.
Import ListNotations.
Open Scope Z_scope.

(** ** Constants and data *)

Definition kMagic : Z := 0xEEF51454.
Definition kAlternateMagic : Z := 0x1D3D154F.
Definition kDeveloperAuthority : Z := 0x3100000000000002.

Definition kContainerHeaderSize : Z := 0x20.
Definition kSegmentEntrySize : Z := 0x20.
Definition kExtendedInfoSize : Z := 0x40.
Definition kControlRegionSize : Z := 0x30.
Definition kMetadataBlockSize : Z := 0x50.
Definition kMetadataFooterSize : Z := 0x50.
Definition kSignatureSize : Z := 0x200.
Definition kAlternateSignatureSize : Z := 0x100.
Definition kSegmentBlockSize : Z := 0x4000.
Definition kDigestSlotSize : Z := 0x20.
Definition kFooterMarkerOffset : Z := 0x30.
Definition kDefaultProgramType : Z := 0x101.

Definition kElfHeaderSize : Z := 0x40.
Definition kElfProgramHeaderSize : Z := 0x38.
Definition kOsAbiOffset : Z := 0x07.
Definition kTypeOffset : Z := 0x10.
Definition kMachineOffset : Z := 0x12.
Definition kProgramHeaderOffset : Z := 0x20.
Definition kProgramHeaderEntrySizeOffset : Z := 0x36.
Definition kProgramHeaderCountOffset : Z := 0x38.

Definition kPtLoad : Z := 0x00000001.
Definition kPtDynamic : Z := 0x00000002.
Definition kPtDynlibData : Z := 0x61000000.
Definition kPtProcParam : Z := 0x61000001.
Definition kPtRelro : Z := 0x61000010.
Definition kPtComment : Z := 0x6fffff00.
Definition kPtVersionRecords : Z := 0x6fffff01.

(** [std::numeric_limits<std::size_t>::max()] on the 64-bit host, and the
    limits of [uInt] and [std::uint16_t]. *)
Definition kSizeMax : Z := 2 ^ 64 - 1.
Definition kUIntMax : Z := 2 ^ 32 - 1.
Definition kU16Max : Z := 2 ^ 16 - 1.

Record SignOptions := {
  opt_magic : Z;
  opt_include_proc_param : bool;
  opt_normalize_header : bool;
  opt_app_version : Z;
  opt_firmware_version : Z;
  opt_authority : Z;
  opt_auth_info : Bytes
}.

(** [SignOptions{}]. *)
Definition default_options : SignOptions := {|
  opt_magic := kMagic;
  opt_include_proc_param := false;
  opt_normalize_header := true;
  opt_app_version := 0;
  opt_firmware_version := 0;
  opt_authority := kDeveloperAuthority;
  opt_auth_info := []
|}.

Record Segment := {
  seg_flags : Z;
  seg_file_offset : Z;
  seg_file_size : Z;
  seg_memory_size : Z
}.

Definition seg_id (s : Segment) : Z := Z.land (Z.shiftr (seg_flags s) 20) 0xffff.
Definition seg_encrypted (s : Segment) : bool := negb (Z.land (seg_flags s) 0x2 =? 0).
Definition seg_compressed (s : Segment) : bool := negb (Z.land (seg_flags s) 0x8 =? 0).
Definition seg_blocked (s : Segment) : bool := negb (Z.land (seg_flags s) 0x800 =? 0).

Record Image := {
  img_program_type : Z;
  img_header_size : Z;
  img_metadata_size : Z;
  img_file_size : Z;
  img_segments : list Segment;
  img_elf_headers : Bytes;
  img_has_extended_info : bool;
  img_authority : Z;
  img_extended_program_type : Z;
  img_app_version : Z;
  img_firmware_version : Z;
  img_digest : Bytes
}.

Record FileRegion := { region_offset : Z; region_size : Z }.

Record SelectedSegment := {
  sel_header_index : Z;
  sel_file_offset : Z;
  sel_file_size : Z
}.

(** ** Field access *)

Definition read_u16 (data : Bytes) (at_ : Z) : outcome Z :=
  do! require (u64 (at_ + 2) <=? size data) "read_u16 outside input" in
  let! b0 := index data at_ in
  let! b1 := index data (at_ + 1) in
  Ok (Z.lor b0 (Z.shiftl b1 8)).

Definition read_u32 (data : Bytes) (at_ : Z) : outcome Z :=
  do! require (u64 (at_ + 4) <=? size data) "read_u32 outside input" in
  load_le 4 data at_.

Definition read_u64 (data : Bytes) (at_ : Z) : outcome Z :=
  do! require (u64 (at_ + 8) <=? size data) "read_u64 outside input" in
  load_le 8 data at_.

Definition write_u16 (data : Bytes) (at_ value : Z) : outcome Bytes :=
  do! require (u64 (at_ + 2) <=? size data) "write_u16 outside output" in
  let! data1 := store data at_ value in
  store data1 (at_ + 1) (Z.shiftr value 8).

Definition write_u32 (data : Bytes) (at_ value : Z) : outcome Bytes :=
  do! require (u64 (at_ + 4) <=? size data) "write_u32 outside output" in
  store_le 4 data at_ value.

Definition write_u64 (data : Bytes) (at_ value : Z) : outcome Bytes :=
  do! require (u64 (at_ + 8) <=? size data) "write_u64 outside output" in
  store_le 8 data at_ value.

Definition copy_bytes (target : Bytes) (at_ : Z) (source : Bytes) : outcome Bytes :=
  checked_copy target at_ source.

Definition align_up (value alignment : Z) : Z := align_up_mask value alignment.

Definition metadata_size (segment_count magic : Z) : Z :=
  segment_count * kMetadataBlockSize + kMetadataFooterSize +
  (if magic =? kAlternateMagic then kAlternateSignatureSize else kSignatureSize).

Definition digest_size (data_size : Z) : Z :=
  (u64 (data_size + kSegmentBlockSize - 1) / kSegmentBlockSize) * kDigestSlotSize.

(** [kElfHeaderSize + i * kElfProgramHeaderSize] *)
Definition program_header_at (i : Z) : Z := kElfHeaderSize + i * kElfProgramHeaderSize.

(** The first version-records header decides: an empty or out-of-range region
    counts as none. *)
Fixpoint find_version_records_in (elf : Bytes) (limit : Z) (l : list Z) : outcome FileRegion :=
  match l with
  | [] => Ok {| region_offset := 0; region_size := 0 |}
  | i :: l' =>
      let header := program_header_at i in
      let! type := read_u32 elf header in
      if negb (type =? kPtVersionRecords) then find_version_records_in elf limit l'
      else
        let! offset := read_u64 elf (header + 0x08) in
        let! size_ := read_u64 elf (header + 0x20) in
        if (size_ =? 0) || negb (range_in_bounds offset size_ limit) ||
           (kSizeMax <? offset) || (kSizeMax <? size_)
        then Ok {| region_offset := 0; region_size := 0 |}
        else Ok {| region_offset := offset; region_size := size_ |}
  end.

Definition find_version_records (elf : Bytes) (program_count limit : Z) : outcome FileRegion :=
  find_version_records_in elf limit (indices 0 (Z.to_nat program_count)).

Definition write_segment (output : Bytes) (at_ flags offset file_size memory_size : Z) : outcome Bytes :=
  let! output := write_u64 output at_ flags in
  let! output := write_u64 output (at_ + 0x08) offset in
  let! output := write_u64 output (at_ + 0x10) file_size in
  write_u64 output (at_ + 0x18) memory_size.

Definition select_segment (elf : Bytes) (header_offset : Z) (include_proc_param : bool)
  (selected : list SelectedSegment) (i : Z) : outcome (list SelectedSegment) :=
  let at_ := header_offset + i * kElfProgramHeaderSize in
  let! type := read_u32 elf at_ in
  let! flags := read_u32 elf (at_ + 4) in
  let! offset := read_u64 elf (at_ + 0x08) in
  let! size_ := read_u64 elf (at_ + 0x20) in
  if size_ =? 0 then
    do! require (negb (type =? kPtLoad) || (flags =? 0)) "a mapped program header stores no bytes" in
    Ok selected
  else if negb (type =? kPtLoad) && negb (type =? kPtDynlibData) && negb (type =? kPtRelro) &&
          negb (type =? kPtComment) && (negb (type =? kPtProcParam) || negb include_proc_param)
  then Ok selected
  else
    do! require (range_in_bounds offset size_ (size elf))
          "a container segment reaches past the input ELF" in
    do! require ((offset <=? kSizeMax) && (size_ <=? kSizeMax))
          "a container segment is too large for this host" in
    Ok (selected ++ [{| sel_header_index := i; sel_file_offset := offset; sel_file_size := size_ |}]).

Definition select_segments (elf : Bytes) (header_offset header_count : Z) (include_proc_param : bool)
  : outcome (list SelectedSegment) :=
  for_each (select_segment elf header_offset include_proc_param) []
    (indices 0 (Z.to_nat header_count)).

Definition normalize_header (elf : Bytes) : outcome Bytes :=
  let! elf := write_u16 elf kMachineOffset 0x3e in
  let! abi := index elf kOsAbiOffset in
  let! elf := if (abi =? 0) || (abi =? 3) then store elf kOsAbiOffset 9 else Ok elf in
  let! type := read_u16 elf kTypeOffset in
  if type =? 0 then write_u16 elf kTypeOffset 2 else Ok elf.

(** ** Reading a container *)

Definition is_elf (data : Bytes) : outcome bool :=
  if kElfHeaderSize <=? size data then
    let! magic := read_u32 data 0 in Ok (magic =? 0x464c457f)
  else Ok false.

Definition is_self (data : Bytes) : outcome bool :=
  if size data <? kContainerHeaderSize then Ok false
  else
    let! magic := read_u32 data 0 in
    Ok ((magic =? kMagic) || (magic =? kAlternateMagic)).

Definition parse_segment (data : Bytes) (i : Z) : outcome Segment :=
  let at_ := kContainerHeaderSize + i * kSegmentEntrySize in
  let! flags := read_u64 data at_ in
  let! offset := read_u64 data (at_ + 0x08) in
  let! fsize := read_u64 data (at_ + 0x10) in
  let! msize := read_u64 data (at_ + 0x18) in
  Ok {| seg_flags := flags; seg_file_offset := offset; seg_file_size := fsize; seg_memory_size := msize |}.

(** The extended-info block, present when it fits the declared header. *)
Definition parse_extended (data : Bytes) (extended_at : Z) (image : Image) : outcome Image :=
  if (extended_at + kExtendedInfoSize <=? img_header_size image) &&
     (extended_at + kExtendedInfoSize <=? size data) then
    let! authority := read_u64 data extended_at in
    let! ptype := read_u64 data (extended_at + 0x08) in
    let! app := read_u64 data (extended_at + 0x10) in
    let! firmware := read_u64 data (extended_at + 0x18) in
    let! digest := subspan data (extended_at + 0x20) 32 in
    Ok {| img_program_type := img_program_type image; img_header_size := img_header_size image;
          img_metadata_size := img_metadata_size image; img_file_size := img_file_size image;
          img_segments := img_segments image; img_elf_headers := img_elf_headers image;
          img_has_extended_info := true; img_authority := authority;
          img_extended_program_type := ptype; img_app_version := app;
          img_firmware_version := firmware; img_digest := digest |}
  else Ok image.

Definition parse (data : Bytes) : outcome Image :=
  let! self := is_self data in
  do! require self "input is not a signed-executable container" in
  let! program_type := read_u32 data 0x08 in
  let! header_size := read_u16 data 0x0c in
  let! metadata := read_u16 data 0x0e in
  let! file_size := read_u64 data 0x10 in
  let! segment_count := read_u16 data 0x18 in
  let table_end := kContainerHeaderSize + segment_count * kSegmentEntrySize in
  do! require (table_end <=? size data) "container segment table overruns input" in
  do! require (header_size <=? size data) "container header overruns input" in
  let! segments := collect (parse_segment data) (indices 0 (Z.to_nat segment_count)) in
  let! elf := if table_end + kElfHeaderSize <=? size data
              then let! rest := subspan data table_end (size data - table_end) in is_elf rest
              else Ok false in
  do! require elf "container has no readable ELF header" in
  let! program_count := read_u16 data (table_end + kProgramHeaderCountOffset) in
  let elf_headers_size := kElfHeaderSize + program_count * kElfProgramHeaderSize in
  do! require (table_end + elf_headers_size <=? size data) "container ELF header table overruns input" in
  let! elf_headers := subspan data table_end elf_headers_size in
  let extended_at := align_up (table_end + elf_headers_size) 0x10 in
  parse_extended data extended_at
    {| img_program_type := program_type; img_header_size := header_size;
       img_metadata_size := metadata; img_file_size := file_size;
       img_segments := segments; img_elf_headers := elf_headers;
       img_has_extended_info := false; img_authority := 0; img_extended_program_type := 0;
       img_app_version := 0; img_firmware_version := 0; img_digest := zeros 32 |}.

(** ** Extraction *)

Section Inflate.

(** zlib: [inflate window_bits input avail_out] is [None] when [inflateInit2]
    fails, else the code [::inflate] returns on [Z_FINISH] and the bytes it
    produced ([total_out] of them). *)
Variable zlib_inflate : Z -> Bytes -> Z -> option (Z * Bytes).

Definition Z_STREAM_END : Z := 1.
Definition MAX_WBITS : Z := 15.

(** [inflate_segment(input, expected, window_bits)] *)
Definition inflate_window (input : Bytes) (expected window_bits : Z) : Bytes :=
  match zlib_inflate window_bits input expected with
  | None => []
  | Some (result, produced) =>
      if (result =? Z_STREAM_END) && (size produced =? expected) then produced else []
  end.

(** [inflate_segment(input, expected)]: a zlib stream, else a raw one. *)
Definition inflate_segment (input : Bytes) (expected : Z) : outcome Bytes :=
  if expected =? 0 then Ok []
  else if (kUIntMax <? size input) || (kUIntMax <? expected)
  then Throw "compressed segment is too large"
  else
    let output := inflate_window input expected MAX_WBITS in
    if size output =? expected then Ok output
    else
      let output := inflate_window input expected (- MAX_WBITS) in
      do! require (size output =? expected)
            "compressed segment did not inflate to its recorded size" in
      Ok output.

Definition extract_size (headers : Bytes) (output_size i : Z) : outcome Z :=
  let at_ := program_header_at i in
  let! offset := read_u64 headers (at_ + 0x08) in
  let! size_ := read_u64 headers (at_ + 0x20) in
  do! require ((offset <=? kSizeMax) && (size_ <=? kSizeMax - offset))
        "ELF program header is too large for this host" in
  Ok (Z.max output_size (offset + size_)).

(** One container segment copied into the ELF. *)
Definition extract_segment (data headers : Bytes) (program_count : Z) (output : Bytes)
  (segment : Segment) : outcome Bytes :=
  if negb (seg_blocked segment) then Ok output
  else
    do! require (negb (seg_encrypted segment))
          "encrypted retail segment cannot be extracted without its key" in
    if program_count <=? seg_id segment then Ok output
    else
      let header := program_header_at (seg_id segment) in
      let! output_offset := read_u64 headers (header + 0x08) in
      let! output_length := read_u64 headers (header + 0x20) in
      do! require (range_in_bounds (seg_file_offset segment) (seg_file_size segment) (size data))
            "container segment overruns input" in
      let! stored := subspan data (seg_file_offset segment) (seg_file_size segment) in
      let! payload := if seg_compressed segment then inflate_segment stored output_length
                      else Ok stored in
      let copy_size := Z.min (size payload) output_length in
      do! require (range_in_bounds output_offset copy_size (size output))
            "container segment is outside reconstructed ELF" in
      let! first_ := subspan payload 0 copy_size in
      copy_bytes output output_offset first_.

(** The end of the last segment inside the file. *)
Definition extract_tail_step (data : Bytes) (tail : Z) (segment : Segment) : Z :=
  if range_in_bounds (seg_file_offset segment) (seg_file_size segment) (size data)
  then Z.max tail (seg_file_offset segment + seg_file_size segment)
  else tail.

Definition extract_tail (data : Bytes) (segments : list Segment) : Z :=
  fold_left (extract_tail_step data) segments 0.

(** The version records stored behind the last segment. *)
Definition extract_version (data : Bytes) (segments : list Segment) (version : FileRegion) (output : Bytes)
  : outcome Bytes :=
  if negb (region_size version =? 0) then
    let tail := extract_tail data segments in
    if range_in_bounds tail (region_size version) (size data) &&
       range_in_bounds (region_offset version) (region_size version) (size output)
    then let! records := subspan data tail (region_size version) in
         copy_bytes output (region_offset version) records
    else Ok output
  else Ok output.

Definition extract (data : Bytes) : outcome Bytes :=
  let! image := parse data in
  let headers := img_elf_headers image in
  let! program_count := read_u16 headers kProgramHeaderCountOffset in
  let program_table_end := kElfHeaderSize + program_count * kElfProgramHeaderSize in
  do! require (program_table_end <=? size headers) "stored ELF program-header table is incomplete" in
  let! output_size := for_each (extract_size headers) (size headers)
                        (indices 0 (Z.to_nat program_count)) in
  do! require (output_size <=? kSizeMax) "reconstructed ELF is too large for this host" in
  let output := zeros output_size in
  let! output := for_each (extract_segment data headers program_count) output (img_segments image) in
  let! version := find_version_records headers program_count (size output) in
  let! output := extract_version data (img_segments image) version output in
  let! table := subspan headers 0 program_table_end in
  copy_bytes output 0 table.

(** ** Signing *)

(** Offsets of the digest and data segments, and the sizes of the digests. *)
Fixpoint sign_offsets (cursor : Z) (selected : list SelectedSegment) : list Z * list Z * Z :=
  match selected with
  | [] => ([], [], cursor)
  | s :: selected' =>
      let digest := digest_size (sel_file_size s) in
      let data_at := u64 (cursor + digest) in
      let next := align_up (u64 (data_at + sel_file_size s)) 0x10 in
      let '(offsets, digests, last) := sign_offsets next selected' in
      (cursor :: data_at :: offsets, digest :: digests, last)
  end.

(** What [sign] computes before it writes anything. *)
Record SignPlan := {
  plan_elf : Bytes;
  plan_program_count : Z;
  plan_selected : list SelectedSegment;
  plan_extended_at : Z;
  plan_header_size : Z;
  plan_meta_size : Z;
  plan_offsets : list Z;
  plan_digest_sizes : list Z;
  plan_declared_size : Z;
  plan_version_start : Z;
  plan_version : FileRegion
}.

Definition no_selection : SelectedSegment :=
  {| sel_header_index := 0; sel_file_offset := 0; sel_file_size := 0 |}.

Definition sign_plan (input : Bytes) (options : SignOptions) : outcome SignPlan :=
  let! elf_ := is_elf input in
  do! require elf_ "input is not an ELF file" in
  let! class_ := index input 4 in
  do! require (class_ =? 2) "only 64-bit ELF modules are supported" in
  do! require ((opt_magic options =? kMagic) || (opt_magic options =? kAlternateMagic))
        "unsupported signed-container magic" in
  do! require ((size (opt_auth_info options) =? 0) || (size (opt_auth_info options) =? 0x88))
        "authentication info must be exactly 0x88 bytes" in
  let! elf := if opt_normalize_header options then normalize_header input else Ok input in
  let! program_offset := read_u64 elf kProgramHeaderOffset in
  let! program_entry_size := read_u16 elf kProgramHeaderEntrySizeOffset in
  let! program_count := read_u16 elf kProgramHeaderCountOffset in
  do! require (program_entry_size =? kElfProgramHeaderSize)
        "unexpected ELF program-header entry size" in
  do! require (program_offset =? kElfHeaderSize)
        "ELF program-header table must immediately follow the ELF header" in
  do! require (program_count <=? (size elf - program_offset) / kElfProgramHeaderSize)
        "ELF program-header table overruns input" in
  let! selected := select_segments elf program_offset program_count (opt_include_proc_param options) in
  do! require (negb (size selected =? 0)) "ELF has no loadable segment content" in
  let segment_count := size selected * 2 in
  let after_segments := kContainerHeaderSize + segment_count * kSegmentEntrySize in
  let elf_headers_size := kElfHeaderSize + program_count * kElfProgramHeaderSize in
  let extended_at := align_up (after_segments + elf_headers_size) 0x10 in
  let header_size := extended_at + kExtendedInfoSize + kControlRegionSize in
  let meta_size := metadata_size segment_count (opt_magic options) in
  do! require ((header_size <=? kU16Max) && (meta_size <=? kU16Max))
        "container header or metadata exceeds its 16-bit field" in
  let '(offsets, digest_sizes, cursor) := sign_offsets (header_size + meta_size) selected in
  let version_start := u64 (last offsets 0 + sel_file_size (last selected no_selection)) in
  let! version := find_version_records elf program_count (size elf) in
  Ok {| plan_elf := elf; plan_program_count := program_count; plan_selected := selected;
        plan_extended_at := extended_at; plan_header_size := header_size;
        plan_meta_size := meta_size; plan_offsets := offsets; plan_digest_sizes := digest_sizes;
        plan_declared_size := cursor; plan_version_start := version_start; plan_version := version |}.

Definition plan_segment_count (p : SignPlan) : Z := size (plan_selected p) * 2.
Definition plan_after_segments (p : SignPlan) : Z :=
  kContainerHeaderSize + plan_segment_count p * kSegmentEntrySize.
Definition plan_elf_headers_size (p : SignPlan) : Z :=
  kElfHeaderSize + plan_program_count p * kElfProgramHeaderSize.

Definition plan_offset (p : SignPlan) (i : Z) : Z := nth (Z.to_nat i) (plan_offsets p) 0.
Definition plan_digest_size (p : SignPlan) (i : Z) : Z := nth (Z.to_nat i) (plan_digest_sizes p) 0.
Definition plan_select (p : SignPlan) (i : Z) : SelectedSegment :=
  nth (Z.to_nat i) (plan_selected p) no_selection.

(** The container header. *)
Definition sign_header (p : SignPlan) (options : SignOptions) (output : Bytes) : outcome Bytes :=
  let! output := write_u32 output 0 (opt_magic options) in
  let! output := store output 0x04 0 in
  let! output := store output 0x05 1 in
  let! output := store output 0x06 1 in
  let! output := store output 0x07 0x12 in
  let! output := write_u32 output 0x08 kDefaultProgramType in
  let! output := write_u16 output 0x0c (u16 (plan_header_size p)) in
  let! output := write_u16 output 0x0e (u16 (plan_meta_size p)) in
  let! output := write_u64 output 0x10 (plan_declared_size p) in
  let! output := write_u16 output 0x18 (u16 (plan_segment_count p)) in
  write_u16 output 0x1a 0x22.

(** The digest and data entries of one selected segment. *)
Definition sign_entry (p : SignPlan) (output : Bytes) (i : Z) : outcome Bytes :=
  let digest_entry := kContainerHeaderSize + (i * 2) * kSegmentEntrySize in
  let data_entry := digest_entry + kSegmentEntrySize in
  let digest_flags := Z.lor (u64 (Z.shiftl (i * 2 + 1) 20)) 0x10004 in
  let data_flags := Z.lor (u64 (Z.shiftl (sel_header_index (plan_select p i)) 20)) 0x2804 in
  let! output := write_segment output digest_entry digest_flags (plan_offset p (i * 2))
                   (plan_digest_size p i) (plan_digest_size p i) in
  write_segment output data_entry data_flags (plan_offset p (i * 2 + 1))
    (sel_file_size (plan_select p i)) (sel_file_size (plan_select p i)).

(** The ELF headers and the extended-info block. *)
Definition sign_extended (p : SignPlan) (options : SignOptions) (output : Bytes) : outcome Bytes :=
  let! elf_headers := subspan (plan_elf p) 0 (plan_elf_headers_size p) in
  let! output := copy_bytes output (plan_after_segments p) elf_headers in
  let! output := write_u64 output (plan_extended_at p) (opt_authority options) in
  let! output := write_u64 output (plan_extended_at p + 0x08) 1 in
  let! output := write_u64 output (plan_extended_at p + 0x10) (opt_app_version options) in
  let! output := write_u64 output (plan_extended_at p + 0x18) (opt_firmware_version options) in
  write_u64 output (plan_extended_at p + kExtendedInfoSize) 3.

(** The metadata footer and the optional signature. *)
Definition sign_footer (p : SignPlan) (options : SignOptions) (output : Bytes) : outcome Bytes :=
  let footer := plan_header_size p + plan_segment_count p * kMetadataBlockSize in
  let! output := write_u32 output (footer + kFooterMarkerOffset) 0x10000 in
  if negb (size (opt_auth_info options) =? 0) then
    let signature := footer + kMetadataFooterSize in
    let! output := write_u64 output signature 0x88 in
    let! output := write_u64 output (signature + 0x08) (opt_authority options) in
    let! tail := subspan (opt_auth_info options) 0x08 (size (opt_auth_info options) - 0x08) in
    copy_bytes output (signature + 0x10) tail
  else Ok output.

(** The content of one selected segment. *)
Definition sign_content (p : SignPlan) (output : Bytes) (i : Z) : outcome Bytes :=
  let s := plan_select p i in
  let! content := subspan (plan_elf p) (sel_file_offset s) (sel_file_size s) in
  copy_bytes output (plan_offset p (i * 2 + 1)) content.

(** [0 .. selected.size() - 1] *)
Definition plan_indices (p : SignPlan) : list Z := indices 0 (List.length (plan_selected p)).

Definition sign_unsealed (p : SignPlan) (options : SignOptions) : outcome Bytes :=
  let version := plan_version p in
  let output := zeros (Z.max (plan_declared_size p) (u64 (plan_version_start p + region_size version))) in
  let! output := sign_header p options output in
  let! output := for_each (sign_entry p) output (plan_indices p) in
  let! output := sign_extended p options output in
  let! output := sign_footer p options output in
  let! output := for_each (sign_content p) output (plan_indices p) in
  if negb (region_size version =? 0) then
    let! records := subspan (plan_elf p) (region_offset version) (region_size version) in
    copy_bytes output (plan_version_start p) records
  else Ok output.

Definition sign (input : Bytes) (options : SignOptions) : outcome Bytes :=
  let! p := sign_plan input options in
  let! output := sign_unsealed p options in
  let! reconstructed := extract output in
  let! digest := sha256 reconstructed in
  copy_bytes output (plan_extended_at p + 0x20) digest.

End Inflate.

(** ** Removing the section table *)

Record StripState := { strip_extent : Z; strip_has_dynamic : bool }.

Fixpoint strip_headers (elf : Bytes) (program_offset program_entry_size : Z) (s : StripState)
  (l : list Z) : outcome StripState :=
  match l with
  | [] => Ok s
  | i :: l' =>
      let at_ := u64 (program_offset + u64 (i * program_entry_size)) in
      if negb (range_in_bounds at_ kElfProgramHeaderSize (size elf)) then Ok s
      else
        let! type := read_u32 elf at_ in
        let! offset := read_u64 elf (at_ + 0x08) in
        let! size_ := read_u64 elf (at_ + 0x20) in
        let has_dynamic := strip_has_dynamic s || (type =? kPtDynamic) in
        let extent := if offset <=? kSizeMax - size_ then Z.max (strip_extent s) (offset + size_)
                      else strip_extent s in
        strip_headers elf program_offset program_entry_size
          {| strip_extent := extent; strip_has_dynamic := has_dynamic |} l'
  end.

(** [e_shoff], [e_shentsize], [e_shnum] and [e_shstrndx] zeroed. *)
Definition clear_section_fields (output : Bytes) : outcome Bytes :=
  let! output := write_u64 output 0x28 0 in
  let! output := write_u16 output 0x3a 0 in
  let! output := write_u16 output 0x3c 0 in
  write_u16 output 0x3e 0.

Definition strip_sections (elf : Bytes) : outcome Bytes :=
  let! elf_ := is_elf elf in
  do! require elf_ "input is not an ELF file" in
  let! program_offset := read_u64 elf kProgramHeaderOffset in
  let! program_entry_size := read_u16 elf kProgramHeaderEntrySizeOffset in
  let! program_count := read_u16 elf kProgramHeaderCountOffset in
  do! require (kElfProgramHeaderSize <=? program_entry_size) "ELF program-header entry is too small" in
  let extent := Z.max kElfHeaderSize (u64 (program_offset + program_count * program_entry_size)) in
  let! s := strip_headers elf program_offset program_entry_size
              {| strip_extent := extent; strip_has_dynamic := false |}
              (indices 0 (Z.to_nat program_count)) in
  do! require (strip_has_dynamic s) "only an ELF with a dynamic segment can be stripped" in
  let extent := Z.min (strip_extent s) (size elf) in
  let output := sub elf 0 extent in
  clear_section_fields output.
