(* ===== verification/SelfFields.v ===== *)
(** * FSELF containers: field access, and reading arbitrary files

    What the field accessors of [SelfContainer] do on well-formed buffers, and
    the proof that reading a container never leaves the buffer, whatever
    bytes the file holds. *)

From Stdlib Require Import ZArith List Bool Lia String.
From S2P Require Import Prelude Bytes Writes Hash SelfContainer.
Import ListNotations.
Open Scope Z_scope.

Lemma field_put_le l a n v :
  0 <= a -> a + Z.of_nat n <= size l ->
  field (put l a (le_bytes n v)) a (Z.of_nat n) = v mod 256 ^ Z.of_nat n.
Proof. intros. unfold field. rewrite sub_put_le by assumption. apply le_value_bytes. Qed.

Lemma read_u16_spec data a :
  bytes_ok data -> 0 <= a -> a + 2 < 2 ^ 64 ->
  read_u16 data a = if a + 2 <=? size data then Ok (field data a 2)
                    else Throw "read_u16 outside input".
Proof.
  intros H Ha Hb. unfold read_u16. rewrite u64_small by lia.
  destruct (a + 2 <=? size data) eqn:E; to_prop; [|reflexivity].
  cbn [require bind]. rewrite !index_ok by lia. cbn [bind]. f_equal.
  unfold field. rewrite !sub_cons by lia. replace (sub data (a + 1 + 1) (2 - 1 - 1)) with (@nil Z) by reflexivity.
  cbn [le_value]. pose proof (bytes_ok_byte_at data a H).
  rewrite lor_shiftl_add by lia. lia.
Qed.

Lemma read_u32_spec data a :
  bytes_ok data -> 0 <= a -> a + 4 < 2 ^ 64 ->
  read_u32 data a = if a + 4 <=? size data then Ok (field data a 4)
                    else Throw "read_u32 outside input".
Proof.
  intros H Ha Hb. unfold read_u32. rewrite u64_small by lia.
  destruct (a + 4 <=? size data) eqn:E; to_prop; [|reflexivity].
  cbn [require bind]. apply load_le_ok; [assumption|lia|lia].
Qed.

Lemma read_u64_spec data a :
  bytes_ok data -> 0 <= a -> a + 8 < 2 ^ 64 ->
  read_u64 data a = if a + 8 <=? size data then Ok (field data a 8)
                    else Throw "read_u64 outside input".
Proof.
  intros H Ha Hb. unfold read_u64. rewrite u64_small by lia.
  destruct (a + 8 <=? size data) eqn:E; to_prop; [|reflexivity].
  cbn [require bind]. apply load_le_ok; [assumption|lia|lia].
Qed.

Lemma write_u16_ok data a v :
  0 <= a -> a + 2 <= size data -> size data < 2 ^ 64 ->
  write_u16 data a v = Ok (put data a (le_bytes 2 v)).
Proof.
  intros Ha Hb Hs. unfold write_u16. rewrite u64_small by lia.
  replace (a + 2 <=? size data) with true by lia. cbn [require bind].
  rewrite store_ok by lia. cbn [bind].
  rewrite store_ok by (rewrite size_put; change (size [_]) with 1; lia). f_equal.
  change (a + 1) with (a + size [u8 v]).
  rewrite put_put_adjacent by (change (size [u8 v]) with 1; change (size [_]) with 1; lia).
  cbn [app le_bytes]. unfold u8. rewrite Z.shiftr_div_pow2 by lia. reflexivity.
Qed.

Lemma write_u32_ok data a v :
  0 <= a -> a + 4 <= size data -> size data < 2 ^ 64 ->
  write_u32 data a v = Ok (put data a (le_bytes 4 v)).
Proof.
  intros Ha Hb Hs. unfold write_u32. rewrite u64_small by lia.
  replace (a + 4 <=? size data) with true by lia. cbn [require bind].
  apply store_le_ok; lia.
Qed.

Lemma write_u64_ok data a v :
  0 <= a -> a + 8 <= size data -> size data < 2 ^ 64 ->
  write_u64 data a v = Ok (put data a (le_bytes 8 v)).
Proof.
  intros Ha Hb Hs. unfold write_u64. rewrite u64_small by lia.
  replace (a + 8 <=? size data) with true by lia. cbn [require bind].
  apply store_le_ok; lia.
Qed.

Lemma copy_bytes_ok l a s :
  a + size s <= size l -> copy_bytes l a s = Ok (put l a s).
Proof. apply checked_copy_ok. Qed.

(** What a read that returned says. *)
Lemma read_u16_inv data a v :
  bytes_ok data -> 0 <= a -> a + 2 < 2 ^ 64 -> read_u16 data a = Ok v ->
  a + 2 <= size data /\ v = field data a 2 /\ 0 <= v < 65536.
Proof.
  intros H Ha Hb E. rewrite read_u16_spec in E by assumption.
  destruct (a + 2 <=? size data) eqn:G; to_prop; [|discriminate]. injection E as <-.
  pose proof (field_range data a 2). intuition lia.
Qed.

Lemma read_u32_inv data a v :
  bytes_ok data -> 0 <= a -> a + 4 < 2 ^ 64 -> read_u32 data a = Ok v ->
  a + 4 <= size data /\ v = field data a 4 /\ 0 <= v < 2 ^ 32.
Proof.
  intros H Ha Hb E. rewrite read_u32_spec in E by assumption.
  destruct (a + 4 <=? size data) eqn:G; to_prop; [|discriminate]. injection E as <-.
  pose proof (field_range data a 4). intuition lia.
Qed.

Lemma read_u64_inv data a v :
  bytes_ok data -> 0 <= a -> a + 8 < 2 ^ 64 -> read_u64 data a = Ok v ->
  a + 8 <= size data /\ v = field data a 8 /\ 0 <= v < 2 ^ 64.
Proof.
  intros H Ha Hb E. rewrite read_u64_spec in E by assumption.
  destruct (a + 8 <=? size data) eqn:G; to_prop; [|discriminate]. injection E as <-.
  pose proof (field_range data a 8). intuition lia.
Qed.

Lemma read_u16_ok data a :
  bytes_ok data -> 0 <= a -> a + 2 < 2 ^ 64 -> a + 2 <= size data ->
  read_u16 data a = Ok (field data a 2).
Proof. intros. rewrite read_u16_spec by assumption. replace (a + 2 <=? size data) with true by lia. reflexivity. Qed.

Lemma read_u32_ok data a :
  bytes_ok data -> 0 <= a -> a + 4 < 2 ^ 64 -> a + 4 <= size data ->
  read_u32 data a = Ok (field data a 4).
Proof. intros. rewrite read_u32_spec by assumption. replace (a + 4 <=? size data) with true by lia. reflexivity. Qed.

Lemma read_u64_ok data a :
  bytes_ok data -> 0 <= a -> a + 8 < 2 ^ 64 -> a + 8 <= size data ->
  read_u64 data a = Ok (field data a 8).
Proof. intros. rewrite read_u64_spec by assumption. replace (a + 8 <=? size data) with true by lia. reflexivity. Qed.

Lemma read_u16_defined data a : bytes_ok data -> 0 <= a -> a + 2 < 2 ^ 64 -> defined (read_u16 data a).
Proof. intros. rewrite read_u16_spec by assumption. destruct (_ <=? _); discriminate. Qed.
Lemma read_u32_defined data a : bytes_ok data -> 0 <= a -> a + 4 < 2 ^ 64 -> defined (read_u32 data a).
Proof. intros. rewrite read_u32_spec by assumption. destruct (_ <=? _); discriminate. Qed.
Lemma read_u64_defined data a : bytes_ok data -> 0 <= a -> a + 8 < 2 ^ 64 -> defined (read_u64 data a).
Proof. intros. rewrite read_u64_spec by assumption. destruct (_ <=? _); discriminate. Qed.
Lemma copy_bytes_defined l a s : defined (copy_bytes l a s).
Proof. unfold copy_bytes, checked_copy. apply defined_require_bind. intros; apply defined_ok. Qed.
Lemma subspan_defined l a n : 0 <= a -> 0 <= n -> a + n <= size l -> defined (subspan l a n).
Proof. intros. rewrite subspan_ok by assumption. apply defined_ok. Qed.

(** ** Reading a container never leaves the file *)

Lemma defined_read_u16 {B} data a (k : Z -> outcome B) :
  bytes_ok data -> 0 <= a -> a + 2 < 2 ^ 64 ->
  (forall v, a + 2 <= size data -> v = field data a 2 -> 0 <= v < 2 ^ 16 -> defined (k v)) ->
  defined (bind (read_u16 data a) k).
Proof.
  intros H Ha Hb Hk. apply defined_bind; [apply read_u16_defined; assumption|].
  intros v E. apply read_u16_inv in E as (? & ? & ?); auto.
Qed.

Lemma defined_read_u32 {B} data a (k : Z -> outcome B) :
  bytes_ok data -> 0 <= a -> a + 4 < 2 ^ 64 ->
  (forall v, a + 4 <= size data -> v = field data a 4 -> 0 <= v < 2 ^ 32 -> defined (k v)) ->
  defined (bind (read_u32 data a) k).
Proof.
  intros H Ha Hb Hk. apply defined_bind; [apply read_u32_defined; assumption|].
  intros v E. apply read_u32_inv in E as (? & ? & ?); auto.
Qed.

Lemma defined_read_u64 {B} data a (k : Z -> outcome B) :
  bytes_ok data -> 0 <= a -> a + 8 < 2 ^ 64 ->
  (forall v, a + 8 <= size data -> v = field data a 8 -> 0 <= v < 2 ^ 64 -> defined (k v)) ->
  defined (bind (read_u64 data a) k).
Proof.
  intros H Ha Hb Hk. apply defined_bind; [apply read_u64_defined; assumption|].
  intros v E. apply read_u64_inv in E as (? & ? & ?); auto.
Qed.

(** One step of a definedness proof: reads and guards become facts. *)
Ltac defined_step :=
  lazymatch goal with
  | |- defined (Ok _) => apply defined_ok
  | |- defined (Throw _) => apply defined_throw
  | |- defined (bind (require _ _) _) => apply defined_require_bind; intros; to_prop
  | |- defined (bind (read_u16 _ _) _) =>
      apply defined_read_u16; [auto with bytes|try lia|try lia|intros]
  | |- defined (bind (read_u32 _ _) _) =>
      apply defined_read_u32; [auto with bytes|try lia|try lia|intros]
  | |- defined (bind (read_u64 _ _) _) =>
      apply defined_read_u64; [auto with bytes|try lia|try lia|intros]
  | |- defined (bind (subspan _ _ _) _) => rewrite subspan_ok; [cbn [bind]|try lia..]
  | |- defined (copy_bytes _ _ _) => apply copy_bytes_defined
  | |- defined (bind _ _) => apply defined_bind; [|intros]
  | |- defined (if ?c then _ else _) => destruct c eqn:?; to_prop
  | |- defined _ => cbv zeta
  end.

(** The fields of a segment entry are 64-bit values. *)
Definition segment_ok (s : Segment) : Prop :=
  0 <= seg_flags s < 2 ^ 64 /\ 0 <= seg_file_offset s < 2 ^ 64 /\
  0 <= seg_file_size s < 2 ^ 64 /\ 0 <= seg_memory_size s < 2 ^ 64.

Definition image_ok (image : Image) : Prop :=
  Forall segment_ok (img_segments image) /\ bytes_ok (img_elf_headers image) /\
  kElfHeaderSize <= size (img_elf_headers image).

Lemma seg_id_range s : 0 <= seg_id s < 65536.
Proof.
  unfold seg_id. change 0xffff with (Z.ones 16). rewrite Z.land_ones by lia.
  apply Z.mod_pos_bound. lia.
Qed.

Lemma parse_segment_defined data i : bytes_ok data -> 0 <= i < 65536 -> defined (parse_segment data i).
Proof.
  intros. unfold parse_segment, kContainerHeaderSize, kSegmentEntrySize.
  repeat defined_step.
Qed.

Lemma parse_segment_ok data i s :
  bytes_ok data -> 0 <= i < 65536 -> parse_segment data i = Ok s -> segment_ok s.
Proof.
  intros H Hi E. unfold parse_segment, kContainerHeaderSize, kSegmentEntrySize in E. inv_ok E.
  subst s. unfold segment_ok. simpl.
  repeat match goal with E : read_u64 _ _ = Ok _ |- _ =>
    apply read_u64_inv in E as (? & ? & ?); [|assumption|lia|lia] end. tauto.
Qed.

Lemma is_self_defined data : bytes_ok data -> defined (is_self data).
Proof. intros. unfold is_self. repeat defined_step. Qed.

Lemma is_elf_defined data : bytes_ok data -> defined (is_elf data).
Proof. intros. unfold is_elf. repeat defined_step. Qed.

Lemma align_up_16_le x : 0 <= x < 2 ^ 63 -> x <= align_up x 0x10 < x + 0x10 /\ align_up x 0x10 mod 16 = 0.
Proof. intros. apply (align_up_mask_bounds x 4); lia. Qed.

Lemma parse_extended_defined data a image :
  bytes_ok data -> 0 <= a < 2 ^ 32 -> defined (parse_extended data a image).
Proof.
  intros. unfold parse_extended, kExtendedInfoSize. repeat defined_step.
Qed.

Lemma in_u16_indices i n : 0 <= n < 65536 -> In i (indices 0 (Z.to_nat n)) -> 0 <= i < 65536 /\ i < n.
Proof. intros ? H. apply in_indices in H. lia. Qed.

Lemma parse_defined_lemma data : bytes_ok data -> defined (parse data).
Proof.
  intros H. unfold parse, kContainerHeaderSize, kSegmentEntrySize, kElfHeaderSize,
    kProgramHeaderCountOffset, kElfProgramHeaderSize.
  repeat defined_step.
  - apply is_self_defined; assumption.
  - apply defined_collect. intros i Hi. apply parse_segment_defined; [assumption|].
    eapply in_u16_indices in Hi; [tauto|assumption].
  - apply is_elf_defined. auto with bytes.
  - apply parse_extended_defined; [assumption|].
    match goal with |- 0 <= align_up ?x _ < _ => pose proof (align_up_16_le x) end. lia.
Qed.

Lemma parse_extended_keeps data a image image' :
  parse_extended data a image = Ok image' ->
  img_segments image' = img_segments image /\ img_elf_headers image' = img_elf_headers image.
Proof.
  unfold parse_extended. intros E. destruct (_ && _); inv_ok E; subst; auto.
Qed.

Lemma parse_image_ok data image : bytes_ok data -> parse data = Ok image -> image_ok image.
Proof.
  intros H E. unfold parse in E. inv_ok E. apply parse_extended_keeps in E as [K1 K2].
  unfold image_ok. rewrite K1, K2. simpl.
  repeat match goal with E : read_u16 _ _ = Ok _ |- _ =>
    apply read_u16_inv in E as (? & ? & ?);
    [|assumption|unfold kContainerHeaderSize, kSegmentEntrySize, kProgramHeaderCountOffset; lia..] end.
  match goal with E : subspan _ _ _ = Ok _ |- _ => apply subspan_inv in E as (? & ? & ? & ->) end.
  split; [|split].
  - eapply collect_forall; [|eassumption]. intros i s Hi. apply parse_segment_ok; [assumption|].
    apply in_u16_indices in Hi; tauto.
  - auto with bytes.
  - rewrite size_sub by assumption. unfold kElfHeaderSize, kElfProgramHeaderSize in *. lia.
Qed.

Section Inflate.
Variable zlib_inflate : Z -> Bytes -> Z -> option (Z * Bytes).

Lemma inflate_segment_defined input expected : defined (inflate_segment zlib_inflate input expected).
Proof. unfold inflate_segment. repeat defined_step. Qed.

Lemma extract_segment_defined data headers count output s :
  bytes_ok headers -> segment_ok s -> count < 65536 ->
  defined (extract_segment zlib_inflate data headers count output s).
Proof.
  intros Hh (? & ? & ? & ?) Hc. pose proof (seg_id_range s).
  unfold extract_segment, program_header_at, kElfHeaderSize, kElfProgramHeaderSize.
  unfold range_in_bounds. repeat defined_step.
  - apply inflate_segment_defined.
  - match goal with a : Bytes |- _ => pose proof (size_nonneg a) end. lia.
Qed.

Lemma find_version_records_defined headers limit l :
  bytes_ok headers -> (forall i, In i l -> 0 <= i < 65536) ->
  defined (find_version_records_in headers limit l).
Proof.
  intros Hh. induction l as [|i l IH]; intros Hl; cbn [find_version_records_in]; [apply defined_ok|].
  assert (0 <= i < 65536) by (apply Hl; left; reflexivity).
  unfold program_header_at, kElfHeaderSize, kElfProgramHeaderSize. repeat defined_step.
  apply IH. intros; apply Hl; right; assumption.
Qed.

Lemma find_version_records_region headers limit l r :
  bytes_ok headers -> (forall i, In i l -> 0 <= i < 65536) ->
  find_version_records_in headers limit l = Ok r ->
  0 <= region_offset r /\ 0 <= region_size r /\ (region_size r <> 0 -> region_offset r + region_size r <= limit).
Proof.
  intros Hh. induction l as [|i l IH]; intros Hl E; cbn [find_version_records_in] in E.
  - inv_ok E; subst; simpl; lia.
  - assert (0 <= i < 65536) by (apply Hl; left; reflexivity).
    assert (Ha : 0 <= program_header_at i < 2 ^ 40)
      by (unfold program_header_at, kElfHeaderSize, kElfProgramHeaderSize; lia).
    inv_ok E. destruct (negb _) eqn:T; [apply IH; auto; intros; apply Hl; right; assumption|].
    inv_ok E. apply read_u64_inv in E1 as (? & ? & ?); [|assumption|lia|lia].
    apply read_u64_inv in E2 as (? & ? & ?); [|assumption|lia|lia].
    destruct (_ || _) eqn:G in E; injection E as <-; simpl; [lia|].
    unfold range_in_bounds in G. to_prop. lia.
Qed.

Lemma extract_size_invariant headers n l r :
  bytes_ok headers -> 0 <= n -> (forall i, In i l -> 0 <= i < 65536) ->
  for_each (extract_size headers) n l = Ok r -> n <= r.
Proof.
  intros Hh Hn Hl. apply (for_each_invariant _ (fun s => n <= s)); [|lia].
  intros s i s' Hs Hi E. unfold extract_size in E. inv_ok E. subst. lia.
Qed.

Lemma extract_tail_nonneg data segments : 0 <= extract_tail data segments.
Proof.
  unfold extract_tail. apply fold_left_invariant; [|lia].
  intros t s Ht. unfold extract_tail_step. destruct (range_in_bounds _ _ _); lia.
Qed.

Lemma extract_version_defined data segments version output :
  0 <= region_size version -> defined (extract_version data segments version output).
Proof.
  intros. pose proof (extract_tail_nonneg data segments).
  unfold extract_version, range_in_bounds. repeat defined_step.
Qed.

Lemma extract_defined_lemma data : bytes_ok data -> defined (extract zlib_inflate data).
Proof.
  intros H. unfold extract. apply defined_bind; [apply parse_defined_lemma; assumption|].
  intros image E. apply parse_image_ok in E as (Hs & Hh & Hsz); [|assumption].
  unfold kProgramHeaderCountOffset, kElfHeaderSize, kElfProgramHeaderSize.
  repeat defined_step.
  - apply (defined_for_each _ (fun _ => True)); auto. intros s i _ Hi.
    apply in_u16_indices in Hi; [|assumption].
    unfold extract_size, program_header_at, kElfHeaderSize, kElfProgramHeaderSize.
    repeat defined_step.
  - apply (defined_for_each _ (fun _ => True)); auto. intros o s _ Hi.
    apply extract_segment_defined; [assumption| |lia].
    rewrite Forall_forall in Hs. auto.
  - apply find_version_records_defined; [assumption|]. intros i Hi.
    apply in_u16_indices in Hi; tauto.
  - apply extract_version_defined.
    match goal with E : find_version_records _ _ _ = Ok _ |- _ =>
      apply find_version_records_region in E end; [lia|assumption|].
    intros i Hi. apply in_u16_indices in Hi; tauto.
Qed.
End Inflate.
