(* ===== verification/SelfLayout.v ===== *)
(** * FSELF containers: the layout [sign] computes

    The facts a plan guarantees, the log of writes [sign] performs, and the
    proof that the blocks of a container never overlap and that writing the
    container is exactly performing that log. *)

From Stdlib Require Import ZArith List Bool Lia String.
From S2P Require Import Prelude Bytes Writes Hash SelfContainer SelfFields.
Import ListNotations.
Open Scope Z_scope.

(** Files of at most 2^48 bytes: offsets cannot wrap a 64-bit [size_t]. *)
Definition kFileLimit : Z := 2 ^ 48.

(** ** The plan *)

(** A selected segment is stored content of a program header. *)
Definition selected_ok (elf : Bytes) (count : Z) (s : SelectedSegment) : Prop :=
  0 <= sel_header_index s < count /\
  0 <= sel_file_offset s /\ 0 < sel_file_size s /\
  sel_file_offset s + sel_file_size s <= size elf /\
  sel_file_offset s = field elf (program_header_at (sel_header_index s) + 0x08) 8 /\
  sel_file_size s = field elf (program_header_at (sel_header_index s) + 0x20) 8.

Lemma select_segment_ok elf include selected i r count :
  bytes_ok elf -> 0 <= i < count -> count < 65536 ->
  Forall (selected_ok elf count) selected ->
  select_segment elf kElfHeaderSize include selected i = Ok r ->
  Forall (selected_ok elf count) r.
Proof.
  intros H Hi Hc Hs E. unfold select_segment in E.
  change (kElfHeaderSize + i * kElfProgramHeaderSize) with (program_header_at i) in E.
  assert (0 <= program_header_at i < 2 ^ 32)
    by (unfold program_header_at, kElfHeaderSize, kElfProgramHeaderSize; lia).
  inv_ok E.
  apply read_u64_inv in E2 as (? & -> & ?); [|assumption|lia|lia].
  apply read_u64_inv in E3 as (? & -> & ?); [|assumption|lia|lia].
  destruct (_ =? 0) eqn:Z0 in E; [inv_ok E; subst; assumption|].
  destruct (_ && _) in E; [inv_ok E; subst; assumption|].
  inv_ok E. subst r. apply Forall_app; split; [assumption|]. constructor; [|constructor].
  unfold range_in_bounds in *. to_prop. unfold selected_ok. cbn [sel_header_index sel_file_offset sel_file_size].
  repeat split; lia.
Qed.

Lemma select_segments_ok elf include count r :
  bytes_ok elf -> 0 <= count < 65536 ->
  select_segments elf kElfHeaderSize count include = Ok r -> Forall (selected_ok elf count) r.
Proof.
  intros H Hc E. unfold select_segments in E.
  eapply for_each_invariant in E; [exact E| |constructor].
  intros s i s' Hs Hi E'. apply in_indices in Hi.
  eapply select_segment_ok; [eassumption| | |eassumption|eassumption]; lia.
Qed.

Lemma digest_size_range n : 0 <= n <= kFileLimit -> 0 <= digest_size n <= 2 ^ 40.
Proof.
  unfold kFileLimit, digest_size, kSegmentBlockSize, kDigestSlotSize. intros.
  rewrite u64_small by lia.
  pose proof (Z.div_pos (n + 0x4000 - 1) 0x4000).
  pose proof (Z.mul_div_le (n + 0x4000 - 1) 0x4000 ltac:(lia)). lia.
Qed.

(** The layout of the digest and data blocks: block [i]'s data follows its
    digests, the next block starts after it, and the last ends before [last]. *)
Record layout (cursor : Z) (sel : list SelectedSegment) (offsets digests : list Z) (last_ : Z) : Prop := {
  lay_first : forall i, (i < List.length sel)%nat -> cursor <= nth (2 * i) offsets 0;
  lay_digest : forall i, (i < List.length sel)%nat -> 0 <= nth i digests 0;
  lay_data : forall i, (i < List.length sel)%nat ->
    nth (2 * i + 1) offsets 0 = nth (2 * i) offsets 0 + nth i digests 0;
  lay_next : forall i, (S i < List.length sel)%nat ->
    nth (2 * i + 1) offsets 0 + sel_file_size (nth i sel no_selection) <= nth (2 * S i) offsets 0;
  lay_last : forall i, (i < List.length sel)%nat ->
    nth (2 * i + 1) offsets 0 + sel_file_size (nth i sel no_selection) <= last_;
  lay_length : List.length offsets = (2 * List.length sel)%nat;
  lay_head : sel <> [] -> nth 0 offsets 0 = cursor;
  lay_bounds : cursor <= last_ <= cursor + size sel * 2 ^ 50
}.

Lemma sign_offsets_layout sel :
  Forall (fun s => 0 <= sel_file_size s <= kFileLimit) sel ->
  forall cursor, 0 <= cursor -> cursor + size sel * 2 ^ 50 < 2 ^ 63 ->
  layout cursor sel (fst (fst (sign_offsets cursor sel))) (snd (fst (sign_offsets cursor sel)))
    (snd (sign_offsets cursor sel)).
Proof.
  unfold kFileLimit. induction 1 as [|s sel Hs _ IH]; intros cursor H0 Hb.
  - split; simpl; try tauto; change (size []) with 0; lia.
  - rewrite size_cons in Hb. pose proof (size_nonneg sel).
    pose proof (digest_size_range _ Hs) as D.
    cbn [sign_offsets]. rewrite (u64_small (cursor + _)), (u64_small (_ + _)) by lia.
    set (g := digest_size (sel_file_size s)) in *.
    pose proof (align_up_16_le (cursor + g + sel_file_size s)) as A.
    set (next := align_up _ _) in *. specialize (IH next ltac:(lia) ltac:(lia)).
    destruct (sign_offsets next sel) as [[offsets digests] last_]; cbn [fst snd] in *.
    destruct IH as [I1 I2 I3 I4 I5 I6 I7 I8].
    split; cbn [List.length]; try (intros [|i]); cbn [nth Nat.mul Nat.add]; intros;
      rewrite ?size_cons; try lia;
      try (replace (i + S (i + 0))%nat with (S (2 * i)) by lia);
      try (replace (i + S (i + 0) + 1)%nat with (S (2 * i + 1)) by lia);
      try (replace (S (i + S (i + 0)))%nat with (S (S (2 * i))) by lia);
      cbn [nth].
    all: try (specialize (I1 i ltac:(lia)); lia).
    all: try (apply I2; lia).
    all: try (apply I3; lia).
    all: try (apply I4; lia).
    all: try (apply I5; lia).
    + destruct sel as [|s' sel]; [simpl in *; lia|]. rewrite I7 by discriminate. lia.
    + specialize (I4 i ltac:(lia)). replace (2 * S i)%nat with (S (S (2 * i))) in I4 by lia.
      replace (S (2 * i) + 1)%nat with (S (2 * i + 1)) by lia. cbn [nth].
      replace (i + S (S (i + 0)))%nat with (S (S (2 * i))) by lia. exact I4.
Qed.

(** The header after normalisation: machine x86-64, an OS ABI of [ELFOSABI_FREEBSD]
    for a generic or GNU one, type [ET_EXEC] for [ET_NONE]; every other byte kept. *)
Definition normalized (elf e : Bytes) : Prop :=
  size e = size elf /\ bytes_ok e /\
  field e kMachineOffset 2 = 0x3e /\
  byte_at e kOsAbiOffset =
    (if (byte_at elf kOsAbiOffset =? 0) || (byte_at elf kOsAbiOffset =? 3) then 9
     else byte_at elf kOsAbiOffset) /\
  field e kTypeOffset 2 = (if field elf kTypeOffset 2 =? 0 then 2 else field elf kTypeOffset 2) /\
  (forall i, i <> kOsAbiOffset -> ~ (kTypeOffset <= i < kMachineOffset + 2) -> byte_at e i = byte_at elf i).

Lemma field_put_other l a s b n :
  0 <= a -> a + size s <= size l -> 0 <= b -> 0 <= n -> b + n <= size l ->
  b + n <= a \/ a + size s <= b -> field (put l a s) b n = field l b n.
Proof. intros. unfold field. rewrite sub_put_other by assumption. reflexivity. Qed.

Lemma byte_at_put_other l a s i :
  0 <= a -> a + size s <= size l -> i < a \/ a + size s <= i -> byte_at (put l a s) i = byte_at l i.
Proof.
  intros. rewrite byte_at_put by assumption.
  destruct ((a <=? i) && (i <? a + size s)) eqn:E; to_prop; [lia|reflexivity].
Qed.

Lemma bytes_ok_byte v : bytes_ok [u8 v].
Proof. constructor; [apply u8_range|constructor]. Qed.
#[export] Hint Resolve bytes_ok_byte : bytes.

Lemma normalize_header_ok elf :
  bytes_ok elf -> kElfHeaderSize <= size elf < 2 ^ 64 ->
  exists e, normalize_header elf = Ok e /\ normalized elf e.
Proof.
  unfold kElfHeaderSize. intros H Hs. unfold normalize_header, normalized.
  unfold kMachineOffset, kOsAbiOffset, kTypeOffset.
  rewrite write_u16_ok by lia. cbn [bind].
  set (e1 := put elf 0x12 _).
  assert (S1 : size e1 = size elf) by (apply size_put; [lia|rewrite size_le_bytes; lia]).
  assert (B1 : bytes_ok e1) by (subst e1; auto with bytes).
  rewrite index_ok by lia. cbn [bind].
  assert (A1 : byte_at e1 0x07 = byte_at elf 0x07)
    by (apply byte_at_put_other; rewrite ?size_le_bytes; lia).
  rewrite A1. set (abi := byte_at elf 0x07).
  set (e2 := if (abi =? 0) || (abi =? 3) then put e1 0x07 [u8 9] else e1).
  assert (E2 : (if (abi =? 0) || (abi =? 3) then store e1 0x07 9 else Ok e1) = Ok e2)
    by (subst e2; destruct (_ || _); [apply store_ok; lia|reflexivity]).
  rewrite E2. cbn [bind].
  assert (S2 : size e2 = size elf)
    by (subst e2; destruct (_ || _); rewrite ?size_put; change (size [_]) with 1; lia).
  assert (B2 : bytes_ok e2) by (subst e2; destruct (_ || _); auto with bytes).
  assert (O2 : forall i, i <> 0x07 -> byte_at e2 i = byte_at e1 i)
    by (intros; subst e2; destruct (_ || _); [apply byte_at_put_other; change (size [_]) with 1; lia|reflexivity]).
  assert (F2 : forall b n, 0 <= n -> 8 <= b -> b + n <= size elf -> field e2 b n = field e1 b n)
    by (intros; unfold field; f_equal; apply sub_ext; try lia; intros; apply O2; lia).
  assert (A2 : byte_at e2 0x07 = if (abi =? 0) || (abi =? 3) then 9 else abi)
    by (subst e2; destruct (_ || _); [rewrite byte_at_put; change (size [_]) with 1; [reflexivity|lia|lia]|exact A1]).
  rewrite read_u16_ok by (assumption || lia). cbn [bind].
  assert (T2 : field e2 0x10 2 = field elf 0x10 2)
    by (rewrite F2 by lia; apply field_put_other; rewrite ?size_le_bytes; lia).
  assert (M2 : field e2 0x12 2 = 0x3e)
    by (rewrite F2 by lia; apply (field_put_le elf 0x12 2); lia).
  assert (K2 : forall i, i <> 0x07 -> ~ (0x10 <= i < 0x12 + 2) -> byte_at e2 i = byte_at elf i)
    by (intros; rewrite O2 by assumption; apply byte_at_put_other; rewrite ?size_le_bytes; lia).
  rewrite T2. destruct (field elf 0x10 2 =? 0); [|exists e2; repeat split; auto].
  rewrite write_u16_ok by lia. eexists; split; [reflexivity|].
  assert (P : 0x10 + size (le_bytes 2 2) <= size e2) by (rewrite size_le_bytes; lia).
  repeat split; auto with bytes.
  - rewrite size_put; lia.
  - rewrite field_put_other; rewrite ?size_le_bytes; auto; lia.
  - rewrite byte_at_put_other; rewrite ?size_le_bytes; auto; lia.
  - apply (field_put_le e2 0x10 2 2); lia.
  - intros i Hi Hj. rewrite byte_at_put_other by (rewrite ?size_le_bytes; lia). apply K2; assumption.
Qed.

Definition signed_elf (input : Bytes) (options : SignOptions) : outcome Bytes :=
  if opt_normalize_header options then normalize_header input else Ok input.

Record plan_ok (input : Bytes) (options : SignOptions) (p : SignPlan) : Prop := {
  pl_magic : opt_magic options = kMagic \/ opt_magic options = kAlternateMagic;
  pl_auth : size (opt_auth_info options) = 0 \/ size (opt_auth_info options) = 0x88;
  pl_elf : signed_elf input options = Ok (plan_elf p);
  pl_bytes : bytes_ok (plan_elf p);
  pl_size : size (plan_elf p) = size input;
  pl_header : kElfHeaderSize <= size (plan_elf p);
  pl_entry_size : field (plan_elf p) kProgramHeaderEntrySizeOffset 2 = kElfProgramHeaderSize;
  pl_elf_magic : field input 0 4 = 0x464c457f;
  pl_count : plan_program_count p = field (plan_elf p) kProgramHeaderCountOffset 2;
  pl_table : plan_elf_headers_size p <= size (plan_elf p);
  pl_selected : Forall (selected_ok (plan_elf p) (plan_program_count p)) (plan_selected p);
  pl_nonempty : plan_selected p <> [];
  pl_extended_at : plan_extended_at p = align_up (plan_after_segments p + plan_elf_headers_size p) 0x10;
  pl_header_size : plan_header_size p = plan_extended_at p + kExtendedInfoSize + kControlRegionSize;
  pl_meta_size : plan_meta_size p = metadata_size (plan_segment_count p) (opt_magic options);
  pl_header_u16 : plan_header_size p <= kU16Max;
  pl_meta_u16 : plan_meta_size p <= kU16Max;
  pl_layout : layout (plan_header_size p + plan_meta_size p) (plan_selected p) (plan_offsets p)
                (plan_digest_sizes p) (plan_declared_size p);
  pl_version_start : plan_version_start p =
    u64 (last (plan_offsets p) 0 + sel_file_size (last (plan_selected p) no_selection));
  pl_version : find_version_records (plan_elf p) (plan_program_count p) (size (plan_elf p)) = Ok (plan_version p)
}.

Lemma signed_elf_ok input options e :
  bytes_ok input -> kElfHeaderSize <= size input < 2 ^ 64 -> signed_elf input options = Ok e ->
  bytes_ok e /\ size e = size input.
Proof.
  intros H Hs E. unfold signed_elf in E. destruct (opt_normalize_header options).
  - destruct (normalize_header_ok input H Hs) as (e' & E' & (? & ? & _)).
    replace e with e' by congruence. auto.
  - injection E as <-. auto.
Qed.

Lemma is_elf_inv data : bytes_ok data -> is_elf data = Ok true ->
  kElfHeaderSize <= size data /\ field data 0 4 = 0x464c457f.
Proof.
  intros H E. unfold is_elf in E. destruct (kElfHeaderSize <=? size data) eqn:G; [|discriminate].
  unfold kElfHeaderSize in *. to_prop. inv_ok E. to_prop.
  apply read_u32_inv in E0 as (? & ? & ?); [|assumption|lia|lia]. split; congruence.
Qed.

Lemma metadata_size_ge n magic : 0 <= n -> 0 <= metadata_size n magic.
Proof.
  intros. unfold metadata_size, kMetadataBlockSize, kMetadataFooterSize, kAlternateSignatureSize, kSignatureSize.
  destruct (_ =? _); lia.
Qed.

Lemma sign_plan_ok input options p :
  bytes_ok input -> size input <= kFileLimit -> sign_plan input options = Ok p ->
  plan_ok input options p.
Proof.
  unfold kFileLimit. intros H Hs E. unfold sign_plan in E. inv_ok E.
  subst v. apply is_elf_inv in E0 as [Hh Hm]; [|assumption].
  assert (Hh' := Hh). unfold kElfHeaderSize in Hh'.
  assert (E2' : signed_elf input options = Ok v1) by exact E2.
  destruct (signed_elf_ok input options v1 H ltac:(lia) E2') as [B S].
  apply read_u64_inv in E3 as (? & -> & ?); [|assumption|unfold kProgramHeaderOffset; lia..].
  apply read_u16_inv in E4 as (? & -> & ?); [|assumption|unfold kProgramHeaderEntrySizeOffset; lia..].
  apply read_u16_inv in E5 as (? & -> & ?); [|assumption|unfold kProgramHeaderCountOffset; lia..].
  to_prop. rename H7 into Hcount.
  set (count := field v1 kProgramHeaderCountOffset 2) in *.
  match goal with G : field v1 kProgramHeaderOffset 8 = _ |- _ => rewrite G in * end.
  pose proof E6 as Sel. apply select_segments_ok in Sel; [|assumption|assumption].
  assert (Hsel : Forall (fun s => 0 <= sel_file_size s <= 2 ^ 48) v5)
    by (eapply Forall_impl; [|exact Sel]; unfold selected_ok; intros; lia).
  pose proof (sign_offsets_layout v5 Hsel) as L. pose proof (size_nonneg v5).
  assert (Hmeta : 0 <= metadata_size (size v5 * 2) (opt_magic options))
    by (apply metadata_size_ge; lia).
  destruct (sign_offsets _ v5) as [[offsets digests] cursor] eqn:SO in E.
  inv_ok E. rewrite <- E. clear E.
  set (ea := align_up _ _) in *.
  assert (Hea : 0 <= size v5 <= 410 /\ 0 <= ea <= 65535).
  { revert SO. unfold kU16Max, kExtendedInfoSize, kControlRegionSize in *. intros _.
    unfold metadata_size, kMetadataBlockSize, kMetadataFooterSize in *.
    assert (0 <= ea) by (subst ea; unfold align_up, align_up_mask; apply Z.land_nonneg; left; apply u64_range).
    split; [|lia]. split; [lia|].
    enough (size v5 * 2 * 0x50 <= 65535) by lia.
    destruct (opt_magic options =? kAlternateMagic); unfold kAlternateSignatureSize, kSignatureSize in *; lia. }
  specialize (L (ea + kExtendedInfoSize + kControlRegionSize + metadata_size (size v5 * 2) (opt_magic options))
                ltac:(unfold kExtendedInfoSize, kControlRegionSize; lia)
                ltac:(unfold kExtendedInfoSize, kControlRegionSize, kU16Max in *; lia)).
  rewrite SO in L. cbn [fst snd] in L.
  split; cbn [plan_elf plan_program_count plan_selected plan_extended_at plan_header_size plan_meta_size
    plan_offsets plan_digest_sizes plan_declared_size plan_version_start plan_version];
    try assumption; try reflexivity; try lia.
  - unfold plan_elf_headers_size; cbn [plan_program_count].
    unfold kElfHeaderSize, kElfProgramHeaderSize in *.
    pose proof (Z.mul_div_le (size v1 - 0x40) 0x38 ltac:(lia)). lia.
  - intros ->. change (size []) with 0 in *. lia.
Qed.

(** ** The writes of a container *)

Definition header_writes (p : SignPlan) (options : SignOptions) : list write :=
  [ (0, le_bytes 4 (opt_magic options));
    (0x04, [u8 0]); (0x05, [u8 1]); (0x06, [u8 1]); (0x07, [u8 0x12]);
    (0x08, le_bytes 4 kDefaultProgramType);
    (0x0c, le_bytes 2 (u16 (plan_header_size p)));
    (0x0e, le_bytes 2 (u16 (plan_meta_size p)));
    (0x10, le_bytes 8 (plan_declared_size p));
    (0x18, le_bytes 2 (u16 (plan_segment_count p)));
    (0x1a, le_bytes 2 0x22) ].

Definition segment_writes (at_ flags offset file_size memory_size : Z) : list write :=
  [ (at_, le_bytes 8 flags); (at_ + 0x08, le_bytes 8 offset);
    (at_ + 0x10, le_bytes 8 file_size); (at_ + 0x18, le_bytes 8 memory_size) ].

Definition digest_flags (i : Z) : Z := Z.lor (u64 (Z.shiftl (i * 2 + 1) 20)) 0x10004.
Definition data_flags (s : SelectedSegment) : Z := Z.lor (u64 (Z.shiftl (sel_header_index s) 20)) 0x2804.
Definition entry_at (k : Z) : Z := kContainerHeaderSize + k * kSegmentEntrySize.

Definition entry_writes (p : SignPlan) (i : Z) : list write :=
  segment_writes (entry_at (i * 2)) (digest_flags i) (plan_offset p (i * 2))
    (plan_digest_size p i) (plan_digest_size p i) ++
  segment_writes (entry_at (i * 2) + kSegmentEntrySize) (data_flags (plan_select p i))
    (plan_offset p (i * 2 + 1))
    (sel_file_size (plan_select p i)) (sel_file_size (plan_select p i)).

Definition extended_writes (p : SignPlan) (options : SignOptions) : list write :=
  [ (plan_after_segments p, sub (plan_elf p) 0 (plan_elf_headers_size p));
    (plan_extended_at p, le_bytes 8 (opt_authority options));
    (plan_extended_at p + 0x08, le_bytes 8 1);
    (plan_extended_at p + 0x10, le_bytes 8 (opt_app_version options));
    (plan_extended_at p + 0x18, le_bytes 8 (opt_firmware_version options));
    (plan_extended_at p + kExtendedInfoSize, le_bytes 8 3) ].

Definition plan_footer (p : SignPlan) : Z :=
  plan_header_size p + plan_segment_count p * kMetadataBlockSize.

Definition footer_writes (p : SignPlan) (options : SignOptions) : list write :=
  (plan_footer p + kFooterMarkerOffset, le_bytes 4 0x10000) ::
  if negb (size (opt_auth_info options) =? 0) then
    [ (plan_footer p + kMetadataFooterSize, le_bytes 8 0x88);
      (plan_footer p + kMetadataFooterSize + 0x08, le_bytes 8 (opt_authority options));
      (plan_footer p + kMetadataFooterSize + 0x10,
       sub (opt_auth_info options) 0x08 (size (opt_auth_info options) - 0x08)) ]
  else [].

Definition content_writes (p : SignPlan) (i : Z) : list write :=
  [ (plan_offset p (i * 2 + 1),
     sub (plan_elf p) (sel_file_offset (plan_select p i)) (sel_file_size (plan_select p i))) ].

Definition version_writes (p : SignPlan) : list write :=
  if negb (region_size (plan_version p) =? 0) then
    [ (plan_version_start p,
       sub (plan_elf p) (region_offset (plan_version p)) (region_size (plan_version p))) ]
  else [].

Definition container_writes (p : SignPlan) (options : SignOptions) : list write :=
  header_writes p options ++ flat_map (entry_writes p) (plan_indices p) ++
  extended_writes p options ++ footer_writes p options ++
  flat_map (content_writes p) (plan_indices p) ++ version_writes p.

Definition container_size (p : SignPlan) : Z :=
  Z.max (plan_declared_size p) (u64 (plan_version_start p + region_size (plan_version p))).

(** Performing a write inside a chain. *)
Lemma bind_write_u16 {B} l a v (k : Bytes -> outcome B) r :
  0 <= a -> a + 2 <= size l -> size l < 2 ^ 64 ->
  (size (put l a (le_bytes 2 v)) = size l -> k (put l a (le_bytes 2 v)) = r) ->
  bind (write_u16 l a v) k = r.
Proof.
  intros. rewrite write_u16_ok by assumption. cbn [bind]. apply H2. apply size_put; [lia|].
  rewrite size_le_bytes. lia.
Qed.

Lemma bind_write_u32 {B} l a v (k : Bytes -> outcome B) r :
  0 <= a -> a + 4 <= size l -> size l < 2 ^ 64 ->
  (size (put l a (le_bytes 4 v)) = size l -> k (put l a (le_bytes 4 v)) = r) ->
  bind (write_u32 l a v) k = r.
Proof.
  intros. rewrite write_u32_ok by assumption. cbn [bind]. apply H2. apply size_put; [lia|].
  rewrite size_le_bytes. lia.
Qed.

Lemma bind_write_u64 {B} l a v (k : Bytes -> outcome B) r :
  0 <= a -> a + 8 <= size l -> size l < 2 ^ 64 ->
  (size (put l a (le_bytes 8 v)) = size l -> k (put l a (le_bytes 8 v)) = r) ->
  bind (write_u64 l a v) k = r.
Proof.
  intros. rewrite write_u64_ok by assumption. cbn [bind]. apply H2. apply size_put; [lia|].
  rewrite size_le_bytes. lia.
Qed.

Lemma bind_store {B} l a v (k : Bytes -> outcome B) r :
  0 <= a -> a + 1 <= size l ->
  (size (put l a [u8 v]) = size l -> k (put l a [u8 v]) = r) ->
  bind (store l a v) k = r.
Proof.
  intros. rewrite store_ok by lia. cbn [bind]. apply H1. apply size_put; [lia|].
  change (size [u8 v]) with 1. lia.
Qed.

Lemma bind_copy {B} l a s (k : Bytes -> outcome B) r :
  0 <= a -> a + size s <= size l ->
  (size (put l a s) = size l -> k (put l a s) = r) ->
  bind (copy_bytes l a s) k = r.
Proof. intros. rewrite copy_bytes_ok by assumption. cbn [bind]. apply H1. apply size_put; lia. Qed.

Ltac write_step :=
  lazymatch goal with
  | |- bind (write_u16 _ _ _) _ = _ => apply bind_write_u16; [lia|lia|lia|intros ?]
  | |- bind (write_u32 _ _ _) _ = _ => apply bind_write_u32; [lia|lia|lia|intros ?]
  | |- bind (write_u64 _ _ _) _ = _ => apply bind_write_u64; [lia|lia|lia|intros ?]
  | |- bind (store _ _ _) _ = _ => apply bind_store; [lia|lia|intros ?]
  | |- write_u16 _ _ _ = _ => rewrite write_u16_ok by lia; reflexivity
  | |- write_u64 _ _ _ = _ => rewrite write_u64_ok by lia; reflexivity
  end.

Lemma sign_header_writes p options l :
  0x1c <= size l < 2 ^ 64 -> sign_header p options l = Ok (apply_writes l (header_writes p options)).
Proof. intros. unfold sign_header. repeat write_step. Qed.

Lemma write_segment_writes l a flags offset fs ms :
  0 <= a -> a + 0x20 <= size l < 2 ^ 64 ->
  write_segment l a flags offset fs ms = Ok (apply_writes l (segment_writes a flags offset fs ms)) /\
  size (apply_writes l (segment_writes a flags offset fs ms)) = size l.
Proof.
  intros. unfold write_segment. split; [repeat write_step|].
  apply (size_apply_writes a _ (a + 0x20)); cbn [segment_writes ascending fst snd];
    rewrite ?size_le_bytes; lia.
Qed.

Lemma sign_entry_writes p l i :
  0 <= i -> entry_at (i * 2 + 2) <= size l < 2 ^ 64 ->
  sign_entry p l i = Ok (apply_writes l (entry_writes p i)) /\
  size (apply_writes l (entry_writes p i)) = size l.
Proof.
  unfold entry_at, kContainerHeaderSize, kSegmentEntrySize. intros Hi Hs.
  unfold sign_entry, entry_writes. rewrite apply_writes_app.
  unfold kContainerHeaderSize, kSegmentEntrySize, entry_at, kContainerHeaderSize, kSegmentEntrySize.
  edestruct write_segment_writes as [E S]; [| |rewrite E]; [lia|lia|]. cbn [bind].
  edestruct write_segment_writes as [E' S']; [| |split; [exact E'|etransitivity; [exact S'|exact S]]]; lia.
Qed.

(** ** The geometry of a container *)

Section Geometry.
Context (input : Bytes) (options : SignOptions) (p : SignPlan).
Hypothesis Hp : plan_ok input options p.
Hypothesis Hinput : size input <= kFileLimit.

(** The number of selected segments. *)
Let n := size (plan_selected p).

(** Where block [i] starts; the end of the last block for [i = n]. *)
Definition block_at (i : Z) : Z :=
  if i <? size (plan_selected p) then plan_offset p (i * 2) else plan_version_start p.

Lemma plan_count_positive : 0 < n <= 410.
Proof.
  pose proof (pl_meta_u16 _ _ _ Hp) as M. rewrite (pl_meta_size _ _ _ Hp) in M.
  pose proof (pl_nonempty _ _ _ Hp) as N.
  unfold metadata_size, plan_segment_count, kMetadataBlockSize, kMetadataFooterSize, kU16Max in M.
  fold n in M. assert (0 < n).
  { unfold n. destruct (plan_selected p) as [|s l]; [contradiction|].
    rewrite size_cons. pose proof (size_nonneg l). lia. }
  destruct (opt_magic options =? kAlternateMagic);
    unfold kAlternateSignatureSize, kSignatureSize in M; lia.
Qed.

Lemma plan_program_count_range : 0 <= plan_program_count p < 65536.
Proof.
  rewrite (pl_count _ _ _ Hp). pose proof (pl_header _ _ _ Hp). unfold kElfHeaderSize in *.
  apply (field_range (plan_elf p) kProgramHeaderCountOffset 2); unfold kProgramHeaderCountOffset;
    [apply (pl_bytes _ _ _ Hp)|lia..].
Qed.

(** The header region, as equations. *)
Lemma plan_header_layout :
  plan_segment_count p = n * 2 /\
  plan_after_segments p = 0x20 + n * 0x40 /\
  plan_elf_headers_size p = 0x40 + plan_program_count p * 0x38 /\
  plan_after_segments p + plan_elf_headers_size p <= plan_extended_at p <
    plan_after_segments p + plan_elf_headers_size p + 0x10 /\
  plan_header_size p = plan_extended_at p + 0x70 /\
  plan_header_size p <= 65535 /\
  plan_footer p = plan_header_size p + n * 0xa0 /\
  plan_footer p + 0x150 <= plan_header_size p + plan_meta_size p /\ plan_meta_size p <= 65535.
Proof.
  pose proof plan_count_positive. pose proof plan_program_count_range.
  pose proof (pl_header_size _ _ _ Hp). pose proof (pl_header_u16 _ _ _ Hp).
  pose proof (pl_meta_u16 _ _ _ Hp). pose proof (pl_meta_size _ _ _ Hp) as M.
  pose proof (pl_extended_at _ _ _ Hp) as X.
  assert (A : plan_segment_count p = n * 2) by reflexivity.
  assert (B : plan_after_segments p = 0x20 + n * 0x40)
    by (unfold plan_after_segments, kContainerHeaderSize, kSegmentEntrySize; lia).
  assert (C : plan_elf_headers_size p = 0x40 + plan_program_count p * 0x38) by reflexivity.
  pose proof (align_up_16_le (plan_after_segments p + plan_elf_headers_size p)).
  unfold plan_footer, kExtendedInfoSize, kControlRegionSize, kU16Max, kMetadataBlockSize in *.
  unfold metadata_size, kMetadataBlockSize, kMetadataFooterSize in M.
  repeat split; try lia.
  destruct (opt_magic options =? kAlternateMagic);
    unfold kAlternateSignatureSize, kSignatureSize in M; lia.
Qed.

Lemma plan_select_ok i : 0 <= i < n -> selected_ok (plan_elf p) (plan_program_count p) (plan_select p i).
Proof.
  intros Hi. pose proof (pl_selected _ _ _ Hp) as F. rewrite Forall_forall in F. apply F.
  unfold plan_select. apply nth_In. unfold n, size in Hi. lia.
Qed.

Lemma last_nth {A} (l : list A) d : last l d = nth (List.length l - 1) l d.
Proof.
  induction l as [|a l IH]; [reflexivity|]. destruct l as [|b l]; [reflexivity|].
  change (last (a :: b :: l) d) with (last (b :: l) d). rewrite IH.
  cbn [List.length]. replace (S (S (List.length l)) - 1)%nat with (S (S (List.length l) - 1)) by lia.
  reflexivity.
Qed.

Lemma plan_version_start_eq :
  plan_version_start p = plan_offset p ((n - 1) * 2 + 1) + sel_file_size (plan_select p (n - 1)) /\
  plan_version_start p <= plan_declared_size p.
Proof.
  pose proof (pl_layout _ _ _ Hp) as L. pose proof plan_count_positive.
  pose proof plan_header_layout. pose proof (plan_select_ok (n - 1) ltac:(lia)) as S.
  rewrite (pl_version_start _ _ _ Hp), !last_nth.
  rewrite (lay_length _ _ _ _ _ L). unfold plan_offset, plan_select, selected_ok, n, size in *.
  replace (Z.to_nat ((Z.of_nat (List.length (plan_selected p)) - 1) * 2 + 1))
    with (2 * (List.length (plan_selected p) - 1) + 1)%nat by lia.
  replace (Z.to_nat (Z.of_nat (List.length (plan_selected p)) - 1))
    with (List.length (plan_selected p) - 1)%nat in * by lia.
  replace (2 * List.length (plan_selected p) - 1)%nat
    with (2 * (List.length (plan_selected p) - 1) + 1)%nat by lia.
  pose proof (lay_last _ _ _ _ _ L (List.length (plan_selected p) - 1) ltac:(lia)).
  pose proof (lay_first _ _ _ _ _ L (List.length (plan_selected p) - 1) ltac:(lia)).
  pose proof (lay_digest _ _ _ _ _ L (List.length (plan_selected p) - 1) ltac:(lia)).
  pose proof (lay_data _ _ _ _ _ L (List.length (plan_selected p) - 1) ltac:(lia)).
  pose proof (lay_bounds _ _ _ _ _ L) as B. unfold size in B.
  rewrite u64_small by lia. lia.
Qed.

(** One block: digests, then data, then the next block. *)
Lemma plan_block i : 0 <= i < n ->
  plan_header_size p + plan_meta_size p <= block_at i /\
  block_at i = plan_offset p (i * 2) /\ 0 <= plan_digest_size p i /\
  plan_offset p (i * 2 + 1) = plan_offset p (i * 2) + plan_digest_size p i /\
  plan_offset p (i * 2 + 1) + sel_file_size (plan_select p i) <= block_at (i + 1).
Proof.
  intros Hi. pose proof (pl_layout _ _ _ Hp) as L. pose proof plan_version_start_eq as [V _].
  unfold block_at. fold n. replace (i <? n) with true by lia.
  unfold plan_offset, plan_digest_size, plan_select in *.
  replace (Z.to_nat (i * 2)) with (2 * Z.to_nat i)%nat by lia.
  replace (Z.to_nat (i * 2 + 1)) with (2 * Z.to_nat i + 1)%nat by lia.
  assert (Hi' : (Z.to_nat i < List.length (plan_selected p))%nat) by (unfold n, size in Hi; lia).
  repeat split.
  - apply (lay_first _ _ _ _ _ L); assumption.
  - apply (lay_digest _ _ _ _ _ L); assumption.
  - apply (lay_data _ _ _ _ _ L); assumption.
  - destruct (i + 1 <? n) eqn:E; to_prop.
    + replace (Z.to_nat ((i + 1) * 2)) with (2 * S (Z.to_nat i))%nat by lia.
      apply (lay_next _ _ _ _ _ L). unfold n, size in *. lia.
    + replace (n - 1) with i in V by lia.
      replace (Z.to_nat (i * 2 + 1)) with (2 * Z.to_nat i + 1)%nat in V by lia. lia.
Qed.

Lemma plan_first_block : block_at 0 = plan_header_size p + plan_meta_size p.
Proof.
  pose proof plan_count_positive. unfold block_at. fold n. replace (0 <? n) with true by lia.
  apply (lay_head _ _ _ _ _ (pl_layout _ _ _ Hp)). apply (pl_nonempty _ _ _ Hp).
Qed.

Lemma plan_declared_bounds :
  plan_header_size p + plan_meta_size p <= plan_declared_size p < 2 ^ 60.
Proof.
  pose proof plan_count_positive. pose proof plan_header_layout.
  pose proof (lay_bounds _ _ _ _ _ (pl_layout _ _ _ Hp)) as B. fold n in B. lia.
Qed.

Lemma plan_version_ok :
  0 <= region_offset (plan_version p) /\ 0 <= region_size (plan_version p) <= size (plan_elf p) /\
  (region_size (plan_version p) <> 0 ->
   region_offset (plan_version p) + region_size (plan_version p) <= size (plan_elf p)).
Proof.
  pose proof plan_program_count_range. pose proof (size_nonneg (plan_elf p)).
  pose proof (pl_version _ _ _ Hp) as V. apply find_version_records_region in V; [lia|apply (pl_bytes _ _ _ Hp)|].
  intros i Hi. apply in_u16_indices in Hi; tauto.
Qed.

Lemma container_size_bounds :
  plan_version_start p + region_size (plan_version p) <= container_size p /\
  plan_declared_size p <= container_size p < 2 ^ 61.
Proof.
  pose proof plan_declared_bounds. pose proof plan_version_ok. pose proof plan_version_start_eq.
  pose proof (pl_size _ _ _ Hp). unfold kFileLimit in *. pose proof plan_count_positive.
  pose proof (plan_block (n - 1) ltac:(lia)). pose proof (plan_select_ok (n - 1) ltac:(lia)) as S.
  unfold selected_ok in S. pose proof plan_header_layout.
  unfold container_size. rewrite u64_small by lia. lia.
Qed.

Lemma in_plan_indices i : In i (plan_indices p) <-> 0 <= i < n.
Proof. unfold plan_indices. rewrite in_indices. unfold n, size. lia. Qed.

Ltac log_bounds := cbn [ascending fst snd app]; rewrite ?size_le_bytes; repeat split; try lia.

Lemma header_writes_ascending : ascending 0 (header_writes p options) 0x1c.
Proof. unfold header_writes. log_bounds; change (size [_]) with 1; lia. Qed.

Lemma entry_writes_ascending i :
  ascending (entry_at (i * 2)) (entry_writes p i) (entry_at ((i + 1) * 2)).
Proof.
  unfold entry_writes, segment_writes, entry_at, kContainerHeaderSize, kSegmentEntrySize. log_bounds.
Qed.

Lemma extended_writes_ascending :
  ascending (plan_after_segments p) (extended_writes p options) (plan_header_size p).
Proof.
  pose proof plan_header_layout. pose proof (pl_table _ _ _ Hp). pose proof plan_count_positive.
  pose proof plan_program_count_range.
  unfold extended_writes, kExtendedInfoSize. log_bounds; rewrite ?size_sub by lia; lia.
Qed.

Lemma footer_writes_ascending :
  ascending (plan_header_size p) (footer_writes p options) (plan_header_size p + plan_meta_size p).
Proof.
  pose proof plan_header_layout. pose proof plan_count_positive. pose proof (pl_auth _ _ _ Hp).
  unfold footer_writes, kFooterMarkerOffset, kMetadataFooterSize.
  destruct (negb _) eqn:E; to_prop; log_bounds.
  rewrite size_sub by lia. lia.
Qed.

Lemma content_writes_ascending i : 0 <= i < n -> ascending (block_at i) (content_writes p i) (block_at (i + 1)).
Proof.
  intros Hi. pose proof (plan_block i Hi). pose proof (plan_select_ok i Hi) as S. unfold selected_ok in S.
  unfold content_writes. log_bounds; rewrite ?size_sub by lia; lia.
Qed.

Lemma version_writes_ascending :
  ascending (plan_version_start p) (version_writes p) (container_size p).
Proof.
  pose proof container_size_bounds. pose proof plan_version_ok.
  unfold version_writes. destruct (negb _) eqn:E; to_prop; log_bounds; rewrite ?size_sub by lia; lia.
Qed.

Lemma entries_ascending :
  ascending 0x20 (flat_map (entry_writes p) (plan_indices p)) (plan_after_segments p).
Proof.
  pose proof (ascending_flat_map (entry_writes p) (fun i => entry_at (i * 2)) 0
                (List.length (plan_selected p)) (fun i _ => entry_writes_ascending i)) as A.
  exact A.
Qed.

Lemma contents_ascending :
  ascending (plan_header_size p + plan_meta_size p) (flat_map (content_writes p) (plan_indices p))
    (plan_version_start p).
Proof.
  rewrite <- plan_first_block.
  replace (plan_version_start p) with (block_at (0 + Z.of_nat (List.length (plan_selected p)))).
  - apply ascending_flat_map. intros i Hi. apply content_writes_ascending. unfold n, size. lia.
  - unfold block_at. change (Z.of_nat (List.length (plan_selected p))) with n.
    replace (0 + n <? size (plan_selected p)) with false by (fold n; lia). reflexivity.
Qed.

(** No two writes of a container overlap. *)
Lemma container_writes_ascending : ascending 0 (container_writes p options) (container_size p).
Proof.
  unfold container_writes.
  eapply ascending_app; [apply header_writes_ascending|].
  eapply ascending_app; [eapply ascending_weaken; [| |apply entries_ascending]; [lia|reflexivity]|].
  eapply ascending_app; [apply extended_writes_ascending|].
  eapply ascending_app; [apply footer_writes_ascending|].
  eapply ascending_app; [apply contents_ascending|apply version_writes_ascending].
Qed.

Lemma sign_extended_writes l :
  plan_header_size p <= size l < 2 ^ 64 ->
  sign_extended p options l = Ok (apply_writes l (extended_writes p options)).
Proof.
  intros. pose proof plan_header_layout. pose proof (pl_table _ _ _ Hp). pose proof plan_count_positive.
  pose proof plan_program_count_range. unfold sign_extended, kExtendedInfoSize.
  rewrite subspan_ok by lia. cbn [bind].
  apply bind_copy; [lia|rewrite size_sub; lia|intros ?]. repeat write_step.
Qed.

Lemma sign_footer_writes l :
  plan_header_size p + plan_meta_size p <= size l < 2 ^ 64 ->
  sign_footer p options l = Ok (apply_writes l (footer_writes p options)).
Proof.
  intros. pose proof plan_header_layout. pose proof (pl_auth _ _ _ Hp). pose proof plan_count_positive.
  pose proof plan_program_count_range. unfold sign_footer, footer_writes. fold (plan_footer p). unfold kFooterMarkerOffset, kMetadataFooterSize.
  write_step. destruct (negb _) eqn:E; to_prop; [|reflexivity].
  repeat write_step. rewrite subspan_ok by lia. cbn [bind].
  rewrite copy_bytes_ok by (rewrite size_sub; lia). reflexivity.
Qed.

Lemma block_at_le_end i : 0 <= i <= n -> block_at i <= plan_version_start p.
Proof.
  assert (H : forall k, 0 <= n - Z.of_nat k -> block_at (n - Z.of_nat k) <= plan_version_start p).
  { induction k as [|k IH]; intros Hk.
    - replace (n - Z.of_nat 0) with n by lia. unfold block_at. fold n.
      replace (n <? n) with false by lia. lia.
    - pose proof (plan_block (n - Z.of_nat (S k)) ltac:(lia)) as B.
      pose proof (plan_select_ok (n - Z.of_nat (S k)) ltac:(lia)) as Q. unfold selected_ok in Q.
      replace (n - Z.of_nat (S k) + 1) with (n - Z.of_nat k) in B by lia. lia. }
  intros Hi. replace i with (n - Z.of_nat (Z.to_nat (n - i))) by lia. apply H. lia.
Qed.

Lemma sign_content_writes l i :
  0 <= i < n -> plan_version_start p <= size l ->
  sign_content p l i = Ok (apply_writes l (content_writes p i)) /\
  size (apply_writes l (content_writes p i)) = size l.
Proof.
  intros Hi Hl. pose proof (plan_block i Hi). pose proof (plan_select_ok i Hi) as S. unfold selected_ok in S.
  pose proof (block_at_le_end (i + 1) ltac:(lia)). pose proof plan_program_count_range.
  unfold sign_content, content_writes. rewrite subspan_ok by lia. cbn [bind].
  pose proof plan_header_layout. pose proof plan_count_positive.
  rewrite copy_bytes_ok by (rewrite size_sub; lia). split; [reflexivity|].
  cbn [apply_writes fold_left fst snd]. apply size_put; rewrite ?size_sub; lia.
Qed.

(** The container before the digest is written. *)
Lemma sign_unsealed_writes :
  sign_unsealed p options = Ok (apply_writes (zeros (container_size p)) (container_writes p options)).
Proof.
  pose proof container_size_bounds as CS. pose proof plan_declared_bounds. pose proof plan_header_layout.
  pose proof plan_count_positive. pose proof plan_version_start_eq. pose proof plan_version_ok.
  pose proof plan_program_count_range.
  unfold sign_unsealed. fold (container_size p).
  assert (S0 : size (zeros (container_size p)) = container_size p) by (apply size_zeros; lia).
  rewrite sign_header_writes by lia. cbn [bind].
  pose proof (size_apply_writes 0 (header_writes p options) 0x1c (zeros (container_size p)) ltac:(lia)
                header_writes_ascending ltac:(lia)) as S1.
  rewrite (for_each_writes _ (entry_writes p) _ _ (container_size p)); [|..|lia].
  2:{ intros l i Hi Hl. apply in_plan_indices in Hi. rewrite <- Hl.
      apply sign_entry_writes; [lia|]. unfold entry_at, kContainerHeaderSize, kSegmentEntrySize. lia. }
  cbn [bind]. rewrite <- apply_writes_app.
  set (l1 := header_writes p options ++ _).
  assert (A1 : ascending 0 l1 (plan_after_segments p)).
  { eapply ascending_app; [apply header_writes_ascending|].
    eapply ascending_weaken; [| |apply entries_ascending]; [lia|reflexivity]. }
  rewrite sign_extended_writes by (erewrite size_apply_writes; [|reflexivity|exact A1|]; lia).
  cbn [bind]. rewrite <- apply_writes_app.
  pose proof (ascending_app _ _ _ _ _ A1 extended_writes_ascending) as A2.
  rewrite sign_footer_writes by (erewrite size_apply_writes; [|reflexivity|exact A2|]; lia).
  cbn [bind]. rewrite <- apply_writes_app.
  pose proof (ascending_app _ _ _ _ _ A2 footer_writes_ascending) as A3.
  rewrite (for_each_writes _ (content_writes p) _ _ (container_size p)).
  2:{ intros l i Hi Hl. apply in_plan_indices in Hi. rewrite <- Hl. apply sign_content_writes; lia. }
  2:{ erewrite size_apply_writes; [exact S0|reflexivity|exact A3|lia]. }
  cbn [bind]. rewrite <- apply_writes_app.
  pose proof (ascending_app _ _ _ _ _ A3 contents_ascending) as A4.
  unfold container_writes. subst l1. rewrite <- !app_assoc in *. unfold version_writes.
  destruct (negb _) eqn:V; to_prop; [|rewrite app_nil_r; reflexivity].
  rewrite subspan_ok by lia. cbn [bind].
  rewrite copy_bytes_ok; [|erewrite size_apply_writes; [|reflexivity|exact A4|lia]; rewrite size_sub; lia].
  f_equal. rewrite !app_assoc. rewrite (apply_writes_app _ _ [_]). reflexivity.
Qed.
End Geometry.
