(* ===== verification/SelfRoundTrip.v ===== *)
(** * FSELF containers: signing and reading back

    [sign] writes a container, reads it back and seals it with the digest of
    what it read.  This file proves that a container reads back as the ELF it
    was made from, that the recorded digest is the digest of what extraction
    returns, that no input makes the reader or the signer leave a buffer, and
    that stripping the section table keeps the program content. *)

From Stdlib Require Import ZArith List Bool Lia String.
From S2P Require Import Prelude Bytes Writes Hash SelfContainer SelfFields SelfLayout.
Import ListNotations.
Open Scope Z_scope.

(** ** Reading a written container *)

(** A buffer that holds every block of the log. *)
Record container (p : SignPlan) (options : SignOptions) (out : Bytes) : Prop := {
  c_bytes : bytes_ok out;
  c_size : size out = container_size p;
  c_block : forall a s, In (a, s) (container_writes p options) -> sub out a (size s) = s
}.

Definition digest_segment (p : SignPlan) (i : Z) : Segment := {|
  seg_flags := digest_flags i; seg_file_offset := plan_offset p (i * 2);
  seg_file_size := plan_digest_size p i; seg_memory_size := plan_digest_size p i |}.

Definition data_segment (p : SignPlan) (i : Z) : Segment := {|
  seg_flags := data_flags (plan_select p i); seg_file_offset := plan_offset p (i * 2 + 1);
  seg_file_size := sel_file_size (plan_select p i); seg_memory_size := sel_file_size (plan_select p i) |}.

Definition container_segments (p : SignPlan) : list Segment :=
  flat_map (fun i => [digest_segment p i; data_segment p i]) (plan_indices p).

(** What [parse] returns for the container of a plan. *)
Definition container_image (p : SignPlan) (options : SignOptions) (digest : Bytes) : Image := {|
  img_program_type := kDefaultProgramType;
  img_header_size := plan_header_size p;
  img_metadata_size := plan_meta_size p;
  img_file_size := plan_declared_size p;
  img_segments := container_segments p;
  img_elf_headers := sub (plan_elf p) 0 (plan_elf_headers_size p);
  img_has_extended_info := true;
  img_authority := u64 (opt_authority options);
  img_extended_program_type := 1;
  img_app_version := u64 (opt_app_version options);
  img_firmware_version := u64 (opt_firmware_version options);
  img_digest := digest
|}.

Lemma collect_map {A B} (body : A -> outcome B) (f : A -> B) l :
  (forall a, In a l -> body a = Ok (f a)) -> collect body l = Ok (map f l).
Proof.
  induction l as [|a l IH]; cbn [collect map]; intros H; [reflexivity|].
  rewrite H by (left; reflexivity). cbn [bind]. rewrite IH by (intros; apply H; right; assumption).
  reflexivity.
Qed.

Lemma indices_double n :
  indices 0 (2 * n) = flat_map (fun i => [i * 2; i * 2 + 1]) (indices 0 n).
Proof.
  induction n as [|n IH]; [reflexivity|].
  replace (2 * S n)%nat with (S (S (2 * n))) by lia.
  rewrite (indices_snoc 0 n), (indices_snoc 0 (S (2 * n))), (indices_snoc 0 (2 * n)).
  rewrite flat_map_app, <- IH, <- app_assoc. cbn [flat_map app]. do 2 f_equal; [|f_equal]; lia.
Qed.

Lemma map_flat_map {A B C} (f : B -> C) (g : A -> list B) l :
  map f (flat_map g l) = flat_map (fun a => map f (g a)) l.
Proof. induction l as [|a l IH]; cbn; [reflexivity|]. rewrite map_app, IH. reflexivity. Qed.

Lemma for_each_flat_map {A B S} (body : S -> B -> outcome S) (g : A -> list B) l s :
  for_each body s (flat_map g l) = for_each (fun s a => for_each body s (g a)) s l.
Proof.
  revert s; induction l as [|a l IH]; intros s; cbn [flat_map for_each]; [reflexivity|].
  rewrite for_each_app. destruct (for_each body s (g a)); cbn [bind]; auto.
Qed.

Lemma ascending_in lo ws hi a s :
  ascending lo ws hi -> In (a, s) ws -> lo <= a /\ a + size s <= hi.
Proof.
  revert lo; induction ws as [|w ws IH]; simpl; intros lo; [tauto|].
  intros [A B] [->|Hin].
  - simpl in *. apply ascending_le in B. lia.
  - apply (IH _ B) in Hin. pose proof (size_nonneg (snd w)). lia.
Qed.

Lemma plan_elf_magic input options p : plan_ok input options p -> size input <= kFileLimit -> bytes_ok input ->
  field (plan_elf p) 0 4 = 0x464c457f.
Proof.
  intros Hp Hs Hb. rewrite <- (pl_elf_magic _ _ _ Hp).
  pose proof (pl_header _ _ _ Hp) as Hh. rewrite (pl_size _ _ _ Hp) in Hh.
  unfold kElfHeaderSize, kFileLimit in *.
  pose proof (pl_elf _ _ _ Hp) as E. unfold signed_elf in E.
  destruct (opt_normalize_header options); [|congruence].
  destruct (normalize_header_ok input Hb ltac:(unfold kElfHeaderSize; lia)) as (e & E' & (Hs' & _ & _ & _ & _ & K)).
  replace (plan_elf p) with e by congruence.
  unfold field. f_equal. apply sub_ext; try lia.
  intros i Hi. apply K; unfold kOsAbiOffset, kTypeOffset, kMachineOffset; lia.
Qed.

(** ** What extraction restores *)

Definition in_region (j : Z) (r : FileRegion) : bool :=
  (region_offset r <=? j) && (j <? region_offset r + region_size r).

(** Regions of one file copied to the same offsets of another buffer. *)
Definition restore (elf : Bytes) (regions : list FileRegion) (o : Bytes) : Bytes :=
  fold_left (fun o r => put o (region_offset r) (sub elf (region_offset r) (region_size r))) regions o.

Definition region_inside (n : Z) (r : FileRegion) : Prop :=
  0 <= region_offset r /\ 0 <= region_size r /\ region_offset r + region_size r <= n.

Lemma restore_spec elf regions o :
  Forall (region_inside (size elf)) regions -> Forall (region_inside (size o)) regions ->
  size (restore elf regions o) = size o /\
  forall j, byte_at (restore elf regions o) j =
            if existsb (in_region j) regions then byte_at elf j else byte_at o j.
Proof.
  unfold restore. revert o; induction regions as [|r regions IH]; intros o He Ho; [split; reflexivity|].
  inversion He as [|? ? (? & ? & ?) He']; inversion Ho as [|? ? (? & ? & ?) Ho']; subst.
  cbn [fold_left existsb]. set (o1 := put _ _ _).
  assert (Hs : size (sub elf (region_offset r) (region_size r)) = region_size r) by (apply size_sub; lia).
  assert (S1 : size o1 = size o) by (apply size_put; lia).
  destruct (IH o1 He') as [S B]; [rewrite S1; assumption|]. split; [congruence|].
  intros j. rewrite B. destruct (existsb (in_region j) regions); [rewrite orb_true_r; reflexivity|].
  subst o1. rewrite byte_at_put, Hs by lia. unfold in_region.
  destruct (_ && _) eqn:E; cbn [orb]; [|reflexivity]. to_prop.
  rewrite byte_at_sub by lia. f_equal. lia.
Qed.

Lemma for_each_pure {A S} (body : S -> A -> outcome S) (f : S -> A -> S) (P : S -> Prop) l s :
  (forall s a, P s -> In a l -> body s a = Ok (f s a) /\ P (f s a)) -> P s ->
  for_each body s l = Ok (fold_left f l s) /\ P (fold_left f l s).
Proof.
  revert s; induction l as [|a l IH]; intros s H Hs; cbn [for_each fold_left]; [split; auto|].
  destruct (H s a Hs (or_introl eq_refl)) as [E Q]. rewrite E. cbn [bind].
  apply IH; [intros; apply H; auto; right; assumption|assumption].
Qed.

Lemma fold_left_map_fst {A B S} (f : S -> B -> S) (g : A -> B) l s :
  fold_left f (map g l) s = fold_left (fun s a => f s (g a)) l s.
Proof. revert s; induction l; cbn; auto. Qed.

Lemma fold_max_ge {A} (f : A -> Z) l m a : In a l -> f a <= fold_left (fun m a => Z.max m (f a)) l m.
Proof.
  assert (G : forall l m, m <= fold_left (fun m a => Z.max m (f a)) l m)
    by (clear; induction l as [|a l IH]; intros m; cbn; [lia|specialize (IH (Z.max m (f a))); lia]).
  revert m; induction l as [|b l IH]; intros m; [intros []|]. cbn [In fold_left]. intros [->|Hin].
  - specialize (G l (Z.max m (f a))). lia.
  - auto.
Qed.

Lemma fold_max_start {A} (f : A -> Z) l m : m <= fold_left (fun m a => Z.max m (f a)) l m.
Proof. revert m; induction l as [|a l IH]; intros m; cbn; [lia|]. specialize (IH (Z.max m (f a))). lia. Qed.

Lemma fold_max_le {A} (f : A -> Z) l m b :
  m <= b -> (forall a, In a l -> f a <= b) -> fold_left (fun m a => Z.max m (f a)) l m <= b.
Proof.
  revert m; induction l as [|a l IH]; intros m Hm H; cbn [fold_left]; [assumption|].
  apply IH; [|intros; apply H; right; assumption]. specialize (H a (or_introl eq_refl)). lia.
Qed.

(** The end of a program header's stored content. *)
Definition header_end (elf : Bytes) (i : Z) : Z :=
  field elf (program_header_at i + 0x08) 8 + field elf (program_header_at i + 0x20) 8.

(** Every program header's content lies in the file. *)
Definition headers_inside (elf : Bytes) (count : Z) : Prop :=
  forall i, 0 <= i < count -> header_end elf i <= size elf.

Definition headers_insideb (elf : Bytes) (count : Z) : bool :=
  forallb (fun i => header_end elf i <=? size elf) (indices 0 (Z.to_nat count)).

Lemma headers_insideb_spec elf count : headers_insideb elf count = true -> headers_inside elf count.
Proof.
  unfold headers_insideb, headers_inside. rewrite forallb_forall. intros H i Hi.
  apply Z.leb_le, H, in_indices. lia.
Qed.

(** The size of the reconstructed ELF: the table and every header's content. *)
Definition image_size (p : SignPlan) : Z :=
  fold_left (fun m i => Z.max m (header_end (plan_elf p) i)) (indices 0 (Z.to_nat (plan_program_count p)))
    (plan_elf_headers_size p).

Definition selected_region (s : SelectedSegment) : FileRegion :=
  {| region_offset := sel_file_offset s; region_size := sel_file_size s |}.

Definition version_region (p : SignPlan) : list FileRegion :=
  if negb (region_size (plan_version p) =? 0) then [plan_version p] else [].

(** What a container carries: the selected segments, the version records and
    the header table. *)
Definition plan_regions (p : SignPlan) : list FileRegion :=
  map (fun i => selected_region (plan_select p i)) (plan_indices p) ++ version_region p ++
  [{| region_offset := 0; region_size := plan_elf_headers_size p |}].

Definition carried (p : SignPlan) (j : Z) : bool := existsb (in_region j) (plan_regions p).

Definition restored (p : SignPlan) : Bytes :=
  restore (plan_elf p) (plan_regions p) (zeros (image_size p)).

Section ReadBack.
Context (input : Bytes) (options : SignOptions) (p : SignPlan) (out : Bytes).
Hypothesis Hp : plan_ok input options p.
Hypothesis Hbytes : bytes_ok input.
Hypothesis Hinput : size input <= kFileLimit.
Hypothesis Hout : container p options out.

Lemma container_block a s :
  In (a, s) (container_writes p options) ->
  sub out a (size s) = s /\ 0 <= a /\ a + size s <= size out.
Proof.
  intros Hin. split; [apply (c_block _ _ _ Hout); assumption|]. rewrite (c_size _ _ _ Hout).
  exact (ascending_in _ _ _ _ _ (container_writes_ascending _ _ _ Hp Hinput) Hin).
Qed.

Lemma container_field a k v :
  In (a, le_bytes k v) (container_writes p options) ->
  field out a (Z.of_nat k) = v mod 256 ^ Z.of_nat k /\ 0 <= a /\ a + Z.of_nat k <= size out.
Proof.
  intros Hin. pose proof (container_block _ _ Hin) as B. rewrite size_le_bytes in B.
  unfold field. rewrite (proj1 B), le_value_bytes. tauto.
Qed.

Lemma container_small : size out < 2 ^ 61.
Proof. rewrite (c_size _ _ _ Hout). pose proof (container_size_bounds _ _ _ Hp Hinput). lia. Qed.

Lemma container_read_u16 a v : In (a, le_bytes 2 v) (container_writes p options) -> read_u16 out a = Ok (u16 v).
Proof.
  intros Hin. pose proof (container_field _ _ _ Hin) as (F & ? & ?). pose proof container_small.
  rewrite read_u16_ok by (try apply (c_bytes _ _ _ Hout); lia). f_equal. exact F.
Qed.

Lemma container_read_u32 a v : In (a, le_bytes 4 v) (container_writes p options) -> read_u32 out a = Ok (u32 v).
Proof.
  intros Hin. pose proof (container_field _ _ _ Hin) as (F & ? & ?). pose proof container_small.
  rewrite read_u32_ok by (try apply (c_bytes _ _ _ Hout); lia). f_equal. exact F.
Qed.

Lemma container_read_u64 a v : In (a, le_bytes 8 v) (container_writes p options) -> read_u64 out a = Ok (u64 v).
Proof.
  intros Hin. pose proof (container_field _ _ _ Hin) as (F & ? & ?). pose proof container_small.
  rewrite read_u64_ok by (try apply (c_bytes _ _ _ Hout); lia). f_equal. exact F.
Qed.

Lemma in_header w : In w (header_writes p options) -> In w (container_writes p options).
Proof. intros. unfold container_writes. rewrite !in_app_iff. tauto. Qed.
Lemma in_entries i w : 0 <= i < size (plan_selected p) -> In w (entry_writes p i) -> In w (container_writes p options).
Proof.
  intros Hi Hw. unfold container_writes. rewrite !in_app_iff. right; left.
  apply in_flat_map. exists i. split; [apply in_plan_indices; assumption|assumption].
Qed.
Lemma in_extended w : In w (extended_writes p options) -> In w (container_writes p options).
Proof. intros. unfold container_writes. rewrite !in_app_iff. tauto. Qed.
Lemma in_contents i w : 0 <= i < size (plan_selected p) -> In w (content_writes p i) -> In w (container_writes p options).
Proof.
  intros Hi Hw. unfold container_writes. rewrite !in_app_iff. do 4 right; left.
  apply in_flat_map. exists i. split; [apply in_plan_indices; assumption|assumption].
Qed.
Lemma in_version w : In w (version_writes p) -> In w (container_writes p options).
Proof. intros. unfold container_writes. rewrite !in_app_iff. tauto. Qed.

(** [pick]: a write of a literal log. *)
Ltac pick := cbn [In]; repeat (first [left; reflexivity | right]).

Lemma offsets_range i : 0 <= i < size (plan_selected p) ->
  0 <= plan_offset p (i * 2) < 2 ^ 60 /\ 0 <= plan_digest_size p i < 2 ^ 60 /\
  0 <= plan_offset p (i * 2 + 1) < 2 ^ 60 /\ 0 < sel_file_size (plan_select p i) < 2 ^ 60 /\
  plan_offset p (i * 2 + 1) + sel_file_size (plan_select p i) <= plan_version_start p.
Proof.
  intros Hi. pose proof (plan_block _ _ _ Hp i Hi). pose proof (block_at_le_end _ _ _ Hp (i + 1) ltac:(lia)).
  pose proof (plan_select_ok _ _ _ Hp i Hi) as S. unfold selected_ok in S.
  pose proof (plan_version_start_eq _ _ _ Hp). pose proof (plan_declared_bounds _ _ _ Hp).
  pose proof (plan_header_layout _ _ _ Hp). pose proof (plan_program_count_range _ _ _ Hp).
  pose proof (plan_count_positive _ _ _ Hp). lia.
Qed.

Lemma flags_range k : 0 <= k < 65536 -> forall low, 0 <= low < 2 ^ 20 ->
  u64 (Z.shiftl k 20) = k * 2 ^ 20 /\ 0 <= Z.lor (u64 (Z.shiftl k 20)) low < 2 ^ 64 /\
  Z.lor (u64 (Z.shiftl k 20)) low = low + k * 2 ^ 20.
Proof.
  intros Hk low Hl. assert (E : u64 (Z.shiftl k 20) = k * 2 ^ 20)
    by (rewrite Z.shiftl_mul_pow2 by lia; apply u64_small; lia).
  assert (L : Z.lor (u64 (Z.shiftl k 20)) low = low + k * 2 ^ 20)
    by (rewrite E, Z.lor_comm, <- (lor_shiftl_add low k 20), Z.shiftl_mul_pow2 by lia; reflexivity).
  rewrite L. repeat split; [exact E|lia|lia].
Qed.

Lemma selected_index i : 0 <= i < size (plan_selected p) ->
  0 <= sel_header_index (plan_select p i) < 65536.
Proof.
  intros Hi. pose proof (plan_select_ok _ _ _ Hp i Hi) as S. unfold selected_ok in S.
  pose proof (plan_program_count_range _ _ _ Hp). lia.
Qed.

Lemma digest_flags_range i : 0 <= i < 410 -> 0 <= digest_flags i < 2 ^ 64.
Proof. intros. apply (flags_range (i * 2 + 1) ltac:(lia) 0x10004). lia. Qed.

Lemma data_flags_range s : 0 <= sel_header_index s < 65536 -> 0 <= data_flags s < 2 ^ 64.
Proof. intros H. apply (flags_range (sel_header_index s) H 0x2804). lia. Qed.

Lemma parse_digest_entry i : 0 <= i < size (plan_selected p) ->
  parse_segment out (i * 2) = Ok (digest_segment p i).
Proof.
  intros Hi. pose proof (offsets_range i Hi). pose proof (plan_count_positive _ _ _ Hp).
  unfold parse_segment. fold (entry_at (i * 2)).
  rewrite (container_read_u64 _ (digest_flags i)) by (apply (in_entries i); [assumption|pick]).
  rewrite (container_read_u64 _ (plan_offset p (i * 2))) by (apply (in_entries i); [assumption|pick]).
  rewrite (container_read_u64 _ (plan_digest_size p i)) by (apply (in_entries i); [assumption|pick]).
  rewrite (container_read_u64 _ (plan_digest_size p i)) by (apply (in_entries i); [assumption|pick]).
  cbn [bind]. unfold digest_segment.
  rewrite (u64_small (digest_flags i)) by (apply digest_flags_range; lia). rewrite !u64_small by lia. reflexivity.
Qed.

Lemma parse_data_entry i : 0 <= i < size (plan_selected p) ->
  parse_segment out (i * 2 + 1) = Ok (data_segment p i).
Proof.
  intros Hi. pose proof (offsets_range i Hi). pose proof (selected_index i Hi).
  unfold parse_segment.
  replace (kContainerHeaderSize + (i * 2 + 1) * kSegmentEntrySize) with (entry_at (i * 2) + kSegmentEntrySize)
    by (unfold entry_at, kContainerHeaderSize, kSegmentEntrySize; lia).
  rewrite (container_read_u64 _ (data_flags (plan_select p i))) by (apply (in_entries i); [assumption|pick]).
  rewrite (container_read_u64 _ (plan_offset p (i * 2 + 1))) by (apply (in_entries i); [assumption|pick]).
  rewrite (container_read_u64 _ (sel_file_size (plan_select p i))) by (apply (in_entries i); [assumption|pick]).
  rewrite (container_read_u64 _ (sel_file_size (plan_select p i))) by (apply (in_entries i); [assumption|pick]).
  cbn [bind]. unfold data_segment.
  rewrite (u64_small (data_flags _)) by (apply data_flags_range; lia). rewrite !u64_small by lia. reflexivity.
Qed.

Lemma parse_entries :
  collect (parse_segment out) (indices 0 (Z.to_nat (plan_segment_count p))) = Ok (container_segments p).
Proof.
  replace (Z.to_nat (plan_segment_count p)) with (2 * List.length (plan_selected p))%nat
    by (unfold plan_segment_count, size; lia).
  rewrite indices_double. fold (plan_indices p).
  rewrite (collect_map _ (fun k => if Z.even k then digest_segment p (k / 2) else data_segment p (k / 2))).
  - rewrite map_flat_map. f_equal. unfold container_segments. apply flat_map_ext. intros i. cbn [map].
    rewrite (Z.mul_comm i 2), Z.even_mul, Z.even_add, Z.even_mul. cbn [Z.even orb xorb eqb].
    rewrite (Z.mul_comm 2 i), Z.div_mul, Z.div_add_l by lia. rewrite Z.add_0_r. reflexivity.
  - intros k Hk. apply in_flat_map in Hk as (i & Hi & Hk). apply in_plan_indices in Hi.
    destruct Hk as [<-|[<-|[]]].
    + rewrite parse_digest_entry by assumption. rewrite Z.even_mul, Z.div_mul, orb_true_r by lia. reflexivity.
    + rewrite parse_data_entry by assumption. rewrite Z.even_add, Z.even_mul, orb_true_r, Z.div_add_l by lia.
      rewrite Z.add_0_r. reflexivity.
Qed.

Lemma container_headers :
  sub out (plan_after_segments p) (plan_elf_headers_size p) = sub (plan_elf p) 0 (plan_elf_headers_size p) /\
  plan_extended_at p + 0x70 <= size out.
Proof.
  pose proof (plan_header_layout _ _ _ Hp). pose proof (pl_table _ _ _ Hp).
  pose proof (plan_program_count_range _ _ _ Hp). pose proof (plan_count_positive _ _ _ Hp).
  pose proof (container_block _ _ (in_extended (plan_after_segments p, _) (or_introl eq_refl))) as B.
  rewrite size_sub in B by lia. split; [tauto|].
  rewrite (c_size _ _ _ Hout). pose proof (container_size_bounds _ _ _ Hp Hinput).
  pose proof (plan_declared_bounds _ _ _ Hp). lia.
Qed.

(** A field of the ELF header, read from its copy in the container. *)
Lemma container_header_field a k :
  0 <= a -> 0 <= k -> a + k <= plan_elf_headers_size p ->
  field out (plan_after_segments p + a) k = field (plan_elf p) a k.
Proof.
  intros Ha Hk Hb. pose proof container_headers as [C S]. pose proof (plan_header_layout _ _ _ Hp).
  pose proof (pl_table _ _ _ Hp). pose proof (plan_count_positive _ _ _ Hp).
  unfold field. rewrite <- (sub_sub out _ (plan_elf_headers_size p)) by lia.
  rewrite C, sub_sub by lia. reflexivity.
Qed.

Lemma container_extended image :
  img_header_size image = plan_header_size p ->
  parse_extended out (plan_extended_at p) image =
  Ok {| img_program_type := img_program_type image; img_header_size := img_header_size image;
        img_metadata_size := img_metadata_size image; img_file_size := img_file_size image;
        img_segments := img_segments image; img_elf_headers := img_elf_headers image;
        img_has_extended_info := true; img_authority := u64 (opt_authority options);
        img_extended_program_type := 1; img_app_version := u64 (opt_app_version options);
        img_firmware_version := u64 (opt_firmware_version options);
        img_digest := sub out (plan_extended_at p + 0x20) 32 |}.
Proof.
  intros Hi. pose proof (plan_header_layout _ _ _ Hp). pose proof (plan_program_count_range _ _ _ Hp).
  pose proof (plan_count_positive _ _ _ Hp). pose proof container_headers as [_ S].
  unfold parse_extended, kExtendedInfoSize. rewrite Hi.
  replace ((plan_extended_at p + 0x40 <=? plan_header_size p) && (plan_extended_at p + 0x40 <=? size out))
    with true by lia.
  rewrite (container_read_u64 _ (opt_authority options)) by (apply in_extended; pick).
  rewrite (container_read_u64 _ 1) by (apply in_extended; pick).
  rewrite (container_read_u64 _ (opt_app_version options)) by (apply in_extended; pick).
  rewrite (container_read_u64 _ (opt_firmware_version options)) by (apply in_extended; pick).
  cbn [bind]. rewrite subspan_ok by lia. change (u64 1) with 1. reflexivity.
Qed.

(** The ELF header is recognised behind the segment table. *)
Lemma container_is_elf :
  (let! rest := subspan out (plan_after_segments p) (size out - plan_after_segments p) in is_elf rest) = Ok true.
Proof.
  pose proof (plan_header_layout _ _ _ Hp). pose proof (plan_program_count_range _ _ _ Hp).
  pose proof (plan_count_positive _ _ _ Hp). pose proof container_headers as [_ S].
  pose proof (c_bytes _ _ _ Hout) as B. pose proof container_small.
  rewrite subspan_ok by lia. cbn [bind]. unfold is_elf, kElfHeaderSize. rewrite size_sub by lia.
  replace (0x40 <=? size out - plan_after_segments p) with true by lia.
  rewrite read_u32_ok by (auto with bytes; rewrite ?size_sub by lia; lia). cbn [bind].
  replace (field (sub out (plan_after_segments p) (size out - plan_after_segments p)) 0 4) with 0x464c457f;
    [reflexivity|].
  unfold field. rewrite sub_sub by lia. symmetry. fold (field out (plan_after_segments p + 0) 4).
  rewrite container_header_field by lia. apply (plan_elf_magic _ _ _ Hp Hinput Hbytes).
Qed.

Lemma parse_container :
  parse out = Ok (container_image p options (sub out (plan_extended_at p + 0x20) 32)).
Proof.
  pose proof (plan_header_layout _ _ _ Hp) as (Lc & La & Lh & Le & Ls & Lu & _ & _ & Lm).
  pose proof (pl_table _ _ _ Hp). pose proof (pl_header _ _ _ Hp) as Hh.
  pose proof (plan_program_count_range _ _ _ Hp). pose proof (plan_count_positive _ _ _ Hp).
  pose proof container_headers as [_ S]. pose proof container_small.
  pose proof (plan_declared_bounds _ _ _ Hp). pose proof (c_bytes _ _ _ Hout) as B.
  unfold parse, is_self. replace (size out <? kContainerHeaderSize) with false
    by (unfold kContainerHeaderSize; lia).
  rewrite (container_read_u32 0 (opt_magic options)) by (apply in_header; pick). cbn [bind].
  assert (M : (u32 (opt_magic options) =? kMagic) || (u32 (opt_magic options) =? kAlternateMagic) = true)
    by (destruct (pl_magic _ _ _ Hp) as [-> | ->]; reflexivity).
  rewrite M. cbn [require bind].
  rewrite (container_read_u32 0x08 kDefaultProgramType) by (apply in_header; pick).
  rewrite (container_read_u16 0x0c (u16 (plan_header_size p))) by (apply in_header; pick).
  rewrite (container_read_u16 0x0e (u16 (plan_meta_size p))) by (apply in_header; pick).
  rewrite (container_read_u64 0x10 (plan_declared_size p)) by (apply in_header; pick).
  rewrite (container_read_u16 0x18 (u16 (plan_segment_count p))) by (apply in_header; pick).
  cbn [bind]. pose proof (metadata_size_ge (plan_segment_count p) (opt_magic options) ltac:(lia)) as Hm.
  rewrite <- (pl_meta_size _ _ _ Hp) in Hm.
  rewrite (u16_small (u16 (plan_header_size p))), (u16_small (plan_header_size p)) by (try apply u16_range; lia).
  rewrite (u16_small (u16 (plan_meta_size p))), (u16_small (plan_meta_size p)) by (try apply u16_range; lia).
  rewrite (u16_small (u16 (plan_segment_count p))), (u16_small (plan_segment_count p)) by (try apply u16_range; lia).
  rewrite (u64_small (plan_declared_size p)) by lia. change (u32 kDefaultProgramType) with kDefaultProgramType.
  fold (plan_after_segments p).
  rewrite require_true, require_true, parse_entries by lia. cbn [bind].
  unfold kElfHeaderSize, kProgramHeaderCountOffset, kElfProgramHeaderSize in *.
  replace (plan_after_segments p + 0x40 <=? size out) with true by lia.
  rewrite container_is_elf. cbn [require bind].
  rewrite read_u16_ok by (assumption || lia). cbn [bind].
  rewrite container_header_field by lia. change (field (plan_elf p) 0x38 2) with (field (plan_elf p) kProgramHeaderCountOffset 2).
  rewrite <- (pl_count _ _ _ Hp).
  rewrite <- Lh. rewrite require_true by lia. rewrite subspan_ok by lia. cbn [bind].
  rewrite (proj1 container_headers), <- (pl_extended_at _ _ _ Hp).
  apply container_extended. reflexivity.
Qed.

Section Extraction.
Variable zlib_inflate : Z -> Bytes -> Z -> option (Z * Bytes).
Hypothesis Hinside : headers_inside (plan_elf p) (plan_program_count p).

Let headers := sub (plan_elf p) 0 (plan_elf_headers_size p).

Lemma headers_ok : bytes_ok headers /\ size headers = plan_elf_headers_size p.
Proof.
  pose proof (plan_header_layout _ _ _ Hp). pose proof (pl_table _ _ _ Hp).
  pose proof (plan_program_count_range _ _ _ Hp). pose proof (pl_bytes _ _ _ Hp).
  unfold headers. split; [auto with bytes|apply size_sub; lia].
Qed.

Lemma headers_field a k :
  0 <= a -> 0 <= k -> a + k <= plan_elf_headers_size p -> field headers a k = field (plan_elf p) a k.
Proof.
  intros. pose proof (pl_table _ _ _ Hp). unfold field, headers. rewrite sub_sub by lia. reflexivity.
Qed.

Lemma header_at_range i : 0 <= i < plan_program_count p ->
  0 <= program_header_at i /\ program_header_at i + 0x38 <= plan_elf_headers_size p < 2 ^ 32.
Proof.
  pose proof (plan_header_layout _ _ _ Hp). pose proof (plan_program_count_range _ _ _ Hp).
  unfold program_header_at, kElfHeaderSize, kElfProgramHeaderSize. lia.
Qed.

Lemma headers_read_u64 i d : 0 <= i < plan_program_count p -> 0 <= d <= 0x30 ->
  read_u64 headers (program_header_at i + d) = Ok (field (plan_elf p) (program_header_at i + d) 8) /\
  0 <= field (plan_elf p) (program_header_at i + d) 8 < 2 ^ 64.
Proof.
  intros Hi Hd. pose proof (header_at_range i Hi). pose proof headers_ok as [B S].
  pose proof (pl_table _ _ _ Hp). pose proof (pl_bytes _ _ _ Hp).
  rewrite read_u64_ok by (assumption || lia). rewrite headers_field by lia. split; [reflexivity|].
  change (2 ^ 64) with (256 ^ 8). apply field_range; [assumption|lia..].
Qed.

Lemma extract_sizes :
  for_each (extract_size headers) (size headers) (indices 0 (Z.to_nat (plan_program_count p))) =
  Ok (image_size p).
Proof.
  pose proof (pl_size _ _ _ Hp). unfold kFileLimit in *.
  rewrite (proj2 headers_ok). unfold image_size.
  apply (for_each_pure _ (fun m i => Z.max m (header_end (plan_elf p) i)) (fun _ => True)); [|exact I].
  intros m i _ Hi. split; [|exact I]. apply in_indices in Hi.
  pose proof (plan_program_count_range _ _ _ Hp). assert (Hi' : 0 <= i < plan_program_count p) by lia.
  pose proof (Hinside i Hi'). unfold header_end in *.
  unfold extract_size. rewrite (proj1 (headers_read_u64 i 0x08 Hi' ltac:(lia))).
  rewrite (proj1 (headers_read_u64 i 0x20 Hi' ltac:(lia))). cbn [bind].
  pose proof (headers_read_u64 i 0x08 Hi' ltac:(lia)). pose proof (headers_read_u64 i 0x20 Hi' ltac:(lia)).
  rewrite require_true by (unfold kSizeMax; lia). reflexivity.
Qed.

Lemma image_size_bounds :
  plan_elf_headers_size p <= image_size p <= size (plan_elf p) /\
  forall i, 0 <= i < plan_program_count p -> header_end (plan_elf p) i <= image_size p.
Proof.
  pose proof (plan_program_count_range _ _ _ Hp). unfold image_size. split.
  - split; [apply fold_max_start|apply fold_max_le].
    + apply (pl_table _ _ _ Hp).
    + intros i Hi. apply in_indices in Hi. apply Hinside. lia.
  - intros i Hi. apply fold_max_ge, in_indices. lia.
Qed.

Lemma selected_region_inside i : 0 <= i < size (plan_selected p) ->
  region_inside (size (plan_elf p)) (selected_region (plan_select p i)) /\
  region_inside (image_size p) (selected_region (plan_select p i)).
Proof.
  intros Hi. pose proof (plan_select_ok _ _ _ Hp i Hi) as S. unfold selected_ok in S.
  pose proof (proj2 image_size_bounds (sel_header_index (plan_select p i)) ltac:(tauto)) as E.
  unfold header_end in E. unfold region_inside, selected_region. cbn [region_offset region_size]. lia.
Qed.

Lemma low_flags k low m : 0 <= low < 2 ^ 20 -> 0 <= m < 2 ^ 20 ->
  Z.land (low + k * 2 ^ 20) m = Z.land low m.
Proof.
  intros Hl Hm. rewrite <- (Z.mod_small m (2 ^ 20)) by lia.
  rewrite <- !Z.land_ones, (Z.land_comm m), !Z.land_assoc, Z.land_ones by lia.
  rewrite Z.mod_add, Z.land_ones by lia. reflexivity.
Qed.

Lemma data_segment_flags i : 0 <= i < size (plan_selected p) ->
  seg_blocked (data_segment p i) = true /\ seg_encrypted (data_segment p i) = false /\
  seg_compressed (data_segment p i) = false /\
  seg_id (data_segment p i) = sel_header_index (plan_select p i).
Proof.
  intros Hi. pose proof (selected_index i Hi) as X.
  destruct (flags_range _ X 0x2804 ltac:(lia)) as (_ & _ & F).
  unfold seg_blocked, seg_encrypted, seg_compressed, seg_id, data_segment, data_flags. cbn [seg_flags].
  rewrite F, !low_flags by lia. repeat split.
  rewrite Z.shiftr_div_pow2, Z.div_add by lia. change (0x2804 / 2 ^ 20) with 0.
  change 0xffff with (Z.ones 16). rewrite Z.land_ones by lia. apply Z.mod_small. lia.
Qed.

Lemma digest_segment_skipped i : 0 <= i < size (plan_selected p) -> seg_blocked (digest_segment p i) = false.
Proof.
  intros Hi. pose proof (plan_count_positive _ _ _ Hp).
  destruct (flags_range (i * 2 + 1) ltac:(lia) 0x10004 ltac:(lia)) as (_ & _ & F).
  unfold seg_blocked, digest_segment, digest_flags. cbn [seg_flags]. rewrite F, low_flags by lia. reflexivity.
Qed.

Lemma out_holds_version : plan_version_start p + region_size (plan_version p) <= size out /\ 0 <= plan_version_start p.
Proof.
  rewrite (c_size _ _ _ Hout). pose proof (container_size_bounds _ _ _ Hp Hinput).
  pose proof (plan_count_positive _ _ _ Hp). pose proof (offsets_range 0 ltac:(lia)). lia.
Qed.

Lemma extract_data_segment i o : 0 <= i < size (plan_selected p) -> size o = image_size p ->
  extract_segment zlib_inflate out headers (plan_program_count p) o (data_segment p i) =
  Ok (put o (sel_file_offset (plan_select p i))
        (sub (plan_elf p) (sel_file_offset (plan_select p i)) (sel_file_size (plan_select p i)))).
Proof.
  intros Hi So. destruct (data_segment_flags i Hi) as (F1 & F2 & F3 & F4).
  pose proof (plan_select_ok _ _ _ Hp i Hi) as S. unfold selected_ok in S.
  destruct S as (X & O1 & O2 & O3 & O4 & O5).
  destruct (selected_region_inside i Hi) as [_ (R1 & R2 & R3)]. cbn [selected_region region_offset region_size] in *.
  pose proof (offsets_range i Hi). pose proof out_holds_version. pose proof (plan_version_ok _ _ _ Hp).
  unfold extract_segment. rewrite F1, F2, F3, F4. cbn [negb require bind].
  replace (plan_program_count p <=? sel_header_index (plan_select p i)) with false by lia.
  rewrite (proj1 (headers_read_u64 _ 0x08 X ltac:(lia))), (proj1 (headers_read_u64 _ 0x20 X ltac:(lia))).
  rewrite <- O4, <- O5. cbn [bind data_segment seg_file_offset seg_file_size].
  rewrite require_true by (unfold range_in_bounds; lia). rewrite subspan_ok by lia. cbn [bind].
  pose proof (container_block _ _ (in_contents i _ Hi (or_introl eq_refl))) as (C & _).
  rewrite size_sub in C by lia. rewrite C.
  set (content := sub (plan_elf p) (sel_file_offset _) _) in *.
  assert (Sc : size content = sel_file_size (plan_select p i)) by (apply size_sub; lia).
  rewrite Sc, Z.min_id. rewrite require_true by (unfold range_in_bounds; lia).
  rewrite subspan_ok by lia. cbn [bind]. rewrite <- Sc, sub_all.
  apply copy_bytes_ok. lia.
Qed.

Lemma extract_segments :
  for_each (extract_segment zlib_inflate out headers (plan_program_count p)) (zeros (image_size p))
    (container_segments p) =
  Ok (restore (plan_elf p) (map (fun i => selected_region (plan_select p i)) (plan_indices p))
        (zeros (image_size p))).
Proof.
  pose proof image_size_bounds as [B _]. pose proof (plan_header_layout _ _ _ Hp).
  pose proof (plan_program_count_range _ _ _ Hp).
  unfold container_segments. rewrite for_each_flat_map. unfold restore.
  rewrite fold_left_map_fst.
  apply (for_each_pure _ _ (fun o => size o = image_size p)); [|apply size_zeros; lia].
  intros o i So Hi. apply in_plan_indices in Hi.
  cbn [for_each]. unfold extract_segment at 1. rewrite (digest_segment_skipped i Hi). cbn [negb bind].
  rewrite (extract_data_segment i o Hi So). cbn [bind]. split; [reflexivity|].
  destruct (selected_region_inside i Hi) as [(? & ? & ?) (? & ? & ?)].
  cbn [selected_region region_offset region_size] in *. rewrite size_put; rewrite ?size_sub; lia.
Qed.

Lemma version_same :
  find_version_records headers (plan_program_count p) (image_size p) = Ok (plan_version p).
Proof.
  rewrite <- (pl_version _ _ _ Hp). unfold find_version_records.
  pose proof (plan_program_count_range _ _ _ Hp). pose proof headers_ok as [Hb Hs].
  pose proof (pl_bytes _ _ _ Hp) as Eb. pose proof (pl_table _ _ _ Hp) as Ht.
  assert (Hl : forall i, In i (indices 0 (Z.to_nat (plan_program_count p))) -> 0 <= i < plan_program_count p)
    by (intros i Hi; apply in_indices in Hi; lia).
  induction (indices 0 (Z.to_nat (plan_program_count p))) as [|i l IH]; [reflexivity|].
  cbn [find_version_records_in]. assert (Hi : 0 <= i < plan_program_count p) by (apply Hl; left; reflexivity).
  pose proof (header_at_range i Hi) as R.
  rewrite !read_u32_ok by (assumption || lia). rewrite headers_field by lia. cbn [bind].
  destruct (negb _); [apply IH; intros; apply Hl; right; assumption|].
  pose proof (headers_read_u64 i 0x08 Hi ltac:(lia)) as (Q1 & Q1').
  pose proof (headers_read_u64 i 0x20 Hi ltac:(lia)) as (Q2 & Q2').
  rewrite Q1, Q2, !(read_u64_ok (plan_elf p)) by (assumption || lia). cbn [bind].
  pose proof (Hinside i Hi) as I1. pose proof (proj2 image_size_bounds i Hi) as I2. unfold header_end in *.
  unfold range_in_bounds, kSizeMax.
  repeat match goal with |- context [?a <=? ?b] => replace (a <=? b) with true by lia end. reflexivity.
Qed.

Lemma tail_step t s : extract_tail_step out t s <= Z.max t (seg_file_offset s + seg_file_size s).
Proof. unfold extract_tail_step. destruct (range_in_bounds _ _ _); lia. Qed.

(** The last segment ends where the version records start. *)
Lemma container_tail : extract_tail out (container_segments p) = plan_version_start p.
Proof.
  pose proof (plan_count_positive _ _ _ Hp) as Hn. pose proof out_holds_version as [Hv Hv0].
  pose proof (plan_version_ok _ _ _ Hp). pose proof (plan_version_start_eq _ _ _ Hp) as [V _].
  assert (Hle : forall l, (forall i, In i l -> 0 <= i < size (plan_selected p)) ->
    forall t, t <= plan_version_start p ->
    fold_left (extract_tail_step out) (flat_map (fun i => [digest_segment p i; data_segment p i]) l) t
      <= plan_version_start p).
  { induction l as [|i l IH]; intros Hl t Ht; [exact Ht|]. cbn [flat_map app fold_left].
    apply IH; [intros; apply Hl; right; assumption|].
    pose proof (offsets_range i (Hl i (or_introl eq_refl))).
    pose proof (plan_block _ _ _ Hp i (Hl i (or_introl eq_refl))).
    pose proof (tail_step t (digest_segment p i)) as T1.
    pose proof (tail_step (extract_tail_step out t (digest_segment p i)) (data_segment p i)) as T2.
    cbn [digest_segment data_segment seg_file_offset seg_file_size] in T1, T2. lia. }
  unfold extract_tail, container_segments, plan_indices.
  unfold size in *. destruct (List.length (plan_selected p)) as [|m] eqn:Em; [lia|].
  rewrite indices_snoc, flat_map_app, fold_left_app. cbn [flat_map app fold_left].
  assert (Hi : 0 <= 0 + Z.of_nat m < Z.of_nat (S m)) by lia.
  set (t := fold_left _ _ 0).
  assert (Ht : t <= plan_version_start p).
  { apply Hle; [|lia]. intros i Hin. apply in_indices in Hin. lia. }
  replace (Z.of_nat (S m) - 1) with (0 + Z.of_nat m) in V by lia.
  assert (Hi' : 0 <= 0 + Z.of_nat m < size (plan_selected p)) by (unfold size; lia).
  pose proof (offsets_range _ Hi'). pose proof (plan_block _ _ _ Hp _ Hi').
  pose proof (tail_step t (digest_segment p (0 + Z.of_nat m))) as T1.
  cbn [digest_segment seg_file_offset seg_file_size] in T1.
  unfold extract_tail_step at 1. cbn [data_segment seg_file_offset seg_file_size].
  replace (range_in_bounds _ _ _) with true by (unfold range_in_bounds, size in *; lia). lia.
Qed.

Lemma regions_inside :
  Forall (region_inside (size (plan_elf p))) (plan_regions p) /\
  Forall (region_inside (image_size p)) (plan_regions p).
Proof.
  pose proof image_size_bounds as [B _]. pose proof (plan_header_layout _ _ _ Hp).
  pose proof (plan_program_count_range _ _ _ Hp). pose proof (pl_table _ _ _ Hp).
  assert (V : forall r, In r (version_region p) ->
    region_inside (size (plan_elf p)) r /\ region_inside (image_size p) r).
  { intros r Hr. unfold version_region in Hr. destruct (negb _) eqn:E in Hr; [|destruct Hr].
    destruct Hr as [<-|[]]. to_prop. pose proof (plan_version_ok _ _ _ Hp).
    pose proof version_same as V. pose proof headers_ok as [Hb _].
    apply find_version_records_region in V; [|assumption|intros i Hi; apply in_u16_indices in Hi; tauto].
    unfold region_inside. lia. }
  unfold plan_regions. rewrite !Forall_app, !Forall_forall. split; (split; [|split]).
  all: intros r Hr; try (apply V; assumption).
  1,3: apply in_map_iff in Hr as (i & <- & Hi); apply in_plan_indices in Hi; apply selected_region_inside; assumption.
  all: destruct Hr as [<-|[]]; unfold region_inside; cbn [region_offset region_size]; lia.
Qed.

Lemma restored_spec :
  size (restored p) = image_size p /\
  forall j, byte_at (restored p) j = if carried p j then byte_at (plan_elf p) j else 0.
Proof.
  pose proof regions_inside as [R1 R2]. pose proof image_size_bounds as [B _].
  pose proof (plan_header_layout _ _ _ Hp). pose proof (plan_program_count_range _ _ _ Hp).
  assert (S : size (zeros (image_size p)) = image_size p) by (apply size_zeros; lia).
  destruct (restore_spec (plan_elf p) (plan_regions p) (zeros (image_size p)) R1) as [Q1 Q2];
    [rewrite S; exact R2|].
  split; [unfold restored; congruence|]. intros j. unfold restored, carried. rewrite Q2, byte_at_zeros. reflexivity.
Qed.

Lemma restore_app elf r1 r2 o : restore elf (r1 ++ r2) o = restore elf r2 (restore elf r1 o).
Proof. apply fold_left_app. Qed.

Lemma size_restore_prefix r1 r2 : plan_regions p = r1 ++ r2 ->
  size (restore (plan_elf p) r1 (zeros (image_size p))) = image_size p.
Proof.
  intros E. pose proof regions_inside as [R1 R2]. rewrite E, Forall_app in R1, R2.
  pose proof image_size_bounds as [B _]. pose proof (plan_header_layout _ _ _ Hp).
  pose proof (plan_program_count_range _ _ _ Hp).
  assert (S : size (zeros (image_size p)) = image_size p) by (apply size_zeros; lia).
  rewrite <- S at 2. apply restore_spec; [tauto|rewrite S; tauto].
Qed.

Lemma extract_version_container o :
  size o = image_size p ->
  extract_version out (container_segments p) (plan_version p) o =
  Ok (restore (plan_elf p) (version_region p) o).
Proof.
  intros So. unfold extract_version, version_region, restore.
  destruct (negb _) eqn:V; [|reflexivity]. cbv zeta. rewrite container_tail, So.
  pose proof out_holds_version. pose proof (plan_version_ok _ _ _ Hp).
  pose proof regions_inside as [_ R]. unfold plan_regions, version_region in R. rewrite V, !Forall_app in R.
  destruct R as (_ & R & _). inversion R as [|? ? (? & ? & ?) _]; subst.
  assert (Hin : In (plan_version_start p, sub (plan_elf p) (region_offset (plan_version p)) (region_size (plan_version p)))
            (version_writes p)) by (unfold version_writes; rewrite V; left; reflexivity).
  to_prop.
  replace (range_in_bounds _ _ _ && range_in_bounds _ _ _) with true by (unfold range_in_bounds; lia).
  rewrite subspan_ok by lia. cbn [bind].
  apply in_version, container_block in Hin as (Q & _). rewrite size_sub in Q by lia. rewrite Q.
  apply copy_bytes_ok. rewrite size_sub by lia. lia.
Qed.

(** Extraction returns what the container carries. *)
Lemma extract_container : extract zlib_inflate out = Ok (restored p).
Proof.
  pose proof headers_ok as [Hb Hs]. pose proof (plan_header_layout _ _ _ Hp) as L.
  pose proof (plan_program_count_range _ _ _ Hp) as C. pose proof image_size_bounds as [B _].
  pose proof (pl_size _ _ _ Hp). unfold kFileLimit in *.
  unfold extract. rewrite parse_container. cbn [bind container_image img_elf_headers img_segments].
  fold headers. unfold kProgramHeaderCountOffset.
  rewrite read_u16_ok by (assumption || lia). rewrite headers_field by lia.
  change (field (plan_elf p) 0x38 2) with (field (plan_elf p) kProgramHeaderCountOffset 2).
  rewrite <- (pl_count _ _ _ Hp). cbn [bind].
  fold (plan_elf_headers_size p). rewrite require_true by lia.
  rewrite extract_sizes. cbn [bind]. rewrite require_true by (unfold kSizeMax; lia).
  rewrite extract_segments. cbn [bind]. set (r1 := map _ _).
  assert (S1 : size (restore (plan_elf p) r1 (zeros (image_size p))) = image_size p)
    by (eapply size_restore_prefix; reflexivity).
  rewrite S1, version_same. cbn [bind].
  rewrite extract_version_container by assumption. cbn [bind]. rewrite subspan_ok by lia. cbn [bind].
  replace (sub headers 0 (plan_elf_headers_size p)) with headers by (rewrite <- Hs; symmetry; apply sub_all).
  unfold restored, plan_regions. fold r1. rewrite (app_assoc r1), restore_app, restore_app. apply copy_bytes_ok.
  rewrite <- restore_app.
  erewrite size_restore_prefix; [|unfold plan_regions; rewrite app_assoc; reflexivity]. lia.
Qed.
End Extraction.
End ReadBack.

(** ** Sealing *)

Section Seal.
Context (input : Bytes) (options : SignOptions) (p : SignPlan).
Hypothesis Hp : plan_ok input options p.
Hypothesis Hbytes : bytes_ok input.
Hypothesis Hinput : size input <= kFileLimit.
Hypothesis Hauth : bytes_ok (opt_auth_info options).

Ltac each := repeat (apply Forall_cons; [cbn [snd]; auto with bytes|]); try apply Forall_nil.

Lemma container_writes_bytes : Forall (fun w => bytes_ok (snd w)) (container_writes p options).
Proof.
  pose proof (pl_bytes _ _ _ Hp) as He. unfold container_writes. rewrite !Forall_app, !Forall_flat_map.
  repeat split.
  - unfold header_writes. each.
  - apply Forall_forall. intros i _. unfold entry_writes, segment_writes. cbn [app]. each.
  - unfold extended_writes. each.
  - unfold footer_writes. destruct (negb _); each.
  - apply Forall_forall. intros i _. unfold content_writes. each.
  - unfold version_writes. destruct (negb _); each.
Qed.

Definition unsealed : Bytes := apply_writes (zeros (container_size p)) (container_writes p options).

Lemma size_zeros_container : size (zeros (container_size p)) = container_size p /\ 0 <= container_size p.
Proof.
  pose proof (container_size_bounds _ _ _ Hp Hinput). pose proof (plan_declared_bounds _ _ _ Hp).
  pose proof (plan_header_layout _ _ _ Hp). pose proof (plan_count_positive _ _ _ Hp).
  pose proof (plan_program_count_range _ _ _ Hp). rewrite size_zeros by lia. lia.
Qed.

Lemma unsealed_container : container p options unsealed.
Proof.
  pose proof size_zeros_container as [S _]. pose proof (container_writes_ascending _ _ _ Hp Hinput) as A.
  split.
  - apply bytes_ok_apply_writes; [auto with bytes|apply container_writes_bytes].
  - unfold unsealed. erewrite size_apply_writes; [exact S|reflexivity|exact A|lia].
  - intros a s Hin. apply (apply_writes_read 0 _ (container_size p)); [lia|exact A|lia|assumption].
Qed.

(** Every write stays clear of the digest field. *)
Lemma writes_avoid_digest a s :
  In (a, s) (container_writes p options) ->
  a + size s <= plan_extended_at p + 0x20 \/ plan_extended_at p + 0x40 <= a.
Proof.
  intros Hin. unfold container_writes in Hin. rewrite !in_app_iff in Hin.
  pose proof (plan_header_layout _ _ _ Hp). pose proof (plan_program_count_range _ _ _ Hp).
  pose proof (plan_count_positive _ _ _ Hp). pose proof (pl_table _ _ _ Hp).
  pose proof (plan_version_start_eq _ _ _ Hp).
  destruct Hin as [I|[I|[I|[I|[I|I]]]]].
  - apply (ascending_in _ _ _ _ _ (header_writes_ascending options p)) in I. lia.
  - apply (ascending_in _ _ _ _ _ (entries_ascending p)) in I. lia.
  - cbn [extended_writes In] in I. unfold kExtendedInfoSize in I.
    repeat (destruct I as [I|I];
      [pose proof (f_equal fst I) as I1; pose proof (f_equal snd I) as I2; cbn [fst snd] in I1, I2;
       rewrite <- I1, <- I2, ?size_sub, ?size_le_bytes by lia; lia|]).
    destruct I.
  - apply (ascending_in _ _ _ _ _ (footer_writes_ascending _ _ _ Hp)) in I. lia.
  - apply (ascending_in _ _ _ _ _ (contents_ascending _ _ _ Hp)) in I. lia.
  - apply (ascending_in _ _ _ _ _ (version_writes_ascending _ _ _ Hp Hinput)) in I.
    pose proof (offsets_range _ _ _ Hp 0 ltac:(lia)). pose proof (plan_block _ _ _ Hp 0 ltac:(lia)). lia.
Qed.

Definition sealed (digest : Bytes) : Bytes := put unsealed (plan_extended_at p + 0x20) digest.

Lemma digest_fits : 0 <= plan_extended_at p /\ plan_extended_at p + 0x70 <= size unsealed.
Proof.
  pose proof (container_headers _ _ _ _ Hp Hinput unsealed_container) as [_ S].
  pose proof (plan_header_layout _ _ _ Hp). pose proof (plan_program_count_range _ _ _ Hp).
  pose proof (plan_count_positive _ _ _ Hp). lia.
Qed.

Lemma sealed_container digest :
  bytes_ok digest -> size digest = 32 ->
  container p options (sealed digest) /\ sub (sealed digest) (plan_extended_at p + 0x20) 32 = digest.
Proof.
  intros Hd Hs. pose proof digest_fits. pose proof unsealed_container as [B S R].
  assert (Hz : size (sealed digest) = size unsealed) by (apply size_put; lia).
  split; [split|].
  - unfold sealed. auto with bytes.
  - congruence.
  - intros a s Hin. pose proof (writes_avoid_digest a s Hin).
    pose proof (container_block _ _ _ _ Hp Hinput unsealed_container a s Hin) as (_ & ? & ?).
    pose proof (size_nonneg s).
    rewrite <- (R a s Hin) at 2. apply sub_put_other; lia.
  - transitivity (sub (sealed digest) (plan_extended_at p + 0x20) (size digest)); [congruence|].
    apply sub_put_same; lia.
Qed.

Lemma sign_eq zlib_inflate :
  sign_plan input options = Ok p -> headers_inside (plan_elf p) (plan_program_count p) ->
  exists digest, sha256 (restored p) = Ok digest /\ size digest = 32 /\ bytes_ok digest /\
    sign zlib_inflate input options = Ok (sealed digest).
Proof.
  intros E Hi. unfold sign. rewrite E. cbn [bind]. rewrite (sign_unsealed_writes _ _ _ Hp Hinput). cbn [bind].
  fold unsealed. rewrite (extract_container _ _ _ _ Hp Hbytes Hinput unsealed_container zlib_inflate Hi). cbn [bind].
  destruct (sha256_total (restored p)) as (d & Ed & Sd & Bd). exists d. rewrite Ed. cbn [bind].
  repeat split; auto. pose proof digest_fits. apply copy_bytes_ok. lia.
Qed.
End Seal.

(** ** Removing the section table *)

Section Strip.
Context (elf : Bytes).
Hypothesis Hb : bytes_ok elf.
Hypothesis Hs : size elf <= kFileLimit.

(** Where program header [i] starts, and where its content ends. *)
Definition strip_header_at (i : Z) : Z :=
  field elf kProgramHeaderOffset 8 + i * field elf kProgramHeaderEntrySizeOffset 2.
Definition strip_content_end (i : Z) : Z :=
  field elf (strip_header_at i + 0x08) 8 + field elf (strip_header_at i + 0x20) 8.

Lemma strip_headers_defined l s phoff ent :
  (forall i, In i l -> 0 <= i) -> defined (strip_headers elf phoff ent s l).
Proof.
  unfold kFileLimit in Hs.
  revert s; induction l as [|i l IH]; intros s Hl; cbn [strip_headers]; [apply defined_ok|].
  pose proof (u64_range (phoff + u64 (i * ent))) as R. cbv zeta.
  set (at_ := u64 (phoff + u64 (i * ent))) in *.
  unfold range_in_bounds, kElfProgramHeaderSize. repeat defined_step.
  apply IH. intros; apply Hl; right; assumption.
Qed.

Lemma strip_headers_extent l s r phoff ent :
  0 <= phoff -> 0 <= ent -> (forall i, In i l -> 0 <= i /\ phoff + (i + 1) * ent <= size elf) ->
  kElfProgramHeaderSize <= ent ->
  strip_headers elf phoff ent s l = Ok r ->
  strip_extent s <= strip_extent r /\
  forall i, In i l ->
    field elf (phoff + i * ent + 0x08) 8 + field elf (phoff + i * ent + 0x20) 8 <= kSizeMax ->
    field elf (phoff + i * ent + 0x08) 8 + field elf (phoff + i * ent + 0x20) 8 <= strip_extent r.
Proof.
  unfold kFileLimit, kElfProgramHeaderSize in *. intros Hp He. revert s; induction l as [|i l IH];
    intros s Hl Hent E; cbn [strip_headers] in E; [injection E as <-; split; [lia|intros ? []]|].
  destruct (Hl i (or_introl eq_refl)) as [Hi Ha]. cbv zeta in E.
  rewrite (u64_small (i * ent)), (u64_small (phoff + _)) in E by nia.
  replace (range_in_bounds _ _ _) with true in E
    by (unfold range_in_bounds, kElfProgramHeaderSize; nia).
  cbn [negb] in E. inv_ok E.
  apply read_u64_inv in E1 as (? & -> & ?); [|assumption|nia|nia].
  apply read_u64_inv in E2 as (? & -> & ?); [|assumption|nia|nia].
  apply IH in E as [X1 X2]; [|intros; apply Hl; right; assumption|assumption].
  cbn [strip_extent] in X1.
  destruct (_ <=? _) eqn:G in X1; to_prop; split; [lia| |lia|].
  all: intros k [<-|Hk] Hle; [unfold kSizeMax in *; lia|auto].
Qed.

Lemma strip_headers_grows l s r phoff ent :
  strip_headers elf phoff ent s l = Ok r -> strip_extent s <= strip_extent r.
Proof.
  revert s; induction l as [|i l IH]; intros s E; cbn [strip_headers] in E; [injection E as <-; lia|].
  cbv zeta in E. destruct (negb _); [injection E as <-; lia|]. inv_ok E. apply IH in E.
  cbn [strip_extent] in E. destruct (_ <=? _) in E; lia.
Qed.

(** The fields of the section table in the ELF header. *)
Definition section_field (j : Z) : bool :=
  ((0x28 <=? j) && (j <? 0x30)) || ((0x3a <=? j) && (j <? 0x40)).

Definition strip_writes : list write :=
  [(0x28, le_bytes 8 0); (0x3a, le_bytes 2 0); (0x3c, le_bytes 2 0); (0x3e, le_bytes 2 0)].

Lemma strip_writes_ok l : 0x40 <= size l < 2 ^ 64 ->
  clear_section_fields l = Ok (apply_writes l strip_writes).
Proof. intros. unfold clear_section_fields. repeat write_step. Qed.

(** What a stripped ELF is made of. *)
Lemma strip_sections_inv out :
  strip_sections elf = Ok out ->
  exists s, strip_headers elf (field elf kProgramHeaderOffset 8) (field elf kProgramHeaderEntrySizeOffset 2)
      {| strip_extent := Z.max kElfHeaderSize (u64 (field elf kProgramHeaderOffset 8 +
           field elf kProgramHeaderCountOffset 2 * field elf kProgramHeaderEntrySizeOffset 2));
         strip_has_dynamic := false |}
      (indices 0 (Z.to_nat (field elf kProgramHeaderCountOffset 2))) = Ok s /\
    0x40 <= Z.min (strip_extent s) (size elf) /\
    kElfProgramHeaderSize <= field elf kProgramHeaderEntrySizeOffset 2 /\
    out = apply_writes (sub elf 0 (Z.min (strip_extent s) (size elf))) strip_writes.
Proof.
  intros E. unfold strip_sections in E. inv_ok E. subst v.
  apply is_elf_inv in E0 as [Hh _]; [|assumption]. unfold kFileLimit, kElfHeaderSize in *.
  apply read_u64_inv in E1 as (? & -> & ?); [|assumption|unfold kProgramHeaderOffset; lia..].
  apply read_u16_inv in E2 as (? & -> & ?); [|assumption|unfold kProgramHeaderEntrySizeOffset; lia..].
  apply read_u16_inv in E3 as (? & -> & ?); [|assumption|unfold kProgramHeaderCountOffset; lia..].
  exists v3. split; [exact E4|]. apply strip_headers_grows in E4. cbn [strip_extent] in E4. to_prop.
  assert (Hn : 0x40 <= Z.min (strip_extent v3) (size elf)) by lia.
  split; [exact Hn|]. split; [assumption|].
  rewrite strip_writes_ok in E by (rewrite size_sub by lia; lia). injection E as <-. reflexivity.
Qed.

Lemma strip_sections_defined_lemma : defined (strip_sections elf).
Proof.
  unfold strip_sections. apply defined_bind; [apply is_elf_defined; assumption|]. intros e He.
  apply defined_require_bind. intros ->. apply is_elf_inv in He as [Hh _]; [|assumption].
  unfold kElfHeaderSize, kFileLimit, kProgramHeaderOffset, kProgramHeaderEntrySizeOffset,
    kProgramHeaderCountOffset in *.
  do 4 defined_step. apply defined_bind.
  - apply strip_headers_defined. intros i Hi. apply in_indices in Hi. lia.
  - intros s E. apply strip_headers_grows in E. cbn [strip_extent] in E. defined_step. cbv zeta.
    rewrite strip_writes_ok by (rewrite size_sub by lia; lia). apply defined_ok.
Qed.
End Strip.

(** ** Signing never leaves a buffer *)

Lemma normalize_defined input options :
  bytes_ok input -> kElfHeaderSize <= size input < 2 ^ 64 -> defined (signed_elf input options).
Proof.
  intros H Hs. unfold signed_elf. destruct (opt_normalize_header options); [|apply defined_ok].
  destruct (normalize_header_ok input H Hs) as (e & -> & _). apply defined_ok.
Qed.

Lemma select_segments_defined elf count include :
  bytes_ok elf -> 0 <= count < 65536 -> defined (select_segments elf kElfHeaderSize count include).
Proof.
  intros H Hc. apply (defined_for_each _ (fun _ => True)); auto. intros s i _ Hi.
  apply in_indices in Hi. unfold select_segment, kElfHeaderSize, kElfProgramHeaderSize. repeat defined_step.
Qed.

Lemma sign_plan_defined input options :
  bytes_ok input -> size input <= kFileLimit -> defined (sign_plan input options).
Proof.
  unfold kFileLimit. intros H Hs. unfold sign_plan.
  apply defined_bind; [apply is_elf_defined; assumption|]. intros e He.
  apply defined_require_bind. intros ->. apply is_elf_inv in He as [Hh _]; [|assumption].
  assert (Hh' := Hh). unfold kElfHeaderSize in Hh'.
  rewrite index_ok by lia. cbn [bind]. do 3 (apply defined_require_bind; intros _).
  apply defined_bind; [apply (normalize_defined input options H); lia|]. intros elf E.
  apply signed_elf_ok in E as [B S]; [|assumption|lia].
  unfold kProgramHeaderOffset, kProgramHeaderEntrySizeOffset, kProgramHeaderCountOffset.
  repeat defined_step.
  - subst. match goal with G : field elf 0x20 8 = kElfHeaderSize |- _ => rewrite G end.
    apply select_segments_defined; [assumption|lia].
  - destruct (sign_offsets _ _) as [[? ?] ?]. apply defined_bind; [|intros; apply defined_ok].
    apply find_version_records_defined; [assumption|]. intros i Hi. apply in_u16_indices in Hi; [tauto|lia].
Qed.

Lemma sign_defined_lemma zlib_inflate input options :
  bytes_ok input -> bytes_ok (opt_auth_info options) -> size input <= kFileLimit ->
  defined (sign zlib_inflate input options).
Proof.
  intros H Ha Hs. unfold sign. apply defined_bind; [apply sign_plan_defined; assumption|]. intros p E.
  apply sign_plan_ok in E; [|assumption|assumption]. rewrite (sign_unsealed_writes _ _ _ E Hs). cbn [bind].
  fold (unsealed options p).
  pose proof (unsealed_container _ _ _ E Hs Ha) as C.
  apply defined_bind; [apply extract_defined_lemma, (c_bytes _ _ _ C)|]. intros r _.
  destruct (sha256_total r) as (d & -> & _). cbn [bind]. apply copy_bytes_defined.
Qed.

(** ** Properties *)

(** A sample module: an ELF header, a loaded, a dynamic and a version-record
    program header, and their content. *)
Definition sample_header (type flags offset filesz : Z) : Bytes :=
  le_bytes 4 type ++ le_bytes 4 flags ++ le_bytes 8 offset ++ zeros 16 ++ le_bytes 8 filesz ++ zeros 16.

Definition sample_elf : Bytes :=
  [0x7f; 0x45; 0x4c; 0x46; 2; 1; 1; 0] ++ zeros 8 ++ le_bytes 2 0 ++ le_bytes 2 0 ++ zeros 12 ++
  le_bytes 8 0x40 ++ zeros 14 ++ le_bytes 2 0x38 ++ le_bytes 2 3 ++ zeros 6 ++
  sample_header kPtLoad 5 0xe8 24 ++ sample_header kPtDynamic 6 0xf0 16 ++
  sample_header kPtVersionRecords 0 0x100 6 ++
  [1; 2; 3; 4; 5; 6; 7; 8; 9; 10; 11; 12; 13; 14; 15; 16; 17; 18; 19; 20; 21; 22; 23; 24; 0; 0; 0; 0; 0; 0; 0; 0].

Definition no_inflate (window : Z) (input : Bytes) (n : Z) : option (Z * Bytes) := None.

Definition ok_or {A} (d : A) (m : outcome A) : A := match m with Ok a => a | _ => d end.

Definition sample_plan : SignPlan :=
  ok_or {| plan_elf := []; plan_program_count := 0; plan_selected := []; plan_extended_at := 0;
           plan_header_size := 0; plan_meta_size := 0; plan_offsets := []; plan_digest_sizes := [];
           plan_declared_size := 0; plan_version_start := 0;
           plan_version := {| region_offset := 0; region_size := 0 |} |}
    (sign_plan sample_elf default_options).

Definition bytes_okb (l : Bytes) : bool := forallb (fun b => (0 <=? b) && (b <? 256)) l.

Lemma bytes_okb_spec l : bytes_okb l = true -> bytes_ok l.
Proof.
  unfold bytes_okb, bytes_ok. rewrite forallb_forall, Forall_forall. intros H b Hb.
  specialize (H b Hb). to_prop. lia.
Qed.

(** C10: Signing succeeds on every ELF whose plan is accepted and whose program
    headers lie in the file, and extracting the container it produces returns
    an image in which every byte the container carries (the selected segments,
    the version records, the header table) is the byte of the (normalised) ELF
    and every other byte is zero. *)
Theorem sign_extract_roundtrip zlib_inflate input options p :
  bytes_ok input -> bytes_ok (opt_auth_info options) -> size input <= kFileLimit ->
  sign_plan input options = Ok p -> headers_inside (plan_elf p) (plan_program_count p) ->
  exists out rec,
    sign zlib_inflate input options = Ok out /\ extract zlib_inflate out = Ok rec /\
    size rec = image_size p /\
    forall j, byte_at rec j = if carried p j then byte_at (plan_elf p) j else 0.
Proof.
  intros H Ha Hs E Hi. pose proof (sign_plan_ok _ _ _ H Hs E) as Hp.
  destruct (sign_eq _ _ _ Hp H Hs Ha zlib_inflate E Hi) as (d & _ & Sd & Bd & S).
  destruct (sealed_container _ _ _ Hp Hs Ha d Bd Sd) as [C _].
  exists (sealed options p d), (restored p). split; [exact S|]. split.
  - exact (extract_container _ _ _ _ Hp H Hs C zlib_inflate Hi).
  - exact (restored_spec _ _ _ Hp zlib_inflate Hi).
Qed.

Lemma sign_extract_roundtrip_witness :
  exists out rec,
    sign no_inflate sample_elf default_options = Ok out /\ extract no_inflate out = Ok rec /\
    size rec = image_size sample_plan /\
    forall j, byte_at rec j = if carried sample_plan j then byte_at (plan_elf sample_plan) j else 0.
Proof.
  apply (sign_extract_roundtrip no_inflate sample_elf default_options sample_plan).
  - apply bytes_okb_spec. vm_compute. reflexivity.
  - constructor.
  - vm_compute. discriminate.
  - vm_compute. reflexivity.
  - apply headers_insideb_spec. vm_compute. reflexivity.
Defined.

(** The container that [sign] returns is recognised by [parse], which
    reads back the header, the segment table, the ELF headers, the authority
    and the versions it was given, and a digest that is the SHA-256 of what
    [extract] returns for that very container. *)
Theorem sign_seals_digest zlib_inflate input options p :
  bytes_ok input -> bytes_ok (opt_auth_info options) -> size input <= kFileLimit ->
  sign_plan input options = Ok p -> headers_inside (plan_elf p) (plan_program_count p) ->
  exists out rec digest,
    sign zlib_inflate input options = Ok out /\ extract zlib_inflate out = Ok rec /\
    sha256 rec = Ok digest /\ parse out = Ok (container_image p options digest).
Proof.
  intros H Ha Hs E Hi. pose proof (sign_plan_ok _ _ _ H Hs E) as Hp.
  destruct (sign_eq _ _ _ Hp H Hs Ha zlib_inflate E Hi) as (d & Ed & Sd & Bd & S).
  destruct (sealed_container _ _ _ Hp Hs Ha d Bd Sd) as [C D].
  exists (sealed options p d), (restored p), d. split; [exact S|]. split; [|split; [exact Ed|]].
  - exact (extract_container _ _ _ _ Hp H Hs C zlib_inflate Hi).
  - rewrite (parse_container _ _ _ _ Hp H Hs C), D. reflexivity.
Qed.

Lemma sign_seals_digest_witness :
  exists out rec digest,
    sign no_inflate sample_elf default_options = Ok out /\ extract no_inflate out = Ok rec /\
    sha256 rec = Ok digest /\ parse out = Ok (container_image sample_plan default_options digest).
Proof.
  apply (sign_seals_digest no_inflate sample_elf default_options sample_plan).
  - apply bytes_okb_spec. vm_compute. reflexivity.
  - constructor.
  - vm_compute. discriminate.
  - vm_compute. reflexivity.
  - apply headers_insideb_spec. vm_compute. reflexivity.
Defined.

(** C32: No file makes the container code leave a buffer: parsing, extracting,
    stripping and signing arbitrary bytes either return or throw. *)
Theorem self_memory_safe zlib_inflate data options :
  bytes_ok data -> bytes_ok (opt_auth_info options) -> size data <= kFileLimit ->
  defined (parse data) /\ defined (extract zlib_inflate data) /\ defined (strip_sections data) /\
  defined (sign zlib_inflate data options).
Proof.
  intros H Ha Hs. split; [apply parse_defined_lemma; assumption|]. split; [apply extract_defined_lemma; assumption|].
  split; [apply strip_sections_defined_lemma; assumption|apply sign_defined_lemma; assumption].
Qed.

Lemma self_memory_safe_witness :
  defined (parse [1; 2; 3]) /\ defined (extract no_inflate [1; 2; 3]) /\
  defined (strip_sections [1; 2; 3]) /\ defined (sign no_inflate [1; 2; 3] default_options).
Proof.
  apply (self_memory_safe no_inflate [1; 2; 3] default_options).
  - apply bytes_okb_spec. reflexivity.
  - constructor.
  - vm_compute. discriminate.
Defined.

(** Stripping the section table keeps a prefix of the ELF: every byte
    outside the four section fields is kept, those fields are zero, and, when
    the program-header table lies in the file, the prefix reaches the end of
    every program header's content. *)
Theorem strip_sections_keeps elf out :
  bytes_ok elf -> size elf <= kFileLimit -> strip_sections elf = Ok out ->
  size out <= size elf /\
  (forall j, 0 <= j < size out -> byte_at out j = if section_field j then 0 else byte_at elf j) /\
  (strip_header_at elf (field elf kProgramHeaderCountOffset 2) <= size elf ->
   forall i, 0 <= i < field elf kProgramHeaderCountOffset 2 ->
     strip_content_end elf i <= kSizeMax -> Z.min (strip_content_end elf i) (size elf) <= size out).
Proof.
  intros Hb Hs E. destruct (strip_sections_inv elf Hb Hs out E) as (s & Es & Hn & He & ->).
  set (n := Z.min (strip_extent s) (size elf)) in *. unfold kFileLimit in *.
  assert (Sn : size (sub elf 0 n) = n) by (apply size_sub; lia).
  assert (A : ascending 0x28 strip_writes 0x40)
    by (unfold strip_writes; cbn [ascending fst snd]; rewrite ?size_le_bytes; lia).
  assert (Sz : size (apply_writes (sub elf 0 n) strip_writes) = n)
    by (erewrite size_apply_writes; [exact Sn| |exact A|]; lia).
  rewrite Sz. split; [lia|]. split.
  - intros j Hj. assert (K : covered strip_writes j = section_field j).
    { unfold covered, strip_writes, covers, section_field. cbn [existsb fst snd]. rewrite !size_le_bytes.
      apply eq_true_iff_eq. rewrite !orb_true_iff, !andb_true_iff, !Z.leb_le, !Z.ltb_lt. lia. }
    destruct (section_field j).
    + unfold covered in K. apply existsb_exists in K as (w & Hw & Hc).
      assert (Hz : exists k, w = (fst w, le_bytes k 0))
        by (cbn [strip_writes In] in Hw; intuition (subst; eexists; reflexivity)).
      destruct Hz as [k Hz]. rewrite Hz in Hw.
      unfold covers in Hc. rewrite Hz in Hc. cbn [fst snd] in Hc. rewrite size_le_bytes in Hc. to_prop.
      destruct (apply_writes_field 0x28 _ 0x40 (sub elf 0 n) _ _ _ ltac:(lia) A ltac:(lia) Hw) as (R & ? & ?).
      apply (f_equal (fun l => byte_at l (j - fst w))) in R. rewrite byte_at_sub in R by lia.
      replace (fst w + (j - fst w)) with j in R by lia. rewrite R. apply byte_at_le_bytes_0.
    + rewrite (byte_at_apply_other 0x28 _ 0x40) by (auto; lia). rewrite byte_at_sub by lia. f_equal.
  - intros Ht i Hi Hle. unfold strip_header_at in Ht.
    pose proof (strip_headers_extent elf Hb Hs) as X.
    assert (R : 0 <= field elf kProgramHeaderOffset 8).
    { apply (field_range elf kProgramHeaderOffset 8); unfold kProgramHeaderOffset; [assumption|lia..]. }
    apply X in Es as [_ Es]; [| assumption| unfold kElfProgramHeaderSize in *; lia | |assumption].
    + specialize (Es i). rewrite in_indices in Es. unfold strip_content_end, strip_header_at in *. lia.
    + intros k Hk. apply in_indices in Hk. unfold kElfProgramHeaderSize in *. nia.
Qed.

Definition sample_stripped : Bytes := ok_or [] (strip_sections sample_elf).

Lemma strip_sections_keeps_witness :
  size sample_stripped <= size sample_elf /\
  (forall j, 0 <= j < size sample_stripped ->
     byte_at sample_stripped j = if section_field j then 0 else byte_at sample_elf j) /\
  (strip_header_at sample_elf (field sample_elf kProgramHeaderCountOffset 2) <= size sample_elf ->
   forall i, 0 <= i < field sample_elf kProgramHeaderCountOffset 2 ->
     strip_content_end sample_elf i <= kSizeMax ->
     Z.min (strip_content_end sample_elf i) (size sample_elf) <= size sample_stripped).
Proof.
  apply (strip_sections_keeps sample_elf sample_stripped).
  - apply bytes_okb_spec. vm_compute. reflexivity.
  - vm_compute. discriminate.
  - vm_compute. reflexivity.
Defined.

(** Normalising a header writes the machine, the OS ABI and the type the
    console expects and keeps every other byte of the ELF. *)
Theorem normalize_header_normalizes elf :
  bytes_ok elf -> kElfHeaderSize <= size elf < 2 ^ 64 ->
  exists e, normalize_header elf = Ok e /\ normalized elf e.
Proof. apply normalize_header_ok. Qed.

Lemma normalize_header_normalizes_witness :
  exists e, normalize_header sample_elf = Ok e /\ normalized sample_elf e.
Proof.
  apply (normalize_header_normalizes sample_elf).
  - apply bytes_okb_spec. vm_compute. reflexivity.
  - vm_compute. split; [discriminate|reflexivity].
Defined.
