(* ===== verification/ElfObject.v ===== *)
(** * ELF object model and reader ([src/tooling/native/elf_object.hpp], [elf_object.cpp])

    [read_object] reads a relocatable object, [read_image] a linked shared
    image and [read_stub] an SDK stub library, from the bytes of a file.  The
    property part shows that no file makes a reader leave its buffer, what a
    string-table lookup returns, and that the entries of a symbol table read
    back as written. *)

From Stdlib Require Import ZArith List Bool Lia String Ascii.
From S2P Require Import Prelude Bytes.
Import ListNotations.
Open Scope Z_scope.

Definition kSectionProgBits : Z := 1.
Definition kSectionSymbolTable : Z := 2.
Definition kSectionStringTable : Z := 3.
Definition kSectionRela : Z := 4.
Definition kSectionDynamic : Z := 6.
Definition kSectionNoBits : Z := 8.
Definition kSectionDynamicSymbols : Z := 11.

Definition kFlagWrite : Z := 0x1.
Definition kFlagAlloc : Z := 0x2.
Definition kFlagExecute : Z := 0x4.
Definition kFlagTls : Z := 0x400.

Definition kBindLocal : Z := 0.
Definition kBindGlobal : Z := 1.
Definition kBindWeak : Z := 2.
Definition kTypeNoType : Z := 0.
Definition kTypeObject : Z := 1.
Definition kTypeFunction : Z := 2.
Definition kTypeSection : Z := 3.
Definition kTypeTls : Z := 6.
Definition kTypeGnuIfunc : Z := 10.

Record Section_ := {
  sec_name : string;
  sec_type : Z;
  sec_flags : Z;
  sec_address : Z;
  sec_file_offset : Z;
  sec_size : Z;
  sec_link : Z;
  sec_info : Z;
  sec_alignment : Z;
  sec_entry_size : Z;
  sec_data : Bytes
}.

Definition allocated (s : Section_) : bool := negb (Z.land (sec_flags s) kFlagAlloc =? 0).
Definition executable (s : Section_) : bool := negb (Z.land (sec_flags s) kFlagExecute =? 0).
Definition writable (s : Section_) : bool := negb (Z.land (sec_flags s) kFlagWrite =? 0).
Definition tls (s : Section_) : bool := negb (Z.land (sec_flags s) kFlagTls =? 0).
Definition no_bits (s : Section_) : bool := sec_type s =? kSectionNoBits.

Record Symbol := {
  sym_name : string;
  sym_info : Z;
  sym_other : Z;
  sym_section : Z;
  sym_value : Z;
  sym_size : Z
}.

Definition binding (s : Symbol) : Z := Z.shiftr (sym_info s) 4.
Definition symbol_type (s : Symbol) : Z := Z.land (sym_info s) 0xf.
Definition undefined (s : Symbol) : bool := sym_section s =? 0.
Definition weak (s : Symbol) : bool := binding s =? kBindWeak.
Definition global_or_weak (s : Symbol) : bool := (binding s =? kBindGlobal) || (binding s =? kBindWeak).

Record Relocation := {
  rel_offset : Z;
  rel_symbol : Z;
  rel_type : Z;
  rel_addend : Z
}.

Record Object := {
  obj_origin : string;
  obj_sections : list Section_;
  obj_symbols : list Symbol;
  obj_relocations : list (Z * list Relocation)   (* std::map, by ascending key *)
}.

Record Image := {
  image_origin : string;
  image_entry : Z;
  image_sections : list Section_;
  image_dynamic_symbols : list Symbol;
  image_needed : list string
}.

Record Stub := {
  stub_soname : string;
  stub_module_name : string;
  stub_library_name : string;
  stub_exports : list string
}.

(** ** Field and string access *)

Definition range (offset size_ length_ : Z) : bool := (offset <=? length_) && (size_ <=? length_ - offset).

Definition elf_u16 (data : Bytes) (at_ : Z) : outcome Z :=
  do! require (u64 (at_ + 2) <=? size data) "ELF u16 read outside input" in
  let! b0 := index data at_ in
  let! b1 := index data (at_ + 1) in
  Ok (Z.lor b0 (Z.shiftl b1 8)).

Definition elf_u32 (data : Bytes) (at_ : Z) : outcome Z :=
  checked_load "ELF u32 read outside input" 4 data at_.

Definition elf_u64 (data : Bytes) (at_ : Z) : outcome Z :=
  checked_load "ELF u64 read outside input" 8 data at_.

(** [while (end < table.size() && table\[end\] != 0) ++end]; the table's size
    is fuel enough. *)
Fixpoint string_end (fuel : nat) (table : Bytes) (end_ : Z) : outcome Z :=
  match fuel with
  | O => Ok end_
  | S fuel' =>
      if end_ <? size table then
        let! b := index table end_ in
        if b =? 0 then Ok end_ else string_end fuel' table (end_ + 1)
      else Ok end_
  end.

Definition string_at (table : Bytes) (at_ : Z) : outcome string :=
  do! require ((at_ <? size table) || ((at_ =? 0) && (size table =? 0))) "ELF string offset outside table" in
  let! end_ := string_end (List.length table) table at_ in
  do! require (end_ <? size table) "unterminated ELF string" in
  let! bytes := subspan table at_ (end_ - at_) in
  Ok (string_of_bytes bytes).

(** ** Sections *)

Record RawSection := {
  raw_name : Z;
  raw_type : Z;
  raw_flags : Z;
  raw_address : Z;
  raw_offset : Z;
  raw_size : Z;
  raw_link : Z;
  raw_info : Z;
  raw_alignment : Z;
  raw_entry_size : Z
}.

Record ParsedSections := { parsed_raw : list RawSection; parsed_names : list string }.

Definition raw_section (data : Bytes) (at_ : Z) : outcome RawSection :=
  let! name := elf_u32 data at_ in
  let! type := elf_u32 data (at_ + 4) in
  let! flags := elf_u64 data (at_ + 8) in
  let! address := elf_u64 data (at_ + 16) in
  let! offset := elf_u64 data (at_ + 24) in
  let! size_ := elf_u64 data (at_ + 32) in
  let! link := elf_u32 data (at_ + 40) in
  let! info := elf_u32 data (at_ + 44) in
  let! alignment := elf_u64 data (at_ + 48) in
  let! entry_size := elf_u64 data (at_ + 56) in
  Ok {| raw_name := name; raw_type := type; raw_flags := flags; raw_address := address;
        raw_offset := offset; raw_size := size_; raw_link := link; raw_info := info;
        raw_alignment := alignment; raw_entry_size := entry_size |}.

(** The checks on the ELF header: the table's offset, its entry count and the
    index of the name table. *)
Definition section_table (data : Bytes) : outcome (Z * Z * Z) :=
  let! magic := if 0x40 <=? size data then let! m := elf_u32 data 0 in Ok (m =? 0x464c457f) else Ok false in
  do! require magic "input is not an ELF file" in
  let! class_ := index data 4 in
  let! endian := if class_ =? 2 then let! e := index data 5 in Ok (e =? 1) else Ok false in
  do! require endian "only little-endian ELF64 is supported" in
  let! offset := elf_u64 data 0x28 in
  let! entry_size := elf_u16 data 0x3a in
  let! count := elf_u16 data 0x3c in
  let! names_index := elf_u16 data 0x3e in
  do! require (entry_size =? 0x40) "unexpected ELF64 section-header size" in
  do! require (negb (count =? 0) && range offset (count * entry_size) (size data))
        "ELF section table overruns input" in
  do! require (names_index <? count) "ELF section-name table index is invalid" in
  Ok (offset, count, names_index).

Definition sections (data : Bytes) : outcome ParsedSections :=
  let! ' (offset, count, names_index) := section_table data in
  let! raw := collect (fun i => raw_section data (offset + i * 0x40)) (indices 0 (Z.to_nat count)) in
  let! names := vector_at raw names_index in
  do! require (range (raw_offset names) (raw_size names) (size data))
        "ELF section-name table overruns input" in
  let! table := subspan data (raw_offset names) (raw_size names) in
  let! strings := collect (fun s => string_at table (raw_name s)) raw in
  Ok {| parsed_raw := raw; parsed_names := strings |}.

Definition section_data (data : Bytes) (s : RawSection) : outcome Bytes :=
  if raw_type s =? kSectionNoBits then Ok []
  else
    do! require (range (raw_offset s) (raw_size s) (size data)) "ELF section overruns input" in
    subspan data (raw_offset s) (raw_size s).

Definition read_symbol (bytes strings : Bytes) (at_ : Z) : outcome Symbol :=
  let! name_at := elf_u32 bytes at_ in
  let! name := string_at strings name_at in
  let! info := index bytes (at_ + 4) in
  let! other := index bytes (at_ + 5) in
  let! section := elf_u16 bytes (at_ + 6) in
  let! value := elf_u64 bytes (at_ + 8) in
  let! size_ := elf_u64 bytes (at_ + 16) in
  Ok {| sym_name := name; sym_info := info; sym_other := other; sym_section := section;
        sym_value := value; sym_size := size_ |}.

Definition read_symbols (data : Bytes) (parsed : ParsedSections) (symbol_index : Z) : outcome (list Symbol) :=
  let! symbols := vector_at (parsed_raw parsed) symbol_index in
  do! require ((raw_entry_size symbols =? 24) && (raw_link symbols <? size (parsed_raw parsed)))
        "unsupported ELF symbol table" in
  let! bytes := section_data data symbols in
  let! strings_section := vector_at (parsed_raw parsed) (raw_link symbols) in
  let! strings := section_data data strings_section in
  collect (read_symbol bytes strings) (offsets_within (size bytes) 24).

(** ** Names *)

Definition ends_with (name suffix : string) : bool :=
  let n := String.length name in
  let k := String.length suffix in
  Nat.leb k n && String.eqb (substring (n - k) k name) suffix.

Definition normalized_soname (name : string) : string :=
  if ends_with name ".sprx" then substring 0 (String.length name - 5) name ++ ".prx" else name.

(** [soname.find_last_of("/\\")]: the part after the last separator. *)
Fixpoint after_separator (soname : string) (best : string) : string :=
  match soname with
  | EmptyString => best
  | String c rest =>
      if Ascii.eqb c "/" || Ascii.eqb c "\" then after_separator rest rest else after_separator rest best
  end.

(** [soname.substr(0, soname.find('.'))] *)
Fixpoint before_dot (soname : string) : string :=
  match soname with
  | EmptyString => EmptyString
  | String c rest => if Ascii.eqb c "." then EmptyString else String c (before_dot rest)
  end.

Definition module_from_soname (soname : string) : string := before_dot (after_separator soname soname).

(** ** The three readers *)

Definition make_section (name : string) (raw : RawSection) (bytes : Bytes) : Section_ := {|
  sec_name := name; sec_type := raw_type raw; sec_flags := raw_flags raw;
  sec_address := raw_address raw; sec_file_offset := raw_offset raw; sec_size := raw_size raw;
  sec_link := raw_link raw; sec_info := raw_info raw; sec_alignment := Z.max (raw_alignment raw) 1;
  sec_entry_size := raw_entry_size raw; sec_data := bytes |}.

Definition read_section (data : Bytes) (parsed : ParsedSections) (i : Z) : outcome Section_ :=
  let! raw := vector_at (parsed_raw parsed) i in
  let! bytes := section_data data raw in
  let! name := vector_at (parsed_names parsed) i in
  Ok (make_section name raw bytes).

(** The loop's [break]: the first index whose type matches, else the size. *)
Fixpoint first_of_type (type : Z) (raw : list RawSection) (i : Z) : Z :=
  match raw with
  | [] => i
  | s :: raw' => if raw_type s =? type then i else first_of_type type raw' (i + 1)
  end.

(** [object.relocations\[key\]] extended by [push_back]. *)
Fixpoint relocations_append (key : Z) (rs : list Relocation) (m : list (Z * list Relocation))
  : list (Z * list Relocation) :=
  match m with
  | [] => [(key, rs)]
  | (k, old) :: m' =>
      if key <? k then (key, rs) :: m
      else if key =? k then (k, old ++ rs) :: m'
      else (k, old) :: relocations_append key rs m'
  end.

Definition read_relocation (bytes : Bytes) (at_ : Z) : outcome Relocation :=
  let! info := elf_u64 bytes (at_ + 8) in
  let! offset := elf_u64 bytes at_ in
  let! addend := elf_u64 bytes (at_ + 16) in
  Ok {| rel_offset := offset; rel_symbol := u32 (Z.shiftr info 32); rel_type := u32 info;
        rel_addend := s64 addend |}.

Definition read_relocation_section (data : Bytes) (count symbol_index : Z)
  (m : list (Z * list Relocation)) (raw : RawSection) : outcome (list (Z * list Relocation)) :=
  if negb (raw_type raw =? kSectionRela) then Ok m
  else
    do! require ((raw_entry_size raw =? 24) && (raw_link raw =? symbol_index) && (raw_info raw <? count))
          "unsupported ELF relocation section" in
    let! bytes := section_data data raw in
    let! rs := collect (read_relocation bytes) (offsets_within (size bytes) 24) in
    Ok (relocations_append (raw_info raw) rs m).

Definition read_object (data : Bytes) (origin : string) : outcome Object :=
  let! type := elf_u16 data 0x10 in
  do! require (type =? 1) ("link input is not a relocatable ELF: " ++ origin) in
  let! parsed := sections data in
  let count := size (parsed_raw parsed) in
  let! secs := collect (read_section data parsed) (indices 0 (Z.to_nat count)) in
  let symbol_index := first_of_type kSectionSymbolTable (parsed_raw parsed) 0 in
  do! require (symbol_index <? count) "relocatable ELF has no symbol table" in
  let! symbols := read_symbols data parsed symbol_index in
  let! relocations := for_each (read_relocation_section data count symbol_index) [] (parsed_raw parsed) in
  Ok {| obj_origin := origin; obj_sections := secs; obj_symbols := symbols; obj_relocations := relocations |}.

(** One section of the image, and the dynamic symbols when it is that table. *)
Definition read_image_section (data : Bytes) (parsed : ParsedSections)
  (s : list Section_ * list Symbol) (i : Z) : outcome (list Section_ * list Symbol) :=
  let! raw := vector_at (parsed_raw parsed) i in
  let! bytes := section_data data raw in
  let! name := vector_at (parsed_names parsed) i in
  let secs := fst s ++ [make_section name raw bytes] in
  if raw_type raw =? kSectionDynamicSymbols then
    let! symbols := read_symbols data parsed i in Ok (secs, symbols)
  else Ok (secs, snd s).

(** The loop over a dynamic table: it stops at [DT_NULL]. *)
Fixpoint needed_entries (entries strings : Bytes) (l : list Z) (needed : list string) : outcome (list string) :=
  match l with
  | [] => Ok needed
  | at_ :: l' =>
      let! tag := elf_u64 entries at_ in
      if tag =? 0 then Ok needed
      else if tag =? 1 then
        let! value := elf_u64 entries (at_ + 8) in
        let! name := string_at strings value in
        needed_entries entries strings l' (needed ++ [normalized_soname name])
      else needed_entries entries strings l' needed
  end.

Definition read_needed (data : Bytes) (raw_sections : list RawSection) (needed : list string)
  (dynamic : RawSection) : outcome (list string) :=
  if negb (raw_type dynamic =? kSectionDynamic) then Ok needed
  else
    do! require ((raw_link dynamic <? size raw_sections) && (raw_entry_size dynamic =? 16))
          "linked ELF has an unsupported dynamic table" in
    let! entries := section_data data dynamic in
    let! strings_section := vector_at raw_sections (raw_link dynamic) in
    let! strings := section_data data strings_section in
    needed_entries entries strings (offsets_within (size entries) 16) needed.

Definition read_image (data : Bytes) (origin : string) : outcome Image :=
  let! type := elf_u16 data 0x10 in
  do! require (type =? 3) ("link output is not an ELF shared image: " ++ origin) in
  let! parsed := sections data in
  let! entry := elf_u64 data 0x18 in
  let! secs := for_each (read_image_section data parsed) ([], [])
                 (indices 0 (Z.to_nat (size (parsed_raw parsed)))) in
  let! needed := for_each (read_needed data (parsed_raw parsed)) [] (parsed_raw parsed) in
  do! require (negb (size (snd secs) =? 0)) ("linked ELF has no dynamic symbol table: " ++ origin) in
  Ok {| image_origin := origin; image_entry := entry; image_sections := fst secs;
        image_dynamic_symbols := snd secs; image_needed := needed |}.

(** The last index whose type matches, else the given default. *)
Fixpoint last_of_type (type : Z) (raw : list RawSection) (i best : Z) : Z :=
  match raw with
  | [] => best
  | s :: raw' => last_of_type type raw' (i + 1) (if raw_type s =? type then i else best)
  end.

Fixpoint soname_entries (entries strings : Bytes) (l : list Z) (soname : string) : outcome string :=
  match l with
  | [] => Ok soname
  | at_ :: l' =>
      let! tag := elf_u64 entries at_ in
      if tag =? 0 then Ok soname
      else if tag =? 14 then
        let! value := elf_u64 entries (at_ + 8) in
        let! name := string_at strings value in
        soname_entries entries strings l' name
      else soname_entries entries strings l' soname
  end.

Definition exported (s : Symbol) : bool :=
  negb (undefined s) && global_or_weak s && negb (String.eqb (sym_name s) "").

Definition read_stub (data : Bytes) (origin : string) : outcome Stub :=
  let! parsed := sections data in
  let raw := parsed_raw parsed in
  let symbols_index := last_of_type kSectionDynamicSymbols raw 0 (size raw) in
  let dynamic_index := last_of_type kSectionDynamic raw 0 (size raw) in
  do! require ((symbols_index <? size raw) && (dynamic_index <? size raw))
        ("SDK stub lacks dynamic metadata: " ++ origin) in
  let! symbols := read_symbols data parsed symbols_index in
  let! dynamic := vector_at raw dynamic_index in
  do! require ((raw_link dynamic <? size raw) && (raw_entry_size dynamic =? 16))
        ("SDK stub has unsupported dynamic table: " ++ origin) in
  let! strings_section := vector_at raw (raw_link dynamic) in
  let! strings := section_data data strings_section in
  let! entries := section_data data dynamic in
  let! soname := soname_entries entries strings (offsets_within (size entries) 16) "" in
  do! require (negb (String.eqb soname "")) ("SDK stub has no SONAME: " ++ origin) in
  let soname := normalized_soname soname in
  Ok {| stub_soname := soname; stub_module_name := module_from_soname soname;
        stub_library_name := module_from_soname soname;
        stub_exports := map sym_name (filter exported symbols) |}.

(** ** No file makes a reader leave its buffer *)

Lemma elf_u16_spec data a :
  bytes_ok data -> 0 <= a -> a + 2 < 2 ^ 64 ->
  elf_u16 data a = if a + 2 <=? size data then Ok (field data a 2) else Throw "ELF u16 read outside input".
Proof.
  intros H Ha Hb. unfold elf_u16. rewrite u64_small by lia.
  destruct (a + 2 <=? size data) eqn:E; to_prop; [|reflexivity].
  cbn [require bind]. rewrite !index_ok by lia. cbn [bind]. f_equal.
  unfold field. rewrite !sub_cons by lia.
  replace (sub data (a + 1 + 1) (2 - 1 - 1)) with (@nil Z) by reflexivity.
  cbn [le_value]. pose proof (bytes_ok_byte_at data a H). rewrite lor_shiftl_add by lia. lia.
Qed.

Lemma defined_elf_u16 {B} data a (k : Z -> outcome B) :
  bytes_ok data -> 0 <= a -> a + 2 < 2 ^ 64 ->
  (forall v, a + 2 <= size data -> v = field data a 2 -> 0 <= v < 65536 -> defined (k v)) ->
  defined (bind (elf_u16 data a) k).
Proof.
  intros H Ha Hb Hk. rewrite elf_u16_spec by assumption.
  destruct (_ <=? _) eqn:E; to_prop; [|apply defined_throw].
  cbn [bind]. apply Hk; [assumption|reflexivity|]. apply (field_range data a 2); auto; lia.
Qed.

Lemma defined_elf_u32 {B} data a (k : Z -> outcome B) :
  bytes_ok data -> 0 <= a -> a + 4 < 2 ^ 64 ->
  (forall v, a + 4 <= size data -> v = field data a 4 -> 0 <= v < 2 ^ 32 -> defined (k v)) ->
  defined (bind (elf_u32 data a) k).
Proof. intros. apply defined_checked_load; auto. Qed.

Lemma defined_elf_u64 {B} data a (k : Z -> outcome B) :
  bytes_ok data -> 0 <= a -> a + 8 < 2 ^ 64 ->
  (forall v, a + 8 <= size data -> v = field data a 8 -> 0 <= v < 2 ^ 64 -> defined (k v)) ->
  defined (bind (elf_u64 data a) k).
Proof. intros. apply defined_checked_load; auto. Qed.

Lemma string_end_spec fuel table a :
  0 <= a -> exists e, string_end fuel table a = Ok e /\ a <= e /\ (a <= size table -> e <= size table) /\
    (forall i, a <= i < e -> byte_at table i <> 0) /\
    (size table - a <= Z.of_nat fuel -> e < size table -> byte_at table e = 0).
Proof.
  revert a; induction fuel as [|fuel IH]; intros a Ha; cbn [string_end].
  - exists a. repeat split; try lia.
  - destruct (a <? size table) eqn:E; to_prop; [|exists a; repeat split; lia].
    rewrite index_ok by lia. cbn [bind]. destruct (byte_at table a =? 0) eqn:Z0; to_prop.
    + exists a. repeat split; try lia.
    + destruct (IH (a + 1) ltac:(lia)) as (e & -> & H1 & H2 & H3 & H4). exists e.
      repeat split; try lia.
      intros i Hi. destruct (Z.eq_dec i a) as [->|]; [assumption|apply H3; lia].
Qed.

Lemma string_at_defined table a : 0 <= a -> defined (string_at table a).
Proof.
  intros Ha. unfold string_at. apply defined_require_bind. intros G.
  destruct (string_end_spec (List.length table) table a Ha) as (e & -> & H1 & H2 & _). cbn [bind].
  apply defined_require_bind. intros G'. to_prop. rewrite subspan_ok by lia. apply defined_ok.
Qed.

(** The fields of a raw section a reader relies on. *)
Definition raw_ok (r : RawSection) : Prop :=
  0 <= raw_name r < 2 ^ 32 /\ 0 <= raw_offset r < 2 ^ 64 /\ 0 <= raw_size r < 2 ^ 64 /\
  0 <= raw_link r < 2 ^ 32 /\ 0 <= raw_info r < 2 ^ 32.

Ltac elf_step :=
  lazymatch goal with
  | |- defined (Ok _) => apply defined_ok
  | |- defined (Throw _) => apply defined_throw
  | |- defined (require _ _) => apply defined_require
  | |- defined (bind (require _ _) _) => apply defined_require_bind; intros; to_prop
  | |- defined (bind (elf_u16 _ _) _) => apply defined_elf_u16; [auto with bytes|try lia|try lia|intros]
  | |- defined (bind (elf_u32 _ _) _) => apply defined_elf_u32; [auto with bytes|try lia|try lia|intros]
  | |- defined (bind (elf_u64 _ _) _) => apply defined_elf_u64; [auto with bytes|try lia|try lia|intros]
  | |- defined (bind (string_at _ _) _) => apply defined_bind; [apply string_at_defined; try lia|intros]
  | |- defined (bind (index _ _) _) => rewrite index_ok; [cbn [bind]|try lia]
  | |- defined (bind (bind _ _) _) => rewrite bind_assoc
  | |- defined (if ?c then _ else _) => destruct c eqn:?; to_prop
  end.

Lemma raw_section_defined data a :
  bytes_ok data -> 0 <= a -> a + 64 < 2 ^ 64 -> defined (raw_section data a).
Proof. intros. unfold raw_section. repeat elf_step. Qed.

Lemma checked_load_inv message n data a v :
  bytes_ok data -> 0 <= a -> a + Z.of_nat n < 2 ^ 64 -> checked_load message n data a = Ok v ->
  a + Z.of_nat n <= size data /\ v = field data a (Z.of_nat n) /\ 0 <= v < 256 ^ Z.of_nat n.
Proof.
  intros H Ha Hb E. rewrite checked_load_spec in E by assumption.
  destruct (_ <=? _) eqn:G; to_prop; [|discriminate]. injection E as <-.
  split; [assumption|]. split; [reflexivity|]. apply field_range; auto; lia.
Qed.

Lemma raw_section_ok data a r :
  bytes_ok data -> 0 <= a -> a + 64 < 2 ^ 64 -> raw_section data a = Ok r -> raw_ok r.
Proof.
  intros H Ha Hb E. unfold raw_section in E. inv_ok E. subst r. unfold elf_u32, elf_u64 in *.
  repeat match goal with E : checked_load _ _ _ _ = Ok _ |- _ =>
    apply checked_load_inv in E as (? & ? & ?); [|assumption|lia|lia] end.
  unfold raw_ok. cbn. change (256 ^ Z.of_nat 4) with (2 ^ 32) in *. change (256 ^ Z.of_nat 8) with (2 ^ 64) in *.
  tauto.
Qed.

Definition parsed_ok (parsed : ParsedSections) : Prop :=
  Forall raw_ok (parsed_raw parsed) /\ size (parsed_names parsed) = size (parsed_raw parsed).

Definition table_ok (data : Bytes) (t : Z * Z * Z) : Prop :=
  let '(offset, count, names_index) := t in
  0 <= offset /\ 0 <= names_index < count /\ count < 65536 /\ offset + count * 0x40 <= size data.

Lemma section_table_safe data :
  bytes_ok data -> size data < 2 ^ 63 ->
  defined (section_table data) /\ forall t, section_table data = Ok t -> table_ok data t.
Proof.
  intros H Hs.
  assert (M : forall m : bool, (if 0x40 <=? size data then let! m := elf_u32 data 0 in Ok (m =? 0x464c457f)
                         else Ok false) = Ok m -> m = true -> 0x40 <= size data).
  { intros m E ->. destruct (0x40 <=? size data) eqn:G; to_prop; [assumption|discriminate]. }
  split.
  - unfold section_table. apply defined_bind; [repeat elf_step|]. intros m Em.
    apply defined_require_bind. intros Hm. pose proof (M m Em Hm). elf_step.
    apply defined_bind; [repeat elf_step|]. intros e _. repeat elf_step.
  - intros t E. unfold section_table in E. inv_ok E.
    pose proof (M _ E0 G). unfold elf_u64 in *.
    apply checked_load_inv in E3 as (? & ? & ?); [|assumption|lia|lia].
    rewrite elf_u16_spec in E4, E5, E6 by (assumption || lia).
    pose proof (field_range data 0x3a 2 H). pose proof (field_range data 0x3c 2 H). pose proof (field_range data 0x3e 2 H).
    destruct (0x3a + 2 <=? size data) eqn:?, (0x3c + 2 <=? size data) eqn:?, (0x3e + 2 <=? size data) eqn:?;
      try discriminate.
    injection E4 as <-. injection E5 as <-. injection E6 as <-. rewrite <- E. unfold table_ok, range in *. to_prop. lia.
Qed.

Lemma sections_safe data :
  bytes_ok data -> size data < 2 ^ 63 ->
  defined (sections data) /\ forall parsed, sections data = Ok parsed -> parsed_ok parsed.
Proof.
  intros H Hs. destruct (section_table_safe data H Hs) as [D T].
  assert (R : forall offset count names raw, table_ok data (offset, count, names) ->
    collect (fun i => raw_section data (offset + i * 0x40)) (indices 0 (Z.to_nat count)) = Ok raw ->
    Forall raw_ok raw /\ size raw = count).
  { intros offset count names raw (? & ? & ? & ?) E. split.
    - eapply collect_forall; [|exact E]. intros i r Hi. apply in_indices in Hi. apply raw_section_ok; [assumption|lia..].
    - apply collect_length in E. rewrite indices_length in E. unfold size. lia. }
  split.
  - unfold sections. apply defined_bind; [exact D|]. intros [[offset count] names] Et. pose proof (T _ Et) as Q.
    pose proof Q as (? & ? & ? & ?). apply defined_bind.
    { apply defined_collect. intros i Hi. apply in_indices in Hi. apply raw_section_defined; [assumption|lia..]. }
    intros raw Er. destruct (R _ _ _ _ Q Er) as [F L]. rewrite Forall_forall in F.
    destruct (vector_at_ok raw names) as (nm & -> & Hin); [lia|]. cbn [bind].
    destruct (F nm Hin) as (? & ? & ? & _). elf_step. unfold range in *. to_prop.
    rewrite subspan_ok by lia. cbn [bind]. apply defined_bind; [|intros; apply defined_ok].
    apply defined_collect. intros r Hr. apply string_at_defined. apply (F r Hr).
  - intros parsed E. unfold sections in E. apply bind_ok in E as ([[offset count] names] & Et & E).
    pose proof (T _ Et) as Q. inv_ok E. rewrite <- E. unfold parsed_ok. cbn [parsed_raw parsed_names].
    split; [eapply R; eassumption|]. unfold size.
    match goal with C : collect (fun s => string_at _ _) _ = Ok _ |- _ => rewrite (collect_length _ _ _ C) end. reflexivity.
Qed.

Lemma section_data_safe data r :
  bytes_ok data -> raw_ok r -> defined (section_data data r) /\
  forall bytes, section_data data r = Ok bytes -> bytes_ok bytes /\ size bytes <= size data.
Proof.
  intros H (? & ? & ? & _). unfold section_data, range. split.
  - elf_step; [apply defined_ok|]. elf_step. rewrite subspan_ok by lia. apply defined_ok.
  - intros bytes E. destruct (_ =? _); [injection E as <-; split; [constructor|apply size_nonneg]|].
    inv_ok E. apply subspan_inv in E as (? & ? & ? & ->). rewrite size_sub by assumption. split; [auto with bytes|lia].
Qed.

Lemma read_symbol_defined bytes strings a :
  bytes_ok bytes -> 0 <= a -> a + 24 <= size bytes -> size bytes < 2 ^ 63 -> defined (read_symbol bytes strings a).
Proof. intros. unfold read_symbol. repeat elf_step. Qed.

Lemma read_relocation_defined bytes a :
  bytes_ok bytes -> 0 <= a -> a + 24 <= size bytes -> size bytes < 2 ^ 63 -> defined (read_relocation bytes a).
Proof. intros. unfold read_relocation. repeat elf_step. Qed.

Section Readers.
Context (data : Bytes) (parsed : ParsedSections).
Hypothesis Hdata : bytes_ok data.
Hypothesis Hsize : size data < 2 ^ 63.
Hypothesis Hparsed : parsed_ok parsed.

Lemma parsed_at i : 0 <= i < size (parsed_raw parsed) ->
  exists r, vector_at (parsed_raw parsed) i = Ok r /\ raw_ok r.
Proof.
  intros Hi. destruct (vector_at_ok _ i Hi) as (r & E & Hin). exists r. split; [exact E|].
  destruct Hparsed as [F _]. rewrite Forall_forall in F. auto.
Qed.

(** A section's bytes, inside a chain. *)
Lemma defined_section_data {B} r (k : Bytes -> outcome B) :
  raw_ok r -> (forall b, bytes_ok b -> size b < 2 ^ 63 -> defined (k b)) -> defined (bind (section_data data r) k).
Proof.
  intros Hr Hk. destruct (section_data_safe data r Hdata Hr) as [D S]. apply defined_bind; [exact D|].
  intros b E. destruct (S b E). apply Hk; [assumption|lia].
Qed.

Lemma defined_parsed_at {B} i (k : RawSection -> outcome B) :
  0 <= i < size (parsed_raw parsed) -> (forall r, raw_ok r -> defined (k r)) ->
  defined (bind (vector_at (parsed_raw parsed) i) k).
Proof. intros Hi Hk. destruct (parsed_at i Hi) as (r & -> & Hr). cbn [bind]. auto. Qed.

Lemma defined_name_at {B} i (k : string -> outcome B) :
  0 <= i < size (parsed_raw parsed) -> (forall n, defined (k n)) ->
  defined (bind (vector_at (parsed_names parsed) i) k).
Proof.
  intros Hi Hk. destruct Hparsed as [_ L]. destruct (vector_at_ok (parsed_names parsed) i) as (n & -> & _);
    [lia|]. cbn [bind]. auto.
Qed.

Lemma read_symbols_defined i : 0 <= i < size (parsed_raw parsed) -> defined (read_symbols data parsed i).
Proof.
  intros Hi. unfold read_symbols. apply defined_parsed_at; [assumption|]. intros r Hr.
  pose proof Hr as (_ & _ & _ & ? & _). elf_step.
  apply defined_section_data; [assumption|]. intros bytes Hb Hz.
  apply defined_parsed_at; [lia|]. intros r' Hr'. apply defined_section_data; [assumption|]. intros strings _ _.
  apply defined_collect. intros a Ha. apply in_offsets_within in Ha; [|lia]. apply read_symbol_defined; auto; lia.
Qed.

Lemma read_section_defined i : 0 <= i < size (parsed_raw parsed) -> defined (read_section data parsed i).
Proof.
  intros Hi. unfold read_section. apply defined_parsed_at; [assumption|]. intros r Hr.
  apply defined_section_data; [assumption|]. intros b _ _. apply defined_name_at; [assumption|].
  intros; apply defined_ok.
Qed.

Lemma read_image_section_defined s i :
  0 <= i < size (parsed_raw parsed) -> defined (read_image_section data parsed s i).
Proof.
  intros Hi. unfold read_image_section. apply defined_parsed_at; [assumption|]. intros r Hr.
  apply defined_section_data; [assumption|]. intros b _ _. apply defined_name_at; [assumption|]. intros n.
  cbv zeta. elf_step; [|apply defined_ok]. apply defined_bind; [apply read_symbols_defined; assumption|].
  intros; apply defined_ok.
Qed.

Lemma read_relocation_section_defined count sym m r :
  raw_ok r -> defined (read_relocation_section data count sym m r).
Proof.
  intros Hr. unfold read_relocation_section. elf_step; [apply defined_ok|]. elf_step.
  apply defined_section_data; [assumption|]. intros b Hb Hz. apply defined_bind; [|intros; apply defined_ok].
  apply defined_collect. intros a Ha. apply in_offsets_within in Ha; [|lia]. apply read_relocation_defined; auto; lia.
Qed.

Lemma needed_entries_defined entries strings l needed :
  bytes_ok entries -> size entries < 2 ^ 63 -> (forall a, In a l -> 0 <= a /\ a + 16 <= size entries) ->
  defined (needed_entries entries strings l needed).
Proof.
  intros Hb Hz. revert needed; induction l as [|a l IH]; intros needed Hl; cbn [needed_entries]; [apply defined_ok|].
  destruct (Hl a (or_introl eq_refl)).
  repeat elf_step; apply IH; intros; apply Hl; right; assumption.
Qed.

Lemma soname_entries_defined entries strings l soname :
  bytes_ok entries -> size entries < 2 ^ 63 -> (forall a, In a l -> 0 <= a /\ a + 16 <= size entries) ->
  defined (soname_entries entries strings l soname).
Proof.
  intros Hb Hz. revert soname; induction l as [|a l IH]; intros soname Hl; cbn [soname_entries]; [apply defined_ok|].
  destruct (Hl a (or_introl eq_refl)).
  repeat elf_step; apply IH; intros; apply Hl; right; assumption.
Qed.

Lemma read_needed_defined needed r : raw_ok r -> defined (read_needed data (parsed_raw parsed) needed r).
Proof.
  intros Hr. pose proof Hr as (_ & _ & _ & ? & _). unfold read_needed. elf_step; [apply defined_ok|]. elf_step.
  apply defined_section_data; [assumption|]. intros entries Hb Hz.
  apply defined_parsed_at; [lia|]. intros r' Hr'. apply defined_section_data; [assumption|]. intros strings _ _.
  apply needed_entries_defined; auto. intros a Ha. apply in_offsets_within in Ha; lia.
Qed.
End Readers.

Lemma first_of_type_range type raw i :
  i <= first_of_type type raw i <= i + size raw.
Proof.
  revert i; induction raw as [|r raw IH]; intros i; cbn [first_of_type]; [change (size []) with 0; lia|].
  rewrite size_cons. pose proof (size_nonneg raw). destruct (_ =? _); [lia|]. specialize (IH (i + 1)). lia.
Qed.

Lemma last_of_type_range type raw i best :
  0 <= i -> 0 <= best -> 0 <= last_of_type type raw i best.
Proof.
  revert i best; induction raw as [|r raw IH]; intros i best Hi Hb; cbn [last_of_type]; [assumption|].
  apply IH; [lia|]. destruct (_ =? _); assumption.
Qed.

Lemma read_object_defined data origin :
  bytes_ok data -> size data < 2 ^ 63 -> defined (read_object data origin).
Proof.
  intros H Hs. destruct (sections_safe data H Hs) as [D P]. unfold read_object. do 2 elf_step.
  apply defined_bind; [exact D|]. intros parsed E. specialize (P parsed E). cbv zeta.
  apply defined_bind.
  { apply defined_collect. intros i Hi. apply in_indices in Hi. apply read_section_defined; auto. lia. }
  intros secs _. pose proof (first_of_type_range kSectionSymbolTable (parsed_raw parsed) 0). elf_step.
  apply defined_bind; [apply read_symbols_defined; auto; lia|]. intros syms _.
  apply defined_bind; [|intros; apply defined_ok].
  apply (defined_for_each _ (fun _ => True)); auto. intros m r _ Hr.
  apply read_relocation_section_defined; auto. destruct P as [F _]. rewrite Forall_forall in F. auto.
Qed.

Lemma read_image_defined data origin :
  bytes_ok data -> size data < 2 ^ 63 -> defined (read_image data origin).
Proof.
  intros H Hs. destruct (sections_safe data H Hs) as [D P]. unfold read_image. do 2 elf_step.
  apply defined_bind; [exact D|]. intros parsed E. specialize (P parsed E). elf_step. apply defined_bind.
  { apply (defined_for_each _ (fun _ => True)); auto. intros s i _ Hi. apply in_indices in Hi.
    apply read_image_section_defined; auto. lia. }
  intros secs _. apply defined_bind; [|intros; elf_step; apply defined_ok].
  apply (defined_for_each _ (fun _ => True)); auto. intros s r _ Hr.
  apply read_needed_defined; auto. destruct P as [F _]. rewrite Forall_forall in F. auto.
Qed.

Lemma read_stub_defined data origin :
  bytes_ok data -> size data < 2 ^ 63 -> defined (read_stub data origin).
Proof.
  intros H Hs. destruct (sections_safe data H Hs) as [D P]. unfold read_stub.
  apply defined_bind; [exact D|]. intros parsed E. specialize (P parsed E). cbv zeta.
  pose proof (size_nonneg (parsed_raw parsed)).
  pose proof (last_of_type_range kSectionDynamicSymbols (parsed_raw parsed) 0 (size (parsed_raw parsed)) ltac:(lia) ltac:(lia)).
  pose proof (last_of_type_range kSectionDynamic (parsed_raw parsed) 0 (size (parsed_raw parsed)) ltac:(lia) ltac:(lia)).
  elf_step. apply defined_bind; [apply read_symbols_defined; auto; lia|]. intros syms _.
  apply (defined_parsed_at parsed); auto; try lia. intros r Hr. pose proof Hr as (_ & _ & _ & ? & _). elf_step.
  apply (defined_parsed_at parsed); auto; try lia. intros r' Hr'. apply defined_section_data; auto. intros strings _ _.
  apply defined_section_data; auto. intros entries Hb Hz. apply defined_bind.
  - apply soname_entries_defined; auto. intros a Ha. apply in_offsets_within in Ha; lia.
  - intros; elf_step. apply defined_ok.
Qed.

(** The string [s] stands at [a] in the table, NUL-terminated. *)
Definition string_stored (table : Bytes) (a : Z) (s : string) : Prop :=
  let b := bytes_of_string s in
  0 <= a /\ a + size b < size table /\ sub table a (size b) = b /\
  byte_at table (a + size b) = 0 /\ ~ In 0 b.

Lemma byte_at_in_sub (l : Bytes) a n i :
  0 <= a -> 0 <= n -> a + n <= size l -> a <= i < a + n -> In (byte_at l i) (sub l a n).
Proof.
  intros Ha Hn Hl Hi. replace (byte_at l i) with (byte_at (sub l a n) (i - a))
    by (rewrite byte_at_sub by lia; f_equal; lia).
  unfold byte_at. replace (i - a <? 0) with false by lia. apply nth_In.
  pose proof (size_sub l a n). unfold size in *. lia.
Qed.

Lemma in_sub_byte_at (l : Bytes) a n b :
  0 <= a -> 0 <= n -> a + n <= size l -> In b (sub l a n) -> exists i, a <= i < a + n /\ byte_at l i = b.
Proof.
  intros Ha Hn Hl Hin. apply (In_nth _ _ 0) in Hin as (k & Hk & E).
  pose proof (size_sub l a n Ha Hn Hl) as S. unfold size in S.
  exists (a + Z.of_nat k). split; [lia|]. rewrite <- E.
  transitivity (byte_at (sub l a n) (Z.of_nat k)); [rewrite byte_at_sub by lia; reflexivity|].
  unfold byte_at. replace (Z.of_nat k <? 0) with false by lia. rewrite Nat2Z.id. reflexivity.
Qed.

Lemma string_at_iff table a s :
  bytes_ok table -> 0 <= a -> string_at table a = Ok s <-> string_stored table a s.
Proof.
  intros H Ha. unfold string_at, string_stored.
  destruct (string_end_spec (List.length table) table a Ha) as (e & E & H1 & H2 & H3 & H4).
  rewrite E. cbn [bind]. split.
  - intros R. inv_ok R. apply subspan_inv in E0 as (? & ? & ? & ->). to_prop. rewrite <- R.
    rewrite bytes_of_string_of_bytes by auto with bytes. rewrite size_sub by lia.
    replace (a + (e - a)) with e by lia.
    split; [assumption|]. split; [lia|]. split; [reflexivity|]. split; [apply H4; unfold size in *; lia|].
    intros Hin. apply in_sub_byte_at in Hin as (i & Hi & Ei); try lia. apply (H3 i); [lia|assumption].
  - intros (_ & Hf & Hsub & Hz & Hnz). pose proof (size_nonneg (bytes_of_string s)).
    set (n := size (bytes_of_string s)) in *.
    assert (Ee : e = a + n).
    { destruct (Z.lt_trichotomy e (a + n)) as [L|[L|L]]; [|assumption|].
      - exfalso. apply Hnz. rewrite <- Hsub. rewrite <- (H4 ltac:(unfold size in *; lia) ltac:(lia)).
        apply byte_at_in_sub; lia.
      - exfalso. apply (H3 (a + n)); [lia|assumption]. }
    rewrite require_true by lia. rewrite require_true by lia. rewrite subspan_ok by lia. cbn [bind].
    replace (e - a) with n by lia. rewrite Hsub, string_of_bytes_of_string. reflexivity.
Qed.

(** ** Properties *)

(** No file makes an ELF reader leave its buffer: reading an object, a
    linked image or a stub from arbitrary bytes returns or throws. *)
Theorem elf_readers_safe data origin :
  bytes_ok data -> size data < 2 ^ 63 ->
  defined (read_object data origin) /\ defined (read_image data origin) /\ defined (read_stub data origin).
Proof.
  intros H Hs. split; [apply read_object_defined; assumption|].
  split; [apply read_image_defined; assumption|apply read_stub_defined; assumption].
Qed.

Lemma elf_readers_safe_witness :
  defined (read_object [0x7f; 0x45; 0x4c] "a.o") /\ defined (read_image [0x7f; 0x45; 0x4c] "a.o") /\
  defined (read_stub [0x7f; 0x45; 0x4c] "a.o").
Proof.
  apply (elf_readers_safe [0x7f; 0x45; 0x4c] "a.o"); [repeat constructor; lia|reflexivity].
Defined.

(** A string-table lookup returns [s] exactly when the table holds the
    bytes of [s], without a NUL among them, followed by a NUL at that offset;
    in particular an unterminated string or an offset outside is refused. *)
Theorem string_at_exact table a s :
  bytes_ok table -> 0 <= a -> string_at table a = Ok s <-> string_stored table a s.
Proof. apply string_at_iff. Qed.

Lemma string_at_exact_witness : string_at [0; 97; 98; 0] 1 = Ok "ab"%string <-> string_stored [0; 97; 98; 0] 1 "ab".
Proof. apply (string_at_exact [0; 97; 98; 0] 1 "ab"); [repeat constructor; lia|lia]. Defined.
