(* ===== verification/ModuleTables.v ===== *)
(** * The tables of a PS5 module ([src/tooling/native/sce_module_writer.cpp], up to [write_executable])

    The encodings a converted module is made of: symbol identifiers ([nid]),
    the string table, the System V hash table, relocation and dynamic tables,
    parameter blocks, notes, comment and version records, and the ELF and
    program headers. *)

From Stdlib Require Import ZArith List Bool Lia String Ascii.
From S2P Require Import Prelude Bytes Hash ElfObject.
Import ListNotations.
Open Scope Z_scope.

Definition kPage : Z := 0x4000.
Definition kTypeDynamicExecutable : Z := 0xfe10.
Definition kProgramLoad : Z := 1.
Definition kProgramDynamic : Z := 2.
Definition kProgramNote : Z := 4.
Definition kProgramTls : Z := 7.
Definition kProgramProcParam : Z := 0x61000001.
Definition kProgramGnuEhFrame : Z := 0x6474e550.
Definition kProgramGnuRelro : Z := 0x6474e552.
Definition kProgramComment : Z := 0x6fffff00.
Definition kProgramVersion : Z := 0x6fffff01.
Definition kPhFlagExecute : Z := 1.
Definition kPhFlagWrite : Z := 2.
Definition kPhFlagRead : Z := 4.

Definition kDynamicNeeded : Z := 1.
Definition kDynamicPltRelSize : Z := 2.
Definition kDynamicPltGot : Z := 3.
Definition kDynamicHash : Z := 4.
Definition kDynamicStringTable : Z := 5.
Definition kDynamicSymbolTable : Z := 6.
Definition kDynamicRela : Z := 7.
Definition kDynamicRelaSize : Z := 8.
Definition kDynamicRelaEntry : Z := 9.
Definition kDynamicStringSize : Z := 10.
Definition kDynamicSymbolEntry : Z := 11.
Definition kDynamicInit : Z := 12.
Definition kDynamicFini : Z := 13.
Definition kDynamicPltRel : Z := 20.
Definition kDynamicDebug : Z := 21.
Definition kDynamicJumpRela : Z := 23.
Definition kDynamicInitArray : Z := 25.
Definition kDynamicFiniArray : Z := 26.
Definition kDynamicInitArraySize : Z := 27.
Definition kDynamicFiniArraySize : Z := 28.
Definition kDynamicPreinitArray : Z := 32.
Definition kDynamicPreinitArraySize : Z := 33.
Definition kDynamicRelaCount : Z := 0x6ffffff9.
Definition kDynamicModuleAttributes : Z := 0x61000011.
Definition kDynamicImportLibraryAttributes : Z := 0x61000019.
Definition kDynamicHashSize : Z := 0x6100003d.
Definition kDynamicSymbolTableSize : Z := 0x6100003f.
Definition kDynamicOriginalFilename : Z := 0x61000041.
Definition kDynamicModuleInfo : Z := 0x61000043.
Definition kDynamicNeededModule : Z := 0x61000045.
Definition kDynamicImportLibrary : Z := 0x61000049.
Definition kRelRelative : Z := 8.

(** ** Alignment *)

Definition align_up (value alignment : Z) : Z :=
  if alignment <=? 1 then value else u64 (u64 (value + alignment - 1) / alignment * alignment).

Definition congruent_offset (minimum address : Z) : Z :=
  let residue := address mod kPage in
  if minimum <=? residue then residue
  else u64 (align_up (minimum - residue) kPage + residue).

(** ** Field access *)

Definition mw_write_u16 (data : Bytes) (at_ value : Z) : outcome Bytes :=
  do! require (u64 (at_ + 2) <=? size data) "u16 write outside output" in
  let! data := store data at_ value in
  store data (at_ + 1) (Z.shiftr value 8).

Definition mw_write_u32 (data : Bytes) (at_ value : Z) : outcome Bytes :=
  checked_store "u32 write outside output" 4 data at_ value.

Definition mw_write_u64 (data : Bytes) (at_ value : Z) : outcome Bytes :=
  checked_store "u64 write outside output" 8 data at_ value.

Definition mw_read_u32 (data : Bytes) (at_ : Z) : outcome Z :=
  checked_load "u32 read outside input" 4 data at_.

Definition mw_read_u64 (data : Bytes) (at_ : Z) : outcome Z :=
  checked_load "u64 read outside input" 8 data at_.

Definition mw_copy_bytes (target : Bytes) (at_ : Z) (source : Bytes) : outcome Bytes :=
  checked_copy target at_ source.

(** [std::copy] with no check of its own. *)
Definition copy_raw (target : Bytes) (at_ : Z) (source : Bytes) : outcome Bytes :=
  if (0 <=? at_) && (at_ + size source <=? size target) then Ok (put target at_ source) else Undefined.

(** A run of byte stores at literal positions. *)
Definition store_all (data : Bytes) (l : list (Z * Z)) : outcome Bytes :=
  for_each (fun d w => store d (fst w) (snd w)) data l.

(** ** Sections *)

Definition section (image : Image) (name : string) : outcome Section_ :=
  match find (fun s => String.eqb (sec_name s) name) (image_sections image) with
  | Some s => Ok s
  | None => Throw ("LLVM-linked image lacks required section " ++ name)
  end.

Definition optional_section (image : Image) (name : string) : option Section_ :=
  find (fun s => String.eqb (sec_name s) name) (image_sections image).

Definition starts_with (name prefix_ : string) : bool := String.prefix prefix_ name.

Definition metadata_section (name : string) : bool :=
  String.eqb name ".dynstr" || String.eqb name ".dynsym" || String.eqb name ".dynamic" ||
  String.eqb name ".hash" || String.eqb name ".gnu.hash" || starts_with name ".rela.".

Definition relro_section (name : string) : bool :=
  String.eqb name ".got" || String.eqb name ".got.plt" || starts_with name ".data.rel.ro" ||
  starts_with name ".preinit_array" || starts_with name ".init_array" || starts_with name ".fini_array".

(** ** Symbol identifiers *)

Definition id_alphabet : string := "ABCDEFGHIJKLMNOPQRSTUVWXYZabcdefghijklmnopqrstuvwxyz0123456789+-".
Definition base64_alphabet : string := "ABCDEFGHIJKLMNOPQRSTUVWXYZabcdefghijklmnopqrstuvwxyz0123456789+/".

(** [alphabet\[i\]]; every index of the source is below 64. *)
Definition letter (alphabet : string) (i : Z) : ascii :=
  match String.get (Z.to_nat i) alphabet with Some c => c | None => Ascii.zero end.

(** [while (id > 0)]: a positive [int] has at most six base-64 digits. *)
Fixpoint encode_id_loop (fuel : nat) (id : Z) (output : string) : string :=
  match fuel with
  | O => output
  | S fuel' =>
      if 0 <? id then encode_id_loop fuel' (id / 64) (String (letter id_alphabet (id mod 64)) output)
      else output
  end.

Definition encode_id (id : Z) : string := if id =? 0 then "A" else encode_id_loop 6 id "".

Definition nid_suffix : Bytes :=
  [0x51; 0x8d; 0x64; 0xa6; 0x35; 0xde; 0xd8; 0xc1; 0xe6; 0xb0; 0x39; 0xb1; 0xc3; 0xe5; 0x52; 0x30].

(** The state of the base-64 loop: the bit accumulator, its bit count, and the
    letters so far (most recent last). *)
Record NidState := { nid_bits : Z; nid_bit_count : Z; nid_result : list ascii }.

(** [while (bit_count >= 6 && result.size() < 11)]: at most two rounds, since
    fewer than 6 + 8 bits are pending. *)
Fixpoint nid_drain (fuel : nat) (s : NidState) : NidState :=
  match fuel with
  | O => s
  | S fuel' =>
      if (6 <=? nid_bit_count s) && (size (nid_result s) <? 11) then
        let bit_count := nid_bit_count s - 6 in
        nid_drain fuel' {| nid_bits := nid_bits s; nid_bit_count := bit_count;
          nid_result := nid_result s ++ [letter base64_alphabet (Z.land (Z.shiftr (nid_bits s) bit_count) 0x3f)] |}
      else s
  end.

Definition nid_byte (s : NidState) (byte : Z) : NidState :=
  nid_drain 2 {| nid_bits := Z.lor (u32 (Z.shiftl (nid_bits s) 8)) byte;
                 nid_bit_count := nid_bit_count s + 8; nid_result := nid_result s |}.

(** [result.resize(11)] *)
Definition resize (l : list ascii) (n : nat) : list ascii := firstn n l ++ repeat Ascii.zero (n - List.length l).

Definition nid_encode (value : Bytes) : string :=
  let s := fold_left nid_byte value {| nid_bits := 0; nid_bit_count := 0; nid_result := [] |} in
  let result :=
    if (size (nid_result s) <? 11) && (0 <? nid_bit_count s) && (nid_bit_count s <? 6)
    then nid_result s ++ [letter base64_alphabet (Z.land (u32 (Z.shiftl (nid_bits s) (6 - nid_bit_count s))) 0x3f)]
    else nid_result s in
  string_of_list_ascii (map (fun c => if Ascii.eqb c "/" then "-"%char else c) (resize result 11)).

Definition nid (name : string) : outcome string :=
  let! digest := sha1 (bytes_of_string name ++ nid_suffix) in
  Ok (nid_encode (rev (firstn 8 digest))).

(** ** String table *)

Record StringTable := { st_data : Bytes; st_offsets : list (string * Z) }.

Definition string_table : StringTable := {| st_data := [0]; st_offsets := [] |}.

Definition find_offset (t : StringTable) (value : string) : option Z :=
  option_map snd (find (fun e => String.eqb (fst e) value) (st_offsets t)).

Definition st_add (t : StringTable) (value : string) : Z * StringTable :=
  match find_offset t value with
  | Some offset => (offset, t)
  | None =>
      let offset := u32 (size (st_data t)) in
      (offset, {| st_data := st_data t ++ bytes_of_string value ++ [0];
                  st_offsets := (value, offset) :: st_offsets t |})
  end.

(** ** Hash table *)

Definition elf_hash_step (hash character : Z) : Z :=
  let hash := u32 (u32 (Z.shiftl hash 4) + character) in
  let carry := Z.land hash 0xf0000000 in
  let hash := if negb (carry =? 0) then Z.lxor hash (Z.shiftr carry 24) else hash in
  Z.land hash (u32 (Z.lnot carry)).

Definition elf_hash (name : string) : Z := fold_left elf_hash_step (bytes_of_string name) 0.

(** One round of [for (i = count; i-- > 1;)]. *)
Definition hash_insert (names : list string) (count : Z) (output : Bytes) (i : Z) : outcome Bytes :=
  let! name := vector_at names i in
  let bucket := elf_hash name mod count in
  let! previous := mw_read_u32 output (8 + bucket * 4) in
  let! output := mw_write_u32 output (8 + count * 4 + i * 4) previous in
  mw_write_u32 output (8 + bucket * 4) (u32 i).

Definition build_sysv_hash (names : list string) : outcome Bytes :=
  do! require (negb (size names =? 0)) "dynamic symbol table cannot be empty" in
  let count := size names in
  let output := zeros (8 + count * 8) in
  let! output := mw_write_u32 output 0 (u32 count) in
  let! output := mw_write_u32 output 4 (u32 count) in
  for_each (hash_insert names count) output (rev (indices 1 (List.length names - 1))).

(** ** Fixed blocks *)

Definition build_process_parameters (module_sdk companion_sdk : Z) : outcome Bytes :=
  let output := zeros 0x60 in
  let! output := mw_write_u64 output 0 0x60 in
  let! output := store_all output [(8, 0x4f); (9, 0x52); (10, 0x42); (11, 0x49)] in
  let! output := mw_write_u32 output 0x0c 5 in
  let! output := mw_write_u32 output 0x10 companion_sdk in
  let! output := mw_write_u32 output 0x14 module_sdk in
  mw_write_u32 output 0x58 1.

Record ParameterBlocks := {
  pb_data : Bytes;
  pb_offsets : list Z;
  pb_heap_size : Z;
  pb_heap_extended : Z
}.

Definition block_sizes : list Z := [0xa8; 0x38; 0x10; 0x78; 0xc0; 0x38].
Definition block_counts : list Z := [0x000000010000000e; 0; 0; 2; 3; 1].

(** The running cursor: each block's offset, and the end. *)
Fixpoint running_offsets (cursor : Z) (sizes : list Z) : list Z * Z :=
  match sizes with
  | [] => ([], cursor)
  | s :: sizes' => let '(offsets, last_) := running_offsets (cursor + s) sizes' in (cursor :: offsets, last_)
  end.

Definition write_block (data : Bytes) (b : Z * (Z * Z)) : outcome Bytes :=
  let '(offset, (size_, count)) := b in
  let! data := mw_write_u64 data offset size_ in
  if negb (count =? 0) then mw_write_u64 data (offset + 8) count else Ok data.

Definition build_parameter_blocks : outcome ParameterBlocks :=
  let '(offsets, cursor) := running_offsets 0 block_sizes in
  let data := zeros (cursor + 16) in
  let! data := for_each write_block data (combine offsets (combine block_sizes block_counts)) in
  let! data := mw_write_u64 data cursor (2 ^ 64 - 1) in
  let! data := mw_write_u32 data (cursor + 8) 1 in
  Ok {| pb_data := data; pb_offsets := offsets; pb_heap_size := cursor; pb_heap_extended := cursor + 8 |}.

Definition build_note : outcome Bytes :=
  let! output := mw_write_u32 (zeros 0x24) 0 4 in
  let! output := mw_write_u32 output 4 0x14 in
  let! output := mw_write_u32 output 8 3 in
  store_all output [(12, 0x47); (13, 0x4e); (14, 0x55)].

Definition build_tail_note : outcome Bytes :=
  let! output := mw_write_u32 (zeros 0x18) 0 4 in
  let! output := mw_write_u32 output 4 8 in
  let! output := mw_write_u32 output 8 3 in
  store_all output [(12, 0x53); (13, 0x49); (14, 0x45)].

Definition build_comment (file_name : string) : outcome Bytes :=
  let text := bytes_of_string file_name ++ [0] in
  let output := zeros (align_up (12 + size text) 4) in
  let! output := store_all output [(0, 0x50); (1, 0x41); (2, 0x54); (3, 0x48)] in
  let! output := mw_write_u32 output 4 (u32 (size output - 8)) in
  let! output := mw_write_u32 output 8 (u32 (size text)) in
  mw_copy_bytes output 12 text.

Definition write_u32_be (data : Bytes) (at_ value : Z) : outcome Bytes :=
  do! require (u64 (at_ + 4) <=? size data) "big-endian write outside output" in
  let! data := store data at_ (Z.shiftr value 24) in
  let! data := store data (at_ + 1) (Z.shiftr value 16) in
  let! data := store data (at_ + 2) (Z.shiftr value 8) in
  store data (at_ + 3) value.

(** One version record appended to the output. *)
Definition version_record (module_sdk : Z) (output : Bytes) (component : string) : outcome Bytes :=
  let name := bytes_of_string (component ++ ":") in
  let body := 1 + size name + 16 in
  let start := size output in
  let output := output ++ zeros (4 + body) in
  let! output := mw_write_u16 output (start + 2) (u16 body) in
  let! output := store output (start + 4) 8 in
  let! output := copy_raw output (start + 5) name in
  for_each (fun output i =>
      let at_ := start + 5 + size name + i * 8 in
      let! output := write_u32_be output at_ module_sdk in
      write_u32_be output (at_ + 4) 1)
    output (indices 0 2).

Definition build_version (components : list string) (module_sdk : Z) : outcome Bytes :=
  for_each (version_record module_sdk) [] components.

(** ** Relocations and the dynamic table *)

Record DynamicRelocation := { dr_offset : Z; dr_info : Z; dr_addend : Z }.

Definition read_dynamic_relocation (data : Bytes) (at_ : Z) : outcome DynamicRelocation :=
  let! offset := mw_read_u64 data at_ in
  let! info := mw_read_u64 data (at_ + 8) in
  let! addend := mw_read_u64 data (at_ + 16) in
  Ok {| dr_offset := offset; dr_info := info; dr_addend := addend |}.

Definition read_relocations (input : option Section_) : outcome (list DynamicRelocation) :=
  match input with
  | None => Ok []
  | Some s =>
      do! require ((sec_entry_size s =? 24) && (size (sec_data s) mod 24 =? 0))
            "LLVM relocation table has an unsupported layout" in
      collect (read_dynamic_relocation (sec_data s)) (offsets_below (size (sec_data s)) 24)
  end.

Definition write_relocation (relocations : list DynamicRelocation) (output : Bytes) (i : Z) : outcome Bytes :=
  let! r := vector_at relocations i in
  let! output := mw_write_u64 output (i * 24) (dr_offset r) in
  let! output := mw_write_u64 output (i * 24 + 8) (dr_info r) in
  mw_write_u64 output (i * 24 + 16) (dr_addend r).

Definition write_relocations (relocations : list DynamicRelocation) : outcome Bytes :=
  for_each (write_relocation relocations) (zeros (size relocations * 24))
    (indices 0 (List.length relocations)).

Fixpoint dynamic_lookup (data : Bytes) (wanted : Z) (l : list Z) : outcome Z :=
  match l with
  | [] => Ok 0
  | at_ :: l' =>
      let! raw := mw_read_u64 data at_ in
      let tag := s64 raw in
      if tag =? wanted then mw_read_u64 data (at_ + 8)
      else if tag =? 0 then Ok 0
      else dynamic_lookup data wanted l'
  end.

Definition dynamic_value (dynamic : Section_) (wanted : Z) : outcome Z :=
  do! require ((sec_entry_size dynamic =? 16) && (size (sec_data dynamic) mod 16 =? 0))
        "LLVM dynamic table has an unsupported layout" in
  dynamic_lookup (sec_data dynamic) wanted (offsets_below (size (sec_data dynamic)) 16).

Record ModuleRecord := { mr_id : Z; mr_soname : Z; mr_module_name : Z }.
Record LibraryRecord := { lr_id : Z; lr_module_id : Z; lr_name : Z }.

Definition library_entries (module : ModuleRecord) (library : LibraryRecord) : list (Z * Z) :=
  if negb (lr_module_id library =? mr_id module) then []
  else
    [ (kDynamicImportLibrary,
       Z.lor (Z.lor (lr_name library) (Z.shiftl 1 32)) (u64 (Z.shiftl (u64 (lr_id library)) 48)));
      (kDynamicImportLibraryAttributes, Z.lor (u64 (Z.shiftl (u64 (lr_id library)) 48)) 9) ].

Definition module_entries (libraries : list LibraryRecord) (module : ModuleRecord) : list (Z * Z) :=
  (kDynamicNeeded, mr_soname module) ::
  (kDynamicNeededModule,
   Z.lor (Z.lor (mr_module_name module) (Z.shiftl 1 32)) (u64 (Z.shiftl (u64 (mr_id module)) 48))) ::
  flat_map (library_entries module) libraries.

(** The parameters of [build_dynamic] after the records. *)
Record DynamicFields := {
  df_module_info_name : Z;
  df_original_file_name : Z;
  df_symbol_table : Z;
  df_string_table : Z;
  df_string_size : Z;
  df_hash_table : Z;
  df_hash_size : Z;
  df_jump_relocations : Z;
  df_jump_relocations_size : Z;
  df_got : Z;
  df_symbol_table_size : Z;
  df_relocations : Z;
  df_relocations_size : Z;
  df_relative_count : Z;
  df_preinit : Z;
  df_preinit_size : Z;
  df_init_array : Z;
  df_init_array_size : Z;
  df_fini_array : Z;
  df_fini_array_size : Z;
  df_init : Z;
  df_fini : Z
}.

(** The entries after the module records. *)
Definition fixed_entries (f : DynamicFields) : list (Z * Z) :=
  [ (kDynamicModuleInfo, Z.lor (df_module_info_name f) (Z.shiftl 1 32));
    (kDynamicModuleAttributes, 0);
    (kDynamicOriginalFilename, df_original_file_name f);
    (kDynamicDebug, 0);
    (kDynamicRela, df_relocations f);
    (kDynamicRelaSize, df_relocations_size f);
    (kDynamicRelaEntry, 24);
    (kDynamicRelaCount, df_relative_count f);
    (kDynamicJumpRela, df_jump_relocations f);
    (kDynamicPltRelSize, df_jump_relocations_size f);
    (kDynamicPltGot, df_got f);
    (kDynamicPltRel, kDynamicRela);
    (kDynamicSymbolTable, df_symbol_table f);
    (kDynamicSymbolEntry, 24);
    (kDynamicStringTable, df_string_table f);
    (kDynamicStringSize, df_string_size f);
    (kDynamicHash, df_hash_table f);
    (kDynamicPreinitArray, df_preinit f);
    (kDynamicPreinitArraySize, df_preinit_size f);
    (kDynamicInitArray, df_init_array f);
    (kDynamicInitArraySize, df_init_array_size f);
    (kDynamicFiniArray, df_fini_array f);
    (kDynamicFiniArraySize, df_fini_array_size f);
    (kDynamicInit, df_init f);
    (kDynamicFini, df_fini f);
    (kDynamicSymbolTableSize, df_symbol_table_size f);
    (kDynamicHashSize, df_hash_size f);
    (0, 0) ].

Definition dynamic_entries (modules : list ModuleRecord) (libraries : list LibraryRecord)
  (f : DynamicFields) : list (Z * Z) :=
  flat_map (module_entries libraries) modules ++ fixed_entries f.

Definition write_dynamic_entry (entries : list (Z * Z)) (output : Bytes) (i : Z) : outcome Bytes :=
  let! e := vector_at entries i in
  let! output := mw_write_u64 output (i * 16) (u64 (fst e)) in
  mw_write_u64 output (i * 16 + 8) (snd e).

Definition build_dynamic (modules : list ModuleRecord) (libraries : list LibraryRecord)
  (f : DynamicFields) : outcome Bytes :=
  let entries := dynamic_entries modules libraries f in
  for_each (write_dynamic_entry entries) (zeros (size entries * 16)) (indices 0 (List.length entries)).

(** ** Headers *)

Record ProgramHeader := {
  ph_type : Z;
  ph_flags : Z;
  ph_offset : Z;
  ph_address : Z;
  ph_file_size : Z;
  ph_memory_size : Z;
  ph_alignment : Z
}.

Definition write_program_header (output : Bytes) (index_ : Z) (h : ProgramHeader) : outcome Bytes :=
  let at_ := 0x40 + index_ * 0x38 in
  let! output := mw_write_u32 output at_ (ph_type h) in
  let! output := mw_write_u32 output (at_ + 4) (ph_flags h) in
  let! output := mw_write_u64 output (at_ + 8) (ph_offset h) in
  let! output := mw_write_u64 output (at_ + 16) (ph_address h) in
  let! output := mw_write_u64 output (at_ + 24) (ph_address h) in
  let! output := mw_write_u64 output (at_ + 32) (ph_file_size h) in
  let! output := mw_write_u64 output (at_ + 40) (ph_memory_size h) in
  mw_write_u64 output (at_ + 48) (ph_alignment h).

Definition write_elf_header (output : Bytes) (entry : Z) : outcome Bytes :=
  do! require (kPage <=? size output) "output cannot hold ELF header" in
  let! output := store_all output
    [(0, 0x7f); (1, 0x45); (2, 0x4c); (3, 0x46); (4, 2); (5, 1); (6, 1); (7, 9); (8, 2)] in
  let! output := mw_write_u16 output 0x10 kTypeDynamicExecutable in
  let! output := mw_write_u16 output 0x12 0x3e in
  let! output := mw_write_u32 output 0x14 1 in
  let! output := mw_write_u64 output 0x18 entry in
  let! output := mw_write_u64 output 0x20 0x40 in
  let! output := mw_write_u64 output 0x28 0 in
  let! output := mw_write_u32 output 0x30 0 in
  let! output := mw_write_u16 output 0x34 0x40 in
  let! output := mw_write_u16 output 0x36 0x38 in
  let! output := mw_write_u16 output 0x38 14 in
  let! output := mw_write_u16 output 0x3a 0x40 in
  let! output := mw_write_u16 output 0x3c 0 in
  mw_write_u16 output 0x3e 0.
