(* ===== verification/StringTables.v ===== *)
(** * Interning and symbol identifiers of a PS5 module

    The string table keeps every string it was given readable at the offset it
    returned; [encode_id] and [nid] are injective encodings, shown by decoding
    them. *)

From Stdlib Require Import ZArith List Bool Lia String Ascii.
From S2P Require Import Prelude Bytes Hash ElfObject ModuleTables.
Import ListNotations.
Open Scope Z_scope.

(** ** String table *)

(** A C string: no NUL among its bytes. *)
Definition c_string (s : string) : Prop := ~ In 0 (bytes_of_string s).

(** Every interned string reads back at its offset; the table fits 32 bits. *)
Record string_table_ok (t : StringTable) : Prop := {
  st_bytes : bytes_ok (st_data t);
  st_size : 0 < size (st_data t) <= 2 ^ 32;
  st_interned : forall v o, In (v, o) (st_offsets t) -> string_stored (st_data t) o v
}.

Lemma string_stored_app table more o s :
  string_stored table o s -> string_stored (table ++ more) o s.
Proof.
  intros (Ho & Hf & Hs & Hz & Hn). pose proof (size_nonneg more). pose proof (size_nonneg (bytes_of_string s)).
  unfold string_stored. rewrite size_app.
  assert (B : forall i, 0 <= i < size table -> byte_at (table ++ more) i = byte_at table i)
    by (intros i Hi; rewrite byte_at_app; replace (i <? size table) with true by lia; reflexivity).
  split; [assumption|]. split; [lia|]. split; [|split; [rewrite B by lia; assumption|assumption]].
  rewrite <- Hs at 2. apply sub_ext; rewrite ?size_app; try lia. intros i Hi. apply B. lia.
Qed.

Lemma string_stored_new table s :
  c_string s -> string_stored (table ++ bytes_of_string s ++ [0]) (size table) s.
Proof.
  intros Hn. pose proof (size_nonneg table). pose proof (size_nonneg (bytes_of_string s)) as Hs.
  unfold string_stored. rewrite !size_app. change (size [0]) with 1.
  split; [assumption|]. split; [lia|]. split; [|split; [|assumption]].
  - apply bytes_ext; rewrite size_sub by (rewrite ?size_app; change (size [0]) with 1; lia); [reflexivity|].
    intros i Hi. rewrite byte_at_sub, byte_at_app by lia. replace (size table + i <? size table) with false by lia.
    rewrite byte_at_app. replace (size table + i - size table) with i by lia.
    replace (i <? size (bytes_of_string s)) with true by lia. reflexivity.
  - rewrite byte_at_app. replace (_ <? size table) with false by lia.
    rewrite byte_at_app. replace (_ <? size (bytes_of_string s)) with false by lia.
    replace (_ - _ - _) with 0 by lia. reflexivity.
Qed.

Lemma find_offset_in t v o : find_offset t v = Some o -> In (v, o) (st_offsets t).
Proof.
  unfold find_offset. destruct (find _ _) as [[v' o']|] eqn:E; [|discriminate].
  intros H. injection H as <-. apply find_some in E as [Hin He]. apply String.eqb_eq in He.
  cbn in He. subst. assumption.
Qed.

Lemma string_table_initial : string_table_ok string_table.
Proof. split; [repeat constructor; lia|cbn; lia|intros ? ? []]. Qed.

Lemma st_add_ok t v o t' :
  string_table_ok t -> c_string v -> size (st_data t) + size (bytes_of_string v) + 1 <= 2 ^ 32 ->
  st_add t v = (o, t') ->
  string_table_ok t' /\ string_stored (st_data t') o v /\ find_offset t' v = Some o /\
  exists more, st_data t' = st_data t ++ more.
Proof.
  intros [Hb Hs Hi] Hc Hz E. unfold st_add in E. destruct (find_offset t v) as [o'|] eqn:F.
  - injection E as <- <-. split; [split; assumption|].
    split; [apply Hi, find_offset_in, F|]. split; [assumption|]. exists []. rewrite app_nil_r. reflexivity.
  - pose proof (size_nonneg (bytes_of_string v)).
    rewrite u32_small in E by lia. injection E as <- <-. cbn [st_data st_offsets].
    assert (N : string_stored (st_data t ++ bytes_of_string v ++ [0]) (size (st_data t)) v)
      by (apply string_stored_new; assumption).
    split; [|split; [exact N|split; [|eexists; reflexivity]]].
    + split; cbn [st_data st_offsets].
      * rewrite !bytes_ok_app. repeat split; auto with bytes. repeat constructor; lia.
      * rewrite !size_app. change (size [0]) with 1. lia.
      * intros w p [Hin|Hin]; [injection Hin as <- <-; exact N|]. apply string_stored_app. auto.
    + unfold find_offset. cbn [st_offsets find fst]. rewrite String.eqb_refl. reflexivity.
Qed.

(** The string table never loses a string: adding [v] to a well-formed
    table returns an offset at which the ELF reader's lookup finds [v], keeps
    every earlier lookup, keeps the table well formed, and adding [v] again
    returns the same offset and the same table. *)
Theorem string_table_interns t v o t' :
  string_table_ok t -> c_string v -> size (st_data t) + size (bytes_of_string v) + 1 <= 2 ^ 32 ->
  st_add t v = (o, t') ->
  string_table_ok t' /\ string_at (st_data t') o = Ok v /\ st_add t' v = (o, t') /\
  forall a s, 0 <= a -> string_at (st_data t) a = Ok s -> string_at (st_data t') a = Ok s.
Proof.
  intros Ht Hc Hz E. destruct (st_add_ok t v o t' Ht Hc Hz E) as (Ht' & Hst & Hf & more & Hm).
  split; [assumption|]. split; [|split].
  - apply string_at_iff; [apply (st_bytes _ Ht')|apply Hst|exact Hst].
  - unfold st_add. rewrite Hf. reflexivity.
  - intros a s Ha Hs. apply string_at_iff in Hs; [|apply (st_bytes _ Ht)|assumption].
    apply string_at_iff; [apply (st_bytes _ Ht')|assumption|]. rewrite Hm. apply string_stored_app, Hs.
Qed.

Lemma string_table_interns_witness :
  let t := snd (st_add string_table "libkernel") in
  string_table_ok (snd (st_add t "eboot")) /\
  string_at (st_data (snd (st_add t "eboot"))) 11 = Ok "eboot"%string /\
  st_add (snd (st_add t "eboot")) "eboot" = (11, snd (st_add t "eboot")) /\
  forall a s, 0 <= a -> string_at (st_data t) a = Ok s -> string_at (st_data (snd (st_add t "eboot"))) a = Ok s.
Proof.
  apply (string_table_interns (snd (st_add string_table "libkernel")) "eboot" 11).
  - apply (st_add_ok string_table "libkernel" 1); [apply string_table_initial| | |reflexivity].
    + vm_compute. intros H. repeat (destruct H as [H|H]; [discriminate|]). exact H.
    + vm_compute. discriminate.
  - vm_compute. intros H. repeat (destruct H as [H|H]; [discriminate|]). exact H.
  - vm_compute. discriminate.
  - reflexivity.
Defined.

(** ** Base-64 letters *)

(** The position of a letter in an alphabet. *)
Fixpoint letter_index (alphabet : string) (c : ascii) (i : Z) : Z :=
  match alphabet with
  | EmptyString => i
  | String d rest => if Ascii.eqb c d then i else letter_index rest c (i + 1)
  end.

Definition letter_value (c : ascii) : Z := letter_index id_alphabet c 0.

Lemma below_64 (P : Z -> Prop) : Forall P (indices 0 64) -> forall i, 0 <= i < 64 -> P i.
Proof. intros H i Hi. rewrite Forall_forall in H. apply H, in_indices. lia. Qed.

Lemma letter_value_letter i : 0 <= i < 64 -> letter_value (letter id_alphabet i) = i.
Proof. revert i. apply (below_64 (fun i => letter_value (letter id_alphabet i) = i)). repeat constructor. Qed.

Lemma letter_replaced i : 0 <= i < 64 ->
  (if Ascii.eqb (letter base64_alphabet i) "/" then "-"%char else letter base64_alphabet i) = letter id_alphabet i.
Proof.
  revert i. apply (below_64 (fun i => (if Ascii.eqb (letter base64_alphabet i) "/" then "-"%char
    else letter base64_alphabet i) = letter id_alphabet i)). repeat constructor.
Qed.

(** The value of a base-64 numeral, most significant letter first. *)
Definition decode (s : string) : Z := fold_left (fun v c => v * 64 + letter_value c) (list_ascii_of_string s) 0.

Definition decode_from (v : Z) (s : string) : Z :=
  fold_left (fun v c => v * 64 + letter_value c) (list_ascii_of_string s) v.

Lemma decode_from_shift v s : decode_from v s = v * 64 ^ Z.of_nat (String.length s) + decode s.
Proof.
  unfold decode. fold (decode_from 0 s). revert v; induction s as [|c s IH]; intros v; [cbn; lia|].
  change (decode_from v (String c s)) with (decode_from (v * 64 + letter_value c) s).
  change (decode_from 0 (String c s)) with (decode_from (0 * 64 + letter_value c) s).
  rewrite (IH (v * 64 + _)), (IH (0 * 64 + _)). cbn [String.length].
  rewrite Nat2Z.inj_succ, Z.pow_succ_r by lia. ring.
Qed.

(** ** Identifiers of modules and libraries *)

Lemma encode_id_loop_decode fuel id output :
  0 <= id < 64 ^ Z.of_nat fuel ->
  decode (encode_id_loop fuel id output) = id * 64 ^ Z.of_nat (String.length output) + decode output.
Proof.
  revert id output; induction fuel as [|fuel IH]; intros id output H; cbn [encode_id_loop].
  - change (64 ^ Z.of_nat 0) with 1 in H. replace id with 0 by lia. lia.
  - destruct (0 <? id) eqn:E; to_prop; [|replace id with 0 by lia; lia].
    pose proof (Z.mod_pos_bound id 64 ltac:(lia)).
    rewrite Nat2Z.inj_succ, Z.pow_succ_r in H by lia.
    rewrite IH by (split; [apply Z.div_pos; lia|apply Z.div_lt_upper_bound; lia]).
    cbn [String.length]. rewrite Nat2Z.inj_succ, Z.pow_succ_r by lia.
    change (decode (String ?c ?s)) with (decode_from (0 * 64 + letter_value c) s).
    rewrite decode_from_shift, letter_value_letter by assumption.
    rewrite (Z.div_mod id 64) at 3 by lia. ring.
Qed.

(** The identifier of every module and library can be decoded: no two
    non-negative [int] identifiers have the same encoding. *)
Theorem encode_id_roundtrip id : 0 <= id < 2 ^ 31 -> decode (encode_id id) = id.
Proof.
  intros H. unfold encode_id. destruct (id =? 0) eqn:E; to_prop; [subst; reflexivity|].
  rewrite encode_id_loop_decode by lia. cbn. lia.
Qed.

Lemma encode_id_roundtrip_witness : decode (encode_id 4097) = 4097.
Proof. apply (encode_id_roundtrip 4097). lia. Defined.

(** ** Symbol identifiers *)

(** The value of a sequence of base-64 digits. *)
Definition digits_value (l : list Z) : Z := fold_left (fun v d => v * 64 + d) l 0.

(** After [n] bits of value [v]: the letters are base-64 digits of its leading
    bits and the accumulator's low [bit_count] bits are the rest. *)
Definition nid_ok (s : NidState) (v n : Z) : Prop :=
  exists digits, nid_result s = map (letter base64_alphabet) digits /\
    Forall (fun d => 0 <= d < 64) digits /\
    0 <= nid_bit_count s /\ 6 * size digits + nid_bit_count s = n /\
    0 <= nid_bits s < 2 ^ 32 /\
    digits_value digits * 2 ^ nid_bit_count s + nid_bits s mod 2 ^ nid_bit_count s = v.

Lemma digits_value_snoc l d : digits_value (l ++ [d]) = digits_value l * 64 + d.
Proof. unfold digits_value. rewrite fold_left_app. reflexivity. Qed.

Lemma size_map {A B} (f : A -> B) l : size (map f l) = size l.
Proof. unfold size. rewrite length_map. reflexivity. Qed.

(** The next digit and what remains after it. *)
Lemma sextet_split bits k : 0 <= k -> 0 <= bits ->
  Z.land (Z.shiftr bits k) 0x3f * 2 ^ k + bits mod 2 ^ k = bits mod 2 ^ (k + 6).
Proof.
  intros Hk Hb. change 0x3f with (Z.ones 6). rewrite Z.land_ones, Z.shiftr_div_pow2 by lia.
  rewrite Z.pow_add_r by lia. pose proof (Z.pow_pos_nonneg 2 k ltac:(lia) Hk).
  rewrite Z.rem_mul_r by lia. ring.
Qed.

Lemma nid_drain_ok fuel s v n :
  nid_ok s v n -> n <= 64 -> nid_ok (nid_drain fuel s) v n /\
  (nid_bit_count s < 6 * Z.of_nat fuel + 6 -> nid_bit_count (nid_drain fuel s) < 6).
Proof.
  revert s; induction fuel as [|fuel IH]; intros s H Hn; cbn [nid_drain]; [split; [assumption|lia]|].
  pose proof H as (ds & Hr & Hd & Hc & Hz & Hb & Hv).
  destruct (_ && _) eqn:E.
  - to_prop. match goal with |- context [nid_drain fuel ?x] => set (s' := x) end.
    destruct (IH s') as [I1 I2]; [|assumption|split; [exact I1|intros; apply I2; unfold s'; cbn [nid_bit_count]; lia]].
    exists (ds ++ [Z.land (Z.shiftr (nid_bits s) (nid_bit_count s - 6)) 0x3f]).
    unfold s'. cbn [nid_result nid_bits nid_bit_count]. rewrite Hr, map_app. split; [reflexivity|].
    split; [apply Forall_app; split; [assumption|constructor; [|constructor]]|].
    { change 0x3f with (Z.ones 6). rewrite Z.land_ones by lia. apply Z.mod_pos_bound. lia. }
    split; [lia|]. split; [rewrite size_app; change (size [_]) with 1; lia|]. split; [assumption|].
    rewrite digits_value_snoc. pose proof (sextet_split (nid_bits s) (nid_bit_count s - 6) ltac:(lia) ltac:(lia)) as S.
    replace (nid_bit_count s - 6 + 6) with (nid_bit_count s) in S by lia.
    replace (2 ^ nid_bit_count s) with (64 * 2 ^ (nid_bit_count s - 6)) in Hv
      by (change 64 with (2 ^ 6); rewrite <- Z.pow_add_r by lia; f_equal; lia).
    replace (64 * 2 ^ (nid_bit_count s - 6)) with (2 ^ nid_bit_count s) in Hv at 2
      by (change 64 with (2 ^ 6); rewrite <- Z.pow_add_r by lia; f_equal; lia).
    lia.
  - split; [assumption|]. intros _. rewrite Hr, size_map in E. to_prop. lia.
Qed.

Lemma shift_byte_mod x byte k : 0 <= k -> 0 <= byte < 256 ->
  (x * 256 + byte) mod (2 ^ k * 256) = (x mod 2 ^ k) * 256 + byte.
Proof.
  intros Hk Hb. pose proof (Z.pow_pos_nonneg 2 k ltac:(lia) Hk).
  rewrite (Z.mul_comm (2 ^ k)), Z.rem_mul_r by lia.
  rewrite Z.div_add_l, (Z.div_small byte) by lia. rewrite (Z.add_comm (x * 256)), Z.mod_add, Z.mod_small by lia.
  rewrite Z.add_0_r. ring.
Qed.

Lemma nid_byte_ok s v n byte :
  nid_ok s v n -> nid_bit_count s < 6 -> n + 8 <= 64 -> 0 <= byte < 256 ->
  nid_ok (nid_byte s byte) (v * 256 + byte) (n + 8) /\ nid_bit_count (nid_byte s byte) < 6.
Proof.
  intros (ds & Hr & Hd & Hc & Hz & Hb & Hv) H6 Hn Hy. unfold nid_byte.
  match goal with |- context [nid_drain 2 ?x] => set (s' := x) end.
  assert (Hl : Z.lor (u32 (Z.shiftl (nid_bits s) 8)) byte = u32 (Z.shiftl (nid_bits s) 8) + byte).
  { rewrite Z.lor_comm. unfold u32. rewrite Z.shiftl_mul_pow2 by lia.
    change (2 ^ 32) with (2 ^ 24 * 2 ^ 8). rewrite Z.mul_mod_distr_r by lia.
    rewrite <- Z.shiftl_mul_pow2, lor_shiftl_add by lia. rewrite Z.shiftl_mul_pow2 by lia. lia. }
  pose proof (u32_range (Z.shiftl (nid_bits s) 8)) as R.
  assert (H : nid_ok s' (v * 256 + byte) (n + 8)).
  { exists ds. unfold s'. cbn [nid_result nid_bits nid_bit_count]. split; [assumption|]. split; [assumption|].
    split; [lia|]. split; [lia|]. rewrite Hl. unfold u32 in *. rewrite Z.shiftl_mul_pow2 in * by lia.
    change (2 ^ 32) with (2 ^ 24 * 2 ^ 8) in *. rewrite Z.mul_mod_distr_r in * by lia.
    pose proof (Z.mod_pos_bound (nid_bits s) (2 ^ 24) ltac:(lia)). split; [lia|].
    rewrite Z.pow_add_r by lia. rewrite <- Hv.
    replace (((nid_bits s mod 2 ^ 24) * 2 ^ 8 + byte) mod (2 ^ nid_bit_count s * 2 ^ 8))
      with ((nid_bits s mod 2 ^ nid_bit_count s) * 2 ^ 8 + byte); [ring|].
    change (2 ^ 8) with 256. rewrite shift_byte_mod by lia.
    rewrite Z.mod_mod_divide; [reflexivity|].
    exists (2 ^ (24 - nid_bit_count s)). rewrite <- Z.pow_add_r by lia. f_equal. lia. }
  destruct (nid_drain_ok 2 s' _ _ H Hn) as [I1 I2]. split; [exact I1|]. apply I2. unfold s'. cbn. lia.
Qed.

Definition be_value (l : Bytes) : Z := fold_left (fun v b => v * 256 + b) l 0.

Lemma be_value_rev l : be_value (rev l) = le_value l.
Proof.
  unfold be_value. induction l as [|b l IH]; [reflexivity|].
  cbn [rev le_value]. rewrite fold_left_app, IH. cbn [fold_left]. ring.
Qed.

Lemma nid_bytes_ok l s v n :
  nid_ok s v n -> nid_bit_count s < 6 -> bytes_ok l -> n + 8 * size l <= 64 ->
  nid_ok (fold_left nid_byte l s) (fold_left (fun v b => v * 256 + b) l v) (n + 8 * size l) /\
  nid_bit_count (fold_left nid_byte l s) < 6.
Proof.
  intros H H6 Hl. revert s v n H H6; induction Hl as [|b l Hb _ IH]; intros s v n H H6 Hn.
  - change (size []) with 0. rewrite Z.mul_0_r, Z.add_0_r. auto.
  - rewrite size_cons in *. pose proof (size_nonneg l).
    destruct (nid_byte_ok s v n b H H6 ltac:(lia) Hb) as [I1 I2].
    cbn [fold_left]. replace (n + 8 * (1 + size l)) with (n + 8 + 8 * size l) by lia.
    apply IH; [assumption|assumption|lia].
Qed.

Lemma decode_letters digits :
  Forall (fun d => 0 <= d < 64) digits ->
  decode (string_of_list_ascii (map (fun c => if Ascii.eqb c "/" then "-"%char else c)
    (map (letter base64_alphabet) digits))) = digits_value digits.
Proof.
  intros H. unfold decode, digits_value. rewrite list_ascii_of_string_of_list_ascii. generalize 0 as v.
  induction H as [|d l Hd _ IH]; intros v; [reflexivity|].
  cbn [map fold_left]. rewrite letter_replaced, letter_value_letter by assumption. apply IH.
Qed.

(** The letters of a sequence of base-64 digits, as [nid] renders them. *)
Definition nid_letters (digits : list Z) : string :=
  string_of_list_ascii (map (fun c => if Ascii.eqb c "/" then "-"%char else c)
    (map (letter base64_alphabet) digits)).

Lemma nid_encode_digits value :
  bytes_ok value -> size value = 8 ->
  exists digits, nid_encode value = nid_letters digits /\ Forall (fun d => 0 <= d < 64) digits /\
    List.length digits = 11%nat /\ digits_value digits = 4 * be_value value.
Proof.
  intros Hb Hs. unfold nid_encode.
  set (s0 := {| nid_bits := 0; nid_bit_count := 0; nid_result := [] |}).
  assert (H0 : nid_ok s0 0 0)
    by (exists []; cbn; repeat split; try constructor; change (size []) with 0; lia).
  destruct (nid_bytes_ok value s0 0 0 H0 ltac:(cbn; lia) Hb ltac:(lia)) as [H H6].
  fold (be_value value) in H. set (s := fold_left nid_byte value s0) in *.
  destruct H as (ds & Hr & Hd & Hc & Hz & Hbits & Hv). rewrite Hs in Hz.
  pose proof (size_nonneg ds). assert (Sz : size ds = 10) by lia. assert (Bc : nid_bit_count s = 4) by lia.
  rewrite Hr, size_map, Sz, Bc. change ((10 <? 11) && (0 <? 4) && (4 <? 6)) with true. cbv iota zeta.
  change (6 - 4) with 2. set (d := Z.land (u32 (Z.shiftl (nid_bits s) 2)) 0x3f).
  assert (Ed : d = (nid_bits s mod 2 ^ 4) * 4).
  { unfold d. change 0x3f with (Z.ones 6). rewrite Z.land_ones by lia. unfold u32.
    rewrite Z.mod_mod_divide by (exists (2 ^ 26); reflexivity).
    rewrite Z.shiftl_mul_pow2 by lia. change (2 ^ 6) with (2 ^ 4 * 2 ^ 2).
    rewrite Z.mul_mod_distr_r by lia. reflexivity. }
  pose proof (Z.mod_pos_bound (nid_bits s) (2 ^ 4) ltac:(lia)).
  change ([letter base64_alphabet d]) with (map (letter base64_alphabet) [d]). rewrite <- map_app.
  assert (L : List.length (map (letter base64_alphabet) (ds ++ [d])) = 11%nat)
    by (rewrite length_map, length_app; unfold size in Sz; cbn; lia).
  unfold resize. rewrite L, firstn_all2 by lia. rewrite Nat.sub_diag, app_nil_r.
  exists (ds ++ [d]). split; [reflexivity|].
  split; [apply Forall_app; split; [assumption|constructor; [lia|constructor]]|].
  split; [rewrite length_map in L; exact L|]. rewrite digits_value_snoc, <- Hv, Bc. lia.
Qed.

Lemma nid_encode_decode value :
  bytes_ok value -> size value = 8 ->
  String.length (nid_encode value) = 11%nat /\ decode (nid_encode value) = 4 * be_value value.
Proof.
  intros Hb Hs. destruct (nid_encode_digits value Hb Hs) as (ds & -> & Hd & L & V). split.
  - rewrite <- L. unfold nid_letters. clear. induction ds as [|d l IH]; cbn; [reflexivity|]. f_equal. exact IH.
  - unfold nid_letters. rewrite decode_letters by assumption. exact V.
Qed.

(** A symbol identifier is a faithful rendering of the first eight digest
    bytes: [nid] always returns eleven letters, and decoding them gives the
    64-bit little-endian value of the first eight bytes of the SHA-1 of the
    name and the suffix (shifted by the two padding bits), so two names share
    an identifier only when their digests share those bytes. *)
Theorem nid_faithful name :
  exists digest s, sha1 (bytes_of_string name ++ nid_suffix) = Ok digest /\ nid name = Ok s /\
    String.length s = 11%nat /\ decode s = 4 * le_value (sub digest 0 8).
Proof.
  destruct (sha1_total (bytes_of_string name ++ nid_suffix)) as (d & E & Sd & Bd).
  exists d, (nid_encode (rev (firstn 8 d))). split; [exact E|]. split; [unfold nid; rewrite E; reflexivity|].
  assert (B : bytes_ok (firstn 8 d)) by (apply bytes_ok_firstn; assumption).
  assert (S : size (firstn 8 d) = 8) by (unfold size in *; rewrite length_firstn; lia).
  destruct (nid_encode_decode (rev (firstn 8 d))) as [L D].
  - unfold bytes_ok. apply Forall_rev. exact B.
  - unfold size in *. rewrite length_rev. exact S.
  - split; [exact L|]. rewrite D, be_value_rev. reflexivity.
Qed.

(** The identifier the console's own libraries use for [malloc]. *)
Example nid_malloc : nid "malloc" = Ok "gQX+4GDQjpM"%string.
Proof. vm_compute. reflexivity. Qed.
