(* ===== verification/HashTable.v ===== *)
(** * The System V hash table of a PS5 module

    [build_sysv_hash] threads every symbol but the first onto the chain of its
    bucket.  Walking a bucket's chain visits, in ascending order, exactly the
    symbols whose hash falls into that bucket; so a dynamic linker's lookup
    terminates and finds the first symbol with a given name. *)

From Stdlib Require Import ZArith List Bool Lia String Ascii.
From S2P Require Import Prelude Bytes ElfObject ModuleTables.
Import ListNotations.
Open Scope Z_scope.

Lemma below_of_bits r k : 0 <= k -> 0 <= r -> (forall n, k <= n -> Z.testbit r n = false) -> r < 2 ^ k.
Proof.
  intros Hk Hr H. enough (E : r mod 2 ^ k = r) by (rewrite <- E; apply Z.mod_pos_bound, Z.pow_pos_nonneg; lia).
  apply Z.bits_inj'. intros n Hn. destruct (Z.ltb_spec n k).
  - apply Z.mod_pow2_bits_low. assumption.
  - rewrite Z.mod_pow2_bits_high, H by lia. reflexivity.
Qed.

Lemma testbit_above x n k : 0 <= x < 2 ^ k -> 0 <= k <= n -> Z.testbit x n = false.
Proof. intros Hx Hn. rewrite <- (Z.mod_small x (2 ^ k)) by assumption. apply Z.mod_pow2_bits_high. lia. Qed.

(** The hash stays below 2^28: the nibble that leaves at the top is cleared. *)
Lemma elf_hash_step_range h c : 0 <= elf_hash_step h c < 2 ^ 28.
Proof.
  unfold elf_hash_step. set (x := u32 _). pose proof (u32_range (u32 (Z.shiftl h 4) + c)) as R. fold x in R.
  set (carry := Z.land x 0xf0000000).
  assert (Hc : 0 <= carry) by (apply Z.land_nonneg; lia).
  set (y := if negb (carry =? 0) then _ else _). pose proof (u32_range (Z.lnot carry)) as Rc.
  assert (N : 0 <= Z.land y (u32 (Z.lnot carry))) by (apply Z.land_nonneg; lia).
  split; [exact N|]. apply below_of_bits; [lia|exact N|]. intros n Hn. rewrite Z.land_spec.
  destruct (Z.ltb_spec n 32) as [L|L]; [|rewrite (testbit_above (u32 (Z.lnot carry)) n 32) by lia; apply andb_false_r].
  assert (Hy : Z.testbit y n = Z.testbit x n).
  { unfold y. destruct (negb _); [|reflexivity]. rewrite Z.lxor_spec, Z.shiftr_spec by lia. unfold carry.
    rewrite Z.land_spec, (testbit_above x (n + 24) 32), xorb_false_r by lia. reflexivity. }
  unfold u32. rewrite Hy, Z.mod_pow2_bits_low, Z.lnot_spec by lia. unfold carry. rewrite Z.land_spec.
  replace (Z.testbit 0xf0000000 n) with true; [destruct (Z.testbit x n); reflexivity|].
  change 0xf0000000 with (Z.shiftl (Z.ones 4) 28). rewrite Z.shiftl_spec, Z.ones_spec_low by lia. reflexivity.
Qed.

Lemma elf_hash_range name : 0 <= elf_hash name < 2 ^ 28.
Proof.
  unfold elf_hash. destruct (bytes_of_string name) as [|c l] using rev_ind; [cbn; lia|].
  rewrite fold_left_app. apply elf_hash_step_range.
Qed.

Section Table.
Context (names : list string).
Hypothesis Hcount : 0 < size names < 2 ^ 29.

Definition name_at (i : Z) : string := nth (Z.to_nat i) names EmptyString.
Definition bucket_of (i : Z) : Z := elf_hash (name_at i) mod size names.

(** The table's words. *)
Definition bucket_word (table : Bytes) (b : Z) : Z := field table (8 + b * 4) 4.
Definition chain_word (table : Bytes) (i : Z) : Z := field table (8 + size names * 4 + i * 4) 4.

(** Walking a chain: the indices visited until the terminating zero. *)
Fixpoint walk (fuel : nat) (table : Bytes) (i : Z) : list Z :=
  match fuel with
  | O => []
  | S fuel' => if i =? 0 then [] else i :: walk fuel' table (chain_word table i)
  end.

(** The symbols from [k] on that fall into bucket [b]. *)
Definition members (k b : Z) : list Z :=
  filter (fun i => bucket_of i =? b) (indices k (Z.to_nat (size names - k))).

(** The table when every index from [k] on has been inserted. *)
Record inserted (table : Bytes) (k : Z) : Prop := {
  ins_bytes : bytes_ok table;
  ins_size : size table = 8 + size names * 8;
  ins_count : field table 0 4 = size names /\ field table 4 4 = size names;
  ins_walk : forall b fuel, 0 <= b < size names -> (List.length (members k b) < fuel)%nat ->
    walk fuel table (bucket_word table b) = members k b
}.

Lemma field_put_other_word l a v b :
  0 <= a -> a + 4 <= size l -> 0 <= b -> b + 4 <= size l -> b + 4 <= a \/ a + 4 <= b ->
  field (put l a (le_bytes 4 v)) b 4 = field l b 4.
Proof. intros. unfold field. rewrite sub_put_other; rewrite ?size_le_bytes; auto; lia. Qed.

Lemma field_put_word l a v :
  0 <= a -> a + 4 <= size l -> 0 <= v < 2 ^ 32 -> field (put l a (le_bytes 4 v)) a 4 = v.
Proof.
  intros Ha Hl Hv. unfold field. pose proof (sub_put_le l a 4 v Ha Hl) as E. change (Z.of_nat 4) with 4 in E.
  rewrite E, le_value_bytes. apply Z.mod_small. assumption.
Qed.

(** A chain only depends on the words of the indices it visits. *)
Lemma walk_ext fuel t t' i :
  (forall j, In j (walk fuel t i) -> chain_word t' j = chain_word t j) -> walk fuel t' i = walk fuel t i.
Proof.
  revert i; induction fuel as [|fuel IH]; intros i H; cbn [walk] in *; [reflexivity|].
  destruct (i =? 0); [reflexivity|]. rewrite (H i (or_introl eq_refl)). f_equal. apply IH.
  intros j Hj. apply H. right. exact Hj.
Qed.

Lemma members_cons k b : 0 <= k < size names ->
  members k b = (if bucket_of k =? b then [k] else []) ++ members (k + 1) b.
Proof.
  intros Hk. unfold members. replace (Z.to_nat (size names - k)) with (S (Z.to_nat (size names - (k + 1)))) by lia.
  cbn [indices filter]. destruct (bucket_of k =? b); reflexivity.
Qed.

Lemma in_members j k b : 0 <= k -> In j (members k b) -> k <= j < size names.
Proof. intros Hk H. apply filter_In in H as [H _]. apply in_indices in H. lia. Qed.

Lemma bucket_of_range i : 0 <= bucket_of i < size names.
Proof. apply Z.mod_pos_bound. lia. Qed.

(** Inserting index [k] puts it in front of its bucket's chain. *)
Lemma hash_insert_ok table k :
  1 <= k < size names -> inserted table (k + 1) ->
  exists table', hash_insert names (size names) table k = Ok table' /\ inserted table' k.
Proof.
  intros Hk [Hb Hs [Hc0 Hc4] Hw]. unfold hash_insert.
  rewrite (vector_at_nth names k EmptyString) by (lia). cbn [bind].
  fold (name_at k). change (elf_hash (name_at k) mod size names) with (bucket_of k).
  pose proof (bucket_of_range k) as B. set (b0 := bucket_of k) in *.
  unfold mw_read_u32. rewrite checked_load_spec by (assumption || lia).
  replace (8 + b0 * 4 + Z.of_nat 4 <=? size table) with true by (symmetry; apply Z.leb_le; lia). cbn [bind].
  change (field table (8 + b0 * 4) (Z.of_nat 4)) with (bucket_word table b0).
  assert (Hp : 0 <= bucket_word table b0 < 2 ^ 32)
    by (apply (field_range table (8 + b0 * 4) 4 Hb); lia).
  unfold mw_write_u32. rewrite checked_store_ok by lia. cbn [bind].
  set (t1 := put table _ _).
  assert (S1 : size t1 = size table) by (apply size_put; rewrite ?size_le_bytes; lia).
  rewrite checked_store_ok by lia. eexists; split; [reflexivity|].
  rewrite u32_small by lia. set (t2 := put t1 _ _).
  assert (S2 : size t2 = size t1) by (apply size_put; rewrite ?size_le_bytes; lia).
  assert (Fo : forall q, 0 <= q -> 4 * q + 4 <= size table -> 4 * q <> 8 + b0 * 4 ->
    4 * q <> 8 + size names * 4 + k * 4 -> field t2 (4 * q) 4 = field table (4 * q) 4).
  { intros q Hq Hl H1 H2. transitivity (field t1 (4 * q) 4); apply field_put_other_word; lia. }
  assert (Fb : forall b, 0 <= b < size names -> b <> b0 -> bucket_word t2 b = bucket_word table b).
  { intros b Hb' Hne. unfold bucket_word. replace (8 + b * 4) with (4 * (2 + b)) by lia. apply Fo; lia. }
  assert (Fc : forall j, 0 <= j < size names -> j <> k -> chain_word t2 j = chain_word table j).
  { intros j Hj Hne. unfold chain_word.
    replace (8 + size names * 4 + j * 4) with (4 * (2 + size names + j)) by lia. apply Fo; lia. }
  assert (F0 : bucket_word t2 b0 = k) by (apply field_put_word; lia).
  assert (Fk : chain_word t2 k = bucket_word table b0).
  { unfold chain_word. unfold t2. rewrite field_put_other_word by lia. apply field_put_word; lia. }
  assert (Wx : forall fuel b, (forall j, In j (walk fuel table b) -> k < j < size names) -> walk fuel t2 b = walk fuel table b).
  { intros fuel b H. apply walk_ext. intros j Hj. apply H in Hj. apply Fc; lia. }
  split.
  - unfold t2, t1. auto with bytes.
  - lia.
  - split; [transitivity (field table 0 4)|transitivity (field table 4 4)]; try assumption;
      [apply (Fo 0)|apply (Fo 1)]; lia.
  - intros b fuel Hbr Hf. rewrite members_cons in Hf by lia. rewrite members_cons by lia.
    change (bucket_of k) with b0 in Hf |- *.
    destruct (b0 =? b) eqn:E; to_prop.
    + subst b. cbn [app] in *. cbn [List.length] in Hf. destruct fuel as [|fuel]; [lia|].
      rewrite F0. cbn [walk]. replace (k =? 0) with false by lia. rewrite Fk. f_equal.
      rewrite Wx; rewrite Hw by (lia); [reflexivity|].
      intros j Hj. apply in_members in Hj; lia.
    + cbn [app] in *. rewrite Fb by (auto; lia).
      rewrite Wx; rewrite Hw by lia; [reflexivity|].
      intros j Hj. apply in_members in Hj; lia.
Qed.

Lemma hash_insert_all m table :
  Z.of_nat m < size names -> inserted table (Z.of_nat m + 1) ->
  exists table', for_each (hash_insert names (size names)) table (rev (indices 1 m)) = Ok table' /\
    inserted table' 1.
Proof.
  revert table; induction m as [|m IH]; intros table Hm H; [exists table; split; [reflexivity|exact H]|].
  rewrite indices_snoc, rev_app_distr. cbn [rev app for_each].
  destruct (hash_insert_ok table (1 + Z.of_nat m)) as (t & E & I); [lia| |].
  - replace (1 + Z.of_nat m + 1) with (Z.of_nat (S m) + 1) by lia. exact H.
  - rewrite E. cbn [bind]. apply IH; [lia|]. replace (Z.of_nat m + 1) with (1 + Z.of_nat m) by lia. exact I.
Qed.

Lemma field_zeros n a k : 0 <= a -> 0 <= k -> a + k <= n -> field (zeros n) a k = 0.
Proof. intros. unfold field. rewrite sub_zeros by assumption. apply le_value_zeros. Qed.

Lemma build_sysv_hash_ok :
  exists table, build_sysv_hash names = Ok table /\ inserted table 1.
Proof.
  unfold build_sysv_hash. rewrite require_true by lia. cbv zeta.
  set (t0 := zeros (8 + size names * 8)).
  assert (S0 : size t0 = 8 + size names * 8) by (apply size_zeros; lia).
  unfold mw_write_u32. rewrite checked_store_ok by lia. cbn [bind].
  set (t1 := put t0 0 _). assert (S1 : size t1 = size t0) by (apply size_put; rewrite ?size_le_bytes; lia).
  rewrite checked_store_ok by lia. cbn [bind].
  set (t2 := put t1 4 _). assert (S2 : size t2 = size t1) by (apply size_put; rewrite ?size_le_bytes; lia).
  pose proof (u32_small (size names) ltac:(lia)) as U.
  assert (L : Z.of_nat (List.length names - 1) + 1 = size names) by (unfold size in *; lia).
  apply hash_insert_all; [lia|]. rewrite L. split.
  - unfold t2, t1, t0. auto with bytes.
  - lia.
  - split.
    + transitivity (field t1 0 4); [apply field_put_other_word; lia|]. unfold t1. rewrite U. apply field_put_word; lia.
    + unfold t2. rewrite U. apply field_put_word; lia.
  - intros b fuel Hb _. unfold members. replace (Z.to_nat (size names - size names)) with 0%nat by lia.
    cbn [indices filter]. destruct fuel; cbn [walk]; [reflexivity|].
    replace (bucket_word t2 b) with 0; [reflexivity|]. symmetry. unfold bucket_word.
    transitivity (field t1 (8 + b * 4) 4); [apply field_put_other_word; lia|].
    transitivity (field t0 (8 + b * 4) 4); [apply field_put_other_word; lia|]. apply field_zeros; lia.
Qed.

(** A dynamic linker's lookup: the first index on the chain of the name's
    bucket whose name matches; [count] steps are enough. *)
Definition sysv_lookup (table : Bytes) (name : string) : option Z :=
  find (fun i => String.eqb (name_at i) name)
    (walk (List.length names) table (bucket_word table (elf_hash name mod size names))).

Lemma find_filter {A} (f g : A -> bool) l :
  (forall a, In a l -> f a = true -> g a = true) -> find f (filter g l) = find f l.
Proof.
  induction l as [|a l IH]; intros H; cbn [filter find]; [reflexivity|].
  destruct (g a) eqn:G; cbn [find].
  - destruct (f a); [reflexivity|]. apply IH. intros; apply H; [right|]; assumption.
  - destruct (f a) eqn:F; [rewrite (H a (or_introl eq_refl) F) in G; discriminate|].
    apply IH. intros; apply H; [right|]; assumption.
Qed.

Lemma members_short b : (List.length (members 1 b) < List.length names)%nat.
Proof.
  unfold members. pose proof (filter_length_le (fun i => bucket_of i =? b) (indices 1 (Z.to_nat (size names - 1)))) as F.
  rewrite indices_length in F. unfold size in *. lia.
Qed.

Lemma sysv_lookup_find table name :
  inserted table 1 ->
  sysv_lookup table name = find (fun i => String.eqb (name_at i) name) (indices 1 (List.length names - 1)).
Proof.
  intros I. unfold sysv_lookup.
  rewrite (ins_walk _ _ I) by (try apply members_short; apply Z.mod_pos_bound; lia).
  unfold members. rewrite find_filter.
  - f_equal. f_equal. unfold size. lia.
  - intros i _ E. apply String.eqb_eq in E. unfold bucket_of. rewrite E. apply Z.eqb_refl.
Qed.
End Table.

(** The hash table of a module is searched correctly: building it from
    any non-empty symbol list succeeds, both counts are the number of symbols,
    the chain of every bucket visits in ascending order exactly the symbols
    (after the null symbol) hashed to that bucket and so terminates, and the
    dynamic linker's lookup returns the first symbol with the given name, or
    nothing when there is none. *)
Theorem sysv_hash_lookup names :
  0 < size names < 2 ^ 29 ->
  exists table, build_sysv_hash names = Ok table /\
    field table 0 4 = size names /\ field table 4 4 = size names /\
    (forall b, 0 <= b < size names ->
       walk names (List.length names) table (bucket_word table b) = members names 1 b) /\
    forall name, sysv_lookup names table name =
      find (fun i => String.eqb (name_at names i) name) (indices 1 (List.length names - 1)).
Proof.
  intros H. destruct (build_sysv_hash_ok names H) as (t & E & I). exists t. split; [exact E|].
  destruct (ins_count _ _ _ I) as [C0 C4]. split; [exact C0|]. split; [exact C4|]. split.
  - intros b Hb. apply (ins_walk _ _ _ I); [exact Hb|apply members_short; exact H].
  - intros name. apply sysv_lookup_find; assumption.
Qed.

Lemma sysv_hash_lookup_witness :
  exists table, build_sysv_hash [""; "open"; "close"; "read"]%string = Ok table /\
    field table 0 4 = 4 /\ field table 4 4 = 4 /\
    (forall b, 0 <= b < 4 ->
       walk [""; "open"; "close"; "read"]%string 4 table (bucket_word table b) =
       members [""; "open"; "close"; "read"]%string 1 b) /\
    forall name, sysv_lookup [""; "open"; "close"; "read"]%string table name =
      find (fun i => String.eqb (name_at [""; "open"; "close"; "read"]%string i) name) (indices 1 3).
Proof. apply (sysv_hash_lookup [""; "open"; "close"; "read"]%string). split; reflexivity. Defined.
