(* ===== verification/DynamicTables.v ===== *)
(** * Relocation and dynamic tables of a PS5 module

    The relocation table reads back as written, the dynamic table answers every
    tag the loader asks for with the value it was built from, and the offset
    chosen for a segment is the first one congruent with its address. *)

From Stdlib Require Import ZArith List Bool Lia String.
From S2P Require Import Prelude Bytes Writes ElfObject ModuleTables.
Import ListNotations.
Open Scope Z_scope.

(** ** Alignment *)

Lemma align_up_bounds value alignment :
  1 < alignment -> 0 <= value -> value + alignment <= 2 ^ 64 ->
  value <= align_up value alignment < value + alignment /\ align_up value alignment mod alignment = 0.
Proof.
  intros Ha Hv Hb. unfold align_up. replace (alignment <=? 1) with false by lia.
  rewrite (u64_small (value + _ - 1)) by lia.
  pose proof (Z.mod_pos_bound (value + alignment - 1) alignment ltac:(lia)) as M.
  pose proof (Z.div_mod (value + alignment - 1) alignment ltac:(lia)) as D.
  set (q := (value + alignment - 1) / alignment) in *.
  assert (Hq : value <= q * alignment < value + alignment) by nia.
  rewrite u64_small by lia. split; [lia|]. apply Z.mod_mul. lia.
Qed.

Lemma congruent_offset_bounds minimum address :
  0 <= minimum < 2 ^ 63 ->
  minimum <= congruent_offset minimum address <= minimum + kPage /\
  congruent_offset minimum address mod kPage = address mod kPage.
Proof.
  unfold congruent_offset, kPage. intros Hm.
  pose proof (Z.mod_pos_bound address 0x4000 ltac:(lia)) as R. set (r := address mod 0x4000) in *.
  destruct (minimum <=? r) eqn:E; to_prop; [split; [lia|apply Z.mod_small; lia]|].
  destruct (align_up_bounds (minimum - r) 0x4000 ltac:(lia) ltac:(lia) ltac:(lia)) as [B M].
  rewrite u64_small by lia. split; [lia|]. rewrite Z.add_mod, M, Z.add_0_l, Z.mod_mod by lia. apply Z.mod_small. lia.
Qed.

(** The file offset chosen for a segment is the least offset at or after
    the minimum that agrees with the segment's address modulo the page size,
    which is what the loader demands of a loadable segment. *)
Theorem congruent_offset_least minimum address :
  0 <= minimum < 2 ^ 63 ->
  minimum <= congruent_offset minimum address < 2 ^ 64 /\
  congruent_offset minimum address mod kPage = address mod kPage /\
  forall o, minimum <= o -> o mod kPage = address mod kPage -> congruent_offset minimum address <= o.
Proof.
  intros Hm. destruct (congruent_offset_bounds minimum address Hm) as [B M]. split; [unfold kPage in B; lia|].
  split; [exact M|]. intros o Ho Hr. revert B M. unfold congruent_offset, kPage in *.
  pose proof (Z.mod_pos_bound address 0x4000 ltac:(lia)) as R. set (r := address mod 0x4000) in *.
  destruct (minimum <=? r) eqn:E; to_prop; [intros; pose proof (Z.mod_le o 0x4000); lia|].
  destruct (align_up_bounds (minimum - r) 0x4000 ltac:(lia) ltac:(lia) ltac:(lia)) as [B M].
  rewrite u64_small by lia. intros _ _. assert (Hd : (o - r) mod 0x4000 = 0)
    by (rewrite Zminus_mod, Hr; rewrite (Z.mod_small r) by lia; rewrite Z.sub_diag; reflexivity).
  apply Z.mod_divide in Hd as [k Hk]; [|lia]. apply Z.mod_divide in M as [j Hj]; [|lia]. nia.
Qed.

Lemma congruent_offset_least_witness :
  0x4010 <= congruent_offset 0x4010 0x20008 < 2 ^ 64 /\
  congruent_offset 0x4010 0x20008 mod kPage = 0x20008 mod kPage /\
  forall o, 0x4010 <= o -> o mod kPage = 0x20008 mod kPage -> congruent_offset 0x4010 0x20008 <= o.
Proof. apply (congruent_offset_least 0x4010 0x20008). lia. Defined.

(** ** Tables of 64-bit words *)

(** Rows of [w] 64-bit words, written at [i * (8 * w)]. *)
Definition row_writes (at_ : Z) (row : list Z) : list write :=
  map (fun k => (at_ + 8 * Z.of_nat k, le_bytes 8 (nth k row 0))) (seq 0 (List.length row)).

Lemma row_writes_from at_ row n k :
  ascending (at_ + 8 * Z.of_nat k)
    (map (fun k => (at_ + 8 * Z.of_nat k, le_bytes 8 (nth k row 0))) (seq k n)) (at_ + 8 * Z.of_nat (k + n)).
Proof.
  revert k; induction n as [|n IH]; intros k; cbn [seq map ascending fst snd]; [lia|].
  split; [lia|]. rewrite size_le_bytes. specialize (IH (S k)).
  replace (S k + n)%nat with (k + S n)%nat in IH by lia.
  replace (at_ + 8 * Z.of_nat k + Z.of_nat 8) with (at_ + 8 * Z.of_nat (S k)) by lia. exact IH.
Qed.

Lemma row_writes_ascending at_ row : ascending at_ (row_writes at_ row) (at_ + 8 * size row).
Proof.
  pose proof (row_writes_from at_ row (List.length row) 0) as A.
  replace (at_ + 8 * Z.of_nat 0) with at_ in A by lia. exact A.
Qed.

Section Rows.
Context (rows : list (list Z)) (w : Z).
Hypothesis Hw : 0 <= w.
Hypothesis Hrows : Forall (fun r => size r = w) rows.

Definition table_writes : list write :=
  flat_map (fun i => row_writes (i * (8 * w)) (nth (Z.to_nat i) rows [])) (indices 0 (List.length rows)).

Lemma row_size i : 0 <= i < size rows -> size (nth (Z.to_nat i) rows []) = w.
Proof.
  intros Hi. rewrite Forall_forall in Hrows. apply Hrows, nth_In. unfold size in Hi. lia.
Qed.

Lemma table_writes_ascending : ascending 0 table_writes (size rows * (8 * w)).
Proof.
  pose proof (ascending_flat_map (fun i => row_writes (i * (8 * w)) (nth (Z.to_nat i) rows []))
    (fun i => i * (8 * w)) 0 (List.length rows)) as A.
  cbn beta in A. rewrite Z.mul_0_l, Z.add_0_l in A. apply A. intros i Hi.
  pose proof (row_writes_ascending (i * (8 * w)) (nth (Z.to_nat i) rows [])) as R.
  rewrite row_size in R by (unfold size; lia). replace ((i + 1) * (8 * w)) with (i * (8 * w) + 8 * w) by lia. exact R.
Qed.

(** Word [k] of row [i] reads back. *)
Lemma table_word i k :
  0 <= i < size rows -> (k < List.length (nth (Z.to_nat i) rows []))%nat ->
  field (apply_writes (zeros (size rows * (8 * w))) table_writes) (i * (8 * w) + 8 * Z.of_nat k) 8 =
  u64 (nth k (nth (Z.to_nat i) rows []) 0).
Proof.
  intros Hi Hk. pose proof (size_nonneg rows).
  assert (Hin : In (i * (8 * w) + 8 * Z.of_nat k, le_bytes 8 (nth k (nth (Z.to_nat i) rows []) 0)) table_writes).
  { apply in_flat_map. exists i. split; [apply in_indices; unfold size in Hi; lia|].
    unfold row_writes. apply in_map_iff. exists k. split; [reflexivity|apply in_seq; lia]. }
  destruct (apply_writes_field 0 _ _ (zeros (size rows * (8 * w))) _ _ _ ltac:(lia) table_writes_ascending
    ltac:(rewrite size_zeros; nia) Hin) as (R & _).
  unfold field. change 8 with (Z.of_nat 8) at 4. rewrite R, le_value_bytes. reflexivity.
Qed.
End Rows.

Lemma nth_map_in {A B} (f : A -> B) l i d d' :
  0 <= i < size l -> nth (Z.to_nat i) (map f l) d = f (nth (Z.to_nat i) l d').
Proof.
  intros Hi. rewrite (nth_indep _ d (f d')) by (rewrite length_map; unfold size in Hi; lia). apply map_nth.
Qed.

Lemma size_map_rows {A B} (f : A -> B) l : size (map f l) = size l.
Proof. unfold size. rewrite length_map. reflexivity. Qed.

(** A loop that writes the words of row [i] writes the table. *)
Lemma write_rows rows w (body : Bytes -> Z -> outcome Bytes) :
  0 <= w -> Forall (fun r => size r = w) rows -> size rows * (8 * w) < 2 ^ 64 ->
  (forall l i, 0 <= i < size rows -> size l = size rows * (8 * w) ->
     body l i = Ok (apply_writes l (row_writes (i * (8 * w)) (nth (Z.to_nat i) rows [])))) ->
  for_each body (zeros (size rows * (8 * w))) (indices 0 (List.length rows)) =
  Ok (apply_writes (zeros (size rows * (8 * w))) (table_writes rows w)).
Proof.
  intros Hw Hr Hb Hbody. pose proof (size_nonneg rows).
  apply (for_each_writes _ _ _ _ (size rows * (8 * w))); [|apply size_zeros; nia].
  intros l i Hi Hl. apply in_indices in Hi. assert (Hi' : 0 <= i < size rows) by (unfold size; lia).
  split; [apply Hbody; assumption|]. rewrite <- Hl.
  apply (size_apply_writes (i * (8 * w)) _ (i * (8 * w) + 8 * w)); [nia| |nia].
  pose proof (row_writes_ascending (i * (8 * w)) (nth (Z.to_nat i) rows [])) as A.
  rewrite (row_size rows w Hr i Hi') in A. exact A.
Qed.

(** ** Relocations *)

Definition relocation_row (r : DynamicRelocation) : list Z := [dr_offset r; dr_info r; dr_addend r].

(** The fields of a relocation are 64-bit values. *)
Definition relocation_ok (r : DynamicRelocation) : Prop :=
  0 <= dr_offset r < 2 ^ 64 /\ 0 <= dr_info r < 2 ^ 64 /\ 0 <= dr_addend r < 2 ^ 64.

Definition no_relocation : DynamicRelocation := {| dr_offset := 0; dr_info := 0; dr_addend := 0 |}.

Lemma relocation_rows_size rs : Forall (fun r => size r = 3) (map relocation_row rs).
Proof. apply Forall_map, Forall_forall. reflexivity. Qed.

Lemma write_relocations_ok rs :
  size rs < 2 ^ 58 ->
  write_relocations rs = Ok (apply_writes (zeros (size rs * 24)) (table_writes (map relocation_row rs) 3)).
Proof.
  intros Hs. pose proof (size_nonneg rs). unfold write_relocations.
  pose proof (write_rows (map relocation_row rs) 3 (write_relocation rs)) as W.
  rewrite size_map_rows, length_map in W. change (8 * 3) with 24 in W. apply W; [lia|apply relocation_rows_size|lia|].
  intros l i Hi Hl. rewrite (nth_map_in _ _ _ _ no_relocation) by assumption.
  unfold write_relocation. rewrite (vector_at_nth _ _ no_relocation) by assumption. cbn [bind].
  set (r := nth _ _ _). unfold mw_write_u64, relocation_row, row_writes. cbn [List.length seq map nth].
  apply bind_checked_store; [lia|lia|lia|intros S1]. apply bind_checked_store; [lia|lia|lia|intros S2].
  rewrite checked_store_ok by lia. unfold apply_writes. cbn [fold_left fst snd].
  rewrite Z.mul_0_r, Z.add_0_r. reflexivity.
Qed.

Lemma read_word message l a : bytes_ok l -> 0 <= a -> a + 8 <= size l -> size l < 2 ^ 64 - 8 ->
  checked_load message 8 l a = Ok (field l a 8).
Proof.
  intros. rewrite checked_load_spec by (assumption || lia). change (Z.of_nat 8) with 8.
  replace (a + 8 <=? size l) with true by lia. reflexivity.
Qed.

Lemma table_bytes_ok rows w n : bytes_ok (apply_writes (zeros n) (table_writes rows w)).
Proof.
  apply bytes_ok_apply_writes; [auto with bytes|]. unfold table_writes. apply Forall_flat_map, Forall_forall.
  intros i _. unfold row_writes. apply Forall_map, Forall_forall. intros k _. cbn [snd]. auto with bytes.
Qed.

Lemma table_size rows w : 0 <= w -> Forall (fun r => size r = w) rows ->
  size (apply_writes (zeros (size rows * (8 * w))) (table_writes rows w)) = size rows * (8 * w).
Proof.
  intros Hw Hr. pose proof (size_nonneg rows).
  erewrite size_apply_writes; [apply size_zeros; nia|reflexivity|apply (table_writes_ascending rows w Hr)|].
  rewrite size_zeros; nia.
Qed.

Lemma collect_indices {A} (body : Z -> outcome A) (l : list A) (d : A) step :
  (forall i, 0 <= i < size l -> body (step * i) = Ok (nth (Z.to_nat i) l d)) ->
  collect body (map (Z.mul step) (indices 0 (List.length l))) = Ok l.
Proof.
  intros H. assert (G : forall n, (n <= List.length l)%nat ->
    collect body (map (Z.mul step) (indices (Z.of_nat (List.length l - n)) n)) = Ok (skipn (List.length l - n) l)).
  { induction n as [|n IH]; intros Hn; cbn [indices map collect].
    - rewrite Nat.sub_0_r, skipn_all. reflexivity.
    - rewrite H by (unfold size; lia). cbn [bind].
      replace (Z.of_nat (List.length l - S n) + 1) with (Z.of_nat (List.length l - n)) by lia.
      rewrite IH by lia. cbn [bind]. f_equal.
      destruct (skipn (List.length l - S n) l) as [|a rest] eqn:E.
      + apply (f_equal (@List.length A)) in E. rewrite length_skipn in E. cbn in E. lia.
      + rewrite Nat2Z.id. rewrite <- (firstn_skipn (List.length l - S n) l) at 2. rewrite E.
        rewrite app_nth2 by (rewrite length_firstn; lia). rewrite length_firstn.
        replace (_ - Nat.min _ _)%nat with 0%nat by lia. cbn [nth]. f_equal.
        replace (List.length l - n)%nat with (1 + (List.length l - S n))%nat by lia.
        rewrite <- skipn_skipn, E. reflexivity. }
  specialize (G (List.length l) (Nat.le_refl _)). rewrite Nat.sub_diag in G. exact G.
Qed.

Lemma offsets_below_multiple n step : 0 < step -> 0 <= n ->
  offsets_below (n * step) step = map (Z.mul step) (indices 0 (Z.to_nat n)).
Proof.
  intros Hs Hn. unfold offsets_below. do 3 f_equal. replace (n * step + step - 1) with (step - 1 + n * step) by lia.
  rewrite Z.div_add, Z.div_small by lia. lia.
Qed.

(** A section holding a table. *)
Definition table_section (entry_size : Z) (data : Bytes) : Section_ := {|
  sec_name := ""; sec_type := 0; sec_flags := 0; sec_address := 0; sec_file_offset := 0;
  sec_size := size data; sec_link := 0; sec_info := 0; sec_alignment := 8; sec_entry_size := entry_size;
  sec_data := data |}.

(** Relocations round trip: the table [write_relocations] produces for
    any relocations is read back by [read_relocations] as the same list. *)
Theorem relocations_roundtrip rs :
  Forall relocation_ok rs -> size rs < 2 ^ 58 ->
  exists data, write_relocations rs = Ok data /\ read_relocations (Some (table_section 24 data)) = Ok rs.
Proof.
  intros Hok Hs. pose proof (size_nonneg rs). eexists. split; [apply write_relocations_ok; assumption|].
  set (data := apply_writes _ _).
  pose proof (table_bytes_ok (map relocation_row rs) 3 (size rs * 24)) as B. fold data in B.
  pose proof (table_size (map relocation_row rs) 3 ltac:(lia) (relocation_rows_size rs)) as S.
  rewrite size_map_rows in S. change (8 * 3) with 24 in S. fold data in S.
  unfold read_relocations, table_section. cbn [sec_entry_size sec_data]. rewrite S, Z.mod_mul by lia. cbn [Z.eqb Pos.eqb andb require bind].
  rewrite offsets_below_multiple by lia. replace (Z.to_nat (size rs)) with (List.length rs) by (unfold size; lia).
  apply (collect_indices _ _ no_relocation). intros i Hi.
  assert (R : relocation_ok (nth (Z.to_nat i) rs no_relocation))
    by (rewrite Forall_forall in Hok; apply Hok, nth_In; unfold size in Hi; lia).
  set (r := nth (Z.to_nat i) rs no_relocation) in *. destruct R as (? & ? & ?).
  assert (W : forall k, (k < 3)%nat -> field data (24 * i + 8 * Z.of_nat k) 8 = u64 (nth k (relocation_row r) 0)).
  { intros k Hk. pose proof (table_word (map relocation_row rs) 3 ltac:(lia) (relocation_rows_size rs) i k) as T.
    rewrite size_map_rows, (nth_map_in _ _ _ _ no_relocation) in T by assumption. fold r in T.
    change (8 * 3) with 24 in T. fold data in T. rewrite (Z.mul_comm 24). apply T; [assumption|exact Hk]. }
  unfold read_dynamic_relocation, mw_read_u64. rewrite !read_word by (assumption || lia). cbn [bind].
  pose proof (W 0%nat ltac:(lia)) as W0. pose proof (W 1%nat ltac:(lia)) as W1. pose proof (W 2%nat ltac:(lia)) as W2.
  cbn [nth relocation_row Z.of_nat] in W0, W1, W2. rewrite Z.mul_0_r, Z.add_0_r in W0.
  change (8 * Z.pos (Pos.of_succ_nat 0)) with 8 in W1. change (8 * Z.pos (Pos.of_succ_nat 1)) with 16 in W2.
  rewrite W0, W1, W2, !u64_small by assumption. destruct r; reflexivity.
Qed.

Lemma relocations_roundtrip_witness :
  exists data, write_relocations [{| dr_offset := 0x4000; dr_info := 8; dr_addend := 0x4100 |}] = Ok data /\
    read_relocations (Some (table_section 24 data)) = Ok [{| dr_offset := 0x4000; dr_info := 8; dr_addend := 0x4100 |}].
Proof.
  apply (relocations_roundtrip [{| dr_offset := 0x4000; dr_info := 8; dr_addend := 0x4100 |}]).
  - constructor; [unfold relocation_ok; cbn; lia|constructor].
  - reflexivity.
Defined.

(** ** The dynamic table *)

Definition entry_row (e : Z * Z) : list Z := [u64 (fst e); snd e].

(** The first entry with a tag, not beyond the terminating null entry. *)
Fixpoint entry_value (entries : list (Z * Z)) (wanted : Z) : Z :=
  match entries with
  | [] => 0
  | (tag, value) :: entries' =>
      if tag =? wanted then value else if tag =? 0 then 0 else entry_value entries' wanted
  end.

Lemma entry_rows_size es : Forall (fun r => size r = 2) (map entry_row es).
Proof. apply Forall_map, Forall_forall. reflexivity. Qed.

Lemma build_dynamic_ok modules libraries f (es := dynamic_entries modules libraries f) :
  size es < 2 ^ 59 ->
  build_dynamic modules libraries f =
  Ok (apply_writes (zeros (size es * 16)) (table_writes (map entry_row es) 2)).
Proof.
  intros Hs. pose proof (size_nonneg es). unfold build_dynamic. fold es.
  pose proof (write_rows (map entry_row es) 2 (write_dynamic_entry es)) as W.
  rewrite size_map_rows, length_map in W. change (8 * 2) with 16 in W. apply W; [lia|apply entry_rows_size|lia|].
  intros l i Hi Hl. rewrite (nth_map_in _ _ _ _ (0, 0)) by assumption.
  unfold write_dynamic_entry. rewrite (vector_at_nth _ _ (0, 0)) by assumption. cbn [bind].
  set (e := nth _ _ _). unfold mw_write_u64, entry_row, row_writes. cbn [List.length seq map nth].
  apply bind_checked_store; [lia|lia|lia|intros S1].
  rewrite checked_store_ok by lia. unfold apply_writes. cbn [fold_left fst snd].
  rewrite Z.mul_0_r, Z.add_0_r. reflexivity.
Qed.

(** Tags are non-negative 64-bit values. *)
Definition tag_ok (e : Z * Z) : Prop := 0 <= fst e < 2 ^ 63.

Section Lookup.
Context (es : list (Z * Z)).
Hypothesis Htags : Forall tag_ok es.
Hypothesis Hsize : size es < 2 ^ 59.
Let data := apply_writes (zeros (size es * 16)) (table_writes (map entry_row es) 2).

Lemma dynamic_data_ok : bytes_ok data /\ size data = size es * 16.
Proof.
  split; [apply table_bytes_ok|].
  pose proof (table_size (map entry_row es) 2 ltac:(lia) (entry_rows_size es)) as S.
  rewrite size_map_rows in S. change (8 * 2) with 16 in S. exact S.
Qed.

Lemma dynamic_words i : 0 <= i < size es ->
  field data (16 * i) 8 = u64 (fst (nth (Z.to_nat i) es (0, 0))) /\
  field data (16 * i + 8) 8 = u64 (snd (nth (Z.to_nat i) es (0, 0))).
Proof.
  intros Hi. pose proof (table_word (map entry_row es) 2 ltac:(lia) (entry_rows_size es) i) as T.
  rewrite size_map_rows, (nth_map_in _ _ _ _ (0, 0)) in T by assumption. change (8 * 2) with 16 in T. fold data in T.
  pose proof (T 0%nat Hi ltac:(cbn; lia)) as T0. pose proof (T 1%nat Hi ltac:(cbn; lia)) as T1.
  cbn [nth entry_row] in T0, T1. change (8 * Z.of_nat 0) with 0 in T0. change (8 * Z.of_nat 1) with 8 in T1.
  rewrite Z.add_0_r in T0. rewrite (Z.mul_comm 16). split; [|exact T1]. rewrite T0. unfold u64. apply Z.mod_mod. lia.
Qed.

Lemma s64_small x : 0 <= x < 2 ^ 63 -> s64 (u64 x) = x.
Proof.
  intros H. unfold s64. rewrite (u64_small x) by lia. rewrite u64_small by lia.
  replace (x <? 2 ^ 63) with true by lia. reflexivity.
Qed.

Lemma dynamic_lookup_from wanted n :
  (n <= List.length es)%nat ->
  dynamic_lookup data wanted (map (Z.mul 16) (indices (Z.of_nat (List.length es - n)) n)) =
  Ok (u64 (entry_value (skipn (List.length es - n) es) wanted)).
Proof.
  pose proof dynamic_data_ok as [B Sd]. pose proof (size_nonneg es).
  induction n as [|n IH]; intros Hn; cbn [indices map dynamic_lookup].
  - rewrite Nat.sub_0_r, skipn_all. reflexivity.
  - set (k := (List.length es - S n)%nat) in *. assert (Hi : 0 <= Z.of_nat k < size es) by (unfold k, size; lia).
    destruct (dynamic_words (Z.of_nat k) Hi) as [W0 W1]. rewrite Nat2Z.id in W0, W1.
    unfold mw_read_u64. rewrite read_word by (assumption || lia). cbn [bind]. rewrite W0.
    destruct (skipn k es) as [|[tag value] rest] eqn:E.
    { apply (f_equal (@List.length _)) in E. rewrite length_skipn in E. cbn in E. unfold k in E. lia. }
    assert (N : nth k es (0, 0) = (tag, value)).
    { rewrite <- (firstn_skipn k es), E, app_nth2 by (rewrite length_firstn; lia). rewrite length_firstn.
      replace (k - Nat.min k (List.length es))%nat with 0%nat by (unfold k; lia). reflexivity. }
    rewrite N in W0, W1. cbn [fst snd] in W0, W1. rewrite N. cbn [fst].
    assert (T : 0 <= tag < 2 ^ 63).
    { rewrite Forall_forall in Htags. apply (Htags (tag, value)). rewrite <- N. apply nth_In. unfold size in Hi. lia. }
    rewrite s64_small by assumption. cbn [entry_value].
    destruct (tag =? wanted); [rewrite read_word by (assumption || lia); rewrite W1; reflexivity|].
    destruct (tag =? 0); [reflexivity|].
    replace (Z.of_nat k + 1) with (Z.of_nat (List.length es - n)) by (unfold k; lia). rewrite IH by lia.
    replace (List.length es - n)%nat with (1 + k)%nat by (unfold k; lia). rewrite <- skipn_skipn, E. reflexivity.
Qed.

Lemma dynamic_value_ok wanted : dynamic_value (table_section 16 data) wanted = Ok (u64 (entry_value es wanted)).
Proof.
  pose proof dynamic_data_ok as [_ S]. pose proof (size_nonneg es).
  unfold dynamic_value, table_section. cbn [sec_entry_size sec_data]. rewrite S, Z.mod_mul by lia.
  cbn [Z.eqb Pos.eqb andb require bind]. rewrite offsets_below_multiple by lia.
  pose proof (dynamic_lookup_from wanted (List.length es) (Nat.le_refl _)) as L.
  rewrite Nat.sub_diag in L. cbn [skipn] in L. rewrite <- L. do 3 f_equal. unfold size. lia.
Qed.
End Lookup.

(** The tags of the module records. *)
Definition module_tag (tag : Z) : Prop :=
  tag = kDynamicNeeded \/ tag = kDynamicNeededModule \/ tag = kDynamicImportLibrary \/
  tag = kDynamicImportLibraryAttributes.

Lemma module_entries_tags libraries modules :
  Forall (fun e => module_tag (fst e)) (flat_map (module_entries libraries) modules).
Proof.
  apply Forall_flat_map, Forall_forall. intros m _. unfold module_entries, module_tag.
  constructor; [cbn; tauto|]. constructor; [cbn; tauto|]. apply Forall_flat_map, Forall_forall. intros l _.
  unfold library_entries. destruct (negb _); repeat constructor; cbn; tauto.
Qed.

Lemma entry_value_skip es es' wanted :
  Forall (fun e => fst e <> wanted /\ fst e <> 0) es -> entry_value (es ++ es') wanted = entry_value es' wanted.
Proof.
  induction 1 as [|[tag value] es [H1 H2] _ IH]; cbn [app entry_value]; [reflexivity|]. cbn in H1, H2.
  replace (tag =? wanted) with false by lia. replace (tag =? 0) with false by lia. exact IH.
Qed.

Lemma fixed_entries_value f tag value :
  In (tag, value) (fixed_entries f) -> tag <> 0 ->
  entry_value (fixed_entries f) tag = value /\ ~ module_tag tag /\ 0 <= tag < 2 ^ 63.
Proof.
  intros Hin Hne. unfold fixed_entries in Hin. cbn [In] in Hin.
  repeat (destruct Hin as [Hin|Hin];
    [inversion Hin; subst tag value; try congruence;
     (split; [reflexivity|split; [unfold module_tag; vm_compute; intuition discriminate|vm_compute; split; [discriminate|reflexivity]]])|]).
  destruct Hin.
Qed.

(** The dynamic table answers the loader: looking up any tag the writer
    records once (string, symbol, hash and relocation tables, their sizes and
    counts, initialisers, module information) in the table [build_dynamic]
    produced gives the value it was built from, whatever the modules and
    libraries listed before. *)
Theorem dynamic_table_answers modules libraries f tag value :
  size (dynamic_entries modules libraries f) < 2 ^ 59 -> In (tag, value) (fixed_entries f) -> tag <> 0 ->
  exists data, build_dynamic modules libraries f = Ok data /\
    dynamic_value (table_section 16 data) tag = Ok (u64 value).
Proof.
  intros Hs Hin Hne. eexists. split; [apply build_dynamic_ok; exact Hs|].
  destruct (fixed_entries_value f tag value Hin Hne) as (V & M & _).
  pose proof (module_entries_tags libraries modules) as MT.
  rewrite dynamic_value_ok; [|apply Forall_app; split|exact Hs].
  - unfold dynamic_entries. rewrite entry_value_skip, V; [reflexivity|].
    eapply Forall_impl; [|exact MT]. cbn. intros e He. split; [intros E1; apply M; rewrite <- E1; exact He|].
    unfold module_tag in He. intros E0. rewrite E0 in He. vm_compute in He. intuition discriminate.
  - eapply Forall_impl; [|exact MT]. intros [t v] He. unfold tag_ok, module_tag in *. cbn [fst] in *.
    destruct He as [->|[->|[->| ->]]]; vm_compute; (split; [discriminate|reflexivity]).
  - apply Forall_forall. intros [t v] Ht. unfold tag_ok. cbn [fst]. destruct (Z.eq_dec t 0) as [->|Hnz]; [lia|].
    apply (fixed_entries_value f t v Ht Hnz).
Qed.

Lemma dynamic_table_answers_witness :
  let f := {| df_module_info_name := 1; df_original_file_name := 2; df_symbol_table := 0x8000;
    df_string_table := 0x7000; df_string_size := 64; df_hash_table := 0x9000; df_hash_size := 24;
    df_jump_relocations := 0; df_jump_relocations_size := 0; df_got := 0x6000; df_symbol_table_size := 48;
    df_relocations := 0xa000; df_relocations_size := 24; df_relative_count := 1; df_preinit := 0;
    df_preinit_size := 0; df_init_array := 0; df_init_array_size := 0; df_fini_array := 0;
    df_fini_array_size := 0; df_init := 0; df_fini := 0 |} in
  exists data, build_dynamic [] [] f = Ok data /\
    dynamic_value (table_section 16 data) kDynamicSymbolTable = Ok (u64 0x8000).
Proof.
  intros f. apply (dynamic_table_answers [] [] f kDynamicSymbolTable 0x8000).
  - reflexivity.
  - cbn. tauto.
  - discriminate.
Defined.
