(* ===== verification/ModuleWriter.v ===== *)
(** * The PS5 module writer ([src/tooling/native/sce_module_writer.cpp], [write_executable])

    An LLVM-linked image and the SDK stubs it imports from, turned into the
    loader-visible module: [write_executable] in the order of the source,
    split at its natural joints (region extents, import resolution, string
    and symbol tables, layout, emission, headers, build id). *)

From Stdlib Require Import ZArith List Bool Lia String Ascii DecimalString DecimalN.
From S2P Require Import Prelude Bytes Hash ElfObject ModuleTables.
Import ListNotations.
Open Scope Z_scope.

(** 64-bit sums and differences. *)
Notation "a +! b" := (u64 (a + b)) (at level 50, left associativity).
Notation "a -! b" := (u64 (a - b)) (at level 50, left associativity).

Definition kU64Max : Z := 2 ^ 64 - 1.

Record Options := {
  mo_entry : string;
  mo_file_name : string;
  mo_module_sdk : Z;
  mo_companion_sdk : Z;
  mo_version_components : list string
}.

Definition default_module_options : Options := {|
  mo_entry := "_start"; mo_file_name := "eboot.elf"; mo_module_sdk := 0x02000009;
  mo_companion_sdk := 0x08050001; mo_version_components := [] |}.

(** [std::to_string] of an unsigned value. *)
Definition to_string (x : Z) : string := NilZero.string_of_uint (N.to_uint (Z.to_N x)).

(** ** Regions of the linked image *)

Record TlsExtent := { tls_start : Z; tls_file_end : Z; tls_memory_end : Z; tls_alignment : Z }.

Record Extents := {
  ex_text_end : Z;
  ex_ro_start : Z; ex_ro_end : Z;
  ex_relro_start : Z; ex_relro_content_end : Z;
  ex_data : Z * Z * Z;             (* data_start, data_end, data_stored_end *)
  ex_tls : TlsExtent
}.

(** The end of the copied file content. *)
Definition copied_file_end (image : Image) : Z :=
  fold_left (fun end_ input =>
      if negb (allocated input) || no_bits input then end_
      else Z.max end_ (sec_file_offset input +! size (sec_data input)))
    (image_sections image) kPage.

Definition initial_extents (text dynamic_source : Section_) : Extents := {|
  ex_text_end := sec_address text +! sec_size text;
  ex_ro_start := kU64Max; ex_ro_end := 0;
  ex_relro_start := kU64Max; ex_relro_content_end := 0;
  ex_data := (sec_address dynamic_source, sec_address dynamic_source +! 8, sec_address dynamic_source +! 8);
  ex_tls := {| tls_start := 0; tls_file_end := 0; tls_memory_end := 0; tls_alignment := 0x20 |} |}.

Definition tls_step (t : TlsExtent) (input : Section_) (end_ : Z) : TlsExtent :=
  let start := if tls_start t =? 0 then sec_address input else tls_start t in
  {| tls_start := Z.min start (sec_address input);
     tls_memory_end := Z.max (tls_memory_end t) end_;
     tls_file_end := if no_bits input then tls_file_end t else Z.max (tls_file_end t) end_;
     tls_alignment := Z.max (tls_alignment t) (sec_alignment input) |}.

Definition extent_step (e : Extents) (input : Section_) : Extents :=
  if negb (allocated input) || String.eqb (sec_name input) ".dynamic" then e
  else
    let end_ := sec_address input +! sec_size input in
    if executable input then
      {| ex_text_end := Z.max (ex_text_end e) end_; ex_ro_start := ex_ro_start e; ex_ro_end := ex_ro_end e;
         ex_relro_start := ex_relro_start e; ex_relro_content_end := ex_relro_content_end e;
         ex_data := ex_data e; ex_tls := ex_tls e |}
    else if tls input then
      {| ex_text_end := ex_text_end e; ex_ro_start := ex_ro_start e; ex_ro_end := ex_ro_end e;
         ex_relro_start := ex_relro_start e; ex_relro_content_end := ex_relro_content_end e;
         ex_data := ex_data e; ex_tls := tls_step (ex_tls e) input end_ |}
    else if relro_section (sec_name input) then
      {| ex_text_end := ex_text_end e; ex_ro_start := ex_ro_start e; ex_ro_end := ex_ro_end e;
         ex_relro_start := Z.min (ex_relro_start e) (sec_address input);
         ex_relro_content_end := Z.max (ex_relro_content_end e) end_;
         ex_data := ex_data e; ex_tls := ex_tls e |}
    else if writable input || no_bits input then
      let '(data_start, data_end, data_stored_end) := ex_data e in
      {| ex_text_end := ex_text_end e; ex_ro_start := ex_ro_start e; ex_ro_end := ex_ro_end e;
         ex_relro_start := ex_relro_start e; ex_relro_content_end := ex_relro_content_end e;
         ex_data := (Z.min data_start (sec_address input), Z.max data_end end_,
                     if no_bits input then data_stored_end else Z.max data_stored_end end_);
         ex_tls := ex_tls e |}
    else if negb (metadata_section (sec_name input)) then
      {| ex_text_end := ex_text_end e;
         ex_ro_start := Z.min (ex_ro_start e) (sec_address input); ex_ro_end := Z.max (ex_ro_end e) end_;
         ex_relro_start := ex_relro_start e; ex_relro_content_end := ex_relro_content_end e;
         ex_data := ex_data e; ex_tls := ex_tls e |}
    else e.

Definition image_extents (image : Image) (text dynamic_source : Section_) : outcome Extents :=
  let e := fold_left extent_step (image_sections image) (initial_extents text dynamic_source) in
  do! require (negb (ex_relro_start e =? kU64Max)) "LLVM-linked image has no GOT/RELRO region" in
  if ex_ro_start e =? kU64Max then
    let ro_start := align_up (ex_text_end e) kPage in
    Ok {| ex_text_end := ex_text_end e; ex_ro_start := ro_start; ex_ro_end := ro_start;
          ex_relro_start := ex_relro_start e; ex_relro_content_end := ex_relro_content_end e;
          ex_data := ex_data e; ex_tls := ex_tls e |}
  else Ok e.

(** ** Imports

    [const Stub *] is the stub's index in [stubs]: the source compares the
    pointers, not the stubs. *)

Record Import := {
  im_plain : string;
  im_provider : Z;
  im_module_id : Z;
  im_library_id : Z;
  im_dynamic_symbol : Z;
  im_mangled : string
}.

Fixpoint find_index {A : Type} (f : A -> bool) (l : list A) (i : Z) : option Z :=
  match l with
  | [] => None
  | a :: l' => if f a then Some i else find_index f l' (i + 1)
  end.

Definition resolve_needed (stubs : list Stub) (needed : string) : outcome Z :=
  match find_index (fun s => String.eqb (stub_soname s) needed) stubs 0 with
  | Some i => Ok i
  | None => Throw ("public SDK stub directory lacks needed module " ++ needed)
  end.

Fixpoint find_provider (stubs : list Stub) (name : string) (order : list Z) : outcome (option Z) :=
  match order with
  | [] => Ok None
  | p :: order' =>
      let! candidate := vector_at stubs p in
      if existsb (String.eqb name) (stub_exports candidate) then Ok (Some p)
      else find_provider stubs name order'
  end.

Definition resolve_import (stubs : list Stub) (order : list Z) (symbols : list Symbol) (i : Z) : outcome Import :=
  let! symbol := vector_at symbols i in
  do! require (undefined symbol) "native converter does not yet publish application exports" in
  let! provider := find_provider stubs (sym_name symbol) order in
  match provider with
  | None => Throw ("no public SDK stub exports required symbol " ++ sym_name symbol)
  | Some p => Ok {| im_plain := sym_name symbol; im_provider := p; im_module_id := 0; im_library_id := 0;
                    im_dynamic_symbol := u32 i; im_mangled := "" |}
  end.

(** The module and library records, with the strings they refer to. *)
Record ModuleTables := {
  mt_modules : list ModuleRecord;
  mt_libraries : list LibraryRecord;
  mt_strings : StringTable
}.

Definition add_module (stubs : list Stub) (order : list Z) (t : ModuleTables) (i : Z) : outcome ModuleTables :=
  let! p := vector_at order i in
  let! provider := vector_at stubs p in
  let '(soname, strings) := st_add (mt_strings t) (stub_soname provider) in
  let '(module_name, strings) := st_add strings (stub_module_name provider) in
  let '(library_name, strings) := st_add strings (stub_library_name provider) in
  Ok {| mt_modules := mt_modules t ++ [{| mr_id := s32 (i + 1); mr_soname := soname; mr_module_name := module_name |}];
        mt_libraries := mt_libraries t ++ [{| lr_id := s32 i; lr_module_id := s32 (i + 1); lr_name := library_name |}];
        mt_strings := strings |}.

Definition mangle_import (order : list Z) (i : Import) : outcome Import :=
  match find_index (Z.eqb (im_provider i)) order 0 with
  | None => Throw "internal import provider error"
  | Some module =>
      let index_ := s32 module in
      let! id := nid (im_plain i) in
      Ok {| im_plain := im_plain i; im_provider := im_provider i; im_module_id := index_ + 1;
            im_library_id := index_; im_dynamic_symbol := im_dynamic_symbol i;
            im_mangled := (id ++ "#" ++ encode_id index_ ++ "#" ++ encode_id (index_ + 1))%string |}
  end.

(** [module_name.resize(module_name.find_last_of('.'))] *)
Fixpoint before_last_dot (name : string) : option string :=
  match name with
  | EmptyString => None
  | String c rest =>
      match before_last_dot rest with
      | Some r => Some (String c r)
      | None => if Ascii.eqb c "." then Some EmptyString else None
      end
  end.

Definition strip_extension (name : string) : string :=
  match before_last_dot name with Some r => r | None => name end.

(** ** The dynamic symbol table *)

Record SymbolTables := { sy_strings : StringTable; sy_symbols : Bytes; sy_hash_names : list string }.

(** [v\[i\] = a] *)
Definition vector_set {A : Type} (l : list A) (i : Z) (a : A) : outcome (list A) :=
  if (0 <=? i) && (i <? size l)
  then Ok (firstn (Z.to_nat i) l ++ a :: skipn (Z.to_nat i + 1) l)
  else Undefined.

Definition write_symbol (stubs : list Stub) (symbols : list Symbol) (t : SymbolTables) (i : Import)
  : outcome SymbolTables :=
  let! source := vector_at symbols (im_dynamic_symbol i) in
  let at_ := u32 (im_dynamic_symbol i * 24) in
  let '(name, strings) := st_add (sy_strings t) (im_mangled i) in
  let! data := mw_write_u32 (sy_symbols t) at_ name in
  let! data := store data (at_ + 4) (sym_info source) in
  let! data := store data (at_ + 5) (sym_other source) in
  let! data := mw_write_u16 data (at_ + 6) (sym_section source) in
  let! data := mw_write_u64 data (at_ + 8) (sym_value source) in
  let! data := mw_write_u64 data (at_ + 16) (sym_size source) in
  let! id := nid (im_plain i) in
  let! provider := vector_at stubs (im_provider i) in
  let! hash_names := vector_set (sy_hash_names t) (im_dynamic_symbol i)
    (id ++ "#" ++ stub_library_name provider ++ "#" ++ stub_module_name provider)%string in
  Ok {| sy_strings := strings; sy_symbols := data; sy_hash_names := hash_names |}.

(** Everything the dynamic segment needs from the imports. *)
Record ImportTables := {
  it_order : list Z;
  it_tables : ModuleTables;
  it_file_name : Z;
  it_module_name : Z;
  it_strings : Bytes;
  it_symbols : Bytes;
  it_hash : Bytes
}.

Definition build_imports (image : Image) (stubs : list Stub) (options : Options) : outcome ImportTables :=
  let symbols := image_dynamic_symbols image in
  let! order := collect (resolve_needed stubs) (image_needed image) in
  let! imports := collect (resolve_import stubs order symbols) (indices 1 (List.length symbols - 1)) in
  let! tables := for_each (add_module stubs order)
    {| mt_modules := []; mt_libraries := []; mt_strings := string_table |} (indices 0 (List.length order)) in
  let! imports := collect (mangle_import order) imports in
  let '(file_name, strings) := st_add (mt_strings tables) (mo_file_name options) in
  let '(module_name, strings) := st_add strings (strip_extension (mo_file_name options)) in
  let! written := for_each (write_symbol stubs symbols)
    {| sy_strings := strings; sy_symbols := zeros (size symbols * 24);
       sy_hash_names := repeat EmptyString (List.length symbols) |} imports in
  let! hash := build_sysv_hash (sy_hash_names written) in
  Ok {| it_order := order; it_tables := tables; it_file_name := file_name; it_module_name := module_name;
        it_strings := st_data (sy_strings written); it_symbols := sy_symbols written; it_hash := hash |}.

(** ** Relocations *)

Definition is_relative (r : DynamicRelocation) : bool := u32 (dr_info r) =? kRelRelative.

Definition parameter_pointers (blocks : ParameterBlocks) (process_address blocks_address : Z) : list (Z * Z) :=
  let offset k := nth k (pb_offsets blocks) 0 in
  [ (process_address +! 0x38, blocks_address +! offset 0%nat);
    (process_address +! 0x40, blocks_address +! offset 1%nat);
    (process_address +! 0x48, blocks_address +! offset 2%nat);
    (blocks_address +! 0x30, blocks_address +! offset 3%nat);
    (blocks_address +! 0x38, blocks_address +! offset 4%nat);
    (blocks_address +! 0x60, blocks_address +! offset 5%nat);
    (blocks_address +! 0x10, blocks_address +! pb_heap_size blocks);
    (blocks_address +! 0x20, blocks_address +! pb_heap_extended blocks) ].

(** The relative relocations, the parameter block's first, then the others. *)
Definition module_relocations (blocks : ParameterBlocks) (process_address blocks_address : Z)
  (source : list DynamicRelocation) : list DynamicRelocation * Z :=
  let relative :=
    map (fun p => {| dr_offset := fst p; dr_info := kRelRelative; dr_addend := snd p |})
      (parameter_pointers blocks process_address blocks_address) ++ filter is_relative source in
  (relative ++ filter (fun r => negb (is_relative r)) source, size relative).

(** ** Layout *)

Record ModuleLayout := {
  ml_process_address : Z;
  ml_blocks_address : Z;
  ml_relro_end : Z;
  ml_data_start : Z;
  ml_data_end : Z;
  ml_dynamic_base : Z;
  ml_symbol_address : Z;
  ml_jump_address : Z;
  ml_relocation_address : Z;
  ml_hash_address : Z;
  ml_note_address : Z;
  ml_dynamic_address : Z;
  ml_dynamic_file : Z;
  ml_comment_file : Z;
  ml_version_file : Z;
  ml_tail_file : Z
}.

(** The blocks a module is assembled from. *)
Record ModuleBlocks := {
  mb_process : Bytes;
  mb_parameters : ParameterBlocks;
  mb_strings : Bytes;
  mb_symbols : Bytes;
  mb_rela_plt : Bytes;
  mb_rela_dynamic : Bytes;
  mb_hash : Bytes;
  mb_note : Bytes;
  mb_dynamic : Bytes;
  mb_comment : Bytes;
  mb_version : Bytes;
  mb_tail_note : Bytes
}.

(** [dynamic_file_at] *)
Definition dynamic_file_at (dynamic_file dynamic_base address : Z) : Z := dynamic_file +! (address -! dynamic_base).

(** The process-parameter and relocation addresses. *)
Definition process_layout (e : Extents) (process_size blocks_size : Z) : Z * Z * Z :=
  let process_address :=
    align_up (Z.max (ex_relro_content_end e) (if ex_relro_start e <? ex_ro_end e then ex_ro_end e else 0)) 8 in
  let blocks_address := align_up (process_address +! process_size) 8 in
  (process_address, blocks_address, blocks_address +! blocks_size).

Definition dynamic_source_value (dynamic_source : Section_) (l : list Z) : outcome (list Z) :=
  collect (dynamic_value dynamic_source) l.

(** The version components: the given ones, or the runtime object and every
    imported module. *)
Definition version_components (stubs : list Stub) (order : list Z) (options : Options) : outcome (list string) :=
  if negb (size (mo_version_components options) =? 0) then Ok (mo_version_components options)
  else
    let! sonames := collect (fun p => let! s := vector_at stubs p in Ok (stub_soname s)) order in
    Ok ("app_crt.o"%string :: sonames).

(** ** Emission *)

Definition copy_section (output : Bytes) (input : Section_) : outcome Bytes :=
  if negb (allocated input) || no_bits input || metadata_section (sec_name input) ||
     String.eqb (sec_name input) ".dynamic"
  then Ok output
  else mw_copy_bytes output (sec_file_offset input) (sec_data input).

(** The RELRO section with the lowest address, the first of several. *)
Definition relro_first (image : Image) : option Section_ :=
  fold_left (fun first input =>
      if allocated input && relro_section (sec_name input) &&
         match first with None => true | Some f => sec_address input <? sec_address f end
      then Some input else first)
    (image_sections image) None.

Definition copy_blocks (output : Bytes) (b : ModuleBlocks) (m : ModuleLayout) (relro_file relro_start : Z)
  : outcome Bytes :=
  let at_ := dynamic_file_at (ml_dynamic_file m) (ml_dynamic_base m) in
  let! output := mw_copy_bytes output (relro_file +! ml_process_address m -! relro_start) (mb_process b) in
  let! output := mw_copy_bytes output (relro_file +! ml_blocks_address m -! relro_start) (pb_data (mb_parameters b)) in
  let! output := mw_copy_bytes output (at_ (ml_dynamic_base m)) (mb_strings b) in
  let! output := mw_copy_bytes output (at_ (ml_symbol_address m)) (mb_symbols b) in
  let! output := mw_copy_bytes output (at_ (ml_jump_address m)) (mb_rela_plt b) in
  let! output := mw_copy_bytes output (at_ (ml_relocation_address m)) (mb_rela_dynamic b) in
  let! output := mw_copy_bytes output (at_ (ml_hash_address m)) (mb_hash b) in
  let! output := mw_copy_bytes output (at_ (ml_note_address m)) (mb_note b) in
  let! output := mw_copy_bytes output (at_ (ml_dynamic_address m)) (mb_dynamic b) in
  let! output := mw_copy_bytes output (ml_comment_file m) (mb_comment b) in
  let! output := mw_copy_bytes output (ml_version_file m) (mb_version b) in
  mw_copy_bytes output (ml_tail_file m) (mb_tail_note b).

Definition program_header (type flags offset address file_size memory_size alignment : Z) : ProgramHeader := {|
  ph_type := type; ph_flags := flags; ph_offset := offset; ph_address := address;
  ph_file_size := file_size; ph_memory_size := memory_size; ph_alignment := alignment |}.

Definition program_headers (text dynamic_source : Section_) (eh_header : option Section_)
  (e : Extents) (m : ModuleLayout) (b : ModuleBlocks) (relro_file ro_file : Z) : list ProgramHeader :=
  let at_ := dynamic_file_at (ml_dynamic_file m) (ml_dynamic_base m) in
  let relro_start := ex_relro_start e in
  let relro_end := ml_relro_end m in
  let data_start := ml_data_start m in
  let data_file := sec_file_offset dynamic_source in
  let data_file_size := Z.max 8 (snd (ex_data e) -! data_start) in
  let t := ex_tls e in
  let no_tls := tls_start t =? 0 in
  let tls_file := if no_tls then relro_file +! (relro_end -! relro_start)
                  else relro_file +! (tls_start t -! relro_start) in
  let eh_address := match eh_header with None => ex_ro_start e | Some h => sec_address h end in
  let eh_file := match eh_header with None => ro_file | Some h => sec_file_offset h end in
  let eh_size := match eh_header with None => 0 | Some h => sec_size h end in
  let dynamic_end := ml_dynamic_address m +! size (mb_dynamic b) in
  [ program_header kProgramLoad kPhFlagExecute (sec_file_offset text) 0 (ex_text_end e) (ex_text_end e) kPage;
    program_header kProgramLoad kPhFlagRead ro_file (ex_ro_start e) (ex_ro_end e -! ex_ro_start e)
      (ex_ro_end e -! ex_ro_start e) kPage;
    program_header kProgramLoad (Z.lor kPhFlagRead kPhFlagWrite) relro_file relro_start
      (relro_end -! relro_start) (relro_end -! relro_start) kPage;
    program_header kProgramGnuRelro kPhFlagRead relro_file relro_start (relro_end -! relro_start)
      (align_up (relro_end -! relro_start) kPage) 1;
    program_header kProgramLoad (Z.lor kPhFlagRead kPhFlagWrite) data_file data_start data_file_size
      (ml_data_end m -! data_start) kPage;
    program_header kProgramProcParam kPhFlagRead (relro_file +! ml_process_address m -! relro_start)
      (ml_process_address m) (size (mb_process b)) (size (mb_process b)) 8;
    program_header kProgramDynamic (Z.lor kPhFlagRead kPhFlagWrite) (at_ (ml_dynamic_address m))
      (ml_dynamic_address m) (size (mb_dynamic b)) (size (mb_dynamic b)) 8;
    program_header kProgramTls kPhFlagRead (if no_tls then relro_file else tls_file)
      (if no_tls then relro_start else tls_start t) (if no_tls then 0 else tls_file_end t -! tls_start t)
      (if no_tls then 0 else tls_memory_end t -! tls_start t) (if no_tls then 1 else tls_alignment t);
    program_header kProgramGnuEhFrame kPhFlagRead eh_file eh_address eh_size eh_size 4;
    program_header kProgramLoad 0 (ml_dynamic_file m) (ml_dynamic_base m) (dynamic_end -! ml_dynamic_base m)
      (dynamic_end -! ml_dynamic_base m) kPage;
    program_header kProgramComment 0 (ml_comment_file m) 0 (size (mb_comment b)) 0 0x10;
    program_header kProgramVersion 0 (ml_version_file m) 0 (size (mb_version b)) (size (mb_version b)) 1;
    program_header kProgramNote 0 (at_ (ml_note_address m)) (ml_note_address m) (size (mb_note b))
      (size (mb_note b)) 4;
    program_header kProgramNote 0 (ml_tail_file m) 0 (size (mb_tail_note b)) 0 4 ].

(** The loader's rule for a loadable segment. *)
Definition header_congruent (h : ProgramHeader) : bool :=
  negb ((ph_type h =? kProgramLoad) && (1 <? ph_alignment h)) ||
  (ph_offset h mod ph_alignment h =? ph_address h mod ph_alignment h).

Definition check_header (h : ProgramHeader) : outcome unit :=
  require (header_congruent h)
    ("PT_LOAD at address " ++ to_string (ph_address h) ++ " is not page aligned with file offset " ++
     to_string (ph_offset h)).

Definition write_headers (output : Bytes) (headers : list ProgramHeader) : outcome Bytes :=
  for_each (fun output i => let! h := vector_at headers i in write_program_header output i h)
    output (indices 0 (List.length headers)).

(** The build id, written into both notes. *)
Definition seal_module (output : Bytes) (m : ModuleLayout) : outcome Bytes :=
  let! build_id := sha1 output in
  let! output := copy_raw output
    (dynamic_file_at (ml_dynamic_file m) (ml_dynamic_base m) (ml_note_address m) + 16) (sub build_id 0 16) in
  copy_raw output (ml_tail_file m + 16) (sub build_id 0 8).

(** ** The whole conversion *)

(** What is computed before the output exists: the extents, the blocks and
    their addresses. *)
Definition plan_module (image : Image) (stubs : list Stub) (options : Options)
  (dynamic_source got : Section_) (e : Extents) : outcome (ModuleBlocks * ModuleLayout) :=
  let! process := build_process_parameters (mo_module_sdk options) (mo_companion_sdk options) in
  let! blocks := build_parameter_blocks in
  let '(data_start, data_end, _) := ex_data e in
  let '(process_address, blocks_address, relro_end) := process_layout e (size process) (size (pb_data blocks)) in
  do! require (relro_end <=? data_start) "LLVM layout leaves no room for PS5 process parameters" in
  let! imports := build_imports image stubs options in
  let! source := read_relocations (optional_section image ".rela.dyn") in
  let '(relocations, relative_count) := module_relocations blocks process_address blocks_address source in
  let! rela_dynamic := write_relocations relocations in
  let rela_plt := match optional_section image ".rela.plt" with None => [] | Some s => sec_data s end in
  let! note := build_note in
  let data_end := Z.max data_end (data_start +! 8) in
  let dynamic_base := align_up data_end 16 in
  let symbol_address := align_up (dynamic_base +! size (it_strings imports)) 8 in
  let jump_address := align_up (symbol_address +! size (it_symbols imports)) 8 in
  let relocation_address := align_up (jump_address +! size rela_plt) 8 in
  let hash_address := align_up (relocation_address +! size rela_dynamic) 8 in
  let note_address := align_up (hash_address +! size (it_hash imports)) 4 in
  let dynamic_address := align_up (note_address +! size note) 8 in
  let! values := dynamic_source_value dynamic_source
    [kDynamicPreinitArray; kDynamicPreinitArraySize; kDynamicInitArray; kDynamicInitArraySize;
     kDynamicFiniArray; kDynamicFiniArraySize; kDynamicInit; kDynamicFini] in
  let value k := nth k values 0 in
  let! dynamic := build_dynamic (mt_modules (it_tables imports)) (mt_libraries (it_tables imports))
    {| df_module_info_name := it_module_name imports; df_original_file_name := it_file_name imports;
       df_symbol_table := symbol_address; df_string_table := dynamic_base;
       df_string_size := size (it_strings imports); df_hash_table := hash_address;
       df_hash_size := size (it_hash imports); df_jump_relocations := jump_address;
       df_jump_relocations_size := size rela_plt; df_got := sec_address got;
       df_symbol_table_size := size (it_symbols imports); df_relocations := relocation_address;
       df_relocations_size := size rela_dynamic; df_relative_count := relative_count;
       df_preinit := value 0%nat; df_preinit_size := value 1%nat; df_init_array := value 2%nat;
       df_init_array_size := value 3%nat; df_fini_array := value 4%nat; df_fini_array_size := value 5%nat;
       df_init := value 6%nat; df_fini := value 7%nat |} in
  let! components := version_components stubs (it_order imports) options in
  let! comment := build_comment (mo_file_name options) in
  let! version := build_version components (mo_module_sdk options) in
  let! tail_note := build_tail_note in
  let dynamic_file := congruent_offset (copied_file_end image) dynamic_base in
  let dynamic_end := dynamic_address +! size dynamic in
  let comment_file := align_up (dynamic_file_at dynamic_file dynamic_base dynamic_end) 8 in
  let version_file := align_up (comment_file +! size comment) 4 in
  let tail_file := align_up (version_file +! size version) 4 in
  Ok ({| mb_process := process; mb_parameters := blocks; mb_strings := it_strings imports;
         mb_symbols := it_symbols imports; mb_rela_plt := rela_plt; mb_rela_dynamic := rela_dynamic;
         mb_hash := it_hash imports; mb_note := note; mb_dynamic := dynamic; mb_comment := comment;
         mb_version := version; mb_tail_note := tail_note |},
      {| ml_process_address := process_address; ml_blocks_address := blocks_address;
         ml_relro_end := relro_end; ml_data_start := data_start; ml_data_end := data_end;
         ml_dynamic_base := dynamic_base; ml_symbol_address := symbol_address;
         ml_jump_address := jump_address; ml_relocation_address := relocation_address;
         ml_hash_address := hash_address; ml_note_address := note_address;
         ml_dynamic_address := dynamic_address; ml_dynamic_file := dynamic_file;
         ml_comment_file := comment_file; ml_version_file := version_file; ml_tail_file := tail_file |}).

(** What [write_executable] has settled when it allocates the output. *)
Record Prepared := {
  pr_text : Section_;
  pr_dynamic : Section_;
  pr_extents : Extents;
  pr_blocks : ModuleBlocks;
  pr_layout : ModuleLayout
}.

Definition prepare_module (image : Image) (stubs : list Stub) (options : Options) : outcome Prepared :=
  let! text := section image ".text" in
  let! dynamic_source := section image ".dynamic" in
  let! got := section image ".got" in
  do! require (executable text && (sec_address text =? 0) && (kPage <=? sec_file_offset text))
        "LLVM text layout is incompatible with the PS5 converter" in
  let! e := image_extents image text dynamic_source in
  let! ' (b, m) := plan_module image stubs options dynamic_source got e in
  Ok {| pr_text := text; pr_dynamic := dynamic_source; pr_extents := e; pr_blocks := b; pr_layout := m |}.

(** The section the RELRO segment starts with. *)
Definition relro_source (image : Image) (relro_start : Z) : outcome Section_ :=
  match relro_first image with
  | Some f => do! require (sec_address f =? relro_start)
                    "RELRO start section does not match the RELRO region" in Ok f
  | None => Throw "RELRO start section does not match the RELRO region"
  end.

(** The file offset of the read-only segment. *)
Definition ro_source (image : Image) (eh_header : option Section_) : outcome Z :=
  match eh_header with
  | Some h => Ok (sec_file_offset h)
  | None => let! s := section image ".eh_frame" in Ok (sec_file_offset s)
  end.

(** The module before its build id. *)
Definition assemble_module (image : Image) (p : Prepared) : outcome Bytes :=
  let e := pr_extents p in
  let m := pr_layout p in
  let b := pr_blocks p in
  let eh_header := optional_section image ".eh_frame_hdr" in
  let output := zeros (ml_tail_file m +! size (mb_tail_note b)) in
  let! output := for_each copy_section output (image_sections image) in
  let! first := relro_source image (ex_relro_start e) in
  let relro_file := sec_file_offset first in
  let! output := copy_blocks output b m relro_file (ex_relro_start e) in
  let! output := write_elf_header output (image_entry image) in
  let! ro_file := ro_source image eh_header in
  let headers := program_headers (pr_text p) (pr_dynamic p) eh_header e m b relro_file ro_file in
  let! _ := collect check_header headers in
  write_headers output headers.

Definition write_executable (image : Image) (stubs : list Stub) (options : Options) : outcome Bytes :=
  let! p := prepare_module image stubs options in
  let! output := assemble_module image p in
  seal_module output (pr_layout p).
