(* ===== verification/ModuleHeaders.v ===== *)
(** * The headers of a written module

    Whatever image is converted, the module that comes out starts with the
    ELF header the container and the loader expect, its fourteen program
    headers are the ones computed, and every loadable one agrees with its
    address modulo its alignment; sealing the build id does not touch them. *)

From Stdlib Require Import ZArith List Bool Lia String.
From S2P Require Import Prelude Bytes Writes Hash ElfObject ModuleTables DynamicTables ModuleWriter.
Import ListNotations.
Open Scope Z_scope.

(** ** The header log *)

Definition elf_header_writes (entry : Z) : list write :=
  [ (0, [u8 0x7f]); (1, [u8 0x45]); (2, [u8 0x4c]); (3, [u8 0x46]); (4, [u8 2]); (5, [u8 1]); (6, [u8 1]);
    (7, [u8 9]); (8, [u8 2]);
    (0x10, le_bytes 2 kTypeDynamicExecutable); (0x12, le_bytes 2 0x3e); (0x14, le_bytes 4 1);
    (0x18, le_bytes 8 entry); (0x20, le_bytes 8 0x40); (0x28, le_bytes 8 0); (0x30, le_bytes 4 0);
    (0x34, le_bytes 2 0x40); (0x36, le_bytes 2 0x38); (0x38, le_bytes 2 14); (0x3a, le_bytes 2 0x40);
    (0x3c, le_bytes 2 0); (0x3e, le_bytes 2 0) ].

Definition header_at (i : Z) : Z := 0x40 + i * 0x38.

Definition program_header_writes (i : Z) (h : ProgramHeader) : list write :=
  [ (header_at i, le_bytes 4 (ph_type h)); (header_at i + 4, le_bytes 4 (ph_flags h));
    (header_at i + 8, le_bytes 8 (ph_offset h)); (header_at i + 16, le_bytes 8 (ph_address h));
    (header_at i + 24, le_bytes 8 (ph_address h)); (header_at i + 32, le_bytes 8 (ph_file_size h));
    (header_at i + 40, le_bytes 8 (ph_memory_size h)); (header_at i + 48, le_bytes 8 (ph_alignment h)) ].

Definition no_header : ProgramHeader := program_header 0 0 0 0 0 0 0.

Definition headers_writes (headers : list ProgramHeader) : list write :=
  flat_map (fun i => program_header_writes i (nth (Z.to_nat i) headers no_header)) (indices 0 (List.length headers)).

Lemma elf_header_ascending entry : ascending 0 (elf_header_writes entry) 0x40.
Proof.
  unfold elf_header_writes. cbn [ascending fst snd]. rewrite ?size_le_bytes.
  repeat split; change (size [_]) with 1; lia.
Qed.

Lemma program_header_ascending i h : ascending (header_at i) (program_header_writes i h) (header_at (i + 1)).
Proof.
  unfold program_header_writes, header_at. cbn [ascending fst snd]. rewrite ?size_le_bytes. repeat split; lia.
Qed.

Lemma headers_ascending headers : ascending 0x40 (headers_writes headers) (header_at (size headers)).
Proof.
  exact (ascending_flat_map (fun i => program_header_writes i (nth (Z.to_nat i) headers no_header)) header_at 0
    (List.length headers) (fun i _ => program_header_ascending i _)).
Qed.

Lemma bind_store_byte {B} l a v (k : Bytes -> outcome B) r :
  0 <= a -> a + 1 <= size l -> (size (put l a [u8 v]) = size l -> k (put l a [u8 v]) = r) ->
  bind (store l a v) k = r.
Proof.
  intros Ha Hl Hk. rewrite store_ok by lia. cbn [bind]. apply Hk. apply size_put; [lia|]. change (size [u8 v]) with 1. lia.
Qed.

Lemma mw_write_u16_ok data a v :
  0 <= a -> a + 2 <= size data -> size data < 2 ^ 64 -> mw_write_u16 data a v = Ok (put data a (le_bytes 2 v)).
Proof.
  intros Ha Hb Hs. unfold mw_write_u16. rewrite u64_small by lia.
  replace (a + 2 <=? size data) with true by lia. cbn [require bind].
  apply bind_store_byte; [lia|lia|intros S]. rewrite store_ok by lia. f_equal.
  change (a + 1) with (a + size [u8 v]).
  rewrite put_put_adjacent by (change (size [u8 v]) with 1; change (size [_]) with 1; lia).
  cbn [app le_bytes]. unfold u8. rewrite Z.shiftr_div_pow2 by lia. reflexivity.
Qed.

Lemma bind_mw_write_u16 {B} l a v (k : Bytes -> outcome B) r :
  0 <= a -> a + 2 <= size l -> size l < 2 ^ 64 ->
  (size (put l a (le_bytes 2 v)) = size l -> k (put l a (le_bytes 2 v)) = r) -> bind (mw_write_u16 l a v) k = r.
Proof.
  intros Ha Hl Hs Hk. rewrite mw_write_u16_ok by assumption. cbn [bind]. apply Hk. apply size_put; [lia|].
  rewrite size_le_bytes. lia.
Qed.

(** A write inside a chain, the buffer after it named. *)
Lemma named_store {B} l a v (k : Bytes -> outcome B) r :
  0 <= a -> a + 1 <= size l -> (forall l', l' = put l a [u8 v] -> size l' = size l -> k l' = r) ->
  bind (store l a v) k = r.
Proof. intros Ha Hl Hk. apply bind_store_byte; [assumption|assumption|]. intros S. apply Hk; auto. Qed.

Lemma named_write {B} message n l a v (k : Bytes -> outcome B) r :
  0 <= a -> a + Z.of_nat n <= size l -> size l < 2 ^ 64 ->
  (forall l', l' = put l a (le_bytes n v) -> size l' = size l -> k l' = r) ->
  bind (checked_store message n l a v) k = r.
Proof. intros Ha Hl Hs Hk. apply bind_checked_store; [assumption..|]. intros S. apply Hk; auto. Qed.

Lemma named_write_u16 {B} l a v (k : Bytes -> outcome B) r :
  0 <= a -> a + 2 <= size l -> size l < 2 ^ 64 ->
  (forall l', l' = put l a (le_bytes 2 v) -> size l' = size l -> k l' = r) -> bind (mw_write_u16 l a v) k = r.
Proof. intros Ha Hl Hs Hk. apply bind_mw_write_u16; [assumption..|]. intros S. apply Hk; auto. Qed.

Ltac mw_step :=
  cbv beta;
  lazymatch goal with
  | |- bind (bind _ _) _ = _ => rewrite bind_assoc
  | |- bind (Ok _) _ = _ => cbn [bind]
  | |- bind (store _ _ _) _ = _ => apply named_store; [lia|lia|intros ? ? ?]
  | |- bind (mw_write_u16 _ _ _) _ = _ => apply named_write_u16; [lia|lia|lia|intros ? ? ?]
  | |- bind (mw_write_u32 _ _ _) _ = _ => apply named_write; [lia|lia|lia|intros ? ? ?]
  | |- bind (mw_write_u64 _ _ _) _ = _ => apply named_write; [lia|lia|lia|intros ? ? ?]
  | |- mw_write_u16 _ _ _ = _ => rewrite mw_write_u16_ok by lia; subst; unfold apply_writes; cbn [fold_left fst snd elf_header_writes program_header_writes]; reflexivity
  | |- mw_write_u64 _ _ _ = _ => unfold mw_write_u64; rewrite checked_store_ok by lia; subst; unfold apply_writes; cbn [fold_left fst snd elf_header_writes program_header_writes]; reflexivity
  end.

Lemma write_elf_header_ok l entry :
  kPage <= size l < 2 ^ 64 -> write_elf_header l entry = Ok (apply_writes l (elf_header_writes entry)).
Proof.
  unfold kPage. intros H. unfold write_elf_header, kPage. rewrite require_true by lia.
  unfold store_all. cbn [for_each fst snd]. repeat mw_step.
Qed.

Lemma write_program_header_ok l i h :
  0 <= i -> header_at (i + 1) <= size l < 2 ^ 64 ->
  write_program_header l i h = Ok (apply_writes l (program_header_writes i h)).
Proof.
  unfold header_at. intros Hi Hl. unfold write_program_header. repeat mw_step.
Qed.

Lemma write_headers_ok l headers :
  header_at (size headers) <= size l < 2 ^ 64 ->
  write_headers l headers = Ok (apply_writes l (headers_writes headers)).
Proof.
  intros Hl. unfold write_headers, headers_writes. apply (for_each_writes _ _ _ _ (size l)); [|reflexivity].
  intros o i Hi Ho. apply in_indices in Hi. assert (Hi' : 0 <= i < size headers) by (unfold size; lia).
  rewrite (vector_at_nth headers i no_header Hi'). cbn [bind]. unfold header_at in *.
  split; [apply write_program_header_ok; unfold header_at; lia|].
  rewrite <- Ho. apply (size_apply_writes (header_at i) _ (header_at (i + 1))); unfold header_at;
    [lia|apply program_header_ascending|lia].
Qed.

(** ** No address wraps *)

(** A section of a real image: addresses, offsets and sizes below 2^48. *)
Definition section_small (s : Section_) : Prop :=
  0 <= sec_address s /\ 0 <= sec_size s /\ sec_address s + sec_size s <= 2 ^ 48 /\
  0 <= sec_file_offset s /\ sec_file_offset s + size (sec_data s) <= 2 ^ 48.

Definition image_small (image : Image) : Prop := Forall section_small (image_sections image).

(** The assembled blocks are vectors in memory: below 2^48 bytes each. *)
Definition blocks_small (b : ModuleBlocks) : bool :=
  forallb (fun x => size x <=? 2 ^ 48)
    [mb_strings b; mb_symbols b; mb_rela_plt b; mb_rela_dynamic b; mb_hash b; mb_dynamic b; mb_comment b;
     mb_version b].

Lemma section_in image name s : section image name = Ok s -> In s (image_sections image).
Proof.
  unfold section. destruct (find _ _) eqn:E; [|discriminate]. intros H. injection H as <-.
  apply find_some in E. tauto.
Qed.

Lemma copied_file_end_bounds image : image_small image -> kPage <= copied_file_end image <= 2 ^ 48.
Proof.
  unfold image_small, copied_file_end. intros H. rewrite Forall_forall in H.
  apply (fold_left_invariant_in _ (fun e => kPage <= e <= 2 ^ 48)); [|unfold kPage; lia].
  intros e s He Hs. destruct (_ || _); [assumption|]. destruct (H s Hs) as (? & ? & ? & ? & ?).
  pose proof (size_nonneg (sec_data s)). rewrite u64_small by lia. lia.
Qed.

(** Data starts and ends below 2^49. *)
Definition extents_small (e : Extents) : Prop :=
  let '(start, end_, _) := ex_data e in 0 <= start <= 2 ^ 48 /\ 0 <= end_ <= 2 ^ 49.

Lemma image_extents_small image text dynamic_source e :
  image_small image -> In dynamic_source (image_sections image) ->
  image_extents image text dynamic_source = Ok e -> extents_small e.
Proof.
  intros H Hd E. unfold image_small in H. rewrite Forall_forall in H. unfold image_extents in E. inv_ok E.
  assert (S : extents_small (fold_left extent_step (image_sections image) (initial_extents text dynamic_source))).
  { apply fold_left_invariant_in.
    - intros x s Hx Hs. destruct (H s Hs) as (? & ? & ? & _). unfold extent_step.
      destruct (_ || _); [assumption|]. rewrite (u64_small (sec_address s + sec_size s)) by lia.
      destruct (executable s); [exact Hx|]. destruct (tls s); [exact Hx|].
      destruct (relro_section _); [exact Hx|]. destruct (_ || _).
      + unfold extents_small in *. destruct (ex_data x) as [[a b] c]. cbn [ex_data]. lia.
      + destruct (metadata_section (sec_name s)); exact Hx.
    - destruct (H _ Hd) as (? & ? & ? & _). unfold extents_small, initial_extents. cbn [ex_data].
      rewrite u64_small by lia. lia. }
  clear G. destruct (ex_ro_start _ =? kU64Max) in E; injection E as <-; exact S.
Qed.

Lemma size_build_note : exists note, build_note = Ok note /\ size note = 0x24.
Proof. eexists. split; [vm_compute; reflexivity|reflexivity]. Qed.

Lemma size_build_tail_note : exists note, build_tail_note = Ok note /\ size note = 0x18.
Proof. eexists. split; [vm_compute; reflexivity|reflexivity]. Qed.

(** Where the two notes land in the file. *)
Definition notes_clear (b : ModuleBlocks) (m : ModuleLayout) : Prop :=
  kPage <= dynamic_file_at (ml_dynamic_file m) (ml_dynamic_base m) (ml_note_address m) /\
  kPage <= ml_tail_file m < 2 ^ 62 /\ size (mb_note b) = 0x24 /\ size (mb_tail_note b) = 0x18.

Lemma align_chain x n a :
  1 < a <= 16 -> 0 <= x <= 2 ^ 57 -> 0 <= n <= 2 ^ 48 -> x + n <= align_up (x +! n) a <= x + n + 16.
Proof. intros. rewrite u64_small by lia. pose proof (align_up_bounds (x + n) a). lia. Qed.

Lemma plan_module_notes image stubs options dynamic_source got e b m :
  image_small image -> extents_small e -> plan_module image stubs options dynamic_source got e = Ok (b, m) ->
  blocks_small b = true -> notes_clear b m.
Proof.
  intros Hi He E Hb. pose proof (copied_file_end_bounds image Hi) as C. unfold kPage in C.
  unfold plan_module in E. inv_bind E. unfold extents_small in He.
  destruct (ex_data e) as [[data_start data_end] stored].
  destruct (process_layout e _ _) as [[process_address blocks_address] relro_end].
  inv_bind E. destruct (module_relocations _ _ _ _) as [relocations relative_count].
  cbv zeta in E. inv_bind E. apply ok_inj, pair_inj in E as [<- <-].
  destruct size_build_note as (nt & En & Sn). destruct size_build_tail_note as (tn & Et & St).
  assert (v4 = nt) as -> by congruence. assert (v10 = tn) as -> by congruence. clear E7.
  unfold blocks_small in Hb. cbn [forallb mb_strings mb_symbols mb_rela_plt mb_rela_dynamic mb_hash mb_dynamic
    mb_comment mb_version] in Hb. to_prop.
  set (plt := match optional_section image ".rela.plt" with None => [] | Some s => sec_data s end) in *.
  unfold notes_clear. cbn [mb_note mb_tail_note ml_dynamic_file ml_dynamic_base ml_note_address ml_tail_file].
  pose proof (size_nonneg (it_strings v1)). pose proof (size_nonneg (it_symbols v1)). pose proof (size_nonneg plt).
  pose proof (size_nonneg v3). pose proof (size_nonneg (it_hash v1)). pose proof (size_nonneg v6).
  pose proof (size_nonneg v8). pose proof (size_nonneg v9).
  rewrite (u64_small (data_start + 8)) by lia.
  destruct (align_up_bounds (Z.max data_end (data_start + 8)) 16 ltac:(lia) ltac:(lia) ltac:(lia)) as [B0 _].
  set (base := align_up (Z.max data_end (data_start + 8)) 16) in *. rewrite Sn.
  pose proof (align_chain base (size (it_strings v1)) 8 ltac:(lia) ltac:(lia) ltac:(lia)) as A1.
  set (a1 := align_up (base +! _) 8) in *.
  pose proof (align_chain a1 (size (it_symbols v1)) 8 ltac:(lia) ltac:(lia) ltac:(lia)) as A2.
  set (a2 := align_up (a1 +! _) 8) in *.
  pose proof (align_chain a2 (size plt) 8 ltac:(lia) ltac:(lia) ltac:(lia)) as A3.
  set (a3 := align_up (a2 +! _) 8) in *.
  pose proof (align_chain a3 (size v3) 8 ltac:(lia) ltac:(lia) ltac:(lia)) as A4.
  set (a4 := align_up (a3 +! _) 8) in *.
  pose proof (align_chain a4 (size (it_hash v1)) 4 ltac:(lia) ltac:(lia) ltac:(lia)) as A5.
  set (a5 := align_up (a4 +! _) 4) in *.
  pose proof (align_chain a5 0x24 8 ltac:(lia) ltac:(lia) ltac:(lia)) as A6.
  set (a6 := align_up (a5 +! 0x24) 8) in *.
  destruct (congruent_offset_bounds (copied_file_end image) base ltac:(lia)) as [D _].
  set (df := congruent_offset _ _) in *. unfold kPage in *. unfold dynamic_file_at.
  rewrite (u64_small (a6 + size v6)), (u64_small (a6 + size v6 - base)), (u64_small (df + (a6 + size v6 - base))),
    (u64_small (a5 - base)), (u64_small (df + (a5 - base))) by lia.
  destruct (align_up_bounds (df + (a6 + size v6 - base)) 8 ltac:(lia) ltac:(lia) ltac:(lia)) as [A7 _].
  set (a7 := align_up (df + _) 8) in *.
  pose proof (align_chain a7 (size v8) 4 ltac:(lia) ltac:(lia) ltac:(lia)) as A8.
  set (a8 := align_up (a7 +! _) 4) in *.
  pose proof (align_chain a8 (size v9) 4 ltac:(lia) ltac:(lia) ltac:(lia)) as A9.
  repeat split; try assumption; lia.
Qed.

(** ** Copies keep the size of the output *)

Lemma mw_copy_size o a s r : 0 <= a -> mw_copy_bytes o a s = Ok r -> size r = size o /\ a + size s <= size o.
Proof.
  intros Ha E. unfold mw_copy_bytes, checked_copy in E. inv_ok E. to_prop. subst r. rewrite size_put by lia. lia.
Qed.

Lemma copy_raw_inv o a s r : copy_raw o a s = Ok r -> 0 <= a /\ a + size s <= size o /\ r = put o a s.
Proof. unfold copy_raw. destruct (_ && _) eqn:G; [|discriminate]. intros E. injection E as <-. to_prop. auto. Qed.

Lemma copy_sections_size image o r :
  image_small image -> for_each copy_section o (image_sections image) = Ok r -> size r = size o.
Proof.
  intros H. unfold image_small in H. rewrite Forall_forall in H.
  apply (for_each_invariant _ (fun x => size x = size o)); [|reflexivity].
  intros x s x' Hx Hs E. unfold copy_section in E. destruct (_ || _) in E; [injection E as <-; assumption|].
  destruct (H s Hs) as (_ & _ & _ & ? & _). apply mw_copy_size in E; [|assumption]. lia.
Qed.

Lemma u64_nonneg x : 0 <= u64 x.
Proof. apply u64_range. Qed.

Lemma copy_blocks_size o b m relro_file relro_start r :
  0 <= ml_comment_file m -> 0 <= ml_version_file m -> 0 <= ml_tail_file m ->
  copy_blocks o b m relro_file relro_start = Ok r -> size r = size o.
Proof.
  intros Hc Hv Ht E. unfold copy_blocks, dynamic_file_at in E. cbv zeta beta in E. inv_bind E.
  repeat match goal with E : mw_copy_bytes _ _ _ = Ok _ |- _ =>
    apply mw_copy_size in E as [? ?]; [|first [apply u64_nonneg|assumption]] end.
  congruence.
Qed.

Lemma align_up_nonneg x a : 0 <= x -> 0 <= align_up x a.
Proof. intros. unfold align_up. destruct (_ <=? _); [assumption|apply u64_nonneg]. Qed.

Lemma plan_module_offsets image stubs options dynamic_source got e b m :
  plan_module image stubs options dynamic_source got e = Ok (b, m) ->
  0 <= ml_comment_file m /\ 0 <= ml_version_file m /\ 0 <= ml_tail_file m.
Proof.
  intros E. unfold plan_module in E. inv_bind E. destruct (ex_data e) as [[? ?] ?].
  destruct (process_layout e _ _) as [[? ?] ?]. inv_bind E. destruct (module_relocations _ _ _ _) as [? ?].
  cbv zeta in E. inv_bind E. apply ok_inj, pair_inj in E as [_ <-].
  cbn [ml_comment_file ml_version_file ml_tail_file].
  split; [|split]; apply align_up_nonneg, u64_nonneg.
Qed.

Lemma prepare_module_inv image stubs options p :
  image_small image -> prepare_module image stubs options = Ok p -> blocks_small (pr_blocks p) = true ->
  notes_clear (pr_blocks p) (pr_layout p) /\ section_small (pr_text p) /\ section_small (pr_dynamic p) /\
  0 <= ml_comment_file (pr_layout p) /\ 0 <= ml_version_file (pr_layout p) /\ 0 <= ml_tail_file (pr_layout p).
Proof.
  intros Hi E Hb. unfold prepare_module in E. inv_bind E.
  destruct v3 as [b m]. apply ok_inj in E. subst p. cbn [pr_blocks pr_layout pr_text pr_dynamic] in *.
  apply section_in in E0, E1. pose proof Hi as Hf. unfold image_small in Hf. rewrite Forall_forall in Hf.
  pose proof (image_extents_small _ _ _ _ Hi E1 E3) as Hx.
  split; [eapply plan_module_notes; eassumption|]. split; [auto|]. split; [auto|].
  eapply plan_module_offsets; eassumption.
Qed.

(** ** The assembled headers *)

Definition all_header_writes (entry : Z) (headers : list ProgramHeader) : list write :=
  elf_header_writes entry ++ headers_writes headers.

Lemma all_headers_ascending entry headers :
  ascending 0 (all_header_writes entry headers) (header_at (size headers)).
Proof. eapply ascending_app; [apply elf_header_ascending|apply headers_ascending]. Qed.

Lemma program_headers_count text dynamic_source eh e m b relro_file ro_file :
  size (program_headers text dynamic_source eh e m b relro_file ro_file) = 14.
Proof. reflexivity. Qed.

Lemma collect_all {A B} (body : A -> outcome B) l r a : collect body l = Ok r -> In a l -> exists b, body a = Ok b.
Proof.
  revert r; induction l as [|x l IH]; intros r E Hin; [destruct Hin|]. cbn [collect] in E. inv_ok E.
  destruct Hin as [->|Hin]; [eauto|eapply IH; eauto].
Qed.

(** An assembled module is a buffer with the header log applied, for headers
    that passed the loader's rule. *)
Lemma assemble_module_inv image stubs options p o :
  image_small image -> prepare_module image stubs options = Ok p -> blocks_small (pr_blocks p) = true ->
  assemble_module image p = Ok o ->
  exists o' relro_file ro_file headers,
    headers = program_headers (pr_text p) (pr_dynamic p) (optional_section image ".eh_frame_hdr")
                (pr_extents p) (pr_layout p) (pr_blocks p) relro_file ro_file /\
    kPage <= size o' < 2 ^ 64 /\ o = apply_writes o' (all_header_writes (image_entry image) headers) /\
    Forall (fun h => header_congruent h = true) headers.
Proof.
  intros Hi Ep Hb E. destruct (prepare_module_inv _ _ _ _ Hi Ep Hb) as ((N1 & N2 & N3 & N4) & _ & _ & O1 & O2 & O3).
  unfold assemble_module in E. cbv zeta in E. inv_bind E. unfold kPage in *.
  rewrite N4 in E0. rewrite u64_small in E0 by lia.
  pose proof (copy_sections_size _ _ _ Hi E0) as S0. rewrite size_zeros in S0 by lia.
  pose proof (copy_blocks_size _ _ _ _ _ _ O1 O2 O3 E2) as S2.
  assert (S3 : kPage <= size v1 < 2 ^ 64) by (unfold kPage; lia).
  rewrite (write_elf_header_ok v1 (image_entry image) S3) in E3. apply ok_inj in E3. subst v2.
  pose proof (elf_header_ascending (image_entry image)) as A0. unfold kPage in S3.
  assert (S4 : size (apply_writes v1 (elf_header_writes (image_entry image))) = size v1)
    by (eapply size_apply_writes; [|exact A0|]; lia).
  exists v1, (sec_file_offset v0), v3. eexists. split; [reflexivity|]. split; [lia|]. split.
  - rewrite write_headers_ok in E by (rewrite program_headers_count; unfold header_at; lia).
    apply ok_inj in E. subst o. unfold all_header_writes. rewrite apply_writes_app. reflexivity.
  - apply Forall_forall. intros h Hh. destruct (collect_all _ _ _ _ E5 Hh) as (u & Eu).
    unfold check_header in Eu. apply require_ok in Eu. exact Eu.
Qed.

(** The program headers of a module: loadable ones are page aligned, and the
    types fit 32 bits. *)
Lemma program_headers_types text dynamic_source eh e m b relro_file ro_file :
  Forall (fun h => 0 <= ph_type h < 2 ^ 32 /\ (ph_type h = kProgramLoad -> ph_alignment h = kPage))
    (program_headers text dynamic_source eh e m b relro_file ro_file).
Proof.
  unfold program_headers. cbv zeta.
  repeat (apply Forall_cons; [cbn [program_header ph_type ph_alignment]; split;
    [vm_compute; split; [discriminate|reflexivity]|first [reflexivity|discriminate]]|]).
  apply Forall_nil.
Qed.

(** Sealing writes the build id behind the first page. *)
Lemma seal_module_keeps o b m r a n :
  notes_clear b m -> seal_module o m = Ok r -> 0 <= a -> 0 <= n -> a + n <= kPage ->
  kPage <= size o -> size r = size o /\ field r a n = field o a n.
Proof.
  intros (N1 & N2 & _ & _) E Ha Hn Hk Hs. unfold seal_module in E. inv_bind E.
  apply copy_raw_inv in E1 as (? & ? & ->). apply copy_raw_inv in E as (? & ? & ->).
  set (d1 := sub v 0 16) in *. set (d2 := sub v 0 8) in *. pose proof (size_nonneg d1). pose proof (size_nonneg d2).
  assert (S1 : size (put o (dynamic_file_at (ml_dynamic_file m) (ml_dynamic_base m) (ml_note_address m) + 16) d1) = size o)
    by (apply size_put; lia).
  unfold kPage in *. split; [rewrite size_put; lia|]. unfold field.
  rewrite (sub_put_other _ (ml_tail_file m + 16)) by lia. rewrite sub_put_other by lia. reflexivity.
Qed.

(** A module can always be sealed once its notes are in place. *)
Lemma field_of_write o' entry headers a n v :
  size headers = 14 -> kPage <= size o' ->
  In (a, le_bytes n v) (all_header_writes entry headers) ->
  field (apply_writes o' (all_header_writes entry headers)) a (Z.of_nat n) = v mod 256 ^ Z.of_nat n /\
  0 <= a /\ a + Z.of_nat n <= kPage.
Proof.
  intros Hh Hs Hin. pose proof (all_headers_ascending entry headers) as A. unfold kPage in *.
  assert (L : header_at (size headers) = 0x350) by (rewrite Hh; reflexivity). rewrite L in A.
  destruct (apply_writes_field 0 _ _ o' _ _ _ ltac:(lia) A ltac:(lia) Hin) as (R & ? & ?).
  unfold field. rewrite R, le_value_bytes. lia.
Qed.

(** The header the container and the loader read. *)
Definition module_header_ok (out : Bytes) (entry : Z) : Prop :=
  field out 0 4 = 0x464c457f /\ byte_at out 4 = 2 /\
  field out 0x10 2 = kTypeDynamicExecutable /\ field out 0x18 8 = u64 entry /\
  field out 0x20 8 = 0x40 /\ field out 0x36 2 = 0x38 /\ field out 0x38 2 = 14.

(** Program header [i], if loadable and aligned, agrees with its address. *)
Definition load_congruent (out : Bytes) (i : Z) : Prop :=
  let alignment := field out (header_at i + 48) 8 in
  field out (header_at i) 4 = kProgramLoad -> 1 < alignment ->
  field out (header_at i + 8) 8 mod alignment = field out (header_at i + 16) 8 mod alignment.

Lemma u64_mod_page x : u64 x mod kPage = x mod kPage.
Proof. unfold u64, kPage. apply Z.mod_mod_divide. exists (2 ^ 50). reflexivity. Qed.

(** A write of a literal log. *)
Ltac pick := cbn [In elf_header_writes program_header_writes]; repeat (first [left; reflexivity | right]).

Section Written.
Context (image : Image) (p : Prepared) (o' out : Bytes) (headers : list ProgramHeader).
Hypothesis Hcount : size headers = 14.
Hypothesis Hsize : kPage <= size o'.
Let o := apply_writes o' (all_header_writes (image_entry image) headers).
Hypothesis Hkeep : forall a n, 0 <= a -> 0 <= n -> a + n <= kPage -> field out a n = field o a n.

Lemma written_field a n v :
  In (a, le_bytes n v) (all_header_writes (image_entry image) headers) ->
  field out a (Z.of_nat n) = v mod 256 ^ Z.of_nat n.
Proof.
  intros Hin. destruct (field_of_write o' _ headers a n v Hcount Hsize Hin) as (F & ? & ?).
  rewrite Hkeep by lia. exact F.
Qed.

Lemma written_byte a v : In (a, [u8 v]) (all_header_writes (image_entry image) headers) -> field out a 1 = u8 v.
Proof.
  intros Hin. assert (Hin' : In (a, le_bytes 1 v) (all_header_writes (image_entry image) headers)) by exact Hin.
  apply written_field in Hin'. exact Hin'.
Qed.

Lemma field_bytes l a : 0 <= a -> a + 4 <= size l ->
  field l a 4 = field l a 1 + 256 * (field l (a + 1) 1 + 256 * (field l (a + 2) 1 + 256 * field l (a + 3) 1)).
Proof.
  intros Ha Hl. unfold field.
  assert (B : forall k, 0 <= k <= 3 -> le_value (sub l (a + k) 1) = byte_at l (a + k)).
  { intros k Hk. rewrite sub_cons by lia. replace (sub l (a + k + 1) (1 - 1)) with (@nil Z) by reflexivity.
    cbn [le_value]. lia. }
  pose proof (B 0 ltac:(lia)) as B0. rewrite Z.add_0_r in B0. rewrite B0, !B by lia.
  rewrite (sub_cons l a 4), (sub_cons l (a + 1)), (sub_cons l (a + 1 + 1)), (sub_cons l (a + 1 + 1 + 1)) by lia.
  replace (sub l (a + 1 + 1 + 1 + 1) (4 - 1 - 1 - 1 - 1)) with (@nil Z) by reflexivity.
  cbn [le_value]. replace (a + 1 + 1 + 1) with (a + 3) by lia. replace (a + 1 + 1) with (a + 2) by lia. lia.
Qed.

Lemma written_header : size out = size o' -> module_header_ok out (image_entry image).
Proof.
  intros So. unfold kPage in *.
  assert (I : forall w, In w (elf_header_writes (image_entry image)) -> In w (all_header_writes (image_entry image) headers))
    by (intros; unfold all_header_writes; apply in_app_iff; left; assumption).
  unfold module_header_ok. split; [|split; [|split; [|split; [|split; [|split]]]]].
  - rewrite field_bytes by lia. cbn [Z.add].
    rewrite (written_byte 0 0x7f), (written_byte 1 0x45), (written_byte 2 0x4c), (written_byte 3 0x46)
      by (apply I; pick). reflexivity.
  - assert (F : field out 4 1 = 2) by (rewrite (written_byte 4 2) by (apply I; pick); reflexivity).
    unfold field in F. rewrite sub_cons in F by lia.
    replace (sub out (4 + 1) (1 - 1)) with (@nil Z) in F by reflexivity. cbn [le_value] in F. lia.
  - exact (written_field 0x10 2 kTypeDynamicExecutable (I (0x10, le_bytes 2 kTypeDynamicExecutable) ltac:(pick))).
  - exact (written_field 0x18 8 (image_entry image) (I (0x18, le_bytes 8 (image_entry image)) ltac:(pick))).
  - exact (written_field 0x20 8 0x40 (I (0x20, le_bytes 8 0x40) ltac:(pick))).
  - exact (written_field 0x36 2 0x38 (I (0x36, le_bytes 2 0x38) ltac:(pick))).
  - exact (written_field 0x38 2 14 (I (0x38, le_bytes 2 14) ltac:(pick))).
Qed.

Lemma written_load i :
  Forall (fun h => header_congruent h = true) headers ->
  Forall (fun h => 0 <= ph_type h < 2 ^ 32 /\ (ph_type h = kProgramLoad -> ph_alignment h = kPage)) headers ->
  0 <= i < 14 -> load_congruent out i.
Proof.
  intros Hc Ht Hi. set (h := nth (Z.to_nat i) headers no_header).
  assert (Hin : In h headers) by (apply nth_In; unfold size in Hcount; lia).
  rewrite Forall_forall in Hc, Ht. specialize (Hc h Hin). destruct (Ht h Hin) as [Ht1 Ht2].
  assert (I : forall w, In w (program_header_writes i h) -> In w (all_header_writes (image_entry image) headers)).
  { intros w Hw. unfold all_header_writes. apply in_app_iff. right. apply in_flat_map. exists i.
    split; [apply in_indices; unfold size in Hcount; lia|exact Hw]. }
  pose proof (written_field (header_at i) 4 (ph_type h) (I ((header_at i), le_bytes 4 (ph_type h)) ltac:(pick))) as F1.
  pose proof (written_field (header_at i + 8) 8 (ph_offset h) (I ((header_at i + 8), le_bytes 8 (ph_offset h)) ltac:(pick))) as F2.
  pose proof (written_field (header_at i + 16) 8 (ph_address h) (I ((header_at i + 16), le_bytes 8 (ph_address h)) ltac:(pick))) as F3.
  pose proof (written_field (header_at i + 48) 8 (ph_alignment h) (I ((header_at i + 48), le_bytes 8 (ph_alignment h)) ltac:(pick))) as F4.
  change (Z.of_nat 4) with 4 in F1. change (Z.of_nat 8) with 8 in F2, F3, F4.
  change (256 ^ 8) with (2 ^ 64) in F2, F3, F4. change (256 ^ 4) with (2 ^ 32) in F1.
  unfold load_congruent. cbv zeta. rewrite F1, F2, F3, F4. rewrite (Z.mod_small (ph_type h)) by assumption.
  intros Hl Ha. specialize (Ht2 Hl). rewrite Ht2 in *. change (kPage mod 2 ^ 64) with kPage in *.
  fold (u64 (ph_offset h)). fold (u64 (ph_address h)). rewrite !u64_mod_page.
  unfold header_congruent in Hc. rewrite Hl, Ht2, Z.eqb_refl in Hc.
  change (1 <? kPage) with true in Hc. cbn [andb negb orb] in Hc. apply Z.eqb_eq in Hc. exact Hc.
Qed.
End Written.

(** C19: Every module the writer returns has the header the container and the
    loader require (ELF64, a dynamic executable, the program-header table
    right behind the header with fourteen entries), and each of its loadable
    program headers, as read back from the file, has a file offset congruent
    with its address modulo its alignment: the rule the console's loader
    enforces. *)
Theorem module_headers_loadable image stubs options p out :
  image_small image -> prepare_module image stubs options = Ok p -> blocks_small (pr_blocks p) = true ->
  write_executable image stubs options = Ok out ->
  module_header_ok out (image_entry image) /\ forall i, 0 <= i < 14 -> load_congruent out i.
Proof.
  intros Hi Ep Hb E. unfold write_executable in E. rewrite Ep in E. cbn [bind] in E. inv_bind E.
  destruct (assemble_module_inv _ _ _ _ _ Hi Ep Hb E0) as (o' & rf & ro & hs & Eh & Hs & Eo & Hc).
  destruct (prepare_module_inv _ _ _ _ Hi Ep Hb) as (N & _).
  assert (C : size hs = 14) by (subst hs; reflexivity).
  pose proof (all_headers_ascending (image_entry image) hs) as A.
  assert (So : size v = size o').
  { subst v. unfold kPage in Hs. eapply size_apply_writes; [|exact A|]; [lia|]. rewrite C. unfold header_at. lia. }
  assert (K : forall a n, 0 <= a -> 0 <= n -> a + n <= kPage -> field out a n = field v a n)
    by (intros; eapply seal_module_keeps; try eassumption; lia).
  assert (Sz : size out = size o').
  { rewrite <- So. eapply (seal_module_keeps v _ _ out 0 0 N E); unfold kPage in *; lia. }
  subst v. split.
  - apply (written_header image o' out hs C); [lia|exact K|exact Sz].
  - intros i Hi14. apply (written_load image o' out hs C); [lia|exact K|exact Hc| |exact Hi14].
    subst hs. apply program_headers_types.
Qed.

(** Sealing succeeds when both notes lie in the output. *)
Definition seal_fits (o : Bytes) (m : ModuleLayout) : bool :=
  let note := dynamic_file_at (ml_dynamic_file m) (ml_dynamic_base m) (ml_note_address m) in
  (0 <=? note) && (note + 32 <=? size o) && (0 <=? ml_tail_file m) && (ml_tail_file m + 24 <=? size o).

Lemma seal_module_total o m : seal_fits o m = true -> exists r, seal_module o m = Ok r.
Proof.
  unfold seal_fits, seal_module. intros H. cbv zeta in H. to_prop.
  destruct (sha1_total o) as (d & -> & Sd & _). cbn [bind].
  assert (S1 : size (sub d 0 16) = 16) by (apply size_sub; lia).
  assert (S2 : size (sub d 0 8) = 8) by (apply size_sub; lia).
  unfold copy_raw. rewrite S1, S2.
  set (a := dynamic_file_at _ _ _) in *.
  replace ((0 <=? a + 16) && (a + 16 + 16 <=? size o)) with true by lia. cbn [bind].
  rewrite size_put by lia.
  replace ((0 <=? ml_tail_file m + 16) && (ml_tail_file m + 16 + 8 <=? size o)) with true by lia. eauto.
Qed.

(** A small image importing [malloc], and the stub that exports it. *)
Definition sample_section (name : string) (flags address : Z) (data : Bytes) (entry_size : Z) : Section_ := {|
  sec_name := name; sec_type := 1; sec_flags := flags; sec_address := address;
  sec_file_offset := 0x4000 + address; sec_size := size data; sec_link := 0; sec_info := 0;
  sec_alignment := 16; sec_entry_size := entry_size; sec_data := data |}.

Definition sample_symbol (name : string) (info : Z) : Symbol := {|
  sym_name := name; sym_info := info; sym_other := 0; sym_section := 0; sym_value := 0; sym_size := 0 |}.

Definition sample_image : Image := {|
  image_origin := "app"; image_entry := 0;
  image_sections := [ sample_section ".text" 6 0 [0x55; 0xc3; 0; 0] 0;
    sample_section ".eh_frame_hdr" 2 0x10 [1; 2; 3; 4] 0; sample_section ".got" 3 0x20 (zeros 8) 8;
    sample_section ".dynamic" 3 0x400 (zeros 16) 16 ];
  image_dynamic_symbols := [sample_symbol "" 0; sample_symbol "malloc" 0x12];
  image_needed := ["libSceLibcInternal.prx"%string] |}.

Definition sample_stubs : list Stub := [ {|
  stub_soname := "libSceLibcInternal.prx"; stub_module_name := "libSceLibcInternal";
  stub_library_name := "libSceLibcInternal"; stub_exports := ["free"; "malloc"]%string |} ].

(** An image converts. *)
Definition converts (image : Image) (stubs : list Stub) (options : Options) : bool :=
  match prepare_module image stubs options with
  | Ok p => blocks_small (pr_blocks p) &&
            match assemble_module image p with Ok o => seal_fits o (pr_layout p) | _ => false end
  | _ => false
  end.

Lemma converts_written image stubs options :
  converts image stubs options = true -> exists p out,
  prepare_module image stubs options = Ok p /\ blocks_small (pr_blocks p) = true /\
  write_executable image stubs options = Ok out.
Proof.
  unfold converts, write_executable. intros H.
  destruct (prepare_module _ _ _) as [p| |]; try discriminate H. exists p. cbn [bind].
  apply andb_prop in H as [H1 H2]. destruct (assemble_module image p) as [o| |]; try discriminate H2.
  destruct (seal_module_total o (pr_layout p) H2) as [r Er]. exists r. cbn [bind]. auto.
Qed.

Lemma sample_converts : converts sample_image sample_stubs default_module_options = true.
Proof. vm_compute. reflexivity. Qed.

Lemma sample_image_small : image_small sample_image.
Proof.
  unfold image_small, sample_image, image_sections.
  repeat (apply Forall_cons; [unfold section_small; vm_compute; repeat split; discriminate|]). apply Forall_nil.
Qed.

Lemma module_headers_loadable_witness : exists p out,
  prepare_module sample_image sample_stubs default_module_options = Ok p /\
  write_executable sample_image sample_stubs default_module_options = Ok out /\
  module_header_ok out (image_entry sample_image) /\ forall i, 0 <= i < 14 -> load_congruent out i.
Proof.
  destruct (converts_written _ _ _ sample_converts) as (p & out & Ep & Hb & E). exists p, out. split; [exact Ep|]. split; [exact E|].
  exact (module_headers_loadable sample_image sample_stubs default_module_options p out sample_image_small Ep Hb E).
Defined.
