(* ===== verification/LibcManifest.v ===== *)
(** * The runtime builder's manifests and encodings ([src/tooling/native/libc_builder.cpp], lines 142-439)

    Field access, the text of the two manifests ([read_api_surface] and
    [read_imports]) and the encodings of symbol names.  A manifest file is an
    argument: [None] when the stream does not open, otherwise the lines
    [std::getline] yields. *)

From Stdlib Require Import ZArith List Bool Lia String Ascii.
From S2P Require Import Prelude Bytes Hash.
Import ListNotations.
Open Scope Z_scope.

Record ApiSymbol := {
  api_nid : string;
  api_binding : Z;
  api_type : Z;
  api_size : Z
}.

Record RuntimeImport := {
  import_name : string;
  import_suffix : string;
  import_plt : bool;
  import_glob_dat : bool
}.

Definition kExportCount : Z := 2566.
Definition kImportCount : Z := 102.
Definition kPltRelocationCount : Z := 100.
Definition kGlobDatRelocationCount : Z := 3.

Definition kNidSuffix : Bytes :=
  [0x51; 0x8D; 0x64; 0xA6; 0x35; 0xDE; 0xD8; 0xC1; 0xE6; 0xB0; 0x39; 0xB1; 0xC3; 0xE5; 0x52; 0x30].

(** ** Checks and field access *)

Definition fail {A : Type} (message : string) : outcome A :=
  Throw ("self-check failed: " ++ message).

Definition self_check (condition : bool) (message : string) : outcome unit :=
  if negb condition then fail message else Ok tt.

(** [for (int i = n - 1; i >= 0; --i) value = (value << 8) | data\[at + i\]],
    in a type of [8 * n] bits. *)
Definition load_down (n : nat) (data : Bytes) (at_ : Z) : outcome Z :=
  for_each (fun value i =>
      let! b := index data (at_ + i) in
      Ok (Z.lor (Z.shiftl value 8 mod 2 ^ (8 * Z.of_nat n)) b))
    0 (rev (indices 0 n)).

Definition lb_read_u16 (data : Bytes) (at_ : Z) : outcome Z :=
  do! self_check (u64 (at_ + 2) <=? size data) "read_u16 bounds" in
  let! low := index data at_ in
  let! high := index data (at_ + 1) in
  Ok (Z.lor low (u16 (Z.shiftl high 8))).

Definition lb_read_u32 (data : Bytes) (at_ : Z) : outcome Z :=
  do! self_check (u64 (at_ + 4) <=? size data) "read_u32 bounds" in load_down 4 data at_.

Definition lb_read_u64 (data : Bytes) (at_ : Z) : outcome Z :=
  do! self_check (u64 (at_ + 8) <=? size data) "read_u64 bounds" in load_down 8 data at_.

Definition lb_write_u16 (data : Bytes) (at_ value : Z) : outcome Bytes :=
  do! self_check (u64 (at_ + 2) <=? size data) "write_u16 bounds" in
  let! data := store data at_ value in
  store data (at_ + 1) (Z.shiftr value 8).

Definition lb_write_u32 (data : Bytes) (at_ value : Z) : outcome Bytes :=
  do! self_check (u64 (at_ + 4) <=? size data) "write_u32 bounds" in store_le 4 data at_ value.

Definition lb_write_u64 (data : Bytes) (at_ value : Z) : outcome Bytes :=
  do! self_check (u64 (at_ + 8) <=? size data) "write_u64 bounds" in store_le 8 data at_ value.

Definition write_i64 (data : Bytes) (at_ value : Z) : outcome Bytes := lb_write_u64 data at_ (u64 value).

Definition write_i32 (data : Bytes) (at_ value : Z) : outcome Bytes := lb_write_u32 data at_ (u32 value).

(** [std::copy] into a buffer: undefined outside it. *)
Definition copy_into (target : Bytes) (at_ : Z) (source : Bytes) : outcome Bytes :=
  if (0 <=? at_) && (at_ + size source <=? size target) then Ok (put target at_ source) else Undefined.

Definition lb_copy_bytes (target : Bytes) (at_ : Z) (source : Bytes) : outcome Bytes :=
  do! self_check (u64 (at_ + size source) <=? size target) "copy bounds" in
  copy_into target at_ source.

Definition copy_ascii (target : Bytes) (at_ : Z) (source : string) : outcome Bytes :=
  lb_copy_bytes target at_ (bytes_of_string source).

(** ** Manifest text *)

(** [std::isspace] and [std::isalnum] in the "C" locale. *)
Definition isspace (c : ascii) : bool :=
  let b := byte_of_ascii c in (b =? 32) || ((9 <=? b) && (b <=? 13)).

Definition isalnum (c : ascii) : bool :=
  let b := byte_of_ascii c in
  ((48 <=? b) && (b <=? 57)) || ((65 <=? b) && (b <=? 90)) || ((97 <=? b) && (b <=? 122)).

(** [while (!value.empty() && isspace(value.back())) value.pop_back();] *)
Fixpoint pop_spaces (value : string) : string :=
  match value with
  | EmptyString => EmptyString
  | String c rest =>
      match pop_spaces rest with
      | EmptyString => if isspace c then EmptyString else String c EmptyString
      | rest' => String c rest'
      end
  end.

(** [while (first < value.size() && isspace(value\[first\])) ++first;], then
    [value.substr(first)]. *)
Fixpoint skip_spaces (value : string) : string :=
  match value with
  | EmptyString => EmptyString
  | String c rest => if isspace c then skip_spaces rest else value
  end.

Definition trim (value : string) : string := skip_spaces (pop_spaces value).

(** [value.find(separator, begin)] on the part from [begin]: the text before
    the separator, and the text after it when there is one. *)
Fixpoint find_separator (value : string) (separator : ascii) : string * option string :=
  match value with
  | EmptyString => (EmptyString, None)
  | String c rest =>
      if Ascii.eqb c separator then (EmptyString, Some rest)
      else let '(part, after) := find_separator rest separator in (String c part, after)
  end.

(** The [while (true)] loop; [value] is what is left from [begin].  Every
    round but the last removes a separator. *)
Fixpoint split_loop (fuel : nat) (value : string) (separator : ascii) : list string :=
  match fuel with
  | O => []
  | S fuel' =>
      let '(part, after) := find_separator value separator in
      match after with
      | None => [part]
      | Some rest => part :: split_loop fuel' rest separator
      end
  end.

Definition split (value : string) (separator : ascii) : list string :=
  split_loop (S (String.length value)) value separator.

(** [std::from_chars] on an unsigned type of [w] bits: the longest run of
    digits of the base, which must not be empty nor overflow. *)
Inductive errc : Type := errc_none | invalid_argument | result_out_of_range.

Definition digit_value (base : Z) (c : ascii) : option Z :=
  let b := byte_of_ascii c in
  let d := if (48 <=? b) && (b <=? 57) then b - 48
           else if (97 <=? b) && (b <=? 122) then b - 87
           else if (65 <=? b) && (b <=? 90) then b - 55 else 36 in
  if d <? base then Some d else None.

Fixpoint scan_digits (base : Z) (text : string) (value : Z) : Z * string :=
  match text with
  | EmptyString => (value, EmptyString)
  | String c rest =>
      match digit_value base c with
      | Some d => scan_digits base rest (value * base + d)
      | None => (value, text)
      end
  end.

Definition from_chars (w base : Z) (text : string) : Z * string * errc :=
  let '(value, rest) := scan_digits base text 0 in
  if Nat.eqb (String.length rest) (String.length text) then (0, text, invalid_argument)
  else if 2 ^ w <=? value then (0, rest, result_out_of_range)
  else (value, rest, errc_none).

Definition parse_integer (w : Z) (text : string) (base : Z) : outcome Z :=
  let '(value, rest, ec) := from_chars w base text in
  match ec, rest with
  | errc_none, EmptyString => Ok value
  | _, _ => Throw ("invalid integer: " ++ text)
  end.

Fixpoint all_of (p : ascii -> bool) (value : string) : bool :=
  match value with
  | EmptyString => true
  | String c rest => p c && all_of p rest
  end.

Definition valid_nid (value : string) : bool :=
  all_of (fun c => isalnum c || Ascii.eqb c "+" || Ascii.eqb c "-") value.

(** ** The API manifest *)

(** [line.empty() || line.front() == '#'] *)
Definition skipped (line : string) : bool :=
  match line with
  | EmptyString => true
  | String c _ => Ascii.eqb c "#"
  end.

Definition parse_api_line (source line : string) : outcome ApiSymbol :=
  match split line "|" with
  | [nid; binding; type; size_] =>
      if negb (Nat.eqb (String.length nid) 11) || negb (valid_nid nid) ||
         Nat.ltb (String.length size_) 3 || negb (String.eqb (String.substring 0 2 size_) "0x")
      then Throw ("invalid API-surface line: " ++ source)
      else
        let! binding := parse_integer 32 binding 10 in
        let! type := parse_integer 32 type 10 in
        let! size_ := parse_integer 64 (String.substring 2 (String.length size_ - 2) size_) 16 in
        if (negb (binding =? 1) && negb (binding =? 2)) ||
           (negb (type =? 1) && negb (type =? 2) && negb (type =? 6))
        then Throw ("unsupported binding/type: " ++ source)
        else Ok {| api_nid := nid; api_binding := u8 binding; api_type := u8 type; api_size := size_ |}
  | _ => Throw ("invalid API-surface line: " ++ source)
  end.

Definition api_line (symbols : list ApiSymbol) (source : string) : outcome (list ApiSymbol) :=
  let line := trim source in
  if skipped line then Ok symbols
  else let! symbol := parse_api_line source line in Ok (symbols ++ [symbol]).

(** [std::set<std::string>] filled from a list: its size. *)
Definition set_size (names : list string) : Z := size (nodup string_dec names).

Definition count_if {A : Type} (p : A -> bool) (l : list A) : Z := size (filter p l).

Definition is_marker (s : ApiSymbol) : bool :=
  String.eqb (api_nid s) "P330P3dFF68" && (api_binding s =? 1) && (api_type s =? 1) && (api_size s =? 4).
Definition is_longjmp (s : ApiSymbol) : bool :=
  String.eqb (api_nid s) "+F+9hhi6k9Q" && (api_binding s =? 2) && (api_type s =? 2).
Definition is_setjmp (s : ApiSymbol) : bool :=
  String.eqb (api_nid s) "sjpkrhugvVI" && (api_binding s =? 1) && (api_type s =? 2).

(** [std::to_string] of a size. *)
Fixpoint decimal_digits (fuel : nat) (n : Z) (text : string) : string :=
  match fuel with
  | O => text
  | S fuel' =>
      let text := String (ascii_of_byte (48 + n mod 10)) text in
      if n <? 10 then text else decimal_digits fuel' (n / 10) text
  end.

Definition to_string (n : Z) : string := decimal_digits 20 n "".

Definition check_api (symbols : list ApiSymbol) : outcome unit :=
  do! self_check (size symbols =? kExportCount) ("API export count (" ++ to_string (size symbols) ++ ")") in
  do! self_check (set_size (map api_nid symbols) =? size symbols) "unique API NIDs" in
  do! self_check (count_if (fun s => api_type s =? 1) symbols =? 688) "API object count" in
  do! self_check (count_if (fun s => api_type s =? 2) symbols =? 1874) "API function count" in
  do! self_check (count_if (fun s => api_type s =? 6) symbols =? 4) "API TLS count" in
  do! self_check (existsb is_marker symbols) "Need_sceLibc API record" in
  do! self_check (existsb is_longjmp symbols) "_longjmp API record" in
  self_check (existsb is_setjmp symbols) "_setjmp API record".

Definition read_api_surface (path : string) (input : option (list string)) : outcome (list ApiSymbol) :=
  match input with
  | None => Throw ("cannot open API manifest: " ++ path)
  | Some lines =>
      let! symbols := for_each api_line [] lines in
      do! check_api symbols in
      Ok symbols
  end.

(** ** The import manifest *)

Definition is_flag (text : string) : bool := String.eqb text "0" || String.eqb text "1".

Definition parse_import_line (source line : string) : outcome RuntimeImport :=
  match split line "|" with
  | [name; suffix; plt; glob_dat] =>
      if negb (String.eqb suffix "#A#B" || String.eqb suffix "#B#C" || String.eqb suffix "#C#D") ||
         negb (is_flag plt) || negb (is_flag glob_dat)
      then Throw ("invalid import line: " ++ source)
      else Ok {| import_name := name; import_suffix := suffix;
                 import_plt := String.eqb plt "1"; import_glob_dat := String.eqb glob_dat "1" |}
  | _ => Throw ("invalid import line: " ++ source)
  end.

Definition import_line (imports : list RuntimeImport) (source : string) : outcome (list RuntimeImport) :=
  let line := trim source in
  if skipped line then Ok imports
  else let! entry := parse_import_line source line in Ok (imports ++ [entry]).

Definition required_imports : list string :=
  ["_sceKernelSetThreadDtors"; "_sceKernelSetThreadAtexitCount"; "_sceKernelSetThreadAtexitReport";
   "_sceKernelRtldSetApplicationHeapAPI"; "malloc"; "free"; "posix_memalign"; "__progname";
   "__stack_chk_guard"; "__pthread_cxa_finalize"]%string.

Definition check_imports (imports : list RuntimeImport) : outcome unit :=
  do! self_check (size imports =? kImportCount) ("runtime import count (" ++ to_string (size imports) ++ ")") in
  do! self_check (set_size (map import_name imports) =? size imports) "unique import names" in
  do! self_check (count_if import_plt imports =? kPltRelocationCount) "runtime PLT import count" in
  do! self_check (count_if import_glob_dat imports =? kGlobDatRelocationCount) "runtime GLOB_DAT import count" in
  for_each (fun _ required =>
      self_check (existsb (fun entry => String.eqb (import_name entry) required) imports)
        ("runtime required import " ++ required))
    tt required_imports.

Definition read_imports (path : string) (input : option (list string)) : outcome (list RuntimeImport) :=
  match input with
  | None => Throw ("cannot open import manifest: " ++ path)
  | Some lines =>
      let! imports := for_each import_line [] lines in
      do! check_imports imports in
      Ok imports
  end.

(** ** Encodings *)

Definition alphabet : string := "ABCDEFGHIJKLMNOPQRSTUVWXYZabcdefghijklmnopqrstuvwxyz0123456789+/".

Definition alphabet_at (i : Z) : ascii :=
  match String.get (Z.to_nat i) alphabet with Some c => c | None => Ascii.zero end.

(** The four letters of the group at [i]. *)
Definition base64_group (input : Bytes) (i : Z) : outcome (list ascii) :=
  let! a := index input i in
  let! b := if i + 1 <? size input then index input (i + 1) else Ok 0 in
  let! c := if i + 2 <? size input then index input (i + 2) else Ok 0 in
  let value := Z.lor (Z.lor (Z.shiftl a 16) (Z.shiftl b 8)) c in
  Ok [alphabet_at (Z.land (Z.shiftr value 18) 63);
      alphabet_at (Z.land (Z.shiftr value 12) 63);
      (if i + 1 <? size input then alphabet_at (Z.land (Z.shiftr value 6) 63) else "="%char);
      (if i + 2 <? size input then alphabet_at (Z.land value 63) else "="%char)].

Definition base64 (input : Bytes) : outcome (list ascii) :=
  let! groups := collect (base64_group input) (offsets_below (size input) 3) in
  Ok (List.concat groups).

Definition compute_nid (name : string) : outcome string :=
  let! digest := sha1 (bytes_of_string name ++ kNidSuffix) in
  let! result := base64 (rev (firstn 8 digest)) in
  Ok (string_of_list_ascii (map (fun c => if Ascii.eqb c "/" then "-"%char else c) (firstn 11 result))).

Definition hex_digit (d : Z) : ascii := ascii_of_byte (if d <? 10 then 48 + d else 87 + d).

(** [std::setw(2)] with fill ['0']: two digits per byte. *)
Definition hex (value : Bytes) : string :=
  string_of_list_ascii (flat_map (fun byte => [hex_digit (byte / 16); hex_digit (byte mod 16)]) value).

Definition lb_elf_hash_step (hash c : Z) : Z :=
  let hash := u32 (u32 (Z.shiftl hash 4) + c) in
  let carry := Z.land hash 0xF0000000 in
  let hash := if negb (carry =? 0) then Z.lxor hash (Z.shiftr carry 24) else hash in
  Z.land hash (u32 (Z.lnot carry)).

Definition lb_elf_hash (name : string) : Z := fold_left lb_elf_hash_step (bytes_of_string name) 0.

Definition lb_hash_insert (names : list string) (count : Z) (table : Bytes) (i : Z) : outcome Bytes :=
  let! name := vector_at names i in
  let bucket := lb_elf_hash name mod count in
  let! previous := lb_read_u32 table (8 + bucket * 4) in
  let! table := lb_write_u32 table (8 + count * 4 + i * 4) previous in
  lb_write_u32 table (8 + bucket * 4) (u32 i).

(** The loop counts down from [count - 1]; with no names that wraps to the
    largest [size_t], and [names\[i\]] is out of range at once. *)
Definition lb_build_sysv_hash (names : list string) : outcome Bytes :=
  let count := size names in
  let table := zeros (8 + count * 8) in
  let! table := lb_write_u32 table 0 (u32 count) in
  let! table := lb_write_u32 table 4 (u32 count) in
  if count =? 0 then Undefined
  else for_each (lb_hash_insert names count) table (rev (indices 1 (List.length names - 1))).

Definition lb_align_up (value alignment : Z) : Z := align_up_mask value alignment.
