(* ===== verification/LibcRuntime.v ===== *)
(** * The runtime module image ([src/tooling/native/libc_builder.cpp], lines 52-137 and 441-1012)

    [build_runtime] fills one buffer through spans of it.  A span is a window
    of the file: [window file at n f] runs [f] on the bytes of the window and
    leaves the result in place, so writes through a span are writes to the
    file, as in the source. *)

From Stdlib Require Import ZArith List Bool Lia String Ascii.
From S2P Require Import Prelude Bytes Hash LibcManifest.
Import ListNotations.
Open Scope Z_scope.

Definition kProgramHeaderOffset : Z := 0x40.
Definition kProgramHeaderSize : Z := 0x38.
Definition kProgramHeaderCount : Z := 14.
Definition kTextFileOffset : Z := 0x4000.
Definition kMarkerAddress : Z := 0xCC000.
Definition kMarkerFileOffset : Z := 0xD0000.
Definition kGotFileOffset : Z := 0x113870.
Definition kGotAddress : Z := 0x10F870.
Definition kPreinitFileOffset : Z := 0x113CE0.
Definition kModuleParamFileOffset : Z := 0x113CE8.
Definition kMetadataFileOffset : Z := 0x11B810.
Definition kMetadataAddress : Z := 0x117810.
Definition kMetadataSize : Z := 0x2A9F8.
Definition kBuildNoteOffset : Z := 0x2A710.
Definition kDynamicOffset : Z := 0x2A738.
Definition kDynamicCount : Z := 44.
Definition kDataFileSize : Z := 0x3B78.
Definition kDataMemorySize : Z := 0x7808.
Definition kDataAddress : Z := 0x110000.
Definition kRuntimeFileSize : Z := 0x14629A.
Definition kReadOnlyFileSize : Z := 0x3DF80.
Definition kUnwindHeaderFileOffset : Z := 0x108164.
Definition kUnwindHeaderAddress : Z := 0x104164.
Definition kUnwindHeaderSize : Z := 0x5E1C.
Definition kCommentFileOffset : Z := 0x146210.
Definition kCommentSize : Z := 0x58.
Definition kTailNoteFileOffset : Z := 0x146268.
Definition kVersionFileOffset : Z := 0x146280.
Definition kFiniAddress : Z := 0xC8010.
Definition kInitAddress : Z := 0x100.
Definition kThreadDtorsAddress : Z := 0x200.
Definition kThreadAtexitCountAddress : Z := 0x210.
Definition kThreadAtexitReportAddress : Z := 0x220.
Definition kHeapApiAddress : Z := 0x110100.
Definition kHeapApiFileOffset : Z := 0x114100.
Definition kHeapApiSize : Z := 0x48.
Definition kObjectStorageOffset : Z := 0x180.
Definition kGotReservedEntries : Z := 3.
Definition kRelativeRelocationCount : Z := 1790.
Definition kTlsRelocationCount : Z := 3.
Definition kRelativeAnchorSlotAddress : Z := 0x10C008.
Definition kRelativeAnchorAddress : Z := 0x230.
Definition kStringTableSize : Z := 0xA7A3.
Definition kSymbolTableOffset : Z := 0xA7A8.
Definition kJumpRelocationOffset : Z := 0x1A1E0.
Definition kRelaOffset : Z := 0x1AB40.
Definition kHashTableOffset : Z := 0x253A0.

Definition kDtNull : Z := 0.
Definition kDtNeeded : Z := 1.
Definition kDtPltRelSz : Z := 2.
Definition kDtPltGot : Z := 3.
Definition kDtHash : Z := 4.
Definition kDtStrTab : Z := 5.
Definition kDtSymTab : Z := 6.
Definition kDtRela : Z := 7.
Definition kDtRelaSz : Z := 8.
Definition kDtRelaEnt : Z := 9.
Definition kDtStrSz : Z := 10.
Definition kDtSymEnt : Z := 11.
Definition kDtInit : Z := 12.
Definition kDtFini : Z := 13.
Definition kDtSoname : Z := 14.
Definition kDtPltRel : Z := 20.
Definition kDtJmpRel : Z := 23.
Definition kDtInitArray : Z := 25.
Definition kDtFiniArray : Z := 26.
Definition kDtInitArraySz : Z := 27.
Definition kDtFiniArraySz : Z := 28.
Definition kDtPreInitArray : Z := 32.
Definition kDtPreInitArraySz : Z := 33.
Definition kDtRelaCount : Z := 0x6FFFFFF9.
Definition kDtSceModuleAttr : Z := 0x61000011.
Definition kDtSceExportLibAttr : Z := 0x61000017.
Definition kDtSceImportLibAttr : Z := 0x61000019.
Definition kDtSceHashSz : Z := 0x6100003D.
Definition kDtSceSymTabSz : Z := 0x6100003F.
Definition kDtSceOrigFilename : Z := 0x61000041.
Definition kDtSceModuleInfo : Z := 0x61000043.
Definition kDtSceNeededModule : Z := 0x61000045.
Definition kDtSceExportLib : Z := 0x61000047.
Definition kDtSceImportLib : Z := 0x61000049.

(** [auto span = std::span(file).subspan(at, n)], and what is done through it. *)
Definition window (file : Bytes) (at_ n : Z) (f : Bytes -> outcome Bytes) : outcome Bytes :=
  let! span := subspan file at_ n in
  let! span := f span in
  copy_into file at_ span.

(** ** Strings, symbols and headers *)

Definition put_string (target : Bytes) (at_ : Z) (value : string) : outcome Bytes :=
  do! self_check (u64 (at_ + size (bytes_of_string value)) <? size target)
        ("dynamic string '" ++ value ++ "' fits table") in
  let! target := copy_ascii target at_ value in
  store target (at_ + size (bytes_of_string value)) 0.

(** The buffer and the cursor [at], which the source updates in place. *)
Definition append_string (s : Bytes * Z) (value : string) : outcome (Bytes * Z) :=
  let '(target, at_) := s in
  let! target := put_string target at_ value in
  Ok (target, u64 (at_ + size (bytes_of_string value) + 1)).

Definition lb_write_symbol (symbols : Bytes) (index_ name info other section value size_ : Z) : outcome Bytes :=
  let at_ := u64 (index_ * 24) in
  do! self_check (u64 (at_ + 24) <=? size symbols) "symbol bounds" in
  let! symbols := lb_write_u32 symbols at_ name in
  let! symbols := store symbols (at_ + 4) info in
  let! symbols := store symbols (at_ + 5) other in
  let! symbols := lb_write_u16 symbols (at_ + 6) section in
  let! symbols := lb_write_u64 symbols (at_ + 8) value in
  lb_write_u64 symbols (at_ + 16) size_.

Record RuntimeHeader := {
  rh_type : Z; rh_flags : Z; rh_offset : Z; rh_address : Z;
  rh_file_size : Z; rh_memory_size : Z; rh_alignment : Z
}.

Definition lb_write_program_header (file : Bytes) (index_ : Z) (h : RuntimeHeader) : outcome Bytes :=
  let at_ := kProgramHeaderOffset + index_ * kProgramHeaderSize in
  let! file := lb_write_u32 file at_ (rh_type h) in
  let! file := lb_write_u32 file (at_ + 4) (rh_flags h) in
  let! file := lb_write_u64 file (at_ + 8) (rh_offset h) in
  let! file := lb_write_u64 file (at_ + 16) (rh_address h) in
  let! file := lb_write_u64 file (at_ + 24) (rh_address h) in
  let! file := lb_write_u64 file (at_ + 32) (rh_file_size h) in
  let! file := lb_write_u64 file (at_ + 40) (rh_memory_size h) in
  lb_write_u64 file (at_ + 48) (rh_alignment h).

Definition elf_magic : Bytes := [0x7f; 0x45; 0x4c; 0x46].

Definition build_elf_header (file : Bytes) : outcome Bytes :=
  let! file := lb_copy_bytes file 0 elf_magic in
  let! file := store file 4 2 in
  let! file := store file 5 1 in
  let! file := store file 6 1 in
  let! file := store file 7 9 in
  let! file := store file 8 2 in
  let! file := lb_write_u16 file 0x10 0xFE18 in
  let! file := lb_write_u16 file 0x12 62 in
  let! file := lb_write_u32 file 0x14 1 in
  let! file := lb_write_u64 file 0x20 kProgramHeaderOffset in
  let! file := lb_write_u16 file 0x34 0x40 in
  let! file := lb_write_u16 file 0x36 kProgramHeaderSize in
  lb_write_u16 file 0x38 kProgramHeaderCount.

Definition runtime_header (type flags offset address file_size memory_size alignment : Z) : RuntimeHeader :=
  {| rh_type := type; rh_flags := flags; rh_offset := offset; rh_address := address;
     rh_file_size := file_size; rh_memory_size := memory_size; rh_alignment := alignment |}.

Definition runtime_headers : list RuntimeHeader := [
  runtime_header 0x00000001 0x1 0x004000 0x000000 0xC8092 0xC8092 0x4000;
  runtime_header 0x00000001 0x4 0x0D0000 0x0CC000 kReadOnlyFileSize kReadOnlyFileSize 0x4000;
  runtime_header 0x00000001 0x6 0x110000 0x10C000 0x3EA0 0x3EA0 0x4000;
  runtime_header 0x6474E552 0x4 0x110000 0x10C000 0x3EA0 0x4000 1;
  runtime_header 0x00000001 0x6 0x114000 0x110000 kDataFileSize kDataMemorySize 0x4000;
  runtime_header 0x61000002 0x4 kModuleParamFileOffset 0x10FCE8 0x20 0x20 8;
  runtime_header 0x00000002 0x6 (kMetadataFileOffset + kDynamicOffset) (kMetadataAddress + kDynamicOffset) 0x2C0 0x2C0 8;
  runtime_header 0x00000007 0x4 0x113D20 0x10FD20 0x180 0x468 0x10;
  runtime_header 0x6474E550 0x4 kUnwindHeaderFileOffset kUnwindHeaderAddress kUnwindHeaderSize kUnwindHeaderSize 4;
  runtime_header 0x00000001 0 kMetadataFileOffset kMetadataAddress kMetadataSize kMetadataSize 0x4000;
  runtime_header 0x6FFFFF00 0 kCommentFileOffset 0 kCommentSize 0 0x10;
  runtime_header 0x6FFFFF01 0 kVersionFileOffset 0 0x1A 0x20 0x10;
  runtime_header 0x00000004 0 (kMetadataFileOffset + kBuildNoteOffset) (kMetadataAddress + kBuildNoteOffset) 0x24 0x24 4;
  runtime_header 0x00000004 0 kTailNoteFileOffset 0 0x18 0 4].

Definition build_program_headers (file : Bytes) : outcome Bytes :=
  for_each (fun file e => lb_write_program_header file (fst e) (snd e))
    file (combine (indices 0 14) runtime_headers).

Definition build_unwind_header (file : Bytes) : outcome Bytes :=
  window file kUnwindHeaderFileOffset kUnwindHeaderSize (fun header =>
    let header := zeros (size header) in
    let! header := store header 0 1 in
    let! header := store header 1 0x1B in
    let! header := store header 2 0x03 in
    let! header := store header 3 0x3B in
    let! header := lb_write_u32 header 4 8 in
    lb_write_u32 header 8 0).

Definition build_module_param (file : Bytes) : outcome Bytes :=
  let at_ := kModuleParamFileOffset in
  let! file := lb_write_u64 file at_ 0x20 in
  let! file := lb_write_u32 file (at_ + 8) 0x3C13F4BF in
  let! file := lb_write_u32 file (at_ + 0x0C) 3 in
  let! file := lb_write_u32 file (at_ + 0x10) 0x08050001 in
  let! file := lb_write_u32 file (at_ + 0x14) 0x02000009 in
  lb_write_u32 file (at_ + 0x18) 1.

(** ** Code *)

Fixpoint import_slot_from (imports : list RuntimeImport) (name : string) (slot : Z) : outcome Z :=
  match imports with
  | [] => Throw ("missing PLT import " ++ name)
  | entry :: rest =>
      if String.eqb (import_name entry) name then
        do! self_check (import_plt entry) ("runtime import " ++ name ++ " has a PLT slot") in
        Ok (kGotAddress + (kGotReservedEntries + slot) * 8)
      else import_slot_from rest name (if import_plt entry then slot + 1 else slot)
  end.

Definition import_slot (imports : list RuntimeImport) (name : string) : outcome Z :=
  import_slot_from imports name 0.

(** The file and the [address] cursor, which the source updates in place. *)
Definition write_code (s : Bytes * Z) (code : Bytes) : outcome (Bytes * Z) :=
  let '(file, address) := s in
  let at_ := u64 (kTextFileOffset + address) in
  do! self_check ((kTextFileOffset <=? at_) && (u64 (at_ + size code) <=? kTextFileOffset + 0xC8092))
        "runtime code lies inside executable load" in
  let! file := lb_copy_bytes file at_ code in
  Ok (file, u64 (address + size code)).

Definition write_rip_relative_code (s : Bytes * Z) (opcode : Bytes) (target : Z) : outcome (Bytes * Z) :=
  let '(file, address) := s in
  let at_ := u64 (kTextFileOffset + address) in
  let next := s64 (address + size opcode + 4) in
  let displacement := s64 target - next in
  do! self_check ((- 2 ^ 31 <=? displacement) && (displacement <=? 2 ^ 31 - 1))
        "runtime RIP-relative displacement" in
  let! file := lb_copy_bytes file at_ opcode in
  let! file := write_i32 file (u64 (at_ + size opcode)) (s32 displacement) in
  Ok (file, u64 (address + size opcode + 4)).

(** One call of the two, its target an address or an import's slot. *)
Inductive Code : Type :=
| Plain (code : Bytes)
| Rip (opcode : Bytes) (target : Z)
| RipSlot (opcode : Bytes) (name : string).

Definition emit (imports : list RuntimeImport) (s : Bytes * Z) (c : Code) : outcome (Bytes * Z) :=
  match c with
  | Plain code => write_code s code
  | Rip opcode target => write_rip_relative_code s opcode target
  | RipSlot opcode name =>
      let! slot := import_slot imports name in
      write_rip_relative_code s opcode slot
  end.

Definition preinit_code : list Code := [
  Plain [0x48; 0x83; 0xEC; 0x08];
  Rip [0x48; 0x8B; 0x05] 0x10FCE0;
  Plain [0x48; 0x85; 0xC0; 0x74; 0x02; 0xFF; 0xD0; 0x48; 0x83; 0xC4; 0x08; 0xC3]].

Definition init_code : list Code := [
  Plain [0x48; 0x83; 0xEC; 0x08];
  Rip [0x48; 0x8D; 0x3D] kThreadDtorsAddress;
  RipSlot [0xFF; 0x15] "_sceKernelSetThreadDtors";
  Rip [0x48; 0x8D; 0x3D] kThreadAtexitCountAddress;
  RipSlot [0xFF; 0x15] "_sceKernelSetThreadAtexitCount";
  Rip [0x48; 0x8D; 0x3D] kThreadAtexitReportAddress;
  RipSlot [0xFF; 0x15] "_sceKernelSetThreadAtexitReport";
  RipSlot [0x48; 0x8B; 0x05] "malloc";
  Rip [0x48; 0x89; 0x05] kHeapApiAddress;
  RipSlot [0x48; 0x8B; 0x05] "free";
  Rip [0x48; 0x89; 0x05] (kHeapApiAddress + 8);
  RipSlot [0x48; 0x8B; 0x05] "posix_memalign";
  Rip [0x48; 0x89; 0x05] (kHeapApiAddress + 0x30);
  Rip [0x48; 0x8D; 0x3D] kHeapApiAddress;
  RipSlot [0xFF; 0x15] "_sceKernelRtldSetApplicationHeapAPI";
  Plain [0x48; 0x83; 0xC4; 0x08; 0x31; 0xC0; 0xC3]].

Definition build_code (file : Bytes) (imports : list RuntimeImport) : outcome Bytes :=
  let! '(file, _) := for_each (emit imports) (file, 0x10) preinit_code in
  let! '(file, cursor) := for_each (emit imports) (file, kInitAddress) init_code in
  do! self_check (cursor <? kThreadDtorsAddress) "runtime initializer fits before callbacks" in
  let! file := store file (kTextFileOffset + kThreadDtorsAddress) 0xC3 in
  let! file := lb_copy_bytes file (kTextFileOffset + kThreadAtexitCountAddress) [0x31; 0xC0; 0xC3] in
  let! file := store file (kTextFileOffset + kThreadAtexitReportAddress) 0xC3 in
  let! file := store file (kTextFileOffset + kRelativeAnchorAddress) 0xC3 in
  let! file := lb_copy_bytes file (kTextFileOffset + 0x50) [0x66; 0x0F; 0xEF; 0xC0; 0x31; 0xC0; 0xC3] in
  let! file := lb_copy_bytes file (kTextFileOffset + 0x30) [0x31; 0xC0; 0xC3] in
  let! file := lb_copy_bytes file (kTextFileOffset + 0x40) [0x31; 0xC0; 0xC3] in
  store file (kTextFileOffset + kFiniAddress) 0xC3.

(** ** Exported symbols *)

Record ExportState := { ex_symbols : Bytes; ex_object_cursor : Z; ex_tls_cursor : Z }.

(** The value, section, visibility and cursors an API symbol gets. *)
Definition place_symbol (object_cursor tls_cursor : Z) (symbol : ApiSymbol)
  : outcome (Z * Z * Z * Z * Z) :=
  if api_type symbol =? 2 then
    let value := if String.eqb (api_nid symbol) "+F+9hhi6k9Q" then 0x30
                 else if String.eqb (api_nid symbol) "sjpkrhugvVI" then 0x40 else 0x50 in
    Ok (value, 3, 0, object_cursor, tls_cursor)
  else if (api_type symbol =? 1) && String.eqb (api_nid symbol) "P330P3dFF68" then
    Ok (kMarkerAddress, 6, 3, object_cursor, tls_cursor)
  else if api_type symbol =? 1 then
    let object_cursor := lb_align_up object_cursor 8 in
    Ok (u64 (kDataAddress + object_cursor), 6, 0,
        u64 (object_cursor + Z.max (api_size symbol) 1), tls_cursor)
  else if api_type symbol =? 6 then
    let tls_cursor := Z.land (u64 (tls_cursor + 7)) (u64 (Z.lnot 7)) in
    Ok (tls_cursor, 17, 0, object_cursor, u64 (tls_cursor + Z.max (api_size symbol) 1))
  else Throw "unsupported API symbol type".

Definition export_symbol (name_offsets : list Z) (s : ExportState) (e : Z * ApiSymbol) : outcome ExportState :=
  let '(i, symbol) := e in
  let! '(value, section, other, object_cursor, tls_cursor) :=
    place_symbol (ex_object_cursor s) (ex_tls_cursor s) symbol in
  let! name := vector_at name_offsets i in
  let! symbols := lb_write_symbol (ex_symbols s) (i + 1) (u32 name)
    (u8 (Z.lor (Z.shiftl (api_binding symbol) 4) (api_type symbol))) other section value (api_size symbol) in
  Ok {| ex_symbols := symbols; ex_object_cursor := object_cursor; ex_tls_cursor := tls_cursor |}.

Definition enumerate {A : Type} (l : list A) : list (Z * A) := combine (indices 0 (List.length l)) l.

Definition build_export_symbols (symbols : Bytes) (api : list ApiSymbol) (name_offsets : list Z) : outcome Bytes :=
  let! s := for_each (export_symbol name_offsets)
    {| ex_symbols := symbols; ex_object_cursor := kObjectStorageOffset; ex_tls_cursor := 0 |} (enumerate api) in
  do! self_check (ex_object_cursor s <=? kDataMemorySize) "API object storage fits mapped data/BSS" in
  do! self_check (ex_tls_cursor s <=? 0x468) "API TLS storage fits PT_TLS" in
  Ok (ex_symbols s).

(** ** Dynamic table and note *)

Definition pack_name_version_id (name version id : Z) : Z :=
  Z.lor (Z.lor name (Z.shiftl version 32)) (Z.shiftl id 48).

Definition pack_attribute (id attribute : Z) : Z := Z.lor (Z.shiftl id 48) attribute.

Definition lb_dynamic_entries (symbol_count : Z) : list (Z * Z) := [
  (kDtNeeded, 0xA6C1);
  (kDtSceNeededModule, pack_name_version_id 0xA6CF 0x0101 1);
  (kDtSceImportLib, pack_name_version_id 0xA6CF 0x0001 0);
  (kDtSceImportLibAttr, pack_attribute 0 0x09);
  (kDtNeeded, 0xA6D9);
  (kDtSceNeededModule, pack_name_version_id 0xA6F0 0x0101 2);
  (kDtSceImportLib, pack_name_version_id 0xA703 0x0001 1);
  (kDtSceImportLibAttr, pack_attribute 1 0x09);
  (kDtNeeded, 0xA719);
  (kDtSceNeededModule, pack_name_version_id 0xA72D 0x0101 3);
  (kDtSceImportLib, pack_name_version_id 0xA72D 0x0001 2);
  (kDtSceImportLibAttr, pack_attribute 2 0x09);
  (kDtSoname, 0xA73D);
  (kDtSceModuleInfo, pack_name_version_id 0xA746 0x0101 0);
  (kDtSceModuleAttr, 0);
  (kDtSceOrigFilename, 0xA74B);
  (kDtSceExportLib, pack_name_version_id 0xA746 0x0001 3);
  (kDtSceExportLibAttr, pack_attribute 3 0x01);
  (kDtSceExportLib, pack_name_version_id 0xA797 0x0001 4);
  (kDtSceExportLibAttr, pack_attribute 4 0x01);
  (kDtRela, kMetadataAddress + kRelaOffset);
  (kDtRelaSz, (kRelativeRelocationCount + kTlsRelocationCount + kGlobDatRelocationCount) * 24);
  (kDtRelaEnt, 24);
  (kDtRelaCount, kRelativeRelocationCount);
  (kDtJmpRel, kMetadataAddress + kJumpRelocationOffset);
  (kDtPltRelSz, kPltRelocationCount * 24);
  (kDtPltGot, kGotAddress);
  (kDtPltRel, 7);
  (kDtSymTab, kMetadataAddress + kSymbolTableOffset);
  (kDtSymEnt, 24);
  (kDtStrTab, kMetadataAddress);
  (kDtStrSz, kStringTableSize);
  (kDtHash, kMetadataAddress + kHashTableOffset);
  (kDtPreInitArray, 0x10FCE0);
  (kDtPreInitArraySz, 8);
  (kDtInitArray, 0);
  (kDtInitArraySz, 0);
  (kDtFiniArray, 0);
  (kDtFiniArraySz, 0);
  (kDtInit, 0x10);
  (kDtFini, kFiniAddress);
  (kDtSceSymTabSz, u64 (symbol_count * 24));
  (kDtSceHashSz, 0x5370);
  (kDtNull, 0)].

Definition lb_build_dynamic (dynamic : Bytes) (symbol_count : Z) : outcome Bytes :=
  let entries := lb_dynamic_entries symbol_count in
  do! self_check (size entries =? kDynamicCount) "runtime dynamic entry count" in
  for_each (fun dynamic e =>
      let! dynamic := write_i64 dynamic (fst e * 16) (fst (snd e)) in
      lb_write_u64 dynamic (fst e * 16 + 8) (snd (snd e)))
    dynamic (enumerate entries).

Definition build_gnu_note (note : Bytes) : outcome Bytes :=
  let! note := lb_write_u32 note 0 4 in
  let! note := lb_write_u32 note 4 0x14 in
  let! note := lb_write_u32 note 8 3 in
  let! note := copy_ascii note 12 "GNU" in
  let! digest := sha256 (bytes_of_string "ps5-native-app-boilerplate clean-room runtime") in
  lb_copy_bytes note 16 (firstn 20 digest).

(** ** Metadata *)

Record NameState := { ns_metadata : Bytes; ns_cursor : Z; ns_offsets : list Z; ns_names : list string }.

(** One round of the two name loops: the offset is recorded, the name appended. *)
Definition add_name (s : NameState) (name : string) : outcome NameState :=
  let! '(metadata, cursor) := append_string (ns_metadata s, ns_cursor s) name in
  Ok {| ns_metadata := metadata; ns_cursor := cursor;
        ns_offsets := ns_offsets s ++ [ns_cursor s]; ns_names := ns_names s ++ [name] |}.

Definition export_name (symbol : ApiSymbol) : string :=
  (api_nid symbol ++ (if String.eqb (api_nid symbol) "+F+9hhi6k9Q" || String.eqb (api_nid symbol) "sjpkrhugvVI"
                      then "#E#A" else "#D#A"))%string.

Definition add_export_name (s : NameState) (symbol : ApiSymbol) : outcome NameState :=
  add_name s (export_name symbol).

Definition add_import_name (s : NameState) (entry : RuntimeImport) : outcome NameState :=
  let! nid := compute_nid (import_name entry) in
  add_name s (nid ++ import_suffix entry).

Definition fixed_strings : list (Z * string) := [
  (0xA6C1, "libkernel.prx");
  (0xA6CF, "libkernel");
  (0xA6D9, "libSceLibcInternal.prx");
  (0xA6F0, "libSceLibcInternal");
  (0xA703, "libSceLibcInternalExt");
  (0xA719, "libSceSysmodule.prx");
  (0xA72D, "libSceSysmodule");
  (0xA73D, "libc.prx");
  (0xA746, "libc");
  (0xA74B, "libc.prx by BlackBearReloaded");
  (0xA797, "libc_setjmp")]%string.

Definition import_symbol (api_count : Z) (name_offsets : list Z) (symbols : Bytes) (e : Z * RuntimeImport)
  : outcome Bytes :=
  let '(i, entry) := e in
  let type := if import_plt entry then 2 else 1 in
  let! name := vector_at name_offsets i in
  lb_write_symbol symbols (api_count + 1 + i) (u32 name) (u8 (Z.lor 0x10 type)) 0 0 0 0.

Definition jump_relocation (api_count : Z) (s : Bytes * Z) (e : Z * RuntimeImport) : outcome (Bytes * Z) :=
  let '(jumps, jump) := s in
  let '(i, entry) := e in
  if negb (import_plt entry) then Ok (jumps, jump)
  else
    let at_ := jump * 24 in
    let! jumps := lb_write_u64 jumps at_ (kGotAddress + (kGotReservedEntries + jump) * 8) in
    let! jumps := lb_write_u64 jumps (at_ + 8) (Z.lor (u64 (Z.shiftl (api_count + 1 + i) 32)) 7) in
    Ok (jumps, jump + 1).

Definition relative_relocation (rela : Bytes) (i : Z) : outcome Bytes :=
  let at_ := i * 24 in
  let! rela := lb_write_u64 rela at_ (kRelativeAnchorSlotAddress + i * 8) in
  let! rela := lb_write_u64 rela (at_ + 8) 8 in
  lb_write_u64 rela (at_ + 16) (if i =? 0 then kRelativeAnchorAddress else 0x50).

Definition tls_relocation (s : Bytes * Z) (target : Z) : outcome (Bytes * Z) :=
  let '(rela, relocation) := s in
  let at_ := relocation * 24 in
  let! rela := lb_write_u64 rela at_ target in
  let! rela := lb_write_u64 rela (at_ + 8) 16 in
  Ok (rela, relocation + 1).

(** The last import of the name that asks for a GLOB_DAT relocation, or the
    number of imports. *)
Definition glob_dat_index (imports : list RuntimeImport) (name : string) : Z :=
  fold_left (fun symbol_index e =>
      if String.eqb (import_name (snd e)) name && import_glob_dat (snd e) then fst e else symbol_index)
    (enumerate imports) (size imports).

Definition glob_dat_relocation (api_count : Z) (imports : list RuntimeImport) (s : Bytes * Z)
  (e : string * Z) : outcome (Bytes * Z) :=
  let '(rela, relocation) := s in
  let '(name, target) := e in
  let symbol_index := glob_dat_index imports name in
  do! self_check (symbol_index <? size imports) ("runtime GLOB_DAT import " ++ name) in
  let at_ := relocation * 24 in
  let! rela := lb_write_u64 rela at_ target in
  let! rela := lb_write_u64 rela (at_ + 8) (Z.lor (u64 (Z.shiftl (api_count + 1 + symbol_index) 32)) 6) in
  Ok (rela, relocation + 1).

Definition relocation_count : Z := kRelativeRelocationCount + kTlsRelocationCount + kGlobDatRelocationCount.

Definition build_rela (api_count : Z) (imports : list RuntimeImport) (rela : Bytes) : outcome Bytes :=
  let! rela := for_each relative_relocation rela (indices 0 (Z.to_nat (kRelativeRelocationCount - 1))) in
  let at_ := (kRelativeRelocationCount - 1) * 24 in
  let! rela := lb_write_u64 rela at_ 0x10FCE0 in
  let! rela := lb_write_u64 rela (at_ + 8) 8 in
  let! rela := lb_write_u64 rela (at_ + 16) kInitAddress in
  let! '(rela, relocation) := for_each tls_relocation (rela, kRelativeRelocationCount) [0x10F818; 0x10F828; 0x10F838] in
  let! '(rela, relocation) := for_each (glob_dat_relocation api_count imports) (rela, relocation)
    [("__stack_chk_guard"%string, 0x10F800); ("__pthread_cxa_finalize"%string, 0x10F848); ("__progname"%string, 0x10F850)] in
  do! self_check (relocation =? relocation_count) "runtime emitted dynamic relocations" in
  Ok rela.

Definition build_jumps (api_count : Z) (imports : list RuntimeImport) (jumps : Bytes) : outcome Bytes :=
  let! '(jumps, jump) := for_each (jump_relocation api_count) (jumps, 0) (enumerate imports) in
  do! self_check (jump =? kPltRelocationCount) "runtime emitted PLT relocations" in
  Ok jumps.

(** Everything [build_metadata] writes through the [metadata] span. *)
Definition fill_metadata (api : list ApiSymbol) (imports : list RuntimeImport) (metadata : Bytes) : outcome Bytes :=
  let! exports := for_each add_export_name
    {| ns_metadata := metadata; ns_cursor := 1; ns_offsets := []; ns_names := [EmptyString] |} api in
  let! all := for_each add_import_name
    {| ns_metadata := ns_metadata exports; ns_cursor := ns_cursor exports;
       ns_offsets := []; ns_names := ns_names exports |} imports in
  do! self_check (ns_cursor all =? 0xA6C1) "runtime symbol-name string extent" in
  let! metadata := for_each (fun m e => put_string m (fst e) (snd e)) (ns_metadata all) fixed_strings in
  let symbol_count := size (ns_names all) in
  let symbol_table_size := u64 (symbol_count * 24) in
  do! self_check (symbol_table_size =? 0xFA38) "runtime symbol-table size" in
  let! metadata := window metadata kSymbolTableOffset symbol_table_size (fun symbols =>
    let! symbols := build_export_symbols symbols api (ns_offsets exports) in
    for_each (import_symbol (size api) (ns_offsets all)) symbols (enumerate imports)) in
  let! metadata := window metadata kJumpRelocationOffset (kPltRelocationCount * 24) (build_jumps (size api) imports) in
  let! metadata := window metadata kRelaOffset (relocation_count * 24) (build_rela (size api) imports) in
  let! hash := lb_build_sysv_hash (ns_names all) in
  do! self_check (size hash =? 0x5370) "runtime SysV hash size" in
  let! metadata := lb_copy_bytes metadata kHashTableOffset hash in
  do! self_check (kHashTableOffset + size hash =? kBuildNoteOffset) "runtime tables end at build note" in
  let! metadata := window metadata kBuildNoteOffset 0x24 build_gnu_note in
  window metadata kDynamicOffset (kDynamicCount * 16) (fun dynamic => lb_build_dynamic dynamic symbol_count).

(** [std::fill(file.begin() + at, file.begin() + at + n, 0)] *)
Definition fill_zeros (file : Bytes) (at_ n : Z) : outcome Bytes := copy_into file at_ (zeros n).

Definition build_metadata (file : Bytes) (api : list ApiSymbol) (imports : list RuntimeImport) : outcome Bytes :=
  let! file := window file kMetadataFileOffset kMetadataSize (fill_metadata api imports) in
  let! file := lb_write_u64 file kGotFileOffset (kMetadataAddress + kDynamicOffset) in
  let! file := fill_zeros file (kGotFileOffset + 8) ((kGotReservedEntries - 1 + kPltRelocationCount) * 8) in
  let! file := fill_zeros file kPreinitFileOffset 8 in
  fill_zeros file kHeapApiFileOffset kHeapApiSize.

(** ** The image *)

Definition author : string := "libc.prx by BlackBearReloaded".

Definition lb_build_comment (file : Bytes) : outcome Bytes :=
  window file kCommentFileOffset kCommentSize (fun comment =>
    let! comment := copy_ascii comment 0 "PATH" in
    let! comment := lb_write_u32 comment 4 0x50 in
    let! comment := lb_write_u32 comment 8 (size (bytes_of_string author) + 1) in
    copy_ascii comment 12 author).

Definition lb_build_version (file : Bytes) : outcome Bytes :=
  lb_copy_bytes file kVersionFileOffset
    [0x00; 0x00; 0x16; 0x00; 0x08; 0x6c; 0x69; 0x62; 0x63; 0x3a; 0x02; 0x00; 0x00;
     0x09; 0x00; 0x00; 0x00; 0x01; 0x02; 0x00; 0x00; 0x09; 0x00; 0x00; 0x00; 0x01].

(** The parts of the image, written into a cleared buffer. *)
Definition fill_runtime (file : Bytes) (api : list ApiSymbol) (imports : list RuntimeImport) : outcome Bytes :=
  let! file := build_elf_header file in
  let! file := lb_write_u64 file 0x28 0x194F18 in
  let! file := lb_write_u16 file 0x3A 0x40 in
  let! file := lb_write_u16 file 0x3C 0x26 in
  let! file := lb_write_u16 file 0x3E 0x23 in
  let! file := build_program_headers file in
  let! file := build_code file imports in
  let! file := lb_write_u32 file kMarkerFileOffset 1 in
  let! file := build_unwind_header file in
  let! file := build_module_param file in
  let! file := build_metadata file api imports in
  let! file := lb_build_comment file in
  let! file := lb_build_version file in
  copy_ascii file (kMarkerFileOffset + 0x100) "ps5-native-app-boilerplate clean-room libc by BlackBearReloaded".

Definition build_runtime (api : list ApiSymbol) (imports : list RuntimeImport) : outcome Bytes :=
  fill_runtime (zeros kRuntimeFileSize) api imports.

Fixpoint ascii_z (l : Bytes) : Bytes :=
  match l with
  | [] => []
  | b :: l' => if negb (b =? 0) then b :: ascii_z l' else []
  end.

(** The bytes from [at] up to the first zero or the end. *)
Definition read_ascii_z (data : Bytes) (at_ : Z) : string :=
  string_of_bytes (ascii_z (skipn (Z.to_nat at_) data)).

(** [ascii.find(text) != npos] *)
Fixpoint occurs (text data : Bytes) : bool :=
  (if list_eq_dec Z.eq_dec (firstn (List.length text) data) text then true else false) ||
  match data with
  | [] => false
  | _ :: data' => occurs text data'
  end.

Definition forbidden_texts : list string :=
  ["W:/Build"; "W:\Build"; "J013"; "Prospero_Release"; "sys/internal"]%string.

(** The checks of fixed fields, then the searches for text. *)
Definition verify_fields (file : Bytes) (api : list ApiSymbol) (imports : list RuntimeImport) : outcome unit :=
  do! self_check (size file =? kRuntimeFileSize) "runtime raw file size" in
  let! magic := lb_read_u32 file 0 in
  do! self_check (magic =? 0x464C457F) "runtime ELF magic" in
  let! type := lb_read_u16 file 0x10 in
  do! self_check (type =? 0xFE18) "runtime module type" in
  let! count := lb_read_u16 file 0x38 in
  do! self_check (count =? kProgramHeaderCount) "runtime program-header count" in
  let! marker := lb_read_u32 file kMarkerFileOffset in
  do! self_check (marker =? 1) "runtime Need_sceLibc marker" in
  let! got := lb_read_u64 file kGotFileOffset in
  do! self_check (got =? kMetadataAddress + kDynamicOffset) "runtime GOT dynamic pointer" in
  do! self_check (String.eqb (read_ascii_z file (kMetadataFileOffset + 0xA74B)) author)
        "runtime clean original filename" in
  self_check (u64 (size api + size imports + 1) =? 2669) "runtime dynamic symbol count".

Definition verify_texts (file : Bytes) : outcome unit :=
  do! self_check (occurs (bytes_of_string "BlackBearReloaded") file) "runtime attribution marker" in
  for_each (fun _ forbidden =>
      self_check (negb (occurs (bytes_of_string forbidden) file)) ("runtime forbidden reference text: " ++ forbidden))
    tt forbidden_texts.

Definition verify_runtime (file : Bytes) (api : list ApiSymbol) (imports : list RuntimeImport) : outcome unit :=
  do! verify_fields file api imports in
  verify_texts file.

(** ** The command: the manifests' lines in, the file to write out *)

Definition libc_builder_main (arguments : list string) (read_lines : string -> option (list string))
  : outcome (option (string * Bytes)) :=
  match arguments with
  | [api_path; import_path; output] =>
      let! api := read_api_surface api_path (read_lines api_path) in
      let! imports := read_imports import_path (read_lines import_path) in
      let! image := build_runtime api imports in
      do! verify_runtime image api imports in
      Ok (Some (output, image))
  | _ => Ok None
  end.
