(* ===== verification/LibcEncoding.v ===== *)
(** * The runtime builder's encodings agree with the module writer's

    [libc_builder.cpp] and [sce_module_writer.cpp] compute symbol identifiers
    and the System V hash table independently; an import resolves at run time
    only if both sides agree.  Here: [compute_nid] and [nid] are the same
    function, the two hash tables are the same bytes, and a RIP-relative
    instruction reaches its target. *)

From Stdlib Require Import ZArith List Bool Lia String Ascii.
From S2P Require Import Prelude Bytes Writes Hash ElfObject ModuleTables StringTables HashTable LibcManifest LibcRuntime.
Import ListNotations.
Open Scope Z_scope.

(** ** Symbol identifiers *)

Lemma digits_value_inj l l' :
  List.length l = List.length l' -> Forall (fun d => 0 <= d < 64) l -> Forall (fun d => 0 <= d < 64) l' ->
  digits_value l = digits_value l' -> l = l'.
Proof.
  revert l'. induction l as [|d l IH] using rev_ind; intros l' L H H' E.
  - destruct l'; [reflexivity|discriminate].
  - destruct l' as [|d' l' _] using rev_ind; [rewrite length_app in L; cbn in L; lia|].
    rewrite !length_app in L. cbn in L. rewrite !digits_value_snoc in E.
    apply Forall_app in H as [H Hd]. apply Forall_app in H' as [H' Hd'].
    inversion Hd; inversion Hd'; subst. assert (d = d') by lia. subst. f_equal. apply IH; [lia|assumption..|lia].
Qed.

Definition sextet (v k : Z) : Z := Z.land (Z.shiftr v k) 63.

Lemma sextet_eq v k : 0 <= k -> sextet v k = v / 2 ^ k mod 64.
Proof. intros. unfold sextet. change 63 with (Z.ones 6). rewrite Z.land_ones, Z.shiftr_div_pow2 by lia. reflexivity. Qed.

Lemma sextet_range v k : 0 <= sextet v k < 64.
Proof. unfold sextet. change 63 with (Z.ones 6). rewrite Z.land_ones by lia. apply Z.mod_pos_bound. lia. Qed.

Definition triple (a b c : Z) : Z := Z.lor (Z.lor (Z.shiftl a 16) (Z.shiftl b 8)) c.

Lemma triple_eq a b c : 0 <= a < 256 -> 0 <= b < 256 -> 0 <= c < 256 -> triple a b c = a * 65536 + b * 256 + c.
Proof.
  intros. unfold triple. rewrite <- Z.lor_assoc, (Z.lor_comm (Z.shiftl a 16)), (Z.lor_comm (Z.shiftl b 8)).
  rewrite (lor_shiftl_add c b 8) by lia. rewrite lor_shiftl_add by lia. lia.
Qed.

Lemma sextets_value v : 0 <= v < 2 ^ 24 ->
  ((sextet v 18 * 64 + sextet v 12) * 64 + sextet v 6) * 64 + Z.land v 63 = v /\
  ((sextet v 18 * 64 + sextet v 12) * 64 + sextet v 6) = v / 64.
Proof.
  intros H. rewrite !sextet_eq by lia. change 63 with (Z.ones 6). rewrite Z.land_ones by lia.
  change (2 ^ 18) with 262144. change (2 ^ 12) with 4096. change (2 ^ 6) with 64. Z.div_mod_to_equations. lia.
Qed.

Definition base64_digits (a b c d e f g h : Z) : list Z :=
  let v1 := triple a b c in let v2 := triple d e f in let v3 := triple g h 0 in
  [sextet v1 18; sextet v1 12; sextet v1 6; Z.land v1 63;
   sextet v2 18; sextet v2 12; sextet v2 6; Z.land v2 63; sextet v3 18; sextet v3 12; sextet v3 6].

Lemma base64_of_eight a b c d e f g h :
  exists last_, base64 [a; b; c; d; e; f; g; h] =
    Ok (map (letter base64_alphabet) (base64_digits a b c d e f g h) ++ [last_]).
Proof. eexists. reflexivity. Qed.

Lemma base64_digits_range a b c d e f g h : Forall (fun d => 0 <= d < 64) (base64_digits a b c d e f g h).
Proof.
  assert (L : forall v, 0 <= Z.land v 63 < 64)
    by (intros v; change 63 with (Z.ones 6); rewrite Z.land_ones by lia; apply Z.mod_pos_bound; lia).
  unfold base64_digits. repeat (constructor; [apply sextet_range || apply L|]). constructor.
Qed.

Lemma base64_digits_value a b c d e f g h :
  bytes_ok [a; b; c; d; e; f; g; h] ->
  digits_value (base64_digits a b c d e f g h) = 4 * be_value [a; b; c; d; e; f; g; h].
Proof.
  intros H. repeat match goal with H : bytes_ok (_ :: _) |- _ => inversion H; subst; clear H
    | H : Forall _ (_ :: _) |- _ => inversion H; subst; clear H end.
  unfold base64_digits. cbv zeta. set (v1 := triple a b c). set (v2 := triple d e f). set (v3 := triple g h 0).
  pose proof (triple_eq a b c ltac:(lia) ltac:(lia) ltac:(lia)) as E1.
  pose proof (triple_eq d e f ltac:(lia) ltac:(lia) ltac:(lia)) as E2.
  pose proof (triple_eq g h 0 ltac:(lia) ltac:(lia) ltac:(lia)) as E3. fold v1 in E1. fold v2 in E2. fold v3 in E3.
  destruct (sextets_value v1 ltac:(lia)) as [S1 _]. destruct (sextets_value v2 ltac:(lia)) as [S2 _].
  destruct (sextets_value v3 ltac:(lia)) as [_ S3].
  assert (D : v3 / 64 = (g * 256 + h) * 4) by (rewrite E3; symmetry; apply (Z.div_unique_exact _ 64); lia).
  rewrite D in S3. unfold digits_value, be_value. cbn [fold_left]. lia.
Qed.

Lemma compute_nid_encode value result :
  bytes_ok value -> size value = 8 -> base64 value = Ok result ->
  string_of_list_ascii (map (fun c => if Ascii.eqb c "/" then "-"%char else c) (firstn 11 result)) = nid_encode value.
Proof.
  intros Hb Hs E. destruct (nid_encode_digits value Hb Hs) as (ds & -> & Hd & L & V).
  do 8 (destruct value as [|? value]; [discriminate|]). destruct value; [|unfold size in Hs; cbn in Hs; lia].
  match type of E with base64 [?a; ?b; ?c; ?d; ?e; ?f; ?g; ?h] = _ =>
    destruct (base64_of_eight a b c d e f g h) as [x Ex]; rewrite Ex in E;
    assert (ds = base64_digits a b c d e f g h) as -> by
      (apply digits_value_inj; [rewrite L; reflexivity|assumption|apply base64_digits_range|];
       rewrite V; symmetry; apply base64_digits_value; assumption) end.
  apply ok_inj in E. subst result. reflexivity.
Qed.

Lemma base64_eight value : size value = 8 -> exists result, base64 value = Ok result.
Proof.
  intros Hs. do 8 (destruct value as [|? value]; [discriminate|]). destruct value; [|unfold size in Hs; cbn in Hs; lia].
  eexists. reflexivity.
Qed.

Lemma compute_nid_nid name : compute_nid name = nid name.
Proof.
  unfold compute_nid, nid. change kNidSuffix with nid_suffix.
  destruct (sha1_total (bytes_of_string name ++ nid_suffix)) as (d & -> & Sd & Bd). cbn [bind].
  assert (B : bytes_ok (rev (firstn 8 d))) by (apply Forall_rev, bytes_ok_firstn; assumption).
  assert (S : size (rev (firstn 8 d)) = 8) by (unfold size in *; rewrite length_rev, length_firstn; lia).
  destruct (base64_eight _ S) as [result E]. rewrite E. cbn [bind].
  rewrite (compute_nid_encode _ result B S E). reflexivity.
Qed.

Lemma nid_eleven name : exists s, nid name = Ok s /\ String.length s = 11%nat.
Proof.
  destruct (sha1_total (bytes_of_string name ++ nid_suffix)) as (d & E & Sd & Bd).
  exists (nid_encode (rev (firstn 8 d))). split; [unfold nid; rewrite E; reflexivity|].
  apply nid_encode_decode; [apply Forall_rev, bytes_ok_firstn; exact Bd|].
  unfold size in *. rewrite length_rev, length_firstn. lia.
Qed.

(** The runtime builder and the module writer give every name the same
    identifier: [compute_nid] (grouping base-64) and [nid] (bit-accumulator
    base-64) are equal on every name. *)
Theorem compute_nid_is_nid name : compute_nid name = nid name /\ exists s, compute_nid name = Ok s /\ String.length s = 11%nat.
Proof. rewrite compute_nid_nid. split; [reflexivity|apply nid_eleven]. Qed.

(** ** Field access *)

Lemma self_check_bind_ok {B} c msg (k : unit -> outcome B) b :
  bind (self_check c msg) k = Ok b -> c = true /\ k tt = Ok b.
Proof. destruct c; cbn; intros; [auto|discriminate]. Qed.

Lemma self_check_true {B} c msg (k : unit -> outcome B) : c = true -> bind (self_check c msg) k = k tt.
Proof. intros ->; reflexivity. Qed.

Lemma byte_low_or v b : 0 <= b < 256 -> Z.lor (Z.shiftl v 8) b = v * 256 + b.
Proof. intros. rewrite Z.lor_comm, lor_shiftl_add by lia. lia. Qed.

(** The most-significant-first loop reads the same little-endian field. *)
Lemma load_down_from (m n : nat) data a v :
  bytes_ok data -> 0 <= a -> a + Z.of_nat n <= size data ->
  0 <= v -> (v + 1) * 256 ^ Z.of_nat n <= 256 ^ Z.of_nat m ->
  for_each (fun value i =>
      let! b := index data (a + i) in
      Ok (Z.lor (Z.shiftl value 8 mod 2 ^ (8 * Z.of_nat m)) b)) v (rev (indices 0 n)) =
  Ok (v * 256 ^ Z.of_nat n + field data a (Z.of_nat n)).
Proof.
  intros Hb Ha. revert v. induction n as [|n IH]; intros v Hs Hv Hm.
  - cbn [indices rev for_each]. unfold field, sub. cbn. f_equal. lia.
  - rewrite indices_snoc, rev_app_distr. cbn [rev app for_each].
    rewrite index_ok by lia. cbn [bind]. pose proof (bytes_ok_byte_at data (a + (0 + Z.of_nat n)) Hb) as R.
    rewrite Nat2Z.inj_succ in *. rewrite Z.pow_succ_r in Hm by lia.
    pose proof (Z.pow_pos_nonneg 256 (Z.of_nat n) ltac:(lia) ltac:(lia)).
    rewrite Z.mod_small.
    + rewrite byte_low_or by assumption. rewrite IH by nia. f_equal.
      rewrite Z.pow_succ_r by lia. unfold field. rewrite Z.add_0_l.
      replace (Z.succ (Z.of_nat n)) with (Z.of_nat n + 1) by lia. rewrite sub_snoc, le_value_app by lia.
      rewrite size_sub by lia. cbn [le_value]. lia.
    + rewrite Z.shiftl_mul_pow2, (Z.pow_mul_r 2 8) by lia. change (2 ^ 8) with 256. nia.
Qed.

Lemma load_down_ok n data a :
  bytes_ok data -> 0 <= a -> a + Z.of_nat n <= size data -> load_down n data a = Ok (field data a (Z.of_nat n)).
Proof.
  intros. unfold load_down. rewrite (load_down_from n n) by (assumption || lia). reflexivity.
Qed.

Lemma lb_read_u32_ok data a :
  bytes_ok data -> 0 <= a -> a + 4 <= size data -> size data < 2 ^ 64 -> lb_read_u32 data a = Ok (field data a 4).
Proof.
  intros. unfold lb_read_u32. rewrite u64_small by lia. rewrite self_check_true by lia. apply load_down_ok; lia || assumption.
Qed.

Lemma lb_read_u64_ok data a :
  bytes_ok data -> 0 <= a -> a + 8 <= size data -> size data < 2 ^ 64 -> lb_read_u64 data a = Ok (field data a 8).
Proof.
  intros. unfold lb_read_u64. rewrite u64_small by lia. rewrite self_check_true by lia. apply load_down_ok; lia || assumption.
Qed.

Lemma lb_read_u16_ok data a :
  bytes_ok data -> 0 <= a -> a + 2 <= size data -> size data < 2 ^ 64 -> lb_read_u16 data a = Ok (field data a 2).
Proof.
  intros Hb Ha Hs Hl. unfold lb_read_u16. rewrite u64_small by lia. rewrite self_check_true, !index_ok by lia. cbn [bind].
  pose proof (bytes_ok_byte_at data a Hb). pose proof (bytes_ok_byte_at data (a + 1) Hb).
  f_equal. rewrite u16_small by (rewrite Z.shiftl_mul_pow2; lia). rewrite lor_shiftl_add by lia.
  unfold field. rewrite sub_cons by lia. change (2 - 1) with 1. rewrite sub_cons by lia. cbn [le_value].
  change (1 - 1) with 0. unfold sub. cbn [Z.to_nat firstn le_value]. lia.
Qed.

(** ** The hash table *)

Lemma for_each_agree {A S} (f g : S -> A -> outcome S) (P : S -> Prop) l s r :
  (forall s a s', P s -> In a l -> f s a = Ok s' -> g s a = Ok s' /\ P s') ->
  P s -> for_each f s l = Ok r -> for_each g s l = Ok r.
Proof.
  revert s; induction l as [|a l IH]; intros s H Hs E; cbn [for_each] in *; [exact E|].
  apply bind_ok in E as (s' & E & E'). destruct (H s a s' Hs (or_introl eq_refl) E) as [-> Hs']. cbn [bind].
  apply IH; [|assumption..]. intros; apply H; [assumption|right|]; assumption.
Qed.

Lemma agree_read_u32 data a v :
  mw_read_u32 data a = Ok v -> bytes_ok data -> 0 <= a < 2 ^ 63 -> size data < 2 ^ 64 -> lb_read_u32 data a = Ok v.
Proof.
  intros E Hb Ha Hs. unfold mw_read_u32, checked_load in E. inv_bind E. change (Z.of_nat 4) with 4 in G.
  to_prop. rewrite u64_small in G by lia. rewrite load_le_ok in E by lia || assumption.
  rewrite lb_read_u32_ok by lia || assumption. exact E.
Qed.

Lemma agree_write_u32 data a v r : mw_write_u32 data a v = Ok r -> lb_write_u32 data a v = Ok r.
Proof.
  unfold mw_write_u32, checked_store, lb_write_u32. change (Z.of_nat 4) with 4.
  destruct (u64 (a + 4) <=? size data); cbn; [auto|discriminate].
Qed.

Lemma mw_write_u32_inv data a v r :
  mw_write_u32 data a v = Ok r -> bytes_ok data -> 0 <= a < 2 ^ 63 -> size data < 2 ^ 64 ->
  bytes_ok r /\ size r = size data.
Proof.
  intros E Hb Ha Hs. unfold mw_write_u32 in E. pose proof E as E'. unfold checked_store in E'. inv_bind E'.
  change (Z.of_nat 4) with 4 in G. to_prop. rewrite u64_small in G by lia.
  rewrite checked_store_ok in E by lia. apply ok_inj in E. subst r.
  split; [apply bytes_ok_put; [assumption|apply bytes_ok_le_bytes]|apply size_put; rewrite ?size_le_bytes; lia].
Qed.

Lemma sysv_hash_agree names :
  0 < size names < 2 ^ 29 ->
  exists table, ModuleTables.build_sysv_hash names = Ok table /\ lb_build_sysv_hash names = Ok table /\
    size table = 8 + size names * 8.
Proof.
  intros Hn. destruct (build_sysv_hash_ok names Hn) as (table & E & I). exists table. split; [exact E|].
  split; [clear I|apply I].
  unfold build_sysv_hash in E. inv_bind E. unfold lb_build_sysv_hash. cbv zeta.
  assert (S0 : size (zeros (8 + size names * 8)) = 8 + size names * 8) by (apply size_zeros; lia).
  destruct (mw_write_u32_inv _ _ _ _ E0 (bytes_ok_zeros _) ltac:(lia) ltac:(lia)) as [B1 S1].
  destruct (mw_write_u32_inv _ _ _ _ E1 B1 ltac:(lia) ltac:(lia)) as [B2 S2].
  rewrite (agree_write_u32 _ _ _ _ E0). cbn [bind]. rewrite (agree_write_u32 _ _ _ _ E1). cbn [bind].
  replace (size names =? 0) with false by lia. revert E.
  apply (for_each_agree _ _ (fun t => bytes_ok t /\ size t = 8 + size names * 8)); [|split; [assumption|lia]].
  intros t i t' [Hb Hs] Hi E. apply in_rev, in_indices in Hi. unfold hash_insert in E. inv_bind E.
  unfold lb_hash_insert. rewrite E2. cbn [bind]. change (lb_elf_hash v1) with (elf_hash v1).
  pose proof (Z.mod_pos_bound (elf_hash v1) (size names) ltac:(lia)).
  assert (i < size names) by (unfold size in *; lia).
  rewrite (agree_read_u32 _ _ _ E3 Hb ltac:(lia) ltac:(lia)). cbn [bind].
  destruct (mw_write_u32_inv _ _ _ _ E4 Hb ltac:(lia) ltac:(lia)) as [B3 S3].
  rewrite (agree_write_u32 _ _ _ _ E4). cbn [bind]. destruct (mw_write_u32_inv _ _ _ _ E B3 ltac:(lia) ltac:(lia)) as [B4 S4].
  split; [apply agree_write_u32; exact E|split; [assumption|lia]].
Qed.

(** The two implementations of the System V hash table build the same
    bytes: for every non-empty list of names the size of a symbol table, the
    runtime builder returns exactly the table the module writer returns. *)
Theorem sysv_hash_tables_agree names :
  0 < size names < 2 ^ 29 ->
  exists table, ModuleTables.build_sysv_hash names = Ok table /\ lb_build_sysv_hash names = Ok table /\
    size table = 8 + size names * 8.
Proof. apply sysv_hash_agree. Qed.

Lemma sysv_hash_tables_agree_witness :
  exists table, ModuleTables.build_sysv_hash [""; "malloc"; "free"]%string = Ok table /\
    lb_build_sysv_hash [""; "malloc"; "free"]%string = Ok table /\ size table = 32.
Proof. apply (sysv_hash_tables_agree [""; "malloc"; "free"]%string). vm_compute. split; reflexivity. Defined.

(** ** Code *)

(** [n] bytes at [at] are the only ones that may differ. *)
Definition only_changes (file file' : Bytes) (at_ n : Z) : Prop :=
  size file' = size file /\
  forall i, 0 <= i -> ~ at_ <= i < at_ + n -> byte_at file' i = byte_at file i.

Lemma lb_copy_bytes_ok target a source :
  0 <= a -> a + size source <= size target -> size target < 2 ^ 64 ->
  lb_copy_bytes target a source = Ok (put target a source).
Proof.
  intros. pose proof (size_nonneg source). unfold lb_copy_bytes. rewrite u64_small by lia.
  rewrite self_check_true by lia. unfold copy_into.
  replace ((0 <=? a) && (a + size source <=? size target)) with true by lia. reflexivity.
Qed.

Lemma lb_write_u32_ok data a v :
  0 <= a -> a + 4 <= size data -> size data < 2 ^ 64 -> lb_write_u32 data a v = Ok (put data a (le_bytes 4 v)).
Proof.
  intros. unfold lb_write_u32. rewrite u64_small by lia. rewrite self_check_true by lia.
  apply store_le_ok; change (Z.of_nat 4) with 4; lia.
Qed.

Lemma lb_write_u64_ok data a v :
  0 <= a -> a + 8 <= size data -> size data < 2 ^ 64 -> lb_write_u64 data a v = Ok (put data a (le_bytes 8 v)).
Proof.
  intros. unfold lb_write_u64. rewrite u64_small by lia. rewrite self_check_true by lia.
  apply store_le_ok; change (Z.of_nat 8) with 8; lia.
Qed.

Lemma s64_of_small x : 0 <= x < 2 ^ 63 -> s64 x = x.
Proof. intros. unfold s64. rewrite u64_small by lia. replace (x <? 2 ^ 63) with true by lia. reflexivity. Qed.

Lemma s32_u32 x : - 2 ^ 31 <= x < 2 ^ 31 -> s32 (u32 x) = x.
Proof.
  intros H. unfold s32. assert (E : u32 (u32 x) = if x <? 0 then x + 2 ^ 32 else x).
  { unfold u32. rewrite Z.mod_mod by lia. destruct (x <? 0) eqn:E; to_prop; [|apply Z.mod_small; lia].
    symmetry. apply (Z.mod_unique _ _ (-1)); lia. }
  rewrite E. destruct (x <? 0) eqn:E'; to_prop.
  - replace (x + 2 ^ 32 <? 2 ^ 31) with false by lia. lia.
  - replace (x <? 2 ^ 31) with true by lia. reflexivity.
Qed.

Lemma u32_s32 x : u32 (s32 x) = u32 x.
Proof.
  unfold s32, u32. destruct (x mod 2 ^ 32 <? 2 ^ 31); [apply Z.mod_mod; lia|].
  rewrite Zminus_mod, Z.mod_same, Z.sub_0_r, !Z.mod_mod by lia. reflexivity.
Qed.

(** The operand of a RIP-relative instruction that ends at [next]: the
    sign-extended displacement is relative to the next instruction. *)
Definition rip_operand (file : Bytes) (displacement_at next : Z) : Z :=
  next + s32 (field file displacement_at 4).

(** Generated code refers to what it means: when the target is within
    reach, [write_rip_relative_code] emits the opcode and a displacement from
    which the processor computes exactly the target address, advances the
    cursor by the instruction's length and changes no other byte; when it is
    not, it throws instead of emitting a truncated displacement. *)
Theorem rip_relative_reaches file address opcode target :
  0 <= address -> kTextFileOffset + address + size opcode + 4 <= size file < 2 ^ 63 -> 0 <= target < 2 ^ 63 ->
  let at_ := kTextFileOffset + address in
  let next := address + size opcode + 4 in
  if (- 2 ^ 31 <=? target - next) && (target - next <? 2 ^ 31) then
    exists file', write_rip_relative_code (file, address) opcode target = Ok (file', next) /\
      sub file' at_ (size opcode) = opcode /\
      rip_operand file' (at_ + size opcode) next = target /\
      only_changes file file' at_ (size opcode + 4)
  else write_rip_relative_code (file, address) opcode target = fail "runtime RIP-relative displacement".
Proof.
  intros Ha Hs Ht. cbv zeta. pose proof (size_nonneg opcode) as Ho. unfold kTextFileOffset in *.
  set (d := target - (address + size opcode + 4)). unfold write_rip_relative_code.
  rewrite (s64_of_small target), (s64_of_small (address + size opcode + 4)) by lia. fold d.
  unfold kTextFileOffset. rewrite !(u64_small (0x4000 + address)) by lia. cbv zeta.
  destruct (_ && _) eqn:E.
  - to_prop. rewrite self_check_true by lia. rewrite lb_copy_bytes_ok by lia. cbn [bind].
    set (f1 := put file (0x4000 + address) opcode).
    assert (S1 : size f1 = size file) by (apply size_put; lia).
    unfold write_i32. rewrite u32_s32, (u64_small (0x4000 + address + size opcode)) by lia.
    rewrite lb_write_u32_ok by lia. cbn [bind].
    set (f2 := put f1 (0x4000 + address + size opcode) (le_bytes 4 (u32 d))). exists f2.
    rewrite u64_small by lia. split; [reflexivity|]. split; [|split].
    + unfold f2. rewrite sub_put_other by (rewrite ?size_le_bytes; lia). apply sub_put_same; lia.
    + unfold rip_operand, field, f2. rewrite <- (size_le_bytes 4 (u32 d)) at 2.
      rewrite sub_put_same, le_value_bytes by (rewrite ?size_le_bytes; lia).
      change (256 ^ Z.of_nat 4) with (2 ^ 32). fold (u32 (u32 d)).
      rewrite (u32_small (u32 d)) by apply u32_range. rewrite s32_u32 by lia. lia.
    + split; [unfold f2; rewrite size_put by (rewrite ?size_le_bytes; lia); exact S1|].
      intros i Hi Hn. unfold f2. rewrite byte_at_put by (rewrite ?size_le_bytes; lia). rewrite size_le_bytes.
      change (Z.of_nat 4) with 4.
      replace ((0x4000 + address + size opcode <=? i) && (i <? 0x4000 + address + size opcode + 4)) with false by lia.
      unfold f1. rewrite byte_at_put by lia.
      replace ((0x4000 + address <=? i) && (i <? 0x4000 + address + size opcode)) with false by lia. reflexivity.
  - unfold self_check. replace ((- 2 ^ 31 <=? d) && (d <=? 2 ^ 31 - 1)) with false by lia. reflexivity.
Qed.

Lemma rip_relative_reaches_witness :
  exists file', write_rip_relative_code (zeros 0x4100, 0x10) [0x48; 0x8B; 0x05] 0x10FCE0 = Ok (file', 0x17) /\
    sub file' 0x4010 3 = [0x48; 0x8B; 0x05] /\ rip_operand file' 0x4013 0x17 = 0x10FCE0 /\
    only_changes (zeros 0x4100) file' 0x4010 7.
Proof.
  apply (rip_relative_reaches (zeros 0x4100) 0x10 [0x48; 0x8B; 0x05] 0x10FCE0); rewrite ?size_zeros by lia;
    unfold size, kTextFileOffset; cbn; lia.
Defined.

(** ** Procedure linkage: slots in code and in relocations *)

(** The number of PLT imports in a list. *)
Definition plt_count (imports : list RuntimeImport) : Z := size (filter import_plt imports).

Lemma plt_count_cons e l : plt_count (e :: l) = (if import_plt e then 1 else 0) + plt_count l.
Proof. unfold plt_count. cbn [filter]. destruct (import_plt e); [rewrite size_cons|]; lia. Qed.

(** The address of the slot of the [i]-th import. *)
Definition slot_address (imports : list RuntimeImport) (i : nat) : Z :=
  kGotAddress + (kGotReservedEntries + plt_count (firstn i imports)) * 8.

Lemma import_slot_at imports i e s :
  NoDup (map import_name imports) -> nth_error imports i = Some e -> import_plt e = true ->
  import_slot_from imports (import_name e) s = Ok (slot_address imports i + s * 8).
Proof.
  unfold slot_address. revert i s. induction imports as [|x l IH]; intros i s Hd Hi Hp; [destruct i; discriminate|].
  cbn [map] in Hd. inversion Hd as [|? ? Hx Hd']; subst. cbn [import_slot_from]. destruct i as [|i].
  - injection Hi as ->. rewrite String.eqb_refl, Hp. cbn [self_check negb bind firstn].
    change (plt_count []) with 0. apply f_equal. lia.
  - cbn [nth_error] in Hi. destruct (String.eqb (import_name x) (import_name e)) eqn:E.
    + apply String.eqb_eq in E. exfalso. apply Hx. rewrite E. apply in_map, (nth_error_In _ _ Hi).
    + rewrite (IH i) by assumption. cbn [firstn]. rewrite plt_count_cons. apply f_equal. destruct (import_plt x); lia.
Qed.

Lemma plt_count_before imports i e :
  nth_error imports i = Some e -> import_plt e = true -> 0 <= plt_count (firstn i imports) < plt_count imports.
Proof.
  revert i; induction imports as [|x l IH]; intros i Hi Hp; [destruct i; discriminate|]. destruct i as [|i].
  - injection Hi as <-. cbn [firstn]. change (plt_count []) with 0. rewrite plt_count_cons, Hp.
    pose proof (size_nonneg (filter import_plt l)). unfold plt_count. lia.
  - cbn [firstn]. rewrite !plt_count_cons. specialize (IH i Hi Hp). destruct (import_plt x); lia.
Qed.

(** What the [j]-th record of a relocation table says. *)
Definition record_is (table : Bytes) (j offset info : Z) : Prop :=
  field table (j * 24) 8 = offset /\ field table (j * 24 + 8) 8 = info.

Definition jump_info (api_count i : Z) : Z := (api_count + 1 + i) * 2 ^ 32 + 7.

Lemma jump_info_lor c i n : 0 <= c -> 0 <= i -> c + 1 + i < 2 ^ 31 -> 0 <= n < 2 ^ 32 ->
  Z.lor (u64 (Z.shiftl (c + 1 + i) 32)) n = (c + 1 + i) * 2 ^ 32 + n.
Proof.
  intros. rewrite u64_small by (rewrite Z.shiftl_mul_pow2; lia). rewrite Z.lor_comm, lor_shiftl_add by lia. lia.
Qed.

Lemma field_put_u64 data a v : 0 <= a -> a + 8 <= size data -> 0 <= v < 2 ^ 64 ->
  field (put data a (le_bytes 8 v)) a 8 = v.
Proof.
  intros Ha Hl Hv. unfold field. pose proof (sub_put_le data a 8 v Ha Hl) as E. change (Z.of_nat 8) with 8 in E.
  rewrite E, le_value_bytes. apply Z.mod_small. assumption.
Qed.

Lemma field_put_away data a v b n : 0 <= a -> a + 8 <= size data -> 0 <= b -> 0 <= n -> b + n <= size data ->
  b + n <= a \/ a + 8 <= b -> field (put data a (le_bytes 8 v)) b n = field data b n.
Proof. intros. unfold field. f_equal. apply sub_put_other; rewrite ?size_le_bytes; lia. Qed.

Lemma lb_write_u64_inv data a v r :
  lb_write_u64 data a v = Ok r -> 0 <= a < 2 ^ 63 -> size data < 2 ^ 64 ->
  r = put data a (le_bytes 8 v) /\ a + 8 <= size data /\ size r = size data.
Proof.
  intros E Ha Hs. pose proof E as E'. unfold lb_write_u64 in E'. apply self_check_bind_ok in E' as [G _]. to_prop.
  rewrite u64_small in G by lia. rewrite lb_write_u64_ok in E by lia. apply ok_inj in E. subst r.
  split; [reflexivity|]. split; [lia|]. apply size_put; rewrite ?size_le_bytes; lia.
Qed.

(** The relocations of the imports from position [k] on, the first of them
    written as record [j]: earlier records are kept. *)
Lemma jump_relocations_ok c l k j jumps jumps' j' :
  for_each (jump_relocation c) (jumps, j) (combine (indices k (List.length l)) l) = Ok (jumps', j') ->
  0 <= c -> 0 <= k -> 0 <= j -> c + 1 + k + size l < 2 ^ 31 -> j + size l < 2 ^ 31 -> size jumps < 2 ^ 64 ->
  size jumps' = size jumps /\ j' = j + plt_count l /\
  (forall b n, 0 <= b -> 0 <= n -> b + n <= j * 24 -> b + n <= size jumps -> field jumps' b n = field jumps b n) /\
  forall i e, nth_error l i = Some e -> import_plt e = true ->
    let r := j + plt_count (firstn i l) in
    (r + 1) * 24 <= size jumps + 8 /\
    record_is jumps' r (kGotAddress + (kGotReservedEntries + r) * 8) (jump_info c (k + Z.of_nat i)).
Proof.
  revert k j jumps. induction l as [|x l IH]; intros k j jumps E Hc Hk Hj H1 H2 Hs.
  - cbn in E. apply ok_inj, pair_inj in E as [<- <-]. split; [reflexivity|].
    split; [change (plt_count []) with 0; lia|]. split; [reflexivity|]. intros i e Hi. destruct i; discriminate.
  - rewrite size_cons in *. pose proof (size_nonneg l). cbn [List.length indices combine for_each] in E.
    apply bind_ok in E as ([j1 n1] & E0 & E). unfold jump_relocation in E0.
    destruct (import_plt x) eqn:Hp; cbn [negb] in E0.
    + inv_bind E0. apply ok_inj, pair_inj in E0 as [<- <-]. unfold kGotAddress, kGotReservedEntries in *.
      apply lb_write_u64_inv in E1 as (-> & B1 & S1); [|lia|lia].
      set (v1 := put jumps _ _) in *. apply lb_write_u64_inv in E2 as (-> & B2 & S2); [|lia|lia].
      set (v2 := put v1 _ _) in *.
      destruct (IH (k + 1) (j + 1) v2 E) as (Sz & C & P & Q); [lia..|]. split; [lia|].
      split; [rewrite plt_count_cons, Hp; lia|]. split.
      * intros b n Hb Hn Hl Hl'. rewrite P by lia. unfold v2, v1. rewrite !field_put_away by (rewrite ?size_put; rewrite ?size_le_bytes; lia).
        reflexivity.
      * intros i e Hi He. destruct i as [|i].
        -- injection Hi as <-. cbn [firstn]. change (plt_count []) with 0. cbv zeta. rewrite Z.add_0_r.
           split; [lia|]. unfold record_is, jump_info. rewrite !P by lia. unfold v2. rewrite field_put_away by lia.
           unfold v1. rewrite field_put_u64 by lia. split; [reflexivity|]. fold v1. rewrite field_put_u64.
           ++ rewrite Z.add_0_r. apply jump_info_lor; lia.
           ++ lia.
           ++ lia.
           ++ rewrite jump_info_lor by lia. lia.
        -- cbn [nth_error] in Hi. specialize (Q i e Hi He). cbn [firstn]. rewrite plt_count_cons, Hp. cbv zeta in *.
           replace (j + (1 + plt_count (firstn i l))) with (j + 1 + plt_count (firstn i l)) by lia.
           replace (k + Z.of_nat (S i)) with (k + 1 + Z.of_nat i) by lia. split; [lia|apply Q].
    + apply ok_inj, pair_inj in E0 as [<- <-].
      destruct (IH (k + 1) j jumps E) as (Sz & C & P & Q); [lia..|]. split; [lia|].
      split; [rewrite plt_count_cons, Hp; lia|]. split; [exact P|].
      intros i e Hi He. destruct i as [|i]; [injection Hi as <-; congruence|].
      cbn [nth_error] in Hi. specialize (Q i e Hi He). cbn [firstn]. rewrite plt_count_cons, Hp. cbv zeta in *.
      replace (k + Z.of_nat (S i)) with (k + 1 + Z.of_nat i) by lia. exact Q.
Qed.

(** Calls reach the import they name: when the relocation table is
    built, every PLT import has a slot in the code generator's sense
    ([import_slot]) and a relocation record of its own that binds exactly that
    slot to exactly that import's symbol. *)
Theorem plt_slots_bound api_count imports jumps jumps' i e :
  NoDup (map import_name imports) -> 0 <= api_count -> api_count + 1 + size imports < 2 ^ 31 ->
  size jumps < 2 ^ 64 -> build_jumps api_count imports jumps = Ok jumps' ->
  nth_error imports i = Some e -> import_plt e = true ->
  exists slot r, import_slot imports (import_name e) = Ok slot /\ 0 <= r < kPltRelocationCount /\
    record_is jumps' r slot (jump_info api_count (Z.of_nat i)).
Proof.
  intros Hd Hc Hn Hs E Hi Hp. unfold build_jumps in E. apply bind_ok in E as ([js j] & E & F).
  apply self_check_bind_ok in F as [G F]. to_prop. apply ok_inj in F. subst jumps'.
  pose proof (size_nonneg imports). unfold enumerate in E.
  pose proof (jump_relocations_ok api_count imports 0 0 jumps js j E ltac:(lia) ltac:(lia) ltac:(lia)
    ltac:(lia) ltac:(lia) ltac:(lia)) as (S & C & _ & Q). specialize (Q i e Hi Hp). cbv zeta in Q.
  exists (slot_address imports i), (plt_count (firstn i imports)). split.
  - unfold import_slot. rewrite (import_slot_at imports i e 0 Hd Hi Hp). apply f_equal. lia.
  - rewrite !Z.add_0_l in Q. split; [|apply Q]. pose proof (plt_count_before imports i e Hi Hp). lia.
Qed.

Definition sample_imports : list RuntimeImport :=
  map (fun i => {| import_name := LibcManifest.to_string i; import_suffix := "#A#B"; import_plt := true;
                   import_glob_dat := false |}) (indices 0 100).

Lemma plt_slots_bound_witness :
  exists jumps' slot r, build_jumps 2566 sample_imports (zeros 2400) = Ok jumps' /\
    import_slot sample_imports "5" = Ok slot /\ 0 <= r < kPltRelocationCount /\
    record_is jumps' r slot (jump_info 2566 5).
Proof.
  assert (T : match build_jumps 2566 sample_imports (zeros 2400) with Ok _ => true | _ => false end = true)
    by (vm_compute; reflexivity).
  destruct (build_jumps 2566 sample_imports (zeros 2400)) as [jumps'| |] eqn:E; [|discriminate T..].
  exists jumps'. destruct (plt_slots_bound 2566 sample_imports (zeros 2400) jumps' 5
    {| import_name := "5"; import_suffix := "#A#B"; import_plt := true; import_glob_dat := false |}) as (slot & r & R).
  - replace (map import_name sample_imports) with (nodup string_dec (map import_name sample_imports))
      by (vm_compute; reflexivity). apply NoDup_nodup.
  - lia.
  - vm_compute. reflexivity.
  - rewrite size_zeros by lia. lia.
  - exact E.
  - reflexivity.
  - reflexivity.
  - exists slot, r. split; [reflexivity|exact R].
Defined.
