(* ===== verification/LibcText.v ===== *)
(** * Reading the runtime builder's manifests

    [split] and joining are inverse, a rendered API record is read back as the
    record it renders whatever blanks surround it, and a manifest that is
    accepted satisfies what the image builder relies on. *)

From Stdlib Require Import ZArith List Bool Lia String Ascii.
From S2P Require Import Prelude Bytes LibcManifest.
Import ListNotations.
Open Scope Z_scope.

(** ** Strings *)

Lemma append_assoc (a b c : string) : ((a ++ b) ++ c = a ++ (b ++ c))%string.
Proof. induction a as [|x a IH]; cbn; [reflexivity|]. f_equal. exact IH. Qed.

Lemma append_empty (a : string) : (a ++ "" = a)%string.
Proof. induction a as [|x a IH]; cbn; [reflexivity|]. f_equal. exact IH. Qed.

Lemma length_append (a b : string) : String.length (a ++ b) = (String.length a + String.length b)%nat.
Proof. induction a as [|x a IH]; cbn; [reflexivity|]. f_equal. exact IH. Qed.

Lemma all_of_append p (a b : string) : all_of p (a ++ b) = all_of p a && all_of p b.
Proof. induction a as [|x a IH]; cbn; [reflexivity|]. rewrite IH. apply andb_assoc. Qed.

Lemma all_of_impl (p q : ascii -> bool) a :
  (forall c, p c = true -> q c = true) -> all_of p a = true -> all_of q a = true.
Proof. intros H. induction a as [|c a IH]; cbn; [auto|]. rewrite !andb_true_iff. intuition. Qed.

(** ** Splitting *)

Definition free_of (separator : ascii) (value : string) : bool :=
  all_of (fun c => negb (Ascii.eqb c separator)) value.

Lemma find_separator_free sep part rest :
  free_of sep part = true ->
  find_separator part sep = (part, None) /\
  find_separator (part ++ String sep rest) sep = (part, Some rest).
Proof.
  induction part as [|c part IH]; cbn; [rewrite Ascii.eqb_refl; auto|]. rewrite andb_true_iff, negb_true_iff.
  intros [-> H]. destruct (IH H) as [-> ->]. auto.
Qed.

Lemma find_separator_some sep value part after :
  find_separator value sep = (part, after) ->
  free_of sep part = true /\
  value = match after with None => part | Some rest => (part ++ String sep rest)%string end.
Proof.
  revert part; induction value as [|c value IH]; cbn; intros part E.
  - apply pair_inj in E as [<- <-]. auto.
  - destruct (Ascii.eqb c sep) eqn:Ec; [apply pair_inj in E as [<- <-]; apply Ascii.eqb_eq in Ec; subst; auto|].
    destruct (find_separator value sep) as [p a] eqn:E'. apply pair_inj in E as [<- <-].
    destruct (IH p eq_refl) as [F ->].
    change (free_of sep (String c p)) with (negb (Ascii.eqb c sep) && free_of sep p). rewrite Ec, F. split; [reflexivity|]. destruct a; reflexivity.
Qed.

(** The parts with the separator between them. *)
Fixpoint join (separator : ascii) (parts : list string) : string :=
  match parts with
  | [] => ""
  | [part] => part
  | part :: rest => (part ++ String separator (join separator rest))%string
  end.

Lemma split_loop_join sep fuel parts :
  parts <> [] -> forallb (free_of sep) parts = true -> (String.length (join sep parts) < fuel)%nat ->
  split_loop fuel (join sep parts) sep = parts.
Proof.
  revert fuel; induction parts as [|part parts IH]; intros fuel Hn Hf Hl; [congruence|].
  destruct fuel as [|fuel]; [lia|]. cbn [forallb] in Hf. apply andb_prop in Hf as [F1 F2].
  cbn [join split_loop] in *. destruct parts as [|q parts].
  - destruct (find_separator_free sep part "" F1) as [-> _]. reflexivity.
  - destruct (find_separator_free sep part (join sep (q :: parts)) F1) as [_ ->]. f_equal. apply IH; [congruence|assumption|].
    rewrite length_append in Hl. cbn [String.length] in Hl. lia.
Qed.

Lemma join_split_loop sep fuel value :
  (String.length value < fuel)%nat ->
  join sep (split_loop fuel value sep) = value /\ split_loop fuel value sep <> [] /\
  forallb (free_of sep) (split_loop fuel value sep) = true.
Proof.
  revert value; induction fuel as [|fuel IH]; intros value Hl; [lia|]. cbn [split_loop].
  destruct (find_separator value sep) as [part after] eqn:E. apply find_separator_some in E as [F ->].
  destruct after as [rest|]; [|cbn [join forallb]; rewrite F; repeat split; congruence].
  rewrite length_append in Hl. cbn [String.length] in Hl. destruct (IH rest ltac:(lia)) as (J & N & A).
  cbn [forallb]. rewrite F, A. repeat split; [|congruence].
  destruct (split_loop fuel rest sep) as [|q l] eqn:E; [congruence|]. cbn [join] in *. rewrite J. reflexivity.
Qed.

(** [split] is exact: joining its parts with the separator gives the text
    back, no part contains the separator, and it is the only such division -
    splitting joined separator-free parts returns those parts. *)
Theorem split_join_inverse sep :
  (forall value, join sep (split value sep) = value /\ split value sep <> [] /\
     forallb (free_of sep) (split value sep) = true) /\
  (forall parts, parts <> [] -> forallb (free_of sep) parts = true -> split (join sep parts) sep = parts).
Proof.
  split; intros.
  - apply join_split_loop. lia.
  - apply split_loop_join; [assumption|assumption|lia].
Qed.

(** ** Trimming *)

Definition blank (value : string) : bool := all_of isspace value.

(** The text neither starts nor ends with a blank. *)
Fixpoint last_char (c : ascii) (value : string) : ascii :=
  match value with
  | EmptyString => c
  | String d rest => last_char d rest
  end.

Definition tight (value : string) : bool :=
  match value with
  | EmptyString => true
  | String c rest => negb (isspace c) && negb (isspace (last_char c rest))
  end.

Lemma pop_spaces_blank value : blank value = true -> pop_spaces value = EmptyString.
Proof.
  induction value as [|c value IH]; cbn; [auto|]. intros H. apply andb_prop in H as [Hc H].
  rewrite (IH H), Hc. reflexivity.
Qed.

Lemma pop_spaces_append value post :
  blank post = true -> match value with EmptyString => true | String c r => negb (isspace (last_char c r)) end = true ->
  pop_spaces (value ++ post) = value.
Proof.
  intros Hp. induction value as [|c value IH]; [intros _; apply pop_spaces_blank, Hp|].
  cbn [append pop_spaces]. intros H. destruct value as [|d value].
  - cbn [append last_char] in *. rewrite pop_spaces_blank by assumption. destruct (isspace c); [discriminate|reflexivity].
  - rewrite IH by exact H. reflexivity.
Qed.

Lemma skip_spaces_append pre value : blank pre = true -> skip_spaces (pre ++ value) = skip_spaces value.
Proof.
  induction pre as [|c pre IH]; cbn; [auto|]. intros H. apply andb_prop in H as [-> H]. auto.
Qed.

Lemma last_char_append c a d rest : last_char c (a ++ String d rest) = last_char d rest.
Proof. revert c; induction a as [|x a IH]; intros c; cbn; [reflexivity|apply IH]. Qed.

Lemma trim_tight pre value post :
  blank pre = true -> blank post = true -> tight value = true -> value <> EmptyString ->
  trim (pre ++ value ++ post) = value.
Proof.
  intros Hpre Hpost Ht Hn. unfold trim. destruct value as [|c value]; [congruence|]. cbn [tight] in Ht.
  apply andb_prop in Ht as [Hc Hl].
  rewrite <- append_assoc, pop_spaces_append; [|assumption|].
  - rewrite skip_spaces_append by assumption. cbn [skip_spaces]. destruct (isspace c); [discriminate|reflexivity].
  - destruct pre as [|p pre]; cbn [append]; [exact Hl|]. rewrite last_char_append. exact Hl.
Qed.

(** ** Numbers *)

(** The numeral of a number, most significant digit first. *)
Fixpoint numeral_loop (base : Z) (fuel : nat) (n : Z) (text : string) : string :=
  match fuel with
  | O => text
  | S fuel' =>
      let text := String (hex_digit (n mod base)) text in
      if n <? base then text else numeral_loop base fuel' (n / base) text
  end.

Definition numeral (base n : Z) : string := numeral_loop base 64 n "".

Lemma digit_value_hex base d : 0 <= d < base -> base <= 16 -> digit_value base (hex_digit d) = Some d.
Proof.
  intros Hd Hb. unfold digit_value, hex_digit. rewrite byte_of_ascii_of_byte by (destruct (d <? 10) eqn:E; to_prop; lia).
  destruct (d <? 10) eqn:E; to_prop.
  - replace ((48 <=? 48 + d) && (48 + d <=? 57)) with true by lia. replace (48 + d - 48) with d by lia.
    replace (d <? base) with true by lia. reflexivity.
  - replace ((48 <=? 87 + d) && (87 + d <=? 57)) with false by lia.
    replace ((97 <=? 87 + d) && (87 + d <=? 122)) with true by lia. replace (87 + d - 87) with d by lia.
    replace (d <? base) with true by lia. reflexivity.
Qed.

Lemma scan_numeral base fuel n text acc :
  2 <= base <= 16 -> 0 <= n < base ^ Z.of_nat fuel ->
  exists k, scan_digits base (numeral_loop base fuel n text) acc = scan_digits base text (acc * k + n).
Proof.
  intros Hb. revert n text; induction fuel as [|fuel IH]; intros n text Hn.
  - change (base ^ Z.of_nat 0) with 1 in Hn. exists 1. cbn [numeral_loop]. f_equal. lia.
  - pose proof (Z.mod_pos_bound n base ltac:(lia)) as M. cbn [numeral_loop].
    assert (Step : forall v, scan_digits base (String (hex_digit (n mod base)) text) v = scan_digits base text (v * base + n mod base))
      by (intros v; cbn [scan_digits]; rewrite digit_value_hex by lia; reflexivity).
    destruct (n <? base) eqn:E; to_prop.
    + exists base. rewrite Step, Z.mod_small by lia. reflexivity.
    + rewrite Nat2Z.inj_succ, Z.pow_succ_r in Hn by lia.
      destruct (IH (n / base) (String (hex_digit (n mod base)) text)) as [k ->].
      { split; [apply Z.div_pos; lia|apply Z.div_lt_upper_bound; lia]. }
      exists (k * base). rewrite Step. f_equal. rewrite (Z.div_mod n base) at 3 by lia. ring.
Qed.

Lemma numeral_nonempty base n : String.length (numeral base n) <> 0%nat.
Proof.
  unfold numeral. enough (H : forall fuel m text, String.length text <> 0%nat -> String.length (numeral_loop base fuel m text) <> 0%nat).
  { change 64%nat with (S 63). generalize 63%nat. intros f. cbn [numeral_loop]. destruct (n <? base); [cbn; lia|].
    apply H. cbn. lia. }
  induction fuel as [|fuel IH]; intros m text Ht; cbn [numeral_loop]; [exact Ht|].
  destruct (m <? base); [cbn; lia|]. apply IH. cbn. lia.
Qed.

Lemma parse_numeral w base n :
  2 <= base <= 16 -> 0 <= w <= 64 -> 0 <= n < 2 ^ w -> parse_integer w (numeral base n) base = Ok n.
Proof.
  intros Hb Hw Hn. unfold parse_integer, from_chars.
  assert (Hp : 2 ^ w <= base ^ Z.of_nat 64).
  { apply Z.le_trans with (2 ^ Z.of_nat 64); [apply Z.pow_le_mono_r; lia|apply Z.pow_le_mono_l; lia]. }
  destruct (scan_numeral base 64 n "" 0 Hb ltac:(lia)) as [k E]. fold (numeral base n) in E. rewrite E.
  cbn [scan_digits]. rewrite Z.mul_0_l, Z.add_0_l. pose proof (numeral_nonempty base n).
  replace (Nat.eqb (String.length "") (String.length (numeral base n))) with false
    by (symmetry; apply Nat.eqb_neq; change (String.length "") with 0%nat; congruence).
  replace (2 ^ w <=? n) with false by lia. reflexivity.
Qed.

(** ** API records *)

Definition nid_char (c : ascii) : bool := isalnum c || Ascii.eqb c "+" || Ascii.eqb c "-".

Lemma nid_char_spec c : nid_char c = true ->
  isspace c = false /\ Ascii.eqb c "#" = false /\ Ascii.eqb c "|" = false.
Proof.
  unfold nid_char. intros H. apply orb_true_iff in H as [H|H]; [|apply Ascii.eqb_eq in H; subst; repeat split].
  apply orb_true_iff in H as [H|H]; [|apply Ascii.eqb_eq in H; subst; repeat split].
  split; [revert H; unfold isalnum, isspace; generalize (byte_of_ascii c); intros b H; lia|].
  split; apply Ascii.eqb_neq; intros ->; discriminate H.
Qed.

Lemma hex_digit_nid_char d : 0 <= d < 16 -> nid_char (hex_digit d) = true.
Proof.
  intros H. unfold nid_char, isalnum, hex_digit. rewrite byte_of_ascii_of_byte by (destruct (d <? 10) eqn:E; to_prop; lia).
  rewrite !orb_true_iff. left. left. destruct (d <? 10) eqn:E; to_prop; lia.
Qed.

Lemma numeral_nid_chars base n : 2 <= base <= 16 -> all_of nid_char (numeral base n) = true.
Proof.
  intros Hb. unfold numeral. generalize 64%nat as fuel. assert (H : all_of nid_char "" = true) by reflexivity.
  revert H. generalize ""%string as text. intros text Ht fuel. revert n text Ht.
  induction fuel as [|fuel IH]; intros n text Ht; cbn [numeral_loop]; [exact Ht|].
  pose proof (Z.mod_pos_bound n base ltac:(lia)).
  assert (T : all_of nid_char (String (hex_digit (n mod base)) text) = true)
    by (cbn [all_of]; rewrite hex_digit_nid_char by lia; exact Ht).
  destruct (n <? base); [exact T|apply IH, T].
Qed.

Lemma nid_chars_free value : all_of nid_char value = true -> free_of "|" value = true.
Proof. apply all_of_impl. intros c H. apply nid_char_spec in H as (_ & _ & ->). reflexivity. Qed.

(** The line of the manifest for a record. *)
Definition render_api (s : ApiSymbol) : string :=
  join "|" [api_nid s; numeral 10 (api_binding s); numeral 10 (api_type s); ("0x" ++ numeral 16 (api_size s))%string].

(** The records a manifest can hold. *)
Definition api_okb (s : ApiSymbol) : bool :=
  Nat.eqb (String.length (api_nid s)) 11 && valid_nid (api_nid s) &&
  ((api_binding s =? 1) || (api_binding s =? 2)) &&
  ((api_type s =? 1) || (api_type s =? 2) || (api_type s =? 6)) &&
  (0 <=? api_size s) && (api_size s <? 2 ^ 64).

Lemma tight_chars value : all_of (fun c => negb (isspace c)) value = true -> tight value = true.
Proof.
  destruct value as [|c value]; cbn; [auto|]. intros H. apply andb_prop in H as [Hc H]. rewrite Hc. cbn [andb].
  revert c Hc. induction value as [|d value IH]; cbn; intros c Hc; [exact Hc|].
  cbn in H. apply andb_prop in H as [Hd H]. apply IH; assumption.
Qed.

Lemma render_api_tight s : valid_nid (api_nid s) = true -> tight (render_api s) = true.
Proof.
  intros Hv. apply tight_chars. unfold render_api. cbn [join].
  assert (P : forall v, all_of nid_char v = true -> all_of (fun c => negb (isspace c)) v = true)
    by (intros v; apply all_of_impl; intros c H; apply nid_char_spec in H as (-> & _); reflexivity).
  rewrite all_of_append, (P _ Hv). cbn [all_of andb]. rewrite all_of_append, P by (apply numeral_nid_chars; lia).
  cbn [all_of andb]. rewrite all_of_append, P by (apply numeral_nid_chars; lia). cbn [append all_of andb].
  rewrite P by (apply numeral_nid_chars; lia). reflexivity.
Qed.

Lemma substring_prefix_drop (a b : string) :
  String.substring 0 (String.length a) (a ++ b) = a /\
  String.substring (String.length a) (String.length (a ++ b) - String.length a) (a ++ b) = b.
Proof.
  rewrite length_append. replace (String.length a + String.length b - String.length a)%nat with (String.length b) by lia.
  split.
  - induction a as [|c a IH]; cbn; [destruct b; reflexivity|]. f_equal. exact IH.
  - induction a as [|c a IH]; cbn; [|exact IH]. clear. induction b as [|c b IH]; cbn; [reflexivity|]. f_equal. exact IH.
Qed.

Lemma parse_render_api source s : api_okb s = true -> parse_api_line source (render_api s) = Ok s.
Proof.
  unfold api_okb. intros H. to_prop. apply Nat.eqb_eq in H. unfold parse_api_line, render_api.
  assert (Hv : all_of nid_char (api_nid s) = true) by assumption.
  unfold split. rewrite split_loop_join; [|congruence| |lia].
  2:{ cbn [forallb]. assert (F : free_of "|" ("0x" ++ numeral 16 (api_size s)) = true)
        by (apply (nid_chars_free (numeral 16 (api_size s))), numeral_nid_chars; lia).
      rewrite F, (nid_chars_free _ Hv), !nid_chars_free by (apply numeral_nid_chars; lia). reflexivity. }
  destruct (substring_prefix_drop "0x" (numeral 16 (api_size s))) as [P D]. cbn [String.length] in P, D. rewrite P, D.
  rewrite length_append. pose proof (numeral_nonempty 16 (api_size s)).
  replace (Nat.eqb (String.length (api_nid s)) 11) with true by (symmetry; apply Nat.eqb_eq; assumption).
  replace (Nat.ltb (String.length "0x" + String.length (numeral 16 (api_size s))) 3) with false
    by (symmetry; apply Nat.ltb_ge; cbn [String.length]; lia).
  replace (valid_nid (api_nid s)) with true by (symmetry; assumption). rewrite String.eqb_refl. cbn [negb orb].
  rewrite parse_numeral by lia. cbn [bind]. rewrite parse_numeral by lia. cbn [bind]. rewrite parse_numeral by lia. cbn [bind].
  replace (_ || _) with false by lia. rewrite !u8_small by lia. destruct s; reflexivity.
Qed.

(** The API manifest's text represents its records faithfully: every
    record a manifest can hold has a line that, with any blanks around it, is
    read as exactly that record and appended to those read before. *)
Theorem api_line_roundtrip s pre post symbols :
  api_okb s = true -> blank pre = true -> blank post = true ->
  api_line symbols (pre ++ render_api s ++ post) = Ok (symbols ++ [s]).
Proof.
  intros Hs Hpre Hpost. unfold api_line.
  assert (Hv : valid_nid (api_nid s) = true /\ String.length (api_nid s) = 11%nat)
    by (unfold api_okb in Hs; to_prop; split; [assumption|apply Nat.eqb_eq; assumption]).
  assert (Hn : exists c rest, render_api s = String c rest /\ nid_char c = true).
  { unfold render_api. cbn [join]. destruct (api_nid s) as [|c r]; [cbn in Hv; destruct Hv; discriminate|].
    eexists _, _. split; [reflexivity|]. destruct Hv as [Hv _]. cbn in Hv. apply andb_prop in Hv. apply Hv. }
  destruct Hn as (c & rest & E & Hc).
  rewrite trim_tight; [|assumption|assumption|apply render_api_tight, Hv|rewrite E; discriminate].
  assert (K : skipped (render_api s) = false) by (rewrite E; apply nid_char_spec in Hc; apply Hc).
  rewrite K, parse_render_api by assumption. reflexivity.
Qed.

Lemma api_line_roundtrip_witness :
  api_line [] ("  " ++ render_api {| api_nid := "P330P3dFF68"; api_binding := 1; api_type := 1; api_size := 0x1f4 |} ++ " ") =
  Ok [{| api_nid := "P330P3dFF68"; api_binding := 1; api_type := 1; api_size := 0x1f4 |}].
Proof.
  apply (api_line_roundtrip {| api_nid := "P330P3dFF68"; api_binding := 1; api_type := 1; api_size := 0x1f4 |} "  " " " []);
    reflexivity.
Defined.

(** ** What an accepted manifest satisfies *)

Lemma scan_digits_nonneg base text v : 0 <= base -> 0 <= v -> 0 <= fst (scan_digits base text v).
Proof.
  intros Hb. revert v; induction text as [|c text IH]; cbn [scan_digits]; intros v Hv; [exact Hv|].
  destruct (digit_value base c) as [d|] eqn:E; [|exact Hv]. apply IH.
  enough (0 <= d) by nia. unfold digit_value in E. pose proof (byte_of_ascii_range c).
  destruct (_ <? base); [|discriminate]. injection E as <-.
  destruct (_ && _) eqn:E1; to_prop; [lia|]. destruct ((97 <=? _) && _) eqn:E2; to_prop; [lia|].
  destruct ((65 <=? _) && _) eqn:E3; to_prop; lia.
Qed.

Lemma parse_integer_range w text base v : 0 <= base -> parse_integer w text base = Ok v -> 0 <= v < 2 ^ w.
Proof.
  intros Hb. unfold parse_integer, from_chars. pose proof (scan_digits_nonneg base text 0 Hb ltac:(lia)) as N.
  destruct (scan_digits base text 0) as [n rest]. cbn [fst] in N. destruct (Nat.eqb _ _); [discriminate|].
  destruct (2 ^ w <=? n) eqn:E; [discriminate|]. to_prop. destruct rest; [|discriminate]. intros H. apply ok_inj in H. lia.
Qed.

Lemma parse_api_line_ok source line s : parse_api_line source line = Ok s -> api_okb s = true.
Proof.
  unfold parse_api_line. intros E. destruct (split line "|") as [|nid [|b [|t [|z [|]]]]]; try discriminate.
  destruct (_ || _) eqn:G; [discriminate|]. inv_bind E. apply parse_integer_range in E0, E1, E2; [|lia..].
  destruct (_ || _) eqn:G2 in E; [discriminate|]. apply ok_inj in E. subst s. unfold api_okb. cbn [api_nid api_binding api_type api_size].
  assert (K : Nat.eqb (String.length nid) 11 = true /\ valid_nid nid = true) by (to_prop; split; assumption).
  destruct K as [-> ->]. clear G. assert (v = 1 \/ v = 2) by lia. assert (v0 = 1 \/ v0 = 2 \/ v0 = 6) by lia.
  rewrite !u8_small by lia. cbn [andb]. lia.
Qed.

(** The lines that hold records. *)
Definition kept_lines (lines : list string) : list string := filter (fun l => negb (skipped (trim l))) lines.

Lemma lines_read {A} (step : list A -> string -> outcome (list A)) (parse : string -> string -> outcome A) lines acc r :
  (forall acc l, step acc l = if skipped (trim l) then Ok acc else let! a := parse l (trim l) in Ok (acc ++ [a])) ->
  for_each step acc lines = Ok r ->
  exists new, r = acc ++ new /\ Forall2 (fun l a => parse l (trim l) = Ok a) (kept_lines lines) new.
Proof.
  intros Hstep. revert acc; induction lines as [|l lines IH]; cbn [for_each kept_lines filter]; intros acc E.
  - apply ok_inj in E. exists []. rewrite app_nil_r. auto.
  - apply bind_ok in E as (acc' & E1 & E). rewrite Hstep in E1. destruct (skipped (trim l)); cbn [negb].
    + apply ok_inj in E1. subst acc'. apply IH, E.
    + apply bind_ok in E1 as (a & Ea & E1). apply ok_inj in E1. subst acc'.
      destruct (IH _ E) as (new & -> & F). exists (a :: new). rewrite <- app_assoc. split; [reflexivity|].
      constructor; assumption.
Qed.

Lemma set_size_nodup names : set_size names = size names -> NoDup names.
Proof.
  unfold set_size, size. intros H. apply Nat2Z.inj in H. induction names as [|a l IH]; [constructor|].
  pose proof (NoDup_incl_length (NoDup_nodup string_dec l) (fun x => proj1 (nodup_In string_dec l x))) as L.
  cbn [nodup] in H. destruct (in_dec string_dec a l); cbn [List.length] in H; [lia|].
  constructor; [assumption|]. apply IH. lia.
Qed.

(** C33: An accepted API manifest is what the image builder needs: its records
    are those of its non-comment lines in order, each with an eleven-letter
    identifier, a known binding and type and a 64-bit size; there are exactly
    2566, with distinct identifiers, 688 objects, 1874 functions and 4 TLS
    objects, and among them the [Need_sceLibc] marker and the two jump
    functions. *)
Theorem api_surface_sound path lines symbols :
  read_api_surface path (Some lines) = Ok symbols ->
  Forall2 (fun l s => parse_api_line l (trim l) = Ok s) (kept_lines lines) symbols /\
  forallb api_okb symbols = true /\ size symbols = kExportCount /\ NoDup (map api_nid symbols) /\
  count_if (fun s => api_type s =? 1) symbols = 688 /\ count_if (fun s => api_type s =? 2) symbols = 1874 /\
  count_if (fun s => api_type s =? 6) symbols = 4 /\
  existsb is_marker symbols = true /\ existsb is_longjmp symbols = true /\ existsb is_setjmp symbols = true.
Proof.
  cbn [read_api_surface]. intros E. apply bind_ok in E as (s & E & F). apply bind_ok in F as (u & C & F).
  apply ok_inj in F. subst s. destruct (lines_read api_line parse_api_line lines [] symbols) as (new & En & F2); [reflexivity|exact E|].
  cbn [app] in En. subst new. split; [exact F2|]. unfold check_api, self_check, fail in C.
  repeat match type of C with bind (if negb ?c then _ else _) _ = _ => destruct c eqn:?; cbn [negb bind] in C; [|discriminate] end.
  destruct (existsb is_setjmp symbols) eqn:?; [|discriminate]. to_prop.
  split; [|repeat split; try assumption; apply set_size_nodup; unfold size in *; rewrite length_map; assumption].
  clear -F2. induction F2 as [|l s ls ss H _ IH]; cbn [forallb]; [reflexivity|]. rewrite (parse_api_line_ok _ _ _ H). exact IH.
Qed.

(** An accepted import manifest has exactly 102 records, those of its
    non-comment lines in order, with distinct names, 100 of them with a PLT
    slot and three bound through GLOB_DAT, and every import the generated code
    and relocations name is among them. *)
Theorem import_manifest_sound path lines imports :
  read_imports path (Some lines) = Ok imports ->
  Forall2 (fun l e => parse_import_line l (trim l) = Ok e) (kept_lines lines) imports /\
  size imports = kImportCount /\ NoDup (map import_name imports) /\
  count_if import_plt imports = kPltRelocationCount /\
  count_if import_glob_dat imports = kGlobDatRelocationCount /\
  forall name, In name required_imports -> In name (map import_name imports).
Proof.
  cbn [read_imports]. intros E. apply bind_ok in E as (s & E & F). apply bind_ok in F as (u & C & F).
  apply ok_inj in F. subst s. destruct (lines_read import_line parse_import_line lines [] imports) as (new & En & F2); [reflexivity|exact E|].
  cbn [app] in En. subst new. split; [exact F2|]. unfold check_imports, self_check, fail in C.
  repeat match type of C with bind (if negb ?c then _ else _) _ = _ => destruct c eqn:?; cbn [negb bind] in C; [|discriminate] end.
  to_prop. repeat split; try assumption; [apply set_size_nodup; unfold size in *; rewrite length_map; assumption|].
  revert C. generalize required_imports as rs. intros rs C name Hn. revert C.
  induction rs as [|r rs IH]; [destruct Hn|]. cbn [for_each].
  destruct (existsb _ imports) eqn:Ex; cbn [negb bind]; [|discriminate]. destruct Hn as [->|Hn]; [|auto].
  intros _. apply existsb_exists in Ex as (e & He & Hx). apply String.eqb_eq in Hx. subst. apply in_map, He.
Qed.

(** ** Sample manifests *)

(** Eleven letters for a number below ten million. *)
Definition sample_nid (n : Z) : string := ("sym" ++ numeral 10 (10000000 + n))%string.

Definition sample_api : list ApiSymbol :=
  [{| api_nid := "P330P3dFF68"; api_binding := 1; api_type := 1; api_size := 4 |};
   {| api_nid := "+F+9hhi6k9Q"; api_binding := 2; api_type := 2; api_size := 0 |};
   {| api_nid := "sjpkrhugvVI"; api_binding := 1; api_type := 2; api_size := 0 |}] ++
  map (fun i => {| api_nid := sample_nid i; api_binding := 1;
                   api_type := if i <? 687 then 1 else if i <? 687 + 1872 then 2 else 6; api_size := 8 |})
    (indices 0 2563).

Definition sample_api_lines : list string := ("# a comment" :: "" :: map render_api sample_api)%string.

Definition sample_runtime_imports : list RuntimeImport :=
  map (fun n => {| import_name := n; import_suffix := "#A#B"; import_plt := true; import_glob_dat := false |})
    (firstn 7 required_imports) ++
  map (fun n => {| import_name := n; import_suffix := "#B#C"; import_plt := false; import_glob_dat := true |})
    ["__progname"; "__stack_chk_guard"]%string ++
  [{| import_name := "__pthread_cxa_finalize"; import_suffix := "#A#B"; import_plt := true; import_glob_dat := true |}] ++
  map (fun i => {| import_name := to_string i; import_suffix := "#A#B"; import_plt := true; import_glob_dat := false |})
    (indices 0 92).

Definition render_import (e : RuntimeImport) : string :=
  join "|" [import_name e; import_suffix e; (if import_plt e then "1" else "0"); (if import_glob_dat e then "1" else "0")]%string.

Definition sample_import_lines : list string := map render_import sample_runtime_imports.

Lemma nodup_set_size names : NoDup names -> set_size names = size names.
Proof. intros H. unfold set_size. rewrite nodup_fixed_point by assumption. reflexivity. Qed.

Lemma api_lines_read symbols l :
  forallb api_okb l = true -> for_each api_line symbols (map render_api l) = Ok (symbols ++ l).
Proof.
  revert symbols; induction l as [|s l IH]; intros symbols H; cbn [map for_each]; [rewrite app_nil_r; reflexivity|].
  cbn [forallb] in H. apply andb_prop in H as [Hs H].
  pose proof (trim_tight "" (render_api s) "" eq_refl eq_refl) as T. rewrite append_empty in T. cbn [append] in T.
  pose proof (parse_render_api (render_api s) s Hs) as Ps. unfold api_okb in Hs. to_prop.
  assert (K : exists c r, api_nid s = String c r /\ nid_char c = true).
  { assert (Hv : valid_nid (api_nid s) = true) by assumption.
    destruct (api_nid s) as [|c r]; [discriminate|]. exists c, r. split; [reflexivity|].
    cbn in Hv. apply andb_prop in Hv. apply Hv. }
  destruct K as (c & r & K & Hc).
  unfold api_line at 1. rewrite T; [|apply render_api_tight; assumption|unfold render_api; rewrite K; discriminate].
  replace (skipped (render_api s)) with false
    by (unfold render_api; rewrite K; symmetry; apply nid_char_spec in Hc; apply Hc).
  rewrite Ps. cbn [bind]. rewrite IH by assumption. rewrite <- app_assoc. reflexivity.
Qed.

Lemma numeral_inj base n m :
  2 <= base <= 16 -> 0 <= n < 2 ^ 64 -> 0 <= m < 2 ^ 64 -> numeral base n = numeral base m -> n = m.
Proof.
  intros Hb Hn Hm E. apply ok_inj. rewrite <- (parse_numeral 64 base n), <- (parse_numeral 64 base m) by lia.
  rewrite E. reflexivity.
Qed.

Lemma indices_nodup first n : NoDup (indices first n).
Proof.
  revert first; induction n as [|n IH]; intros first; cbn [indices]; constructor; [|apply IH].
  rewrite in_indices. lia.
Qed.

Lemma sym_prefix_inj a b : ("sym" ++ a = "sym" ++ b)%string -> a = b.
Proof. intros H. injection H as ->. reflexivity. Qed.

Lemma sym_prefix_other a s : In s ["P330P3dFF68"; "+F+9hhi6k9Q"; "sjpkrhugvVI"]%string -> ("sym" ++ a)%string <> s.
Proof. cbn [In]. intros [<-|[<-|[<-|[]]]]; discriminate. Qed.

Lemma sample_api_nodup : NoDup (map api_nid sample_api).
Proof.
  assert (N : NoDup (map sample_nid (indices 0 2563))).
  { apply NoDup_map_NoDup_ForallPairs; [|apply indices_nodup]. intros a b Ha Hb E.
    apply in_indices in Ha, Hb. unfold sample_nid in E. apply sym_prefix_inj in E. apply numeral_inj in E; lia. }
  unfold sample_api. rewrite map_app, map_map. apply NoDup_app; [|exact N|].
  - repeat constructor; cbn [In]; intros H; repeat (destruct H as [H|H]; [discriminate|]); exact H.
  - intros s Hs H. apply in_map_iff in H as (x & H & _). revert H. apply sym_prefix_other. exact Hs.
Qed.

Lemma read_rendered path l :
  forallb api_okb l = true -> check_api l = Ok tt ->
  read_api_surface path (Some ("# a comment" :: "" :: map render_api l)%string) = Ok l.
Proof.
  intros H C. cbn [read_api_surface for_each]. change (api_line [] "# a comment") with (@Ok (list ApiSymbol) []).
  cbn [bind]. change (api_line [] "") with (@Ok (list ApiSymbol) []). cbn [bind].
  rewrite api_lines_read by exact H. cbn [bind app]. rewrite C. reflexivity.
Qed.

Lemma check_api_ok l :
  NoDup (map api_nid l) -> size l = kExportCount -> count_if (fun s => api_type s =? 1) l = 688 ->
  count_if (fun s => api_type s =? 2) l = 1874 -> count_if (fun s => api_type s =? 6) l = 4 ->
  existsb is_marker l && existsb is_longjmp l && existsb is_setjmp l = true -> check_api l = Ok tt.
Proof.
  intros N S C1 C2 C6 E. to_prop. unfold check_api. rewrite (nodup_set_size _ N).
  replace (size (map api_nid l)) with (size l) by (unfold size; rewrite length_map; reflexivity).
  rewrite S, C1, C2, C6, H, H0, H1. reflexivity.
Qed.

Lemma sample_api_read : read_api_surface "api" (Some sample_api_lines) = Ok sample_api.
Proof.
  apply read_rendered; [vm_compute; reflexivity|].
  apply check_api_ok; [exact sample_api_nodup|vm_compute; reflexivity..].
Qed.

Lemma api_surface_sound_witness :
  read_api_surface "api" (Some sample_api_lines) = Ok sample_api /\
  size sample_api = kExportCount /\ NoDup (map api_nid sample_api).
Proof.
  split; [exact sample_api_read|]. pose proof (api_surface_sound "api" sample_api_lines sample_api sample_api_read) as H.
  split; apply H.
Defined.

Lemma import_manifest_sound_witness :
  exists imports, read_imports "imports" (Some sample_import_lines) = Ok imports /\
    size imports = kImportCount /\ In "malloc"%string (map import_name imports).
Proof.
  assert (T : match read_imports "imports" (Some sample_import_lines) with Ok _ => true | _ => false end = true)
    by (vm_compute; reflexivity).
  destruct (read_imports "imports" (Some sample_import_lines)) as [imports| |] eqn:E; [|discriminate T..].
  exists imports. split; [reflexivity|]. pose proof (import_manifest_sound "imports" sample_import_lines imports E) as H.
  split; [apply H|]. apply H. right; right; right; right; left; reflexivity.
Defined.
