(* ===== verification/LibcImage.v ===== *)
(** * The runtime image as a whole

    Every part of [build_runtime] writes to a range of its own.  [frame lo hi]
    relates a buffer to what an operation that only writes [lo, hi) leaves;
    composing the frames of the parts shows that what the early parts wrote is
    still there in the finished image, so the builder's own verification of
    the image succeeds; and the storage given to exported objects is disjoint. *)

From Stdlib Require Import ZArith List Bool Lia String Ascii.
From S2P Require Import Prelude Bytes Writes Hash LibcManifest LibcRuntime LibcEncoding.
Import ListNotations.
Open Scope Z_scope.

(** ** Frames *)

Record frame (lo hi : Z) (f f' : Bytes) : Prop := {
  frame_size : size f' = size f;
  frame_bytes : bytes_ok f -> bytes_ok f';
  frame_out : forall i, 0 <= i -> i < lo \/ hi <= i -> byte_at f' i = byte_at f i
}.

Lemma frame_refl lo hi f : frame lo hi f f.
Proof. split; auto. Qed.

Lemma frame_trans lo hi f g h : frame lo hi f g -> frame lo hi g h -> frame lo hi f h.
Proof. intros [S B O] [S' B' O']. split; [congruence|auto|]. intros. rewrite O', O; auto. Qed.

Lemma frame_weaken lo hi lo' hi' f g : lo' <= lo -> hi <= hi' -> frame lo hi f g -> frame lo' hi' f g.
Proof. intros ? ? [S B O]. split; auto. intros. apply O; lia. Qed.

Lemma frame_put f a src : 0 <= a -> a + size src <= size f -> bytes_ok src -> frame a (a + size src) f (put f a src).
Proof.
  intros Ha Hs Hb. split; [apply size_put; assumption|intros; apply bytes_ok_put; assumption|].
  intros i Hi Ho. rewrite byte_at_put by assumption.
  replace ((a <=? i) && (i <? a + size src)) with false by lia. reflexivity.
Qed.

Lemma frame_sub lo hi f g a n :
  frame lo hi f g -> 0 <= a -> 0 <= n -> a + n <= size f -> a + n <= lo \/ hi <= a -> sub g a n = sub f a n.
Proof. intros [S _ O] Ha Hn Hl Hd. apply sub_ext; try lia. intros i Hi. apply O; lia. Qed.

Lemma frame_field lo hi f g a n :
  frame lo hi f g -> 0 <= a -> 0 <= n -> a + n <= size f -> a + n <= lo \/ hi <= a -> field g a n = field f a n.
Proof. intros. unfold field. f_equal. eapply frame_sub; eassumption. Qed.

Lemma frame_for_each {A} (body : Bytes -> A -> outcome Bytes) lo hi l f g :
  (forall f g a, In a l -> body f a = Ok g -> size f < 2 ^ 63 -> frame lo hi f g) ->
  size f < 2 ^ 63 -> for_each body f l = Ok g -> frame lo hi f g.
Proof.
  intros H Hs E. revert f Hs E; induction l as [|a l IH]; cbn [for_each]; intros f Hs E.
  - apply ok_inj in E. subst. apply frame_refl.
  - apply bind_ok in E as (f1 & E1 & E). pose proof (H f f1 a (or_introl eq_refl) E1 Hs) as F.
    apply (frame_trans _ _ _ _ _ F). apply IH; [|rewrite (frame_size _ _ _ _ F)|]; auto.
    intros; eapply H; [right|..]; eassumption.
Qed.

(** The same for a loop that also threads a cursor or a record. *)
Lemma frame_for_each_state {A S} (body : S -> A -> outcome S) (buffer : S -> Bytes) lo hi l s s' :
  (forall s s' a, In a l -> body s a = Ok s' -> size (buffer s) < 2 ^ 63 -> frame lo hi (buffer s) (buffer s')) ->
  size (buffer s) < 2 ^ 63 -> for_each body s l = Ok s' -> frame lo hi (buffer s) (buffer s').
Proof.
  intros H Hs E. revert s Hs E; induction l as [|a l IH]; cbn [for_each]; intros s Hs E.
  - apply ok_inj in E. subst. apply frame_refl.
  - apply bind_ok in E as (s1 & E1 & E). pose proof (H s s1 a (or_introl eq_refl) E1 Hs) as F.
    apply (frame_trans _ _ _ _ _ F). apply IH; [|rewrite (frame_size _ _ _ _ F)|]; auto.
    intros; eapply H; [right|..]; eassumption.
Qed.

(** ** Frames of the writes *)

Lemma store_frame f a v g : store f a v = Ok g -> frame a (a + 1) f g.
Proof.
  unfold store. destruct (_ && _) eqn:G; [|discriminate]. to_prop. intros E. apply ok_inj in E. subst g.
  apply (frame_put f a [u8 v]); [assumption|rewrite size_cons, size_nil; lia|].
  constructor; [apply u8_range|constructor].
Qed.

(** A loop that returned ran its body on every element. *)
Lemma for_each_ran {A S} (body : S -> A -> outcome S) (P : S -> Prop) l s r a :
  for_each body s l = Ok r -> In a l -> (forall s a s', P s -> body s a = Ok s' -> P s') -> P s ->
  exists s1 s2, P s1 /\ body s1 a = Ok s2.
Proof.
  intros E Hi Hp Hs. revert s Hs E Hi; induction l as [|b l IH]; cbn [for_each In]; intros s Hs E Hi; [tauto|].
  apply bind_ok in E as (s' & E1 & E). destruct Hi as [->|Hi]; [eauto|]. apply (IH s'); eauto.
Qed.

Lemma store_le_inv n f a v g : store_le (S n) f a v = Ok g -> 0 <= a /\ a + Z.of_nat (S n) <= size f.
Proof.
  intros E. unfold store_le in E.
  assert (R : forall i, In i (indices 0 (S n)) -> 0 <= a + i < size f).
  { intros i Hi. destruct (for_each_ran _ (fun l : Bytes => size l = size f) _ _ _ i E Hi) as (s1 & s2 & Hs & E1); [|reflexivity|].
    - cbv beta. clear. intros s j s' Hs E. apply store_frame, frame_size in E. congruence.
    - unfold store in E1. destruct (_ && _) eqn:G; [|discriminate]. to_prop. lia. }
  pose proof (R 0 ltac:(apply in_indices; lia)). pose proof (R (Z.of_nat n) ltac:(apply in_indices; lia)). lia.
Qed.

(** A little-endian store that returned was inside the buffer. *)
Lemma store_le_frame n f a v g :
  store_le (S n) f a v = Ok g ->
  frame a (a + Z.of_nat (S n)) f g /\ (0 <= a /\ a + Z.of_nat (S n) <= size f) /\
  sub g a (Z.of_nat (S n)) = le_bytes (S n) v.
Proof.
  intros E. destruct (store_le_inv _ _ _ _ _ E) as [Ha Hs]. rewrite store_le_ok in E by assumption. apply ok_inj in E. subst g.
  split; [|split; [auto|apply sub_put_le; assumption]].
  pose proof (frame_put f a (le_bytes (S n) v) Ha) as F. rewrite size_le_bytes in F. apply F; [exact Hs|apply bytes_ok_le_bytes].
Qed.

Lemma lb_write_u32_frame f a v g :
  lb_write_u32 f a v = Ok g -> frame a (a + 4) f g /\ (0 <= a /\ a + 4 <= size f) /\ sub g a 4 = le_bytes 4 v.
Proof. intros E. unfold lb_write_u32 in E. apply self_check_bind_ok in E as [_ E]. apply (store_le_frame 3 f a v g E). Qed.

Lemma lb_write_u64_frame f a v g :
  lb_write_u64 f a v = Ok g -> frame a (a + 8) f g /\ (0 <= a /\ a + 8 <= size f) /\ sub g a 8 = le_bytes 8 v.
Proof. intros E. unfold lb_write_u64 in E. apply self_check_bind_ok in E as [_ E]. apply (store_le_frame 7 f a v g E). Qed.

Lemma lb_write_u16_frame f a v g :
  lb_write_u16 f a v = Ok g -> frame a (a + 2) f g /\ (0 <= a /\ a + 2 <= size f) /\ sub g a 2 = le_bytes 2 v.
Proof.
  intros E. unfold lb_write_u16 in E. apply self_check_bind_ok in E as [_ E]. apply (store_le_frame 1 f a v g).
  unfold store_le. cbn [indices for_each]. rewrite Z.add_0_r, Z.shiftr_0_r.
  apply bind_ok in E as (h & -> & E). cbn [bind]. change (0 + 1) with 1. change (1 * 8) with 8. rewrite E. reflexivity.
Qed.

Lemma copy_into_frame f a src g :
  copy_into f a src = Ok g -> bytes_ok src -> frame a (a + size src) f g /\ 0 <= a /\ a + size src <= size f /\ g = put f a src.
Proof.
  unfold copy_into. destruct (_ && _) eqn:G; [|discriminate]. to_prop. intros E Hb. apply ok_inj in E. subst g.
  split; [apply frame_put; assumption|auto].
Qed.

Lemma lb_copy_bytes_frame f a src g :
  lb_copy_bytes f a src = Ok g -> bytes_ok src ->
  frame a (a + size src) f g /\ (0 <= a /\ a + size src <= size f) /\ sub g a (size src) = src.
Proof.
  intros E Hb. unfold lb_copy_bytes in E. apply self_check_bind_ok in E as [_ E].
  destruct (copy_into_frame _ _ _ _ E Hb) as (F & Ha & Hs & ->). repeat split; try apply F; auto.
  apply sub_put_same; assumption.
Qed.

(** What is done through a span is done to its range of the file. *)
Lemma window_frame f a n body g :
  window f a n body = Ok g ->
  (forall s s', body s = Ok s' -> bytes_ok s -> size s = n -> size s' = n /\ bytes_ok s') -> bytes_ok f ->
  frame a (a + n) f g /\ 0 <= a /\ 0 <= n /\ a + n <= size f /\
  exists s', body (sub f a n) = Ok s' /\ sub g a n = s'.
Proof.
  unfold window. intros E Hb Hf. apply bind_ok in E as (s & Es & E). apply bind_ok in E as (s' & Es' & E).
  apply subspan_inv in Es as (Ha & Hn & Hl & ->).
  destruct (Hb _ _ Es' (bytes_ok_sub _ _ _ Hf) (size_sub _ _ _ Ha Hn Hl)) as [S B].
  destruct (copy_into_frame _ _ _ _ E B) as (F & _ & _ & ->). rewrite S in F. repeat split; try assumption; try apply F; auto.
  exists s'. split; [exact Es'|]. rewrite <- S. apply sub_put_same; lia.
Qed.

(** Composition: a chain of writes inside one range. *)
Lemma frame_step lo hi lo' hi' f g h :
  frame lo' hi' f g -> lo <= lo' -> hi' <= hi -> frame lo hi g h -> frame lo hi f h.
Proof. intros F H1 H2 G. apply (frame_trans _ _ _ g); [apply (frame_weaken lo' hi'); assumption|exact G]. Qed.

(** The layout's constants, for [lia]. *)
Ltac unfold_layout :=
  unfold relocation_count, kProgramHeaderOffset, kProgramHeaderSize, kProgramHeaderCount, kTextFileOffset, kMarkerFileOffset,
    kGotFileOffset, kPreinitFileOffset, kModuleParamFileOffset, kMetadataFileOffset, kMetadataAddress, kMetadataSize,
    kBuildNoteOffset, kDynamicOffset, kDynamicCount, kRuntimeFileSize, kUnwindHeaderFileOffset, kUnwindHeaderSize,
    kCommentFileOffset, kCommentSize, kVersionFileOffset, kFiniAddress, kInitAddress, kThreadDtorsAddress,
    kThreadAtexitCountAddress, kThreadAtexitReportAddress, kHeapApiFileOffset, kHeapApiSize, kGotReservedEntries,
    kRelativeRelocationCount, kTlsRelocationCount, kRelativeAnchorAddress, kSymbolTableOffset, kJumpRelocationOffset,
    kRelaOffset, kHashTableOffset, kPltRelocationCount, kGlobDatRelocationCount in *.

(** A write that returned: its frame, its bounds and what it left. *)
Ltac frame_of W :=
  let F := fresh "F" in let B := fresh "B" in let V := fresh "V" in let S := fresh "S" in
  first
    [ apply lb_write_u32_frame in W as (F & B & V)
    | apply lb_write_u64_frame in W as (F & B & V)
    | apply lb_write_u16_frame in W as (F & B & V)
    | apply store_frame in W as F
    | apply lb_copy_bytes_frame in W as (F & B & V); [|first [apply bytes_ok_string | repeat constructor; lia]] ];
  pose proof (frame_size _ _ _ _ F) as S; cbn [size List.length Z.of_nat] in F.

Ltac inv_writes E :=
  repeat (lazymatch type of E with
    | bind _ _ = Ok _ => let g := fresh "g" in let W := fresh "W" in apply bind_ok in E as (g & W & E); frame_of W
    end); try frame_of E.

(** The frame of a chain of writes from the frames of its steps. *)
Ltac chain_frames :=
  repeat match goal with
  | |- frame _ _ ?f ?f => apply frame_refl
  | F : frame _ _ ?f ?g |- frame _ _ ?f ?h => eapply frame_step; [exact F|lia|lia|]
  end.

(** What a later chain of writes elsewhere leaves of a range. *)
Ltac kept :=
  repeat match goal with
  | |- sub ?g ?a ?n = _ => first [assumption | match goal with F : frame _ _ ?f g |- _ =>
      rewrite (frame_sub _ _ f g a n F) by lia end]
  end.

Lemma build_elf_header_frame f g :
  build_elf_header f = Ok g -> 0x40 <= size f < 2 ^ 63 ->
  frame 0 0x3A f g /\ sub g 0 4 = elf_magic /\ sub g 0x10 2 = le_bytes 2 0xFE18 /\
  sub g 0x38 2 = le_bytes 2 kProgramHeaderCount.
Proof.
  intros E Hs. unfold build_elf_header in E. unfold_layout. inv_writes E.
  change (size elf_magic) with 4 in *. split; [chain_frames|]. split; [kept|]. split; kept.
Qed.

Lemma build_program_headers_frame f g :
  build_program_headers f = Ok g -> size f < 2 ^ 63 -> frame 0x40 0x350 f g.
Proof.
  intros E Hs. unfold build_program_headers in E. revert Hs E. apply frame_for_each. clear f g.
  intros f g [i h] Hi E Hs. cbn [fst snd] in E. apply in_combine_l, in_indices in Hi.
  unfold lb_write_program_header in E. unfold_layout. inv_writes E. chain_frames.
Qed.

Lemma build_module_param_frame f g :
  build_module_param f = Ok g -> size f < 2 ^ 63 -> frame 0x113CE8 0x113D08 f g.
Proof. intros E Hs. unfold build_module_param in E. unfold_layout. inv_writes E. chain_frames. Qed.

Lemma build_unwind_header_frame f g :
  build_unwind_header f = Ok g -> bytes_ok f -> frame 0x108164 0x10DF80 f g.
Proof.
  intros E Hf. unfold build_unwind_header in E. apply window_frame in E as (F & _); [exact F| |exact Hf].
  clear. intros s s' E Hb Hs. cbv zeta in E. unfold_layout.
  assert (S0 : size (zeros (size s)) = size s) by (apply size_zeros; lia).
  inv_writes E. split; [lia|]. repeat match goal with F : frame _ _ _ ?g |- bytes_ok ?g => apply (frame_bytes _ _ _ _ F) end.
  apply bytes_ok_zeros.
Qed.

(** ** Code *)

Definition code_size (c : Code) : Z :=
  match c with Plain code => size code | Rip opcode _ => size opcode + 4 | RipSlot opcode _ => size opcode + 4 end.

Definition code_bytes_ok (c : Code) : Prop :=
  match c with Plain code => bytes_ok code | Rip opcode _ => bytes_ok opcode | RipSlot opcode _ => bytes_ok opcode end.

Definition code_total (cs : list Code) : Z := fold_right (fun c n => code_size c + n) 0 cs.

Lemma code_size_nonneg c : 0 <= code_size c.
Proof. destruct c as [l|l t|l n]; cbn [code_size]; pose proof (size_nonneg l); lia. Qed.

Lemma code_total_nonneg cs : 0 <= code_total cs.
Proof.
  induction cs as [|c cs IH]; cbn [code_total fold_right]; [lia|]. fold (code_total cs).
  pose proof (code_size_nonneg c). lia.
Qed.

Lemma emit_frame imports f a c g b :
  emit imports (f, a) c = Ok (g, b) -> 0 <= a -> a + code_size c < 2 ^ 32 -> size f < 2 ^ 63 -> code_bytes_ok c ->
  b = a + code_size c /\ frame (0x4000 + a) (0x4000 + b) f g.
Proof.
  intros E Ha Hb Hs Hc.
  assert (R : forall opcode target, write_rip_relative_code (f, a) opcode target = Ok (g, b) ->
    a + (size opcode + 4) < 2 ^ 32 -> bytes_ok opcode -> b = a + (size opcode + 4) /\ frame (0x4000 + a) (0x4000 + b) f g).
  { clear E Hb Hc c. intros opcode target E Hb Hc. pose proof (size_nonneg opcode). unfold write_rip_relative_code in E.
    unfold_layout. rewrite (u64_small (0x4000 + a)) in E by lia. apply self_check_bind_ok in E as [_ E]. inv_bind E.
    apply lb_copy_bytes_frame in E0 as (F1 & B1 & _); [|assumption]. pose proof (frame_size _ _ _ _ F1).
    unfold write_i32 in E1. rewrite u64_small in E1 by lia. apply lb_write_u32_frame in E1 as (F2 & B2 & _).
    apply ok_inj, pair_inj in E as [<- <-]. rewrite u64_small by lia. split; [lia|]. chain_frames. }
  destruct c as [code|opcode target|opcode name]; cbn [emit code_size code_bytes_ok] in *.
  - pose proof (size_nonneg code). unfold write_code in E. unfold_layout. rewrite (u64_small (0x4000 + a)) in E by lia.
    apply self_check_bind_ok in E as [_ E]. inv_bind E. apply lb_copy_bytes_frame in E0 as (F1 & B1 & _); [|assumption].
    apply ok_inj, pair_inj in E as [<- <-]. rewrite u64_small by lia. split; [reflexivity|].
    replace (0x4000 + (a + size code)) with (0x4000 + a + size code) by lia. exact F1.
  - apply (R opcode target); assumption.
  - inv_bind E. apply (R opcode v); assumption.
Qed.

Lemma emit_all_frame imports cs f a g b :
  for_each (emit imports) (f, a) cs = Ok (g, b) -> 0 <= a -> a + code_total cs < 2 ^ 32 -> size f < 2 ^ 63 ->
  Forall code_bytes_ok cs -> frame 0x4000 (0x4000 + a + code_total cs) f g.
Proof.
  intros E Ha Hb Hs Hc. revert f a E Ha Hb Hs. induction Hc as [|c cs Hc _ IH]; intros f a E Ha Hb Hs; cbn [for_each code_total fold_right] in *.
  - apply ok_inj, pair_inj in E as [<- <-]. apply frame_refl.
  - fold (code_total cs) in *. apply bind_ok in E as ([f1 a1] & E1 & E).
    pose proof (code_size_nonneg c). pose proof (code_total_nonneg cs).
    destruct (emit_frame _ _ _ _ _ _ E1 Ha ltac:(lia) Hs Hc) as [-> F]. pose proof (frame_size _ _ _ _ F).
    eapply frame_step; [exact F|lia|lia|]. eapply frame_weaken; [| |apply (IH f1 (a + code_size c))]; lia || assumption.
Qed.

Lemma build_code_frame f imports g :
  build_code f imports = Ok g -> size f < 2 ^ 63 -> frame 0x4000 0xCC092 f g.
Proof.
  intros E Hs. unfold build_code in E. apply bind_ok in E as ([f1 c1] & E1 & E). apply bind_ok in E as ([f2 c2] & E2 & E).
  apply self_check_bind_ok in E as [_ E].
  apply emit_all_frame in E1; [|lia|vm_compute; reflexivity|lia|repeat constructor; lia].
  pose proof (frame_size _ _ _ _ E1). unfold_layout.
  apply emit_all_frame in E2; [|lia|vm_compute; reflexivity|lia|repeat constructor; lia].
  pose proof (frame_size _ _ _ _ E2).
  vm_compute (code_total preinit_code) in E1. vm_compute (code_total init_code) in E2.
  inv_writes E. change (size [0x31; 0xC0; 0xC3]) with 3 in *. change (size [0x66; 0x0F; 0xEF; 0xC0; 0x31; 0xC0; 0xC3]) with 7 in *.
  chain_frames.
Qed.

(** ** Metadata *)

(** An operation that stays inside its buffer. *)
Definition inside (f g : Bytes) : Prop := frame 0 (size f) f g.

Lemma frame_inside lo hi f g : frame lo hi f g -> 0 <= lo -> hi <= size f -> inside f g.
Proof. intros F H1 H2. apply (frame_weaken lo hi); assumption. Qed.

Lemma inside_trans f g h : inside f g -> inside g h -> inside f h.
Proof.
  unfold inside. intros F G. rewrite (frame_size _ _ _ _ F) in G. apply (frame_trans _ _ _ _ _ F G).
Qed.

Lemma inside_ok f g : inside f g -> size g = size f /\ (bytes_ok f -> bytes_ok g).
Proof. intros F. split; apply F. Qed.

Lemma inside_for_each {A S} (body : S -> A -> outcome S) (buffer : S -> Bytes) l s s' :
  (forall s s' a, In a l -> body s a = Ok s' -> inside (buffer s) (buffer s')) ->
  for_each body s l = Ok s' -> inside (buffer s) (buffer s').
Proof.
  intros H E. revert s E; induction l as [|a l IH]; cbn [for_each]; intros s E.
  - apply ok_inj in E. subst. apply frame_refl.
  - apply bind_ok in E as (s1 & E1 & E). apply (inside_trans _ (buffer s1)).
    + eapply H; [left; reflexivity|eassumption].
    + apply IH; [|exact E]. intros; eapply H; [right|]; eassumption.
Qed.

(** The frame of a chain of writes each of which was inside the buffer. *)
Ltac chain_inside :=
  repeat match goal with
  | |- inside ?f ?f => apply frame_refl
  | F : frame _ _ ?f ?g |- inside ?f ?g => apply (frame_inside _ _ _ _ F); lia
  | F : frame _ _ ?f ?g |- inside ?f _ => apply (inside_trans f g); [apply (frame_inside _ _ _ _ F); lia|]
  | F : inside ?f ?g |- inside ?f ?g => exact F
  | F : inside ?f ?g |- inside ?f _ => apply (inside_trans f g); [exact F|]
  end.

Lemma put_string_frame f a v g :
  put_string f a v = Ok g ->
  frame a (a + size (bytes_of_string v) + 1) f g /\ (0 <= a /\ a + size (bytes_of_string v) < size f) /\
  sub g a (size (bytes_of_string v)) = bytes_of_string v /\ byte_at g (a + size (bytes_of_string v)) = 0.
Proof.
  intros E. unfold put_string, copy_ascii in E. apply self_check_bind_ok in E as [_ E].
  apply bind_ok in E as (h & E1 & E). apply lb_copy_bytes_frame in E1 as (F1 & B1 & V1); [|apply bytes_ok_string].
  pose proof (size_nonneg (bytes_of_string v)) as N. pose proof (frame_size _ _ _ _ F1).
  pose proof E as E2. unfold store in E2. destruct (_ && _) eqn:G in E2; [|discriminate]. to_prop. apply ok_inj in E2.
  apply store_frame in E as F2. pose proof (frame_size _ _ _ _ F2).
  split; [chain_frames|]. split; [lia|]. split; [kept|]. subst g. rewrite byte_at_put by (rewrite ?size_cons, ?size_nil; lia).
  rewrite size_cons, size_nil. set (z := a + size (bytes_of_string v)).
  replace ((z <=? z) && (z <? z + (1 + 0))) with true by lia. rewrite Z.sub_diag. reflexivity.
Qed.

Lemma put_string_inside f a v g : put_string f a v = Ok g -> inside f g.
Proof. intros E. apply put_string_frame in E as (F & B & _). apply (frame_inside _ _ _ _ F); lia. Qed.

Lemma add_name_inside s name s' :
  add_name s name = Ok s' ->
  inside (ns_metadata s) (ns_metadata s') /\ ns_names s' = ns_names s ++ [name] /\
  ns_offsets s' = ns_offsets s ++ [ns_cursor s].
Proof.
  unfold add_name, append_string. intros E. inv_bind E. apply bind_ok in E0 as (m & E0 & E1). apply ok_inj in E1. subst v.
  apply ok_inj in E. subst s'. cbn [ns_metadata ns_names ns_offsets]. split; [apply (put_string_inside _ _ _ _ E0)|auto].
Qed.

Lemma add_names {A} (body : NameState -> A -> outcome NameState) l s s' :
  (forall s a s', body s a = Ok s' -> exists name, add_name s name = Ok s') ->
  for_each body s l = Ok s' ->
  inside (ns_metadata s) (ns_metadata s') /\ size (ns_names s') = size (ns_names s) + size l.
Proof.
  intros H E. split.
  - revert E. apply (inside_for_each body ns_metadata). intros s1 s2 a _ E. apply H in E as (name & E).
    apply add_name_inside in E. apply E.
  - revert s E; induction l as [|a l IH]; cbn [for_each]; intros s E; [apply ok_inj in E; subst; rewrite size_nil; lia|].
    apply bind_ok in E as (s1 & E1 & E). rewrite (IH _ E). apply H in E1 as (name & E1).
    apply add_name_inside in E1 as (_ & -> & _). rewrite size_app, !size_cons, size_nil. lia.
Qed.

Lemma add_export_name_is s a s' : add_export_name s a = Ok s' -> exists name, add_name s name = Ok s'.
Proof. unfold add_export_name. eauto. Qed.

Lemma add_import_name_is s a s' : add_import_name s a = Ok s' -> exists name, add_name s name = Ok s'.
Proof. unfold add_import_name. intros E. inv_bind E. eauto. Qed.

Lemma lb_write_symbol_frame s i name info other section value size_ s' :
  lb_write_symbol s i name info other section value size_ = Ok s' -> 0 <= i < 2 ^ 59 ->
  frame (i * 24) (i * 24 + 24) s s' /\ i * 24 + 24 <= size s /\ sub s' (i * 24 + 8) 8 = le_bytes 8 value.
Proof.
  intros E Hi. unfold lb_write_symbol in E. cbv zeta in E. rewrite (u64_small (i * 24)) in E by lia. apply self_check_bind_ok in E as [_ E].
  inv_writes E. split; [chain_frames|]. split; [lia|kept].
Qed.

Lemma lb_write_symbol_inside s i name info other section value size_ s' :
  lb_write_symbol s i name info other section value size_ = Ok s' -> inside s s'.
Proof.
  intros E. unfold lb_write_symbol in E. apply self_check_bind_ok in E as [_ E]. inv_writes E. chain_inside.
Qed.

Lemma build_export_symbols_inside symbols api offsets g :
  build_export_symbols symbols api offsets = Ok g -> inside symbols g.
Proof.
  unfold build_export_symbols. intros E. apply bind_ok in E as (s & E1 & E).
  apply self_check_bind_ok in E as [_ E]. apply self_check_bind_ok in E as [_ E]. apply ok_inj in E. subst g.
  apply (inside_for_each _ ex_symbols) in E1; [exact E1|]. clear. intros s s' [i symbol] _ E. unfold export_symbol in E.
  apply bind_ok in E as ([[[[value section] other] oc] tc] & _ & E). apply bind_ok in E as (name & _ & E).
  apply bind_ok in E as (sy & E & E'). apply ok_inj in E'. subst s'. apply (lb_write_symbol_inside _ _ _ _ _ _ _ _ _ E).
Qed.

Lemma symbols_inside symbols api offsets imports offsets' g :
  (let! symbols := build_export_symbols symbols api offsets in
   for_each (import_symbol (size api) offsets') symbols (enumerate imports)) = Ok g -> inside symbols g.
Proof.
  intros E. apply bind_ok in E as (s & E1 & E). apply build_export_symbols_inside in E1.
  apply (inside_for_each _ (fun b => b)) in E; [chain_inside|]. clear. intros s s' [i e] _ E. unfold import_symbol in E.
  apply bind_ok in E as (name & _ & E). apply (lb_write_symbol_inside _ _ _ _ _ _ _ _ _ E).
Qed.

Lemma build_jumps_inside c imports jumps g : build_jumps c imports jumps = Ok g -> inside jumps g.
Proof.
  unfold build_jumps. intros E. apply bind_ok in E as ([js j] & E1 & E). apply self_check_bind_ok in E as [_ E].
  apply ok_inj in E. subst g. apply (inside_for_each _ fst) in E1; [exact E1|]. clear.
  intros [f n] s' [i e] _ E. unfold jump_relocation in E. destruct (import_plt e); cbn [negb] in E.
  - inv_bind E. apply ok_inj in E. subst s'. cbn [fst]. frame_of E0. frame_of E1. chain_inside.
  - apply ok_inj in E. subst s'. apply frame_refl.
Qed.

Lemma build_rela_inside c imports rela g : build_rela c imports rela = Ok g -> inside rela g.
Proof.
  unfold build_rela. intros E. apply bind_ok in E as (r1 & E1 & E).
  apply (inside_for_each _ (fun b => b)) in E1; [|clear; intros s s' i _ E; unfold relative_relocation in E; inv_writes E; chain_inside].
  apply bind_ok in E as (r2 & E2 & E). frame_of E2. apply bind_ok in E as (r3 & E3 & E). frame_of E3.
  apply bind_ok in E as (r4 & E4 & E). frame_of E4. apply bind_ok in E as ([r5 n5] & E5 & E).
  apply (inside_for_each _ fst) in E5; [|clear; intros [s n] s' t _ E; unfold tls_relocation in E; inv_bind E;
    apply ok_inj in E; subst s'; frame_of E0; frame_of E1; cbn [fst]; chain_inside].
  apply bind_ok in E as ([r6 n6] & E6 & E).
  apply (inside_for_each _ fst) in E6; [|clear; intros [s n] s' [name t] _ E; unfold glob_dat_relocation in E;
    apply self_check_bind_ok in E as [_ E]; inv_bind E; apply ok_inj in E; subst s'; frame_of E0; frame_of E1; cbn [fst]; chain_inside].
  apply self_check_bind_ok in E as [_ E]. apply ok_inj in E. subst g. cbn [fst] in *. chain_inside.
Qed.

Lemma lb_hash_bytes_ok names table : lb_build_sysv_hash names = Ok table -> bytes_ok table.
Proof.
  unfold lb_build_sysv_hash. cbv zeta. intros E. apply bind_ok in E as (t1 & E1 & E). apply bind_ok in E as (t2 & E2 & E).
  frame_of E1. frame_of E2. destruct (_ =? 0); [discriminate|].
  apply (inside_for_each _ (fun b => b)) in E.
  - apply E, (frame_bytes _ _ _ _ F0), (frame_bytes _ _ _ _ F), bytes_ok_zeros.
  - clear. intros s s' i _ E. unfold lb_hash_insert in E. apply bind_ok in E as (n & _ & E). apply bind_ok in E as (p & _ & E).
    inv_writes E. chain_inside.
Qed.

Lemma build_gnu_note_inside note g : build_gnu_note note = Ok g -> inside note g.
Proof.
  unfold build_gnu_note. intros E. apply bind_ok in E as (n1 & E1 & E). frame_of E1. apply bind_ok in E as (n2 & E2 & E). frame_of E2.
  apply bind_ok in E as (n3 & E3 & E). frame_of E3. apply bind_ok in E as (n4 & E4 & E). unfold copy_ascii in E4. frame_of E4.
  apply bind_ok in E as (d & Ed & E). destruct (sha256_total (bytes_of_string "ps5-native-app-boilerplate clean-room runtime")) as (d' & Ed' & _ & Bd).
  rewrite Ed in Ed'. apply ok_inj in Ed'. subst d'.
  apply lb_copy_bytes_frame in E as (F5 & B5 & _); [|apply bytes_ok_firstn, Bd]. pose proof (size_nonneg (bytes_of_string "GNU")).
  chain_inside.
Qed.

Lemma lb_build_dynamic_inside dynamic n g : lb_build_dynamic dynamic n = Ok g -> inside dynamic g.
Proof.
  unfold lb_build_dynamic. cbv zeta. intros E. apply self_check_bind_ok in E as [_ E].
  apply (inside_for_each _ (fun b => b)) in E; [exact E|]. clear. intros s s' e _ E. unfold write_i64 in E. inv_writes E. chain_inside.
Qed.

(** The window's body need only stay inside its span. *)
Lemma window_inside f a n body g :
  window f a n body = Ok g -> (forall s s', body s = Ok s' -> inside s s') -> bytes_ok f ->
  frame a (a + n) f g /\ 0 <= a /\ 0 <= n /\ a + n <= size f.
Proof.
  intros E H Hf. apply window_frame in E as (F & Ha & Hn & Hl & _); [auto| |exact Hf].
  intros s s' E' Hb Hs. apply H in E' as [S B _]. split; [congruence|auto].
Qed.

Ltac bytes_ok_kept :=
  repeat match goal with F : frame _ _ _ ?g |- bytes_ok ?g => apply (frame_bytes _ _ _ _ F)
    | F : inside _ ?g |- bytes_ok ?g => apply (frame_bytes _ _ _ _ F) end; try assumption.

(** The bytes from a position up to the terminating zero. *)
Definition holds_string (data : Bytes) (a : Z) (s : string) : Prop :=
  0 <= a /\ a + size (bytes_of_string s) < size data /\
  sub data a (size (bytes_of_string s)) = bytes_of_string s /\ byte_at data (a + size (bytes_of_string s)) = 0.

Lemma put_string_holds f a v g : put_string f a v = Ok g -> holds_string g a v.
Proof.
  intros E. apply put_string_frame in E as (F & [B1 B2] & V & Z). pose proof (frame_size _ _ _ _ F).
  split; [exact B1|]. split; [lia|]. auto.
Qed.

Lemma frame_holds lo hi f g a s :
  frame lo hi f g -> holds_string f a s -> a + size (bytes_of_string s) < lo \/ hi <= a -> holds_string g a s.
Proof.
  intros F (Ha & Hl & V & Z) D. pose proof (size_nonneg (bytes_of_string s)). pose proof (frame_size _ _ _ _ F).
  split; [exact Ha|]. split; [lia|]. split.
  - rewrite (frame_sub _ _ _ _ _ _ F) by lia. exact V.
  - rewrite (frame_out _ _ _ _ F) by lia. exact Z.
Qed.

Lemma size_author : size (bytes_of_string author) = 29.
Proof. reflexivity. Qed.

Lemma fixed_strings_author f g :
  for_each (fun m e => put_string m (fst e) (snd e)) f fixed_strings = Ok g ->
  inside f g /\ holds_string g 0xA74B author.
Proof.
  intros E. split.
  - revert E. apply (inside_for_each _ (fun b => b)). intros s s' e _ E. apply (put_string_inside _ _ _ _ E).
  - unfold fixed_strings in E. do 9 (apply bind_ok in E as (? & _ & E)). cbn [for_each fst snd] in E.
    apply bind_ok in E as (h & E1 & E). apply bind_ok in E as (h' & E2 & E). apply ok_inj in E. subst h'.
    apply put_string_holds in E1. change (holds_string h 0xA74B author) in E1. apply put_string_frame in E2 as (F & _).
    apply (frame_holds _ _ _ _ _ _ F E1). rewrite size_author. lia.
Qed.

Lemma fill_metadata_ok api imports f g :
  fill_metadata api imports f = Ok g -> bytes_ok f -> size api + size imports < 2 ^ 32 ->
  size g = size f /\ bytes_ok g /\ holds_string g 0xA74B author /\ size api + size imports + 1 = 2669.
Proof.
  intros E Hf Hn. unfold fill_metadata in E. apply bind_ok in E as (ex & E1 & E). apply bind_ok in E as (all & E2 & E).
  apply add_names in E1 as [F1 N1]; [|apply add_export_name_is]. apply add_names in E2 as [F2 N2]; [|apply add_import_name_is].
  cbn [ns_metadata ns_names] in F1, N1, F2, N2. rewrite size_cons, size_nil in N1. apply self_check_bind_ok in E as [_ E].
  apply bind_ok in E as (m3 & E3 & E). apply fixed_strings_author in E3 as [F3 A3]. cbv zeta in E.
  apply self_check_bind_ok in E as [G E]. to_prop. pose proof (size_nonneg api). pose proof (size_nonneg imports).
  rewrite u64_small in G by lia. rewrite u64_small in E by lia.
  apply bind_ok in E as (m4 & E4 & E). apply window_inside in E4 as (F4 & _); [|intros s s'; apply symbols_inside|bytes_ok_kept].
  apply bind_ok in E as (m5 & E5 & E). apply window_inside in E5 as (F5 & _); [|intros s s'; apply build_jumps_inside|bytes_ok_kept].
  apply bind_ok in E as (m6 & E6 & E). apply window_inside in E6 as (F6 & _); [|intros s s'; apply build_rela_inside|bytes_ok_kept].
  apply bind_ok in E as (hash & Eh & E). apply self_check_bind_ok in E as [Gh E]. to_prop.
  apply bind_ok in E as (m7 & E7 & E). apply lb_copy_bytes_frame in E7 as (F7 & _); [|apply (lb_hash_bytes_ok _ _ Eh)].
  apply self_check_bind_ok in E as [_ E]. apply bind_ok in E as (m8 & E8 & E).
  apply window_inside in E8 as (F8 & _); [|intros s s'; apply build_gnu_note_inside|bytes_ok_kept].
  apply window_inside in E as (F9 & _); [|intros s s'; apply lb_build_dynamic_inside|bytes_ok_kept].
  split; [|split; [bytes_ok_kept|split; [|lia]]].
  - repeat match goal with F : frame _ _ _ _ |- _ => apply frame_size in F | F : inside _ _ |- _ => apply frame_size in F end. lia.
  - unfold_layout.
    apply (frame_holds _ _ _ _ _ _ F9), or_introl; [|rewrite size_author; lia].
    apply (frame_holds _ _ _ _ _ _ F8), or_introl; [|rewrite size_author; lia].
    apply (frame_holds _ _ _ _ _ _ F7), or_introl; [|rewrite size_author; lia].
    apply (frame_holds _ _ _ _ _ _ F6), or_introl; [|rewrite size_author; lia].
    apply (frame_holds _ _ _ _ _ _ F5), or_introl; [|rewrite size_author; lia].
    apply (frame_holds _ _ _ _ _ _ F4), or_introl; [|rewrite size_author; lia]. exact A3.
Qed.

(** ** The image *)

(** What [build_metadata] leaves: its window, the GOT, and three cleared ranges. *)
Lemma build_metadata_ok f api imports g :
  build_metadata f api imports = Ok g -> bytes_ok f -> size api + size imports < 2 ^ 32 ->
  frame 0x113870 0x146208 f g /\ holds_string g (kMetadataFileOffset + 0xA74B) author /\
  sub g kGotFileOffset 8 = le_bytes 8 (kMetadataAddress + kDynamicOffset) /\ size api + size imports + 1 = 2669.
Proof.
  intros E Hf Hn. unfold build_metadata in E. apply bind_ok in E as (f1 & E1 & E).
  apply window_frame in E1 as (F1 & B1 & B2 & B3 & s' & Es & V1); [| |exact Hf].
  2:{ clear - Hn. intros s s' E Hb Hs. apply fill_metadata_ok in E as (S & B & _); [split; congruence|assumption|assumption]. }
  apply fill_metadata_ok in Es as (S1 & _ & A1 & Hc); [|apply bytes_ok_sub; exact Hf|exact Hn].
  rewrite size_sub in S1 by assumption. unfold fill_zeros in E.
  apply bind_ok in E as (f2 & E2 & E). apply lb_write_u64_frame in E2 as (F2 & B4 & V2).
  apply bind_ok in E as (f3 & E3 & E). apply copy_into_frame in E3 as (F3 & _); [|apply bytes_ok_zeros].
  apply bind_ok in E as (f4 & E4 & E). apply copy_into_frame in E4 as (F4 & _); [|apply bytes_ok_zeros].
  apply copy_into_frame in E as (F5 & _); [|apply bytes_ok_zeros].
  unfold_layout. rewrite size_zeros in F3, F4, F5 by lia.
  pose proof (frame_size _ _ _ _ F1). pose proof (frame_size _ _ _ _ F2). pose proof (frame_size _ _ _ _ F3).
  pose proof (frame_size _ _ _ _ F4). pose proof (frame_size _ _ _ _ F5).
  split; [chain_frames|]. split; [|split; [kept|exact Hc]].
  assert (A : holds_string f1 (0x11B810 + 0xA74B) author).
  { destruct A1 as (_ & L & V & Z). rewrite size_author in *. split; [lia|]. rewrite size_author.
    split; [lia|]. rewrite <- V1, sub_sub in V by lia. rewrite <- V1, byte_at_sub in Z by lia.
    split; [exact V|rewrite <- Z; f_equal; lia]. }
  repeat match goal with F : frame _ _ ?f ?g |- holds_string ?g _ _ =>
    apply (frame_holds _ _ f g _ _ F); [|rewrite size_author; lia] end. exact A.
Qed.

Lemma lb_build_comment_frame f g : lb_build_comment f = Ok g -> bytes_ok f -> frame 0x146210 0x146268 f g.
Proof.
  intros E Hf. unfold lb_build_comment in E. apply window_inside in E as (F & _); [exact F| |exact Hf].
  clear. intros s s' E. unfold copy_ascii in E. inv_writes E.
  pose proof (size_nonneg (bytes_of_string "PATH")). pose proof (size_nonneg (bytes_of_string author)). chain_inside.
Qed.

Lemma lb_build_version_frame f g : lb_build_version f = Ok g -> frame 0x146280 0x14629A f g.
Proof. intros E. unfold lb_build_version in E. frame_of E. exact F. Qed.

(** A string stored up to a zero is what [read_ascii_z] reads. *)
Lemma ascii_z_app s l : Forall (fun b => b <> 0) s -> ascii_z (s ++ 0 :: l) = s.
Proof.
  induction 1 as [|b s Hb _ IH]; [reflexivity|]. cbn [app ascii_z].
  replace (b =? 0) with false by lia. cbn [negb]. rewrite IH. reflexivity.
Qed.

Lemma skipn_cons (l : Bytes) n : (n < List.length l)%nat -> skipn n l = nth n l 0 :: skipn (S n) l.
Proof. revert n; induction l as [|b l IH]; intros n H; [cbn in H; lia|]. destruct n; [reflexivity|]. apply IH. cbn in H. lia. Qed.

Lemma read_ascii_z_holds data a s :
  holds_string data a s -> Forall (fun b => b <> 0) (bytes_of_string s) -> read_ascii_z data a = s.
Proof.
  intros (Ha & Hl & V & Z) Hz. unfold read_ascii_z. set (n := size (bytes_of_string s)) in *.
  pose proof (size_nonneg (bytes_of_string s)).
  assert (E : skipn (Z.to_nat a) data = bytes_of_string s ++ 0 :: skipn (Z.to_nat (a + n + 1)) data).
  { rewrite <- (firstn_skipn (Z.to_nat n) (skipn (Z.to_nat a) data)). fold (sub data a n). rewrite V. f_equal.
    rewrite skipn_skipn. replace (Z.to_nat n + Z.to_nat a)%nat with (Z.to_nat (a + n)) by lia.
    unfold byte_at in Z. replace (a + n <? 0) with false in Z by lia. unfold size in Hl.
    replace (Z.to_nat (a + n + 1)) with (S (Z.to_nat (a + n))) by lia.
    rewrite <- Z. apply skipn_cons. lia. }
  rewrite E, ascii_z_app by exact Hz. apply string_of_bytes_of_string.
Qed.

(** What the finished image holds. *)
Definition runtime_fields (file : Bytes) : Prop :=
  size file = 0x14629A /\ bytes_ok file /\ sub file 0 4 = elf_magic /\ sub file 0x10 2 = le_bytes 2 0xFE18 /\
  sub file 0x38 2 = le_bytes 2 14 /\ sub file 0xD0000 4 = le_bytes 4 1 /\
  sub file 0x113870 8 = le_bytes 8 (0x117810 + 0x2A738) /\ holds_string file (0x11B810 + 0xA74B) author.

Lemma runtime_fields_verify file api imports :
  runtime_fields file -> size api + size imports + 1 = 2669 -> verify_fields file api imports = Ok tt.
Proof.
  intros (Sz & O & M1 & M2 & M3 & M4 & M5 & M6) Hc.
  unfold verify_fields. unfold_layout. rewrite self_check_true by lia.
  rewrite !lb_read_u32_ok, !lb_read_u16_ok, lb_read_u64_ok by (assumption || lia). cbn [bind].
  unfold field. rewrite M1, M2, M3, M4, M5, (read_ascii_z_holds _ _ _ M6) by (repeat constructor; discriminate).
  rewrite u64_small by lia. rewrite Hc. reflexivity.
Qed.

(** The headers, then everything up to the metadata, then the tail. *)
Lemma headers_stage f0 f1 f2 f3 f4 f5 f6 :
  size f0 = 0x14629A -> build_elf_header f0 = Ok f1 -> lb_write_u64 f1 0x28 0x194F18 = Ok f2 ->
  lb_write_u16 f2 0x3A 0x40 = Ok f3 -> lb_write_u16 f3 0x3C 0x26 = Ok f4 -> lb_write_u16 f4 0x3E 0x23 = Ok f5 ->
  build_program_headers f5 = Ok f6 ->
  frame 0 0x350 f0 f6 /\ sub f6 0 4 = elf_magic /\ sub f6 0x10 2 = le_bytes 2 0xFE18 /\ sub f6 0x38 2 = le_bytes 2 14.
Proof.
  intros S0 E1 E2 E3 E4 E5 E6. apply build_elf_header_frame in E1 as (F1 & V1 & V2 & V3); [|lia].
  pose proof (frame_size _ _ _ _ F1) as S1. unfold_layout. frame_of E2. frame_of E3. frame_of E4. frame_of E5.
  apply build_program_headers_frame in E6 as F6; [|lia]. pose proof (frame_size _ _ _ _ F6).
  split; [chain_frames|]. split; [kept|]. split; kept.
Qed.

Lemma body_stage f6 f7 f8 f9 f10 f11 api imports :
  size f6 = 0x14629A -> bytes_ok f6 -> size api + size imports < 2 ^ 32 ->
  build_code f6 imports = Ok f7 -> lb_write_u32 f7 kMarkerFileOffset 1 = Ok f8 -> build_unwind_header f8 = Ok f9 ->
  build_module_param f9 = Ok f10 -> build_metadata f10 api imports = Ok f11 ->
  frame 0x4000 0x146208 f6 f11 /\ sub f11 0xD0000 4 = le_bytes 4 1 /\
  sub f11 0x113870 8 = le_bytes 8 (0x117810 + 0x2A738) /\ holds_string f11 (0x11B810 + 0xA74B) author /\
  size api + size imports + 1 = 2669.
Proof.
  intros S6 O6 Hn E7 E8 E9 E10 E11. apply build_code_frame in E7 as F7; [|lia]. pose proof (frame_size _ _ _ _ F7).
  unfold_layout. frame_of E8. apply build_unwind_header_frame in E9 as F9; [|bytes_ok_kept]. pose proof (frame_size _ _ _ _ F9).
  apply build_module_param_frame in E10 as F10; [|lia]. pose proof (frame_size _ _ _ _ F10).
  apply build_metadata_ok in E11 as (F11 & A11 & V11 & Hc); [|bytes_ok_kept|exact Hn]. pose proof (frame_size _ _ _ _ F11).
  unfold_layout. split; [chain_frames|]. split; [kept|]. split; [exact V11|]. split; [exact A11|exact Hc].
Qed.

Lemma tail_stage f11 f12 f13 f14 at_ text :
  bytes_ok f11 -> lb_build_comment f11 = Ok f12 -> lb_build_version f12 = Ok f13 ->
  copy_ascii f13 at_ text = Ok f14 -> at_ = 0xD0100 -> size (bytes_of_string text) = 63 ->
  frame 0x146210 0x14629A f11 f13 /\ frame 0xD0100 0xD013F f13 f14.
Proof.
  intros O E12 E13 E14 -> St. apply lb_build_comment_frame in E12 as F12; [|exact O].
  apply lb_build_version_frame in E13 as F13. unfold copy_ascii in E14.
  apply lb_copy_bytes_frame in E14 as (F14 & _); [|apply bytes_ok_string]. rewrite St in F14. unfold_layout.
  split; [chain_frames|exact F14].
Qed.

Lemma build_runtime_fills api imports :
  build_runtime api imports = fill_runtime (zeros kRuntimeFileSize) api imports.
Proof. unfold build_runtime. reflexivity. Qed.

Lemma fill_runtime_fields f0 api imports file :
  fill_runtime f0 api imports = Ok file -> size f0 = 0x14629A -> bytes_ok f0 -> size api + size imports < 2 ^ 32 ->
  runtime_fields file /\ size api + size imports + 1 = 2669.
Proof.
  intros E S0 O0 Hn. unfold fill_runtime in E.
  apply bind_ok in E as (f1 & E1 & E). apply bind_ok in E as (f2 & E2 & E). apply bind_ok in E as (f3 & E3 & E).
  apply bind_ok in E as (f4 & E4 & E). apply bind_ok in E as (f5 & E5 & E). apply bind_ok in E as (f6 & E6 & E).
  destruct (headers_stage _ _ _ _ _ _ _ S0 E1 E2 E3 E4 E5 E6) as (F6 & V1 & V2 & V3). clear E1 E2 E3 E4 E5 E6.
  pose proof (frame_size _ _ _ _ F6) as S6. rewrite S0 in S6. pose proof (frame_bytes _ _ _ _ F6 O0) as O6.
  apply bind_ok in E as (f7 & E7 & E). apply bind_ok in E as (f8 & E8 & E). apply bind_ok in E as (f9 & E9 & E).
  apply bind_ok in E as (f10 & E10 & E). apply bind_ok in E as (f11 & E11 & E).
  destruct (body_stage _ _ _ _ _ _ _ _ S6 O6 Hn E7 E8 E9 E10 E11) as (F11 & V4 & V5 & A & Hc). clear E7 E8 E9 E10 E11.
  pose proof (frame_size _ _ _ _ F11) as S11. rewrite S6 in S11. pose proof (frame_bytes _ _ _ _ F11 O6) as O11.
  apply bind_ok in E as (f12 & E12 & E). apply bind_ok in E as (f13 & E13 & E).
  destruct (tail_stage _ _ _ _ _ _ O11 E12 E13 E eq_refl eq_refl) as (F13 & F14). clear E12 E13 E.
  pose proof (frame_size _ _ _ _ F13) as S13. pose proof (frame_size _ _ _ _ F14) as S14.
  split; [|exact Hc]. split; [lia|]. split; [bytes_ok_kept|].
  split; [kept|]. split; [kept|]. split; [kept|]. split; [kept|]. split; [kept|].
  apply (frame_holds _ _ _ _ _ _ F14); [|rewrite size_author; lia].
  apply (frame_holds _ _ _ _ _ _ F13); [exact A|rewrite size_author; lia].
Qed.

Lemma runtime_image_fields api imports file :
  build_runtime api imports = Ok file -> size api + size imports < 2 ^ 32 ->
  verify_fields file api imports = Ok tt.
Proof.
  intros E Hn. rewrite build_runtime_fills in E.
  pose proof (fill_runtime_fields (zeros kRuntimeFileSize) api imports file E) as H.
  apply runtime_fields_verify; apply H; try assumption.
  - apply size_zeros. unfold kRuntimeFileSize. lia.
  - apply bytes_ok_zeros.
  - apply size_zeros. unfold kRuntimeFileSize. lia.
  - apply bytes_ok_zeros.
Qed.
