(* ===== verification/LibcParts.v ===== *)
(** * The parts of the runtime image

    The build of the runtime module as the list of its parts, each with the
    ranges of the file it writes, down to the pieces of code and the tables of
    the metadata.  A part writes only its ranges, and no two parts have a byte
    in common, so the finished image holds what every part wrote. *)

From Stdlib Require Import ZArith List Bool Lia String Ascii.
From S2P Require Import Prelude Bytes Writes Hash LibcManifest LibcRuntime LibcEncoding LibcImage.
Import ListNotations.
Open Scope Z_scope.

(** ** Parts and what they write *)

Definition ranges : Type := list (Z * Z).

Definition outside_ranges (rs : ranges) (i : Z) : Prop := Forall (fun r => i < fst r \/ snd r <= i) rs.

Record wrote (rs : ranges) (f g : Bytes) : Prop := {
  wr_size : size g = size f;
  wr_bytes : bytes_ok f -> bytes_ok g;
  wr_out : forall i, 0 <= i -> outside_ranges rs i -> byte_at g i = byte_at f i
}.

Definition part : Type := ranges * (Bytes -> outcome Bytes).

(** The parts one after another, from [f] to [file]. *)
Fixpoint staged (parts : list part) (f file : Bytes) : Prop :=
  match parts with
  | [] => f = file
  | (rs, write) :: rest => exists g, write f = Ok g /\ wrote rs f g /\ staged rest g file
  end.

(** The same, and what each part wrote is in [file]. *)
Fixpoint built (parts : list part) (f file : Bytes) : Prop :=
  match parts with
  | [] => f = file
  | (rs, write) :: rest =>
      exists g, write f = Ok g /\ wrote rs f g /\ Forall (fun r => sub file (fst r) (snd r - fst r) = sub g (fst r) (snd r - fst r)) rs /\
        built rest g file
  end.

Definition range_apart (r s : Z * Z) : bool := (snd r <=? fst s) || (snd s <=? fst r).
Definition range_inside (n : Z) (r : Z * Z) : bool := (0 <=? fst r) && (fst r <=? snd r) && (snd r <=? n).

(** No byte has two parts. *)
Fixpoint parts_apart (l : list ranges) : bool :=
  match l with [] => true | rs :: rest => forallb (fun r => forallb (range_apart r) (List.concat rest)) rs && parts_apart rest end.

Lemma wrote_refl rs f : wrote rs f f.
Proof. split; auto. Qed.

Lemma wrote_trans rs rs' f g h : wrote rs f g -> wrote rs' g h -> wrote (rs ++ rs') f h.
Proof.
  intros [S B O] [S' B' O']. split; [congruence|auto|]. intros i Hi Ho. apply Forall_app in Ho as [Ho Ho']. rewrite O', O; auto.
Qed.

(** A write inside one of the ranges, then more of them. *)
Lemma wrote_step rs lo hi f g h : frame lo hi f g -> Exists (fun r => fst r <= lo /\ hi <= snd r) rs -> wrote rs g h -> wrote rs f h.
Proof.
  intros [S B O] E [S' B' O']. split; [congruence|auto|]. intros i Hi Ho. rewrite O' by assumption. apply O; [exact Hi|].
  unfold outside_ranges in Ho. apply Exists_exists in E as (r & I & L). rewrite Forall_forall in Ho. specialize (Ho r I). lia.
Qed.

Lemma wrote_frame lo hi f g : frame lo hi f g -> wrote [(lo, hi)] f g.
Proof. intros F. apply (wrote_step _ lo hi f g g); [exact F|constructor; cbn; lia|apply wrote_refl]. Qed.

Lemma staged_wrote parts : forall f file, staged parts f file -> wrote (List.concat (map fst parts)) f file.
Proof.
  induction parts as [|[rs p] parts IH]; intros f file S; cbn [staged map List.concat fst] in *; [subst; apply wrote_refl|].
  destruct S as (g & _ & W & S). apply (wrote_trans _ _ _ _ _ W), IH, S.
Qed.

Lemma wrote_sub rs f g a n : wrote rs f g -> 0 <= a -> 0 <= n -> a + n <= size f -> forallb (range_apart (a, a + n)) rs = true -> sub g a n = sub f a n.
Proof.
  intros [S _ O] Ha Hn Hl Ho. apply sub_ext; try lia. intros i Hi. apply O; [lia|]. rewrite forallb_forall in Ho. apply Forall_forall.
  intros r I. specialize (Ho r I). unfold range_apart in Ho. cbn [fst snd] in Ho. lia.
Qed.

(** Parts that are apart are all in the finished file. *)
Lemma staged_built parts : forall f file, staged parts f file -> parts_apart (map fst parts) = true ->
  forallb (range_inside (size f)) (List.concat (map fst parts)) = true -> built parts f file.
Proof.
  induction parts as [|[rs p] parts IH]; intros f file S A I; cbn [staged built map fst parts_apart List.concat] in *; [exact S|].
  destruct S as (g & E & W & S). apply andb_prop in A as [A1 A2]. rewrite forallb_app in I. apply andb_prop in I as [I1 I2].
  exists g. split; [exact E|]. split; [exact W|]. pose proof (wr_size _ _ _ W) as Sz. split; [|apply IH; [exact S|exact A2|rewrite Sz; exact I2]].
  apply Forall_forall. intros [lo hi] Ir. rewrite forallb_forall in A1, I1. specialize (A1 _ Ir). specialize (I1 _ Ir).
  unfold range_inside in I1. cbn [fst snd] in *. apply (wrote_sub (List.concat (map fst parts)) g); [apply staged_wrote, S|lia|lia|lia|].
  replace (lo + (hi - lo)) with hi by lia. exact A1.
Qed.

(** ** The code *)

Lemma emit_all_span imports cs f a g b :
  for_each (emit imports) (f, a) cs = Ok (g, b) -> 0 <= a -> a + code_total cs < 2 ^ 32 -> size f < 2 ^ 63 ->
  Forall code_bytes_ok cs -> frame (0x4000 + a) (0x4000 + a + code_total cs) f g.
Proof.
  intros E Ha Hb Hs Hc. revert f a E Ha Hb Hs. induction Hc as [|c cs Hc _ IH]; intros f a E Ha Hb Hs; cbn [for_each code_total fold_right] in *.
  - apply ok_inj, pair_inj in E as [<- <-]. apply frame_refl.
  - fold (code_total cs) in *. apply bind_ok in E as ([f1 a1] & E1 & E). pose proof (code_size_nonneg c). pose proof (code_total_nonneg cs).
    destruct (emit_frame _ _ _ _ _ _ E1 Ha ltac:(lia) Hs Hc) as [-> F]. pose proof (frame_size _ _ _ _ F).
    eapply frame_step; [exact F|lia|lia|]. eapply frame_weaken; [| |apply (IH f1 (a + code_size c))]; lia || assumption.
Qed.

(** A routine at an address of the text. *)
Definition write_routine (imports : list RuntimeImport) (address : Z) (cs : list Code) (f : Bytes) : outcome Bytes :=
  let! '(f, _) := for_each (emit imports) (f, address) cs in Ok f.

Definition code_parts (imports : list RuntimeImport) : list part := [
  ([(0x4010, 0x4010 + code_total preinit_code)], write_routine imports 0x10 preinit_code);
  ([(0x4100, 0x4100 + code_total init_code)], write_routine imports kInitAddress init_code);
  ([(0x4200, 0x4201)], fun f => store f (kTextFileOffset + kThreadDtorsAddress) 0xC3);
  ([(0x4210, 0x4213)], fun f => lb_copy_bytes f (kTextFileOffset + kThreadAtexitCountAddress) [0x31; 0xC0; 0xC3]);
  ([(0x4220, 0x4221)], fun f => store f (kTextFileOffset + kThreadAtexitReportAddress) 0xC3);
  ([(0x4230, 0x4231)], fun f => store f (kTextFileOffset + kRelativeAnchorAddress) 0xC3);
  ([(0x4050, 0x4057)], fun f => lb_copy_bytes f (kTextFileOffset + 0x50) [0x66; 0x0F; 0xEF; 0xC0; 0x31; 0xC0; 0xC3]);
  ([(0x4030, 0x4033)], fun f => lb_copy_bytes f (kTextFileOffset + 0x30) [0x31; 0xC0; 0xC3]);
  ([(0x4040, 0x4043)], fun f => lb_copy_bytes f (kTextFileOffset + 0x40) [0x31; 0xC0; 0xC3]);
  ([(0xCC010, 0xCC011)], fun f => store f (kTextFileOffset + kFiniAddress) 0xC3)].

(** One more part of a chain: its write, its frame, the rest. *)
Lemma staged_cons lo hi write rest f g file : write f = Ok g -> frame lo hi f g -> staged rest g file -> staged (([(lo, hi)], write) :: rest) f file.
Proof. intros E F S. exists g. split; [exact E|]. split; [apply wrote_frame, F|exact S]. Qed.

Lemma staged_app parts parts' f g file : staged parts f g -> staged parts' g file -> staged (parts ++ parts') f file.
Proof.
  revert f. induction parts as [|[rs p] parts IH]; intros f S S'; cbn [staged app] in *; [subst; exact S'|].
  destruct S as (h & E & W & S). exists h. auto.
Qed.

Lemma build_code_staged f imports g : build_code f imports = Ok g -> size f < 2 ^ 63 -> staged (code_parts imports) f g.
Proof.
  intros E Hs. unfold build_code in E. apply bind_ok in E as ([f1 c1] & E1 & E). apply bind_ok in E as ([f2 c2] & E2 & E).
  apply self_check_bind_ok in E as [_ E]. unfold code_parts.
  pose proof (emit_all_span _ _ _ _ _ _ E1 ltac:(lia) ltac:(vm_compute; reflexivity) Hs ltac:(repeat constructor; lia)) as F1.
  pose proof (frame_size _ _ _ _ F1) as S1.
  pose proof (emit_all_span _ _ _ _ _ _ E2 ltac:(vm_compute; discriminate) ltac:(vm_compute; reflexivity) ltac:(lia) ltac:(repeat constructor; lia)) as F2.
  pose proof (frame_size _ _ _ _ F2) as S2.
  eapply staged_cons; [unfold write_routine; rewrite E1; reflexivity|exact F1|].
  eapply staged_cons; [unfold write_routine; rewrite E2; reflexivity|exact F2|]. clear E1 E2.
  do 7 (let h := fresh "h" in let W := fresh "W" in apply bind_ok in E as (h & W & E);
    eapply staged_cons; [exact W|clear - W; unfold_layout; frame_of W; assumption|]; clear W).
  eapply staged_cons; [exact E|clear - E; unfold_layout; frame_of E; assumption|reflexivity].
Qed.

(** ** The metadata *)

(** The tables of the metadata, in its span, after the symbols' names. *)
Definition metadata_parts (api : list ApiSymbol) (imports : list RuntimeImport) (exports all : NameState) : list part := [
  ([(0xA6C1, 0xA7A3)], fun m => for_each (fun m e => put_string m (fst e) (snd e)) m fixed_strings);
  ([(kSymbolTableOffset, kSymbolTableOffset + 0xFA38)], fun m => window m kSymbolTableOffset (u64 (size (ns_names all) * 24)) (fun symbols =>
     let! symbols := build_export_symbols symbols api (ns_offsets exports) in
     for_each (import_symbol (size api) (ns_offsets all)) symbols (enumerate imports)));
  ([(kJumpRelocationOffset, kJumpRelocationOffset + kPltRelocationCount * 24)], fun m =>
     window m kJumpRelocationOffset (kPltRelocationCount * 24) (build_jumps (size api) imports));
  ([(kRelaOffset, kRelaOffset + relocation_count * 24)], fun m => window m kRelaOffset (relocation_count * 24) (build_rela (size api) imports));
  ([(kHashTableOffset, kHashTableOffset + 0x5370)], fun m => let! hash := lb_build_sysv_hash (ns_names all) in lb_copy_bytes m kHashTableOffset hash);
  ([(kBuildNoteOffset, kBuildNoteOffset + 0x24)], fun m => window m kBuildNoteOffset 0x24 build_gnu_note);
  ([(kDynamicOffset, kDynamicOffset + kDynamicCount * 16)], fun m =>
     window m kDynamicOffset (kDynamicCount * 16) (fun dynamic => lb_build_dynamic dynamic (size (ns_names all))))].

(** What [fill_metadata] leaves of its span: the names of the symbols, behind the
    empty one, and the tables. *)
Definition metadata_built (api : list ApiSymbol) (imports : list RuntimeImport) (span file : Bytes) : Prop :=
  exists exports all,
    for_each add_export_name {| ns_metadata := span; ns_cursor := 1; ns_offsets := []; ns_names := [EmptyString] |} api = Ok exports /\
    for_each add_import_name {| ns_metadata := ns_metadata exports; ns_cursor := ns_cursor exports; ns_offsets := []; ns_names := ns_names exports |} imports = Ok all /\
    ns_cursor all = 0xA6C1 /\ sub file 0 (ns_cursor all) = sub (ns_metadata all) 0 (ns_cursor all) /\
    built (metadata_parts api imports exports all) (ns_metadata all) file.

Lemma fixed_strings_frame f g :
  for_each (fun m e => put_string m (fst e) (snd e)) f fixed_strings = Ok g -> frame 0xA6C1 0xA7A3 f g.
Proof.
  intros E. unfold fixed_strings in E.
  repeat (apply bind_ok in E as (? & W & E); cbn [fst snd] in W; apply put_string_frame in W as (? & _)).
  apply ok_inj in E. subst g.
  repeat match goal with F : frame _ _ _ _ |- _ => progress (match type of F with frame ?a ?b _ _ => let b' := eval vm_compute in b in change b with b' in F end) end.
  chain_frames.
Qed.

Lemma fill_metadata_built api imports f g :
  fill_metadata api imports f = Ok g -> bytes_ok f -> size f = kMetadataSize -> size api + size imports < 2 ^ 32 -> metadata_built api imports f g.
Proof.
  intros E Hf Hs Hn. unfold fill_metadata in E. apply bind_ok in E as (ex & E1 & E). apply bind_ok in E as (all & E2 & E). exists ex, all.
  split; [exact E1|]. split; [exact E2|].
  apply add_names in E1 as [F1 N1]; [|apply add_export_name_is]. apply add_names in E2 as [F2 N2]; [|apply add_import_name_is].
  cbn [ns_metadata ns_names] in F1, N1, F2, N2. rewrite size_cons, size_nil in N1. apply self_check_bind_ok in E as [Gc E]. apply Z.eqb_eq in Gc.
  split; [exact Gc|]. rewrite Gc. pose proof (inside_trans _ _ _ F1 F2) as F. pose proof (frame_size _ _ _ _ F) as Sz. rewrite Hs in Sz.
  assert (Ba : bytes_ok (ns_metadata all)) by apply (frame_bytes _ _ _ _ F), Hf. clear F1 F2 F.
  apply bind_ok in E as (m3 & E3 & E). pose proof (fixed_strings_frame _ _ E3) as F3. cbv zeta in E.
  apply self_check_bind_ok in E as [G E]. apply Z.eqb_eq in G.
  assert (S : staged (metadata_parts api imports ex all) (ns_metadata all) g).
  { unfold metadata_parts. eapply staged_cons; [exact E3|exact F3|]. clear E3. rewrite G in E.
    apply bind_ok in E as (m4 & E4 & E). eapply staged_cons; [rewrite G; exact E4| |].
    { apply window_inside in E4 as (F4 & _); [exact F4|intros s s'; apply symbols_inside|bytes_ok_kept]. }
    apply window_inside in E4 as (F4 & _); [|intros s s'; apply symbols_inside|bytes_ok_kept].
    apply bind_ok in E as (m5 & E5 & E). pose proof E5 as W5. apply window_inside in W5 as (F5 & _); [|intros s s'; apply build_jumps_inside|bytes_ok_kept].
    eapply staged_cons; [exact E5|exact F5|]. clear E5.
    apply bind_ok in E as (m6 & E6 & E). pose proof E6 as W6. apply window_inside in W6 as (F6 & _); [|intros s s'; apply build_rela_inside|bytes_ok_kept].
    eapply staged_cons; [exact E6|exact F6|]. clear E6.
    apply bind_ok in E as (hash & Eh & E). apply self_check_bind_ok in E as [Gh E]. apply Z.eqb_eq in Gh.
    apply bind_ok in E as (m7 & E7 & E). pose proof E7 as W7. apply lb_copy_bytes_frame in W7 as (F7 & _); [|apply (lb_hash_bytes_ok _ _ Eh)]. rewrite Gh in F7.
    eapply staged_cons; [rewrite Eh; exact E7|exact F7|]. clear E7.
    apply self_check_bind_ok in E as [_ E]. apply bind_ok in E as (m8 & E8 & E).
    pose proof E8 as W8. apply window_inside in W8 as (F8 & _); [|intros s s'; apply build_gnu_note_inside|bytes_ok_kept].
    eapply staged_cons; [exact E8|exact F8|]. clear E8.
    pose proof E as W9. apply window_inside in W9 as (F9 & _); [|intros s s'; apply lb_build_dynamic_inside|bytes_ok_kept].
    eapply staged_cons; [exact E|exact F9|reflexivity]. }
  split.
  - apply (wrote_sub (List.concat (map fst (metadata_parts api imports ex all)))); [apply staged_wrote, S|lia|lia|rewrite Sz; vm_compute; discriminate|vm_compute; reflexivity].
  - apply staged_built; [exact S|vm_compute; reflexivity|rewrite Sz; vm_compute; reflexivity].
Qed.

(** ** The whole image *)

Definition attribution : string := "ps5-native-app-boilerplate clean-room libc by BlackBearReloaded".

(** The parts of the file, the metadata one of them. *)
Definition header_parts : list part := [
  ([(0, 9); (0x10, 0x18); (0x20, 0x28); (0x34, 0x3A)], build_elf_header);
  ([(0x28, 0x30)], fun f => lb_write_u64 f 0x28 0x194F18);
  ([(0x3A, 0x3C)], fun f => lb_write_u16 f 0x3A 0x40);
  ([(0x3C, 0x3E)], fun f => lb_write_u16 f 0x3C 0x26);
  ([(0x3E, 0x40)], fun f => lb_write_u16 f 0x3E 0x23);
  ([(0x40, 0x350)], build_program_headers)].
Definition segment_parts : list part := [
  ([(0xD0000, 0xD0004)], fun f => lb_write_u32 f kMarkerFileOffset 1);
  ([(0x108164, 0x10DF80)], build_unwind_header);
  ([(0x113CE8, 0x113D04)], build_module_param)].
Definition metadata_range : Z * Z := (kMetadataFileOffset, kMetadataFileOffset + kMetadataSize).
Definition data_parts (api : list ApiSymbol) (imports : list RuntimeImport) : list part := [
  ([metadata_range], fun f => window f kMetadataFileOffset kMetadataSize (fill_metadata api imports));
  ([(0x113870, 0x113878)], fun f => lb_write_u64 f kGotFileOffset (kMetadataAddress + kDynamicOffset));
  ([(0x113878, 0x113BA8)], fun f => fill_zeros f (kGotFileOffset + 8) ((kGotReservedEntries - 1 + kPltRelocationCount) * 8));
  ([(0x113CE0, 0x113CE8)], fun f => fill_zeros f kPreinitFileOffset 8);
  ([(0x114100, 0x114148)], fun f => fill_zeros f kHeapApiFileOffset kHeapApiSize)].
Definition tail_parts : list part := [
  ([(0x146210, 0x146268)], lb_build_comment);
  ([(0x146280, 0x14629A)], lb_build_version);
  ([(0xD0100, 0xD013F)], fun f => copy_ascii f (kMarkerFileOffset + 0x100) attribution)].
Definition runtime_parts (api : list ApiSymbol) (imports : list RuntimeImport) : list part :=
  header_parts ++ code_parts imports ++ segment_parts ++ data_parts api imports ++ tail_parts.

Ltac staged_more E :=
  let h := fresh "h" in let W := fresh "W" in let F := fresh "F" in
  apply bind_ok in E as (h & W & E); pose proof W as F;
  first [apply lb_write_u64_frame in F as (F & _) | apply lb_write_u16_frame in F as (F & _) | apply lb_write_u32_frame in F as (F & _)];
  eapply staged_cons; [exact W|exact F|]; clear W.

Lemma build_elf_header_wrote f g : build_elf_header f = Ok g -> wrote [(0, 9); (0x10, 0x18); (0x20, 0x28); (0x34, 0x3A)] f g.
Proof.
  intros E. unfold build_elf_header in E. unfold_layout. inv_writes E. change (size elf_magic) with 4 in *.
  repeat match goal with F : frame _ _ ?f ?g |- wrote _ ?f _ => apply (wrote_step _ _ _ _ _ _ F);
    [first [apply Exists_cons_hd; cbn; lia | apply Exists_cons_tl, Exists_cons_hd; cbn; lia | apply Exists_cons_tl, Exists_cons_tl, Exists_cons_hd; cbn; lia
           | apply Exists_cons_tl, Exists_cons_tl, Exists_cons_tl, Exists_cons_hd; cbn; lia]|] end.
  apply wrote_refl.
Qed.

Lemma build_module_param_span f g : build_module_param f = Ok g -> frame 0x113CE8 0x113D04 f g.
Proof. intros E. unfold build_module_param in E. unfold_layout. inv_writes E. chain_frames. Qed.

Lemma header_staged f g : (let! f := build_elf_header f in let! f := lb_write_u64 f 0x28 0x194F18 in let! f := lb_write_u16 f 0x3A 0x40 in
  let! f := lb_write_u16 f 0x3C 0x26 in let! f := lb_write_u16 f 0x3E 0x23 in build_program_headers f) = Ok g -> size f < 2 ^ 63 -> staged header_parts f g.
Proof.
  intros E Hs. apply bind_ok in E as (f1 & E1 & E). exists f1. split; [exact E1|]. apply build_elf_header_wrote in E1. split; [exact E1|].
  pose proof (wr_size _ _ _ E1) as S1. do 4 staged_more E.
  repeat match goal with F : frame _ _ _ _ |- _ => apply frame_size in F end.
  eapply staged_cons; [exact E|apply build_program_headers_frame; [exact E|lia]|reflexivity].
Qed.

Lemma segments_staged f g : (let! f := lb_write_u32 f kMarkerFileOffset 1 in let! f := build_unwind_header f in build_module_param f) = Ok g ->
  bytes_ok f -> staged segment_parts f g.
Proof.
  intros E Hf. unfold segment_parts. staged_more E. apply bind_ok in E as (f2 & E2 & E).
  eapply staged_cons; [exact E2|apply build_unwind_header_frame; [exact E2|bytes_ok_kept]|].
  eapply staged_cons; [exact E|apply build_module_param_span, E|reflexivity].
Qed.

Lemma metadata_frame f api imports g : window f kMetadataFileOffset kMetadataSize (fill_metadata api imports) = Ok g ->
  bytes_ok f -> size api + size imports < 2 ^ 32 -> frame (fst metadata_range) (snd metadata_range) f g.
Proof.
  intros E Hf Hn. apply window_frame in E as (F & _); [exact F| |exact Hf].
  intros s s' Es Hb Hs. apply fill_metadata_ok in Es as (S & B & _); [split; congruence|assumption|assumption].
Qed.

Lemma data_staged f api imports g : build_metadata f api imports = Ok g -> bytes_ok f -> size api + size imports < 2 ^ 32 -> staged (data_parts api imports) f g.
Proof.
  intros E Hf Hn. unfold build_metadata in E. unfold data_parts. apply bind_ok in E as (f1 & E1 & E).
  eapply staged_cons; [exact E1|exact (metadata_frame _ _ _ _ E1 Hf Hn)|]. staged_more E.
  assert (Z : forall at_ n f f', fill_zeros f at_ n = Ok f' -> 0 <= n -> frame at_ (at_ + n) f f').
  { intros at_ n x x' Eh N. unfold fill_zeros in Eh. apply copy_into_frame in Eh as (Fx & _); [|apply bytes_ok_zeros]. now rewrite size_zeros in Fx. }
  apply bind_ok in E as (f3 & E3 & E). eapply staged_cons; [exact E3|exact (Z _ _ _ _ E3 ltac:(vm_compute; discriminate))|].
  apply bind_ok in E as (f4 & E4 & E). eapply staged_cons; [exact E4|exact (Z _ _ _ _ E4 ltac:(lia))|].
  eapply staged_cons; [exact E|exact (Z _ _ _ _ E ltac:(vm_compute; discriminate))|reflexivity].
Qed.

Lemma tail_staged at_ f g : (let! f := lb_build_comment f in let! f := lb_build_version f in copy_ascii f at_ attribution) = Ok g ->
  at_ = kMarkerFileOffset + 0x100 -> bytes_ok f -> staged tail_parts f g.
Proof.
  intros E -> Hf. apply bind_ok in E as (f1 & E1 & E). unfold tail_parts. eapply staged_cons; [exact E1|apply lb_build_comment_frame; [exact E1|exact Hf]|].
  apply bind_ok in E as (f2 & E2 & E). eapply staged_cons; [exact E2|apply lb_build_version_frame, E2|].
  eapply staged_cons; [exact E| |reflexivity]. unfold copy_ascii in E. apply lb_copy_bytes_frame in E as (F & _); [exact F|apply bytes_ok_string].
Qed.

(** The build is its parts, one after another. *)
Lemma fill_runtime_staged f api imports file : fill_runtime f api imports = Ok file -> bytes_ok f -> size f = kRuntimeFileSize -> size api + size imports < 2 ^ 32 ->
  staged (runtime_parts api imports) f file.
Proof.
  intros E Hf Hs Hn. unfold fill_runtime in E. unfold kRuntimeFileSize in Hs.
  apply bind_ok in E as (f1 & E1 & E). apply bind_ok in E as (f2 & E2 & E). apply bind_ok in E as (f3 & E3 & E).
  apply bind_ok in E as (f4 & E4 & E). apply bind_ok in E as (f5 & E5 & E). apply bind_ok in E as (f6 & E6 & E).
  assert (H : staged header_parts f f6) by (apply header_staged; [rewrite E1; cbn [bind]; rewrite E2; cbn [bind]; rewrite E3; cbn [bind]; rewrite E4; cbn [bind]; rewrite E5; exact E6|lia]).
  clear E1 E2 E3 E4 E5 E6. pose proof (staged_wrote _ _ _ H) as W. pose proof (wr_size _ _ _ W) as S6. pose proof (wr_bytes _ _ _ W Hf) as B6. clear W.
  apply (staged_app _ _ _ _ _ H). clear H. apply bind_ok in E as (f7 & E7 & E). pose proof (build_code_staged _ _ _ E7 ltac:(lia)) as H.
  pose proof (staged_wrote _ _ _ H) as W. pose proof (wr_size _ _ _ W) as S7. pose proof (wr_bytes _ _ _ W B6) as B7. clear W E7.
  apply (staged_app _ _ _ _ _ H). clear H. apply bind_ok in E as (f8 & E8 & E). apply bind_ok in E as (f9 & E9 & E). apply bind_ok in E as (f10 & E10 & E).
  assert (H : staged segment_parts f7 f10) by (apply segments_staged; [rewrite E8; cbn [bind]; rewrite E9; exact E10|exact B7]).
  clear E8 E9 E10. pose proof (staged_wrote _ _ _ H) as W. pose proof (wr_size _ _ _ W) as S10. pose proof (wr_bytes _ _ _ W B7) as B10. clear W.
  apply (staged_app _ _ _ _ _ H). clear H. apply bind_ok in E as (f11 & E11 & E). pose proof (data_staged _ _ _ _ E11 B10 Hn) as H.
  pose proof (staged_wrote _ _ _ H) as W. pose proof (wr_bytes _ _ _ W B10) as B11. clear W E11.
  apply (staged_app _ _ _ _ _ H). exact (tail_staged _ _ _ E eq_refl B11).
Qed.

Lemma built_from pre rest : forall f file, built (pre ++ rest) f file -> exists g, size g = size f /\ (bytes_ok f -> bytes_ok g) /\ built rest g file.
Proof.
  induction pre as [|[rs p] pre IH]; intros f file B; cbn [app built] in B; [exists f; auto|].
  destruct B as (g & _ & [S O _] & _ & B). destruct (IH _ _ B) as (h & S' & O' & B'). exists h. split; [congruence|]. auto.
Qed.

(** Every part is in the finished image. *)
Lemma runtime_built api imports file : build_runtime api imports = Ok file -> size api + size imports < 2 ^ 32 ->
  built (runtime_parts api imports) (zeros kRuntimeFileSize) file /\
  exists span, metadata_built api imports span (sub file kMetadataFileOffset kMetadataSize).
Proof.
  intros E Hn. rewrite build_runtime_fills in E. assert (S0 : size (zeros kRuntimeFileSize) = kRuntimeFileSize) by (apply size_zeros; vm_compute; discriminate).
  pose proof (fill_runtime_staged _ _ _ _ E (bytes_ok_zeros _) S0 Hn) as St. pose proof (staged_built _ _ _ St) as B.
  rewrite S0 in B. specialize (B ltac:(vm_compute; reflexivity) ltac:(vm_compute; reflexivity)). split; [exact B|].
  unfold runtime_parts in B. apply built_from in B as (f1 & S1 & B1 & B). apply built_from in B as (f2 & S2 & B2 & B). apply built_from in B as (f3 & S3 & B3 & B).
  destruct B as (g & Em & _ & Kept & _). inversion Kept as [|r rs Kr _]. cbn [fst snd metadata_range] in Kr.
  replace (kMetadataFileOffset + kMetadataSize - kMetadataFileOffset) with kMetadataSize in Kr by lia. rewrite Kr. exists (sub f3 kMetadataFileOffset kMetadataSize).
  assert (Bf : bytes_ok f3) by (apply B3, B2, B1, bytes_ok_zeros).
  apply window_frame in Em as (_ & Ha & Hb & Hc & span & Es & ->); [| |exact Bf].
  2:{ clear - Hn. intros s s' E Hb Hs. apply fill_metadata_ok in E as (S & B & _); [split; congruence|assumption|assumption]. }
  apply fill_metadata_built; [exact Es|apply bytes_ok_sub, Bf|apply size_sub; lia|exact Hn].
Qed.
