(* ===== verification/LibcTotal.v ===== *)
(** * The runtime build succeeds

    For manifests that satisfy the decidable [runtime_ok], every bounds check,
    count check and placement check of [build_runtime] passes: it returns an
    image.  The storage it gives to exported objects is aligned, inside the
    data segment and disjoint. *)

From Stdlib Require Import ZArith List Bool Lia String Ascii.
From S2P Require Import Prelude Bytes Writes Hash LibcManifest LibcRuntime LibcEncoding LibcText LibcImage LibcParts.
Import ListNotations.
Open Scope Z_scope.

(** ** Writes that return *)

(** The operation returns, leaving a buffer of the same size. *)
Definition runs (n : Z) (m : outcome Bytes) : Prop := exists g, m = Ok g /\ size g = n.

Lemma runs_bind n (m : outcome Bytes) k :
  runs n m -> (forall g, size g = n -> runs n (k g)) -> runs n (bind m k).
Proof. intros (g & -> & S) H. cbn [bind]. apply H, S. Qed.

Lemma runs_eq m n x : runs m x -> m = n -> runs n x.
Proof. intros H <-. exact H. Qed.

Lemma runs_ok f : runs (size f) (Ok f).
Proof. exists f. auto. Qed.

Lemma runs_write_u32 f a v : 0 <= a -> a + 4 <= size f -> size f < 2 ^ 63 -> runs (size f) (lb_write_u32 f a v).
Proof.
  intros. rewrite lb_write_u32_ok by lia. eexists; split; [reflexivity|]. apply size_put; rewrite ?size_le_bytes; lia.
Qed.

Lemma runs_write_u64 f a v : 0 <= a -> a + 8 <= size f -> size f < 2 ^ 63 -> runs (size f) (lb_write_u64 f a v).
Proof.
  intros. rewrite lb_write_u64_ok by lia. eexists; split; [reflexivity|]. apply size_put; rewrite ?size_le_bytes; lia.
Qed.

Lemma runs_store f a v : 0 <= a < size f -> runs (size f) (store f a v).
Proof.
  intros. rewrite store_ok by lia. eexists; split; [reflexivity|]. apply size_put; rewrite ?size_cons, ?size_nil; lia.
Qed.

Lemma runs_write_u16 f a v : 0 <= a -> a + 2 <= size f -> size f < 2 ^ 63 -> runs (size f) (lb_write_u16 f a v).
Proof.
  intros. unfold lb_write_u16. rewrite u64_small by lia. rewrite self_check_true by lia.
  apply runs_bind; [apply runs_store; lia|]. intros g S. rewrite <- S. apply runs_store. lia.
Qed.

Lemma runs_copy f a src : 0 <= a -> a + size src <= size f -> size f < 2 ^ 63 -> runs (size f) (lb_copy_bytes f a src).
Proof. intros. rewrite lb_copy_bytes_ok by lia. eexists; split; [reflexivity|]. apply size_put; lia. Qed.

Lemma runs_copy_into f a src : 0 <= a -> a + size src <= size f -> runs (size f) (copy_into f a src).
Proof.
  intros. unfold copy_into. replace ((0 <=? a) && (a + size src <=? size f)) with true by lia.
  eexists; split; [reflexivity|]. apply size_put; lia.
Qed.

Lemma runs_window f a n body :
  0 <= a -> 0 <= n -> a + n <= size f -> (forall s, size s = n -> runs n (body s)) -> runs (size f) (window f a n body).
Proof.
  intros Ha Hn Hl H. unfold window. rewrite subspan_ok by assumption. cbn [bind].
  destruct (H (sub f a n)) as (s & -> & S); [apply size_sub; assumption|]. cbn [bind]. apply runs_copy_into; lia.
Qed.

Lemma runs_for_each {A} (body : Bytes -> A -> outcome Bytes) l n f :
  size f = n -> (forall f a, In a l -> size f = n -> runs n (body f a)) -> runs n (for_each body f l).
Proof.
  intros S H. revert f S; induction l as [|a l IH]; intros f S; cbn [for_each]; [exists f; auto|].
  apply runs_bind; [apply H; [left; reflexivity|exact S]|]. intros g Sg. apply IH; [|exact Sg].
  intros; apply H; [right|]; assumption.
Qed.

(** One write of a chain; the buffers' sizes are in the context for [lia]. *)
Ltac run_write := match goal with
  | |- runs ?n (lb_write_u16 ?f _ _) => apply (runs_eq (size f)); [apply runs_write_u16; lia|lia]
  | |- runs ?n (lb_write_u32 ?f _ _) => apply (runs_eq (size f)); [apply runs_write_u32; lia|lia]
  | |- runs ?n (lb_write_u64 ?f _ _) => apply (runs_eq (size f)); [apply runs_write_u64; lia|lia]
  | |- runs ?n (store ?f _ _) => apply (runs_eq (size f)); [apply runs_store; lia|lia]
  | |- runs ?n (lb_copy_bytes ?f _ ?s) => apply (runs_eq (size f)); [apply runs_copy;
      [lia|try (let k := eval vm_compute in (size s) in change (size s) with k); lia|lia]|lia]
  end.

Ltac run_chain := repeat (match goal with
  | |- runs _ (bind (self_check _ _) _) => rewrite self_check_true by lia
  | |- runs _ (bind _ _) => apply runs_bind; [run_write|intros ? ?]
  end); try run_write.

Lemma build_elf_header_runs f : 0x40 <= size f < 2 ^ 63 -> runs (size f) (build_elf_header f).
Proof. intros H. unfold build_elf_header. unfold_layout. run_chain. Qed.

Lemma build_program_headers_runs f : 0x350 <= size f < 2 ^ 63 -> runs (size f) (build_program_headers f).
Proof.
  intros H. unfold build_program_headers. apply runs_for_each; [reflexivity|]. intros g [i h] Hi S.
  apply in_combine_l, in_indices in Hi. cbn [fst snd]. unfold lb_write_program_header. cbv zeta. unfold_layout. run_chain.
Qed.

Lemma build_module_param_runs f : 0x113D08 <= size f < 2 ^ 63 -> runs (size f) (build_module_param f).
Proof. intros H. unfold build_module_param. cbv zeta. unfold_layout. run_chain. Qed.

Lemma build_unwind_header_runs f : 0x10DF80 <= size f -> runs (size f) (build_unwind_header f).
Proof.
  intros H. unfold build_unwind_header. unfold_layout. apply runs_window; [lia|lia|lia|]. intros s S. cbv zeta.
  assert (Z0 : size (zeros (size s)) = size s) by (apply size_zeros; lia). rewrite S in *. run_chain.
Qed.

Lemma lb_build_comment_runs f : 0x146268 <= size f -> runs (size f) (lb_build_comment f).
Proof.
  intros H. unfold lb_build_comment, copy_ascii. unfold_layout. apply runs_window; [lia|lia|lia|]. intros s S. run_chain.
Qed.

Lemma lb_build_version_runs f : 0x14629A <= size f < 2 ^ 63 -> runs (size f) (lb_build_version f).
Proof. intros H. unfold lb_build_version. unfold_layout. run_chain. Qed.

(** ** Code *)

(** The instruction's operand is within reach. *)
Definition code_ready (imports : list RuntimeImport) (c : Code) : bool :=
  match c with
  | Plain _ => true
  | Rip _ target => (0 <=? target) && (target <? 2 ^ 30)
  | RipSlot _ name => match import_slot imports name with Ok v => (0 <=? v) && (v <? 2 ^ 30) | _ => false end
  end.

Lemma rip_runs (f : Bytes) a opcode target :
  0 <= a -> a + (size opcode + 4) <= 0xC8092 -> 0xCC092 <= size f < 2 ^ 63 -> 0 <= target < 2 ^ 30 ->
  exists g, write_rip_relative_code (f, a) opcode target = Ok (g, a + (size opcode + 4)) /\ size g = size f.
Proof.
  intros Ha Hb Hs Ht. pose proof (size_nonneg opcode). unfold write_rip_relative_code. unfold_layout. cbv zeta.
  rewrite (s64_of_small target), (s64_of_small (a + size opcode + 4)), (u64_small (0x4000 + a)) by lia.
  rewrite self_check_true by lia. destruct (runs_copy f (0x4000 + a) opcode) as (g1 & -> & S1); [lia..|]. cbn [bind].
  rewrite (u64_small (0x4000 + a + size opcode)) by lia. unfold write_i32.
  match goal with |- context [lb_write_u32 g1 ?p ?v] => destruct (runs_write_u32 g1 p v) as (g2 & -> & S2); [lia..|] end.
  cbn [bind]. rewrite u64_small by lia. exists g2. split; [rewrite Z.add_assoc; reflexivity|lia].
Qed.

Lemma emit_runs imports (f : Bytes) a c :
  0 <= a -> a + code_size c <= 0xC8092 -> 0xCC092 <= size f < 2 ^ 63 -> code_ready imports c = true ->
  exists g, emit imports (f, a) c = Ok (g, a + code_size c) /\ size g = size f.
Proof.
  intros Ha Hb Hs Hr. destruct c as [code|opcode target|opcode name]; cbn [emit code_size code_ready] in *.
  - pose proof (size_nonneg code). unfold write_code. unfold_layout. cbv zeta. rewrite !(u64_small (0x4000 + a)) by lia.
    rewrite (u64_small (0x4000 + a + size code)) by lia. rewrite self_check_true by lia.
    destruct (runs_copy f (0x4000 + a) code) as (g & -> & S); [lia..|]. cbn [bind]. rewrite u64_small by lia. eauto.
  - apply rip_runs; lia.
  - destruct (import_slot imports name) as [v| |]; [|discriminate..]. cbn [bind]. apply rip_runs; lia.
Qed.

Lemma emit_all_runs imports cs (f : Bytes) a :
  0 <= a -> a + code_total cs <= 0xC8092 -> 0xCC092 <= size f < 2 ^ 63 -> forallb (code_ready imports) cs = true ->
  exists g, for_each (emit imports) (f, a) cs = Ok (g, a + code_total cs) /\ size g = size f.
Proof.
  intros Ha Hb Hs Hr. revert f a Ha Hb Hs; induction cs as [|c cs IH]; intros f a Ha Hb Hs; cbn [for_each code_total fold_right] in *.
  - exists f. rewrite Z.add_0_r. auto.
  - fold (code_total cs) in *. cbn [forallb] in Hr. apply andb_prop in Hr as [Hc Hr].
    pose proof (code_size_nonneg c). pose proof (code_total_nonneg cs).
    destruct (emit_runs imports f a c) as (g & -> & S); [lia|lia|lia|exact Hc|]. cbn [bind].
    destruct (IH Hr g (a + code_size c)) as (h & Eh & Sh); [lia..|]. rewrite Eh. exists h. rewrite Z.add_assoc. split; [reflexivity|lia].
Qed.

Lemma build_code_runs (f : Bytes) imports :
  0xCC092 <= size f < 2 ^ 63 -> forallb (code_ready imports) (preinit_code ++ init_code) = true ->
  runs (size f) (build_code f imports).
Proof.
  intros Hs Hr. rewrite forallb_app in Hr. apply andb_prop in Hr as [H1 H2]. unfold build_code.
  destruct (emit_all_runs imports preinit_code f 0x10) as (g & -> & S); [lia|vm_compute; discriminate|lia|exact H1|]. cbn [bind].
  destruct (emit_all_runs imports init_code g kInitAddress) as (h & -> & S'); [vm_compute; discriminate|vm_compute; discriminate|lia|exact H2|].
  cbn [bind]. rewrite self_check_true by reflexivity. unfold_layout. run_chain.
Qed.

(** ** Names *)

Lemma put_string_runs (f : Bytes) a v :
  0 <= a -> a + size (bytes_of_string v) < size f -> size f < 2 ^ 63 -> runs (size f) (put_string f a v).
Proof.
  intros. pose proof (size_nonneg (bytes_of_string v)). unfold put_string, copy_ascii. rewrite u64_small by lia.
  rewrite self_check_true by lia. apply runs_bind; [apply runs_copy; lia|]. intros g S. rewrite <- S. apply runs_store. lia.
Qed.

Lemma add_names_run {A} (body : NameState -> A -> outcome NameState) l s :
  (forall a, In a l -> exists name, (forall s, body s a = add_name s name) /\ size (bytes_of_string name) = 15) ->
  0 <= ns_cursor s -> ns_cursor s + 16 * size l <= size (ns_metadata s) -> size (ns_metadata s) < 2 ^ 63 ->
  exists s', for_each body s l = Ok s' /\ size (ns_metadata s') = size (ns_metadata s) /\
    ns_cursor s' = ns_cursor s + 16 * size l /\ size (ns_offsets s') = size (ns_offsets s) + size l /\
    size (ns_names s') = size (ns_names s) + size l.
Proof.
  intros H. revert s; induction l as [|a l IH]; intros s Hc Hl Hs; cbn [for_each].
  - exists s. rewrite (@size_nil A). repeat split; lia.
  - rewrite size_cons in Hl. rewrite size_cons. pose proof (size_nonneg l).
    destruct (H a (or_introl eq_refl)) as (name & E & N).
    rewrite E. unfold add_name, append_string.
    destruct (put_string_runs (ns_metadata s) (ns_cursor s) name) as (m & -> & Sm); [lia|lia|lia|]. cbn [bind].
    rewrite N, u64_small by lia. match goal with |- context [for_each body ?x l] => set (s1 := x) end.
    destruct (IH (fun b Hb => H b (or_intror Hb)) s1) as (s' & Es & I1 & I2 & I3 & I4); unfold s1; cbn [ns_cursor ns_metadata]; [lia..|].
    exists s'. split; [exact Es|]. unfold s1 in *. cbn [ns_cursor ns_metadata ns_offsets ns_names] in *.
    rewrite size_app, size_cons, (@size_nil Z) in I3. rewrite size_app, size_cons, (@size_nil string) in I4. repeat split; lia.
Qed.

Lemma size_bytes_append a b : size (bytes_of_string (a ++ b)) = size (bytes_of_string a) + size (bytes_of_string b).
Proof.
  induction a as [|c a IH]; [reflexivity|]. change (bytes_of_string (String c a ++ b)) with (byte_of_ascii c :: bytes_of_string (a ++ b)).
  change (bytes_of_string (String c a)) with (byte_of_ascii c :: bytes_of_string a). rewrite !size_cons, IH. lia.
Qed.

Lemma size_bytes_length s : size (bytes_of_string s) = Z.of_nat (String.length s).
Proof.
  induction s as [|c s IH]; [reflexivity|]. change (bytes_of_string (String c s)) with (byte_of_ascii c :: bytes_of_string s).
  rewrite size_cons, IH. cbn [String.length]. lia.
Qed.

Lemma export_name_size symbol : api_okb symbol = true -> size (bytes_of_string (export_name symbol)) = 15.
Proof.
  intros H. unfold api_okb in H. do 5 (apply andb_prop in H as [H _]). apply Nat.eqb_eq in H.
  unfold export_name. rewrite size_bytes_append, size_bytes_length, H. destruct (_ || _); reflexivity.
Qed.

(** ** Placement of exported symbols *)

(** The values [build_export_symbols] gives the symbols, and where its two
    cursors end. *)
Fixpoint placements (object_cursor tls_cursor : Z) (api : list ApiSymbol) : outcome (list Z * Z * Z) :=
  match api with
  | [] => Ok ([], object_cursor, tls_cursor)
  | symbol :: rest =>
      let! '(value, _, _, object_cursor, tls_cursor) := place_symbol object_cursor tls_cursor symbol in
      let! '(values, object_end, tls_end) := placements object_cursor tls_cursor rest in
      Ok (value :: values, object_end, tls_end)
  end.

Lemma lb_write_symbol_runs symbols i name info other section value size_ :
  0 <= i -> i * 24 + 24 <= size symbols -> size symbols < 2 ^ 63 ->
  runs (size symbols) (lb_write_symbol symbols i name info other section value size_).
Proof. intros. unfold lb_write_symbol. cbv zeta. rewrite !(u64_small (i * 24)), !(u64_small (i * 24 + 24)) by lia. run_chain. Qed.

Lemma vector_at_in {A} (l : list A) i : 0 <= i < size l -> exists a, vector_at l i = Ok a.
Proof.
  intros H. unfold vector_at. replace (i <? 0) with false by lia.
  destruct (nth_error l (Z.to_nat i)) eqn:E; [eauto|]. apply nth_error_None in E. unfold size in H. lia.
Qed.

Lemma export_symbols_run offsets l k s values oe te :
  placements (ex_object_cursor s) (ex_tls_cursor s) l = Ok (values, oe, te) ->
  0 <= k -> k + size l <= size offsets -> (k + size l + 1) * 24 <= size (ex_symbols s) -> size (ex_symbols s) < 2 ^ 63 ->
  exists s', for_each (export_symbol offsets) s (combine (indices k (List.length l)) l) = Ok s' /\
    size (ex_symbols s') = size (ex_symbols s) /\ ex_object_cursor s' = oe /\ ex_tls_cursor s' = te.
Proof.
  revert k s values; induction l as [|a l IH]; intros k s values P Hk Ho Hs Hl; cbn [placements] in P.
  - apply ok_inj, pair_inj in P as [P <-]. apply pair_inj in P as [_ <-]. exists s. auto.
  - rewrite size_cons in *. pose proof (size_nonneg l). cbn [List.length indices combine for_each]. unfold export_symbol at 1.
    destruct (place_symbol (ex_object_cursor s) (ex_tls_cursor s) a) as [[[[[v sec] other] oc] tc]| |]; [|discriminate..].
    cbn [bind] in P |- *. apply bind_ok in P as ([[vs oe'] te'] & P & E). apply ok_inj, pair_inj in E as [E <-].
    apply pair_inj in E as [_ <-]. destruct (vector_at_in offsets k ltac:(lia)) as [name ->]. cbn [bind].
    match goal with |- context [lb_write_symbol ?b ?i ?n ?f ?o ?c ?w ?z] =>
      destruct (lb_write_symbol_runs b i n f o c w z) as (g & -> & S); [lia..|] end. cbn [bind].
    match goal with |- context [for_each (export_symbol offsets) ?x _] => destruct (IH (k + 1) x vs) as (s' & -> & S' & O & T) end;
      cbn [ex_symbols ex_object_cursor ex_tls_cursor] in *; [exact P|lia..|]. exists s'. repeat split; [lia|assumption..].
Qed.

Definition storage_fits (api : list ApiSymbol) : bool :=
  match placements kObjectStorageOffset 0 api with
  | Ok (_, object_end, tls_end) => (object_end <=? kDataMemorySize) && (tls_end <=? 0x468)
  | _ => false
  end.

Lemma build_export_symbols_runs symbols api offsets :
  storage_fits api = true -> size api <= size offsets -> (size api + 1) * 24 <= size symbols -> size symbols < 2 ^ 63 ->
  runs (size symbols) (build_export_symbols symbols api offsets).
Proof.
  intros Hf Ho Hs Hl. unfold storage_fits in Hf.
  destruct (placements kObjectStorageOffset 0 api) as [[[vs oe] te]| |] eqn:P; [|discriminate..]. apply andb_prop in Hf as [H1 H2].
  unfold build_export_symbols, enumerate.
  destruct (export_symbols_run offsets api 0 {| ex_symbols := symbols; ex_object_cursor := kObjectStorageOffset; ex_tls_cursor := 0 |}
    vs oe te) as (s' & -> & S & O & T); cbn [ex_symbols ex_object_cursor ex_tls_cursor] in *; [exact P|lia..|].
  cbn [bind]. rewrite O, T. rewrite self_check_true by exact H1. rewrite self_check_true by exact H2.
  exists (ex_symbols s'). auto.
Qed.

(** ** Relocations *)

Lemma in_enumerate {A} (l : list A) i a : In (i, a) (enumerate l) -> 0 <= i < size l /\ In a l.
Proof.
  intros H. unfold enumerate in H. split; [apply in_combine_l, in_indices in H; unfold size; lia|apply in_combine_r in H; exact H].
Qed.

Lemma jump_relocations_run c l k (jumps : Bytes) j :
  0 <= j -> (j + plt_count l) * 24 <= size jumps -> size jumps < 2 ^ 63 ->
  exists g, for_each (jump_relocation c) (jumps, j) (combine (indices k (List.length l)) l) = Ok (g, j + plt_count l) /\
    size g = size jumps.
Proof.
  revert k jumps j; induction l as [|e l IH]; intros k jumps j Hj Hs Hl; cbn [List.length indices combine for_each].
  - exists jumps. change (plt_count []) with 0. rewrite Z.add_0_r. auto.
  - rewrite plt_count_cons in *. assert (0 <= plt_count l) by (unfold plt_count; apply size_nonneg). unfold jump_relocation at 1.
    destruct (import_plt e); cbn [negb].
    + cbv zeta. match goal with |- context [lb_write_u64 jumps ?p ?v] => destruct (runs_write_u64 jumps p v) as (g1 & -> & S1); [lia..|] end.
      cbn [bind]. match goal with |- context [lb_write_u64 g1 ?p ?v] => destruct (runs_write_u64 g1 p v) as (g2 & -> & S2); [lia..|] end.
      cbn [bind]. destruct (IH (k + 1) g2 (j + 1)) as (g & -> & S); [lia..|]. exists g. rewrite Z.add_assoc. split; [reflexivity|lia].
    + cbn [bind]. destruct (IH (k + 1) jumps j) as (g & -> & S); [lia..|]. exists g. split; [rewrite Z.add_0_l; reflexivity|lia].
Qed.

Lemma build_jumps_runs c imports (jumps : Bytes) :
  plt_count imports = kPltRelocationCount -> size jumps = kPltRelocationCount * 24 -> runs (size jumps) (build_jumps c imports jumps).
Proof.
  intros Hp Hs. unfold_layout. unfold build_jumps, enumerate.
  destruct (jump_relocations_run c imports 0 jumps 0) as (g & -> & S); [lia..|]. cbn [bind]. rewrite Hp. cbn [Z.add].
  rewrite self_check_true by reflexivity. exists g. auto.
Qed.

Definition glob_dat_names : list string := ["__stack_chk_guard"; "__pthread_cxa_finalize"; "__progname"]%string.

Definition glob_dat_ready (imports : list RuntimeImport) : bool :=
  forallb (fun name => glob_dat_index imports name <? size imports) glob_dat_names.

Lemma tls_relocation_runs (rela : Bytes) n t :
  0 <= n -> (n + 1) * 24 <= size rela -> size rela < 2 ^ 63 ->
  exists g, tls_relocation (rela, n) t = Ok (g, n + 1) /\ size g = size rela.
Proof.
  intros. unfold tls_relocation. cbv zeta. destruct (runs_write_u64 rela (n * 24) t) as (g1 & -> & S1); [lia..|]. cbn [bind].
  destruct (runs_write_u64 g1 (n * 24 + 8) 16) as (g2 & -> & S2); [lia..|]. cbn [bind]. exists g2. split; [reflexivity|lia].
Qed.

Lemma glob_dat_relocation_runs c imports (rela : Bytes) n name t :
  (glob_dat_index imports name <? size imports) = true -> 0 <= n -> (n + 1) * 24 <= size rela -> size rela < 2 ^ 63 ->
  exists g, glob_dat_relocation c imports (rela, n) (name, t) = Ok (g, n + 1) /\ size g = size rela.
Proof.
  intros Hg ? ? ?. unfold glob_dat_relocation. cbv zeta. rewrite self_check_true by exact Hg.
  destruct (runs_write_u64 rela (n * 24) t) as (g1 & -> & S1); [lia..|]. cbn [bind].
  match goal with |- context [lb_write_u64 g1 ?p ?v] => destruct (runs_write_u64 g1 p v) as (g2 & -> & S2); [lia..|] end.
  cbn [bind]. exists g2. split; [reflexivity|lia].
Qed.

Lemma build_rela_runs c imports (rela : Bytes) :
  glob_dat_ready imports = true -> size rela = relocation_count * 24 -> runs (size rela) (build_rela c imports rela).
Proof.
  intros Hg Hs. unfold glob_dat_ready, glob_dat_names in Hg. cbn [forallb] in Hg.
  apply andb_prop in Hg as [G1 Hg]. apply andb_prop in Hg as [G2 Hg]. apply andb_prop in Hg as [G3 _].
  unfold build_rela. unfold_layout. rewrite Hs. apply runs_bind.
  { apply runs_for_each; [lia|]. intros f i Hi S. apply in_indices in Hi. unfold relative_relocation. cbv zeta.
    change (Z.to_nat (1790 - 1)) with 1789%nat in Hi. run_chain. }
  intros r1 S1. cbv zeta. apply runs_bind; [run_write|intros r2 S2]. apply runs_bind; [run_write|intros r3 S3].
  apply runs_bind; [run_write|intros r4 S4]. cbn [for_each].
  destruct (tls_relocation_runs r4 1790 0x10F818) as (r5 & -> & S5); [lia..|]. cbn [bind].
  destruct (tls_relocation_runs r5 (1790 + 1) 0x10F828) as (r6 & -> & S6); [lia..|]. cbn [bind].
  destruct (tls_relocation_runs r6 (1790 + 1 + 1) 0x10F838) as (r7 & -> & S7); [lia..|]. cbn [bind].
  destruct (glob_dat_relocation_runs c imports r7 (1790 + 1 + 1 + 1) "__stack_chk_guard" 0x10F800 G1) as (r8 & -> & S8); [lia..|]. cbn [bind].
  destruct (glob_dat_relocation_runs c imports r8 (1790 + 1 + 1 + 1 + 1) "__pthread_cxa_finalize" 0x10F848 G2) as (r9 & -> & S9); [lia..|]. cbn [bind].
  destruct (glob_dat_relocation_runs c imports r9 (1790 + 1 + 1 + 1 + 1 + 1) "__progname" 0x10F850 G3) as (r10 & -> & S10); [lia..|]. cbn [bind].
  rewrite self_check_true by reflexivity. exists r10. split; [reflexivity|lia].
Qed.

(** ** Metadata *)

Lemma fixed_strings_run (m : Bytes) : 0xA7A3 <= size m < 2 ^ 63 ->
  runs (size m) (for_each (fun m e => put_string m (fst e) (snd e)) m fixed_strings).
Proof.
  intros H. apply runs_for_each; [reflexivity|]. intros f [a s] Hi S. rewrite <- S.
  assert (B : forallb (fun e => (0 <=? fst e) && (fst e + size (bytes_of_string (snd e)) <? 0xA7A3)) fixed_strings = true)
    by reflexivity.
  rewrite forallb_forall in B. specialize (B _ Hi). cbn [fst snd] in *. apply put_string_runs; lia.
Qed.

Lemma import_symbols_run c offsets (symbols : Bytes) imports :
  0 <= c -> size imports <= size offsets -> (c + 1 + size imports) * 24 <= size symbols -> size symbols < 2 ^ 63 ->
  runs (size symbols) (for_each (import_symbol c offsets) symbols (enumerate imports)).
Proof.
  intros. apply runs_for_each; [reflexivity|]. intros f [i e] Hi S. apply in_enumerate in Hi as [Hi _]. rewrite <- S.
  unfold import_symbol. destruct (vector_at_in offsets i ltac:(lia)) as [n ->]. cbn [bind]. apply lb_write_symbol_runs; lia.
Qed.

Lemma build_gnu_note_runs (note : Bytes) : size note = 0x24 -> runs (size note) (build_gnu_note note).
Proof.
  intros H. unfold build_gnu_note, copy_ascii. do 3 (apply runs_bind; [run_write|intros ? ?]).
  apply runs_bind; [run_write|intros ? ?].
  destruct (sha256_total (bytes_of_string "ps5-native-app-boilerplate clean-room runtime")) as (d & -> & Sd & _). cbn [bind].
  assert (S20 : size (firstn 20 d) = 20) by (unfold size in *; rewrite length_firstn; lia).
  apply (runs_eq (size g2)); [apply runs_copy; lia|lia].
Qed.

Lemma lb_build_dynamic_runs (dynamic : Bytes) n : size dynamic = kDynamicCount * 16 -> runs (size dynamic) (lb_build_dynamic dynamic n).
Proof.
  intros H. unfold lb_build_dynamic. cbv zeta. assert (E : size (lb_dynamic_entries n) = 44) by reflexivity.
  unfold_layout. rewrite self_check_true by (rewrite E; reflexivity). apply runs_for_each; [reflexivity|].
  intros f [i e] Hi S. apply in_enumerate in Hi as [Hi _]. cbn [fst snd]. unfold write_i64. rewrite E in Hi. run_chain.
Qed.

(** Manifests the builder accepts all the way. *)
Definition runtime_ok (api : list ApiSymbol) (imports : list RuntimeImport) : bool :=
  (size api =? kExportCount) && (size imports =? kImportCount) && forallb api_okb api &&
  forallb (fun e => Nat.eqb (String.length (import_suffix e)) 4) imports &&
  (plt_count imports =? kPltRelocationCount) && storage_fits api &&
  forallb (code_ready imports) (preinit_code ++ init_code) && glob_dat_ready imports.

Lemma fill_metadata_runs api imports (m : Bytes) :
  runtime_ok api imports = true -> size m = kMetadataSize -> runs (size m) (fill_metadata api imports m).
Proof.
  intros Hr Hm. unfold runtime_ok in Hr. repeat (apply andb_prop in Hr as [Hr ?]). to_prop.
  unfold kExportCount, kImportCount in *. unfold fill_metadata.
  destruct (add_names_run add_export_name api
    {| ns_metadata := m; ns_cursor := 1; ns_offsets := []; ns_names := [EmptyString] |}) as (ex & -> & X1 & X2 & X3 & X4);
    cbn [ns_metadata ns_cursor ns_offsets ns_names] in *; [|lia|unfold_layout; lia|unfold_layout; lia|].
  { intros a Ha. exists (export_name a). split; [reflexivity|]. apply export_name_size.
    match goal with H : forallb api_okb api = true |- _ => rewrite forallb_forall in H; apply H, Ha end. }
  cbn [bind].
  destruct (add_names_run add_import_name imports
    {| ns_metadata := ns_metadata ex; ns_cursor := ns_cursor ex; ns_offsets := []; ns_names := ns_names ex |})
    as (all & -> & Y1 & Y2 & Y3 & Y4); cbn [ns_metadata ns_cursor ns_offsets ns_names] in *; [|lia|unfold_layout; lia|unfold_layout; lia|].
  { intros e He. destruct (nid_eleven (import_name e)) as (s & Es & Ls). exists (s ++ import_suffix e)%string. split.
    - intros st. unfold add_import_name. rewrite compute_nid_nid, Es. reflexivity.
    - match goal with H : forallb (fun e => Nat.eqb _ 4) imports = true |- _ => rewrite forallb_forall in H; specialize (H e He); apply Nat.eqb_eq in H;
        rewrite size_bytes_append, !size_bytes_length, Ls, H; reflexivity end. }
  cbn [bind]. change (size [""%string]) with 1 in X4. change (size (@nil Z)) with 0 in *. rewrite self_check_true by lia.
  unfold_layout.
  apply runs_bind; [apply (runs_eq (size (ns_metadata all))); [apply fixed_strings_run; lia|lia]|]. intros m3 S3. cbv zeta.
  rewrite u64_small by lia. rewrite self_check_true by lia.
  apply runs_bind; [|intros m4 S4].
  { apply (runs_eq (size m3)); [|exact S3]. apply runs_window; [lia|lia|lia|]. intros s Ss. apply runs_bind.
    - rewrite <- Ss. apply build_export_symbols_runs; [assumption|lia|lia|lia].
    - intros g Sg. rewrite <- Sg. apply import_symbols_run; lia. }
  apply runs_bind; [|intros m5 S5].
  { apply (runs_eq (size m4)); [|exact S4]. apply runs_window; [lia|lia|lia|]. intros s Ss. rewrite <- Ss.
    apply build_jumps_runs; unfold_layout; assumption. }
  apply runs_bind; [|intros m6 S6].
  { apply (runs_eq (size m5)); [|exact S5]. apply runs_window; [lia|lia|lia|]. intros s Ss. rewrite <- Ss.
    apply build_rela_runs; unfold_layout; assumption. }
  destruct (sysv_hash_agree (ns_names all) ltac:(lia)) as (table & _ & -> & St). cbn [bind].
  rewrite self_check_true by lia. apply runs_bind; [apply (runs_eq (size m6)); [apply runs_copy; lia|exact S6]|]. intros m7 S7.
  rewrite self_check_true by lia. apply runs_bind; [|intros m8 S8].
  { apply (runs_eq (size m7)); [|exact S7]. apply runs_window; [lia|lia|lia|]. intros s Ss. rewrite <- Ss. apply build_gnu_note_runs. exact Ss. }
  apply (runs_eq (size m8)); [|exact S8]. apply runs_window; [lia|lia|lia|]. intros s Ss. rewrite <- Ss. apply lb_build_dynamic_runs. exact Ss.
Qed.

Lemma build_metadata_runs (f : Bytes) api imports :
  runtime_ok api imports = true -> size f = 0x14629A -> runs (size f) (build_metadata f api imports).
Proof.
  intros Hr Hs. unfold build_metadata, fill_zeros. unfold_layout. apply runs_bind.
  { apply runs_window; [lia|lia|lia|]. intros s Ss. rewrite <- Ss. apply fill_metadata_runs; assumption. }
  intros f1 S1. apply runs_bind; [run_write|intros f2 S2].
  apply runs_bind; [apply (runs_eq (size f2)); [apply runs_copy_into; rewrite ?size_zeros; lia|exact S2]|intros f3 S3].
  apply runs_bind; [apply (runs_eq (size f3)); [apply runs_copy_into; rewrite ?size_zeros; lia|exact S3]|intros f4 S4].
  apply (runs_eq (size f4)); [apply runs_copy_into; rewrite ?size_zeros; lia|exact S4].
Qed.

Lemma fill_runtime_runs (f : Bytes) api imports :
  runtime_ok api imports = true -> size f = 0x14629A -> runs (size f) (fill_runtime f api imports).
Proof.
  intros Hr Hs. pose proof Hr as Hc. unfold runtime_ok in Hc. apply andb_prop in Hc as [Hc _]. apply andb_prop in Hc as [_ Hc].
  unfold fill_runtime. apply runs_bind; [apply build_elf_header_runs; lia|intros f1 S1].
  apply runs_bind; [run_write|intros f2 S2]. apply runs_bind; [run_write|intros f3 S3].
  apply runs_bind; [run_write|intros f4 S4]. apply runs_bind; [run_write|intros f5 S5].
  apply runs_bind; [apply (runs_eq (size f5)); [apply build_program_headers_runs; lia|exact S5]|intros f6 S6].
  apply runs_bind; [apply (runs_eq (size f6)); [apply build_code_runs; [lia|exact Hc]|exact S6]|intros f7 S7].
  unfold_layout. apply runs_bind; [run_write|intros f8 S8].
  apply runs_bind; [apply (runs_eq (size f8)); [apply build_unwind_header_runs; lia|exact S8]|intros f9 S9].
  apply runs_bind; [apply (runs_eq (size f9)); [apply build_module_param_runs; lia|exact S9]|intros f10 S10].
  apply runs_bind; [apply (runs_eq (size f10)); [apply build_metadata_runs; [exact Hr|lia]|exact S10]|intros f11 S11].
  apply runs_bind; [apply (runs_eq (size f11)); [apply lb_build_comment_runs; lia|exact S11]|intros f12 S12].
  apply runs_bind; [apply (runs_eq (size f12)); [apply lb_build_version_runs; lia|exact S12]|intros f13 S13].
  unfold copy_ascii. run_write.
Qed.

(** C22: For every pair of manifests that satisfies the decidable
    [runtime_ok], [build_runtime] returns an image - every bounds check, count
    check, placement check and displacement check on the way passes - of the
    right size, which the builder's own verification of the fixed fields
    accepts; and no part of the build writes over another.  The image is the
    file's twenty-seven parts written one after another into a cleared buffer -
    the headers, each routine, the segments' data, the metadata, the notes and
    the attribution - each inside ranges of its own that have no byte in common
    with another part's, and holds at the end what each of them wrote; and so
    it is of the metadata's span, with its names and its seven tables. *)
Theorem runtime_build_succeeds api imports :
  runtime_ok api imports = true ->
  exists file, build_runtime api imports = Ok file /\ size file = kRuntimeFileSize /\
    verify_fields file api imports = Ok tt /\
    built (runtime_parts api imports) (zeros kRuntimeFileSize) file /\ parts_apart (map fst (runtime_parts api imports)) = true /\
    exists span, metadata_built api imports span (sub file kMetadataFileOffset kMetadataSize).
Proof.
  intros Hr. assert (S0 : size (zeros kRuntimeFileSize) = 0x14629A) by (apply size_zeros; unfold kRuntimeFileSize; lia).
  destruct (fill_runtime_runs _ _ _ Hr S0) as (file & E & S). rewrite <- build_runtime_fills in E.
  assert (Hn : size api + size imports < 2 ^ 32).
  { unfold runtime_ok in Hr. repeat (apply andb_prop in Hr as [Hr ?]). unfold kExportCount, kImportCount in *. to_prop. lia. }
  exists file. split; [exact E|]. split; [rewrite S, S0; reflexivity|]. split; [apply (runtime_image_fields _ _ _ E Hn)|].
  destruct (runtime_built _ _ _ E Hn) as [B M]. split; [exact B|]. split; [vm_compute; reflexivity|exact M].
Qed.

Lemma runtime_build_succeeds_witness :
  exists file, build_runtime sample_api sample_runtime_imports = Ok file /\ size file = kRuntimeFileSize /\
    verify_fields file sample_api sample_runtime_imports = Ok tt /\
    sub file 0xD0100 0x3F = bytes_of_string attribution.
Proof.
  destruct (runtime_build_succeeds sample_api sample_runtime_imports) as (file & E & S & V & B & _); [vm_compute; reflexivity|].
  exists file. split; [exact E|]. split; [exact S|]. split; [exact V|].
  unfold runtime_parts in B. do 4 apply built_from in B as (? & _ & _ & B). destruct B as (? & _ & _ & _ & ? & _ & _ & _ & g & W & _ & K & _).
  inversion K as [|r rs Kr _]. etransitivity; [exact Kr|]. apply lb_copy_bytes_frame in W as (_ & _ & W); [exact W|apply bytes_ok_string].
Defined.

(** ** Storage of exported objects *)

Definition is_object (s : ApiSymbol) : bool := (api_type s =? 1) && negb (String.eqb (api_nid s) "P330P3dFF68").
Definition is_tls (s : ApiSymbol) : bool := api_type s =? 6.

(** The bytes an object occupies: at least one. *)
Definition extent (s : ApiSymbol) : Z := Z.max (api_size s) 1.

Definition small_size (s : ApiSymbol) : bool := (0 <=? api_size s) && (api_size s <? 2 ^ 32).

Lemma align_8 c : 0 <= c < 2 ^ 62 -> c <= lb_align_up c 8 < c + 8 /\ lb_align_up c 8 mod 8 = 0.
Proof. intros. unfold lb_align_up. apply (align_up_mask_bounds c 3); lia. Qed.

Lemma tls_align c : 0 <= c < 2 ^ 62 -> Z.land (u64 (c + 7)) (u64 (Z.lnot 7)) = lb_align_up c 8.
Proof. intros. unfold lb_align_up, align_up_mask. replace (c + 8 - 1) with (c + 7) by lia. reflexivity. Qed.

(** The three ways a symbol is placed. *)
Lemma place_symbol_spec oc tc s r :
  place_symbol oc tc s = Ok r -> small_size s = true -> 0 <= oc < 2 ^ 62 -> 0 <= tc < 2 ^ 62 ->
  exists v sec other oc' tc', r = (v, sec, other, oc', tc') /\ 0 <= v < 2 ^ 63 /\
    oc <= oc' <= oc + 2 ^ 33 /\ tc <= tc' <= tc + 2 ^ 33 /\
    (is_object s = true -> kDataAddress + oc <= v /\ v mod 8 = 0 /\ v + extent s <= kDataAddress + oc') /\
    (is_tls s = true -> tc <= v /\ v mod 8 = 0 /\ v + extent s <= tc').
Proof.
  unfold place_symbol, is_object, is_tls, small_size, extent, kDataAddress, kMarkerAddress. intros E Hz Ho Ht.
  destruct (align_8 oc Ho) as [A1 A2]. destruct (align_8 tc Ht) as [A3 A4]. rewrite (tls_align tc Ht) in E.
  apply andb_prop in Hz as [Z1 Z2]. apply Z.leb_le in Z1. apply Z.ltb_lt in Z2.
  destruct (api_type s =? 2) eqn:T2.
  { apply ok_inj in E. exists (if String.eqb (api_nid s) "+F+9hhi6k9Q" then 0x30 else if String.eqb (api_nid s) "sjpkrhugvVI" then 0x40 else 0x50), 3, 0, oc, tc.
    split; [congruence|]. apply Z.eqb_eq in T2. rewrite T2. repeat split; try discriminate; try lia; destruct (String.eqb _ _); try destruct (String.eqb _ _); lia. }
  destruct ((api_type s =? 1) && String.eqb (api_nid s) "P330P3dFF68") eqn:M.
  { apply ok_inj in E. apply andb_prop in M as [M1 M2]. rewrite M1, M2. apply Z.eqb_eq in M1. rewrite M1.
    exists 0xCC000, 6, 3, oc, tc. split; [congruence|]. repeat split; try discriminate; lia. }
  destruct (api_type s =? 1) eqn:T1.
  { apply ok_inj in E. cbn [andb] in M. rewrite M. apply Z.eqb_eq in T1. rewrite T1. rewrite !u64_small in E by lia.
    eexists _, _, _, _, _. split; [symmetry; exact E|]. repeat split; try discriminate; try lia.
    rewrite <- (Z.add_mod_idemp_l 0x110000) by lia. change (0x110000 mod 8) with 0. rewrite Z.add_0_l. exact A2. }
  destruct (api_type s =? 6) eqn:T6; [|discriminate].
  apply ok_inj in E. rewrite u64_small in E by lia. eexists _, _, _, _, _. split; [symmetry; exact E|]. cbn [andb].
  repeat split; try discriminate; lia || exact A4.
Qed.

(** Where placements may be: above the cursors at the start, below those at
    the end, and each above all that come before it. *)
Record placed (oc tc oe te : Z) (l : list ApiSymbol) (vs : list Z) : Prop := {
  pl_length : List.length vs = List.length l;
  pl_cursors : oc <= oe /\ tc <= te;
  pl_range : Forall (fun v => 0 <= v < 2 ^ 63) vs;
  pl_object : forall i a v, nth_error l i = Some a -> nth_error vs i = Some v -> is_object a = true ->
    kDataAddress + oc <= v /\ v mod 8 = 0 /\ v + extent a <= kDataAddress + oe;
  pl_tls : forall i a v, nth_error l i = Some a -> nth_error vs i = Some v -> is_tls a = true ->
    tc <= v /\ v mod 8 = 0 /\ v + extent a <= te;
  pl_disjoint : forall i j a b v w, (i < j)%nat -> nth_error l i = Some a -> nth_error vs i = Some v ->
    nth_error l j = Some b -> nth_error vs j = Some w ->
    (is_object a = true -> is_object b = true -> v + extent a <= w) /\
    (is_tls a = true -> is_tls b = true -> v + extent a <= w)
}.

Lemma placements_placed l oc tc vs oe te :
  placements oc tc l = Ok (vs, oe, te) -> forallb small_size l = true -> 0 <= oc -> 0 <= tc ->
  oc + size l * 2 ^ 33 < 2 ^ 62 -> tc + size l * 2 ^ 33 < 2 ^ 62 -> placed oc tc oe te l vs.
Proof.
  revert oc tc vs; induction l as [|s l IH]; intros oc tc vs P Hz Ho Ht Bo Bt; cbn [placements] in P.
  - apply ok_inj, pair_inj in P as [P <-]. apply pair_inj in P as [<- <-].
    split; [reflexivity|lia|apply Forall_nil|intros [|i]; discriminate|intros [|i]; discriminate|intros [|i]; discriminate].
  - rewrite size_cons in *. pose proof (size_nonneg l). cbn [forallb] in Hz. apply andb_prop in Hz as [Hs Hz].
    apply bind_ok in P as (r & Pr & P). destruct (place_symbol_spec _ _ _ _ Pr Hs) as (v & sec & other & oc1 & tc1 & -> & V & O & T & PO & PT); [lia..|].
    apply bind_ok in P as ([[vs1 oe1] te1] & P & E). apply ok_inj, pair_inj in E as [E <-]. apply pair_inj in E as [<- <-].
    destruct (IH _ _ _ P Hz) as [L C R QO QT QD]; [lia..|]. split.
    + cbn. congruence.
    + lia.
    + constructor; assumption.
    + intros [|i] a w Ha Hw Hob; cbn in Ha, Hw; [injection Ha as <-; injection Hw as <-; specialize (PO Hob)|specialize (QO i a w Ha Hw Hob)]; repeat split; try apply PO; try apply QO; lia.
    + intros [|i] a w Ha Hw Hob; cbn in Ha, Hw; [injection Ha as <-; injection Hw as <-; specialize (PT Hob)|specialize (QT i a w Ha Hw Hob)]; repeat split; try apply PT; try apply QT; lia.
    + intros [|i] [|j] a b w x Hij Ha Hw Hb Hx; try lia; cbn in Ha, Hw, Hb, Hx.
      * injection Ha as <-. injection Hw as <-. split; intros H1 H2.
        -- specialize (PO H1). specialize (QO j b x Hb Hx H2). lia.
        -- specialize (PT H1). specialize (QT j b x Hb Hx H2). lia.
      * apply (QD i j a b w x); lia || assumption.
Qed.

(** The value stored in the symbol's record. *)
Definition symbol_value (table : Bytes) (i : nat) : Z := field table ((Z.of_nat i + 1) * 24 + 8) 8.

Lemma export_symbols_values offsets l k s s' :
  for_each (export_symbol offsets) s (combine (indices k (List.length l)) l) = Ok s' ->
  0 <= k -> k + size l < 2 ^ 40 ->
  exists vs, placements (ex_object_cursor s) (ex_tls_cursor s) l = Ok (vs, ex_object_cursor s', ex_tls_cursor s') /\
    frame ((k + 1) * 24) (size (ex_symbols s)) (ex_symbols s) (ex_symbols s') /\
    forall i v, nth_error vs i = Some v -> field (ex_symbols s') ((k + Z.of_nat i + 1) * 24 + 8) 8 = u64 v.
Proof.
  revert k s; induction l as [|a l IH]; intros k s E Hk Hb; cbn [List.length indices combine for_each placements] in *.
  - apply ok_inj in E. subst. exists []. split; [reflexivity|]. split; [apply frame_refl|]. intros i v Hi. destruct i; discriminate.
  - rewrite size_cons in Hb. pose proof (size_nonneg l). apply bind_ok in E as (s1 & E1 & E). unfold export_symbol in E1.
    apply bind_ok in E1 as ([[[[v sec] other] oc] tc] & P & E1). apply bind_ok in E1 as (name & _ & E1).
    apply bind_ok in E1 as (g & W & E1). apply ok_inj in E1. subst s1.
    apply lb_write_symbol_frame in W as (F & B & V); [|lia]. rewrite P. cbn [bind].
    destruct (IH (k + 1) _ E) as (vs & Pl & Fr & Q); [lia|lia|]. cbn [ex_symbols ex_object_cursor ex_tls_cursor] in *.
    rewrite Pl. cbn [bind]. exists (v :: vs). split; [reflexivity|]. pose proof (frame_size _ _ _ _ F) as S. rewrite S in Fr. split.
    + apply (frame_step _ _ _ _ _ _ _ F); [lia|lia|]. apply (frame_weaken _ _ _ _ _ _) with (3 := Fr); lia.
    + intros [|i] w Hw; cbn in Hw.
      * injection Hw as <-. rewrite (frame_field _ _ _ _ _ _ Fr) by lia.
        unfold field. replace ((k + Z.of_nat 0 + 1) * 24 + 8) with ((k + 1) * 24 + 8) by lia. rewrite V, le_value_bytes. reflexivity.
      * rewrite <- (Q i w Hw). f_equal. lia.
Qed.

(** The storage the builder gives to exported objects is sound: when
    [build_export_symbols] accepts a manifest whose sizes are below 4 GiB, the
    symbol table it wrote gives every object an 8-aligned range inside the
    data segment's memory and every thread-local object one inside the TLS
    segment, and no two objects of a segment overlap. *)
Theorem export_storage_disjoint symbols api offsets symbols' :
  build_export_symbols symbols api offsets = Ok symbols' -> forallb small_size api = true -> size api < 2 ^ 20 ->
  (forall i a, nth_error api i = Some a -> is_object a = true ->
     let v := symbol_value symbols' i in
     kDataAddress + kObjectStorageOffset <= v /\ v mod 8 = 0 /\ v + extent a <= kDataAddress + kDataMemorySize) /\
  (forall i a, nth_error api i = Some a -> is_tls a = true ->
     let v := symbol_value symbols' i in 0 <= v /\ v mod 8 = 0 /\ v + extent a <= 0x468) /\
  (forall i j a b, (i < j)%nat -> nth_error api i = Some a -> nth_error api j = Some b ->
     (is_object a = true /\ is_object b = true) \/ (is_tls a = true /\ is_tls b = true) ->
     symbol_value symbols' i + extent a <= symbol_value symbols' j).
Proof.
  intros E Hz Hn. unfold build_export_symbols in E. apply bind_ok in E as (s & E1 & E).
  apply self_check_bind_ok in E as [G1 E]. apply self_check_bind_ok in E as [G2 E]. apply ok_inj in E. subst symbols'. to_prop.
  destruct (export_symbols_values offsets api 0 _ s E1) as (vs & P & _ & Q); [lia|lia|]. cbn [ex_object_cursor ex_tls_cursor] in P.
  pose proof (size_nonneg api).
  destruct (placements_placed _ _ _ _ _ _ P Hz) as [L _ R QO QT QD]; [unfold kObjectStorageOffset; lia..|].
  assert (V : forall i a, nth_error api i = Some a -> exists v, nth_error vs i = Some v /\ symbol_value (ex_symbols s) i = v).
  { intros i a Hi. assert (Hl : (i < List.length vs)%nat) by (rewrite L; apply nth_error_Some; congruence).
    destruct (nth_error vs i) as [v|] eqn:Ev; [|apply nth_error_None in Ev; lia]. exists v. split; [reflexivity|].
    unfold symbol_value. rewrite <- (u64_small v); [apply (Q i v Ev)|].
    rewrite Forall_forall in R. specialize (R v (nth_error_In _ _ Ev)). lia. }
  split; [|split].
  - intros i a Hi Ho. destruct (V i a Hi) as (v & Ev & ->). specialize (QO i a v Hi Ev Ho). cbv zeta. repeat split; try apply QO. lia.
  - intros i a Hi Ho. destruct (V i a Hi) as (v & Ev & ->). specialize (QT i a v Hi Ev Ho). cbv zeta. repeat split; try apply QT. lia.
  - intros i j a b Hij Hi Hj Hc. destruct (V i a Hi) as (v & Ev & ->). destruct (V j b Hj) as (w & Ew & ->).
    destruct (QD i j a b v w Hij Hi Ev Hj Ew) as [D1 D2]. destruct Hc as [[? ?]|[? ?]]; auto.
Qed.

Definition sample_exports : list ApiSymbol :=
  [{| api_nid := "aaaaaaaaaaa"; api_binding := 1; api_type := 1; api_size := 13 |};
   {| api_nid := "bbbbbbbbbbb"; api_binding := 1; api_type := 2; api_size := 0 |};
   {| api_nid := "ccccccccccc"; api_binding := 1; api_type := 1; api_size := 0 |}].

Lemma export_storage_disjoint_witness :
  exists symbols', build_export_symbols (zeros 96) sample_exports [1; 17; 33] = Ok symbols' /\
    symbol_value symbols' 0 + 13 <= symbol_value symbols' 2.
Proof.
  assert (T : match build_export_symbols (zeros 96) sample_exports [1; 17; 33] with Ok _ => true | _ => false end = true)
    by (vm_compute; reflexivity).
  destruct (build_export_symbols (zeros 96) sample_exports [1; 17; 33]) as [symbols'| |] eqn:E; [|discriminate T..].
  exists symbols'. split; [reflexivity|].
  destruct (export_storage_disjoint (zeros 96) sample_exports [1; 17; 33] symbols' E) as (_ & _ & D); [reflexivity|reflexivity|].
  apply (D 0%nat 2%nat {| api_nid := "aaaaaaaaaaa"; api_binding := 1; api_type := 1; api_size := 13 |}
    {| api_nid := "ccccccccccc"; api_binding := 1; api_type := 1; api_size := 0 |}); [lia|reflexivity|reflexivity|left; split; reflexivity].
Defined.

(** The bound on sizes is needed: the cursor is a 64-bit sum, so an object of
    2^64 - 0x180 bytes brings it back to zero and the check of the total
    accepts the manifest. *)
Example export_storage_wraps :
  match build_export_symbols (zeros 48)
    [{| api_nid := "aaaaaaaaaaa"; api_binding := 1; api_type := 1; api_size := 2 ^ 64 - 0x180 |}] [1] with
  | Ok table => symbol_value table 0 =? kDataAddress + kObjectStorageOffset
  | _ => false
  end = true.
Proof. vm_compute. reflexivity. Qed.
