(* ===== verification/BrokerProtocol.v ===== *)
(** * The GPU broker's protocol ([src/tooling/gpu-broker/protocol.h], [staging.h], [completion.h], [frame_page.h])

    The checks every request of a client passes before the broker acts on it,
    the classes of staging buffers and the pool of spare ones, and the packet
    that ends a submission. *)

From Stdlib Require Import ZArith List Bool Lia Permutation.
From S2P Require Import Prelude Bytes.
Import ListNotations.
Open Scope Z_scope.

Definition PW_GPU_MAGIC : Z := 0x47505233.
Definition PW_GPU_LIMIT : Z := Z.shiftl 128 20.
Definition PW_GPU_ALIGNMENT_MAX : Z := Z.shiftl 2 20.
Definition PW_GPU_ALLOC_LOCAL : Z := 1.
Definition PW_GPU_ALLOC_ZERO : Z := 2.
Definition PW_GPU_HOST_WINDOW_BASE : Z := 0x240000000.
Definition PW_GPU_HOST_WINDOW_BYTES : Z := Z.shiftl 512 20.
Definition PW_GPU_HOST_HIGH_BASE : Z := 0x3000000000.
Definition PW_GPU_HOST_HIGH_BYTES : Z := Z.shiftl 16 30.
Definition PW_GPU_PRESENT_SHOWN : Z := 2.

(** The operations of the protocol, in the order of the enumeration. *)
Inductive operation : Type :=
| PW_GPU_INIT | PW_GPU_ALLOC | PW_GPU_FREE | PW_GPU_SUBMIT | PW_GPU_TESS | PW_GPU_OFFCHIP | PW_GPU_DONE | PW_GPU_IMAGE
| PW_GPU_PRESENT | PW_GPU_SWAPCHAIN | PW_GPU_WINDOW_SWAPCHAIN | PW_GPU_TIMING | PW_GPU_PRESENT_LINK
| PW_GPU_VRANGE_RESERVE | PW_GPU_VRANGE_RELEASE | PW_GPU_VRANGE_BIND | PW_GPU_VRANGE_UNBIND
| PW_GPU_OTHER.

Record PwGpuMessage := {
  m_magic : Z;
  m_operation : operation;
  m_sequence : Z;
  m_status : Z;
  m_address : Z;
  m_bytes : Z;
  m_arg0 : Z;
  m_arg1 : Z;
  m_arg2 : Z;
  m_arg3 : Z
}.

Definition INT32_MAX : Z := 2 ^ 31 - 1.
Definition UINT64_MAX : Z := 2 ^ 64 - 1.

Definition pw_gpu_client_pid (expected requested owner : Z) : bool :=
  (0 <=? expected) && (0 <? requested) && (requested <=? INT32_MAX) &&
  (negb (requested =? u64 owner) || (expected =? owner)) &&
  ((expected =? 0) || (requested =? u64 expected)).

(** [uint32_t] reads of an argument's halves. *)
Definition low32 (x : Z) : Z := u32 x.
Definition high32 (x : Z) : Z := Z.shiftr x 32.

Definition present_flags_ok (argument : Z) : bool :=
  Z.land argument (u64 (Z.lnot PW_GPU_PRESENT_SHOWN)) <=? 1.

Definition pw_gpu_window_image (m : PwGpuMessage) : bool :=
  let width := low32 (m_arg0 m) in
  let height := high32 (m_arg0 m) in
  let stride := low32 (m_arg1 m) in
  let hwnd := high32 (m_arg1 m) in
  negb (width =? 0) && (width <=? 2176) && negb (height =? 0) && (height <=? 1408) &&
  (u32 (width * 4) <=? stride) && (stride <=? 2176 * 4) && (Z.land stride 3 =? 0) && negb (hwnd =? 0) &&
  negb (m_arg2 m =? 0) && present_flags_ok (m_arg3 m) && (m_bytes m =? u64 (height * stride)) &&
  negb (m_address m =? 0) && (Z.land (m_address m) 3 =? 0).

Definition pw_gpu_display_image (m : PwGpuMessage) : bool :=
  let width := m_arg0 m in
  let height := m_arg1 m in
  let pitch := m_arg2 m in
  negb (width =? 0) && (width <=? 2176) && negb (height =? 0) && (height <=? 1408) &&
  (u64 (width * 4) <=? pitch) && (pitch <=? 2176 * 4) && (Z.land pitch 3 =? 0) &&
  present_flags_ok (m_arg3 m) && (m_bytes m =? u64 (height * pitch)) &&
  negb (m_address m =? 0) && (Z.land (m_address m) 3 =? 0).

Definition pw_gpu_display_shown (m : PwGpuMessage) : Z * Z :=
  (if 1920 <? m_arg0 m then 1920 else u32 (m_arg0 m),
   if 1080 <? m_arg1 m then 1080 else u32 (m_arg1 m)).

Definition pw_gpu_contains (base length address bytes : Z) : bool :=
  negb (length =? 0) && (length <=? UINT64_MAX - base) && negb (bytes =? 0) && (base <=? address) &&
  (address - base <=? length) && (bytes <=? length - (address - base)).

Definition pw_gpu_host_range (address bytes : Z) : Z :=
  if pw_gpu_contains PW_GPU_HOST_WINDOW_BASE PW_GPU_HOST_WINDOW_BYTES address bytes then 0
  else if pw_gpu_contains PW_GPU_HOST_HIGH_BASE PW_GPU_HOST_HIGH_BYTES address bytes then 1
  else -1.

(** [pw_gpu_reserve_host_ranges].  [reserve at size] is the kernel's answer: its
    return code and the value of [at] afterwards.  The result is the return
    value, the ranges that were reserved on the way and the calls of [unmap] in
    order. *)
Definition host_bases : list (Z * Z) :=
  [(PW_GPU_HOST_WINDOW_BASE, PW_GPU_HOST_WINDOW_BYTES); (PW_GPU_HOST_HIGH_BASE, PW_GPU_HOST_HIGH_BYTES)].

Record Reserving := { kept : list (Z * Z); unmapped : list (Z * Z); complete : bool }.

Fixpoint reserve_loop (reserve : Z -> Z -> Z * Z) (ranges kept_ : list (Z * Z)) : Reserving :=
  match ranges with
  | [] => {| kept := kept_; unmapped := []; complete := true |}
  | (base, size_) :: rest =>
      let '(rc, at_) := reserve base size_ in
      if negb (rc =? 0) || negb (at_ =? base) then
        {| kept := kept_; unmapped := if negb (at_ =? 0) && negb (at_ =? base) then [(at_, size_)] else []; complete := false |}
      else reserve_loop reserve rest (kept_ ++ [(base, size_)])
  end.

(** [while(kept--)unmap(...)]: from the last range kept to the first. *)
Definition pw_gpu_reserve_host_ranges (reserve : Z -> Z -> Z * Z) : Z * Reserving :=
  let r := reserve_loop reserve host_bases [] in
  if complete r then (1, r)
  else (0, {| kept := kept r; unmapped := unmapped r ++ rev (kept r); complete := false |}).

(** ** Staging *)

(** What the broker uses of [struct radv_ps5_memory]. *)
Record memory := { mem_cpu : Z; mem_bytes : Z; mem_physical : Z }.
Definition no_memory : memory := {| mem_cpu := 0; mem_bytes := 0; mem_physical := 0 |}.

Definition PS5_GPU_STAGING_SPARES : Z := 512.
Definition PS5_GPU_STAGING_MIN : Z := 0x10000.
Definition PS5_GPU_STAGING_LARGE : Z := 0x200000.
Definition PS5_GPU_STAGING_BUDGET : Z := PS5_GPU_STAGING_SPARES * PS5_GPU_STAGING_MIN.

(** [while (bytes < need) bytes <<= 1;]: from the smallest size, five doublings
    reach [PS5_GPU_STAGING_LARGE]. *)
Fixpoint double_until (fuel : nat) (bytes need : Z) : Z :=
  match fuel with
  | O => bytes
  | S fuel' => if bytes <? need then double_until fuel' (u64 (Z.shiftl bytes 1)) need else bytes
  end.

Definition ps5_gpu_staging_round (need : Z) : Z :=
  if PS5_GPU_STAGING_LARGE <? need then align_up_mask need PS5_GPU_STAGING_LARGE
  else double_until 5 PS5_GPU_STAGING_MIN need.

(** The pool: the first [count] spares, and [bytes]. *)
Record staging := { st_spare : list memory; st_bytes : Z }.
Definition no_staging : staging := {| st_spare := []; st_bytes := 0 |}.

(** [pool->spare\[i\] = pool->spare\[--pool->count\]]: the last takes the place
    of the [i]-th, and the list ends before it. *)
Definition swap_out {A : Type} (l : list A) (i : nat) : list A :=
  match nth_error l (List.length l - 1) with
  | None => l
  | Some last_ => removelast (firstn i l ++ last_ :: skipn (S i) l)
  end.

Fixpoint find_index {A : Type} (p : A -> bool) (l : list A) (i : nat) : option (nat * A) :=
  match l with
  | [] => None
  | a :: rest => if p a then Some (i, a) else find_index p rest (S i)
  end.

Definition ps5_gpu_staging_take (pool : staging) (need : Z) : option memory * staging :=
  let bytes := ps5_gpu_staging_round need in
  match find_index (fun s => mem_bytes s =? bytes) (st_spare pool) 0 with
  | Some (i, s) => (Some s, {| st_spare := swap_out (st_spare pool) i; st_bytes := u64 (st_bytes pool - bytes) |})
  | None => (None, pool)
  end.

Definition ps5_gpu_staging_give (pool : staging) (m : memory) : bool * staging :=
  if (size (st_spare pool) =? PS5_GPU_STAGING_SPARES) ||
     (PS5_GPU_STAGING_BUDGET <? u64 (st_bytes pool + mem_bytes m))
  then (false, pool)
  else (true, {| st_spare := st_spare pool ++ [m]; st_bytes := u64 (st_bytes pool + mem_bytes m) |}).

(** ** The packet that ends a submission *)

Definition ps5_gpu_completion_packet (marker value : Z) : list Z :=
  [0xc0064900; 0x0030c514; 0x20000000; u32 marker; u32 (Z.shiftr marker 32); value; 0; 0].

(** ** Frame pages *)

Definition PW_FRAME_WIDTH : Z := 1920.
Definition PW_FRAME_HEIGHT : Z := 1080.
Definition PW_FRAME_HEADER : Z := 16384.
Definition PW_FRAME_BYTES : Z := 8323072.

(** ** What the checks establish *)

(** A 64-bit value. *)
Definition is_u64 (x : Z) : Prop := 0 <= x < 2 ^ 64.

Lemma contains_spec base length address bytes :
  is_u64 base -> is_u64 length -> is_u64 address -> is_u64 bytes ->
  (pw_gpu_contains base length address bytes = true <->
   0 < bytes /\ base + length < 2 ^ 64 /\ base <= address /\ address + bytes <= base + length).
Proof. unfold is_u64, pw_gpu_contains, UINT64_MAX. lia. Qed.

Lemma land_3_mod x : 0 <= x -> Z.land x 3 = x mod 4.
Proof. intros. change 3 with (Z.ones 2). apply Z.land_ones. lia. Qed.

(** The pixel in column [x] and row [y] of an image at [address]. *)
Definition pixel_address (address stride x y : Z) : Z := address + y * stride + x * 4.

Lemma pixel_inside address stride width height base length x y :
  0 <= x < width -> 0 <= y < height -> width * 4 <= stride -> address mod 4 = 0 -> stride mod 4 = 0 ->
  base <= address -> address + height * stride <= base + length ->
  let p := pixel_address address stride x y in base <= p /\ p + 4 <= base + length /\ p mod 4 = 0.
Proof.
  intros Hx Hy Hs A S B L. unfold pixel_address. cbv zeta.
  assert (y * stride + stride <= height * stride) by nia. split; [nia|]. split; [lia|].
  rewrite <- Z.add_assoc, (Z.add_mod address) by lia. rewrite A, (Z.add_mod (y * stride)), (Z.mul_mod y), S by lia.
  rewrite Z.mul_0_r, Z.mod_mul by lia. reflexivity.
Qed.

(** An image the broker accepts can be read: when a present's message
    passes [pw_gpu_window_image] or [pw_gpu_display_image] and its range lies
    in a buffer ([pw_gpu_contains]), every pixel of the picture is a 4-aligned
    word inside that buffer, with no arithmetic wrapping on the way. *)
Theorem accepted_image_readable m base length :
  is_u64 (m_address m) -> is_u64 (m_bytes m) -> is_u64 (m_arg0 m) -> is_u64 (m_arg1 m) -> is_u64 (m_arg2 m) ->
  is_u64 base -> is_u64 length -> pw_gpu_contains base length (m_address m) (m_bytes m) = true ->
  (pw_gpu_window_image m = true ->
   forall x y, 0 <= x < low32 (m_arg0 m) -> 0 <= y < high32 (m_arg0 m) ->
   let p := pixel_address (m_address m) (low32 (m_arg1 m)) x y in base <= p /\ p + 4 <= base + length /\ p mod 4 = 0) /\
  (pw_gpu_display_image m = true ->
   forall x y, 0 <= x < m_arg0 m -> 0 <= y < m_arg1 m ->
   let p := pixel_address (m_address m) (m_arg2 m) x y in base <= p /\ p + 4 <= base + length /\ p mod 4 = 0).
Proof.
  intros Ha Hb H0 H1 H2 Hbase Hl C. apply contains_spec in C as (C1 & C2 & C3 & C4); [|assumption..]. split.
  - unfold pw_gpu_window_image. cbv zeta. intros W x y Hx Hy. repeat (apply andb_prop in W as [W ?]). to_prop.
    assert (R : 0 <= high32 (m_arg0 m)) by (unfold high32; apply Z.shiftr_nonneg; unfold is_u64 in *; lia).
    pose proof (u32_range (m_arg0 m)). pose proof (u32_range (m_arg1 m)). unfold low32 in *. rewrite !land_3_mod in * by (unfold is_u64 in *; lia).
    rewrite u32_small in * by lia. rewrite u64_small in * by nia.
    apply (pixel_inside _ _ (u32 (m_arg0 m)) (high32 (m_arg0 m))); assumption || lia.
  - unfold pw_gpu_display_image. cbv zeta. intros W x y Hx Hy. repeat (apply andb_prop in W as [W ?]). to_prop.
    unfold is_u64 in *. rewrite !land_3_mod in * by lia. rewrite u64_small in * by lia. rewrite u64_small in * by nia.
    apply (pixel_inside _ _ (m_arg0 m) (m_arg1 m)); assumption || lia.
Qed.

(** ** Staging buffers *)

(** The sizes staging buffers are made in: powers of two up to 2 MiB, then
    multiples of 2 MiB. *)
Definition staging_class (bytes : Z) : Prop :=
  (exists k, 0 <= k <= 5 /\ bytes = PS5_GPU_STAGING_MIN * 2 ^ k) \/
  (PS5_GPU_STAGING_LARGE < bytes /\ bytes mod PS5_GPU_STAGING_LARGE = 0).

Lemma small_classes need : need <= PS5_GPU_STAGING_LARGE ->
  exists k, 0 <= k <= 5 /\ double_until 5 PS5_GPU_STAGING_MIN need = PS5_GPU_STAGING_MIN * 2 ^ k /\
    need <= PS5_GPU_STAGING_MIN * 2 ^ k /\ (k = 0 \/ PS5_GPU_STAGING_MIN * 2 ^ (k - 1) < need).
Proof.
  unfold PS5_GPU_STAGING_LARGE, PS5_GPU_STAGING_MIN. intros H.
  cbn [double_until]. repeat match goal with |- context [u64 (Z.shiftl ?a 1)] =>
    let v := eval vm_compute in (u64 (Z.shiftl a 1)) in change (u64 (Z.shiftl a 1)) with v end.
  destruct (0x10000 <? need) eqn:E0; to_prop; [|exists 0; lia]. destruct (131072 <? need) eqn:E1; to_prop; [|exists 1; lia].
  destruct (262144 <? need) eqn:E2; to_prop; [|exists 2; lia]. destruct (524288 <? need) eqn:E3; to_prop; [|exists 3; lia].
  destruct (1048576 <? need) eqn:E4; to_prop; [|exists 4; lia]. exists 5; lia.
Qed.

Lemma large_round need : PS5_GPU_STAGING_LARGE < need < 2 ^ 63 ->
  let r := align_up_mask need PS5_GPU_STAGING_LARGE in need <= r < need + PS5_GPU_STAGING_LARGE /\ r mod PS5_GPU_STAGING_LARGE = 0.
Proof. unfold PS5_GPU_STAGING_LARGE. intros H. apply (align_up_mask_bounds need 21); lia. Qed.

Lemma staging_round_class need :
  0 <= need < 2 ^ 63 ->
  staging_class (ps5_gpu_staging_round need) /\ need <= ps5_gpu_staging_round need /\
  forall c, staging_class c -> need <= c -> ps5_gpu_staging_round need <= c.
Proof.
  intros H. unfold ps5_gpu_staging_round. destruct (PS5_GPU_STAGING_LARGE <? need) eqn:E; to_prop.
  - destruct (large_round need ltac:(lia)) as [B M]. unfold staging_class, PS5_GPU_STAGING_LARGE, PS5_GPU_STAGING_MIN in *.
    split; [right; lia|]. split; [lia|]. intros c [(k & Hk & ->)|[Hc Mc]] Hn.
    + assert (2 ^ k <= 32) by (change 32 with (2 ^ 5); apply Z.pow_le_mono_r; lia). lia.
    + apply Z.mod_divide in M as [a Ha]; [|lia]. apply Z.mod_divide in Mc as [b Hb]; [|lia]. lia.
  - destruct (small_classes need E) as (k & Hk & -> & Hn & Hm). split; [left; eauto|]. split; [exact Hn|].
    unfold staging_class, PS5_GPU_STAGING_MIN, PS5_GPU_STAGING_LARGE in *. intros c [(j & Hj & ->)|[Hc _]] Hc'.
    + destruct (Z.le_gt_cases k j); [assert (2 ^ k <= 2 ^ j) by (apply Z.pow_le_mono_r; lia); lia|].
      assert (2 ^ j <= 2 ^ (k - 1)) by (apply Z.pow_le_mono_r; lia). destruct Hm; lia.
    + assert (2 ^ k <= 32) by (change 32 with (2 ^ 5); apply Z.pow_le_mono_r; lia). lia.
Qed.

(** A submission's staging buffer has the smallest size class that holds
    it: [ps5_gpu_staging_round] returns a class at least as large as the need
    and no larger than any other such class. *)
Theorem staging_round_least need :
  0 <= need < 2 ^ 63 ->
  staging_class (ps5_gpu_staging_round need) /\ need <= ps5_gpu_staging_round need /\
  forall c, staging_class c -> need <= c -> ps5_gpu_staging_round need <= c.
Proof. apply staging_round_class. Qed.

Lemma staging_round_least_witness :
  staging_class (ps5_gpu_staging_round 70000) /\ 70000 <= ps5_gpu_staging_round 70000 /\
  forall c, staging_class c -> 70000 <= c -> ps5_gpu_staging_round 70000 <= c.
Proof. apply (staging_round_least 70000). lia. Defined.

(** ** The pool of spare buffers *)

(** What the pool keeps: its count and its bytes agree with the spares, and
    both stay inside their limits. *)
Definition pool_ok (pool : staging) : Prop :=
  size (st_spare pool) <= PS5_GPU_STAGING_SPARES /\
  Forall (fun s => 0 <= mem_bytes s) (st_spare pool) /\
  st_bytes pool = fold_right Z.add 0 (map mem_bytes (st_spare pool)) /\
  st_bytes pool <= PS5_GPU_STAGING_BUDGET.

Lemma no_staging_ok : pool_ok no_staging.
Proof. split; [vm_compute; discriminate|]. split; [constructor|]. split; [reflexivity|vm_compute; discriminate]. Qed.

(** One use of the pool: the broker asks for a buffer, or hands one back. *)
Inductive pool_use : Type :=
| Take (need : Z)
| Give (m : memory).

Definition use_ok (u : pool_use) : Prop :=
  match u with Take need => 0 <= need < 2 ^ 63 | Give m => 0 <= mem_bytes m < 2 ^ 63 end.

(** The buffers a run has handed out and those it has kept. *)
Record PoolRun := { run_pool : staging; run_taken : list memory; run_kept : list memory }.

Definition pool_step (r : PoolRun) (u : pool_use) : PoolRun :=
  match u with
  | Take need =>
      let '(found, pool) := ps5_gpu_staging_take (run_pool r) need in
      {| run_pool := pool; run_kept := run_kept r;
         run_taken := match found with Some s => s :: run_taken r | None => run_taken r end |}
  | Give m =>
      let '(accepted, pool) := ps5_gpu_staging_give (run_pool r) m in
      {| run_pool := pool; run_taken := run_taken r;
         run_kept := if accepted then m :: run_kept r else run_kept r |}
  end.

Definition pool_run (uses : list pool_use) : PoolRun :=
  fold_left pool_step uses {| run_pool := no_staging; run_taken := []; run_kept := [] |}.

Lemma find_index_some {A : Type} (p : A -> bool) l i j a :
  find_index p l i = Some (j, a) -> exists k, j = (i + k)%nat /\ nth_error l k = Some a /\ p a = true.
Proof.
  revert i. induction l as [|b l IH]; intros i H; [discriminate|]. cbn in H. destruct (p b) eqn:E.
  - inversion H; subst. exists O. rewrite Nat.add_0_r. auto.
  - apply IH in H as (k & -> & N & P). exists (S k). repeat split; [lia|assumption..].
Qed.

Lemma find_index_none {A : Type} (p : A -> bool) l i : find_index p l i = None -> Forall (fun a => p a = false) l.
Proof. revert i. induction l as [|b l IH]; intros i H; [constructor|]. cbn in H. destruct (p b) eqn:E; [discriminate|eauto]. Qed.

Lemma swap_out_permutation {A : Type} (l : list A) i a :
  nth_error l i = Some a -> Permutation l (a :: swap_out l i).
Proof.
  intros H. pose proof (proj1 (nth_error_Some l i) ltac:(congruence)) as L. unfold swap_out.
  destruct l as [|x l _] using rev_ind; [cbn in L; lia|]. rewrite length_app in *. cbn [List.length] in *.
  replace (List.length l + 1 - 1)%nat with (List.length l) by lia.
  rewrite nth_error_app2, Nat.sub_diag by lia. cbn [nth_error].
  destruct (Nat.eq_dec i (List.length l)) as [->|N].
  - rewrite nth_error_app2, Nat.sub_diag in H by lia. injection H as ->.
    rewrite firstn_app, firstn_all, Nat.sub_diag, skipn_all2 by (rewrite length_app; cbn; lia). cbn [firstn].
    rewrite app_nil_r, removelast_last. apply Permutation_app_comm.
  - rewrite nth_error_app1 in H by lia. apply nth_error_split in H as (l1 & l2 & -> & <-). rewrite length_app in *. cbn [List.length] in *.
    rewrite <- !app_assoc, firstn_app, firstn_all, Nat.sub_diag, app_nil_r. cbn [app firstn].
    replace (S (List.length l1)) with (List.length l1 + 1)%nat by lia.
    rewrite skipn_app, skipn_all2 by lia. replace (List.length l1 + 1 - List.length l1)%nat with 1%nat by lia. cbn [skipn app].
    change (x :: l2 ++ [x]) with ((x :: l2) ++ [x]). rewrite app_assoc, removelast_last, <- Permutation_middle. constructor.
    apply Permutation_app_head. symmetry. apply Permutation_cons_append.
Qed.

Lemma sum_permutation l l' : Permutation l l' -> fold_right Z.add 0 l = fold_right Z.add 0 l'.
Proof. induction 1; cbn; lia. Qed.

Lemma sum_nonneg (l : list memory) : Forall (fun s => 0 <= mem_bytes s) l -> 0 <= fold_right Z.add 0 (map mem_bytes l).
Proof. induction 1; cbn; lia. Qed.

(** [ps5_gpu_staging_take] hands out a spare of exactly the rounded size and
    keeps the others, or there is none. *)
Lemma take_spec pool need : pool_ok pool -> 0 <= need < 2 ^ 63 ->
  match ps5_gpu_staging_take pool need with
  | (Some s, pool') => mem_bytes s = ps5_gpu_staging_round need /\ Permutation (st_spare pool) (s :: st_spare pool') /\ pool_ok pool'
  | (None, pool') => pool' = pool /\ Forall (fun s => mem_bytes s <> ps5_gpu_staging_round need) (st_spare pool)
  end.
Proof.
  intros (C & F & B & L) Hn. unfold ps5_gpu_staging_take. cbv zeta.
  destruct (find_index _ _ _) as [[i s]|] eqn:E.
  - apply find_index_some in E as (k & -> & N & P). to_prop. pose proof (swap_out_permutation _ _ _ N) as Q. cbn [Nat.add].
    split; [exact P|]. split; [exact Q|]. pose proof Q as Q1. apply (Permutation_Forall Q) in F. inversion F; subst.
    pose proof (sum_nonneg _ H2). pose proof (sum_permutation _ _ (Permutation_map mem_bytes Q)) as S. cbn in S.
    apply Permutation_length in Q1. cbn in Q1. unfold pool_ok, size in *. cbn [st_spare st_bytes].
    unfold PS5_GPU_STAGING_BUDGET, PS5_GPU_STAGING_SPARES, PS5_GPU_STAGING_MIN in *. rewrite u64_small by lia.
    repeat split; [lia|assumption|lia|lia].
  - apply find_index_none in E. split; [reflexivity|]. eapply Forall_impl; [|exact E]. cbv beta. intros. to_prop. assumption.
Qed.

(** [ps5_gpu_staging_give] keeps a buffer unless the pool is full or the buffer
    would pass the budget; then nothing changes. *)
Lemma give_spec pool m : pool_ok pool -> 0 <= mem_bytes m < 2 ^ 63 ->
  match ps5_gpu_staging_give pool m with
  | (true, pool') => st_spare pool' = st_spare pool ++ [m] /\ pool_ok pool'
  | (false, pool') => pool' = pool /\
      (size (st_spare pool) = PS5_GPU_STAGING_SPARES \/ PS5_GPU_STAGING_BUDGET < st_bytes pool + mem_bytes m)
  end.
Proof.
  intros (C & F & B & L) Hm. pose proof (sum_nonneg _ F). unfold ps5_gpu_staging_give.
  unfold pool_ok, PS5_GPU_STAGING_BUDGET, PS5_GPU_STAGING_SPARES, PS5_GPU_STAGING_MIN in *. rewrite !u64_small by lia.
  destruct (_ || _) eqn:E; [split; [reflexivity|]; apply orb_true_iff in E as [E|E]; to_prop; [left|right]; assumption|]. apply orb_false_iff in E as [E1 E2]. to_prop.
  cbn [st_spare st_bytes]. split; [reflexivity|]. rewrite size_app, map_app, fold_right_app. cbn.
  split; [unfold size in *; cbn; lia|]. split; [apply Forall_app; split; [assumption|constructor; [lia|constructor]]|]. split; [|lia].
  rewrite B. clear. induction (map mem_bytes (st_spare pool)); cbn; lia.
Qed.

Lemma pool_step_ok r u : use_ok u -> pool_ok (run_pool r) ->
  Permutation (run_kept r) (run_taken r ++ st_spare (run_pool r)) ->
  pool_ok (run_pool (pool_step r u)) /\
  Permutation (run_kept (pool_step r u)) (run_taken (pool_step r u) ++ st_spare (run_pool (pool_step r u))).
Proof.
  intros U P Q. destruct u as [need|m]; cbn [use_ok] in U; unfold pool_step.
  - pose proof (take_spec _ _ P U) as T. destruct (ps5_gpu_staging_take _ _) as [[s|] pool']; cbn.
    + destruct T as (_ & T & O). split; [assumption|]. rewrite Q, T. symmetry. apply Permutation_middle.
    + destruct T as [-> _]. auto.
  - pose proof (give_spec _ _ P U) as T. destruct (ps5_gpu_staging_give _ _) as [[|] pool']; cbn.
    + destruct T as (-> & O). split; [assumption|]. rewrite Q, app_assoc. apply Permutation_cons_append.
    + destruct T as [-> _]. auto.
Qed.

Lemma pool_runs_ok uses r : Forall use_ok uses -> pool_ok (run_pool r) ->
  Permutation (run_kept r) (run_taken r ++ st_spare (run_pool r)) ->
  let r' := fold_left pool_step uses r in
  pool_ok (run_pool r') /\ Permutation (run_kept r') (run_taken r' ++ st_spare (run_pool r')).
Proof.
  intros F. revert r. induction F as [|u uses U F IH]; intros r O Q; [auto|].
  cbn [fold_left]. destruct (pool_step_ok r u U O Q). auto.
Qed.

(** The staging pool conserves buffers.  After any sequence of takes and
    gives, the spares number at most 512 and hold at most 32 MiB, [bytes] is
    their sum, and every buffer the pool accepted is either handed out again
    exactly as often as it was accepted or still a spare: none is lost and none
    is handed out twice. *)
Theorem staging_pool_conserves uses : Forall use_ok uses ->
  let r := pool_run uses in
  pool_ok (run_pool r) /\ Permutation (run_kept r) (run_taken r ++ st_spare (run_pool r)).
Proof.
  intros F. apply (pool_runs_ok uses _ F); [exact no_staging_ok|constructor].
Qed.

Definition sample_buffer (cpu bytes : Z) : memory := {| mem_cpu := cpu; mem_bytes := bytes; mem_physical := cpu |}.

Definition sample_uses : list pool_use :=
  [Give (sample_buffer 1 0x10000); Give (sample_buffer 2 0x20000); Give (sample_buffer 3 0x10000); Take 5; Take 0x10001; Take 0x10001].

Lemma staging_pool_conserves_witness :
  map mem_cpu (run_taken (pool_run sample_uses)) = [2; 1] /\ map mem_cpu (st_spare (run_pool (pool_run sample_uses))) = [3] /\
  pool_ok (run_pool (pool_run sample_uses)) /\
  Permutation (run_kept (pool_run sample_uses)) (run_taken (pool_run sample_uses) ++ st_spare (run_pool (pool_run sample_uses))).
Proof.
  split; [reflexivity|]. split; [reflexivity|]. apply (staging_pool_conserves sample_uses).
  repeat constructor; cbn; lia.
Defined.

(** ** The witness of [accepted_image_readable] *)

(** A 64 by 32 window picture of 256-byte rows, eight bytes into its buffer. *)
Definition sample_present : PwGpuMessage :=
  {| m_magic := PW_GPU_MAGIC; m_operation := PW_GPU_WINDOW_SWAPCHAIN; m_sequence := 1; m_status := 0;
     m_address := 0x240000008; m_bytes := 32 * 256;
     m_arg0 := 64 + Z.shiftl 32 32; m_arg1 := 256 + Z.shiftl 7 32; m_arg2 := 1; m_arg3 := 3 |}.

Lemma accepted_image_readable_witness :
  let p := pixel_address 0x240000008 256 63 31 in
  0x240000000 <= p /\ p + 4 <= 0x240000000 + 0x10000 /\ p mod 4 = 0.
Proof.
  apply (accepted_image_readable sample_present 0x240000000 0x10000); unfold is_u64; cbn;
    first [reflexivity | lia].
Defined.

(** A range the kernel refused, or put elsewhere. *)
Local Ltac refused R base bytes :=
  right; cbn [complete kept unmapped]; split; [reflexivity|]; split; [intros range I; apply in_or_app; right; apply -> in_rev; exact I|];
  exists base, bytes; split; [cbn; eauto|]; rewrite R; cbn [snd]; split;
  [intros [= -> ->]; rewrite ?Z.eqb_refl in *; discriminate|];
  intros N1 N2; apply in_or_app; left; apply Z.eqb_neq in N1; apply Z.eqb_neq in N2; rewrite N1, N2; left; reflexivity.

(** A client's host ranges are reserved both or not at all: when
    [pw_gpu_reserve_host_ranges] returns 1 both ranges are held exactly where
    the protocol puts them and nothing was unmapped; when it returns 0 every
    range it had reserved, and any range the kernel put elsewhere, has been
    unmapped again. *)
Theorem reserve_all_or_nothing reserve :
  let '(rc, r) := pw_gpu_reserve_host_ranges reserve in
  (rc = 1 /\ kept r = host_bases /\ unmapped r = [] /\ forall b s, In (b, s) host_bases -> reserve b s = (0, b)) \/
  (rc = 0 /\ (forall range, In range (kept r) -> In range (unmapped r)) /\
   exists b s, In (b, s) host_bases /\ reserve b s <> (0, b) /\
     (snd (reserve b s) <> 0 -> snd (reserve b s) <> b -> In (snd (reserve b s), s) (unmapped r))).
Proof.
  unfold pw_gpu_reserve_host_ranges, host_bases. cbn [reserve_loop app].
  destruct (reserve PW_GPU_HOST_WINDOW_BASE PW_GPU_HOST_WINDOW_BYTES) as [rc0 at0] eqn:R0.
  destruct (reserve PW_GPU_HOST_HIGH_BASE PW_GPU_HOST_HIGH_BYTES) as [rc1 at1] eqn:R1.
  destruct (negb (rc0 =? 0) || negb (at0 =? PW_GPU_HOST_WINDOW_BASE)) eqn:E0; [refused R0 PW_GPU_HOST_WINDOW_BASE PW_GPU_HOST_WINDOW_BYTES|].
  destruct (negb (rc1 =? 0) || negb (at1 =? PW_GPU_HOST_HIGH_BASE)) eqn:E1; [refused R1 PW_GPU_HOST_HIGH_BASE PW_GPU_HOST_HIGH_BYTES|].
  left. cbn. to_prop. subst. repeat split. intros b s [[= <- <-]|[[= <- <-]|[]]]; assumption.
Qed.
