(* ===== verification/HostRange.v ===== *)
(** * The host-visible address ranges ([struct HostRange] of [src/tooling/gpu-broker/server.cpp])

    A range of addresses reserved whole while the broker runs.  [take] hands out
    the first free extent an aligned block fits in and [give] puts a block back,
    joining it with the extents it touches.  The free list is proved to be the
    one sorted, coalesced list of the free addresses, so that the operations
    refine an allocator whose state is a set of addresses. *)

From Stdlib Require Import ZArith List Bool Lia Sorting.Permutation RelationClasses Morphisms.
From S2P Require Import Prelude Bytes BrokerProtocol.
Import ListNotations.
Open Scope Z_scope.

(** ** Data and operations *)

Record Extent := { ex_at : Z; ex_bytes : Z }.

(** [free\[0..count)] is [hr_free]. *)
Record HostRange := {
  hr_base : Z;
  hr_bytes : Z;
  hr_reserved : bool;
  hr_free : list Extent;
  hr_high_water : Z;
  hr_taken : Z;
  hr_given : Z
}.

Definition kExtents : Z := 512.

Definition host_range (base bytes : Z) : HostRange :=
  {| hr_base := base; hr_bytes := bytes; hr_reserved := false; hr_free := []; hr_high_water := 0; hr_taken := 0; hr_given := 0 |}.

(** [reserve]: [answer] is the return code of [sceKernelReserveVirtualRange] and
    the address it left in [at].  The third component is the range unmapped
    again because the kernel put it elsewhere. *)
Definition hr_reserve (r : HostRange) (answer : Z * Z) : bool * HostRange * option (Z * Z) :=
  let '(rc, at_) := answer in
  let reserved := (rc =? 0) && (at_ =? hr_base r) in
  (reserved,
   {| hr_base := hr_base r; hr_bytes := hr_bytes r; hr_reserved := reserved;
      hr_free := if reserved then [{| ex_at := hr_base r; ex_bytes := hr_bytes r |}] else [];
      hr_high_water := 0; hr_taken := 0; hr_given := 0 |},
   if negb reserved && negb (at_ =? 0) && negb (at_ =? hr_base r) then Some (at_, hr_bytes r) else None).

(** [release]: the second component is the range unmapped. *)
Definition hr_release (r : HostRange) : HostRange * option (Z * Z) :=
  ({| hr_base := hr_base r; hr_bytes := hr_bytes r; hr_reserved := false; hr_free := [];
      hr_high_water := hr_high_water r; hr_taken := hr_taken r; hr_given := hr_given r |},
   if hr_reserved r then Some (hr_base r, hr_bytes r) else None).

(** The block's address in an extent, when it fits there. *)
Definition fit (e : Extent) (size_ alignment : Z) : option Z :=
  let at_ := align_up_mask (ex_at e) alignment in
  let end_ := u64 (ex_at e + ex_bytes e) in
  if (at_ <? ex_at e) || (end_ <? at_) || (end_ - at_ <? size_) then None else Some at_.

(** What is left of an extent on both sides of the block taken from it. *)
Definition before_block (e : Extent) (at_ : Z) : Extent := {| ex_at := ex_at e; ex_bytes := u64 (at_ - ex_at e) |}.
Definition after_block (e : Extent) (at_ size_ : Z) : Extent :=
  {| ex_at := u64 (at_ + size_); ex_bytes := u64 (u64 (ex_at e + ex_bytes e) - at_ - size_) |}.

Definition nonempty (e : Extent) : bool := negb (ex_bytes e =? 0).

(** The loop over [free], [seen] being the extents before the [i]-th. *)
Fixpoint take_scan (count size_ alignment : Z) (seen rest : list Extent) : option (Z * list Extent) :=
  match rest with
  | [] => None
  | e :: rest' =>
      match fit e size_ alignment with
      | None => take_scan count size_ alignment (seen ++ [e]) rest'
      | Some at_ =>
          let before := before_block e at_ in
          let after := after_block e at_ size_ in
          if nonempty before && nonempty after then
            if count =? kExtents then take_scan count size_ alignment (seen ++ [e]) rest'
            else Some (at_, seen ++ before :: after :: rest')
          else if nonempty before then Some (at_, seen ++ before :: rest')
          else if nonempty after then Some (at_, seen ++ after :: rest')
          else Some (at_, seen ++ rest')
      end
  end.

Definition hr_take (r : HostRange) (size_ alignment : Z) : Z * HostRange :=
  match take_scan (size (hr_free r)) size_ alignment [] (hr_free r) with
  | None => (0, r)
  | Some (at_, free) =>
      let used := u64 (at_ + size_ - hr_base r) in
      (at_, {| hr_base := hr_base r; hr_bytes := hr_bytes r; hr_reserved := hr_reserved r; hr_free := free;
               hr_high_water := if hr_high_water r <? used then used else hr_high_water r;
               hr_taken := u64 (hr_taken r + 1); hr_given := hr_given r |})
  end.

(** [while(i<count && free\[i\].at<at)++i;]: the extents before index [i] and from it. *)
Fixpoint split_at (at_ : Z) (free : list Extent) : list Extent * list Extent :=
  match free with
  | [] => ([], [])
  | e :: rest => if ex_at e <? at_ then let '(lo, hi) := split_at at_ rest in (e :: lo, hi) else ([], free)
  end.

(** [join_before]: [free\[i-1\]] ends at [at]; it and the extents before it. *)
Definition join_before (lo : list Extent) (at_ : Z) : option (list Extent * Extent) :=
  match rev lo with
  | [] => None
  | p :: before => if u64 (ex_at p + ex_bytes p) =? at_ then Some (rev before, p) else None
  end.

(** [join_after]: [free\[i\]] begins at the block's end; it and the extents after it. *)
Definition join_after (hi : list Extent) (at_ size_ : Z) : option (Extent * list Extent) :=
  match hi with
  | [] => None
  | n :: after => if u64 (at_ + size_) =? ex_at n then Some (n, after) else None
  end.

Definition give_extents (free : list Extent) (at_ size_ : Z) : list Extent :=
  let '(lo, hi) := split_at at_ free in
  match join_before lo at_, join_after hi at_ size_ with
  | Some (before, p), Some (n, after) =>
      before ++ {| ex_at := ex_at p; ex_bytes := u64 (ex_bytes p + u64 (size_ + ex_bytes n)) |} :: after
  | Some (before, p), None => before ++ {| ex_at := ex_at p; ex_bytes := u64 (ex_bytes p + size_) |} :: hi
  | None, Some (n, after) => lo ++ {| ex_at := at_; ex_bytes := u64 (ex_bytes n + size_) |} :: after
  | None, None => if size free <? kExtents then lo ++ {| ex_at := at_; ex_bytes := size_ |} :: hi else free
  end.

Definition hr_give (r : HostRange) (at_ size_ : Z) : HostRange :=
  {| hr_base := hr_base r; hr_bytes := hr_bytes r; hr_reserved := hr_reserved r;
     hr_free := give_extents (hr_free r) at_ size_;
     hr_high_water := hr_high_water r; hr_taken := hr_taken r; hr_given := u64 (hr_given r + 1) |}.

(** ** The free list as a set of addresses *)

(** [chain lo l hi]: the extents of [l] are not empty, lie in [lo, hi) in
    order, and no two of them touch. *)
Fixpoint chain (lo : Z) (l : list Extent) (hi : Z) : Prop :=
  match l with
  | [] => True
  | e :: l' => lo <= ex_at e /\ 0 < ex_bytes e /\ ex_at e + ex_bytes e <= hi /\ chain (ex_at e + ex_bytes e + 1) l' hi
  end.

Definition in_extent (a : Z) (e : Extent) : Prop := ex_at e <= a < ex_at e + ex_bytes e.

(** The addresses a free list stands for. *)
Definition free_in (l : list Extent) (a : Z) : Prop := Exists (in_extent a) l.

Lemma free_in_nil a : ~ free_in [] a.
Proof. intros H. inversion H. Qed.

Lemma free_in_cons e l a : free_in (e :: l) a <-> in_extent a e \/ free_in l a.
Proof. unfold free_in. rewrite Exists_cons. reflexivity. Qed.

Lemma free_in_app l m a : free_in (l ++ m) a <-> free_in l a \/ free_in m a.
Proof. unfold free_in. rewrite Exists_app. reflexivity. Qed.

Lemma chain_weaken lo hi lo' hi' l : chain lo l hi -> lo' <= lo -> hi <= hi' -> chain lo' l hi'.
Proof.
  revert lo lo'. induction l as [|e l IH]; intros lo lo' H L U; [exact I|]. cbn in *. destruct H as (? & ? & ? & H).
  repeat split; [lia..|]. eapply IH; [exact H|lia|assumption].
Qed.

Lemma chain_bounds lo l hi a : chain lo l hi -> free_in l a -> lo <= a < hi.
Proof.
  revert lo. induction l as [|e l IH]; intros lo H F; [contradiction (free_in_nil _ F)|]. cbn in H. destruct H as (? & ? & ? & H).
  apply free_in_cons in F as [F|F]; [unfold in_extent in F; lia|]. apply (IH _ H) in F. lia.
Qed.

Lemma chain_mid lo l e m hi :
  chain lo (l ++ e :: m) hi <->
  chain lo l (ex_at e - 1) /\ lo <= ex_at e /\ 0 < ex_bytes e /\ ex_at e + ex_bytes e <= hi /\ chain (ex_at e + ex_bytes e + 1) m hi.
Proof.
  revert lo. induction l as [|d l IH]; intros lo; cbn [app chain]; [tauto|]. rewrite IH. intuition lia.
Qed.

Lemma chain_app_weak lo l m hi : chain lo (l ++ m) hi -> chain lo l hi /\ chain lo m hi.
Proof.
  revert lo. induction l as [|d l IH]; intros lo; cbn [app chain]; [tauto|]. intros (A & B & C & H).
  apply IH in H as [H1 H2]. repeat split; try assumption. eapply chain_weaken; [exact H2|lia|lia].
Qed.

Create Rewrite HintDb extents.
#[export] Hint Rewrite free_in_cons free_in_app : extents.

(** An interval of free addresses lies in one extent. *)
Lemma run_in_one lo l hi a n : chain lo l hi -> 0 < n -> (forall x, a <= x < a + n -> free_in l x) ->
  exists e, In e l /\ ex_at e <= a /\ a + n <= ex_at e + ex_bytes e.
Proof.
  revert lo. induction l as [|e l IH]; intros lo H N F; [destruct (free_in_nil a); apply F; lia|].
  cbn in H. destruct H as (H1 & H2 & H3 & H). destruct (Z.lt_ge_cases a (ex_at e + ex_bytes e)) as [A|A].
  - exists e. split; [left; reflexivity|].
    pose proof (proj1 (free_in_cons _ _ _) (F a ltac:(lia))) as [Fa|Fa]; [|apply (chain_bounds _ _ _ _ H) in Fa; lia].
    unfold in_extent in Fa. split; [lia|]. destruct (Z.le_gt_cases (a + n) (ex_at e + ex_bytes e)) as [L|G]; [exact L|].
    pose proof (proj1 (free_in_cons _ _ _) (F (ex_at e + ex_bytes e) ltac:(lia))) as [Fe|Fe];
      [unfold in_extent in Fe; lia|apply (chain_bounds _ _ _ _ H) in Fe; lia].
  - destruct (IH _ H N) as (d & I & D); [|exists d; split; [right; exact I|exact D]].
    intros x Hx. pose proof (proj1 (free_in_cons _ _ _) (F x Hx)) as [Fe|Fe]; [unfold in_extent in Fe; lia|exact Fe].
Qed.

(** The list is determined by the set. *)
Lemma chain_unique lo l m hi lo' hi' : chain lo l hi -> chain lo' m hi' -> (forall a, free_in l a <-> free_in m a) -> l = m.
Proof.
  revert lo lo' m. induction l as [|e l IH]; intros lo lo' [|d m] L M S.
  - reflexivity.
  - cbn in M. destruct (free_in_nil (ex_at d)). apply S, free_in_cons. left. unfold in_extent. lia.
  - cbn in L. destruct (free_in_nil (ex_at e)). apply S, free_in_cons. left. unfold in_extent. lia.
  - assert (Q : forall a, in_extent a e \/ free_in l a <-> in_extent a d \/ free_in m a) by (intros; rewrite <- !free_in_cons; apply S).
    cbn in L, M. destruct L as (? & ? & ? & L), M as (? & ? & ? & M).
    assert (BL : forall a, free_in l a -> ex_at e + ex_bytes e + 1 <= a) by (intros a F; apply (chain_bounds _ _ _ _ L) in F; lia).
    assert (BM : forall a, free_in m a -> ex_at d + ex_bytes d + 1 <= a) by (intros a F; apply (chain_bounds _ _ _ _ M) in F; lia).
    unfold in_extent in Q.
    assert (A : ex_at e = ex_at d).
    { destruct (proj1 (Q (ex_at e)) ltac:(lia)) as [X|X]; [|apply BM in X];
      destruct (proj2 (Q (ex_at d)) ltac:(lia)) as [Y|Y]; try apply BL in Y; lia. }
    assert (B : ex_bytes e = ex_bytes d).
    { destruct (Z.lt_trichotomy (ex_bytes e) (ex_bytes d)) as [T|[T|T]]; [|exact T|].
      - destruct (proj2 (Q (ex_at e + ex_bytes e)) ltac:(lia)) as [X|X]; [lia|apply BL in X; lia].
      - destruct (proj1 (Q (ex_at d + ex_bytes d)) ltac:(lia)) as [X|X]; [lia|apply BM in X; lia]. }
    f_equal; [destruct e, d; cbn in *; congruence|]. eapply IH; [exact L|exact M|].
    intros a. specialize (Q a). split; intros F; [pose proof (BL _ F)|pose proof (BM _ F)]; intuition lia.
Qed.

(** ** Taking a block *)

(** The least multiple of an alignment at or above an address. *)
Lemma aligned_least v k x : 0 <= k < 64 -> 0 <= v -> v + 2 ^ k <= 2 ^ 64 -> v <= x -> x mod 2 ^ k = 0 -> align_up_mask v (2 ^ k) <= x.
Proof.
  intros Hk Hv Hb Hx M. destruct (align_up_mask_bounds v k Hk Hv Hb) as [B A]. assert (Hp0 : 0 < 2 ^ k) by (apply Z.pow_pos_nonneg; lia).
  apply Z.mod_divide in M as [p Hp]; [|lia]. apply Z.mod_divide in A as [q Hq]; [|lia].
  rewrite Hq in *. subst x. assert (q < p + 1) by nia. nia.
Qed.

Section Take.
Context (size_ k : Z) (Hsize : 0 < size_ < 2 ^ 62) (Hk : 0 <= k <= 62).

Definition small (e : Extent) : Prop := 0 <= ex_at e /\ 0 < ex_bytes e /\ ex_at e + ex_bytes e <= 2 ^ 62.

Lemma fit_some e at_ : small e -> fit e size_ (2 ^ k) = Some at_ ->
  ex_at e <= at_ /\ at_ + size_ <= ex_at e + ex_bytes e /\ at_ mod 2 ^ k = 0 /\ (forall x, ex_at e <= x -> x mod 2 ^ k = 0 -> at_ <= x).
Proof.
  intros (S1 & S2 & S3). assert (P : 2 ^ k <= 2 ^ 62) by (apply Z.pow_le_mono_r; lia). unfold fit. cbv zeta.
  rewrite u64_small by lia. destruct (_ || _) eqn:E; [discriminate|]. intros [= <-]. apply orb_false_iff in E as [E E3].
  apply orb_false_iff in E as [E1 E2]. to_prop. destruct (align_up_mask_bounds (ex_at e) k) as [B A]; [lia..|].
  repeat split; [lia|lia|exact A|]. intros x Hx M. apply aligned_least; lia || assumption.
Qed.

Lemma fit_none e x : small e -> fit e size_ (2 ^ k) = None -> ex_at e <= x -> x mod 2 ^ k = 0 -> ex_at e + ex_bytes e < x + size_.
Proof.
  intros (S1 & S2 & S3). assert (P : 2 ^ k <= 2 ^ 62) by (apply Z.pow_le_mono_r; lia). unfold fit. cbv zeta.
  rewrite u64_small by lia. destruct (_ || _) eqn:E; [|discriminate]. intros _ Hx M.
  destruct (align_up_mask_bounds (ex_at e) k) as [B _]; [lia..|]. pose proof (aligned_least (ex_at e) k x ltac:(lia) ltac:(lia) ltac:(lia) Hx M).
  apply orb_true_iff in E as [E|E]; [apply orb_true_iff in E as [E|E]|]; to_prop; lia.
Qed.

(** What replaces an extent a block is cut from. *)
Definition remains (e : Extent) (at_ : Z) : list Extent := filter nonempty [before_block e at_; after_block e at_ size_].

Lemma take_step count seen e rest :
  take_scan count size_ (2 ^ k) seen (e :: rest) =
  match fit e size_ (2 ^ k) with
  | Some at_ => if nonempty (before_block e at_) && nonempty (after_block e at_ size_) && (count =? kExtents)
                then take_scan count size_ (2 ^ k) (seen ++ [e]) rest
                else Some (at_, seen ++ remains e at_ ++ rest)
  | None => take_scan count size_ (2 ^ k) (seen ++ [e]) rest
  end.
Proof.
  cbn [take_scan]. destruct (fit _ _ _) as [a|]; [|reflexivity]. unfold remains. cbn [filter].
  destruct (nonempty (before_block e a)), (nonempty (after_block e a size_)); [destruct (count =? kExtents)|..]; reflexivity.
Qed.

Lemma remains_cut e at_ : small e -> ex_at e <= at_ -> at_ + size_ <= ex_at e + ex_bytes e ->
  chain (ex_at e) (remains e at_) (ex_at e + ex_bytes e) /\
  (forall x, free_in (remains e at_) x <-> in_extent x e /\ ~ at_ <= x < at_ + size_) /\
  (size (remains e at_) <= if nonempty (before_block e at_) && nonempty (after_block e at_ size_) then 2 else 1).
Proof.
  intros (S1 & S2 & S3) L U. unfold remains, before_block, after_block, nonempty. cbn [filter ex_at ex_bytes].
  rewrite !u64_small by (rewrite ?u64_small; lia).
  destruct (at_ - ex_at e =? 0) eqn:E1, (ex_at e + ex_bytes e - at_ - size_ =? 0) eqn:E2; to_prop; cbn [negb andb filter chain ex_at ex_bytes];
    (split; [repeat split; lia|]; split; [intros x; rewrite ?free_in_cons; unfold in_extent; cbn [ex_at ex_bytes]|cbn; lia]);
    pose proof (free_in_nil x); intuition lia.
Qed.

(** A range's free list: inside the range, which lies in the lower quarter of
    the address space, and within the array. *)
Definition extents_ok (lo hi : Z) (l : list Extent) : Prop := 0 < lo /\ hi <= 2 ^ 62 /\ chain lo l hi /\ size l <= kExtents.

Lemma chain_small lo hi l e : 0 <= lo -> hi <= 2 ^ 62 -> chain lo l hi -> In e l -> small e.
Proof.
  intros L H C I. apply in_split in I as (l1 & l2 & ->). apply chain_mid in C. unfold small. lia.
Qed.

Lemma chain_glue lo l m r hi : chain lo l m -> lo <= m + 1 -> m <= hi -> chain (m + 1) r hi -> chain lo (l ++ r) hi.
Proof.
  revert lo. induction l as [|d l IH]; intros lo L Lm Mh R; cbn [app chain]; [eapply chain_weaken; [exact R|lia|lia]|].
  cbn in L. destruct L as (? & ? & ? & L). repeat split; try lia. apply IH; [exact L|lia|lia|exact R].
Qed.

(** Putting other extents in the place of one. *)
Lemma chain_replace lo seen e mid rest hi : chain lo (seen ++ e :: rest) hi -> chain (ex_at e) mid (ex_at e + ex_bytes e) ->
  chain lo (seen ++ mid ++ rest) hi.
Proof.
  intros C M. apply chain_mid in C as (C1 & C2 & C3 & C4 & C5). apply (chain_glue _ _ _ _ _ C1); [lia|lia|].
  apply (chain_glue _ _ (ex_at e + ex_bytes e)); [eapply chain_weaken; [exact M|lia|lia]|lia|lia|exact C5].
Qed.

(** Addresses of one extent are in no other. *)
Lemma chain_apart lo seen e rest hi x : chain lo (seen ++ e :: rest) hi -> in_extent x e -> ~ free_in seen x /\ ~ free_in rest x.
Proof.
  intros C X. apply chain_mid in C as (C1 & _ & _ & _ & C5). unfold in_extent in X.
  split; intros F; [apply (chain_bounds _ _ _ _ C1) in F|apply (chain_bounds _ _ _ _ C5) in F]; lia.
Qed.

Lemma take_cut lo hi seen e rest at_ : extents_ok lo hi (seen ++ e :: rest) ->
  ex_at e <= at_ -> at_ + size_ <= ex_at e + ex_bytes e ->
  chain lo (seen ++ remains e at_ ++ rest) hi /\
  (forall x, free_in (seen ++ remains e at_ ++ rest) x <-> free_in (seen ++ e :: rest) x /\ ~ at_ <= x < at_ + size_).
Proof.
  intros (O1 & O2 & C & _) A1 A2. pose proof (chain_small lo hi _ e ltac:(lia) O2 C ltac:(apply in_elt)) as Sm.
  destruct (remains_cut e at_ Sm A1 A2) as (R1 & R2 & _). split; [eapply chain_replace; eassumption|].
  intros x. rewrite !free_in_app, free_in_cons, R2. pose proof (chain_apart _ _ _ _ _ x C) as P.
  assert (Q : at_ <= x < at_ + size_ -> in_extent x e) by (unfold in_extent; lia). tauto.
Qed.

(** Either the whole extent went, or the block has a free neighbour. *)
Lemma remains_touch lo hi seen e rest at_ : extents_ok lo hi (seen ++ e :: rest) ->
  ex_at e <= at_ -> at_ + size_ <= ex_at e + ex_bytes e ->
  size (seen ++ remains e at_ ++ rest) < size (seen ++ e :: rest) \/
  free_in (seen ++ remains e at_ ++ rest) (at_ - 1) \/ free_in (seen ++ remains e at_ ++ rest) (at_ + size_).
Proof.
  intros O A1 A2. pose proof (take_cut lo hi seen e rest at_ O A1 A2) as [_ T]. rewrite !T, !free_in_app, !free_in_cons. unfold in_extent.
  destruct O as (O1 & O2 & C & _). pose proof (chain_small lo hi _ e ltac:(lia) O2 C ltac:(apply in_elt)) as (S1 & S2 & S3).
  destruct (Z.eq_dec (ex_at e) at_) as [E1|N1]; [|right; left; split; [right; left|]; lia].
  destruct (Z.eq_dec (at_ + size_) (ex_at e + ex_bytes e)) as [E2|N2]; [|right; right; split; [right; left|]; lia].
  left. unfold remains, before_block, after_block, nonempty. cbn [filter ex_bytes]. rewrite !u64_small by (rewrite ?u64_small; lia).
  replace (at_ - ex_at e) with 0 by lia. replace (ex_at e + ex_bytes e - at_ - size_) with 0 by lia. cbn.
  rewrite !size_app, size_cons. lia.
Qed.

(** The extents [take_scan] still has to look at hold no aligned block. *)
Definition no_fit (l : list Extent) : Prop :=
  forall e x, In e l -> ex_at e <= x -> x mod 2 ^ k = 0 -> ex_at e + ex_bytes e < x + size_.

Lemma no_fit_snoc l e : no_fit l -> no_fit [e] -> no_fit (l ++ [e]).
Proof. intros A B d x I. apply in_app_or in I as [I|I]; [apply (A d x I)|apply (B d x I)]. Qed.

Lemma take_scan_spec lo hi count seen rest : extents_ok lo hi (seen ++ rest) -> count = size (seen ++ rest) ->
  match take_scan count size_ (2 ^ k) seen rest with
  | Some (at_, l) =>
      extents_ok lo hi l /\ at_ mod 2 ^ k = 0 /\
      (forall x, at_ <= x < at_ + size_ -> free_in (seen ++ rest) x) /\
      (forall x, free_in l x <-> free_in (seen ++ rest) x /\ ~ at_ <= x < at_ + size_) /\
      (size l < count \/ free_in l (at_ - 1) \/ free_in l (at_ + size_)) /\
      (count <> kExtents -> no_fit seen -> forall e x, In e (seen ++ rest) -> ex_at e <= x -> x mod 2 ^ k = 0 ->
         x + size_ <= ex_at e + ex_bytes e -> at_ <= x)
  | None => count <> kExtents -> no_fit seen -> no_fit (seen ++ rest)
  end.
Proof.
  revert seen. induction rest as [|e rest IH]; intros seen O Hc; [cbn; rewrite app_nil_r; auto|].
  rewrite take_step. destruct O as (O1 & O2 & C & Hn). pose proof (chain_small lo hi _ e ltac:(lia) O2 C ltac:(apply in_elt)) as Sm.
  assert (E : seen ++ e :: rest = (seen ++ [e]) ++ rest) by (rewrite <- app_assoc; reflexivity).
  destruct (fit e size_ (2 ^ k)) as [at_|] eqn:F.
  - destruct (fit_some e at_ Sm F) as (F1 & F2 & F3 & F4).
    destruct (_ && _) eqn:G.
    + to_prop. specialize (IH (seen ++ [e])). rewrite <- E in IH. specialize (IH (conj O1 (conj O2 (conj C Hn))) Hc).
      destruct (take_scan _ _ _ _ _) as [[a l]|]; [|intros Hf; contradiction].
      destruct IH as (I1 & I2 & I3 & I4 & I5 & _). repeat (split; [assumption|]). intros Hf; contradiction.
    + destruct (take_cut lo hi seen e rest at_ (conj O1 (conj O2 (conj C Hn))) F1 F2) as [T1 T2].
      destruct (remains_cut e at_ Sm F1 F2) as (_ & _ & R3).
      split. { repeat split; try assumption. rewrite !size_app in *. rewrite size_cons in *. unfold kExtents in *.
        destruct (_ && nonempty _); cbn [andb] in *; to_prop; lia. }
      split; [exact F3|]. split; [intros x Hx; rewrite free_in_app, free_in_cons; right; left; unfold in_extent; lia|].
      split; [exact T2|]. split; [subst count; apply (remains_touch lo hi); [exact (conj O1 (conj O2 (conj C Hn)))|exact F1|exact F2]|]. intros _ N d x I D1 D2 D3. apply in_app_or in I as [I|[<-|I]].
      * specialize (N d x I D1 D2). lia.
      * apply F4; assumption.
      * apply chain_mid in C as (_ & _ & _ & _ & C). apply in_split in I as (l1 & l2 & ->). apply chain_mid in C. lia.
  - assert (N1 : no_fit [e]) by (intros d x [<-|[]] D1 D2; apply (fit_none e x Sm F D1 D2)).
    specialize (IH (seen ++ [e])). rewrite <- E in IH. specialize (IH (conj O1 (conj O2 (conj C Hn))) Hc).
    destruct (take_scan _ _ _ _ _) as [[a l]|].
    + destruct IH as (I1 & I2 & I3 & I4 & I5 & I6). repeat (split; [assumption|]). intros Hf N. apply I6; [exact Hf|]. apply no_fit_snoc; assumption.
    + intros Hf N. apply IH; [exact Hf|]. apply no_fit_snoc; assumption.
Qed.
End Take.

(** ** Giving a block back *)

Section Give.
Context (lo hi at_ size_ : Z) (Hlo : 0 < lo) (Hhi : hi <= 2 ^ 62) (Hsize : 0 < size_) (Hat : lo <= at_) (Hend : at_ + size_ <= hi).

Lemma split_at_spec from l : chain from l hi -> from <= at_ + 1 -> (forall x, at_ <= x < at_ + size_ -> ~ free_in l x) ->
  exists a b, split_at at_ l = (a, b) /\ l = a ++ b /\ chain from a at_ /\ chain (at_ + size_) b hi.
Proof.
  revert from. induction l as [|e l IH]; intros from C F D; [exists [], []; cbn; auto|].
  pose proof C as C0. cbn [chain] in C. destruct C as (C1 & C2 & C3 & C).
  assert (De : ex_at e < at_ -> ex_at e + ex_bytes e <= at_).
  { intros L. destruct (Z.le_gt_cases (ex_at e + ex_bytes e) at_) as [|G]; [assumption|]. exfalso.
    apply (D at_ ltac:(lia)), free_in_cons. left. unfold in_extent. lia. }
  cbn [split_at]. destruct (ex_at e <? at_) eqn:E; to_prop.
  - specialize (De E). destruct (IH (ex_at e + ex_bytes e + 1) C ltac:(lia)) as (a & b & Es & -> & Ca & Cb);
      [intros x Hx Fx; apply (D x Hx), free_in_cons; right; exact Fx|].
    rewrite Es. exists (e :: a), b. cbn [app chain]. repeat split; try lia; assumption.
  - exists [], (e :: l). repeat split; [|lia|lia|exact C].
    destruct (Z.le_gt_cases (at_ + size_) (ex_at e)) as [|G]; [assumption|]. exfalso.
    apply (D (ex_at e) ltac:(lia)), free_in_cons. left. unfold in_extent. lia.
Qed.

Lemma join_before_spec a : chain lo a at_ ->
  match join_before a at_ with
  | Some (a', p) => a = a' ++ [p] /\ ex_at p + ex_bytes p = at_ /\ chain lo a' (ex_at p - 1) /\ lo <= ex_at p /\ 0 < ex_bytes p
  | None => chain lo a (at_ - 1)
  end.
Proof.
  intros C. unfold join_before. destruct a as [|p a' _] using rev_ind; [exact I|]. rewrite rev_app_distr. cbn [rev app].
  pose proof (proj1 (chain_mid _ _ _ _ _) C) as (C1 & C2 & C3 & C4 & _). rewrite rev_involutive.
  rewrite u64_small by lia. destruct (_ =? at_) eqn:E; to_prop; [auto|]. apply chain_mid. cbn. repeat split; try lia. exact C1.
Qed.

Lemma join_after_spec b : chain (at_ + size_) b hi ->
  match join_after b at_ size_ with
  | Some (n, b') => b = n :: b' /\ ex_at n = at_ + size_ /\ 0 < ex_bytes n /\ ex_at n + ex_bytes n <= hi /\ chain (ex_at n + ex_bytes n + 1) b' hi
  | None => chain (at_ + size_ + 1) b hi
  end.
Proof.
  intros C. unfold join_after. destruct b as [|n b']; [exact I|]. cbn in C. destruct C as (C1 & C2 & C3 & C4).
  rewrite u64_small by lia. destruct (_ =? ex_at n) eqn:E; to_prop; [auto 6|]. cbn. repeat split; try lia. exact C4.
Qed.

Lemma placed_ok a e b : chain lo a (ex_at e - 1) -> lo <= ex_at e -> 0 < ex_bytes e -> ex_at e + ex_bytes e <= hi ->
  chain (ex_at e + ex_bytes e + 1) b hi -> size a + 1 + size b <= kExtents -> extents_ok lo hi (a ++ e :: b).
Proof.
  intros. repeat split; try assumption; [apply chain_mid; auto|]. rewrite size_app, size_cons. lia.
Qed.

(** An extent that takes in the block: [rest] proves the chain after it. *)
Ltac give_case rest :=
  rewrite ?size_app, ?size_cons in *; split;
  [apply placed_ok; cbn [ex_at ex_bytes];
   first [lia | eassumption | eapply chain_weaken; [rest|lia|lia]]
  |left; intros x; rewrite !free_in_app, !free_in_cons; unfold in_extent; cbn [ex_at ex_bytes]; pose proof (free_in_nil x); intuition lia].

Lemma give_extents_spec l : extents_ok lo hi l -> (forall x, at_ <= x < at_ + size_ -> ~ free_in l x) ->
  let l' := give_extents l at_ size_ in
  extents_ok lo hi l' /\
  ((forall x, free_in l' x <-> free_in l x \/ at_ <= x < at_ + size_) \/
   (l' = l /\ size l = kExtents /\ ~ free_in l (at_ - 1) /\ ~ free_in l (at_ + size_))).
Proof.
  intros (_ & _ & C & N) D. destruct (split_at_spec lo l C ltac:(lia) D) as (a & b & E & -> & Ca & Cb). unfold give_extents. rewrite E.
  rewrite size_app in N. pose proof (size_nonneg (@nil Extent)).
  pose proof (join_before_spec a Ca) as Ja. pose proof (join_after_spec b Cb) as Jb. cbv zeta.
  destruct (join_before a at_) as [[a' p]|], (join_after b at_ size_) as [[n b']|].
  - destruct Ja as (-> & A1 & A2 & A3 & A4), Jb as (-> & B1 & B2 & B3 & B4). rewrite !u64_small by (rewrite ?u64_small; lia).
    give_case ltac:(exact B4).
  - destruct Ja as (-> & A1 & A2 & A3 & A4). rewrite !u64_small by lia.
    give_case ltac:(exact Jb).
  - destruct Jb as (-> & B1 & B2 & B3 & B4). rewrite !u64_small by lia.
    give_case ltac:(exact B4).
  - destruct (size (a ++ b) <? kExtents) eqn:F; to_prop.
    + give_case ltac:(exact Jb).
    + split; [repeat split; try assumption; rewrite size_app; exact N|]. right. split; [reflexivity|]. split; [rewrite size_app in *; lia|].
      split; rewrite free_in_app; intros [X|X].
      * apply (chain_bounds _ _ _ _ Ja) in X. lia.
      * apply (chain_bounds _ _ _ _ Cb) in X. lia.
      * apply (chain_bounds _ _ _ _ Ca) in X. lia.
      * apply (chain_bounds _ _ _ _ Jb) in X. lia.
Qed.
End Give.

(** ** The specification: an allocator of addresses *)

(** What a client of the range relies on. *)
Definition range_ok (r : HostRange) : Prop := extents_ok (hr_base r) (hr_base r + hr_bytes r) (hr_free r).

Definition free_addresses (r : HostRange) : Z -> Prop := free_in (hr_free r).

Definition same_set (F G : Z -> Prop) : Prop := forall a, F a <-> G a.

#[export] Instance same_set_equivalence : Equivalence same_set.
Proof.
  split; [intros F a; reflexivity|intros F G H a; symmetry; apply H|intros F G H E1 E2 a; rewrite (E1 a); apply E2].
Qed.

Definition block (at_ n a : Z) : Prop := at_ <= a < at_ + n.
Definition within (B F : Z -> Prop) : Prop := forall a, B a -> F a.

Inductive range_call : Type :=
| CallTake (n k : Z)        (* take(n, 2^k) *)
| CallGive (at_ n : Z).

(** One call on a set [F] of free addresses.  A block is handed out at the
    lowest aligned place it fits; a call is refused, or a block given back is
    not kept, only when there is no place or the free list is [crowded]. *)
Inductive spec_step (crowded : Prop) (F : Z -> Prop) : range_call -> Z -> (Z -> Prop) -> Prop :=
| spec_taken n k at_ :
    at_ <> 0 -> at_ mod 2 ^ k = 0 -> within (block at_ n) F ->
    (crowded \/ forall y, y mod 2 ^ k = 0 -> within (block y n) F -> at_ <= y) ->
    spec_step crowded F (CallTake n k) at_ (fun a => F a /\ ~ block at_ n a)
| spec_refused n k :
    (crowded \/ forall y, y mod 2 ^ k = 0 -> ~ within (block y n) F) ->
    spec_step crowded F (CallTake n k) 0 F
| spec_given at_ n :
    spec_step crowded F (CallGive at_ n) 0 (fun a => F a \/ block at_ n a)
| spec_kept_reserved at_ n :
    crowded -> ~ F (at_ - 1) -> ~ F (at_ + n) ->
    spec_step crowded F (CallGive at_ n) 0 F.

Definition run_call (r : HostRange) (c : range_call) : Z * HostRange :=
  match c with
  | CallTake n k => hr_take r n (2 ^ k)
  | CallGive at_ n => (0, hr_give r at_ n)
  end.

(** The calls the broker makes: block sizes and alignments of the protocol, and
    only a block that was taken is given back. *)
Definition call_ok (r : HostRange) (c : range_call) : Prop :=
  match c with
  | CallTake n k => 0 < n < 2 ^ 62 /\ 0 <= k <= 62
  | CallGive at_ n => 0 < n /\ hr_base r <= at_ /\ at_ + n <= hr_base r + hr_bytes r /\ forall a, block at_ n a -> ~ free_addresses r a
  end.

Definition crowded (r : HostRange) : Prop := size (hr_free r) = kExtents.

Lemma hr_take_spec r n k : range_ok r -> 0 < n < 2 ^ 62 -> 0 <= k <= 62 ->
  let '(at_, r') := hr_take r n (2 ^ k) in
  range_ok r' /\
  ((at_ = 0 /\ r' = r /\ (crowded r \/ forall y, y mod 2 ^ k = 0 -> ~ within (block y n) (free_addresses r))) \/
   (at_ <> 0 /\ at_ mod 2 ^ k = 0 /\ within (block at_ n) (free_addresses r) /\
    same_set (free_addresses r') (fun a => free_addresses r a /\ ~ block at_ n a) /\
    (size (hr_free r') < size (hr_free r) \/ free_addresses r' (at_ - 1) \/ free_addresses r' (at_ + n)) /\
    (crowded r \/ forall y, y mod 2 ^ k = 0 -> within (block y n) (free_addresses r) -> at_ <= y))).
Proof.
  intros O Hn Hk. unfold hr_take. pose proof (take_scan_spec n k Hn Hk _ _ (size (hr_free r)) [] (hr_free r) O eq_refl) as T. cbn [app] in T.
  destruct O as (O1 & O2 & C & N). assert (P : 0 < 2 ^ k) by (apply Z.pow_pos_nonneg; lia).
  destruct (take_scan _ _ _ _ _) as [[at_ l]|].
  - destruct T as (T1 & T2 & T3 & T4 & T5 & T6). split; [exact T1|]. right.
    pose proof (chain_bounds _ _ _ at_ C (T3 at_ ltac:(lia))).
    split; [lia|]. split; [exact T2|]. split; [exact T3|]. split; [exact T4|]. split; [exact T5|].
    destruct (Z.eq_dec (size (hr_free r)) kExtents) as [E|E]; [left; exact E|right]. intros y My By.
    destruct (run_in_one _ _ _ y n C ltac:(lia) By) as (e & I & E1 & E2). apply (T6 E ltac:(intros ? ? [])) with e; assumption.
  - split; [repeat split; assumption|]. left. split; [reflexivity|]. split; [reflexivity|].
    destruct (Z.eq_dec (size (hr_free r)) kExtents) as [E|E]; [left; exact E|right]. intros y My By.
    destruct (run_in_one _ _ _ y n C ltac:(lia) By) as (e & I & E1 & E2).
    specialize (T E ltac:(intros ? ? []) e y I E1 My). lia.
Qed.

Lemma hr_give_spec r at_ n : range_ok r -> call_ok r (CallGive at_ n) ->
  range_ok (hr_give r at_ n) /\
  (same_set (free_addresses (hr_give r at_ n)) (fun a => free_addresses r a \/ block at_ n a) \/
   (hr_free (hr_give r at_ n) = hr_free r /\ crowded r /\ ~ free_addresses r (at_ - 1) /\ ~ free_addresses r (at_ + n))).
Proof.
  intros O (Hn & Ha & He & D). pose proof O as (O1 & O2 & _). apply (give_extents_spec _ _ at_ n O1 O2 Hn Ha He _ O D).
Qed.

(** C20: The free list implements an allocator of addresses.  Every call the
    broker makes on a well-formed range is a step of the specification on the
    set of free addresses: [take] hands out the lowest aligned place the block
    fits (or reports none), removing exactly the block, and [give] adds exactly
    the block; the free list's 512 entries show only when they are all used.
    The list stays sorted, coalesced and inside the range. *)
Theorem host_range_refines r c : range_ok r -> call_ok r c ->
  let '(result, r') := run_call r c in
  range_ok r' /\ exists F', spec_step (crowded r) (free_addresses r) c result F' /\ same_set F' (free_addresses r').
Proof.
  intros O. destruct c as [n k|at_ n]; cbn [run_call]; intros H.
  - destruct H as [Hn Hk]. pose proof (hr_take_spec r n k O Hn Hk) as T. destruct (hr_take r n (2 ^ k)) as [at_ r'].
    destruct T as [O' [(-> & -> & T)|(T1 & T2 & T3 & T4 & _ & T5)]]; (split; [exact O'|]).
    + exists (free_addresses r). split; [constructor; exact T|reflexivity].
    + eexists. split; [constructor; assumption|]. symmetry. exact T4.
  - destruct (hr_give_spec r at_ n O H) as [O' [T|(T1 & T2 & T3 & T4)]]; (split; [exact O'|]).
    + eexists. split; [apply spec_given|]. symmetry. exact T.
    + exists (free_addresses r). split; [apply spec_kept_reserved; assumption|]. unfold free_addresses. rewrite T1. reflexivity.
Qed.

(** Giving back what was just taken restores the free list exactly,
    extent for extent, whatever the list was. *)
Theorem take_give_restores r n k at_ r' :
  range_ok r -> 0 < n < 2 ^ 62 -> 0 <= k <= 62 -> hr_take r n (2 ^ k) = (at_, r') -> at_ <> 0 ->
  hr_free (hr_give r' at_ n) = hr_free r.
Proof.
  intros O Hn Hk E Hne. pose proof (hr_take_spec r n k O Hn Hk) as T. rewrite E in T.
  destruct T as [O' [(Z0 & _)|(_ & T2 & T3 & T4 & T5 & _)]]; [contradiction|].
  assert (B : hr_base r' = hr_base r /\ hr_bytes r' = hr_bytes r).
  { unfold hr_take in E. destruct (take_scan _ _ _ _ _) as [[a l]|]; injection E as <- <-; auto. }
  destruct B as [B1 B2]. pose proof O as (_ & _ & C & N).
  pose proof (chain_bounds _ _ _ at_ C (T3 at_ ltac:(unfold block; lia))).
  pose proof (chain_bounds _ _ _ (at_ + n - 1) C (T3 (at_ + n - 1) ltac:(unfold block; lia))).
  assert (G : call_ok r' (CallGive at_ n)).
  { cbn. rewrite B1, B2. repeat split; [lia..|]. intros a Ha Fa. apply T4 in Fa. tauto. }
  destruct (hr_give_spec r' at_ n O' G) as [(_ & _ & C' & _) [S|(S1 & S2 & S3 & S4)]].
  - apply (chain_unique _ _ _ _ _ _ C' C). intros a. rewrite (S a), (T4 a).
    split; [intros [[F _]|Bl]; [exact F|apply T3, Bl]|]. intros F. destruct (Z_le_dec at_ a), (Z_lt_dec a (at_ + n)); unfold block; tauto || lia.
  - exfalso. unfold crowded in S2. destruct T5 as [T5|[T5|T5]]; [lia|contradiction..].
Qed.

(** The window's range, just reserved. *)
Definition sample_range : HostRange :=
  snd (fst (hr_reserve (host_range PW_GPU_HOST_WINDOW_BASE PW_GPU_HOST_WINDOW_BYTES) (0, PW_GPU_HOST_WINDOW_BASE))).

Lemma sample_range_ok : range_ok sample_range.
Proof. repeat split; vm_compute; congruence. Qed.

Lemma host_range_refines_witness :
  let '(result, r') := run_call sample_range (CallTake 0x8000 16) in
  result = 0x240000000 /\ range_ok r' /\
  exists F', spec_step (crowded sample_range) (free_addresses sample_range) (CallTake 0x8000 16) result F' /\ same_set F' (free_addresses r').
Proof.
  split; [reflexivity|]. apply (host_range_refines sample_range (CallTake 0x8000 16)); [apply sample_range_ok|cbn; lia].
Defined.

Lemma take_give_restores_witness :
  hr_free (hr_give (snd (hr_take sample_range 0x8000 (2 ^ 16))) 0x240000000 0x8000) = hr_free sample_range.
Proof.
  apply (take_give_restores sample_range 0x8000 16); [apply sample_range_ok|lia|lia|reflexivity|discriminate].
Defined.

(** ** Runs: the blocks handed out *)

Record Holding := { h_range : HostRange; h_blocks : list (Z * Z) }.

Inductive range_use : Type :=
| UseTake (n k : Z)
| UseGive (i : nat).        (* the [i]-th block held is given back *)

Definition hold (h : Holding) (u : range_use) : Holding :=
  match u with
  | UseTake n k =>
      let '(at_, r) := hr_take (h_range h) n (2 ^ k) in
      {| h_range := r; h_blocks := if at_ =? 0 then h_blocks h else (at_, n) :: h_blocks h |}
  | UseGive i =>
      match nth_error (h_blocks h) i with
      | Some (at_, n) => {| h_range := hr_give (h_range h) at_ n; h_blocks := firstn i (h_blocks h) ++ skipn (S i) (h_blocks h) |}
      | None => h
      end
  end.

Definition take_ok (u : range_use) : Prop :=
  match u with UseTake n k => 0 < n < 2 ^ 62 /\ 0 <= k <= 62 | UseGive _ => True end.

Definition disjoint (b c : Z * Z) : Prop := fst b + snd b <= fst c \/ fst c + snd c <= fst b.

(** A block held: inside the range, and none of it free. *)
Definition held (r : HostRange) (b : Z * Z) : Prop :=
  0 < snd b /\ hr_base r <= fst b /\ fst b + snd b <= hr_base r + hr_bytes r /\
  forall a, block (fst b) (snd b) a -> ~ free_addresses r a.

Definition holding_ok (h : Holding) : Prop :=
  range_ok (h_range h) /\ Forall (held (h_range h)) (h_blocks h) /\ ForallOrdPairs disjoint (h_blocks h).

Lemma hr_take_same r n a : hr_base (snd (hr_take r n a)) = hr_base r /\ hr_bytes (snd (hr_take r n a)) = hr_bytes r.
Proof. unfold hr_take. destruct (take_scan _ _ _ _ _) as [[? ?]|]; auto. Qed.

Lemma ordpairs_mid {A : Type} (R : A -> A -> Prop) l b m : (forall x y, R x y -> R y x) ->
  ForallOrdPairs R (l ++ b :: m) <-> Forall (R b) (l ++ m) /\ ForallOrdPairs R (l ++ m).
Proof.
  intros Sy. induction l as [|c l IH]; cbn [app].
  - split; [intros H; inversion H; subst; auto|intros [? ?]; constructor; assumption].
  - split.
    + intros H. inversion H as [|? ? F O]; subst. apply IH in O as [O1 O2]. apply Forall_app in F as [F1 F2]. inversion F2; subst.
      split; [constructor; [apply Sy; assumption|exact O1]|]. constructor; [apply Forall_app; auto|exact O2].
    + intros [F O]. inversion F; subst. inversion O as [|? ? G P]; subst. constructor; [|apply IH; auto].
      apply Forall_app in G as [G1 G2]. apply Forall_app; split; [exact G1|]. constructor; [apply Sy; assumption|exact G2].
Qed.

Lemma disjoint_sym b c : disjoint b c -> disjoint c b.
Proof. unfold disjoint. tauto. Qed.

(** A block of free addresses is apart from every block held. *)
Lemma held_apart r at_ n b : 0 < n -> within (block at_ n) (free_addresses r) -> held r b -> disjoint (at_, n) b.
Proof.
  intros Hn W (H1 & _ & _ & H2). unfold disjoint. cbn [fst snd].
  destruct (Z.le_gt_cases (at_ + n) (fst b)) as [|G1]; [auto|]. destruct (Z.le_gt_cases (fst b + snd b) at_) as [|G2]; [auto|]. exfalso.
  apply (H2 (Z.max at_ (fst b))); [unfold block; lia|]. apply W. unfold block. lia.
Qed.

Lemma hold_take_ok h n k : holding_ok h -> 0 < n < 2 ^ 62 -> 0 <= k <= 62 -> holding_ok (hold h (UseTake n k)).
Proof.
  intros (O & F & P) Hn Hk. cbn [hold]. pose proof (hr_take_spec _ n k O Hn Hk) as T. pose proof (hr_take_same (h_range h) n (2 ^ k)) as [B1 B2].
  destruct (hr_take (h_range h) n (2 ^ k)) as [at_ r']. cbn [snd] in B1, B2.
  destruct T as [O' [(-> & -> & _)|(T1 & _ & T3 & T4 & _)]]; [exact (conj O (conj F P))|].
  apply Z.eqb_neq in T1. rewrite T1. unfold holding_ok. cbn [h_range h_blocks]. split; [exact O'|].
  pose proof O as (_ & _ & C & _). pose proof (chain_bounds _ _ _ at_ C (T3 at_ ltac:(unfold block; lia))).
  pose proof (chain_bounds _ _ _ (at_ + n - 1) C (T3 (at_ + n - 1) ltac:(unfold block; lia))).
  split; constructor.
  - unfold held. cbn [fst snd]. rewrite B1, B2. repeat split; [lia..|]. intros a Ha Fa. apply T4 in Fa. tauto.
  - eapply Forall_impl; [|exact F]. intros b (H1 & H2 & H3 & H4). unfold held. rewrite B1, B2. repeat split; try assumption.
    intros a Ha Fa. apply T4 in Fa as [Fa _]. apply (H4 a Ha Fa).
  - eapply Forall_impl; [|exact F]. intros b Hb. apply (held_apart (h_range h)); [lia|assumption..].
  - exact P.
Qed.

Lemma remove_mid {A : Type} (l1 : list A) b l2 :
  firstn (List.length l1) (l1 ++ b :: l2) ++ skipn (S (List.length l1)) (l1 ++ b :: l2) = l1 ++ l2.
Proof. induction l1 as [|a l1 IH]; [reflexivity|]. cbn [List.length firstn app]. f_equal. exact IH. Qed.

Lemma hold_give_ok h i : holding_ok h -> holding_ok (hold h (UseGive i)).
Proof.
  intros (O & F & P). cbn [hold]. destruct (nth_error (h_blocks h) i) as [[at_ n]|] eqn:E; [|exact (conj O (conj F P))].
  apply nth_error_split in E as (l1 & l2 & E & <-). rewrite E in *. clear E.
  rewrite remove_mid.
  apply Forall_app in F as [F1 F2]. inversion F2 as [|? ? Hb F3]; subst. apply (ordpairs_mid _ _ _ _ disjoint_sym) in P as [P1 P2].
  pose proof Hb as (H1 & H2 & H3 & H4). cbn [fst snd] in *.
  destruct (hr_give_spec (h_range h) at_ n O (conj H1 (conj H2 (conj H3 H4)))) as [O' S].
  unfold holding_ok. cbn [h_range h_blocks]. split; [exact O'|]. split; [|exact P2].
  assert (F : Forall (held (h_range h)) (l1 ++ l2)) by (apply Forall_app; auto).
  apply Forall_forall. intros b Ib. pose proof (proj1 (Forall_forall _ _) F b Ib) as (B1 & B2 & B3 & B4).
  pose proof (proj1 (Forall_forall _ _) P1 b Ib) as D. unfold disjoint in D. cbn [fst snd] in D.
  unfold held. repeat split; try assumption. intros a Ha Fa. destruct S as [S|(S & _)].
  - apply S in Fa as [Fa|Fa]; [apply (B4 a Ha Fa)|]. unfold block in *. lia.
  - apply (B4 a Ha). unfold free_addresses in *. rewrite <- S. exact Fa.
Qed.

(** No two clients are given the same address.  From a range just
    reserved, after any sequence of takes and gives, the blocks held lie in
    the range, no two of them overlap and no address of one is free - and the
    free list is still sorted and coalesced. *)
Theorem host_blocks_disjoint base bytes uses :
  0 < base -> 0 < bytes -> base + bytes <= 2 ^ 62 -> Forall take_ok uses ->
  let r := snd (fst (hr_reserve (host_range base bytes) (0, base))) in
  let h := fold_left hold uses {| h_range := r; h_blocks := [] |} in
  range_ok (h_range h) /\ Forall (held (h_range h)) (h_blocks h) /\ ForallOrdPairs disjoint (h_blocks h).
Proof.
  intros Hb Hn He F. cbv zeta.
  assert (O : holding_ok {| h_range := snd (fst (hr_reserve (host_range base bytes) (0, base))); h_blocks := [] |}).
  { unfold hr_reserve. rewrite !Z.eqb_refl. repeat split; cbn; try lia; try constructor; unfold kExtents, size; cbn; lia. }
  revert O. generalize {| h_range := snd (fst (hr_reserve (host_range base bytes) (0, base))); h_blocks := [] |} as h.
  induction F as [|u uses U F IH]; intros h O; [exact O|]. cbn [fold_left]. apply IH.
  destruct u as [n k|i]; [apply hold_take_ok; [exact O|apply U..]|apply hold_give_ok, O].
Qed.

Definition sample_range_uses : list range_use := [UseTake 0x4000 14; UseTake 0x10000 16; UseTake 0x4000 14; UseGive 1; UseTake 0x4000 14; UseGive 7].

Lemma host_blocks_disjoint_witness :
  let h := fold_left hold sample_range_uses {| h_range := sample_range; h_blocks := [] |} in
  h_blocks h = [(0x240008000, 0x4000); (0x240004000, 0x4000); (0x240000000, 0x4000)] /\
  range_ok (h_range h) /\ Forall (held (h_range h)) (h_blocks h) /\ ForallOrdPairs disjoint (h_blocks h).
Proof.
  split; [reflexivity|]. apply (host_blocks_disjoint PW_GPU_HOST_WINDOW_BASE PW_GPU_HOST_WINDOW_BYTES); [reflexivity..|discriminate|].
  repeat constructor; lia.
Defined.
