(* ===== verification/BrokerState.v ===== *)
(** * The broker's state and the platform under it ([src/tooling/gpu-broker/server.cpp])

    The data the broker keeps - a client's buffers and sparse ranges, the fence
    ring, the spare staging, the two host ranges - and the calls it makes of the
    kernel, of RADV's platform layer and of the application, as an interface
    over an abstract world.  Logging, thread start-up and time statistics are
    left out: no operation of the model reads them. *)

From Stdlib Require Import ZArith List Bool Lia String.
From S2P Require Import Prelude Bytes BrokerProtocol HostRange.
Import ListNotations.
Open Scope Z_scope.

(** ** Constants *)

Definition EIO : Z := 5.
Definition ENOMEM : Z := 12.
Definition EBUSY : Z := 16.
Definition EINVAL : Z := 22.
Definition ENOSPC : Z := 28.
Definition EADDRINUSE : Z := 48.
Definition EAGAIN : Z := 35.
Definition ENOTSUP : Z := 45.
Definition EPROTO : Z := 92.
Definition ENOTCONN : Z := 57.
Definition ETIMEDOUT : Z := 60.
Definition MAP_FAILED : Z := 2 ^ 64 - 1.

Definition kLocalOffer : Z := Z.shiftl 8 30.
Definition kLocalFloor : Z := Z.shiftl 1 30.
Definition kClientBuffers : Z := 1024.
Definition kClientRanges : Z := 32768.
Definition kRangeTableFloor : Z := 1024.
Definition kRing : Z := 512.
Definition kDeferred : Z := 1024.

(** [PW_GPU_RESERVE_FIXED]. *)
Definition kReserveFixed : Z := 0x10.

(** ** Data *)

Record Buffer := {
  b_address : Z;
  b_bytes : Z;
  b_token : Z;
  b_fd : Z;
  b_local : bool;
  b_ranged : bool;
  b_memory : memory;
  b_dmem : Z;
  b_pid : Z
}.

(** [Buffer{}]. *)
Definition no_buffer : Buffer :=
  {| b_address := 0; b_bytes := 0; b_token := 0; b_fd := -1; b_local := false; b_ranged := false; b_memory := no_memory;
     b_dmem := -1; b_pid := -1 |}.

Record Range := { r_address : Z; r_bytes : Z; r_memory : memory }.

(** [Range{}]. *)
Definition no_range : Range := {| r_address := 0; r_bytes := 0; r_memory := no_memory |}.

(** [range_index], the [std::map] from a live range's address to its slot: its
    entries in the order of their keys. *)
Definition RangeIndex : Type := list (Z * nat).

Record Client := {
  c_pid : Z;
  c_expected_pid : Z;
  c_next_token : Z;
  c_buffers : list Buffer;
  c_ranges : list Range;
  c_range_count : Z;
  c_range_peak : Z;
  c_range_index : RangeIndex;
  c_allocated : Z;
  c_local : Z;
  c_local_peak : Z;
  c_tess : Z;
  c_tess_bytes : Z;
  c_granularity : Z;
  c_buffering : Z;
  c_offchip : bool;
  c_submissions : Z;
  c_allocation_stage : string
}.

(** A client as [reset] leaves it. *)
Definition new_client (expected_pid : Z) : Client :=
  {| c_pid := -1; c_expected_pid := expected_pid; c_next_token := 0;
     c_buffers := repeat no_buffer (Z.to_nat kClientBuffers); c_ranges := []; c_range_count := 0; c_range_peak := 0;
     c_range_index := []; c_allocated := 0; c_local := 0; c_local_peak := 0; c_tess := 0; c_tess_bytes := 0; c_granularity := 0;
     c_buffering := 0; c_offchip := false; c_submissions := 0; c_allocation_stage := "none" |}.

Record Inflight := { in_seq : Z; in_staging : memory }.
Record Deferred := { d_buffer : Buffer; d_seq : Z }.

(** [struct Fences]: the ring from [head] on, [count] entries, oldest first,
    and the first [deferred_count] deferred buffers. *)
Record Fences := {
  f_page : memory;
  f_issued : Z;
  f_head : Z;
  f_ring : list Inflight;
  f_deferred : list Deferred;
  f_staging : staging;
  f_tess : Z;
  f_tess_bytes : Z;
  f_granularity : Z;
  f_buffering : Z;
  f_offchip : bool;
  f_drains : Z;
  f_state_drains : Z;
  f_kick : bool;
  f_kicks : Z;
  f_stamps : memory
}.

(** [Fences{}]. *)
Definition no_fences : Fences :=
  {| f_page := no_memory; f_issued := 0; f_head := 0; f_ring := []; f_deferred := []; f_staging := no_staging; f_tess := 0; f_tess_bytes := 0;
     f_granularity := 0; f_buffering := 0; f_offchip := false; f_drains := 0; f_state_drains := 0; f_kick := false; f_kicks := 0;
     f_stamps := no_memory |}.

(** The counters of staging memory and of the memory helper's. *)
Record Counters := {
  n_staging_allocs : Z; n_staging_frees : Z; n_staging_reuses : Z; n_staging_refused : Z; n_staging_held : Z; n_staging_peak : Z;
  n_dmem_made : Z; n_dmem_freed : Z; n_dmem_refused : Z; n_dmem_free_failed : Z; n_dmem_bytes_made : Z
}.

Definition no_counters : Counters :=
  {| n_staging_allocs := 0; n_staging_frees := 0; n_staging_reuses := 0; n_staging_refused := 0; n_staging_held := 0; n_staging_peak := 0;
     n_dmem_made := 0; n_dmem_freed := 0; n_dmem_refused := 0; n_dmem_free_failed := 0; n_dmem_bytes_made := 0 |}.

(** ** The platform *)

(** The calls the broker makes, over a world [W]: each may look at and change
    the world.  Addresses and file descriptors are numbers. *)
Class Platform (W : Type) := {
  (* the kernel *)
  p_reserve : forall (at_ bytes flags alignment : Z), W -> (Z * Z) * W;       (* sceKernelReserveVirtualRange: its code, and the address *)
  p_munmap : forall (at_ bytes : Z), W -> W;
  p_map_direct : forall (at_ bytes offset : Z), W -> (Z * Z) * W;             (* sceKernelMapDirectMemory: its code, and the address *)
  p_mmap : forall (at_ bytes fd : Z), W -> Z * W;
  p_close : forall (fd : Z), W -> W;
  p_shm_open : W -> Z * W;
  p_ftruncate : forall (fd bytes : Z), W -> Z * W;
  p_usleep : forall (us : Z), W -> W;
  p_table_stats : W -> (Z * (Z * Z) * (Z * Z)) * W;                            (* code, CPU total and free, GPU total and free *)
  (* the application's makers, where it set them *)
  p_dmem_alloc : option (forall (bytes pid : Z), W -> (Z * Z) * W);           (* code, offset *)
  p_dmem_release : option (forall (offset bytes : Z), W -> Z * W);
  p_shared_alloc : option (forall (bytes : Z), W -> (Z * Z) * W);             (* descriptor, errno *)
  p_shared_touch : option (forall (fd bytes : Z), W -> (Z * Z) * W);          (* code, errno *)
  (* RADV's platform layer and the GPU *)
  p_memory_alloc : forall (bytes alignment : Z) (window : bool), W -> option memory * W;
  p_memory_free : memory -> W -> W;
  p_memory_zero : memory -> W -> W;
  p_available : W -> Z * W;
  p_grant_gpu : forall (at_ bytes : Z), W -> bool * W;
  p_now : W -> Z * W;
  p_read_word : forall (at_ : Z), W -> Z * W;
  p_write_words : forall (at_ : Z) (words : list Z), W -> W;
  p_copy : forall (to from bytes : Z), W -> W;
  p_submit : forall (at_ words : Z), W -> Z * W;
  p_suspend_point : W -> W;
  p_ts_start_words : Z;                                                        (* PW_GPU_TS_START_WORDS *)
  p_ts_end_words : Z;                                                          (* PW_GPU_TS_END_WORDS *)
  p_ts_slot_bytes : Z;                                                         (* PW_GPU_TS_SLOT_BYTES *)
  p_ts_start : forall (words_at slot_at : Z), W -> W;
  p_ts_end : forall (words_at slot_at : Z), W -> W;
  p_set_tess : forall (ring bytes : Z), W -> Z * W;
  p_set_offchip : forall (granularity buffering : Z), W -> Z * W;
  p_vrange_reserve : forall (bytes : Z) (window32 replayable : bool) (replay : Z), W -> option memory * W;
  p_vrange_release : memory -> W -> W;
  p_vrange_bind : forall (at_ bytes : Z) (m : memory) (offset : Z), W -> bool * W;
  p_vrange_unbind : forall (at_ bytes : Z), W -> bool * W;
  (* the display and the threads *)
  p_present_display : PwGpuMessage -> W -> Z * W;                              (* shows a display swapchain's image: status *)
  p_present_window : PwGpuMessage -> W -> Z * W;                               (* shows a window swapchain's image: status *)
  p_packet_pair : W -> option (Z * Z) * W;                                     (* a pair of connected sockets *)
  p_thread : W -> bool * W;                                                    (* pthread_create of a thread that serves one *)
  p_absent : forall (service : Z), W -> bool * W;                              (* client_absent *)
  p_display_close : W -> bool * W;                                             (* the display torn down *)
  p_desktop_windows : bool                                                     (* the application set desktop_windows *)
}.

(** What the application chose before the broker started. *)
Record Config := {
  cf_host_limit : Z;
  cf_retain_on_failure : bool;
  cf_test_fail_submit : Z;
  cf_timestamps : bool;
  cf_owner_pid : Z;          (* getpid() *)
  cf_local_memory : bool;
  cf_console_model : Z;
  cf_window_base : Z;        (* RADV_PS5_WINDOW_BASE *)
  cf_window_bytes : Z        (* RADV_PS5_WINDOW_BYTES *)
}.

(** What every client's requests share. *)
Record Shared (W : Type) := {
  s_world : W;
  s_window : HostRange;      (* host_ranges[0] *)
  s_high : HostRange;        (* host_ranges[1] *)
  s_fences : Fences;
  s_wedged : bool;
  s_counters : Counters;
  s_next_window : Z;
  s_next_high : Z;
  s_test_submissions : Z
}.
Arguments s_world {W}. Arguments s_window {W}. Arguments s_high {W}. Arguments s_fences {W}. Arguments s_wedged {W}.
Arguments s_counters {W}. Arguments s_next_window {W}. Arguments s_next_high {W}. Arguments s_test_submissions {W}.

(** ** Broker code as state transformers *)

(** A call returns; or it is retained ([retain]: the thread sleeps for good,
    with everything left as it is); or it indexes an array out of range; or the
    model's fuel for a timed wait ran out. *)
Inductive result (W A : Type) : Type :=
| Returns (a : A) (s : Shared W)
| Retained
| Faults
| OutOfFuel.
Arguments Returns {W A}. Arguments Retained {W A}. Arguments Faults {W A}. Arguments OutOfFuel {W A}.

Definition M (W A : Type) : Type := Shared W -> result W A.

Definition ret {W A : Type} (a : A) : M W A := fun s => Returns a s.

Definition mbind {W A B : Type} (m : M W A) (k : A -> M W B) : M W B :=
  fun s => match m s with
           | Returns a s' => k a s'
           | Retained => Retained
           | Faults => Faults
           | OutOfFuel => OutOfFuel
           end.

Declare Scope broker_scope.
Delimit Scope broker_scope with broker.
Notation "'let*' x ':=' m 'in' k" := (mbind m (fun x => k))
  (at level 10, x name, m at level 100, k at level 200) : broker_scope.
Notation "'let*' ' p ':=' m 'in' k" := (mbind m (fun x => match x with p => k end))
  (at level 10, p pattern, m at level 100, k at level 200) : broker_scope.
Notation "'do*' m 'in' k" := (mbind m (fun _ => k))
  (at level 10, m at level 100, k at level 200) : broker_scope.
Open Scope broker_scope.

Section Access.
Context {W : Type}.

Definition get : M W (Shared W) := fun s => Returns s s.

(** A call of the platform. *)
Definition call {A : Type} (f : W -> A * W) : M W A :=
  fun s => let '(a, w) := f (s_world s) in
    Returns a {| s_world := w; s_window := s_window s; s_high := s_high s; s_fences := s_fences s; s_wedged := s_wedged s;
                 s_counters := s_counters s; s_next_window := s_next_window s; s_next_high := s_next_high s;
                 s_test_submissions := s_test_submissions s |}.

Definition effect (f : W -> W) : M W unit := call (fun w => (tt, f w)).

Definition get_fences : M W Fences := fun s => Returns (s_fences s) s.

Definition set_fences (f : Fences) : M W unit :=
  fun s => Returns tt {| s_world := s_world s; s_window := s_window s; s_high := s_high s; s_fences := f; s_wedged := s_wedged s;
                         s_counters := s_counters s; s_next_window := s_next_window s; s_next_high := s_next_high s;
                         s_test_submissions := s_test_submissions s |}.

Definition count_ (f : Counters -> Counters) : M W unit :=
  fun s => Returns tt {| s_world := s_world s; s_window := s_window s; s_high := s_high s; s_fences := s_fences s; s_wedged := s_wedged s;
                         s_counters := f (s_counters s); s_next_window := s_next_window s; s_next_high := s_next_high s;
                         s_test_submissions := s_test_submissions s |}.

(** [host_ranges\[i\]]: the window's for 0, the high one for 1. *)
Definition host_of (s : Shared W) (i : Z) : HostRange := if i =? 0 then s_window s else s_high s.

Definition get_host (i : Z) : M W HostRange :=
  fun s => if (i =? 0) || (i =? 1) then Returns (host_of s i) s else Faults.

Definition set_host (i : Z) (r : HostRange) : M W unit :=
  fun s => Returns tt {| s_world := s_world s; s_window := if i =? 0 then r else s_window s;
                         s_high := if i =? 0 then s_high s else r; s_fences := s_fences s; s_wedged := s_wedged s;
                         s_counters := s_counters s; s_next_window := s_next_window s; s_next_high := s_next_high s;
                         s_test_submissions := s_test_submissions s |}.

(** The cursor an allocation without a reserved range moves. *)
Definition get_cursor (window : bool) : M W Z := fun s => Returns (if window then s_next_window s else s_next_high s) s.

Definition set_cursor (window : bool) (at_ : Z) : M W unit :=
  fun s => Returns tt {| s_world := s_world s; s_window := s_window s; s_high := s_high s; s_fences := s_fences s; s_wedged := s_wedged s;
                         s_counters := s_counters s; s_next_window := if window then at_ else s_next_window s;
                         s_next_high := if window then s_next_high s else at_; s_test_submissions := s_test_submissions s |}.

Definition set_wedged : M W unit :=
  fun s => Returns tt {| s_world := s_world s; s_window := s_window s; s_high := s_high s; s_fences := s_fences s; s_wedged := true;
                         s_counters := s_counters s; s_next_window := s_next_window s; s_next_high := s_next_high s;
                         s_test_submissions := s_test_submissions s |}.

Definition set_test_submissions (n : Z) : M W unit :=
  fun s => Returns tt {| s_world := s_world s; s_window := s_window s; s_high := s_high s; s_fences := s_fences s; s_wedged := s_wedged s;
                         s_counters := s_counters s; s_next_window := s_next_window s; s_next_high := s_next_high s;
                         s_test_submissions := n |}.

(** [give_up]: always [false]. *)
Definition gives_up (cf : Config) : M W bool :=
  if cf_retain_on_failure cf then fun _ => Retained else do* set_wedged in ret false.
End Access.

(** The fences with one part changed. *)
Section FencesWith.
Context (f : Fences).
Definition with_queue (head : Z) (ring : list Inflight) (pool : staging) : Fences :=
  {| f_page := f_page f; f_issued := f_issued f; f_head := head; f_ring := ring; f_deferred := f_deferred f; f_staging := pool;
     f_tess := f_tess f; f_tess_bytes := f_tess_bytes f; f_granularity := f_granularity f; f_buffering := f_buffering f; f_offchip := f_offchip f;
     f_drains := f_drains f; f_state_drains := f_state_drains f; f_kick := f_kick f; f_kicks := f_kicks f; f_stamps := f_stamps f |}.
Definition with_deferred (l : list Deferred) : Fences :=
  {| f_page := f_page f; f_issued := f_issued f; f_head := f_head f; f_ring := f_ring f; f_deferred := l; f_staging := f_staging f;
     f_tess := f_tess f; f_tess_bytes := f_tess_bytes f; f_granularity := f_granularity f; f_buffering := f_buffering f; f_offchip := f_offchip f;
     f_drains := f_drains f; f_state_drains := f_state_drains f; f_kick := f_kick f; f_kicks := f_kicks f; f_stamps := f_stamps f |}.
Definition with_issued (n : Z) : Fences :=
  {| f_page := f_page f; f_issued := n; f_head := f_head f; f_ring := f_ring f; f_deferred := f_deferred f; f_staging := f_staging f;
     f_tess := f_tess f; f_tess_bytes := f_tess_bytes f; f_granularity := f_granularity f; f_buffering := f_buffering f; f_offchip := f_offchip f;
     f_drains := f_drains f; f_state_drains := f_state_drains f; f_kick := f_kick f; f_kicks := f_kicks f; f_stamps := f_stamps f |}.
Definition with_pages (page stamps : memory) : Fences :=
  {| f_page := page; f_issued := f_issued f; f_head := f_head f; f_ring := f_ring f; f_deferred := f_deferred f; f_staging := f_staging f;
     f_tess := f_tess f; f_tess_bytes := f_tess_bytes f; f_granularity := f_granularity f; f_buffering := f_buffering f; f_offchip := f_offchip f;
     f_drains := f_drains f; f_state_drains := f_state_drains f; f_kick := f_kick f; f_kicks := f_kicks f; f_stamps := stamps |}.
Definition with_drains (drains state_drains : Z) : Fences :=
  {| f_page := f_page f; f_issued := f_issued f; f_head := f_head f; f_ring := f_ring f; f_deferred := f_deferred f; f_staging := f_staging f;
     f_tess := f_tess f; f_tess_bytes := f_tess_bytes f; f_granularity := f_granularity f; f_buffering := f_buffering f; f_offchip := f_offchip f;
     f_drains := drains; f_state_drains := state_drains; f_kick := f_kick f; f_kicks := f_kicks f; f_stamps := f_stamps f |}.
Definition with_kick (kick : bool) (kicks : Z) : Fences :=
  {| f_page := f_page f; f_issued := f_issued f; f_head := f_head f; f_ring := f_ring f; f_deferred := f_deferred f; f_staging := f_staging f;
     f_tess := f_tess f; f_tess_bytes := f_tess_bytes f; f_granularity := f_granularity f; f_buffering := f_buffering f; f_offchip := f_offchip f;
     f_drains := f_drains f; f_state_drains := f_state_drains f; f_kick := kick; f_kicks := kicks; f_stamps := f_stamps f |}.
Definition with_tess (tess tess_bytes : Z) : Fences :=
  {| f_page := f_page f; f_issued := f_issued f; f_head := f_head f; f_ring := f_ring f; f_deferred := f_deferred f; f_staging := f_staging f;
     f_tess := tess; f_tess_bytes := tess_bytes; f_granularity := f_granularity f; f_buffering := f_buffering f; f_offchip := f_offchip f;
     f_drains := f_drains f; f_state_drains := f_state_drains f; f_kick := f_kick f; f_kicks := f_kicks f; f_stamps := f_stamps f |}.
Definition with_offchip (granularity buffering : Z) : Fences :=
  {| f_page := f_page f; f_issued := f_issued f; f_head := f_head f; f_ring := f_ring f; f_deferred := f_deferred f; f_staging := f_staging f;
     f_tess := f_tess f; f_tess_bytes := f_tess_bytes f; f_granularity := granularity; f_buffering := buffering; f_offchip := true;
     f_drains := f_drains f; f_state_drains := f_state_drains f; f_kick := f_kick f; f_kicks := f_kicks f; f_stamps := f_stamps f |}.
End FencesWith.
