(* ===== verification/BrokerMemory.v ===== *)
(** * Client memory ([src/tooling/gpu-broker/server.cpp], [map_host] to [allocate])

    Host-visible buffers, placed in one of the two reserved ranges and mapped
    there, and device-local ones, made by RADV's platform layer.  A failed
    allocation gives back everything it took. *)

From Stdlib Require Import ZArith List Bool Lia String.
From S2P Require Import Prelude Bytes BrokerProtocol HostRange BrokerState.
Import ListNotations.
Open Scope Z_scope.
Open Scope broker_scope.

(** ** A client with parts changed *)

Section ClientWith.
Context (c : Client).

Definition with_stage (stage : string) : Client :=
  {| c_pid := c_pid c; c_expected_pid := c_expected_pid c; c_next_token := c_next_token c; c_buffers := c_buffers c; c_ranges := c_ranges c;
     c_range_count := c_range_count c; c_range_peak := c_range_peak c; c_range_index := c_range_index c; c_allocated := c_allocated c;
     c_local := c_local c; c_local_peak := c_local_peak c; c_tess := c_tess c; c_tess_bytes := c_tess_bytes c; c_granularity := c_granularity c;
     c_buffering := c_buffering c; c_offchip := c_offchip c; c_submissions := c_submissions c; c_allocation_stage := stage |}.

(** The accounts and the buffers. *)
Definition with_accounts (token allocated local local_peak : Z) (buffers : list Buffer) : Client :=
  {| c_pid := c_pid c; c_expected_pid := c_expected_pid c; c_next_token := token; c_buffers := buffers; c_ranges := c_ranges c;
     c_range_count := c_range_count c; c_range_peak := c_range_peak c; c_range_index := c_range_index c; c_allocated := allocated;
     c_local := local; c_local_peak := local_peak; c_tess := c_tess c; c_tess_bytes := c_tess_bytes c; c_granularity := c_granularity c;
     c_buffering := c_buffering c; c_offchip := c_offchip c; c_submissions := c_submissions c; c_allocation_stage := c_allocation_stage c |}.
End ClientWith.

(** A message with the answer of an allocation. *)
Definition with_answer (m : PwGpuMessage) (address bytes arg0 arg2 : Z) : PwGpuMessage :=
  {| m_magic := m_magic m; m_operation := m_operation m; m_sequence := m_sequence m; m_status := m_status m; m_address := address;
     m_bytes := bytes; m_arg0 := arg0; m_arg1 := m_arg1 m; m_arg2 := arg2; m_arg3 := m_arg3 m |}.

(** [slots\[i\] = value]. *)
Fixpoint set_slot {A : Type} (slots : list A) (i : nat) (value : A) : list A :=
  match slots, i with
  | [], _ => []
  | _ :: rest, O => value :: rest
  | a :: rest, S i' => a :: set_slot rest i' value
  end.

(** The first slot a predicate accepts. *)
Fixpoint first_slot {A : Type} (p : A -> bool) (slots : list A) (i : nat) : option nat :=
  match slots with
  | [] => None
  | a :: rest => if p a then Some i else first_slot p rest (S i)
  end.

Section Memory.
Context {W : Type} {P : Platform W} (cf : Config).

Definition owned (c : Client) (address bytes : Z) : bool :=
  existsb (fun b => negb (b_token b =? 0) && pw_gpu_contains (b_address b) (b_bytes b) address bytes) (c_buffers c).

(** ** Mapping *)

Definition dmem_give_back (offset bytes : Z) : M W unit :=
  match p_dmem_release with
  | None => count_ (fun n => {| n_staging_allocs := n_staging_allocs n; n_staging_frees := n_staging_frees n; n_staging_reuses := n_staging_reuses n;
      n_staging_refused := n_staging_refused n; n_staging_held := n_staging_held n; n_staging_peak := n_staging_peak n;
      n_dmem_made := n_dmem_made n; n_dmem_freed := n_dmem_freed n; n_dmem_refused := n_dmem_refused n;
      n_dmem_free_failed := u64 (n_dmem_free_failed n + 1); n_dmem_bytes_made := n_dmem_bytes_made n |})
  | Some release_ =>
      let* rc := call (release_ offset bytes) in
      count_ (fun n => {| n_staging_allocs := n_staging_allocs n; n_staging_frees := n_staging_frees n; n_staging_reuses := n_staging_reuses n;
        n_staging_refused := n_staging_refused n; n_staging_held := n_staging_held n; n_staging_peak := n_staging_peak n;
        n_dmem_made := n_dmem_made n; n_dmem_freed := if rc =? 0 then u64 (n_dmem_freed n + 1) else n_dmem_freed n;
        n_dmem_refused := n_dmem_refused n;
        n_dmem_free_failed := if rc =? 0 then n_dmem_free_failed n else u64 (n_dmem_free_failed n + 1);
        n_dmem_bytes_made := n_dmem_bytes_made n |})
  end.

Definition count_dmem (refused : bool) (bytes : Z) : M W unit :=
  count_ (fun n => {| n_staging_allocs := n_staging_allocs n; n_staging_frees := n_staging_frees n; n_staging_reuses := n_staging_reuses n;
    n_staging_refused := n_staging_refused n; n_staging_held := n_staging_held n; n_staging_peak := n_staging_peak n;
    n_dmem_made := if refused then n_dmem_made n else u64 (n_dmem_made n + 1); n_dmem_freed := n_dmem_freed n;
    n_dmem_refused := if refused then u64 (n_dmem_refused n + 1) else n_dmem_refused n; n_dmem_free_failed := n_dmem_free_failed n;
    n_dmem_bytes_made := if refused then n_dmem_bytes_made n else u64 (n_dmem_bytes_made n + bytes) |}).

(** [shm_open] and [ftruncate], the object made in this process. *)
Definition own_object (bytes : Z) : M W Z :=
  let* fd := call p_shm_open in
  if fd <? 0 then ret fd
  else
    let* rc := call (p_ftruncate fd bytes) in
    if rc =? 0 then ret fd else do* effect (p_close fd) in ret (-1).

Definition shared_object (bytes : Z) : M W Z :=
  match p_shared_alloc with
  | None => own_object bytes
  | Some alloc =>
      let* '(fd, errno) := call (alloc bytes) in
      let* '(touched, errno) :=
        (if 0 <=? fd then
           match p_shared_touch with
           | None => ret (true, errno)
           | Some touch => let* '(rc, e) := call (touch fd bytes) in ret (rc =? 0, e)
           end
         else ret (false, errno)) in
      if touched then ret fd
      else
        do* (if 0 <=? fd then effect (p_close fd) else ret tt) in
        if (errno =? ENOTCONN) || (errno =? ETIMEDOUT) then ret (-1) else own_object bytes
  end.

(** The address mapped, the descriptor and the direct-memory offset. *)
Definition map_shared (at_ bytes : Z) : M W (Z * Z * Z) :=
  let* fd := shared_object bytes in
  if fd <? 0 then ret (MAP_FAILED, fd, -1)
  else let* mapped := call (p_mmap at_ bytes fd) in ret (mapped, fd, -1).

Definition map_host (c : Client) (at_ bytes : Z) : M W (Z * Z * Z) :=
  match p_dmem_alloc with
  | None => map_shared at_ bytes
  | Some alloc =>
      let* '(rc, offset) := call (alloc bytes (c_pid c)) in
      if negb (rc =? 0) then do* count_dmem true bytes in map_shared at_ bytes
      else
        do* count_dmem false bytes in
        let* '(mrc, got) := call (p_map_direct at_ bytes offset) in
        if (mrc =? 0) && (got =? at_) then ret (got, -1, offset)
        else do* dmem_give_back offset bytes in map_shared at_ bytes
  end.

(** ** Giving back *)

(** A reservation laid over [at, at+bytes) again, in place. *)
Definition reserve_again (at_ bytes : Z) : M W bool :=
  let* '(rc, got) := call (p_reserve at_ bytes kReserveFixed 16384) in ret ((rc =? 0) && (got =? at_)).

Definition give_to (i at_ bytes : Z) : M W unit :=
  let* r := get_host i in set_host i (hr_give r at_ bytes).

Definition close_handles (fd dmem bytes : Z) : M W unit :=
  do* (if 0 <=? fd then effect (p_close fd) else ret tt) in
  if 0 <=? dmem then dmem_give_back dmem bytes else ret tt.

(** [release]; the caller's [Buffer] becomes [Buffer{}]. *)
Definition release (b : Buffer) : M W unit :=
  do* (if b_local b then effect (p_memory_free (b_memory b))
       else if b_ranged b then
         let i := pw_gpu_host_range (b_address b) (b_bytes b) in
         do* get_host i in
         let* kept := reserve_again (b_address b) (b_bytes b) in
         if kept then give_to i (b_address b) (b_bytes b) else effect (p_munmap (b_address b) (b_bytes b))
       else if negb (b_address b =? 0) then effect (p_munmap (b_address b) (b_bytes b)) else ret tt) in
  close_handles (b_fd b) (b_dmem b) (b_bytes b).

(** ** Device-local memory *)

Definition local_room : M W Z :=
  let* available := call p_available in
  ret (if kLocalFloor <? available then Z.land (available - kLocalFloor) (u64 (Z.lnot 16383)) else 0).

Definition local_offer : M W Z :=
  let* room := local_room in
  let share := Z.land (u64 (room / 3 * 2)) (u64 (Z.lnot 16383)) in
  ret (if share <? kLocalOffer then share else kLocalOffer).

(** The status, the client and the message afterwards; [slot] is the free slot
    found. *)
Definition allocate_local (c : Client) (m : PwGpuMessage) (slot : nat) (bytes alignment : Z) : M W (Z * Client * PwGpuMessage) :=
  if u64 (kLocalOffer - c_local c) <? bytes then ret (ENOMEM, with_stage c "local_budget", m)
  else
    let* available := call p_available in
    if available <? u64 (kLocalFloor + bytes) then ret (ENOMEM, with_stage c "local_floor", m)
    else
      let* made := call (p_memory_alloc bytes alignment (negb (m_arg1 m =? 0))) in
      match made with
      | None => ret (ENOMEM, with_stage c "local_direct", m)
      | Some mem =>
          do* (if negb (Z.land (m_arg2 m) PW_GPU_ALLOC_ZERO =? 0) then effect (p_memory_zero mem) else ret tt) in
          let token := u32 (c_next_token c + 1) in
          let b := {| b_address := mem_cpu mem; b_bytes := mem_bytes mem; b_token := token; b_fd := -1; b_local := true; b_ranged := false;
                      b_memory := mem; b_dmem := -1; b_pid := -1 |} in
          let local := u64 (c_local c + mem_bytes mem) in
          ret (0, with_stage (with_accounts c token (c_allocated c) local (if c_local_peak c <? local then local else c_local_peak c)
                                (set_slot (c_buffers c) slot b)) "complete",
               with_answer m (b_address b) (b_bytes b) token (m_arg2 m))
      end.

(** ** Host-visible memory *)

(** The request's form. *)
Definition allocation_valid (m : PwGpuMessage) : bool :=
  let local := negb (Z.land (m_arg2 m) PW_GPU_ALLOC_LOCAL =? 0) in
  negb ((m_bytes m =? 0) || ((if local then kLocalOffer else cf_host_limit cf) <? m_bytes m) || (PW_GPU_ALIGNMENT_MAX <? m_arg0 m) ||
        (negb (m_arg0 m =? 0) && negb (Z.land (m_arg0 m) (m_arg0 m - 1) =? 0)) || (1 <? m_arg1 m) ||
        negb (Z.land (m_arg2 m) (u64 (Z.lnot (Z.lor PW_GPU_ALLOC_LOCAL PW_GPU_ALLOC_ZERO))) =? 0)).

Definition rounded_bytes (m : PwGpuMessage) : Z := align_up_mask (m_bytes m) 16384.
Definition rounded_alignment (m : PwGpuMessage) : Z := if 16384 <? m_arg0 m then m_arg0 m else 16384.

(** [*b=Buffer{address,bytes,++c.next_token,...}] and the accounts, for a
    host-visible buffer. *)
Definition host_buffer (c : Client) (m : PwGpuMessage) (slot : nat) (address bytes shared dmem : Z) (ranged : bool) : Client * PwGpuMessage :=
  let token := u32 (c_next_token c + 1) in
  let b := {| b_address := address; b_bytes := bytes; b_token := token; b_fd := shared; b_local := false; b_ranged := ranged;
              b_memory := no_memory; b_dmem := dmem; b_pid := c_pid c |} in
  (with_stage (with_accounts c token (u64 (c_allocated c + bytes)) (c_local c) (c_local_peak c) (set_slot (c_buffers c) slot b)) "complete",
   with_answer m address bytes token (if 0 <=? dmem then u64 (dmem + 1) else 0)).

(** The branch with a reserved range. *)
Definition allocate_ranged (c : Client) (m : PwGpuMessage) (slot : nat) (i bytes alignment : Z) : M W (Z * Client * PwGpuMessage * Z) :=
  let* r := get_host i in
  let '(address, r') := hr_take r bytes alignment in
  do* set_host i r' in
  if address =? 0 then ret (ENOMEM, with_stage c "range", m, -1)
  else
    let* '(mapped, shared, dmem) := map_host c address bytes in
    let* granted := (if mapped =? address then call (p_grant_gpu mapped bytes) else ret false) in
    if negb granted then
      let* kept := reserve_again address bytes in
      do* (if kept then give_to i address bytes else ret tt) in
      do* close_handles shared dmem bytes in
      ret (ENOMEM, with_stage c (if mapped =? address then "gpu_permissions" else "map"), m, -1)
    else
      let '(c', m') := host_buffer c m slot address bytes shared dmem true in
      ret (0, c', m', shared).

(** [for(unsigned attempt=0;;++attempt)]: at most 64 attempts. *)
Fixpoint cursor_loop (attempts : nat) (window : bool) (bytes alignment : Z) : M W (Z + Z * string) :=
  let* cursor := get_cursor window in
  let address := align_up_mask cursor alignment in
  if window && negb (pw_gpu_contains (cf_window_base cf) (cf_window_bytes cf) address bytes) then ret (inr (ENOMEM, "window"%string))
  else
    let* '(rc, got) := call (p_reserve address bytes 0 alignment) in
    if (rc =? 0) && (got =? address) then ret (inl address)
    else
      do* (if negb (got =? 0) && negb (got =? address) then effect (p_munmap got bytes) else ret tt) in
      match attempts with
      | O => ret (inr (EADDRINUSE, "reserve"%string))
      | S attempts' =>
          do* set_cursor window (u64 (address + (if Z.shiftl 2 20 <? bytes then bytes else Z.shiftl 2 20))) in
          cursor_loop attempts' window bytes alignment
      end.

(** The branch without one. *)
Definition allocate_cursor (c : Client) (m : PwGpuMessage) (slot : nat) (bytes alignment : Z) : M W (Z * Client * PwGpuMessage * Z) :=
  let window := negb (m_arg1 m =? 0) in
  let* found := cursor_loop 63 window bytes alignment in
  match found with
  | inr (status, stage) => ret (status, with_stage c stage, m, -1)
  | inl address =>
      let* '(mapped, shared, dmem) := map_host c address bytes in
      let* granted := (if mapped =? address then call (p_grant_gpu mapped bytes) else ret false) in
      if negb granted then
        do* effect (p_munmap address bytes) in
        do* close_handles shared dmem bytes in
        ret (ENOMEM, with_stage c (if mapped =? address then "gpu_permissions" else "map"), m, -1)
      else
        do* set_cursor window (u64 (address + bytes)) in
        let '(c', m') := host_buffer c m slot address bytes shared dmem false in
        ret (0, c', m', shared)
  end.

(** The status, the client, the message, and the descriptor sent with it. *)
Definition allocate (c : Client) (m : PwGpuMessage) : M W (Z * Client * PwGpuMessage * Z) :=
  if negb (allocation_valid m) then ret (EINVAL, with_stage c "validation", m, -1)
  else
    let bytes := rounded_bytes m in
    let alignment := rounded_alignment m in
    match first_slot (fun b => b_token b =? 0) (c_buffers c) 0 with
    | None => ret (ENOSPC, with_stage c "slot", m, -1)
    | Some slot =>
        if negb (Z.land (m_arg2 m) PW_GPU_ALLOC_LOCAL =? 0) then
          let* '(status, c', m') := allocate_local c m slot bytes alignment in ret (status, c', m', -1)
        else if u64 (cf_host_limit cf - c_allocated c) <? bytes then ret (ENOMEM, with_stage c "client_budget", m, -1)
        else
          let i := if negb (m_arg1 m =? 0) then 0 else 1 in
          let* r := get_host i in
          if hr_reserved r then allocate_ranged c m slot i bytes alignment
          else allocate_cursor c m slot bytes alignment
    end.
End Memory.
