(* ===== verification/BrokerFences.v ===== *)
(** * Submissions and what waits for them ([src/tooling/gpu-broker/server.cpp], [Fences] to [submit])

    Every client's work goes to one GPU ring; each submission ends with a packet
    that writes its sequence number to the fence page.  Staging memory goes
    back to the pool, and a freed buffer is released, once the page shows that
    the GPU has passed the last submission that could use them. *)

From Stdlib Require Import ZArith List Bool Lia String.
From S2P Require Import Prelude Bytes BrokerProtocol HostRange BrokerState BrokerMemory.
Import ListNotations.
Open Scope Z_scope.
Open Scope broker_scope.

Definition done (seq completed_ : Z) : bool := s32 (seq - completed_) <=? 0.

(** [__atomic_add_fetch(&fences.issued,1)], and once more for 0. *)
Definition next_seq (issued : Z) : Z := let seq := u32 (issued + 1) in if seq =? 0 then u32 (seq + 1) else seq.

Section Fences.
Context {W : Type} {P : Platform W} (cf : Config).

Definition count_staging (allocs frees reuses refused held : Z) : M W unit :=
  count_ (fun n =>
    let held_ := u64 (n_staging_held n + held) in
    {| n_staging_allocs := u64 (n_staging_allocs n + allocs); n_staging_frees := u64 (n_staging_frees n + frees);
       n_staging_reuses := u64 (n_staging_reuses n + reuses); n_staging_refused := u64 (n_staging_refused n + refused);
       n_staging_held := held_;
       n_staging_peak := if (0 <? allocs) && (n_staging_peak n <? held_) then held_ else n_staging_peak n;
       n_dmem_made := n_dmem_made n; n_dmem_freed := n_dmem_freed n; n_dmem_refused := n_dmem_refused n;
       n_dmem_free_failed := n_dmem_free_failed n; n_dmem_bytes_made := n_dmem_bytes_made n |}).

Definition staging_free (m : memory) : M W unit :=
  do* count_staging 0 1 0 0 (- mem_bytes m) in effect (p_memory_free m).

Definition broker_submit (words count : Z) : M W Z :=
  let* status := call (p_submit words count) in
  do* (if status =? 0 then let* f := get_fences in set_fences (with_kick f true (f_kicks f)) else ret tt) in
  ret status.

Definition kick : M W unit :=
  let* f := get_fences in
  if negb (f_kick f) then ret tt
  else do* effect p_suspend_point in set_fences (with_kick f false (u64 (f_kicks f + 1))).

Definition completed : M W Z := let* f := get_fences in call (p_read_word (mem_cpu (f_page f))).

(** A buffer no submission uses: a spare, or freed past the pool's limits. *)
Definition staging_back (m : memory) : M W unit :=
  let* f := get_fences in
  let '(accepted, pool) := ps5_gpu_staging_give (f_staging f) m in
  do* set_fences (with_queue f (f_head f) (f_ring f) pool) in
  if accepted then ret tt else do* staging_free m in count_staging 0 0 0 1 0.

(** [while(fences.count && done(...))]: over the ring, oldest first. *)
Fixpoint reap_ring (now : Z) (ring : list Inflight) : M W unit :=
  match ring with
  | [] => ret tt
  | e :: rest =>
      if done (in_seq e) now then
        do* staging_back (in_staging e) in
        let* f := get_fences in
        do* set_fences (with_queue f ((f_head f + 1) mod kRing) rest (f_staging f)) in
        reap_ring now rest
      else ret tt
  end.

(** The loop over [deferred]: [kept] are the entries before index [i], [rest]
    those from it; a released entry's place is taken by the last. *)
Fixpoint reap_deferred (fuel : nat) (now : Z) (kept rest : list Deferred) : M W (list Deferred) :=
  match fuel, rest with
  | O, _ => ret (kept ++ rest)
  | _, [] => ret kept
  | S fuel', d :: rest' =>
      if done (d_seq d) now then
        do* release (d_buffer d) in
        reap_deferred fuel' now kept
          (match rev rest' with [] => [] | last_ :: middle => last_ :: rev middle end)
      else reap_deferred fuel' now (kept ++ [d]) rest'
  end.

Definition reap : M W unit :=
  let* f := get_fences in
  if mem_cpu (f_page f) =? 0 then ret tt
  else
    let* now := completed in
    do* reap_ring now (f_ring f) in
    let* left := reap_deferred (List.length (f_deferred f)) now [] (f_deferred f) in
    let* f' := get_fences in
    set_fences (with_deferred f' left).

Definition idle (f : Fences) : bool :=
  match f_ring f, f_deferred f with [], [] => true | _, _ => false end.

(** One sleep of the wait loop is 50 microseconds. *)
Fixpoint drain_loop (fuel : nat) (end_ : Z) : M W unit :=
  let* f := get_fences in
  if idle f then ret tt
  else
    let* now := call p_now in
    if negb (now <? end_) then ret tt
    else match fuel with
         | O => fun _ => OutOfFuel
         | S fuel' => do* effect (p_usleep 50) in do* reap in drain_loop fuel' end_
         end.

Definition drain (timeout_ns : Z) : M W bool :=
  do* reap in
  let* f := get_fences in
  if idle f then ret true
  else
    do* set_fences (with_drains f (u64 (f_drains f + 1)) (f_state_drains f)) in
    let* now := call p_now in
    do* drain_loop (Z.to_nat (timeout_ns / 50000 + 1)) (u64 (now + timeout_ns)) in
    let* f' := get_fences in
    ret (idle f').

(** [while(fences.staging.count)staging_free(...)]: from the last spare. *)
Fixpoint free_spares (spares : list memory) : M W unit :=
  match spares with
  | [] => ret tt
  | m :: rest => do* staging_free m in free_spares rest
  end.

Definition fences_reset : M W unit :=
  let* f := get_fences in
  do* free_spares (rev (st_spare (f_staging f))) in
  do* set_fences no_fences in
  do* (if mem_cpu (f_page f) =? 0 then ret tt else effect (p_memory_free (f_page f))) in
  if mem_cpu (f_stamps f) =? 0 then ret tt else effect (p_memory_free (f_stamps f)).

Definition fences_ready : M W bool :=
  let* f := get_fences in
  if negb (mem_cpu (f_page f) =? 0) then ret true
  else
    let* made := call (p_memory_alloc 16384 16384 false) in
    match made with
    | None => ret false
    | Some page =>
        do* effect (p_write_words (mem_cpu page) [f_issued f]) in
        do* set_fences (with_pages f page (f_stamps f)) in
        if cf_timestamps cf then
          let* stamps := call (p_memory_alloc 16384 16384 false) in
          do* set_fences (with_pages f page (match stamps with Some m => m | None => no_memory end)) in
          ret true
        else ret true
    end.

(** ** Freeing a buffer *)

(** [b] goes back to the client's account, and is released now or once the
    work in flight is done.  The caller's slot becomes [Buffer{}]. *)
Definition free_buffer (c : Client) (slot : nat) (b : Buffer) : M W Client :=
  let c' := with_accounts c (c_next_token c)
              (if b_local b then c_allocated c else u64 (c_allocated c - b_bytes b))
              (if b_local b then u64 (c_local c - b_bytes b) else c_local c) (c_local_peak c)
              (set_slot (c_buffers c) slot no_buffer) in
  let* s := get in
  if s_wedged s then ret c'
  else
    do* reap in
    let* f := get_fences in
    match f_ring f with
    | [] => do* release b in ret c'
    | _ =>
        let* stalled := (if size (f_deferred f) =? kDeferred
                         then let* drained := drain 5000000000 in ret (negb drained) else ret false) in
        if stalled then do* gives_up cf in ret c'
        else
          let* f' := get_fences in
          match f_ring f' with
          | [] => do* release b in ret c'
          | _ => do* set_fences (with_deferred f' (f_deferred f' ++ [{| d_buffer := b; d_seq := f_issued f' |}])) in ret c'
          end
    end.

(** ** Submitting *)

Definition submission_valid (c : Client) (m : PwGpuMessage) : bool :=
  negb ((m_bytes m =? 0) || negb (m_bytes m mod 4 =? 0) || (16 * 1024 * 1024 <? m_bytes m) || negb (m_address m mod 4 =? 0) ||
        negb (owned c (m_address m) (m_bytes m)) || (m_arg0 m =? 0) || negb (m_arg0 m mod 4 =? 0) || negb (owned c (m_arg0 m) 4)).

(** The GPU state a client asks for differs from the state set. *)
Definition tess_differs (c : Client) (f : Fences) : bool :=
  negb (c_tess c =? 0) && (negb (c_tess c =? f_tess f) || negb (c_tess_bytes c =? f_tess_bytes f)).
Definition offchip_differs (c : Client) (f : Fences) : bool :=
  c_offchip c && (negb (f_offchip f) || negb (c_granularity c =? f_granularity f) || negb (c_buffering c =? f_buffering f)).

(** The staging buffer for [need] bytes: a spare, or a new one. *)
Definition stage (need : Z) : M W (option memory) :=
  let* f := get_fences in
  let '(found, pool) := ps5_gpu_staging_take (f_staging f) need in
  do* set_fences (with_queue f (f_head f) (f_ring f) pool) in
  match found with
  | Some m => do* count_staging 0 0 1 0 0 in ret (Some m)
  | None =>
      let* made := call (p_memory_alloc (ps5_gpu_staging_round need) 16384 false) in
      match made with
      | None => ret None
      | Some m => do* count_staging 1 0 0 0 (mem_bytes m) in ret (Some m)
      end
  end.

(** The state all clients share is set before the words are handed over. *)
Definition set_state (c : Client) (tess_changes offchip_changes : bool) : M W Z :=
  let* status :=
    (if tess_changes then
       let* rc := call (p_set_tess (c_tess c) (c_tess_bytes c)) in
       do* (if rc =? 0 then let* f := get_fences in set_fences (with_tess f (c_tess c) (c_tess_bytes c)) else ret tt) in ret rc
     else ret 0) in
  if (status =? 0) && offchip_changes then
    let* rc := call (p_set_offchip (c_granularity c) (c_buffering c)) in
    do* (if rc =? 0 then let* f := get_fences in set_fences (with_offchip f (c_granularity c) (c_buffering c)) else ret tt) in ret rc
  else ret status.

(** The words copied into staging between the timestamps, and the packet. *)
Definition fill_staging (m : PwGpuMessage) (staging_ : memory) (f : Fences) (before after seq : Z) : M W unit :=
  do* effect (p_copy (mem_cpu staging_ + before) (m_address m) (m_bytes m)) in
  do* (if mem_cpu (f_stamps f) =? 0 then ret tt
       else
         let at_ := mem_cpu (f_stamps f) + (f_head f + size (f_ring f)) mod kRing * p_ts_slot_bytes in
         do* effect (p_memory_zero {| mem_cpu := at_; mem_bytes := p_ts_slot_bytes; mem_physical := 0 |}) in
         do* effect (p_ts_start (mem_cpu staging_) at_) in
         effect (p_ts_end (mem_cpu staging_ + before + m_bytes m) (at_ + 8))) in
  effect (p_write_words (mem_cpu staging_ + before + m_bytes m + after) (ps5_gpu_completion_packet (mem_cpu (f_page f)) seq)).

(** The refusal a test asks for, and the hand-over. *)
Definition hand_over (staging_ : memory) (words : Z) : M W Z :=
  let* s := get in
  let counted := u32 (s_test_submissions s + 1) in
  let* refused :=
    (if cf_test_fail_submit cf =? 0 then ret false
     else do* set_test_submissions counted in ret (cf_test_fail_submit cf <? counted)) in
  if refused then ret EIO else broker_submit (mem_cpu staging_) words.

Definition submit (c : Client) (m : PwGpuMessage) : M W (Z * Client) :=
  let* s := get in
  if negb (submission_valid c m) then ret (EINVAL, c)
  else if s_wedged s then ret (EIO, c)
  else
    let* ready := fences_ready in
    if negb ready then ret (ENOMEM, c)
    else
      do* reap in
      let* f := get_fences in
      let* stalled := (if size (f_ring f) =? kRing then let* drained := drain 5000000000 in ret (negb drained) else ret false) in
      if stalled then do* gives_up cf in ret (EIO, c)
      else
        let* f := get_fences in
        let tess_changes := tess_differs c f in
        let offchip_changes := offchip_differs c f in
        let* stalled :=
          (if tess_changes || offchip_changes then
             do* set_fences (with_drains f (f_drains f) (u64 (f_state_drains f + 1))) in
             let* drained := drain 5000000000 in ret (negb drained)
           else ret false) in
        if stalled then do* gives_up cf in ret (EIO, c)
        else
          let* f := get_fences in
          let before := if mem_cpu (f_stamps f) =? 0 then 0 else 4 * p_ts_start_words in
          let after := if mem_cpu (f_stamps f) =? 0 then 0 else 4 * p_ts_end_words in
          let* staged := stage (before + m_bytes m + after + 32) in
          match staged with
          | None => ret (ENOMEM, c)
          | Some staging_ =>
              let* f := get_fences in
              let seq := next_seq (f_issued f) in
              do* set_fences (with_issued f seq) in
              do* fill_staging m staging_ f before after seq in
              let* status := set_state c tess_changes offchip_changes in
              if negb (status =? 0) then do* staging_back staging_ in ret (status, c)
              else
                let* status := hand_over staging_ ((before + m_bytes m + after) / 4 + 8) in
                if negb (status =? 0) then do* gives_up cf in ret (EIO, c)
                else
                  let* f := get_fences in
                  do* set_fences (with_queue f (f_head f) (f_ring f ++ [{| in_seq := seq; in_staging := staging_ |}]) (f_staging f)) in
                  ret (0, {| c_pid := c_pid c; c_expected_pid := c_expected_pid c; c_next_token := c_next_token c; c_buffers := c_buffers c;
                             c_ranges := c_ranges c; c_range_count := c_range_count c; c_range_peak := c_range_peak c;
                             c_range_index := c_range_index c; c_allocated := c_allocated c; c_local := c_local c;
                             c_local_peak := c_local_peak c; c_tess := c_tess c; c_tess_bytes := c_tess_bytes c;
                             c_granularity := c_granularity c; c_buffering := c_buffering c; c_offchip := c_offchip c;
                             c_submissions := u32 (c_submissions c + 1); c_allocation_stage := c_allocation_stage c |})
          end.
End Fences.
