(* ===== verification/BrokerLogic.v ===== *)
(** * Reasoning about broker code

    A triple says that a call started in a state satisfying the precondition
    never indexes out of range and, if it returns, leaves a state satisfying
    the postcondition.  Rules for the primitives and a tactic that runs through
    a sequence of them. *)

From Stdlib Require Import ZArith List Bool Lia Sorting.Permutation.
From S2P Require Import Prelude Bytes BrokerProtocol HostRange BrokerState BrokerMemory BrokerFences.
Import ListNotations.
Open Scope Z_scope.
Open Scope broker_scope.

Section Triples.
Context {W : Type}.

Definition triple {A : Type} (pre : Shared W -> Prop) (m : M W A) (post : A -> Shared W -> Prop) : Prop :=
  forall s, pre s -> match m s with Returns a s' => post a s' | Retained => True | Faults => False | OutOfFuel => True end.

Lemma triple_ret {A : Type} (pre : Shared W -> Prop) (a : A) (post : A -> Shared W -> Prop) :
  (forall s, pre s -> post a s) -> triple pre (ret a) post.
Proof. intros H s Hs. apply H, Hs. Qed.

Lemma triple_bind {A B : Type} (mid : A -> Shared W -> Prop) pre (m : M W A) (k : A -> M W B) post :
  triple pre m mid -> (forall a, triple (mid a) (k a) post) -> triple pre (mbind m k) post.
Proof. intros H K s Hs. unfold mbind. specialize (H s Hs). destruct (m s) as [a s'| | |]; [apply K, H|exact H..]. Qed.

Lemma triple_conseq {A : Type} (pre pre' : Shared W -> Prop) (m : M W A) (post post' : A -> Shared W -> Prop) :
  triple pre' m post' -> (forall s, pre s -> pre' s) -> (forall a s, post' a s -> post a s) -> triple pre m post.
Proof. intros H H1 H2 s Hs. specialize (H s (H1 s Hs)). destruct (m s); auto. Qed.

Lemma triple_pure {A : Type} (p : Prop) (pre : Shared W -> Prop) (m : M W A) post :
  (p -> triple pre m post) -> triple (fun s => p /\ pre s) m post.
Proof. intros H s [Hp Hs]. apply (H Hp s Hs). Qed.

Lemma triple_get_fences pre (post : Fences -> Shared W -> Prop) :
  (forall s, pre s -> post (s_fences s) s) -> triple pre get_fences post.
Proof. intros H s Hs. apply H, Hs. Qed.

Lemma triple_get pre (post : Shared W -> Shared W -> Prop) : (forall s, pre s -> post s s) -> triple pre get post.
Proof. intros H s Hs. apply H, Hs. Qed.

(** A call that only concerns the world. *)
Definition worldly (I : Shared W -> Prop) : Prop :=
  forall s w, I s -> I {| s_world := w; s_window := s_window s; s_high := s_high s; s_fences := s_fences s; s_wedged := s_wedged s;
    s_counters := s_counters s; s_next_window := s_next_window s; s_next_high := s_next_high s; s_test_submissions := s_test_submissions s |}.

Lemma triple_call {A : Type} (I : Shared W -> Prop) (f : W -> A * W) : worldly I -> triple I (call f) (fun _ => I).
Proof. intros Hw s Hs. unfold call. destruct (f (s_world s)). apply Hw, Hs. Qed.

Lemma triple_call_fact {A : Type} (I : Shared W -> Prop) (f : W -> A * W) (fact : A -> Prop) :
  (forall w a w', f w = (a, w') -> fact a) -> worldly I -> triple I (call f) (fun a s => fact a /\ I s).
Proof. intros H Hw s Hs. unfold call. destruct (f (s_world s)) eqn:E. split; [apply (H _ _ _ E)|apply Hw, Hs]. Qed.

Lemma triple_effect (I : Shared W -> Prop) (f : W -> W) : worldly I -> triple I (effect f) (fun _ => I).
Proof. intros Hw. unfold effect. apply triple_call, Hw. Qed.

Lemma triple_if {A : Type} pre (c : bool) (m n : M W A) post :
  (c = true -> triple pre m post) -> (c = false -> triple pre n post) -> triple pre (if c then m else n) post.
Proof. destruct c; auto. Qed.

(** A change of the counters that leaves those of staging memory alone. *)
Definition staging_same (f : Counters -> Counters) : Prop :=
  forall n, n_staging_allocs (f n) = n_staging_allocs n /\ n_staging_frees (f n) = n_staging_frees n /\ n_staging_held (f n) = n_staging_held n.

(** Only the host ranges, the fences and the staging counters matter to [I]. *)
Record quiet (I : Shared W -> Prop) : Prop := {
  q_world : worldly I;
  q_count : forall f s, staging_same f -> I s -> I {| s_world := s_world s; s_window := s_window s; s_high := s_high s; s_fences := s_fences s;
    s_wedged := s_wedged s; s_counters := f (s_counters s); s_next_window := s_next_window s; s_next_high := s_next_high s;
    s_test_submissions := s_test_submissions s |};
  q_cursor : forall x y s, I s -> I {| s_world := s_world s; s_window := s_window s; s_high := s_high s; s_fences := s_fences s;
    s_wedged := s_wedged s; s_counters := s_counters s; s_next_window := x; s_next_high := y; s_test_submissions := s_test_submissions s |};
  q_test : forall n s, I s -> I {| s_world := s_world s; s_window := s_window s; s_high := s_high s; s_fences := s_fences s;
    s_wedged := s_wedged s; s_counters := s_counters s; s_next_window := s_next_window s; s_next_high := s_next_high s;
    s_test_submissions := n |}
}.

Lemma triple_count (I : Shared W -> Prop) f : quiet I -> staging_same f -> triple I (count_ f) (fun _ => I).
Proof. intros Q F s Hs. apply (q_count _ Q); assumption. Qed.

Lemma triple_cursor (I : Shared W -> Prop) window at_ : quiet I -> triple I (set_cursor window at_) (fun _ => I).
Proof. intros Q s Hs. apply (q_cursor _ Q), Hs. Qed.

Lemma triple_get_cursor (I : Shared W -> Prop) window : triple I (get_cursor window) (fun _ => I).
Proof. intros s Hs. exact Hs. Qed.

Lemma triple_test (I : Shared W -> Prop) n : quiet I -> triple I (set_test_submissions n) (fun _ => I).
Proof. intros Q s Hs. apply (q_test _ Q), Hs. Qed.
End Triples.

Create HintDb broker.
#[export] Hint Resolve triple_call triple_effect triple_count triple_cursor triple_get_cursor triple_test q_world : broker.
#[export] Hint Extern 1 (staging_same _) => (intros ?; repeat split) : broker.
