(* ===== verification/BrokerOrder.v ===== *)
(** * Sequence numbers and the fence ring

    The 32-bit comparison of sequence numbers is the order of submission, also
    where the numbers wrap; the ring holds consecutive numbers ending with the
    last one issued; what waits for the GPU waits for a submission that is
    really in the ring. *)

From Stdlib Require Import ZArith List Bool Lia Sorting.Permutation.
From S2P Require Import Prelude Bytes BrokerProtocol HostRange BrokerState BrokerMemory BrokerFences BrokerLogic.
Import ListNotations.
Open Scope Z_scope.
Open Scope broker_scope.

(** ** Order *)

(** [l] are the numbers issued one after another after [prev]. *)
Fixpoint follows (prev : Z) (l : list Z) : Prop :=
  match l with
  | [] => True
  | s :: l' => s = next_seq prev /\ follows s l'
  end.

Lemma next_seq_range s : 0 <= s < 2 ^ 32 -> 1 <= next_seq s < 2 ^ 32.
Proof.
  intros H. unfold next_seq. pose proof (u32_range (s + 1)). pose proof (u32_range (u32 (s + 1) + 1)). cbv zeta.
  destruct (u32 (s + 1) =? 0) eqn:E; to_prop; [rewrite E; cbn; lia|lia].
Qed.

(** One number further is one or two further as a 32-bit difference. *)
Lemma next_seq_step s t : 0 <= s < 2 ^ 32 -> 0 <= t < 2 ^ 32 -> exists d, 1 <= d <= 2 /\ u32 (next_seq s - t) = u32 (u32 (s - t) + d).
Proof.
  intros Hs Ht. unfold next_seq. cbv zeta. destruct (u32 (s + 1) =? 0) eqn:E; to_prop.
  - exists 2. split; [lia|]. rewrite E. unfold u32 in *. Z.div_mod_to_equations. lia.
  - exists 1. split; [lia|]. unfold u32 in *. Z.div_mod_to_equations. lia.
Qed.

Lemma follows_range prev l s : 0 <= prev < 2 ^ 32 -> follows prev l -> In s l -> 1 <= s < 2 ^ 32.
Proof.
  revert prev. induction l as [|a l IH]; intros prev H F I; [destruct I|]. destruct F as [-> F]. pose proof (next_seq_range prev H).
  destruct I as [<-|I]; [assumption|]. apply (IH (next_seq prev)); [lia|assumption..].
Qed.

(** How far a number is from an origin [k] numbers or more back. *)
Lemma follows_distance t0 l : 0 <= t0 < 2 ^ 32 -> forall t k i s, 0 <= t < 2 ^ 32 -> follows t l -> nth_error l i = Some s ->
  0 <= k <= u32 (t - t0) -> u32 (t - t0) <= 2 * k -> 2 * (k + Z.of_nat i + 1) < 2 ^ 32 ->
  k + Z.of_nat i + 1 <= u32 (s - t0) <= 2 * (k + Z.of_nat i + 1).
Proof.
  intros H0. induction l as [|a l IH]; intros t k i s Ht F N K1 K2 B; [destruct i; discriminate|]. destruct F as [-> F].
  destruct (next_seq_step t t0 Ht H0) as (d & Hd & E).
  assert (X : u32 (next_seq t - t0) = u32 (t - t0) + d) by (rewrite E; apply u32_small; lia).
  destruct i as [|i]; cbn in N; [injection N as <-; lia|]. pose proof (next_seq_range t Ht).
  specialize (IH (next_seq t) (k + 1) i s ltac:(lia) F N). rewrite X in IH. lia.
Qed.

(** [done] on a known distance. *)
Lemma done_forward a b d : u32 (a - b) = d -> 0 < d < 2 ^ 31 -> done a b = false /\ done b a = true.
Proof.
  intros E H. assert (E' : u32 (b - a) = 2 ^ 32 - d) by (unfold u32 in *; Z.div_mod_to_equations; lia).
  unfold done, s32. rewrite E, E'. destruct (d <? 2 ^ 31) eqn:L, (2 ^ 32 - d <? 2 ^ 31) eqn:R; to_prop; lia.
Qed.

Lemma done_refl a : done a a = true.
Proof. unfold done. rewrite Z.sub_diag. reflexivity. Qed.

Lemma follows_app t l m : follows t (l ++ m) <-> follows t l /\ follows (last l t) m.
Proof.
  revert t. induction l as [|a l IH]; intros t; [cbn; tauto|]. cbn [app follows]. rewrite IH.
  replace (last (a :: l) t) with (last l a); [tauto|]. destruct l as [|b l]; [reflexivity|]. cbn [last]. clear. revert b.
  induction l as [|c l IH]; intros b; [reflexivity|apply IH].
Qed.

Lemma follows_from prev l i a : 0 <= prev < 2 ^ 32 -> follows prev l -> nth_error l i = Some a -> 0 <= a < 2 ^ 32 /\ follows a (skipn (S i) l).
Proof.
  revert prev i. induction l as [|b l IH]; intros prev i Hp F N; [destruct i; discriminate|]. destruct F as [-> F].
  pose proof (next_seq_range prev Hp). destruct i as [|i]; cbn in N; [injection N as <-; split; [lia|exact F]|].
  apply (IH (next_seq prev) i ltac:(lia) F N).
Qed.

Lemma later_not_done prev l i j a b : 0 <= prev < 2 ^ 32 -> follows prev l -> size l <= 2 ^ 29 ->
  nth_error l i = Some a -> nth_error l j = Some b -> (i < j)%nat -> done a b = true /\ done b a = false.
Proof.
  intros Hp F L Na Nb Hij. destruct (follows_from prev l i a Hp F Na) as [Ha Fa].
  assert (N : nth_error (skipn (S i) l) (j - i - 1) = Some b) by (rewrite nth_error_skipn; replace (S i + (j - i - 1))%nat with j by lia; exact Nb).
  assert (Lj : (j < List.length l)%nat) by (apply nth_error_Some; congruence). unfold size in L.
  pose proof (follows_distance a _ Ha a 0 (j - i - 1) b Ha Fa N) as D. rewrite Z.sub_diag in D. specialize (D ltac:(cbn; lia) ltac:(cbn; lia) ltac:(lia)).
  destruct (done_forward b a _ eq_refl ltac:(lia)). auto.
Qed.

(** C25: The broker's comparison of sequence numbers is the order of
    submission.  Of the numbers issued one after another - more than any ring
    holds, through the 32-bit wrap and the skipped zero - [done a b] holds
    exactly when [a] was issued no later than [b]. *)
Theorem done_is_submission_order prev l i j a b :
  0 <= prev < 2 ^ 32 -> follows prev l -> size l <= 2 ^ 29 -> nth_error l i = Some a -> nth_error l j = Some b ->
  done a b = (i <=? j)%nat.
Proof.
  intros Hp F L Na Nb. destruct (Nat.lt_trichotomy i j) as [H|[->|H]].
  - rewrite (proj1 (later_not_done prev l i j a b Hp F L Na Nb H)). symmetry. apply Nat.leb_le. lia.
  - rewrite Na in Nb. injection Nb as <-. rewrite done_refl, Nat.leb_refl. reflexivity.
  - rewrite (proj2 (later_not_done prev l j i b a Hp F L Nb Na H)). symmetry. apply Nat.leb_gt. lia.
Qed.

Lemma done_is_submission_order_witness :
  follows 0xfffffffd [0xfffffffe; 0xffffffff; 1; 2] /\ done 0xfffffffe 2 = true /\ done 2 0xffffffff = (3 <=? 1)%nat.
Proof.
  assert (F : follows 0xfffffffd [0xfffffffe; 0xffffffff; 1; 2]) by (repeat split).
  split; [exact F|]. split.
  - apply (done_is_submission_order 0xfffffffd [0xfffffffe; 0xffffffff; 1; 2] 0 3); [lia|exact F|vm_compute; discriminate|reflexivity|reflexivity].
  - apply (done_is_submission_order 0xfffffffd [0xfffffffe; 0xffffffff; 1; 2] 3 1); [lia|exact F|vm_compute; discriminate|reflexivity|reflexivity].
Defined.

(** ** The ring *)

Definition ring_seqs (f : Fences) : list Z := map in_seq (f_ring f).

(** What the fences keep while the GPU is not in doubt. *)
Record fences_ok (f : Fences) : Prop := {
  fo_issued : 0 <= f_issued f < 2 ^ 32;
  fo_ring : size (f_ring f) <= kRing;
  fo_follows : exists prev, 0 <= prev < 2 ^ 32 /\ follows prev (ring_seqs f) /\ last (ring_seqs f) prev = f_issued f;
  fo_deferred : Forall (fun d => In (d_seq d) (ring_seqs f)) (f_deferred f);
  fo_deferred_size : size (f_deferred f) <= kDeferred
}.

(** The value the GPU last wrote: a submission's in the ring, or one before
    all of them. *)
Definition fence_value (f : Fences) (v : Z) : Prop :=
  In v (ring_seqs f) \/ Forall (fun s => done s v = false) (ring_seqs f).

(** What is left of the ring. *)
Fixpoint drop_done (v : Z) (ring : list Inflight) : list Inflight :=
  match ring with
  | [] => []
  | e :: rest => if done (in_seq e) v then drop_done v rest else ring
  end.

Lemma drop_done_suffix v ring : exists gone, ring = gone ++ drop_done v ring /\ Forall (fun e => done (in_seq e) v = true) gone.
Proof.
  induction ring as [|e ring (gone & E & F)]; [exists []; auto|]. cbn. destruct (done (in_seq e) v) eqn:D; [|exists []; auto].
  exists (e :: gone). cbn. rewrite <- E. auto.
Qed.

(** In a ring of consecutive numbers the loop stops exactly where the GPU is. *)
Lemma drop_done_exact prev v ring : 0 <= prev < 2 ^ 32 -> follows prev (map in_seq ring) -> size ring <= 2 ^ 29 ->
  In v (map in_seq ring) \/ Forall (fun s => done s v = false) (map in_seq ring) ->
  Forall (fun e => done (in_seq e) v = false) (drop_done v ring) /\
  (forall s, In s (map in_seq ring) -> done s v = false -> In s (map in_seq (drop_done v ring))).
Proof.
  intros Hp F L [I|N].
  - apply In_nth_error in I as [j Nj]. revert prev j Hp F L Nj. induction ring as [|e ring IH]; intros prev j Hp F L Nj; [destruct j; discriminate|].
    cbn [drop_done]. pose proof F as F0. cbn [map follows] in F. destruct F as [E F]. pose proof (next_seq_range prev Hp).
    assert (D : done (in_seq e) v = true).
    { destruct j as [|j]; [cbn in Nj; injection Nj as ->; apply done_refl|].
      apply (later_not_done prev (map in_seq (e :: ring)) 0 (S j)); [assumption|assumption|unfold size in *; rewrite length_map; exact L|reflexivity|exact Nj|lia]. }
    rewrite D. destruct j as [|j].
    + cbn in Nj. injection Nj as <-. assert (Z0 : Forall (fun x => done (in_seq x) (in_seq e) = false) ring).
      { apply Forall_forall. intros x Ix. apply (in_map in_seq) in Ix. apply In_nth_error in Ix as [i Ni].
        apply (later_not_done prev (map in_seq (e :: ring)) 0 (S i) (in_seq e)); [assumption|assumption|unfold size in *; rewrite length_map; exact L|reflexivity|exact Ni|lia]. }
      destruct ring as [|x ring]; [split; [constructor|intros s [<-|[]] Ds; congruence]|].
      cbn [drop_done]. inversion Z0 as [|? ? Zx Zr]; subst. rewrite Zx. split; [exact Z0|]. intros s [<-|Is] Ds; [congruence|exact Is].
    + destruct (IH (in_seq e) j) as [A B]; [lia|exact F|unfold size in *; cbn [List.length] in L; lia|exact Nj|].
      split; [exact A|]. intros s [<-|Is] Ds; [congruence|apply B; assumption].
  - destruct ring as [|e ring]; [split; [constructor|intros s []]|]. inversion N as [|? ? De Dr]; subst. cbn [drop_done]. rewrite De.
    split; [|auto]. apply Forall_map in N. exact N.
Qed.
