(* ===== verification/BrokerBuffers.v ===== *)
(** * Buffers in the host ranges

    The memory invariant of the broker: the buffers placed in a host range - a
    client's, or waiting for the GPU - are blocks the range has handed out, no
    two of which overlap.  Releasing a buffer and every allocation keep it. *)

From Stdlib Require Import ZArith List Bool Lia Sorting.Permutation RelationClasses Morphisms.
From S2P Require Import Prelude Bytes BrokerProtocol HostRange BrokerState BrokerMemory BrokerFences BrokerLogic.
Import ListNotations.
Open Scope Z_scope.
Open Scope broker_scope.

(** ** Holdings *)

Lemma ordpairs_perm {A : Type} (R : A -> A -> Prop) l m : (forall x y, R x y -> R y x) -> Permutation l m ->
  ForallOrdPairs R l -> ForallOrdPairs R m.
Proof.
  intros Sy. induction 1 as [|x l m P IH|x y l|l m n _ IH1 _ IH2]; intros H; auto.
  - inversion H; subst. constructor; [eapply Permutation_Forall; eassumption|auto].
  - inversion H as [|? ? F1 H1]; subst. inversion H1 as [|? ? F2 H2]; subst. inversion F1; subst. auto using ForallOrdPairs, Forall.
Qed.

Lemma holding_perm r l m : Permutation l m -> holding_ok {| h_range := r; h_blocks := l |} -> holding_ok {| h_range := r; h_blocks := m |}.
Proof.
  intros P (O & F & D). split; [exact O|]. cbn in *. split; [eapply Permutation_Forall; eassumption|].
  apply (ordpairs_perm _ l m disjoint_sym P D).
Qed.

Lemma holding_drop r b l : holding_ok {| h_range := r; h_blocks := b :: l |} -> holding_ok {| h_range := r; h_blocks := l |}.
Proof. intros (O & F & D). cbn in *. inversion F; inversion D; subst. repeat split; assumption || apply O. Qed.

Lemma holding_give r at_ n l : holding_ok {| h_range := r; h_blocks := (at_, n) :: l |} ->
  holding_ok {| h_range := hr_give r at_ n; h_blocks := l |}.
Proof. intros H. apply (hold_give_ok _ 0 H). Qed.

Lemma holding_take r l n k : holding_ok {| h_range := r; h_blocks := l |} -> 0 < n < 2 ^ 62 -> 0 <= k <= 62 ->
  let '(at_, r') := hr_take r n (2 ^ k) in
  holding_ok {| h_range := r'; h_blocks := if at_ =? 0 then l else (at_, n) :: l |}.
Proof.
  intros H Hn Hk. pose proof (hold_take_ok _ n k H Hn Hk) as T. cbn [hold h_range h_blocks] in T.
  destruct (hr_take r n (2 ^ k)). exact T.
Qed.

(** ** Buffers *)

(** The host range a buffer was placed in. *)
Definition in_host (i : Z) (b : Buffer) : bool := b_ranged b && (pw_gpu_host_range (b_address b) (b_bytes b) =? i).

Definition blocks (i : Z) (l : list Buffer) : list (Z * Z) := map (fun b => (b_address b, b_bytes b)) (filter (in_host i) l).

Lemma filter_perm {A : Type} (p : A -> bool) l m : Permutation l m -> Permutation (filter p l) (filter p m).
Proof.
  induction 1 as [|x l m P IH|x y l|l m n _ IH1 _ IH2]; cbn.
  - constructor.
  - destruct (p x); auto.
  - destruct (p x), (p y); auto using Permutation_refl, perm_swap.
  - etransitivity; eassumption.
Qed.

#[export] Instance blocks_perm i : Proper (@Permutation Buffer ==> @Permutation (Z * Z)) (blocks i).
Proof. intros l m P. apply Permutation_map, filter_perm, P. Qed.

(** A buffer in a range is host-visible and really in one of the two. *)
Definition placed_right (b : Buffer) : Prop :=
  b_ranged b = true -> b_local b = false /\ (pw_gpu_host_range (b_address b) (b_bytes b) = 0 \/ pw_gpu_host_range (b_address b) (b_bytes b) = 1).

Section Invariant.
Context {W : Type}.

(** The invariant for the buffers [l]. *)
Record mem_ok (l : list Buffer) (s : Shared W) : Prop := {
  mo_window : holding_ok {| h_range := s_window s; h_blocks := blocks 0 l |};
  mo_high : holding_ok {| h_range := s_high s; h_blocks := blocks 1 l |};
  mo_placed : Forall placed_right l;
  mo_window_at : hr_base (s_window s) = PW_GPU_HOST_WINDOW_BASE /\ hr_bytes (s_window s) = PW_GPU_HOST_WINDOW_BYTES;
  mo_high_at : hr_base (s_high s) = PW_GPU_HOST_HIGH_BASE /\ hr_bytes (s_high s) = PW_GPU_HOST_HIGH_BYTES
}.

Lemma mem_perm l m s : Permutation l m -> mem_ok l s -> mem_ok m s.
Proof.
  intros P [A B C D E]. constructor; [eapply holding_perm; [apply blocks_perm, P|exact A]|eapply holding_perm; [apply blocks_perm, P|exact B]| |exact D|exact E].
  eapply Permutation_Forall; eassumption.
Qed.

(** Whether the GPU is in doubt, and the counters of staging memory. *)
Definition mark_of (s : Shared W) : bool * (Z * Z * Z) :=
  (s_wedged s, (n_staging_allocs (s_counters s), n_staging_frees (s_counters s), n_staging_held (s_counters s))).

(** The invariant with the fences and the mark as they are. *)
Definition mem_at (l : list Buffer) (f : Fences) (w : bool * (Z * Z * Z)) (s : Shared W) : Prop :=
  mem_ok l s /\ s_fences s = f /\ mark_of s = w.

Lemma mem_at_quiet l f w : quiet (mem_at l f w).
Proof.
  split; [intros s v|intros g s S|intros x y s|intros n s]; intros ([A B C D E] & F & G); (split; [constructor; assumption|]); try (split; assumption).
  split; [exact F|]. rewrite <- G. unfold mark_of. destruct (S (s_counters s)) as (S1 & S2 & S3). cbn. rewrite S1, S2, S3. reflexivity.
Qed.

(** Putting a range in its place. *)
Definition with_host (i : Z) (r : HostRange) (s : Shared W) : Shared W :=
  match set_host i r s with Returns _ s' => s' | _ => s end.

Lemma triple_get_host (pre : Shared W -> Prop) i (post : HostRange -> Shared W -> Prop) : i = 0 \/ i = 1 ->
  (forall s, pre s -> post (host_of s i) s) -> triple pre (get_host i) post.
Proof. intros Hi H s Hs. unfold get_host. destruct Hi as [-> | ->]; apply H, Hs. Qed.
End Invariant.

#[export] Hint Resolve mem_at_quiet : broker.

(** ** Calls that leave the invariant alone *)

(** Runs through code none of whose steps concerns [I]. *)
Ltac keep_step I :=
  match goal with
  | |- triple _ (match ?x with _ => _ end) _ => destruct x
  | |- triple _ (let _ := _ in _) _ => cbv zeta
  | |- triple _ (ret _) _ => apply triple_ret; intros; assumption
  | |- triple _ (mbind _ _) _ => apply (triple_bind (fun _ => I)); [|intros ?]
  | |- triple _ _ _ => solve [auto with broker]
  end.
Ltac keeps I := repeat keep_step I.

Section Keep.
Context {W : Type} {P : Platform W} (I : Shared W -> Prop) (Q : quiet I).

Lemma dmem_give_back_keeps offset bytes : triple I (dmem_give_back offset bytes) (fun _ => I).
Proof. unfold dmem_give_back. keeps I. Qed.

Lemma own_object_keeps bytes : triple I (own_object bytes) (fun _ => I).
Proof. unfold own_object. keeps I. Qed.

Lemma shared_object_keeps bytes : triple I (shared_object bytes) (fun _ => I).
Proof. pose proof own_object_keeps. unfold shared_object. keeps I. Qed.

Lemma map_shared_keeps at_ bytes : triple I (map_shared at_ bytes) (fun _ => I).
Proof. pose proof shared_object_keeps. unfold map_shared. keeps I. Qed.

Lemma map_host_keeps c at_ bytes : triple I (map_host c at_ bytes) (fun _ => I).
Proof. pose proof map_shared_keeps. pose proof dmem_give_back_keeps. unfold map_host, count_dmem. keeps I. Qed.

Lemma reserve_again_keeps at_ bytes : triple I (reserve_again at_ bytes) (fun _ => I).
Proof. unfold reserve_again. keeps I. Qed.

Lemma close_handles_keeps fd dmem bytes : triple I (close_handles fd dmem bytes) (fun _ => I).
Proof. pose proof dmem_give_back_keeps. unfold close_handles. keeps I. Qed.

Lemma cursor_loop_keeps cf attempts window bytes alignment : triple I (cursor_loop cf attempts window bytes alignment) (fun _ => I).
Proof. induction attempts as [|attempts IH]; cbn [cursor_loop]; keeps I. Qed.
End Keep.

#[export] Hint Resolve dmem_give_back_keeps own_object_keeps shared_object_keeps map_shared_keeps map_host_keeps reserve_again_keeps
  close_handles_keeps cursor_loop_keeps : broker.

(** ** Releasing a buffer *)

Section Release.
Context {W : Type} {P : Platform W}.

Lemma blocks_cons i b l : blocks i (b :: l) = (if in_host i b then [(b_address b, b_bytes b)] else []) ++ blocks i l.
Proof. unfold blocks. cbn [filter]. destruct (in_host i b); reflexivity. Qed.

Lemma mem_drop b l (s : Shared W) : mem_ok (b :: l) s -> mem_ok l s.
Proof.
  intros [A B C D E]. rewrite blocks_cons in A, B. inversion C; subst. constructor; try assumption.
  - destruct (in_host 0 b); [apply holding_drop in A|]; exact A.
  - destruct (in_host 1 b); [apply holding_drop in B|]; exact B.
Qed.

Lemma in_host_of b i : b_ranged b = true -> pw_gpu_host_range (b_address b) (b_bytes b) = i -> in_host i b = true.
Proof. intros R E. unfold in_host. rewrite R, E, Z.eqb_refl. reflexivity. Qed.

Lemma in_host_not b i j : pw_gpu_host_range (b_address b) (b_bytes b) = i -> i <> j -> in_host j b = false.
Proof. intros E N. unfold in_host. rewrite E. apply Z.eqb_neq in N. rewrite N. apply andb_false_r. Qed.

Lemma give_to_ok b l f w i : b_ranged b = true -> pw_gpu_host_range (b_address b) (b_bytes b) = i -> i = 0 \/ i = 1 ->
  triple (mem_at (W := W) (b :: l) f w) (give_to i (b_address b) (b_bytes b)) (fun _ => mem_at l f w).
Proof.
  intros R E Hi. unfold give_to. eapply triple_bind with (mid := fun r s => r = host_of s i /\ mem_at (b :: l) f w s).
  - apply triple_get_host; auto.
  - intros r s (-> & [A B C D G] & F & V). inversion C; subst f w.
    rewrite blocks_cons in A, B. destruct Hi as [-> | ->]; cbn.
    + rewrite (in_host_of b 0 R E) in A. rewrite (in_host_not b 0 1 E ltac:(lia)) in B. split; [|auto].
      constructor; try assumption. apply holding_give. exact A.
    + rewrite (in_host_of b 1 R E) in B. rewrite (in_host_not b 1 0 E ltac:(lia)) in A. split; [|auto].
      constructor; try assumption. apply holding_give. exact B.
Qed.

(** A released buffer's block goes back to its range, or stays reserved when
    the kernel would not lay the reservation again. *)
Lemma release_ok b l f w : placed_right b -> triple (mem_at (W := W) (b :: l) f w) (release b) (fun _ => mem_at l f w).
Proof.
  intros Pb. assert (Dr : forall s, mem_at (W := W) (b :: l) f w s -> mem_at l f w s) by (intros s [M R]; split; [apply (mem_drop b), M|exact R]).
  unfold release. eapply triple_bind with (mid := fun _ => mem_at l f w); [|intros _; auto with broker].
  destruct (b_local b) eqn:L; [eapply triple_conseq; [apply triple_effect|exact Dr|auto]; auto with broker|].
  destruct (b_ranged b) eqn:R.
  - destruct (Pb R) as [_ Hi]. remember (pw_gpu_host_range (b_address b) (b_bytes b)) as i eqn:Ei.
    eapply triple_bind with (mid := fun _ => mem_at (b :: l) f w); [apply triple_get_host; auto|intros _].
    eapply triple_bind with (mid := fun _ => mem_at (b :: l) f w); [auto with broker|intros kept].
    destruct kept; [apply give_to_ok; auto|]. eapply triple_conseq; [apply triple_effect|exact Dr|auto]; auto with broker.
  - eapply triple_conseq; [|exact Dr|intros a s H; exact H]. keeps (mem_at (W := W) l f w).
Qed.
End Release.

(** ** Allocating *)

Lemma power_of_two x : 0 < x -> Z.land x (x - 1) = 0 -> x = 2 ^ Z.log2 x.
Proof.
  intros Hx E. destruct (Z.log2_spec x Hx) as [L U]. destruct (Z.eq_dec x (2 ^ Z.log2 x)) as [|N]; [assumption|exfalso].
  assert (X1 : x <> 1) by (intros ->; apply N; reflexivity).
  assert (T : Z.testbit (Z.land x (x - 1)) (Z.log2 x) = true).
  { rewrite Z.land_spec, Z.bit_log2 by lia. cbn. replace (Z.log2 x) with (Z.log2 (x - 1)); [apply Z.bit_log2; lia|].
    apply Z.log2_unique; [apply Z.log2_nonneg|lia]. }
  rewrite E, Z.bits_0 in T. discriminate.
Qed.

(** A valid request's rounded size and alignment. *)
Lemma valid_bytes cf m : is_u64 (m_bytes m) -> cf_host_limit cf <= 2 ^ 32 -> allocation_valid cf m = true ->
  m_bytes m <= rounded_bytes m < m_bytes m + 16384 /\ rounded_bytes m mod 16384 = 0 /\ 0 < m_bytes m <= 2 ^ 33.
Proof.
  intros U L V. unfold allocation_valid in V. cbv zeta in V. apply negb_true_iff in V. repeat (apply orb_false_iff in V as [V ?]). to_prop.
  assert (B : m_bytes m <= 2 ^ 33).
  { unfold kLocalOffer in *. destruct (negb (Z.land (m_arg2 m) PW_GPU_ALLOC_LOCAL =? 0)); [change (Z.shiftl 8 30) with (2 ^ 33) in *; lia|lia]. }
  unfold is_u64 in U. unfold rounded_bytes. change 16384 with (2 ^ 14). destruct (align_up_mask_bounds (m_bytes m) 14); lia.
Qed.

Lemma valid_alignment cf m : is_u64 (m_arg0 m) -> allocation_valid cf m = true -> exists k, 14 <= k <= 21 /\ rounded_alignment m = 2 ^ k.
Proof.
  intros U V. unfold allocation_valid in V. cbv zeta in V. apply negb_true_iff in V. repeat (apply orb_false_iff in V as [V ?]).
  unfold rounded_alignment. destruct (16384 <? m_arg0 m) eqn:E; [|exists 14; split; [lia|reflexivity]].
  assert (Z0 : Z.land (m_arg0 m) (m_arg0 m - 1) = 0).
  { match goal with H : negb (m_arg0 m =? 0) && _ = false |- _ => apply andb_false_iff in H as [H|H]; apply negb_false_iff in H; to_prop; first [assumption | lia] end. }
  to_prop.
  pose proof (power_of_two (m_arg0 m) ltac:(lia) Z0) as Pw. exists (Z.log2 (m_arg0 m)). split; [|exact Pw].
  unfold PW_GPU_ALIGNMENT_MAX in *. change (Z.shiftl 2 20) with (2 ^ 21) in *. change 16384 with (2 ^ 14) in *.
  split; [apply Z.log2_le_pow2; lia|]. rewrite <- (Z.log2_pow2 21) by lia. apply Z.log2_le_mono. lia.
Qed.

(** The block [take] returned is in range [i]. *)
Lemma taken_index i at_ n : i = 0 \/ i = 1 -> 0 < n < 2 ^ 62 ->
  (if i =? 0 then PW_GPU_HOST_WINDOW_BASE else PW_GPU_HOST_HIGH_BASE) <= at_ ->
  at_ + n <= (if i =? 0 then PW_GPU_HOST_WINDOW_BASE + PW_GPU_HOST_WINDOW_BYTES else PW_GPU_HOST_HIGH_BASE + PW_GPU_HOST_HIGH_BYTES) ->
  pw_gpu_host_range at_ n = i.
Proof.
  unfold pw_gpu_host_range, pw_gpu_contains, PW_GPU_HOST_WINDOW_BASE, PW_GPU_HOST_WINDOW_BYTES, PW_GPU_HOST_HIGH_BASE, PW_GPU_HOST_HIGH_BYTES, UINT64_MAX.
  change (Z.shiftl 512 20) with 536870912. change (Z.shiftl 16 30) with 17179869184.
  intros [-> | ->] Hn; cbn [Z.eqb]; intros A B.
  - replace (_ && _) with true by lia. reflexivity.
  - replace (_ && _ && _ && _ && _ && _) with false at 1 by lia. replace (_ && _) with true by lia. reflexivity.
Qed.

(** What a successful allocation of buffer [b] did to the client and the
    message. *)
Record allocated (c : Client) (slot : nat) (b : Buffer) (c' : Client) (m' : PwGpuMessage) : Prop := {
  al_buffers : c_buffers c' = set_slot (c_buffers c) slot b;
  al_token : b_token b = u32 (c_next_token c + 1) /\ c_next_token c' = b_token b;
  al_allocated : c_allocated c' = if b_local b then c_allocated c else u64 (c_allocated c + b_bytes b);
  al_local : c_local c' = if b_local b then u64 (c_local c + b_bytes b) else c_local c;
  al_answer : m_address m' = b_address b /\ m_bytes m' = b_bytes b /\ m_arg0 m' = b_token b;
  al_rest : c_pid c' = c_pid c /\ c_ranges c' = c_ranges c /\ c_range_index c' = c_range_index c /\ c_range_count c' = c_range_count c /\
            c_tess c' = c_tess c /\ c_tess_bytes c' = c_tess_bytes c
}.

(** RADV's platform layer keeps a size that is a multiple of its page
    ([staging.h]). *)
Definition exact_memory {W : Type} (P : Platform W) : Prop :=
  forall bytes alignment window w mem w', p_memory_alloc bytes alignment window w = (Some mem, w') -> bytes mod 16384 = 0 -> mem_bytes mem = bytes.

Section Allocate.
Context {W : Type} {P : Platform W} (Hmem : exact_memory P) (cf : Config) (l : list Buffer) (f : Fences) (w : bool * (Z * Z * Z)).

(** The result of an allocation: refused with nothing changed but the stage,
    or a buffer the request describes. *)
Definition outcome_of (c : Client) (m : PwGpuMessage) (slot : nat) (good : Buffer -> Prop) (status : Z) (c' : Client) (m' : PwGpuMessage)
    (s : Shared W) : Prop :=
  (status <> 0 /\ (exists stage, c' = with_stage c stage) /\ m' = m /\ mem_at l f w s) \/
  (status = 0 /\ exists b, allocated c slot b c' m' /\ good b /\ placed_right b /\ mem_at (b :: l) f w s).

Lemma refused_outcome c m slot good status stage s : status <> 0 -> mem_at l f w s ->
  outcome_of c m slot good status (with_stage c stage) m s.
Proof. intros N H. left. split; [exact N|]. split; [eauto|]. split; [reflexivity|exact H]. Qed.

(** A buffer no host range holds. *)
Lemma mem_unranged b (s : Shared W) : b_ranged b = false -> mem_at l f w s -> mem_at (b :: l) f w s.
Proof.
  intros R ([A B C D E] & R'). assert (N : forall i, in_host i b = false) by (intros i; unfold in_host; rewrite R; reflexivity).
  split; [|exact R']. constructor; try assumption; rewrite ?blocks_cons, ?N; try assumption.
  constructor; [intros X; congruence|assumption].
Qed.

Definition good_local (m : PwGpuMessage) (b : Buffer) : Prop := b_local b = true /\ b_bytes b = rounded_bytes m.

Lemma allocate_local_ok c m slot alignment : rounded_bytes m mod 16384 = 0 ->
  triple (mem_at l f w) (allocate_local c m slot (rounded_bytes m) alignment)
    (fun r s => let '(status, c', m') := r in outcome_of c m slot (good_local m) status c' m' s).
Proof.
  intros Hm. unfold allocate_local. destruct (_ <? rounded_bytes m).
  - apply triple_ret. intros s Hs. apply refused_outcome; [discriminate|exact Hs].
  - eapply triple_bind with (mid := fun _ => mem_at l f w); [auto with broker|intros available].
    destruct (available <? _); [apply triple_ret; intros s Hs; apply refused_outcome; [discriminate|exact Hs]|].
    eapply triple_bind; [apply (triple_call_fact _ _ (fun made => forall mem, made = Some mem -> mem_bytes mem = rounded_bytes m));
      [intros v a v' E mem ->; eapply Hmem; eassumption|auto with broker]|].
    intros [mem|]; [|apply triple_ret; intros s [_ Hs]; apply refused_outcome; [discriminate|exact Hs]].
    apply triple_pure. intros Em. specialize (Em mem eq_refl).
    eapply triple_bind with (mid := fun _ => mem_at l f w); [keeps (mem_at (W := W) l f w)|intros _]. cbv zeta.
    apply triple_ret. intros s Hs. right. split; [reflexivity|]. eexists. split; [constructor; cbn; repeat split; reflexivity|].
    split; [split; [reflexivity|exact Em]|]. split; [intros X; discriminate|]. apply mem_unranged; [reflexivity|exact Hs].
Qed.

Definition good_host (m : PwGpuMessage) (b : Buffer) : Prop := b_local b = false /\ b_bytes b = rounded_bytes m.

(** A taken block becomes a buffer's. *)
Lemma take_to_buffer i n k r' at_ (s : Shared W) : i = 0 \/ i = 1 -> 0 < n < 2 ^ 62 -> 0 <= k <= 62 ->
  hr_take (host_of s i) n (2 ^ k) = (at_, r') -> mem_at l f w s ->
  (at_ = 0 -> mem_at l f w (with_host i r' s)) /\
  (at_ <> 0 -> forall b, b_ranged b = true -> b_local b = false -> b_address b = at_ -> b_bytes b = n ->
     pw_gpu_host_range (b_address b) (b_bytes b) = i /\ mem_at (b :: l) f w (with_host i r' s)).
Proof.
  intros Hi Hn Hk E ([A B C D G] & R).
  assert (H : holding_ok {| h_range := r'; h_blocks := if at_ =? 0 then blocks i l else (at_, n) :: blocks i l |}).
  { pose proof (holding_take (host_of s i) (blocks i l) n k) as T. rewrite E in T. apply T; [|assumption..]. destruct Hi as [-> | ->]; assumption. }
  pose proof (hr_take_same (host_of s i) n (2 ^ k)) as [Z1 Z2]. rewrite E in Z1, Z2. cbn [snd] in Z1, Z2.
  split.
  - intros ->. cbn [Z.eqb] in H. split; [|exact R]. destruct Hi as [-> | ->]; (constructor; cbn; try assumption; rewrite Z1, Z2; assumption).
  - intros N b R1 R2 R3 R4. subst at_ n. apply Z.eqb_neq in N. rewrite N in H.
    assert (Ei : pw_gpu_host_range (b_address b) (b_bytes b) = i).
    { destruct H as (_ & F & _). cbn in F. inversion F as [|? ? (F1 & F2 & F3 & _) _]; subst. cbn [fst snd] in *. rewrite Z1 in *. rewrite Z2 in F3.
      apply taken_index; [assumption..| |]; destruct Hi as [-> | ->]; cbn in *; destruct D as [D1 D2], G as [G1 G2];
        rewrite ?D1, ?D2, ?G1, ?G2 in *; assumption. }
    split; [exact Ei|]. split; [|exact R]. pose proof (in_host_of b i R1 Ei) as In.
    destruct Hi as [-> | ->].
    + pose proof (in_host_not b 0 1 Ei ltac:(lia)) as Not. constructor; cbn; rewrite ?blocks_cons, ?In, ?Not; try assumption;
        [constructor; [intros _; auto|assumption]|rewrite Z1, Z2; assumption].
    + pose proof (in_host_not b 1 0 Ei ltac:(lia)) as Not. constructor; cbn; rewrite ?blocks_cons, ?In, ?Not; try assumption;
        [constructor; [intros _; auto|assumption]|rewrite Z1, Z2; assumption].
Qed.

Lemma host_buffer_allocated c m slot address bytes shared dmem ranged c' m' :
  host_buffer c m slot address bytes shared dmem ranged = (c', m') ->
  exists b, allocated c slot b c' m' /\ b_local b = false /\ b_ranged b = ranged /\ b_address b = address /\ b_bytes b = bytes.
Proof.
  unfold host_buffer. cbv zeta. intros E. apply pair_inj in E as [<- <-]. eexists.
  split; [constructor; cbn; repeat split; reflexivity|]. cbn. auto.
Qed.

(** Only a buffer's place matters. *)
Lemma mem_same b b' (s : Shared W) : b_local b' = false -> b_ranged b' = b_ranged b -> b_address b' = b_address b -> b_bytes b' = b_bytes b ->
  mem_at (b :: l) f w s -> mem_at (b' :: l) f w s.
Proof.
  intros E0 E1 E2 E3 ([A B C D G] & R). split; [|exact R].
  assert (E : forall i, blocks i (b' :: l) = blocks i (b :: l)) by (intros i; rewrite !blocks_cons; unfold in_host; rewrite E1, E2, E3; reflexivity).
  inversion C as [|? ? Pb Pl]; subst. constructor; rewrite ?E; try assumption. constructor; [|exact Pl].
  intros X. rewrite E1 in X. destruct (Pb X) as [_ I]. rewrite E2, E3. auto.
Qed.

Lemma allocate_ranged_ok c m slot i k : i = 0 \/ i = 1 -> 0 < rounded_bytes m < 2 ^ 62 -> 0 <= k <= 62 ->
  triple (mem_at (W := W) l f w) (allocate_ranged c m slot i (rounded_bytes m) (2 ^ k))
    (fun r s => let '(status, c', m', _) := r in outcome_of c m slot (good_host m) status c' m' s).
Proof.
  intros Hi Hn Hk. unfold allocate_ranged.
  eapply triple_bind with (mid := fun r s => r = host_of s i /\ mem_at l f w s); [apply triple_get_host; auto|intros r].
  destruct (hr_take r (rounded_bytes m) (2 ^ k)) as [at_ r'] eqn:T.
  set (b0 := {| b_address := at_; b_bytes := rounded_bytes m; b_token := 0; b_fd := -1; b_local := false; b_ranged := true;
                b_memory := no_memory; b_dmem := -1; b_pid := -1 |}).
  eapply triple_bind with (mid := fun _ s => (at_ = 0 /\ mem_at l f w s) \/
    (at_ <> 0 /\ pw_gpu_host_range at_ (rounded_bytes m) = i /\ mem_at (b0 :: l) f w s)).
  { intros s [-> Hs]. destruct (take_to_buffer i (rounded_bytes m) k r' at_ s Hi Hn Hk T Hs) as [T0 T1]. cbn.
    destruct (Z.eq_dec at_ 0) as [Z0|N]; [left; auto|right]. destruct (T1 N b0) as [T2 T3]; auto. }
  intros _. destruct (at_ =? 0) eqn:Ea; to_prop.
  - apply triple_ret. intros s [[_ Hs]|[N _]]; [|contradiction]. apply refused_outcome; [discriminate|exact Hs].
  - eapply triple_conseq with (pre' := fun s => pw_gpu_host_range at_ (rounded_bytes m) = i /\ mem_at (b0 :: l) f w s);
      [|intros s [[N _]|H]; [contradiction|apply H]|intros a s H; exact H].
    apply triple_pure. intros Ei.
    eapply triple_bind with (mid := fun _ => mem_at (b0 :: l) f w); [auto with broker|intros [[mapped shared] dmem]].
    eapply triple_bind with (mid := fun _ => mem_at (b0 :: l) f w); [keeps (mem_at (W := W) (b0 :: l) f w)|intros granted].
    destruct granted; cbn [negb].
    + destruct (host_buffer _ _ _ _ _ _ _ _) as [c' m'] eqn:E. apply host_buffer_allocated in E as (b & Al & B1 & B2 & B3 & B4).
      apply triple_ret. intros s Hs. right. split; [reflexivity|]. exists b. split; [exact Al|]. split; [split; assumption|].
      rewrite <- B3, <- B4 in Ei. split; [intros _; split; [exact B1|rewrite Ei; exact Hi]|].
      apply (mem_same b0 b); [exact B1|exact B2|exact B3|exact B4|exact Hs].
    + eapply triple_bind with (mid := fun _ => mem_at (b0 :: l) f w); [auto with broker|intros kept].
      eapply triple_bind with (mid := fun _ => mem_at l f w).
      { destruct kept; [apply (give_to_ok b0 l f w i); auto|]. apply triple_ret. intros s [M R]. split; [apply (mem_drop b0), M|exact R]. }
      intros _. eapply triple_bind with (mid := fun _ => mem_at l f w); [auto with broker|intros _].
      apply triple_ret. intros s Hs. apply refused_outcome; [discriminate|exact Hs].
Qed.

Lemma allocate_cursor_ok c m slot alignment :
  triple (mem_at (W := W) l f w) (allocate_cursor cf c m slot (rounded_bytes m) alignment)
    (fun r s => let '(status, c', m', _) := r in outcome_of c m slot (good_host m) status c' m' s).
Proof.
  unfold allocate_cursor. cbv zeta.
  eapply triple_bind with (mid := fun r s => mem_at l f w s /\ match r with inr (status, _) => status <> 0 | inl _ => True end).
  { generalize 63%nat. intros attempts. induction attempts as [|attempts IH]; cbn [cursor_loop];
      (eapply triple_bind with (mid := fun _ => mem_at l f w); [auto with broker|intros cursor]);
      (destruct (_ && negb _); [apply triple_ret; intros s Hs; split; [exact Hs|discriminate]|]);
      (eapply triple_bind with (mid := fun _ => mem_at l f w); [auto with broker|intros [rc got]]);
      (destruct (_ && _); [apply triple_ret; auto|]);
      (eapply triple_bind with (mid := fun _ => mem_at l f w); [keeps (mem_at (W := W) l f w)|intros _]).
    - apply triple_ret. intros s Hs. split; [exact Hs|discriminate].
    - eapply triple_bind with (mid := fun _ => mem_at l f w); [auto with broker|intros _; exact IH]. }
  intros [address|[status stage]]; [|apply triple_ret; intros s [Hs N]; apply refused_outcome; assumption].
  eapply triple_conseq with (pre' := mem_at l f w); [|intros s [Hs _]; exact Hs|intros a s H; exact H].
  eapply triple_bind with (mid := fun _ => mem_at l f w); [auto with broker|intros [[mapped shared] dmem]].
  eapply triple_bind with (mid := fun _ => mem_at l f w); [keeps (mem_at (W := W) l f w)|intros granted].
  destruct granted; cbn [negb].
  - eapply triple_bind with (mid := fun _ => mem_at l f w); [auto with broker|intros _].
    destruct (host_buffer _ _ _ _ _ _ _ _) as [c' m'] eqn:E. apply host_buffer_allocated in E as (b & Al & B1 & B2 & B3 & B4).
    apply triple_ret. intros s Hs. right. split; [reflexivity|]. exists b. split; [exact Al|]. split; [split; assumption|].
    split; [intros X; congruence|]. apply mem_unranged; assumption.
  - eapply triple_bind with (mid := fun _ => mem_at l f w); [auto with broker|intros _].
    eapply triple_bind with (mid := fun _ => mem_at l f w); [auto with broker|intros _].
    apply triple_ret. intros s Hs. apply refused_outcome; [discriminate|exact Hs].
Qed.

(** What an allocation makes of a request. *)
Definition good_buffer (m : PwGpuMessage) (b : Buffer) : Prop :=
  b_bytes b = rounded_bytes m /\ b_local b = negb (Z.land (m_arg2 m) PW_GPU_ALLOC_LOCAL =? 0).

(** What the budget leaves is enough. *)
Definition within_budget (c : Client) (m : PwGpuMessage) : Prop :=
  if negb (Z.land (m_arg2 m) PW_GPU_ALLOC_LOCAL =? 0) then rounded_bytes m <= u64 (kLocalOffer - c_local c)
  else rounded_bytes m <= u64 (cf_host_limit cf - c_allocated c).

Definition answer_of (c : Client) (m : PwGpuMessage) (r : Z * Client * PwGpuMessage * Z) (s : Shared W) : Prop :=
  let '(status, c', m', _) := r in
  (status <> 0 /\ (exists stage, c' = with_stage c stage) /\ m' = m /\ mem_at l f w s) \/
  (status = 0 /\ allocation_valid cf m = true /\ within_budget c m /\
   exists slot b, first_slot (fun b => b_token b =? 0) (c_buffers c) 0 = Some slot /\ allocated c slot b c' m' /\ good_buffer m b /\
     placed_right b /\ mem_at (b :: l) f w s).

Lemma refused_answer c m status stage fd s : status <> 0 -> mem_at l f w s -> answer_of c m (status, with_stage c stage, m, fd) s.
Proof. intros N H. left. split; [exact N|]. split; [eauto|]. split; [reflexivity|exact H]. Qed.

Lemma allocate_ok c m : is_u64 (m_bytes m) -> is_u64 (m_arg0 m) -> cf_host_limit cf <= 2 ^ 32 ->
  triple (mem_at (W := W) l f w) (allocate cf c m) (answer_of c m).
Proof.
  intros U1 U2 Hl.
  unfold allocate. destruct (allocation_valid cf m) eqn:V; cbn [negb].
  2: { apply triple_ret. intros s Hs. apply refused_answer; [discriminate|exact Hs]. }
  destruct (valid_bytes cf m U1 Hl V) as (B1 & B2 & B3). destruct (valid_alignment cf m U2 V) as (k & Hk & Ea). cbv zeta.
  destruct (first_slot _ _ _) as [slot|] eqn:Es.
  2: { apply triple_ret. intros s Hs. apply refused_answer; [discriminate|exact Hs]. }
  destruct (negb (Z.land (m_arg2 m) PW_GPU_ALLOC_LOCAL =? 0)) eqn:Lo.
  - destruct (Z.le_gt_cases (rounded_bytes m) (u64 (kLocalOffer - c_local c))) as [Fit|Over].
    + eapply triple_bind; [apply allocate_local_ok, B2|]. intros [[status c'] m']. apply triple_ret. intros s [H|(H & b & H1 & [H2 H2'] & H3 & H4)].
      * left. exact H.
      * right. unfold within_budget, good_buffer. rewrite Lo. do 2 (split; [assumption|]). split; [assumption|].
        exists slot, b. do 2 (split; [assumption|]). split; [split; assumption|]. split; assumption.
    + unfold allocate_local. replace (_ <? rounded_bytes m) with true by lia. intros s Hs. cbn [mbind ret].
      apply refused_answer; [discriminate|exact Hs].
  - destruct (_ <? rounded_bytes m) eqn:Bu; to_prop.
    { apply triple_ret. intros s Hs. apply refused_answer; [discriminate|exact Hs]. }
    eapply triple_bind with (mid := fun _ => mem_at l f w); [apply triple_get_host; [destruct (negb (m_arg1 m =? 0)); auto|auto]|]. intros r.
    rewrite Ea. eapply triple_conseq with (pre' := mem_at l f w);
      [destruct (hr_reserved r); [apply allocate_ranged_ok; [destruct (negb (m_arg1 m =? 0)); auto|lia|lia]|apply allocate_cursor_ok]
      |auto|].
    intros [[[status c'] m'] fd] s [H|(H & b & H1 & [H2 H2'] & H3 & H4)]; [left; exact H|right].
    unfold within_budget, good_buffer. rewrite Lo. do 2 (split; [assumption|]). split; [assumption|].
        exists slot, b. do 2 (split; [assumption|]). split; [split; assumption|]. split; assumption.
Qed.
End Allocate.
