(* ===== verification/BrokerInvariant.v ===== *)
(** * The broker's invariant

    The buffers in the host ranges (clients' and deferred ones), the ring and
    the accounts of staging memory are kept right by every operation, whatever
    the kernel, RADV's platform layer and the GPU answer. *)

From Stdlib Require Import ZArith List Bool Lia Sorting.Permutation RelationClasses Morphisms.
From S2P Require Import Prelude Bytes BrokerProtocol HostRange BrokerState BrokerMemory BrokerFences BrokerLogic BrokerOrder BrokerBuffers.
Import ListNotations.
Open Scope Z_scope.
Open Scope broker_scope.

Section Staging.
Context {W : Type}.

(** The bytes of some staging buffers. *)
Definition bytes_of (l : list memory) : Z := fold_right Z.add 0 (map mem_bytes l).

(** Staging memory, [held] being the buffers out of the pool: while the GPU is
    not in doubt, the buffers made and not freed are those held and the
    spares. *)
Record staging_ok (held : list memory) (s : Shared W) : Prop := {
  so_pool : pool_ok (f_staging (s_fences s));
  so_held : Forall (fun m => 0 <= mem_bytes m < 2 ^ 63) held;
  so_count : s_wedged s = false ->
    u64 (n_staging_allocs (s_counters s) - n_staging_frees (s_counters s)) = u64 (size held + size (st_spare (f_staging (s_fences s))));
  so_bytes : s_wedged s = false -> u64 (n_staging_held (s_counters s)) = u64 (bytes_of held + st_bytes (f_staging (s_fences s)))
}.

Lemma staging_ok_mark held s s' : s_fences s' = s_fences s -> mark_of s' = mark_of s -> staging_ok held s -> staging_ok held s'.
Proof.
  intros F M [A B C D]. unfold mark_of in M. injection M as M1 M2 M3 M4. constructor; rewrite ?F, ?M1, ?M2, ?M3, ?M4; assumption.
Qed.

(** What stays the same of the fences while the queue moves. *)
Definition same_fence (f f' : Fences) : Prop :=
  f_page f' = f_page f /\ f_issued f' = f_issued f /\ f_deferred f' = f_deferred f /\ f_stamps f' = f_stamps f.

(** A state between two steps of an operation. *)
Definition between (l : list Buffer) (held : list memory) (ring : list Inflight) (f : Fences) (w : bool) (s : Shared W) : Prop :=
  mem_ok l s /\ staging_ok held s /\ f_ring (s_fences s) = ring /\ same_fence f (s_fences s) /\ s_wedged s = w.

Lemma mem_ok_ranges l (s s' : Shared W) : s_window s' = s_window s -> s_high s' = s_high s -> mem_ok l s -> mem_ok l s'.
Proof. intros E1 E2 [A B C D E]. constructor; rewrite ?E1, ?E2; assumption. Qed.

Lemma between_quiet l held ring f w : quiet (between l held ring f w).
Proof.
  split; [intros s v|intros g s S|intros x y s|intros n s]; intros (A & B & C & D & E); (split; [apply (mem_ok_ranges l s); [reflexivity|reflexivity|exact A]|]);
    (split; [|split; [exact C|split; assumption]]); try (apply (staging_ok_mark held s); [reflexivity|reflexivity|exact B]).
  destruct B as [B1 B2 B3 B4]. destruct (S (s_counters s)) as (S1 & S2 & S3). constructor; cbn; rewrite ?S1, ?S2, ?S3; assumption.
Qed.
End Staging.

#[export] Hint Resolve between_quiet : broker.

Lemma u64_cong a b : u64 a = u64 b -> exists k, a = b + k * 2 ^ 64.
Proof. unfold u64. intros H. exists (a / 2 ^ 64 - b / 2 ^ 64). pose proof (Z.div_mod a (2 ^ 64)). pose proof (Z.div_mod b (2 ^ 64)). lia. Qed.

Lemma u64_of a b k : a = b + k * 2 ^ 64 -> u64 a = u64 b.
Proof. unfold u64. intros ->. apply Z.mod_add. lia. Qed.

(** [u64] goes through sums. *)
Lemma u64_add_l a b : u64 (u64 a + b) = u64 (a + b).
Proof. unfold u64. apply Z.add_mod_idemp_l. lia. Qed.
Lemma u64_sub_l a b : u64 (u64 a - b) = u64 (a - b).
Proof. unfold u64. rewrite <- !Z.add_opp_r. apply Z.add_mod_idemp_l. lia. Qed.
Lemma u64_sub_r a b : u64 (a - u64 b) = u64 (a - b).
Proof. apply (u64_of _ _ (b / 2 ^ 64)). unfold u64. pose proof (Z.div_mod b (2 ^ 64)). lia. Qed.
Lemma u64_u64 a : u64 (u64 a) = u64 a.
Proof. unfold u64. apply Z.mod_mod. lia. Qed.

(** Adding the same to both sides. *)
Lemma u64_shift a b c d : u64 a = u64 b -> a - c = b - d -> u64 c = u64 d.
Proof. intros E H. apply u64_cong in E as [k ->]. apply (u64_of _ _ k). lia. Qed.

Section Back.
Context {W : Type} {P : Platform W} (l : list Buffer) (ring : list Inflight) (f : Fences) (w : bool).

Lemma staging_free_ok m held : triple (between (W := W) l (m :: held) ring f w) (staging_free m) (fun _ => between l held ring f w).
Proof.
  unfold staging_free. eapply triple_bind with (mid := fun _ => between l held ring f w); [|intros _; auto with broker].
  intros s (A & [B1 B2 B3 B4] & C & D & E). cbn. split; [apply (mem_ok_ranges l s); [reflexivity|reflexivity|exact A]|].
  split; [|auto]. inversion B2; subst. constructor; cbn; [assumption|assumption| |].
  - intros V. specialize (B3 V). rewrite u64_sub_l, u64_sub_r. rewrite size_cons in B3. apply (u64_shift _ _ _ _ B3). lia.
  - intros V. specialize (B4 V). unfold bytes_of in *. cbn in B4. rewrite u64_u64. apply (u64_shift _ _ _ _ B4). lia.
Qed.

Lemma count_refused_ok held : triple (between (W := W) l held ring f w) (count_staging 0 0 0 1 0) (fun _ => between l held ring f w).
Proof.
  intros s (A & [B1 B2 B3 B4] & C & D & E). cbn. split; [apply (mem_ok_ranges l s); [reflexivity|reflexivity|exact A]|].
  split; [|auto]. constructor; cbn; rewrite ?Z.add_0_r, ?u64_u64, ?u64_sub_l, ?u64_sub_r; assumption.
Qed.

Lemma staging_back_ok m held : triple (between (W := W) l (m :: held) ring f w) (staging_back m) (fun _ => between l held ring f w).
Proof.
  unfold staging_back. eapply triple_bind with (mid := fun g s => g = s_fences s /\ between l (m :: held) ring f w s);
    [apply triple_get_fences; auto|intros g].
  destruct (ps5_gpu_staging_give (f_staging g) m) as [accepted pool] eqn:G.
  eapply triple_bind with (mid := fun _ => between l (if accepted then held else m :: held) ring f w).
  - intros s (-> & A & [B1 B2 B3 B4] & C & D & E). inversion B2 as [|? ? Hm B2']; subst.
    pose proof (give_spec _ m B1 Hm) as T. rewrite G in T. destruct accepted.
    + destruct T as [T1 T2]. split; [apply (mem_ok_ranges l s); [reflexivity|reflexivity|exact A]|]. split; [|auto].
      constructor; cbn; [exact T2|exact B2'| |].
      * intros V. specialize (B3 V). rewrite T1, size_app. change (size [m]) with 1. rewrite size_cons in B3. apply (u64_shift _ _ _ _ B3). lia.
      * intros V. specialize (B4 V). destruct T2 as (_ & _ & T2 & _), B1 as (_ & _ & B1 & _). rewrite T2, T1, map_app, fold_right_app.
        unfold bytes_of in *. cbn in B4. rewrite B1 in B4. apply (u64_shift _ _ _ _ B4). cbn.
        assert (S : forall x (r : list Z), fold_right Z.add x r = x + fold_right Z.add 0 r) by (intros x r; induction r; cbn; lia).
        rewrite (S (mem_bytes m + 0)). lia.
    + destruct T as [-> _]. split; [apply (mem_ok_ranges l s); [reflexivity|reflexivity|exact A]|]. split; [|auto].
      constructor; cbn; assumption.
  - intros _. destruct accepted; [apply triple_ret; auto|].
    eapply triple_bind; [apply staging_free_ok|intros ?; apply count_refused_ok].
Qed.
End Back.

(** ** Reaping *)

Section Reap.
Context {W : Type} {P : Platform W}.

Lemma reap_ring_ok l now f w ring :
  triple (between (W := W) l (map in_staging ring) ring f w) (reap_ring now ring)
    (fun _ => between l (map in_staging (drop_done now ring)) (drop_done now ring) f w).
Proof.
  induction ring as [|e ring IH]; cbn [reap_ring drop_done map]; [apply triple_ret; auto|].
  destruct (done (in_seq e) now); [|apply triple_ret; auto].
  eapply triple_bind; [apply staging_back_ok|intros ?].
  eapply triple_bind with (mid := fun g s => g = s_fences s /\ between l (map in_staging ring) (e :: ring) f w s); [apply triple_get_fences; auto|intros g].
  eapply triple_bind with (mid := fun _ => between l (map in_staging ring) ring f w); [|intros ?; exact IH].
  intros s (-> & A & [B1 B2 B3 B4] & C & D & E). cbn. split; [apply (mem_ok_ranges l s); [reflexivity|reflexivity|exact A]|].
  split; [constructor; assumption|]. auto.
Qed.

Lemma release_between b l held ring f w : placed_right b ->
  triple (between (W := W) (b :: l) held ring f w) (release b) (fun _ => between l held ring f w).
Proof.
  intros Pb s (A & B & C & D & E). pose proof (release_ok b l (s_fences s) (mark_of s) Pb s (conj A (conj eq_refl eq_refl))) as R.
  destruct (release b s) as [? s'| | |]; [|exact R..]. destruct R as (R1 & R2 & R3).
  split; [exact R1|]. split; [apply (staging_ok_mark held s); assumption|]. rewrite R2. split; [exact C|]. split; [exact D|].
  unfold mark_of in R3. injection R3 as R3 _ _ _. congruence.
Qed.

(** The last entry moved to the front of what is left to look at. *)
Definition moved (rest : list Deferred) : list Deferred :=
  match rev rest with [] => [] | last_ :: middle => last_ :: rev middle end.

Lemma moved_perm rest : Permutation rest (moved rest).
Proof.
  unfold moved. destruct (rev rest) as [|x m] eqn:E.
  - apply (f_equal (@rev _)) in E. rewrite rev_involutive in E. subst. constructor.
  - apply (f_equal (@rev _)) in E. rewrite rev_involutive in E. subst. cbn. symmetry. apply Permutation_cons_append.
Qed.

Lemma mem_placed l (s : Shared W) : mem_ok l s -> Forall placed_right l.
Proof. intros H. apply (mo_placed _ _ H). Qed.

Lemma between_perm l m held ring f w (s : Shared W) : Permutation l m -> between l held ring f w s -> between m held ring f w s.
Proof. intros E (A & R). split; [apply (mem_perm l); assumption|exact R]. Qed.

Lemma reap_deferred_ok outside held ring f w now fuel : forall kept_ rest, (List.length rest <= fuel)%nat ->
  triple (between (W := W) (outside ++ map d_buffer (kept_ ++ rest)) held ring f w) (reap_deferred fuel now kept_ rest)
    (fun left s => between (outside ++ map d_buffer left) held ring f w s /\
       exists gone, Permutation (kept_ ++ rest) (gone ++ left) /\ Forall (fun d => done (d_seq d) now = true) gone /\
         (Forall (fun d => done (d_seq d) now = false) kept_ -> Forall (fun d => done (d_seq d) now = false) left)).
Proof.
  induction fuel as [|fuel IH]; intros kept_ rest Hf.
  - destruct rest; [|cbn in Hf; lia]. cbn. apply triple_ret. intros s Hs. split; [exact Hs|]. exists []. rewrite app_nil_r. auto.
  - cbn [reap_deferred]. destruct rest as [|d rest]; [apply triple_ret; intros s Hs; rewrite app_nil_r in *; split; [exact Hs|]; exists []; auto|].
    destruct (done (d_seq d) now) eqn:Dn.
    + fold (moved rest). assert (Pm : Permutation (outside ++ map d_buffer (kept_ ++ d :: rest)) (d_buffer d :: outside ++ map d_buffer (kept_ ++ moved rest))).
      { rewrite !map_app. cbn [map]. rewrite <- (moved_perm rest), !app_assoc, <- Permutation_middle. reflexivity. }
      eapply triple_bind with (mid := fun _ => between (outside ++ map d_buffer (kept_ ++ moved rest)) held ring f w).
      * intros s Hs. apply (between_perm _ _ _ _ _ _ _ Pm) in Hs. revert s Hs.
        assert (Hd : forall s, between (d_buffer d :: outside ++ map d_buffer (kept_ ++ moved rest)) held ring f w s -> placed_right (d_buffer d))
          by (intros s (A & _); apply mem_placed in A; inversion A; assumption).
        intros s Hs. apply (release_between (d_buffer d) _ held ring f w (Hd s Hs) s Hs).
      * intros ?. eapply triple_conseq; [apply IH|auto|].
        { rewrite <- (Permutation_length (moved_perm rest)). cbn in Hf. lia. }
        intros left s (B & gone & G1 & G2 & G3). split; [exact B|]. exists (d :: gone). split; [|split; [constructor; assumption|exact G3]].
        rewrite <- Permutation_middle. cbn. constructor. rewrite (moved_perm rest). exact G1.
    + assert (E : kept_ ++ d :: rest = (kept_ ++ [d]) ++ rest) by (rewrite <- app_assoc; reflexivity). rewrite E.
      eapply triple_conseq; [apply IH; cbn in Hf; lia|auto|]. intros left s (B & gone & G1 & G2 & G3).
      split; [exact B|]. exists gone. split; [exact G1|]. split; [exact G2|]. intros K. apply G3. apply Forall_app. auto.
Qed.

(** What one [reap] does: [v] is the value read from the fence page. *)
Definition reaped (f : Fences) (v : Z) (f' : Fences) : Prop :=
  f_ring f' = drop_done v (f_ring f) /\ f_page f' = f_page f /\ f_issued f' = f_issued f /\ f_stamps f' = f_stamps f /\
  exists gone, Permutation (f_deferred f) (gone ++ f_deferred f') /\ Forall (fun d => done (d_seq d) v = true) gone /\
    Forall (fun d => done (d_seq d) v = false) (f_deferred f').

(** A stable state: the buffers waiting for the GPU are the deferred ones and
    the staging memory out of the pool is the ring's. *)
Definition stable (outside : list Buffer) (f : Fences) (w : bool) (s : Shared W) : Prop :=
  between (outside ++ map d_buffer (f_deferred f)) (map in_staging (f_ring f)) (f_ring f) f w s.

Lemma stable_at outside f w (s : Shared W) : stable outside f w s -> stable outside (s_fences s) w s.
Proof.
  intros (A & B & C & (D1 & D2 & D3 & D4) & E). unfold stable, between. rewrite C, D3.
  split; [exact A|]. split; [exact B|]. split; [reflexivity|]. split; [split; auto|exact E].
Qed.

(** What a [reap] started in world [w0] found. *)
Definition reap_found (f : Fences) (w0 : W) (f' : Fences) : Prop :=
  (mem_cpu (f_page f) = 0 /\ f_ring f' = f_ring f /\ same_fence f f') \/
  exists v w1, p_read_word (mem_cpu (f_page f)) w0 = (v, w1) /\ reaped f v f'.

Lemma completed_ok (I : Shared W -> Prop) w0 page : worldly I ->
  triple (fun s => (s_world s = w0 /\ f_page (s_fences s) = page) /\ I s) completed
    (fun v s => (exists w1, p_read_word (mem_cpu page) w0 = (v, w1)) /\ I s).
Proof.
  intros Hw s [[<- <-] Hs]. unfold completed, mbind, get_fences, call. destruct (p_read_word _ _) as [v w1] eqn:E.
  split; [exists w1; reflexivity|apply Hw, Hs].
Qed.

Lemma reap_ok outside f w w0 :
  triple (fun s => s_world s = w0 /\ stable outside f w s) reap
    (fun _ s => stable outside (s_fences s) w s /\ reap_found f w0 (s_fences s)).
Proof.
  unfold reap. eapply triple_bind with (mid := fun g s => (f_ring g = f_ring f /\ same_fence f g) /\ (s_world s = w0 /\ stable outside f w s)).
  { apply triple_get_fences. intros s [Hw Hs]. split; [|auto]. destruct Hs as (_ & _ & C & D & _). auto. }
  intros g. apply triple_pure. intros [G1 G2]. destruct (mem_cpu (f_page g) =? 0) eqn:Pg.
  - apply triple_ret. intros s [_ Hs]. split; [apply (stable_at _ _ _ _ Hs)|]. left. to_prop. destruct Hs as (_ & _ & C & D & _).
    split; [destruct G2 as (G2 & _); congruence|]. auto.
  - eapply triple_bind with (mid := fun v s => (exists w1, p_read_word (mem_cpu (f_page f)) w0 = (v, w1)) /\ stable outside f w s).
    { eapply triple_conseq; [apply (completed_ok (stable outside f w) w0 (f_page f)); unfold stable; auto with broker| |auto].
      intros s [Hw Hs]. split; [|exact Hs]. split; [exact Hw|]. destruct Hs as (_ & _ & _ & (D & _) & _). exact D. }
    intros now. apply triple_pure. intros [w1 Rd]. rewrite G1. eapply triple_bind; [apply reap_ring_ok|intros ?].
    destruct G2 as (_ & _ & G2 & _). rewrite G2.
    eapply triple_bind; [apply (reap_deferred_ok outside _ _ f w now (List.length (f_deferred f)) [] (f_deferred f)); lia|]. intros left.
    intros s ((A & [B1 B2 B3 B4] & C & (D1 & D2 & D3 & D4) & E) & gone & K1 & K2 & K3). cbn. split.
    + split; [apply (mem_ok_ranges _ s); [reflexivity|reflexivity|exact A]|]. cbn. rewrite C. split; [constructor; assumption|]. split; [reflexivity|]. split; [split; auto|exact E].
    + right. exists now, w1. split; [exact Rd|]. split; [exact C|]. do 3 (split; [assumption|]). exists gone. auto.
Qed.
End Reap.

(** ** The queue *)

(** What the ring and the deferred list keep, whatever the GPU writes. *)
Record queue_ok (w : bool) (f : Fences) : Prop := {
  qo_issued : 0 <= f_issued f < 2 ^ 32;
  qo_ring : size (f_ring f) <= kRing;
  qo_deferred : size (f_deferred f) <= kDeferred;
  qo_follows : exists prev, 0 <= prev < 2 ^ 32 /\ follows prev (ring_seqs f) /\
                 (w = false -> f_ring f <> [] -> last (ring_seqs f) prev = f_issued f)
}.

Lemma last_app_nonempty {A : Type} (l m : list A) d e : m <> [] -> last (l ++ m) d = last m e.
Proof.
  intros N. induction l as [|a l IH]; cbn [app].
  - destruct m as [|x m]; [contradiction|]. clear N. revert x. induction m as [|y m IH]; intros x; [reflexivity|apply IH].
  - destruct (l ++ m) eqn:E; [destruct l; [contradiction|discriminate]|]. exact IH.
Qed.

Lemma size_perm {A : Type} (l m : list A) : Permutation l m -> size l = size m.
Proof. intros E. unfold size. rewrite (Permutation_length E). reflexivity. Qed.

Lemma last_seq_range prev l : 0 <= prev < 2 ^ 32 -> follows prev l -> 0 <= last l prev < 2 ^ 32.
Proof.
  intros Hp F. destruct l as [|a l _] using rev_ind; [exact Hp|]. rewrite last_last.
  pose proof (follows_range prev (l ++ [a]) a Hp F ltac:(apply in_or_app; right; left; reflexivity)). lia.
Qed.

Lemma reaped_queue {W : Type} {P : Platform W} w f v f' : queue_ok w f -> reaped f v f' -> queue_ok w f'.
Proof.
  intros [A B C (prev & D1 & D2 & D3)] (R1 & R2 & R3 & R4 & gone & G1 & _). destruct (drop_done_suffix v (f_ring f)) as (done_ & E & _).
  rewrite <- R1 in E. constructor.
  - rewrite R3. exact A.
  - rewrite E, size_app in B. pose proof (size_nonneg done_). lia.
  - rewrite (size_perm _ _ G1), size_app in C. pose proof (size_nonneg gone). lia.
  - unfold ring_seqs in *. rewrite E, map_app in D2. apply follows_app in D2 as [D2 D4].
    exists (last (map in_seq done_) prev). split; [apply last_seq_range; assumption|]. split; [exact D4|].
    intros Hw Hn. rewrite R3, <- D3; [|exact Hw|intros X; rewrite X in E].
    + rewrite E, map_app. symmetry. apply last_app_nonempty. destruct (f_ring f'); [contradiction|discriminate].
    + destruct done_, (f_ring f'); try discriminate; contradiction.
Qed.

(** ** The invariant of the broker *)

Section Whole.
Context {W : Type} {P : Platform W} (cf : Config).

(** [outside]: the buffers of every client. *)
Definition broker_ok (outside : list Buffer) (s : Shared W) : Prop :=
  stable outside (s_fences s) (s_wedged s) s /\ queue_ok (s_wedged s) (s_fences s).

(** With the GPU's state as it is. *)
Definition broker_at (outside : list Buffer) (w : bool) (s : Shared W) : Prop := broker_ok outside s /\ s_wedged s = w.

Lemma broker_quiet outside w : quiet (broker_at outside w).
Proof.
  split; [intros s v|intros g s S|intros x y s|intros n s]; intros [[A B] C]; (split; [split; [|exact B]|exact C]); revert A; unfold stable; intros A.
  - apply (q_world _ (between_quiet _ _ _ _ _) s v A).
  - apply (q_count _ (between_quiet _ _ _ _ _) g s S A).
  - apply (q_cursor _ (between_quiet _ _ _ _ _) x y s A).
  - apply (q_test _ (between_quiet _ _ _ _ _) n s A).
Qed.

(** New fences that agree on the ring, the waiting buffers and the pool. *)
Definition alike (f f' : Fences) : Prop :=
  f_ring f' = f_ring f /\ f_deferred f' = f_deferred f /\ f_issued f' = f_issued f /\ f_staging f' = f_staging f.

Lemma set_alike outside w (g : Fences) : triple (fun s => alike (s_fences s) g /\ broker_at outside w s) (set_fences g) (fun _ => broker_at outside w).
Proof.
  intros s [(E1 & E2 & E3 & E4) [[(A & [B1 B2 B3 B4] & _ & _ & _) [Q1 Q2 Q3 Q4]] C]]. cbn. split; [|exact C]. split.
  - split; [apply (mem_ok_ranges _ s); [reflexivity|reflexivity|]; cbn; rewrite E2; exact A|]. cbn. rewrite E1.
    split; [constructor; cbn; rewrite ?E4; assumption|]. split; [reflexivity|]. split; [split; auto|reflexivity].
  - cbn. constructor; unfold ring_seqs in *; rewrite ?E1, ?E2, ?E3; assumption.
Qed.

Lemma reap_keeps outside w : triple (broker_at outside w) reap (fun _ => broker_at outside w).
Proof.
  intros s [[A Q] C]. pose proof (reap_ok outside (s_fences s) (s_wedged s) (s_world s) s (conj eq_refl A)) as R.
  destruct (reap s) as [? s'| | |]; [|exact R..]. destruct R as [R F].
  assert (E : s_wedged s' = s_wedged s) by apply R. split; [|congruence]. split; [rewrite E; exact R|]. rewrite E.
  destruct F as [(_ & F1 & F2 & F3 & F4 & F5)|(v & w1 & _ & F)]; [|exact (reaped_queue _ _ _ _ Q F)].
  destruct Q as [Q1 Q2 Q3 Q4]. constructor; unfold ring_seqs in *; rewrite ?F1, ?F3, ?F4; assumption.
Qed.

Lemma drain_loop_keeps outside w fuel end_ :
  triple (broker_at outside w) (drain_loop fuel end_) (fun _ => broker_at outside w).
Proof.
  pose proof (broker_quiet outside w) as Q. pose proof (reap_keeps outside w) as R.
  induction fuel as [|fuel IH]; cbn [drain_loop];
    (eapply triple_bind with (mid := fun _ => broker_at outside w); [apply triple_get_fences; auto|intros f]);
    (destruct (idle f); [apply triple_ret; auto|]);
    (eapply triple_bind with (mid := fun _ => broker_at outside w); [auto with broker|intros now]);
    (destruct (negb (now <? end_)); [apply triple_ret; auto|]).
  - intros s _. exact I.
  - eapply triple_bind with (mid := fun _ => broker_at outside w); [auto with broker|intros ?].
    eapply triple_bind with (mid := fun _ => broker_at outside w); [exact R|intros ?; exact IH].
Qed.

(** A drain that answers [true] left nothing in flight and nothing waiting. *)
Lemma drain_ok outside w timeout :
  triple (broker_at outside w) (drain timeout) (fun answer s => broker_at outside w s /\ (answer = true -> idle (s_fences s) = true)).
Proof.
  pose proof (broker_quiet outside w) as Q. unfold drain.
  eapply triple_bind with (mid := fun _ => broker_at outside w); [apply reap_keeps|intros ?].
  eapply triple_bind with (mid := fun g s => (g = s_fences s) /\ broker_at outside w s); [apply triple_get_fences; auto|intros f].
  destruct (idle f) eqn:If; [apply triple_ret; intros s [-> Hs]; auto|].
  eapply triple_bind with (mid := fun _ => broker_at outside w).
  { eapply triple_conseq; [apply (set_alike outside w)| |auto]. intros s [-> Hs]. split; [unfold alike; auto|exact Hs]. }
  intros ?. eapply triple_bind with (mid := fun _ => broker_at outside w); [auto with broker|intros now].
  eapply triple_bind with (mid := fun _ => broker_at outside w); [apply drain_loop_keeps|intros ?].
  eapply triple_bind with (mid := fun g s => g = s_fences s /\ broker_at outside w s); [apply triple_get_fences; auto|intros g].
  apply triple_ret. intros s [-> Hs]. auto.
Qed.

Lemma mem_outside b outside d (s : Shared W) : mem_ok ((b :: outside) ++ d) s -> mem_ok (outside ++ d) s.
Proof. apply mem_drop. Qed.

Lemma broker_drop b outside w (s : Shared W) : broker_at (b :: outside) w s -> broker_at outside w s.
Proof. intros [[(A & R) Q] C]. split; [|exact C]. split; [|exact Q]. split; [apply (mem_outside b), A|exact R]. Qed.

Lemma release_keeps b outside w : placed_right b -> triple (broker_at (b :: outside) w) (release b) (fun _ => broker_at outside w).
Proof.
  intros Pb s [[A Q] C]. unfold stable in A. cbn [app] in A. pose proof A as (_ & _ & _ & _ & E0).
  pose proof (release_between b _ _ _ _ _ Pb s A) as R.
  pose proof (release_ok b (outside ++ map d_buffer (f_deferred (s_fences s))) (s_fences s) (mark_of s) Pb s (conj (proj1 A) (conj eq_refl eq_refl))) as R'.
  destruct (release b s) as [? s'| | |]; [|exact R..]. destruct R' as (_ & F & M). unfold mark_of in M. injection M as M _ _ _.
  split; [|congruence]. split; [rewrite M, F; exact R|rewrite M, F; exact Q].
Qed.

Lemma give_up_keeps outside w : triple (broker_at outside w) (gives_up cf) (fun _ => broker_at outside true).
Proof.
  unfold gives_up. destruct (cf_retain_on_failure cf); [intros s _; exact I|].
  eapply triple_bind with (mid := fun _ => broker_at outside true); [|intros ?; apply triple_ret; auto].
  intros s [[(A & [B1 B2 B3 B4] & R1 & R2 & R3) [Q1 Q2 Q3 (prev & Q4 & Q5 & Q6)]] C]. cbn. split; [|reflexivity]. split.
  - split; [apply (mem_ok_ranges _ s); [reflexivity|reflexivity|exact A]|]. split; [constructor; cbn; [assumption|assumption|discriminate|discriminate]|].
    split; [exact R1|]. split; [exact R2|reflexivity].
  - constructor; cbn; try assumption. exists prev. split; [exact Q4|]. split; [exact Q5|discriminate].
Qed.
End Whole.
