(* ===== verification/BrokerRequests.v ===== *)
(** * Freeing and submitting keep the broker's invariant *)

From Stdlib Require Import ZArith List Bool Lia Sorting.Permutation RelationClasses Morphisms.
From S2P Require Import Prelude Bytes BrokerProtocol HostRange BrokerState BrokerMemory BrokerFences BrokerLogic BrokerOrder BrokerBuffers BrokerInvariant.
Import ListNotations.
Open Scope Z_scope.
Open Scope broker_scope.

(** What the broker relies on of RADV's platform layer: sizes that are whole
    pages are kept, and the timestamps' packets are small. *)
Record lawful {W : Type} (P : Platform W) : Prop := {
  law_memory : exact_memory P;
  law_stamps : 0 <= p_ts_start_words < 2 ^ 32 /\ 0 <= p_ts_end_words < 2 ^ 32
}.

Section Requests.
Context {W : Type} {P : Platform W} (Law : lawful P) (cf : Config).

(** ** Freeing *)

(** The account after a free. *)
Definition freed (c : Client) (slot : nat) (b : Buffer) : Client :=
  with_accounts c (c_next_token c) (if b_local b then c_allocated c else u64 (c_allocated c - b_bytes b))
    (if b_local b then u64 (c_local c - b_bytes b) else c_local c) (c_local_peak c) (set_slot (c_buffers c) slot no_buffer).

Lemma defer_ok b outside w g : placed_right b ->
  triple (fun s => (g = s_fences s /\ size (f_deferred g) < kDeferred) /\ broker_at (W := W) (b :: outside) w s)
    (set_fences (with_deferred g (f_deferred g ++ [{| d_buffer := b; d_seq := f_issued g |}])))
    (fun _ => broker_at outside w).
Proof.
  intros Pb s [[-> Hd] [[(A & [B1 B2 B3 B4] & R1 & R2 & R3) [Q1 Q2 Q3 Q4]] C]]. cbn. split; [|exact C]. split.
  - split.
    + apply (mem_ok_ranges _ s); [reflexivity|reflexivity|]. cbn. eapply mem_perm; [|exact A]. rewrite map_app. cbn [app map].
      rewrite app_assoc. apply Permutation_cons_append.
    + cbn. split; [constructor; assumption|]. split; [reflexivity|]. split; [split; auto|reflexivity].
  - constructor; cbn; try assumption. rewrite size_app. change (size [_]) with 1. lia.
Qed.

Lemma free_buffer_ok c slot b outside w : placed_right b ->
  triple (broker_at (b :: outside) w) (free_buffer cf c slot b) (fun c' s => c' = freed c slot b /\ broker_ok outside s).
Proof.
  intros Pb. pose proof (broker_drop b outside (W := W)) as Dr. unfold free_buffer. fold (freed c slot b). cbv zeta.
  eapply triple_bind with (mid := fun sh s => s_wedged sh = w /\ broker_at (b :: outside) w s); [apply triple_get; intros s Hs; split; [apply Hs|exact Hs]|intros sh].
  apply triple_pure. intros ->. destruct w.
  - apply triple_ret. intros s Hs. split; [reflexivity|]. apply Dr in Hs. apply Hs.
  - eapply triple_bind; [apply reap_keeps|intros ?].
    assert (Rel : triple (broker_at (b :: outside) false) (do* release b in ret (freed c slot b)) (fun c' s => c' = freed c slot b /\ broker_ok outside s)).
    { eapply triple_bind; [apply release_keeps, Pb|intros ?]. apply triple_ret. intros s Hs. split; [reflexivity|apply Hs]. }
    eapply triple_bind with (mid := fun f s => f = s_fences s /\ broker_at (b :: outside) false s); [apply triple_get_fences; auto|intros f].
    destruct (f_ring f) as [|e ring] eqn:Rf; [eapply triple_conseq; [exact Rel|intros s [_ Hs]; exact Hs|auto]|].
    eapply triple_bind with (mid := fun (stalled : bool) s => broker_at (b :: outside) false s /\
      (stalled = false -> f_ring (s_fences s) <> [] -> size (f_deferred (s_fences s)) < kDeferred)).
    { destruct (size (f_deferred f) =? kDeferred) eqn:Sz; to_prop.
      - eapply triple_bind; [eapply triple_conseq; [apply drain_ok|intros s [_ Hs]; exact Hs|intros r0 s0 H0; exact H0]|]. intros drained.
        apply triple_ret. intros s [Hs Hi]. split; [exact Hs|]. intros Hd Hr. destruct drained; [|discriminate]. specialize (Hi eq_refl).
        unfold idle in Hi. destruct (f_ring (s_fences s)); [contradiction|discriminate].
      - apply triple_ret. intros s [-> Hs]. split; [exact Hs|]. intros _ _. destruct Hs as [[_ [_ _ Q _]] _]. lia. }
    intros [|].
    + eapply triple_bind; [eapply triple_conseq; [apply give_up_keeps|intros s [Hs _]; exact Hs|intros r0 s0 H0; exact H0]|intros ?].
      apply triple_ret. intros s Hs. split; [reflexivity|]. apply Dr in Hs. apply Hs.
    + eapply triple_bind with (mid := fun g s => (g = s_fences s /\ (f_ring g <> [] -> size (f_deferred g) < kDeferred)) /\ broker_at (b :: outside) false s);
        [apply triple_get_fences; intros s [Hs Hd]; auto|intros g].
      destruct (f_ring g) as [|e' ring'] eqn:Rg; [eapply triple_conseq; [exact Rel|intros s [_ Hs]; exact Hs|auto]|].
      eapply triple_bind with (mid := fun _ => broker_at outside false).
      * eapply triple_conseq; [apply (defer_ok b outside false g Pb)| |auto]. intros s [[E Hd] Hs]. split; [|exact Hs].
        split; [exact E|apply Hd; discriminate].
      * intros ?. apply triple_ret. intros s Hs. split; [reflexivity|apply Hs].
Qed.

(** ** Submitting *)

(** Between taking a staging buffer and handing it over: [m] is out of the
    pool and the number [seq] is issued for it. *)
Definition loaded (outside : list Buffer) (m : memory) (seq : Z) (s : Shared W) : Prop :=
  between (outside ++ map d_buffer (f_deferred (s_fences s))) (m :: map in_staging (f_ring (s_fences s))) (f_ring (s_fences s)) (s_fences s) false s /\
  size (f_ring (s_fences s)) < kRing /\ size (f_deferred (s_fences s)) <= kDeferred /\ f_issued (s_fences s) = seq /\
  exists prev, 0 <= prev < 2 ^ 32 /\ follows prev (ring_seqs (s_fences s) ++ [seq]).

Lemma loaded_quiet outside m seq : quiet (loaded outside m seq).
Proof.
  split; [intros s v|intros g s S|intros x y s|intros n s]; intros [A B]; (split; [|exact B]).
  - apply (q_world _ (between_quiet _ _ _ _ _) s v A).
  - apply (q_count _ (between_quiet _ _ _ _ _) g s S A).
  - apply (q_cursor _ (between_quiet _ _ _ _ _) x y s A).
  - apply (q_test _ (between_quiet _ _ _ _ _) n s A).
Qed.

Lemma loaded_alike outside m seq (g : Fences) :
  triple (fun s => alike (s_fences s) g /\ loaded outside m seq s) (set_fences g) (fun _ => loaded outside m seq).
Proof.
  intros s [(E1 & E2 & E3 & E4) [(A & [B1 B2 B3 B4] & _ & _ & C) D]]. cbn. unfold loaded. cbn. unfold ring_seqs in *. rewrite E1, E2, E3. split; [|exact D].
  split; [apply (mem_ok_ranges _ s); [reflexivity|reflexivity|exact A]|].
  split; [constructor; cbn; rewrite ?E4; assumption|]. split; [exact E1|]. split; [split; auto|exact C].
Qed.

(** Code that only changes the GPU state set or the kick flag. *)
Lemma loaded_set outside m seq (h : Fences -> Fences) : (forall f, alike f (h f)) ->
  triple (loaded outside m seq) (let* f := get_fences in set_fences (h f)) (fun _ => loaded outside m seq).
Proof.
  intros Hh. eapply triple_bind with (mid := fun g s => g = s_fences s /\ loaded outside m seq s); [apply triple_get_fences; auto|intros g].
  eapply triple_conseq; [apply (loaded_alike outside m seq (h g))| |auto]. intros s [-> Hs]. auto.
Qed.

(** With a drain behind it, nothing is in flight. *)
Definition room (outside : list Buffer) (empty : bool) (s : Shared W) : Prop :=
  (size (f_ring (s_fences s)) < kRing /\ (empty = true -> f_ring (s_fences s) = [])) /\ broker_at outside false s.

Lemma idle_room outside (s : Shared W) : broker_at outside false s -> idle (s_fences s) = true -> room outside true s.
Proof.
  intros Hs Hi. unfold idle in Hi. destruct (f_ring (s_fences s)) eqn:E; [|discriminate]. split; [|exact Hs]. rewrite E. split; [reflexivity|auto].
Qed.

Lemma room_alike outside empty (g : Fences) :
  triple (fun s => alike (s_fences s) g /\ room outside empty s) (set_fences g) (fun _ => room outside empty).
Proof.
  intros s [E [[R1 R2] Hs]]. pose proof (set_alike outside false g s (conj E Hs)) as T. cbn in *. split; [|exact T]. cbn.
  destruct E as (-> & _). auto.
Qed.

Lemma round_pages need : 0 <= need < 2 ^ 62 -> ps5_gpu_staging_round need mod 16384 = 0 /\ 0 <= ps5_gpu_staging_round need < 2 ^ 63.
Proof.
  intros H. destruct (staging_round_class need ltac:(lia)) as (C & L & Least). split.
  - destruct C as [(k & Hk & ->)|[_ M]]; [unfold PS5_GPU_STAGING_MIN; replace (0x10000 * 2 ^ k) with (4 * 2 ^ k * 16384) by lia; apply Z.mod_mul; lia|].
    apply Z.mod_divide in M as [q ->]; [|unfold PS5_GPU_STAGING_LARGE; lia]. unfold PS5_GPU_STAGING_LARGE.
    replace (q * 0x200000) with (q * 128 * 16384) by lia. apply Z.mod_mul. lia.
  - split; [lia|]. destruct (Z.le_gt_cases need PS5_GPU_STAGING_LARGE) as [S|B]; unfold PS5_GPU_STAGING_LARGE in *.
    + assert (ps5_gpu_staging_round need <= 0x200000); [|lia]. apply Least; [left; exists 5; split; [lia|reflexivity]|lia].
    + assert (ps5_gpu_staging_round need <= need / 0x200000 * 0x200000 + 0x200000); [|Z.div_mod_to_equations; lia].
      pose proof (Z.div_mod need 0x200000 ltac:(lia)). pose proof (Z.mod_pos_bound need 0x200000 ltac:(lia)).
      apply Least; [right; unfold PS5_GPU_STAGING_LARGE; split; [lia|]|lia].
      replace (need / 0x200000 * 0x200000 + 0x200000) with ((need / 0x200000 + 1) * 0x200000) by lia. apply Z.mod_mul. lia.
Qed.

(** A staging buffer is out of the pool. *)
Definition staged (outside : list Buffer) (empty : bool) (m : memory) (s : Shared W) : Prop :=
  between (outside ++ map d_buffer (f_deferred (s_fences s))) (m :: map in_staging (f_ring (s_fences s))) (f_ring (s_fences s)) (s_fences s) false s /\
  size (f_ring (s_fences s)) < kRing /\ (empty = true -> f_ring (s_fences s) = []) /\ queue_ok false (s_fences s).

Lemma stage_ok outside empty need : 0 <= need < 2 ^ 62 ->
  triple (room outside empty) (stage need) (fun r s => match r with Some m => staged outside empty m s | None => broker_at outside false s end).
Proof.
  intros Hn. destruct (round_pages need Hn) as [Rp Rb]. unfold stage.
  eapply triple_bind with (mid := fun g s => g = s_fences s /\ room outside empty s); [apply triple_get_fences; auto|intros g].
  destruct (ps5_gpu_staging_take (f_staging g) need) as [found pool] eqn:T.
  eapply triple_bind with (mid := fun _ s => match found with Some m => staged outside empty m s | None => room outside empty s end).
  - intros s (-> & (R1 & R2) & [[(A & [B1 B2 B3 B4] & _ & _ & _) Q] V]). rewrite V in Q.
    pose proof (take_spec _ need B1 ltac:(lia)) as S. rewrite T in S. cbn. destruct found as [m|].
    + destruct S as (S1 & S2 & S3). rewrite V in B3, B4. unfold staged. cbn. split; [|split; [exact R1|split; [exact R2|destruct Q; constructor; assumption]]].
      split; [apply (mem_ok_ranges _ s); [reflexivity|reflexivity|exact A]|]. split; [|split; [reflexivity|split; [split; auto|exact V]]].
      constructor; cbn -[size bytes_of]; [exact S3|constructor; [lia|exact B2]| |].
      * intros _. rewrite (B3 eq_refl), (size_perm _ _ S2), !size_cons. f_equal. lia.
      * intros _. rewrite (B4 eq_refl). f_equal. destruct B1 as (_ & _ & B1 & _), S3 as (_ & _ & S3 & _).
        rewrite B1, S3, (sum_permutation _ _ (Permutation_map mem_bytes S2)). unfold bytes_of. cbn. lia.
    + destruct S as [-> _]. split; [split; assumption|]. split; [|exact V]. rewrite V in B3, B4. split.
      * split; [apply (mem_ok_ranges _ s); [reflexivity|reflexivity|exact A]|]. cbn. split; [constructor; cbn; rewrite ?V; assumption|].
        split; [reflexivity|split; [split; auto|reflexivity]].
      * cbn. rewrite V. destruct Q; constructor; assumption.
  - intros ?. destruct found as [m|].
    + eapply triple_bind with (mid := fun _ => staged outside empty m); [|intros ?; apply triple_ret; auto].
      intros s ((A & [B1 B2 B3 B4] & C & D & V) & R). cbn. split; [|exact R]. split; [apply (mem_ok_ranges _ s); [reflexivity|reflexivity|exact A]|].
      split; [|split; [exact C|split; [exact D|exact V]]]. constructor; cbn; rewrite ?Z.add_0_r, ?u64_u64, ?u64_sub_l, ?u64_sub_r; assumption.
    + eapply triple_bind; [apply (triple_call_fact _ _ (fun made => forall m, made = Some m -> mem_bytes m = ps5_gpu_staging_round need));
        [intros v r v' E m ->; eapply (law_memory P Law); eassumption|]|].
      { intros s v [R Hs]. split; [exact R|]. apply (q_world _ (broker_quiet outside false) s v Hs). }
      intros [m|]; [|apply triple_ret; intros s [_ [_ Hs]]; exact Hs]. apply triple_pure. intros Em. specialize (Em m eq_refl).
      eapply triple_bind with (mid := fun _ => staged outside empty m); [|intros ?; apply triple_ret; auto].
      intros s ((R1 & R2) & [[(A & [B1 B2 B3 B4] & C & D & _) Q] V']). rewrite V' in Q, B3, B4. unfold staged. cbn. split; [|auto].
      split; [apply (mem_ok_ranges _ s); [reflexivity|reflexivity|exact A]|]. split; [|split; [exact C|split; [exact D|exact V']]].
      constructor; cbn -[size bytes_of]; [exact B1|constructor; [lia|exact B2]| |].
      * intros _. rewrite Z.add_0_r, u64_sub_l, u64_sub_r, size_cons. specialize (B3 eq_refl). apply (u64_shift _ _ _ _ B3). lia.
      * intros _. rewrite u64_u64. unfold bytes_of in *. cbn. specialize (B4 eq_refl). apply (u64_shift _ _ _ _ B4). lia.
Qed.

(** The number issued follows the ring. *)
Lemma issue_ok outside empty m g :
  triple (fun s => g = s_fences s /\ staged outside empty m s) (set_fences (with_issued g (next_seq (f_issued g))))
    (fun _ s => loaded outside m (next_seq (f_issued g)) s /\ (empty = true -> f_ring (s_fences s) = [])).
Proof.
  intros s [-> ((A & [B1 B2 B3 B4] & C & D & V) & R1 & R2 & [Q1 Q2 Q3 (prev & Q4 & Q5 & Q6)])]. cbn. split; [|exact R2]. unfold loaded. cbn.
  split; [split; [apply (mem_ok_ranges _ s); [reflexivity|reflexivity|exact A]|];
          split; [constructor; assumption|split; [reflexivity|split; [split; auto|exact V]]]|].
  split; [exact R1|]. split; [exact Q3|]. split; [reflexivity|]. unfold ring_seqs in *. cbn.
  destruct (f_ring (s_fences s)) as [|e ring] eqn:E.
  - exists (f_issued (s_fences s)). split; [exact Q1|]. cbn. auto.
  - exists prev. split; [exact Q4|]. apply follows_app. split; [exact Q5|]. cbn [follows]. rewrite Q6 by (reflexivity || discriminate). auto.
Qed.

(** Handing it over makes it the ring's newest. *)
Lemma push_ok outside m seq g : 
  triple (fun s => g = s_fences s /\ loaded outside m seq s)
    (set_fences (with_queue g (f_head g) (f_ring g ++ [{| in_seq := seq; in_staging := m |}]) (f_staging g)))
    (fun _ => broker_at outside false).
Proof.
  intros s [-> ((A & [B1 B2 B3 B4] & C & D & V) & R1 & R2 & R3 & prev & R4 & R5)]. cbn -[size]. split; [|exact V]. split.
  - split; [apply (mem_ok_ranges _ s); [reflexivity|reflexivity|exact A]|]. cbn -[size]. rewrite map_app. cbn [map].
    split; [|split; [reflexivity|split; [split; auto|reflexivity]]]. inversion B2 as [|? ? Hm Hr]; subst. constructor; cbn -[size bytes_of].
    + exact B1.
    + apply Forall_app. auto.
    + intros _. specialize (B3 V). rewrite size_cons in B3. rewrite size_app. change (size [m]) with 1. apply (u64_shift _ _ _ _ B3). lia.
    + intros _. specialize (B4 V). apply (u64_shift _ _ _ _ B4). unfold bytes_of. rewrite map_app, fold_right_app. cbn.
      assert (S : forall x (r : list Z), fold_right Z.add x r = x + fold_right Z.add 0 r) by (intros x r; induction r; cbn; lia).
      rewrite (S (mem_bytes m + 0)). lia.
  - cbn -[size]. rewrite V. constructor; cbn -[size].
    + rewrite R3. pose proof (follows_range prev _ seq R4 R5 ltac:(apply in_or_app; right; left; reflexivity)). lia.
    + rewrite size_app. change (size [_]) with 1. lia.
    + exact R2.
    + exists prev. unfold ring_seqs in *. cbn. rewrite map_app. cbn [map]. split; [exact R4|]. split; [exact R5|].
      intros _ _. rewrite last_last. symmetry. exact R3.
Qed.

(** A submission refused before the GPU saw it: nothing in flight, so the
    number it used is no one's. *)
Lemma unsubmitted_ok outside m seq :
  triple (fun s => f_ring (s_fences s) = [] /\ loaded outside m seq s) (staging_back m) (fun _ => broker_at outside false).
Proof.
  intros s [E (B & R1 & R2 & R3 & prev & R4 & R5)]. rewrite E in B. cbn [map] in B.
  pose proof (staging_back_ok _ _ _ _ m [] s B) as T. destruct (staging_back m s) as [? s'| | |]; [|exact T..].
  destruct T as (A & S & C & (D1 & D2 & D3 & D4) & V). split; [|exact V]. rewrite <- D3 in A. split.
  - unfold stable, between. rewrite C. split; [exact A|]. split; [exact S|]. split; [reflexivity|]. split; [split; auto|reflexivity].
  - assert (Sq : 0 <= seq < 2 ^ 32) by (pose proof (follows_range prev _ seq R4 R5 ltac:(apply in_or_app; right; left; reflexivity)); lia).
    constructor; unfold ring_seqs; rewrite ?C, ?D2, ?D3.
    + rewrite R3. exact Sq.
    + vm_compute. discriminate.
    + exact R2.
    + exists 0. split; [lia|]. split; [exact I|]. intros _ X. contradiction.
Qed.

Lemma fill_staging_ok outside m seq msg f before after :
  triple (loaded outside m seq) (fill_staging msg m f before after seq) (fun _ => loaded outside m seq).
Proof. pose proof (loaded_quiet outside m seq). unfold fill_staging. keeps (loaded outside m seq). Qed.

Lemma set_state_ok outside m seq c t o :
  triple (fun s => ((t || o) = true -> f_ring (s_fences s) = []) /\ loaded outside m seq s) (set_state c t o)
    (fun status s => loaded outside m seq s /\ (status <> 0 -> f_ring (s_fences s) = [])).
Proof.
  pose proof (loaded_quiet outside m seq) as Q.
  assert (K : forall h, (forall f, alike f (h f)) -> (forall f, f_ring (h f) = f_ring f) ->
    triple (fun s => ((t || o) = true -> f_ring (s_fences s) = []) /\ loaded outside m seq s) (let* f := get_fences in set_fences (h f))
      (fun _ s => ((t || o) = true -> f_ring (s_fences s) = []) /\ loaded outside m seq s)).
  { intros h Hh Hr s [E Hs]. pose proof (loaded_set outside m seq h Hh s Hs) as T. cbn in *. rewrite Hr. auto. }
  assert (C : forall A (g : W -> A * W), triple (fun s => ((t || o) = true -> f_ring (s_fences s) = []) /\ loaded outside m seq s) (call g)
      (fun _ s => ((t || o) = true -> f_ring (s_fences s) = []) /\ loaded outside m seq s)).
  { intros A g. apply triple_call. intros s v [E Hs]. split; [exact E|]. apply (q_world _ Q s v Hs). }
  unfold set_state.
  eapply triple_bind with (mid := fun status s => (status <> 0 -> t = true) /\ (((t || o) = true -> f_ring (s_fences s) = []) /\ loaded outside m seq s)).
  - destruct t; [|apply triple_ret; intros s Hs; split; [intros X; contradiction|exact Hs]].
    eapply triple_bind; [apply C|intros rc]. eapply triple_bind with (mid := fun _ s => ((true || o) = true -> f_ring (s_fences s) = []) /\ loaded outside m seq s);
      [destruct (rc =? 0); [apply K; [intros f; split; auto|reflexivity]|apply triple_ret; auto]|intros ?].
    apply triple_ret. intros s Hs. auto.
  - intros status. apply triple_pure. intros Ht. destruct ((status =? 0) && o) eqn:E.
    + to_prop. subst. eapply triple_bind; [apply C|intros rc].
      eapply triple_bind with (mid := fun _ s => ((t || true) = true -> f_ring (s_fences s) = []) /\ loaded outside m seq s);
        [destruct (rc =? 0); [apply K; [intros f; split; auto|reflexivity]|apply triple_ret; auto]|intros ?].
      apply triple_ret. intros s [Hr Hs]. split; [exact Hs|]. intros _. apply Hr. apply orb_true_r.
    + apply triple_ret. intros s [Hr Hs]. split; [exact Hs|]. intros N. apply Hr. rewrite (Ht N). reflexivity.
Qed.

Lemma hand_over_ok outside m seq words :
  triple (loaded outside m seq) (hand_over cf m words) (fun _ => loaded outside m seq).
Proof.
  pose proof (loaded_quiet outside m seq) as Q. unfold hand_over, broker_submit.
  eapply triple_bind with (mid := fun _ => loaded outside m seq); [apply triple_get; auto|intros s0]. cbv zeta.
  eapply triple_bind with (mid := fun _ => loaded outside m seq); [keeps (loaded outside m seq)|intros refused].
  destruct refused; [apply triple_ret; auto|].
  eapply triple_bind with (mid := fun _ => loaded outside m seq); [auto with broker|intros status].
  eapply triple_bind with (mid := fun _ => loaded outside m seq); [|intros ?; apply triple_ret; auto].
  destruct (status =? 0); [|apply triple_ret; auto]. apply (loaded_set outside m seq (fun f => with_kick f true (f_kicks f))). intros f. split; auto.
Qed.


(** An error cannot prove that nothing reached the hardware: the staging
    stays out for good. *)
Lemma loaded_give_up outside m seq : triple (loaded outside m seq) (gives_up cf) (fun _ => broker_at outside true).
Proof.
  unfold gives_up. destruct (cf_retain_on_failure cf); [intros s _; exact I|].
  eapply triple_bind with (mid := fun _ => broker_at outside true); [|intros ?; apply triple_ret; auto].
  intros s ((A & [B1 B2 B3 B4] & C & D & V) & R1 & R2 & R3 & prev & R4 & R5). cbn. split; [|reflexivity].
  pose proof (follows_range prev _ seq R4 R5 ltac:(apply in_or_app; right; left; reflexivity)) as Rs.
  inversion B2; subst. apply follows_app in R5 as [R5 _]. split.
  - split; [apply (mem_ok_ranges _ s); [reflexivity|reflexivity|exact A]|]. split; [constructor; cbn; [assumption|assumption|discriminate|discriminate]|].
    split; [exact C|]. split; [exact D|reflexivity].
  - constructor; cbn; [lia|lia|exact R2|exists prev; split; [exact R4|]; split; [exact R5|discriminate]].
Qed.

Lemma fences_ready_ok outside w : triple (broker_at outside w) (fences_ready cf) (fun _ => broker_at outside w).
Proof.
  pose proof (broker_quiet outside w (W := W)) as Q. unfold fences_ready.
  eapply triple_bind with (mid := fun g s => alike (s_fences s) g /\ broker_at outside w s); [apply triple_get_fences; intros s Hs; split; [repeat split|exact Hs]|intros f].
  destruct (negb _); [apply triple_ret; intros s [_ Hs]; exact Hs|].
  assert (K : forall B (g : W -> B * W), triple (fun s => alike (s_fences s) f /\ broker_at outside w s) (call g) (fun _ s => alike (s_fences s) f /\ broker_at outside w s)).
  { intros B g. apply triple_call. intros s v [E Hs]. split; [exact E|apply (q_world _ Q s v Hs)]. }
  eapply triple_bind; [apply K|intros [page|]]; [|apply triple_ret; intros s [_ Hs]; exact Hs].
  assert (S : forall stamps, triple (fun s : Shared W => alike (s_fences s) f /\ broker_at outside w s) (set_fences (with_pages f page stamps))
    (fun _ s => alike (s_fences s) f /\ broker_at outside w s)).
  { intros stamps s [E Hs]. assert (E' : alike (s_fences s) (with_pages f page stamps)) by exact E.
    pose proof (set_alike outside w _ s (conj E' Hs)) as T. cbn in *. split; [repeat split|exact T]. }
  eapply triple_bind; [apply (K unit (fun v => (tt, p_write_words (mem_cpu page) [f_issued f] v)))|intros ?].
  eapply triple_bind; [apply S|intros ?]. destruct (cf_timestamps cf); [|apply triple_ret; intros s [_ Hs]; exact Hs].
  eapply triple_bind; [apply K|intros stamps]. eapply triple_bind; [apply S|intros ?]. apply triple_ret. intros s [_ Hs]. exact Hs.
Qed.

(** The copy and the packets are the world's business. *)
Lemma fill_staging_fences msg m f before after seq (s : Shared W) :
  match fill_staging msg m f before after seq s with Returns _ s' => s_fences s' = s_fences s | _ => True end.
Proof. unfold fill_staging, mbind, effect, call, ret. destruct (mem_cpu (f_stamps f) =? 0); reflexivity. Qed.

(** [submit] keeps the invariant on every path; a submission that succeeds is
    in flight. *)
Lemma submit_ok outside w c m : is_u64 (m_bytes m) ->
  triple (broker_at outside w) (submit cf c m) (fun r s => broker_ok outside s /\ c_buffers (snd r) = c_buffers c).
Proof.
  intros U. unfold submit.
  assert (Fail : forall status : Z, triple (broker_at (W := W) outside w) (ret (status, c)) (fun r s => broker_ok outside s /\ c_buffers (snd r) = c_buffers c))
    by (intros status; apply triple_ret; intros s [Hs _]; auto).
  eapply triple_bind with (mid := fun sh s => s_wedged sh = w /\ broker_at outside w s); [apply triple_get; intros s Hs; split; [apply Hs|exact Hs]|intros sh].
  apply triple_pure. intros Ew. destruct (submission_valid c m) eqn:V; cbn [negb]; [|apply Fail]. rewrite Ew. destruct w; [apply Fail|].
  assert (Hb : 0 < m_bytes m <= 2 ^ 24).
  { unfold submission_valid in V. apply negb_true_iff in V. repeat (apply orb_false_iff in V as [V ?]). unfold is_u64 in U. to_prop. lia. }
  eapply triple_bind; [apply fences_ready_ok|intros [|]]; cbn [negb]; [|apply Fail].
  eapply triple_bind; [apply reap_keeps|intros ?].
  assert (Stop : triple (broker_at (W := W) outside false) (do* gives_up cf in ret (EIO, c)) (fun r s => broker_ok outside s /\ c_buffers (snd r) = c_buffers c)).
  { eapply triple_bind; [apply give_up_keeps|intros ?]. apply triple_ret. intros s [Hs _]. auto. }
  eapply triple_bind with (mid := fun g s => g = s_fences s /\ broker_at outside false s); [apply triple_get_fences; auto|intros f0].
  eapply triple_bind with (mid := fun (stalled : bool) s => broker_at outside false s /\ (stalled = false -> room outside false s)).
  { destruct (size (f_ring f0) =? kRing) eqn:Sz; to_prop.
    - eapply triple_bind; [eapply triple_conseq; [apply drain_ok|intros s [_ Hs]; exact Hs|intros r0 s0 H0; exact H0]|]. intros drained.
      apply triple_ret. intros s [Hs Hi]. split; [exact Hs|]. intros Hd. destruct drained; [|discriminate].
      destruct (idle_room outside s Hs (Hi eq_refl)) as [[R1 _] _]. split; [split; [exact R1|discriminate]|exact Hs].
    - apply triple_ret. intros s [-> Hs]. split; [exact Hs|]. intros _. split; [|exact Hs]. split; [|discriminate]. destruct Hs as [[_ [_ Q _ _]] _]. lia. }
  intros [|]; [eapply triple_conseq; [exact Stop|intros s [Hs _]; exact Hs|auto]|].
  eapply triple_bind with (mid := fun g s => g = s_fences s /\ room outside false s); [apply triple_get_fences; intros s [_ Hs]; auto|intros f1].
  set (changes := tess_differs c f1 || offchip_differs c f1).
  eapply triple_bind with (mid := fun (stalled : bool) s => broker_at outside false s /\ (stalled = false -> room outside changes s)).
  { destruct changes; [|apply triple_ret; intros s [_ Hs]; split; [apply Hs|auto]].
    eapply triple_bind with (mid := fun _ => broker_at outside false).
    { eapply triple_conseq; [apply (set_alike outside false)| |auto]. intros s [-> [_ Hs]]. split; [repeat split|exact Hs]. }
    intros ?. eapply triple_bind; [apply drain_ok|]. intros drained. apply triple_ret. intros s [Hs Hi]. split; [exact Hs|].
    intros Hd. destruct drained; [|discriminate]. apply idle_room; auto. }
  intros [|]; [eapply triple_conseq; [exact Stop|intros s [Hs _]; exact Hs|auto]|].
  eapply triple_bind with (mid := fun _ s => room outside changes s); [apply triple_get_fences; intros s [_ Hs]; auto|intros f2]. cbv zeta.
  destruct (law_stamps P Law) as [L1 L2].
  eapply triple_bind; [apply stage_ok; destruct (mem_cpu (f_stamps f2) =? 0); lia|]. intros [mem|]; [|apply Fail].
  eapply triple_bind with (mid := fun g s => g = s_fences s /\ staged outside changes mem s); [apply triple_get_fences; auto|intros f3].
  eapply triple_bind; [apply issue_ok|intros ?]. set (seq := next_seq (f_issued f3)).
  eapply triple_bind with (mid := fun _ s => (changes = true -> f_ring (s_fences s) = []) /\ loaded outside mem seq s).
  { intros s [Hs He].
    pose proof (fill_staging_fences m mem f3 (if mem_cpu (f_stamps f2) =? 0 then 0 else 4 * p_ts_start_words)
      (if mem_cpu (f_stamps f2) =? 0 then 0 else 4 * p_ts_end_words) seq s) as F.
    pose proof (fill_staging_ok outside mem seq m f3 (if mem_cpu (f_stamps f2) =? 0 then 0 else 4 * p_ts_start_words)
      (if mem_cpu (f_stamps f2) =? 0 then 0 else 4 * p_ts_end_words) s Hs) as T.
    destruct (fill_staging _ _ _ _ _ _ s) as [? s'| | |]; [|exact T..]. rewrite F. auto. }
  intros ?. eapply triple_bind; [apply set_state_ok|intros status].
  destruct (status =? 0) eqn:St; cbn [negb]; to_prop.
  - eapply triple_bind; [eapply triple_conseq; [apply hand_over_ok|intros s [Hs _]; exact Hs|intros r0 s0 H0; exact H0]|intros status'].
    destruct (status' =? 0); cbn [negb].
    + eapply triple_bind with (mid := fun g s => g = s_fences s /\ loaded outside mem seq s); [apply triple_get_fences; auto|intros f4].
      eapply triple_bind; [apply push_ok|intros ?]. apply triple_ret. intros s [Hs _]. auto.
    + eapply triple_bind; [apply loaded_give_up|intros ?]. apply triple_ret. intros s [Hs _]. auto.
  - eapply triple_bind; [eapply triple_conseq; [apply unsubmitted_ok|intros s [Hs Hr]; split; [apply Hr, St|exact Hs]|intros r0 s0 H0; exact H0]|intros ?].
    apply triple_ret. intros s [Hs _]. auto.
Qed.
End Requests.
