(* ===== verification/BrokerServe.v ===== *)
(** * Serving a client ([src/tooling/gpu-broker/server.cpp], [vrange_*] and [serve])

    Sparse ranges, and the handling of one message: its form and sequence
    number, the operation it asks for, and the answer.  The display's code and
    the threads are the platform's; waits for another thread (a present that
    reads a buffer being freed, an application in the background) are left
    out. *)

From Stdlib Require Import ZArith List Bool Lia String.
From S2P Require Import Prelude Bytes BrokerProtocol HostRange BrokerState BrokerMemory BrokerFences.
Import ListNotations.
Open Scope Z_scope.
Open Scope broker_scope.

(** ** Sparse ranges *)

(** The client's sparse ranges changed. *)
Definition with_ranges (c : Client) (ranges : list Range) (count peak : Z) (index_ : RangeIndex) : Client :=
  {| c_pid := c_pid c; c_expected_pid := c_expected_pid c; c_next_token := c_next_token c; c_buffers := c_buffers c; c_ranges := ranges;
     c_range_count := count; c_range_peak := peak; c_range_index := index_; c_allocated := c_allocated c; c_local := c_local c;
     c_local_peak := c_local_peak c; c_tess := c_tess c; c_tess_bytes := c_tess_bytes c; c_granularity := c_granularity c;
     c_buffering := c_buffering c; c_offchip := c_offchip c; c_submissions := c_submissions c; c_allocation_stage := c_allocation_stage c |}.

(** [range_index\[address\]=slot]. *)
Fixpoint index_set (index_ : RangeIndex) (address : Z) (slot : nat) : RangeIndex :=
  match index_ with
  | [] => [(address, slot)]
  | (a, n) :: rest =>
      if address <? a then (address, slot) :: index_
      else if address =? a then (a, slot) :: rest
      else (a, n) :: index_set rest address slot
  end.

(** [range_index.find(address)]. *)
Fixpoint index_find (index_ : RangeIndex) (address : Z) : option nat :=
  match index_ with
  | [] => None
  | (a, n) :: rest => if a =? address then Some n else index_find rest address
  end.

(** [--range_index.upper_bound(address)]: the last entry not above it. *)
Fixpoint index_below (index_ : RangeIndex) (address : Z) (found : option nat) : option nat :=
  match index_ with
  | [] => found
  | (a, n) :: rest => if address <? a then found else index_below rest address (Some n)
  end.

Fixpoint index_erase (index_ : RangeIndex) (address : Z) : RangeIndex :=
  match index_ with
  | [] => []
  | (a, n) :: rest => if a =? address then rest else (a, n) :: index_erase rest address
  end.

(** [c.ranges\[slot\] = r], the vector growing by one when no slot was free. *)
Definition put_range (ranges : list Range) (slot : option nat) (r : Range) : list Range * nat :=
  match slot with
  | Some i => (set_slot ranges i r, i)
  | None => (ranges ++ [r], List.length ranges)
  end.

Section Serve.
Context {W : Type} {P : Platform W} (cf : Config).

(** The page tables can take one more range. *)
Definition tables_short (stats : Z * (Z * Z) * (Z * Z)) : bool :=
  let '(rc, (cpu_total, cpu_free), (gpu_total, gpu_free)) := stats in
  (rc =? 0) && (0 <? cpu_total) && (0 <? gpu_total) && ((cpu_free <? kRangeTableFloor) || (gpu_free <? kRangeTableFloor)).

Definition vrange_reserve (c : Client) (m : PwGpuMessage) : M W (Z * Client * PwGpuMessage) :=
  let* stats := call p_table_stats in
  if (m_bytes m =? 0) || (Z.shiftl 64 30 <? m_bytes m) then ret (EINVAL, c, m)
  else if (kClientRanges <=? c_range_count c) || tables_short stats then ret (ENOSPC, c, m)
  else
    let* made := call (p_vrange_reserve (m_bytes m) (negb (m_arg0 m =? 0)) (negb (m_arg1 m =? 0)) (m_arg2 m)) in
    match made with
    | None => ret (ENOMEM, c, m)
    | Some mem =>
        let r := {| r_address := mem_cpu mem; r_bytes := mem_bytes mem; r_memory := mem |} in
        let '(ranges, slot) := put_range (c_ranges c) (first_slot (fun r => r_address r =? 0) (c_ranges c) 0) r in
        let count := u32 (c_range_count c + 1) in
        ret (0, with_ranges c ranges count (if c_range_peak c <? count then count else c_range_peak c)
                  (index_set (c_range_index c) (r_address r) slot),
             with_answer m (r_address r) (r_bytes r) (m_arg0 m) (m_arg2 m))
    end.

Definition vrange_of (c : Client) (address bytes : Z) : option Range :=
  match index_below (c_range_index c) address None with
  | None => None
  | Some slot =>
      match nth_error (c_ranges c) slot with
      | None => None
      | Some r => if negb (r_address r =? 0) && pw_gpu_contains (r_address r) (r_bytes r) address bytes then Some r else None
      end
  end.

Definition vrange_release (c : Client) (m : PwGpuMessage) : M W (Z * Client) :=
  match (if m_address m =? 0 then None else index_find (c_range_index c) (m_address m)) with
  | None => ret (EINVAL, c)
  | Some slot =>
      match nth_error (c_ranges c) slot with
      | None => fun _ => Faults
      | Some r =>
          let* drained := drain 5000000000 in
          if negb drained then ret (EBUSY, c)
          else
            do* effect (p_vrange_release (r_memory r)) in
            ret (0, with_ranges c (set_slot (c_ranges c) slot no_range) (u32 (c_range_count c - 1)) (c_range_peak c)
                      (index_erase (c_range_index c) (m_address m)))
      end
  end.

(** The client's device-local buffer a bind names. *)
Definition bindable (m : PwGpuMessage) (b : Buffer) : bool :=
  negb (b_token b =? 0) && (b_token b =? m_arg0 m) && b_local b && (0 <=? mem_physical (b_memory b)).

Definition vrange_bind (c : Client) (m : PwGpuMessage) (bind : bool) : M W Z :=
  if (m_bytes m =? 0) || negb (Z.land (Z.lor (m_address m) (m_bytes m)) 16383 =? 0) ||
     match vrange_of c (m_address m) (m_bytes m) with None => true | Some _ => false end
  then ret EINVAL
  else if negb bind then
    let* ok := call (p_vrange_unbind (m_address m) (m_bytes m)) in ret (if ok then 0 else EIO)
  else
    match find (bindable m) (c_buffers c) with
    | None => ret EINVAL
    | Some b =>
        let mem := b_memory b in
        if (mem_bytes mem <? m_arg1 m) || (mem_bytes mem - m_arg1 m <? m_bytes m) || negb (Z.land (m_arg1 m) 16383 =? 0) then ret EINVAL
        else
          let* ok := call (p_vrange_bind (m_address m) (m_bytes m) mem (m_arg1 m)) in ret (if ok then 0 else EIO)
    end.

(** ** One message *)

(** The client's state with the argument of TESS or OFFCHIP, or its pid. *)
Definition with_tessellation (c : Client) (pid tess tess_bytes granularity buffering : Z) (offchip : bool) : Client :=
  {| c_pid := pid; c_expected_pid := c_expected_pid c; c_next_token := c_next_token c; c_buffers := c_buffers c; c_ranges := c_ranges c;
     c_range_count := c_range_count c; c_range_peak := c_range_peak c; c_range_index := c_range_index c; c_allocated := c_allocated c;
     c_local := c_local c; c_local_peak := c_local_peak c; c_tess := tess; c_tess_bytes := tess_bytes; c_granularity := granularity;
     c_buffering := buffering; c_offchip := offchip; c_submissions := c_submissions c; c_allocation_stage := c_allocation_stage c |}.

Definition with_arguments (m : PwGpuMessage) (arg1 arg2 arg3 : Z) : PwGpuMessage :=
  {| m_magic := m_magic m; m_operation := m_operation m; m_sequence := m_sequence m; m_status := m_status m; m_address := m_address m;
     m_bytes := m_bytes m; m_arg0 := m_arg0 m; m_arg1 := arg1; m_arg2 := arg2; m_arg3 := arg3 |}.

Definition with_status (m : PwGpuMessage) (status : Z) : PwGpuMessage :=
  {| m_magic := m_magic m; m_operation := m_operation m; m_sequence := m_sequence m; m_status := status; m_address := m_address m;
     m_bytes := m_bytes m; m_arg0 := m_arg0 m; m_arg1 := m_arg1 m; m_arg2 := m_arg2 m; m_arg3 := m_arg3 m |}.

(** A connection: its client, whether it is the present link, the client's
    [present_socket], the last sequence number and whether the client ended. *)
Record Connection := {
  k_client : Client;
  k_present : bool;
  k_present_socket : Z;
  k_sequence : Z;
  k_ended : bool
}.

Definition with_client (k : Connection) (c : Client) : Connection :=
  {| k_client := c; k_present := k_present k; k_present_socket := k_present_socket k; k_sequence := k_sequence k; k_ended := k_ended k |}.

(** What a message's handling answers: the connection, the message with its
    status, and the descriptor sent with it (or -1). *)
Definition Answer : Type := Connection * PwGpuMessage * Z.

Definition answer (k : Connection) (c : Client) (m : PwGpuMessage) (status : Z) : Answer := (with_client k c, with_status m status, -1).

Definition handle_init (k : Connection) (m : PwGpuMessage) : M W Answer :=
  let c := k_client k in
  let c' := with_tessellation c (m_arg0 m) (c_tess c) (c_tess_bytes c) (c_granularity c) (c_buffering c) (c_offchip c) in
  let* offer := (if cf_local_memory cf then local_offer else ret 0) in
  ret (answer k c' (with_arguments m (cf_console_model cf) offer (cf_host_limit cf)) 0).

(** The device-local room left, told with ALLOC and FREE. *)
Definition tell_room (m : PwGpuMessage) : M W PwGpuMessage :=
  if cf_local_memory cf then let* room := local_room in ret (with_arguments m (m_arg1 m) (m_arg2 m) (u64 (room + 1))) else ret m.

Definition handle_alloc (k : Connection) (m : PwGpuMessage) : M W Answer :=
  let* s := get in
  let* '(status, c, m, fd) := (if s_wedged s then ret (EIO, k_client k, m, -1) else allocate cf (k_client k) m) in
  let* m := tell_room m in
  ret (with_client k c, with_status m status, fd).

(** The first buffer a FREE names. *)
Definition named (m : PwGpuMessage) (b : Buffer) : bool :=
  negb (b_token b =? 0) && (b_token b =? m_arg0 m) && (b_address b =? m_address m) && (b_bytes b =? m_bytes m).

Definition handle_free (k : Connection) (m : PwGpuMessage) : M W Answer :=
  let c := k_client k in
  let* '(c, status) :=
    (match find_index (named m) (c_buffers c) 0 with
     | None => ret (c, EINVAL)
     | Some (slot, b) =>
         let c' := if negb (c_tess c =? 0) && pw_gpu_contains (b_address b) (b_bytes b) (c_tess c) (c_tess_bytes c)
                   then with_tessellation c (c_pid c) 0 0 (c_granularity c) (c_buffering c) (c_offchip c) else c in
         let* c'' := free_buffer cf c' slot b in ret (c'', 0)
     end) in
  let* m := tell_room m in
  ret (answer k c m status).

Definition handle_tess (k : Connection) (m : PwGpuMessage) : Answer :=
  let c := k_client k in
  if (m_bytes m <=? 2 ^ 32 - 1) && owned c (m_address m) (m_bytes m)
  then answer k (with_tessellation c (c_pid c) (m_address m) (u32 (m_bytes m)) (c_granularity c) (c_buffering c) (c_offchip c)) m 0
  else answer k c m EINVAL.

Definition handle_offchip (k : Connection) (m : PwGpuMessage) : Answer :=
  let c := k_client k in
  if (m_arg0 m <=? 3) && (m_arg1 m <=? 511)
  then answer k (with_tessellation c (c_pid c) (c_tess c) (c_tess_bytes c) (u32 (m_arg0 m)) (u32 (m_arg1 m)) true) m 0
  else answer k c m EINVAL.

Definition handle_link (k : Connection) (m : PwGpuMessage) : M W Answer :=
  if 0 <=? k_present_socket k then ret (answer k (k_client k) m EINVAL)
  else
    let* pair := call p_packet_pair in
    match pair with
    | None => ret (answer k (k_client k) m EAGAIN)
    | Some (mine, theirs) =>
        let* serving := call p_thread in
        if serving then
          ret ({| k_client := k_client k; k_present := k_present k; k_present_socket := mine; k_sequence := k_sequence k; k_ended := k_ended k |},
               with_status m 0, theirs)
        else
          do* effect (p_close mine) in
          do* effect (p_close theirs) in
          ret (answer k (k_client k) m EAGAIN)
    end.

(** The flag that asks for an answer once shown is not the display's. *)
Definition shown_flag_off (m : PwGpuMessage) : PwGpuMessage := with_arguments m (m_arg1 m) (m_arg2 m) (Z.land (m_arg3 m) 1).

Definition handle_window (k : Connection) (m : PwGpuMessage) : M W Answer :=
  let c := k_client k in
  let* s := get in
  if s_wedged s then ret (answer k c m EIO)
  else if negb p_desktop_windows then ret (answer k c m ENOTSUP)
  else if (c_expected_pid c =? 0) || negb (c_pid c =? c_expected_pid c) then ret (answer k c m EPROTO)
  else if negb (pw_gpu_window_image m) || negb (owned c (m_address m) (m_bytes m)) then ret (answer k c m EINVAL)
  else let* status := call (p_present_window m) in ret (answer k c (shown_flag_off m) status).

Definition handle_display (k : Connection) (m : PwGpuMessage) : M W Answer :=
  let c := k_client k in
  let* s := get in
  if s_wedged s then ret (answer k c m EIO)
  else if pw_gpu_display_image m && owned c (m_address m) (m_bytes m)
  then let* status := call (p_present_display m) in ret (answer k c (shown_flag_off m) status)
  else ret (answer k c m EINVAL).

(** Sparse ranges are refused once the GPU is in doubt. *)
Definition handle_range (k : Connection) (m : PwGpuMessage) (run : M W (Z * Client * PwGpuMessage)) : M W Answer :=
  let* s := get in
  let* '(status, c, m) := (if s_wedged s then ret (EIO, k_client k, m) else run) in
  ret (answer k c m status).

(** [switch(m.operation)] for a client that has introduced itself. *)
Definition dispatch (k : Connection) (m : PwGpuMessage) : M W Answer :=
  let c := k_client k in
  match m_operation m with
  | PW_GPU_ALLOC => handle_alloc k m
  | PW_GPU_VRANGE_RESERVE => handle_range k m (vrange_reserve c m)
  | PW_GPU_VRANGE_RELEASE => handle_range k m (let* '(status, c') := vrange_release c m in ret (status, c', m))
  | PW_GPU_VRANGE_BIND => handle_range k m (let* status := vrange_bind c m true in ret (status, c, m))
  | PW_GPU_VRANGE_UNBIND => handle_range k m (let* status := vrange_bind c m false in ret (status, c, m))
  | PW_GPU_FREE => handle_free k m
  | PW_GPU_SUBMIT => let* '(status, c') := submit cf c m in ret (answer k c' m status)
  | PW_GPU_PRESENT_LINK => handle_link k m
  | PW_GPU_TESS => ret (handle_tess k m)
  | PW_GPU_TIMING => ret (answer k c m 0)
  | PW_GPU_OFFCHIP => ret (handle_offchip k m)
  | PW_GPU_WINDOW_SWAPCHAIN => handle_window k m
  | PW_GPU_SWAPCHAIN => handle_display k m
  | _ => ret (answer k c m EINVAL)
  end.

(** The operations a present link carries. *)
Definition presents (o : operation) : bool :=
  match o with PW_GPU_SWAPCHAIN | PW_GPU_WINDOW_SWAPCHAIN | PW_GPU_TIMING => true | _ => false end.

Definition is_init (o : operation) : bool := match o with PW_GPU_INIT => true | _ => false end.

Definition handle (k : Connection) (m : PwGpuMessage) : M W Answer :=
  let c := k_client k in
  if k_present k && negb (presents (m_operation m)) then ret (answer k c m EINVAL)
  else if is_init (m_operation m) && (c_pid c <? 0) && pw_gpu_client_pid (c_expected_pid c) (m_arg0 m) (cf_owner_pid cf) then handle_init k m
  else if 0 <? c_pid c then dispatch k m
  else ret (answer k c m EINVAL).

(** A message of the right form, the next of its connection; [whole] says that
    it came complete and without descriptors. *)
Definition accepted (k : Connection) (whole : bool) (m : PwGpuMessage) : bool :=
  whole && (m_magic m =? PW_GPU_MAGIC) && (m_status m =? 0) && (m_sequence m =? u32 (k_sequence k + 1)).

(** One turn of [serve]'s loop with a message there: the answer sent, or the
    connection ended.  [delivered] says that the reply could be sent. *)
Definition serve (k : Connection) (whole delivered : bool) (m : PwGpuMessage) : M W (Connection * option (PwGpuMessage * Z)) :=
  if k_ended k then ret (k, None)
  else if negb (accepted k whole m) then
    ret ({| k_client := k_client k; k_present := k_present k; k_present_socket := k_present_socket k; k_sequence := k_sequence k; k_ended := true |}, None)
  else
    let k' := {| k_client := k_client k; k_present := k_present k; k_present_socket := k_present_socket k; k_sequence := m_sequence m; k_ended := false |} in
    let* '(k'', m', fd) := handle k' m in
    do* kick in
    ret ({| k_client := k_client k''; k_present := k_present k''; k_present_socket := k_present_socket k''; k_sequence := k_sequence k''; k_ended := negb delivered |},
         Some (m', fd)).
End Serve.
