(* ===== verification/BrokerSession.v ===== *)
(** * Clients come and go ([src/tooling/gpu-broker/server.cpp], [host_ranges_reserve] to [ps5_gpu_broker_stop])

    The broker's 32 client slots: opening one for a process, serving its two
    connections, closing it once its process is gone, and stopping the broker.
    What a client leaves behind is released only once the GPU is done with it,
    or never. *)

From Stdlib Require Import ZArith List Bool Lia String.
From S2P Require Import Prelude Bytes BrokerProtocol HostRange BrokerState BrokerMemory BrokerFences BrokerServe.
Import ListNotations.
Open Scope Z_scope.
Open Scope broker_scope.

Definition kClients : Z := 32.
Definition kInt32Max : Z := 2 ^ 31 - 1.
Definition kReserveNoOverwrite : Z := 0x80.

(** An open slot of [Broker::clients] ([socket>=0]): its cookie, its socket,
    [present_sequence], and the rest as the connection it serves. *)
Record Slot := {
  sl_cookie : Z;
  sl_socket : Z;
  sl_present_sequence : Z;
  sl_connection : Connection
}.

(** [clients], [next_cookie] and [started]. *)
Record Broker := {
  br_clients : list (option Slot);
  br_next_cookie : Z;
  br_started : bool
}.

Definition is_open (slot : option Slot) : bool := match slot with Some _ => true | None => false end.

Definition with_clients (b : Broker) (clients : list (option Slot)) : Broker :=
  {| br_clients := clients; br_next_cookie := br_next_cookie b; br_started := br_started b |}.

(** A slot just opened: [reset] and its new fields. *)
Definition open_slot (cookie socket expected_pid : Z) : Slot :=
  {| sl_cookie := cookie; sl_socket := socket; sl_present_sequence := 0;
     sl_connection := {| k_client := new_client expected_pid; k_present := false; k_present_socket := -1; k_sequence := 0; k_ended := false |} |}.

(** The connection a thread serves: the client's own, or its present link with
    its own sequence number. *)
Definition serving (sl : Slot) (present : bool) : Connection :=
  let k := sl_connection sl in
  {| k_client := k_client k; k_present := present; k_present_socket := k_present_socket k;
     k_sequence := if present then sl_present_sequence sl else k_sequence k; k_ended := k_ended k |}.

(** The slot afterwards. *)
Definition served (sl : Slot) (present : bool) (k : Connection) : Slot :=
  {| sl_cookie := sl_cookie sl; sl_socket := sl_socket sl;
     sl_present_sequence := if present then k_sequence k else sl_present_sequence sl;
     sl_connection := {| k_client := k_client k; k_present := false; k_present_socket := k_present_socket k;
                         k_sequence := if present then k_sequence (sl_connection sl) else k_sequence k; k_ended := k_ended k |} |}.

Section Session.
Context {W : Type} {P : Platform W} (cf : Config).

(** ** The host ranges, while a broker runs *)

Definition unmap (range : option (Z * Z)) : M W unit :=
  match range with None => ret tt | Some (at_, bytes) => effect (p_munmap at_ bytes) end.

Definition host_range_reserve (i : Z) : M W unit :=
  let* r := get_host i in
  let* answer := call (p_reserve (hr_base r) (hr_bytes r) (Z.lor kReserveFixed kReserveNoOverwrite) 16384) in
  let '(_, r', elsewhere) := hr_reserve r answer in
  do* unmap elsewhere in set_host i r'.

Definition host_ranges_reserve : M W unit := do* host_range_reserve 0 in host_range_reserve 1.

Definition host_range_release (i : Z) : M W unit :=
  let* r := get_host i in
  let '(r', mapped) := hr_release r in
  do* unmap mapped in set_host i r'.

Definition host_ranges_release : M W unit := do* host_range_release 0 in host_range_release 1.

(** ** Opening a slot *)

(** The client's end of the pair, or -1 with [errno]. *)
Definition open_client (b : Broker) (expected_pid : Z) : M W (Z * Z * Broker) :=
  if negb (br_started b) then ret (-1, EINVAL, b)
  else
    match first_slot (fun slot => negb (is_open slot)) (br_clients b) 0 with
    | None => ret (-1, EAGAIN, b)
    | Some i =>
        if negb (br_next_cookie b <? kInt32Max) then ret (-1, EAGAIN, b)
        else
          let* pair := call p_packet_pair in
          match pair with
          | None => ret (-1, EAGAIN, b)
          | Some (mine, theirs) =>
              let cookie := br_next_cookie b + 1 in
              let* started := call p_thread in
              if started then
                ret (theirs, 0, {| br_clients := set_slot (br_clients b) i (Some (open_slot cookie mine expected_pid));
                                   br_next_cookie := cookie; br_started := br_started b |})
              else
                do* effect (p_close mine) in
                do* effect (p_close theirs) in
                ret (-1, EAGAIN, {| br_clients := br_clients b; br_next_cookie := cookie; br_started := br_started b |})
          end
    end.

(** [ps5_gpu_broker_open], [_open_for_pid] and [_open_in_owner]. *)
Inductive opener : Type :=
| Anyone
| ForPid (pid : Z)
| InOwner.

Definition open_for (b : Broker) (who : opener) : M W (Z * Z * Broker) :=
  match who with
  | Anyone => open_client b 0
  | ForPid pid => if (pid <=? 0) || (pid =? cf_owner_pid cf) then ret (-1, EINVAL, b) else open_client b pid
  | InOwner => open_client b (cf_owner_pid cf)
  end.

(** ** Closing one *)

(** [for(n=0;n<200 && !absent(service);++n)sceKernelUsleep(10000)]. *)
Fixpoint await_absence (turns : nat) (service : Z) : M W unit :=
  match turns with
  | O => ret tt
  | S turns' =>
      let* gone := call (p_absent service) in
      if gone then ret tt else do* effect (p_usleep 10000) in await_absence turns' service
  end.

Definition process_gone (service : Z) : M W unit :=
  if service =? 0 then ret tt
  else
    do* await_absence 200 service in
    let* gone := call (p_absent service) in
    if gone then ret tt else do* gives_up cf in ret tt.

(** [if(!wedged && !drain(5000000000))give_up(...)]. *)
Definition settle : M W unit :=
  let* s := get in
  if s_wedged s then ret tt
  else
    let* drained := drain 5000000000 in
    if drained then ret tt else do* gives_up cf in ret tt.

Fixpoint release_ranges (ranges : list Range) : M W unit :=
  match ranges with
  | [] => ret tt
  | r :: rest => do* (if r_address r =? 0 then ret tt else effect (p_vrange_release (r_memory r))) in release_ranges rest
  end.

Fixpoint release_buffers (buffers : list Buffer) : M W unit :=
  match buffers with
  | [] => ret tt
  | b :: rest => do* (if b_token b =? 0 then ret tt else release b) in release_buffers rest
  end.

Definition has_cookie (cookie : Z) (slot : option Slot) : bool :=
  match slot with Some sl => sl_cookie sl =? cookie | None => false end.

Definition close_client (b : Broker) (cookie service : Z) : M W Broker :=
  do* process_gone service in
  match find_index (has_cookie cookie) (br_clients b) 0 with
  | Some (i, Some sl) =>
      let c := k_client (sl_connection sl) in
      do* settle in
      let* s := get in
      do* (if s_wedged s then ret tt else do* release_ranges (c_ranges c) in release_buffers (c_buffers c)) in
      do* effect (p_close (sl_socket sl)) in
      let present := k_present_socket (sl_connection sl) in
      do* (if 0 <=? present then effect (p_close present) else ret tt) in
      ret (with_clients b (set_slot (br_clients b) i None))
  | _ => ret b
  end.

(** ** Stopping *)

Definition stop (b : Broker) : M W (bool * Broker) :=
  if negb (br_started b) then ret (false, b)
  else if existsb is_open (br_clients b) then ret (false, b)
  else
    do* settle in
    let* s := get in
    do* (if s_wedged s then ret tt else do* fences_reset in host_ranges_release) in
    let* closed := call p_display_close in
    do* (if closed then ret tt else do* gives_up cf in ret tt) in
    ret (true, {| br_clients := br_clients b; br_next_cookie := br_next_cookie b; br_started := false |}).

(** ** A run of the broker *)

(** What happens to it: a message comes on a client's connection ([whole]: it
    came complete and without descriptors; [delivered]: its reply could be
    sent); a thread has waited a while without one; a slot is opened or closed;
    the application asks it to stop. *)
Inductive Event : Type :=
| Says (client : nat) (present whole delivered : bool) (m : PwGpuMessage)
| Idles
| Opens (who : opener)
| Closes (cookie service : Z)
| Stops.

Definition step (b : Broker) (e : Event) : M W Broker :=
  match e with
  | Says i present whole delivered m =>
      match nth_error (br_clients b) i with
      | Some (Some sl) =>
          if present && (k_present_socket (sl_connection sl) <? 0) then ret b
          else
            let* '(k, _) := serve cf (serving sl present) whole delivered m in
            ret (with_clients b (set_slot (br_clients b) i (Some (served sl present k))))
      | _ => ret b
      end
  | Idles => do* reap in ret b
  | Opens who => let* '(_, _, b') := open_for b who in ret b'
  | Closes cookie service => close_client b cookie service
  | Stops => let* '(_, b') := stop b in ret b'
  end.

Fixpoint steps (events : list Event) (b : Broker) : M W Broker :=
  match events with
  | [] => ret b
  | e :: rest => let* b' := step b e in steps rest b'
  end.

(** The broker started, and what happens to it after. *)
Definition new_broker : Broker := {| br_clients := repeat None (Z.to_nat kClients); br_next_cookie := 0; br_started := true |}.

Definition session (events : list Event) : M W Broker := do* host_ranges_reserve in steps events new_broker.
End Session.
