(* ===== verification/BrokerRun.v ===== *)
(** * One message keeps the broker's invariant

    Whatever a client sends and whatever the platform answers: the buffers stay
    apart, the client's accounts are exact and within its budgets, and the index
    of its sparse ranges stays within their vector. *)

From Stdlib Require Import ZArith List Bool Lia Sorting.Permutation RelationClasses Morphisms.
From S2P Require Import Prelude Bytes BrokerProtocol HostRange BrokerState BrokerMemory BrokerFences BrokerLogic BrokerOrder BrokerBuffers.
From S2P Require Import BrokerInvariant BrokerRequests BrokerServe.
Import ListNotations.
Open Scope Z_scope.
Open Scope broker_scope.

(** ** A client's accounts *)

Definition host_bytes (b : Buffer) : Z := if b_local b then 0 else b_bytes b.
Definition local_bytes (b : Buffer) : Z := if b_local b then b_bytes b else 0.
Definition total (f : Buffer -> Z) (l : list Buffer) : Z := fold_right Z.add 0 (map f l).

Definition live_tokens (l : list Buffer) : list Z := filter (fun t => negb (t =? 0)) (map b_token l).

(** What the broker keeps of a client's memory. *)
Record client_ok (cf : Config) (c : Client) : Prop := {
  co_slots : size (c_buffers c) = kClientBuffers;
  co_free : Forall (fun b => b_token b = 0 -> b = no_buffer) (c_buffers c);
  co_bytes : Forall (fun b => 0 <= b_bytes b) (c_buffers c);
  co_tokens : Forall (fun b => 0 <= b_token b <= c_next_token c) (c_buffers c);
  co_distinct : NoDup (live_tokens (c_buffers c));
  co_allocated : c_allocated c = total host_bytes (c_buffers c) /\ c_allocated c <= cf_host_limit cf;
  co_local : c_local c = total local_bytes (c_buffers c) /\ c_local c <= kLocalOffer
}.

(** ** Slots *)

Lemma set_slot_split {A : Type} (l : list A) i (a b : A) : nth_error l i = Some a ->
  exists l1 l2, l = l1 ++ a :: l2 /\ set_slot l i b = l1 ++ b :: l2.
Proof.
  revert i. induction l as [|x l IH]; intros i N; [destruct i; discriminate|]. destruct i as [|i]; cbn in N.
  - injection N as ->. exists [], l. auto.
  - destruct (IH i N) as (l1 & l2 & -> & E). exists (x :: l1), l2. cbn. rewrite E. auto.
Qed.

Lemma first_slot_some {A : Type} (p : A -> bool) l i k : first_slot p l i = Some k -> exists j a, k = (i + j)%nat /\ nth_error l j = Some a /\ p a = true.
Proof.
  revert i. induction l as [|x l IH]; intros i H; [discriminate|]. cbn in H. destruct (p x) eqn:E.
  - injection H as <-. exists O, x. rewrite Nat.add_0_r. auto.
  - apply IH in H as (j & a & -> & N & Pa). exists (S j), a. repeat split; [lia|assumption..].
Qed.

Lemma total_mid f l1 b l2 : total f (l1 ++ b :: l2) = total f (l1 ++ l2) + f b.
Proof.
  unfold total. rewrite !map_app. cbn [map]. induction (map f l1) as [|x r IH]; cbn in *; lia.
Qed.

Lemma total_nonneg f l : Forall (fun b => 0 <= f b) l -> 0 <= total f l.
Proof. unfold total. induction 1; cbn; lia. Qed.

Lemma live_tokens_mid l1 b l2 : Permutation (live_tokens (l1 ++ b :: l2)) ((if b_token b =? 0 then [] else [b_token b]) ++ live_tokens (l1 ++ l2)).
Proof.
  unfold live_tokens. rewrite !map_app, !filter_app. cbn [map filter]. destruct (b_token b =? 0); cbn [negb app]; [reflexivity|].
  symmetry. apply Permutation_middle.
Qed.

(** A token above every live one is new. *)
Lemma live_tokens_bound n l : Forall (fun b => 0 <= b_token b <= n) l -> ~ In (n + 1) (live_tokens l).
Proof.
  intros F I. unfold live_tokens in I. apply filter_In in I as [I _]. apply in_map_iff in I as (b & E & I).
  rewrite Forall_forall in F. apply F in I. lia.
Qed.

Lemma forall_mid {A : Type} (p : A -> Prop) l1 a l2 : Forall p (l1 ++ a :: l2) <-> p a /\ Forall p (l1 ++ l2).
Proof. rewrite !Forall_app, Forall_cons_iff. tauto. Qed.

Lemma size_mid {A : Type} (l1 : list A) a b l2 : size (l1 ++ a :: l2) = size (l1 ++ b :: l2).
Proof. rewrite !size_app, !size_cons. reflexivity. Qed.

(** An allocation's buffer in a free slot. *)
Lemma allocated_ok cf c slot b c' m m' : client_ok cf c -> 0 <= c_next_token c < 2 ^ 32 - 1 -> cf_host_limit cf <= 2 ^ 32 ->
  first_slot (fun b => b_token b =? 0) (c_buffers c) 0 = Some slot -> allocated c slot b c' m' -> good_buffer m b -> within_budget cf c m ->
  0 <= rounded_bytes m -> client_ok cf c' /\ c_next_token c' = c_next_token c + 1.
Proof.
  intros [S F B T D (A1 & A2) (L1 & L2)] Hn Hl Fs [E1 (E2 & E2') E3 E4 _ _] (G1 & G2) Wb Hr.
  apply first_slot_some in Fs as (j & old & -> & N & Z0). to_prop.
  destruct (set_slot_split _ j old b N) as (l1 & l2 & E & E'). cbn [Nat.add] in *. rewrite E' in E1. rewrite E in *.
  apply forall_mid in F as [F0 F1]. specialize (F0 Z0). subst old. apply forall_mid in B as [_ B1]. apply forall_mid in T as [_ T1].
  rewrite total_mid in A1, L1. change (host_bytes no_buffer) with 0 in A1. change (local_bytes no_buffer) with 0 in L1.
  rewrite live_tokens_mid in D. cbn [b_token no_buffer Z.eqb app] in D. rewrite u32_small in E2 by lia.
  assert (P1 : 0 <= total host_bytes (l1 ++ l2)) by (apply total_nonneg; eapply Forall_impl; [|exact B1]; intros x; unfold host_bytes; destruct (b_local x); lia).
  assert (P2 : 0 <= total local_bytes (l1 ++ l2)) by (apply total_nonneg; eapply Forall_impl; [|exact B1]; intros x; unfold local_bytes; destruct (b_local x); lia).
  unfold within_budget in Wb. rewrite <- G2 in Wb. split; [|lia].
  constructor; rewrite ?E1; [rewrite (size_mid _ b no_buffer); exact S|apply forall_mid; split; [lia|exact F1]|apply forall_mid; split; [lia|exact B1]| | | |].
  - apply forall_mid. rewrite E2', E2. split; [lia|]. eapply Forall_impl; [|exact T1]. cbv beta. lia.
  - rewrite live_tokens_mid. replace (b_token b =? 0) with false by lia. cbn [app]. constructor; [|exact D].
    rewrite E2. apply live_tokens_bound, T1.
  - rewrite total_mid, E3. unfold host_bytes at 2. destruct (b_local b); [split; lia|]. rewrite u64_small in Wb by lia. rewrite u64_small by lia. split; lia.
  - rewrite total_mid, E4. unfold local_bytes at 2. unfold kLocalOffer in *. change (Z.shiftl 8 30) with 8589934592 in *.
    destruct (b_local b); [|split; lia]. rewrite u64_small in Wb by lia. rewrite u64_small by lia. split; lia.
Qed.

(** A freed buffer's slot. *)
Lemma freed_ok cf c slot b : client_ok cf c -> nth_error (c_buffers c) slot = Some b -> cf_host_limit cf <= 2 ^ 32 -> client_ok cf (freed c slot b).
Proof.
  intros [S F B T D (A1 & A2) (L1 & L2)] N Hl. destruct (set_slot_split _ slot b no_buffer N) as (l1 & l2 & E & E'). rewrite E in *.
  apply forall_mid in F as [F0 F1]. apply forall_mid in B as [B0 B1]. apply forall_mid in T as [T0 T1]. rewrite total_mid in A1, L1.
  assert (P1 : 0 <= total host_bytes (l1 ++ l2)) by (apply total_nonneg; eapply Forall_impl; [|exact B1]; intros x; unfold host_bytes; destruct (b_local x); lia).
  assert (P2 : 0 <= total local_bytes (l1 ++ l2)) by (apply total_nonneg; eapply Forall_impl; [|exact B1]; intros x; unfold local_bytes; destruct (b_local x); lia).
  unfold freed. constructor; cbn [c_buffers with_accounts c_next_token c_allocated c_local]; rewrite E, ?E';
    [rewrite (size_mid _ no_buffer b); exact S|apply forall_mid; auto|apply forall_mid; cbn; split; [lia|exact B1]|apply forall_mid; cbn; split; [lia|exact T1]| | |].
  - rewrite live_tokens_mid in *. cbn [b_token no_buffer Z.eqb app]. apply NoDup_app_remove_l in D. exact D.
  - rewrite total_mid. unfold host_bytes in *. change (if b_local no_buffer then 0 else b_bytes no_buffer) with 0.
    destruct (b_local b); [split; lia|]. rewrite u64_small by lia. split; lia.
  - rewrite total_mid. unfold local_bytes in *. change (if b_local no_buffer then b_bytes no_buffer else 0) with 0.
    unfold kLocalOffer in *. change (Z.shiftl 8 30) with 8589934592 in *. destruct (b_local b); [|split; lia]. rewrite u64_small by lia. split; lia.
Qed.

(** ** One message *)

(** The parts of a client its memory accounts are made of. *)
Definition same_memory (c c' : Client) : Prop :=
  c_buffers c' = c_buffers c /\ c_next_token c' = c_next_token c /\ c_allocated c' = c_allocated c /\ c_local c' = c_local c.

Lemma same_memory_ok cf c c' : same_memory c c' -> client_ok cf c -> client_ok cf c'.
Proof. intros (E1 & E2 & E3 & E4) [A B C D E F G]. constructor; rewrite ?E1, ?E2, ?E3, ?E4; assumption. Qed.

Section Message.
Context {W : Type} {P : Platform W} (Law : lawful P) (cf : Config) (Hlimit : cf_host_limit cf <= 2 ^ 32) (others : list Buffer).

Lemma broker_perm l l' w (s : Shared W) : Permutation l l' -> broker_at l w s -> broker_at l' w s.
Proof.
  intros E [[(A & R) Q] C]. split; [|exact C]. split; [|exact Q]. split; [|exact R]. eapply mem_perm; [|exact A]. apply Permutation_app_tail, E.
Qed.

(** Memory changed by code that left the fences and the mark alone. *)
Lemma broker_of_mem outside outside' w (s s' : Shared W) : broker_at outside w s ->
  mem_at (outside' ++ map d_buffer (f_deferred (s_fences s))) (s_fences s) (mark_of s) s' -> broker_at outside' w s'.
Proof.
  intros [[(_ & B & C & D & _) Q] V] (M & F & K). pose proof K as K0. unfold mark_of in K. injection K as K _ _ _. rewrite <- V, <- K.
  split; [|reflexivity]. split; [|rewrite F, K; exact Q].
  unfold stable, between. rewrite F. split; [exact M|]. split; [apply (staging_ok_mark _ s); assumption|]. rewrite K. auto.
Qed.

Lemma broker_mem outside w (s : Shared W) : broker_at outside w s ->
  mem_at (outside ++ map d_buffer (f_deferred (s_fences s))) (s_fences s) (mark_of s) s.
Proof. intros [[(A & _) _] _]. split; [exact A|auto]. Qed.

Lemma broker_unranged b l w (s : Shared W) : b_ranged b = false -> broker_at l w s -> broker_at (b :: l) w s.
Proof. intros R Hs. apply (broker_of_mem _ _ _ _ _ Hs). apply mem_unranged; [exact R|]. apply (broker_mem _ _ _ Hs). Qed.

(** The slot of a buffer that has none in a range. *)
Lemma broker_fill l1 a b l2 w (s : Shared W) : broker_at (b :: (l1 ++ a :: l2) ++ others) w s -> broker_at ((l1 ++ b :: l2) ++ others) w s.
Proof.
  intros H. eapply (broker_perm (b :: (l1 ++ l2) ++ others)); [rewrite <- !app_assoc; cbn; apply Permutation_middle|].
  apply (broker_drop a). eapply broker_perm; [|exact H]. rewrite <- !app_assoc. cbn. rewrite <- Permutation_middle. apply perm_swap.
Qed.

Definition kept_client (c c' : Client) : Prop := client_ok cf c' /\ 0 <= c_next_token c' <= c_next_token c + 1.

Lemma kept_same c c' : client_ok cf c -> 0 <= c_next_token c -> same_memory c c' -> kept_client c c'.
Proof. intros O N S. split; [apply (same_memory_ok cf c); assumption|]. destruct S as (_ & E & _). lia. Qed.

Lemma alloc_keeps c m w : client_ok cf c -> 0 <= c_next_token c < 2 ^ 32 - 1 -> is_u64 (m_bytes m) -> is_u64 (m_arg0 m) ->
  triple (broker_at (c_buffers c ++ others) w) (allocate cf c m)
    (fun r s => let '(_, c', _, _) := r in broker_at (W := W) (c_buffers c' ++ others) w s /\ kept_client c c').
Proof.
  intros O N U1 U2 s Hs.
  pose proof (allocate_ok (law_memory P Law) cf _ (s_fences s) (mark_of s) c m U1 U2 Hlimit s (broker_mem _ _ _ Hs)) as T.
  destruct (allocate cf c m s) as [[[[status c'] m'] fd] s'| | |]; [|exact T..].
  destruct T as [(_ & (stage & ->) & _ & M)|(_ & V & Wb & slot & b & Fs & Al & G & _ & M)].
  - split; [apply (broker_of_mem _ _ _ _ _ Hs M)|]. apply kept_same; [exact O|lia|repeat split].
  - destruct (valid_bytes cf m U1 Hlimit V) as (B1 & _ & B3).
    destruct (allocated_ok cf c slot b c' m m' O N Hlimit Fs Al G Wb ltac:(lia)) as [O' E']. split; [|split; [exact O'|lia]].
    apply first_slot_some in Fs as (j & old & -> & No & _). destruct (set_slot_split _ j old b No) as (l1 & l2 & E & Es).
    rewrite (al_buffers _ _ _ _ _ Al). cbn [Nat.add]. rewrite Es. apply (broker_fill l1 old). rewrite <- E. apply (broker_of_mem _ (b :: c_buffers c ++ others) _ _ _ Hs M).
Qed.

Lemma free_keeps c slot b w : client_ok cf c -> 0 <= c_next_token c -> nth_error (c_buffers c) slot = Some b ->
  triple (broker_at (c_buffers c ++ others) w) (free_buffer cf c slot b)
    (fun c' s => broker_ok (W := W) (c_buffers c' ++ others) s /\ kept_client c c').
Proof.
  intros O Nn N s Hs. destruct (set_slot_split _ slot b no_buffer N) as (l1 & l2 & E & Es).
  assert (Pb : placed_right b).
  { destruct Hs as [[(A & _) _] _]. apply mem_placed in A. rewrite E in A. apply Forall_app in A as [A _]. apply Forall_app in A as [A _].
    apply forall_mid in A. apply A. }
  assert (H0 : broker_at (b :: (l1 ++ l2) ++ others) w s).
  { eapply broker_perm; [|exact Hs]. rewrite E, <- !app_assoc. cbn. symmetry. apply Permutation_middle. }
  pose proof (free_buffer_ok cf c slot b _ w Pb s H0) as T. destruct (free_buffer cf c slot b s) as [c' s'| | |]; [|exact T..].
  destruct T as [-> B]. split; [|split; [apply freed_ok; assumption|cbn; lia]]. cbn. rewrite Es.
  assert (B' : broker_at ((l1 ++ l2) ++ others) (s_wedged s') s') by (split; [exact B|reflexivity]).
  apply (broker_unranged no_buffer) in B'; [|reflexivity]. apply (broker_perm _ ((l1 ++ no_buffer :: l2) ++ others)) in B'; [apply B'|].
  rewrite <- !app_assoc. cbn. apply Permutation_middle.
Qed.

(** What handling a message leaves behind. *)
Definition handled (c : Client) (a : Answer) (s : Shared W) : Prop :=
  let '(k, _, _) := a in broker_ok (c_buffers (k_client k) ++ others) s /\ kept_client c (k_client k).

Section Operations.
Context (k : Connection) (w : bool) (O : client_ok cf (k_client k)) (N : 0 <= c_next_token (k_client k) < 2 ^ 32 - 1).
Let c := k_client k.
Let here : Shared W -> Prop := broker_at (c_buffers c ++ others) w.

Lemma here_quiet : quiet here.
Proof. apply broker_quiet. Qed.

(** An answer that leaves the client's memory alone. *)
Lemma answer_ok c' m status (s : Shared W) : same_memory c c' -> here s -> handled c (answer k c' m status) s.
Proof.
  intros S Hs. unfold handled, answer. cbn. split; [destruct S as (-> & _); apply Hs|]. apply kept_same; [exact O|unfold c; lia|exact S].
Qed.

Lemma ret_answer_ok c' m status : same_memory c c' -> triple here (ret (answer k c' m status)) (handled c).
Proof. intros S. apply triple_ret. intros s. apply answer_ok, S. Qed.

Lemma same_refl : same_memory c c.
Proof. repeat split. Qed.

Lemma tell_room_keeps m : forall I : Shared W -> Prop, quiet I -> triple I (tell_room cf m) (fun _ => I).
Proof. intros I Q. unfold tell_room, local_room. keeps I. Qed.

Lemma handle_init_ok m : triple here (handle_init cf k m) (handled c).
Proof.
  pose proof here_quiet as Q. unfold handle_init, local_offer, local_room. cbv zeta.
  eapply triple_bind with (mid := fun _ => here); [keeps here|intros offer]. apply ret_answer_ok. repeat split.
Qed.

Lemma handle_alloc_ok m : is_u64 (m_bytes m) -> is_u64 (m_arg0 m) -> triple here (handle_alloc cf k m) (handled c).
Proof.
  intros U1 U2. unfold handle_alloc. eapply triple_bind with (mid := fun sh => here); [apply triple_get; auto|intros sh].
  eapply triple_bind with (mid := fun r s => let '(_, c', _, _) := r in broker_at (c_buffers c' ++ others) w s /\ kept_client c c').
  - destruct (s_wedged sh); [apply triple_ret; intros s Hs; split; [exact Hs|apply kept_same; [exact O|unfold c; lia|apply same_refl]]|].
    apply alloc_keeps; assumption.
  - intros [[[status c'] m'] fd]. apply triple_conseq with (pre' := fun s => kept_client c c' /\ broker_at (c_buffers c' ++ others) w s)
      (post' := handled c); [|tauto|auto]. apply triple_pure. intros K.
    eapply triple_bind; [apply tell_room_keeps, broker_quiet|intros m'']. apply triple_ret. intros s Hs. split; [apply Hs|exact K].
Qed.

Lemma handle_free_ok m : triple here (handle_free cf k m) (handled c).
Proof.
  unfold handle_free. fold c. cbv zeta.
  eapply triple_bind with (mid := fun r s => let '(c', _) := r in broker_ok (c_buffers c' ++ others) s /\ kept_client c c').
  - destruct (find_index (named m) (c_buffers c) 0) as [[slot b]|] eqn:E.
    + apply find_index_some in E as (j & -> & Nj & _). cbn [Nat.add].
      set (c1 := if _ && _ then _ else c). assert (S1 : same_memory c c1) by (unfold c1; destruct (_ && _); repeat split).
      assert (O1 : client_ok cf c1) by (apply (same_memory_ok cf c); assumption).
      destruct S1 as (E1 & E2 & E3 & E4). eapply triple_bind.
      * unfold here. rewrite <- E1. apply free_keeps; [exact O1|rewrite E2; unfold c; lia|rewrite E1; exact Nj].
      * intros c2. apply triple_ret. intros s [Hs [K1 K2]]. split; [exact Hs|]. split; [exact K1|rewrite E2 in K2; exact K2].
    + apply triple_ret. intros s Hs. split; [apply Hs|apply kept_same; [exact O|unfold c; lia|apply same_refl]].
  - intros [c' status]. apply triple_conseq with (pre' := fun s => kept_client c c' /\ exists w', broker_at (c_buffers c' ++ others) w' s)
      (post' := handled c); [|intros s [A B]; split; [exact B|exists (s_wedged s); split; [exact A|reflexivity]]|auto]. apply triple_pure. intros K.
    intros s [w' Hs]. revert s Hs. change (triple (broker_at (c_buffers c' ++ others) w') (let* m := tell_room cf m in ret (answer k c' m status)) (handled c)).
    eapply triple_bind; [apply tell_room_keeps, broker_quiet|intros m'']. apply triple_ret. intros s Hs. split; [apply Hs|exact K].
Qed.

Lemma handle_link_ok m : triple here (handle_link k m) (handled c).
Proof.
  unfold handle_link. destruct (0 <=? k_present_socket k); [apply ret_answer_ok, same_refl|].
  eapply triple_bind; [apply triple_call, here_quiet|intros [[mine theirs]|]]; [|apply ret_answer_ok, same_refl].
  eapply triple_bind; [apply triple_call, here_quiet|intros serving]. destruct serving.
  - apply triple_ret. intros s Hs. split; [apply Hs|]. apply kept_same; [exact O|unfold c; lia|apply same_refl].
  - do 2 (eapply triple_bind; [apply triple_effect, here_quiet|intros ?]). apply ret_answer_ok, same_refl.
Qed.

Lemma handle_window_ok m : triple here (handle_window k m) (handled c).
Proof.
  unfold handle_window. fold c. cbv zeta. eapply triple_bind with (mid := fun sh => here); [apply triple_get; auto|intros sh].
  repeat (match goal with |- triple _ (if ?x then _ else _) _ => destruct x end; [apply ret_answer_ok, same_refl|]).
  eapply triple_bind; [apply triple_call, here_quiet|intros status]. apply ret_answer_ok, same_refl.
Qed.

Lemma handle_display_ok m : triple here (handle_display k m) (handled c).
Proof.
  unfold handle_display. fold c. cbv zeta. eapply triple_bind with (mid := fun sh => here); [apply triple_get; auto|intros sh].
  destruct (s_wedged sh); [apply ret_answer_ok, same_refl|]. destruct (_ && _); [|apply ret_answer_ok, same_refl].
  eapply triple_bind; [apply triple_call, here_quiet|intros status]. apply ret_answer_ok, same_refl.
Qed.

(** Code on sparse ranges leaves the client's buffers alone. *)
Lemma handle_range_ok m run : triple here run (fun r s => here s /\ same_memory c (snd (fst r))) -> triple here (handle_range k m run) (handled c).
Proof.
  intros H. unfold handle_range. eapply triple_bind with (mid := fun sh => here); [apply triple_get; auto|intros sh].
  eapply triple_bind with (mid := fun r s => here s /\ same_memory c (snd (fst r))).
  - destruct (s_wedged sh); [apply triple_ret; intros s Hs; split; [exact Hs|apply same_refl]|exact H].
  - intros [[status c'] m']. cbn. apply triple_ret. intros s [Hs S]. apply answer_ok; assumption.
Qed.

Lemma vrange_reserve_ok m : triple here (vrange_reserve c m) (fun r s => here s /\ same_memory c (snd (fst r))).
Proof.
  unfold vrange_reserve. eapply triple_bind; [apply triple_call, here_quiet|intros stats].
  assert (R : forall status m', triple here (ret (status, c, m')) (fun r s => here s /\ same_memory c (snd (fst (r : Z * Client * PwGpuMessage)))))
    by (intros; apply triple_ret; intros s Hs; split; [exact Hs|apply same_refl]).
  destruct (_ || _); [apply R|]. destruct (_ || _); [apply R|]. eapply triple_bind; [apply triple_call, here_quiet|intros [mem|]]; [|apply R].
  destruct (put_range _ _ _) as [ranges slot]. cbv zeta. apply triple_ret. intros s Hs. split; [exact Hs|repeat split].
Qed.

Lemma vrange_bind_ok m bind : triple here (vrange_bind c m bind) (fun _ => here).
Proof. pose proof here_quiet as Q. unfold vrange_bind. keeps here. Qed.

(** Every slot of the index is one of [ranges]. *)
Definition index_ok (c : Client) : Prop := Forall (fun e => (snd e < List.length (c_ranges c))%nat) (c_range_index c).

Lemma index_find_in index_ address slot : index_find index_ address = Some slot -> In slot (map snd index_).
Proof.
  induction index_ as [|[a n] rest IH]; [discriminate|]. cbn. destruct (a =? address); [intros [= ->]; auto|auto].
Qed.

Lemma vrange_release_ok m : index_ok c -> triple here (vrange_release c m) (fun r s => here s /\ same_memory c (snd r)).
Proof.
  intros I. unfold vrange_release.
  destruct (if m_address m =? 0 then None else index_find (c_range_index c) (m_address m)) as [slot|] eqn:E.
  2: { apply triple_ret. intros s Hs. split; [exact Hs|apply same_refl]. }
  assert (L : (slot < List.length (c_ranges c))%nat).
  { destruct (m_address m =? 0); [discriminate|]. apply index_find_in in E. apply in_map_iff in E as (e & <- & Ie).
    unfold index_ok in I. rewrite Forall_forall in I. apply (I e Ie). }
  destruct (nth_error (c_ranges c) slot) as [r|] eqn:Nr; [|apply nth_error_None in Nr; lia].
  eapply triple_bind; [apply drain_ok|intros drained].
  eapply triple_conseq with (pre' := here) (post' := fun r s => here s /\ same_memory c (snd r)); [|intros s [Hs _]; exact Hs|auto].
  destruct (negb drained); [apply triple_ret; intros s Hs; split; [exact Hs|apply same_refl]|].
  eapply triple_bind; [apply triple_effect, here_quiet|intros ?]. apply triple_ret. intros s Hs. split; [exact Hs|repeat split].
Qed.
End Operations.
End Message.

(** ** The index of sparse ranges *)

Section Yields.
Context {W : Type}.

(** Whatever the call returns satisfies [q]. *)
Definition yields {A : Type} (m : M W A) (q : A -> Prop) : Prop := forall s a s', m s = Returns a s' -> q a.

Lemma yields_ret {A : Type} (a : A) (q : A -> Prop) : q a -> yields (ret a) q.
Proof. intros H s b s' E. injection E as <- <-. exact H. Qed.

Lemma yields_bind {A B : Type} (p : A -> Prop) (m : M W A) (k : A -> M W B) (q : B -> Prop) :
  yields m p -> (forall a, p a -> yields (k a) q) -> yields (mbind m k) q.
Proof. intros H K s b s' E. unfold mbind in E. destruct (m s) as [a s1| | |] eqn:F; try discriminate. apply (K a (H _ _ _ F) _ _ _ E). Qed.

Lemma yields_then {A B : Type} (m : M W A) (k : A -> M W B) (q : B -> Prop) : (forall a, yields (k a) q) -> yields (mbind m k) q.
Proof. intros K. apply (yields_bind (fun _ => True)); [intros s a s' _; exact I|auto]. Qed.
End Yields.

Ltac yield_step :=
  match goal with
  | |- yields (match ?x with _ => _ end) _ => destruct x
  | |- yields (let _ := _ in _) _ => cbv zeta
  | |- yields (fun _ => Faults) _ => intros ? ? ? ?; discriminate
  | |- yields (mbind _ _) _ => apply yields_then; intros ?
  | |- yields (ret _) _ => apply yields_ret
  end.
Ltac yield := repeat yield_step.

(** The sparse ranges are left alone. *)
Definition same_ranges (c c' : Client) : Prop := c_ranges c' = c_ranges c /\ c_range_index c' = c_range_index c.

Lemma same_ranges_ok c c' : same_ranges c c' -> index_ok c -> index_ok c'.
Proof. intros [E1 E2]. unfold index_ok. rewrite E1, E2. auto. Qed.

Section Index.
Context {W : Type} {P : Platform W} (cf : Config).

Lemma allocate_ranges c m : yields (W := W) (allocate cf c m) (fun r => same_ranges c (snd (fst (fst r)))).
Proof.
  unfold allocate. destruct (negb (allocation_valid cf m)); [apply yields_ret; split; reflexivity|]. cbv zeta.
  destruct (first_slot _ _ _) as [slot|]; [|apply yields_ret; split; reflexivity].
  destruct (negb (Z.land _ _ =? 0)); [|unfold allocate_ranged, allocate_cursor, host_buffer; cbv zeta; yield; split; reflexivity].
  apply (yields_bind (fun r => same_ranges c (snd (fst r)))); [unfold allocate_local; yield; split; reflexivity|].
  intros [[status c'] m'] H. apply yields_ret. exact H.
Qed.

Lemma free_buffer_ranges c slot b : yields (W := W) (free_buffer cf c slot b) (same_ranges c).
Proof. unfold free_buffer. yield; split; reflexivity. Qed.

Lemma submit_ranges c m : yields (W := W) (submit cf c m) (fun r => same_ranges c (snd r)).
Proof. unfold submit. yield; split; reflexivity. Qed.

Lemma index_set_in index_ address slot e : In e (index_set index_ address slot) -> In e index_ \/ snd e = slot.
Proof.
  induction index_ as [|[a n] rest IH]; cbn.
  - intros [<-|[]]. right. reflexivity.
  - destruct (address <? a); [intros [<-|H]; [right; reflexivity|left; exact H]|]. destruct (address =? a); [intros [<-|H]; [right; reflexivity|auto]|].
    intros [<-|H]; [auto|]. destruct (IH H); auto.
Qed.

Lemma index_erase_in index_ address e : In e (index_erase index_ address) -> In e index_.
Proof. induction index_ as [|[a n] rest IH]; cbn; [auto|]. destruct (a =? address); cbn; tauto. Qed.

Lemma length_set_slot {A : Type} (l : list A) i a : List.length (set_slot l i a) = List.length l.
Proof. revert i. induction l as [|x l IH]; intros [|i]; cbn; auto. Qed.

Lemma put_range_index c (r : Range) address ranges slot : index_ok c ->
  put_range (c_ranges c) (first_slot (fun r => r_address r =? 0) (c_ranges c) 0) r = (ranges, slot) ->
  Forall (fun e => (snd e < List.length ranges)%nat) (index_set (c_range_index c) address slot).
Proof.
  intros I E. unfold index_ok in I. rewrite Forall_forall in *.
  assert (L : (slot < List.length ranges)%nat /\ (List.length (c_ranges c) <= List.length ranges)%nat).
  { unfold put_range in E. destruct (first_slot _ _ _) as [j|] eqn:F; apply pair_inj in E as [<- <-].
    - apply first_slot_some in F as (i & a & -> & N & _). rewrite length_set_slot. cbn [Nat.add].
      pose proof (proj1 (nth_error_Some (c_ranges c) i) ltac:(congruence)). lia.
    - rewrite length_app. cbn. lia. }
  intros e Ie. apply index_set_in in Ie as [Ie|Ee]; [|lia]. specialize (I e Ie). lia.
Qed.

Lemma vrange_reserve_index c m : index_ok c -> yields (W := W) (vrange_reserve c m) (fun r => index_ok (snd (fst r))).
Proof.
  intros I. unfold vrange_reserve. repeat (match goal with |- yields (match put_range _ _ _ with _ => _ end) _ => fail 1 | _ => yield_step end); try exact I.
  destruct (put_range _ _ _) as [ranges slot] eqn:E. cbv zeta. apply yields_ret. cbn. apply (put_range_index _ _ _ _ _ I E).
Qed.

Lemma vrange_release_index c m : index_ok c -> yields (W := W) (vrange_release c m) (fun r => index_ok (snd r)).
Proof.
  intros I. unfold vrange_release. yield; try exact I. cbn. unfold index_ok in *. cbn. rewrite length_set_slot.
  apply Forall_forall. intros e Ie. apply index_erase_in in Ie. rewrite Forall_forall in I. apply (I e Ie).
Qed.

Lemma handle_index k m : index_ok (k_client k) -> yields (W := W) (handle cf k m) (fun a => index_ok (k_client (fst (fst a)))).
Proof.
  intros I. assert (S : forall c', same_ranges (k_client k) c' -> index_ok c') by (intros c' E; apply (same_ranges_ok _ _ E I)).
  unfold handle. cbv zeta. destruct (_ && _); [apply yields_ret; exact I|]. destruct (_ && _ && _); [unfold handle_init; yield; apply S; split; reflexivity|].
  destruct (0 <? c_pid _); [|apply yields_ret; exact I]. unfold dispatch. cbv zeta.
  assert (R : forall m' (run : M W (Z * Client * PwGpuMessage)), yields run (fun r => index_ok (snd (fst r))) ->
    yields (handle_range k m' run) (fun a => index_ok (k_client (fst (fst a))))).
  { intros m' run H. unfold handle_range. apply yields_then. intros sh. apply (yields_bind (fun r => index_ok (snd (fst r)))).
    - destruct (s_wedged sh); [apply yields_ret; exact I|exact H].
    - intros [[status c'] m''] Hc. apply yields_ret. exact Hc. }
  destruct (m_operation m); try (apply yields_ret; exact I).
  - unfold handle_alloc. apply yields_then. intros sh. apply (yields_bind (fun r => same_ranges (k_client k) (snd (fst (fst r))))).
    + destruct (s_wedged sh); [apply yields_ret; split; reflexivity|apply allocate_ranges].
    + intros [[[status c'] m'] fd] H. yield. apply S, H.
  - unfold handle_free. cbv zeta. apply (yields_bind (fun r => same_ranges (k_client k) (fst r))).
    + destruct (find_index _ _ _) as [[slot b]|]; [|apply yields_ret; split; reflexivity].
      eapply yields_bind; [apply free_buffer_ranges|]. intros c' H. apply yields_ret. cbn. destruct (_ && _); exact H.
    + intros [c' status] H. yield. apply S, H.
  - apply (yields_bind (fun r => same_ranges (k_client k) (snd r))); [apply submit_ranges|]. intros [status c'] H. apply yields_ret. apply S, H.
  - apply yields_ret. unfold handle_tess. cbv zeta. destruct (_ && _); [apply S; split; reflexivity|exact I].
  - apply yields_ret. unfold handle_offchip. cbv zeta. destruct (_ && _); [apply S; split; reflexivity|exact I].
  - unfold handle_display. yield; exact I.
  - unfold handle_window. yield; exact I.
  - unfold handle_link. yield; exact I.
  - apply R. apply vrange_reserve_index, I.
  - apply R. apply (yields_bind (fun r => index_ok (snd r))); [apply vrange_release_index, I|]. intros [status c'] H. apply yields_ret. exact H.
  - apply R. yield. exact I.
  - apply R. yield. exact I.
Qed.
End Index.

(** ** One message *)

Section Run.
Context {W : Type} {P : Platform W} (Law : lawful P) (cf : Config) (Hlimit : 0 <= cf_host_limit cf <= 2 ^ 32).

Definition connection_ok (n : Z) (k : Connection) : Prop :=
  client_ok cf (k_client k) /\ index_ok (k_client k) /\ 0 <= c_next_token (k_client k) <= n.

Lemma triple_yields {A : Type} pre (m : M W A) post q : triple pre m post -> yields m q -> triple pre m (fun a s => q a /\ post a s).
Proof. intros T Y s Hs. specialize (T s Hs). destruct (m s) as [a s'| | |] eqn:E; [|exact T..]. split; [apply (Y _ _ _ E)|exact T]. Qed.

Lemma submit_memory c m : yields (W := W) (submit cf c m) (fun r => same_memory c (snd r)).
Proof. unfold submit. yield; repeat split. Qed.

Lemma kick_keeps outside w : triple (broker_at outside w) kick (fun _ => broker_at (W := W) outside w).
Proof.
  unfold kick. eapply triple_bind with (mid := fun g s => alike (s_fences s) g /\ broker_at outside w s);
    [apply triple_get_fences; intros s Hs; split; [repeat split|exact Hs]|intros f].
  destruct (negb (f_kick f)); [apply triple_ret; intros s [_ Hs]; exact Hs|].
  eapply triple_bind with (mid := fun _ s => alike (s_fences s) f /\ broker_at outside w s).
  - apply triple_effect. intros s v [E Hs]. split; [exact E|apply (q_world _ (broker_quiet outside w) s v Hs)].
  - intros ?. eapply triple_conseq; [apply (set_alike outside w)|auto|auto].
Qed.

Lemma handle_ok others k w m n : connection_ok n k -> n < 2 ^ 32 - 1 -> is_u64 (m_bytes m) -> is_u64 (m_arg0 m) ->
  triple (broker_at (W := W) (c_buffers (k_client k) ++ others) w) (handle cf k m) (handled cf others (k_client k)).
Proof.
  intros (O & I & N) Hn U1 U2. assert (N' : 0 <= c_next_token (k_client k) < 2 ^ 32 - 1) by lia. assert (Hl : cf_host_limit cf <= 2 ^ 32) by lia.
  pose proof (fun c' m' status => ret_answer_ok cf others k w O N' c' m' status (W := W)) as R. pose proof (same_refl k) as Sr.
  unfold handle. cbv zeta. destruct (_ && _); [apply R, Sr|]. destruct (_ && _ && _); [apply handle_init_ok; assumption|].
  destruct (0 <? c_pid _); [|apply R, Sr]. unfold dispatch. cbv zeta. destruct (m_operation m); try (apply R, Sr).
  - apply handle_alloc_ok; assumption.
  - apply handle_free_ok; assumption.
  - eapply triple_bind.
    + apply triple_yields; [apply (submit_ok Law cf (c_buffers (k_client k) ++ others) w (k_client k) m U1)|apply submit_memory].
    + intros [status c']. apply triple_ret. intros s [S [Hs E]].
      split; [cbn in *; rewrite E; exact Hs|]. apply kept_same; [exact O|lia|exact S].
  - unfold handle_tess. cbv zeta. destruct (_ && _); apply R; repeat split.
  - unfold handle_offchip. cbv zeta. destruct (_ && _); apply R; repeat split.
  - apply handle_display_ok; assumption.
  - apply handle_window_ok; assumption.
  - apply handle_link_ok; assumption.
  - apply handle_range_ok; [assumption..|]. apply vrange_reserve_ok; assumption.
  - apply handle_range_ok; [assumption..|]. eapply triple_bind; [apply vrange_release_ok; assumption|]. intros [status c'].
    apply triple_ret. intros s Hs. exact Hs.
  - apply handle_range_ok; [assumption..|]. eapply triple_bind; [apply vrange_bind_ok|]. intros status. apply triple_ret. intros s Hs. split; [exact Hs|exact Sr].
  - apply handle_range_ok; [assumption..|]. eapply triple_bind; [apply vrange_bind_ok|]. intros status. apply triple_ret. intros s Hs. split; [exact Hs|exact Sr].
Qed.

Lemma serve_ok others k w whole delivered m n : connection_ok n k -> n < 2 ^ 32 - 1 -> is_u64 (m_bytes m) -> is_u64 (m_arg0 m) ->
  triple (broker_at (W := W) (c_buffers (k_client k) ++ others) w) (serve cf k whole delivered m)
    (fun r s => broker_ok (c_buffers (k_client (fst r)) ++ others) s /\ connection_ok (n + 1) (fst r)).
Proof.
  intros C Hn U1 U2. pose proof C as (O & I & N). unfold serve.
  assert (R : forall k', k_client k' = k_client k -> triple (broker_at (W := W) (c_buffers (k_client k) ++ others) w) (ret (k', None (A := PwGpuMessage * Z)))
    (fun r s => broker_ok (c_buffers (k_client (fst r)) ++ others) s /\ connection_ok (n + 1) (fst r))).
  { intros k' E. apply triple_ret. intros s Hs. cbn. unfold connection_ok. rewrite E. split; [apply Hs|]. split; [exact O|]. split; [exact I|lia]. }
  destruct (k_ended k); [apply R; reflexivity|]. destruct (negb _); [apply R; reflexivity|]. cbv zeta.
  set (k1 := {| k_client := k_client k; k_present := _; k_present_socket := _; k_sequence := _; k_ended := _ |}).
  eapply triple_bind; [apply triple_yields; [apply (handle_ok others k1 w m n C Hn U1 U2)|apply handle_index, I]|].
  intros [[k2 m'] fd] s [I2 [Hs [O2 N2]]]. cbn [fst] in *.
  pose proof (kick_keeps (c_buffers (k_client k2) ++ others) (s_wedged s) s (conj Hs eq_refl)) as K. unfold mbind.
  destruct (kick s) as [? s'| | |]; [|exact K..]. cbn. split; [apply K|]. split; [exact O2|]. split; [exact I2|]. change (k_client k1) with (k_client k) in N2. cbn [k_client]. lia.
Qed.

End Run.

(** ** New clients, and buffers apart *)

Lemma reserve_ok base bytes a : 0 < base -> 0 < bytes -> base + bytes <= 2 ^ 62 ->
  let r := snd (fst (hr_reserve (host_range base bytes) a)) in
  holding_ok {| h_range := r; h_blocks := [] |} /\ hr_base r = base /\ hr_bytes r = bytes.
Proof.
  intros H1 H2 H3. destruct a as [rc at_]. cbn. split; [|auto]. split; [|split; constructor]. cbn.
  destruct ((rc =? 0) && (at_ =? base)); cbn; repeat split; try lia; unfold kExtents, size; cbn; lia.
Qed.

Lemma blocks_empty i l : Forall (fun b => b = no_buffer) l -> blocks i l = [].
Proof. intros F. unfold blocks. induction F as [|b l -> F IH]; [reflexivity|]. cbn. exact IH. Qed.

Lemma repeat_total f n : f no_buffer = 0 -> total f (repeat no_buffer n) = 0.
Proof. intros E. unfold total. induction n as [|n IH]; [reflexivity|]. cbn. lia. Qed.

Lemma Forall_repeat {A : Type} (p : A -> Prop) a n : p a -> Forall p (repeat a n).
Proof. intros H. induction n; constructor; assumption. Qed.

Lemma new_client_ok cf pid : 0 <= cf_host_limit cf -> client_ok cf (new_client pid) /\ index_ok (new_client pid) /\ c_next_token (new_client pid) = 0.
Proof.
  intros Hl. unfold new_client. cbn [c_next_token]. split; [|split; [constructor|reflexivity]].
  remember (Z.to_nat kClientBuffers) as n eqn:En. constructor; cbn [c_buffers c_next_token c_allocated c_local]; try (apply Forall_repeat; cbn; auto with zarith).
  - unfold size. rewrite repeat_length, En. reflexivity.
  - unfold live_tokens. clear En. induction n as [|n IH]; cbn; [constructor|exact IH].
  - rewrite repeat_total by reflexivity. lia.
  - rewrite repeat_total by reflexivity. split; [reflexivity|vm_compute; discriminate].
Qed.

Lemma new_client_free pid : Forall (fun b => b = no_buffer) (c_buffers (new_client pid)).
Proof. unfold new_client. cbn [c_buffers]. apply Forall_repeat. reflexivity. Qed.

(** The place of a buffer. *)
Definition place (b : Buffer) : Z * Z := (b_address b, b_bytes b).

(** Two buffers in host ranges do not overlap. *)
Definition apart (b b' : Buffer) : Prop := b_ranged b = true -> b_ranged b' = true -> disjoint (place b) (place b').

Lemma in_blocks i b l : In b l -> in_host i b = true -> In (place b) (blocks i l).
Proof. intros I H. unfold blocks. apply (in_map place). apply filter_In. auto. Qed.

Lemma host_side i b : b_ranged b = true -> pw_gpu_host_range (b_address b) (b_bytes b) = i ->
  (i = 0 -> PW_GPU_HOST_WINDOW_BASE <= b_address b /\ b_address b + b_bytes b <= PW_GPU_HOST_WINDOW_BASE + PW_GPU_HOST_WINDOW_BYTES) /\
  (i = 1 -> PW_GPU_HOST_HIGH_BASE <= b_address b /\ b_address b + b_bytes b <= PW_GPU_HOST_HIGH_BASE + PW_GPU_HOST_HIGH_BYTES).
Proof.
  intros _ E. unfold pw_gpu_host_range in E. destruct (pw_gpu_contains PW_GPU_HOST_WINDOW_BASE _ _ _) eqn:C0.
  - subst i. split; [intros _|discriminate]. unfold pw_gpu_contains in C0. lia.
  - destruct (pw_gpu_contains PW_GPU_HOST_HIGH_BASE _ _ _) eqn:C1; subst i; [|split; discriminate]. split; [discriminate|intros _].
    unfold pw_gpu_contains in C1. lia.
Qed.

Lemma mem_apart {W : Type} l (s : Shared W) : mem_ok l s -> ForallOrdPairs apart l.
Proof.
  induction l as [|b l IH]; intros M; [constructor|]. constructor; [|apply IH, (mem_drop b), M].
  destruct M as [A B C _ _]. inversion C as [|? ? Pb Pl]; subst. apply Forall_forall. intros b' I R R'.
  destruct (Pb R) as [_ Hi]. rewrite Forall_forall in Pl. destruct (Pl b' I R') as [_ Hi'].
  assert (Same : forall i, holding_ok {| h_range := if i =? 0 then s_window s else s_high s; h_blocks := blocks i (b :: l) |} ->
    pw_gpu_host_range (b_address b) (b_bytes b) = i -> pw_gpu_host_range (b_address b') (b_bytes b') = i -> disjoint (place b) (place b')).
  { intros i (_ & _ & D) E E'. cbn [h_blocks] in D. rewrite blocks_cons, (in_host_of b i R E) in D. inversion D as [|? ? F _]; subst.
    rewrite Forall_forall in F. apply F. apply in_blocks; [exact I|]. apply in_host_of; assumption. }
  pose proof (host_side 0 b R) as S0. pose proof (host_side 1 b R) as S1. pose proof (host_side 0 b' R') as S0'. pose proof (host_side 1 b' R') as S1'.
  unfold disjoint, place. cbn [fst snd].
  unfold PW_GPU_HOST_WINDOW_BASE, PW_GPU_HOST_WINDOW_BYTES, PW_GPU_HOST_HIGH_BASE, PW_GPU_HOST_HIGH_BYTES in *.
  change (Z.shiftl 512 20) with 536870912 in *. change (Z.shiftl 16 30) with 17179869184 in *.
  destruct Hi as [E|E], Hi' as [E'|E']; [apply (Same 0 A E E')|lia|lia|apply (Same 1 B E E')].
Qed.
