(* ===== verification/BrokerSteps.v ===== *)
(** * Every event keeps the broker's invariant

    Messages on any connection, idle turns, slots opened and closed, and the
    stop: the buffers of all clients and those waiting for the GPU stay apart,
    every client's accounts stay exact, and the staging memory stays accounted
    for. *)

From Stdlib Require Import ZArith List Bool Lia Sorting.Permutation RelationClasses Morphisms.
From S2P Require Import Prelude Bytes BrokerProtocol HostRange BrokerState BrokerMemory BrokerFences BrokerLogic BrokerOrder BrokerBuffers.
From S2P Require Import BrokerInvariant BrokerRequests BrokerServe BrokerRun BrokerSession.
Import ListNotations.
Open Scope Z_scope.
Open Scope broker_scope.

Definition slot_buffers (slot : option Slot) : list Buffer :=
  match slot with Some sl => c_buffers (k_client (sl_connection sl)) | None => [] end.

Definition all_buffers (b : Broker) : list Buffer := flat_map slot_buffers (br_clients b).

(** The fields a client sends are of their width. *)
Definition event_ok (e : Event) : Prop :=
  match e with Says _ _ _ _ m => is_u64 (m_bytes m) /\ is_u64 (m_arg0 m) | _ => True end.

Section Steps.
Context {W : Type} {P : Platform W} (Law : lawful P) (cf : Config) (Hlimit : 0 <= cf_host_limit cf <= 2 ^ 32).

(** An open slot's client, after at most [n] events. *)
Definition slot_ok (n : Z) (slot : option Slot) : Prop :=
  match slot with Some sl => connection_ok cf n (sl_connection sl) | None => True end.

(** ** Lists of slots *)

Lemma slots_mid l1 slot l2 : Permutation (flat_map slot_buffers (l1 ++ slot :: l2)) (slot_buffers slot ++ flat_map slot_buffers (l1 ++ l2)).
Proof. rewrite !flat_map_app. cbn. rewrite !app_assoc. apply Permutation_app_tail, Permutation_app_comm. Qed.

(** The invariant with the slot at hand in front. *)
Lemma broker_slot b l1 slot l2 w (s : Shared W) : br_clients b = l1 ++ slot :: l2 ->
  broker_at (all_buffers b) w s <-> broker_at (slot_buffers slot ++ flat_map slot_buffers (l1 ++ l2)) w s.
Proof.
  intros E. unfold all_buffers. rewrite E. split; apply broker_perm; [|symmetry]; apply slots_mid.
Qed.

Lemma slot_ok_more n n' slot : n <= n' -> slot_ok n slot -> slot_ok n' slot.
Proof. destruct slot as [sl|]; cbn; [|auto]. intros L (A & B & C). split; [exact A|]. split; [exact B|lia]. Qed.

(** ** Slots opened *)

Lemma mem_free_buffers e l (s : Shared W) : Forall (fun b => b = no_buffer) e -> mem_ok l s -> mem_ok (e ++ l) s.
Proof.
  intros F [A B C D E]. assert (Bl : forall i, blocks i (e ++ l) = blocks i l).
  { intros i. unfold blocks. rewrite filter_app, map_app. fold (blocks i e). rewrite (blocks_empty i e F). reflexivity. }
  constructor; rewrite ?Bl; try assumption. apply Forall_app. split; [|exact C]. eapply Forall_impl; [|exact F]. intros b -> X. discriminate.
Qed.

Lemma broker_free_buffers e outside w (s : Shared W) : Forall (fun b => b = no_buffer) e -> broker_at outside w s -> broker_at (e ++ outside) w s.
Proof.
  intros F [[(A & R) Q] V]. split; [|exact V]. split; [|exact Q]. split; [|exact R]. rewrite <- app_assoc. apply mem_free_buffers; assumption.
Qed.

(** The invariant of a step: [n] events so far. *)
Definition session_at (n : Z) (w : bool) (b : Broker) (s : Shared W) : Prop := broker_at (all_buffers b) w s /\ Forall (slot_ok n) (br_clients b).

Definition session_ok (n : Z) (b : Broker) (s : Shared W) : Prop := broker_ok (all_buffers b) s /\ Forall (slot_ok n) (br_clients b).

Lemma session_now n b s : session_ok n b s -> session_at n (s_wedged s) b s.
Proof. intros [A B]. split; [split; [exact A|reflexivity]|exact B]. Qed.

Lemma session_kept n w b : triple (broker_at (all_buffers b) w) (ret b) (fun b' s => Forall (slot_ok n) (br_clients b) -> session_ok n b' s).
Proof. apply triple_ret. intros s [H _] F. split; assumption. Qed.

Lemma session_more n n' b s : n <= n' -> session_ok n b s -> session_ok n' b s.
Proof. intros L [A B]. split; [exact A|]. eapply Forall_impl; [|exact B]. intros slot. apply slot_ok_more, L. Qed.

Lemma open_client_ok n w b pid : Forall (slot_ok n) (br_clients b) -> 0 <= n ->
  triple (broker_at (all_buffers b) w) (open_client b pid) (fun r s => session_ok n (snd r) s).
Proof.
  intros F Hn. assert (K : forall r, br_clients (snd r) = br_clients b -> triple (broker_at (all_buffers b) w) (ret r) (fun (r : Z * Z * Broker) s => session_ok n (snd r) s)).
  { intros r E. apply triple_ret. intros s [Hs _]. unfold session_ok, all_buffers. rewrite E. split; assumption. }
  pose proof (broker_quiet (W := W) (all_buffers b) w) as Q. unfold open_client. destruct (negb (br_started b)); [apply K; reflexivity|].
  destruct (first_slot _ _ _) as [i|] eqn:Fi; [|apply K; reflexivity]. destruct (negb _); [apply K; reflexivity|].
  eapply triple_bind; [apply triple_call, q_world, Q|intros [[mine theirs]|]; [|apply K; reflexivity]]. cbv zeta.
  eapply triple_bind; [apply triple_call, q_world, Q|intros started]. destruct started.
  - apply triple_ret. intros s Hs. cbn [snd].
    apply first_slot_some in Fi as (j & slot & -> & N & Free). destruct slot; [discriminate|]. cbn [Nat.add].
    destruct (set_slot_split _ _ _ (Some (open_slot (br_next_cookie b + 1) mine pid)) N) as (l1 & l2 & El & Es). rewrite Es.
    split.
    + eapply (broker_slot _ l1 _ l2); [reflexivity|]. apply (broker_slot b l1 None l2 w s El) in Hs. cbn [slot_buffers app] in Hs.
      apply broker_free_buffers; [apply new_client_free|exact Hs].
    + rewrite El in F. apply forall_mid in F as [_ F]. cbn [br_clients]. apply forall_mid. split; [|exact F]. cbn.
      destruct (new_client_ok cf pid (proj1 Hlimit)) as (A & B & C). split; [exact A|]. split; [exact B|]. cbn [k_client]. rewrite C. lia.
  - do 2 (eapply triple_bind; [apply triple_effect, q_world, Q|intros ?]). apply K. reflexivity.
Qed.

(** ** Messages *)

Lemma slot_split {A : Type} (l : list A) i a : nth_error l i = Some a ->
  exists l1 l2, l = l1 ++ a :: l2 /\ forall a', set_slot l i a' = l1 ++ a' :: l2.
Proof. intros N. apply nth_error_split in N as (l1 & l2 & -> & <-). exists l1, l2. split; [reflexivity|]. intros a'. induction l1; cbn; congruence. Qed.

Lemma says_ok n w b i present whole delivered m : Forall (slot_ok n) (br_clients b) -> n < 2 ^ 32 - 1 -> is_u64 (m_bytes m) -> is_u64 (m_arg0 m) ->
  triple (broker_at (all_buffers b) w) (step cf b (Says i present whole delivered m)) (fun b' s => session_ok (n + 1) b' s).
Proof.
  intros F Hn U1 U2. assert (K : triple (broker_at (all_buffers b) w) (ret b) (fun b' s => session_ok (n + 1) b' s)).
  { apply triple_ret. intros s [Hs _]. apply (session_more n); [lia|]. split; assumption. }
  cbn [step]. destruct (nth_error (br_clients b) i) as [[sl|]|] eqn:N; [|exact K..]. destruct (_ && _); [exact K|].
  destruct (slot_split _ _ _ N) as (l1 & l2 & El & Es). pose proof F as F'. rewrite El in F'. apply forall_mid in F' as [Fs F'].
  eapply triple_bind.
  - eapply triple_conseq; [apply (serve_ok Law cf Hlimit (flat_map slot_buffers (l1 ++ l2)) (serving sl present) w whole delivered m n Fs Hn U1 U2)| |
      intros r s; exact (fun x => x)].
    intros s Hs. apply (broker_slot b l1 (Some sl) l2 w s El) in Hs. exact Hs.
  - intros [k out]. apply triple_ret. intros s [Hs Ck]. cbn [fst] in *. rewrite Es. split.
    + apply (broker_slot (with_clients b (l1 ++ Some (served sl present k) :: l2)) l1 (Some (served sl present k)) l2 (s_wedged s) s eq_refl).
      split; [exact Hs|reflexivity].
    + cbn [br_clients with_clients]. apply forall_mid. split; [exact Ck|]. eapply Forall_impl; [|exact F']. intros slot. apply slot_ok_more. lia.
Qed.

(** ** Slots closed *)

Lemma release_ranges_ok outside w ranges : triple (broker_at (W := W) outside w) (release_ranges ranges) (fun _ => broker_at outside w).
Proof.
  pose proof (broker_quiet (W := W) outside w) as Q. induction ranges as [|r ranges IH]; cbn [release_ranges]; [apply triple_ret; auto|].
  eapply triple_bind with (mid := fun _ => broker_at outside w); [|intros ?; exact IH].
  destruct (_ =? 0); [apply triple_ret; auto|apply triple_effect, q_world, Q].
Qed.

Lemma release_buffers_ok outside w buffers : triple (broker_at (W := W) (buffers ++ outside) w) (release_buffers buffers) (fun _ => broker_at outside w).
Proof.
  induction buffers as [|b buffers IH]; cbn [release_buffers]; [apply triple_ret; auto|].
  eapply triple_bind with (mid := fun _ => broker_at (buffers ++ outside) w); [|intros ?; exact IH].
  destruct (_ =? 0); [apply triple_ret; intros s Hs; apply (broker_drop b), Hs|].
  intros s Hs. apply (release_keeps b (buffers ++ outside) w); [|exact Hs].
  destruct Hs as [[([_ _ C _ _] & _) _] _]. inversion C; assumption.
Qed.

Lemma drop_all buffers outside w (s : Shared W) : broker_at (buffers ++ outside) w s -> broker_at outside w s.
Proof. induction buffers as [|b buffers IH]; intros H; [exact H|]. apply IH, (broker_drop b), H. Qed.

(** [broker_at] in some state of the GPU. *)
Lemma broker_now outside (s : Shared W) : broker_ok outside s -> broker_at outside (s_wedged s) s.
Proof. intros H. split; [exact H|reflexivity]. Qed.

Lemma process_gone_ok outside w service : triple (broker_at (W := W) outside w) (process_gone cf service) (fun _ => broker_ok outside).
Proof.
  pose proof (broker_quiet (W := W) outside w) as Q. unfold process_gone. destruct (_ =? 0); [apply triple_ret; intros s Hs; apply Hs|].
  eapply triple_bind with (mid := fun _ => broker_at outside w).
  - generalize 200%nat. intros turns. induction turns as [|turns IH]; cbn [await_absence]; [apply triple_ret; auto|].
    eapply triple_bind; [apply triple_call, q_world, Q|intros gone]. destruct gone; [apply triple_ret; auto|].
    eapply triple_bind; [apply triple_effect, q_world, Q|intros ?; exact IH].
  - intros ?. eapply triple_bind; [apply triple_call, q_world, Q|intros gone]. destruct gone; [apply triple_ret; intros s Hs; apply Hs|].
    eapply triple_bind; [apply give_up_keeps|intros ?]. apply triple_ret. intros s Hs. apply Hs.
Qed.

(** After it nothing is in flight, or the GPU is in doubt. *)
Lemma settle_ok outside : triple (broker_ok (W := W) outside) (settle cf)
  (fun _ s => broker_ok outside s /\ (s_wedged s = false -> idle (s_fences s) = true)).
Proof.
  unfold settle. intros s0 H0. apply broker_now in H0. unfold mbind at 1, get.
  destruct (s_wedged s0) eqn:V; [cbn; split; [apply H0|congruence]|].
  pose proof (drain_ok (W := W) outside false 5000000000 s0 H0) as D. unfold mbind at 1. destruct (drain _ s0) as [drained s1| | |]; [|exact D..].
  destruct D as [D1 D2]. destruct drained; [cbn; split; [apply D1|auto]|].
  pose proof (give_up_keeps cf outside false s1 D1) as G. unfold mbind. destruct (gives_up cf s1) as [? s2| | |]; [|exact G..].
  cbn. destruct G as [G1 G2]. split; [exact G1|congruence].
Qed.

(** Code that first looks at the state of the GPU. *)
Lemma triple_now {A : Type} outside (k : Shared W -> M W A) post :
  (forall s0, triple (broker_at outside (s_wedged s0)) (k s0) post) -> triple (broker_ok outside) (mbind get k) post.
Proof. intros H s Hs. apply (H s s), broker_now, Hs. Qed.

Lemma release_client_ok outside w v ranges buffers :
  triple (broker_at (W := W) (buffers ++ outside) w) (if v : bool then ret tt else do* release_ranges ranges in release_buffers buffers)
    (fun _ => broker_at outside w).
Proof.
  destruct v; [apply triple_ret; intros s; apply drop_all|]. eapply triple_bind; [apply release_ranges_ok|intros ?; apply release_buffers_ok].
Qed.

Lemma close_client_ok n w b cookie service : Forall (slot_ok n) (br_clients b) ->
  triple (broker_at (all_buffers b) w) (close_client cf b cookie service) (fun b' s => session_ok n b' s).
Proof.
  intros F. unfold close_client. eapply triple_bind; [apply process_gone_ok|intros ?].
  assert (K : triple (broker_ok (all_buffers b)) (ret b) (fun b' s => session_ok n b' s)) by (apply triple_ret; intros s Hs; split; assumption).
  destruct (find_index _ _ _) as [[i [sl|]]|] eqn:Fi; [|exact K..].
  apply find_index_some in Fi as (j & -> & N & _). cbn [Nat.add]. destruct (slot_split _ _ _ N) as (l1 & l2 & El & Es).
  rewrite El in F. apply forall_mid in F as [_ F]. cbv zeta. set (others := flat_map slot_buffers (l1 ++ l2)).
  eapply triple_bind with (mid := fun _ => broker_ok (c_buffers (k_client (sl_connection sl)) ++ others)).
  { eapply triple_conseq; [apply settle_ok|intros s Hs; exact Hs|]. intros ? s [Hs _]. apply broker_now in Hs.
    apply (broker_slot b l1 (Some sl) l2 _ s El) in Hs. apply Hs. }
  intros ?. apply triple_now. intros s0. pose proof (broker_quiet (W := W) others (s_wedged s0)) as Q.
  eapply triple_bind; [apply release_client_ok|intros ?]. eapply triple_bind; [apply triple_effect, q_world, Q|intros ?].
  eapply triple_bind with (mid := fun _ => broker_at others (s_wedged s0)).
  { destruct (0 <=? _); [apply triple_effect, q_world, Q|apply triple_ret; auto]. }
  intros ?. apply triple_ret. intros s [Hs V]. rewrite Es. split; [|cbn; apply forall_mid; split; [exact I|exact F]].
  apply (broker_slot (with_clients b (l1 ++ None :: l2)) l1 None l2 (s_wedged s) s eq_refl). apply broker_now, Hs.
Qed.

(** ** The end *)

(** No staging buffer is out but the spares [rest], and nothing waits. *)
Definition spares_left (f : Fences) (rest : list memory) (s : Shared W) : Prop :=
  mem_ok [] s /\ s_fences s = f /\ s_wedged s = false /\
  u64 (n_staging_allocs (s_counters s) - n_staging_frees (s_counters s)) = u64 (size rest) /\
  u64 (n_staging_held (s_counters s)) = u64 (bytes_of rest).

Lemma spares_quiet f rest : quiet (spares_left f rest).
Proof.
  split; [intros s v|intros g s S|intros x y s|intros n s]; intros (A & B & C & D & E); (split; [apply (mem_ok_ranges [] s); [reflexivity|reflexivity|exact A]|]);
    try (split; [exact B|split; [exact C|split; assumption]]).
  destruct (S (s_counters s)) as (S1 & S2 & S3). cbn. rewrite S1, S2, S3. auto.
Qed.

Lemma free_spares_ok f rest : triple (spares_left f rest) (free_spares rest) (fun _ => spares_left f []).
Proof.
  induction rest as [|m rest IH]; cbn [free_spares]; [apply triple_ret; auto|].
  eapply triple_bind with (mid := fun _ => spares_left f rest); [|intros ?; exact IH].
  unfold staging_free. eapply triple_bind with (mid := fun _ => spares_left f rest); [|intros ?; apply triple_effect, q_world, spares_quiet].
  intros s (A & B & C & D & E). cbn. split; [apply (mem_ok_ranges [] s); [reflexivity|reflexivity|exact A]|]. split; [exact B|]. split; [exact C|].
  cbn. rewrite u64_sub_l, u64_sub_r, u64_u64. rewrite size_cons in D. unfold bytes_of in *. cbn in E.
  split; [apply (u64_shift _ _ _ _ D); lia|apply (u64_shift _ _ _ _ E); lia].
Qed.

Lemma bytes_perm l m : Permutation l m -> bytes_of l = bytes_of m.
Proof. unfold bytes_of. induction 1; cbn; lia. Qed.

Lemma spares_start s : broker_at [] false s -> idle (s_fences s) = true -> spares_left (s_fences s) (rev (st_spare (f_staging (s_fences s)))) s.
Proof.
  intros [[(A & [(B1 & B2 & B3 & B4) _ B5 B6] & _) _] V] I. unfold idle in I. destruct (f_ring (s_fences s)) eqn:R; [|discriminate].
  destruct (f_deferred (s_fences s)) eqn:D; [|discriminate]. specialize (B5 V). specialize (B6 V). cbn in B5, B6.
  split; [exact A|]. split; [reflexivity|]. split; [exact V|]. rewrite <- (bytes_perm _ _ (Permutation_rev _)). unfold size. rewrite length_rev.
  split; [exact B5|]. rewrite B6, B3. reflexivity.
Qed.

(** Nothing of the broker is left: no fence page, no work, no staging memory. *)
Definition stopped (s : Shared W) : Prop := spares_left no_fences [] s.

Lemma fences_reset_ok : triple (fun s => broker_at [] false s /\ idle (s_fences s) = true) fences_reset (fun _ => stopped).
Proof.
  unfold fences_reset. eapply triple_bind with (mid := fun f s => spares_left f (rev (st_spare (f_staging f))) s).
  { apply triple_get_fences. intros s [Hs I]. apply spares_start; assumption. }
  intros f. eapply triple_bind; [apply free_spares_ok|intros ?]. eapply triple_bind with (mid := fun _ => stopped).
  { intros s (A & B & C & D). cbn. split; [apply (mem_ok_ranges [] s); [reflexivity|reflexivity|exact A]|]. auto. }
  pose proof (q_world _ (spares_quiet no_fences [])) as Q. intros ?. eapply triple_bind with (mid := fun _ => stopped).
  - destruct (_ =? 0); [apply triple_ret; auto|apply triple_effect, Q].
  - intros ?. destruct (_ =? 0); [apply triple_ret; auto|apply triple_effect, Q].
Qed.

Lemma stopped_ok s : stopped s -> broker_at [] false s.
Proof.
  intros (A & B & C & D & E). split; [|exact C]. split; rewrite B, ?C.
  - split; [exact A|]. split; [constructor; rewrite ?B; cbn; auto; exact no_staging_ok|]. rewrite B. split; [reflexivity|]. split; [split; auto|exact C].
  - constructor; cbn; [lia|vm_compute; discriminate|vm_compute; discriminate|]. exists 0. split; [lia|]. split; [exact I|]. intros _ X. contradiction.
Qed.

(** The ranges, with nothing placed in them, reserved or let go. *)
Definition range_at (i : Z) (r : HostRange) : Prop :=
  (i = 0 /\ hr_base r = PW_GPU_HOST_WINDOW_BASE /\ hr_bytes r = PW_GPU_HOST_WINDOW_BYTES) \/
  (i = 1 /\ hr_base r = PW_GPU_HOST_HIGH_BASE /\ hr_bytes r = PW_GPU_HOST_HIGH_BYTES).

Lemma stopped_range i s : i = 0 \/ i = 1 -> stopped s -> range_at i (host_of s i).
Proof. intros [-> | ->] ([_ _ _ D E] & _); [left|right]; split; try reflexivity; assumption. Qed.

Lemma range_positive i r : range_at i r -> 0 < hr_base r /\ 0 < hr_bytes r /\ hr_base r + hr_bytes r <= 2 ^ 62.
Proof. intros [(_ & -> & ->)|(_ & -> & ->)]; vm_compute; repeat split; discriminate. Qed.

Lemma set_range_ok i r : range_at i r -> holding_ok {| h_range := r; h_blocks := [] |} ->
  triple stopped (set_host i r) (fun _ s => stopped s /\ host_of s i = r).
Proof.
  intros At Ho s ([A B C D E] & F). destruct At as [(-> & X1 & X2)|(-> & X1 & X2)]; cbn; (split; [|reflexivity]);
    (split; [constructor; cbn; auto|exact F]).
Qed.

Lemma unmap_ok range : triple stopped (unmap range) (fun _ => stopped).
Proof. unfold unmap. destruct range as [[at_ bytes]|]; [apply triple_effect, q_world, spares_quiet|apply triple_ret; auto]. Qed.

Lemma host_range_reserve_ok i : i = 0 \/ i = 1 -> triple stopped (host_range_reserve i) (fun _ => stopped).
Proof.
  intros Hi. unfold host_range_reserve. eapply triple_bind with (mid := fun r s => range_at i r /\ stopped s).
  { apply triple_get_host; [exact Hi|]. intros s Hs. split; [apply stopped_range; assumption|exact Hs]. }
  intros r. apply triple_pure. intros At. eapply triple_bind; [apply triple_call, q_world, spares_quiet|intros answer].
  destruct (range_positive i r At) as (R1 & R2 & R3). pose proof (reserve_ok (hr_base r) (hr_bytes r) answer R1 R2 R3) as (Ok & Eb & Es).
  assert (Same : snd (fst (hr_reserve (host_range (hr_base r) (hr_bytes r)) answer)) = snd (fst (hr_reserve r answer))).
  { destruct answer as [rc at_]. reflexivity. }
  rewrite Same in Ok, Eb, Es. destruct (hr_reserve r answer) as [[reserved r'] elsewhere]. cbn [fst snd] in *.
  eapply triple_bind; [apply unmap_ok|intros ?]. eapply triple_conseq; [apply set_range_ok|auto|intros ? s [Hs _]; exact Hs]; [|exact Ok].
  unfold range_at in *. rewrite Eb, Es. exact At.
Qed.

Lemma host_range_release_ok i : i = 0 \/ i = 1 ->
  triple stopped (host_range_release i) (fun _ s => stopped s /\ hr_reserved (host_of s i) = false /\ hr_free (host_of s i) = []).
Proof.
  intros Hi. unfold host_range_release. eapply triple_bind with (mid := fun r s => range_at i r /\ stopped s).
  { apply triple_get_host; [exact Hi|]. intros s Hs. split; [apply stopped_range; assumption|exact Hs]. }
  intros r. apply triple_pure. intros At. cbn [hr_release]. eapply triple_bind; [apply unmap_ok|intros ?].
  eapply triple_conseq; [apply set_range_ok; [exact At|]|intros s Hs; exact Hs|intros ? s [Hs E]; rewrite E; auto].
  destruct (range_positive i r At) as (R1 & R2 & R3). split; [|split; constructor]. cbn. repeat split; cbn; try lia. vm_compute. discriminate.
Qed.

(** Nothing at all is left. *)
Definition gone (s : Shared W) : Prop :=
  stopped s /\ hr_reserved (s_window s) = false /\ hr_free (s_window s) = [] /\ hr_reserved (s_high s) = false /\ hr_free (s_high s) = [].

Lemma release_keeps_window (s s' : Shared W) a : host_range_release 1 s = Returns a s' -> s_window s' = s_window s.
Proof.
  unfold host_range_release, get_host, mbind, unmap, effect, call. cbn. destruct (hr_reserved (s_high s)); cbn; intros E; injection E as _ <-; reflexivity.
Qed.

Lemma host_ranges_release_ok : triple stopped host_ranges_release (fun _ => gone).
Proof.
  unfold host_ranges_release. eapply triple_bind; [apply (host_range_release_ok 0); auto|intros ?]. intros s (Hs & R & F).
  pose proof (host_range_release_ok 1 ltac:(auto) s Hs) as T. destruct (host_range_release 1 s) as [u s'| | |] eqn:E; [|exact T..].
  destruct T as (T1 & T2 & T3). pose proof (release_keeps_window _ _ _ E) as K. cbn in R, F, T2, T3.
  split; [exact T1|]. rewrite K. auto.
Qed.

(** [stop]: the broker is left as it was, or nothing of it is, or the GPU is in
    doubt. *)
Lemma stop_ok n w b : Forall (slot_ok n) (br_clients b) ->
  triple (broker_at (all_buffers b) w) (stop cf b)
    (fun r s => session_ok n (snd r) s /\ (fst r = true -> s_wedged s = false -> gone s)).
Proof.
  intros F. assert (K : triple (broker_at (all_buffers b) w) (ret (false, b)) (fun r s => session_ok n (snd r) s /\ (fst r = true -> s_wedged s = false -> gone s))).
  { apply triple_ret. intros s [Hs _]. split; [split; assumption|discriminate]. }
  unfold stop. destruct (negb (br_started b)); [exact K|]. destruct (existsb is_open _) eqn:Ex; [exact K|]. clear K.
  assert (E : all_buffers b = []).
  { unfold all_buffers. clear F. induction (br_clients b) as [|[sl|] l IH]; [reflexivity|discriminate|]. apply IH, Ex. }
  eapply triple_bind with (mid := fun _ s => broker_ok [] s /\ (s_wedged s = false -> idle (s_fences s) = true)).
  { rewrite E. intros s [Hs _]. apply (settle_ok [] s Hs). }
  intros ? s1 [H1 Id]. unfold mbind at 1, get. revert s1 H1 Id.
  enough (T : forall v, triple (fun s => broker_at [] v s /\ (v = false -> idle (s_fences s) = true))
    (do* (if v then ret tt else do* fences_reset in host_ranges_release) in
     let* closed := call p_display_close in do* (if closed then ret tt else do* gives_up cf in ret tt) in
     ret (true, {| br_clients := br_clients b; br_next_cookie := br_next_cookie b; br_started := false |}))
    (fun r s => session_ok n (snd r) s /\ (fst r = true -> s_wedged s = false -> gone s))).
  { intros s1 H1 Id. apply (T (s_wedged s1) s1). split; [apply broker_now, H1|exact Id]. }
  intros v. eapply triple_bind with (mid := fun _ s => broker_at [] v s /\ (v = false -> gone s)).
  { destruct v; [apply triple_ret; intros s [Hs _]; split; [exact Hs|discriminate]|].
    eapply triple_bind with (mid := fun _ => stopped).
    - eapply triple_conseq; [apply fences_reset_ok| |auto]. intros s [Hs I]. auto.
    - intros ?. eapply triple_conseq; [apply host_ranges_release_ok|auto|]. intros ? s G. split; [apply stopped_ok, G|auto]. }
  intros ?. eapply triple_bind with (mid := fun _ s => broker_at [] v s /\ (v = false -> gone s)).
  { apply triple_call. intros s u [Hs G]. split; [apply (q_world _ (broker_quiet [] v) s u Hs)|]. intros V. destruct (G V) as [Gs Gr].
    split; [apply (q_world _ (spares_quiet no_fences []) s u Gs)|exact Gr]. }
  intros closed. eapply triple_bind with (mid := fun _ s => broker_ok [] s /\ (s_wedged s = false -> gone s)).
  { destruct closed; [apply triple_ret; intros s [[Hs V] G]; split; [exact Hs|rewrite V; exact G]|].
    eapply triple_bind with (mid := fun _ => broker_at [] true).
    - eapply triple_conseq; [apply (give_up_keeps cf [] v)|intros s [Hs _]; exact Hs|auto].
    - intros ?. apply triple_ret. intros s [Hs V]. split; [exact Hs|congruence]. }
  intros ?. apply triple_ret. intros s [Hs G]. cbn [fst snd]. split; [|auto]. unfold session_ok. change (all_buffers {| br_clients := br_clients b; br_next_cookie := _; br_started := _ |}) with (all_buffers b).
  rewrite E. split; assumption.
Qed.

Lemma none_open (l : list (option Slot)) : existsb is_open l = false <-> Forall (fun slot => slot = None) l.
Proof.
  induction l as [|[sl|] l IH]; cbn; [split; auto|split; [discriminate|]; intros F; inversion F; discriminate|].
  rewrite IH. split; [auto|]. intros F. inversion F. assumption.
Qed.

Lemma stop_answer b : yields (W := W) (stop cf b) (fun r => fst r = true <-> br_started b = true /\ Forall (fun slot => slot = None) (br_clients b)).
Proof.
  assert (Y : yields (W := W) (stop cf b) (fun r => fst r = true <-> br_started b = true /\ existsb is_open (br_clients b) = false));
    [|intros s r s' E; rewrite <- none_open; apply (Y s r s' E)]. unfold stop. destruct (br_started b); cbn [negb]; [|apply yields_ret; split; [discriminate|intros [X _]; discriminate X]].
  destruct (existsb is_open (br_clients b)); [apply yields_ret; split; [discriminate|intros [_ X]; discriminate X]|].
  do 5 (apply yields_then; intros ?). apply yields_ret. split; auto.
Qed.

(** ** Any events *)

Lemma step_ok n b e : 0 <= n < 2 ^ 32 - 1 -> event_ok e ->
  triple (session_ok n b) (step cf b e) (fun b' s => session_ok (n + 1) b' s).
Proof.
  intros Hn He s [Hs F]. apply broker_now in Hs.
  assert (T : triple (broker_at (all_buffers b) (s_wedged s)) (step cf b e) (fun b' s => session_ok (n + 1) b' s)).
  2: { apply T, Hs. }
  assert (More : forall (b' : Broker) (s' : Shared W), session_ok n b' s' -> session_ok (n + 1) b' s') by (intros b' s'; apply session_more; lia).
  destruct e as [i present whole delivered m| |who|cookie service|]; cbn [event_ok] in He.
  - apply says_ok; [exact F|lia|apply He..].
  - cbn [step]. eapply triple_bind; [apply reap_keeps|intros ?]. apply triple_ret. intros s' [Hs' _]. apply More. split; assumption.
  - cbn [step]. assert (O : forall pid, triple (broker_at (all_buffers b) (s_wedged s)) (open_client b pid) (fun r s => session_ok n (snd r) s)).
    { intros pid. apply open_client_ok; [exact F|lia]. }
    eapply triple_bind with (mid := fun r s' => session_ok n (snd r) s').
    + destruct who as [|pid|]; cbn [open_for]; [apply O| |apply O]. destruct (_ || _); [|apply O]. apply triple_ret. intros s' [Hs' _]. split; assumption.
    + intros [[fd error] b']. apply triple_ret. intros s'. apply More.
  - cbn [step]. eapply triple_conseq; [apply (close_client_ok n); exact F|intros s' X; exact X|exact More].
  - cbn [step]. eapply triple_bind; [apply (stop_ok n); exact F|intros [answer b']]. apply triple_ret. intros s' [X _]. apply More, X.
Qed.

Lemma steps_ok events : forall n b, Forall event_ok events -> 0 <= n -> n + size events < 2 ^ 32 ->
  triple (session_ok n b) (steps cf events b) (fun b' s => session_ok (n + size events) b' s).
Proof.
  induction events as [|e events IH]; intros n b F Hn B; cbn [steps].
  - apply triple_ret. intros s Hs. change (size []) with 0. rewrite Z.add_0_r. exact Hs.
  - rewrite size_cons in *. pose proof (size_nonneg events). inversion F; subst. eapply triple_bind; [apply step_ok; [lia|assumption]|].
    intros b'. replace (n + (1 + size events)) with ((n + 1) + size events) by lia. apply IH; [assumption|lia|lia].
Qed.

(** The program just started. *)
Definition boot (w : W) : Shared W :=
  {| s_world := w; s_window := host_range PW_GPU_HOST_WINDOW_BASE PW_GPU_HOST_WINDOW_BYTES;
     s_high := host_range PW_GPU_HOST_HIGH_BASE PW_GPU_HOST_HIGH_BYTES; s_fences := no_fences; s_wedged := false; s_counters := no_counters;
     s_next_window := 0x240000000; s_next_high := 0x5100000000; s_test_submissions := 0 |}.

Lemma boot_stopped w : stopped (boot w).
Proof.
  split; [|repeat split]. constructor; cbn; auto; (split; [|split; constructor]); cbn; repeat split; vm_compute; try discriminate.
Qed.

Lemma new_broker_free : all_buffers new_broker = [] /\ Forall (slot_ok 0) (br_clients new_broker).
Proof. split; [reflexivity|]. cbn [new_broker br_clients]. apply Forall_repeat. exact I. Qed.

Lemma session_run w events : Forall event_ok events -> size events < 2 ^ 32 ->
  match session cf events (boot w) with
  | Returns b s => session_ok (size events) b s
  | Faults => False
  | _ => True
  end.
Proof.
  intros F B. pose proof (size_nonneg events).
  assert (T : triple stopped (session cf events) (fun b s => session_ok (size events) b s)).
  { unfold session, host_ranges_reserve. eapply triple_bind with (mid := fun _ => stopped).
    - eapply triple_bind; [apply host_range_reserve_ok; auto|intros ?; apply host_range_reserve_ok; auto].
    - intros ?. eapply triple_conseq; [apply (steps_ok events 0); [exact F|lia|lia]| |intros b s X; exact X].
      intros s Hs. destruct new_broker_free as [E S]. split; [|exact S]. rewrite E. apply stopped_ok, Hs. }
  specialize (T (boot w) (boot_stopped w)). destruct (session cf events (boot w)); auto.
Qed.
End Steps.
