(* ===== verification/BrokerSim.v ===== *)
(** * A simulated platform

    An instance of the platform that satisfies the laws the theorems assume, on
    which their witnesses run. *)

From Stdlib Require Import ZArith List Bool Lia.
From S2P Require Import Prelude Bytes BrokerProtocol HostRange BrokerState BrokerMemory BrokerFences BrokerLogic BrokerBuffers BrokerInvariant BrokerRequests BrokerServe.
From S2P Require Import BrokerRun BrokerSession BrokerSteps.
Import ListNotations.
Open Scope Z_scope.
Open Scope broker_scope.

(** The world is a clock, the number of things made and of submissions, and how
    far the GPU is: every reservation and mapping succeeds in place, memory is
    made where asked for, and the GPU does its work while the broker sleeps. *)

Record Sim := { sim_now : Z; sim_made : Z; sim_submitted : Z; sim_progress : Z }.

Definition sim_make (bytes : Z) (w : Sim) : option memory * Sim :=
  (Some {| mem_cpu := 0x4000000000 + sim_made w * 0x100000000; mem_bytes := bytes; mem_physical := sim_made w |},
   {| sim_now := sim_now w; sim_made := sim_made w + 1; sim_submitted := sim_submitted w; sim_progress := sim_progress w |}).

Definition sim_sleep (us : Z) (w : Sim) : Sim :=
  {| sim_now := Z.max 0 (sim_now w) + us * 1000; sim_made := sim_made w; sim_submitted := sim_submitted w; sim_progress := sim_submitted w |}.

Definition sim_submit (w : Sim) : Sim :=
  {| sim_now := sim_now w; sim_made := sim_made w; sim_submitted := sim_submitted w + 1; sim_progress := sim_progress w |}.

#[export] Instance sim_platform : Platform Sim := {|
  p_reserve := fun at_ _ _ _ w => ((0, at_), w);
  p_munmap := fun _ _ w => w;
  p_map_direct := fun at_ _ _ w => ((0, at_), w);
  p_mmap := fun at_ _ _ w => (at_, w);
  p_close := fun _ w => w;
  p_shm_open := fun w => (3, w);
  p_ftruncate := fun _ _ w => (0, w);
  p_usleep := sim_sleep;
  p_table_stats := fun w => ((0, (16384, 8192), (16384, 8192)), w);
  p_dmem_alloc := None;
  p_dmem_release := None;
  p_shared_alloc := None;
  p_shared_touch := None;
  p_memory_alloc := fun bytes _ _ w => sim_make bytes w;
  p_memory_free := fun _ w => w;
  p_memory_zero := fun _ w => w;
  p_available := fun w => (Z.shiftl 12 30, w);
  p_grant_gpu := fun _ _ w => (true, w);
  p_now := fun w => (Z.max 0 (sim_now w), w);
  p_read_word := fun _ w => (sim_progress w, w);
  p_write_words := fun _ _ w => w;
  p_copy := fun _ _ _ w => w;
  p_submit := fun _ _ w => (0, sim_submit w);
  p_suspend_point := fun w => w;
  p_ts_start_words := 6;
  p_ts_end_words := 6;
  p_ts_slot_bytes := 16;
  p_ts_start := fun _ _ w => w;
  p_ts_end := fun _ _ w => w;
  p_set_tess := fun _ _ w => (0, w);
  p_set_offchip := fun _ _ w => (0, w);
  p_vrange_reserve := fun bytes _ _ _ w => sim_make bytes w;
  p_vrange_release := fun _ w => w;
  p_vrange_bind := fun _ _ _ _ w => (true, w);
  p_vrange_unbind := fun _ _ w => (true, w);
  p_present_display := fun _ w => (0, w);
  p_present_window := fun _ w => (0, w);
  p_packet_pair := fun w => (Some (4, 5), w);
  p_thread := fun w => (true, w);
  p_absent := fun _ w => (true, w);
  p_display_close := fun w => (true, w);
  p_desktop_windows := true
|}.

Lemma sim_lawful : lawful sim_platform.
Proof.
  split; [|cbn; lia]. intros bytes alignment window w mem w' E _. change (sim_make bytes w = (Some mem, w')) in E. unfold sim_make in E.
  apply pair_inj in E as [E _]. apply (f_equal (option_map mem_bytes)) in E. cbn [option_map mem_bytes] in E. congruence.
Qed.

Definition sim_config : Config :=
  {| cf_host_limit := PW_GPU_LIMIT; cf_retain_on_failure := false; cf_test_fail_submit := 0; cf_timestamps := false; cf_owner_pid := 1;
     cf_local_memory := true; cf_console_model := 1; cf_window_base := 0x200000000; cf_window_bytes := 0x100000000 |}.

(** A request: its operation, number, address, size and arguments. *)
Definition ask (o : operation) (sequence address bytes arg0 arg1 arg2 : Z) : PwGpuMessage :=
  {| m_magic := PW_GPU_MAGIC; m_operation := o; m_sequence := sequence; m_status := 0; m_address := address; m_bytes := bytes;
     m_arg0 := arg0; m_arg1 := arg1; m_arg2 := arg2; m_arg3 := 0 |}.

Definition sim_world : Sim := {| sim_now := 0; sim_made := 0; sim_submitted := 0; sim_progress := 0 |}.

(** The broker with both ranges reserved. *)
Definition sim_start : Shared Sim := match host_ranges_reserve (boot sim_world) with Returns _ s => s | _ => boot sim_world end.

Lemma sim_start_stopped : stopped sim_start.
Proof.
  unfold sim_start. pose proof (host_range_reserve_ok (P := sim_platform) 0 (or_introl eq_refl) (boot sim_world) (boot_stopped sim_world)) as H0.
  unfold host_ranges_reserve, mbind. destruct (host_range_reserve 0 (boot sim_world)) as [? s1| | |]; try apply boot_stopped.
  pose proof (host_range_reserve_ok (P := sim_platform) 1 (or_intror eq_refl) s1 H0) as H1.
  destruct (host_range_reserve 1 s1) as [? s2| | |]; [exact H1|apply boot_stopped..].
Qed.
