(* ===== verification/BrokerProgress.v ===== *)
(** * Progress: what the fence lets go, and waits that end

    One [reap] takes from the ring exactly what the GPU has passed and releases
    exactly the buffers that waited for it; [drain] returns within its timeout
    whatever the GPU does, and once the GPU has passed the last submission
    nothing stays behind. *)

From Stdlib Require Import ZArith List Bool Lia Sorting.Permutation.
From S2P Require Import Prelude Bytes BrokerProtocol HostRange BrokerState BrokerMemory BrokerFences BrokerLogic BrokerOrder BrokerBuffers.
From S2P Require Import BrokerInvariant BrokerRequests BrokerServe BrokerRun BrokerSession BrokerSteps BrokerSim.
Import ListNotations.
Open Scope Z_scope.
Open Scope broker_scope.

(** ** Code that always comes back *)

Section Plain.
Context {W : Type}.

(** Neither retained nor out of fuel. *)
Definition plain {A : Type} (m : M W A) : Prop := forall s, match m s with Retained | OutOfFuel => False | _ => True end.

Lemma plain_ret {A : Type} (a : A) : plain (ret a).
Proof. intros s. exact I. Qed.

Lemma plain_bind {A B : Type} (m : M W A) (k : A -> M W B) : plain m -> (forall a, plain (k a)) -> plain (mbind m k).
Proof. intros H K s. unfold mbind. specialize (H s). destruct (m s) as [a s'| | |]; auto. apply K. Qed.

Lemma plain_call {A : Type} (f : W -> A * W) : plain (call f).
Proof. intros s. unfold call. destruct (f (s_world s)). exact I. Qed.

Lemma plain_own {A : Type} (m : M W A) : (forall s, exists a s', m s = Returns a s') -> plain m.
Proof. intros H s. destruct (H s) as (a & s' & ->). exact I. Qed.

Lemma plain_get_host i : plain (get_host i).
Proof. intros s. unfold get_host. destruct (_ || _); exact I. Qed.
End Plain.

Ltac plain_one :=
  match goal with
  | |- plain (match ?x with _ => _ end) => destruct x
  | |- plain (let _ := _ in _) => cbv zeta
  | |- plain (mbind _ _) => apply plain_bind; [|intros ?]
  | |- plain (ret _) => apply plain_ret
  | |- plain (call _) => apply plain_call
  | |- plain (effect _) => apply plain_call
  | |- plain (get_host _) => apply plain_get_host
  | |- plain (fun _ => Faults) => intros ?; exact I
  | |- plain get => apply plain_own; intros ?; eexists _, _; reflexivity
  | |- plain get_fences => apply plain_own; intros ?; eexists _, _; reflexivity
  | |- plain (set_fences _) => apply plain_own; intros ?; eexists _, _; reflexivity
  | |- plain (set_host _ _) => apply plain_own; intros ?; eexists _, _; reflexivity
  | |- plain (count_ _) => apply plain_own; intros ?; eexists _, _; reflexivity
  | |- plain (get_cursor _) => apply plain_own; intros ?; eexists _, _; reflexivity
  | |- plain (set_cursor _ _) => apply plain_own; intros ?; eexists _, _; reflexivity
  | |- plain (set_test_submissions _) => apply plain_own; intros ?; eexists _, _; reflexivity
  | H : _ |- plain _ => apply H
  end.
Ltac plain_code := repeat plain_one.

Section Reaping.
Context {W : Type} {P : Platform W}.

Lemma release_plain b : plain (W := W) (release b).
Proof. unfold release, reserve_again, give_to, close_handles, dmem_give_back. plain_code. Qed.

Lemma reap_ring_plain now ring : plain (W := W) (reap_ring now ring).
Proof. induction ring as [|e ring IH]; cbn [reap_ring]; unfold staging_back, staging_free, count_staging; plain_code. Qed.

Lemma reap_deferred_plain fuel now : forall kept_ rest, plain (W := W) (reap_deferred fuel now kept_ rest).
Proof.
  pose proof release_plain as R. induction fuel as [|fuel IH]; intros kept_ rest; cbn [reap_deferred]; [apply plain_ret|].
  destruct rest as [|d rest]; [apply plain_ret|]. destruct (done _ _); [apply plain_bind; [apply R|intros ?]|]; apply IH.
Qed.

Lemma reap_plain : plain (W := W) reap.
Proof.
  unfold reap, completed. apply plain_bind; [plain_code|intros f]. destruct (_ =? 0); [apply plain_ret|].
  apply plain_bind; [plain_code|intros now]. apply plain_bind; [apply reap_ring_plain|intros ?].
  apply plain_bind; [apply reap_deferred_plain|intros left]. plain_code.
Qed.

(** *** What is released *)

(** Every buffer released, one after another. *)
Fixpoint releases (buffers : list Buffer) : M W unit :=
  match buffers with [] => ret tt | b :: rest => do* release b in releases rest end.

(** The loop over the waiting buffers is the releases of those let go, whatever
    the state it runs in. *)
Lemma reap_deferred_releases now fuel : forall kept_ rest, (List.length rest <= fuel)%nat ->
  exists gone left, Permutation (kept_ ++ rest) (gone ++ left) /\ Forall (fun d => done (d_seq d) now = true) gone /\
    (forall s, reap_deferred fuel now kept_ rest s = (do* releases (map d_buffer gone) in ret left) s).
Proof.
  induction fuel as [|fuel IH]; intros kept_ rest Hf.
  - destruct rest; [|cbn in Hf; lia]. exists [], (kept_ ++ []). auto.
  - cbn [reap_deferred]. destruct rest as [|d rest]; [exists [], kept_; rewrite app_nil_r; auto|]. destruct (done (d_seq d) now) eqn:Dn.
    + fold (moved rest). destruct (IH kept_ (moved rest)) as (gone & left & G1 & G2 & G3); [rewrite <- (Permutation_length (moved_perm rest)); cbn in Hf; lia|].
      exists (d :: gone), left. split; [cbn; rewrite <- Permutation_middle; constructor; rewrite (moved_perm rest); exact G1|]. split; [constructor; assumption|].
      intros s. cbn [map releases]. unfold mbind in *. destruct (release (d_buffer d) s) as [? s1| | |]; [apply G3|reflexivity..].
    + destruct (IH (kept_ ++ [d]) rest ltac:(cbn in Hf; lia)) as (gone & left & G1 & G2 & G3). exists gone, left. rewrite <- app_assoc in G1. auto.
Qed.

(** The direct memory given back so far, or that the kernel would not take back. *)
Definition dmem_returned (s : Shared W) : Z := u64 (n_dmem_freed (s_counters s) + n_dmem_free_failed (s_counters s)).

Definition dmem_kept {A : Type} (m : M W A) : Prop := forall s a s', m s = Returns a s' -> dmem_returned s' = dmem_returned s.

Lemma dmem_kept_bind {A B : Type} (m : M W A) (k : A -> M W B) : dmem_kept m -> (forall a, dmem_kept (k a)) -> dmem_kept (mbind m k).
Proof.
  intros H K s b s' E. unfold mbind in E. destruct (m s) as [a s1| | |] eqn:F; try discriminate. rewrite (K a _ _ _ E). apply (H _ _ _ F).
Qed.

Lemma dmem_kept_ret {A : Type} (a : A) : dmem_kept (ret a).
Proof. intros s b s' E. injection E as <- <-. reflexivity. Qed.

Lemma dmem_kept_call {A : Type} (f : W -> A * W) : dmem_kept (call f).
Proof. intros s b s' E. unfold call in E. destruct (f (s_world s)). injection E as <- <-. reflexivity. Qed.

Lemma dmem_kept_get_host i : dmem_kept (get_host i).
Proof. intros s b s' E. unfold get_host in E. destruct (_ || _); [|discriminate]. now injection E as <- <-. Qed.
Lemma dmem_kept_set_host i r : dmem_kept (set_host i r).
Proof. intros s b s' E. unfold set_host in E. destruct (_ =? _); injection E as <- <-; reflexivity. Qed.
Lemma dmem_kept_get_fences : dmem_kept get_fences.
Proof. intros s b s' E. injection E as <- <-. reflexivity. Qed.
Lemma dmem_kept_set_fences f : dmem_kept (set_fences f).
Proof. intros s b s' E. injection E as <- <-. reflexivity. Qed.
Lemma dmem_kept_staging a b c d e : dmem_kept (count_staging a b c d e).
Proof. intros s x s' E. injection E as <- <-. reflexivity. Qed.

Ltac dmem_kept_code :=
  repeat match goal with
  | |- dmem_kept (match ?x with _ => _ end) => destruct x
  | |- dmem_kept (let _ := _ in _) => cbv zeta
  | |- dmem_kept (mbind _ _) => apply dmem_kept_bind; [|intros ?]
  | |- dmem_kept (ret _) => apply dmem_kept_ret
  | |- dmem_kept (call _) => apply dmem_kept_call
  | |- dmem_kept (effect _) => apply dmem_kept_call
  | |- dmem_kept (get_host _) => apply dmem_kept_get_host
  | |- dmem_kept (set_host _ _) => apply dmem_kept_set_host
  | |- dmem_kept get_fences => apply dmem_kept_get_fences
  | |- dmem_kept (set_fences _) => apply dmem_kept_set_fences
  | |- dmem_kept (count_staging _ _ _ _ _) => apply dmem_kept_staging
  end.

Lemma reap_ring_dmem now ring : dmem_kept (reap_ring now ring).
Proof. induction ring as [|e ring IH]; cbn [reap_ring]; unfold staging_back, staging_free; dmem_kept_code; apply IH. Qed.

Lemma dmem_give_back_counts offset bytes s s' : dmem_give_back offset bytes s = Returns tt s' -> dmem_returned s' = u64 (dmem_returned s + 1).
Proof.
  intros E. unfold dmem_give_back in E. unfold dmem_returned. destruct p_dmem_release as [f|].
  - unfold mbind, call in E. destruct (f offset bytes (s_world s)) as [rc w]. unfold count_ in E. injection E as <-. cbn. destruct (rc =? 0); rewrite u64_add_l.
    + rewrite u64_add_l. f_equal. lia.
    + rewrite Z.add_comm, u64_add_l. f_equal. lia.
  - unfold count_ in E. injection E as <-. cbn. rewrite Z.add_comm, !u64_add_l. f_equal. lia.
Qed.

Definition has_dmem (b : Buffer) : Z := if 0 <=? b_dmem b then 1 else 0.

Lemma release_counts b s s' : release b s = Returns tt s' -> dmem_returned s' = u64 (dmem_returned s + has_dmem b).
Proof.
  intros E. unfold release in E. match type of E with mbind ?m _ _ = _ => assert (K : dmem_kept m) by (unfold reserve_again, give_to; dmem_kept_code) end.
  unfold mbind at 1 in E. match type of E with match ?m with _ => _ end = _ => destruct m as [[] s1| | |] eqn:F; try discriminate end.
  apply K in F. rewrite <- F. clear K F. unfold close_handles, mbind in E. unfold has_dmem.
  assert (E1 : exists s2, dmem_returned s2 = dmem_returned s1 /\ (if 0 <=? b_dmem b then dmem_give_back (b_dmem b) (b_bytes b) else ret tt) s2 = Returns tt s').
  { destruct (0 <=? b_fd b); [exists {| s_world := p_close (b_fd b) (s_world s1); s_window := s_window s1; s_high := s_high s1; s_fences := s_fences s1; s_wedged := s_wedged s1;
      s_counters := s_counters s1; s_next_window := s_next_window s1; s_next_high := s_next_high s1; s_test_submissions := s_test_submissions s1 |}; split; [reflexivity|exact E]|exists s1; auto]. }
  destruct E1 as (s2 & <- & E1). destruct (0 <=? b_dmem b); [now apply dmem_give_back_counts in E1|]. injection E1 as <-. unfold dmem_returned. now rewrite Z.add_0_r, u64_u64.
Qed.

Lemma releases_count l : forall s s', releases l s = Returns tt s' -> dmem_returned s' = u64 (dmem_returned s + fold_right Z.add 0 (map has_dmem l)).
Proof.
  induction l as [|b l IH]; intros s s' E; cbn [releases map fold_right] in *.
  - injection E as <-. unfold dmem_returned. now rewrite Z.add_0_r, u64_u64.
  - unfold mbind in E. destruct (release b s) as [[] s1| | |] eqn:F; try discriminate. rewrite (IH _ _ E), (release_counts _ _ _ F), u64_add_l. f_equal. lia.
Qed.

(** [reap] with its page, told which buffers it releases: it is the reads of the
    fence and of the ring, the releases of those buffers, and what is left. *)
Lemma reap_releases v w1 (s s' : Shared W) : mem_cpu (f_page (s_fences s)) <> 0 -> p_read_word (mem_cpu (f_page (s_fences s))) (s_world s) = (v, w1) ->
  reap s = Returns tt s' ->
  exists gone left, Permutation (f_deferred (s_fences s)) (gone ++ left) /\ Forall (fun d => done (d_seq d) v = true) gone /\
    f_deferred (s_fences s') = left /\ dmem_returned s' = u64 (dmem_returned s + fold_right Z.add 0 (map has_dmem (map d_buffer gone))) /\
    (let* now := completed in do* reap_ring now (f_ring (s_fences s)) in do* releases (map d_buffer gone) in
     let* f' := get_fences in set_fences (with_deferred f' left)) s = Returns tt s'.
Proof.
  intros Hp Rd E. destruct (reap_deferred_releases v (List.length (f_deferred (s_fences s))) [] (f_deferred (s_fences s)) ltac:(lia)) as (gone & left & G1 & G2 & G3).
  exists gone, left. split; [exact G1|]. split; [exact G2|]. unfold reap in E. unfold mbind at 1, get_fences at 1 in E.
  apply Z.eqb_neq in Hp. rewrite Hp in E. unfold completed, mbind, get_fences, call in *. rewrite Rd in *.
  match type of E with context [reap_ring v ?r ?t] => set (s1 := t) in *; destruct (reap_ring v r s1) as [[] s2| | |] eqn:Rr; try discriminate end.
  rewrite G3 in E. unfold mbind in E. destruct (releases (map d_buffer gone) s2) as [[] s3| | |] eqn:Rl; try discriminate. cbn in E. injection E as <-.
  split; [reflexivity|]. split; [|reflexivity]. apply reap_ring_dmem in Rr. apply releases_count in Rl.
  change (dmem_returned (_ s3)) with (dmem_returned s3). unfold dmem_returned in *. cbn. rewrite Rl, Rr. reflexivity.
Qed.

(** C31: One [reap] lets go of exactly what the GPU has passed.  When the
    value read from the fence page is that of a submission in the ring, or
    older than all of them, and every waiting buffer waits for a submission in
    the ring: the submissions left are exactly those not done, oldest first;
    the waiting buffers divide into those whose submission is done and those
    whose is not, in whatever order the loop leaves them; the first are
    released, each once and after the ring's staging has gone back - the reap
    is those calls of [release] and no others, and the direct memory behind
    them is given back or counted as refused, each once; the others still wait
    for a submission in the ring; and if the GPU has reached the last number
    issued, nothing is left at all. *)
Theorem reap_exact outside v w1 (s : Shared W) :
  broker_at outside false s -> mem_cpu (f_page (s_fences s)) <> 0 ->
  p_read_word (mem_cpu (f_page (s_fences s))) (s_world s) = (v, w1) -> fence_value (s_fences s) v ->
  Forall (fun d => In (d_seq d) (ring_seqs (s_fences s))) (f_deferred (s_fences s)) ->
  exists s', reap s = Returns tt s' /\ broker_at outside false s' /\
    let f := s_fences s in
    let f' := s_fences s' in
    (exists gone, f_ring f = gone ++ f_ring f' /\ Forall (fun e => done (in_seq e) v = true) gone) /\
    Forall (fun e => done (in_seq e) v = false) (f_ring f') /\
    (exists gone, Permutation (f_deferred f) (gone ++ f_deferred f') /\ Forall (fun d => done (d_seq d) v = true) gone /\
       (let* now := completed in do* reap_ring now (f_ring f) in do* releases (map d_buffer gone) in
        let* g := get_fences in set_fences (with_deferred g (f_deferred f'))) s = Returns tt s' /\
       dmem_returned s' = u64 (dmem_returned s + fold_right Z.add 0 (map has_dmem (map d_buffer gone)))) /\
    Forall (fun d => done (d_seq d) v = false /\ In (d_seq d) (ring_seqs f')) (f_deferred f') /\
    (f_ring f <> [] -> v = f_issued f -> idle f' = true).
Proof.
  intros Hs Hp Rd Fv Df. pose proof Hs as [[A [Q1 Q2 Q3 (prev & Q4 & Q5 & Q6)]] V].
  pose proof (reap_ok outside (s_fences s) (s_wedged s) (s_world s) s (conj eq_refl A)) as R.
  pose proof (reap_keeps outside false s Hs) as K. pose proof (reap_plain s) as T. destruct (reap s) as [[] s'| | |] eqn:Rp; try contradiction.
  exists s'. split; [reflexivity|]. split; [exact K|]. cbv zeta.
  destruct R as [_ [(Z0 & _)|(v' & w1' & Rd' & R1 & R2 & R3 & R4 & gone & R5 & R6 & R7)]]; [contradiction|].
  rewrite Rd in Rd'. apply pair_inj in Rd' as [<- <-].
  assert (Q2' : size (f_ring (s_fences s)) <= 2 ^ 29) by (unfold kRing in Q2; lia).
  destruct (drop_done_exact prev v (f_ring (s_fences s)) Q4 Q5 Q2' Fv) as [D1 D2]. rewrite <- R1 in D1, D2.
  destruct (drop_done_suffix v (f_ring (s_fences s))) as (old & E1 & E2). rewrite <- R1 in E1.
  assert (Left : Forall (fun d => done (d_seq d) v = false /\ In (d_seq d) (ring_seqs (s_fences s'))) (f_deferred (s_fences s'))).
  { apply Forall_forall. intros d Id. rewrite Forall_forall in R7. split; [apply R7, Id|]. apply D2; [|apply R7, Id].
    rewrite Forall_forall in Df. apply Df. eapply Permutation_in; [symmetry; exact R5|]. apply in_or_app. right. exact Id. }
  split; [eauto|]. split; [exact D1|]. split.
  { destruct (reap_releases v w1 s s' Hp Rd Rp) as (gone1 & left1 & G1 & G2 & G3 & G4 & G5). subst left1. exists gone1. auto. }
  split; [exact Left|].
  intros Nr Ev. assert (Rn : f_ring (s_fences s') = []).
  { destruct (f_ring (s_fences s')) as [|e ring'] eqn:E; [reflexivity|exfalso].
    assert (La : done (last (ring_seqs (s_fences s)) prev) v = true) by (rewrite Q6, <- Ev by assumption; apply done_refl).
    unfold ring_seqs in La. rewrite E1, map_app, (last_app_nonempty _ _ _ (in_seq e)) in La by discriminate.
    assert (In1 : In (last (map in_seq (e :: ring')) (in_seq e)) (map in_seq (e :: ring'))).
    { clear. generalize (in_seq e) at 1. intros d. cbn [map]. revert e d. induction ring' as [|x r IH]; intros e d; [left; reflexivity|right; apply IH]. }
    apply in_map_iff in In1 as (x & Ex & Ix). rewrite Forall_forall in D1. specialize (D1 x Ix). rewrite Ex in D1. congruence. }
  unfold idle. rewrite Rn. destruct (f_deferred (s_fences s')) as [|d l]; [reflexivity|].
  inversion Left as [|? ? [_ I] _]; subst. unfold ring_seqs in I. rewrite Rn in I. destruct I.
Qed.
End Reaping.

(** ** Waits end *)

Section Clock.
Context {W : Type} {P : Platform W} (clock : W -> Z).

(** The clock [p_now] reads never goes back over the calls a wait makes, and a
    sleep takes at least its time. *)
Record clocked : Prop := {
  ck_now : forall w, 0 <= clock w /\ fst (p_now w) = clock w /\ clock w <= clock (snd (p_now w));
  ck_sleep : forall us w, clock w + us * 1000 <= clock (p_usleep us w);
  ck_read : forall at_ w, clock w <= clock (snd (p_read_word at_ w));
  ck_free : forall m w, clock w <= clock (p_memory_free m w);
  ck_reserve : forall at_ bytes flags alignment w, clock w <= clock (snd (p_reserve at_ bytes flags alignment w));
  ck_munmap : forall at_ bytes w, clock w <= clock (p_munmap at_ bytes w);
  ck_close : forall fd w, clock w <= clock (p_close fd w);
  ck_release : forall f, p_dmem_release = Some f -> forall offset bytes w, clock w <= clock (snd (f offset bytes w))
}.

Context (Ck : clocked).

(** Code after which the clock shows no less. *)
Definition forward {A : Type} (m : M W A) : Prop := forall s a s', m s = Returns a s' -> clock (s_world s) <= clock (s_world s').

Lemma forward_bind {A B : Type} (m : M W A) (k : A -> M W B) : forward m -> (forall a, forward (k a)) -> forward (mbind m k).
Proof.
  intros H K s b s' E. unfold mbind in E. destruct (m s) as [a s1| | |] eqn:F; try discriminate.
  specialize (H _ _ _ F). specialize (K a _ _ _ E). lia.
Qed.

Lemma forward_ret {A : Type} (a : A) : forward (ret a).
Proof. intros s b s' E. injection E as <- <-. lia. Qed.

Lemma forward_call {A : Type} (f : W -> A * W) : (forall w, clock w <= clock (snd (f w))) -> forward (call f).
Proof. intros H s b s' E. unfold call in E. specialize (H (s_world s)). destruct (f (s_world s)). injection E as <- <-. exact H. Qed.

Lemma forward_effect (f : W -> W) : (forall w, clock w <= clock (f w)) -> forward (effect f).
Proof. intros H. apply forward_call. exact H. Qed.

(** Code that only changes the broker's own state. *)
Lemma forward_still {A : Type} (m : M W A) : (forall s a s', m s = Returns a s' -> s_world s' = s_world s) -> forward m.
Proof. intros H s a s' E. rewrite (H _ _ _ E). lia. Qed.

Lemma get_host_forward i : forward (get_host i).
Proof. apply forward_still. intros s a s' E. unfold get_host in E. destruct (_ || _); [injection E as <- <-; reflexivity|discriminate]. Qed.

Ltac forward_code :=
  repeat match goal with
  | |- forward (match p_dmem_release with _ => _ end) => destruct p_dmem_release eqn:?
  | |- forward (match ?x with _ => _ end) => destruct x
  | |- forward (let _ := _ in _) => cbv zeta
  | |- forward (mbind _ _) => apply forward_bind; [|intros ?]
  | |- forward (ret _) => apply forward_ret
  | |- forward (get_host _) => apply get_host_forward
  | |- forward (effect _) => apply forward_effect; intros ?
  | |- forward (call _) => apply forward_call; intros ?
  | |- forward get_fences => apply forward_still; intros ? ? ? E; unfold get_fences, set_fences, set_host, count_ in E; injection E as <- <-; reflexivity
  | |- forward (set_fences _) => apply forward_still; intros ? ? ? E; unfold get_fences, set_fences, set_host, count_ in E; injection E as <- <-; reflexivity
  | |- forward (set_host _ _) => apply forward_still; intros ? ? ? E; unfold get_fences, set_fences, set_host, count_ in E; injection E as <- <-; reflexivity
  | |- forward (count_ _) => apply forward_still; intros ? ? ? E; unfold get_fences, set_fences, set_host, count_ in E; injection E as <- <-; reflexivity
  | |- _ <= _ => first [apply (ck_read Ck) | apply (ck_free Ck) | apply (ck_reserve Ck) | apply (ck_munmap Ck) | apply (ck_close Ck)
                       | eapply (ck_release Ck); eassumption]
  end.

Lemma release_forward b : forward (release b).
Proof. unfold release, reserve_again, give_to, close_handles, dmem_give_back. forward_code. Qed.

Lemma reap_ring_forward now ring : forward (reap_ring now ring).
Proof. induction ring as [|e ring IH]; cbn [reap_ring]; unfold staging_back, staging_free, count_staging; forward_code; apply IH. Qed.

Lemma reap_deferred_forward fuel now : forall kept_ rest, forward (reap_deferred fuel now kept_ rest).
Proof.
  induction fuel as [|fuel IH]; intros kept_ rest; cbn [reap_deferred]; [apply forward_ret|].
  destruct rest as [|d rest]; [apply forward_ret|]. destruct (done _ _); [apply forward_bind; [apply release_forward|intros ?]|]; apply IH.
Qed.

Lemma reap_forward : forward reap.
Proof.
  unfold reap, completed. apply forward_bind; [forward_code|intros f]. destruct (_ =? 0); [apply forward_ret|].
  apply forward_bind; [forward_code|intros now]. apply forward_bind; [apply reap_ring_forward|intros ?].
  apply forward_bind; [apply reap_deferred_forward|intros left]. forward_code.
Qed.

(** Fuel for every 50 microseconds left is enough. *)
Lemma drain_loop_ends fuel end_ : forall s, end_ - clock (s_world s) <= Z.of_nat fuel * 50000 ->
  match drain_loop fuel end_ s with Retained | OutOfFuel => False | _ => True end.
Proof.
  induction fuel as [|fuel IH]; intros s H; cbn [drain_loop]; unfold mbind at 1, get_fences at 1; (destruct (idle (s_fences s)); [exact I|]);
    unfold mbind at 1, call at 1; pose proof (ck_now Ck (s_world s)) as (N0 & N1 & N2); destruct (p_now (s_world s)) as [now w1]; cbn [fst snd] in *;
    (destruct (now <? end_) eqn:L; cbn [negb]; [to_prop|exact I]); [lia|].
  unfold mbind at 1, effect, call at 1. cbn. pose proof (ck_sleep Ck 50 w1) as Sl.
  match goal with |- context [mbind reap _ ?s1] => set (s2 := s1) end. unfold mbind.
  pose proof (reap_plain s2) as Pl. pose proof (reap_forward s2) as Fw. destruct (reap s2) as [[] s3| | |]; try contradiction; [|exact I].
  specialize (Fw _ _ eq_refl). cbn [s_world s2] in Fw. apply IH. lia.
Qed.

(** Enough fuel for a wait that starts now. *)
Lemma drain_fuel now timeout : 0 <= now -> 0 <= timeout -> u64 (now + timeout) - now <= Z.of_nat (Z.to_nat (timeout / 50000 + 1)) * 50000.
Proof.
  intros Hn Ht. rewrite Z2Nat.id by (pose proof (Z.div_pos timeout 50000 Ht ltac:(lia)); lia).
  pose proof (Z.div_mod timeout 50000 ltac:(lia)). pose proof (Z.mod_pos_bound timeout 50000 ltac:(lia)).
  assert (u64 (now + timeout) <= now + timeout) by (apply Z.mod_le; lia). lia.
Qed.

Lemma drain_plain timeout : 0 <= timeout -> plain (W := W) (drain timeout).
Proof.
  intros Ht. unfold drain. apply plain_bind; [apply reap_plain|intros ?]. apply plain_bind; [plain_code|intros f].
  destruct (idle f); [apply plain_ret|]. apply plain_bind; [plain_code|intros ?].
  intros s. unfold mbind, call. pose proof (ck_now Ck (s_world s)) as (N0 & N1 & N2). destruct (p_now (s_world s)) as [now w1]. cbn [fst snd] in *.
  match goal with |- context [drain_loop ?f ?e ?x] => pose proof (drain_loop_ends f e x) as D end.
  cbn [s_world] in D. pose proof (drain_fuel now timeout ltac:(lia) Ht). specialize (D ltac:(lia)).
  destruct (drain_loop _ _ _) as [? s1| | |]; auto; exact I.
Qed.

(** A wait for the GPU ends.  Whatever the GPU does, [drain] returns - it
    neither loops past its timeout nor stops the broker - in a state that keeps
    the invariant, and its answer is whether anything is still in flight or
    waiting. *)
Theorem drain_terminates outside w timeout (s : Shared W) :
  broker_at outside w s -> 0 <= timeout ->
  exists answer s', drain timeout s = Returns answer s' /\ broker_at outside w s' /\ (answer = true <-> idle (s_fences s') = true).
Proof.
  intros Hs Ht. pose proof (reap_keeps outside w s Hs) as R. pose proof (reap_plain s) as Pr. unfold drain, mbind at 1.
  destruct (reap s) as [[] s1| | |]; try contradiction. unfold mbind at 1, get_fences at 1. destruct (idle (s_fences s1)) eqn:I1.
  { exists true, s1. cbn. split; [reflexivity|]. split; [exact R|]. tauto. }
  unfold mbind at 1. cbn [set_fences].
  match goal with |- context [mbind (call p_now) _ ?x] => set (s2 := x) end.
  assert (H2 : broker_at outside w s2).
  { apply (set_alike outside w (with_drains (s_fences s1) (u64 (f_drains (s_fences s1) + 1)) (f_state_drains (s_fences s1))) s1). split; [repeat split|exact R]. }
  pose proof (triple_call (broker_at outside w) p_now (q_world _ (broker_quiet outside w)) s2 H2) as H3.
  unfold mbind at 1. unfold call in *. pose proof (ck_now Ck (s_world s2)) as (N0 & N1 & N2). destruct (p_now (s_world s2)) as [now w1]. cbn [fst snd] in *.
  match goal with |- context [mbind (drain_loop ?f ?e) _ ?x] => set (s3 := x) in *; set (fuel := f); set (end_ := e) end.
  assert (B : end_ - clock (s_world s3) <= Z.of_nat fuel * 50000).
  { unfold end_, fuel. cbn [s_world s3]. pose proof (drain_fuel now timeout ltac:(lia) Ht). lia. }
  pose proof (drain_loop_keeps outside w fuel end_ s3 H3) as K. pose proof (drain_loop_ends fuel end_ s3 B) as F1. unfold mbind at 1.
  destruct (drain_loop fuel end_ s3) as [? s4| | |]; try contradiction. cbn.
  exists (idle (s_fences s4)), s4. split; [reflexivity|]. split; [exact K|]. tauto.
Qed.
(** ** Every event is dealt with *)

Section Events.
Context (cf : Config) (Hr : cf_retain_on_failure cf = false).

Lemma gives_up_plain : plain (W := W) (gives_up cf).
Proof. unfold gives_up. rewrite Hr. apply plain_bind; [apply plain_own; intros ?; eexists _, _; reflexivity|intros ?; apply plain_ret]. Qed.

Lemma wait_plain : plain (W := W) (drain 5000000000).
Proof. apply drain_plain. lia. Qed.

Lemma map_host_plain c at_ bytes : plain (W := W) (map_host c at_ bytes).
Proof. unfold map_host, count_dmem, map_shared, shared_object, own_object, dmem_give_back. plain_code. Qed.

Lemma cursor_loop_plain attempts window bytes alignment : plain (W := W) (cursor_loop cf attempts window bytes alignment).
Proof. induction attempts as [|attempts IH]; cbn [cursor_loop]; plain_code. Qed.

Lemma allocate_plain c m : plain (W := W) (allocate cf c m).
Proof.
  pose proof map_host_plain as M0. pose proof cursor_loop_plain as C0.
  unfold allocate, allocate_local, allocate_ranged, allocate_cursor, host_buffer, reserve_again, give_to, close_handles, dmem_give_back. plain_code.
Qed.

Lemma free_buffer_plain c slot b : plain (W := W) (free_buffer cf c slot b).
Proof.
  pose proof release_plain as R0. pose proof reap_plain as R1. pose proof wait_plain as D0. pose proof gives_up_plain as G0. unfold free_buffer. plain_code.
Qed.

Lemma submit_plain c m : plain (W := W) (submit cf c m).
Proof.
  pose proof reap_plain as R1. pose proof wait_plain as D0. pose proof gives_up_plain as G0.
  unfold submit, fences_ready, stage, fill_staging, set_state, hand_over, broker_submit, staging_back, staging_free, count_staging. plain_code.
Qed.

Lemma vrange_reserve_plain c m : plain (W := W) (vrange_reserve c m).
Proof. unfold vrange_reserve. plain_code. Qed.

Lemma vrange_release_plain c m : plain (W := W) (vrange_release c m).
Proof. pose proof wait_plain as D0. unfold vrange_release. plain_code. Qed.

Lemma vrange_bind_plain c m bind : plain (W := W) (vrange_bind c m bind).
Proof. unfold vrange_bind. plain_code. Qed.

Lemma handle_plain k m : plain (W := W) (handle cf k m).
Proof.
  pose proof allocate_plain as A0. pose proof free_buffer_plain as F0. pose proof submit_plain as S0. pose proof vrange_reserve_plain as V0.
  pose proof vrange_release_plain as V1. pose proof vrange_bind_plain as V2.
  unfold handle, handle_init, dispatch, handle_alloc, handle_range, handle_free, handle_link, handle_window, handle_display, tell_room, local_offer, local_room.
  plain_code.
Qed.

Lemma serve_plain k whole delivered m : plain (W := W) (serve cf k whole delivered m).
Proof. pose proof handle_plain as H0. unfold serve, kick. plain_code. Qed.

Lemma settle_plain : plain (W := W) (settle cf).
Proof. pose proof wait_plain as D0. pose proof gives_up_plain as G0. unfold settle. plain_code. Qed.

Lemma close_client_plain b cookie service : plain (W := W) (close_client cf b cookie service).
Proof.
  pose proof settle_plain as S0. pose proof gives_up_plain as G0.
  assert (A0 : forall turns, plain (W := W) (await_absence turns service)) by (intros turns; induction turns; cbn [await_absence]; plain_code).
  assert (R0 : forall ranges, plain (W := W) (release_ranges ranges)) by (intros ranges; induction ranges; cbn [release_ranges]; plain_code).
  assert (B0 : forall buffers, plain (W := W) (release_buffers buffers)).
  { pose proof release_plain as L0. intros buffers; induction buffers; cbn [release_buffers]; plain_code. }
  unfold close_client, process_gone. plain_code.
Qed.

Lemma stop_plain b : plain (W := W) (stop cf b).
Proof.
  pose proof settle_plain as S0. pose proof gives_up_plain as G0.
  assert (F0 : forall spares, plain (W := W) (free_spares spares)) by (intros spares; induction spares; cbn [free_spares]; unfold staging_free, count_staging; plain_code).
  unfold stop, fences_reset, host_ranges_release, host_range_release, unmap. plain_code.
Qed.

Lemma step_plain b e : plain (W := W) (step cf b e).
Proof.
  pose proof serve_plain as S0. pose proof close_client_plain as C0. pose proof stop_plain as T0. pose proof reap_plain as R0.
  unfold step, open_for, open_client. plain_code.
Qed.

Lemma steps_plain events : forall b, plain (W := W) (steps cf events b).
Proof. pose proof step_plain as S0. induction events as [|e events IH]; intros b; cbn [steps]; plain_code. Qed.

Lemma session_plain events : plain (W := W) (session cf events).
Proof. pose proof steps_plain as S0. unfold session, host_ranges_reserve, host_range_reserve, unmap. plain_code. Qed.
End Events.
End Clock.

(** ** Witnesses *)

Lemma sim_clocked : clocked (fun w => Z.max 0 (sim_now w)).
Proof. constructor; cbn; intros; try lia. discriminate. Qed.

(** One submission in flight, with number 1, and a buffer waiting for it; the
    GPU is as far as [progress]. *)
Definition sim_waiting : Buffer :=
  {| b_address := PW_GPU_HOST_HIGH_BASE; b_bytes := 16384; b_token := 1; b_fd := 3; b_local := false; b_ranged := true; b_memory := no_memory;
     b_dmem := 0x8000; b_pid := 100 |}.

Definition sim_fences : Fences :=
  {| f_page := {| mem_cpu := 0x4000000000; mem_bytes := 16384; mem_physical := 0 |}; f_issued := 1; f_head := 0;
     f_ring := [{| in_seq := 1; in_staging := {| mem_cpu := 0x4100000000; mem_bytes := 0x10000; mem_physical := 1 |} |}];
     f_deferred := [{| d_buffer := sim_waiting; d_seq := 1 |}]; f_staging := no_staging; f_tess := 0; f_tess_bytes := 0;
     f_granularity := 0; f_buffering := 0; f_offchip := false; f_drains := 0; f_state_drains := 0; f_kick := false; f_kicks := 0; f_stamps := no_memory |}.

Definition sim_high : HostRange := snd (hr_take (s_high sim_start) 16384 (2 ^ 14)).

Definition sim_busy (progress : Z) : Shared Sim :=
  {| s_world := {| sim_now := 0; sim_made := 2; sim_submitted := 1; sim_progress := progress |}; s_window := s_window sim_start; s_high := sim_high;
     s_fences := sim_fences; s_wedged := false;
     s_counters := {| n_staging_allocs := 1; n_staging_frees := 0; n_staging_reuses := 0; n_staging_refused := 0; n_staging_held := 0x10000;
       n_staging_peak := 0x10000; n_dmem_made := 0; n_dmem_freed := 0; n_dmem_refused := 0; n_dmem_free_failed := 0; n_dmem_bytes_made := 0 |};
     s_next_window := 0x240000000; s_next_high := 0x5100000000; s_test_submissions := 0 |}.

Lemma sim_busy_ok progress : broker_at [] false (sim_busy progress).
Proof.
  destruct sim_start_stopped as ([A B _ D E] & _).
  pose proof (holding_take _ _ 16384 14 B ltac:(lia) ltac:(lia)) as T.
  split; [|reflexivity]. split.
  - split; [|split; [constructor; cbn; try reflexivity; [exact no_staging_ok|repeat constructor; cbn; lia]|split; [reflexivity|split; [split; auto|reflexivity]]]].
    constructor; [exact A|exact T| |exact D|exact E]. constructor; [|constructor]. intros _. split; [reflexivity|right; reflexivity].
  - constructor; cbn; [lia|vm_compute; discriminate|vm_compute; discriminate|]. exists 0. repeat split. lia.
Qed.

Lemma reap_exact_witness :
  exists s', reap (sim_busy 1) = Returns tt s' /\ broker_at [] false s' /\ idle (s_fences s') = true /\ dmem_returned s' = 1.
Proof.
  destruct (reap_exact [] 1 {| sim_now := 0; sim_made := 2; sim_submitted := 1; sim_progress := 1 |} (sim_busy 1)) as (s' & R & B & _ & _ & _ & _ & I).
  - apply sim_busy_ok.
  - discriminate.
  - reflexivity.
  - left. left. reflexivity.
  - repeat constructor.
  - exists s'. split; [exact R|]. split; [exact B|]. split; [apply I; [discriminate|reflexivity]|].
    assert (D : match reap (sim_busy 1) with Returns _ t => dmem_returned t = 1 | _ => False end) by (vm_compute; reflexivity). rewrite R in D. exact D.
Defined.

Lemma drain_terminates_witness :
  exists answer s', drain 5000000000 (sim_busy 0) = Returns answer s' /\ broker_at [] false s' /\ (answer = true <-> idle (s_fences s') = true).
Proof. apply (drain_terminates (fun w => Z.max 0 (sim_now w)) sim_clocked [] false); [apply sim_busy_ok|lia]. Defined.

(** ** A freed buffer waits for the GPU *)

Section Waiting.
Context {W : Type} {P : Platform W}.

(** Code that leaves the fences alone. *)
Definition fenceless {A : Type} (m : M W A) : Prop := forall s a s', m s = Returns a s' -> s_fences s' = s_fences s.

Lemma fenceless_bind {A B : Type} (m : M W A) (k : A -> M W B) : fenceless m -> (forall a, fenceless (k a)) -> fenceless (mbind m k).
Proof.
  intros H K s b s' E. unfold mbind in E. destruct (m s) as [a s1| | |] eqn:F; try discriminate. rewrite (K a _ _ _ E). apply (H _ _ _ F).
Qed.

Lemma fenceless_ret {A : Type} (a : A) : fenceless (ret a).
Proof. intros s b s' E. injection E as <- <-. reflexivity. Qed.

Lemma fenceless_call {A : Type} (f : W -> A * W) : fenceless (call f).
Proof. intros s b s' E. unfold call in E. destruct (f (s_world s)). injection E as <- <-. reflexivity. Qed.

Lemma release_fenceless b : fenceless (release b).
Proof.
  unfold release, reserve_again, give_to, close_handles, dmem_give_back.
  repeat match goal with
  | |- fenceless (match ?x with _ => _ end) => destruct x
  | |- fenceless (let _ := _ in _) => cbv zeta
  | |- fenceless (mbind _ _) => apply fenceless_bind; [|intros ?]
  | |- fenceless (ret _) => apply fenceless_ret
  | |- fenceless (call _) => apply fenceless_call
  | |- fenceless (effect _) => apply fenceless_call
  | |- fenceless (get_host _) => let E := fresh in intros ? ? ? E; unfold get_host in E; destruct (_ || _); [injection E as <- <-; reflexivity|discriminate]
  | |- fenceless (set_host _ _) => let E := fresh in intros ? ? ? E; unfold set_host in E; injection E as <- <-; reflexivity
  | |- fenceless (count_ _) => let E := fresh in intros ? ? ? E; unfold count_ in E; injection E as <- <-; reflexivity
  end.
Qed.

(** With work in flight the buffer is last in line, for the last number issued. *)
Definition waits (b : Buffer) (s : Shared W) : Prop :=
  s_wedged s = false -> f_ring (s_fences s) <> [] ->
  exists before, f_deferred (s_fences s) = before ++ [{| d_buffer := b; d_seq := f_issued (s_fences s) |}].

Lemma release_waits (c c' : Client) b (s s' : Shared W) : f_ring (s_fences s) = [] -> (do* release b in ret c) s = Returns c' s' -> waits b s'.
Proof.
  intros R E. unfold mbind in E. destruct (release b s) as [? s1| | |] eqn:F; try discriminate. injection E as <- <-.
  intros _ N. rewrite (release_fenceless b _ _ _ F) in N. contradiction.
Qed.

Lemma free_buffer_waits cf c slot b s c' s' : free_buffer cf c slot b s = Returns c' s' -> waits b s'.
Proof.
  unfold free_buffer. cbv zeta. unfold mbind at 1, get. intros E. destruct (s_wedged s) eqn:V.
  { injection E as <- <-. intros X. congruence. }
  unfold mbind at 1 in E. destruct (reap s) as [? s1| | |]; try discriminate. unfold mbind at 1, get_fences at 1 in E.
  destruct (f_ring (s_fences s1)) as [|e ring] eqn:R1; [apply (release_waits _ _ _ _ _ R1 E)|].
  unfold mbind at 1 in E. match type of E with context [match ?x with Returns _ _ => _ | _ => _ end] => destruct x as [stalled s2| | |] end; try discriminate.
  destruct stalled.
  - unfold gives_up, mbind in E. destruct (cf_retain_on_failure cf); [discriminate|]. injection E as <- <-. intros X. discriminate.
  - unfold mbind at 1, get_fences at 1 in E. destruct (f_ring (s_fences s2)) as [|e2 ring2] eqn:R2; [apply (release_waits _ _ _ _ _ R2 E)|].
    unfold mbind in E. injection E as <- <-. intros _ _. eexists. reflexivity.
Qed.

Lemma last_issued w f : queue_ok w f -> w = false -> f_ring f <> [] -> In (f_issued f) (ring_seqs f).
Proof.
  intros [_ _ _ (prev & _ & _ & L)] V N. rewrite <- (L V N). unfold ring_seqs. destruct (f_ring f) as [|e ring]; [contradiction|]. cbn [map].
  generalize (in_seq e), (map in_seq ring). intros a l. clear. revert a. induction l as [|x l IH]; intros a; [left; reflexivity|right; apply IH].
Qed.

(** C9: Memory the GPU may still use is not given back.  Freeing a buffer
    returns, keeps the invariant and takes the buffer from the client's account;
    and if work is in flight afterwards, the buffer is not released: it waits,
    last in line, for the last submission issued, which is one of those in
    flight. *)
Theorem freed_buffer_waits clock cf c slot b outside (s : Shared W) :
  clocked clock -> cf_retain_on_failure cf = false -> placed_right b -> broker_at (b :: outside) false s ->
  exists s', free_buffer cf c slot b s = Returns (freed c slot b) s' /\ broker_ok outside s' /\
    (s_wedged s' = false -> f_ring (s_fences s') <> [] ->
     exists before, f_deferred (s_fences s') = before ++ [{| d_buffer := b; d_seq := f_issued (s_fences s') |}] /\
       In (f_issued (s_fences s')) (ring_seqs (s_fences s'))).
Proof.
  intros Ck R Pb Hs. pose proof (free_buffer_ok cf c slot b outside false Pb s Hs) as T.
  pose proof (free_buffer_plain clock Ck cf R c slot b s) as N. pose proof (free_buffer_waits cf c slot b s) as Wt.
  destruct (free_buffer cf c slot b s) as [c' s'| | |]; try contradiction. destruct T as [-> B]. exists s'. split; [reflexivity|]. split; [exact B|].
  intros V Nr. destruct (Wt _ _ eq_refl V Nr) as [before E]. exists before. split; [exact E|]. destruct B as [_ Q]. apply (last_issued _ _ Q V Nr).
Qed.
End Waiting.

(** A device-local buffer of a client, freed while submission 1 is in flight. *)
Definition sim_local : Buffer :=
  {| b_address := 0x4200000000; b_bytes := 16384; b_token := 1; b_fd := -1; b_local := true; b_ranged := false;
     b_memory := {| mem_cpu := 0x4200000000; mem_bytes := 16384; mem_physical := 2 |}; b_dmem := -1; b_pid := -1 |}.

Lemma broker_unplaced {W : Type} b outside w (s : Shared W) : b_ranged b = false -> broker_at outside w s -> broker_at (b :: outside) w s.
Proof.
  intros R [[(M & Z0) Q] V]. split; [|exact V]. split; [|exact Q]. split; [|exact Z0]. destruct M as [A B C D E].
  assert (H : forall i, blocks i ((b :: outside) ++ map d_buffer (f_deferred (s_fences s))) = blocks i (outside ++ map d_buffer (f_deferred (s_fences s)))).
  { intros i. cbn [app]. rewrite blocks_cons. unfold in_host. rewrite R. reflexivity. }
  constructor; rewrite ?H; try assumption. constructor; [intros X; congruence|exact C].
Qed.

Lemma freed_buffer_waits_witness :
  let c := with_accounts (new_client 100) 1 0 16384 16384 (set_slot (c_buffers (new_client 100)) 0 sim_local) in
  exists s', free_buffer sim_config c 0 sim_local (sim_busy 0) = Returns (freed c 0 sim_local) s' /\ s_wedged s' = false /\
    f_deferred (s_fences s') = [{| d_buffer := sim_waiting; d_seq := 1 |}; {| d_buffer := sim_local; d_seq := 1 |}].
Proof.
  intros c. destruct (freed_buffer_waits (fun w => Z.max 0 (sim_now w)) sim_config c 0 sim_local [] (sim_busy 0)) as (s' & E & _ & _).
  - apply sim_clocked.
  - reflexivity.
  - discriminate.
  - apply broker_unplaced; [reflexivity|apply sim_busy_ok].
  - exists s'. split; [exact E|]. unfold free_buffer in E. cbn in E. injection E as <-. split; reflexivity.
Defined.
