(* ===== verification/BrokerClaims.v ===== *)
(** * The broker's guarantees

    What holds after every session: any events, from any clients, whatever the
    platform answers.  The witnesses run on the simulated platform. *)

From Stdlib Require Import ZArith List Bool Lia Sorting.Permutation.
From S2P Require Import Prelude Bytes BrokerProtocol HostRange BrokerState BrokerMemory BrokerFences BrokerLogic BrokerOrder BrokerBuffers.
From S2P Require Import BrokerInvariant BrokerRequests BrokerServe BrokerRun BrokerSession BrokerSteps BrokerSim BrokerProgress.
Import ListNotations.
Open Scope Z_scope.
Open Scope broker_scope.

(** What the guarantees rely on: the platform's laws and its clock, the settings
    [ps5_gpu_broker_start] makes, and what can be said of the events. *)
Record circumstances {W : Type} (P : Platform W) (clock : W -> Z) (cf : Config) (events : list Event) : Prop := {
  ci_lawful : lawful P;
  ci_clocked : clocked clock;
  ci_retain : cf_retain_on_failure cf = false;
  ci_limit : 0 <= cf_host_limit cf <= 2 ^ 32;
  ci_events : Forall event_ok events;
  ci_count : size events < 2 ^ 32
}.

Section Guarantees.
Context {W : Type} {P : Platform W} (clock : W -> Z) (cf : Config).

Lemma session_returns events w : circumstances P clock cf events ->
  exists b s, session cf events (boot w) = Returns b s /\ session_ok cf (size events) b s.
Proof.
  intros [L Ck R H F B]. pose proof (session_run L cf H w events F B) as T. pose proof (session_plain clock Ck cf R events (boot w)) as N.
  destruct (session cf events (boot w)) as [b s| | |]; try contradiction. eauto.
Qed.

(** C7: No two buffers the broker placed in its host ranges share an address.
    After fewer than 2^32 events - clients opened, served on both their
    connections and closed, in any order, their messages well-formed or not -
    whatever the kernel, RADV's platform layer, the GPU and the display answered
    on the way, the broker has dealt with every one of them without indexing
    outside an array, and no buffer placed in a reserved host range overlaps
    another such buffer, be it the same client's, another's, or one freed and
    still waiting for the GPU.  Buffers placed by the moving cursor, when a range
    could not be reserved, rest on the kernel's reservations. *)
Theorem clients_never_overlap events w : circumstances P clock cf events ->
  exists b s, session cf events (boot w) = Returns b s /\
    ForallOrdPairs apart (all_buffers b ++ map d_buffer (f_deferred (s_fences s))).
Proof.
  intros Ci. destruct (session_returns events w Ci) as (b & s & E & [[(M & _) _] _]). exists b, s. split; [exact E|]. apply (mem_apart _ _ M).
Qed.

(** C24: A client's accounts are exact and within its budgets.  After fewer
    than 2^32 events, so that the counter of tokens has not wrapped, of every open client [allocated] is the sum of its host-visible
    buffers' sizes and at most the host limit, [local] the sum of its
    device-local ones' and at most the offer, no two of its buffers have the
    same token, and every slot without a token is empty. *)
Theorem client_accounts_exact events w : circumstances P clock cf events ->
  exists b s, session cf events (boot w) = Returns b s /\
    Forall (fun slot => match slot with Some sl => client_ok cf (k_client (sl_connection sl)) | None => True end) (br_clients b).
Proof.
  intros Ci. destruct (session_returns events w Ci) as (b & s & E & [_ F]). exists b, s. split; [exact E|].
  eapply Forall_impl; [|exact F]. intros [sl|] H; [apply H|exact I].
Qed.

(** C29: Staging memory is neither lost nor freed twice, and the ring is in
    order.  After fewer than 2^32 events, unless the broker has given up
    on the GPU (a submission or a wait that failed), the staging buffers made less those freed are exactly the submissions in flight and the
    spares (counted and in bytes, in the counters' 64 bits); at most 512
    submissions are in flight, with consecutive sequence numbers of which the
    newest is the last issued. *)
Theorem staging_conserved events w : circumstances P clock cf events ->
  exists b s, session cf events (boot w) = Returns b s /\
    (s_wedged s = false ->
     let f := s_fences s in
     let n := s_counters s in
     u64 (n_staging_allocs n - n_staging_frees n) = u64 (size (f_ring f) + size (st_spare (f_staging f))) /\
     u64 (n_staging_held n) = u64 (bytes_of (map in_staging (f_ring f)) + st_bytes (f_staging f)) /\
     pool_ok (f_staging f) /\ size (f_ring f) <= kRing /\ size (f_deferred f) <= kDeferred /\
     exists prev, follows prev (ring_seqs f) /\ (f_ring f <> [] -> last (ring_seqs f) prev = f_issued f)).
Proof.
  intros Ci. destruct (session_returns events w Ci) as (b & s & E & [[(_ & [S1 S2 S3 S4] & _) [Q1 Q2 Q3 (prev & Q4 & Q5 & Q6)]] _]).
  exists b, s. split; [exact E|]. intros V. cbv zeta. specialize (S3 V). unfold size in S3 at 1. rewrite length_map in S3.
  fold (size (f_ring (s_fences s))) in S3.
  split; [exact S3|]. split; [exact (S4 V)|]. split; [exact S1|]. split; [exact Q2|]. split; [exact Q3|]. exists prev. split; [exact Q5|].
  intros N. apply Q6; assumption.
Qed.

(** C34: A clean stop leaves nothing behind.  After any events, [stop] returns;
    it answers true exactly when the broker runs and no client is open; and then,
    unless the GPU is in doubt, no submission is in flight, no buffer waits, as
    many staging buffers have been freed as were made and no byte of them is
    held, and both ranges are let go. *)
Theorem clean_stop events w : circumstances P clock cf events ->
  exists b s answer b' s', session cf events (boot w) = Returns b s /\ stop cf b s = Returns (answer, b') s' /\
    (answer = true <-> br_started b = true /\ Forall (fun slot => slot = None) (br_clients b)) /\
    (answer = true -> s_wedged s' = false ->
     s_fences s' = no_fences /\ u64 (n_staging_allocs (s_counters s') - n_staging_frees (s_counters s')) = 0 /\ u64 (n_staging_held (s_counters s')) = 0 /\
     hr_reserved (s_window s') = false /\ hr_free (s_window s') = [] /\ hr_reserved (s_high s') = false /\ hr_free (s_high s') = []).
Proof.
  intros Ci. destruct (session_returns events w Ci) as (b & s & E & [Hs F]).
  pose proof (stop_ok cf (size events) (s_wedged s) b F s (broker_now _ s Hs)) as T.
  pose proof (stop_plain clock (ci_clocked _ _ _ _ Ci) cf (ci_retain _ _ _ _ Ci) b s) as N. pose proof (stop_answer cf b) as A.
  destruct (stop cf b s) as [[answer b'] s'| | |] eqn:St; try contradiction. exists b, s, answer, b', s'. split; [exact E|]. split; [exact St|].
  split; [apply (A _ _ _ St)|]. destruct T as [_ T]. intros Ea V. destruct (T Ea V) as ((_ & G1 & _ & G2 & G3) & G4). auto.
Qed.
End Guarantees.

(** ** On the simulated platform *)

Definition says (client : nat) (m : PwGpuMessage) : Event := Says client false true true m.

(** Two clients: both make buffers, the first submits, frees a buffer while its
    work is in flight and makes another; the second is closed. *)
Definition sim_events : list Event := [
  Opens Anyone; Opens (ForPid 200);
  says 0 (ask PW_GPU_INIT 1 0 0 100 0 0); says 1 (ask PW_GPU_INIT 1 0 0 200 0 0);
  says 0 (ask PW_GPU_ALLOC 2 0 20000 0 0 0); says 1 (ask PW_GPU_ALLOC 2 0 100 0x10000 0 0); says 0 (ask PW_GPU_ALLOC 3 0 16384 0 0 1);
  says 0 (ask PW_GPU_SUBMIT 4 0x3000000000 64 0x3000000100 0 0);
  says 0 (ask PW_GPU_FREE 5 0x3000000000 32768 1 0 0); says 1 (ask PW_GPU_ALLOC 3 0 16384 0 0 0)].

Definition sim_closed : list Event := sim_events ++ [Closes 2 7; Closes 1 7].

(** The host-visible buffers after a session, those of the clients and those
    waiting for the GPU. *)
Definition places (r : result Sim Broker) : option (list (Z * Z) * list (Z * Z)) :=
  match r with
  | Returns b s => Some (map place (filter b_ranged (all_buffers b)), map (fun d => place (d_buffer d)) (f_deferred (s_fences s)))
  | _ => None
  end.

Example sim_session : places (session sim_config sim_events (boot sim_world)) =
  Some ([(0x3000010000, 16384); (0x3000008000, 16384)], [(0x3000000000, 32768)]).
Proof. vm_compute. reflexivity. Qed.

(** Closing the second client waits for the GPU, so the first one's buffer is
    released as well; closing both and stopping leaves nothing. *)
Example sim_session_closed :
  places (session sim_config (sim_events ++ [Closes 2 7]) (boot sim_world)) = Some ([], []) /\
  match session sim_config (sim_closed ++ [Stops]) (boot sim_world) with
  | Returns b s => (br_started b, n_staging_allocs (s_counters s), n_staging_frees (s_counters s), n_staging_held (s_counters s), hr_free (s_high s))
  | _ => (true, 0, 0, 0, [])
  end = (false, 1, 1, 0, []).
Proof. vm_compute. split; reflexivity. Qed.

Lemma sim_circumstances events : Forall event_ok events -> size events < 2 ^ 32 ->
  circumstances sim_platform (fun w => Z.max 0 (sim_now w)) sim_config events.
Proof. constructor; [apply sim_lawful|apply sim_clocked|reflexivity|vm_compute; split; discriminate|assumption|assumption]. Qed.

Lemma sim_closed_ok : Forall event_ok sim_closed.
Proof. repeat constructor; cbn; try discriminate; reflexivity. Qed.

Lemma sim_events_ok : Forall event_ok sim_events.
Proof. apply (Forall_app event_ok sim_events [Closes 2 7; Closes 1 7]), sim_closed_ok. Qed.

Lemma clients_never_overlap_witness :
  exists b s, session sim_config sim_events (boot sim_world) = Returns b s /\
    ForallOrdPairs apart (all_buffers b ++ map d_buffer (f_deferred (s_fences s))).
Proof. apply (clients_never_overlap (fun w => Z.max 0 (sim_now w)) sim_config sim_events sim_world), sim_circumstances; [apply sim_events_ok|reflexivity]. Defined.

Lemma client_accounts_exact_witness :
  exists b s, session sim_config sim_events (boot sim_world) = Returns b s /\
    Forall (fun slot => match slot with Some sl => client_ok sim_config (k_client (sl_connection sl)) | None => True end) (br_clients b).
Proof. apply (client_accounts_exact (fun w => Z.max 0 (sim_now w)) sim_config sim_events sim_world), sim_circumstances; [apply sim_events_ok|reflexivity]. Defined.

Lemma staging_conserved_witness :
  exists b s, session sim_config sim_events (boot sim_world) = Returns b s /\
    (s_wedged s = false -> pool_ok (f_staging (s_fences s)) /\ size (f_ring (s_fences s)) <= kRing).
Proof.
  destruct (staging_conserved (fun w => Z.max 0 (sim_now w)) sim_config sim_events sim_world (sim_circumstances _ sim_events_ok eq_refl)) as (b & s & E & H).
  exists b, s. split; [exact E|]. intros V. destruct (H V) as (_ & _ & A & B & _). split; [exact A|exact B].
Defined.

Lemma clean_stop_witness :
  exists b s answer b' s', session sim_config sim_closed (boot sim_world) = Returns b s /\ stop sim_config b s = Returns (answer, b') s' /\
    (answer = true <-> br_started b = true /\ Forall (fun slot => slot = None) (br_clients b)) /\
    (answer = true -> s_wedged s' = false -> s_fences s' = no_fences).
Proof.
  destruct (clean_stop (fun w => Z.max 0 (sim_now w)) sim_config sim_closed sim_world (sim_circumstances _ sim_closed_ok eq_refl))
    as (b & s & answer & b' & s' & E & St & A & G).
  exists b, s, answer, b', s'. split; [exact E|]. split; [exact St|]. split; [exact A|]. intros X Y. apply (G X Y).
Defined.

(** ** The token counter

    Tokens are 32-bit numbers counted up by every allocation of a client, and 0
    marks a free slot.  After 2^32 - 1 allocations the next token is 0: the
    buffer is mapped and charged for, but its slot looks free, no FREE can name
    it, and the next allocation overwrites it. *)
Definition worn_client : Client :=
  with_accounts (with_tessellation (new_client 100) 100 0 0 0 0 false) (2 ^ 32 - 1) 0 0 0 (c_buffers (new_client 100)).

Example token_wraps :
  match allocate sim_config worn_client (ask PW_GPU_ALLOC 2 0 16384 0 0 0) sim_start with
  | Returns (status, c, m, _) _ => (status, m_address m, m_arg0 m, c_allocated c, live_tokens (c_buffers c))
  | _ => (EIO, 0, 0, 0, [])
  end = (0, 0x3000000000, 0, 16384, []).
Proof. vm_compute. reflexivity. Qed.
