(* ===== verification/BrokerRanges.v ===== *)
(** * Sparse ranges

    The index of a client's sparse ranges answers as a search of all of them
    would, and stays right as ranges come and go. *)

From Stdlib Require Import ZArith List Bool Lia Sorting.Permutation.
From S2P Require Import Prelude Bytes BrokerProtocol HostRange BrokerState BrokerMemory BrokerFences BrokerLogic BrokerOrder BrokerBuffers.
From S2P Require Import BrokerInvariant BrokerRequests BrokerServe BrokerRun BrokerSession BrokerSteps BrokerSim.
Import ListNotations.
Open Scope Z_scope.
Open Scope broker_scope.

(** ** The index *)

(** Keys above [lo], in order. *)
Fixpoint keys_above (lo : Z) (index_ : RangeIndex) : Prop :=
  match index_ with
  | [] => True
  | (a, _) :: rest => lo < a /\ keys_above a rest
  end.

Definition live (ranges : list Range) (n : nat) (r : Range) : Prop := nth_error ranges n = Some r /\ r_address r <> 0.

(** The index has exactly the live ranges, in order, and no two of them
    overlap. *)
Record table_ok (c : Client) : Prop := {
  to_keys : keys_above 0 (c_range_index c);
  to_index : forall a n, In (a, n) (c_range_index c) <-> exists r, live (c_ranges c) n r /\ r_address r = a;
  to_sizes : forall n r, live (c_ranges c) n r -> 0 < r_address r /\ 0 < r_bytes r;
  to_apart : forall n n' r r', n <> n' -> live (c_ranges c) n r -> live (c_ranges c) n' r' ->
               disjoint (r_address r, r_bytes r) (r_address r', r_bytes r')
}.

Lemma keys_above_weaken lo lo' index_ : keys_above lo index_ -> lo' <= lo -> keys_above lo' index_.
Proof. destruct index_ as [|[a n] rest]; cbn; [auto|]. intros [A B] L. split; [lia|exact B]. Qed.

Lemma keys_above_in lo index_ a n : keys_above lo index_ -> In (a, n) index_ -> lo < a.
Proof.
  revert lo. induction index_ as [|[b m] rest IH]; intros lo K I; [destruct I|]. destruct K as [K1 K2]. destruct I as [E|I].
  - injection E as <- <-. exact K1.
  - specialize (IH b K2 I). lia.
Qed.

(** The entry found is the one with the largest key not above the address. *)
Lemma index_below_spec lo index_ address found : keys_above lo index_ ->
  match index_below index_ address found with
  | Some n => (found = Some n /\ forall a m, In (a, m) index_ -> address < a) \/
              (exists a, In (a, n) index_ /\ a <= address /\ forall b m, In (b, m) index_ -> b <= address -> b <= a)
  | None => found = None /\ forall a m, In (a, m) index_ -> address < a
  end.
Proof.
  revert lo found. induction index_ as [|[a n] rest IH]; intros lo found K; cbn [index_below].
  - destruct found; [left|]; (split; [reflexivity|intros ? ? []]).
  - destruct K as [K1 K2]. destruct (address <? a) eqn:L; to_prop.
    + assert (All : forall b m, In (b, m) ((a, n) :: rest) -> address < b).
      { intros b m [E|I]; [injection E as <- <-; exact L|]. pose proof (keys_above_in a rest b m K2 I). lia. }
      destruct found; [left|]; auto.
    + specialize (IH a (Some n) K2). destruct (index_below rest address (Some n)) as [n'|].
      * right. destruct IH as [[E All]|(b & I & B1 & B2)].
        -- injection E as <-. exists a. split; [left; reflexivity|]. split; [exact L|]. intros b m [E|I] Hb; [injection E as <- <-; lia|].
           specialize (All b m I). lia.
        -- exists b. split; [right; exact I|]. split; [exact B1|]. intros b' m [E|I'] Hb; [|apply (B2 b' m I' Hb)].
           injection E as <- <-. pose proof (keys_above_in a rest b n' K2 I). lia.
      * destruct IH as [E _]. discriminate.
Qed.

(** The search the index replaces. *)
Definition holds_range (address bytes : Z) (r : Range) : bool :=
  negb (r_address r =? 0) && pw_gpu_contains (r_address r) (r_bytes r) address bytes.

Lemma holds_range_spec address bytes r : 0 <= bytes -> holds_range address bytes r = true ->
  r_address r <> 0 /\ r_address r <= address /\ address < r_address r + r_bytes r.
Proof. unfold holds_range, pw_gpu_contains. lia. Qed.

(** The index of sparse ranges answers as a search of all of them would:
    for a client whose index is right, [vrange_of] - one lookup of the nearest
    entry below the address - returns the range a linear search finds, and
    none when there is none. *)
Theorem vrange_of_search c address bytes : table_ok c -> 0 <= bytes ->
  vrange_of c address bytes = find (holds_range address bytes) (c_ranges c).
Proof.
  intros T Hb. pose proof T as [K Ix Sz Ap].
  assert (Found : forall r, find (holds_range address bytes) (c_ranges c) = Some r -> vrange_of c address bytes = Some r).
  { intros r F. apply find_some in F as [I H]. pose proof (holds_range_spec _ _ _ Hb H) as (H1 & H2 & H3). apply In_nth_error in I as [n N].
    assert (In1 : In (r_address r, n) (c_range_index c)) by (apply Ix; exists r; repeat split; assumption).
    unfold vrange_of. pose proof (index_below_spec 0 _ address None K) as B. destruct (index_below _ _ _) as [n'|].
    - destruct B as [[E _]|(a & Ia & A1 & A2)]; [discriminate|]. apply Ix in Ia as (r' & [N' L'] & Ea).
      specialize (A2 _ _ In1 H2). assert (n = n').
      { destruct (Nat.eq_dec n n') as [|D]; [assumption|]. specialize (Ap n n' r r' D (conj N H1) (conj N' L')). unfold disjoint in Ap. cbn in Ap.
        destruct (Sz n' r' (conj N' L')). lia. }
      subst n'. rewrite N in N'. injection N' as <-. rewrite N. unfold holds_range in H. rewrite H. reflexivity.
    - destruct B as [_ B]. specialize (B _ _ In1). lia. }
  destruct (find (holds_range address bytes) (c_ranges c)) as [r|] eqn:F; [apply Found; reflexivity|].
  unfold vrange_of. destruct (index_below _ _ _) as [n|]; [|reflexivity]. destruct (nth_error (c_ranges c) n) as [r|] eqn:N; [|reflexivity].
  destruct (negb _ && _) eqn:H; [|reflexivity]. apply nth_error_In in N. pose proof (find_none _ _ F r N) as X. unfold holds_range in X. congruence.
Qed.

(** ** Ranges come and go *)

Lemma index_set_spec index_ address slot : (forall n, ~ In (address, n) index_) -> forall lo, lo < address -> keys_above lo index_ ->
  keys_above lo (index_set index_ address slot) /\
  forall a n, In (a, n) (index_set index_ address slot) <-> (a = address /\ n = slot) \/ In (a, n) index_.
Proof.
  induction index_ as [|[b m] rest IH]; intros New lo L K; cbn [index_set].
  - split; [cbn; auto|]. intros a n. cbn. split; [intros [E|[]]; injection E as <- <-; auto|intros [[-> ->]|[]]; auto].
  - destruct K as [K1 K2]. destruct (address <? b) eqn:E1; to_prop.
    + split; [cbn; auto|]. intros a n. cbn. split; [intros [E|I]; [injection E as <- <-; auto|auto]|intros [[-> ->]|I]; auto].
    + destruct (address =? b) eqn:E2; to_prop; [exfalso; apply (New m); left; congruence|].
      destruct (IH (fun n I => New n (or_intror I)) b ltac:(lia) K2) as [A B]. split; [cbn; auto|].
      intros a n. cbn. rewrite B. tauto.
Qed.

Lemma index_erase_spec index_ address : forall lo, keys_above lo index_ ->
  keys_above lo (index_erase index_ address) /\ forall a n, In (a, n) (index_erase index_ address) <-> In (a, n) index_ /\ a <> address.
Proof.
  induction index_ as [|[b m] rest IH]; intros lo K; cbn [index_erase]; [split; [exact I|intros a n; cbn; tauto]|].
  destruct K as [K1 K2]. destruct (b =? address) eqn:E; to_prop.
  - subst b. split; [apply (keys_above_weaken address); [exact K2|lia]|]. intros a n. cbn. split.
    + intros I. split; [auto|]. pose proof (keys_above_in address rest a n K2 I). lia.
    + intros [[E|I] N]; [injection E as <- <-; contradiction|exact I].
  - destruct (IH b K2) as [A B]. split; [cbn; auto|]. intros a n. cbn. rewrite B. split.
    + intros [X|[I N]]; [injection X as <- <-; auto|auto].
    + intros [[X|I] N]; auto.
Qed.

Lemma nth_set_slot {A : Type} (l : list A) i a n : (i < List.length l)%nat ->
  nth_error (set_slot l i a) n = if Nat.eqb n i then Some a else nth_error l n.
Proof. revert i n. induction l as [|x l IH]; intros [|i] [|n] L; cbn in *; try lia; try reflexivity. apply IH. lia. Qed.

(** The vector after [put_range]. *)
Lemma put_range_live ranges r ranges' slot : r_address r <> 0 ->
  put_range ranges (first_slot (fun r => r_address r =? 0) ranges 0) r = (ranges', slot) ->
  forall n r', live ranges' n r' <-> (n = slot /\ r' = r) \/ (n <> slot /\ live ranges n r').
Proof.
  intros Hr E n r'. unfold put_range in E. destruct (first_slot _ _ _) as [j|] eqn:F; apply pair_inj in E as [<- <-]; unfold live.
  - apply first_slot_some in F as (i & old & -> & N & _). cbn [Nat.add].
    rewrite nth_set_slot by (apply nth_error_Some; congruence). destruct (Nat.eqb n i) eqn:En.
    + apply Nat.eqb_eq in En. subst. split; [intros [X _]; injection X as <-; auto|intros [[_ ->]|[X _]]; [auto|contradiction]].
    + apply Nat.eqb_neq in En. tauto.
  - destruct (Nat.lt_trichotomy n (List.length ranges)) as [L|[->|L]].
    + rewrite nth_error_app1 by exact L. intuition lia.
    + rewrite nth_error_app2, Nat.sub_diag by lia. cbn. split; [intros [X _]; injection X as <-; auto|intros [[_ ->]|[X _]]; [auto|contradiction]].
    + rewrite (proj2 (nth_error_None (ranges ++ [r]) n)) by (rewrite length_app; cbn; lia). rewrite (proj2 (nth_error_None ranges n)) by lia.
      intuition (try discriminate; lia).
Qed.

(** A new range: somewhere no live range is. *)
Definition fresh_range (c : Client) (mem : memory) : Prop :=
  0 < mem_cpu mem /\ 0 < mem_bytes mem /\
  forall n r, live (c_ranges c) n r -> disjoint (mem_cpu mem, mem_bytes mem) (r_address r, r_bytes r).

Lemma table_put c mem ranges' slot count peak : table_ok c -> fresh_range c mem ->
  let r := {| r_address := mem_cpu mem; r_bytes := mem_bytes mem; r_memory := mem |} in
  put_range (c_ranges c) (first_slot (fun r => r_address r =? 0) (c_ranges c) 0) r = (ranges', slot) ->
  table_ok (with_ranges c ranges' count peak (index_set (c_range_index c) (mem_cpu mem) slot)).
Proof.
  intros [K Ix Sz Ap] (F1 & F2 & F3) r E. pose proof (put_range_live _ r ranges' slot ltac:(cbn; lia) E) as L.
  assert (Free : forall r', ~ live (c_ranges c) slot r').
  { intros r' [N Z0]. unfold put_range in E. destruct (first_slot _ _ _) as [j|] eqn:Fs; apply pair_inj in E as [<- <-].
    - apply first_slot_some in Fs as (i & old & -> & N' & Zo). cbn in N. rewrite N' in N. injection N as <-. to_prop. contradiction.
    - rewrite (proj2 (nth_error_None _ _)) in N by lia. discriminate. }
  assert (New : forall n, ~ In (mem_cpu mem, n) (c_range_index c)).
  { intros n I. apply Ix in I as (r' & Lr & Ea). specialize (F3 n r' Lr). destruct (Sz n r' Lr). unfold disjoint in F3. cbn in F3. lia. }
  destruct (index_set_spec _ (mem_cpu mem) slot New 0 F1 K) as [K' Ix']. constructor; cbn.
  - exact K'.
  - intros a n. rewrite Ix'. split.
    + intros [[-> ->]|I]; [exists r; split; [apply L; auto|reflexivity]|]. apply Ix in I as (r' & Lr & Ea). exists r'. split; [|exact Ea].
      apply L. right. split; [intros ->; apply (Free r' Lr)|exact Lr].
    + intros (r' & Lr & Ea). apply L in Lr as [[-> ->]|[_ Lr]]; [left; auto|right; apply Ix; eauto].
  - intros n r' Lr. apply L in Lr as [[_ ->]|[_ Lr]]; [cbn; auto|apply (Sz n r' Lr)].
  - intros n n' r1 r2 D L1 L2. apply L in L1. apply L in L2. destruct L1 as [[-> ->]|[_ L1]], L2 as [[-> ->]|[_ L2]].
    + contradiction.
    + apply (F3 n' r2 L2).
    + apply disjoint_sym, (F3 n r1 L1).
    + apply (Ap n n' r1 r2 D L1 L2).
Qed.

Lemma table_drop c slot address count : table_ok c -> In (address, slot) (c_range_index c) ->
  table_ok (with_ranges c (set_slot (c_ranges c) slot no_range) count (c_range_peak c) (index_erase (c_range_index c) address)).
Proof.
  intros [K Ix Sz Ap] I. pose proof (proj1 (Ix _ _) I) as (r & [N Lr] & Ea).
  assert (L : forall n r', live (set_slot (c_ranges c) slot no_range) n r' <-> n <> slot /\ live (c_ranges c) n r').
  { intros n r'. unfold live. rewrite nth_set_slot by (apply nth_error_Some; congruence). destruct (Nat.eqb n slot) eqn:En.
    - apply Nat.eqb_eq in En. subst n. split; [intros [X Y]; injection X as <-; contradiction|intros [X _]; contradiction].
    - apply Nat.eqb_neq in En. tauto. }
  destruct (index_erase_spec _ address 0 K) as [K' Ix']. constructor; cbn.
  - exact K'.
  - intros a n. rewrite Ix'. split.
    + intros [I' Na]. apply Ix in I' as (r' & L' & Ea'). exists r'. split; [|exact Ea']. apply L. split; [|exact L']. intros ->.
      destruct L' as [N' _]. rewrite N in N'. injection N' as <-. congruence.
    + intros (r' & L' & Ea'). apply L in L' as [Nn L']. split; [apply Ix; eauto|]. intros ->.
      specialize (Ap n slot r' r Nn L' (conj N Lr)). destruct (Sz n r' L'), (Sz slot r (conj N Lr)). unfold disjoint in Ap. cbn in Ap. lia.
  - intros n r' L'. apply L in L' as [_ L']. apply (Sz n r' L').
  - intros n n' r1 r2 D L1 L2. apply L in L1 as [_ L1]. apply L in L2 as [_ L2]. apply (Ap n n' r1 r2 D L1 L2).
Qed.

Lemma index_find_pair index_ address slot : index_find index_ address = Some slot -> In (address, slot) index_.
Proof.
  induction index_ as [|[a n] rest IH]; [discriminate|]. cbn. destruct (a =? address) eqn:E; [|auto].
  intros [= ->]. apply Z.eqb_eq in E. subst a. auto.
Qed.

Section Table.
Context {W : Type} {P : Platform W}.

(** The index stays right.  When the platform reserves a range where no
    live one is, [vrange_reserve] leaves the client with an index of exactly
    its live ranges, none overlapping, whatever it answers; and so does
    [vrange_release]. *)
Theorem sparse_table_kept c m (s : Shared W) :
  table_ok c ->
  (forall stats w mem w', p_table_stats (s_world s) = (stats, w) ->
     p_vrange_reserve (m_bytes m) (negb (m_arg0 m =? 0)) (negb (m_arg1 m =? 0)) (m_arg2 m) w = (Some mem, w') -> fresh_range c mem) ->
  (forall status c' m' s', vrange_reserve c m s = Returns (status, c', m') s' -> table_ok c') /\
  (forall status c' s', vrange_release c m s = Returns (status, c') s' -> table_ok c').
Proof.
  intros T Fr. split; intros status c'.
  - intros m' s' E. unfold vrange_reserve in E. unfold mbind at 1, call at 1 in E. destruct (p_table_stats (s_world s)) as [stats w1] eqn:St.
    destruct (_ || _); [injection E as _ <- _ _; exact T|]. destruct (_ || _); [injection E as _ <- _ _; exact T|].
    unfold mbind, call in E. cbn [s_world] in E. destruct (p_vrange_reserve _ _ _ _ w1) as [[mem|] w2] eqn:Rv; [|injection E as _ <- _ _; exact T].
    destruct (put_range _ _ _) as [ranges' slot] eqn:Pr. unfold ret in E. injection E as _ <- _ _.
    apply (table_put c mem ranges' slot _ _ T (Fr _ _ _ _ eq_refl Rv) Pr).
  - intros s' E. unfold vrange_release in E. destruct (if m_address m =? 0 then None else index_find (c_range_index c) (m_address m)) as [slot|] eqn:F;
      [|unfold ret in E; injection E as _ <- _; exact T].
    destruct (nth_error (c_ranges c) slot) as [r|]; [|discriminate]. unfold mbind at 1 in E. destruct (drain 5000000000 s) as [[|] s1| | |]; try discriminate.
    + cbn [negb] in E. unfold mbind, effect, call, ret in E. injection E as _ <- _. apply table_drop; [exact T|]. apply index_find_pair.
      destruct (m_address m =? 0); [discriminate|exact F].
    + cbn [negb] in E. unfold ret in E. injection E as _ <- _. exact T.
Qed.
End Table.

(** ** A client with two ranges, and a slot between them *)

Definition sparse_range (address bytes : Z) : Range :=
  {| r_address := address; r_bytes := bytes; r_memory := {| mem_cpu := address; mem_bytes := bytes; mem_physical := -1 |} |}.

Definition sparse_client : Client :=
  with_ranges (new_client 100) [sparse_range 0x2000000 0x8000; no_range; sparse_range 0x1000000 0x4000] 2 3 [(0x1000000, 2%nat); (0x2000000, 0%nat)].

(** Its live ranges. *)
Lemma sparse_live n r : live (c_ranges sparse_client) n r ->
  (n = 0%nat /\ r = sparse_range 0x2000000 0x8000) \/ (n = 2%nat /\ r = sparse_range 0x1000000 0x4000).
Proof.
  intros [N L]. destruct n as [|[|[|n]]]; cbn in N.
  - injection N as <-. auto.
  - injection N as <-. contradiction L. reflexivity.
  - injection N as <-. auto.
  - rewrite (proj2 (nth_error_None [] n)) in N by (cbn; lia). discriminate.
Qed.

Lemma sparse_client_ok : table_ok sparse_client.
Proof.
  constructor.
  - cbn. lia.
  - intros a n. split.
    + intros [E|[E|[]]]; injection E as <- <-; eexists; (split; [split; [reflexivity|discriminate]|reflexivity]).
    + intros (r & L & <-). apply sparse_live in L as [[-> ->]|[-> ->]]; cbn; auto.
  - intros n r L. apply sparse_live in L as [[-> ->]|[-> ->]]; cbn; lia.
  - intros n n' r r' D L L'. apply sparse_live in L as [[-> ->]|[-> ->]], L' as [[-> ->]|[-> ->]]; unfold disjoint; cbn; lia.
Qed.

Lemma vrange_of_search_witness :
  vrange_of sparse_client 0x2004000 0x4000 = find (holds_range 0x2004000 0x4000) (c_ranges sparse_client) /\
  vrange_of sparse_client 0x2004000 0x4000 = Some (sparse_range 0x2000000 0x8000) /\ vrange_of sparse_client 0x1004000 1 = None.
Proof. split; [apply vrange_of_search; [apply sparse_client_ok|lia]|split; reflexivity]. Defined.

(** The third range goes in the free slot, and the index has it. *)
Lemma sparse_table_kept_witness :
  let m := ask PW_GPU_VRANGE_RESERVE 2 0 0x10000 0 0 0 in
  exists c' m' s', vrange_reserve sparse_client m sim_start = Returns (0, c', m') s' /\ table_ok c' /\
    c_range_index c' = [(0x1000000, 2%nat); (0x2000000, 0%nat); (0x4000000000, 1%nat)].
Proof.
  intros m. eexists _, _, _. split; [reflexivity|]. split; [|reflexivity].
  assert (F : forall stats w mem w', p_table_stats (s_world sim_start) = (stats, w) -> p_vrange_reserve 0x10000 false false 0 w = (Some mem, w') ->
              fresh_range sparse_client mem).
  { intros stats w mem w' E1 E2. apply (f_equal snd) in E1. cbn in E1. subst w. apply (f_equal fst) in E2. cbn in E2. injection E2 as <-.
    split; [cbn; lia|split; [cbn; lia|]]. intros n r L. apply sparse_live in L as [[-> ->]|[-> ->]]; unfold disjoint; cbn; lia. }
  eapply (proj1 (sparse_table_kept sparse_client m sim_start sparse_client_ok F)). reflexivity.
Defined.
