(* ===== verification/DriverPrelude.v ===== *)
(** * What the models of the Vulkan driver share

    Limits of the C types, sums modulo their width, removal of one occurrence
    from a list, and slices of lists replaced in place. *)

From Stdlib Require Import ZArith Lia.
From stdpp Require Import base numbers list.
From S2P Require Import Prelude.
Open Scope Z_scope.

Definition UINT32_MAX : Z := 2 ^ 32 - 1.
Definition UINT64_MAX : Z := 2 ^ 64 - 1.

(** Without one occurrence of an element. *)
Fixpoint remove_one {A : Type} `{EqDecision A} (a : A) (l : list A) : list A :=
  match l with
  | [] => []
  | b :: l' => if decide (a = b) then l' else b :: remove_one a l'
  end.

(** A quantity summed over a list. *)
Definition total {A : Type} (f : A -> Z) (l : list A) : Z := foldr (fun x n => f x + n) 0 l.

Lemma u64_plus_l a b : u64 (u64 a + b) = u64 (a + b).
Proof. unfold u64. now rewrite Zplus_mod_idemp_l. Qed.

Lemma u32_add_l a b : u32 (u32 a + b) = u32 (a + b).
Proof. unfold u32. now rewrite Zplus_mod_idemp_l. Qed.

Lemma remove_one_perm {A} `{EqDecision A} (a : A) l l' : l ≡ₚ a :: l' -> remove_one a l ≡ₚ l'.
Proof.
  revert l'. induction l as [|b l IH]; intros l' E; simpl.
  { apply Permutation_nil_l in E. discriminate. }
  case_decide; [subst; now apply Permutation_cons_inv in E|].
  assert (I : b ∈ a :: l') by (rewrite <- E; left). apply elem_of_cons in I as [|I]; [congruence|].
  apply elem_of_Permutation in I as [k K]. rewrite K in E |- *.
  apply Permutation_skip. apply IH. apply Permutation_cons_inv with b. now rewrite E, Permutation_swap.
Qed.

Lemma total_perm {A} (f : A -> Z) l l' : l ≡ₚ l' -> total f l = total f l'.
Proof. induction 1; simpl; lia. Qed.

Lemma total_app {A} (f : A -> Z) l l' : total f (l ++ l') = total f l + total f l'.
Proof. induction l; simpl; lia. Qed.

Lemma total_ge_0 {A} (f : A -> Z) l : Forall (fun x => 0 <= f x) l -> 0 <= total f l.
Proof. induction 1; simpl; lia. Qed.

Lemma total_ext {A} (f g : A -> Z) l : (forall x, x ∈ l -> f x = g x) -> total f l = total g l.
Proof. induction l as [|x l IH]; intros E; simpl; [done|]. rewrite E, IH by (try left; intros; apply E; now right). done. Qed.

Lemma total_replicate {A} (f : A -> Z) n x : total f (replicate n x) = Z.of_nat n * f x.
Proof. induction n; simpl; lia. Qed.

Lemma total_map {A B} (g : A -> B) (f : B -> Z) l : total f (map g l) = total (fun x => f (g x)) l.
Proof. induction l; simpl; lia. Qed.

(** The sum up to an element, and over it. *)
Lemma total_take_S {A} (f : A -> Z) l i x : l !! i = Some x -> total f (take (S i) l) = total f (take i l) + f x.
Proof. intros E. rewrite (take_S_r _ _ _ E), total_app. simpl. lia. Qed.

Lemma total_take_le {A} (f : A -> Z) l i j : Forall (fun x => 0 <= f x) l -> (i <= j)%nat -> total f (take i l) <= total f (take j l).
Proof.
  intros F L. replace j with (i + (j - i))%nat by lia. rewrite <- (take_take_drop _ i (j - i)), total_app.
  pose proof (total_ge_0 f (take (j - i) (drop i l)) ltac:(apply Forall_take, Forall_drop, F)). lia.
Qed.

Lemma total_take_max {A} (f : A -> Z) l i : Forall (fun x => 0 <= f x) l -> total f (take i l) <= total f l.
Proof.
  intros F. rewrite <- (take_drop i l) at 2. rewrite total_app.
  pose proof (total_ge_0 f (drop i l) ltac:(apply Forall_drop, F)). lia.
Qed.

Lemma total_insert {A} (f : A -> Z) l i x y : l !! i = Some x -> total f (<[i := y]> l) = total f l - f x + f y.
Proof.
  revert i. induction l as [|z l IH]; intros [|i] E; simpl in *; try done; [injection E as ->; lia|]. rewrite IH by done. lia.
Qed.

Lemma total_take_imap {A B} (f : B -> Z) (g : nat -> A -> B) (h : A -> Z) l n :
  (forall i x, f (g i x) = h x) -> total f (take n (imap g l)) = total h (take n l).
Proof. intros E. revert g n E. induction l as [|x l IH]; intros g [|n] E; simpl; try done. rewrite E. f_equal. apply IH. intros i y. apply E. Qed.
