(* ===== verification/DriverMemory.v ===== *)
(** * Memory the CPU and the GPU share

    The driver reads and writes mapped memory by address; a memory is a
    function from addresses to bytes.  Little-endian values are read and
    written through it, and what a read sees after a write elsewhere is what
    the components' theorems need. *)

From Stdlib Require Import ZArith List Bool Lia.
From S2P Require Import Prelude Bytes.
Import ListNotations.
Open Scope Z_scope.

Definition memory := Z -> Z.

(** The bytes of a range. *)
Fixpoint load_bytes (n : nat) (m : memory) (a : Z) : Bytes :=
  match n with
  | O => []
  | S n' => m a :: load_bytes n' m (a + 1)
  end.

(** [memcpy] to an address. *)
Definition store_bytes (m : memory) (a : Z) (l : Bytes) : memory :=
  fun x => if (a <=? x) && (x <? a + size l) then byte_at l (x - a) else m x.

(** [*(uint64_t * )a] and the store of [n] little-endian bytes of a value. *)
Definition peek (n : nat) (m : memory) (a : Z) : Z := le_value (load_bytes n m a).
Definition poke (n : nat) (m : memory) (a v : Z) : memory := store_bytes m a (le_bytes n v).

(** [memset(a, value, bytes)] *)
Definition fill (m : memory) (a value bytes : Z) : memory :=
  fun x => if (a <=? x) && (x <? a + bytes) then value else m x.

Lemma load_bytes_ext n m m' a : (forall x, a <= x < a + Z.of_nat n -> m x = m' x) -> load_bytes n m a = load_bytes n m' a.
Proof.
  revert a. induction n as [|n IH]; intros a E; [reflexivity|]. cbn [load_bytes]. rewrite E by lia. f_equal. apply IH. intros x X. apply E. lia.
Qed.

Lemma load_bytes_length n m a : length (load_bytes n m a) = n.
Proof. revert a. induction n; intros a; cbn; [reflexivity|]. now rewrite IHn. Qed.

Lemma load_bytes_at n m a i : 0 <= i < Z.of_nat n -> byte_at (load_bytes n m a) i = m (a + i).
Proof.
  revert a i. induction n as [|n IH]; intros a i I; [lia|]. cbn [load_bytes]. unfold byte_at in *. destruct (i <? 0) eqn:N; to_prop; [lia|].
  destruct (Z.to_nat i) as [|k] eqn:K; cbn [nth].
  - f_equal. lia.
  - specialize (IH (a + 1) (i - 1) ltac:(lia)). destruct (i - 1 <? 0) eqn:N'; to_prop; [lia|]. replace (Z.to_nat (i - 1)) with k in IH by lia. rewrite IH. f_equal. lia.
Qed.

Lemma store_bytes_out m a l x : x < a \/ a + size l <= x -> store_bytes m a l x = m x.
Proof. intros H. unfold store_bytes. destruct (_ && _)%bool eqn:E; [|reflexivity]. apply andb_prop in E as [E1 E2]. apply Z.leb_le in E1. apply Z.ltb_lt in E2. lia. Qed.

Lemma store_bytes_in m a l x : a <= x < a + size l -> store_bytes m a l x = byte_at l (x - a).
Proof. intros H. unfold store_bytes. destruct (_ && _)%bool eqn:E; [reflexivity|]. apply Bool.andb_false_iff in E as [E|E]; [apply Z.leb_gt in E|apply Z.ltb_ge in E]; lia. Qed.

Lemma load_store_same m a l : load_bytes (length l) (store_bytes m a l) a = l.
Proof.
  assert (G : forall k n, (k + n = length l)%nat -> load_bytes n (store_bytes m a l) (a + Z.of_nat k) = skipn k l).
  { intros k n. revert k. induction n as [|n IH]; intros k E; cbn [load_bytes].
    - symmetry. apply skipn_all2. lia.
    - replace (a + Z.of_nat k + 1) with (a + Z.of_nat (S k)) by lia. rewrite IH by lia.
      rewrite store_bytes_in by (unfold size; lia). replace (a + Z.of_nat k - a) with (Z.of_nat k) by lia.
      unfold byte_at. destruct (Z.of_nat k <? 0) eqn:N; [apply Z.ltb_lt in N; lia|]. rewrite Nat2Z.id.
      clear -E. revert k E. induction l as [|b l IH]; intros [|k] E; cbn in E |- *; try lia; try reflexivity. apply IH. lia. }
  specialize (G 0%nat (length l) eq_refl). rewrite Z.add_0_r in G. exact G.
Qed.

Lemma load_store_other n m a l b : b + Z.of_nat n <= a \/ a + size l <= b -> load_bytes n (store_bytes m a l) b = load_bytes n m b.
Proof. intros H. apply load_bytes_ext. intros x X. apply store_bytes_out. lia. Qed.

Lemma peek_poke_same n m a v : peek n (poke n m a v) a = v mod 256 ^ Z.of_nat n.
Proof.
  unfold peek, poke. rewrite <- le_value_bytes. f_equal. rewrite <- (load_store_same m a (le_bytes n v)) at 2.
  f_equal. pose proof (size_le_bytes n v). unfold size in H. lia.
Qed.

Lemma peek_poke_other k n m a v b : b + Z.of_nat k <= a \/ a + Z.of_nat n <= b -> peek k (poke n m a v) b = peek k m b.
Proof. intros H. unfold peek, poke. f_equal. apply load_store_other. rewrite size_le_bytes. lia. Qed.

Lemma poke_out n m a v x : x < a \/ a + Z.of_nat n <= x -> poke n m a v x = m x.
Proof. intros H. apply store_bytes_out. rewrite size_le_bytes. lia. Qed.

Lemma peek_ext n m m' a : (forall x, a <= x < a + Z.of_nat n -> m x = m' x) -> peek n m a = peek n m' a.
Proof. intros E. unfold peek. f_equal. now apply load_bytes_ext. Qed.

Lemma peek_zero n m a : (forall x, a <= x < a + Z.of_nat n -> m x = 0) -> peek n m a = 0.
Proof.
  unfold peek. revert a. induction n as [|n IH]; intros a E; [reflexivity|]. cbn [load_bytes le_value]. rewrite E, IH by (intros; lia || (apply E; lia)). reflexivity.
Qed.

Lemma peek_range n m a : (forall x, 0 <= m x < 256) -> 0 <= peek n m a < 256 ^ Z.of_nat n.
Proof.
  intros B. unfold peek. assert (O : bytes_ok (load_bytes n m a)).
  { unfold bytes_ok. revert a. induction n as [|n IH]; intros a; cbn; constructor; auto. }
  pose proof (le_value_range _ O) as R. unfold size in R. now rewrite load_bytes_length in R.
Qed.
