(* ===== verification/DirectMemory.v ===== *)
(** * GPU-visible direct memory ([src/driver/ps5vk_direct_memory.c])

    Every GPU-visible allocation of the Vulkan driver is a direct mapping:
    allocated from the kernel's direct memory, mapped at one address for both
    sides, counted by kind, and - for [VkDeviceMemory] - placed in a region
    whose granules are a bit each.  The kernel is a parameter that answers each
    call as a function of the calls made so far; the calls themselves are
    recorded, so that what the driver leaves allocated can be stated. *)

From Stdlib Require Import ZArith Lia.
From stdpp Require Import base numbers list.
From S2P Require Import Prelude DriverPrelude.
Open Scope Z_scope.

(** ** Constants ([ps5vk_private.h]) *)

Definition PS5VK_ADDRESS_HIGH_WORD : Z := 2.
Definition PS5VK_ADDRESS_WINDOW_BYTES : Z := 2 ^ 32.
Definition PS5VK_DIRECT_MEMORY_TYPE : Z := 12.
Definition PS5VK_MAP_PROTECTION : Z := 51.
Definition PS5VK_DIRECT_PAGE_BYTES : Z := 16384.
Definition PS5VK_GPU_ADDRESS_LIMIT : Z := 2 ^ 47.
Definition PS5VK_DEVICE_MEMORY_REGION : Z := 274877906944.
Definition PS5VK_DEVICE_MEMORY_REGION_BYTES : Z := 256 * 2 ^ 30.
Definition PS5VK_DEVICE_MEMORY_GRANULE : Z := 2097152.
Definition PS5VK_DIRECT_OUTSIDE_WINDOW : Z := -1.

Definition PS5VK_REGION_GRANULES : Z :=
  u32 (PS5VK_DEVICE_MEMORY_REGION_BYTES / PS5VK_DEVICE_MEMORY_GRANULE).

(** [enum ps5vk_direct_kind] *)
Inductive direct_kind :=
| DIRECT_MEMORY | DIRECT_STAGE | DIRECT_COMPUTE | DIRECT_TABLES | DIRECT_QUERY | DIRECT_QUEUE | DIRECT_DISPLAY.

#[global] Instance direct_kind_eq_dec : EqDecision direct_kind.
Proof. solve_decision. Defined.

(** [struct ps5vk_direct_mapping]; a null address is zero. *)
Record direct_mapping := Mapping {
  dm_start : Z;
  dm_bytes : Z;
  dm_address : Z;
  dm_kind : direct_kind;
  dm_granule : Z;
  dm_granules : Z
}.

(** [ps5vk_address_range_valid]: the range lies in the address window. *)
Definition address_range_valid (address bytes : Z) : bool :=
  negb (bytes =? 0) && (Z.shiftr address 32 =? PS5VK_ADDRESS_HIGH_WORD) &&
  (bytes <=? PS5VK_ADDRESS_WINDOW_BYTES - Z.land address UINT32_MAX).

(** [ps5vk_gpu_range_valid]: the range is one the GPU takes as a full address. *)
Definition gpu_range_valid (address bytes : Z) : bool :=
  negb (bytes =? 0) && negb (address =? 0) && (address <? PS5VK_GPU_ADDRESS_LIMIT) &&
  (bytes <=? PS5VK_GPU_ADDRESS_LIMIT - address).

(** ** The region's granules

    [ps5vk_region_used] is a list of 64-bit words.  A word index outside it is
    out of bounds in the source; the lookups are total and the theorems show
    that every index stays inside. *)

Abbreviation words := (list Z).

Definition word_of (granule : Z) : nat := Z.to_nat (granule / 64).
Definition bit_of (granule : Z) : Z := u64 (Z.shiftl 1 (granule mod 64)).

(** The body of the loop of [ps5vk_region_mark]. *)
Definition mark_one (used : bool) (w : words) (granule : Z) : words :=
  let word := w !!! word_of granule in
  <[word_of granule := if used then Z.lor word (bit_of granule)
                       else Z.land word (u64 (Z.lnot (bit_of granule)))]> w.

(** [ps5vk_region_mark]: from [first] to before [first + count], a [uint32_t]. *)
Definition region_mark (w : words) (first count : Z) (used : bool) : words :=
  fold_left (mark_one used) (indices first (Z.to_nat (u32 (first + count) - first))) w.

(** The granule's bit, as the loop of [ps5vk_region_take] tests it. *)
Definition granule_used (w : words) (granule : Z) : bool :=
  negb (Z.land (w !!! word_of granule) (bit_of granule) =? 0).

(** The loop of [ps5vk_region_take] over [granule] and [run]; every iteration
    moves [granule] up, so [fuel] is the number of granules left. *)
Fixpoint take_loop (fuel : nat) (w : words) (count granule run : Z) : option Z :=
  match fuel with
  | O => None
  | S fuel' =>
      if negb (granule <? PS5VK_REGION_GRANULES) then None
      else if (granule mod 64 =? 0) && (w !!! word_of granule =? UINT64_MAX) then
        take_loop fuel' w count (granule + 63 + 1) 0
      else if granule_used w granule then take_loop fuel' w count (granule + 1) 0
      else if run + 1 =? count then Some (granule + 1 - count)
      else take_loop fuel' w count (granule + 1) (run + 1)
  end.

(** [ps5vk_region_take]: the first granule of the run taken, and the region. *)
Definition region_take (w : words) (count : Z) : Z * words :=
  if (count =? 0) || (PS5VK_REGION_GRANULES <? count) then (UINT32_MAX, w)
  else match take_loop (Z.to_nat PS5VK_REGION_GRANULES) w count 0 0 with
       | Some first => (first, region_mark w first count true)
       | None => (UINT32_MAX, w)
       end.

(** [ps5vk_region_give]: the mapping without granules, and the region. *)
Definition region_give (w : words) (m : direct_mapping) : direct_mapping * words :=
  if dm_granules m =? 0 then (m, w)
  else (Mapping (dm_start m) (dm_bytes m) (dm_address m) (dm_kind m) (dm_granule m) 0,
        region_mark w (dm_granule m) (dm_granules m) false).

(** ** What the bitmap means *)

Definition region_ok (w : words) : Prop :=
  Z.of_nat (length w) * 64 = PS5VK_REGION_GRANULES /\ Forall (fun x => 0 <= x < 2 ^ 64) w.

Definition in_region (first count : Z) : Prop := 0 <= first /\ 0 <= count /\ first + count <= PS5VK_REGION_GRANULES.

(** A run of free granules. *)
Definition free_run (w : words) (first count : Z) : Prop :=
  in_region first count /\ forall g, first <= g < first + count -> granule_used w g = false.

Lemma granules_value : PS5VK_REGION_GRANULES = 131072.
Proof. reflexivity. Qed.

Lemma bit_of_pow g : bit_of g = 2 ^ (g mod 64).
Proof.
  unfold bit_of. pose proof (Z.mod_pos_bound g 64 ltac:(lia)).
  rewrite Z.shiftl_1_l. apply u64_small. split; [apply Z.pow_nonneg; lia|].
  apply (Z.pow_lt_mono_r 2 (g mod 64) 64); lia.
Qed.

Lemma granule_used_testbit w g : granule_used w g = Z.testbit (w !!! word_of g) (g mod 64).
Proof.
  unfold granule_used. rewrite bit_of_pow. pose proof (Z.mod_pos_bound g 64 ltac:(lia)).
  set (x := w !!! word_of g). set (k := g mod 64) in *.
  destruct (Z.testbit x k) eqn:E.
  - apply negb_true_iff, Z.eqb_neq. intros E'.
    apply (f_equal (fun y => Z.testbit y k)) in E'.
    rewrite Z.land_spec, E, Z.pow2_bits_true, Z.bits_0 in E' by lia. discriminate.
  - apply negb_false_iff, Z.eqb_eq. apply Z.bits_inj'. intros i Hi.
    rewrite Z.land_spec, Z.bits_0. destruct (decide (i = k)) as [->|]; [now rewrite E|].
    rewrite Z.pow2_bits_false by lia. apply andb_false_r.
Qed.

Lemma word_of_lt w g : region_ok w -> 0 <= g < PS5VK_REGION_GRANULES -> (word_of g < length w)%nat.
Proof. intros [L _] G. unfold word_of. apply Nat2Z.inj_lt. rewrite Z2Nat.id by (apply Z.div_pos; lia). apply Z.div_lt_upper_bound; lia. Qed.

Lemma word_eq_mod g g' : 0 <= g -> 0 <= g' -> word_of g = word_of g' -> g mod 64 = g' mod 64 -> g = g'.
Proof.
  unfold word_of. intros H H' E M. apply Z2Nat.inj in E; try (apply Z.div_pos; lia).
  rewrite (Z.div_mod g 64), (Z.div_mod g' 64), E, M by lia. reflexivity.
Qed.

Lemma word_range w g : region_ok w -> 0 <= g < PS5VK_REGION_GRANULES -> 0 <= w !!! word_of g < 2 ^ 64.
Proof.
  intros OK G. destruct (lookup_lt_is_Some_2 w (word_of g)) as [x X]; [now apply word_of_lt|].
  rewrite (list_lookup_total_correct _ _ _ X). exact (Forall_lookup_1 _ _ _ _ (proj2 OK) X).
Qed.

(** What one marking writes stays a 64-bit word with that one bit changed. *)
Lemma marked_word (used : bool) word k i : 0 <= word < 2 ^ 64 -> 0 <= k < 64 -> 0 <= i < 64 ->
  let word' := if used then Z.lor word (2 ^ k) else Z.land word (u64 (Z.lnot (2 ^ k))) in
  0 <= word' < 2 ^ 64 /\ Z.testbit word' i = if decide (i = k) then used else Z.testbit word i.
Proof.
  intros W K I. cbv zeta. assert (B : forall j, 64 <= j -> Z.testbit word j = false).
  { intros j J. destruct (decide (word = 0)) as [->|]; [apply Z.bits_0|].
    apply Z.bits_above_log2; [lia|]. apply Z.log2_lt_pow2; [lia|]. eapply Z.lt_le_trans; [apply W|]. apply Z.pow_le_mono_r; lia. }
  assert (R : forall x, 0 <= x -> (forall j, 64 <= j -> Z.testbit x j = false) -> 0 <= x < 2 ^ 64).
  { intros x X J. split; [done|]. destruct (Z_lt_le_dec x (2 ^ 64)) as [|G]; [done|]. exfalso.
    assert (0 < x) by lia. pose proof (Z.bit_log2 x ltac:(lia)) as T.
    rewrite J in T; [discriminate|]. apply Z.log2_le_pow2; lia. }
  destruct used.
  - split.
    + apply R; [apply Z.lor_nonneg; split; [lia|apply Z.pow_nonneg; lia]|].
      intros j J. rewrite Z.lor_spec, B, Z.pow2_bits_false by lia. done.
    + rewrite Z.lor_spec. case_decide; subst; [rewrite Z.pow2_bits_true by lia; apply orb_true_r|].
      rewrite Z.pow2_bits_false by lia. apply orb_false_r.
  - split.
    + apply R; [apply Z.land_nonneg; left; lia|]. intros j J. rewrite Z.land_spec, B by lia. done.
    + rewrite Z.land_spec. unfold u64. rewrite Z.mod_pow2_bits_low, Z.lnot_spec by lia.
      case_decide; subst; [rewrite Z.pow2_bits_true by lia; apply andb_false_r|].
      rewrite Z.pow2_bits_false by lia. apply andb_true_r.
Qed.

Lemma mark_one_spec used w g : region_ok w -> 0 <= g < PS5VK_REGION_GRANULES ->
  region_ok (mark_one used w g) /\
  forall x, 0 <= x < PS5VK_REGION_GRANULES -> granule_used (mark_one used w g) x = if decide (x = g) then used else granule_used w x.
Proof.
  intros OK G. pose proof (word_of_lt _ _ OK G) as L. pose proof (word_range _ _ OK G) as W.
  pose proof (Z.mod_pos_bound g 64 ltac:(lia)) as K. unfold mark_one. rewrite bit_of_pow. split.
  - split; [rewrite length_insert; apply OK|]. apply Forall_insert; [apply OK|].
    apply (marked_word used _ (g mod 64) 0 W K ltac:(lia)).
  - intros x X. pose proof (Z.mod_pos_bound x 64 ltac:(lia)) as I. rewrite !granule_used_testbit.
    destruct (decide (word_of x = word_of g)) as [E|E].
    + rewrite E, list_lookup_total_insert_eq by done.
      destruct (marked_word used _ (g mod 64) (x mod 64) W K I) as [_ ->].
      do 2 case_decide; subst; try done. exfalso. eauto using word_eq_mod with lia.
    + rewrite list_lookup_total_insert_ne by done. case_decide; subst; done.
Qed.

(** Marking a run sets or clears exactly its granules. *)
Lemma marks_spec used n w first : region_ok w -> in_region first (Z.of_nat n) ->
  let w' := fold_left (mark_one used) (indices first n) w in
  region_ok w' /\ forall x, 0 <= x < PS5VK_REGION_GRANULES ->
    granule_used w' x = if decide (first <= x < first + Z.of_nat n) then used else granule_used w x.
Proof.
  revert w first. induction n as [|n IH]; intros w first OK I; unfold in_region in I; simpl.
  - split; [done|]. intros x X. case_decide; [lia|done].
  - destruct (mark_one_spec used w first OK) as [OK' S]; [lia|].
    destruct (IH (mark_one used w first) (first + 1) OK') as [OK'' S']; [unfold in_region; lia|]. split; [exact OK''|].
    intros x X. rewrite S' by done. repeat case_decide; try done; try lia; rewrite S by done; case_decide; try done; lia.
Qed.

Lemma region_mark_spec used w first count : region_ok w -> in_region first count ->
  region_ok (region_mark w first count used) /\ forall x, 0 <= x < PS5VK_REGION_GRANULES ->
    granule_used (region_mark w first count used) x = if decide (first <= x < first + count) then used else granule_used w x.
Proof.
  intros OK I. unfold region_mark. pose proof granules_value as V. unfold in_region in I.
  rewrite u32_small, Z.add_simpl_l by lia.
  destruct (marks_spec used (Z.to_nat count) w first OK) as [OK' S]; [unfold in_region; lia|].
  rewrite Z2Nat.id in S by lia. split; [exact OK'|exact S].
Qed.

Lemma full_word_used w g x : w !!! word_of g = UINT64_MAX -> g mod 64 = 0 -> 0 <= g -> g <= x < g + 64 -> granule_used w x = true.
Proof.
  intros W M G X. rewrite granule_used_testbit. assert (E : word_of x = word_of g).
  { unfold word_of. f_equal. rewrite (Z.div_mod g 64), M by lia. rewrite Z.add_0_r, (Z.mul_comm 64), Z.div_mul by lia.
    symmetry. apply Z.div_unique with (x - g); [lia|]. rewrite (Z.div_mod g 64) at 2 by lia. lia. }
  rewrite E, W. change UINT64_MAX with (Z.ones 64). pose proof (Z.mod_pos_bound x 64). apply Z.ones_spec_low. lia.
Qed.

(** The loop's invariant: the last [run] granules are free, and every free run
    of the size wanted starts at or after them. *)
Definition scanning (w : words) (count granule run : Z) : Prop :=
  0 <= run < count /\ run <= granule /\ (forall g, granule - run <= g < granule -> granule_used w g = false) /\
  forall f, free_run w f count -> granule - run <= f.

Lemma scanning_used w count granule run next : scanning w count granule run -> granule < next ->
  (forall g, granule <= g < next -> granule_used w g = true) -> scanning w count next 0.
Proof.
  intros (R & G & F & L) N U. split; [lia|]. split; [lia|]. split; [intros; lia|].
  intros f FR. specialize (L f FR). destruct (Z_lt_le_dec f next) as [B|]; [exfalso|lia].
  destruct FR as [_ FR]. specialize (FR (f `max` granule) ltac:(lia)). rewrite U in FR by lia. discriminate.
Qed.

Lemma scanning_free w count granule run : scanning w count granule run -> run + 1 <> count ->
  granule_used w granule = false -> scanning w count (granule + 1) (run + 1).
Proof.
  intros (R & G & F & L) N U. split; [lia|]. split; [lia|]. split.
  - intros g B. destruct (decide (g = granule)) as [->|]; [done|]. apply F. lia.
  - intros f FR. specialize (L f FR). lia.
Qed.

Definition is_first_fit (w : words) (count first : Z) : Prop :=
  free_run w first count /\ forall f, free_run w f count -> first <= f.

Lemma take_loop_spec fuel w count granule run :
  scanning w count granule run -> PS5VK_REGION_GRANULES - granule <= Z.of_nat fuel ->
  match take_loop fuel w count granule run with
  | Some first => is_first_fit w count first
  | None => forall f, ~ free_run w f count
  end.
Proof.
  revert granule run. induction fuel as [|fuel IH]; intros granule run S B; simpl.
  - intros f FR. destruct S as (R & G & F & L). specialize (L f FR). destruct FR as [(?&?&?) _]. lia.
  - destruct (granule <? PS5VK_REGION_GRANULES) eqn:E; simpl; to_prop.
    2:{ intros f FR. destruct S as (R & G & F & L). specialize (L f FR). destruct FR as [(?&?&?) _]. lia. }
    destruct (_ && _) eqn:FW; to_prop.
    { apply IH; [|lia]. eapply scanning_used; [exact S|lia|]. intros g Hg. apply (full_word_used w granule); auto; destruct S; lia. }
    destruct (granule_used w granule) eqn:U.
    { apply IH; [|lia]. eapply scanning_used; [exact S|lia|]. intros g Hg. now replace g with granule by lia. }
    destruct (run + 1 =? count) eqn:C; to_prop.
    + destruct S as (R & G & F & L). split; [split|].
      * unfold in_region. lia.
      * intros g Hg. destruct (decide (g = granule)) as [->|]; [done|]. apply F. lia.
      * intros f FR. specialize (L f FR). lia.
    + apply IH; [|lia]. now apply scanning_free.
Qed.

Lemma region_take_spec w count : region_ok w -> 0 <= count ->
  let '(first, w') := region_take w count in
  region_ok w' /\
  ((first = UINT32_MAX /\ w' = w /\ (count = 0 \/ forall f, ~ free_run w f count)) \/
   (first < UINT32_MAX /\ 0 < count /\ is_first_fit w count first /\ w' = region_mark w first count true)).
Proof.
  intros OK C. unfold region_take. destruct (_ || _) eqn:E.
  { split; [done|]. left. split; [done|]. split; [done|]. to_prop. destruct E as [E|E]; to_prop; [now left|right].
    intros f [(?&?&?) _]. lia. }
  to_prop. pose proof (take_loop_spec (Z.to_nat PS5VK_REGION_GRANULES) w count 0 0) as S.
  destruct (take_loop _ _ _ _ _) as [first|].
  - assert (FF : is_first_fit w count first).
    { apply S; [|lia]. repeat split; try lia. intros f [(?&?&?) _]. lia. }
    pose proof FF as [[I _] _]. destruct (region_mark_spec true w first count OK I) as [OK' _].
    split; [exact OK'|]. right. pose proof granules_value. unfold in_region in I. unfold UINT32_MAX. split_and!; auto; lia.
  - split; [done|]. left. split; [done|]. split; [done|]. right. apply S; [|lia]. repeat split; try lia. intros f [(?&?&?) _]. lia.
Qed.

(** ** Mappings

    The calls into the kernel, each with its answer; [trace] holds the latest
    first. *)

Inductive event :=
| EAllocate (bytes alignment type result start : Z)
| EMap (hint bytes protection start alignment result address : Z)
| EMunmap (address bytes result : Z)
| ERelease (start bytes result : Z).

(** What the file calls and does not contain: the kernel, whose answers may
    depend on every earlier call, and Mesa's [align64]. *)
Class DirectPlatform := {
  sceKernelGetDirectMemorySize : Z;
  sceKernelAllocateDirectMemory : list event -> Z -> Z -> Z * Z;
  sceKernelMapDirectMemory : list event -> Z -> Z -> Z -> Z -> Z * Z;
  sceKernelMunmap : list event -> Z -> Z -> Z;
  sceKernelReleaseDirectMemory : list event -> Z -> Z -> Z;
  align64 : Z -> Z -> Z
}.

(** What the code relies on: an allocation that succeeds lies inside the direct
    memory, which is smaller than the address space, and [align64] rounds up to
    a multiple of a power of two. *)
Class DirectPlatformLaws (P : DirectPlatform) := {
  direct_size_bound : 0 <= sceKernelGetDirectMemorySize < 2 ^ 47;
  allocate_inside : forall trace bytes alignment start,
    sceKernelAllocateDirectMemory trace bytes alignment = (0, start) ->
    0 <= start /\ start + bytes <= sceKernelGetDirectMemorySize;
  align64_rounds : forall value k, 0 <= k < 63 -> 0 <= value -> value + 2 ^ k <= 2 ^ 64 ->
    align64 value (2 ^ k) = (value + 2 ^ k - 1) / 2 ^ k * 2 ^ k
}.

(** The file's static variables, and the calls made so far. *)
Record direct_state := DirectState {
  ds_used : words;
  ds_live_count : Z;
  ds_live_bytes : Z;
  ds_kind_count : list Z;
  ds_kind_bytes : list Z;
  ds_base : Z;
  ds_next : Z;
  ds_outside : Z;
  ds_trace : list event
}.

Definition kind_index (k : direct_kind) : nat :=
  match k with
  | DIRECT_MEMORY => 0 | DIRECT_STAGE => 1 | DIRECT_COMPUTE => 2 | DIRECT_TABLES => 3
  | DIRECT_QUERY => 4 | DIRECT_QUEUE => 5 | DIRECT_DISPLAY => 6
  end.

Definition PS5VK_DIRECT_KIND_COUNT : nat := 7.

(** Static storage: everything zero. *)
Definition direct_init : direct_state :=
  DirectState (replicate (Z.to_nat (PS5VK_REGION_GRANULES / 64)) 0) 0 0
    (replicate PS5VK_DIRECT_KIND_COUNT 0) (replicate PS5VK_DIRECT_KIND_COUNT 0) 0 0 0 [].

Definition with_used (w : words) (s : direct_state) : direct_state :=
  DirectState w (ds_live_count s) (ds_live_bytes s) (ds_kind_count s) (ds_kind_bytes s)
    (ds_base s) (ds_next s) (ds_outside s) (ds_trace s).
Definition with_event (e : event) (s : direct_state) : direct_state :=
  DirectState (ds_used s) (ds_live_count s) (ds_live_bytes s) (ds_kind_count s) (ds_kind_bytes s)
    (ds_base s) (ds_next s) (ds_outside s) (e :: ds_trace s).

(** [p_atomic_add(&array\[kind\], delta)] *)
Definition bump (k : direct_kind) (delta : Z) (l : list Z) : list Z :=
  <[kind_index k := u64 (l !!! kind_index k + delta)]> l.

(** The four counters, up or down by one mapping of [bytes]. *)
Definition count_live (k : direct_kind) (bytes sign : Z) (s : direct_state) : direct_state :=
  DirectState (ds_used s) (u64 (ds_live_count s + sign)) (u64 (ds_live_bytes s + sign * bytes))
    (bump k sign (ds_kind_count s)) (bump k (sign * bytes) (ds_kind_bytes s))
    (ds_base s) (ds_next s) (ds_outside s) (ds_trace s).

Section Mappings.
Context `{P : DirectPlatform}.

(** [ps5vk_direct_memory_live], [ps5vk_direct_memory_kind_live] *)
Definition direct_memory_live (s : direct_state) : Z * Z := (ds_live_count s, ds_live_bytes s).
Definition direct_memory_kind_live (s : direct_state) (k : direct_kind) : Z * Z :=
  (ds_kind_count s !!! kind_index k, ds_kind_bytes s !!! kind_index k).

(** [ps5vk_debug_device_memory_base] *)
Definition debug_device_memory_base (s : direct_state) (base : Z) : Z * direct_state :=
  (ds_outside s,
   DirectState (ds_used s) (ds_live_count s) (ds_live_bytes s) (ds_kind_count s) (ds_kind_bytes s)
     base 0 0 (ds_trace s)).

Definition region_give_in (m : direct_mapping) (s : direct_state) : direct_mapping * direct_state :=
  let '(m', w) := region_give (ds_used s) m in (m', with_used w s).

(** [ps5vk_direct_mapping_hint] *)
Definition direct_mapping_hint (m : direct_mapping) (s : direct_state) : Z * direct_mapping * direct_state :=
  if negb (bool_decide (dm_kind m = DIRECT_MEMORY)) then (0, m, s)
  else
    let step := align64 (dm_bytes m) PS5VK_DEVICE_MEMORY_GRANULE in
    if negb (ds_base s =? 0) then
      let next := u64 (ds_next s + step) in
      (u64 (ds_base s + next - step), m,
       DirectState (ds_used s) (ds_live_count s) (ds_live_bytes s) (ds_kind_count s) (ds_kind_bytes s)
         (ds_base s) next (ds_outside s) (ds_trace s))
    else
      let count := u32 (step / PS5VK_DEVICE_MEMORY_GRANULE) in
      let '(first, w) := region_take (ds_used s) count in
      if first =? UINT32_MAX then (0, m, with_used w s)
      else (u64 (PS5VK_DEVICE_MEMORY_REGION + first * PS5VK_DEVICE_MEMORY_GRANULE),
            Mapping (dm_start m) (dm_bytes m) (dm_address m) (dm_kind m) first count, with_used w s).

(** [ps5vk_direct_mapping_destroy] *)
Definition direct_mapping_destroy (m : direct_mapping) (s : direct_state) : direct_mapping * direct_state :=
  let s1 := if negb (dm_address m =? 0)
            then with_event (EMunmap (dm_address m) (dm_bytes m) (sceKernelMunmap (ds_trace s) (dm_address m) (dm_bytes m))) s
            else s in
  let s2 := if (0 <=? dm_start m) && negb (dm_bytes m =? 0)
            then count_live (dm_kind m) (dm_bytes m) (-1)
                   (with_event (ERelease (dm_start m) (dm_bytes m) (sceKernelReleaseDirectMemory (ds_trace s1) (dm_start m) (dm_bytes m))) s1)
            else s1 in
  let '(m', s3) := region_give_in m s2 in
  (Mapping (-1) (dm_bytes m') 0 (dm_kind m') (dm_granule m') (dm_granules m'), s3).

(** One call of [sceKernelMapDirectMemory]: its result and the address left. *)
Definition map_at (hint bytes start alignment : Z) (s : direct_state) : Z * Z * direct_state :=
  let '(result, address) := sceKernelMapDirectMemory (ds_trace s) hint bytes start alignment in
  (result, address, with_event (EMap hint bytes PS5VK_MAP_PROTECTION start alignment result address) s).

Definition with_address (address : Z) (m : direct_mapping) : direct_mapping :=
  Mapping (dm_start m) (dm_bytes m) address (dm_kind m) (dm_granule m) (dm_granules m).
Definition one_more_outside (s : direct_state) : direct_state :=
  DirectState (ds_used s) (ds_live_count s) (ds_live_bytes s) (ds_kind_count s) (ds_kind_bytes s)
    (ds_base s) (ds_next s) (u64 (ds_outside s + 1)) (ds_trace s).

(** The mapping at the hint, or where the kernel puts it when it refuses the hint. *)
Definition map_with_hint (hint bytes alignment : Z) (m : direct_mapping) (s : direct_state)
  : Z * Z * direct_mapping * direct_state :=
  let '(result, address, s1) := map_at hint bytes (dm_start m) alignment s in
  if negb (result =? 0) && negb (hint =? 0) then
    let '(m', s2) := region_give_in m s1 in
    let '(result', address', s3) := map_at 0 bytes (dm_start m) alignment s2 in
    (result', address', m', s3)
  else (result, address, m, s1).

(** The end of [ps5vk_direct_mapping_create] for a mapping that failed. *)
Definition create_failed (result : Z) (m : direct_mapping) (s : direct_state) : Z * direct_mapping * direct_state :=
  let '(m', s') := direct_mapping_destroy m s in
  (if result =? 0 then PS5VK_DIRECT_OUTSIDE_WINDOW else result, m', s').

(** [ps5vk_direct_mapping_create]; its assertions are conditions of the call. *)
Definition direct_mapping_create (bytes alignment : Z) (kind : direct_kind) (s : direct_state)
  : outcome (Z * direct_mapping * direct_state) :=
  if (bytes =? 0) || negb (bytes mod PS5VK_DIRECT_PAGE_BYTES =? 0) then Undefined
  else
    let '(result, start) := sceKernelAllocateDirectMemory (ds_trace s) bytes alignment in
    let s1 := with_event (EAllocate bytes alignment PS5VK_DIRECT_MEMORY_TYPE result start) s in
    if negb (result =? 0) then Ok (result, Mapping (-1) bytes 0 kind 0 0, s1)
    else
      let s2 := count_live kind bytes 1 s1 in
      let '(hint, m1, s3) := direct_mapping_hint (Mapping start bytes 0 kind 0 0) s2 in
      let '(result', address, m2, s4) := map_with_hint hint bytes alignment m1 s3 in
      if (result' =? 0) && negb (address =? 0) then
        let m3 := with_address address m2 in
        let '(m4, s5) := if negb (address =? hint) then region_give_in m3 s4 else (m3, s4) in
        if address_range_valid address bytes then Ok (0, m4, s5)
        else if bool_decide (kind = DIRECT_MEMORY) && gpu_range_valid address bytes then Ok (0, m4, one_more_outside s5)
        else Ok (create_failed result' m4 s5)
      else Ok (create_failed result' m2 s4).

(** ** What the state keeps true of the mappings held *)

Definition holds (g : Z) (m : direct_mapping) : Prop := dm_granule m <= g < dm_granule m + dm_granules m.
#[global] Instance holds_dec g m : Decision (holds g m).
Proof. unfold holds. apply _. Defined.

(** How many mappings hold a granule. *)
Definition holders (g : Z) (held : list direct_mapping) : nat := length (filter (holds g) held).

Definition if_kind (k : direct_kind) (f : direct_mapping -> Z) (m : direct_mapping) : Z :=
  if decide (dm_kind m = k) then f m else 0.
Definition one (_ : direct_mapping) : Z := 1.

(** What the kernel still has allocated after the calls of a trace. *)
Fixpoint allocated (trace : list event) : list (Z * Z) :=
  match trace with
  | [] => []
  | EAllocate bytes _ _ result start :: t => if decide (result = 0) then (start, bytes) :: allocated t else allocated t
  | ERelease start bytes _ :: t => remove_one (start, bytes) (allocated t)
  | _ :: t => allocated t
  end.

Definition allocation (m : direct_mapping) : Z * Z := (dm_start m, dm_bytes m).

(** The mappings [held] are exactly what the state accounts for: every granule
    that is marked has one holder, the counters count them, and the kernel has
    allocated their memory and no other. *)
Record balanced (s : direct_state) (held : list direct_mapping) : Prop := {
  bal_region : region_ok (ds_used s);
  bal_runs : Forall (fun m => in_region (dm_granule m) (dm_granules m)) held;
  bal_holders : forall g, 0 <= g < PS5VK_REGION_GRANULES ->
    holders g held = if granule_used (ds_used s) g then 1%nat else 0%nat;
  bal_count : ds_live_count s = u64 (total one held);
  bal_bytes : ds_live_bytes s = u64 (total dm_bytes held);
  bal_kinds : length (ds_kind_count s) = PS5VK_DIRECT_KIND_COUNT /\ length (ds_kind_bytes s) = PS5VK_DIRECT_KIND_COUNT;
  bal_kind_count : forall k, ds_kind_count s !!! kind_index k = u64 (total (if_kind k one) held);
  bal_kind_bytes : forall k, ds_kind_bytes s !!! kind_index k = u64 (total (if_kind k dm_bytes) held);
  bal_allocated : allocated (ds_trace s) ≡ₚ map allocation held
}.

#[global] Instance balanced_proper s : Proper ((≡ₚ) ==> iff) (balanced s).
Proof.
  assert (H : forall l l', l ≡ₚ l' -> balanced s l -> balanced s l').
  { intros l l' E B. destruct B. constructor; auto; try (intros; rewrite <- (total_perm _ _ _ E); auto).
    - now rewrite <- E.
    - intros g G. rewrite <- (bal_holders0 g G). unfold holders. now rewrite E.
    - rewrite bal_allocated0. now apply Permutation_map. }
  intros l l' E. split; apply H; [done|now symmetry].
Qed.

Lemma kind_index_inj k k' : kind_index k = kind_index k' -> k = k'.
Proof. destruct k, k'; simpl; congruence. Qed.

Lemma kind_index_lt k : (kind_index k < PS5VK_DIRECT_KIND_COUNT)%nat.
Proof. unfold PS5VK_DIRECT_KIND_COUNT. destruct k; simpl; lia. Qed.

Lemma bump_spec k k' delta l : length l = PS5VK_DIRECT_KIND_COUNT ->
  bump k delta l !!! kind_index k' = if decide (k = k') then u64 (l !!! kind_index k' + delta) else l !!! kind_index k'.
Proof.
  intros L. unfold bump. case_decide as D; [subst k'; apply list_lookup_total_insert_eq; rewrite L; apply kind_index_lt|].
  apply list_lookup_total_insert_ne. intros E. now apply kind_index_inj in E.
Qed.

Lemma bump_length k delta l : length (bump k delta l) = length l.
Proof. apply length_insert. Qed.

(** Counting a mapping in or out. *)
Lemma counted k delta f l held held' : length l = PS5VK_DIRECT_KIND_COUNT ->
  (forall k', l !!! kind_index k' = u64 (total (if_kind k' f) held)) ->
  (forall k', total (if_kind k' f) held' = total (if_kind k' f) held + if decide (k = k') then delta else 0) ->
  forall k', bump k delta l !!! kind_index k' = u64 (total (if_kind k' f) held').
Proof.
  intros L B T k'. rewrite bump_spec, T by done. case_decide; rewrite B; [apply u64_plus_l|now rewrite Z.add_0_r].
Qed.


(** ** The steps of the operations keep the balance *)

Lemma holders_cons g m held : holders g (m :: held) = ((if decide (holds g m) then 1 else 0) + holders g held)%nat.
Proof. unfold holders. rewrite filter_cons. case_decide; simpl; lia. Qed.

Lemma holds_none g m : dm_granules m = 0 -> ~ holds g m.
Proof. unfold holds. lia. Qed.

Lemma in_region_none first : in_region 0 0 /\ (0 <= first <= PS5VK_REGION_GRANULES -> in_region first 0).
Proof. pose proof granules_value. unfold in_region. lia. Qed.

(** The balance does not depend on where a mapping landed. *)
Lemma balanced_address s a m held : balanced s (m :: held) -> balanced s (with_address a m :: held).
Proof.
  intros []. constructor; try assumption.
  - inversion bal_runs0. now constructor.
  - intros g G. rewrite <- bal_holders0 by done. now rewrite !holders_cons.
Qed.

Definition neutral (e : event) : Prop := match e with EMap _ _ _ _ _ _ _ | EMunmap _ _ _ => True | _ => False end.

Lemma balanced_event e s held : neutral e -> balanced s held -> balanced (with_event e s) held.
Proof. intros N B. destruct B. constructor; auto. simpl. now destruct e. Qed.

Lemma balanced_outside s held : balanced s held -> balanced (one_more_outside s) held.
Proof. intros B. destruct B. constructor; auto. Qed.

Lemma balanced_base s base held : balanced s held -> balanced (snd (debug_device_memory_base s base)) held.
Proof. intros B. destruct B. constructor; auto. Qed.

Lemma balanced_allocate bytes alignment type start kind s held : balanced s held ->
  balanced (count_live kind bytes 1 (with_event (EAllocate bytes alignment type 0 start) s)) (Mapping start bytes 0 kind 0 0 :: held).
Proof.
  intros []. set (m := Mapping start bytes 0 kind 0 0). constructor; try assumption.
  - constructor; [exact (proj1 (in_region_none 0))|done].
  - intros g G. rewrite holders_cons, decide_False by (now apply holds_none). now apply bal_holders0.
  - simpl. rewrite bal_count0, u64_plus_l. f_equal. change (one m) with 1. lia.
  - simpl. rewrite bal_bytes0, u64_plus_l. f_equal. lia.
  - simpl. now rewrite !bump_length.
  - apply (counted kind 1 one _ held); [apply bal_kinds0|done|]. intros k'. simpl. unfold if_kind at 1, one at 1. simpl dm_kind. case_decide; lia.
  - apply (counted kind _ dm_bytes _ held); [apply bal_kinds0|done|]. intros k'. simpl. unfold if_kind at 1. simpl dm_kind. simpl dm_bytes. case_decide; lia.
  - simpl. now apply Permutation_skip.
Qed.

(** Releasing a mapping that holds no granules takes it out of the balance. *)
Lemma balanced_release m result s held : balanced s (m :: held) -> dm_granules m = 0 ->
  balanced (count_live (dm_kind m) (dm_bytes m) (-1) (with_event (ERelease (dm_start m) (dm_bytes m) result) s)) held.
Proof.
  intros [] G0. constructor; rewrite ?bump_length; auto.
  - now inversion bal_runs0.
  - intros g G. specialize (bal_holders0 g G). rewrite holders_cons, decide_False in bal_holders0 by (now apply holds_none). exact bal_holders0.
  - simpl. rewrite bal_count0, u64_plus_l. f_equal. simpl. unfold one at 1. lia.
  - simpl. rewrite bal_bytes0, u64_plus_l. f_equal. simpl. lia.
  - simpl. now rewrite !bump_length.
  - apply (counted _ (-1) one _ (m :: held)); [apply bal_kinds0|done|]. intros k'. simpl. unfold if_kind at 2, one at 2. case_decide; lia.
  - apply (counted _ _ dm_bytes _ (m :: held)); [apply bal_kinds0|done|]. intros k'. simpl. unfold if_kind at 2. case_decide; lia.
  - simpl. now apply remove_one_perm.
Qed.

Lemma balanced_used w m m' s held : balanced s (m :: held) -> region_ok w ->
  dm_start m' = dm_start m -> dm_bytes m' = dm_bytes m -> dm_kind m' = dm_kind m -> in_region (dm_granule m') (dm_granules m') ->
  (forall g, 0 <= g < PS5VK_REGION_GRANULES -> holders g (m' :: held) = if granule_used w g then 1%nat else 0%nat) ->
  balanced (with_used w s) (m' :: held).
Proof.
  intros [] W S B K I H. constructor; simpl in *; auto.
  - inversion bal_runs0. now constructor.
  - rewrite B. done.
  - intros k. rewrite bal_kind_count0. f_equal. unfold if_kind, one. now rewrite K.
  - intros k. rewrite bal_kind_bytes0. f_equal. unfold if_kind. now rewrite K, B.
  - rewrite bal_allocated0. unfold allocation. now rewrite S, B.
Qed.

Lemma balanced_give m s held : balanced s (m :: held) ->
  let '(m', s') := region_give_in m s in
  balanced s' (m' :: held) /\ dm_granules m' = 0 /\ dm_start m' = dm_start m /\ dm_bytes m' = dm_bytes m /\
  dm_kind m' = dm_kind m /\ dm_address m' = dm_address m.
Proof.
  intros B. pose proof (Forall_inv (bal_runs _ _ B)) as I. unfold region_give_in, region_give.
  destruct (dm_granules m =? 0) eqn:E; to_prop.
  - split; [|auto]. destruct s. exact B.
  - split; [|auto]. destruct (region_mark_spec false (ds_used s) _ _ (bal_region _ _ B) I) as [OK S].
    eapply balanced_used; eauto; simpl.
    + apply in_region_none. destruct I as (?&?&?). lia.
    + intros g G. rewrite S by done. pose proof (bal_holders _ _ B g G) as H. rewrite holders_cons in H |- *.
      rewrite decide_False by (now apply holds_none). unfold holds in H. destruct (granule_used (ds_used s) g); repeat case_decide; lia.
Qed.

Lemma balanced_take first count m s held : balanced s (m :: held) -> dm_granules m = 0 -> free_run (ds_used s) first count ->
  balanced (with_used (region_mark (ds_used s) first count true) s)
    (Mapping (dm_start m) (dm_bytes m) (dm_address m) (dm_kind m) first count :: held).
Proof.
  intros B G0 [I F]. destruct (region_mark_spec true (ds_used s) _ _ (bal_region _ _ B) I) as [OK S].
  eapply balanced_used; eauto; simpl. intros g G. rewrite S by done.
  pose proof (bal_holders _ _ B g G) as H. rewrite holders_cons in H |- *. rewrite decide_False in H by (now apply holds_none).
  unfold holds. simpl. repeat case_decide; try lia. rewrite F in H by lia. lia.
Qed.

(** ** The operations *)

Definition same_mapping (m m' : direct_mapping) : Prop :=
  dm_start m' = dm_start m /\ dm_bytes m' = dm_bytes m /\ dm_kind m' = dm_kind m.

(** A mapping that holds granules holds enough of them, at the address [a]. *)
Definition covers (a : Z) (m : direct_mapping) : Prop :=
  dm_granules m = 0 \/
  (dm_kind m = DIRECT_MEMORY /\ 0 < dm_granules m /\
   a = PS5VK_DEVICE_MEMORY_REGION + dm_granule m * PS5VK_DEVICE_MEMORY_GRANULE /\
   dm_bytes m <= dm_granules m * PS5VK_DEVICE_MEMORY_GRANULE).

(** What the caller may use: memory of its own at an address the GPU reaches
    the way the kind needs. *)
Definition usable (m : direct_mapping) : Prop :=
  0 <= dm_start m /\ 0 < dm_bytes m < 2 ^ 47 /\ dm_address m <> 0 /\ covers (dm_address m) m /\
  (address_range_valid (dm_address m) (dm_bytes m) = true \/
   dm_kind m = DIRECT_MEMORY /\ gpu_range_valid (dm_address m) (dm_bytes m) = true).

Context {L : DirectPlatformLaws P}.

(** The step [ps5vk_direct_mapping_hint] takes, for sizes the kernel can give. *)
Lemma granules_cover bytes : 0 < bytes < 2 ^ 47 ->
  let count := u32 (align64 bytes PS5VK_DEVICE_MEMORY_GRANULE / PS5VK_DEVICE_MEMORY_GRANULE) in
  0 < count /\ bytes <= count * PS5VK_DEVICE_MEMORY_GRANULE.
Proof.
  intros B. assert (E : align64 bytes PS5VK_DEVICE_MEMORY_GRANULE = (bytes + 2 ^ 21 - 1) / 2 ^ 21 * 2 ^ 21)
    by (apply (align64_rounds bytes 21); lia).
  cbv zeta. rewrite E. unfold PS5VK_DEVICE_MEMORY_GRANULE. change (2 ^ 21) with 2097152.
  rewrite Z.div_mul by lia. set (q := (bytes + 2097152 - 1) / 2097152).
  pose proof (Z.div_mod (bytes + 2097152 - 1) 2097152 ltac:(lia)) as D.
  pose proof (Z.mod_pos_bound (bytes + 2097152 - 1) 2097152 ltac:(lia)) as M. fold q in D. rewrite u32_small by lia. lia.
Qed.

Lemma hint_spec m s held : balanced s (m :: held) -> dm_granules m = 0 -> 0 < dm_bytes m < 2 ^ 47 ->
  let '(hint, m', s') := direct_mapping_hint m s in
  balanced s' (m' :: held) /\ same_mapping m m' /\ covers hint m'.
Proof.
  intros B G0 Hb. unfold direct_mapping_hint. case_bool_decide as K; simpl; [|unfold same_mapping, covers; auto 6].
  destruct (ds_base s =? 0) eqn:E; simpl.
  2:{ split; [|unfold same_mapping, covers; auto 6]. destruct B. constructor; assumption. }
  destruct (granules_cover (dm_bytes m) Hb) as [C1 C2].
  set (count := u32 _) in *. pose proof (region_take_spec (ds_used s) count (bal_region _ _ B) ltac:(lia)) as T.
  destruct (region_take (ds_used s) count) as [first w]. destruct T as [_ [(-> & -> & _)|(N & _ & [F _] & ->)]].
  - split; [|unfold same_mapping, covers; auto 6]. now destruct s.
  - destruct (first =? UINT32_MAX) eqn:X; to_prop; [lia|]. split; [now apply balanced_take|].
    split; [done|]. right. simpl. split_and!; try done. destruct F as [(?&?&?) _]. pose proof granules_value.
    unfold PS5VK_DEVICE_MEMORY_REGION, PS5VK_DEVICE_MEMORY_GRANULE. apply u64_small. lia.
Qed.

Lemma map_with_hint_spec hint bytes alignment m s held : balanced s (m :: held) -> covers hint m ->
  let '(_, _, m', s') := map_with_hint hint bytes alignment m s in
  balanced s' (m' :: held) /\ same_mapping m m' /\ covers hint m'.
Proof.
  intros B C. unfold map_with_hint, map_at. destruct (sceKernelMapDirectMemory _ _ _ _ _) as [r a].
  destruct (_ && _); [|split; [now apply balanced_event|split; done]].
  set (s1 := with_event _ s). assert (B1 : balanced s1 (m :: held)) by (now apply balanced_event).
  pose proof (balanced_give m s1 held B1) as G. destruct (region_give_in m s1) as [m' s2].
  destruct G as (B2 & Z0 & ? & ? & ? & ?). destruct (sceKernelMapDirectMemory _ _ _ _ _) as [r' a'].
  split; [now apply balanced_event|]. split; [done|now left].
Qed.

Lemma destroy_spec m s held : balanced s (m :: held) -> 0 <= dm_start m -> dm_bytes m <> 0 ->
  let '(m', s') := direct_mapping_destroy m s in
  balanced s' held /\ dm_start m' = -1 /\ dm_address m' = 0 /\ dm_granules m' = 0.
Proof.
  intros B S0 N. unfold direct_mapping_destroy. set (s1 := if negb (dm_address m =? 0) then _ else s).
  assert (B1 : balanced s1 (m :: held)) by (unfold s1; destruct (negb _); [now apply balanced_event|done]).
  destruct ((0 <=? dm_start m) && negb (dm_bytes m =? 0)) eqn:E.
  2:{ apply andb_false_iff in E as [E|E]; to_prop; lia. }
  set (e := ERelease _ _ _). pose proof (balanced_give m s1 held B1) as G. unfold region_give_in in *.
  change (ds_used (count_live _ _ _ (with_event e s1))) with (ds_used s1).
  destruct (region_give (ds_used s1) m) as [m' w]. destruct G as (B2 & Z0 & E1 & E2 & E3 & _). simpl.
  split; [|auto]. subst e. rewrite <- E1, <- E2, <- E3. exact (balanced_release _ _ _ _ B2 Z0).
Qed.

Lemma create_failed_spec result m s held : balanced s (m :: held) -> 0 <= dm_start m -> dm_bytes m <> 0 ->
  let '(r, m', s') := create_failed result m s in
  r <> 0 /\ balanced s' held /\ dm_start m' = -1 /\ dm_address m' = 0 /\ dm_granules m' = 0.
Proof.
  intros B S0 N. unfold create_failed. pose proof (destroy_spec m s held B S0 N) as D.
  destruct (direct_mapping_destroy m s) as [m' s']. destruct (result =? 0) eqn:E; to_prop; split; auto; done.
Qed.

(** What a finished creation leaves: one more mapping, usable, or nothing. *)
Definition created (bytes : Z) (kind : direct_kind) (held : list direct_mapping) (r : Z) (m : direct_mapping) (s : direct_state) : Prop :=
  (r = 0 /\ usable m /\ dm_bytes m = bytes /\ dm_kind m = kind /\ balanced s (m :: held)) \/
  (r <> 0 /\ balanced s held /\ dm_start m = -1 /\ dm_address m = 0 /\ dm_granules m = 0).

Lemma create_spec bytes alignment kind s held : balanced s held ->
  0 < bytes -> bytes mod PS5VK_DIRECT_PAGE_BYTES = 0 ->
  exists r m s', direct_mapping_create bytes alignment kind s = Ok (r, m, s') /\ created bytes kind held r m s'.
Proof.
  intros B Hb Hp. unfold direct_mapping_create.
  destruct (_ || _) eqn:E; [apply orb_true_iff in E as [E|E]; to_prop; lia|clear E].
  destruct (sceKernelAllocateDirectMemory _ _ _) as [r start] eqn:A. destruct (r =? 0) eqn:R; simpl; to_prop.
  2:{ do 3 eexists. split; [reflexivity|]. right. split; [done|]. split; [|done]. destruct B. constructor; try assumption.
      simpl. case_decide; done. }
  subst r. destruct (allocate_inside _ _ _ _ A) as [S0 S1]. pose proof direct_size_bound.
  pose proof (balanced_allocate bytes alignment PS5VK_DIRECT_MEMORY_TYPE start kind s held B) as B1.
  set (s1 := count_live _ _ _ _) in *. set (m := Mapping start bytes 0 kind 0 0) in *.
  pose proof (hint_spec m s1 held B1 eq_refl ltac:(simpl; lia)) as Hh.
  destruct (direct_mapping_hint m s1) as [[hint m1] s2]. destruct Hh as (B2 & (Sa & Sb & Sk) & C).
  pose proof (map_with_hint_spec hint bytes alignment m1 s2 held B2 C) as Hm.
  destruct (map_with_hint hint bytes alignment m1 s2) as [[[r a] m2] s3]. destruct Hm as (B3 & (Ta & Tb & Tk) & C3).
  assert (F : forall m' s', balanced s' (m' :: held) -> dm_start m' = start -> dm_bytes m' = bytes ->
    exists r' m'' s'', Ok (create_failed r m' s') = Ok (r', m'', s'') /\ created bytes kind held r' m'' s'').
  { intros m' s' B' E1 E2. pose proof (create_failed_spec r m' s' held B' ltac:(lia) ltac:(lia)) as D.
    destruct (create_failed r m' s') as [[r' m''] s'']. do 3 eexists. split; [reflexivity|now right]. }
  simpl in Sa, Sb, Sk. destruct (_ && _) eqn:E; [|apply F; [done|congruence|congruence]]. to_prop.
  pose proof (balanced_address s3 a m2 held B3) as B4. set (m3 := with_address a m2) in *.
  assert (G : exists m4 s4, (if negb (a =? hint) then region_give_in m3 s3 else (m3, s3)) = (m4, s4) /\
    balanced s4 (m4 :: held) /\ dm_start m4 = start /\ dm_bytes m4 = bytes /\ dm_kind m4 = kind /\ dm_address m4 = a /\ covers a m4).
  { destruct (a =? hint) eqn:X; simpl; to_prop.
    - subst a. exists m3, s3. split_and!; simpl; auto; try congruence.
    - pose proof (balanced_give m3 s3 held B4) as G. destruct (region_give_in m3 s3) as [m4 s4].
      destruct G as (? & ? & ? & ? & ? & ?). exists m4, s4. split_and!; simpl in *; auto; try congruence. now left. }
  destruct G as (m4 & s4 & -> & B5 & Ea & Eb & Ek & Ed & C5).
  assert (U : (address_range_valid a bytes = true \/ kind = DIRECT_MEMORY /\ gpu_range_valid a bytes = true) -> usable m4).
  { intros V. unfold usable. rewrite Ea, Eb, Ek, Ed. split_and!; auto; lia. }
  destruct (address_range_valid a bytes) eqn:V1; [do 3 eexists; split; [reflexivity|left; auto]|].
  destruct (bool_decide _ && _) eqn:V2; [|now apply F].
  to_prop. apply bool_decide_eq_true in H2. do 3 eexists. split; [reflexivity|]. left. split_and!; auto. now apply balanced_outside.
Qed.

(** ** Runs: any sequence of creations, destructions and test switches *)

Inductive direct_op :=
| OpCreate (bytes alignment : Z) (kind : direct_kind)
| OpDestroy (i : nat)
| OpBase (base : Z).

(** The callers' side of the assertions of [ps5vk_direct_mapping_create]. *)
Definition op_ok (op : direct_op) : bool :=
  match op with
  | OpCreate bytes _ _ => (0 <? bytes) && (bytes mod PS5VK_DIRECT_PAGE_BYTES =? 0)
  | _ => true
  end.

(** The state and the mappings the driver holds; a creation that fails is not
    held, a destruction names one of them. *)
Definition direct_step (x : direct_state * list direct_mapping) (op : direct_op) : direct_state * list direct_mapping :=
  let '(s, held) := x in
  match op with
  | OpCreate bytes alignment kind =>
      match direct_mapping_create bytes alignment kind s with
      | Ok (r, m, s') => if r =? 0 then (s', m :: held) else (s', held)
      | _ => (s, held)
      end
  | OpDestroy i =>
      match held !! i with
      | Some m => (snd (direct_mapping_destroy m s), delete i held)
      | None => (s, held)
      end
  | OpBase base => (snd (debug_device_memory_base s base), held)
  end.

Definition direct_run (ops : list direct_op) : direct_state * list direct_mapping :=
  fold_left direct_step ops (direct_init, []).

Definition direct_ok (x : direct_state * list direct_mapping) : Prop := balanced (fst x) (snd x) /\ Forall usable (snd x).

Lemma zero_region_ok : region_ok (replicate (Z.to_nat (PS5VK_REGION_GRANULES / 64)) 0).
Proof.
  split; [rewrite length_replicate; reflexivity|]. apply Forall_replicate. split; [reflexivity|]. apply Z.pow_pos_nonneg; lia.
Qed.

Lemma direct_init_ok : direct_ok (direct_init, []).
Proof.
  split; [|constructor]. constructor; unfold direct_init, ds_used, fst, snd; try reflexivity.
  - exact zero_region_ok.
  - constructor.
  - intros g G. rewrite granule_used_testbit. rewrite lookup_total_replicate_2; [now rewrite Z.bits_0|].
    apply (word_of_lt _ g zero_region_ok) in G. now rewrite length_replicate in G.
  - split; reflexivity.
  - intros k. destruct k; reflexivity.
  - intros k. destruct k; reflexivity.
Qed.

Lemma direct_step_ok x op : op_ok op = true -> direct_ok x -> direct_ok (direct_step x op).
Proof.
  destruct x as [s held]. intros O [B U]. destruct op as [bytes alignment kind|i|base]; simpl in *.
  - to_prop. destruct (create_spec bytes alignment kind s held B H H0) as (r & m & s' & -> & [C|C]).
    + destruct C as (-> & Um & _ & _ & B'). simpl. split; [exact B'|]. now constructor.
    + destruct C as (R & B' & _). destruct (r =? 0) eqn:E; to_prop; [done|]. split; [exact B'|done].
  - destruct (held !! i) as [m|] eqn:E; [|split; done].
    pose proof (Forall_lookup_1 _ _ _ _ U E) as (S0 & Sb & _).
    rewrite (delete_Permutation _ _ _ E) in B. pose proof (destroy_spec m s (delete i held) B S0 ltac:(lia)) as D.
    destruct (direct_mapping_destroy m s) as [m' s']. split; [apply D|]. simpl. now apply Forall_delete.
  - split; [now apply balanced_base|done].
Qed.

Lemma direct_run_ok ops : forallb op_ok ops = true -> direct_ok (direct_run ops).
Proof.
  unfold direct_run. generalize direct_init_ok. generalize (direct_init, @nil direct_mapping). clear -L.
  induction ops as [|op ops IH]; intros x X O; simpl in *; [done|]. to_prop. apply IH; [|done]. now apply direct_step_ok.
Qed.

(** Two mappings that hold a granule of the region do not share one. *)
Lemma holders_disjoint s held i j m m' g : balanced s held -> i <> j -> held !! i = Some m -> held !! j = Some m' ->
  holds g m -> holds g m' -> False.
Proof.
  intros B N I J H H'. assert (G : 0 <= g < PS5VK_REGION_GRANULES).
  { pose proof (Forall_lookup_1 _ _ _ _ (bal_runs _ _ B) I) as (?&?&?). unfold holds in H. lia. }
  rewrite (delete_Permutation _ _ _ I) in B.
  assert (Jd : exists k, delete i held !! k = Some m').
  { destruct (decide (j < i)%nat).
    - exists j. now rewrite list_lookup_delete_lt.
    - exists (j - 1)%nat. rewrite list_lookup_delete_ge by lia. now replace (S (j - 1)) with j by lia. }
  destruct Jd as [k K]. rewrite (delete_Permutation _ _ _ K) in B. pose proof (bal_holders _ _ B g G) as E.
  rewrite !holders_cons, !decide_True in E by done. destruct (granule_used _ _); lia.
Qed.

(** [ps5vk_region_take] is first fit: it takes the lowest run of free
    granules of the size asked for and marks exactly that run, and it gives up
    only when the region has no such run, leaving the region as it is. *)
Theorem region_take_first_fit w count : region_ok w -> 0 <= count ->
  let '(first, w') := region_take w count in
  region_ok w' /\
  ((first = UINT32_MAX /\ w' = w /\ (count = 0 \/ forall f, ~ free_run w f count)) \/
   (first < UINT32_MAX /\ is_first_fit w count first /\
    forall g, 0 <= g < PS5VK_REGION_GRANULES ->
      granule_used w' g = if decide (first <= g < first + count) then true else granule_used w g)).
Proof.
  intros OK C. pose proof (region_take_spec w count OK C) as S. destruct (region_take w count) as [first w'].
  destruct S as [OK' [S|(N & _ & F & ->)]]; split; auto. right. split; [done|]. split; [done|].
  apply region_mark_spec; [done|apply F].
Qed.

(** C30: in every run of the driver, whatever the kernel answers, the state
    accounts for exactly the mappings held - every marked granule has one
    holder, the live counters count them, the kernel has allocated their memory
    and no other - and every mapping held is one the GPU reaches as its kind needs. *)
Theorem direct_memory_accounted ops : forallb op_ok ops = true ->
  let '(s, held) := direct_run ops in
  Forall usable held /\
  (forall g, 0 <= g < PS5VK_REGION_GRANULES ->
     holders g held = if granule_used (ds_used s) g then 1%nat else 0%nat) /\
  direct_memory_live s = (u64 (total one held), u64 (total dm_bytes held)) /\
  (forall k, direct_memory_kind_live s k = (u64 (total (if_kind k one) held), u64 (total (if_kind k dm_bytes) held))) /\
  allocated (ds_trace s) ≡ₚ map allocation held.
Proof.
  intros O. pose proof (direct_run_ok ops O) as [B U]. destruct (direct_run ops) as [s held]. simpl in *.
  unfold direct_memory_live, direct_memory_kind_live. destruct B. split_and!; auto; [congruence|intros; congruence].
Qed.

(** Two mappings the driver holds at the same time in the device memory
    region never overlap: the address ranges of their bytes are disjoint. *)
Theorem placed_mappings_disjoint ops i j m m' : forallb op_ok ops = true ->
  snd (direct_run ops) !! i = Some m -> snd (direct_run ops) !! j = Some m' -> i <> j ->
  dm_granules m <> 0 -> dm_granules m' <> 0 ->
  dm_address m + dm_bytes m <= dm_address m' \/ dm_address m' + dm_bytes m' <= dm_address m.
Proof.
  intros O I J N G G'. pose proof (direct_run_ok ops O) as [B U].
  pose proof (Forall_lookup_1 _ _ _ _ U I) as (_ & _ & _ & [C|(_ & C1 & C2 & C3)] & _); [done|].
  pose proof (Forall_lookup_1 _ _ _ _ U J) as (_ & _ & _ & [C'|(_ & C1' & C2' & C3')] & _); [done|].
  assert (D : dm_granule m + dm_granules m <= dm_granule m' \/ dm_granule m' + dm_granules m' <= dm_granule m).
  { destruct (decide (dm_granule m + dm_granules m <= dm_granule m' \/ dm_granule m' + dm_granules m' <= dm_granule m)); [done|].
    exfalso. apply (holders_disjoint _ _ i j m m' (dm_granule m `max` dm_granule m') B N I J); unfold holds; lia. }
  rewrite C2, C2'. unfold PS5VK_DEVICE_MEMORY_GRANULE in *. lia.
Qed.

(** A creation that fails leaves nothing behind, wherever it failed: the
    region's granules, the counters and what the kernel has allocated are as
    before it, and the mapping is empty. *)
Theorem failed_create_leaves_nothing bytes alignment kind s held r m s' :
  balanced s held -> 0 < bytes -> direct_mapping_create bytes alignment kind s = Ok (r, m, s') -> r <> 0 ->
  (forall g, 0 <= g < PS5VK_REGION_GRANULES -> granule_used (ds_used s') g = granule_used (ds_used s) g) /\
  direct_memory_live s' = direct_memory_live s /\
  (forall k, direct_memory_kind_live s' k = direct_memory_kind_live s k) /\
  allocated (ds_trace s') ≡ₚ allocated (ds_trace s) /\
  dm_start m = -1 /\ dm_address m = 0 /\ dm_granules m = 0.
Proof.
  intros B Hb E R. assert (Hp : bytes mod PS5VK_DIRECT_PAGE_BYTES = 0).
  { unfold direct_mapping_create in E. destruct (_ || _) eqn:X; [discriminate|]. now to_prop. }
  destruct (create_spec bytes alignment kind s held B Hb Hp) as (r0 & m0 & s0 & E0 & C).
  rewrite E0 in E. injection E as -> -> ->. destruct C as [[? _]|(_ & B' & M)]; [done|].
  unfold direct_memory_live, direct_memory_kind_live. split_and!; try apply M.
  - intros g G. pose proof (bal_holders _ _ B g G) as H1. pose proof (bal_holders _ _ B' g G) as H2.
    rewrite H1 in H2. destruct (granule_used (ds_used s) g), (granule_used (ds_used s') g); done.
  - now rewrite (bal_count _ _ B), (bal_count _ _ B'), (bal_bytes _ _ B), (bal_bytes _ _ B').
  - intros k. now rewrite (bal_kind_count _ _ B), (bal_kind_count _ _ B'), (bal_kind_bytes _ _ B), (bal_kind_bytes _ _ B').
  - now rewrite (bal_allocated _ _ B), (bal_allocated _ _ B').
Qed.

End Mappings.

(** ** A kernel to run the operations on

    It allocates while the size fits and maps where it is asked, except that it
    refuses to map at all once [limit] calls have been made. *)

Definition toy_direct (limit : Z) : DirectPlatform := {|
  sceKernelGetDirectMemorySize := 2 ^ 34;
  sceKernelAllocateDirectMemory := fun _ bytes _ => if bytes <=? 2 ^ 34 then (0, 0) else (5, -1);
  sceKernelMapDirectMemory := fun trace hint _ _ _ =>
    if Z.of_nat (length trace) <? limit then (0, if hint =? 0 then 8589934592 else hint) else (12, 0);
  sceKernelMunmap := fun _ _ _ => 0;
  sceKernelReleaseDirectMemory := fun _ _ _ => 0;
  align64 := fun value alignment => (value + alignment - 1) / alignment * alignment
|}.

#[global] Instance toy_direct_laws limit : DirectPlatformLaws (toy_direct limit).
Proof.
  split; simpl; [lia| |intros; done]. intros _ bytes _ start E. destruct (bytes <=? 2 ^ 34) eqn:X; [|done].
  injection E as <-. apply Z.leb_le in X. change (2 ^ 34) with 17179869184 in *. lia.
Qed.

Definition toy_ops : list direct_op := [OpCreate 16384 16384 DIRECT_MEMORY; OpCreate 4194304 16384 DIRECT_MEMORY; OpCreate 16384 16384 DIRECT_TABLES].

Lemma region_take_first_fit_witness :
  let w := replicate (Z.to_nat (PS5VK_REGION_GRANULES / 64)) 0 in
  let '(first, w') := region_take w 3 in
  region_ok w' /\
  ((first = UINT32_MAX /\ w' = w /\ (3 = 0 \/ forall f, ~ free_run w f 3)) \/
   (first < UINT32_MAX /\ is_first_fit w 3 first /\
    forall g, 0 <= g < PS5VK_REGION_GRANULES ->
      granule_used w' g = if decide (first <= g < first + 3) then true else granule_used w g)).
Proof. exact (region_take_first_fit _ 3 zero_region_ok ltac:(lia)). Defined.

Lemma direct_memory_accounted_witness :
  let '(s, held) := direct_run (P := toy_direct 100) toy_ops in
  Forall usable held /\
  (forall g, 0 <= g < PS5VK_REGION_GRANULES ->
     holders g held = if granule_used (ds_used s) g then 1%nat else 0%nat) /\
  direct_memory_live s = (u64 (total one held), u64 (total dm_bytes held)) /\
  (forall k, direct_memory_kind_live s k = (u64 (total (if_kind k one) held), u64 (total (if_kind k dm_bytes) held))) /\
  allocated (ds_trace s) ≡ₚ map allocation held.
Proof. exact (direct_memory_accounted (P := toy_direct 100) toy_ops eq_refl). Defined.

Lemma placed_mappings_disjoint_witness :
  274877906944 + 16384 <= 274880004096 \/ 274880004096 + 4194304 <= 274877906944.
Proof.
  apply (placed_mappings_disjoint (P := toy_direct 100) toy_ops 2 1
    (Mapping 0 16384 274877906944 DIRECT_MEMORY 0 1) (Mapping 0 4194304 274880004096 DIRECT_MEMORY 1 2));
    try (vm_compute; reflexivity); try (vm_compute; intros; discriminate); intros; discriminate.
Defined.

Lemma failed_create_leaves_nothing_witness :
  match direct_mapping_create (P := toy_direct 1) 16384 16384 DIRECT_MEMORY direct_init with
  | Ok (r, m, s') => r <> 0 /\
      allocated (ds_trace s') ≡ₚ [] /\ (forall g, 0 <= g < PS5VK_REGION_GRANULES -> granule_used (ds_used s') g = granule_used (ds_used direct_init) g)
  | _ => False
  end.
Proof.
  assert (N : match direct_mapping_create (P := toy_direct 1) 16384 16384 DIRECT_MEMORY direct_init with
              | Ok (r, _, _) => r =? 0 | _ => true end = false) by (vm_compute; reflexivity).
  destruct (direct_mapping_create _ _ _ _) as [[[r m] s']| |] eqn:E; [|discriminate|discriminate].
  assert (R : r <> 0) by (intros ->; discriminate).
  pose proof (failed_create_leaves_nothing 16384 16384 DIRECT_MEMORY direct_init [] r m s'
    (proj1 direct_init_ok) ltac:(lia) E R) as (H1 & _ & _ & H2 & _).
  split; [exact R|]. split; [exact H2|exact H1].
Defined.
