(* ===== verification/DescriptorLayout.v ===== *)
(** * Descriptor set layouts ([src/driver/ps5vk_descriptor_set_layout.c])

    A layout numbers the records of a set and places the bindings' entries in
    the table the shader reads.  The creation is a pass that stores the
    application's bindings by number and one that accumulates offsets, record
    indices and dynamic-offset indices, all in 32 bits. *)

From Stdlib Require Import ZArith Lia.
From stdpp Require Import base numbers list.
From S2P Require Import Prelude DriverPrelude.
Open Scope Z_scope.

(** ** Data *)

(** [VkDescriptorType]; zeroed memory reads as a sampler. *)
Inductive descriptor_type :=
| SAMPLER | COMBINED_IMAGE_SAMPLER | SAMPLED_IMAGE | STORAGE_IMAGE | UNIFORM_TEXEL_BUFFER | STORAGE_TEXEL_BUFFER
| UNIFORM_BUFFER | STORAGE_BUFFER | UNIFORM_BUFFER_DYNAMIC | STORAGE_BUFFER_DYNAMIC | INPUT_ATTACHMENT
| OTHER_TYPE (value : Z) | TYPE_MAX_ENUM.

#[global] Instance descriptor_type_eq_dec : EqDecision descriptor_type.
Proof. solve_decision. Defined.

(** [struct ps5vk_descriptor_binding] *)
Record descriptor_binding := Binding {
  b_type : descriptor_type;
  b_count : Z;
  b_stages : Z;
  b_offset : Z;
  b_stride : Z;
  b_dynamic_index : Z;
  b_record_index : Z
}.

#[global] Instance descriptor_binding_eq_dec : EqDecision descriptor_binding.
Proof. solve_decision. Defined.

Definition zeroed_binding : descriptor_binding := Binding SAMPLER 0 0 0 0 0 0.
#[global] Instance descriptor_binding_inhabited : Inhabited descriptor_binding := populate zeroed_binding.

(** [struct ps5vk_descriptor_set_layout]; its binding count is the length. *)
Record set_layout := SetLayout {
  l_bindings : list descriptor_binding;
  l_table_bytes : Z;
  l_descriptor_count : Z
}.

#[global] Instance set_layout_eq_dec : EqDecision set_layout.
Proof. solve_decision. Defined.

(** [VkDescriptorSetLayoutBinding] *)
Record source_binding := SourceBinding {
  sb_binding : Z;
  sb_type : descriptor_type;
  sb_count : Z;
  sb_stages : Z
}.

(** ** Operations *)

Definition PS5VK_UNIFORM_BUFFER_DESCRIPTOR_BYTES : Z := 16.
Definition PS5VK_TEXEL_BUFFER_DESCRIPTOR_BYTES : Z := 16.
Definition PS5VK_STORAGE_IMAGE_DESCRIPTOR_BYTES : Z := 32.
Definition PS5VK_STORAGE_BUFFER_DESCRIPTOR_BYTES : Z := 16.
Definition PS5VK_COMBINED_IMAGE_SAMPLER_DESCRIPTOR_BYTES : Z := 48.

(** [ps5vk_descriptor_stride] *)
Definition descriptor_stride (t : descriptor_type) : Z :=
  match t with
  | UNIFORM_BUFFER | UNIFORM_BUFFER_DYNAMIC => PS5VK_UNIFORM_BUFFER_DESCRIPTOR_BYTES
  | COMBINED_IMAGE_SAMPLER => PS5VK_COMBINED_IMAGE_SAMPLER_DESCRIPTOR_BYTES
  | STORAGE_BUFFER => PS5VK_STORAGE_BUFFER_DESCRIPTOR_BYTES
  | UNIFORM_TEXEL_BUFFER | STORAGE_TEXEL_BUFFER => PS5VK_TEXEL_BUFFER_DESCRIPTOR_BYTES
  | STORAGE_IMAGE | INPUT_ATTACHMENT => PS5VK_STORAGE_IMAGE_DESCRIPTOR_BYTES
  | SAMPLER | SAMPLED_IMAGE => PS5VK_COMBINED_IMAGE_SAMPLER_DESCRIPTOR_BYTES
  | _ => 0
  end.

(** The highest binding number and one, in [uint32_t]. *)
Definition count_bindings (sources : list source_binding) : Z :=
  fold_left (fun n source => Z.max n (u32 (sb_binding source + 1))) sources 0.

(** The body of the first loop: the binding is stored by number.  Outside the
    array, and on a number met before (the assertion), it is undefined. *)
Definition store_binding (bindings : list descriptor_binding) (source : source_binding) : outcome (list descriptor_binding) :=
  match bindings !! Z.to_nat (sb_binding source) with
  | Some b =>
      if negb (b_count b =? 0) then Undefined
      else Ok (<[Z.to_nat (sb_binding source) :=
                 Binding (sb_type source) (sb_count source) (sb_stages source) (b_offset b)
                   (descriptor_stride (sb_type source)) (b_dynamic_index b) (b_record_index b)]> bindings)
  | None => Undefined
  end.

(** Where the second loop stands: [offset], [layout->descriptor_count] and
    [dynamic_index]. *)
Record cursor := Cursor { c_offset : Z; c_records : Z; c_dynamic : Z }.

Definition is_dynamic (b : descriptor_binding) : bool := bool_decide (b_type b = UNIFORM_BUFFER_DYNAMIC).

(** The body of the second loop. *)
Definition place_binding (c : cursor) (b : descriptor_binding) : descriptor_binding * cursor :=
  (Binding (b_type b) (b_count b) (b_stages b) (c_offset c) (b_stride b)
     (if is_dynamic b then c_dynamic c else b_dynamic_index b) (c_records c),
   Cursor (u32 (c_offset c + u32 (b_count b * b_stride b))) (u32 (c_records c + b_count b))
     (if is_dynamic b then u32 (c_dynamic c + b_count b) else c_dynamic c)).

Fixpoint place_bindings (c : cursor) (bindings : list descriptor_binding) : list descriptor_binding * cursor :=
  match bindings with
  | [] => ([], c)
  | b :: rest => let '(b', c') := place_binding c b in
                 let '(rest', c'') := place_bindings c' rest in
                 (b' :: rest', c'')
  end.

(** [ps5vk_CreateDescriptorSetLayout]; [zalloc] is whether Mesa's allocation
    succeeded, [None] is [VK_ERROR_OUT_OF_HOST_MEMORY]. *)
Definition CreateDescriptorSetLayout (zalloc : bool) (sources : list source_binding) : outcome (option set_layout) :=
  let binding_count := count_bindings sources in
  if negb zalloc then Ok None
  else
    let! bindings := for_each store_binding (replicate (Z.to_nat binding_count) zeroed_binding) sources in
    let '(placed, c) := place_bindings (Cursor 0 0 0) bindings in
    Ok (Some (SetLayout placed (c_offset c) (c_records c))).

(** The counters and the limits of [ps5vk_GetDescriptorSetLayoutSupport]. *)
Record support := Support {
  su_samplers : Z; su_uniform : Z; su_uniform_dynamic : Z; su_storage : Z; su_storage_dynamic : Z;
  su_sampled : Z; su_storage_images : Z; su_input : Z; su_total : Z; su_known : bool
}.

Record layout_limits := LayoutLimits {
  maxPerSetDescriptors : Z; maxDescriptorSetSamplers : Z; maxDescriptorSetUniformBuffers : Z;
  maxDescriptorSetUniformBuffersDynamic : Z; maxDescriptorSetStorageBuffers : Z;
  maxDescriptorSetStorageBuffersDynamic : Z; maxDescriptorSetSampledImages : Z;
  maxDescriptorSetStorageImages : Z; maxDescriptorSetInputAttachments : Z
}.

(** The loop's body: the sums are [uint64_t]. *)
Definition count_support (s : support) (source : source_binding) : support :=
  let '(Support samplers uniform uniform_dynamic storage storage_dynamic sampled images input total known) := s in
  let count := sb_count source in
  let total := u64 (total + count) in
  let known := known && negb (descriptor_stride (sb_type source) =? 0) in
  match sb_type source with
  | SAMPLER => Support (u64 (samplers + count)) uniform uniform_dynamic storage storage_dynamic sampled images input total known
  | COMBINED_IMAGE_SAMPLER =>
      Support (u64 (samplers + count)) uniform uniform_dynamic storage storage_dynamic (u64 (sampled + count)) images input total known
  | SAMPLED_IMAGE | UNIFORM_TEXEL_BUFFER =>
      Support samplers uniform uniform_dynamic storage storage_dynamic (u64 (sampled + count)) images input total known
  | STORAGE_IMAGE | STORAGE_TEXEL_BUFFER =>
      Support samplers uniform uniform_dynamic storage storage_dynamic sampled (u64 (images + count)) input total known
  | UNIFORM_BUFFER => Support samplers (u64 (uniform + count)) uniform_dynamic storage storage_dynamic sampled images input total known
  | UNIFORM_BUFFER_DYNAMIC => Support samplers uniform (u64 (uniform_dynamic + count)) storage storage_dynamic sampled images input total known
  | STORAGE_BUFFER => Support samplers uniform uniform_dynamic (u64 (storage + count)) storage_dynamic sampled images input total known
  | STORAGE_BUFFER_DYNAMIC => Support samplers uniform uniform_dynamic storage (u64 (storage_dynamic + count)) sampled images input total known
  | INPUT_ATTACHMENT => Support samplers uniform uniform_dynamic storage storage_dynamic sampled images (u64 (input + count)) total known
  | _ => Support samplers uniform uniform_dynamic storage storage_dynamic sampled images input total false
  end.

(** [ps5vk_GetDescriptorSetLayoutSupport] *)
Definition GetDescriptorSetLayoutSupport (limits : layout_limits) (sources : list source_binding) : bool :=
  let s := fold_left count_support sources (Support 0 0 0 0 0 0 0 0 0 true) in
  su_known s && (su_total s <=? maxPerSetDescriptors limits) &&
  (su_samplers s <=? maxDescriptorSetSamplers limits) &&
  (u64 (su_uniform s + su_uniform_dynamic s) <=? maxDescriptorSetUniformBuffers limits) &&
  (su_uniform_dynamic s <=? maxDescriptorSetUniformBuffersDynamic limits) &&
  (u64 (su_storage s + su_storage_dynamic s) <=? maxDescriptorSetStorageBuffers limits) &&
  (su_storage_dynamic s <=? maxDescriptorSetStorageBuffersDynamic limits) &&
  (su_sampled s <=? maxDescriptorSetSampledImages limits) &&
  (su_storage_images s <=? maxDescriptorSetStorageImages limits) &&
  (su_input s <=? maxDescriptorSetInputAttachments limits).

(** ** What a layout promises *)

Definition table_bytes_of (b : descriptor_binding) : Z := b_count b * b_stride b.
Definition dynamic_count (b : descriptor_binding) : Z := if is_dynamic b then b_count b else 0.

(** Records, table bytes and dynamic offsets are numbered by the bindings
    before, in binding order and without overflow. *)
Record layout_ok (l : set_layout) : Prop := {
  lo_counts : Forall (fun b => 0 <= b_count b) (l_bindings l);
  lo_strides : Forall (fun b => 0 <= b_stride b) (l_bindings l);
  lo_records : forall i b, l_bindings l !! i = Some b -> b_record_index b = total b_count (take i (l_bindings l));
  lo_offsets : forall i b, l_bindings l !! i = Some b -> b_offset b = total table_bytes_of (take i (l_bindings l));
  lo_dynamic : forall i b, l_bindings l !! i = Some b -> is_dynamic b = true ->
    b_dynamic_index b = total dynamic_count (take i (l_bindings l));
  lo_descriptors : l_descriptor_count l = total b_count (l_bindings l);
  lo_table : l_table_bytes l = total table_bytes_of (l_bindings l);
  lo_small : l_descriptor_count l < 2 ^ 32 /\ l_table_bytes l < 2 ^ 32
}.

Lemma table_bytes_nonneg l : Forall (fun b => 0 <= b_count b) l -> Forall (fun b => 0 <= b_stride b) l ->
  Forall (fun b => 0 <= table_bytes_of b) l.
Proof. intros C S. rewrite Forall_forall in *. intros b B. apply Z.mul_nonneg_nonneg; auto. Qed.

Lemma dynamic_count_le l : Forall (fun b => 0 <= b_count b) l -> 0 <= total dynamic_count l <= total b_count l.
Proof. induction 1; simpl; [lia|]. unfold dynamic_count at 1 3. destruct (is_dynamic x); lia. Qed.

(** The place a binding gets in the second loop, from where the loop began. *)
Definition placed_at (c : cursor) (before : list descriptor_binding) (b : descriptor_binding) : descriptor_binding :=
  Binding (b_type b) (b_count b) (b_stages b) (c_offset c + total table_bytes_of before) (b_stride b)
    (if is_dynamic b then c_dynamic c + total dynamic_count before else b_dynamic_index b) (c_records c + total b_count before).

Lemma place_bindings_spec l c : Forall (fun b => 0 <= b_count b) l -> Forall (fun b => 0 <= b_stride b) l ->
  0 <= c_offset c -> 0 <= c_records c -> 0 <= c_dynamic c <= c_records c ->
  c_offset c + total table_bytes_of l < 2 ^ 32 -> c_records c + total b_count l < 2 ^ 32 ->
  place_bindings c l =
    (imap (fun i b => placed_at c (take i l) b) l,
     Cursor (c_offset c + total table_bytes_of l) (c_records c + total b_count l) (c_dynamic c + total dynamic_count l)).
Proof.
  revert c. induction l as [|b l IH]; intros c C S O R D To Tr; simpl in *.
  { destruct c; simpl. now rewrite !Z.add_0_r. }
  inversion C as [|?? Cb Cl]; inversion S as [|?? Sb Sl]; subst. pose proof (table_bytes_nonneg l Cl Sl) as Tl.
  pose proof (total_ge_0 _ _ Tl). pose proof (total_ge_0 _ _ Cl). pose proof (dynamic_count_le l Cl).
  assert (0 <= table_bytes_of b) by (now apply Z.mul_nonneg_nonneg). unfold place_binding. fold (table_bytes_of b).
  assert (E1 : u32 (c_offset c + u32 (table_bytes_of b)) = c_offset c + table_bytes_of b) by (rewrite (u32_small (table_bytes_of b)), u32_small by lia; done).
  assert (E2 : u32 (c_records c + b_count b) = c_records c + b_count b) by (apply u32_small; lia).
  assert (E3 : (if is_dynamic b then u32 (c_dynamic c + b_count b) else c_dynamic c) = c_dynamic c + dynamic_count b).
  { unfold dynamic_count. destruct (is_dynamic b); [apply u32_small; lia|lia]. }
  rewrite E1, E2, E3.
  assert (Db : 0 <= dynamic_count b <= b_count b) by (unfold dynamic_count; destruct (is_dynamic b); lia).
  rewrite IH; simpl; auto; try lia. f_equal; [|f_equal; lia]. f_equal.
  - unfold placed_at. simpl. rewrite !Z.add_0_r. done.
  - apply imap_ext. intros i b' _. unfold placed_at; simpl. f_equal; try lia. destruct (is_dynamic b'); lia.
Qed.

Lemma placed_layout_ok l : Forall (fun b => 0 <= b_count b) l -> Forall (fun b => 0 <= b_stride b) l ->
  total table_bytes_of l < 2 ^ 32 -> total b_count l < 2 ^ 32 ->
  let '(placed, c) := place_bindings (Cursor 0 0 0) l in
  layout_ok (SetLayout placed (c_offset c) (c_records c)) /\
  c_records c = total b_count l /\ c_offset c = total table_bytes_of l /\
  forall i b, l !! i = Some b -> exists b', placed !! i = Some b' /\
    b_type b' = b_type b /\ b_count b' = b_count b /\ b_stages b' = b_stages b /\ b_stride b' = b_stride b.
Proof.
  intros C S To Tr. rewrite place_bindings_spec by (auto; simpl; lia). simpl.
  set (placed := imap _ l).
  assert (M : forall i b', placed !! i = Some b' -> exists b, l !! i = Some b /\ b' = placed_at (Cursor 0 0 0) (take i l) b).
  { intros i b' E. unfold placed in E. rewrite list_lookup_imap in E. destruct (l !! i) as [b|]; [|done]. injection E as <-. eauto. }
  assert (T : forall (f : descriptor_binding -> Z) n, (forall before b, f (placed_at (Cursor 0 0 0) before b) = f b) ->
    total f (take n placed) = total f (take n l)).
  { intros f n F. apply (total_take_imap f (fun i b => placed_at (Cursor 0 0 0) (take i l) b) f). auto. }
  assert (Td : forall before b, dynamic_count (placed_at (Cursor 0 0 0) before b) = dynamic_count b) by done.
  assert (A : forall f, total f (take (length l) placed) = total f placed).
  { intros f. rewrite take_ge; [done|]. unfold placed. now rewrite length_imap. }
  split_and!; [|done|done|].
  - constructor; cbn [l_bindings l_table_bytes l_descriptor_count].
    + apply Forall_lookup_2. intros i b' E. apply M in E as (b & E & ->). exact (Forall_lookup_1 _ _ _ _ C E).
    + apply Forall_lookup_2. intros i b' E. apply M in E as (b & E & ->). exact (Forall_lookup_1 _ _ _ _ S E).
    + intros i b' E. apply M in E as (b & E & ->). now rewrite T.
    + intros i b' E. apply M in E as (b & E & ->). now rewrite T.
    + intros i b' E D. apply M in E as (b & E & ->). rewrite T by done. unfold placed_at, b_dynamic_index. 
      change (is_dynamic (placed_at (Cursor 0 0 0) (take i l) b)) with (is_dynamic b) in D. now rewrite D.
    + rewrite <- A, T, firstn_all by done. done.
    + rewrite <- A, T, firstn_all by done. done.
    + lia.
  - intros i b E. unfold placed. rewrite list_lookup_imap, E. simpl. eauto 10.
Qed.

(** ** The first loop *)

Definition source_bytes (s : source_binding) : Z := sb_count s * descriptor_stride (sb_type s).
Definition number (s : source_binding) : nat := Z.to_nat (sb_binding s).

(** Valid usage: binding numbers are unique; and the sizes are ones a layout
    can describe in 32 bits. *)
Definition sources_ok (sources : list source_binding) : Prop :=
  NoDup (sb_binding <$> sources) /\
  Forall (fun s => 0 <= sb_binding s < UINT32_MAX /\ 0 <= sb_count s) sources /\
  total sb_count sources < 2 ^ 32 /\ total source_bytes sources < 2 ^ 32.

Definition stored (s : source_binding) : descriptor_binding :=
  Binding (sb_type s) (sb_count s) (sb_stages s) 0 (descriptor_stride (sb_type s)) 0 0.

Lemma descriptor_stride_nonneg t : 0 <= descriptor_stride t.
Proof. destruct t; simpl; try lia; vm_compute; discriminate. Qed.

(** The array after some of the application's bindings. *)
Definition storing (n : nat) (seen : list source_binding) (l : list descriptor_binding) : Prop :=
  length l = n /\ (forall s, s ∈ seen -> l !! number s = Some (stored s)) /\
  (forall i, (i < n)%nat -> i ∉ number <$> seen -> l !! i = Some zeroed_binding) /\
  Forall (fun b => 0 <= b_count b) l /\ Forall (fun b => 0 <= b_stride b) l /\
  total b_count l = total sb_count seen /\ total table_bytes_of l = total source_bytes seen.

Lemma store_step n seen s l : storing n seen l -> (number s < n)%nat -> number s ∉ number <$> seen -> 0 <= sb_count s ->
  exists l', store_binding l s = Ok l' /\ storing n (s :: seen) l'.
Proof.
  intros (L & S & U & C & St & Tc & Tb) N F Hc. pose proof (U _ N F) as E. unfold store_binding. fold (number s). rewrite E. simpl.
  eexists. split; [reflexivity|]. fold (stored s). split_and!.
  - now rewrite length_insert.
  - intros s' I. apply elem_of_cons in I as [->|I]; [apply list_lookup_insert_eq; lia|].
    rewrite list_lookup_insert_ne; [now apply S|]. intros E'. apply F. rewrite E'. apply list_elem_of_fmap. eauto.
  - intros i I NI. simpl in NI. rewrite not_elem_of_cons in NI. destruct NI. rewrite list_lookup_insert_ne by done. now apply U.
  - now apply Forall_insert.
  - apply Forall_insert; [done|]. apply descriptor_stride_nonneg.
  - rewrite (total_insert _ _ _ _ _ E), Tc. simpl. lia.
  - rewrite (total_insert _ _ _ _ _ E), Tb. unfold table_bytes_of, source_bytes. simpl. unfold source_bytes. lia.
Qed.

Lemma layout_store_loop n rest seen l : storing n seen l -> NoDup (number <$> (rest ++ seen)) ->
  Forall (fun s => (number s < n)%nat /\ 0 <= sb_count s) rest ->
  exists l', for_each store_binding l rest = Ok l' /\ storing n (rev rest ++ seen) l'.
Proof.
  revert seen l. induction rest as [|s rest IH]; intros seen l S N F; simpl in *; [eauto|].
  inversion F as [|?? [Fn Fc] F']; subst. apply NoDup_cons in N as [NI N].
  destruct (store_step n seen s l S Fn) as (l' & -> & S'); [|done|].
  { intros I. apply NI. rewrite fmap_app. apply elem_of_app. now right. }
  simpl. destruct (IH (s :: seen) l' S') as (l'' & -> & S'').
  - rewrite fmap_app in N |- *. simpl. rewrite <- Permutation_middle. apply NoDup_cons. split; [|done]. now rewrite <- fmap_app.
  - done.
  - exists l''. split; [done|]. now rewrite <- app_assoc.
Qed.

Lemma count_bindings_max sources n s : Forall (fun s => 0 <= sb_binding s < UINT32_MAX) sources ->
  let m := fold_left (fun n source => Z.max n (u32 (sb_binding source + 1))) sources n in
  n <= m /\ (s ∈ sources -> sb_binding s < m).
Proof.
  intros F. revert n. induction F as [|s' sources F' _ IH]; intros n; simpl; [split; [lia|intros I; inversion I]|].
  destruct (IH (Z.max n (u32 (sb_binding s' + 1)))) as [I1 I2]. split; [lia|]. intros I. apply elem_of_cons in I as [->|I]; [|auto].
  unfold UINT32_MAX in F'. rewrite u32_small in * by lia. lia.
Qed.

Lemma number_nodup sources : NoDup (sb_binding <$> sources) -> Forall (fun s => 0 <= sb_binding s < UINT32_MAX /\ 0 <= sb_count s) sources ->
  NoDup (number <$> sources).
Proof.
  induction sources as [|s sources IH]; simpl; intros N F; [constructor|]. apply NoDup_cons in N as [NI N].
  inversion F as [|?? [Fs _] F']; subst. apply NoDup_cons. split; [|auto]. intros I. apply NI.
  apply list_elem_of_fmap in I as (s' & E & I). apply list_elem_of_fmap. exists s'. split; [|exact I].
  rewrite Forall_forall in F'. destruct (F' s' I) as [? _]. unfold number in E. lia.
Qed.

Lemma create_layout_spec sources : sources_ok sources ->
  exists l, CreateDescriptorSetLayout true sources = Ok (Some l) /\ layout_ok l /\
    l_descriptor_count l = total sb_count sources /\ l_table_bytes l = total source_bytes sources /\
    (forall s, s ∈ sources -> exists b, l_bindings l !! number s = Some b /\ b_type b = sb_type s /\
       b_count b = sb_count s /\ b_stages b = sb_stages s /\ b_stride b = descriptor_stride (sb_type s)) /\
    (forall i j b b', l_bindings l !! i = Some b -> l_bindings l !! j = Some b' -> (i < j)%nat ->
       b_record_index b + b_count b <= b_record_index b' /\
       b_record_index b' + b_count b' <= l_descriptor_count l /\
       b_offset b + table_bytes_of b <= b_offset b' /\
       b_offset b' + table_bytes_of b' <= l_table_bytes l).
Proof.
  intros (N & F & Tc & Tb). unfold CreateDescriptorSetLayout. simpl.
  set (n := Z.to_nat (count_bindings sources)).
  assert (F1 : Forall (fun s => 0 <= sb_binding s < UINT32_MAX) sources) by (eapply Forall_impl; [exact F|]; simpl; tauto).
  destruct (layout_store_loop n sources [] (replicate n zeroed_binding)) as (l & -> & S).
  - split_and!; simpl; [apply length_replicate|intros s I; inversion I|intros; now apply lookup_replicate_2|..];
      try (apply Forall_replicate; simpl; lia); rewrite total_replicate; apply Z.mul_0_r.
  - rewrite app_nil_r. now apply number_nodup.
  - rewrite Forall_forall in F |- *. intros s I. destruct (F s I) as [Fs Fc]. split; [|done].
    assert (M : sb_binding s < count_bindings sources) by exact (proj2 (count_bindings_max sources 0 s F1) I). unfold number, n. lia.
  - rewrite app_nil_r in S. destruct S as (_ & S & _ & C & St & Sc & Sb).
    rewrite <- (total_perm sb_count _ _ (reverse_Permutation sources)), <- (total_perm source_bytes _ _ (reverse_Permutation sources)) in *.
    unfold reverse in *. rewrite <- rev_alt in *. simpl.
    pose proof (placed_layout_ok l C St ltac:(lia) ltac:(lia)) as P. destruct (place_bindings _ l) as [placed c].
    destruct P as (P & E1 & E2 & K). eexists. split; [reflexivity|]. split; [exact P|]. cbn [l_descriptor_count l_table_bytes l_bindings].
    split; [congruence|]. split; [congruence|]. split.
    + intros s I. destruct (K _ _ (S s ltac:(apply elem_of_reverse in I; unfold reverse in I; now rewrite <- rev_alt in I))) as (b' & B & ? & ? & ? & ?).
      exists b'. simpl in *. auto.
    + intros i j b b' Bi Bj Lt. destruct P as [Pc Ps Pr Po _ Pd Pt _]. cbn [l_descriptor_count l_table_bytes l_bindings] in *.
      pose proof (table_bytes_nonneg placed Pc Ps) as Pb. rewrite Pd, Pt, (Pr _ _ Bi), (Pr _ _ Bj), (Po _ _ Bi), (Po _ _ Bj).
      rewrite <- (total_take_S b_count _ _ _ Bi), <- (total_take_S b_count _ _ _ Bj), <- (total_take_S table_bytes_of _ _ _ Bi), <- (total_take_S table_bytes_of _ _ _ Bj).
      split_and!; try (apply total_take_max; assumption); apply total_take_le; auto; lia.
Qed.

(** C35: creating a layout from bindings that describe less than 4 GiB of
    records and table numbers them as the rest of the driver relies on: each
    binding keeps its type, count and stages under its own number, and the
    records, table bytes and dynamic offsets of distinct bindings are disjoint
    ranges inside the set's. *)
Theorem layout_places_bindings sources : sources_ok sources ->
  exists l, CreateDescriptorSetLayout true sources = Ok (Some l) /\ layout_ok l /\
    l_descriptor_count l = total sb_count sources /\ l_table_bytes l = total source_bytes sources /\
    (forall s, s ∈ sources -> exists b, l_bindings l !! number s = Some b /\ b_type b = sb_type s /\
       b_count b = sb_count s /\ b_stages b = sb_stages s /\ b_stride b = descriptor_stride (sb_type s)) /\
    (forall i j b b', l_bindings l !! i = Some b -> l_bindings l !! j = Some b' -> (i < j)%nat ->
       b_record_index b + b_count b <= b_record_index b' /\
       b_record_index b' + b_count b' <= l_descriptor_count l /\
       b_offset b + table_bytes_of b <= b_offset b' /\
       b_offset b' + table_bytes_of b' <= l_table_bytes l).
Proof. apply create_layout_spec. Qed.

Definition sample_sources : list source_binding :=
  [SourceBinding 3 UNIFORM_BUFFER_DYNAMIC 2 1; SourceBinding 0 COMBINED_IMAGE_SAMPLER 4 16; SourceBinding 5 STORAGE_BUFFER 1 32].

Lemma sample_sources_ok : sources_ok sample_sources.
Proof. split_and!; [refine (bool_decide_unpack _ _); reflexivity|repeat constructor; vm_compute; discriminate|reflexivity|reflexivity]. Qed.

Definition sample_layout : set_layout :=
  match CreateDescriptorSetLayout true sample_sources with Ok (Some l) => l | _ => SetLayout [] 0 0 end.

Lemma sample_layout_ok : layout_ok sample_layout.
Proof. unfold sample_layout. destruct (create_layout_spec sample_sources sample_sources_ok) as (l & -> & L & _). exact L. Qed.

Lemma layout_places_bindings_witness :
  exists l, CreateDescriptorSetLayout true sample_sources = Ok (Some l) /\ l_descriptor_count l = 7 /\ l_table_bytes l = 240.
Proof. destruct (layout_places_bindings sample_sources sample_sources_ok) as (l & E & _ & D & T & _). exists l. split; [exact E|]. split; [exact D|exact T]. Defined.

(** ** Layout support *)

(** The descriptors of some types in a layout. *)
Definition class_total (p : descriptor_type -> bool) (sources : list source_binding) : Z :=
  total (fun s => if p (sb_type s) then sb_count s else 0) sources.

Definition is_type (types : list descriptor_type) (t : descriptor_type) : bool := bool_decide (t ∈ types).

(** The counters after the loop, as sums over the bindings. *)
Definition support_of (sources : list source_binding) (known : bool) : support :=
  let c types := class_total (is_type types) sources in
  Support (c [SAMPLER; COMBINED_IMAGE_SAMPLER]) (c [UNIFORM_BUFFER]) (c [UNIFORM_BUFFER_DYNAMIC]) (c [STORAGE_BUFFER])
    (c [STORAGE_BUFFER_DYNAMIC]) (c [COMBINED_IMAGE_SAMPLER; SAMPLED_IMAGE; UNIFORM_TEXEL_BUFFER])
    (c [STORAGE_IMAGE; STORAGE_TEXEL_BUFFER]) (c [INPUT_ATTACHMENT]) (class_total (fun _ => true) sources)
    (known && forallb (fun s => negb (descriptor_stride (sb_type s) =? 0)) sources).

Lemma class_total_le p sources : Forall (fun s => 0 <= sb_count s < 2 ^ 32) sources ->
  0 <= class_total p sources <= Z.of_nat (length sources) * (2 ^ 32 - 1).
Proof. unfold class_total. induction 1; simpl; [lia|]. destruct (p (sb_type x)); lia. Qed.

Lemma class_total_snoc p sources s : class_total p (sources ++ [s]) = class_total p sources + if p (sb_type s) then sb_count s else 0.
Proof. unfold class_total. rewrite total_app. simpl. lia. Qed.

Lemma count_support_step sources s : Forall (fun s => 0 <= sb_count s < 2 ^ 32) (sources ++ [s]) -> Z.of_nat (length (sources ++ [s])) < 2 ^ 32 ->
  count_support (support_of sources true) s = support_of (sources ++ [s]) true.
Proof.
  intros F L. unfold support_of. rewrite forallb_app. simpl forallb. rewrite andb_true_r.
  assert (B : forall p, 0 <= class_total p (sources ++ [s]) < 18446744073709551616).
  { intros p. pose proof (class_total_le p _ F). lia. }
  pose proof (fun p => B p) as B'. setoid_rewrite class_total_snoc in B'.
  rewrite !class_total_snoc.
  assert (U : forall p, p (sb_type s) = true -> u64 (class_total p sources + sb_count s) = class_total p sources + sb_count s).
  { intros p P. specialize (B' p). rewrite P in B'. now apply u64_small. }
  unfold count_support. destruct (sb_type s) eqn:T; cbn [is_type];
    repeat match goal with |- context [if is_type ?l ?t then _ else _] => change (is_type l t) with (bool_decide (t ∈ l)) end;
    rewrite ?U by (rewrite ?T; reflexivity); simpl; rewrite ?Z.add_0_r, ?andb_true_r, ?andb_false_r; reflexivity.
Qed.

Lemma count_support_all sources : Forall (fun s => 0 <= sb_count s < 2 ^ 32) sources -> Z.of_nat (length sources) < 2 ^ 32 ->
  fold_left count_support sources (Support 0 0 0 0 0 0 0 0 0 true) = support_of sources true.
Proof.
  induction sources as [|s sources IH] using rev_ind; intros F L; [reflexivity|].
  rewrite fold_left_app. simpl. rewrite IH; [now apply count_support_step|now apply Forall_app in F|rewrite length_app in L; lia].
Qed.

Lemma class_total_two p q sources : Forall (fun s => 0 <= sb_count s < 2 ^ 32) sources -> (forall t, p t = true -> q t = false) ->
  0 <= class_total p sources + class_total q sources <= class_total (fun _ => true) sources.
Proof. intros F E. unfold class_total. induction F as [|x l Hx _ IH]; simpl; [lia|]. specialize (E (sb_type x)). destruct (p (sb_type x)); [rewrite E by done|destruct (q (sb_type x))]; lia. Qed.

(** A layout is reported supported exactly when every binding has a type
    the driver writes and the descriptors of each class stay within the
    device's limit; the 64-bit sums are exact for any application's bindings. *)
Theorem layout_support_exact limits sources :
  Forall (fun s => 0 <= sb_count s < 2 ^ 32) sources -> Z.of_nat (length sources) < 2 ^ 32 ->
  let c types := class_total (is_type types) sources in
  GetDescriptorSetLayoutSupport limits sources = true <->
  (Forall (fun s => descriptor_stride (sb_type s) <> 0) sources /\
   class_total (fun _ => true) sources <= maxPerSetDescriptors limits /\
   c [SAMPLER; COMBINED_IMAGE_SAMPLER] <= maxDescriptorSetSamplers limits /\
   c [UNIFORM_BUFFER] + c [UNIFORM_BUFFER_DYNAMIC] <= maxDescriptorSetUniformBuffers limits /\
   c [UNIFORM_BUFFER_DYNAMIC] <= maxDescriptorSetUniformBuffersDynamic limits /\
   c [STORAGE_BUFFER] + c [STORAGE_BUFFER_DYNAMIC] <= maxDescriptorSetStorageBuffers limits /\
   c [STORAGE_BUFFER_DYNAMIC] <= maxDescriptorSetStorageBuffersDynamic limits /\
   c [COMBINED_IMAGE_SAMPLER; SAMPLED_IMAGE; UNIFORM_TEXEL_BUFFER] <= maxDescriptorSetSampledImages limits /\
   c [STORAGE_IMAGE; STORAGE_TEXEL_BUFFER] <= maxDescriptorSetStorageImages limits /\
   c [INPUT_ATTACHMENT] <= maxDescriptorSetInputAttachments limits).
Proof.
  intros F L. cbv zeta. unfold GetDescriptorSetLayoutSupport. rewrite count_support_all by done. unfold support_of. simpl.
  pose proof (class_total_le (fun _ => true) _ F).
  pose proof (class_total_two (is_type [UNIFORM_BUFFER]) (is_type [UNIFORM_BUFFER_DYNAMIC]) _ F ltac:(intros []; done)).
  pose proof (class_total_two (is_type [STORAGE_BUFFER]) (is_type [STORAGE_BUFFER_DYNAMIC]) _ F ltac:(intros []; done)).
  rewrite !u64_small by lia. rewrite !andb_true_iff, !Z.leb_le, forallb_forall, Forall_forall.
  assert (K : (forall x, In x sources -> negb (descriptor_stride (sb_type x) =? 0) = true) <->
              (forall x, x ∈ sources -> descriptor_stride (sb_type x) <> 0)).
  { split; intros K x I; specialize (K x); rewrite <- list_elem_of_In in *; specialize (K I); [now to_prop|now apply negb_true_iff, Z.eqb_neq]. }
  rewrite K. tauto.
Qed.

Definition sample_limits : layout_limits := LayoutLimits 1024 16 12 8 4 4 16 4 4.

Lemma layout_support_exact_witness :
  GetDescriptorSetLayoutSupport sample_limits sample_sources = true <->
  (Forall (fun s => descriptor_stride (sb_type s) <> 0) sample_sources /\
   7 <= 1024 /\ 4 <= 16 /\ 0 + 2 <= 12 /\ 2 <= 8 /\ 1 + 0 <= 4 /\ 0 <= 4 /\ 4 <= 16 /\ 0 <= 4 /\ 0 <= 4).
Proof. exact (layout_support_exact sample_limits sample_sources ltac:(repeat constructor; vm_compute; discriminate) eq_refl). Defined.
