(* ===== verification/DescriptorSets.v ===== *)
(** * Descriptor pools, sets and their bindings ([src/driver/ps5vk_descriptor_set.c])

    A pool counts the descriptors of each type no set holds, and owns its sets;
    a set holds a record for each array element of its layout; a command buffer
    binds sets, with their dynamic offsets, or pushes sets of its own.  Sets
    are objects of a heap, named by handles, since one is reachable from its
    pool, from the application and from command buffers; the references the
    sets hold on layouts are the list [h_refs]. *)

From Stdlib Require Import ZArith Lia.
From stdpp Require Import base numbers list gmap.
From S2P Require Import Prelude DriverPrelude DescriptorLayout.
Open Scope Z_scope.

(** ** Data *)

(** [struct ps5vk_descriptor_buffer] *)
Record descriptor_record := Descriptor {
  r_address : Z;
  r_size : Z;
  r_type : descriptor_type;
  r_view : Z;
  r_sampler : Z;
  r_buffer_view : Z
}.

Definition zero_record (t : descriptor_type) : descriptor_record := Descriptor 0 0 t 0 0 0.
#[global] Instance descriptor_record_inhabited : Inhabited descriptor_record := populate (zero_record SAMPLER).

(** [struct ps5vk_descriptor_set], less its link in the pool's list. *)
Record descriptor_set := DescriptorSet {
  s_layout : set_layout;
  s_push : bool;
  s_buffers : list descriptor_record
}.

(** The sets allocated from the device, by handle; zero is the null handle. *)
Abbreviation handle := Z.
Record heap := Heap {
  h_sets : gmap Z descriptor_set;
  h_refs : list set_layout
}.

(** [struct ps5vk_descriptor_pool_size] *)
Record pool_size := PoolSize { ps_type : descriptor_type; ps_remaining : Z }.

(** [struct ps5vk_descriptor_pool]: [dp_sets] is the list linked through
    [next_in_pool], newest first. *)
Record descriptor_pool := DescriptorPool {
  dp_sets : list handle;
  dp_set_count : Z;
  dp_max_sets : Z;
  dp_sizes : list pool_size
}.

Inductive vk_result := SUCCESS | OUT_OF_POOL_MEMORY | OUT_OF_HOST_MEMORY | UNKNOWN.

#[global] Instance vk_result_eq_dec : EqDecision vk_result.
Proof. solve_decision. Defined.

(** Mesa's object allocator: the handle of a fresh object of a size, or nothing. *)
Class Allocator := { vk_object_zalloc : heap -> Z -> option handle }.
Class AllocatorLaws (A : Allocator) := {
  zalloc_fresh : forall h bytes a, vk_object_zalloc h bytes = Some a -> a <> 0 /\ h_sets h !! a = None
}.

(** [sizeof(struct ps5vk_descriptor_set)] and of a record are only passed on. *)
Definition set_bytes (layout : set_layout) : Z := u64 (l_descriptor_count layout).

(** ** Pools *)

(** [ps5vk_descriptor_pool_find]: the index of the type's entry. *)
Fixpoint pool_find (sizes : list pool_size) (t : descriptor_type) : option nat :=
  match sizes with
  | [] => None
  | s :: rest => if bool_decide (ps_type s = t) then Some 0%nat else S <$> pool_find rest t
  end.

Definition remaining_of (sizes : list pool_size) (t : descriptor_type) : option Z :=
  pool_find sizes t ≫= fun i => ps_remaining <$> sizes !! i.

(** [ps5vk_descriptor_pool_has] *)
Definition pool_has (sizes : list pool_size) (layout : set_layout) : bool :=
  forallb (fun b => (b_count b =? 0) ||
    match remaining_of sizes (b_type b) with None => false | Some remaining => negb (remaining <? b_count b) end)
    (l_bindings layout).

(** [pool_find(pool, type)->remaining += delta]: no entry is a null dereference. *)
Definition pool_change (sizes : list pool_size) (t : descriptor_type) (delta : Z) : outcome (list pool_size) :=
  match pool_find sizes t with
  | None => Undefined
  | Some i => Ok (alter (fun s => PoolSize (ps_type s) (u32 (ps_remaining s + delta))) i sizes)
  end.

(** [ps5vk_descriptor_pool_take], [ps5vk_descriptor_pool_give] *)
Definition pool_take (sizes : list pool_size) (layout : set_layout) : outcome (list pool_size) :=
  for_each (fun sizes b => if negb (b_count b =? 0) then pool_change sizes (b_type b) (- b_count b) else Ok sizes) sizes (l_bindings layout).
Definition pool_give (sizes : list pool_size) (layout : set_layout) : outcome (list pool_size) :=
  for_each (fun sizes b => if negb (b_count b =? 0) then pool_change sizes (b_type b) (b_count b) else Ok sizes) sizes (l_bindings layout).

Definition with_sizes (sizes : list pool_size) (p : descriptor_pool) : descriptor_pool :=
  DescriptorPool (dp_sets p) (dp_set_count p) (dp_max_sets p) sizes.

(** [ps5vk_descriptor_set_release]: the handle must name a live set. *)
Definition set_release (p : descriptor_pool) (h : heap) (a : handle) : outcome (descriptor_pool * heap) :=
  match h_sets h !! a with
  | None => Undefined
  | Some set =>
      let! sizes := pool_give (dp_sizes p) (s_layout set) in
      Ok (with_sizes sizes p, Heap (delete a (h_sets h)) (remove_one (s_layout set) (h_refs h)))
  end.

(** [ps5vk_descriptor_pool_unlink] *)
Definition pool_unlink (p : descriptor_pool) (a : handle) : option descriptor_pool :=
  if bool_decide (a ∈ dp_sets p)
  then Some (DescriptorPool (remove_one a (dp_sets p)) (u32 (dp_set_count p - 1)) (dp_max_sets p) (dp_sizes p))
  else None.

(** Unlinks the set and releases it, when the pool holds it. *)
Definition unlink_release (x : descriptor_pool * heap) (a : handle) : outcome (descriptor_pool * heap) :=
  match (if negb (a =? 0) then pool_unlink (fst x) a else None) with
  | Some p => set_release p (snd x) a
  | None => Ok x
  end.

(** [ps5vk_descriptor_pool_clear]: the list loses its head in each pass. *)
Fixpoint pool_clear_loop (sets : list handle) (p : descriptor_pool) (h : heap) : outcome (descriptor_pool * heap) :=
  match sets with
  | [] => Ok (p, h)
  | a :: rest =>
      let p' := match pool_unlink p a with Some p' => p' | None => p end in
      let! x := set_release p' h a in pool_clear_loop rest (fst x) (snd x)
  end.
Definition pool_clear (p : descriptor_pool) (h : heap) : outcome (descriptor_pool * heap) := pool_clear_loop (dp_sets p) p h.

(** [ps5vk_CreateDescriptorPool] after its flag check: [alloc] is whether the
    object was allocated, and the sizes are taken as the application gave them. *)
Definition FREE_DESCRIPTOR_SET_BIT : Z := 1.
Definition CreateDescriptorPool (alloc : bool) (flags max_sets : Z) (pool_sizes : list (descriptor_type * Z))
  : outcome (vk_result * option descriptor_pool) :=
  if negb (Z.land flags (Z.lnot FREE_DESCRIPTOR_SET_BIT) =? 0) then Ok (UNKNOWN, None)
  else if negb (0 <? max_sets) then Undefined
  else if negb alloc then Ok (OUT_OF_HOST_MEMORY, None)
  else Ok (SUCCESS, Some (DescriptorPool [] 0 max_sets ((fun '(t, n) => PoolSize t n) <$> pool_sizes))).

(** [ps5vk_DestroyDescriptorPool] and [ps5vk_ResetDescriptorPool] *)
Definition DestroyDescriptorPool (pool : option descriptor_pool) (h : heap) : outcome heap :=
  match pool with
  | None => Ok h
  | Some p => let! x := pool_clear p h in Ok (snd x)
  end.
Definition ResetDescriptorPool (pool : option descriptor_pool) (flags : Z) (h : heap) : outcome (option descriptor_pool * heap) :=
  if negb (flags =? 0) then Undefined
  else match pool with
       | None => Ok (None, h)
       | Some p => let! x := pool_clear p h in Ok (Some (fst x), snd x)
       end.

Section Allocate.
Context `{A : Allocator}.

(** One iteration of [ps5vk_AllocateDescriptorSets]: a set of the layout. *)
Definition allocate_one (p : descriptor_pool) (h : heap) (layout : set_layout)
  : outcome (vk_result * handle * descriptor_pool * heap) :=
  if negb (pool_has (dp_sizes p) layout) then Ok (OUT_OF_POOL_MEMORY, 0, p, h)
  else
    let! sizes := pool_take (dp_sizes p) layout in
    match vk_object_zalloc h (set_bytes layout) with
    | None => let! sizes' := pool_give sizes layout in Ok (OUT_OF_HOST_MEMORY, 0, with_sizes sizes' p, h)
    | Some a =>
        let set := DescriptorSet layout false (replicate (Z.to_nat (l_descriptor_count layout)) (zero_record TYPE_MAX_ENUM)) in
        Ok (SUCCESS, a, DescriptorPool (a :: dp_sets p) (u32 (dp_set_count p + 1)) (dp_max_sets p) sizes,
            Heap (<[a := set]> (h_sets h)) (layout :: h_refs h))
    end.

(** The loop: it stops at the first failure; the handles so far, newest first. *)
Fixpoint allocate_loop (layouts : list set_layout) (made : list handle) (p : descriptor_pool) (h : heap)
  : outcome (vk_result * list handle * descriptor_pool * heap) :=
  match layouts with
  | [] => Ok (SUCCESS, made, p, h)
  | layout :: rest =>
      let! x := allocate_one p h layout in
      match x with
      | (SUCCESS, a, p', h') => allocate_loop rest (a :: made) p' h'
      | (result, _, p', h') => Ok (result, made, p', h')
      end
  end.

(** The rollback: from the last set made to the first. *)
Definition roll_back (made : list handle) (p : descriptor_pool) (h : heap) : outcome (descriptor_pool * heap) :=
  for_each unlink_release (p, h) made.

(** [ps5vk_AllocateDescriptorSets]; the handles are those left in
    [pDescriptorSets]. *)
Definition AllocateDescriptorSets (p : descriptor_pool) (h : heap) (layouts : list set_layout)
  : outcome (vk_result * list handle * descriptor_pool * heap) :=
  let null := replicate (length layouts) 0 in
  if dp_max_sets p <? u32 (dp_set_count p + Z.of_nat (length layouts)) then Ok (OUT_OF_POOL_MEMORY, null, p, h)
  else
    let! x := allocate_loop layouts [] p h in
    match x with
    | (SUCCESS, made, p', h') => Ok (SUCCESS, reverse made, p', h')
    | (result, made, p', h') => let! y := roll_back made p' h' in Ok (result, null, fst y, snd y)
    end.

End Allocate.

(** [ps5vk_FreeDescriptorSets] *)
Definition FreeDescriptorSets (pool : option descriptor_pool) (h : heap) (sets : list handle) : outcome (option descriptor_pool * heap) :=
  match pool with
  | None => Ok (None, h)
  | Some p => let! x := for_each unlink_release (p, h) sets in Ok (Some (fst x), snd x)
  end.

(** ** What a pool accounts for

    [charged init w]: the pool's sizes once [w t] descriptors of each type are
    taken, modulo 2^32, from the sizes it was created with.  Only the first
    entry of a type is ever used. *)

Definition charged (init : list pool_size) (w : descriptor_type -> Z) : list pool_size :=
  imap (fun i s => PoolSize (ps_type s)
    (u32 (ps_remaining s - if decide (pool_find init (ps_type s) = Some i) then w (ps_type s) else 0))) init.

(** The descriptors of a type a layout needs, and a list of layouts. *)
Definition needs (t : descriptor_type) (bindings : list descriptor_binding) : Z :=
  total (fun b => if decide (b_type b = t) then b_count b else 0) bindings.
Definition held (t : descriptor_type) (layouts : list set_layout) : Z := total (fun l => needs t (l_bindings l)) layouts.

(** Every type the bindings need has an entry in the pool. *)
Definition known (init : list pool_size) (bindings : list descriptor_binding) : Prop :=
  Forall (fun b => b_count b = 0 \/ is_Some (pool_find init (b_type b))) bindings.

Lemma pool_find_spec sizes t i : pool_find sizes t = Some i ->
  exists s, sizes !! i = Some s /\ ps_type s = t /\ forall j s', sizes !! j = Some s' -> ps_type s' = t -> (i <= j)%nat.
Proof.
  revert i. induction sizes as [|s sizes IH]; intros i E; simpl in *; [done|]. case_bool_decide as T.
  - injection E as <-. exists s. split_and!; try done. intros; lia.
  - destruct (pool_find sizes t) as [j|]; [|done]. injection E as <-. destruct (IH j eq_refl) as (s' & L & Ts & M).
    exists s'. split_and!; try done. intros [|k] s'' K Tk; simpl in K; [congruence|]. specialize (M k s'' K Tk). lia.
Qed.

(** The search only looks at the types. *)
Lemma pool_find_types sizes sizes' t : ps_type <$> sizes = ps_type <$> sizes' -> pool_find sizes t = pool_find sizes' t.
Proof. revert sizes'. induction sizes as [|s l IH]; intros [|s' l'] E; simplify_eq/=; [done|]. now rewrite H, (IH l'). Qed.

Lemma charged_types init w : ps_type <$> charged init w = ps_type <$> init.
Proof. unfold charged. rewrite fmap_imap. rewrite <- (imap_const (A := pool_size)). apply imap_ext. done. Qed.

Lemma charged_ext init w w' : (forall t, w t = w' t) -> charged init w = charged init w'.
Proof. intros E. apply imap_ext. intros i s _. f_equal. now rewrite E. Qed.

Lemma charged_lookup init w i : charged init w !! i =
  (fun s => PoolSize (ps_type s) (u32 (ps_remaining s - if decide (pool_find init (ps_type s) = Some i) then w (ps_type s) else 0))) <$> init !! i.
Proof. unfold charged. now rewrite list_lookup_imap. Qed.

Lemma pool_change_charged init w t delta i : pool_find init t = Some i ->
  pool_change (charged init w) t delta = Ok (charged init (fun t' => w t' - if decide (t' = t) then delta else 0)).
Proof.
  intros F. unfold pool_change. rewrite (pool_find_types _ init _ (charged_types init w)), F. f_equal.
  apply list_eq. intros j. destruct (pool_find_spec _ _ _ F) as (s & Ls & Ts & _).
  destruct (decide (j = i)) as [->|N].
  - rewrite list_lookup_alter_eq, !charged_lookup, Ls. simpl. rewrite Ts, !(decide_True (P := pool_find init t = Some i)) by done.
    rewrite decide_True by done. f_equal. f_equal. rewrite u32_add_l. f_equal. lia.
  - rewrite list_lookup_alter_ne, !charged_lookup by done. destruct (init !! j) as [s'|] eqn:Lj; [|done]. simpl. f_equal. f_equal. f_equal. f_equal.
    case_decide as D; [|done]. rewrite decide_False; [lia|]. intros E. rewrite E, F in D. congruence.
Qed.

Lemma needs_cons t b l : needs t (b :: l) = (if decide (b_type b = t) then b_count b else 0) + needs t l.
Proof. done. Qed.

Lemma pool_step_charged init w b sign : (b_count b = 0 \/ is_Some (pool_find init (b_type b))) -> sign = 1 \/ sign = -1 ->
  (if negb (b_count b =? 0) then pool_change (charged init w) (b_type b) (sign * b_count b) else Ok (charged init w)) =
  Ok (charged init (fun t => w t - sign * needs t [b])).
Proof.
  intros K Sg. destruct (b_count b =? 0) eqn:E; simpl; to_prop.
  - f_equal. apply charged_ext. intros t. unfold needs. simpl. case_decide; lia.
  - destruct K as [K|[i K]]; [done|]. rewrite (pool_change_charged _ _ _ _ _ K). f_equal. apply charged_ext. intros t. unfold needs. simpl.
    repeat case_decide; subst; try done; lia.
Qed.

Lemma pool_take_charged init w layout : known init (l_bindings layout) ->
  pool_take (charged init w) layout = Ok (charged init (fun t => w t + needs t (l_bindings layout))).
Proof.
  unfold pool_take, known. generalize (l_bindings layout). intros l K. revert w.
  induction K as [|b l Kb _ IH]; intros w; simpl; [f_equal; apply charged_ext; intros; unfold needs; simpl; lia|].
  replace (- b_count b) with (-1 * b_count b) by lia. rewrite pool_step_charged by auto. simpl. rewrite IH. f_equal. apply charged_ext.
  intros t. unfold needs. simpl. lia.
Qed.

Lemma pool_give_charged init w layout : known init (l_bindings layout) ->
  pool_give (charged init w) layout = Ok (charged init (fun t => w t - needs t (l_bindings layout))).
Proof.
  unfold pool_give, known. generalize (l_bindings layout). intros l K. revert w.
  induction K as [|b l Kb _ IH]; intros w; simpl; [f_equal; apply charged_ext; intros; unfold needs; simpl; lia|].
  pose proof (pool_step_charged init w b 1 Kb ltac:(auto)) as E. rewrite Z.mul_1_l in E. rewrite E. simpl. rewrite IH. f_equal. apply charged_ext.
  intros t. unfold needs. simpl. lia.
Qed.

Lemma remaining_of_charged init w t : remaining_of (charged init w) t = (fun r => u32 (r - w t)) <$> remaining_of init t.
Proof.
  unfold remaining_of. rewrite (pool_find_types _ init _ (charged_types init w)). destruct (pool_find init t) as [i|] eqn:F; [|done].
  simpl. rewrite charged_lookup. destruct (pool_find_spec _ _ _ F) as (s & -> & Ts & _). simpl. rewrite Ts, decide_True by done. done.
Qed.

Lemma pool_has_known init w layout : pool_has (charged init w) layout = true ->
  known init (l_bindings layout) /\
  Forall (fun b => b_count b <> 0 -> exists r, remaining_of init (b_type b) = Some r /\ b_count b <= u32 (r - w (b_type b))) (l_bindings layout).
Proof.
  unfold pool_has, known. generalize (l_bindings layout). intros l. rewrite forallb_forall, !Forall_forall. intros H.
  assert (K : forall b, b ∈ l -> b_count b <> 0 -> exists r, remaining_of init (b_type b) = Some r /\ b_count b <= u32 (r - w (b_type b))).
  { intros b I N. apply list_elem_of_In in I. specialize (H b I). apply orb_true_iff in H as [H|H]; to_prop; [done|].
    rewrite remaining_of_charged in H. destruct (remaining_of init (b_type b)) as [r|]; [|done]. simpl in H. to_prop. eauto. }
  split; [|exact K]. intros b I. destruct (decide (b_count b = 0)); [now left|right]. destruct (K b I n) as (r & R & _).
  unfold remaining_of in R. destruct (pool_find init (b_type b)); [eauto|done].
Qed.

(** ** The pool's invariant *)

#[global] Instance descriptor_set_inhabited : Inhabited descriptor_set := populate (DescriptorSet (SetLayout [] 0 0) false []).

Definition layouts_of (h : heap) (sets : list handle) : list set_layout := (fun a => s_layout (h_sets h !!! a)) <$> sets.

(** Each live set holds one reference on its layout, and nothing else does. *)
Definition refs_ok (h : heap) : Prop := h_refs h ≡ₚ ((fun x => s_layout (snd x)) <$> map_to_list (h_sets h)).

(** The pool owns live sets whose types it has, each once, and its sizes are
    what they leave of those it was created with. *)
Record pool_ok (init : list pool_size) (p : descriptor_pool) (h : heap) : Prop := {
  po_sizes : dp_sizes p = charged init (fun t => held t (layouts_of h (dp_sets p)));
  po_sets : NoDup (dp_sets p);
  po_live : Forall (fun a => a <> 0 /\ exists s, h_sets h !! a = Some s /\ known init (l_bindings (s_layout s))) (dp_sets p);
  po_count : dp_set_count p = u32 (Z.of_nat (length (dp_sets p)))
}.

Lemma held_perm t l l' : l ≡ₚ l' -> held t l = held t l'.
Proof. apply total_perm. Qed.

Lemma remove_one_cons_perm (a : handle) sets : a ∈ sets -> sets ≡ₚ a :: remove_one a sets.
Proof.
  intros I. apply elem_of_Permutation in I as [k K]. transitivity (a :: k); [exact K|]. apply Permutation_skip. symmetry. now apply remove_one_perm.
Qed.

(** A change of the heap elsewhere is not seen. *)
Lemma layouts_of_same h h' sets : (forall a, a ∈ sets -> h_sets h' !! a = h_sets h !! a) -> layouts_of h' sets = layouts_of h sets.
Proof. intros E. unfold layouts_of. apply list_fmap_ext. intros i a La. unfold lookup_total, map_lookup_total. rewrite E; [done|]. now apply list_elem_of_lookup_2 in La. Qed.

Lemma refs_insert h a s : refs_ok h -> h_sets h !! a = None -> refs_ok (Heap (<[a := s]> (h_sets h)) (s_layout s :: h_refs h)).
Proof. unfold refs_ok. simpl. intros R N. rewrite R, map_to_list_insert by done. done. Qed.

Lemma refs_delete h a s : refs_ok h -> h_sets h !! a = Some s -> refs_ok (Heap (delete a (h_sets h)) (remove_one (s_layout s) (h_refs h))).
Proof. unfold refs_ok. simpl. intros R L. apply remove_one_perm. rewrite R. rewrite <- (map_to_list_delete _ _ _ L). done. Qed.

Lemma release_owned init p h a : pool_ok init p h -> refs_ok h -> a ∈ dp_sets p ->
  exists p' h', unlink_release (p, h) a = Ok (p', h') /\ pool_ok init p' h' /\ refs_ok h' /\
    dp_sets p' = remove_one a (dp_sets p) /\ dp_max_sets p' = dp_max_sets p /\ h_sets h' = delete a (h_sets h).
Proof.
  intros [Sz N Lv C] R I. pose proof (remove_one_cons_perm _ _ I) as Pm. rewrite Forall_forall in Lv. destruct (Lv a I) as (A0 & s & La & K).
  assert (NI : (a ∉ remove_one a (dp_sets p)) /\ NoDup (remove_one a (dp_sets p))) by (rewrite Pm in N; now apply NoDup_cons in N).
  destruct NI as [NI N']. unfold unlink_release. destruct (a =? 0) eqn:E; to_prop; [done|]. simpl. unfold pool_unlink.
  rewrite bool_decide_eq_true_2 by done. unfold set_release. rewrite La. cbn [dp_sizes]. rewrite Sz, pool_give_charged by done. simpl.
  do 2 eexists. split; [reflexivity|]. split_and!; try done; [|now apply refs_delete].
  constructor; simpl; auto.
  - apply charged_ext. intros t. rewrite (layouts_of_same h (Heap (delete a (h_sets h)) (remove_one (s_layout s) (h_refs h)))); [|intros b Ib; simpl; apply lookup_delete_ne; congruence].
    rewrite (held_perm _ (layouts_of h (dp_sets p)) (layouts_of h (a :: remove_one a (dp_sets p)))) by (apply fmap_Permutation; exact Pm).
    unfold held. simpl. unfold lookup_total at 1, map_lookup_total. rewrite La. simpl. lia.
  - rewrite Forall_forall. intros b Ib. assert (Ib' : b ∈ dp_sets p) by (rewrite Pm; now right). destruct (Lv b Ib') as (B0 & sb & Lb & Kb).
    split; [done|]. exists sb. split; [|done]. rewrite lookup_delete_ne by congruence. done.
  - rewrite C. rewrite (Permutation_length Pm). simpl length. rewrite Nat2Z.inj_succ. unfold Z.sub. rewrite u32_add_l. f_equal. lia.
Qed.

Lemma release_foreign p h a : a ∉ dp_sets p \/ a = 0 -> unlink_release (p, h) a = Ok (p, h).
Proof.
  intros D. unfold unlink_release, pool_unlink. simpl. destruct (a =? 0) eqn:E; simpl; [done|]. to_prop.
  destruct D as [D|D]; [|done]. now rewrite bool_decide_eq_false_2.
Qed.

Lemma filter_ext_in {B} (P Q : B -> Prop) `{forall x, Decision (P x)} `{forall x, Decision (Q x)} (l : list B) :
  (forall x, x ∈ l -> (P x <-> Q x)) -> filter P l = filter Q l.
Proof.
  induction l as [|x l IH]; intros E; [done|]. rewrite !filter_cons, IH by (intros y I; apply E; now right).
  apply decide_ext, E. left.
Qed.

Lemma filter_all {B} (P : B -> Prop) `{forall x, Decision (P x)} (l : list B) : (forall x, x ∈ l -> P x) -> filter P l = l.
Proof. induction l as [|x l IH]; intros E; [done|]. rewrite filter_cons, decide_True by (apply E; left). f_equal. apply IH. intros y I. apply E. now right. Qed.

Lemma filter_none {B} (P : B -> Prop) `{forall x, Decision (P x)} (l : list B) : (forall x, x ∈ l -> ~ P x) -> filter P l = [].
Proof. induction l as [|x l IH]; intros E; [done|]. rewrite filter_cons, decide_False by (apply E; left). apply IH. intros y I. apply E. now right. Qed.

Lemma remove_one_filter (a : handle) l : NoDup l -> remove_one a l = filter (fun b => b <> a) l.
Proof.
  induction 1 as [|b l NI _ IH]; simpl; [done|]. rewrite filter_cons. destruct (decide (a = b)) as [->|N].
  - rewrite decide_False by auto. symmetry. apply filter_all. congruence.
  - rewrite decide_True by congruence. now f_equal.
Qed.

(** Freeing handles, whatever they are: the sets the pool owns are gone, each
    once, and nothing else changes. *)
Lemma free_all init sets p h : pool_ok init p h -> refs_ok h ->
  exists p' h', for_each unlink_release (p, h) sets = Ok (p', h') /\ pool_ok init p' h' /\ refs_ok h' /\ dp_max_sets p' = dp_max_sets p /\
    dp_sets p' = filter (fun a => a ∉ sets) (dp_sets p) /\
    (forall a, h_sets h' !! a = if decide (a ∈ dp_sets p /\ a ∈ sets) then None else h_sets h !! a).
Proof.
  revert p h. induction sets as [|b sets IH]; intros p h Ok_ R; simpl.
  - exists p, h. split_and!; try done; [symmetry; apply filter_all; intros a _; apply not_elem_of_nil|].
    intros a. rewrite decide_False; [done|]. intros [_ I]. now apply elem_of_nil in I.
  - destruct (decide (b ∈ dp_sets p)) as [I|I].
    + destruct (release_owned init p h b Ok_ R I) as (p1 & h1 & -> & Ok1 & R1 & S1 & M1 & H1). simpl.
      destruct (IH p1 h1 Ok1 R1) as (p2 & h2 & -> & Ok2 & R2 & M2 & S2 & H2). exists p2, h2.
      rewrite remove_one_filter in S1 by apply (po_sets _ _ _ Ok_).
      split_and!; try done; [congruence|..].
      * rewrite S2, S1, list_filter_filter. apply list_filter_iff. intros a. rewrite not_elem_of_cons. tauto.
      * intros a. rewrite H2, H1. destruct (decide (a = b)) as [->|Nb].
        { rewrite lookup_delete_eq. rewrite (decide_True (P := b ∈ dp_sets p /\ b ∈ b :: sets)) by (split; [done|left]). now case_decide. }
        rewrite lookup_delete_ne by done. apply decide_ext. rewrite S1, list_elem_of_filter, elem_of_cons. tauto.
    + rewrite (release_foreign p h b) by now left. simpl. destruct (IH p h Ok_ R) as (p2 & h2 & -> & Ok2 & R2 & M2 & S2 & H2).
      exists p2, h2. split_and!; try done.
      * rewrite S2. apply filter_ext_in. intros a Ia. rewrite not_elem_of_cons. split; [|tauto]. intros Ns. split; [congruence|done].
      * intros a. rewrite H2. apply decide_ext. rewrite elem_of_cons. split; [tauto|]. intros [Ia [->|]]; [done|tauto].
Qed.

(** ** Allocation *)

Section Allocation.
Context `{A : Allocator} {AL : AllocatorLaws A}.

Definition new_set (layout : set_layout) : descriptor_set :=
  DescriptorSet layout false (replicate (Z.to_nat (l_descriptor_count layout)) (zero_record TYPE_MAX_ENUM)).

Lemma pool_live_not init p h a : pool_ok init p h -> h_sets h !! a = None -> a ∉ dp_sets p.
Proof. intros O N I. pose proof (po_live _ _ _ O) as L. rewrite Forall_forall in L. destruct (L a I) as (_ & s & E & _). congruence. Qed.

Lemma layouts_added h h' a s sets : a ∉ sets -> h_sets h' = <[a := s]> (h_sets h) ->
  layouts_of h' (a :: sets) = s_layout s :: layouts_of h sets.
Proof.
  intros N E. assert (L : layouts_of h' sets = layouts_of h sets).
  { apply layouts_of_same. intros b Ib. rewrite E. apply lookup_insert_ne. congruence. }
  unfold layouts_of in *. rewrite fmap_cons, L. unfold lookup_total, map_lookup_total. rewrite E, lookup_insert_eq. done.
Qed.

Lemma charged_twice init w layout : known init (l_bindings layout) ->
  pool_take (charged init w) layout = Ok (charged init (fun t => w t + needs t (l_bindings layout))) /\
  pool_give (charged init (fun t => w t + needs t (l_bindings layout))) layout = Ok (charged init w).
Proof.
  intros K. split; [now apply pool_take_charged|]. rewrite pool_give_charged by done. f_equal. apply charged_ext. intros; lia.
Qed.

Lemma allocate_one_spec init p h layout : pool_ok init p h -> refs_ok h ->
  (exists r a, allocate_one p h layout = Ok (r, a, p, h) /\ r <> SUCCESS) \/
  (exists a p' h', allocate_one p h layout = Ok (SUCCESS, a, p', h') /\ a <> 0 /\ h_sets h !! a = None /\
     pool_has (dp_sizes p) layout = true /\
     pool_ok init p' h' /\ refs_ok h' /\ dp_sets p' = a :: dp_sets p /\ dp_max_sets p' = dp_max_sets p /\
     h_sets h' = <[a := new_set layout]> (h_sets h)).
Proof.
  intros O R. unfold allocate_one. destruct (pool_has (dp_sizes p) layout) eqn:H; simpl; [|left; eexists _, _; split; [reflexivity|done]].
  pose proof (po_sizes _ _ _ O) as Sz. rewrite Sz in H. apply pool_has_known in H as [K _].
  destruct (charged_twice init (fun t => held t (layouts_of h (dp_sets p))) layout K) as [T G]. rewrite <- Sz in T, G. rewrite T. simpl.
  destruct (vk_object_zalloc h (set_bytes layout)) as [a|] eqn:Z.
  - right. destruct (zalloc_fresh _ _ _ Z) as [A0 F]. do 3 eexists. split; [reflexivity|]. split_and!; try done.
    + constructor; cbn [dp_sizes dp_sets dp_set_count h_sets].
      * apply charged_ext. intros t. rewrite (layouts_added h _ a (new_set layout)) by (exact (pool_live_not _ _ _ _ O F) || done). apply Z.add_comm.
      * apply NoDup_cons. split; [exact (pool_live_not _ _ _ _ O F)|apply (po_sets _ _ _ O)].
      * constructor; [split; [done|]; exists (new_set layout); split; [apply lookup_insert_eq|exact K]|].
        pose proof (po_live _ _ _ O) as L. rewrite Forall_forall in L |- *. intros b Ib. destruct (L b Ib) as (B0 & s & Lb & Kb).
        split; [done|]. exists s. split; [|done]. rewrite lookup_insert_ne; [done|]. intros ->. congruence.
      * rewrite (po_count _ _ _ O), u32_add_l. f_equal. simpl length. lia.
    + now apply (refs_insert h a (new_set layout)).
  - left. rewrite G. simpl. exists OUT_OF_HOST_MEMORY, 0. split; [|discriminate]. destruct p; reflexivity.
Qed.

(** What the loop leaves: the sets made, newest first, each of its layout, and
    nothing else changed. *)
Lemma allocate_loop_spec init layouts made p h : pool_ok init p h -> refs_ok h ->
  exists r new p' h', allocate_loop layouts made p h = Ok (r, new ++ made, p', h') /\
    pool_ok init p' h' /\ refs_ok h' /\ dp_sets p' = new ++ dp_sets p /\ dp_max_sets p' = dp_max_sets p /\
    NoDup new /\ Forall (fun a => a <> 0 /\ h_sets h !! a = None) new /\
    (forall a, a ∉ new -> h_sets h' !! a = h_sets h !! a) /\
    Forall2 (fun a layout => h_sets h' !! a = Some (new_set layout)) (reverse new) (take (length new) layouts) /\
    (r = SUCCESS -> length new = length layouts).
Proof.
  revert made p h. induction layouts as [|layout layouts IH]; intros made p h O R; simpl.
  - exists SUCCESS, [], p, h. split_and!; try done; constructor.
  - destruct (allocate_one_spec init p h layout O R) as [(r & a & -> & N)|(a & p1 & h1 & -> & A0 & F & _ & O1 & R1 & S1 & M1 & H1)]; simpl.
    + exists r, [], p, h. destruct r; [done|..]; split_and!; try done; constructor.
    + destruct (IH (a :: made) p1 h1 O1 R1) as (r & new & p' & h' & -> & O' & R' & S' & M' & N' & F' & H' & A' & L').
      exists r, (new ++ [a]), p', h'. assert (Na : a ∉ new).
      { intros I. rewrite Forall_forall in F'. destruct (F' a I) as [_ E]. rewrite H1, lookup_insert_eq in E. discriminate. }
      split_and!; try done.
      * now rewrite <- app_assoc.
      * rewrite S', S1. now rewrite <- app_assoc.
      * congruence.
      * apply NoDup_app. split_and!; [done| |apply NoDup_singleton]. intros b Ib Ia. apply list_elem_of_singleton in Ia as ->. done.
      * apply Forall_app. split; [|now constructor]. eapply Forall_impl; [exact F'|]. simpl. intros b [B0 E]. split; [done|].
        rewrite H1, lookup_insert_None in E. apply E.
      * intros b Nb. rewrite not_elem_of_app, not_elem_of_cons in Nb. destruct Nb as [Nb [Nba _]]. rewrite H', H1 by done. now apply lookup_insert_ne.
      * rewrite reverse_snoc, length_app, Nat.add_comm. simpl. constructor; [|done]. rewrite H', H1 by done. apply lookup_insert_eq.
      * intros E. rewrite length_app, L' by done. simpl. lia.
Qed.

(** What a pool's state is determined by. *)
Lemma pool_ok_unique init p p' h h' : pool_ok init p h -> pool_ok init p' h' -> dp_sets p' = dp_sets p -> dp_max_sets p' = dp_max_sets p ->
  layouts_of h' (dp_sets p) = layouts_of h (dp_sets p) -> p' = p.
Proof.
  intros [S1 _ _ C1] [S2 _ _ C2] E M L. rewrite E in *. rewrite L in S2. destruct p, p'; simpl in *. congruence.
Qed.

Lemma allocate_spec init p h layouts : pool_ok init p h -> refs_ok h ->
  exists r hs p' h', AllocateDescriptorSets p h layouts = Ok (r, hs, p', h') /\ pool_ok init p' h' /\ refs_ok h' /\
    (r <> SUCCESS -> p' = p /\ (forall a, h_sets h' !! a = h_sets h !! a) /\ hs = replicate (length layouts) 0) /\
    (r = SUCCESS -> NoDup hs /\ Forall (fun a => a <> 0 /\ h_sets h !! a = None) hs /\
       dp_sets p' = reverse hs ++ dp_sets p /\ (forall a, a ∉ hs -> h_sets h' !! a = h_sets h !! a) /\
       Forall2 (fun a layout => h_sets h' !! a = Some (new_set layout)) hs layouts).
Proof.
  intros O R. unfold AllocateDescriptorSets. destruct (_ <? _).
  { do 4 eexists. split; [reflexivity|]. split_and!; try done. }
  destruct (allocate_loop_spec init layouts [] p h O R) as (r & new & p1 & h1 & -> & O1 & R1 & S1 & M1 & N1 & F1 & H1 & A1 & L1).
  rewrite app_nil_r. simpl. destruct (decide (r = SUCCESS)) as [->|Nr].
  - do 4 eexists. split; [reflexivity|]. split_and!; try done. intros _. split_and!.
    + now rewrite reverse_Permutation.
    + now rewrite reverse_Permutation.
    + now rewrite reverse_involutive.
    + intros a Na. apply H1. now rewrite elem_of_reverse in Na.
    + rewrite L1, firstn_all in A1 by done. exact A1.
  - destruct (free_all init new p1 h1 O1 R1) as (p2 & h2 & E2 & O2 & R2 & M2 & S2 & H2).
    assert (Fr : forall a, a ∈ new -> a ∉ dp_sets p).
    { intros a I. rewrite Forall_forall in F1. destruct (F1 a I). eapply pool_live_not; eauto. }
    assert (Hh : forall a, h_sets h2 !! a = h_sets h !! a).
    { intros a. rewrite H2. destruct (decide (a ∈ new)) as [I|I].
      - rewrite decide_True by (rewrite S1, elem_of_app; auto). rewrite Forall_forall in F1. destruct (F1 a I). done.
      - rewrite decide_False by tauto. now apply H1. }
    assert (Sp : dp_sets p2 = dp_sets p).
    { rewrite S2, S1, filter_app, filter_none, filter_all; [done|..].
      - intros a I In. exact (Fr a In I).
      - intros a I Ni. exact (Ni I). }
    assert (P : p2 = p).
    { apply (pool_ok_unique init p p2 h h2); auto; [congruence|]. now apply layouts_of_same. }
    destruct r; [done|..]; unfold roll_back; rewrite E2; do 4 eexists; (split; [reflexivity|]); simpl; split_and!; auto; done.
Qed.

(** ** No pool is overdrawn by layouts without repeated types *)

(** Every count is a [uint32_t], and no type is needed by two bindings. *)
Definition simple_layout (l : set_layout) : Prop :=
  Forall (fun b => 0 <= b_count b) (l_bindings l) /\ NoDup (b_type <$> filter (fun b => b_count b <> 0) (l_bindings l)).

(** The sets hold no more than the pool was created with. *)
Definition within (init : list pool_size) (layouts : list set_layout) : Prop :=
  Forall simple_layout layouts /\ forall t r, remaining_of init t = Some r -> held t layouts <= r.

Lemma needs_nonneg t l : Forall (fun b => 0 <= b_count b) l -> 0 <= needs t l.
Proof. intros F. apply total_ge_0. eapply Forall_impl; [exact F|]. simpl. intros b B. case_decide; lia. Qed.

Lemma held_nonneg t layouts : Forall simple_layout layouts -> 0 <= held t layouts.
Proof. intros F. apply total_ge_0. eapply Forall_impl; [exact F|]. simpl. intros l [L _]. now apply needs_nonneg. Qed.

Lemma needs_none t l : Forall (fun b => 0 <= b_count b) l -> t ∉ b_type <$> filter (fun b => b_count b <> 0) l -> needs t l = 0.
Proof.
  induction 1 as [|b l Hb _ IH]; intros N; [done|]. rewrite needs_cons. 
  destruct (decide (b_count b <> 0)) as [C|C].
  - rewrite filter_cons_True in N by done. rewrite fmap_cons, not_elem_of_cons in N. rewrite decide_False, IH by (intuition congruence). done.
  - rewrite filter_cons_False in N by done. rewrite IH by done. case_decide; lia.
Qed.

(** What a layout needs of a type is what one of its bindings needs. *)
Lemma needs_one t l : Forall (fun b => 0 <= b_count b) l -> NoDup (b_type <$> filter (fun b => b_count b <> 0) l) ->
  needs t l = 0 \/ exists b, b ∈ l /\ b_type b = t /\ b_count b <> 0 /\ needs t l = b_count b.
Proof.
  induction 1 as [|b l Hb F IH]; intros N; [now left|]. rewrite needs_cons. 
  destruct (decide (b_count b <> 0)) as [C|C].
  - rewrite filter_cons_True in N by done. rewrite fmap_cons in N. apply NoDup_cons in N as [NI N].
    destruct (decide (b_type b = t)) as [<-|T].
    + rewrite needs_none by done. right. exists b. split_and!; try done; [left|lia].
    + destruct (IH N) as [->|(b' & I & ? & ? & ->)]; [now left|right]. exists b'. split_and!; try done. now right.
  - rewrite filter_cons_False in N by done. replace (if decide (b_type b = t) then b_count b else 0) with 0 by (case_decide; lia).
    destruct (IH N) as [->|(b' & I & ? & ? & ->)]; [now left|right]. exists b'. split_and!; try done. now right.
Qed.

Definition init_ok (init : list pool_size) : Prop := Forall (fun s => 0 <= ps_remaining s < 2 ^ 32) init.

Lemma remaining_range init t r : init_ok init -> remaining_of init t = Some r -> 0 <= r < 2 ^ 32.
Proof.
  unfold init_ok, remaining_of. intros F E. destruct (pool_find init t) as [i|]; [|done]. simpl in E.
  destruct (init !! i) as [s|] eqn:L; [|done]. injection E as <-. exact (Forall_lookup_1 _ _ _ _ F L).
Qed.

Lemma within_one init w_layouts p layout : init_ok init -> within init w_layouts -> simple_layout layout ->
  dp_sizes p = charged init (fun t => held t w_layouts) -> pool_has (dp_sizes p) layout = true -> within init (layout :: w_layouts).
Proof.
  intros I [F W] S Sz H. split; [now constructor|]. intros t r Rr. rewrite Sz in H. apply pool_has_known in H as [_ H].
  unfold held. simpl. fold (held t w_layouts). pose proof (W t r Rr). destruct S as [Sc Sn].
  destruct (needs_one t _ Sc Sn) as [->|(b & Ib & Tb & Nb & ->)]; [lia|].
  rewrite Forall_forall in H. destruct (H b Ib Nb) as (r' & Rr' & B). rewrite Tb, Rr in Rr'. injection Rr' as <-. rewrite Tb in B.
  pose proof (remaining_range _ _ _ I Rr). pose proof (held_nonneg t w_layouts F). rewrite u32_small in B by lia. lia.
Qed.

Lemma allocate_loop_within init layouts made p h r made' p' h' : init_ok init -> Forall simple_layout layouts ->
  pool_ok init p h -> refs_ok h -> within init (layouts_of h (dp_sets p)) ->
  allocate_loop layouts made p h = Ok (r, made', p', h') -> within init (layouts_of h' (dp_sets p')).
Proof.
  intros I F. revert made p h. induction F as [|layout layouts S _ IH]; intros made p h O R W E; simpl in E.
  - injection E as <- <- <- <-. exact W.
  - destruct (allocate_one_spec init p h layout O R) as [(r1 & a & E1 & N)|(a & p1 & h1 & E1 & A0 & Fr & H & O1 & R1 & S1 & M1 & H1)];
      rewrite E1 in E; simpl in E.
    + destruct r1; [done|..]; injection E as <- <- <- <-; exact W.
    + apply (IH _ _ _ O1 R1) in E; [done|]. rewrite S1, (layouts_added h h1 a _ _ (pool_live_not _ _ _ _ O Fr) H1). simpl.
      eapply within_one; eauto. apply (po_sizes _ _ _ O).
Qed.

Lemma allocate_within init layouts p h r hs p' h' : init_ok init -> Forall simple_layout layouts ->
  pool_ok init p h -> refs_ok h -> within init (layouts_of h (dp_sets p)) ->
  AllocateDescriptorSets p h layouts = Ok (r, hs, p', h') -> within init (layouts_of h' (dp_sets p')).
Proof.
  intros I F O R W E. destruct (decide (r = SUCCESS)) as [->|N].
  - unfold AllocateDescriptorSets in E. destruct (_ <? _); [discriminate|].
    destruct (allocate_loop layouts [] p h) as [[[[r1 m1] p1] h1]| |] eqn:L; [|discriminate|discriminate]. simpl in E.
    pose proof (allocate_loop_within _ _ _ _ _ _ _ _ _ I F O R W L) as W1. destruct r1; [injection E as _ <- <-; exact W1|..];
      (destruct (roll_back m1 p1 h1) as [y| |]; discriminate).
  - destruct (allocate_spec init p h layouts O R) as (r0 & hs0 & p0 & h0 & E0 & _ & _ & Fl & _). rewrite E in E0. injection E0 as <- <- <- <-.
    destruct (Fl N) as (-> & Hh & _). rewrite (layouts_of_same h h'); [done|]. auto.
Qed.

Lemma filter_within init p h p' h' (sets : list handle) : pool_ok init p h -> within init (layouts_of h (dp_sets p)) ->
  dp_sets p' = filter (fun a => a ∉ sets) (dp_sets p) ->
  (forall a, h_sets h' !! a = if decide (a ∈ dp_sets p /\ a ∈ sets) then None else h_sets h !! a) ->
  within init (layouts_of h' (dp_sets p')).
Proof.
  intros O [F W] S H. rewrite (layouts_of_same h h').
  2:{ intros a Ia. rewrite S in Ia. apply list_elem_of_filter in Ia as [Na _]. rewrite H, decide_False by tauto. done. }
  rewrite S. generalize dependent (dp_sets p). intros l F W _ _. unfold layouts_of in *.
  assert (G : Forall simple_layout ((fun a => s_layout (h_sets h !!! a)) <$> filter (fun a => a ∉ sets) l) /\
     forall t, held t ((fun a => s_layout (h_sets h !!! a)) <$> filter (fun a => a ∉ sets) l) <= held t ((fun a => s_layout (h_sets h !!! a)) <$> l)).
  { clear W. induction l as [|a l IH]; [split; [constructor|done]|]. rewrite fmap_cons in F. inversion F as [|?? Fa Fl]; subst.
    destruct (IH Fl) as [G1 G2]. rewrite filter_cons. case_decide; (split; [first [now constructor|done]|]); intros t; specialize (G2 t);
      rewrite !fmap_cons; unfold held in *; simpl; pose proof (needs_nonneg t _ (proj1 Fa)); lia. }
  destruct G as [G1 G2]. split; [done|]. intros t r E. specialize (W t r E). specialize (G2 t). lia.
Qed.

(** ** Runs of a pool *)

Lemma charged_none init : init_ok init -> charged init (fun _ => 0) = init.
Proof.
  intros I. apply list_eq. intros i. rewrite charged_lookup. destruct (init !! i) as [s|] eqn:L; [|done]. simpl.
  pose proof (Forall_lookup_1 _ _ _ _ I L). f_equal. destruct s as [t r]. simpl in *. f_equal. case_decide; rewrite Z.sub_0_r; apply u32_small; lia.
Qed.

Lemma created_pool init max h : init_ok init -> pool_ok init (DescriptorPool [] 0 max init) h.
Proof.
  intros I. constructor; simpl; [|constructor|constructor|reflexivity]. rewrite <- (charged_none init I) at 1. now apply charged_ext.
Qed.

Lemma clear_is_free init p h : pool_ok init p h -> refs_ok h ->
  pool_clear p h = for_each unlink_release (p, h) (dp_sets p).
Proof.
  unfold pool_clear. remember (dp_sets p) as sets eqn:E. revert p h E. induction sets as [|a sets IH]; intros p h E O R; [done|]. simpl.
  assert (I : a ∈ dp_sets p) by (rewrite <- E; left). pose proof (po_live _ _ _ O) as L. rewrite Forall_forall in L. destruct (L a I) as [A0 _].
  destruct (release_owned init p h a O R I) as (p1 & h1 & E1 & O1 & R1 & S1 & _). rewrite E1. unfold unlink_release in E1. simpl in E1.
  destruct (a =? 0) eqn:Z; to_prop; [done|]. simpl in E1. unfold pool_unlink in E1 |- *. rewrite bool_decide_eq_true_2 in E1 |- * by done. rewrite E1. simpl.
  apply IH; auto. rewrite S1, <- E. simpl. now rewrite decide_True.
Qed.

(** What a reset leaves: the pool as it was created, and none of its sets. *)
Lemma pool_reset_spec init p h : init_ok init -> pool_ok init p h -> refs_ok h ->
  exists h', ResetDescriptorPool (Some p) 0 h = Ok (Some (DescriptorPool [] 0 (dp_max_sets p) init), h') /\ refs_ok h' /\
    forall a, h_sets h' !! a = if decide (a ∈ dp_sets p) then None else h_sets h !! a.
Proof.
  intros I O R. unfold ResetDescriptorPool. simpl. rewrite (clear_is_free init p h O R).
  destruct (free_all init (dp_sets p) p h O R) as (p' & h' & -> & O' & R' & M & S & H). simpl. exists h'.
  rewrite filter_none in S by auto. split; [|split; [done|]].
  - f_equal. f_equal. f_equal. apply (pool_ok_unique init _ _ h' h'); auto. now apply created_pool.
  - intros a. rewrite H. apply decide_ext. tauto.
Qed.

Inductive pool_op := PoolAllocate (layouts : list set_layout) | PoolFree (sets : list handle) | PoolReset.

Definition pool_step (x : descriptor_pool * heap) (op : pool_op) : outcome (descriptor_pool * heap) :=
  match op with
  | PoolAllocate layouts => let! y := AllocateDescriptorSets (fst x) (snd x) layouts in
      match y with (_, _, p, h) => Ok (p, h) end
  | PoolFree sets => let! y := FreeDescriptorSets (Some (fst x)) (snd x) sets in
      match y with (Some p, h) => Ok (p, h) | _ => Undefined end
  | PoolReset => let! y := ResetDescriptorPool (Some (fst x)) 0 (snd x) in
      match y with (Some p, h) => Ok (p, h) | _ => Undefined end
  end.

Definition op_simple (op : pool_op) : Prop := match op with PoolAllocate layouts => Forall simple_layout layouts | _ => True end.

Definition pool_state_ok (init : list pool_size) (x : descriptor_pool * heap) : Prop :=
  pool_ok init (fst x) (snd x) /\ refs_ok (snd x) /\ within init (layouts_of (snd x) (dp_sets (fst x))).

Lemma descriptor_step_ok init x op : init_ok init -> op_simple op -> pool_state_ok init x ->
  exists x', pool_step x op = Ok x' /\ pool_state_ok init x'.
Proof.
  destruct x as [p h]. intros I S (O & R & W). simpl in *. destruct op as [layouts|sets|]; simpl.
  - destruct (allocate_spec init p h layouts O R) as (r & hs & p' & h' & E & O' & R' & _). rewrite E. simpl. eexists. split; [reflexivity|].
    split; [done|]. split; [done|]. exact (allocate_within init layouts p h r hs p' h' I S O R W E).
  - destruct (free_all init sets p h O R) as (p' & h' & E & O' & R' & _ & S' & H'). rewrite E. simpl. eexists. split; [reflexivity|].
    split; [done|]. split; [done|]. exact (filter_within init p h p' h' sets O W S' H').
  - destruct (pool_reset_spec init p h I O R) as (h' & E & R' & H'). rewrite E. simpl. eexists. split; [reflexivity|].
    split; [now apply created_pool|]. split; [done|]. split; [constructor|]. intros t r Rr. apply (remaining_range _ _ _ I) in Rr. unfold held. simpl. lia.
Qed.

Lemma pool_run_ok init ops x : init_ok init -> Forall op_simple ops -> pool_state_ok init x ->
  exists x', for_each pool_step x ops = Ok x' /\ pool_state_ok init x'.
Proof.
  intros I F. revert x. induction F as [|op ops S _ IH]; intros x X; simpl; [eauto|].
  destruct (descriptor_step_ok init x op I S X) as (x' & -> & X'). simpl. now apply IH.
Qed.

(** C23: allocating sets is all or nothing.  It never touches an entry the pool
    does not have; when it succeeds it returns as many sets as layouts, new to
    the heap, distinct, unwritten, and owned by the pool; when it fails - too
    many sets, no descriptors left, no memory at any of the sets - the pool and
    every set are what they were and no handle is returned. *)
Theorem allocate_all_or_nothing init p h layouts : pool_ok init p h -> refs_ok h ->
  exists r hs p' h', AllocateDescriptorSets p h layouts = Ok (r, hs, p', h') /\ pool_ok init p' h' /\ refs_ok h' /\
    (r <> SUCCESS -> p' = p /\ (forall a, h_sets h' !! a = h_sets h !! a) /\ hs = replicate (length layouts) 0) /\
    (r = SUCCESS -> NoDup hs /\ Forall (fun a => a <> 0 /\ h_sets h !! a = None) hs /\
       dp_sets p' = reverse hs ++ dp_sets p /\ (forall a, a ∉ hs -> h_sets h' !! a = h_sets h !! a) /\
       Forall2 (fun a layout => h_sets h' !! a = Some (new_set layout)) hs layouts).
Proof. apply allocate_spec. Qed.

(** C36: a pool used with layouts in which no two bindings share a type is never
    overdrawn: through any sequence of allocations, of frees of any handles and
    of resets, every call has a defined result, the remaining descriptors of
    each type are exactly what it was created with less what its live sets
    hold, and each live set holds one reference on its layout. *)
Theorem pool_never_overdrawn init max ops : init_ok init -> Forall op_simple ops ->
  exists p h, for_each pool_step (DescriptorPool [] 0 max init, Heap ∅ []) ops = Ok (p, h) /\
    NoDup (dp_sets p) /\ refs_ok h /\
    forall t r, remaining_of init t = Some r ->
      remaining_of (dp_sizes p) t = Some (r - held t (layouts_of h (dp_sets p))) /\
      0 <= held t (layouts_of h (dp_sets p)) <= r.
Proof.
  intros I F. destruct (pool_run_ok init ops (DescriptorPool [] 0 max init, Heap ∅ []) I F) as ([p h] & E & O & R & [Fl W]).
  - split; [now apply created_pool|]. split; [unfold refs_ok; simpl; now rewrite map_to_list_empty|]. split; [constructor|].
    intros t r Rr. apply (remaining_range _ _ _ I) in Rr. unfold held. simpl. lia.
  - exists p, h. simpl in *. split; [exact E|]. split; [apply (po_sets _ _ _ O)|]. split; [done|]. intros t r Rr.
    pose proof (W t r Rr). pose proof (held_nonneg t _ Fl). pose proof (remaining_range _ _ _ I Rr).
    rewrite (po_sizes _ _ _ O), remaining_of_charged, Rr. simpl. rewrite u32_small by lia. split; [done|lia].
Qed.

(** A layout with two bindings of one type passes the pool's check with
    fewer descriptors than it takes: from a pool with one uniform buffer left it
    takes two, and the pool then believes that 4,294,967,295 remain. *)
Theorem repeated_type_overdraws (h : heap) : (exists a, forall bytes, vk_object_zalloc h bytes = Some a) ->
  let b := Binding UNIFORM_BUFFER 1 1 0 16 0 0 in
  let layout := SetLayout [b; b] 32 2 in
  exists hs p' h', AllocateDescriptorSets (DescriptorPool [] 0 4 [PoolSize UNIFORM_BUFFER 1]) h [layout] = Ok (SUCCESS, hs, p', h') /\
    needs UNIFORM_BUFFER (l_bindings layout) = 2 /\
    remaining_of (dp_sizes p') UNIFORM_BUFFER = Some 4294967295.
Proof.
  intros (a & E) b layout.
  assert (One : allocate_one (DescriptorPool [] 0 4 [PoolSize UNIFORM_BUFFER 1]) h layout =
    Ok (SUCCESS, a, DescriptorPool [a] 1 4 [PoolSize UNIFORM_BUFFER 4294967295], Heap (<[a := new_set layout]> (h_sets h)) (layout :: h_refs h))).
  { unfold allocate_one. rewrite E. reflexivity. }
  unfold AllocateDescriptorSets. cbn [allocate_loop length]. rewrite One. do 3 eexists. split; [reflexivity|]. split; reflexivity.
Qed.

End Allocation.

(** ** An allocator to run the operations on *)

Definition next_handle (h : heap) : handle := 1 + Z.of_nat (base.size (h_sets h)).
#[global] Instance toy_allocator : Allocator := {|
  vk_object_zalloc := fun h _ => if h_sets h !! next_handle h is Some _ then None else Some (next_handle h)
|}.
#[global] Instance toy_allocator_laws : AllocatorLaws toy_allocator.
Proof.
  split. simpl. intros h _ a E. destruct (h_sets h !! next_handle h) eqn:L; [discriminate|]. injection E as <-. split; [unfold next_handle; lia|done].
Qed.

Lemma refs_empty : refs_ok (Heap ∅ []).
Proof. unfold refs_ok. simpl. now rewrite map_to_list_empty. Qed.

Definition sample_sizes : list pool_size := [PoolSize UNIFORM_BUFFER_DYNAMIC 4; PoolSize COMBINED_IMAGE_SAMPLER 9; PoolSize STORAGE_BUFFER 2].

Lemma sample_sizes_ok : init_ok sample_sizes.
Proof. repeat constructor; simpl; try lia; vm_compute; try reflexivity; discriminate. Qed.

Lemma allocate_all_or_nothing_witness :
  exists r hs p' h', AllocateDescriptorSets (DescriptorPool [] 0 8 sample_sizes) (Heap ∅ []) [sample_layout; sample_layout; sample_layout] = Ok (r, hs, p', h') /\
    r = OUT_OF_POOL_MEMORY /\ p' = DescriptorPool [] 0 8 sample_sizes /\ hs = [0; 0; 0].
Proof.
  destruct (allocate_all_or_nothing sample_sizes (DescriptorPool [] 0 8 sample_sizes) (Heap ∅ []) [sample_layout; sample_layout; sample_layout])
    as (r & hs & p' & h' & E & _ & _ & F & _); [apply created_pool, sample_sizes_ok|exact refs_empty|].
  assert (R : r = OUT_OF_POOL_MEMORY).
  { apply (f_equal (fun o => match o with Ok (r, _, _, _) => r | _ => SUCCESS end)) in E. rewrite <- E. vm_compute. reflexivity. }
  destruct (F ltac:(rewrite R; discriminate)) as (-> & _ & ->). exists r, [0; 0; 0], (DescriptorPool [] 0 8 sample_sizes), h'. auto.
Defined.

Lemma sample_layout_simple : simple_layout sample_layout.
Proof. split; [repeat constructor; vm_compute; discriminate|]. refine (bool_decide_unpack _ _). vm_compute. reflexivity. Qed.

Definition sample_pool_ops : list pool_op :=
  [PoolAllocate [sample_layout; sample_layout]; PoolFree [1]; PoolAllocate [sample_layout]].

Lemma sample_pool_ops_simple : Forall op_simple sample_pool_ops.
Proof.
  pose proof sample_layout_simple as S. assert (S2 : Forall simple_layout [sample_layout; sample_layout]) by (rewrite !Forall_cons; auto using Forall_nil_2).
  assert (S1 : Forall simple_layout [sample_layout]) by (rewrite !Forall_cons; auto using Forall_nil_2).
  unfold sample_pool_ops. rewrite !Forall_cons. split_and!; [exact S2|exact I|exact S1|apply Forall_nil_2].
Qed.

Lemma pool_never_overdrawn_witness :
  exists p h, for_each pool_step (DescriptorPool [] 0 8 sample_sizes, Heap ∅ []) sample_pool_ops = Ok (p, h) /\
    NoDup (dp_sets p) /\ refs_ok h /\
    forall t r, remaining_of sample_sizes t = Some r ->
      remaining_of (dp_sizes p) t = Some (r - held t (layouts_of h (dp_sets p))) /\ 0 <= held t (layouts_of h (dp_sets p)) <= r.
Proof.
  exact (pool_never_overdrawn sample_sizes 8 sample_pool_ops sample_sizes_ok sample_pool_ops_simple).
Defined.

Lemma repeated_type_overdraws_witness :
  let b := Binding UNIFORM_BUFFER 1 1 0 16 0 0 in
  let layout := SetLayout [b; b] 32 2 in
  exists hs p' h', AllocateDescriptorSets (DescriptorPool [] 0 4 [PoolSize UNIFORM_BUFFER 1]) (Heap ∅ []) [layout] = Ok (SUCCESS, hs, p', h') /\
    needs UNIFORM_BUFFER (l_bindings layout) = 2 /\ remaining_of (dp_sizes p') UNIFORM_BUFFER = Some 4294967295.
Proof. apply repeated_type_overdraws. exists 1. reflexivity. Defined.
