(* ===== verification/DescriptorWrites.v ===== *)
(** * Writing, copying, binding and pushing descriptors ([src/driver/ps5vk_descriptor_set.c])

    What vkUpdateDescriptorSets, templates, vkCmdBindDescriptorSets2 and
    vkCmdPushDescriptorSet2 record.  An access outside a set's records is
    undefined in the model, so that the theorems show none happens. *)

From Stdlib Require Import ZArith Lia.
From stdpp Require Import base numbers list gmap.
From S2P Require Import Prelude DriverPrelude DescriptorLayout DescriptorSets.
Open Scope Z_scope.

(** ** Data *)

(** [VkDescriptorImageInfo], [VkDescriptorBufferInfo] *)
Record image_info := ImageInfo { ii_sampler : Z; ii_view : Z }.
Record buffer_info := BufferInfo { bi_buffer : Z; bi_offset : Z; bi_range : Z }.

(** [VkWriteDescriptorSet]; the application's arrays are read by index. *)
Record write_descriptor := WriteDescriptor {
  w_set : handle;
  w_binding : Z;
  w_element : Z;
  w_count : Z;
  w_type : descriptor_type;
  w_images : option (Z -> image_info);
  w_buffers : option (Z -> buffer_info);
  w_texels : option (Z -> Z)
}.

(** [VkCopyDescriptorSet] *)
Record copy_descriptor := CopyDescriptor {
  cd_src : handle; cd_src_binding : Z; cd_src_element : Z;
  cd_dst : handle; cd_dst_binding : Z; cd_dst_element : Z; cd_count : Z
}.

(** [struct vk_descriptor_template_entry] *)
Record template_entry := TemplateEntry {
  te_type : descriptor_type; te_binding : Z; te_element : Z; te_count : Z; te_offset : Z; te_stride : Z
}.

(** The buffers the application names: a handle's device address and size, or
    nothing for the null handle. *)
Class Buffers := { buffer_of : Z -> option (Z * Z) }.

(** The application's memory, as a template reads it at an offset of [pData]. *)
Record template_data := TemplateData { td_image : Z -> image_info; td_buffer : Z -> buffer_info; td_texel : Z -> Z }.

Definition VK_WHOLE_SIZE : Z := UINT64_MAX.
Definition PS5VK_DESCRIPTOR_SET_COUNT : Z := 4.
Definition PS5VK_DYNAMIC_UNIFORM_COUNT : Z := 8.

(** ** Writes and copies *)

Section Writes.
Context `{B : Buffers}.

(** [ps5vk_descriptor_write_one]: the record it stores. *)
Definition write_one (w : write_descriptor) (element : Z) : descriptor_record :=
  let t := w_type w in
  match t, w_texels w with
  | (UNIFORM_TEXEL_BUFFER | STORAGE_TEXEL_BUFFER), Some views => Descriptor 0 0 t 0 0 (views element)
  | _, _ =>
  match t, w_images w with
  | (STORAGE_IMAGE | SAMPLED_IMAGE | INPUT_ATTACHMENT), Some images => Descriptor 0 0 t (ii_view (images element)) 0 0
  | SAMPLER, Some images => Descriptor 0 0 t 0 (ii_sampler (images element)) 0
  | COMBINED_IMAGE_SAMPLER, Some images => Descriptor 0 0 t (ii_view (images element)) (ii_sampler (images element)) 0
  | _, _ =>
  match t, w_buffers w with
  | (UNIFORM_BUFFER | UNIFORM_BUFFER_DYNAMIC | STORAGE_BUFFER), Some buffers =>
      let info := buffers element in
      match buffer_of (bi_buffer info) with
      | None => zero_record t
      | Some (address, size) =>
          if address =? 0 then zero_record t
          else Descriptor (u64 (address + bi_offset info))
                 (if bi_range info =? VK_WHOLE_SIZE then u64 (size - bi_offset info) else bi_range info) t 0 0 0
      end
  | _, _ => zero_record t
  end end end.

(** A set by its handle: none for the null handle, undefined for a dead one. *)
Definition find_set (h : heap) (a : handle) : outcome (option descriptor_set) :=
  if a =? 0 then Ok None
  else match h_sets h !! a with Some s => Ok (Some s) | None => Undefined end.

(** [ps5vk_descriptor_range]: the first record, when the range lies in the set. *)
Definition descriptor_range (set : option descriptor_set) (binding element count : Z) : option Z :=
  match set with
  | None => None
  | Some s =>
      match l_bindings (s_layout s) !! Z.to_nat binding with
      | None => None
      | Some b =>
          if b_count b <=? element then None
          else let first := u32 (b_record_index b + element) in
               if count <=? u32 (l_descriptor_count (s_layout s) - first) then Some first else None
      end
  end.

Definition store_record (buffers : list descriptor_record) (at_ : Z) (r : descriptor_record) : outcome (list descriptor_record) :=
  if (0 <=? at_) && (at_ <? Z.of_nat (length buffers)) then Ok (<[Z.to_nat at_ := r]> buffers) else Undefined.

Definition with_buffers (buffers : list descriptor_record) (s : descriptor_set) : descriptor_set :=
  DescriptorSet (s_layout s) (s_push s) buffers.
Definition with_set (a : handle) (s : descriptor_set) (h : heap) : heap := Heap (<[a := s]> (h_sets h)) (h_refs h).

(** [ps5vk_descriptor_set_write]; a refused write is only reported. *)
Definition set_write (h : heap) (w : write_descriptor) : outcome heap :=
  let! set := find_set h (w_set w) in
  match set, descriptor_range set (w_binding w) (w_element w) (w_count w) with
  | Some s, Some first =>
      let! buffers := for_each (fun buffers i => store_record buffers (u32 (first + i)) (write_one w i))
                        (s_buffers s) (indices 0 (Z.to_nat (w_count w))) in
      Ok (with_set (w_set w) (with_buffers buffers s) h)
  | _, _ => Ok h
  end.

(** [memmove(&destination\[dst\], &source\[src\], count)]: the source is read
    before the destination changes. *)
Definition move_records (source destination : list descriptor_record) (src dst count : Z) : outcome (list descriptor_record) :=
  if (src + count <=? Z.of_nat (length source)) && (dst + count <=? Z.of_nat (length destination))
  then Ok (take (Z.to_nat dst) destination ++ take (Z.to_nat count) (drop (Z.to_nat src) source) ++ drop (Z.to_nat (dst + count)) destination)
  else Undefined.

(** [ps5vk_descriptor_set_copy] *)
Definition set_copy (h : heap) (c : copy_descriptor) : outcome heap :=
  let! source := find_set h (cd_src c) in
  let! destination := find_set h (cd_dst c) in
  match source, descriptor_range source (cd_src_binding c) (cd_src_element c) (cd_count c),
        destination, descriptor_range destination (cd_dst_binding c) (cd_dst_element c) (cd_count c) with
  | Some s, Some src, Some d, Some dst =>
      let! buffers := move_records (s_buffers s) (s_buffers d) src dst (cd_count c) in
      Ok (with_set (cd_dst c) (with_buffers buffers d) h)
  | _, _, _, _ => Ok h
  end.

(** [ps5vk_UpdateDescriptorSets] *)
Definition UpdateDescriptorSets (h : heap) (writes : list write_descriptor) (copies : list copy_descriptor) : outcome heap :=
  let! h' := for_each set_write h writes in for_each set_copy h' copies.

(** The one-descriptor write of element [i] of a template's entry. *)
Definition template_write (set : handle) (data : template_data) (e : template_entry) (i : Z) : write_descriptor :=
  let at_ := te_offset e + i * te_stride e in
  let images := match te_type e with
    | SAMPLER | COMBINED_IMAGE_SAMPLER | SAMPLED_IMAGE | STORAGE_IMAGE | INPUT_ATTACHMENT => true | _ => false end in
  let texels := match te_type e with UNIFORM_TEXEL_BUFFER | STORAGE_TEXEL_BUFFER => true | _ => false end in
  WriteDescriptor set (te_binding e) (u32 (te_element e + i)) 1 (te_type e)
    (if images then Some (fun _ => td_image data at_) else None)
    (if negb images && negb texels then Some (fun _ => td_buffer data at_) else None)
    (if texels then Some (fun _ => td_texel data at_) else None).

(** [ps5vk_UpdateDescriptorSetWithTemplate] *)
Definition UpdateDescriptorSetWithTemplate (h : heap) (set : handle) (entries : list template_entry) (data : template_data) : outcome heap :=
  for_each (fun h e => for_each (fun h i => UpdateDescriptorSets h [template_write set data e i] []) h
              (indices 0 (Z.to_nat (te_count e)))) h entries.

End Writes.

(** ** Binding and pushing *)

(** What the file changes of a command buffer: the sets bound, their dynamic
    offsets, the sets it owns, and whether recording failed. *)
Record command_buffer := CommandBuffer {
  cb_error : bool;
  cb_sets : list handle;
  cb_offsets : list (list Z);
  cb_push_sets : list handle
}.

(** [ps5vk_cmd_buffer_refuse]: recording ends with an error. *)
Definition refuse (cb : command_buffer) : command_buffer :=
  CommandBuffer true (cb_sets cb) (cb_offsets cb) (cb_push_sets cb).

Definition no_offsets : list Z := replicate (Z.to_nat PS5VK_DYNAMIC_UNIFORM_COUNT) 0.

(** A set at an index, with its offsets cleared. *)
Definition bind_set (index : Z) (a : handle) (cb : command_buffer) : command_buffer :=
  CommandBuffer (cb_error cb) (<[Z.to_nat index := a]> (cb_sets cb)) (<[Z.to_nat index := no_offsets]> (cb_offsets cb)) (cb_push_sets cb).
Definition with_row (index : Z) (row : list Z) (cb : command_buffer) : command_buffer :=
  CommandBuffer (cb_error cb) (cb_sets cb) (<[Z.to_nat index := row]> (cb_offsets cb)) (cb_push_sets cb).

(** The loop over a set's bindings: the row, how many offsets are consumed, and
    whether a binding was refused. *)
Fixpoint bind_offsets (bindings : list descriptor_binding) (offsets row : list Z) (next : Z) : list Z * Z * bool :=
  match bindings with
  | [] => (row, next, true)
  | b :: rest =>
      if (b_count b =? 0) || negb (is_dynamic b) then bind_offsets rest offsets row next
      else if (PS5VK_DYNAMIC_UNIFORM_COUNT <? b_dynamic_index b) ||
              (u32 (PS5VK_DYNAMIC_UNIFORM_COUNT - b_dynamic_index b) <? b_count b) ||
              (u32 (Z.of_nat (length offsets) - next) <? b_count b) then (row, next, false)
      else
        let '(row', next') := fold_left (fun '(row, next) element =>
            (<[Z.to_nat (b_dynamic_index b + element) := offsets !!! Z.to_nat next]> row, u32 (next + 1)))
          (indices 0 (Z.to_nat (b_count b))) (row, next) in
        bind_offsets rest offsets row' next'
  end.

(** The loop over the sets: the offsets consumed, or [None] once refused. *)
Fixpoint bind_loop (h : heap) (index : Z) (sets : list handle) (offsets : list Z) (next : Z) (cb : command_buffer)
  : outcome (option Z * command_buffer) :=
  match sets with
  | [] => Ok (Some next, cb)
  | a :: rest =>
      if PS5VK_DESCRIPTOR_SET_COUNT <=? u32 index then Ok (None, refuse cb)
      else
        let! set := find_set h a in
        let cb := bind_set (u32 index) a cb in
        match set with
        | None => bind_loop h (index + 1) rest offsets next cb
        | Some s =>
            let '(row, next', fine) := bind_offsets (l_bindings (s_layout s)) offsets no_offsets next in
            let cb := with_row (u32 index) row cb in
            if fine then bind_loop h (index + 1) rest offsets next' cb else Ok (None, refuse cb)
        end
  end.

(** [ps5vk_CmdBindDescriptorSets2KHR] *)
Definition CmdBindDescriptorSets2 (h : heap) (first_set : Z) (sets : list handle) (offsets : list Z) (cb : command_buffer) : outcome command_buffer :=
  if cb_error cb then Ok cb
  else
    let! x := bind_loop h first_set sets offsets 0 cb in
    match x with
    | (None, cb') => Ok cb'
    | (Some next, cb') => Ok (if negb (next =? Z.of_nat (length offsets)) then refuse cb' else cb')
    end.

(** [ps5vk_cmd_buffer_descriptor] *)
Definition cmd_buffer_descriptor (h : heap) (cb : command_buffer) (set_index binding element : Z) : outcome (option descriptor_record) :=
  if PS5VK_DESCRIPTOR_SET_COUNT <=? set_index then Ok None
  else
    let! set := find_set h (cb_sets cb !!! Z.to_nat set_index) in
    match set with
    | None => Ok None
    | Some s =>
        match l_bindings (s_layout s) !! Z.to_nat binding with
        | None => Ok None
        | Some b =>
            if b_count b <=? element then Ok None
            else match s_buffers s !! Z.to_nat (u32 (b_record_index b + element)) with
                 | None => Undefined
                 | Some r => Ok (if bool_decide (r_type r = TYPE_MAX_ENUM) then None else Some r)
                 end
        end
    end.

(** The writes of a push, to the set it made. *)
Definition retarget (a : handle) (w : write_descriptor) : write_descriptor :=
  WriteDescriptor a (w_binding w) (w_element w) (w_count w) (w_type w) (w_images w) (w_buffers w) (w_texels w).

(** [ps5vk_CmdPushDescriptorSet2KHR]: [layouts] is the pipeline layout's, and
    [grown] whether the command buffer's list had room for one set more. *)
Definition CmdPushDescriptorSet2 `{Allocator} `{Buffers} (grown : bool) (h : heap) (set : Z)
    (layouts : option (list (option set_layout))) (writes : list write_descriptor) (cb : command_buffer) : outcome (command_buffer * heap) :=
  if cb_error cb then Ok (cb, h)
  else
    match (if PS5VK_DESCRIPTOR_SET_COUNT <=? set then None else layouts ≫= fun l => l !! Z.to_nat set ≫= id) with
    | None => Ok (refuse cb, h)
    | Some layout =>
        match (if grown then vk_object_zalloc h (set_bytes layout) else None) with
        | None => Ok (refuse cb, h)
        | Some a =>
            let s := DescriptorSet layout true (replicate (Z.to_nat (l_descriptor_count layout)) (zero_record TYPE_MAX_ENUM)) in
            let h1 := Heap (<[a := s]> (h_sets h)) (layout :: h_refs h) in
            let! h2 := for_each set_write h1 (retarget a <$> writes) in
            Ok (CommandBuffer (cb_error cb) (<[Z.to_nat set := a]> (cb_sets cb)) (<[Z.to_nat set := no_offsets]> (cb_offsets cb))
                  (cb_push_sets cb ++ [a]), h2)
        end
    end.

(** [ps5vk_cmd_buffer_release_push_sets] *)
Definition release_push_sets (cb : command_buffer) (h : heap) : outcome (command_buffer * heap) :=
  let! h' := for_each (fun h a => match h_sets h !! a with
                                  | None => Undefined
                                  | Some s => Ok (Heap (delete a (h_sets h)) (remove_one (s_layout s) (h_refs h)))
                                  end) h (cb_push_sets cb) in
  Ok (CommandBuffer (cb_error cb) (cb_sets cb) (cb_offsets cb) [], h').

(** ** Ranges of records *)

Definition set_ok (s : descriptor_set) : Prop :=
  layout_ok (s_layout s) /\ Z.of_nat (length (s_buffers s)) = l_descriptor_count (s_layout s).
Definition sets_ok (h : heap) : Prop := forall a s, h_sets h !! a = Some s -> set_ok s.

(** A handle the application may name: null, or of a live set. *)
Definition live (h : heap) (a : handle) : Prop := a = 0 \/ is_Some (h_sets h !! a).

Lemma binding_records l i b : layout_ok l -> l_bindings l !! i = Some b ->
  0 <= b_count b /\ 0 <= b_record_index b /\ b_record_index b + b_count b <= l_descriptor_count l.
Proof.
  intros [C S R _ _ D _ _] L. rewrite (R _ _ L), D, <- (total_take_S b_count _ _ _ L). split; [exact (Forall_lookup_1 _ _ _ _ C L)|].
  split; [apply total_ge_0, Forall_take, C|now apply total_take_max].
Qed.

(** Distinct elements of distinct bindings are distinct records. *)
Lemma record_inj l i j b b' e e' : layout_ok l -> l_bindings l !! i = Some b -> l_bindings l !! j = Some b' ->
  0 <= e < b_count b -> 0 <= e' < b_count b' -> b_record_index b + e = b_record_index b' + e' -> i = j /\ e = e'.
Proof.
  intros Lo Li Lj E E' Q. pose proof (lo_counts _ Lo) as C. pose proof (lo_records _ Lo _ _ Li) as Ri. pose proof (lo_records _ Lo _ _ Lj) as Rj.
  destruct (lt_eq_lt_dec i j) as [[Lt|Eq]|Lt]; [|subst j|].
  - pose proof (total_take_S b_count _ _ _ Li). pose proof (total_take_le b_count (l_bindings l) (S i) j C Lt). lia.
  - rewrite Li in Lj. injection Lj as ->. split; [done|lia].
  - pose proof (total_take_S b_count _ _ _ Lj). pose proof (total_take_le b_count (l_bindings l) (S j) i C Lt). lia.
Qed.

Lemma range_spec s binding element count : set_ok s -> 0 <= element -> 0 <= count ->
  match descriptor_range (Some s) binding element count with
  | Some first => exists b, l_bindings (s_layout s) !! Z.to_nat binding = Some b /\ element < b_count b /\
      first = b_record_index b + element /\ 0 <= first /\ first + count <= l_descriptor_count (s_layout s)
  | None => forall b, l_bindings (s_layout s) !! Z.to_nat binding = Some b ->
      b_count b <= element \/ l_descriptor_count (s_layout s) < b_record_index b + element + count
  end.
Proof.
  intros [Lo Len] E C. unfold descriptor_range. destruct (l_bindings (s_layout s) !! Z.to_nat binding) as [b|] eqn:L; [|done].
  destruct (binding_records _ _ _ Lo L) as (Bc & Br & Bm). pose proof (proj1 (lo_small _ Lo)) as Sm.
  destruct (b_count b <=? element) eqn:Be; to_prop; [intros b' Q; injection Q as <-; now left|].
  rewrite (u32_small (b_record_index b + element)) by lia. rewrite u32_small by lia.
  destruct (count <=? _) eqn:F; to_prop; [eauto 10 with lia|]. intros b' Q. injection Q as <-. right. lia.
Qed.

Lemma store_loop f base n buffers from : 0 <= base + from -> base + from + Z.of_nat n <= Z.of_nat (length buffers) -> Z.of_nat (length buffers) < 2 ^ 32 ->
  exists buffers', for_each (fun buffers i => store_record buffers (u32 (base + i)) (f i)) buffers (indices from n) = Ok buffers' /\
    length buffers' = length buffers /\
    forall j, buffers' !! j = if decide (base + from <= Z.of_nat j < base + from + Z.of_nat n) then Some (f (Z.of_nat j - base)) else buffers !! j.
Proof.
  revert buffers from. induction n as [|n IH]; intros buffers from F0 Fl Sm; simpl for_each.
  - exists buffers. split_and!; try done. intros j. rewrite decide_False; [done|lia].
  - unfold store_record at 1. rewrite u32_small by lia.
    destruct (_ && _) eqn:E; [clear E|apply andb_false_iff in E as [E|E]; to_prop; lia].
    simpl. destruct (IH (<[Z.to_nat (base + from) := f from]> buffers) (from + 1)) as (buffers' & Q & Len & Lk); rewrite ?length_insert; try lia.
    exists buffers'. split; [exact Q|]. split; [now rewrite length_insert in Len|].
    intros j. rewrite Lk. destruct (decide (j = Z.to_nat (base + from))) as [->|N].
    + rewrite decide_False by lia. rewrite decide_True by lia. rewrite list_lookup_insert_eq by lia. f_equal. f_equal. lia.
    + rewrite list_lookup_insert_ne by done. apply decide_ext. lia.
Qed.

Lemma sets_ok_with h a s s' : sets_ok h -> h_sets h !! a = Some s -> s_layout s' = s_layout s -> length (s_buffers s') = length (s_buffers s) ->
  sets_ok (with_set a s' h).
Proof.
  intros O L E Le b sb Lb. unfold with_set in Lb. cbn [h_sets] in Lb. apply lookup_insert_Some in Lb as [[<- <-]|[N Lb]]; [|exact (O _ _ Lb)].
  destruct (O _ _ L) as [Lo Len]. split; [now rewrite E|]. now rewrite E, Le.
Qed.

Section WriteFacts.
Context `{B : Buffers}.

(** What a write leaves, whatever its range. *)
Definition written (h h' : heap) (w : write_descriptor) : Prop :=
  (forall a, a <> w_set w -> h_sets h' !! a = h_sets h !! a) /\ h_refs h' = h_refs h /\
  match h_sets h !! w_set w with
  | None => h' = h
  | Some s => exists s', h_sets h' !! w_set w = Some s' /\ s_layout s' = s_layout s /\ s_push s' = s_push s /\
      length (s_buffers s') = length (s_buffers s) /\
      forall j, s_buffers s' !! j =
        match descriptor_range (Some s) (w_binding w) (w_element w) (w_count w) with
        | Some first => if decide (first <= Z.of_nat j < first + w_count w) then Some (write_one w (Z.of_nat j - first)) else s_buffers s !! j
        | None => s_buffers s !! j
        end
  end.

Lemma set_write_spec h w : sets_ok h -> h_sets h !! 0 = None -> live h (w_set w) -> 0 <= w_element w -> 0 <= w_count w ->
  exists h', set_write h w = Ok h' /\ sets_ok h' /\ written h h' w.
Proof.
  intros O Null Lv We Wc. unfold set_write, find_set, written. destruct (w_set w =? 0) eqn:Z; to_prop.
  { rewrite Z, Null. simpl. eauto 10. }
  destruct Lv as [|[s L]]; [done|]. rewrite L. cbn [bind].
  pose proof (range_spec s (w_binding w) (w_element w) (w_count w) (O _ _ L) We Wc) as R.
  destruct (descriptor_range (Some s) _ _ _) as [first|] eqn:D.
  2:{ exists h. split; [done|]. split; [done|]. split; [done|]. split; [done|]. exists s. split_and!; done. }
  destruct R as (b & Lb & Eb & Fb & F0 & Fc). destruct (O _ _ L) as [Lo Len]. pose proof (proj1 (lo_small _ Lo)).
  destruct (store_loop (write_one w) first (Z.to_nat (w_count w)) (s_buffers s) 0) as (bs & E & Le & Lk); [lia|lia|lia|].
  rewrite E. cbn [bind]. eexists. split; [reflexivity|].
  split; [exact (sets_ok_with h _ s (with_buffers bs s) O L eq_refl Le)|]. split; [intros a Na; apply lookup_insert_ne; congruence|]. split; [done|].
  exists (with_buffers bs s). split; [apply lookup_insert_eq|]. split_and!; try done. intros j. cbn [with_buffers s_buffers]. rewrite Lk, Z2Nat.id, Z.add_0_r by lia. done.
Qed.


Lemma write_one_type w i : r_type (write_one w i) = w_type w.
Proof.
  unfold write_one. destruct (w_type w), (w_texels w), (w_images w), (w_buffers w) as [f|]; try reflexivity;
    destruct (buffer_of _) as [[address size]|]; try reflexivity; destruct (_ =? 0); reflexivity.
Qed.

(** What a command buffer reads of a bound set. *)
Lemma descriptor_at h cb index binding element a s : h_sets h !! a = Some s -> a <> 0 -> set_ok s ->
  0 <= index < PS5VK_DESCRIPTOR_SET_COUNT -> cb_sets cb !!! Z.to_nat index = a -> 0 <= element ->
  exists o, cmd_buffer_descriptor h cb index binding element = Ok o /\
    match l_bindings (s_layout s) !! Z.to_nat binding with
    | None => o = None
    | Some b => if decide (b_count b <= element) then o = None
                else exists r, s_buffers s !! Z.to_nat (b_record_index b + element) = Some r /\
                  o = if decide (r_type r = TYPE_MAX_ENUM) then None else Some r
    end.
Proof.
  intros L A0 [Lo Len] [I0 I4] Cb E0. unfold cmd_buffer_descriptor. destruct (_ <=? index) eqn:X; to_prop; [lia|]. rewrite Cb.
  unfold find_set. destruct (a =? 0) eqn:Az; to_prop; [done|]. rewrite L. cbn [bind].
  destruct (l_bindings (s_layout s) !! Z.to_nat binding) as [b|] eqn:Lb; [|eauto].
  destruct (binding_records _ _ _ Lo Lb) as (Bc & Br & Bm). pose proof (proj1 (lo_small _ Lo)).
  destruct (b_count b <=? element) eqn:Be; to_prop.
  - exists None. split; [done|]. now rewrite decide_True.
  - rewrite u32_small by lia.
    destruct (lookup_lt_is_Some_2 (s_buffers s) (Z.to_nat (b_record_index b + element))) as [r R]; [lia|]. rewrite R.
    eexists. split; [reflexivity|]. rewrite decide_False by lia. exists r. split; [done|]. case_bool_decide; case_decide; done.
Qed.

(** ** Templates *)

(** The write of a whole template entry's array, of [n] descriptors. *)
Definition array_write (set : handle) (data : template_data) (e : template_entry) (n : Z) : write_descriptor :=
  let at_ i := te_offset e + i * te_stride e in
  let images := match te_type e with
    | SAMPLER | COMBINED_IMAGE_SAMPLER | SAMPLED_IMAGE | STORAGE_IMAGE | INPUT_ATTACHMENT => true | _ => false end in
  let texels := match te_type e with UNIFORM_TEXEL_BUFFER | STORAGE_TEXEL_BUFFER => true | _ => false end in
  WriteDescriptor set (te_binding e) (te_element e) n (te_type e)
    (if images then Some (fun i => td_image data (at_ i)) else None)
    (if negb images && negb texels then Some (fun i => td_buffer data (at_ i)) else None)
    (if texels then Some (fun i => td_texel data (at_ i)) else None).

Lemma template_element set data e n i j : write_one (template_write set data e i) j = write_one (array_write set data e n) i.
Proof. destruct e as [t bi el c o st]. destruct t; reflexivity. Qed.

Lemma buffers_ext s s' : s_layout s = s_layout s' -> s_push s = s_push s' -> (forall j, s_buffers s !! j = s_buffers s' !! j) -> s = s'.
Proof. destruct s, s'. simpl. intros -> -> E. f_equal. now apply list_eq. Qed.

Lemma heap_ext h h' : (forall a, h_sets h !! a = h_sets h' !! a) -> h_refs h = h_refs h' -> h = h'.
Proof. destruct h, h'. simpl. intros E ->. f_equal. now apply map_eq. Qed.

(** [n] elements of an entry from [from] on, written one by one. *)
Lemma template_loop set data e n from h s b : sets_ok h -> h_sets h !! 0 = None -> set <> 0 -> h_sets h !! set = Some s ->
  l_bindings (s_layout s) !! Z.to_nat (te_binding e) = Some b -> 0 <= te_element e -> 0 <= from -> te_element e + from + Z.of_nat n < 2 ^ 32 ->
  exists h' s', for_each (fun h i => UpdateDescriptorSets h [template_write set data e i] []) h (indices from n) = Ok h' /\
    sets_ok h' /\ h_refs h' = h_refs h /\ (forall a, a <> set -> h_sets h' !! a = h_sets h !! a) /\ h_sets h' !! set = Some s' /\
    s_layout s' = s_layout s /\ s_push s' = s_push s /\
    forall j, s_buffers s' !! j =
      let i := Z.of_nat j - (b_record_index b + te_element e) in
      if decide (from <= i < (from + Z.of_nat n) `min` (b_count b - te_element e)) then Some (write_one (array_write set data e 0) i) else s_buffers s !! j.
Proof.
  intros O Null S0 L Lb E0. revert from h s O Null L Lb. induction n as [|n IH]; intros from h s O Null L Lb F0 Fs; simpl for_each.
  - exists h, s. split_and!; try done. intros j. cbv zeta. rewrite decide_False by lia. done.
  - destruct (set_write_spec h (template_write set data e from) O Null) as (h1 & E1 & O1 & W1).
    { right. simpl. eauto. } { simpl. unfold u32. apply Z.mod_pos_bound. lia. } { simpl. lia. }
    unfold UpdateDescriptorSets at 1. simpl for_each at 1. rewrite E1. cbn [bind for_each].
    destruct W1 as (W1 & W2 & W3). cbn [w_set template_write w_count w_element w_binding] in W1, W3. rewrite L in W3.
    destruct W3 as (s1 & L1 & La1 & P1 & _ & B1). rewrite u32_small in B1 by lia.
    pose proof (range_spec s (te_binding e) (te_element e + from) 1 (O _ _ L) ltac:(lia) ltac:(lia)) as R.
    destruct (binding_records _ _ _ (proj1 (O _ _ L)) Lb) as (Bc & Br & Bm).
    destruct (IH (from + 1) h1 s1) as (h' & s' & E' & O' & Rf & U & L' & La & P' & B'); rewrite ?La1; try done; try lia; [rewrite W1; auto|].
    exists h', s'. split; [exact E'|]. split; [done|]. split; [congruence|]. split; [intros a Na; rewrite U, W1; auto|]. split; [done|].
    split; [congruence|]. split; [congruence|]. intros j. rewrite B', B1. cbv zeta. set (i := Z.of_nat j - (b_record_index b + te_element e)).
    assert (Hi : i = Z.of_nat j - (b_record_index b + te_element e)) by reflexivity. clearbody i.
    destruct (descriptor_range (Some s) (te_binding e) (te_element e + from) 1) as [first|].
    + destruct R as (b' & Lb' & Eb & -> & _). rewrite Lb in Lb'. injection Lb' as <-. destruct (decide (i = from)) as [I|I].
      * rewrite decide_False by lia. rewrite decide_True by lia. rewrite decide_True by lia. rewrite (template_element set data e 0 from). now rewrite I.
      * repeat case_decide; try lia; done.
    + specialize (R b Lb). assert (b_count b <= te_element e + from) by (destruct R; lia). rewrite !decide_False by lia. done.
Qed.

(** ** Copies *)

Lemma move_spec source destination src dst count : 0 <= src -> 0 <= dst -> 0 <= count ->
  src + count <= Z.of_nat (length source) -> dst + count <= Z.of_nat (length destination) ->
  exists r, move_records source destination src dst count = Ok r /\ length r = length destination /\
    forall j, r !! j = if decide (dst <= Z.of_nat j < dst + count) then source !! Z.to_nat (src + (Z.of_nat j - dst)) else destination !! j.
Proof.
  intros S0 D0 C0 Sl Dl. unfold move_records. destruct (_ && _) eqn:E; [clear E|apply andb_false_iff in E as [E|E]; to_prop; lia].
  eexists. split; [reflexivity|]. split.
  - rewrite !length_app, !length_take, !length_drop. lia.
  - intros j. destruct (decide (Z.of_nat j < dst)).
    + rewrite decide_False by lia. rewrite lookup_app_l by (rewrite length_take; lia). now rewrite lookup_take_lt by lia.
    + rewrite lookup_app_r by (rewrite length_take; lia). rewrite length_take, Nat.min_l by lia. case_decide.
      * rewrite lookup_app_l by (rewrite length_take, length_drop; lia). rewrite lookup_take_lt by lia. rewrite lookup_drop. f_equal. lia.
      * rewrite lookup_app_r by (rewrite length_take, length_drop; lia). rewrite length_take, length_drop, Nat.min_l by lia.
        rewrite lookup_drop. f_equal. lia.
Qed.

(** A copy between live sets - the same one with overlapping ranges
    included - moves the source's records as they were before it, when both
    ranges lie in their sets, and changes nothing otherwise; no access is out
    of bounds. *)
Theorem copy_moves_records h c s d : sets_ok h -> h_sets h !! 0 = None ->
  h_sets h !! cd_src c = Some s -> h_sets h !! cd_dst c = Some d ->
  0 <= cd_src_element c -> 0 <= cd_dst_element c -> 0 <= cd_count c ->
  exists h', set_copy h c = Ok h' /\ sets_ok h' /\ (forall a, a <> cd_dst c -> h_sets h' !! a = h_sets h !! a) /\
    match descriptor_range (Some s) (cd_src_binding c) (cd_src_element c) (cd_count c),
          descriptor_range (Some d) (cd_dst_binding c) (cd_dst_element c) (cd_count c) with
    | Some src, Some dst => exists d', h_sets h' !! cd_dst c = Some d' /\ s_layout d' = s_layout d /\
        forall j, s_buffers d' !! j = if decide (dst <= Z.of_nat j < dst + cd_count c)
                                      then s_buffers s !! Z.to_nat (src + (Z.of_nat j - dst)) else s_buffers d !! j
    | _, _ => h' = h
    end.
Proof.
  intros O Null Ls Ld Es Ed C. unfold set_copy, find_set.
  destruct (cd_src c =? 0) eqn:Zs; to_prop; [rewrite Zs in Ls; congruence|]. destruct (cd_dst c =? 0) eqn:Zd; to_prop; [rewrite Zd in Ld; congruence|].
  rewrite Ls, Ld. cbn [bind].
  pose proof (range_spec s (cd_src_binding c) _ _ (O _ _ Ls) Es C) as Rs. pose proof (range_spec d (cd_dst_binding c) _ _ (O _ _ Ld) Ed C) as Rd.
  destruct (descriptor_range (Some s) _ _ _) as [src|]; [|eauto 6]. destruct (descriptor_range (Some d) _ _ _) as [dst|]; [|eauto 6].
  destruct Rs as (bs & _ & _ & _ & S0 & Sc). destruct Rd as (bd & _ & _ & _ & D0 & Dc).
  destruct (O _ _ Ls) as [_ Lens]. destruct (O _ _ Ld) as [_ Lend].
  destruct (move_spec (s_buffers s) (s_buffers d) src dst (cd_count c)) as (r & E & Lr & Lk); try lia.
  rewrite E. cbn [bind]. eexists. split; [reflexivity|].
  split; [exact (sets_ok_with h _ d (with_buffers r d) O Ld eq_refl Lr)|]. split; [intros a Na; apply lookup_insert_ne; congruence|].
  exists (with_buffers r d). split; [apply lookup_insert_eq|]. split; [done|exact Lk].
Qed.

(** ** What writes and templates leave *)

(** C37: what an application writes to elements of a binding, a command buffer
    with the set bound reads there, and it reads everywhere else in the set
    what it read before. *)
Theorem write_read_back h w cb index s b i : sets_ok h -> h_sets h !! 0 = None ->
  h_sets h !! w_set w = Some s -> l_bindings (s_layout s) !! Z.to_nat (w_binding w) = Some b ->
  0 <= index < PS5VK_DESCRIPTOR_SET_COUNT -> cb_sets cb !!! Z.to_nat index = w_set w ->
  0 <= w_binding w -> 0 <= w_element w -> w_element w + w_count w <= b_count b -> 0 <= i < w_count w -> w_type w <> TYPE_MAX_ENUM ->
  exists h', set_write h w = Ok h' /\
    cmd_buffer_descriptor h' cb index (w_binding w) (w_element w + i) = Ok (Some (write_one w i)) /\
    forall binding element, 0 <= binding -> 0 <= element ->
      ~ (binding = w_binding w /\ w_element w <= element < w_element w + w_count w) ->
      cmd_buffer_descriptor h' cb index binding element = cmd_buffer_descriptor h cb index binding element.
Proof.
  intros O Null L Lb I Cb B0 E0 Ec Hi T. assert (A0 : w_set w <> 0) by (intros Z; rewrite Z in L; congruence).
  destruct (set_write_spec h w O Null) as (h' & E & O' & _ & _ & W); [right; eauto|done|lia|]. rewrite L in W.
  destruct W as (s' & L' & La & _ & _ & Bf). exists h'. split; [exact E|].
  pose proof (range_spec s (w_binding w) _ (w_count w) (O _ _ L) E0 ltac:(lia)) as R. destruct (O _ _ L) as [Lo _].
  destruct (binding_records _ _ _ Lo Lb) as (Bc & Br & Bm).
  destruct (descriptor_range (Some s) _ _ _) as [first|]; [|destruct (R b Lb); lia].
  destruct R as (b' & Lb' & _ & -> & _). rewrite Lb in Lb'. injection Lb' as <-.
  assert (At : forall binding element, 0 <= element -> exists o, cmd_buffer_descriptor h' cb index binding element = Ok o /\
    match l_bindings (s_layout s) !! Z.to_nat binding with
    | None => o = None
    | Some b => if decide (b_count b <= element) then o = None
                else exists r, s_buffers s' !! Z.to_nat (b_record_index b + element) = Some r /\ o = if decide (r_type r = TYPE_MAX_ENUM) then None else Some r
    end).
  { intros binding element El. rewrite <- La. exact (descriptor_at h' cb index binding element (w_set w) s' L' A0 (O' _ _ L') I Cb El). }
  split.
  - destruct (At (w_binding w) (w_element w + i) ltac:(lia)) as (o & -> & Q). rewrite Lb in Q. rewrite decide_False in Q by lia.
    destruct Q as (r & Rr & ->). rewrite Bf, decide_True in Rr by lia. injection Rr as <-.
    replace (Z.of_nat _ - _) with i by lia. rewrite write_one_type. now rewrite decide_False.
  - intros binding element Bb El N. destruct (At binding element El) as (o' & -> & Q').
    destruct (descriptor_at h cb index binding element (w_set w) s L A0 (O _ _ L) I Cb El) as (o & -> & Q). f_equal.
    destruct (l_bindings (s_layout s) !! Z.to_nat binding) as [c|] eqn:Lc; [|congruence].
    destruct (decide (b_count c <= element)) as [Dc|Dc]; [congruence|].
    destruct Q as (r & Rr & ->). destruct Q' as (r' & Rr' & ->).
    destruct (binding_records _ _ _ Lo Lc) as (Cc & Cr & Cm). rewrite Bf, decide_False in Rr'; [rewrite Rr in Rr'; now injection Rr' as <-|]. intros D. apply N.
    destruct (record_inj (s_layout s) (Z.to_nat binding) (Z.to_nat (w_binding w)) c b element (b_record_index c + element - b_record_index b) Lo Lc Lb) as [D1 D2]; lia.
Qed.

(** Updating with a template entry is the array write of the same
    descriptors cut off at the end of the entry's binding: the elements past
    it, which a write carries on into the next bindings, are dropped. *)
Theorem template_entry_stops_at_binding h set data e s b : sets_ok h -> h_sets h !! 0 = None ->
  h_sets h !! set = Some s -> l_bindings (s_layout s) !! Z.to_nat (te_binding e) = Some b ->
  0 <= te_element e < b_count b -> 0 <= te_count e -> te_element e + te_count e < 2 ^ 32 ->
  exists h', UpdateDescriptorSetWithTemplate h set [e] data = Ok h' /\
    set_write h (array_write set data e (te_count e `min` (b_count b - te_element e))) = Ok h'.
Proof.
  intros O Null L Lb E0 C0 Fs. assert (S0 : set <> 0) by (intros ->; congruence).
  destruct (template_loop set data e (Z.to_nat (te_count e)) 0 h s b O Null S0 L Lb) as (h1 & s1 & E1 & O1 & R1 & U1 & L1 & La1 & P1 & B1); try lia.
  exists h1. split; [unfold UpdateDescriptorSetWithTemplate; cbn [for_each]; rewrite E1; done|].
  set (n := te_count e `min` (b_count b - te_element e)).
  destruct (set_write_spec h (array_write set data e n) O Null) as (h2 & E2 & O2 & U2 & R2 & W2);
    [right; simpl; eauto|simpl; lia|simpl; lia|]. rewrite E2. f_equal. cbn [array_write w_set w_binding w_element w_count] in *. rewrite L in W2.
  destruct W2 as (s2 & L2 & La2 & P2 & _ & B2). apply heap_ext; [|congruence]. intros a.
  destruct (decide (a = set)) as [->|N]; [|now rewrite U1, U2]. rewrite L1, L2. f_equal. apply buffers_ext; [congruence|congruence|]. intros j.
  rewrite B1, B2. cbv zeta. pose proof (range_spec s (te_binding e) (te_element e) n (O _ _ L) ltac:(lia) ltac:(lia)) as R.
  destruct (binding_records _ _ _ (proj1 (O _ _ L)) Lb) as (Bc & Br & Bm).
  destruct (descriptor_range (Some s) _ _ _) as [first|]; [|destruct (R b Lb); lia].
  destruct R as (b' & Lb' & _ & -> & _). rewrite Lb in Lb'. injection Lb' as <-.
  rewrite <- (template_element set data e 0 _ 0), (template_element set data e n). apply decide_ext. lia.
Qed.

End WriteFacts.

(** ** Dynamic offsets *)

Lemma offset_loop (offsets : list Z) base n from (row : list Z) next : 0 <= base + from -> base + from + Z.of_nat n <= Z.of_nat (length row) -> 0 <= next -> next + Z.of_nat n < 2 ^ 32 ->
  exists row', fold_left (fun '(row, next) element => (<[Z.to_nat (base + element) := offsets !!! Z.to_nat next]> row, u32 (next + 1))) (indices from n) (row, next) = (row', next + Z.of_nat n) /\
    length row' = length row /\
    forall k, row' !! k = if decide (base + from <= Z.of_nat k < base + from + Z.of_nat n)
                          then Some (offsets !!! Z.to_nat (next + (Z.of_nat k - (base + from)))) else row !! k.
Proof.
  revert from row next. induction n as [|n IH]; intros from row next B0 Bl N0 Ns; simpl fold_left.
  - exists row. rewrite Z.add_0_r. split_and!; try done. intros k. now rewrite decide_False by lia.
  - rewrite (u32_small (next + 1)) by lia.
    destruct (IH (from + 1) (<[Z.to_nat (base + from) := offsets !!! Z.to_nat next]> row) (next + 1)) as (row' & E & Le & Lk); rewrite ?length_insert; try lia.
    exists row'. rewrite E. split; [f_equal; lia|]. split; [now rewrite length_insert in Le|]. intros k. rewrite Lk.
    destruct (decide (k = Z.to_nat (base + from))) as [->|Nk].
    + rewrite decide_False, decide_True by lia. rewrite list_lookup_insert_eq by lia. do 3 f_equal. lia.
    + rewrite list_lookup_insert_ne by done. case_decide; [rewrite decide_True by lia; do 3 f_equal; lia|now rewrite decide_False by lia].
Qed.

(** A row that holds the [d] offsets from [start] on, and zeros. *)
Definition row_holds (offsets : list Z) (start d : Z) (row : list Z) : Prop :=
  forall k : nat, row !! k = if decide (Z.of_nat k < d) then Some (offsets !!! Z.to_nat (start + Z.of_nat k))
                             else if decide (Z.of_nat k < PS5VK_DYNAMIC_UNIFORM_COUNT) then Some 0 else None.

Lemma row_length offsets start d row : 0 <= d <= PS5VK_DYNAMIC_UNIFORM_COUNT -> row_holds offsets start d row -> length row = 8%nat.
Proof.
  unfold PS5VK_DYNAMIC_UNIFORM_COUNT. intros D H. apply Nat.le_antisymm.
  - apply lookup_ge_None. rewrite H. now rewrite !decide_False by (unfold PS5VK_DYNAMIC_UNIFORM_COUNT; lia).
  - apply (lookup_lt_is_Some_1 row 7). rewrite H. case_decide; [eauto|]. rewrite decide_True by (unfold PS5VK_DYNAMIC_UNIFORM_COUNT; lia). eauto.
Qed.

(** The bindings [rest] of a layout, after those before them placed [d]
    offsets: all are placed when they fit, and one is refused when not. *)
Lemma bind_offsets_spec l pre rest (offsets : list Z) start (row : list Z) : layout_ok l -> l_bindings l = pre ++ rest -> 
  let d := total dynamic_count pre in let all := total dynamic_count (l_bindings l) in
  0 <= start -> start + d <= Z.of_nat (length offsets) -> Z.of_nat (length offsets) < 2 ^ 32 -> d <= PS5VK_DYNAMIC_UNIFORM_COUNT ->
  row_holds offsets start d row ->
  let '(row', next', fine) := bind_offsets rest offsets row (start + d) in
  fine = bool_decide (all <= PS5VK_DYNAMIC_UNIFORM_COUNT /\ start + all <= Z.of_nat (length offsets)) /\
  (fine = true -> next' = start + all /\ row_holds offsets start all row').
Proof.
  intros Lo. revert pre row. induction rest as [|b rest IH]; intros pre row Eq d all S0 Sd Ss D H; simpl.
  - rewrite app_nil_r in Eq. unfold all. rewrite Eq. fold d. split; [symmetry; now apply bool_decide_eq_true_2|done].
  - assert (Lb : l_bindings l !! length pre = Some b) by (rewrite Eq; apply list_lookup_middle; done).
    assert (Tk : take (length pre) (l_bindings l) = pre) by (rewrite Eq; apply take_app_length).
    pose proof (lo_counts _ Lo) as C. pose proof (Forall_lookup_1 _ _ _ _ C Lb) as Cb.
    assert (Eq' : l_bindings l = (pre ++ [b]) ++ rest) by (rewrite <- app_assoc; exact Eq).
    assert (Db : total dynamic_count (pre ++ [b]) = d + dynamic_count b) by (rewrite total_app; simpl; lia).
    assert (Fr : 0 <= total dynamic_count rest).
    { apply total_ge_0. rewrite Eq in C. apply Forall_app in C as [_ C]. inversion C as [|?? _ C']. eapply Forall_impl; [exact C'|].
      intros y Y. simpl in *. unfold dynamic_count. destruct (is_dynamic y); lia. }
    assert (Da : all = d + dynamic_count b + total dynamic_count rest) by (unfold all; rewrite Eq', total_app, Db; done).
    assert (D0 : 0 <= d).
    { apply total_ge_0. rewrite Eq in C. apply Forall_app in C as [C _]. eapply Forall_impl; [exact C|]. intros y Y. simpl in *. unfold dynamic_count. destruct (is_dynamic y); lia. }
    specialize (IH (pre ++ [b])). rewrite Db in IH. cbv zeta in IH. unfold PS5VK_DYNAMIC_UNIFORM_COUNT in *.
    destruct ((b_count b =? 0) || negb (is_dynamic b)) eqn:Sk.
    { assert (Z0 : dynamic_count b = 0) by (unfold dynamic_count; apply orb_true_iff in Sk as [Sk|Sk]; to_prop; [rewrite Sk; now destruct (is_dynamic b)|now rewrite Sk]).
      rewrite Z0, Z.add_0_r in IH. apply IH; auto. }
    apply orb_false_iff in Sk as [Nz Dy]. to_prop.
    assert (Dyb : dynamic_count b = b_count b) by (unfold dynamic_count; now rewrite Dy). rewrite Dyb in Da, IH, Db.
    pose proof (lo_dynamic _ Lo _ _ Lb Dy) as Di. rewrite Tk in Di. fold d in Di. rewrite Di.
    rewrite !u32_small by lia. destruct (_ || _) eqn:G.
    { split; [|done]. symmetry. apply bool_decide_eq_false_2. intros [A1 A2]. rewrite !orb_true_iff in G. destruct G as [[G|G]|G]; to_prop; lia. }
    apply orb_false_iff in G as [G G3]. to_prop. pose proof (row_length _ _ _ _ (conj D0 D) H) as Lr.
    destruct (offset_loop offsets d (Z.to_nat (b_count b)) 0 row (start + d)) as (row' & -> & Lr' & Lk); try lia.
    rewrite Z2Nat.id in * by lia. rewrite <- Z.add_assoc. apply IH; auto; try lia. intros k. rewrite Lk.
    destruct (decide (d + 0 <= Z.of_nat k < d + 0 + b_count b)).
    + rewrite decide_True by lia. do 3 f_equal. lia.
    + rewrite H. destruct (decide (Z.of_nat k < d)); [now rewrite decide_True by lia|]. rewrite (decide_False (P := Z.of_nat k < d + b_count b)) by lia. done.
Qed.

(** The dynamic offsets a bound set takes; the null handle takes none. *)
Definition dynamic_of (h : heap) (a : handle) : Z :=
  match h_sets h !! a with Some s => total dynamic_count (l_bindings (s_layout s)) | None => 0 end.

Lemma dynamic_of_nonneg h a : sets_ok h -> 0 <= dynamic_of h a.
Proof.
  intros O. unfold dynamic_of. destruct (h_sets h !! a) as [s|] eqn:L; [|done]. exact (proj1 (dynamic_count_le _ (lo_counts _ (proj1 (O _ _ L))))).
Qed.

(** What a command buffer holds once [sets] are bound from [index] on. *)
Definition bound (h : heap) (index : Z) (sets : list handle) (offsets : list Z) (next : Z) (cb cb' : command_buffer) : Prop :=
  (forall i a, sets !! i = Some a -> cb_sets cb' !! (Z.to_nat index + i)%nat = Some a /\
     exists row, cb_offsets cb' !! (Z.to_nat index + i)%nat = Some row /\
       row_holds offsets (next + total (dynamic_of h) (take i sets)) (dynamic_of h a) row) /\
  (forall k, (k < Z.to_nat index \/ Z.to_nat index + length sets <= k)%nat ->
     cb_sets cb' !! k = cb_sets cb !! k /\ cb_offsets cb' !! k = cb_offsets cb !! k).

Definition sized (cb : command_buffer) : Prop := length (cb_sets cb) = 4%nat /\ length (cb_offsets cb) = 4%nat.

(** The loop accepts exactly the sets that fit. *)
Definition bind_fits (h : heap) (index : Z) (sets : list handle) (offsets : list Z) (next : Z) : Prop :=
  (sets = [] \/ index + Z.of_nat (length sets) <= PS5VK_DESCRIPTOR_SET_COUNT) /\ Forall (fun a => dynamic_of h a <= PS5VK_DYNAMIC_UNIFORM_COUNT) sets /\
  next + total (dynamic_of h) sets <= Z.of_nat (length offsets).

(** One set bound: its offsets fit and are in its row, or it is refused. *)
Lemma bind_one h index a offsets next cb : sets_ok h -> h_sets h !! 0 = None -> live h a -> sized cb ->
  0 <= index < PS5VK_DESCRIPTOR_SET_COUNT -> 0 <= next <= Z.of_nat (length offsets) -> Z.of_nat (length offsets) < 2 ^ 32 ->
  forall sets, exists cb1, cb_error cb1 = cb_error cb /\ sized cb1 /\
    let fits := dynamic_of h a <= PS5VK_DYNAMIC_UNIFORM_COUNT /\ next + dynamic_of h a <= Z.of_nat (length offsets) in
    (fits -> bound h index [a] offsets next cb cb1 /\
       bind_loop h index (a :: sets) offsets next cb = bind_loop h (index + 1) sets offsets (next + dynamic_of h a) cb1) /\
    (~ fits -> bind_loop h index (a :: sets) offsets next cb = Ok (None, refuse cb1)).
Proof.
  intros O Null Lv [Ls Lof] [I0 I4] [N0 N1] Sm sets. unfold PS5VK_DESCRIPTOR_SET_COUNT in I4.
  assert (U : u32 index = index) by (apply u32_small; lia).
  assert (Bd : forall row, row_holds offsets next (dynamic_of h a) row -> bound h index [a] offsets next cb (with_row index row (bind_set index a cb))).
  { intros row H. split.
    - intros [|i] b E; [|destruct i; discriminate]. injection E as <-. rewrite Nat.add_0_r. simpl. split; [apply list_lookup_insert_eq; lia|].
      exists row. split; [apply list_lookup_insert_eq; rewrite length_insert; lia|]. now rewrite Z.add_0_r.
    - intros k K. simpl in K |- *. now rewrite !list_lookup_insert_ne by lia. }
  assert (Z0 : row_holds offsets next 0 no_offsets).
  { intros k. rewrite decide_False by lia. unfold no_offsets, PS5VK_DYNAMIC_UNIFORM_COUNT. case_decide; [apply lookup_replicate_2; lia|].
    apply lookup_ge_None_2. rewrite length_replicate. lia. }
  cbn [bind_loop]. rewrite U. unfold PS5VK_DESCRIPTOR_SET_COUNT. destruct (4 <=? index) eqn:X; to_prop; [lia|].
  unfold find_set. destruct (a =? 0) eqn:Az; to_prop.
  - subst a. exists (bind_set index 0 cb). split; [done|]. split; [split; simpl; now rewrite length_insert|].
    assert (D : dynamic_of h 0 = 0) by (unfold dynamic_of; now rewrite Null). rewrite D in *. cbn [bind]. split; [|unfold PS5VK_DYNAMIC_UNIFORM_COUNT; lia].
    intros _. rewrite Z.add_0_r. split; [|done]. specialize (Bd no_offsets Z0). unfold with_row, bind_set in *. simpl in *.
    now rewrite list_insert_insert_eq in Bd.
  - destruct Lv as [|[s L]]; [done|]. rewrite L. cbn [bind].
    assert (D : dynamic_of h a = total dynamic_count (l_bindings (s_layout s))) by (unfold dynamic_of; now rewrite L). rewrite D in *.
    pose proof (bind_offsets_spec (s_layout s) [] (l_bindings (s_layout s)) offsets next no_offsets (proj1 (O _ _ L)) eq_refl) as Sp.
    cbv zeta in Sp. cbn [total foldr] in Sp. rewrite Z.add_0_r in Sp. specialize (Sp N0 N1 Sm ltac:(unfold PS5VK_DYNAMIC_UNIFORM_COUNT; lia) Z0).
    destruct (bind_offsets _ _ _ _) as [[row next'] fine]. destruct Sp as [F R]. exists (with_row index row (bind_set index a cb)).
    split; [done|]. split; [split; simpl; now rewrite !length_insert|]. split.
    + intros Ft. rewrite bool_decide_eq_true_2 in F by done. destruct (R F) as [-> H]. rewrite F. split; [now apply Bd|done].
    + intros Nf. rewrite bool_decide_eq_false_2 in F by done. now rewrite F.
Qed.

Lemma bound_cons h index a sets offsets next cb cb1 cb' : 0 <= index ->
  bound h index [a] offsets next cb cb1 -> bound h (index + 1) sets offsets (next + dynamic_of h a) cb1 cb' ->
  bound h index (a :: sets) offsets next cb cb'.
Proof.
  intros I0 [A1 A2] [B1 B2]. replace (Z.to_nat (index + 1)) with (S (Z.to_nat index)) in * by lia. split.
  - intros [|i] b E; simpl in E.
    + injection E as <-. destruct (A1 0%nat a eq_refl) as (A3 & row & A4 & A5). destruct (B2 (Z.to_nat index + 0)%nat ltac:(left; lia)) as [-> ->].
      split; [done|]. exists row. split; [done|exact A5].
    + destruct (B1 i b E) as (B3 & row & B4 & B5). replace (Z.to_nat index + S i)%nat with (S (Z.to_nat index) + i)%nat by lia.
      split; [done|]. exists row. split; [done|]. simpl. now rewrite Z.add_assoc.
  - intros k K. simpl in K. destruct (B2 k ltac:(lia)) as [-> ->]. apply A2. simpl. lia.
Qed.

Lemma bind_loop_spec h sets offsets : sets_ok h -> h_sets h !! 0 = None -> Forall (live h) sets -> Z.of_nat (length offsets) < 2 ^ 32 ->
  forall index next cb, sized cb -> 0 <= index -> index + Z.of_nat (length sets) < 2 ^ 32 -> 0 <= next <= Z.of_nat (length offsets) ->
  exists o cb', bind_loop h index sets offsets next cb = Ok (o, cb') /\
    (bind_fits h index sets offsets next -> o = Some (next + total (dynamic_of h) sets) /\ cb_error cb' = cb_error cb /\ bound h index sets offsets next cb cb') /\
    (~ bind_fits h index sets offsets next -> o = None /\ cb_error cb' = true).
Proof.
  intros O Null F Sm. induction F as [|a sets La F IH]; intros index next cb Sz I0 Is N.
  - exists (Some next), cb. split; [done|]. unfold bind_fits. simpl total. rewrite !Z.add_0_r. split.
    + intros _. split; [done|]. split; [done|]. split; [intros i a E; rewrite lookup_nil in E; discriminate|done].
    + intros X. exfalso. apply X. split; [now left|]. split; [constructor|lia].
  - simpl length in Is. destruct (Z_le_gt_dec PS5VK_DESCRIPTOR_SET_COUNT index) as [G|G].
    { exists None, (refuse cb). split; [|split; [|done]].
      - cbn [bind_loop]. rewrite u32_small by lia. destruct (_ <=? _) eqn:X; to_prop; [done|lia].
      - intros ([Fx|Fx] & _); [discriminate|]. simpl length in Fx. lia. }
    destruct (bind_one h index a offsets next cb O Null La Sz) with (sets := sets) as (cb1 & E1 & Sz1 & Y & Nn); [lia|lia|done|].
    pose proof (dynamic_of_nonneg h a O) as Da. pose proof (total_ge_0 (dynamic_of h) sets ltac:(apply Forall_true; intros; now apply dynamic_of_nonneg)) as Ds.
    destruct (decide (dynamic_of h a <= PS5VK_DYNAMIC_UNIFORM_COUNT /\ next + dynamic_of h a <= Z.of_nat (length offsets))) as [Ft|Ft].
    + destruct (Y Ft) as [B1 ->]. destruct Ft as [Ft1 Ft2]. destruct (IH (index + 1) (next + dynamic_of h a) cb1 Sz1) as (o & cb' & -> & Y' & N'); try lia.
      exists o, cb'. split; [done|]. assert (Q : bind_fits h index (a :: sets) offsets next <-> bind_fits h (index + 1) sets offsets (next + dynamic_of h a)).
      { unfold bind_fits. rewrite Forall_cons. simpl total. simpl length. split.
        - intros ([X|X] & [_ X2] & X3); [discriminate|]. split_and!; [right; lia|done|lia].
        - intros (X & X2 & X3). split_and!; [right; destruct X as [->|X]; simpl in *; lia|done|done|lia]. }
      rewrite Q. split; [|exact N']. intros X. destruct (Y' X) as (-> & E2 & B2). split; [f_equal; simpl; lia|]. split; [congruence|].
      now apply bound_cons with cb1.
    + rewrite (Nn Ft). exists None, (refuse cb1). split; [done|]. split; [|done]. intros (_ & X2 & X3). apply Forall_cons in X2 as [X2 _]. simpl in X3.
      exfalso. apply Ft. lia.
Qed.

(** Binding sets in a recording command buffer fails exactly when more sets
    are bound than the driver has, when a set has more dynamic offsets than it
    keeps, or when the sets do not consume exactly the offsets given; and when
    it succeeds each set index holds its set with its own slice of the offsets,
    in order, every other index is untouched, and nothing is read or written
    out of bounds. *)
Theorem bind_places_offsets h first sets offsets cb : sets_ok h -> h_sets h !! 0 = None -> Forall (live h) sets ->
  sized cb -> cb_error cb = false -> 0 <= first -> first + Z.of_nat (length sets) < 2 ^ 32 -> Z.of_nat (length offsets) < 2 ^ 32 ->
  exists cb', CmdBindDescriptorSets2 h first sets offsets cb = Ok cb' /\
    (cb_error cb' = false <->
       (sets = [] \/ first + Z.of_nat (length sets) <= PS5VK_DESCRIPTOR_SET_COUNT) /\
       Forall (fun a => dynamic_of h a <= PS5VK_DYNAMIC_UNIFORM_COUNT) sets /\ total (dynamic_of h) sets = Z.of_nat (length offsets)) /\
    (cb_error cb' = false -> bound h first sets offsets 0 cb cb').
Proof.
  intros O Null F Sz Er F0 Fs Sm. unfold CmdBindDescriptorSets2. rewrite Er.
  destruct (bind_loop_spec h sets offsets O Null F Sm first 0 cb Sz F0 Fs ltac:(lia)) as (o & cb' & -> & Y & N). cbn [bind].
  assert (D : bind_fits h first sets offsets 0 \/ ~ bind_fits h first sets offsets 0).
  { unfold bind_fits. destruct (decide (sets = [] \/ first + Z.of_nat (length sets) <= PS5VK_DESCRIPTOR_SET_COUNT));
      destruct (decide (Forall (fun a => dynamic_of h a <= PS5VK_DYNAMIC_UNIFORM_COUNT) sets));
      destruct (decide (0 + total (dynamic_of h) sets <= Z.of_nat (length offsets))); tauto. }
  destruct D as [D|D].
  - destruct (Y D) as (-> & E & Bd). destruct D as (D1 & D2 & D3). destruct (negb _) eqn:G; to_prop.
    + eexists. split; [reflexivity|]. split; [|done]. simpl. split; [discriminate|]. intros (_ & _ & X). lia.
    + eexists. split; [reflexivity|]. split; [|done]. rewrite E, Er. split; [intros _; split_and!; [done|done|lia]|done].
  - destruct (N D) as (-> & E). eexists. split; [reflexivity|]. rewrite E. split; [|discriminate]. split; [discriminate|].
    intros (X1 & X2 & X3). exfalso. apply D. split; [done|]. split; [done|lia].
Qed.

(** ** A heap of two sets, and operations on it *)

#[global] Instance toy_buffers : Buffers := {| buffer_of := fun a => if a =? 0 then None else Some (4096 * a, 1024) |}.

Definition sample_set : descriptor_set := new_set sample_layout.
Definition sample_heap : heap := Heap (<[1 := sample_set]> (<[2 := sample_set]> ∅)) [sample_layout; sample_layout].

Lemma sample_set_ok : set_ok sample_set.
Proof. split; [exact sample_layout_ok|]. vm_compute. reflexivity. Qed.

Lemma sample_heap_ok : sets_ok sample_heap.
Proof.
  intros a s L. unfold sample_heap in L. cbn [h_sets] in L. apply lookup_insert_Some in L as [[_ <-]|[_ L]]; [exact sample_set_ok|].
  apply lookup_insert_Some in L as [[_ <-]|[_ L]]; [exact sample_set_ok|]. now rewrite lookup_empty in L.
Qed.

Lemma sample_heap_null : h_sets sample_heap !! 0 = None.
Proof. reflexivity. Qed.

Lemma sample_heap_1 : h_sets sample_heap !! 1 = Some sample_set.
Proof. reflexivity. Qed.

Definition sample_binding_0 : descriptor_binding := Binding COMBINED_IMAGE_SAMPLER 4 16 0 48 0 0.

Lemma sample_binding_found : l_bindings (s_layout sample_set) !! 0%nat = Some sample_binding_0.
Proof. vm_compute. reflexivity. Qed.

Definition sample_cb : command_buffer := CommandBuffer false [0; 1; 0; 0] (replicate 4 no_offsets) [].

Definition sample_write : write_descriptor :=
  WriteDescriptor 1 0 1 2 COMBINED_IMAGE_SAMPLER (Some (fun i => ImageInfo (100 + i) (200 + i))) None None.

Lemma copy_moves_records_witness :
  exists h', set_copy sample_heap (CopyDescriptor 1 0 0 1 0 1 3) = Ok h' /\ sets_ok h' /\ (forall a, a <> 1 -> h_sets h' !! a = h_sets sample_heap !! a).
Proof.
  destruct (copy_moves_records sample_heap (CopyDescriptor 1 0 0 1 0 1 3) sample_set sample_set sample_heap_ok sample_heap_null sample_heap_1 sample_heap_1)
    as (h' & E & O & U & _); try (simpl; lia). exists h'. auto.
Defined.

Lemma write_read_back_witness :
  exists h', set_write sample_heap sample_write = Ok h' /\
    cmd_buffer_descriptor h' sample_cb 1 0 2 = Ok (Some (Descriptor 0 0 COMBINED_IMAGE_SAMPLER 201 101 0)).
Proof.
  destruct (write_read_back sample_heap sample_write sample_cb 1 sample_set sample_binding_0 1 sample_heap_ok sample_heap_null sample_heap_1 sample_binding_found)
    as (h' & E & R & _); try (simpl; lia); try (unfold PS5VK_DESCRIPTOR_SET_COUNT; lia); try reflexivity; try discriminate.
  exists h'. split; [exact E|exact R].
Defined.

Definition sample_entry : template_entry := TemplateEntry COMBINED_IMAGE_SAMPLER 0 2 3 16 24.
Definition sample_data : template_data := TemplateData (fun at_ => ImageInfo at_ (at_ + 8)) (fun at_ => BufferInfo at_ 0 VK_WHOLE_SIZE) (fun at_ => at_).

Lemma template_entry_stops_at_binding_witness :
  exists h', UpdateDescriptorSetWithTemplate sample_heap 1 [sample_entry] sample_data = Ok h' /\
    set_write sample_heap (array_write 1 sample_data sample_entry 2) = Ok h'.
Proof.
  exact (template_entry_stops_at_binding sample_heap 1 sample_data sample_entry sample_set sample_binding_0 sample_heap_ok sample_heap_null sample_heap_1
    sample_binding_found ltac:(simpl; lia) ltac:(simpl; lia) ltac:(simpl; lia)).
Defined.

Lemma bind_places_offsets_witness :
  exists cb', CmdBindDescriptorSets2 sample_heap 1 [1; 0; 2] [16; 32; 48; 64] sample_cb = Ok cb' /\ cb_error cb' = false /\
    bound sample_heap 1 [1; 0; 2] [16; 32; 48; 64] 0 sample_cb cb'.
Proof.
  destruct (bind_places_offsets sample_heap 1 [1; 0; 2] [16; 32; 48; 64] sample_cb sample_heap_ok sample_heap_null)
    as (cb' & E & F & Bd); try reflexivity; try (simpl; lia).
  - rewrite !Forall_cons. split_and!; [right; eauto|now left|right; eauto|constructor].
  - split; reflexivity.
  - assert (X : cb_error cb' = false).
    { apply F. split; [right; vm_compute; discriminate|]. split; [rewrite !Forall_cons; split_and!; try (vm_compute; discriminate); constructor|reflexivity]. }
    exists cb'. auto.
Defined.
