(* ===== verification/Queries.v ===== *)
(** * Query pools ([src/driver/ps5vk_query.c])

    A pool is GPU-visible memory of two 64-bit counters a query.  Commands
    append packets that make the GPU write a counter; results are read from the
    counters and written to the application's memory or, at a split point of a
    submission, to a buffer. *)

From Stdlib Require Import ZArith Lia.
From stdpp Require Import base numbers list.
From S2P Require Import Prelude Bytes DriverPrelude DriverMemory DirectMemory.
Open Scope Z_scope.

(** ** Data *)

Definition PS5VK_QUERY_COUNTERS : Z := 2.
Definition PS5VK_QUERY_BYTES : Z := 16.
Definition PS5VK_OCCLUSION_PACKET : Z := 3221374464.
Definition PS5VK_OCCLUSION_EVENT : Z := 277.
Definition PS5VK_TIMESTAMP_PACKET : Z := 3221637376.
Definition PS5VK_TIMESTAMP_EVENT : Z := 3196200.
Definition PS5VK_TIMESTAMP_SELECT : Z := 1660944384.
Definition PS5VK_OCCLUSION_SAMPLES_PER_COUNT : Z := 16.
Definition VK_QUERY_RESULT_64_BIT : Z := 1.
Definition VK_QUERY_RESULT_WITH_AVAILABILITY_BIT : Z := 4.

Inductive query_type := OCCLUSION | TIMESTAMP | OTHER_QUERY (value : Z).

(** [struct ps5vk_query_pool] *)
Record query_pool := QueryPool { q_type : query_type; q_count : Z; q_mapping : direct_mapping }.

(** [struct ps5vk_render_target] and [struct ps5vk_memory_copy], the fields
    this file writes. *)
Record query_target := QueryTarget { qt_always : bool; qt_address : Z; qt_bytes : Z }.
Record query_copy := QueryCopy {
  qc_pool : query_pool; qc_first : Z; qc_count : Z; qc_stride : Z; qc_flags : Z; qc_destination : Z; qc_after_words : Z
}.

(** What this file reads and changes of a command buffer. *)
Record recording := Recording {
  rc_error : bool;
  rc_rendering : bool;
  rc_view_mask : Z;
  rc_words : list Z;
  rc_targets : list query_target;
  rc_copies : list query_copy
}.

Definition rc_refuse (c : recording) : recording :=
  Recording true (rc_rendering c) (rc_view_mask c) (rc_words c) (rc_targets c) (rc_copies c).
Definition rc_append (words : list Z) (target : query_target) (c : recording) : recording :=
  Recording (rc_error c) (rc_rendering c) (rc_view_mask c) (rc_words c ++ words) (rc_targets c ++ [target]) (rc_copies c).

(** ** Recording *)

(** [ps5vk_query_counter] *)
Definition query_counter (pool : query_pool) (query counter : Z) : Z :=
  u64 (u64 (dm_address (q_mapping pool) + u64 (query * PS5VK_QUERY_BYTES)) + u64 (counter * 8)).

Definition low_word (address : Z) : Z := Z.land address UINT32_MAX.
Definition high_word (address : Z) : Z := u32 (Z.shiftr address 32).

(** [ps5vk_cmd_buffer_occlusion_sample] *)
Definition occlusion_words (pool : query_pool) (query counter : Z) : list Z :=
  let address := query_counter pool query counter in
  [PS5VK_OCCLUSION_PACKET; PS5VK_OCCLUSION_EVENT; low_word address; high_word address].
Definition pool_target (always : bool) (pool : query_pool) : query_target :=
  QueryTarget always (dm_address (q_mapping pool)) (dm_bytes (q_mapping pool)).
Definition occlusion_sample (c : recording) (pool : query_pool) (query counter : Z) : recording :=
  rc_append (occlusion_words pool query counter) (pool_target true pool) c.

(** [ps5vk_timestamp_packet], [ps5vk_cmd_buffer_timestamp_sample] *)
Definition timestamp_packet (address : Z) : list Z :=
  [PS5VK_TIMESTAMP_PACKET; PS5VK_TIMESTAMP_EVENT; PS5VK_TIMESTAMP_SELECT; low_word address; high_word address; 0; 0; 0].
Definition timestamp_sample (c : recording) (pool : query_pool) (query : Z) : recording :=
  rc_append (timestamp_packet (query_counter pool query 0)) (pool_target true pool) c.

Definition in_multiview (c : recording) : bool := rc_rendering c && negb (rc_view_mask c =? 0).

(** [ps5vk_CmdWriteTimestamp] *)
Definition CmdWriteTimestamp (c : recording) (pool : option query_pool) (query : Z) : recording :=
  if rc_error c then c
  else if in_multiview c then rc_refuse c
  else match pool with
       | Some p => match q_type p with
                   | TIMESTAMP => if q_count p <=? query then rc_refuse c else timestamp_sample c p query
                   | _ => rc_refuse c
                   end
       | None => rc_refuse c
       end.

(** [ps5vk_CmdBeginQuery], [ps5vk_CmdEndQuery]: their assertions are conditions
    of the call. *)
Definition CmdBeginQuery (c : recording) (pool : option query_pool) (query : Z) : outcome recording :=
  match pool with
  | Some p => if negb (query <? q_count p) then Undefined
              else if in_multiview c then Ok (rc_refuse c) else Ok (occlusion_sample c p query 0)
  | None => Undefined
  end.
Definition CmdEndQuery (c : recording) (pool : option query_pool) (query : Z) : outcome recording :=
  match pool with
  | Some p => if negb (query <? q_count p) then Undefined else Ok (occlusion_sample c p query 1)
  | None => Undefined
  end.

(** ** Counters *)

(** [ps5vk_query_pool_reset] *)
Definition query_pool_reset (mem : memory) (pool : query_pool) (first count : Z) : outcome memory :=
  if negb (u32 (first + count) <=? q_count pool) then Undefined
  else Ok (fill mem (dm_address (q_mapping pool) + first * PS5VK_QUERY_BYTES) 0 (count * PS5VK_QUERY_BYTES)).

(** [ps5vk_ResetQueryPool], [ps5vk_CmdResetQueryPool] *)
Definition ResetQueryPool (mem : memory) (pool : option query_pool) (first count : Z) : outcome memory :=
  match pool with Some p => query_pool_reset mem p first count | None => Ok mem end.

(** Mesa's [ALIGN_POT], documented to round up to a multiple of a power of two. *)
Class QueryPlatform := { ALIGN_POT : Z -> Z -> Z }.
Class QueryPlatformLaws (Q : QueryPlatform) := {
  align_pot_rounds : forall value k, 0 <= k < 63 -> 0 <= value -> value + 2 ^ k <= 2 ^ 64 ->
    ALIGN_POT value (2 ^ k) = (value + 2 ^ k - 1) / 2 ^ k * 2 ^ k
}.

Inductive query_status := QUERY_SUCCESS | FEATURE_NOT_PRESENT | QUERY_OUT_OF_HOST_MEMORY | OUT_OF_DEVICE_MEMORY.

(** [ps5vk_CreateQueryPool]; [alloc] is whether the object was allocated. *)
Definition CreateQueryPool `{QueryPlatform} `{DirectPlatform} (alloc : bool) (type : query_type) (count : Z) (mem : memory) (s : direct_state)
  : outcome (query_status * option query_pool * memory * direct_state) :=
  match type with
  | OTHER_QUERY _ => Ok (FEATURE_NOT_PRESENT, None, mem, s)
  | _ =>
      if negb (0 <? count) then Undefined
      else
        let bytes := u64 (count * PS5VK_QUERY_BYTES) in
        let mapping_bytes := ALIGN_POT bytes PS5VK_DIRECT_PAGE_BYTES in
        if negb alloc then Ok (QUERY_OUT_OF_HOST_MEMORY, None, mem, s)
        else
          let! x := direct_mapping_create mapping_bytes PS5VK_DIRECT_PAGE_BYTES DIRECT_QUERY s in
          let '(mapped, mapping, s') := x in
          if negb (mapped =? 0) then Ok (OUT_OF_DEVICE_MEMORY, None, mem, s')
          else
            let pool := QueryPool type count mapping in
            let! mem' := query_pool_reset mem pool 0 count in
            Ok (QUERY_SUCCESS, Some pool, mem', s')
  end.

(** [ps5vk_DestroyQueryPool] *)
Definition DestroyQueryPool `{DirectPlatform} (pool : option query_pool) (s : direct_state) : direct_state :=
  match pool with Some p => snd (direct_mapping_destroy (q_mapping p) s) | None => s end.

(** [ps5vk_query_result], [ps5vk_query_available]: the counters as the CPU
    reads them once their cache lines are evicted. *)
Definition query_result (mem : memory) (pool : query_pool) (query : Z) : Z :=
  let pair := dm_address (q_mapping pool) + query * PS5VK_QUERY_COUNTERS * 8 in
  match q_type pool with
  | TIMESTAMP => peek 8 mem pair
  | _ => u64 (u64 (peek 8 mem (pair + 8) - peek 8 mem pair) * PS5VK_OCCLUSION_SAMPLES_PER_COUNT)
  end.
Definition query_available (mem : memory) (pool : query_pool) (query : Z) : Z :=
  match q_type pool with
  | TIMESTAMP => if negb (peek 8 mem (dm_address (q_mapping pool) + query * PS5VK_QUERY_COUNTERS * 8) =? 0) then 1 else 0
  | _ => 1
  end.

(** ** Results *)

Definition is_wide (flags : Z) : bool := negb (Z.land flags VK_QUERY_RESULT_64_BIT =? 0).
Definition with_availability (flags : Z) : bool := negb (Z.land flags VK_QUERY_RESULT_WITH_AVAILABILITY_BIT =? 0).
Definition value_bytes (flags : Z) : nat := if is_wide flags then 8 else 4.
Definition result_bytes (flags : Z) : Z := (if is_wide flags then 8 else 4) * (if with_availability flags then 2 else 1).

(** The [memcpy] of one result to an address. *)
Definition write_result (flags : Z) (mem : memory) (result samples written : Z) : memory :=
  store_bytes mem result (le_bytes (value_bytes flags) samples ++
               (if with_availability flags then le_bytes (value_bytes flags) written else [])).

(** One iteration of the loop of [ps5vk_query_execute]. *)
Definition execute_one (copy : query_copy) (mem : memory) (index : Z) : memory :=
  let samples := query_result mem (qc_pool copy) (u32 (qc_first copy + index)) in
  let written := query_available mem (qc_pool copy) (u32 (qc_first copy + index)) in
  write_result (qc_flags copy) mem (u64 (qc_destination copy + u64 (index * qc_stride copy))) samples written.

(** [ps5vk_query_execute] *)
Definition query_execute (copy : query_copy) (mem : memory) : memory :=
  fold_left (execute_one copy) (indices 0 (Z.to_nat (qc_count copy))) mem.

(** [ps5vk_GetQueryPoolResults], from the memory the wait for the pool's
    submissions leaves. *)
Definition GetQueryPoolResults (mem : memory) (pool : option query_pool) (first count data stride flags : Z) : outcome memory :=
  match pool with
  | None => Ok mem
  | Some p =>
      if count =? 0 then Ok mem
      else if negb (u32 (first + count) <=? q_count p) then Undefined
      else Ok (fold_left (fun mem index =>
             write_result flags mem (data + u64 (index * stride)) (query_result mem p (u32 (first + index)))
               (query_available mem p (u32 (first + index))))
           (indices 0 (Z.to_nat count)) mem)
  end.

(** [ps5vk_CmdCopyQueryPoolResults]: [buffer] is the device address and the
    size of the buffer named, and [grown] whether the copies' list grew. *)
Definition CmdCopyQueryPoolResults (grown : bool) (c : recording) (pool : option query_pool) (first count : Z) (buffer : option (Z * Z))
    (offset stride flags : Z) : recording :=
  if rc_error c || (count =? 0) then c
  else match pool, buffer with
       | Some p, Some (address, size) =>
           if q_count p <? u32 (first + count) then rc_refuse c
           else if address =? 0 then rc_refuse c
           else if (stride <? result_bytes flags) ||
                   (size <? u64 (u64 (offset + u64 (u32 (count - 1) * stride)) + result_bytes flags)) then rc_refuse c
           else
             let c := Recording (rc_error c) (rc_rendering c) (rc_view_mask c) (rc_words c) (rc_targets c ++ [pool_target false p]) (rc_copies c) in
             if negb grown then rc_refuse c
             else Recording (rc_error c) (rc_rendering c) (rc_view_mask c) (rc_words c) (rc_targets c)
                    (rc_copies c ++ [QueryCopy p first count stride flags (u64 (address + offset)) (Z.of_nat (length (rc_words c)))])
       | _, _ => rc_refuse c
       end.

(** ** A pool's counters *)

(** The pool's memory holds its counters, at addresses of 64 bits. *)
Definition pool_ok (p : query_pool) : Prop :=
  0 <= dm_address (q_mapping p) /\ 0 <= q_count p < 2 ^ 32 /\ q_count p * PS5VK_QUERY_BYTES <= dm_bytes (q_mapping p) /\
  dm_address (q_mapping p) + dm_bytes (q_mapping p) <= 2 ^ 64.

Definition counters_end (p : query_pool) : Z := dm_address (q_mapping p) + q_count p * PS5VK_QUERY_BYTES.

Lemma query_counter_exact p query counter : pool_ok p -> 0 <= query < q_count p -> 0 <= counter < PS5VK_QUERY_COUNTERS ->
  query_counter p query counter = dm_address (q_mapping p) + query * 16 + counter * 8 /\
  dm_address (q_mapping p) <= query_counter p query counter /\ query_counter p query counter + 8 <= counters_end p.
Proof.
  unfold pool_ok, counters_end, query_counter, PS5VK_QUERY_COUNTERS, PS5VK_QUERY_BYTES. intros (A & C & B & E) Q K.
  rewrite (u64_small (query * 16)), (u64_small (counter * 8)), (u64_small (dm_address (q_mapping p) + query * 16)) by lia. rewrite u64_small by lia. lia.
Qed.

(** The two address words of a packet are the address. *)
Definition address_of (words : list Z) (i : nat) : Z := words !!! i + words !!! S i * 2 ^ 32.

Lemma address_words a : 0 <= a < 2 ^ 64 -> low_word a + high_word a * 2 ^ 32 = a.
Proof.
  intros A. unfold low_word, high_word. change UINT32_MAX with (Z.ones 32). rewrite Z.land_ones, Z.shiftr_div_pow2 by lia.
  pose proof (Z.div_mod a (2 ^ 32) ltac:(lia)). assert (0 <= a / 2 ^ 32 < 2 ^ 32) by (split; [apply Z.div_pos|apply Z.div_lt_upper_bound]; lia).
  rewrite u32_small by lia. lia.
Qed.

Lemma occlusion_address p query counter : pool_ok p -> 0 <= query < q_count p -> 0 <= counter < PS5VK_QUERY_COUNTERS ->
  address_of (occlusion_words p query counter) 2 = query_counter p query counter.
Proof.
  intros O Q K. destruct (query_counter_exact p query counter O Q K) as (_ & L & H). unfold occlusion_words, address_of. cbn [list_lookup_total].
  unfold lookup_total, list_lookup_total. apply address_words. destruct O as (A & C & B & E). unfold counters_end in H. lia.
Qed.

Lemma fill_spec m a v n x : fill m a v n x = if decide (a <= x < a + n) then v else m x.
Proof. unfold fill. destruct (_ && _) eqn:E; case_decide as D; try done; to_prop; try destruct E; to_prop; lia. Qed.

Lemma reset_spec p mem first count : pool_ok p -> 0 <= first -> 0 <= count -> first + count <= q_count p ->
  exists mem', query_pool_reset mem p first count = Ok mem' /\
    (forall q, first <= q < first + count -> query_result mem' p q = 0) /\
    (forall x, x < dm_address (q_mapping p) + first * 16 \/ dm_address (q_mapping p) + (first + count) * 16 <= x -> mem' x = mem x).
Proof.
  intros (A & C & B & E) F N Le. unfold query_pool_reset, PS5VK_QUERY_BYTES in *. rewrite u32_small by lia.
  destruct (_ <=? _) eqn:X; to_prop; [|lia]. simpl. eexists. split; [reflexivity|]. split.
  - intros q Q. unfold query_result, PS5VK_QUERY_COUNTERS.
    rewrite !peek_zero by (intros x X'; rewrite fill_spec, decide_True by lia; done). destruct (q_type p); reflexivity.
  - intros x X'. rewrite fill_spec, decide_False by lia. done.
Qed.

(** A query in which the GPU writes the two values its begin and end packets
    ask for reads their difference, sixteen samples a count, modulo 2^64; no
    other query of the pool changes its result; and a reset of the query
    afterwards makes it read zero. *)
Theorem occlusion_query_counts p q c c1 c2 mem v0 v1 : pool_ok p -> q_type p = OCCLUSION -> 0 <= q < q_count p ->
  CmdBeginQuery c (Some p) q = Ok c1 -> CmdEndQuery c1 (Some p) q = Ok c2 -> in_multiview c = false ->
  0 <= v0 < 2 ^ 64 -> 0 <= v1 < 2 ^ 64 ->
  let begin_words := drop (length (rc_words c)) (rc_words c1) in
  let end_words := drop (length (rc_words c1)) (rc_words c2) in
  let mem' := poke 8 (poke 8 mem (address_of begin_words 2) v0) (address_of end_words 2) v1 in
  query_result mem' p q = u64 ((v1 - v0) * 16) /\
  (forall q', 0 <= q' < q_count p -> q' <> q -> query_result mem' p q' = query_result mem p q') /\
  exists mem'', query_pool_reset mem' p q 1 = Ok mem'' /\ query_result mem'' p q = 0.
Proof.
  intros O T Q E1 E2 M V0 V1. unfold CmdBeginQuery in E1. unfold CmdEndQuery in E2. rewrite M in E1.
  destruct (q <? q_count p) eqn:L; to_prop; [simpl in E1, E2|lia]. injection E1 as <-. injection E2 as <-.
  cbn [rc_words occlusion_sample rc_append]. cbv zeta. rewrite !drop_app_length.
  rewrite !occlusion_address by (auto; unfold PS5VK_QUERY_COUNTERS; lia).
  destruct (query_counter_exact p q 0 O Q) as (A0 & _ & _); [unfold PS5VK_QUERY_COUNTERS; lia|].
  destruct (query_counter_exact p q 1 O Q) as (A1 & _ & _); [unfold PS5VK_QUERY_COUNTERS; lia|]. rewrite A0, A1.
  set (base := dm_address (q_mapping p)) in *. split; [|split].
  - unfold query_result, PS5VK_QUERY_COUNTERS, PS5VK_OCCLUSION_SAMPLES_PER_COUNT. rewrite T. fold base.
    replace (base + q * 2 * 8 + 8) with (base + q * 16 + 1 * 8) by lia. replace (base + q * 2 * 8) with (base + q * 16 + 0 * 8) by lia.
    rewrite peek_poke_same, peek_poke_other, peek_poke_same by lia. change (256 ^ Z.of_nat 8) with (2 ^ 64).
    rewrite !Z.mod_small by lia. unfold u64. now rewrite Zmult_mod_idemp_l.
  - intros q' Q' N. unfold query_result, PS5VK_QUERY_COUNTERS. fold base. rewrite T. rewrite !peek_poke_other by lia. done.
  - destruct (reset_spec p (poke 8 (poke 8 mem (base + q * 16 + 0 * 8) v0) (base + q * 16 + 1 * 8) v1) q 1 O) as (mem'' & E & R & _); try lia.
    exists mem''. split; [exact E|]. apply R. lia.
Qed.

(** ** Results *)

Lemma value_bytes_pos flags : 4 <= Z.of_nat (value_bytes flags) <= 8.
Proof. unfold value_bytes. destruct (is_wide flags); lia. Qed.

Lemma result_bytes_value flags : result_bytes flags = Z.of_nat (value_bytes flags) * (if with_availability flags then 2 else 1).
Proof. unfold result_bytes, value_bytes. destruct (is_wide flags); reflexivity. Qed.

(** What the application reads of one result. *)
Definition result_at (flags : Z) (mem : memory) (a samples written : Z) : Prop :=
  peek (value_bytes flags) mem a = samples mod 256 ^ Z.of_nat (value_bytes flags) /\
  (with_availability flags = true ->
   peek (value_bytes flags) mem (a + Z.of_nat (value_bytes flags)) = written mod 256 ^ Z.of_nat (value_bytes flags)).

Lemma load_app m a l l' : load_bytes (length l) (store_bytes m a (l ++ l')) a = l.
Proof.
  pose proof (load_store_same m a (l ++ l')) as E. rewrite length_app in E.
  assert (G : forall n k mm aa, load_bytes n mm aa = firstn n (load_bytes (n + k) mm aa)).
  { induction n as [|n IH]; intros k mm aa; [reflexivity|]. simpl. f_equal. apply IH. }
  rewrite (G (length l) (length l') _ a). rewrite E. now rewrite take_app_length.
Qed.

Lemma load_app_r m a l l' : load_bytes (length l') (store_bytes m a (l ++ l')) (a + Z.of_nat (length l)) = l'.
Proof.
  pose proof (load_store_same m a (l ++ l')) as E. rewrite length_app in E.
  assert (G : forall n k mm aa, load_bytes k mm (aa + Z.of_nat n) = skipn n (load_bytes (n + k) mm aa)).
  { induction n as [|n IH]; intros k mm aa; [now rewrite Z.add_0_r|]. simpl. rewrite <- IH. f_equal. lia. }
  rewrite (G (length l) (length l')), E. now rewrite drop_app_length.
Qed.

Lemma le_bytes_length n v : length (le_bytes n v) = n.
Proof. pose proof (size_le_bytes n v) as E. unfold size in E. lia. Qed.

Lemma write_result_spec flags mem a samples written :
  result_at flags (write_result flags mem a samples written) a samples written /\
  forall x, x < a \/ a + result_bytes flags <= x -> write_result flags mem a samples written x = mem x.
Proof.
  unfold write_result, result_at. set (n := value_bytes flags). set (l' := if with_availability flags then _ else _).
  rewrite result_bytes_value. fold n. split.
  - split.
    + unfold peek. pose proof (load_app mem a (le_bytes n samples) l') as Q. rewrite le_bytes_length in Q. rewrite Q. apply le_value_bytes.
    + intros W. unfold l'. rewrite W. unfold peek. pose proof (load_app_r mem a (le_bytes n samples) (le_bytes n written)) as Q.
      rewrite !le_bytes_length in Q. rewrite Q. apply le_value_bytes.
  - intros x X. apply store_bytes_out. rewrite size_app, size_le_bytes. unfold l'.
    destruct (with_availability flags); rewrite ?size_le_bytes, ?size_nil; lia.
Qed.

Lemma result_at_ext flags m m' a samples written : (forall x, a <= x < a + result_bytes flags -> m x = m' x) ->
  result_at flags m a samples written -> result_at flags m' a samples written.
Proof.
  rewrite result_bytes_value. pose proof (value_bytes_pos flags) as V. intros E [R A].
  split; [rewrite <- R; apply peek_ext; intros x X; symmetry; apply E; destruct (with_availability flags); lia|].
  intros W. rewrite W in E. rewrite <- (A W). apply peek_ext. intros x X. symmetry. apply E. lia.
Qed.

Lemma query_result_ext m m' p q : pool_ok p -> 0 <= q < q_count p ->
  (forall x, dm_address (q_mapping p) <= x < counters_end p -> m x = m' x) ->
  query_result m p q = query_result m' p q /\ query_available m p q = query_available m' p q.
Proof.
  unfold counters_end, query_result, query_available, PS5VK_QUERY_COUNTERS, PS5VK_QUERY_BYTES. intros O Q E. destruct O as (A & C & B & F).
  rewrite (peek_ext 8 m m' (_ + q * 2 * 8)), (peek_ext 8 m m' (_ + q * 2 * 8 + 8)) by (intros x X; apply E; lia). done.
Qed.

(** A copy whose ranges do not wrap, into memory apart from the counters. *)
Record copy_ok (copy : query_copy) : Prop := {
  co_pool : pool_ok (qc_pool copy);
  co_first : 0 <= qc_first copy /\ 0 < qc_count copy /\ qc_first copy + qc_count copy <= q_count (qc_pool copy);
  co_stride : result_bytes (qc_flags copy) <= qc_stride copy;
  co_range : 0 <= qc_destination copy /\
    qc_destination copy + (qc_count copy - 1) * qc_stride copy + result_bytes (qc_flags copy) <= 2 ^ 64;
  co_apart : qc_destination copy + (qc_count copy - 1) * qc_stride copy + result_bytes (qc_flags copy) <= dm_address (q_mapping (qc_pool copy)) \/
    counters_end (qc_pool copy) <= qc_destination copy
}.

Definition copy_end (copy : query_copy) (n : Z) : Z := qc_destination copy + (n - 1) * qc_stride copy + result_bytes (qc_flags copy).

(** In none of the places of [n] results: in a gap of the stride, before or behind. *)
Definition outside_results (destination stride flags n x : Z) : Prop :=
  forall i, 0 <= i < n -> ~ (destination + i * stride <= x < destination + i * stride + result_bytes flags).

Lemma execute_loop copy mem n : copy_ok copy -> Z.of_nat n <= qc_count copy ->
  let mem' := fold_left (execute_one copy) (indices 0 n) mem in
  (forall i, 0 <= i < Z.of_nat n -> result_at (qc_flags copy) mem' (qc_destination copy + i * qc_stride copy)
     (query_result mem (qc_pool copy) (qc_first copy + i)) (query_available mem (qc_pool copy) (qc_first copy + i))) /\
  (forall x, outside_results (qc_destination copy) (qc_stride copy) (qc_flags copy) (Z.of_nat n) x -> mem' x = mem x).
Proof.
  intros [O F S R Ap]. pose proof (value_bytes_pos (qc_flags copy)). pose proof (result_bytes_value (qc_flags copy)) as RB.
  assert (RP : 4 <= result_bytes (qc_flags copy)) by (rewrite RB; destruct (with_availability _); lia).
  induction n as [|n IH]; intros N; [split; [intros; lia|done]|]. rewrite indices_snoc, fold_left_app. cbn [fold_left].
  destruct IH as (I1 & I2); [lia|]. set (mem1 := fold_left _ _ mem) in *. rewrite Z.add_0_l.
  pose proof O as (A & C & Bd & E). unfold execute_one.
  assert (B1 : 0 <= Z.of_nat n * qc_stride copy <= (qc_count copy - 1) * qc_stride copy) by nia.
  rewrite (u32_small (qc_first copy + Z.of_nat n)), (u64_small (Z.of_nat n * qc_stride copy)) by lia. rewrite u64_small by lia.
  destruct (query_result_ext mem1 mem (qc_pool copy) (qc_first copy + Z.of_nat n) O) as [-> ->]; [lia|intros x X; apply I2; intros i Hi; nia|].
  destruct (write_result_spec (qc_flags copy) mem1 (qc_destination copy + Z.of_nat n * qc_stride copy)
    (query_result mem (qc_pool copy) (qc_first copy + Z.of_nat n)) (query_available mem (qc_pool copy) (qc_first copy + Z.of_nat n))) as [W1 W2].
  split.
  - intros i Hi. destruct (decide (i = Z.of_nat n)) as [->|Ne]; [exact W1|]. eapply result_at_ext; [|apply I1; lia].
    intros x X. symmetry. apply W2. left. nia.
  - intros x X. rewrite W2; [apply I2; intros i Hi; apply X; lia|]. specialize (X (Z.of_nat n) ltac:(lia)). lia.
Qed.

(** C38: a query-result copy of queries of the pool, into the room of the buffer
    at a stride that holds a result, is accepted; and when the queue runs it each
    query's result - cut to 32 bits unless 64 are asked for, followed by its
    availability when asked for - is at its stride in the buffer, and every byte
    outside the results' own places, those between two results among them, is
    untouched; these places lie in the buffer. *)
Theorem query_copy_writes c p first count address size offset stride flags mem : pool_ok p -> rc_error c = false ->
  0 <= first -> 0 < count -> first + count <= q_count p -> 0 < address -> 0 <= offset -> address + size <= 2 ^ 64 ->
  result_bytes flags <= stride -> offset + (count - 1) * stride + result_bytes flags <= size -> size < 2 ^ 64 ->
  (address + size <= dm_address (q_mapping p) \/ counters_end p <= address) ->
  exists copy, rc_copies (CmdCopyQueryPoolResults true c (Some p) first count (Some (address, size)) offset stride flags) = rc_copies c ++ [copy] /\
    rc_error (CmdCopyQueryPoolResults true c (Some p) first count (Some (address, size)) offset stride flags) = false /\
    (forall i, 0 <= i < count -> result_at flags (query_execute copy mem) (address + offset + i * stride)
       (query_result mem p (first + i)) (query_available mem p (first + i))) /\
    (forall x, outside_results (address + offset) stride flags count x -> query_execute copy mem x = mem x) /\
    address <= address + offset /\ address + offset + (count - 1) * stride + result_bytes flags <= address + size.
Proof.
  intros O Er F0 C0 Fc A0 Of As St Sz S64 Ap. pose proof (value_bytes_pos flags). pose proof (result_bytes_value flags) as RB.
  assert (RP : 4 <= result_bytes flags) by (rewrite RB; destruct (with_availability _); lia).
  pose proof O as (_ & Cq & _). assert (M : 0 <= (count - 1) * stride) by nia. unfold CmdCopyQueryPoolResults. rewrite Er. simpl orb.
  destruct (count =? 0) eqn:X1; to_prop; [lia|]. rewrite (u32_small (first + count)) by lia.
  destruct (q_count p <? first + count) eqn:X2; to_prop; [lia|]. destruct (address =? 0) eqn:X3; to_prop; [lia|].
  rewrite (u32_small (count - 1)), (u64_small ((count - 1) * stride)) by lia. rewrite (u64_small (offset + _)), (u64_small (_ + result_bytes flags)) by lia.
  destruct (stride <? result_bytes flags) eqn:X4; to_prop; [lia|]. destruct (size <? _) eqn:X5; to_prop; [lia|]. cbn.
  rewrite (u64_small (address + offset)) by lia. eexists. split; [reflexivity|]. split; [first [done|exact Er]|].
  destruct (execute_loop (QueryCopy p first count stride flags (address + offset) (Z.of_nat (length (rc_words c)))) mem (Z.to_nat count)) as (E1 & E2).
  - constructor; cbn; auto; lia.
  - cbn. lia.
  - cbn in E1, E2. rewrite Z2Nat.id in E1, E2 by lia. unfold query_execute. cbn. split; [exact E1|]. split; [exact E2|lia].
Qed.

(** The check that a copy's queries lie in the pool adds in 32 bits: from
    the last query number two queries are accepted for every pool, though
    neither the first nor its memory is in the pool. *)
Theorem query_range_check_wraps c p address size stride flags : rc_error c = false -> 1 <= q_count p < 2 ^ 32 -> address <> 0 ->
  result_bytes flags <= stride -> stride + result_bytes flags <= size -> size < 2 ^ 64 ->
  let c' := CmdCopyQueryPoolResults true c (Some p) (2 ^ 32 - 1) 2 (Some (address, size)) 0 stride flags in
  rc_error c' = false /\ exists copy, rc_copies c' = rc_copies c ++ [copy] /\ qc_count copy = 2 /\ q_count p <= qc_first copy.
Proof.
  intros Er C A St Sz S64. pose proof (value_bytes_pos flags). pose proof (result_bytes_value flags) as RB.
  assert (RP : 4 <= result_bytes flags) by (rewrite RB; destruct (with_availability _); lia).
  unfold CmdCopyQueryPoolResults. rewrite Er. simpl orb. change (u32 (2 ^ 32 - 1 + 2)) with 1.
  destruct (q_count p <? 1) eqn:X2; to_prop; [lia|]. destruct (address =? 0) eqn:X3; to_prop; [lia|]. change (u32 (2 - 1)) with 1.
  rewrite (u64_small (1 * stride)) by lia. rewrite (u64_small (0 + _)), (u64_small (_ + result_bytes flags)) by lia.
  destruct (stride <? result_bytes flags) eqn:X4; to_prop; [lia|]. destruct (size <? _) eqn:X5; to_prop; [lia|]. cbn -[Z.pow].
  split; [first [done|exact Er]|]. eexists. split; [reflexivity|]. cbn -[Z.pow]. lia.
Qed.

(** ** Creation *)

Lemma window_range a n : address_range_valid a n = true -> 0 <= a /\ a + n <= 3 * 2 ^ 32.
Proof.
  unfold address_range_valid, PS5VK_ADDRESS_HIGH_WORD, PS5VK_ADDRESS_WINDOW_BYTES. intros V. to_prop.
  rewrite Z.shiftr_div_pow2 in H1 by lia. change UINT32_MAX with (Z.ones 32) in H0. rewrite Z.land_ones in H0 by lia.
  pose proof (Z.div_mod a (2 ^ 32) ltac:(lia)). pose proof (Z.mod_pos_bound a (2 ^ 32) ltac:(lia)). lia.
Qed.

(** Creating a pool of any size never trips the allocator's assertions: it
    yields a pool whose memory, in the address window, holds every counter and
    whose queries all read zero, or it fails and leaves the direct memory
    accounted for as it was. *)
Theorem query_pool_created {Q : QueryPlatform} {QL : QueryPlatformLaws Q} {P : DirectPlatform} {L : DirectPlatformLaws P} type alloc count mem s held :
  balanced s held -> 0 < count < 2 ^ 32 ->
  exists r pool mem' s', CreateQueryPool alloc type count mem s = Ok (r, pool, mem', s') /\
    match pool with
    | Some p => r = QUERY_SUCCESS /\ q_type p = type /\ q_count p = count /\ pool_ok p /\ balanced s' (q_mapping p :: held) /\
        forall q, 0 <= q < count -> query_result mem' p q = 0
    | None => r <> QUERY_SUCCESS /\ mem' = mem /\ balanced s' held
    end.
Proof.
  intros B C.
  assert (K : forall t, (t = OCCLUSION \/ t = TIMESTAMP) -> exists r pool mem' s', CreateQueryPool alloc t count mem s = Ok (r, pool, mem', s') /\
    match pool with
    | Some p => r = QUERY_SUCCESS /\ q_type p = t /\ q_count p = count /\ pool_ok p /\ balanced s' (q_mapping p :: held) /\
        forall q, 0 <= q < count -> query_result mem' p q = 0
    | None => r <> QUERY_SUCCESS /\ mem' = mem /\ balanced s' held
    end).
  { intros t T. set (size := ALIGN_POT (u64 (count * PS5VK_QUERY_BYTES)) PS5VK_DIRECT_PAGE_BYTES).
    assert (Sz : size = (count * 16 + 16383) / 16384 * 16384).
    { unfold size, PS5VK_QUERY_BYTES, PS5VK_DIRECT_PAGE_BYTES. rewrite u64_small by lia. change 16384 with (2 ^ 14) at 1.
      rewrite align_pot_rounds by lia. f_equal. f_equal. lia. }
    pose proof (Z.div_mod (count * 16 + 16383) 16384 ltac:(lia)). pose proof (Z.mod_pos_bound (count * 16 + 16383) 16384 ltac:(lia)).
    destruct (create_spec size PS5VK_DIRECT_PAGE_BYTES DIRECT_QUERY s held B) as (r & m & s' & E & D); [lia|rewrite Sz; apply Z_mod_mult|].
    assert (U : CreateQueryPool alloc t count mem s =
      if negb alloc then Ok (QUERY_OUT_OF_HOST_MEMORY, None, mem, s) else
      if negb (r =? 0) then Ok (OUT_OF_DEVICE_MEMORY, None, mem, s') else
      let! mem' := query_pool_reset mem (QueryPool t count m) 0 count in Ok (QUERY_SUCCESS, Some (QueryPool t count m), mem', s')).
    { unfold CreateQueryPool. destruct (0 <? count) eqn:X; to_prop; [|lia]. fold size. rewrite E. destruct T as [-> | ->]; reflexivity. }
    rewrite U. destruct alloc; simpl negb; cbv iota; [|do 4 eexists; split; [reflexivity|done]].
    destruct D as [(-> & Us & Eb & Ek & B')|(R & B' & _)].
    - simpl. set (p := QueryPool t count m). destruct Us as (S0 & Sb & An & _ & [V|[V _]]); [|congruence]. apply window_range in V as [V1 V2].
      assert (O : pool_ok p) by (unfold pool_ok, p, PS5VK_QUERY_BYTES; simpl; lia).
      destruct (reset_spec p mem 0 count O) as (mem' & Er & Rz & _); [lia|lia|simpl; lia|]. rewrite Er. cbn [bind].
      do 4 eexists. split; [reflexivity|]. cbn beta iota. split_and!; try done; apply O.
    - destruct (r =? 0) eqn:X; to_prop; [done|]. do 4 eexists. split; [reflexivity|]. done. }
  destruct type as [| |v]; [apply K; auto|apply K; auto|]. do 4 eexists. split; [reflexivity|]. done.
Qed.

(** ** Witnesses *)

Definition sample_pool : query_pool := QueryPool OCCLUSION 4 (Mapping 0 16384 8589934592 DIRECT_QUERY 0 0).
Definition sample_recording : recording := Recording false false 0 [] [] [].

Lemma sample_pool_ok : pool_ok sample_pool.
Proof. unfold pool_ok, sample_pool, PS5VK_QUERY_BYTES. simpl. lia. Qed.

Lemma occlusion_query_counts_witness :
  query_result (poke 8 (poke 8 (fun _ => 7) 8589934624 100) 8589934632 103) sample_pool 2 = 48.
Proof.
  destruct (occlusion_query_counts sample_pool 2 sample_recording _ _ (fun _ => 7) 100 103 sample_pool_ok eq_refl ltac:(simpl; lia) eq_refl eq_refl eq_refl
    ltac:(lia) ltac:(lia)) as [E _]. exact E.
Defined.

Lemma query_copy_writes_witness :
  exists copy, rc_copies (CmdCopyQueryPoolResults true sample_recording (Some sample_pool) 1 3 (Some (4096, 256)) 16 16 1) = [copy] /\
    forall i, 0 <= i < 3 -> result_at 1 (query_execute copy (fun _ => 0)) (4096 + 16 + i * 16)
      (query_result (fun _ => 0) sample_pool (1 + i)) (query_available (fun _ => 0) sample_pool (1 + i)).
Proof.
  destruct (query_copy_writes sample_recording sample_pool 1 3 4096 256 16 16 1 (fun _ => 0) sample_pool_ok eq_refl) as (copy & E & _ & R & _);
    try (unfold result_bytes; simpl; lia). exists copy. split; [exact E|exact R].
Defined.

Lemma query_range_check_wraps_witness :
  exists copy, rc_copies (CmdCopyQueryPoolResults true sample_recording (Some sample_pool) (2 ^ 32 - 1) 2 (Some (4096, 256)) 0 16 1) = [copy] /\ q_count sample_pool <= qc_first copy.
Proof.
  destruct (query_range_check_wraps sample_recording sample_pool 4096 256 16 1 eq_refl ltac:(simpl; lia) ltac:(lia)) as (_ & copy & E & _ & Q);
    try (unfold result_bytes; simpl; lia). exists copy. split; [exact E|exact Q].
Defined.

#[global] Instance toy_query : QueryPlatform := {| ALIGN_POT := fun value alignment => (value + alignment - 1) / alignment * alignment |}.
#[global] Instance toy_query_laws : QueryPlatformLaws toy_query.
Proof. split. intros; reflexivity. Qed.

Lemma query_pool_created_witness :
  exists r pool mem' s', CreateQueryPool (H0 := toy_direct 100) true TIMESTAMP 1000 (fun _ => 7) direct_init = Ok (r, pool, mem', s') /\
    match pool with
    | Some p => r = QUERY_SUCCESS /\ q_type p = TIMESTAMP /\ q_count p = 1000 /\ pool_ok p /\ balanced s' [q_mapping p] /\
        forall q, 0 <= q < 1000 -> query_result mem' p q = 0
    | None => r <> QUERY_SUCCESS /\ mem' = (fun _ => 7) /\ balanced s' []
    end.
Proof. exact (query_pool_created (P := toy_direct 100) TIMESTAMP true 1000 (fun _ => 7) direct_init [] (proj1 direct_init_ok) ltac:(lia)). Defined.
