(* ===== verification/QueueMarkers.v ===== *)
(** * Completion markers of the queue ([src/driver/ps5vk_queue.c])

    Each step of a submission ends with a packet that writes the step's value
    to the marker word; the values rise by one, skip zero and wrap.  A step that
    is not waited for leaves the cache lines it wrote to be evicted once the
    marker passes its value.  The GPU is the sequence of marker words and times
    the CPU observes, one per look, which is a parameter. *)

From Stdlib Require Import ZArith Lia.
From stdpp Require Import base numbers list.
From S2P Require Import Prelude DriverPrelude.
Open Scope Z_scope.

(** ** Data *)

Definition PS5VK_MARKER_POLLS : Z := 2000.
Definition PS5VK_MARKER_POLL_MICROSECONDS : Z := 1000.
Definition PS5VK_MARKER_SPIN_NS : Z := 1500000.
Definition PS5VK_RESCUE_POLLS : Z := 20.

(** [struct ps5vk_retire_range] *)
Record retire_range := RetireRange { rr_value : Z; rr_address : Z; rr_bytes : Z }.

(** What the queue keeps of the steps in flight, and the ranges evicted from
    the CPU's caches so far, latest first. *)
Record marker_state := MarkerState {
  ms_marker_value : Z;
  ms_submitted : Z;
  ms_completed : Z;
  ms_retire : list retire_range;
  ms_evicted : list (Z * Z)
}.

Definition marker_init : marker_state := MarkerState 0 0 0 [] [].

(** A target of a command buffer: whether its range is evicted whatever its
    memory's state, and whether the application has its memory mapped. *)
Record flush_target := FlushTarget { ft_always : bool; ft_host_mapped : bool; ft_address : Z; ft_bytes : Z }.

(** ** Markers *)

(** [ps5vk_marker_reached] *)
Definition marker_reached (current value : Z) : bool := 0 <=? s32 (current - value).

(** [queue->marker_value == UINT32_MAX ? 1 : queue->marker_value + 1] *)
Definition next_value (value : Z) : Z := if value =? UINT32_MAX then 1 else value + 1.

(** [ps5vk_queue_retire_locked]: the ranges evicted and those kept, in order. *)
Definition retire_locked (s : marker_state) : marker_state :=
  let reached r := marker_reached (ms_completed s) (rr_value r) in
  MarkerState (ms_marker_value s) (ms_submitted s) (ms_completed s)
    (filter (fun r => reached r = false) (ms_retire s))
    (rev (map (fun r => (rr_address r, rr_bytes r)) (filter (fun r => reached r = true) (ms_retire s))) ++ ms_evicted s).

(** [ps5vk_queue_poll], of a marker word seen. *)
Definition poll (seen : Z) (s : marker_state) : marker_state :=
  retire_locked (MarkerState (ms_marker_value s) (ms_submitted s)
    (if marker_reached seen (ms_completed s) && marker_reached (ms_submitted s) seen then seen else ms_completed s)
    (ms_retire s) (ms_evicted s)).

(** [ps5vk_target_already_flushed]: the same range stands earlier in the
    submission's targets, whose lists follow each other. *)
Definition already_flushed (earlier : list flush_target) (t : flush_target) : bool :=
  existsb (fun e => (ft_address e =? ft_address t) && (ft_bytes e =? ft_bytes t)) earlier.

(** The ranges [ps5vk_queue_flush_targets] evicts and
    [ps5vk_queue_defer_targets] keeps, in the targets' order. *)
Fixpoint flushed_ranges (earlier targets : list flush_target) : list (Z * Z) :=
  match targets with
  | [] => []
  | t :: rest =>
      let more := flushed_ranges (earlier ++ [t]) rest in
      if negb (ft_always t) && negb (ft_host_mapped t) then more
      else if already_flushed earlier t then more
      else (ft_address t, ft_bytes t) :: more
  end.

(** [ps5vk_queue_flush_targets] *)
Definition flush_targets (targets : list flush_target) (s : marker_state) : marker_state :=
  MarkerState (ms_marker_value s) (ms_submitted s) (ms_completed s) (ms_retire s) (rev (flushed_ranges [] targets) ++ ms_evicted s).

(** [ps5vk_queue_defer_targets] *)
Definition defer_targets (targets : list flush_target) (value : Z) (s : marker_state) : marker_state :=
  MarkerState (ms_marker_value s) (ms_submitted s) (ms_completed s)
    (ms_retire s ++ map (fun '(a, n) => RetireRange value a n) (flushed_ranges [] targets)) (ms_evicted s).

(** ** Waiting *)

Inductive wait_result := WAIT_SUCCESS | WAIT_TIMEOUT | DEVICE_LOST.

(** What the calls of one step to the AGC library return: whether the end
    packets were written, the results of submitting (again without the flag when
    that was refused), whether the profile's mode asks for a suspend point after
    it, and the results of that one and of the rescue. *)
Record step_calls := StepCalls {
  sc_packets_written : bool;
  sc_flagged : bool;
  sc_submit : Z * Z;
  sc_suspends : bool;
  sc_suspend : Z;
  sc_rescue : Z
}.

Definition driver_submit (c : step_calls) : bool :=
  let result := fst (sc_submit c) in
  (if negb (result =? 0) && sc_flagged c then snd (sc_submit c) else result) =? 0.

(** What the CPU sees each time it looks: the marker word and the clocks. *)
Class Gpu := {
  marker_seen : nat -> Z;
  profile_now : nat -> Z;
  os_time_now : nat -> Z
}.

Section Waiting.
Context `{G : Gpu}.

(** The bounded spin: it ends when the marker is reached ([true]) or the clock
    passes [until]; each look is the next observation. *)
Fixpoint spin (fuel : nat) (value until : Z) (t : nat) (s : marker_state) : option (bool * nat * marker_state) :=
  match fuel with
  | O => None
  | S fuel' =>
      let s' := poll (marker_seen t) s in
      if marker_reached (ms_completed s') value then Some (true, S t, s')
      else if until <=? profile_now t then Some (false, S t, s')
      else spin fuel' value until (S t) s'
  end.

(** The sleeping polls, from [poll] on. *)
Fixpoint sleep_polls (left : nat) (value abs_timeout : Z) (t : nat) (s : marker_state) : wait_result * nat * marker_state :=
  let s' := poll (marker_seen t) s in
  if marker_reached (ms_completed s') value then (WAIT_SUCCESS, S t, s')
  else if abs_timeout <=? os_time_now t then (WAIT_TIMEOUT, S t, s')
  else match left with
       | O => (DEVICE_LOST, S t, s')
       | S left' => sleep_polls left' value abs_timeout (S t) s'
       end.

(** [ps5vk_queue_wait_value]; [None] only when [fuel] does not reach the end of
    the spin. *)
Definition wait_value (fuel : nat) (value abs_timeout : Z) (t : nat) (s : marker_state) : option (wait_result * nat * marker_state) :=
  let s' := poll (marker_seen t) s in
  if marker_reached (ms_completed s') value then Some (WAIT_SUCCESS, S t, s')
  else if (abs_timeout =? 0) || (abs_timeout <=? os_time_now t) then Some (WAIT_TIMEOUT, S t, s')
  else match spin fuel value (u64 (profile_now t + PS5VK_MARKER_SPIN_NS)) (S t) s' with
       | None => None
       | Some (true, t', s'') => Some (WAIT_SUCCESS, t', s'')
       | Some (false, t', s'') => Some (sleep_polls (Z.to_nat PS5VK_MARKER_POLLS) value abs_timeout t' s'')
       end.

(** [ps5vk_queue_wait_idle] *)
Definition wait_idle (fuel : nat) (t : nat) (s : marker_state) : option (wait_result * nat * marker_state) :=
  wait_value fuel (ms_submitted s) UINT64_MAX t s.

(** The newest value of the ranges kept that a range touches. *)
Definition range_value (ranges : list retire_range) (low bytes : Z) : option Z :=
  fold_left (fun found r =>
    if (rr_address r <? u64 (low + bytes)) && (low <? u64 (rr_address r + rr_bytes r)) &&
       match found with None => true | Some value => marker_reached (rr_value r) value end
    then Some (rr_value r) else found) ranges None.

(** [ps5vk_queue_wait_range] *)
Definition wait_range (fuel : nat) (address bytes : Z) (t : nat) (s : marker_state) : option (wait_result * nat * marker_state) :=
  match range_value (ms_retire s) address bytes with
  | Some value => wait_value fuel value UINT64_MAX t s
  | None => Some (WAIT_SUCCESS, t, s)
  end.

(** The sleeping polls of [ps5vk_queue_run_step], the [n]-th on. *)
Fixpoint step_polls (left : nat) (n value : Z) (suspended : bool) (c : step_calls) (targets : list flush_target) (t : nat) (s : marker_state) :
    wait_result * nat * marker_state :=
  match left with
  | O => (DEVICE_LOST, t, s)
  | S left' =>
      let s' := poll (marker_seen t) s in
      if marker_reached (ms_completed s') value then (WAIT_SUCCESS, S t, flush_targets targets s')
      else if negb suspended && (n + 1 =? PS5VK_RESCUE_POLLS) then
        if sc_rescue c =? 0 then step_polls left' (n + 1) value true c targets (S t) s' else (DEVICE_LOST, S t, s')
      else step_polls left' (n + 1) value suspended c targets (S t) s'
  end.

(** [ps5vk_queue_run_step], of a step's markers and targets. *)
Definition run_step (fuel : nat) (c : step_calls) (targets : list flush_target) (wait : bool) (t : nat) (s : marker_state) :
    option (wait_result * nat * marker_state) :=
  let value := next_value (ms_marker_value s) in
  let s1 := MarkerState value (ms_submitted s) (ms_completed s) (ms_retire s) (ms_evicted s) in
  if negb (sc_packets_written c) then Some (DEVICE_LOST, t, s1)
  else
    let s2 := flush_targets targets s1 in
    let s3 := MarkerState value value (ms_completed s2) (ms_retire s2) (ms_evicted s2) in
    if negb (driver_submit c) then Some (DEVICE_LOST, t, s3)
    else if sc_suspends c && negb (sc_suspend c =? 0) then Some (DEVICE_LOST, t, s3)
    else if negb wait then Some (WAIT_SUCCESS, t, defer_targets targets value s3)
    else match spin fuel value (u64 (profile_now t + PS5VK_MARKER_SPIN_NS)) t s3 with
         | None => None
         | Some (_, t', s4) => Some (step_polls (Z.to_nat PS5VK_MARKER_POLLS) 0 value (sc_suspends c) c targets t' s4)
         end.

End Waiting.

(** ** The values of the steps *)

(** The marker value of the [n]-th step; before the first the word is zero. *)
Definition step_value (n : Z) : Z := if n =? 0 then 0 else (n - 1) mod UINT32_MAX + 1.

Lemma step_value_range n : 0 <= n -> 0 <= step_value n < 2 ^ 32.
Proof. unfold step_value, UINT32_MAX. intros N. destruct (n =? 0); [lia|]. pose proof (Z.mod_pos_bound (n - 1) (2 ^ 32 - 1)). lia. Qed.

Lemma step_value_next n : 0 <= n -> next_value (step_value n) = step_value (n + 1).
Proof.
  unfold next_value, step_value, UINT32_MAX. intros N. destruct (n =? 0) eqn:E; to_prop.
  { subst n. reflexivity. }
  destruct (n + 1 =? 0) eqn:E'; to_prop; [lia|]. replace (n + 1 - 1) with (n - 1 + 1) by lia.
  pose proof (Z.mod_pos_bound (n - 1) (2 ^ 32 - 1) ltac:(lia)). pose proof (Z.div_mod (n - 1) (2 ^ 32 - 1) ltac:(lia)) as D.
  set (q := (n - 1) / (2 ^ 32 - 1)) in *. set (r := (n - 1) mod (2 ^ 32 - 1)) in *. destruct (r + 1 =? 2 ^ 32 - 1) eqn:R; to_prop.
  - rewrite <- (Z.mod_unique (n - 1 + 1) (2 ^ 32 - 1) (q + 1) 0); lia.
  - rewrite <- (Z.mod_unique (n - 1 + 1) (2 ^ 32 - 1) q (r + 1)); lia.
Qed.

(** How far apart two steps in flight at once may be. *)
Definition kWindow : Z := 2 ^ 31 - 1.

Lemma s32_of_diff x d k : x = d + k * 2 ^ 32 -> - 2 ^ 31 <= d < 2 ^ 31 -> s32 x = d.
Proof.
  intros -> D. unfold s32. assert (E : u32 (d + k * 2 ^ 32) = if 0 <=? d then d else d + 2 ^ 32).
  { unfold u32. rewrite Z_mod_plus_full. destruct (0 <=? d) eqn:X; to_prop; [apply Z.mod_small; lia|].
    symmetry. apply Z.mod_unique with (-1); lia. }
  rewrite E. destruct (0 <=? d) eqn:X; to_prop; destruct (_ <? 2 ^ 31) eqn:Y; to_prop; lia.
Qed.

Lemma marker_order c v : 0 <= c -> 0 <= v -> c - v < kWindow -> v - c < kWindow ->
  marker_reached (step_value c) (step_value v) = (v <=? c).
Proof.
  unfold kWindow, marker_reached, step_value, UINT32_MAX. intros C V Hi Lo.
  assert (K : exists k d, (if c =? 0 then 0 else (c - 1) mod (2 ^ 32 - 1) + 1) - (if v =? 0 then 0 else (v - 1) mod (2 ^ 32 - 1) + 1) = d + k * 2 ^ 32 /\
    - 2 ^ 31 <= d < 2 ^ 31 /\ (0 <= d <-> v <= c)).
  { destruct (c =? 0) eqn:Ec; destruct (v =? 0) eqn:Ev; to_prop; subst.
    - exists 0, 0. lia.
    - exists 0, (- v). rewrite Z.mod_small by lia. lia.
    - exists 0, c. rewrite Z.mod_small by lia. lia.
    - pose proof (Z.mod_pos_bound (c - 1) (2 ^ 32 - 1) ltac:(lia)). pose proof (Z.div_mod (c - 1) (2 ^ 32 - 1) ltac:(lia)).
      pose proof (Z.mod_pos_bound (v - 1) (2 ^ 32 - 1) ltac:(lia)). pose proof (Z.div_mod (v - 1) (2 ^ 32 - 1) ltac:(lia)).
      set (q := (c - 1) / (2 ^ 32 - 1)) in *. set (p := (v - 1) / (2 ^ 32 - 1)) in *.
      exists (p - q), (c - v + (q - p)). split; [nia|]. assert (-1 <= q - p <= 1) by nia.
      assert (v < c -> 0 <= q - p) by nia. assert (c < v -> q - p <= 0) by nia. assert (c = v -> q = p) by (intros ->; done). lia. }
  destruct K as (k & d & E & D & S). rewrite (s32_of_diff _ d k E D).
  destruct (0 <=? d) eqn:X; destruct (v <=? c) eqn:Y; to_prop; auto; lia.
Qed.

(** ** What the queue keeps true

    [sub] steps have been submitted and [comp] of them are known to have run. *)

Definition range_of (r : retire_range) : Z * Z := (rr_address r, rr_bytes r).
Definition in_flight (comp sub : Z) (r : retire_range) : Prop := exists k, comp < k <= sub /\ rr_value r = step_value k.

Record markers_ok (sub comp : Z) (s : marker_state) : Prop := {
  mo_steps : 0 <= comp <= sub /\ sub - comp < kWindow;
  mo_marker : ms_marker_value s = step_value sub;
  mo_submitted : ms_submitted s = step_value sub;
  mo_completed : ms_completed s = step_value comp;
  mo_retire : Forall (in_flight comp sub) (ms_retire s)
}.

Lemma filter_split {A} (f : A -> bool) (l : list A) : filter (fun x => f x = true) l ++ filter (fun x => f x = false) l ≡ₚ l.
Proof.
  induction l as [|x l IH]; [done|]. rewrite !filter_cons. destruct (f x) eqn:E; repeat case_decide; try congruence.
  - simpl. now rewrite IH.
  - rewrite <- Permutation_middle. now rewrite IH.
Qed.

(** A look at the marker while the GPU has run [g] steps. *)
Lemma poll_spec sub comp g s : markers_ok sub comp s -> 0 <= g <= sub -> sub - g < kWindow ->
  let s' := poll (step_value g) s in
  markers_ok sub (Z.max comp g) s' /\
  map range_of (ms_retire s') ++ ms_evicted s' ≡ₚ map range_of (ms_retire s) ++ ms_evicted s /\
  (forall r, r ∈ ms_retire s' -> r ∈ ms_retire s).
Proof.
  intros [[C W] Mv Sb Cp Rt] Gs Gw. unfold poll. rewrite Sb, Cp. rewrite (marker_order g comp), (marker_order sub g) by lia.
  assert (E : (if (comp <=? g) && (g <=? sub) then step_value g else step_value comp) = step_value (Z.max comp g)).
  { destruct (comp <=? g) eqn:X; to_prop; simpl.
    - destruct (g <=? sub) eqn:Y; to_prop; [f_equal; lia|lia].
    - f_equal. lia. }
  rewrite E. unfold retire_locked. cbn [ms_marker_value ms_submitted ms_completed ms_retire ms_evicted].
  set (reached := fun r => marker_reached (step_value (Z.max comp g)) (rr_value r)). split; [|split].
  - constructor; cbn [ms_marker_value ms_submitted ms_completed ms_retire ms_evicted]; auto; [lia|].
    rewrite Forall_forall in Rt |- *. intros r I. apply list_elem_of_filter in I as [Nr I]. destruct (Rt r I) as (k & K & V).
    exists k. split; [|done]. unfold reached in Nr. rewrite V, marker_order in Nr by lia. to_prop. lia.
  - rewrite <- Permutation_rev, app_assoc. apply Permutation_app_tail.
    rewrite <- (filter_split reached (ms_retire s)) at 3. rewrite map_app. apply Permutation_app_comm.
  - intros r I. now apply list_elem_of_filter in I.
Qed.

(** ** Waits *)

(** The GPU runs the queue's steps in order: at look [t] it has run [gpu t] of
    the [sub] submitted, and its word is the last one's value. *)
Class GpuLaws (G : Gpu) (gpu : nat -> Z) (sub : Z) := {
  gpu_word : forall t, marker_seen t = step_value (gpu t);
  gpu_forward : forall t, gpu t <= gpu (S t);
  gpu_bounded : forall t, 0 <= gpu t <= sub;
  clock_moves : forall t, 0 <= profile_now t < profile_now (S t);
  os_time_small : forall t, os_time_now t < UINT64_MAX
}.

Section Waits.
Context `{G : Gpu} (gpu : nat -> Z) (sub : Z) {GL : GpuLaws G gpu sub}.

Lemma gpu_mono t n : gpu t <= gpu (t + n)%nat.
Proof. induction n; [rewrite Nat.add_0_r; lia|]. rewrite Nat.add_succ_r. pose proof (gpu_forward (t + n)). lia. Qed.

Lemma clock_far t n : profile_now t + Z.of_nat n <= profile_now (t + n)%nat.
Proof. induction n; [rewrite Nat.add_0_r; lia|]. rewrite Nat.add_succ_r. pose proof (clock_moves (t + n)). lia. Qed.

(** The ranges of a state that started as another: some evicted, none lost. *)
Definition evolved (s s' : marker_state) : Prop :=
  map range_of (ms_retire s') ++ ms_evicted s' ≡ₚ map range_of (ms_retire s) ++ ms_evicted s /\
  (forall r, r ∈ ms_retire s' -> r ∈ ms_retire s).

Lemma evolved_trans s1 s2 s3 : evolved s1 s2 -> evolved s2 s3 -> evolved s1 s3.
Proof. intros [P1 I1] [P2 I2]. split; [now rewrite P2|auto]. Qed.

(** The state at look [t]: never behind what the GPU had run then. *)
Definition looked (t : nat) (s : marker_state) : Prop := exists comp, markers_ok sub comp s /\ comp <= gpu t.

Lemma look t s : looked t s -> let s' := poll (marker_seen t) s in markers_ok sub (gpu t) s' /\ evolved s s'.
Proof.
  intros (comp & O & C). rewrite gpu_word. pose proof (gpu_bounded t). destruct (poll_spec sub comp (gpu t) s O) as (O' & P & I); [lia| |].
  - pose proof (mo_steps _ _ _ O). lia.
  - rewrite Z.max_r in O' by lia. split; [done|split; done].
Qed.

Lemma looked_next t s : markers_ok sub (gpu t) s -> looked (S t) s.
Proof. intros O. exists (gpu t). split; [done|apply gpu_forward]. Qed.

Lemma reached_step t s v : markers_ok sub (gpu t) s -> 0 <= v <= sub -> gpu t - v < kWindow ->
  marker_reached (ms_completed s) (step_value v) = (v <=? gpu t).
Proof. intros O V N. rewrite (mo_completed _ _ _ O). destruct (mo_steps _ _ _ O). apply marker_order; lia. Qed.

(** The value waited for is of a step submitted not long ago. *)
Definition recent (v : Z) : Prop := 0 <= v <= sub /\ sub - v < kWindow.

Lemma spin_eq fuel value until t s : spin (S fuel) value until t s =
  let s' := poll (marker_seen t) s in
  if marker_reached (ms_completed s') value then Some (true, S t, s')
  else if until <=? profile_now t then Some (false, S t, s')
  else spin fuel value until (S t) s'.
Proof. done. Qed.

Lemma spin_spec fuel v until t s : looked t s -> recent v -> until <= profile_now t + Z.of_nat fuel ->
  exists r t' s', spin (S fuel) (step_value v) until t s = Some (r, S t', s') /\ (t <= t')%nat /\ markers_ok sub (gpu t') s' /\ evolved s s' /\
    (r = true -> v <= gpu t').
Proof.
  revert t s. induction fuel as [|fuel IH]; intros t s Lk [V R] Fl; destruct (look t s Lk) as [O E]; rewrite spin_eq; cbv zeta;
    rewrite (reached_step t _ v O V) by (pose proof (gpu_bounded t); lia); destruct (v <=? gpu t) eqn:X; to_prop.
  - exists true, t, (poll (marker_seen t) s). auto.
  - destruct (until <=? profile_now t) eqn:Y; to_prop; [|lia]. exists false, t, (poll (marker_seen t) s). split_and!; auto; discriminate.
  - exists true, t, (poll (marker_seen t) s). auto.
  - destruct (until <=? profile_now t) eqn:Y; to_prop; [exists false, t, (poll (marker_seen t) s); split_and!; auto; discriminate|].
    destruct (IH (S t) (poll (marker_seen t) s)) as (r & t' & s' & -> & T & O' & E' & Rt); [now apply looked_next|done| |].
    + pose proof (clock_moves t). lia.
    + exists r, t', s'. split; [done|]. split; [lia|]. split; [done|]. split; [now apply evolved_trans with (poll (marker_seen t) s)|done].
Qed.

Lemma sleep_spec left v timeout t s : looked t s -> recent v ->
  exists r t' s', sleep_polls left (step_value v) timeout t s = (r, S t', s') /\ (t <= t' <= t + left)%nat /\ markers_ok sub (gpu t') s' /\ evolved s s' /\
    (r = WAIT_SUCCESS <-> v <= gpu t') /\ (r = WAIT_TIMEOUT -> timeout <= os_time_now t') /\ (r = DEVICE_LOST -> t' = (t + left)%nat).
Proof.
  revert t s. induction left as [|left IH]; intros t s Lk [V R]; destruct (look t s Lk) as [O E]; cbn [sleep_polls];
    rewrite (reached_step t _ v O V) by (pose proof (gpu_bounded t); lia); destruct (v <=? gpu t) eqn:X; to_prop;
    try (exists WAIT_SUCCESS, t, (poll (marker_seen t) s); split_and!; auto; try lia; done);
    destruct (timeout <=? os_time_now t) eqn:Y; to_prop;
    try (exists WAIT_TIMEOUT, t, (poll (marker_seen t) s); split_and!; auto; try lia; try done; split; [done|lia]).
  - exists DEVICE_LOST, t, (poll (marker_seen t) s). split_and!; auto; try lia; try done. split; [done|lia].
  - destruct (IH (S t) (poll (marker_seen t) s)) as (r & t' & s' & -> & T & O' & E' & Sr & Tr & Lr); [now apply looked_next|done|].
    exists r, t', s'. split; [done|]. split; [lia|]. split; [done|]. split; [now apply evolved_trans with (poll (marker_seen t) s)|].
    split; [done|]. split; [done|]. intros D. rewrite (Lr D). lia.
Qed.

(** Enough fuel for the bounded spin. *)
Definition spin_fuel : nat := S (Z.to_nat PS5VK_MARKER_SPIN_NS).

Lemma wait_spec v timeout t s : looked t s -> recent v -> profile_now t + PS5VK_MARKER_SPIN_NS < 2 ^ 64 ->
  exists r t' s', wait_value spin_fuel (step_value v) timeout t s = Some (r, S t', s') /\ (t <= t')%nat /\ markers_ok sub (gpu t') s' /\ evolved s s' /\
    (r = WAIT_SUCCESS <-> v <= gpu t') /\ (r = WAIT_TIMEOUT -> timeout = 0 \/ timeout <= os_time_now t') /\
    (r = DEVICE_LOST -> (t + Z.to_nat PS5VK_MARKER_POLLS <= t')%nat).
Proof.
  intros Lk Rv Cl. unfold wait_value. destruct (look t s Lk) as [O E]. destruct Rv as [V R] eqn:Rv'. clear Rv'.
  rewrite (reached_step t _ v O V) by (pose proof (gpu_bounded t); lia). destruct (v <=? gpu t) eqn:X; to_prop.
  { exists WAIT_SUCCESS, t, (poll (marker_seen t) s). split_and!; auto; done. }
  destruct ((timeout =? 0) || (timeout <=? os_time_now t)) eqn:Y.
  { apply orb_true_iff in Y. exists WAIT_TIMEOUT, t, (poll (marker_seen t) s). split_and!; auto; try done; [split; [done|lia]|].
    intros _. destruct Y; to_prop; auto. }
  pose proof (clock_moves t). rewrite u64_small by (unfold PS5VK_MARKER_SPIN_NS in *; lia).
  destruct (spin_spec (Z.to_nat PS5VK_MARKER_SPIN_NS) v (profile_now t + PS5VK_MARKER_SPIN_NS) (S t) (poll (marker_seen t) s)) as (r & t' & s' & Q & T & O' & E' & Rt);
    [now apply looked_next|done|unfold PS5VK_MARKER_SPIN_NS; lia|].
  unfold spin_fuel. rewrite Q. destruct r.
  - exists WAIT_SUCCESS, t', s'. split_and!; auto; try lia; try done; [now apply evolved_trans with (poll (marker_seen t) s)|]. split; [auto|done].
  - destruct (sleep_spec (Z.to_nat PS5VK_MARKER_POLLS) v timeout (S t') s') as (r & t2 & s2 & -> & T2 & O2 & E2 & Sr & Tr & Lr); [now apply looked_next|done|].
    exists r, t2, s2. split; [done|]. split; [lia|]. split; [done|].
    split; [apply evolved_trans with s'; [now apply evolved_trans with (poll (marker_seen t) s)|done]|].
    split; [done|]. split; [auto|]. intros D. rewrite (Lr D). lia.
Qed.

End Waits.

(** ** Steps *)

Section Steps.
Context `{G : Gpu}.

Definition owed (s : marker_state) : list (Z * Z) := map range_of (ms_retire s) ++ ms_evicted s.

Definition step_runs (c : step_calls) : Prop :=
  sc_packets_written c = true /\ driver_submit c = true /\ (sc_suspends c = true -> sc_suspend c = 0).

(** A step that went out leaves its value and the evictions before it. *)
Definition sent (targets : list flush_target) (s s' : marker_state) : Prop :=
  ms_retire s' = ms_retire s /\ ms_evicted s' = rev (flushed_ranges [] targets) ++ ms_evicted s.

Lemma markers_ok_next sub comp s l e : markers_ok sub comp s -> sub + 1 - comp < kWindow -> Forall (in_flight comp (sub + 1)) l ->
  markers_ok (sub + 1) comp (MarkerState (next_value (ms_marker_value s)) (next_value (ms_marker_value s)) (ms_completed s) l e).
Proof.
  intros [[C W] Mv Sb Cp Rt] N F. rewrite Mv, step_value_next by lia. constructor; cbn [ms_marker_value ms_submitted ms_completed ms_retire]; auto. lia.
Qed.

Lemma in_flight_next comp sub l : Forall (in_flight comp sub) l -> Forall (in_flight comp (sub + 1)) l.
Proof. intros F. eapply Forall_impl; [exact F|]. intros r (k & K & V). exists k. split; [lia|done]. Qed.

Lemma run_step_async fuel c targets t s sub comp : step_runs c -> markers_ok sub comp s -> sub + 1 - comp < kWindow ->
  exists s', run_step fuel c targets false t s = Some (WAIT_SUCCESS, t, s') /\ markers_ok (sub + 1) comp s' /\
    map range_of (ms_retire s') = map range_of (ms_retire s) ++ flushed_ranges [] targets /\
    ms_evicted s' = rev (flushed_ranges [] targets) ++ ms_evicted s.
Proof.
  intros (P & D & S) O N. unfold run_step. rewrite P, D. cbn [negb].
  replace (sc_suspends c && negb (sc_suspend c =? 0)) with false by (symmetry; apply andb_false_iff; destruct (sc_suspends c); [right; now rewrite S|now left]).
  eexists. split; [reflexivity|]. unfold defer_targets, flush_targets. cbn [ms_marker_value ms_submitted ms_completed ms_retire ms_evicted]. split; [|split].
  - apply markers_ok_next; auto. apply Forall_app. split; [now apply in_flight_next, (mo_retire _ _ _ O)|].
    rewrite Forall_forall. intros r I. apply list_elem_of_In, in_map_iff in I as ([a n] & <- & _). exists (sub + 1).
    destruct (mo_steps _ _ _ O). rewrite (mo_marker _ _ _ O), step_value_next by lia. simpl. split; [lia|done].
  - rewrite map_app. f_equal. rewrite map_map, <- (map_id (flushed_ranges [] targets)) at 1. rewrite map_id. apply eq_trans with (map id (flushed_ranges [] targets)); [apply map_ext; now intros []|apply map_id].
  - done.
Qed.


Context (gpu : nat -> Z) (sub : Z) {GL : GpuLaws G gpu sub}.



End Steps.

(** ** Ranges *)

Definition touches (low bytes : Z) (r : retire_range) : Prop := rr_address r < u64 (low + bytes) /\ low < u64 (rr_address r + rr_bytes r).

Lemma step_value_inj k j : 0 <= k -> 0 <= j -> k - j < kWindow -> j - k < kWindow -> step_value k = step_value j -> k = j.
Proof.
  intros K J Hi Lo E. assert (M := marker_order k j K J Hi Lo). assert (M' := marker_order j k J K Lo Hi). rewrite E in M, M'.
  rewrite marker_order in M, M' by (try unfold kWindow; lia). rewrite Z.leb_refl in M, M'. to_prop. lia.
Qed.

(** The newest step that writes a range. *)
Lemma range_value_spec comp sub low bytes ranges : Forall (in_flight comp sub) ranges -> sub - comp < kWindow -> 0 <= comp ->
  match range_value ranges low bytes with
  | None => Forall (fun r => ~ touches low bytes r) ranges
  | Some value => exists k, comp < k <= sub /\ value = step_value k /\
      Forall (fun r => touches low bytes r -> forall j, comp < j <= sub -> rr_value r = step_value j -> j <= k) ranges
  end.
Proof.
  intros F W C. unfold range_value. induction ranges as [|r ranges IH] using rev_ind; [constructor|]. apply Forall_app in F as [F Fr].
  apply Forall_singleton in Fr as (k & K & V). rewrite fold_left_app. specialize (IH F). cbn [fold_left].
  set (found := fold_left _ ranges None) in *.
  assert (Own : forall n, k <= n -> Forall (fun r => touches low bytes r -> forall j, comp < j <= sub -> rr_value r = step_value j -> j <= n) [r]).
  { intros n Kn. apply Forall_singleton. intros _ j J Vj. rewrite V in Vj. apply step_value_inj in Vj; lia. }
  destruct ((rr_address r <? u64 (low + bytes)) && (low <? u64 (rr_address r + rr_bytes r))) eqn:X.
  - destruct found as [value|]; cbn [andb].
    + destruct IH as (n & Ns & -> & Fn). rewrite V, marker_order by lia. destruct (n <=? k) eqn:Y; to_prop.
      * exists k. split; [done|]. split; [done|]. apply Forall_app. split; [|now apply Own].
        eapply Forall_impl; [exact Fn|]. cbv beta. intros x Hx T j J Vj. specialize (Hx T j J Vj). lia.
      * exists n. split; [done|]. split; [done|]. apply Forall_app. split; [done|apply Own; lia].
    + exists k. split; [done|]. split; [done|]. apply Forall_app. split; [|now apply Own].
      eapply Forall_impl; [exact IH|]. cbv beta. intros x Hx T. contradiction.
  - assert (T : ~ touches low bytes r) by (intros [T1 T2]; apply Z.ltb_lt in T1, T2; rewrite T1, T2 in X; discriminate).
    cbn [andb]. destruct found as [value|].
    + destruct IH as (n & Ns & -> & Fn). exists n. split; [done|]. split; [done|]. apply Forall_app. split; [done|]. apply Forall_singleton. tauto.
    + apply Forall_app. split; [done|]. now apply Forall_singleton.
Qed.

Definition target_range (t : flush_target) : Z * Z := (ft_address t, ft_bytes t).
Definition needs_flush (t : flush_target) : bool := ft_always t || ft_host_mapped t.

Lemma already_flushed_spec earlier t : already_flushed earlier t = true <-> target_range t ∈ target_range <$> earlier.
Proof.
  unfold already_flushed. rewrite existsb_exists, list_elem_of_fmap. split.
  - intros (e & I & E). apply andb_true_iff in E as [E1 E2]. to_prop. exists e. split; [|now apply list_elem_of_In]. unfold target_range. congruence.
  - intros (e & E & I). exists e. split; [now apply list_elem_of_In|]. injection E as E1 E2. rewrite E1, E2, !Z.eqb_refl. done.
Qed.

(** A range is evicted once, when the first target of that range asks for it. *)
Lemma flushed_ranges_spec targets earlier :
  NoDup (flushed_ranges earlier targets) /\
  (forall x, x ∈ flushed_ranges earlier targets <->
     exists l1 t l2, targets = l1 ++ t :: l2 /\ target_range t = x /\ needs_flush t = true /\ x ∉ target_range <$> earlier ++ l1).
Proof.
  revert earlier. induction targets as [|t targets IH]; intros earlier; cbn [flushed_ranges].
  { split; [constructor|]. intros x. rewrite elem_of_nil. split; [done|]. intros (l1 & t & l2 & E & _). now destruct l1. }
  destruct (IH (earlier ++ [t])) as [N M].
  assert (K : forall x, (exists l1 t0 l2, t :: targets = l1 ++ t0 :: l2 /\ target_range t0 = x /\ needs_flush t0 = true /\ x ∉ target_range <$> earlier ++ l1) <->
    (target_range t = x /\ needs_flush t = true /\ x ∉ target_range <$> earlier) \/ x ∈ flushed_ranges (earlier ++ [t]) targets).
  { intros x. rewrite M. split.
    - intros (l1 & t0 & l2 & E & R & Nf & Ne). destruct l1 as [|y l1]; injection E as -> ->.
      + left. rewrite app_nil_r in Ne. done.
      + right. exists l1, t0, l2. rewrite <- app_assoc. done.
    - intros [(R & Nf & Ne)|(l1 & t0 & l2 & -> & R & Nf & Ne)].
      + exists [], t, targets. rewrite app_nil_r. done.
      + exists (t :: l1), t0, l2. rewrite <- app_assoc in Ne. done. }
  fold (needs_flush t). rewrite <- negb_orb. fold (needs_flush t). destruct (needs_flush t) eqn:Nf; cbn [negb].
  - destruct (already_flushed earlier t) eqn:A.
    + split; [done|]. intros x. rewrite K. apply already_flushed_spec in A. split; [auto|]. intros [(<- & _ & X)|X]; [contradiction|done].
    + assert (A' : target_range t ∉ target_range <$> earlier) by (intros X; apply already_flushed_spec in X; congruence). split.
      * constructor; [|done]. intros X. apply M in X as (l1 & t0 & l2 & _ & R & _ & Ne). apply Ne. rewrite !fmap_app, !elem_of_app. left. right. apply list_elem_of_singleton. done.
      * intros x. rewrite K, elem_of_cons. split; [intros [->|?]; auto|]. intros [(<- & _)|?]; auto.
  - split; [done|]. intros x. rewrite K. split; [auto|]. intros [(_ & X & _)|X]; [discriminate|done].
Qed.

(** ** Properties *)

Lemma step_value_iter n : Nat.iter n next_value 0 = step_value (Z.of_nat n).
Proof.
  induction n as [|n IH]; [done|]. rewrite Nat.iter_succ, IH, step_value_next by lia. f_equal. lia.
Qed.

(** The marker values tell steps apart in the order they were submitted:
    with the step's values counted from zero by [next_value] (skipping zero when
    they wrap), [ps5vk_marker_reached] says of two steps fewer than 2^31 - 1
    apart exactly whether the first is not before the second, and no step's
    value is the zero the marker word starts with. *)
Theorem queue_values_in_order (c v : nat) : Z.abs (Z.of_nat c - Z.of_nat v) < 2 ^ 31 - 1 ->
  marker_reached (Nat.iter c next_value 0) (Nat.iter v next_value 0) = (v <=? c)%nat /\
  ((0 < c)%nat -> Nat.iter c next_value 0 <> 0).
Proof.
  intros D. rewrite !step_value_iter. split.
  - rewrite marker_order by (unfold kWindow; lia). destruct (Nat.leb_spec v c); [apply Z.leb_le|apply Z.leb_gt]; lia.
  - intros P. unfold step_value, UINT32_MAX. destruct (_ =? 0) eqn:E; to_prop; [lia|]. pose proof (Z.mod_pos_bound (Z.of_nat c - 1) (2 ^ 32 - 1)). lia.
Qed.

Lemma queue_values_in_order_witness : marker_reached (Nat.iter 5 next_value 0) (Nat.iter 7 next_value 0) = false /\ Nat.iter 5 next_value 0 <> 0.
Proof. destruct (queue_values_in_order 5 7) as [A B]; [lia|]. split; [exact A|apply B; lia]. Defined.

Section Claims.
Context `{G : Gpu}.

(** C28: a wait for a submitted step returns, and says what the GPU has done:
    it succeeds exactly when the step has run by its last look, it times out
    only at its timeout, it never reports a lost device before 2000 looks, and a
    wait without a timeout succeeds whenever the GPU runs the step within the
    time of 2000 looks.  The queue's counters stay true to the GPU. *)
Theorem wait_returns gpu sub {GL : GpuLaws G gpu sub} v timeout t s :
  looked gpu sub t s -> recent sub v -> profile_now t + PS5VK_MARKER_SPIN_NS < 2 ^ 64 ->
  exists r t' s', wait_value spin_fuel (step_value v) timeout t s = Some (r, S t', s') /\
    markers_ok sub (gpu t') s' /\
    (r = WAIT_SUCCESS <-> v <= gpu t') /\
    (r = WAIT_TIMEOUT -> timeout = 0 \/ timeout <= os_time_now t') /\
    (timeout = UINT64_MAX -> v <= gpu (t + Z.to_nat PS5VK_MARKER_POLLS)%nat -> r = WAIT_SUCCESS).
Proof.
  intros Lk Rv Cl. destruct (wait_spec gpu sub v timeout t s Lk Rv Cl) as (r & t' & s' & Q & T & O & E & Sr & Tr & Lr).
  exists r, t', s'. split; [done|]. split; [done|]. split; [done|]. split; [done|]. intros U P. destruct r; [done| |].
  - destruct (Tr eq_refl) as [X|X]; [subst; discriminate|]. pose proof (os_time_small t'). lia.
  - apply Sr. pose proof (gpu_mono gpu sub (t + Z.to_nat PS5VK_MARKER_POLLS) (t' - (t + Z.to_nat PS5VK_MARKER_POLLS))) as M. specialize (Lr eq_refl).
    replace (t + Z.to_nat PS5VK_MARKER_POLLS + (t' - (t + Z.to_nat PS5VK_MARKER_POLLS)))%nat with t' in M by lia. lia.
Qed.

Lemma owed_kept s s' r : evolved s s' -> r ∈ ms_retire s -> (exists r', r' ∈ ms_retire s' /\ range_of r' = range_of r) \/ range_of r ∈ ms_evicted s'.
Proof.
  intros [P _] I. assert (X : range_of r ∈ map range_of (ms_retire s) ++ ms_evicted s) by (apply elem_of_app; left; apply list_elem_of_In, in_map, list_elem_of_In, I).
  rewrite <- P in X. apply elem_of_app in X as [X|X]; [left|now right]. apply list_elem_of_In, in_map_iff in X as (r' & E & I'). exists r'. split; [now apply list_elem_of_In|done].
Qed.

(** C13: [ps5vk_queue_wait_range] ends, and when it succeeds the queue keeps
    no range that the accessed bytes touch: each it kept before has been evicted,
    and the GPU has run the step it was kept for.  (A step's writes are among
    these where the step's targets ask for them to be evicted: see
    [skipped_target_hides_writer].) *)
Theorem wait_range_releases gpu sub {GL : GpuLaws G gpu sub} comp address bytes t s :
  markers_ok sub comp s -> comp <= gpu t -> profile_now t + PS5VK_MARKER_SPIN_NS < 2 ^ 64 ->
  exists r t' s', wait_range spin_fuel address bytes t s = Some (r, t', s') /\
    (r = WAIT_SUCCESS ->
       Forall (fun k => ~ touches address bytes k) (ms_retire s') /\
       (forall k, k ∈ ms_retire s -> touches address bytes k -> range_of k ∈ ms_evicted s' /\
          forall j, comp < j <= sub -> rr_value k = step_value j -> j <= gpu t')).
Proof.
  intros O Cg Cl. unfold wait_range. destruct (mo_steps _ _ _ O) as [C W].
  pose proof (range_value_spec comp sub address bytes _ (mo_retire _ _ _ O) W (proj1 C)) as R. destruct (range_value _ _ _) as [value|].
  - destruct R as (v & V & -> & F). destruct (wait_spec gpu sub v UINT64_MAX t s) as (r & t' & s' & Q & T & O' & E & Sr & _ & _); [exists comp; auto|unfold recent; lia|done|].
    exists r, (S t'), s'. split; [done|]. intros Rs. apply Sr in Rs. rewrite Forall_forall in F.
    assert (None' : Forall (fun k => ~ touches address bytes k) (ms_retire s')).
    { rewrite Forall_forall. intros k I T'. pose proof (mo_retire _ _ _ O') as Fl. rewrite Forall_forall in Fl. destruct (Fl k I) as (j & J & Vj).
      assert (j <= v); [|lia]. apply (F k (proj2 E k I) T' j); [|done]. pose proof (gpu_bounded t'). pose proof (gpu_mono gpu sub t (t' - t)) as M.
      replace (t + (t' - t))%nat with t' in M by lia. lia. }
    split; [done|]. intros k I T'. split.
    + destruct (owed_kept s s' k E I) as [(k' & I' & Q')|X]; [|done]. exfalso. rewrite Forall_forall in None'.
      apply (None' k' I'). unfold touches. injection Q' as -> ->. done.
    + intros j J Vj. pose proof (F k I T' j J Vj). pose proof (gpu_mono gpu sub t' 1) as M. replace (t' + 1)%nat with (S t') in M by lia. lia.
  - exists WAIT_SUCCESS, t, s. split; [done|]. intros _. split; [done|]. intros k I T'. rewrite Forall_forall in R. now destruct (R k I).
Qed.

(** What a step that is not waited for may have left stale is evicted once
    the queue is idle.  The step goes out with every distinct range its targets
    ask for evicted once before it, keeps those ranges with its marker value,
    and a later [ps5vk_queue_wait_idle] that succeeds leaves no range kept: all
    that was kept, by this step and those before it, has been evicted. *)
Theorem step_ranges_evicted_at_idle gpu sub {GL : GpuLaws G gpu (sub + 1)} comp c targets t s :
  step_runs c -> markers_ok sub comp s -> sub + 1 - comp < kWindow -> comp <= gpu t -> profile_now t + PS5VK_MARKER_SPIN_NS < 2 ^ 64 ->
  let ranges := flushed_ranges [] targets in
  NoDup ranges /\
  (forall x, x ∈ ranges <-> exists l1 f l2, targets = l1 ++ f :: l2 /\ target_range f = x /\ needs_flush f = true /\ x ∉ target_range <$> l1) /\
  exists s1, run_step spin_fuel c targets false t s = Some (WAIT_SUCCESS, t, s1) /\
    ms_submitted s1 = step_value (sub + 1) /\ ms_evicted s1 = rev ranges ++ ms_evicted s /\
    exists r t' s', wait_idle spin_fuel t s1 = Some (r, t', s') /\
      (r = WAIT_SUCCESS -> ms_retire s' = [] /\ ms_evicted s' ≡ₚ ranges ++ ranges ++ owed s).
Proof.
  intros Rn O N Cg Cl ranges. destruct (flushed_ranges_spec targets []) as [Nd Fs]. split; [done|]. split; [exact Fs|].
  destruct (run_step_async spin_fuel c targets t s sub comp Rn O N) as (s1 & Q & O1 & Rt & Ev). exists s1. split; [done|]. split; [apply (mo_submitted _ _ _ O1)|]. split; [done|].
  unfold wait_idle. rewrite (mo_submitted _ _ _ O1). destruct (mo_steps _ _ _ O) as [C W].
  destruct (wait_spec gpu (sub + 1) (sub + 1) UINT64_MAX t s1) as (r & t' & s' & Q' & T & O' & [Pm Sb] & Sr & _ & _); [exists comp; auto|unfold recent, kWindow; lia|done|].
  exists r, (S t'), s'. split; [done|]. intros Rs. apply Sr in Rs. assert (E : ms_retire s' = []).
  { destruct (ms_retire s') as [|k l] eqn:El; [done|]. pose proof (mo_retire _ _ _ O') as Fl. rewrite El in Fl. inversion Fl as [|? ? (j & J & _) _]. pose proof (gpu_bounded t'). lia. }
  split; [done|]. rewrite E in Pm. cbn [map app] in Pm. rewrite Pm, Rt, Ev. unfold owed, ranges. rewrite <- Permutation_rev, <- app_assoc.
  rewrite Permutation_app_swap_app. apply Permutation_app_head. apply Permutation_app_swap_app.
Qed.


End Claims.

(** ** A GPU to try them on *)

(** Runs one step per look, up to [sub] of them. *)
Definition steady_gpu (sub : Z) : Gpu := {|
  marker_seen t := step_value (Z.min (Z.of_nat t) sub);
  profile_now t := 1000 * Z.of_nat t;
  os_time_now t := Z.min (Z.of_nat t) (UINT64_MAX - 1)
|}.

Lemma steady_laws sub : 0 <= sub -> GpuLaws (steady_gpu sub) (fun t => Z.min (Z.of_nat t) sub) sub.
Proof. intros S. constructor; intros t; cbn [steady_gpu marker_seen profile_now os_time_now]; unfold UINT64_MAX; try reflexivity; lia. Qed.

Definition example_ranges : list retire_range := [RetireRange 1 4096 256; RetireRange 2 8192 64].
Definition example_queue : marker_state := MarkerState 2 2 0 example_ranges [].
Definition example_calls : step_calls := StepCalls true false (0, 0) true 0 0.
Definition example_targets : list flush_target := [FlushTarget true false 4096 256; FlushTarget false false 0 16; FlushTarget true true 4096 256].

Lemma example_ok : markers_ok 2 0 example_queue.
Proof.
  constructor; try reflexivity; [unfold kWindow; lia|]. unfold example_queue, example_ranges. cbn [ms_retire]. repeat constructor; [exists 1|exists 2]; repeat split; lia.
Qed.

Lemma wait_returns_witness : exists r t' s', @wait_value (steady_gpu 2) spin_fuel 2 UINT64_MAX 0 example_queue = Some (r, S t', s') /\ r = WAIT_SUCCESS.
Proof.
  destruct (@wait_returns (steady_gpu 2) _ 2 (steady_laws 2 ltac:(lia)) 2 UINT64_MAX 0 example_queue) as (r & t' & s' & Q & _ & _ & _ & R).
  - exists 0. split; [apply example_ok|simpl; lia].
  - unfold recent, kWindow. lia.
  - reflexivity.
  - exists r, t', s'. split; [exact Q|]. apply R; [reflexivity|]. unfold PS5VK_MARKER_POLLS. lia.
Defined.

Lemma wait_range_releases_witness : exists r t' s', @wait_range (steady_gpu 2) spin_fuel 8200 8 0 example_queue = Some (r, t', s') /\
  (r = WAIT_SUCCESS -> (8192, 64) ∈ ms_evicted s').
Proof.
  destruct (@wait_range_releases (steady_gpu 2) _ 2 (steady_laws 2 ltac:(lia)) 0 8200 8 0 example_queue) as (r & t' & s' & Q & R); [apply example_ok|simpl; lia|reflexivity|].
  exists r, t', s'. split; [exact Q|]. intros Rs. destruct (R Rs) as [_ H]. apply (proj1 (H (RetireRange 2 8192 64)
    ltac:(unfold example_queue, example_ranges; cbn [ms_retire]; right; left) ltac:(split; reflexivity))).
Defined.

Lemma step_ranges_evicted_at_idle_witness : exists s1, @run_step (steady_gpu 3) spin_fuel example_calls example_targets false 0 example_queue = Some (WAIT_SUCCESS, 0%nat, s1) /\
  ms_evicted s1 = [(4096, 256)].
Proof.
  destruct (@step_ranges_evicted_at_idle (steady_gpu 3) _ 2 (steady_laws 3 ltac:(lia)) 0 example_calls example_targets 0 example_queue) as (_ & _ & s1 & Q & _ & Ev & _).
  - repeat split.
  - apply example_ok.
  - unfold kWindow. lia.
  - simpl. lia.
  - reflexivity.
  - exists s1. split; [exact Q|]. rewrite Ev. reflexivity.
Defined.


(** A target recorded without being asked for hides a later one of the same
    range.  A command buffer that copies a query pool's results and then samples
    into the pool has the pool as a target twice, first not to be flushed, then
    to be; the second is taken for flushed already.  After such a step, which is
    not waited for, nothing is kept for the pool, so a reader of the results does
    not wait for the step that writes them. *)
Theorem skipped_target_hides_writer `{G : Gpu} fuel t address bytes :
  let copy_target := FlushTarget false false address bytes in
  let sample_target := FlushTarget true false address bytes in
  let after targets := run_step fuel example_calls targets false t marker_init in
  (exists s, after [copy_target; sample_target] = Some (WAIT_SUCCESS, t, s) /\ ms_submitted s = 1 /\ ms_evicted s = [] /\
     wait_range fuel address bytes t s = Some (WAIT_SUCCESS, t, s)) /\
  (exists s, after [sample_target; copy_target] = Some (WAIT_SUCCESS, t, s) /\ ms_retire s = [RetireRange 1 address bytes] /\ ms_evicted s = [(address, bytes)]).
Proof.
  assert (E : forall a n, already_flushed [FlushTarget a n address bytes] (FlushTarget true false address bytes) = true) by (intros a n; unfold already_flushed; cbn; now rewrite !Z.eqb_refl).
  split; eexists; (split; [reflexivity|]); unfold defer_targets, flush_targets; cbn [ms_submitted ms_evicted ms_retire flushed_ranges ft_always ft_host_mapped negb andb app rev map].
  - rewrite E. split; [reflexivity|]. split; [reflexivity|]. reflexivity.
  - split; reflexivity.
Qed.
