(* ===== verification/QueueStreams.v ===== *)
(** * Streams of the queue ([src/driver/ps5vk_queue.c])

    A submission's words are built in the submission buffer behind the streams
    that may still be running: the wait packets of the images it renders into,
    the words of its command buffers with the fence values of their GPU barriers,
    and the offsets its CPU copies fall at.  Offsets count 32-bit words. *)

From Stdlib Require Import ZArith Lia.
From stdpp Require Import base numbers list.
From S2P Require Import Prelude DriverPrelude Queries QueueMarkers.
Open Scope Z_scope.

(** ** Packets *)

Definition PS5VK_STREAM_END_WORDS : Z := 16.
Definition PS5VK_TIMESTAMP_EVENT_WORDS : Z := 8.
Definition PS5VK_GPU_BARRIER_WORDS : Z := 17.
Definition PS5VK_GPU_BARRIER_VALUE_WORD : Z := 5.
Definition PS5VK_GPU_BARRIER_REF_WORD : Z := 12.
Definition PS5VK_MARKER_WAIT_WORDS : Z := 9.
Definition PS5VK_SWAPCHAIN_IMAGES : Z := 5.
Definition PS5VK_GPU_BARRIER_EVENT : Z := 20.
Definition PS5VK_GPU_BARRIER_CACHE_ACTIONS : Z := 12.
Definition PS5VK_WAIT_MEM_EQUAL_PFP : Z := 0x06000113.

Definition PS5VK_PKT3 (opcode count : Z) : Z := Z.lor (Z.lor 0xc0000000 (u32 (Z.shiftl count 16))) (u32 (Z.shiftl opcode 8)).

(** [ps5vk_marker_wait_words] *)
Definition marker_wait_words (address value : Z) : list Z :=
  [PS5VK_PKT3 0x93 7; PS5VK_WAIT_MEM_EQUAL_PFP; low_word address; high_word address; value; 0; UINT32_MAX; 0; 0x40].

(** [ps5vk_gpu_barrier_words] *)
Definition gpu_barrier_words (fence_address value : Z) : list Z :=
  [PS5VK_PKT3 0x49 6;
   Z.lor (Z.lor (Z.shiftl PS5VK_GPU_BARRIER_CACHE_ACTIONS 12) (Z.shiftl 5 8)) PS5VK_GPU_BARRIER_EVENT;
   0x20000000; low_word fence_address; high_word fence_address; value; 0; 0] ++ marker_wait_words fence_address value.

(** ** Command buffers and the queue *)

(** A target's place on the display: [video] is negative for an image of the application. *)
Record render_target := RenderTarget { rt_video : Z; rt_buffer_index : Z }.

(** What submission reads of a command buffer; the copies are of a type of their own. *)
Record recorded (C : Type) := Recorded {
  rec_words : list Z;
  rec_copies : list (Z * C);
  rec_fence_patches : list Z;
  rec_samples_early : bool;
  rec_targets : list render_target
}.
Arguments Recorded {C}.
Arguments rec_words {C}.
Arguments rec_copies {C}.
Arguments rec_fence_patches {C}.
Arguments rec_samples_early {C}.
Arguments rec_targets {C}.

(** The queue's addresses: the stamps while profiling, the fence, the marker. *)
Record queue_memory := QueueMemory { qm_stamps : option Z; qm_fence : option Z; qm_marker : Z }.

(** The AGC wait packet of a swapchain image: its size, and its words unless
    the helper refuses to write them. *)
Class WaitPackets := { wait_packet_words : Z; wait_packet : Z -> Z -> option (list Z) }.

Inductive build_error := OUT_OF_DEVICE_MEMORY | PACKETS_LOST.

(** [ps5vk_queue_end_words] *)
Definition queue_end_words (q : queue_memory) : Z :=
  PS5VK_STREAM_END_WORDS + match qm_stamps q with Some _ => PS5VK_TIMESTAMP_EVENT_WORDS | None => 0 end.

Definition stamp_words (q : queue_memory) (slot : Z) : list Z :=
  match qm_stamps q with Some address => timestamp_packet (address + 8 * slot) | None => [] end.

Definition PS5VK_STAMP_START : Z := 0.
Definition PS5VK_STAMP_WAITED : Z := 1.

Definition words_of (l : list Z) : Z := Z.of_nat (length l).

(** [ALIGN_POT((size_t)queue->ring_head, 16)] *)
Definition ring_align (ring_head : Z) : Z := align_up_mask ring_head 16.

(** [ps5vk_queue_stream_base] *)
Definition stream_base `{G : Gpu} (fuel : nat) (capacity footprint ring_head : Z) (t : nat) (s : marker_state) :
    option (wait_result * Z * nat * marker_state) :=
  let submitted := ms_submitted s in
  let s' := poll (marker_seen t) s in
  if marker_reached (ms_completed s') submitted then Some (WAIT_SUCCESS, 0, S t, s')
  else
    let base := ring_align ring_head in
    if (base <=? capacity) && (footprint <=? u64 (capacity - base)) then Some (WAIT_SUCCESS, base, S t, s')
    else match wait_idle fuel (S t) s' with
         | None => None
         | Some (r, t', s'') => Some (r, 0, t', s'')
         end.

Section Building.
Context {C : Type} `{W : WaitPackets} (q : queue_memory).

(** The most words a submission and its end packets take. *)
Definition footprint (buffers : list (recorded C)) : Z :=
  queue_end_words q + 2 * PS5VK_TIMESTAMP_EVENT_WORDS + PS5VK_SWAPCHAIN_IMAGES * wait_packet_words + PS5VK_MARKER_WAIT_WORDS +
  total (fun b => words_of (rec_words b) + PS5VK_GPU_BARRIER_WORDS) buffers.

(** [n > capacity - end_words - words], in [size_t]. *)
Definition no_room (n capacity words : Z) : bool := u64 (capacity - queue_end_words q - words) <? n.

(** The wait packets of the images a submission renders into, one per image. *)
Fixpoint place_waits (capacity : Z) (targets : list render_target) (waited : Z) (stream : list Z) : build_error + list Z :=
  match targets with
  | [] => inr stream
  | target :: rest =>
      if (rt_video target <? 0) || negb (Z.land waited (u32 (Z.shiftl 1 (rt_buffer_index target))) =? 0) then place_waits capacity rest waited stream
      else if no_room wait_packet_words capacity (words_of stream) then inl OUT_OF_DEVICE_MEMORY
      else match wait_packet (rt_video target) (rt_buffer_index target) with
           | Some packet =>
               if words_of packet =? wait_packet_words
               then place_waits capacity rest (Z.lor waited (u32 (Z.shiftl 1 (rt_buffer_index target)))) (stream ++ packet)
               else inl PACKETS_LOST
           | None => inl PACKETS_LOST
           end
  end.

(** The fence values of a command buffer's barriers, of its words at [base]. *)
Fixpoint patch_fences (base : nat) (patches : list Z) (fence : Z) (stream : list Z) : Z * list Z :=
  match patches with
  | [] => (fence, stream)
  | patch :: rest =>
      let value := next_value fence in
      patch_fences base rest value
        (<[(base + Z.to_nat (patch + PS5VK_GPU_BARRIER_REF_WORD))%nat := value]>
          (<[(base + Z.to_nat (patch + PS5VK_GPU_BARRIER_VALUE_WORD))%nat := value]> stream))
  end.

(** The words, the copies with the offsets they fall at, and the last fence value. *)
Record built := Built { bu_stream : list Z; bu_splits : list (Z * C); bu_fence : Z }.

(** A command buffer's copies at their offsets. *)
Definition splits_of (words : Z) (b : recorded C) : list (Z * C) :=
  map (fun '(after, copy) => (u32 (u32 words + Z.min after (u32 (words_of (rec_words b)))), copy)) (rec_copies b).

(** One command buffer's words, and the barrier before the next when that one
    reads early what this one rendered. *)
Definition place_buffer (b : recorded C) (next : option (recorded C)) (s : built) : built :=
  let words := words_of (bu_stream s) in
  let '(fence, stream) := patch_fences (length (bu_stream s)) (rec_fence_patches b) (bu_fence s) (bu_stream s ++ rec_words b) in
  let splits := bu_splits s ++ splits_of words b in
  match next, qm_fence q with
  | Some n, Some address =>
      if rec_samples_early n && negb (length (rec_targets b) =? 0)%nat
      then Built (stream ++ gpu_barrier_words address (next_value fence)) splits (next_value fence)
      else Built stream splits fence
  | _, _ => Built stream splits fence
  end.

Fixpoint place_buffers (capacity : Z) (buffers : list (recorded C)) (s : built) : build_error + built :=
  match buffers with
  | [] => inr s
  | b :: rest =>
      if no_room (words_of (rec_words b)) capacity (words_of (bu_stream s)) then inl OUT_OF_DEVICE_MEMORY
      else place_buffers capacity rest (place_buffer b (head rest) s)
  end.

(** The stream of [ps5vk_queue_run], up to the steps: [previous] is the marker
    value the GPU waits for when the step before may still be running. *)
Definition build_stream (capacity : Z) (previous : option Z) (buffers : list (recorded C)) (fence : Z) : build_error + built :=
  let start := stamp_words q PS5VK_STAMP_START ++
    match previous with Some value => marker_wait_words (qm_marker q) value | None => [] end in
  match place_waits capacity (concat (map rec_targets buffers)) 0 start with
  | inl e => inl e
  | inr stream => place_buffers capacity buffers (Built (stream ++ stamp_words q PS5VK_STAMP_WAITED) [] fence)
  end.

End Building.
Arguments Built {C}.
Arguments bu_stream {C}.
Arguments bu_splits {C}.
Arguments bu_fence {C}.
Arguments built : clear implicits.

(** [queue->ring_head] after a submission at [base]. *)
Definition next_ring_head (q : queue_memory) (base : Z) (stream : list Z) : Z := u32 (base + words_of stream + queue_end_words q).

(** [ps5vk_queue_run] up to the steps: where the stream starts and what it
    holds.  The queue is looked at once more for the step before. *)
Definition run_stream {C} `{G : Gpu} `{W : WaitPackets} (q : queue_memory) (fuel : nat) (usable_capacity ring_head fence : Z)
    (buffers : list (recorded C)) (t : nat) (s : marker_state) : option (wait_result * Z * (build_error + built C) * nat * marker_state) :=
  match stream_base fuel usable_capacity (footprint q buffers) ring_head t s with
  | None => None
  | Some (WAIT_SUCCESS, base, t1, s1) =>
      let capacity := usable_capacity - base in
      let previous := ms_submitted s1 in
      if negb (previous =? 0) then
        let s2 := poll (marker_seen t1) s1 in
        Some (WAIT_SUCCESS, base,
              build_stream q capacity (if marker_reached (ms_completed s2) previous then None else Some previous) buffers fence, S t1, s2)
      else Some (WAIT_SUCCESS, base, build_stream q capacity None buffers fence, t1, s1)
  | Some (r, base, t1, s1) => Some (r, base, inr (Built [] [] fence), t1, s1)
  end.

(** ** Room *)

Lemma words_of_app l l' : words_of (l ++ l') = words_of l + words_of l'.
Proof. unfold words_of. rewrite length_app. lia. Qed.

Lemma words_of_nonneg l : 0 <= words_of l.
Proof. unfold words_of. lia. Qed.

(** The images a mask of waits names. *)
Definition waits_in (waited : Z) : Z := total (fun i => Z.b2z (Z.testbit waited i)) [0; 1; 2; 3; 4].

Lemma shift_1 i : 0 <= i < 5 -> u32 (Z.shiftl 1 i) = 2 ^ i.
Proof. intros I. rewrite Z.shiftl_1_l. apply u32_small. assert (2 ^ i <= 2 ^ 4) by (apply Z.pow_le_mono_r; lia). pose proof (Z.pow_pos_nonneg 2 i). lia. Qed.

Lemma waited_bit waited i : 0 <= i < 5 -> (Z.land waited (u32 (Z.shiftl 1 i)) =? 0) = negb (Z.testbit waited i).
Proof.
  intros I. rewrite shift_1 by done. destruct (Z.testbit waited i) eqn:B; cbn [negb].
  - apply Z.eqb_neq. intros E. assert (T : Z.testbit (Z.land waited (2 ^ i)) i = true) by (rewrite Z.land_spec, B, Z.pow2_bits_true by lia; done). rewrite E, Z.bits_0 in T. discriminate.
  - apply Z.eqb_eq. apply Z.bits_inj'. intros n N. rewrite Z.land_spec, Z.bits_0. destruct (decide (n = i)) as [->|D]; [now rewrite B|]. rewrite Z.pow2_bits_false by lia. apply andb_false_r.
Qed.

Lemma waits_in_or waited i : 0 <= i < 5 -> Z.testbit waited i = false -> waits_in (Z.lor waited (u32 (Z.shiftl 1 i))) = waits_in waited + 1.
Proof.
  intros I B. rewrite shift_1 by done. unfold waits_in. cbn [total foldr]. rewrite !Z.lor_spec.
  assert (i = 0 \/ i = 1 \/ i = 2 \/ i = 3 \/ i = 4) as [->|[->|[->|[->| ->]]]] by lia; rewrite B;
    rewrite !Z.pow2_bits_true by lia; rewrite !Z.pow2_bits_false by lia; rewrite ?orb_false_r, ?orb_true_r; cbn [Z.b2z]; lia.
Qed.

Lemma waits_in_max waited : waits_in waited <= PS5VK_SWAPCHAIN_IMAGES.
Proof. unfold waits_in, PS5VK_SWAPCHAIN_IMAGES. cbn [total foldr]. repeat destruct (Z.testbit waited _); cbn [Z.b2z]; lia. Qed.

Section Room.
Context {C : Type} `{W : WaitPackets} (q : queue_memory).

Definition on_display (target : render_target) : Prop := 0 <= rt_video target -> 0 <= rt_buffer_index target < PS5VK_SWAPCHAIN_IMAGES.
Definition packets_exact : Prop := 0 <= wait_packet_words /\ forall v i p, wait_packet v i = Some p -> words_of p = wait_packet_words.

Lemma no_room_false n capacity words : 0 <= n -> words + n + queue_end_words q <= capacity -> 0 <= words -> capacity < 2 ^ 64 -> no_room q n capacity words = false.
Proof.
  intros N R P L. unfold no_room. assert (0 <= queue_end_words q) by (unfold queue_end_words, PS5VK_STREAM_END_WORDS, PS5VK_TIMESTAMP_EVENT_WORDS; destruct (qm_stamps q); lia).
  rewrite u64_small by lia. apply Z.ltb_ge. lia.
Qed.

(** The wait packets fit when there is room for one per image. *)
Lemma place_waits_room capacity targets waited stream : packets_exact -> Forall on_display targets -> capacity < 2 ^ 64 ->
  words_of stream + (PS5VK_SWAPCHAIN_IMAGES - waits_in waited) * wait_packet_words + queue_end_words q <= capacity ->
  match place_waits q capacity targets waited stream with
  | inl e => e = PACKETS_LOST
  | inr out => words_of out <= words_of stream + (PS5VK_SWAPCHAIN_IMAGES - waits_in waited) * wait_packet_words
  end.
Proof.
  intros [Wp Px] F L. revert waited stream. induction F as [|target rest D F IH]; intros waited stream R; cbn [place_waits].
  { pose proof (waits_in_max waited). nia. }
  destruct (rt_video target <? 0) eqn:V; cbn [orb]; [now apply IH|]. to_prop. unfold on_display, PS5VK_SWAPCHAIN_IMAGES in D. specialize (D V).
  rewrite waited_bit, negb_involutive by done. destruct (Z.testbit waited (rt_buffer_index target)) eqn:B; [now apply IH|].
  pose proof (waits_in_or waited _ D B) as O. pose proof (waits_in_max (Z.lor waited (u32 (Z.shiftl 1 (rt_buffer_index target))))) as M.
  pose proof (words_of_nonneg stream). rewrite no_room_false by nia. destruct (wait_packet _ _) as [packet|] eqn:P; [|done].
  destruct (words_of packet =? wait_packet_words) eqn:E; [|done]. to_prop. specialize (IH (Z.lor waited (u32 (Z.shiftl 1 (rt_buffer_index target)))) (stream ++ packet)).
  rewrite words_of_app, E, O in IH. destruct (place_waits _ _ _ _ _); [apply IH; lia|]. specialize (IH ltac:(lia)). lia.
Qed.

Lemma patch_fences_length base patches fence stream : length (snd (patch_fences base patches fence stream)) = length stream.
Proof. revert fence stream. induction patches as [|p patches IH]; intros fence stream; cbn [patch_fences snd]; [done|]. rewrite IH, !length_insert. done. Qed.

Lemma place_buffer_words (b : recorded C) next s :
  words_of (bu_stream s) + words_of (rec_words b) <= words_of (bu_stream (place_buffer q b next s)) <= words_of (bu_stream s) + words_of (rec_words b) + PS5VK_GPU_BARRIER_WORDS.
Proof.
  unfold place_buffer. pose proof (patch_fences_length (length (bu_stream s)) (rec_fence_patches b) (bu_fence s) (bu_stream s ++ rec_words b)) as Lp.
  destruct (patch_fences _ _ _ _) as [fence stream]. cbn [snd] in Lp. rewrite length_app in Lp.
  assert (E : words_of stream = words_of (bu_stream s) + words_of (rec_words b)) by (unfold words_of; lia).
  destruct next as [n|], (qm_fence q) as [address|]; cbn [bu_stream]; try (unfold PS5VK_GPU_BARRIER_WORDS; lia).
  destruct (_ && _); cbn [bu_stream]; [|unfold PS5VK_GPU_BARRIER_WORDS; lia]. rewrite words_of_app. unfold PS5VK_GPU_BARRIER_WORDS. change (words_of (gpu_barrier_words _ _)) with 17. lia.
Qed.

Lemma place_buffers_room capacity (buffers : list (recorded C)) s : capacity < 2 ^ 64 ->
  words_of (bu_stream s) + total (fun b => words_of (rec_words b) + PS5VK_GPU_BARRIER_WORDS) buffers + queue_end_words q <= capacity ->
  exists b, place_buffers q capacity buffers s = inr b /\
    words_of (bu_stream b) <= words_of (bu_stream s) + total (fun b => words_of (rec_words b) + PS5VK_GPU_BARRIER_WORDS) buffers.
Proof.
  intros L. revert s. induction buffers as [|b rest IH]; intros s R; cbn [place_buffers total foldr] in *.
  { exists s. split; [done|]. simpl. lia. }
  fold (total (fun b : recorded C => words_of (rec_words b) + PS5VK_GPU_BARRIER_WORDS) rest) in *.
  pose proof (total_ge_0 (fun b : recorded C => words_of (rec_words b) + PS5VK_GPU_BARRIER_WORDS) rest) as T.
  assert (0 <= total (fun b : recorded C => words_of (rec_words b) + PS5VK_GPU_BARRIER_WORDS) rest).
  { apply T, Forall_forall. intros x _. pose proof (words_of_nonneg (rec_words x)). unfold PS5VK_GPU_BARRIER_WORDS. lia. }
  pose proof (words_of_nonneg (bu_stream s)). pose proof (words_of_nonneg (rec_words b)). pose proof (place_buffer_words b (head rest) s) as B.
  rewrite no_room_false by (unfold PS5VK_GPU_BARRIER_WORDS in *; lia). destruct (IH (place_buffer q b (head rest) s)) as (o & -> & O); [lia|]. exists o. split; [done|]. lia.
Qed.

(** With room for the footprint, the stream is built in it. *)
Lemma build_room capacity previous (buffers : list (recorded C)) fence : packets_exact -> Forall (fun b => Forall on_display (rec_targets b)) buffers -> capacity < 2 ^ 64 ->
  footprint q buffers <= capacity ->
  match build_stream q capacity previous buffers fence with
  | inl e => e = PACKETS_LOST
  | inr b => words_of (bu_stream b) + queue_end_words q <= footprint q buffers
  end.
Proof.
  intros Px F L R. unfold build_stream, footprint in *. set (start := stamp_words q PS5VK_STAMP_START ++ _).
  assert (Ss : forall slot, 0 <= words_of (stamp_words q slot) <= PS5VK_TIMESTAMP_EVENT_WORDS) by (intros slot; unfold stamp_words; destruct (qm_stamps q); unfold words_of, PS5VK_TIMESTAMP_EVENT_WORDS; simpl; lia).
  assert (S : words_of start <= PS5VK_TIMESTAMP_EVENT_WORDS + PS5VK_MARKER_WAIT_WORDS).
  { subst start. rewrite words_of_app. pose proof (Ss PS5VK_STAMP_START). destruct previous; [change (words_of (marker_wait_words _ _)) with 9|change (words_of []) with 0]; unfold PS5VK_MARKER_WAIT_WORDS; lia. }
  assert (T : 0 <= total (fun b : recorded C => words_of (rec_words b) + PS5VK_GPU_BARRIER_WORDS) buffers).
  { apply total_ge_0, Forall_forall. intros x _. pose proof (words_of_nonneg (rec_words x)). unfold PS5VK_GPU_BARRIER_WORDS. lia. }
  pose proof (place_waits_room capacity (concat (map rec_targets buffers)) 0 start Px) as Pw. change (waits_in 0) with 0 in Pw. unfold PS5VK_TIMESTAMP_EVENT_WORDS in *.
  destruct (place_waits _ _ _ _ _) as [e|out]; [apply Pw; [|done|lia]|specialize (Pw ltac:(apply Forall_concat, Forall_map; exact F) L ltac:(lia))].
  { apply Forall_concat, Forall_map. exact F. }
  pose proof (Ss PS5VK_STAMP_WAITED). destruct (place_buffers_room capacity buffers (Built (out ++ stamp_words q PS5VK_STAMP_WAITED) [] fence) L) as (b & -> & B);
    cbn [bu_stream] in *; rewrite words_of_app in *; lia.
Qed.

End Room.

(** ** Streams in flight *)

(** A stream's last step and the words it takes, end packets included. *)
Record flight := Flight { fl_step : Z; fl_low : Z; fl_high : Z }.

Definition clear_of (f g : flight) : Prop := fl_high f <= fl_low g \/ fl_high g <= fl_low f.

(** The streams the GPU may still read, those after step [comp], lie below the
    ring's head and apart from each other. *)
Record streams_ok (comp ring_head : Z) (flights : list flight) : Prop := {
  so_below : Forall (fun f => comp < fl_step f -> 0 <= fl_low f <= fl_high f /\ fl_high f <= ring_head) flights;
  so_apart : forall i j f g, flights !! i = Some f -> flights !! j = Some g -> i <> j -> comp < fl_step f -> comp < fl_step g -> clear_of f g
}.

Lemma streams_ok_later comp comp' ring_head flights : comp <= comp' -> streams_ok comp ring_head flights -> streams_ok comp' ring_head flights.
Proof.
  intros L [B A]. constructor.
  - eapply Forall_impl; [exact B|]. cbv beta. intros f H S. apply H. lia.
  - intros i j f g Fi Fj N Sf Sg. apply (A i j); auto; lia.
Qed.

(** A stream at or past the end of those in flight. *)
Lemma streams_ok_add comp ring_head flights step base high : streams_ok comp ring_head flights -> 0 <= base <= high ->
  Forall (fun f => comp < fl_step f -> fl_high f <= base) flights -> streams_ok comp high (Flight step base high :: flights).
Proof.
  intros [B A] R F. constructor.
  - constructor; [simpl; lia|]. rewrite Forall_forall in *. intros f I S. specialize (B f I S). specialize (F f I S). lia.
  - rewrite Forall_forall in F. intros [|i] [|j] f g Fi Fj N Sf Sg; simpl in *; try done.
    + injection Fi as <-. right. simpl. apply (F g); [by eapply list_elem_of_lookup_2|done].
    + injection Fj as <-. left. simpl. apply (F f); [by eapply list_elem_of_lookup_2|done].
    + apply (A i j); auto.
Qed.

Lemma ring_align_spec ring_head : 0 <= ring_head < 2 ^ 32 -> ring_head <= ring_align ring_head < ring_head + 16 /\ ring_align ring_head mod 16 = 0.
Proof. intros R. apply (align_up_mask_bounds ring_head 4); lia. Qed.

Section Base.
Context `{G : Gpu} (gpu : nat -> Z) (sub : Z) {GL : GpuLaws G gpu sub}.

(** Where a stream may start: past what the GPU may still read. *)
Lemma stream_base_spec comp capacity foot ring_head flights t s :
  markers_ok sub comp s -> comp <= gpu t -> profile_now (S t) + PS5VK_MARKER_SPIN_NS < 2 ^ 64 ->
  streams_ok comp ring_head flights -> Forall (fun f => fl_step f <= sub) flights -> 0 <= ring_head < 2 ^ 32 -> 0 <= foot -> 0 <= capacity < 2 ^ 32 ->
  exists r base t' s', stream_base spin_fuel capacity foot ring_head t s = Some (r, base, S t', s') /\ (t <= t')%nat /\ markers_ok sub (gpu t') s' /\
    (r = WAIT_SUCCESS -> 0 <= base /\ base mod 16 = 0 /\ (base = 0 \/ base + foot <= capacity) /\ Forall (fun f => gpu t' < fl_step f -> fl_high f <= base) flights).
Proof.
  intros O Cg Cl So St Rh Ft Cp. unfold stream_base. destruct (look gpu sub t s) as [O1 E1]; [exists comp; auto|]. pose proof (mo_steps _ _ _ O) as [C W]. pose proof (gpu_bounded t).
  rewrite (mo_submitted _ _ _ O), (reached_step gpu sub t _ sub O1) by (unfold kWindow; lia). destruct (sub <=? gpu t) eqn:X; to_prop.
  { exists WAIT_SUCCESS, 0, t, (poll (marker_seen t) s). split_and!; auto. intros _. split_and!; [lia|done|auto|]. eapply Forall_impl; [exact St|]. cbv beta. lia. }
  pose proof (ring_align_spec ring_head Rh) as [A M]. destruct ((ring_align ring_head <=? capacity) && (foot <=? u64 (capacity - ring_align ring_head))) eqn:Y.
  - apply andb_true_iff in Y as [Y1 Y2]. to_prop. rewrite u64_small in Y2 by lia. exists WAIT_SUCCESS, (ring_align ring_head), t, (poll (marker_seen t) s). split_and!; auto.
    intros _. split_and!; [lia|done|right; lia|]. destruct So as [B _]. eapply Forall_impl; [exact B|]. cbv beta. intros f Hf Sf. specialize (Hf ltac:(lia)). lia.
  - unfold wait_idle. rewrite (mo_submitted _ _ _ O1).
    destruct (wait_spec gpu sub sub UINT64_MAX (S t) (poll (marker_seen t) s)) as (r & t' & s' & Q & T & O' & E & Sr & _ & _); [now apply looked_next|unfold recent, kWindow; lia|done|].
    rewrite Q. exists r, 0, t', s'. split_and!; auto; [lia|]. intros Rs. apply Sr in Rs. split_and!; [lia|done|auto|]. eapply Forall_impl; [exact St|]. cbv beta. lia.
Qed.

End Base.

(** ** Layout *)

(** [ps5vk_cmd_buffer_gpu_barrier], when the queue has a fence: the words with no
    value yet, and where they are. *)
Definition record_gpu_barrier {C} (fence_address : Z) (b : recorded C) : recorded C :=
  Recorded (rec_words b ++ gpu_barrier_words fence_address 0) (rec_copies b) (rec_fence_patches b ++ [words_of (rec_words b)])
    (rec_samples_early b) (rec_targets b).

(** The barriers of a command buffer, apart and within its words. *)
Definition patches_ok {C} (b : recorded C) : Prop :=
  Forall (fun p => 0 <= p /\ p + PS5VK_GPU_BARRIER_WORDS <= words_of (rec_words b)) (rec_fence_patches b) /\
  forall i j p p', rec_fence_patches b !! i = Some p -> rec_fence_patches b !! j = Some p' -> (i < j)%nat -> p + PS5VK_GPU_BARRIER_WORDS <= p'.

Definition is_fence_word {C} (b : recorded C) (k : nat) : Prop :=
  exists p, p ∈ rec_fence_patches b /\ (Z.of_nat k = p + PS5VK_GPU_BARRIER_VALUE_WORD \/ Z.of_nat k = p + PS5VK_GPU_BARRIER_REF_WORD).

Lemma record_gpu_barrier_ok {C} (b : recorded C) a : patches_ok b -> patches_ok (record_gpu_barrier a b).
Proof.
  intros [F S]. unfold patches_ok, record_gpu_barrier. cbn [rec_words rec_fence_patches]. rewrite words_of_app.
  assert (E : words_of (gpu_barrier_words a 0) = PS5VK_GPU_BARRIER_WORDS) by reflexivity. pose proof (words_of_nonneg (rec_words b)). split.
  - apply Forall_app. split; [|apply Forall_singleton; lia]. eapply Forall_impl; [exact F|]. cbv beta. unfold PS5VK_GPU_BARRIER_WORDS in *. lia.
  - intros i j p p' I J L. apply lookup_app_Some in J as [J|[J1 J2]].
    + rewrite lookup_app_l in I by (apply lookup_lt_Some in J; lia). now apply (S i j).
    + apply list_lookup_singleton_Some in J2 as [J2 <-]. rewrite lookup_app_l in I by lia. rewrite Forall_forall in F. apply F. now apply list_elem_of_lookup_2 in I.
Qed.

Lemma patch_fences_before base patches fence stream k : Forall (fun p => 0 <= p) patches -> (k < base)%nat -> snd (patch_fences base patches fence stream) !! k = stream !! k.
Proof.
  revert fence stream. induction patches as [|p patches IH]; intros fence stream F K; cbn [patch_fences]; [done|]. inversion F; subst.
  rewrite IH by done. rewrite !list_lookup_insert_ne by lia. done.
Qed.

Lemma patch_fences_value base patches fence stream : fst (patch_fences base patches fence stream) = Nat.iter (length patches) next_value fence.
Proof.
  revert fence stream. induction patches as [|p patches IH]; intros fence stream; cbn [patch_fences length]; [done|]. rewrite IH. symmetry. apply Nat.iter_succ_r.
Qed.

Lemma patch_fences_other base patches fence stream k : Forall (fun p => 0 <= p) patches ->
  (forall p, p ∈ patches -> Z.of_nat k <> p + PS5VK_GPU_BARRIER_VALUE_WORD /\ Z.of_nat k <> p + PS5VK_GPU_BARRIER_REF_WORD) ->
  snd (patch_fences base patches fence stream) !! (base + k)%nat = stream !! (base + k)%nat.
Proof.
  revert fence stream. induction patches as [|p patches IH]; intros fence stream F N; cbn [patch_fences]; [done|]. inversion F; subst.
  destruct (N p ltac:(left)). rewrite IH by (try done; intros p' I; apply N; now right).
  rewrite !list_lookup_insert_ne by (unfold PS5VK_GPU_BARRIER_REF_WORD, PS5VK_GPU_BARRIER_VALUE_WORD in *; lia). done.
Qed.

(** The [i]-th barrier's two words hold the [i]-th value after the fence's. *)
Lemma patch_fences_at base patches fence stream i p : Forall (fun p => 0 <= p /\ (base + Z.to_nat (p + PS5VK_GPU_BARRIER_WORDS) <= length stream)%nat) patches ->
  (forall i j p p', patches !! i = Some p -> patches !! j = Some p' -> (i < j)%nat -> p + PS5VK_GPU_BARRIER_WORDS <= p') -> patches !! i = Some p ->
  let out := snd (patch_fences base patches fence stream) in
  out !! (base + Z.to_nat (p + PS5VK_GPU_BARRIER_VALUE_WORD))%nat = Some (Nat.iter (S i) next_value fence) /\
  out !! (base + Z.to_nat (p + PS5VK_GPU_BARRIER_REF_WORD))%nat = Some (Nat.iter (S i) next_value fence).
Proof.
  revert fence stream i. induction patches as [|p0 patches IH]; intros fence stream i F S I; [done|]. cbn [patch_fences]. inversion F as [|? ? [P0 L0] F']; subst. cbv zeta.
  assert (F0 : Forall (fun p => 0 <= p) patches) by (eapply Forall_impl; [exact F'|]; cbv beta; tauto).
  unfold PS5VK_GPU_BARRIER_WORDS, PS5VK_GPU_BARRIER_REF_WORD, PS5VK_GPU_BARRIER_VALUE_WORD in *. destruct i as [|i].
  - injection I as ->. rewrite !patch_fences_other; auto.
    + rewrite list_lookup_insert_ne by lia. rewrite !list_lookup_insert_eq by (rewrite ?length_insert; lia). done.
    + intros p' I'. apply list_elem_of_lookup_1 in I' as [j J]. specialize (S 0%nat (Datatypes.S j) p p' eq_refl J ltac:(lia)).
      unfold PS5VK_GPU_BARRIER_REF_WORD, PS5VK_GPU_BARRIER_VALUE_WORD. lia.
    + intros p' I'. apply list_elem_of_lookup_1 in I' as [j J]. specialize (S 0%nat (Datatypes.S j) p p' eq_refl J ltac:(lia)).
      unfold PS5VK_GPU_BARRIER_REF_WORD, PS5VK_GPU_BARRIER_VALUE_WORD. lia.
  - rewrite Nat.iter_succ_r. apply IH; [|intros j k; apply (S (Datatypes.S j) (Datatypes.S k)) || (intros; eapply (S (Datatypes.S j) (Datatypes.S k)); eauto; lia)|done].
    rewrite !length_insert. done.
Qed.

Section Layout.
Context {C : Type} (q : queue_memory).

Definition barrier_between (b : recorded C) (next : option (recorded C)) : option Z :=
  match next, qm_fence q with
  | Some n, Some address => if rec_samples_early n && negb (length (rec_targets b) =? 0)%nat then Some address else None
  | _, _ => None
  end.

(** A command buffer's words from [at] on, as its barriers are given their values. *)
Definition words_at (at' : nat) (fence : Z) (b : recorded C) (stream : list Z) : Prop :=
  (forall k w, rec_words b !! k = Some w -> ~ is_fence_word b k -> stream !! (at' + k)%nat = Some w) /\
  (forall i p, rec_fence_patches b !! i = Some p ->
     stream !! (at' + Z.to_nat (p + PS5VK_GPU_BARRIER_VALUE_WORD))%nat = Some (Nat.iter (S i) next_value fence) /\
     stream !! (at' + Z.to_nat (p + PS5VK_GPU_BARRIER_REF_WORD))%nat = Some (Nat.iter (S i) next_value fence)).

(** The command buffers' words follow each other, a barrier between two that
    need one, and their copies fall where they were recorded. *)
Fixpoint laid_out (at' : nat) (fence : Z) (buffers : list (recorded C)) (stream : list Z) (splits : list (Z * C)) (last : Z) : Prop :=
  match buffers with
  | [] => length stream = at' /\ splits = [] /\ last = fence
  | b :: rest =>
      words_at at' fence b stream /\
      exists more, splits = splits_of (Z.of_nat at') b ++ more /\
      let after := (at' + length (rec_words b))%nat in
      let fence' := Nat.iter (length (rec_fence_patches b)) next_value fence in
      match barrier_between b (head rest) with
      | Some address => take 17 (drop after stream) = gpu_barrier_words address (next_value fence') /\
                        laid_out (after + 17) (next_value fence') rest stream more last
      | None => laid_out after fence' rest stream more last
      end
  end.

Lemma words_at_app at' fence b stream tail : words_at at' fence b stream -> words_at at' fence b (stream ++ tail).
Proof.
  intros [W1 W2]. split.
  - intros k w K N. specialize (W1 k w K N). now apply lookup_app_l_Some.
  - intros i p I. destruct (W2 i p I). split; now apply lookup_app_l_Some.
Qed.

Lemma place_buffer_spec (b : recorded C) next s : patches_ok b ->
  exists ws, length ws = length (rec_words b) /\ words_at (length (bu_stream s)) (bu_fence s) b (bu_stream s ++ ws) /\
  let fence' := Nat.iter (length (rec_fence_patches b)) next_value (bu_fence s) in
  place_buffer q b next s =
    match barrier_between b next with
    | Some address => Built ((bu_stream s ++ ws) ++ gpu_barrier_words address (next_value fence')) (bu_splits s ++ splits_of (words_of (bu_stream s)) b) (next_value fence')
    | None => Built (bu_stream s ++ ws) (bu_splits s ++ splits_of (words_of (bu_stream s)) b) fence'
    end.
Proof.
  intros [Pf Ps]. unfold place_buffer, barrier_between. pose proof (patch_fences_length (length (bu_stream s)) (rec_fence_patches b) (bu_fence s) (bu_stream s ++ rec_words b)) as L.
  pose proof (patch_fences_value (length (bu_stream s)) (rec_fence_patches b) (bu_fence s) (bu_stream s ++ rec_words b)) as Fv.
  assert (F0 : Forall (fun p => 0 <= p) (rec_fence_patches b)) by (eapply Forall_impl; [exact Pf|]; cbv beta; tauto).
  pose proof (fun k => patch_fences_before (length (bu_stream s)) (rec_fence_patches b) (bu_fence s) (bu_stream s ++ rec_words b) k F0) as B.
  pose proof (fun k => patch_fences_other (length (bu_stream s)) (rec_fence_patches b) (bu_fence s) (bu_stream s ++ rec_words b) k F0) as Ot.
  pose proof (fun i p => patch_fences_at (length (bu_stream s)) (rec_fence_patches b) (bu_fence s) (bu_stream s ++ rec_words b) i p) as At.
  destruct (patch_fences _ _ _ _) as [fence stream]. cbn [fst snd] in *. subst fence. rewrite length_app in L.
  assert (E : stream = bu_stream s ++ drop (length (bu_stream s)) stream).
  { rewrite <- (take_drop (length (bu_stream s)) stream) at 1. f_equal. apply list_eq. intros k. destruct (decide (k < length (bu_stream s))%nat) as [K|K].
    - rewrite lookup_take_lt by done. rewrite B by done. rewrite lookup_app_l by done. done.
    - rewrite lookup_take_ge by lia. symmetry. apply lookup_ge_None. lia. }
  exists (drop (length (bu_stream s)) stream). split; [rewrite length_drop; lia|]. rewrite <- E. split.
  - split.
    + intros k w K N. rewrite Ot; [rewrite lookup_app_r by lia; now replace (length (bu_stream s) + k - length (bu_stream s))%nat with k by lia|].
      intros p I. split; intros X; apply N; exists p; auto.
    + intros i p I. apply At; auto. eapply Forall_impl; [exact Pf|]. cbv beta. unfold words_of. intros x [X1 X2]. rewrite length_app. lia.
  - cbv zeta. destruct next as [n|], (qm_fence q) as [address|]; try done. destruct (_ && _); done.
Qed.

Lemma place_buffers_spec capacity (buffers : list (recorded C)) s out : Forall patches_ok buffers -> place_buffers q capacity buffers s = inr out ->
  exists tail more, bu_stream out = bu_stream s ++ tail /\ bu_splits out = bu_splits s ++ more /\
    laid_out (length (bu_stream s)) (bu_fence s) buffers (bu_stream out) more (bu_fence out).
Proof.
  intros F. revert s. induction F as [|b rest Pb F IH]; intros s P; cbn [place_buffers] in P.
  { injection P as <-. exists [], []. rewrite !app_nil_r. done. }
  destruct (no_room _ _ _ _); [discriminate|]. destruct (place_buffer_spec b (head rest) s Pb) as (ws & L & Wa & E). cbv zeta in E. destruct (IH _ P) as (tail & more & Es & Ep & Lo). clear IH P.
  rewrite E in Es, Ep, Lo. clear E. cbn [laid_out]. destruct (barrier_between b (head rest)) as [address|] eqn:Bt; cbn [bu_stream bu_splits bu_fence] in *.
  - exists (ws ++ gpu_barrier_words address (next_value (Nat.iter (length (rec_fence_patches b)) next_value (bu_fence s))) ++ tail), (splits_of (words_of (bu_stream s)) b ++ more).
    split; [rewrite Es, <- !app_assoc; done|]. split; [now rewrite Ep, <- app_assoc|]. split; [rewrite Es, <- !app_assoc, app_assoc; now apply words_at_app|].
    exists more. split; [done|]. cbv zeta. rewrite !length_app, L in Lo. split; [|exact Lo].
    rewrite Es, <- app_assoc, drop_app_length' by (rewrite length_app; lia). now rewrite take_app_length' by reflexivity.
  - exists (ws ++ tail), (splits_of (words_of (bu_stream s)) b ++ more). split; [now rewrite Es, <- app_assoc|]. split; [now rewrite Ep, <- app_assoc|].
    split; [rewrite Es; now apply words_at_app|]. exists more. split; [done|]. cbv zeta. rewrite length_app, L in Lo. exact Lo.
Qed.

End Layout.

(** ** Splits *)

Definition ordered {C} (splits : list (Z * C)) : Prop := forall i j x y, splits !! i = Some x -> splits !! j = Some y -> (i < j)%nat -> fst x <= fst y.

(** What a command buffer's recording keeps of its copies: each after the words there are. *)
Definition copies_ok {C} (b : recorded C) : Prop := Forall (fun x => 0 <= fst x) (rec_copies b) /\ ordered (rec_copies b).

Lemma splits_of_lookup {C} at' (b : recorded C) i x : 0 <= at' -> at' + words_of (rec_words b) < 2 ^ 32 -> copies_ok b -> splits_of at' b !! i = Some x ->
  exists after, rec_copies b !! i = Some (after, snd x) /\ fst x = at' + Z.min after (words_of (rec_words b)).
Proof.
  intros A L [F _] H. unfold splits_of in H. change (map ?f) with (fmap (M := list) f) in H. apply list_lookup_fmap_Some in H as ([after c] & -> & Q). exists after. split; [done|]. cbn [fst].
  rewrite Forall_forall in F. pose proof (F (after, c) ltac:(by eapply list_elem_of_lookup_2)) as P. cbn [fst] in P. pose proof (words_of_nonneg (rec_words b)).
  rewrite (u32_small (words_of _)), (u32_small at'), u32_small; lia.
Qed.

Lemma ordered_app {C} (l l' : list (Z * C)) : ordered l -> ordered l' -> (forall x y, x ∈ l -> y ∈ l' -> fst x <= fst y) -> ordered (l ++ l').
Proof.
  intros O O' B i j x y I J L. apply lookup_app_Some in I as [I|[I1 I]]; apply lookup_app_Some in J as [J|[J1 J]].
  - now apply (O i j).
  - apply B; by eapply list_elem_of_lookup_2.
  - apply lookup_lt_Some in J. lia.
  - apply (O' _ _ _ _ I J). lia.
Qed.

(** The splits of a stream lie in it, in the order of the copies. *)
Lemma laid_out_splits {C} (q : queue_memory) (buffers : list (recorded C)) at' fence stream splits last : Forall copies_ok buffers -> words_of stream < 2 ^ 32 ->
  laid_out q at' fence buffers stream splits last ->
  (at' <= length stream)%nat /\ ordered splits /\ Forall (fun x => Z.of_nat at' <= fst x <= words_of stream) splits /\
  map snd splits = concat (map (fun b => map snd (rec_copies b)) buffers).
Proof.
  intros F L. revert at' fence splits. induction F as [|b rest Cb F IH]; intros at' fence splits H; cbn [laid_out] in H.
  { destruct H as (<- & -> & _). split; [lia|]. split; [intros i j x y I; discriminate I|]. split; [constructor|done]. }
  destruct H as (_ & more & -> & H). cbv zeta in H.
  assert (N : exists at2 fence2, (at' + length (rec_words b) <= at2)%nat /\ laid_out q at2 fence2 rest stream more last).
  { destruct (barrier_between q b (head rest)); [destruct H as [_ H]|]; eexists _, _; (split; [|exact H]); lia. }
  destruct N as (at2 & fence2 & A2 & H2). destruct (IH _ _ _ H2) as (A & O & B & M). clear IH H H2. unfold words_of in L.
  assert (K : forall i x, splits_of (Z.of_nat at') b !! i = Some x -> exists after, rec_copies b !! i = Some (after, snd x) /\ fst x = Z.of_nat at' + Z.min after (words_of (rec_words b))).
  { intros i x. apply splits_of_lookup; auto; unfold words_of; lia. }
  assert (R : forall x, x ∈ splits_of (Z.of_nat at') b -> Z.of_nat at' <= fst x <= Z.of_nat at2).
  { intros x X. apply list_elem_of_lookup_1 in X as [i I]. destruct (K i x I) as (after & J & ->). destruct Cb as [Fb _]. rewrite Forall_forall in Fb.
    pose proof (Fb _ ltac:(by eapply list_elem_of_lookup_2)) as P. cbn [fst] in P. unfold words_of. lia. }
  split_and!.
  - lia.
  - apply ordered_app; [|done|].
    + intros i j x y I J Lt. destruct (K i x I) as (a1 & I' & ->), (K j y J) as (a2 & J' & ->). destruct Cb as [_ Ob]. specialize (Ob i j _ _ I' J' Lt). cbn [fst] in Ob. lia.
    + intros x y X Y. specialize (R x X). rewrite Forall_forall in B. specialize (B y Y). lia.
  - apply Forall_app. split.
    + apply Forall_forall. intros x X. specialize (R x X). unfold words_of. lia.
    + eapply Forall_impl; [exact B|]. cbv beta. intros x X. lia.
  - rewrite map_app, M. cbn [map concat]. f_equal. unfold splits_of. rewrite map_map. apply map_ext. now intros [].
Qed.

(** ** Properties *)

Section Claims.
Context {C : Type} `{W : WaitPackets} (q : queue_memory).

(** What a built stream holds. *)
Lemma build_stream_laid_out capacity previous (buffers : list (recorded C)) fence out :
  Forall patches_ok buffers -> Forall copies_ok buffers -> build_stream q capacity previous buffers fence = inr out -> words_of (bu_stream out) < 2 ^ 32 ->
  exists start, laid_out q start fence buffers (bu_stream out) (bu_splits out) (bu_fence out) /\
    ordered (bu_splits out) /\ Forall (fun x => Z.of_nat start <= fst x <= words_of (bu_stream out)) (bu_splits out) /\
    map snd (bu_splits out) = concat (map (fun b => map snd (rec_copies b)) buffers).
Proof.
  intros Pk Ck B L. unfold build_stream in B. destruct (place_waits _ _ _ _ _) as [e|stream]; [discriminate|].
  destruct (place_buffers_spec q _ _ _ _ Pk B) as (tail & more & Es & Ep & Lo). cbn [bu_stream bu_splits bu_fence app] in *. subst more.
  exists (length (stream ++ stamp_words q PS5VK_STAMP_WAITED)). split; [done|]. destruct (laid_out_splits q _ _ _ _ _ _ Ck L Lo) as (_ & O & F & M). done.
Qed.

(** C12: a submission whose footprint the buffer holds is built in its own part
    of it: while the GPU may still read earlier streams, the new one, its end
    packets included, starts on a cache line past all of them and ends within
    the buffer; it is never refused for room; and together with those still
    running it is again a set of streams apart from each other below the ring's
    head, so the next submission can rely on the same. *)
Theorem submission_streams_apart `{G : Gpu} gpu sub {GL : GpuLaws G gpu sub} comp capacity ring_head fence (buffers : list (recorded C)) flights t s :
  packets_exact -> Forall (fun b => Forall on_display (rec_targets b)) buffers -> 0 <= capacity < 2 ^ 32 -> footprint q buffers <= capacity ->
  markers_ok sub comp s -> comp <= gpu t -> profile_now (S t) + PS5VK_MARKER_SPIN_NS < 2 ^ 64 ->
  streams_ok comp ring_head flights -> Forall (fun f => fl_step f <= sub) flights -> 0 <= ring_head < 2 ^ 32 ->
  exists r base b t' s', run_stream q spin_fuel capacity ring_head fence buffers t s = Some (r, base, b, t', s') /\
    (r = WAIT_SUCCESS ->
       match b with
       | inl e => e = PACKETS_LOST
       | inr out =>
           let head' := next_ring_head q base (bu_stream out) in
           base mod 16 = 0 /\ head' = base + words_of (bu_stream out) + queue_end_words q /\ head' <= capacity /\
           exists comp', markers_ok sub comp' s' /\ comp <= comp' /\ streams_ok comp' head' (Flight (sub + 1) base head' :: flights)
       end).
Proof.
  intros Px Dp Cp Fp O Cg Cl So St Rh.
  assert (T : 0 <= footprint q buffers).
  { unfold footprint. assert (0 <= total (fun b : recorded C => words_of (rec_words b) + PS5VK_GPU_BARRIER_WORDS) buffers).
    { apply total_ge_0, Forall_forall. intros x _. pose proof (words_of_nonneg (rec_words x)). unfold PS5VK_GPU_BARRIER_WORDS. lia. }
    destruct Px. unfold queue_end_words, PS5VK_STREAM_END_WORDS, PS5VK_TIMESTAMP_EVENT_WORDS, PS5VK_SWAPCHAIN_IMAGES, PS5VK_MARKER_WAIT_WORDS. destruct (qm_stamps q); lia. }
  destruct (stream_base_spec gpu sub comp capacity (footprint q buffers) ring_head flights t s O Cg Cl So St Rh T Cp) as (r & base & t1 & s1 & E & T1 & O1 & K).
  unfold run_stream. rewrite E.
  assert (Fin : forall p s' comp', r = WAIT_SUCCESS -> markers_ok sub comp' s' -> gpu t1 <= comp' ->
    match build_stream q (capacity - base) p buffers fence with
    | inl e => e = PACKETS_LOST
    | inr out =>
        let head' := next_ring_head q base (bu_stream out) in
        base mod 16 = 0 /\ head' = base + words_of (bu_stream out) + queue_end_words q /\ head' <= capacity /\
        exists comp', markers_ok sub comp' s' /\ comp <= comp' /\ streams_ok comp' head' (Flight (sub + 1) base head' :: flights)
    end).
  { intros p s' comp' R O' Le. destruct (K R) as (B0 & Bm & Bc & Bf).
    pose proof (build_room q (capacity - base) p buffers fence Px Dp ltac:(lia) ltac:(lia)) as Br. destruct (build_stream _ _ _ _ _) as [e|out]; [done|]. cbv zeta.
    pose proof (words_of_nonneg (bu_stream out)). assert (0 <= queue_end_words q) by (unfold queue_end_words, PS5VK_STREAM_END_WORDS, PS5VK_TIMESTAMP_EVENT_WORDS; destruct (qm_stamps q); lia).
    assert (H' : next_ring_head q base (bu_stream out) = base + words_of (bu_stream out) + queue_end_words q) by (unfold next_ring_head; rewrite u32_small; lia).
    rewrite H'. split; [done|]. split; [done|]. split; [lia|]. pose proof (gpu_mono gpu sub t (t1 - t)) as M. replace (t + (t1 - t))%nat with t1 in M by lia.
    exists comp'. split; [done|]. split; [lia|]. apply streams_ok_add with ring_head; [apply streams_ok_later with comp; [lia|done]|lia|].
    eapply Forall_impl; [exact Bf|]. cbv beta. intros f Hf Sf. apply Hf. lia. }
  destruct r; [|eexists _, _, _, _, _; split; [reflexivity|discriminate]..].
  destruct (negb (ms_submitted s1 =? 0)).
  - eexists _, _, _, _, _. split; [reflexivity|]. intros _. destruct (look gpu sub (S t1) s1) as [O2 _]; [now apply looked_next|].
    apply (Fin _ _ (gpu (S t1)) eq_refl O2). apply gpu_forward.
  - eexists _, _, _, _, _. split; [reflexivity|]. intros _. apply (Fin _ _ (gpu t1) eq_refl O1). lia.
Qed.

(** A built stream holds what the command buffers recorded, in submission
    order after the packets the queue puts before them: every word but the two
    value words of each GPU barrier is the recorded one, each barrier's two
    value words hold the same fence value, the values are the ones after the
    queue's last in order, barriers added between command buffers included, and
    the copies' offsets lie in the stream in recording order. *)
Theorem stream_layout capacity previous (buffers : list (recorded C)) fence out :
  Forall patches_ok buffers -> Forall copies_ok buffers -> build_stream q capacity previous buffers fence = inr out -> words_of (bu_stream out) < 2 ^ 32 ->
  exists start, laid_out q start fence buffers (bu_stream out) (bu_splits out) (bu_fence out) /\
    ordered (bu_splits out) /\ Forall (fun x => Z.of_nat start <= fst x <= words_of (bu_stream out)) (bu_splits out) /\
    map snd (bu_splits out) = concat (map (fun b => map snd (rec_copies b)) buffers).
Proof. apply build_stream_laid_out. Qed.

End Claims.

(** ** Examples *)

(** Wait packets of seven words, as the library's. *)
Definition example_waits : WaitPackets := {| wait_packet_words := 7; wait_packet video index := Some [0xc0059300; video; index; 0; 0; 0; 0] |}.
Definition example_memory : queue_memory := QueueMemory None (Some 0x8000) 0x8010.

(** A recording that renders into image 1 of the display, has a barrier and a
    copy, and one that samples early. *)
Definition example_first : recorded Z := record_gpu_barrier 0x8000 (Recorded [11; 12; 13] [(2, 100); (900, 101)] [] false [RenderTarget 0 1; RenderTarget 0 1]).
Definition example_second : recorded Z := Recorded [21; 22] [(0, 200)] [] true [].

Lemma example_first_patches : patches_ok example_first.
Proof. apply record_gpu_barrier_ok. split; [constructor|]. intros i j p p' I. discriminate. Qed.

Lemma example_patches : Forall patches_ok [example_first; example_second].
Proof. constructor; [apply example_first_patches|]. constructor; [|constructor]. split; [constructor|]. intros i j p p' I. discriminate. Qed.

Lemma ordered_cons {C} (x : Z * C) l : Forall (fun y => fst x <= fst y) l -> ordered l -> ordered (x :: l).
Proof.
  intros F O [|i] [|j] a b I J L; cbn in *; try lia; [injection I as <-|now apply (O i j); [..|lia]]. rewrite Forall_forall in F. apply F. by eapply list_elem_of_lookup_2.
Qed.

Lemma example_copies : Forall copies_ok [example_first; example_second].
Proof.
  assert (N : ordered ([] : list (Z * Z))) by (intros i j x y I; discriminate).
  constructor; [|constructor; [|constructor]]; (split; [repeat constructor; cbn; lia|]); unfold example_first, example_second; cbn [rec_copies record_gpu_barrier];
    repeat (apply ordered_cons; [repeat constructor; cbn; lia|]); exact N.
Qed.

Lemma stream_layout_witness : exists out, @build_stream Z example_waits example_memory 200 (Some 3) [example_first; example_second] 7 = inr out /\
  words_of (bu_stream out) = 9 + 7 + 20 + 17 + 2 /\ bu_splits out = [(18, 100); (36, 101); (53, 200)] /\ bu_fence out = 9 /\ ordered (bu_splits out).
Proof.
  eexists. split; [reflexivity|]. split; [reflexivity|]. split; [reflexivity|]. split; [reflexivity|].
  destruct (@stream_layout Z example_waits example_memory 200 (Some 3) [example_first; example_second] 7 _ example_patches example_copies eq_refl ltac:(reflexivity)) as (start & _ & O & _). exact O.
Defined.

Lemma example_displays : Forall (fun b => Forall on_display (rec_targets b)) [example_first; example_second].
Proof.
  assert (D : on_display (RenderTarget 0 1)) by (intros _; cbn; unfold PS5VK_SWAPCHAIN_IMAGES; lia).
  apply Forall_cons. split; [repeat (apply Forall_cons; split; [exact D|]); apply Forall_nil, I|]. apply Forall_cons. split; apply Forall_nil, I.
Qed.

Lemma submission_streams_apart_witness : exists r base b t' s',
  @run_stream Z (steady_gpu 2) example_waits example_memory spin_fuel 400 100 7 [example_first; example_second] 0 example_queue = Some (r, base, b, t', s') /\
  (r = WAIT_SUCCESS -> base mod 16 = 0 \/ b = inl PACKETS_LOST).
Proof.
  destruct (@submission_streams_apart Z example_waits example_memory (steady_gpu 2) _ 2 (steady_laws 2 ltac:(lia)) 0 400 100 7 [example_first; example_second] [Flight 2 0 100] 0 example_queue)
    as (r & base & b & t' & s' & E & R).
  - split; [discriminate|]. intros v i p P. injection P as <-. reflexivity.
  - apply example_displays.
  - lia.
  - discriminate.
  - apply example_ok.
  - simpl. lia.
  - reflexivity.
  - constructor.
    + repeat constructor; simpl; lia.
    + intros [|[|i]] [|[|j]] f g Fi Fj N; try done.
  - repeat constructor; simpl; lia.
  - lia.
  - exists r, base, b, t', s'. split; [exact E|]. intros Rs. specialize (R Rs). destruct b as [e|out]; [right; now rewrite R|left; apply R].
Defined.

(** The room a submission's words are checked against wraps.  The barrier
    put between two command buffers is not checked, so the words can pass
    [capacity - end_words]; the next check's [capacity - end_words - words] is
    then near 2^64, and a command buffer of any size is copied.  With nothing in
    flight the start of the stream is not checked against the footprint either. *)
Theorem barrier_wraps_room_check :
  let first := Recorded [1; 2; 3; 4] [] [] false [RenderTarget (-1) 0] in
  let second := Recorded (repeat 5 100) ([] : list (Z * Z)) [] true [] in
  exists out, @build_stream Z example_waits example_memory 20 None [first; second] 7 = inr out /\ words_of (bu_stream out) = 121 /\
    @run_stream Z (steady_gpu 0) example_waits example_memory 1 20 0 7 [first; second] 0 marker_init = Some (WAIT_SUCCESS, 0, inr out, 1%nat, marker_init).
Proof. intros first second. eexists. split; [reflexivity|]. split; reflexivity. Qed.
