(* ===== verification/CopySteps.v ===== *)
(** * Copies between a submission's steps ([src/driver/ps5vk_queue.c])

    A submission with CPU copies runs as steps: the words up to a copy are
    submitted and waited for, the copies recorded there run on the CPU, and the
    words after them follow.  The log lists what the queue had the GPU and the
    CPU do, in order. *)

From Stdlib Require Import ZArith Lia.
From stdpp Require Import base numbers list.
From S2P Require Import Prelude Bytes DriverPrelude DriverMemory QueueStreams.
Open Scope Z_scope.

(** ** Copies *)

(** What the queue reads of a [ps5vk_memory_copy] to order it; [mc_fill] is the
    word a fill writes. *)
Record memory_copy := MemoryCopy {
  mc_record : Z;
  mc_resolve : bool;
  mc_blit : bool;
  mc_image_write : bool;
  mc_image_copy : bool;
  mc_clear : bool;
  mc_query : bool;
  mc_event_action : bool;
  mc_height : Z;
  mc_source_span : Z * Z;
  mc_destination_span : Z * Z;
  mc_source : Z;
  mc_destination : Z;
  mc_bytes : Z;
  mc_fill : option Z;
  mc_reverse_texel_bytes : Z
}.

Inductive copy_action :=
  | ResolveExecute | BlitExecute | ImageWriteExecute | ImageCopyExecute | ClearExecute | QueryExecute | EventExecute
  | CopyNothing | CopyFill | CopyBytes.

(** The order of the tests a record's kind is found by. *)
Definition copy_dispatch (c : memory_copy) : copy_action :=
  if mc_resolve c then ResolveExecute
  else if mc_blit c then BlitExecute
  else if mc_image_write c then ImageWriteExecute
  else if mc_image_copy c then ImageCopyExecute
  else if mc_clear c then ClearExecute
  else if mc_query c then QueryExecute
  else if mc_event_action c then EventExecute
  else if mc_bytes c =? 0 then CopyNothing
  else match mc_fill c with Some _ => CopyFill | None => CopyBytes end.

(** The fill's loop over [words] words. *)
Fixpoint fill_loop (words : nat) (destination value : Z) (m : memory) : memory :=
  match words with
  | O => m
  | S words' => fill_loop words' (destination + 4) value (poke 4 m destination value)
  end.

(** One texel of a copy whose channels swap, byte by byte. *)
Fixpoint reverse_texel (bytes : nat) (byte texel_bytes from to : Z) (m : memory) : memory :=
  match bytes with
  | O => m
  | S bytes' => reverse_texel bytes' (byte + 1) texel_bytes from to (store_bytes m (to + byte) [m (from + texel_bytes - 1 - byte)])
  end.

Fixpoint reverse_loop (fuel : nat) (texel texel_bytes bytes source destination : Z) (m : memory) : memory :=
  match fuel with
  | O => m
  | S fuel' =>
      if texel + texel_bytes <=? bytes
      then reverse_loop fuel' (texel + texel_bytes) texel_bytes bytes source destination
             (reverse_texel (Z.to_nat texel_bytes) 0 texel_bytes (source + texel) (destination + texel) m)
      else m
  end.

(** A byte range's copy or fill. *)
Definition copy_bytes_execute (c : memory_copy) (m : memory) : memory :=
  match copy_dispatch c with
  | CopyFill => match mc_fill c with Some value => fill_loop (Z.to_nat (mc_bytes c / 4)) (mc_destination c) value m | None => m end
  | CopyBytes =>
      if mc_reverse_texel_bytes c =? 0 then store_bytes m (mc_destination c) (load_bytes (Z.to_nat (mc_bytes c)) m (mc_source c))
      else reverse_loop (Z.to_nat (mc_bytes c)) 0 (mc_reverse_texel_bytes c) (mc_bytes c) (mc_source c) (mc_destination c) m
  | _ => m
  end.

(** ** Waves *)

Definition PS5VK_BLIT_MIN_ROWS : Z := 16.

(** [ps5vk_spans_overlap] *)
Definition spans_overlap (a b : Z * Z) : bool := (fst a <? u64 (fst b + snd b)) && (fst b <? u64 (fst a + snd a)).

Definition without_spans (c : memory_copy) : bool := (snd (mc_source_span c) =? 0) || (snd (mc_destination_span c) =? 0).

Definition blits_meet (c other : memory_copy) : bool :=
  existsb (fun mine => existsb (spans_overlap mine) [mc_source_span other; mc_destination_span other]) [mc_source_span c; mc_destination_span c].

(** [ps5vk_blit_conflicts] *)
Definition blit_conflicts (c : memory_copy) (wave : list memory_copy) : bool :=
  if without_spans c then true else existsb (fun other => without_spans other || blits_meet c other) wave.

(** ** Steps *)

Inductive queue_op :=
  | OpStep (words : list Z) (wait : bool)
  | OpIdle
  | OpCopy (c : memory_copy)
  | OpWave (wave : list memory_copy).

Inductive steps_result := STEPS_DONE | STEP_FAILED | CAPTURE_OVERFLOW | STEPS_NO_MEMORY.

Abbreviation copy_split := (Z * memory_copy)%type.

(** The blits after the first that join its wave, and the splits left. *)
Fixpoint take_wave (end' : Z) (wave : list memory_copy) (rest : list copy_split) : list memory_copy * list copy_split :=
  match rest with
  | (offset, c) :: rest' =>
      if (offset =? end') && mc_blit c && negb (blit_conflicts c wave) then take_wave end' (wave ++ [c]) rest' else (wave, rest)
  | [] => (wave, rest)
  end.

Section Running.
(** What the world answers: whether an operation succeeds after a log, whether
    the blit workers take a wave, and what running a step leaves in the stream. *)
Context (succeeds : list queue_op -> queue_op -> bool) (pool : list memory_copy -> bool) (clobber : list queue_op -> list Z -> list Z).
Context (end_words : Z).

(** The copies at one offset. *)
Fixpoint run_copies (fuel : nat) (end' : Z) (log : list queue_op) (rest : list copy_split) : bool * list queue_op * list copy_split :=
  match fuel, rest with
  | S fuel', (offset, c) :: rest' =>
      if offset =? end' then
        match copy_dispatch c with
        | BlitExecute =>
            let '(wave, rest'') := take_wave end' [c] rest' in
            let parallel := ((1 <? length wave)%nat || (2 * PS5VK_BLIT_MIN_ROWS <=? mc_height c)) && negb (blit_conflicts c []) && pool wave in
            run_copies fuel' end' (log ++ if parallel then [OpWave wave] else map OpCopy wave) rest''
        | EventExecute =>
            if succeeds log (OpCopy c) then run_copies fuel' end' (log ++ [OpCopy c]) rest' else (false, log, rest)
        | _ => run_copies fuel' end' (log ++ [OpCopy c]) rest'
        end
      else (true, log, rest)
  | _, _ => (true, log, rest)
  end.

(** [memcpy(stream + start, saved + start, (end - start) * sizeof(uint32_t))] *)
Definition put_back (saved stream : list Z) (start end' : Z) : list Z :=
  take (Z.to_nat start) stream ++ take (Z.to_nat (end' - start)) (drop (Z.to_nat start) saved) ++ drop (Z.to_nat end') stream.

(** The words of a step, from its start to its end: the log and stream after
    it, or the error, and how much of the capture it took. *)
Definition submit_words (saved : list Z) (capture_words : Z) (waited : bool) (start end' capture_at : Z) (log : list queue_op) (stream : list Z) :
    steps_result * list queue_op * list Z * Z :=
  if end' =? start then (STEPS_DONE, log, stream, capture_at)
  else
    let step_words := u32 (end' - start) + end_words in
    if capture_words <? capture_at + step_words then (CAPTURE_OVERFLOW, log, stream, capture_at)
    else
      let stream := put_back saved stream start end' in
      let step := OpStep (take (Z.to_nat (end' - start)) (drop (Z.to_nat start) stream)) waited in
      if succeeds log step then (STEPS_DONE, log ++ [step], clobber (log ++ [step]) stream, capture_at + step_words)
      else (STEP_FAILED, log, stream, capture_at).

Fixpoint steps_loop (fuel : nat) (saved : list Z) (capture_words start capture_at : Z) (log : list queue_op) (stream : list Z) (rest : list copy_split) :
    option (steps_result * list queue_op) :=
  let words := words_of saved in
  match fuel with
  | O => None
  | S fuel' =>
      match rest with
      | [] => if start <? words then
                match submit_words saved capture_words false start words capture_at log stream with
                | (STEPS_DONE, log, stream, capture_at) => steps_loop fuel' saved capture_words words capture_at log stream []
                | (r, log, _, _) => Some (r, log)
                end
              else Some (STEPS_DONE, log)
      | (end', _) :: _ =>
          match submit_words saved capture_words true start end' capture_at log stream with
          | (STEPS_DONE, log, stream, capture_at) =>
              if (end' =? start) && negb (succeeds log OpIdle) then Some (STEP_FAILED, log)
              else
                let log := if end' =? start then log ++ [OpIdle] else log in
                match run_copies (length rest) end' log rest with
                | (true, log, rest) => steps_loop fuel' saved capture_words end' capture_at log stream rest
                | (false, log, _) => Some (STEP_FAILED, log)
                end
          | (r, log, _, _) => Some (r, log)
          end
      end
  end.

(** [ps5vk_queue_run_copy_steps]; [capture_words] are those the capture holds
    before, [saved_ok] and [capture_ok] whether its allocations succeed. *)
Definition run_copy_steps (saved_ok capture_ok : bool) (capture_words : Z) (stream : list Z) (splits : list copy_split) : option (steps_result * list queue_op) :=
  let needed := words_of stream + (Z.of_nat (length splits) + 1) * end_words in
  if negb (words_of stream =? 0) && negb saved_ok then Some (STEPS_NO_MEMORY, [])
  else if (capture_words <? needed) && negb capture_ok then Some (STEPS_NO_MEMORY, [])
  else steps_loop (S (S (length splits))) stream (Z.max capture_words needed) 0 0 [] stream splits.

(** The end of [ps5vk_queue_run]: one step of every word when nothing was recorded between them. *)
Definition run_steps (saved_ok capture_ok : bool) (capture_words : Z) (stream : list Z) (splits : list copy_split) : option (steps_result * list queue_op) :=
  match splits with
  | [] => if succeeds [] (OpStep stream false) then Some (STEPS_DONE, [OpStep stream false]) else Some (STEP_FAILED, [])
  | _ => run_copy_steps saved_ok capture_ok capture_words stream splits
  end.

End Running.

(** ** What a submission means: its words with the copies where they were recorded *)

Inductive item := Word (w : Z) | Copy (c : memory_copy).

Fixpoint interleave (start : Z) (words : list Z) (splits : list copy_split) : list item :=
  match splits with
  | [] => map Word words
  | (offset, c) :: rest =>
      map Word (take (Z.to_nat (offset - start)) words) ++ Copy c :: interleave offset (drop (Z.to_nat (offset - start)) words) rest
  end.

Definition items_of (o : queue_op) : list item :=
  match o with
  | OpStep words _ => map Word words
  | OpIdle => []
  | OpCopy c => [Copy c]
  | OpWave wave => map Copy wave
  end.

Definition flatten (log : list queue_op) : list item := concat (map items_of log).

(** Everything the GPU was given so far has run: the last operation that is not
    a copy is a step waited for, or the wait for the queue. *)
Fixpoint settled (log : list queue_op) : Prop :=
  match log with
  | [] => False
  | o :: rest => match o with OpStep _ true | OpIdle => True | OpStep _ false => False | _ => settled rest end
  end.

Definition on_cpu (o : queue_op) : Prop := match o with OpCopy _ | OpWave _ => True | _ => False end.

(** No two records of a wave touch the same bytes. *)
Definition wave_apart (o : queue_op) : Prop :=
  match o with
  | OpWave wave => Forall (fun c => without_spans c = false) wave /\
      forall i j a b, wave !! i = Some a -> wave !! j = Some b -> i <> j -> blits_meet a b = false
  | _ => True
  end.

Record copies_settled (log : list queue_op) : Prop := {
  cs_settled : forall pre o post, log = pre ++ o :: post -> on_cpu o -> settled (rev pre);
  cs_waves : Forall wave_apart log
}.

Lemma flatten_app l l' : flatten (l ++ l') = flatten l ++ flatten l'.
Proof. unfold flatten. now rewrite map_app, concat_app. Qed.

Lemma flatten_copies cs : flatten (map OpCopy cs) = map Copy cs.
Proof. induction cs; [done|]. cbn. now f_equal. Qed.

Lemma copies_settled_snoc log o : copies_settled log -> (on_cpu o -> settled (rev log)) -> wave_apart o -> copies_settled (log ++ [o]).
Proof.
  intros [S W] H A. split; [|apply Forall_app; split; [done|now constructor]]. intros pre x post E C. destruct post as [|y post _] using rev_ind.
  - apply app_inj_tail in E as [<- <-]. auto.
  - rewrite app_comm_cons, app_assoc in E. apply app_inj_tail in E as [-> _]. now apply (S pre x post).
Qed.


Lemma copies_settled_copies log cs : copies_settled log -> settled (rev log) -> copies_settled (log ++ map OpCopy cs) /\ settled (rev (log ++ map OpCopy cs)).
Proof.
  revert log. induction cs as [|c cs IH]; intros log L S; cbn [map]; [now rewrite app_nil_r|].
  rewrite cons_middle, app_assoc. apply IH; [now apply copies_settled_snoc|]. rewrite rev_app_distr. done.
Qed.

Lemma spans_overlap_sym a b : spans_overlap a b = spans_overlap b a.
Proof. unfold spans_overlap. apply andb_comm. Qed.

Lemma blits_meet_sym a b : blits_meet a b = blits_meet b a.
Proof.
  unfold blits_meet. cbn [existsb]. rewrite !orb_false_r. rewrite (spans_overlap_sym (mc_source_span b)), (spans_overlap_sym (mc_source_span b)), (spans_overlap_sym (mc_destination_span b)), (spans_overlap_sym (mc_destination_span b)).
  repeat destruct (spans_overlap _ _); done.
Qed.

Definition wave_ok (wave : list memory_copy) : Prop := wave_apart (OpWave wave).

Lemma wave_ok_snoc wave c : wave_ok wave -> blit_conflicts c wave = false -> wave_ok (wave ++ [c]).
Proof.
  unfold wave_ok, wave_apart, blit_conflicts. intros [F A] B. destruct (without_spans c) eqn:Wc; [discriminate|]. split; [apply Forall_app; split; [done|now constructor]|].
  assert (N : forall i x, wave !! i = Some x -> blits_meet c x = false).
  { intros i x I. destruct (blits_meet c x) eqn:M; [|done]. assert (existsb (fun other => without_spans other || blits_meet c other) wave = true); [|congruence].
    apply existsb_exists. exists x. split; [apply list_elem_of_In; by eapply list_elem_of_lookup_2|]. now rewrite M, orb_true_r. }
  intros i j a b I J D. apply lookup_app_Some in I as [I|[I1 I]]; apply lookup_app_Some in J as [J|[J1 J]].
  - now apply (A i j).
  - apply list_lookup_singleton_Some in J as [J <-]. rewrite blits_meet_sym. now apply (N i).
  - apply list_lookup_singleton_Some in I as [I <-]. now apply (N j).
  - apply list_lookup_singleton_Some in I as [I _]. apply list_lookup_singleton_Some in J as [J _]. lia.
Qed.

Lemma take_wave_spec end' wave rest : let '(out, rest') := take_wave end' wave rest in
  exists taken, out = wave ++ taken /\ rest = map (fun c => (end', c)) taken ++ rest' /\ (wave_ok wave -> wave_ok out).
Proof.
  revert wave. induction rest as [|[offset c] rest IH]; intros wave; cbn [take_wave].
  { exists []. now rewrite app_nil_r. }
  destruct ((offset =? end') && mc_blit c && negb (blit_conflicts c wave)) eqn:X; [|exists []; now rewrite app_nil_r].
  apply andb_true_iff in X as [X B]. apply andb_true_iff in X as [X _]. to_prop. subst offset. specialize (IH (wave ++ [c])).
  destruct (take_wave _ _ _) as [out rest']. destruct IH as (taken & -> & -> & O). exists (c :: taken). split; [now rewrite <- app_assoc|]. split; [done|]. intros Ok. apply O, wave_ok_snoc; [done|]. now destruct (blit_conflicts c wave).
Qed.

(** ** The steps follow the recording *)

Section Order.
Context (succeeds : list queue_op -> queue_op -> bool) (pool : list memory_copy -> bool) (clobber : list queue_op -> list Z -> list Z).
Context (end_words : Z) (Hclobber : forall log stream, length (clobber log stream) = length stream) (Hend : 0 <= end_words).

Lemma run_copies_spec fuel end' log rest : (length rest <= fuel)%nat -> copies_settled log -> settled (rev log) ->
  exists taken rest' ok log', run_copies succeeds pool fuel end' log rest = (ok, log', rest') /\
    rest = map (fun c => (end', c)) taken ++ rest' /\ flatten log' = flatten log ++ map Copy taken /\ copies_settled log' /\ settled (rev log') /\
    (ok = true -> match rest' with [] => True | (offset, _) :: _ => offset <> end' end).
Proof.
  revert log rest. induction fuel as [|fuel IH]; intros log rest L S St.
  { destruct rest; [|simpl in L; lia]. exists [], [], true, log. cbn [map]. rewrite !app_nil_r. split_and!; done. }
  destruct rest as [|[offset c] rest]; [exists [], [], true, log; cbn [map]; rewrite !app_nil_r; split_and!; done|]. cbn [run_copies]. simpl in L.
  destruct (offset =? end') eqn:E; to_prop; [subst offset|exists [], ((offset, c) :: rest), true, log; cbn [map]; rewrite !app_nil_r; split_and!; done].
  assert (One : forall l, l = log ++ [OpCopy c] -> exists taken rest' ok log', run_copies succeeds pool fuel end' l rest = (ok, log', rest') /\
    (end', c) :: rest = map (fun c => (end', c)) taken ++ rest' /\ flatten log' = flatten log ++ map Copy taken /\ copies_settled log' /\ settled (rev log') /\
    (ok = true -> match rest' with [] => True | (offset, _) :: _ => offset <> end' end)).
  { intros l ->. destruct (copies_settled_copies log [c] S St) as [S' St']. destruct (IH (log ++ [OpCopy c]) rest) as (taken & rest' & ok & log' & -> & -> & F & A & B & N); [lia|done|done|].
    exists (c :: taken), rest', ok, log'. split_and!; try done. rewrite F, flatten_app, <- app_assoc. done. }
  destruct (copy_dispatch c) eqn:D; try (apply One; done).
  - pose proof (take_wave_spec end' [c] rest) as Tw. destruct (take_wave end' [c] rest) as [wave rest1]. destruct Tw as (taken1 & -> & -> & Ok).
    set (ops := if _ && _ && _ then [OpWave ([c] ++ taken1)] else map OpCopy ([c] ++ taken1)).
    assert (H : copies_settled (log ++ ops) /\ settled (rev (log ++ ops)) /\ flatten ops = map Copy ([c] ++ taken1)).
    { subst ops. destruct (_ && _ && _) eqn:X.
      - apply andb_true_iff in X as [X _]. apply andb_true_iff in X as [_ X]. apply negb_true_iff in X. split_and!.
        + apply copies_settled_snoc; auto. apply Ok. split; [constructor; [|constructor]|].
          * unfold blit_conflicts in X. destruct (without_spans c); [discriminate|done].
          * intros i j a b I J Ne. apply list_lookup_singleton_Some in I as [I _]. apply list_lookup_singleton_Some in J as [J _]. lia.
        + rewrite rev_app_distr. done.
        + unfold flatten. cbn. now rewrite app_nil_r.
      - destruct (copies_settled_copies log ([c] ++ taken1) S St). split_and!; [done..|apply flatten_copies]. }
    destruct H as (S' & St' & Fo). destruct (IH (log ++ ops) rest1) as (taken & rest' & ok & log' & -> & -> & F & A & B & N); [rewrite length_app, length_map in L; lia|done|done|].
    exists ([c] ++ taken1 ++ taken), rest', ok, log'. split_and!; try done.
    + cbn [app map]. rewrite map_app, <- app_assoc. done.
    + rewrite F, flatten_app, Fo, !map_app, <- !app_assoc. done.
  - destruct (succeeds log (OpCopy c)); [apply One; done|]. exists [], ((end', c) :: rest), false, log. cbn [map]. rewrite !app_nil_r. split_and!; done.
Qed.

Lemma put_back_length saved stream start end' : length stream = length saved -> 0 <= start <= end' -> end' <= words_of saved -> length (put_back saved stream start end') = length saved.
Proof. intros L S E. unfold put_back, words_of in *. rewrite !length_app, !length_take, !length_drop. lia. Qed.

(** A step submits the words recorded, whatever the steps before it left. *)
Lemma put_back_step saved stream start end' : length stream = length saved -> 0 <= start <= end' -> end' <= words_of saved ->
  take (Z.to_nat (end' - start)) (drop (Z.to_nat start) (put_back saved stream start end')) = take (Z.to_nat (end' - start)) (drop (Z.to_nat start) saved).
Proof.
  intros L S E. unfold put_back, words_of in *. rewrite drop_app_length' by (rewrite length_take; lia). rewrite take_app_length' by (rewrite length_take, length_drop; lia). done.
Qed.

Lemma submit_words_spec saved capture_words waited start end' capture_at log stream : length stream = length saved -> 0 <= start <= end' -> end' <= words_of saved -> words_of saved < 2 ^ 32 ->
  capture_at + (end' - start) + end_words <= capture_words -> copies_settled log ->
  exists r log' stream' capture', submit_words succeeds clobber end_words saved capture_words waited start end' capture_at log stream = (r, log', stream', capture') /\
    length stream' = length saved /\ copies_settled log' /\ capture' <= capture_at + (end' - start) + (if end' =? start then 0 else end_words) /\
    match r with
    | STEPS_DONE => flatten log' = flatten log ++ map Word (take (Z.to_nat (end' - start)) (drop (Z.to_nat start) saved)) /\
                    (if end' =? start then log' = log else waited = true -> settled (rev log'))
    | STEP_FAILED => log' = log
    | _ => False
    end.
Proof.
  intros L S E W Cp Cs. unfold submit_words. destruct (end' =? start) eqn:X; to_prop.
  { subst end'. exists STEPS_DONE, log, stream, capture_at. rewrite Z.sub_diag. cbn [Z.to_nat take map]. rewrite app_nil_r. split_and!; auto. lia. }
  rewrite u32_small by lia. destruct (capture_words <? _) eqn:Y; to_prop; [lia|]. set (step := OpStep _ waited). destruct (succeeds log step).
  - exists STEPS_DONE, (log ++ [step]), (clobber (log ++ [step]) (put_back saved stream start end')), (capture_at + (end' - start + end_words)).
    split_and!; auto; [rewrite Hclobber; now apply put_back_length|apply copies_settled_snoc; subst step; done|lia|..].
    + rewrite flatten_app. f_equal. subst step. unfold flatten. cbn [map concat items_of]. rewrite app_nil_r. now rewrite put_back_step.
    + intros ->. subst step. rewrite rev_app_distr. done.
  - exists STEP_FAILED, log, (put_back saved stream start end'), capture_at. split_and!; auto; [now apply put_back_length|lia].
Qed.

Lemma interleave_same offset words taken rest : interleave offset words (map (fun c => (offset, c)) taken ++ rest) = map Copy taken ++ interleave offset words rest.
Proof. induction taken as [|c taken IH]; [done|]. cbn [map app interleave]. rewrite Z.sub_diag. change (Z.to_nat 0) with 0%nat. rewrite take_0, drop_0, IH. done. Qed.

Lemma interleave_group start offset words taken rest : taken <> [] ->
  interleave start words (map (fun c => (offset, c)) taken ++ rest) =
  map Word (take (Z.to_nat (offset - start)) words) ++ map Copy taken ++ interleave offset (drop (Z.to_nat (offset - start)) words) rest.
Proof. destruct taken as [|c taken]; [done|]. intros _. cbn [map app interleave]. now rewrite interleave_same. Qed.

Lemma drop_to saved start end' : 0 <= start <= end' -> drop (Z.to_nat (end' - start)) (drop (Z.to_nat start) saved) = drop (Z.to_nat end') (saved : list Z).
Proof. intros S. rewrite drop_drop. f_equal. lia. Qed.

Lemma ordered_drop (l l' : list copy_split) : ordered (l ++ l') -> ordered l'.
Proof. intros O i j x y I J L. apply (O (length l + i)%nat (length l + j)%nat); [rewrite lookup_app_r by lia; rewrite (Nat.add_comm (length l)), Nat.add_sub; done..|lia]. Qed.

Lemma ordered_first (x y : copy_split) l : ordered (x :: l) -> y ∈ l -> fst x <= fst y.
Proof. intros O I. apply list_elem_of_lookup_1 in I as [i I]. now apply (O 0%nat (Datatypes.S i)); [| |lia]. Qed.

Definition extends (log log' : list queue_op) (full : list item) : Prop := exists tail, flatten log ++ full = flatten log' ++ tail.

Lemma steps_loop_spec fuel saved capture_words start capture_at log stream rest :
  (length rest + (if Z.ltb start (words_of saved) then 1 else 0) < fuel)%nat -> length stream = length saved -> 0 <= start <= words_of saved -> words_of saved < 2 ^ 32 ->
  ordered rest -> Forall (fun x => start <= fst x <= words_of saved) rest -> capture_at + (words_of saved - start) + (Z.of_nat (length rest) + if start <? words_of saved then 1 else 0) * end_words <= capture_words ->
  copies_settled log ->
  exists r log', steps_loop succeeds pool clobber end_words fuel saved capture_words start capture_at log stream rest = Some (r, log') /\
    copies_settled log' /\ extends log log' (interleave start (drop (Z.to_nat start) saved) rest) /\
    match r with
    | STEPS_DONE => flatten log' = flatten log ++ interleave start (drop (Z.to_nat start) saved) rest
    | STEP_FAILED => True
    | _ => False
    end.
Proof.
  revert start capture_at log stream rest. induction fuel as [|fuel IH]; intros start capture_at log stream rest Fu L St W O F Cp Cs; [lia|].
  destruct rest as [|[end' c] rest]; cbn [steps_loop].
  { cbn [interleave]. destruct (start <? words_of saved) eqn:X; cbn [length] in Cp; to_prop.
    - destruct (submit_words_spec saved capture_words false start (words_of saved) capture_at log stream L ltac:(lia) ltac:(lia) W ltac:(cbn [length] in Cp; lia) Cs) as (r & log1 & st1 & cap1 & -> & L1 & Cs1 & C1 & R).
      rewrite (proj2 (Z.eqb_neq _ _)) in C1 by lia.
      assert (Tk : take (Z.to_nat (words_of saved - start)) (drop (Z.to_nat start) saved) = drop (Z.to_nat start) saved) by (apply take_ge; rewrite length_drop; unfold words_of; lia).
      rewrite Tk in R. destruct r; try done.
      + destruct R as [R _]. destruct (IH (words_of saved) cap1 log1 st1 []) as (r & log2 & -> & Cs2 & E2 & R2).
        * rewrite Z.ltb_irrefl. simpl in *. lia.
        * done.
        * lia.
        * done.
        * intros i j x y I. discriminate.
        * constructor.
        * rewrite Z.ltb_irrefl. cbn [length] in *. lia.
        * done.
        * exists r, log2. split; [done|]. split; [done|]. unfold words_of in E2, R2. rewrite Nat2Z.id, drop_all in E2, R2. cbn [interleave map] in E2, R2.
          unfold extends in *. rewrite R, app_nil_r in E2. split; [done|]. destruct r; try done. now rewrite R, app_nil_r in R2.
      + subst log1. exists STEP_FAILED, log. split; [done|]. split; [done|]. split; [|done]. eexists. reflexivity.
    - exists STEPS_DONE, log. split; [done|]. split; [done|]. rewrite drop_ge by (unfold words_of in *; lia). split; [eexists; reflexivity|]. now rewrite app_nil_r. }
  apply Forall_cons in F as [Fc F]. cbn [fst] in Fc.
  destruct (submit_words_spec saved capture_words true start end' capture_at log stream L ltac:(lia) ltac:(lia) W ltac:(cbn [length] in Cp; destruct (start <? words_of saved); nia) Cs) as (r & log1 & st1 & cap1 & -> & L1 & Cs1 & C1 & R).
  destruct r; try done.
  2: { subst log1. exists STEP_FAILED, log. split; [done|]. split; [done|]. split; [|done]. eexists. reflexivity. }
  destruct R as [R Sd]. destruct ((end' =? start) && negb (succeeds log1 OpIdle)) eqn:Id.
  { exists STEP_FAILED, log1. split; [done|]. split; [done|]. split; [|done]. unfold extends. rewrite R. cbn [interleave]. eexists. rewrite <- app_assoc. reflexivity. }
  set (log2 := if end' =? start then log1 ++ [OpIdle] else log1).
  assert (H2 : flatten log2 = flatten log1 /\ copies_settled log2 /\ settled (rev log2)).
  { subst log2. destruct (end' =? start); [|auto]. split; [now rewrite flatten_app, app_nil_r|]. split; [now apply copies_settled_snoc|]. rewrite rev_app_distr. done. }
  destruct H2 as (F2 & Cs2 & S2).
  destruct (run_copies_spec (length ((end', c) :: rest)) end' log2 ((end', c) :: rest) ltac:(done) Cs2 S2) as (taken & rest' & ok & log3 & Q & Eq & F3 & Cs3 & S3 & Ok).
  rewrite Q. rewrite F2, R, <- app_assoc in F3. destruct ok.
  2: { exists STEP_FAILED, log3. split; [done|]. split; [done|]. split; [|done]. unfold extends. rewrite F3, Eq. destruct taken as [|t taken].
    - cbn [map app] in Eq |- *. rewrite <- Eq. cbn [interleave]. rewrite app_nil_r. eexists. now rewrite <- app_assoc.
    - rewrite interleave_group by done. eexists. now rewrite <- !app_assoc. }
  assert (Tn : taken <> []). { intros ->. cbn [map app] in Eq. subst rest'. specialize (Ok eq_refl). cbn beta iota in Ok. done. }
  assert (Ln : (length rest' <= length rest)%nat). { apply (f_equal length) in Eq. rewrite length_app, length_map in Eq. destruct taken; [done|]. simpl in Eq. lia. }
  assert (Fr : Forall (fun x => end' <= fst x <= words_of saved) rest').
  { apply Forall_forall. intros x X. assert (I : x ∈ (end', c) :: rest) by (rewrite Eq; apply elem_of_app; now right). apply elem_of_cons in I as [->|I]; [cbn [fst]; lia|].
    pose proof (ordered_first (end', c) x rest O I). rewrite Forall_forall in F. specialize (F x I). cbn [fst] in *. lia. }
  destruct (IH end' cap1 log3 st1 rest') as (r & log4 & -> & Cs4 & E4 & R4); auto.
  - simpl in Fu. destruct (start <? words_of saved) eqn:X; destruct (end' <? words_of saved) eqn:Y; to_prop; lia.
  - lia.
  - rewrite Eq in O. now apply ordered_drop in O.
  - cbn [length] in Cp. destruct (end' =? start) eqn:X1; destruct (start <? words_of saved) eqn:X2; destruct (end' <? words_of saved) eqn:X3; to_prop; nia.
  - exists r, log4. split; [done|]. split; [done|]. unfold extends in *. rewrite F3 in E4, R4. rewrite Eq, interleave_group, drop_to by (done || lia). rewrite !app_assoc in *. done.
Qed.

End Order.

(** ** Byte ranges *)

Lemma fill_loop_spec words destination value m : let m' := fill_loop words destination value m in
  (forall w, 0 <= w < Z.of_nat words -> peek 4 m' (destination + 4 * w) = value mod 2 ^ 32) /\
  (forall x, x < destination \/ destination + 4 * Z.of_nat words <= x -> m' x = m x).
Proof.
  revert destination m. induction words as [|words IH]; intros destination m; cbn [fill_loop]; cbv zeta.
  { split; [lia|done]. }
  destruct (IH (destination + 4) (poke 4 m destination value)) as [In Out]. split.
  - intros w Hw. destruct (decide (w = 0)) as [->|N].
    + rewrite Z.mul_0_r, Z.add_0_r. rewrite (peek_ext 4 _ (poke 4 m destination value)) by (intros x X; apply Out; lia). now rewrite peek_poke_same.
    + replace (destination + 4 * w) with (destination + 4 + 4 * (w - 1)) by lia. apply In. lia.
  - intros x X. rewrite Out by lia. apply poke_out. lia.
Qed.

(** Where a reversed texel's byte comes from. *)
Definition mirrored (texel_bytes i : Z) : Z := i / texel_bytes * texel_bytes + (texel_bytes - 1 - i mod texel_bytes).

Lemma mirrored_range tb i n : 0 < tb -> 0 <= i < n * tb -> 0 <= mirrored tb i < n * tb.
Proof. unfold mirrored. intros T I. pose proof (Z.div_mod i tb ltac:(lia)). pose proof (Z.mod_pos_bound i tb T). assert (0 <= i / tb < n) by nia. nia. Qed.

Lemma mirrored_twice tb i : 0 < tb -> 0 <= i -> mirrored tb (mirrored tb i) = i.
Proof.
  unfold mirrored. intros T I. pose proof (Z.div_mod i tb ltac:(lia)) as D. pose proof (Z.mod_pos_bound i tb T). set (q := i / tb) in *. set (r := i mod tb) in *.
  assert (Q : (q * tb + (tb - 1 - r)) / tb = q) by (symmetry; apply Z.div_unique with (tb - 1 - r); lia).
  assert (R : (q * tb + (tb - 1 - r)) mod tb = tb - 1 - r) by (symmetry; apply Z.mod_unique with q; lia). rewrite Q, R. lia.
Qed.

Lemma store_one m a v x : store_bytes m a [v] x = if x =? a then v else m x.
Proof.
  destruct (x =? a) eqn:E; to_prop.
  - subst. rewrite store_bytes_in by (unfold size; simpl; lia). now rewrite Z.sub_diag.
  - apply store_bytes_out. unfold size. simpl. lia.
Qed.

Lemma reverse_texel_spec bytes byte tb from to m : 0 <= byte -> byte + Z.of_nat bytes = tb -> from + tb <= to \/ to + tb <= from ->
  forall x, reverse_texel bytes byte tb from to m x = if (to + byte <=? x) && (x <? to + tb) then m (from + (tb - 1 - (x - to))) else m x.
Proof.
  revert byte m. induction bytes as [|bytes IH]; intros byte m B E D x; cbn [reverse_texel].
  { destruct (_ && _) eqn:X; [|done]. apply andb_true_iff in X as [X1 X2]. to_prop. lia. }
  rewrite IH by lia. rewrite !store_one. destruct (to + (byte + 1) <=? x) eqn:X1, (x <? to + tb) eqn:X2, (to + byte <=? x) eqn:X3; cbn [andb]; to_prop; try lia;
    repeat match goal with |- context [?y =? to + byte] => destruct (y =? to + byte) eqn:?; to_prop end; subst; try lia; try done.
  f_equal. lia.
Qed.

Lemma reverse_loop_spec fuel k tb bytes source destination m : 0 < tb -> 0 <= k -> k <= bytes / tb -> 0 <= bytes -> bytes / tb - k <= Z.of_nat fuel ->
  source + bytes <= destination \/ destination + bytes <= source ->
  forall x, reverse_loop fuel (k * tb) tb bytes source destination m x =
    if (destination + k * tb <=? x) && (x <? destination + bytes / tb * tb) then m (source + mirrored tb (x - destination)) else m x.
Proof.
  intros T K L B F D. pose proof (Z.div_mod bytes tb ltac:(lia)) as Dm. pose proof (Z.mod_pos_bound bytes tb T). set (n := bytes / tb) in *. revert k m K L F.
  induction fuel as [|fuel IH]; intros k m K L F x; cbn [reverse_loop].
  { destruct (_ && _) eqn:Y; [|done]. apply andb_true_iff in Y as [Y1 Y2]. to_prop. nia. }
  destruct (k * tb + tb <=? bytes) eqn:X; to_prop.
  - assert (k < n) by nia. replace (k * tb + tb) with ((k + 1) * tb) by lia. rewrite IH by lia. rewrite !reverse_texel_spec by nia.
    assert (Q : forall y, destination + (k + 1) * tb <= y < destination + n * tb -> (destination + k * tb + 0 <=? source + mirrored tb (y - destination)) && (source + mirrored tb (y - destination) <? destination + k * tb + tb) = false).
    { intros y Y. pose proof (mirrored_range tb (y - destination) n T ltac:(nia)). apply andb_false_iff. destruct D; [left|right]; [apply Z.leb_gt|apply Z.ltb_ge]; nia. }
    destruct ((destination + (k + 1) * tb <=? x) && (x <? destination + n * tb)) eqn:X1.
    + apply andb_true_iff in X1 as [X1 X2]. to_prop. rewrite Q by lia. rewrite (proj2 (Z.leb_le _ _)), (proj2 (Z.ltb_lt _ _)) by nia. done.
    + destruct ((destination + k * tb + 0 <=? x) && (x <? destination + k * tb + tb)) eqn:X2.
      * apply andb_true_iff in X2 as [X2 X3]. to_prop. rewrite (proj2 (Z.leb_le _ _)), (proj2 (Z.ltb_lt _ _)) by nia. cbn [andb]. unfold mirrored.
        assert (E1 : (x - destination) / tb = k) by (symmetry; apply Z.div_unique with (x - destination - k * tb); lia).
        assert (E2 : (x - destination) mod tb = x - destination - k * tb) by (symmetry; apply Z.mod_unique with k; lia). rewrite E1, E2. f_equal. lia.
      * destruct ((destination + k * tb <=? x) && (x <? destination + n * tb)) eqn:X3; [|done]. apply andb_true_iff in X3 as [X3 X4]. apply andb_false_iff in X1, X2. to_prop.
        destruct X1 as [X1|X1], X2 as [X2|X2]; to_prop; nia.
  - assert (k = n) by nia. subst k. destruct (_ && _) eqn:Y; [|done]. apply andb_true_iff in Y as [Y1 Y2]. to_prop. lia.
Qed.

(** ** Properties *)

(** C4: a submission's GPU words and CPU copies happen in the order they were
    recorded.  For any stream [ps5vk_queue_run] builds, whatever the steps leave
    in the stream and whatever fails: what is done is a beginning of the words
    with each copy after the words recorded before it; all of it when the steps
    succeed; every copy runs when the GPU has finished what it was given; copies
    the workers take at once touch none of each other's bytes; and the capture
    the steps are kept in is never too small. *)
Theorem submission_runs_as_recorded `{W : WaitPackets} q capacity previous (buffers : list (recorded memory_copy)) fence out
    succeeds pool clobber saved_ok capture_ok capture_words :
  Forall patches_ok buffers -> Forall copies_ok buffers -> build_stream q capacity previous buffers fence = inr out -> words_of (bu_stream out) < 2 ^ 32 ->
  (forall log stream, length (clobber log stream) = length stream) ->
  exists r log, run_steps succeeds pool clobber (queue_end_words q) saved_ok capture_ok capture_words (bu_stream out) (bu_splits out) = Some (r, log) /\
    copies_settled log /\
    (exists tail, interleave 0 (bu_stream out) (bu_splits out) = flatten log ++ tail) /\
    (r = STEPS_DONE -> flatten log = interleave 0 (bu_stream out) (bu_splits out)) /\
    r <> CAPTURE_OVERFLOW /\ (saved_ok = true -> capture_ok = true -> r <> STEPS_NO_MEMORY).
Proof.
  intros Pk Ck B L Hc. destruct (build_stream_laid_out q _ _ _ _ _ Pk Ck B L) as (start & _ & O & F & _).
  assert (N : copies_settled []) by (constructor; [intros pre o post E; now destruct pre|constructor]).
  assert (End : 0 <= queue_end_words q) by (unfold queue_end_words, PS5VK_STREAM_END_WORDS, PS5VK_TIMESTAMP_EVENT_WORDS; destruct (qm_stamps q); lia).
  unfold run_steps. destruct (bu_splits out) as [|x splits] eqn:Sp.
  { cbn [interleave]. destruct (succeeds [] (OpStep (bu_stream out) false)).
    - exists STEPS_DONE, [OpStep (bu_stream out) false]. unfold flatten. cbn [map concat items_of]. rewrite app_nil_r.
      split_and!; try done; [now apply (copies_settled_snoc [])|exists []; now rewrite app_nil_r].
    - exists STEP_FAILED, []. split_and!; try done. eexists. reflexivity. }
  rewrite <- Sp in *. clear Sp. unfold run_copy_steps.
  destruct (negb (words_of (bu_stream out) =? 0) && negb saved_ok) eqn:So.
  { exists STEPS_NO_MEMORY, []. split_and!; try done; [eexists; reflexivity|]. intros ->. rewrite andb_false_r in So. discriminate. }
  destruct ((capture_words <? _) && negb capture_ok) eqn:Co.
  { exists STEPS_NO_MEMORY, []. split_and!; try done; [eexists; reflexivity|]. intros _ ->. rewrite andb_false_r in Co. discriminate. }
  destruct (steps_loop_spec succeeds pool clobber (queue_end_words q) Hc End (S (S (length (bu_splits out)))) (bu_stream out)
    (Z.max capture_words (words_of (bu_stream out) + (Z.of_nat (length (bu_splits out)) + 1) * queue_end_words q)) 0 0 [] (bu_stream out) (bu_splits out))
    as (r & log & -> & Cs & [tail E] & R).
  - destruct (Z.ltb 0 _); lia.
  - done.
  - unfold words_of. lia.
  - done.
  - done.
  - eapply Forall_impl; [exact F|]. cbv beta. lia.
  - destruct (0 <? words_of (bu_stream out)); nia.
  - done.
  - change (Z.to_nat 0) with 0%nat in *. rewrite drop_0 in *. exists r, log. split; [done|]. split; [done|]. split; [exists tail; done|]. destruct r; done.
Qed.

(** A byte range's copy or fill writes exactly its range: a fill its value
    in every word of it, a copy the source's bytes, and a copy between an
    application's memory and a reversed image's the source's bytes with each
    whole texel's turned round. *)
Theorem byte_range_written c m : 0 <= mc_bytes c < 2 ^ 63 -> 0 <= mc_reverse_texel_bytes c ->
  mc_source c + mc_bytes c <= mc_destination c \/ mc_destination c + mc_bytes c <= mc_source c ->
  let m' := copy_bytes_execute c m in
  let n := mc_bytes c / mc_reverse_texel_bytes c * mc_reverse_texel_bytes c in
  match copy_dispatch c, mc_fill c with
  | CopyFill, Some value => forall w, 0 <= w < mc_bytes c / 4 -> peek 4 m' (mc_destination c + 4 * w) = value mod 2 ^ 32
  | CopyBytes, _ =>
      if mc_reverse_texel_bytes c =? 0 then forall i, 0 <= i < mc_bytes c -> m' (mc_destination c + i) = m (mc_source c + i)
      else forall i, 0 <= i < n -> m' (mc_destination c + i) = m (mc_source c + mirrored (mc_reverse_texel_bytes c) i)
  | _, _ => m' = m
  end /\ forall x, x < mc_destination c \/ mc_destination c + mc_bytes c <= x -> m' x = m x.
Proof.
  intros B T D. cbv zeta. unfold copy_bytes_execute. destruct (copy_dispatch c); try (split; done).
  - destruct (mc_fill c) as [value|]; [|split; done]. destruct (fill_loop_spec (Z.to_nat (mc_bytes c / 4)) (mc_destination c) value m) as [In Out].
    pose proof (Z.div_mod (mc_bytes c) 4 ltac:(lia)). pose proof (Z.mod_pos_bound (mc_bytes c) 4 ltac:(lia)). split.
    + intros w Hw. apply In. lia.
    + intros x X. apply Out. lia.
  - destruct (mc_reverse_texel_bytes c =? 0) eqn:E; to_prop.
    + set (l := load_bytes (Z.to_nat (mc_bytes c)) m (mc_source c)).
      assert (Sz : size l = mc_bytes c) by (unfold size, l; rewrite load_bytes_length; lia). split.
      * intros i I. rewrite store_bytes_in by lia. replace (mc_destination c + i - mc_destination c) with i by lia. unfold l. apply load_bytes_at. lia.
      * intros x X. apply store_bytes_out. lia.
    + assert (Tp : 0 < mc_reverse_texel_bytes c) by lia. pose proof (Z.div_mod (mc_bytes c) (mc_reverse_texel_bytes c) ltac:(lia)) as Dm. pose proof (Z.mod_pos_bound (mc_bytes c) (mc_reverse_texel_bytes c) Tp).
      assert (Rl : forall x, reverse_loop (Z.to_nat (mc_bytes c)) 0 (mc_reverse_texel_bytes c) (mc_bytes c) (mc_source c) (mc_destination c) m x =
        if (mc_destination c <=? x) && (x <? mc_destination c + mc_bytes c / mc_reverse_texel_bytes c * mc_reverse_texel_bytes c)
        then m (mc_source c + mirrored (mc_reverse_texel_bytes c) (x - mc_destination c)) else m x).
      { intros x. destruct (decide (mc_bytes c = 0)) as [Z0|Z0].
        - rewrite Z0. rewrite Z.div_0_l by lia. simpl. destruct (_ && _) eqn:Y; [|done]. apply andb_true_iff in Y as [Y1 Y2]. to_prop. lia.
        - pose proof (reverse_loop_spec (Z.to_nat (mc_bytes c)) 0 (mc_reverse_texel_bytes c) (mc_bytes c) (mc_source c) (mc_destination c) m Tp) as R. rewrite Z.mul_0_l, Z.add_0_r in R. apply R; try lia; [apply Z.div_pos; lia|].
          rewrite Z.sub_0_r, Z2Nat.id by lia. apply Z.div_le_upper_bound; nia. }
      set (n := mc_bytes c / mc_reverse_texel_bytes c) in *. split.
      * intros i I. rewrite Rl. rewrite (proj2 (Z.leb_le _ _)), (proj2 (Z.ltb_lt _ _)) by lia. cbn [andb]. repeat f_equal. lia.
      * intros x X. rewrite Rl. destruct (_ && _) eqn:Y; [|done]. apply andb_true_iff in Y as [Y1 Y2]. to_prop. lia.
Qed.

(** Bytes copied into a reversed image and back are the bytes copied: every
    whole texel's bytes turn round twice. *)
Theorem reversed_copies_round_trip into back m i : copy_dispatch into = CopyBytes -> copy_dispatch back = CopyBytes ->
  0 < mc_reverse_texel_bytes into -> mc_reverse_texel_bytes back = mc_reverse_texel_bytes into -> mc_bytes back = mc_bytes into -> mc_source back = mc_destination into ->
  mc_source into + mc_bytes into <= mc_destination into \/ mc_destination into + mc_bytes into <= mc_source into ->
  mc_source back + mc_bytes back <= mc_destination back \/ mc_destination back + mc_bytes back <= mc_source back ->
  0 <= i < mc_bytes into / mc_reverse_texel_bytes into * mc_reverse_texel_bytes into -> 0 <= mc_bytes into ->
  copy_bytes_execute back (copy_bytes_execute into m) (mc_destination back + i) = m (mc_source into + i).
Proof.
  intros Di Db T Eq En Es Ai Ab I B. unfold copy_bytes_execute. rewrite Di, Db, Eq, En, Es. set (tb := mc_reverse_texel_bytes into) in *. rewrite (proj2 (Z.eqb_neq tb 0)) by lia.
  pose proof (Z.div_mod (mc_bytes into) tb ltac:(lia)). pose proof (Z.mod_pos_bound (mc_bytes into) tb T). assert (0 <= mc_bytes into / tb) by (apply Z.div_pos; lia).
  assert (Fu : mc_bytes into / tb - 0 <= Z.of_nat (Z.to_nat (mc_bytes into))) by (rewrite Z2Nat.id by lia; rewrite Z.sub_0_r; apply Z.div_le_upper_bound; nia).
  assert (Rl : forall source destination m0, source + mc_bytes into <= destination \/ destination + mc_bytes into <= source -> forall j, 0 <= j < mc_bytes into / tb * tb ->
    reverse_loop (Z.to_nat (mc_bytes into)) 0 tb (mc_bytes into) source destination m0 (destination + j) = m0 (source + mirrored tb j)).
  { intros source destination m0 A j J. pose proof (reverse_loop_spec (Z.to_nat (mc_bytes into)) 0 tb (mc_bytes into) source destination m0 T) as R. rewrite Z.mul_0_l, Z.add_0_r in R.
    rewrite R by lia. rewrite (proj2 (Z.leb_le _ _)), (proj2 (Z.ltb_lt _ _)) by lia. cbn [andb]. do 2 f_equal. f_equal. lia. }
  rewrite Rl by (try lia; rewrite <- En, <- Es; exact Ab). rewrite Rl by (auto using mirrored_range; lia). now rewrite mirrored_twice by lia.
Qed.

(** ** Examples *)

Definition plain_copy (record source destination bytes texel : Z) : memory_copy :=
  MemoryCopy record false false false false false false false 1 (0, 0) (0, 0) source destination bytes None texel.
Definition blit_copy (record source destination : Z) : memory_copy :=
  MemoryCopy record false true false false false false false 64 (source, 256) (destination, 256) 0 0 0 None 0.
Definition fill_copy (destination bytes value : Z) : memory_copy :=
  MemoryCopy 9 false false false false false false false 1 (0, 0) (0, 0) 0 destination bytes (Some value) 0.

(** A command buffer that only copies, then one with two blits at its third
    word, a copy after its words, and words between them. *)
Definition example_uploads : recorded memory_copy := Recorded [] [(0, plain_copy 1 0 512 8 4)] [] false [].
Definition example_frame : recorded memory_copy :=
  Recorded [31; 32; 33; 34; 35] [(3, blit_copy 2 4096 8192); (3, blit_copy 3 12288 16384); (3, blit_copy 4 8192 20480); (4, plain_copy 5 0 512 8 0)] [] false [].

Lemma example_frame_copies : Forall patches_ok [example_uploads; example_frame] /\ Forall copies_ok [example_uploads; example_frame].
Proof.
  assert (N : ordered ([] : list copy_split)) by (intros i j x y I; discriminate).
  assert (P : forall b : recorded memory_copy, rec_fence_patches b = [] -> patches_ok b) by (intros b E; split; rewrite E; [constructor|intros i j p p' I; discriminate]).
  split; [constructor; [now apply P|constructor; [now apply P|constructor]]|].
  constructor; [|constructor; [|constructor]]; (split; [repeat constructor; cbn; lia|]); unfold example_uploads, example_frame; cbn [rec_copies];
    repeat (apply ordered_cons; [repeat constructor; cbn; lia|]); exact N.
Qed.

Definition no_waits : WaitPackets := {| wait_packet_words := 7; wait_packet _ _ := None |}.

Lemma submission_runs_as_recorded_witness : exists log,
  run_steps (fun _ _ => true) (fun _ => true) (fun _ stream => map (fun _ => 0) stream) 16 true true 0 [31; 32; 33; 34; 35] [(0, plain_copy 1 0 512 8 4); (3, blit_copy 2 4096 8192); (3, blit_copy 3 12288 16384); (3, blit_copy 4 8192 20480); (4, plain_copy 5 0 512 8 0)]
    = Some (STEPS_DONE, log) /\
  log = [OpIdle; OpCopy (plain_copy 1 0 512 8 4); OpStep [31; 32; 33] true; OpWave [blit_copy 2 4096 8192; blit_copy 3 12288 16384]; OpWave [blit_copy 4 8192 20480];
         OpStep [34] true; OpCopy (plain_copy 5 0 512 8 0); OpStep [35] false] /\
  copies_settled log.
Proof.
  eexists. split; [reflexivity|]. split; [reflexivity|].
  destruct (@submission_runs_as_recorded no_waits example_memory 200 None [example_uploads; example_frame] 0 (Built [31; 32; 33; 34; 35] _ 0) (fun _ _ => true) (fun _ => true) (fun _ stream => map (fun _ => 0) stream) true true 0
    (proj1 example_frame_copies) (proj2 example_frame_copies) eq_refl ltac:(reflexivity) ltac:(intros; apply length_map)) as (r & log & E & Cs & _).
  assert (Q : log = [OpIdle; OpCopy (plain_copy 1 0 512 8 4); OpStep [31; 32; 33] true; OpWave [blit_copy 2 4096 8192; blit_copy 3 12288 16384]; OpWave [blit_copy 4 8192 20480];
         OpStep [34] true; OpCopy (plain_copy 5 0 512 8 0); OpStep [35] false]) by (injection E as _ <-; reflexivity). rewrite Q in Cs. exact Cs.
Defined.

Definition ramp : memory := fun a => a mod 256.

Lemma byte_range_written_witness : map (copy_bytes_execute (plain_copy 1 16 512 8 4) ramp) [511; 512; 513; 514; 515; 516; 517; 518; 519; 520] = [255; 19; 18; 17; 16; 23; 22; 21; 20; 8] /\
  peek 4 (copy_bytes_execute (fill_copy 512 8 77) ramp) 516 = 77 /\
  copy_bytes_execute (plain_copy 1 16 512 8 4) ramp 513 = 18.
Proof.
  split; [reflexivity|]. split.
  - pose proof (byte_range_written (fill_copy 512 8 77) ramp ltac:(cbn; lia) ltac:(cbn; lia) ltac:(cbn; lia)) as [F _]. apply (F 1). vm_compute. split; [discriminate|reflexivity].
  - pose proof (byte_range_written (plain_copy 1 16 512 8 4) ramp ltac:(cbn; lia) ltac:(cbn; lia) ltac:(cbn; lia)) as [F _]. apply (F 1). vm_compute. split; [discriminate|reflexivity].
Defined.

Lemma reversed_copies_round_trip_witness : copy_bytes_execute (plain_copy 2 512 1024 8 4) (copy_bytes_execute (plain_copy 1 16 512 8 4) ramp) 1029 = 21.
Proof. apply (reversed_copies_round_trip (plain_copy 1 16 512 8 4) (plain_copy 2 512 1024 8 4) ramp 5); try reflexivity; try (cbn; lia); vm_compute; split; (discriminate || reflexivity). Defined.
