(* ===== verification/BlitPool.v ===== *)
(** * Blits in parallel ([src/driver/ps5vk_queue.c])

    A wave of independent blits is cut into ranges of rows, which the submitting
    thread and a pool of workers take from a shared counter.  The threads are a
    step relation: one step is one atomic access, one write of the publication,
    one acquisition or release of the lock, or one part's rows. *)

From Stdlib Require Import ZArith Lia.
From stdpp Require Import base numbers list relations.
From S2P Require Import Prelude DriverPrelude DriverMemory CopySteps.
Open Scope Z_scope.

(** ** Parts *)

(** [ps5vk_blit_part]: rows of a blit *)
Record blit_part := BlitPart { bp_copy : memory_copy; bp_row_begin : Z; bp_row_end : Z }.

Definition div_round_up (a b : Z) : Z := u32 (a + b - 1) / b.

(** [ps5vk_blit_part_rows] *)
Definition blit_part_rows (height threads : Z) : Z := Z.max PS5VK_BLIT_MIN_ROWS (div_round_up height (2 * threads)).

(** The parts of one record: rows from [row] on; [fuel] bounds their number. *)
Fixpoint cut_rows (fuel : nat) (c : memory_copy) (rows row : Z) : list blit_part :=
  match fuel with
  | O => []
  | S fuel' =>
      BlitPart c row (Z.min (mc_height c) (u32 (row + rows))) ::
      (if u32 (row + rows) <? mc_height c then cut_rows fuel' c rows (u32 (row + rows)) else [])
  end.

Definition record_parts (threads : Z) (c : memory_copy) : Z := Z.max 1 (div_round_up (mc_height c) (blit_part_rows (mc_height c) threads)).

(** The size of the parts' array, and the parts of a wave. *)
Definition wave_total (threads : Z) (wave : list memory_copy) : Z := total (record_parts threads) wave.
Definition wave_parts (threads : Z) (wave : list memory_copy) : list blit_part :=
  concat (map (fun c => cut_rows (S (Z.to_nat (mc_height c))) c (blit_part_rows (mc_height c) threads) 0) wave).

(** ** The pool *)

(** Which thread holds the lock. *)
Inductive holder := Unlocked | Submitter | Worker (i : nat).

(** [ps5vk_blit_pool], of the parts' type; [executed] lists the parts run in the
    round and [faulted] whether a thread read past the parts. *)
Record pool_state (P : Type) := PoolState {
  lock : holder;
  generation : Z;
  parts : list P;
  count : nat;
  next : nat;
  done' : nat;
  active : nat;
  executed : list (nat * P);
  faulted : bool
}.
Arguments PoolState {P}.
Arguments lock {P}.
Arguments generation {P}.
Arguments parts {P}.
Arguments count {P}.
Arguments next {P}.
Arguments done' {P}.
Arguments active {P}.
Arguments executed {P}.
Arguments faulted {P}.

(** Where a thread is in [ps5vk_blit_pool_run]. *)
Inductive run_pc := Fetch | Take (index : nat) | Part (index : nat) | Count.

(** Where a worker is: not started, asleep or about to test the generation, holding the lock
    before and after it joins, in the round, about to leave it. *)
Inductive worker_pc := WStart | WIdle | WJoin | WUnlock | WRun (r : run_pc) | WLeave.

(** Where the submitter is: outside, wanting or holding the lock for a wave, at
    each write of the publication, in the round, at the two tests of its end,
    flushing. *)
Inductive submit_pc (P : Type) :=
  | SIdle
  | SLock (wave : list P)
  | SCheck (wave : list P)
  | SParts (wave : list P)
  | SCount
  | SDone
  | SNext
  | SGeneration
  | SUnlock
  | SRun (r : run_pc)
  | SWaitDone
  | SWaitActive
  | SFlush.
Arguments SIdle {P}.
Arguments SLock {P}.
Arguments SCheck {P}.
Arguments SParts {P}.
Arguments SCount {P}.
Arguments SDone {P}.
Arguments SNext {P}.
Arguments SGeneration {P}.
Arguments SUnlock {P}.
Arguments SRun {P}.
Arguments SWaitDone {P}.
Arguments SWaitActive {P}.
Arguments SFlush {P}.

(** A worker's place and the generation it has seen. *)
Record worker := WorkerAt { w_pc : worker_pc; w_seen : Z }.

Record system (P : Type) := System { pool : pool_state P; submitter : submit_pc P; workers : list worker }.
Arguments System {P}.
Arguments pool {P}.
Arguments submitter {P}.
Arguments workers {P}.

Section Pool.
Context {P : Type}.
Implicit Types p : pool_state P.

Definition with_lock (h : holder) p : pool_state P := PoolState h (generation p) (parts p) (count p) (next p) (done' p) (active p) (executed p) (faulted p).
Definition with_active (a : nat) p : pool_state P := PoolState (lock p) (generation p) (parts p) (count p) (next p) (done' p) a (executed p) (faulted p).

(** [ps5vk_blit_pool_run], one step; [None] when the thread is through. *)
Definition run_next (r : run_pc) p : pool_state P * option run_pc :=
  match r with
  | Fetch => (PoolState (lock p) (generation p) (parts p) (count p) (S (next p)) (done' p) (active p) (executed p) (faulted p), Some (Take (next p)))
  | Take index => (p, if (count p <=? index)%nat then None else Some (Part index))
  | Part index =>
      match parts p !! index with
      | Some part => (PoolState (lock p) (generation p) (parts p) (count p) (next p) (done' p) (active p) (executed p ++ [(index, part)]) (faulted p), Some Count)
      | None => (PoolState (lock p) (generation p) (parts p) (count p) (next p) (done' p) (active p) (executed p) true, Some Count)
      end
  | Count => (PoolState (lock p) (generation p) (parts p) (count p) (next p) (S (done' p)) (active p) (executed p) (faulted p), Some Fetch)
  end.

(** [ps5vk_blit_worker]: one step of worker [i]; [None] while it cannot move. *)
Definition worker_next (i : nat) (w : worker) p : option (pool_state P * worker) :=
  match w_pc w with
  | WStart => match lock p with Unlocked => Some (p, WorkerAt WIdle (generation p)) | _ => None end
  | WIdle => match lock p with
             | Unlocked => if generation p =? w_seen w then None else Some (with_lock (Worker i) p, WorkerAt WJoin (generation p))
             | _ => None
             end
  | WJoin => Some (with_active (S (active p)) p, WorkerAt WUnlock (w_seen w))
  | WUnlock => Some (with_lock Unlocked p, WorkerAt (WRun Fetch) (w_seen w))
  | WRun r => let '(p', r') := run_next r p in Some (p', WorkerAt match r' with Some r' => WRun r' | None => WLeave end (w_seen w))
  | WLeave => Some (with_active (pred (active p)) p, WorkerAt WIdle (w_seen w))
  end.

(** [ps5vk_blit_wave_execute], from the wave's parts on: one step of the submitter. *)
Definition submitter_next (s : submit_pc P) p : option (pool_state P * submit_pc P) :=
  match s with
  | SIdle => None
  | SLock wave => match lock p with Unlocked => Some (with_lock Submitter p, SCheck wave) | _ => None end
  | SCheck wave => if (active p =? 0)%nat then Some (p, SParts wave) else Some (with_lock Unlocked p, SLock wave)
  | SParts wave => Some (PoolState (lock p) (generation p) wave (count p) (next p) (done' p) (active p) [] (faulted p), SCount)
  | SCount => Some (PoolState (lock p) (generation p) (parts p) (length (parts p)) (next p) (done' p) (active p) (executed p) (faulted p), SDone)
  | SDone => Some (PoolState (lock p) (generation p) (parts p) (count p) (next p) 0 (active p) (executed p) (faulted p), SNext)
  | SNext => Some (PoolState (lock p) (generation p) (parts p) (count p) 0 (done' p) (active p) (executed p) (faulted p), SGeneration)
  | SGeneration => Some (PoolState (lock p) (u32 (generation p + 1)) (parts p) (count p) (next p) (done' p) (active p) (executed p) (faulted p), SUnlock)
  | SUnlock => Some (with_lock Unlocked p, SRun Fetch)
  | SRun r => let '(p', r') := run_next r p in Some (p', match r' with Some r' => SRun r' | None => SWaitDone end)
  | SWaitDone => Some (p, if (done' p <? length (parts p))%nat then SWaitDone else SWaitActive)
  | SWaitActive => Some (p, if (active p =? 0)%nat then SFlush else SWaitDone)
  | SFlush => Some (p, SIdle)
  end.

(** Every interleaving of the threads; the submitter takes waves as they come,
    and its allocation of the parts may fail. *)
Inductive pool_step : system P -> system P -> Prop :=
  | step_submit p ws wave : pool_step (System p SIdle ws) (System p (SLock wave) ws)
  | step_refused p ws wave : pool_step (System p (SParts wave) ws) (System (with_lock Unlocked p) SIdle ws)
  | step_submitter p p' s s' ws : submitter_next s p = Some (p', s') -> pool_step (System p s ws) (System p' s' ws)
  | step_worker p p' s ws i w w' : ws !! i = Some w -> worker_next i w p = Some (p', w') -> pool_step (System p s ws) (System p' s (<[i := w']> ws)).

(** The pool as it is made, with [n] workers. *)
Definition pool_start (n : nat) : system P := System (PoolState Unlocked 0 [] 0 0 0 0 [] false) SIdle (replicate n (WorkerAt WStart 0)).

End Pool.

(** ** The invariant *)

Section Invariant.
Context {P : Type}.
Implicit Types p : pool_state P.

Definition w_run (w : worker) : option run_pc := match w_pc w with WRun r => Some r | _ => None end.
Definition submit_run (s : submit_pc P) : option run_pc := match s with SRun r => Some r | _ => None end.

(** The parts a thread holds, not run yet, and whether it has one to count. *)
Definition claims (n : nat) (r : option run_pc) : list nat :=
  match r with Some (Take i) => if (i <? n)%nat then [i] else [] | Some (Part i) => [i] | _ => [] end.
Definition counting (r : option run_pc) : Z := match r with Some Count => 1 | _ => 0 end.
Definition within p (r : option run_pc) : Prop := match r with Some (Take i) => (i < next p)%nat | Some (Part i) => (i < count p)%nat | _ => True end.

Definition faithful p (x : nat * P) : Prop := parts p !! fst x = Some (snd x).

(** A round, seen from one thread: what the others hold is [others], and [cn]
    of them have a part to count. *)
Record round_ok p (r : option run_pc) (others : list nat) (cn : Z) : Prop := {
  ro_taken : map fst (executed p) ++ claims (count p) r ++ others ≡ₚ seq 0 (Nat.min (next p) (count p));
  ro_done : Z.of_nat (done' p) + (counting r + cn) = Z.of_nat (length (executed p));
  ro_within : within p r;
  ro_count : count p = length (parts p);
  ro_faithful : Forall (faithful p) (executed p)
}.

(** What a thread's step leaves of the pool. *)
Record same_round p p' : Prop := {
  sr_lock : lock p' = lock p;
  sr_generation : generation p' = generation p;
  sr_parts : parts p' = parts p;
  sr_count : count p' = count p;
  sr_active : active p' = active p;
  sr_next : (next p <= next p')%nat;
  sr_done : (done' p <= done' p')%nat
}.

Ltac pool_cbn := cbn [lock generation parts count next done' active executed faulted claims counting within with_lock with_active] in *.

Lemma run_next_ok p r others cn : round_ok p (Some r) others cn ->
  let '(p', r') := run_next r p in round_ok p' r' others cn /\ faulted p' = faulted p /\ same_round p p' /\
  match r with Fetch => r' = Some (Take (next p)) | Take i => r' = if (count p <=? i)%nat then None else Some (Part i) | Part _ => r' = Some Count | Count => r' = Some Fetch end.
Proof.
  intros [T D W C F]. destruct r as [|i|i|]; cbn [run_next].
  - split; [constructor; pool_cbn; auto|split; [done|split; [constructor; pool_cbn; auto; lia|done]]]. destruct (next p <? count p)%nat eqn:X.
    + apply Nat.ltb_lt in X. rewrite Nat.min_l in T by lia. rewrite Nat.min_l by lia. rewrite seq_S. cbn [plus claims app] in T |- *. rewrite <- T.
      rewrite <- app_assoc. apply Permutation_app_head. apply Permutation_cons_append.
    + apply Nat.ltb_ge in X. rewrite Nat.min_r in T |- * by lia. exact T.
  - cbn [claims within] in *. destruct (count p <=? i)%nat eqn:X.
    + apply Nat.leb_le in X. replace (i <? count p)%nat with false in T by (symmetry; apply Nat.ltb_ge; lia).
      split; [constructor; pool_cbn; auto|split; [done|split; [constructor; pool_cbn; auto; lia|done]]].
    + apply Nat.leb_gt in X. replace (i <? count p)%nat with true in T by (symmetry; apply Nat.ltb_lt; lia).
      split; [constructor; pool_cbn; auto|split; [done|split; [constructor; pool_cbn; auto; lia|done]]].
  - cbn [within] in W. destruct (lookup_lt_is_Some_2 (parts p) i ltac:(lia)) as [x X]. rewrite X.
    split; [constructor; pool_cbn; auto|split; [done|split; [constructor; pool_cbn; auto; lia|done]]].
    + rewrite map_app, <- app_assoc. exact T.
    + rewrite length_app. cbn [length counting] in *. lia.
    + apply Forall_app. split; [exact F|]. now constructor.
  - split; [constructor; pool_cbn; auto|split; [done|split; [constructor; pool_cbn; auto; lia|done]]]. cbn [counting] in *. lia.
Qed.

Lemma within_later p p' r : same_round p p' -> within p r -> within p' r.
Proof. intros S W. destruct r as [[]|]; cbn [within] in *; auto; [pose proof (sr_next _ _ S); lia|now rewrite (sr_count _ _ S)]. Qed.

Lemma round_ok_perm p r others others' cn : others ≡ₚ others' -> round_ok p r others cn -> round_ok p r others' cn.
Proof. intros E [T D W C F]. constructor; auto. now rewrite <- E. Qed.

(** The same round, seen from another thread. *)
Lemma round_ok_swap p r r' others cn : within p r' -> round_ok p r (claims (count p) r' ++ others) (counting r' + cn) -> round_ok p r' (claims (count p) r ++ others) (counting r + cn).
Proof. intros W' [T D W C F]. constructor; auto; [|lia]. rewrite <- T. apply Permutation_app_head. apply Permutation_app_swap_app. Qed.

Lemma concat_insert {A B} (f : A -> list B) l i x : l !! i = Some x -> exists rest, concat (map f l) ≡ₚ f x ++ rest /\ forall y, concat (map f (<[i := y]> l)) ≡ₚ f y ++ rest.
Proof.
  revert i. induction l as [|z l IH]; intros [|i] E; cbn in E; try done.
  - injection E as ->. exists (concat (map f l)). done.
  - destruct (IH i E) as (rest & R & S). exists (f z ++ rest). cbn. split; [rewrite R|intros y; rewrite S]; apply Permutation_app_swap_app.
Qed.

Definition others_of (n : nat) (ws : list worker) : list nat := concat (map (fun w => claims n (w_run w)) ws).
Definition counters (ws : list worker) : Z := total (fun w => counting (w_run w)) ws.

(** Whether a worker has joined the round, and who holds the lock. *)
Definition joined (w : worker) : bool := match w_pc w with WUnlock | WRun _ | WLeave => true | _ => false end.
Definition w_holds (w : worker) : bool := match w_pc w with WJoin | WUnlock => true | _ => false end.
Definition s_holds (s : submit_pc P) : bool := match s with SCheck _ | SParts _ | SCount | SDone | SNext | SGeneration | SUnlock => true | _ => false end.

Definition lock_ok (h : holder) (s : submit_pc P) (ws : list worker) : Prop :=
  s_holds s = (match h with Submitter => true | _ => false end) /\
  forall j w, ws !! j = Some w -> w_holds w = match h with Worker i => bool_decide (j = i) | _ => false end.

(** The round, except while it is being published. *)
Definition phase_ok p (s : submit_pc P) (ws : list worker) : Prop :=
  match s with
  | SCount => executed p = []
  | SDone => executed p = [] /\ count p = length (parts p)
  | SNext => executed p = [] /\ count p = length (parts p) /\ done' p = 0%nat
  | SGeneration | SUnlock => executed p = [] /\ count p = length (parts p) /\ done' p = 0%nat /\ next p = 0%nat
  | _ => round_ok p (submit_run s) (others_of (count p) ws) (counters ws) /\ forall j w, ws !! j = Some w -> within p (w_run w)
  end.

Definition publishing (s : submit_pc P) : bool := match s with SParts _ | SCount | SDone | SNext | SGeneration | SUnlock => true | _ => false end.

Record pool_ok (x : system P) : Prop := {
  po_lock : lock_ok (lock (pool x)) (submitter x) (workers x);
  po_active : Z.of_nat (active (pool x)) = total (fun w => Z.b2z (joined w)) (workers x);
  po_publishing : publishing (submitter x) = true -> active (pool x) = 0%nat;
  po_phase : phase_ok (pool x) (submitter x) (workers x);
  po_through : match submitter x with SWaitDone | SWaitActive | SFlush => (count (pool x) <= next (pool x))%nat | _ => True end;
  po_all : match submitter x with SWaitActive | SFlush => (count (pool x) <= done' (pool x))%nat | _ => True end;
  po_holder : match lock (pool x) with Worker i => (i < length (workers x))%nat | _ => True end;
  po_fault : faulted (pool x) = false
}.

(** *** What the fields do not touch *)

Lemma round_ok_fields p p' r others cn : executed p' = executed p -> count p' = count p -> next p' = next p -> done' p' = done' p -> parts p' = parts p ->
  round_ok p r others cn -> round_ok p' r others cn.
Proof.
  intros E C N D Q [T Dn W Ct F]. constructor; rewrite ?E, ?C, ?N, ?D, ?Q; auto.
  - destruct r as [[]|]; cbn [within] in *; rewrite ?N, ?C; auto.
  - eapply Forall_impl; [exact F|]. unfold faithful. now rewrite Q.
Qed.

Lemma phase_ok_fields p p' s ws : executed p' = executed p -> count p' = count p -> next p' = next p -> done' p' = done' p -> parts p' = parts p ->
  phase_ok p s ws -> phase_ok p' s ws.
Proof.
  intros E C N D Q. assert (R : round_ok p (submit_run s) (others_of (count p) ws) (counters ws) /\ (forall j w, ws !! j = Some w -> within p (w_run w)) ->
    round_ok p' (submit_run s) (others_of (count p') ws) (counters ws) /\ (forall j w, ws !! j = Some w -> within p' (w_run w))).
  { intros [R W]. rewrite C. split; [now apply (round_ok_fields p)|]. intros j w J. specialize (W j w J). destruct (w_run w) as [[]|]; cbn [within] in *; rewrite ?N, ?C; auto. }
  destruct s; first [exact R|cbn [phase_ok]; rewrite ?E, ?C, ?D, ?N, ?Q; auto].
Qed.

Lemma phase_round p s ws : publishing s = false -> phase_ok p s ws =
  (round_ok p (submit_run s) (others_of (count p) ws) (counters ws) /\ forall j w, ws !! j = Some w -> within p (w_run w)).
Proof. destruct s; done. Qed.

Lemma others_insert n ws i w w' : ws !! i = Some w -> w_run w' = w_run w -> others_of n (<[i := w']> ws) ≡ₚ others_of n ws /\ counters (<[i := w']> ws) = counters ws.
Proof.
  intros I E. split.
  - destruct (concat_insert (fun w => claims n (w_run w)) ws i w I) as (rest & A & B). unfold others_of. now rewrite A, B, E.
  - unfold counters. rewrite (total_insert _ _ _ _ _ I), E. lia.
Qed.

Lemma phase_ok_worker p s ws i w w' : ws !! i = Some w -> w_run w' = w_run w -> phase_ok p s ws -> phase_ok p s (<[i := w']> ws).
Proof.
  intros I E. destruct (others_insert (count p) ws i w w' I E) as [O C].
  assert (R : round_ok p (submit_run s) (others_of (count p) ws) (counters ws) /\ (forall j w, ws !! j = Some w -> within p (w_run w)) ->
    round_ok p (submit_run s) (others_of (count p) (<[i := w']> ws)) (counters (<[i := w']> ws)) /\ (forall j v, <[i := w']> ws !! j = Some v -> within p (w_run v))).
  { intros [R W]. rewrite C. split; [now apply round_ok_perm with (others_of (count p) ws)|]. intros j v J. apply list_lookup_insert_Some in J as [(-> & <- & _)|[_ J]]; [rewrite E|]; eauto. }
  destruct s; first [exact R|cbn [phase_ok]; auto].
Qed.

Lemma joined_total_pos ws i w : ws !! i = Some w -> joined w = true -> 0 < total (fun w => Z.b2z (joined w)) ws.
Proof.
  intros I J. apply list_elem_of_split_length in I as (l1 & l2 & -> & _). rewrite total_app. cbn [total foldr]. rewrite J. cbn [Z.b2z].
  assert (N : forall l, 0 <= total (fun w => Z.b2z (joined w)) l) by (intros l; apply total_ge_0, Forall_forall; intros x _; destruct (joined x); cbn; lia).
  pose proof (N l1). pose proof (N l2). unfold total in *. lia.
Qed.

Lemma none_joined ws : total (fun w => Z.b2z (joined w)) ws = 0 -> forall n, others_of n ws = [] /\ counters ws = 0 /\ forall j w, ws !! j = Some w -> w_run w = None.
Proof.
  intros T n. assert (A : forall j w, ws !! j = Some w -> w_run w = None).
  { intros j w J. destruct (joined w) eqn:E; [pose proof (joined_total_pos ws j w J E); lia|]. unfold joined, w_run in *. now destruct (w_pc w). }
  split; [|split; [|done]].
  - unfold others_of. clear T. induction ws as [|w ws IH]; [done|]. cbn. rewrite (A 0%nat w eq_refl). cbn. apply IH. intros j v J. now apply (A (S j)).
  - unfold counters. clear T. induction ws as [|w ws IH]; [done|]. cbn [total foldr]. rewrite (A 0%nat w eq_refl). fold (total (fun w => counting (w_run w)) ws). rewrite IH; [done|]. intros j v J. now apply (A (S j)).
Qed.

(** *** The steps keep it *)

Lemma worker_step_ok p p' s ws i w w' : pool_ok (System p s ws) -> ws !! i = Some w -> worker_next i w p = Some (p', w') -> pool_ok (System p' s (<[i := w']> ws)).
Proof.
  intros [[Ls Lw] A Pb Ph Th Al Ho Fa] I N. cbn [pool submitter workers] in *. pose proof (Lw i w I) as Hi. unfold worker_next in N. unfold w_holds in Hi.
  assert (Tj : total (fun w => Z.b2z (joined w)) (<[i := w']> ws) = Z.of_nat (active p) - Z.b2z (joined w) + Z.b2z (joined w')) by (rewrite (total_insert _ _ _ _ _ I); lia).
  assert (Lk : forall j v, <[i := w']> ws !! j = Some v -> (j = i /\ v = w') \/ (j <> i /\ ws !! j = Some v)) by (intros j v J; apply list_lookup_insert_Some in J as [(-> & <- & _)|[? J]]; auto).
  assert (Jn : joined w = true -> publishing s = false).
  { intros J. destruct (publishing s) eqn:E; [|done]. pose proof (joined_total_pos ws i w I J). specialize (Pb eq_refl). lia. }
  destruct (w_pc w) eqn:Pc.
  - destruct (lock p) eqn:Lo; try done. injection N as <- <-.
    assert (Rn : w_run (WorkerAt WIdle (generation p)) = w_run w) by (unfold w_run; now rewrite Pc).
    assert (Jw : joined w = false) by (unfold joined; now rewrite Pc). rewrite Jw in Tj. constructor; cbn [pool submitter workers]; rewrite ?Lo, ?length_insert; auto; try (eapply lookup_lt_Some; exact I).
    + split; [done|]. intros j v J. destruct (Lk j v J) as [(-> & ->)|[? J']]; [done|now apply (Lw j)].
    + rewrite Tj. cbn [joined w_pc Z.b2z]. lia.
    + now apply phase_ok_worker with w.
  - destruct (lock p) eqn:Lo; try done. destruct (generation p =? w_seen w); [done|]. injection N as <- <-.
    assert (Jw : joined w = false) by (unfold joined; now rewrite Pc). rewrite Jw in Tj. constructor; cbn [pool submitter workers with_lock lock active count next done' faulted]; rewrite ?length_insert; auto; try (eapply lookup_lt_Some; exact I).
    + split; [done|]. intros j v J. destruct (Lk j v J) as [(-> & ->)|[Ne J']]; [now rewrite bool_decide_true|]. rewrite bool_decide_false by done. now apply (Lw j).
    + rewrite Tj. cbn [joined w_pc Z.b2z]. lia.
    + apply (phase_ok_fields p); try done. apply phase_ok_worker with w; auto. unfold w_run. now rewrite Pc.
  - injection N as <- <-. destruct (lock p) as [| |k] eqn:Lo; try done. symmetry in Hi. apply bool_decide_eq_true in Hi as <-.
    assert (Jw : joined w = false) by (unfold joined; now rewrite Pc). rewrite Jw in Tj.
    constructor; cbn [pool submitter workers with_active lock active count next done' faulted]; rewrite ?Lo, ?length_insert; auto; try (eapply lookup_lt_Some; exact I).
    + split; [done|]. intros j v J. destruct (Lk j v J) as [(-> & ->)|[Ne J']]; [now rewrite bool_decide_true|]. now apply (Lw j).
    + rewrite Tj. cbn [joined w_pc Z.b2z]. lia.
    + intros X. destruct s; done.
    + apply (phase_ok_fields p); try done. apply phase_ok_worker with w; auto. unfold w_run. now rewrite Pc.
  - injection N as <- <-. destruct (lock p) as [| |k] eqn:Lo; try done. symmetry in Hi. apply bool_decide_eq_true in Hi as <-.
    assert (Jw : joined w = true) by (unfold joined; now rewrite Pc). rewrite Jw in Tj.
    constructor; cbn [pool submitter workers with_lock lock active count next done' faulted]; rewrite ?length_insert; auto; try (eapply lookup_lt_Some; exact I).
    + split; [done|]. intros j v J. destruct (Lk j v J) as [(-> & ->)|[Ne J']]; [done|]. rewrite (Lw j v J'). now apply bool_decide_false.
    + rewrite Tj. cbn [joined w_pc Z.b2z]. lia.
    + specialize (Jn Jw). rewrite phase_round in Ph |- * by done. destruct Ph as [R W].
      destruct (concat_insert (fun w => claims (count p) (w_run w)) ws i w I) as (rest & B & B').
      assert (Wn : w_run w = None) by (unfold w_run; now rewrite Pc). rewrite Wn in B. cbn [claims app] in B.
      cbn [with_lock count]. split.
      * apply (round_ok_fields p); try done. unfold counters. rewrite (total_insert _ _ _ _ _ I), Wn. fold (counters ws). cbn [w_run w_pc counting]. rewrite Z.sub_0_r, Z.add_0_r.
        apply round_ok_perm with (others_of (count p) ws); [|done]. unfold others_of. rewrite B, B'. done.
      * intros j v J. destruct (Lk j v J) as [(-> & ->)|[Ne J']]; [done|]. now apply (W j).
  - assert (Jw : joined w = true) by (unfold joined; now rewrite Pc). specialize (Jn Jw). rewrite Jw in Tj. rewrite phase_round in Ph by done. destruct Ph as [R W].
    assert (Wr : w_run w = Some r) by (unfold w_run; now rewrite Pc).
    destruct (concat_insert (fun w => claims (count p) (w_run w)) ws i w I) as (rest & B & B'). rewrite Wr in B.
    pose proof (W i w I) as Wi. rewrite Wr in Wi.
    assert (R1 : round_ok p (Some r) (claims (count p) (submit_run s) ++ rest) (counting (submit_run s) + (counters ws - counting (Some r)))).
    { apply round_ok_swap; [done|]. replace (counting (Some r) + (counters ws - counting (Some r))) with (counters ws) by lia. now apply round_ok_perm with (others_of (count p) ws). }
    pose proof (run_next_ok p r _ _ R1) as Q. destruct (run_next r p) as [p1 r1]. destruct Q as (R2 & F2 & S2 & Pr). injection N as <- <-.
    set (w1 := WorkerAt _ (w_seen w)) in *. assert (W1 : w_run w1 = r1) by (subst w1; unfold w_run; now destruct r1).
    assert (J1 : joined w1 = true) by (subst w1; unfold joined; now destruct r1).
    constructor; cbn [pool submitter workers].
    + rewrite (sr_lock _ _ S2). split; [done|]. intros j v J. destruct (Lk j v J) as [(-> & ->)|[Ne J']]; [|now apply (Lw j)].
      rewrite <- Hi. subst w1. unfold w_holds. now destruct r1.
    + rewrite Tj, (sr_active _ _ S2), J1. cbn [Z.b2z]. lia.
    + intros X. congruence.
    + rewrite phase_round by done. split.
      * assert (Ws : within p1 (submit_run s)) by (apply (within_later p); [done|apply R]). rewrite (sr_count _ _ S2) in *.
        assert (R3 : round_ok p1 (submit_run s) (claims (count p1) r1 ++ rest) (counting r1 + (counters ws - counting (Some r)))).
        { apply round_ok_swap; [done|]. now rewrite (sr_count _ _ S2). }
        rewrite (sr_count _ _ S2) in R3. unfold counters. rewrite (total_insert _ _ _ _ _ I), W1, Wr. fold (counters ws).
        replace (counters ws - counting (Some r) + counting r1) with (counting r1 + (counters ws - counting (Some r))) by lia.
        apply round_ok_perm with (claims (count p) r1 ++ rest); [|done]. unfold others_of. now rewrite B', W1.
      * intros j v J. destruct (Lk j v J) as [(-> & ->)|[Ne J']]; [rewrite W1; apply R2|]. apply (within_later p); [done|]. now apply (W j).
    + rewrite (sr_count _ _ S2). destruct s; try done; pose proof (sr_next _ _ S2); lia.
    + rewrite (sr_count _ _ S2). destruct s; try done; pose proof (sr_done _ _ S2); lia.
    + rewrite (sr_lock _ _ S2), length_insert. done.
    + congruence.
  - injection N as <- <-. assert (Jw : joined w = true) by (unfold joined; now rewrite Pc). rewrite Jw in Tj. pose proof (joined_total_pos ws i w I Jw).
    constructor; cbn [pool submitter workers with_active lock active count next done' faulted]; rewrite ?length_insert; auto; try (eapply lookup_lt_Some; exact I).
    + split; [done|]. intros j v J. destruct (Lk j v J) as [(-> & ->)|[Ne J']]; [done|now apply (Lw j)].
    + rewrite Tj. cbn [joined w_pc Z.b2z] in *. lia.
    + intros X. specialize (Jn Jw). congruence.
    + apply (phase_ok_fields p); try done. apply phase_ok_worker with w; auto. unfold w_run. now rewrite Pc.
Qed.

Ltac close_step p Kp Unl := constructor; cbn [pool submitter workers with_lock lock active count next done' faulted]; try done;
    try (now apply Kp); try (now apply Unl); try (now apply (phase_ok_fields p)).

Lemma submitter_step_ok p p' s s' ws : pool_ok (System p s ws) -> submitter_next s p = Some (p', s') -> pool_ok (System p' s' ws).
Proof.
  intros [[Ls Lw] A Pb Ph Th Al Ho Fa] N. cbn [pool submitter workers] in *.
  assert (Free : s_holds s = true -> lock p = Submitter /\ forall j w, ws !! j = Some w -> w_holds w = false).
  { intros H. rewrite H in Ls. destruct (lock p); done. }
  assert (Idle : active p = 0%nat -> forall n, others_of n ws = [] /\ counters ws = 0 /\ forall j w, ws !! j = Some w -> w_run w = None) by (intros Z0; apply none_joined; lia).
  assert (Unl : s_holds s = true -> forall s2 : submit_pc P, s_holds s2 = false -> lock_ok Unlocked s2 ws).
  { intros H s2 H2. split; [done|]. intros j w J. now apply (proj2 (Free H) j). }
  assert (Kp : s_holds s = true -> forall s2 : submit_pc P, s_holds s2 = true -> lock_ok (lock p) s2 ws).
  { intros H s2 H2. destruct (Free H) as [Lo Fr]. rewrite Lo. split; [done|]. intros j w J. now apply (Fr j). }
  destruct s; cbn [submitter_next] in N; try done.
  - destruct (lock p) eqn:Lo; try done. injection N as <- <-. close_step p Kp Unl.
  - destruct (active p =? 0)%nat eqn:E; injection N as <- <-; [apply Nat.eqb_eq in E|]; close_step p Kp Unl.
  - injection N as <- <-. close_step p Kp Unl.
  - injection N as <- <-. close_step p Kp Unl.
  - injection N as <- <-. destruct Ph. close_step p Kp Unl.
  - injection N as <- <-. destruct Ph as (? & ? & ?). close_step p Kp Unl.
  - injection N as <- <-. destruct Ph as (? & ? & ? & ?). close_step p Kp Unl.
  - injection N as <- <-. destruct Ph as (E & C & D & X). close_step p Kp Unl.
    destruct (Idle (Pb eq_refl) (count p)) as (O & Cn & Wr). rewrite phase_round by done. split.
    + cbn [with_lock count]. rewrite O, Cn. constructor; cbn [with_lock executed count next done' parts claims counting within submit_run]; auto; rewrite ?E, ?D, ?X; [now cbn|done|constructor].
    + intros j w J. now rewrite (Wr j w J).
  - pose proof (run_next_ok p r (others_of (count p) ws) (counters ws)) as Q. rewrite phase_round in Ph by done. destruct Ph as [R W]. specialize (Q R).
    destruct (run_next r p) as [p1 r1] eqn:Rn. destruct Q as (R2 & F2 & S2 & Pr). injection N as <- <-.
    assert (Q : exists s2, s2 = match r1 with Some r' => SRun r' | None => SWaitDone end /\ submit_run s2 = r1 /\ publishing s2 = false /\ s_holds s2 = false) by (eexists; split; [reflexivity|]; now destruct r1).
    destruct Q as (s2 & Es & Sr & Sp & Sh). rewrite <- Es. constructor; cbn [pool submitter workers].
    + rewrite (sr_lock _ _ S2). split; [rewrite Sh; exact Ls|exact Lw].
    + rewrite (sr_active _ _ S2). done.
    + intros X. congruence.
    + rewrite phase_round by done. rewrite Sr, (sr_count _ _ S2). split; [done|]. intros j w J. apply (within_later p); [done|]. now apply (W j).
    + destruct r1; subst s2; [done|]. destruct r as [|i|i|]; try done. destruct (count p <=? i)%nat eqn:X; [|done].
      apply Nat.leb_le in X. pose proof (ro_within _ _ _ _ R) as Wi. cbn [within submit_run] in Wi. rewrite (sr_count _ _ S2). pose proof (sr_next _ _ S2). lia.
    + destruct r1; subst s2; done.
    + rewrite (sr_lock _ _ S2). done.
    + congruence.
  - assert (Cl : count p = length (parts p)) by (destruct Ph as [[] _]; done). destruct (done' p <? length (parts p))%nat eqn:E; injection N as <- <-; constructor; cbn [pool submitter workers]; try done.
    apply Nat.ltb_ge in E. lia.
  - destruct (active p =? 0)%nat eqn:E; injection N as <- <-; constructor; cbn [pool submitter workers]; done.
  - injection N as <- <-. constructor; cbn [pool submitter workers]; done.
Qed.

Lemma blit_step_ok x y : pool_step x y -> pool_ok x -> pool_ok y.
Proof.
  intros S O. destruct S as [p ws wave|p ws wave|p p' s s' ws N|p p' s ws i w w' I N].
  - destruct O as [[Ls Lw] A Pb Ph Th Al Ho Fa]. constructor; cbn [pool submitter workers] in *; done.
  - destruct O as [[Ls Lw] A Pb Ph Th Al Ho Fa]. cbn [pool submitter workers] in *. constructor; cbn [pool submitter workers with_lock lock active faulted]; try done.
    + destruct (lock p); done.
    + now apply (phase_ok_fields p).
  - now apply submitter_step_ok with p s.
  - now apply worker_step_ok with p w.
Qed.

Lemma total_replicate_zero {A} (f : A -> Z) n x : f x = 0 -> total f (replicate n x) = 0.
Proof. intros E. rewrite total_replicate, E. lia. Qed.

Lemma pool_start_ok n : pool_ok (pool_start n).
Proof.
  assert (J : forall j w, replicate n (WorkerAt WStart 0) !! j = Some w -> w = WorkerAt WStart 0) by (intros j w X; now apply lookup_replicate in X as [-> _]).
  assert (O : total (fun w => Z.b2z (joined w)) (replicate n (WorkerAt WStart 0)) = 0) by now apply total_replicate_zero.
  unfold pool_start. constructor; cbn [pool submitter workers lock active faulted]; try done.
  - split; [done|]. intros j w X. now rewrite (J j w X).
  - rewrite phase_round by done. destruct (none_joined _ O 0%nat) as (Oo & Co & Wr). cbn [count]. rewrite Oo, Co. split; [constructor; cbn; auto; constructor|].
    intros j w X. now rewrite (Wr j w X).
Qed.

Lemma reachable_ok n x : rtc pool_step (pool_start n) x -> pool_ok x.
Proof. intros R. assert (G : forall a b, rtc pool_step a b -> pool_ok a -> pool_ok b) by (induction 1; eauto using blit_step_ok). now apply (G _ _ R), pool_start_ok. Qed.

End Invariant.

(** ** Properties *)

Section Claims.
Context {P : Type}.

Definition outside (s : submit_pc P) : bool := match s with SIdle => true | _ => false end.

(** Steps of one call of [ps5vk_blit_wave_execute]: until it returns. *)
Definition round_step (x y : system P) : Prop := outside (submitter x) = false /\ pool_step x y.

(** The wave of the call, handed over and then published. *)
Definition serves (wave : list P) (x : system P) : Prop :=
  match submitter x with
  | SIdle => True
  | SLock w | SCheck w | SParts w => w = wave
  | _ => parts (pool x) = wave
  end.

Lemma run_next_parts (r : run_pc) (p : pool_state P) : parts (fst (run_next r p)) = parts p.
Proof. destruct r; cbn [run_next fst]; try done. now destruct (_ !! _). Qed.

Lemma worker_next_parts i w (p p' : pool_state P) w' : worker_next i w p = Some (p', w') -> parts p' = parts p.
Proof.
  unfold worker_next. destruct (w_pc w); try (destruct (lock p)); try destruct (_ =? _); intros N; try discriminate; try (injection N as <- _; done).
  all: pose proof (run_next_parts r p) as R; destruct (run_next r p) as [q o]; injection N as <- _; exact R.
Qed.

Lemma round_step_serves wave x y : round_step x y -> serves wave x -> serves wave y.
Proof.
  intros [O S] V. destruct S as [p ws w|p ws w|p p' s s' ws N|p p' s ws i w w' I N]; unfold serves in *; cbn [submitter pool] in *; try done.
  - destruct s; cbn [submitter_next] in N; try discriminate; try (destruct (lock p); try discriminate); try (destruct (active p =? 0)%nat); try (injection N as <- <-); try done.
    all: try (pose proof (run_next_parts r p) as R; destruct (run_next r p) as [q [o|]]; injection N as <- <-; cbn [fst] in R; congruence).
    all: now destruct (_ <? _)%nat.
  - pose proof (worker_next_parts _ _ _ _ _ N) as E. destruct s; congruence.
Qed.

Lemma omap_seq (l : list P) : omap (fun i => l !! i) (seq 0 (length l)) = l.
Proof.
  induction l as [|x l IH] using rev_ind; [done|]. rewrite length_app, seq_app, omap_app. f_equal.
  - rewrite <- IH at 2. apply list_omap_ext. apply Forall2_same_length_lookup_2; [done|]. intros i j k J K. assert (j = k) as <- by congruence.
    apply lookup_seq in J as [-> J]. now rewrite lookup_app_l by lia.
  - cbn. now rewrite lookup_app_r, Nat.sub_diag by lia.
Qed.

(** A round at its end. *)
Lemma round_end n (x y : system P) wave :
  rtc pool_step (pool_start n) x -> submitter x = SLock wave -> rtc round_step x y ->
  faulted (pool y) = false /\
  (submitter y = SFlush -> map snd (executed (pool y)) ≡ₚ wave /\ NoDup (map fst (executed (pool y))) /\
     forall i w k, workers y !! i = Some w -> w_pc w <> WRun (Part k)).
Proof.
  intros Rx Sx Ry. assert (Oy : pool_ok y).
  { assert (G : forall a b : system P, rtc round_step a b -> pool_ok a -> pool_ok b) by (induction 1 as [|a b c [_ S] _ IH]; eauto using blit_step_ok). apply (G _ _ Ry). now apply reachable_ok with n. }
  assert (Vy : serves wave y).
  { assert (G : forall a b : system P, rtc round_step a b -> serves wave a -> serves wave b) by (induction 1; eauto using round_step_serves). apply (G _ _ Ry). unfold serves. now rewrite Sx. }
  destruct Oy as [_ _ _ Ph Th Al _ Fa]. split; [done|]. intros Sy. unfold serves in Vy. rewrite Sy in *. cbn [phase_ok submit_run] in Ph. destruct Ph as [[T D W C F] Wr]. cbn [claims app counting] in T, D.
  rewrite Nat.min_r in T by done. pose proof (Permutation_length T) as L. rewrite length_app, length_map, length_seq in L.
  assert (Cn : 0 <= counters (workers y)) by (apply total_ge_0, Forall_forall; intros v _; unfold counting; destruct (w_run v) as [[]|]; lia).
  assert (Oe : others_of (count (pool y)) (workers y) = []) by (apply nil_length_inv; lia). rewrite Oe, app_nil_r in T. split; [|split].
  - rewrite <- Vy. assert (E : map snd (executed (pool y)) = omap (fun i => parts (pool y) !! i) (map fst (executed (pool y)))).
    { clear - F. induction F as [|[i x] l Fx F IH]; [done|]. cbn [map fst snd omap list_omap]. unfold faithful in Fx. cbn [fst snd] in Fx. rewrite Fx. now f_equal. }
    rewrite E, T, C. now rewrite omap_seq.
  - rewrite T. apply NoDup_seq.
  - intros i w k I Pc. assert (X : k ∈ others_of (count (pool y)) (workers y)); [|rewrite Oe in X; now apply elem_of_nil in X].
    destruct (concat_insert (fun w => claims (count (pool y)) (w_run w)) (workers y) i w I) as (rest & B & _). unfold others_of. rewrite B. apply elem_of_app. left.
    unfold w_run. rewrite Pc. left.
Qed.

(** C8: however the threads interleave, when [ps5vk_blit_wave_execute] gets to
    its flushes every part of its wave has run exactly once, none is still
    running, and no thread has ever read past the parts or the parts of another
    round. *)
Theorem every_part_runs_once n (x y : system P) wave :
  rtc pool_step (pool_start n) x -> submitter x = SLock wave -> rtc round_step x y ->
  faulted (pool y) = false /\
  (submitter y = SFlush -> map snd (executed (pool y)) ≡ₚ wave /\ NoDup (map fst (executed (pool y))) /\
     forall i w k, workers y !! i = Some w -> w_pc w <> WRun (Part k)).
Proof. apply round_end. Qed.

(** *** Termination *)

(** What a place of [ps5vk_blit_pool_run] has still to do, of [n] parts. *)
Definition run_rank (n : nat) (r : run_pc) : Z :=
  match r with Fetch => 3 | Take i => if (i <? n)%nat then 6 else 2 | Part _ => 5 | Count => 4 end.

(** A worker's way to its sleep, and one more round when the generation it has seen is not the pool's. *)
Definition w_rank (p : pool_state P) (w : worker) : Z :=
  (match w_pc w with WStart => 1 | WIdle => 0 | WJoin => 6 | WUnlock => 4 | WRun r => run_rank (count p) r | WLeave => 1 end) +
  (if generation p =? w_seen w then 0 else 8).

Definition busy (p : pool_state P) : Z := if (active p =? 0)%nat then 0 else 1.

(** The submitter's way out of the call, with the parts and the rounds of its
    [n] workers that it has still to publish. *)
Definition s_rank (n : nat) (p : pool_state P) (s : submit_pc P) : Z :=
  match s with
  | SLock wave => 10 * Z.of_nat (length wave) + 8 * Z.of_nat n + 20
  | SCheck wave => 10 * Z.of_nat (length wave) + 8 * Z.of_nat n + 19 + busy p
  | SParts wave => 10 * Z.of_nat (length wave) + 8 * Z.of_nat n + 18
  | SCount => 10 * Z.of_nat (length (parts p)) + 8 * Z.of_nat n + 17
  | SDone => 5 * Z.of_nat (length (parts p)) + 8 * Z.of_nat n + 16
  | SNext => 5 * Z.of_nat (length (parts p)) + 8 * Z.of_nat n + 15
  | SGeneration => 8 * Z.of_nat n + 14
  | SUnlock => 13
  | SRun r => 3 + run_rank (count p) r
  | SWaitDone => 3
  | SWaitActive => 2 + busy p
  | SFlush => 1
  | SIdle => 0
  end.

(** What is left to do: the parts not taken, the workers, the submitter. *)
Definition work_left (x : system P) : Z :=
  5 * Z.of_nat (count (pool x) - next (pool x)) + total (w_rank (pool x)) (workers x) + s_rank (length (workers x)) (pool x) (submitter x).

(** The submitter waits for another thread: for the lock, for the workers still
    inside a round, or for the parts to be done. *)
Definition waiting (x : system P) : bool :=
  match submitter x with
  | SLock _ => match lock (pool x) with Unlocked => negb (active (pool x) =? 0)%nat | _ => true end
  | SCheck _ | SWaitActive => negb (active (pool x) =? 0)%nat
  | SWaitDone => (done' (pool x) <? length (parts (pool x)))%nat || negb (active (pool x) =? 0)%nat
  | _ => false
  end.

Lemma run_rank_pos n r : 2 <= run_rank n r.
Proof. unfold run_rank. destruct r as [|i| |]; try destruct (_ <? _)%nat; lia. Qed.

Lemma w_rank_nonneg p w : 0 <= w_rank p w.
Proof. unfold w_rank. destruct (w_pc w) as [| | | |r|]; try pose proof (run_rank_pos (count p) r); destruct (_ =? _); lia. Qed.

Lemma busy_bounds (p : pool_state P) : 0 <= busy p <= 1.
Proof. unfold busy. destruct (_ =? _)%nat; lia. Qed.

Lemma s_rank_pos n p s : outside s = false -> 0 < s_rank n p s.
Proof. pose proof (busy_bounds p). destruct s as [| | | | | | | | |r| | |]; cbn [outside s_rank]; try pose proof (run_rank_pos (count p) r); try done; lia. Qed.

Lemma work_left_pos x : outside (submitter x) = false -> 0 < work_left x.
Proof.
  intros O. unfold work_left. pose proof (s_rank_pos (length (workers x)) (pool x) _ O).
  pose proof (total_ge_0 (w_rank (pool x)) (workers x) ltac:(apply Forall_forall; intros w _; apply w_rank_nonneg)). lia.
Qed.

Lemma total_rank p p' ws : generation p' = generation p -> count p' = count p -> total (w_rank p') ws = total (w_rank p) ws.
Proof. intros G C. apply total_ext. intros w _. unfold w_rank. now rewrite G, C. Qed.

(** A step inside the round: what it takes from the counter and from its own place. *)
Lemma run_next_rank r (p : pool_state P) : let '(p', r') := run_next r p in
  generation p' = generation p /\ count p' = count p /\ active p' = active p /\ parts p' = parts p /\
  (match r' with Some r' => run_rank (count p) r' | None => 1 end) + 5 * Z.of_nat (count p' - next p') < run_rank (count p) r + 5 * Z.of_nat (count p - next p).
Proof.
  destruct r as [|k|k|]; cbn [run_next].
  - cbn [generation count next active parts run_rank]. repeat (split; [done|]). destruct (next p <? count p)%nat eqn:X; [apply Nat.ltb_lt in X|apply Nat.ltb_ge in X]; lia.
  - repeat (split; [done|]). cbn [run_rank]. destruct (count p <=? k)%nat eqn:X; [apply Nat.leb_le in X|apply Nat.leb_gt in X].
    + replace (k <? count p)%nat with false by (symmetry; apply Nat.ltb_ge; lia). lia.
    + replace (k <? count p)%nat with true by (symmetry; apply Nat.ltb_lt; lia). cbn [run_rank]. lia.
  - destruct (parts p !! k); cbn [generation count next active parts run_rank]; repeat (split; [done|]); lia.
  - cbn [generation count next active parts run_rank]. repeat (split; [done|]). lia.
Qed.

(** A worker's step, by itself and with the submitter's view of the workers inside. *)
Lemma worker_next_rank i w w' (p p' : pool_state P) : worker_next i w p = Some (p', w') ->
  generation p' = generation p /\ count p' = count p /\ parts p' = parts p /\
  w_rank p w' + 5 * Z.of_nat (count p - next p') < w_rank p w + 5 * Z.of_nat (count p - next p) /\
  w_rank p w' + 5 * Z.of_nat (count p - next p') + busy p' < w_rank p w + 5 * Z.of_nat (count p - next p) + busy p.
Proof.
  intros N. unfold worker_next in N. destruct (w_pc w) as [| | | |r|] eqn:Pc; unfold w_rank; rewrite Pc.
  - destruct (lock p); try done. injection N as <- <-. cbn [w_pc w_seen]. rewrite Z.eqb_refl. repeat (split; [done|]). destruct (_ =? _); lia.
  - destruct (lock p); try done. destruct (generation p =? w_seen w) eqn:G; [done|]. injection N as <- <-. unfold busy. cbn [w_pc w_seen with_lock generation count next active parts]. rewrite Z.eqb_refl. repeat (split; [done|]). lia.
  - injection N as <- <-. pose proof (busy_bounds p) as B. pose proof (busy_bounds (with_active (S (active p)) p)) as B'. cbn [w_pc w_seen with_active generation count next parts] in *. repeat (split; [done|]). lia.
  - injection N as <- <-. unfold busy. cbn [w_pc w_seen with_lock generation count next active parts run_rank]. repeat (split; [done|]). lia.
  - pose proof (run_next_rank r p) as Q. destruct (run_next r p) as [p1 r1]. injection N as <- <-. destruct Q as (G & C & A & R & L). rewrite C in L. unfold busy. rewrite A.
    repeat (split; [done|]). destruct r1; cbn [w_pc w_seen]; lia.
  - injection N as <- <-. unfold busy. cbn [w_pc w_seen with_active generation count next active parts]. repeat (split; [done|]).
    split; [lia|]. destruct (active p) as [|[|a]]; cbn; lia.
Qed.

Lemma worker_step_works p p' s ws i w w' : ws !! i = Some w -> worker_next i w p = Some (p', w') ->
  work_left (System p' s (<[i := w']> ws)) < work_left (System p s ws).
Proof.
  intros I N. destruct (worker_next_rank i w w' p p' N) as (G & C & R & L & L'). unfold work_left. cbn [pool workers submitter].
  rewrite length_insert, (total_rank p p' _ G C), (total_insert _ _ _ _ _ I), C.
  assert (S : s_rank (length ws) p' s = s_rank (length ws) p s \/ s_rank (length ws) p' s - busy p' = s_rank (length ws) p s - busy p)
    by (destruct s; cbn [s_rank]; rewrite ?C, ?R; first [left; reflexivity|right; lia]).
  destruct S; lia.
Qed.

(** While the round is published no worker is inside it. *)
Lemma total_rank_outside p p' ws : total (fun w => Z.b2z (joined w)) ws = 0 ->
  (generation p' = generation p -> total (w_rank p') ws = total (w_rank p) ws) /\ total (w_rank p') ws <= total (w_rank p) ws + 8 * Z.of_nat (length ws).
Proof.
  intros J. destruct (none_joined ws J 0%nat) as (_ & _ & R). clear J.
  assert (E : forall w, w ∈ ws -> (generation p' = generation p -> w_rank p' w = w_rank p w) /\ w_rank p' w <= w_rank p w + 8).
  { intros w W. apply list_elem_of_lookup in W as [j W]. specialize (R j w W). unfold w_run, w_rank in *. destruct (w_pc w); try done; (split; [now intros ->|]); destruct (generation p' =? _), (generation p =? _); lia. }
  clear R. induction ws as [|w ws IH]; [split; [done|cbn; lia]|]. cbn [total foldr length] in *. fold (total (w_rank p') ws) (total (w_rank p) ws).
  destruct (E w ltac:(left)) as [A B]. destruct IH as [IA IB]; [intros v V; apply E; now right|]. split; [intros G; rewrite A, IA by done; lia|lia].
Qed.

(** A submitter's step is a wait, which leaves the work as it is, or does some. *)
Lemma submitter_step_works p p' s s' ws : pool_ok (System p s ws) -> submitter_next s p = Some (p', s') ->
  work_left (System p' s' ws) = work_left (System p s ws) /\ waiting (System p s ws) = true \/
  work_left (System p' s' ws) < work_left (System p s ws) /\ waiting (System p s ws) = false.
Proof.
  intros [_ A Pb Ph _ _ _ _] N. unfold work_left, waiting. cbn [pool submitter workers] in *.
  assert (Out : publishing s = true -> total (fun w => Z.b2z (joined w)) ws = 0) by (intros X; specialize (Pb X); lia).
  assert (B : busy p = if (active p =? 0)%nat then 0 else 1) by done.
  destruct s; cbn [submitter_next publishing phase_ok] in *; try done.
  - destruct (lock p); try done. injection N as <- <-. rewrite (total_rank p) by done. cbn [s_rank]. unfold busy. cbn [with_lock count next active]. destruct (active p =? 0)%nat; cbn [negb]; [right|left]; (split; [lia|done]).
  - destruct (active p =? 0)%nat eqn:E; injection N as <- <-; cbn [negb s_rank].
    + right. split; [lia|done].
    + left. rewrite (total_rank p) by done. cbn [with_lock count next]. split; [lia|done].
  - injection N as <- <-. right. rewrite (total_rank p) by done. cbn [count next parts s_rank]. split; [lia|done].
  - injection N as <- <-. right. destruct (total_rank_outside p (PoolState (lock p) (generation p) (parts p) (length (parts p)) (next p) (done' p) (active p) (executed p) (faulted p)) ws (Out eq_refl)) as [-> _]; [|done].
    cbn [count next parts s_rank]. split; [lia|done].
  - injection N as <- <-. right. rewrite (total_rank p) by done. cbn [count next parts s_rank]. split; [lia|done].
  - injection N as <- <-. right. destruct Ph as (_ & C & _). rewrite (total_rank p) by done. cbn [count next parts s_rank]. rewrite C. split; [lia|done].
  - injection N as <- <-. right. destruct (total_rank_outside p (PoolState (lock p) (u32 (generation p + 1)) (parts p) (count p) (next p) (done' p) (active p) (executed p) (faulted p)) ws (Out eq_refl)) as [_ X].
    cbn [count next parts s_rank]. split; [lia|done].
  - injection N as <- <-. right. rewrite (total_rank p) by done. cbn [with_lock count next parts s_rank run_rank]. split; [lia|done].
  - pose proof (run_next_rank r p) as Q. destruct (run_next r p) as [p1 r1]. injection N as <- <-. destruct Q as (G & C & Ac & R & L). right.
    rewrite (total_rank p p1) by done. rewrite C in *. destruct r1; cbn [s_rank]; rewrite ?C; (split; [lia|done]).
  - destruct (done' p <? length (parts p))%nat; injection N as <- <-; cbn [orb s_rank]; [left; split; [lia|done]|].
    unfold busy. destruct (active p =? 0)%nat; cbn [negb]; [right|left]; (split; [lia|done]).
  - unfold busy. destruct (active p =? 0)%nat eqn:E; injection N as <- <-; cbn [negb s_rank]; unfold busy; rewrite ?E; [right|left]; (split; [lia|done]).
  - injection N as <- <-. right. cbn [s_rank]. split; [lia|done].
Qed.

Lemma total_joined_some ws : total (fun w => Z.b2z (joined w)) ws <> 0 -> exists i w, ws !! i = Some w /\ joined w = true.
Proof.
  induction ws as [|w ws IH]; [done|]. cbn [total foldr]. destruct (joined w) eqn:J; [exists 0%nat, w; done|]. intros N. destruct IH as (i & v & I & V); [exact N|]. now exists (S i), v.
Qed.

Lemma joined_moves i w (p : pool_state P) : joined w = true -> exists q, worker_next i w p = Some q.
Proof. unfold joined, worker_next. destruct (w_pc w); try done; intros _; eauto. destruct (run_next r p). eauto. Qed.

(** When the submitter waits, some worker can move. *)
Lemma waited_for_moves p s ws : pool_ok (System p s ws) -> waiting (System p s ws) = true -> exists i w q, ws !! i = Some w /\ worker_next i w p = Some q.
Proof.
  intros [[Ls Lw] A Pb Ph Th Al Ho Fa] Wt. unfold waiting in Wt. cbn [pool submitter workers] in *.
  assert (J : total (fun w => Z.b2z (joined w)) ws <> 0 -> exists i w q, ws !! i = Some w /\ worker_next i w p = Some q).
  { intros N. destruct (total_joined_some ws N) as (i & w & I & Jw). destruct (joined_moves i w p Jw) as [q Q]. now exists i, w, q. }
  assert (Ac : negb (active p =? 0)%nat = true -> total (fun w => Z.b2z (joined w)) ws <> 0) by (intros X; apply negb_true_iff, Nat.eqb_neq in X; lia).
  destruct s; try done; auto.
  - destruct (lock p) as [| |k] eqn:Lo; try done; auto. destruct (lookup_lt_is_Some_2 ws k Ho) as [w I]. pose proof (Lw k w I) as Hk. rewrite bool_decide_true in Hk by done.
    exists k, w. unfold w_holds in Hk. unfold worker_next. destruct (w_pc w); try done; eauto.
  - apply orb_true_iff in Wt as [Wt|Wt]; auto. apply Nat.ltb_lt in Wt. apply J. intros Z0. destruct (none_joined ws Z0 (count p)) as (O & C & _). destruct Ph as [[T D W Ct F] _]. cbn [submit_run claims counting app] in *.
    rewrite O in T. rewrite C in D. rewrite app_nil_r, Nat.min_r in T by done. apply Permutation_length in T. rewrite length_map, length_seq in T. lia.
Qed.

(** The submitter moves when it does not wait. *)
Lemma submitter_moves p s ws : outside s = false -> waiting (System p s ws) = false -> exists q, submitter_next s p = Some q.
Proof.
  intros O Wt. unfold waiting in Wt. cbn [pool submitter workers] in *. destruct s; cbn [submitter_next] in *; try done; eauto.
  - destruct (lock p); try done. eauto.
  - destruct (active p =? 0)%nat; eauto.
  - destruct (run_next r p) as [q o]. eauto.
Qed.

(** C26: a call of [ps5vk_blit_wave_execute] comes to its end however its
    threads are scheduled.  Until it returns there is work left, every step of
    any thread does some of it, the submitter's waiting for the others apart,
    which leaves it as it is, and some thread has a step that does some.  So
    after as many steps as there is work left, its waits not counted, the call
    has returned. *)
Theorem waves_end n (y : system P) : rtc pool_step (pool_start n) y -> outside (submitter y) = false ->
  0 < work_left y /\
  (forall z, pool_step y z -> work_left z < work_left y \/ (work_left z = work_left y /\ waiting y = true /\ workers z = workers y)) /\
  (exists z, pool_step y z /\ work_left z < work_left y).
Proof.
  intros R O. apply reachable_ok in R. split; [now apply work_left_pos|]. destruct y as [p s ws]. cbn [submitter] in O. split.
  - intros z S. inversion S as [? ? wave|? ? wave|? p' ? s' ? N|? p' ? ? i w w' I N]; subst; [done| | |].
    + left. unfold work_left. cbn [pool submitter workers with_lock count next s_rank]. rewrite (total_rank p) by done. lia.
    + destruct (submitter_step_works p p' s s' ws R N) as [[E W]|[L _]]; [right|now left]. done.
    + left. now apply worker_step_works with w.
  - destruct (waiting (System p s ws)) eqn:W.
    + destruct (waited_for_moves p s ws R W) as (i & w & [p' w'] & I & N). exists (System p' s (<[i := w']> ws)). split; [now apply step_worker with w|now apply worker_step_works with w].
    + destruct (submitter_moves p s ws O W) as [[p' s'] N]. exists (System p' s' ws). split; [now apply step_submitter|].
      destruct (submitter_step_works p p' s s' ws R N) as [[_ E]|[L _]]; [congruence|done].
Qed.

End Claims.

(** ** A round of two parts by one worker and the submitter *)

Fixpoint run_schedule {P} (schedule : list (option nat)) (x : system P) : option (system P) :=
  match schedule with
  | [] => Some x
  | None :: rest =>
      match submitter_next (submitter x) (pool x) with
      | Some (p, s) => run_schedule rest (System p s (workers x))
      | None => None
      end
  | Some i :: rest =>
      match workers x !! i with
      | Some w => match worker_next i w (pool x) with
                  | Some (p, w') => run_schedule rest (System p (submitter x) (<[i := w']> (workers x)))
                  | None => None
                  end
      | None => None
      end
  end.

Lemma run_schedule_steps {P} schedule (x y : system P) : run_schedule schedule x = Some y -> rtc pool_step x y.
Proof.
  revert x. induction schedule as [|[i|] rest IH]; intros [p s ws] E; cbn [run_schedule pool submitter workers] in E.
  - injection E as <-. constructor.
  - destruct (ws !! i) as [w|] eqn:I; [|done]. destruct (worker_next i w p) as [[p' w']|] eqn:N; [|done]. eapply rtc_l; [|exact (IH _ E)]. exact (step_worker p p' s ws i w w' I N).
  - destruct (submitter_next s p) as [[p' s']|] eqn:N; [|done]. eapply rtc_l; [|exact (IH _ E)]. exact (step_submitter p p' s s' ws N).
Qed.

(** The submitter is never outside before the last step of a schedule that ends inside. *)
Fixpoint stays_inside {P} (schedule : list (option nat)) (x : system P) : bool :=
  match schedule with
  | [] => true
  | None :: rest =>
      negb (outside (submitter x)) &&
      match submitter_next (submitter x) (pool x) with
      | Some (p, s) => stays_inside rest (System p s (workers x))
      | None => false
      end
  | Some i :: rest =>
      negb (outside (submitter x)) &&
      match workers x !! i with
      | Some w => match worker_next i w (pool x) with
                  | Some (p, w') => stays_inside rest (System p (submitter x) (<[i := w']> (workers x)))
                  | None => false
                  end
      | None => false
      end
  end.

Lemma run_schedule_round {P} schedule (x y : system P) : run_schedule schedule x = Some y -> stays_inside schedule x = true -> rtc round_step x y.
Proof.
  revert x. induction schedule as [|[i|] rest IH]; intros [p s ws] E T; cbn [run_schedule stays_inside pool submitter workers] in E, T.
  - injection E as <-. constructor.
  - apply andb_true_iff in T as [O T]. destruct (ws !! i) as [w|] eqn:I; [|done]. destruct (worker_next i w p) as [[p' w']|] eqn:N; [|done].
    eapply rtc_l; [|exact (IH _ E T)]. split; [now apply negb_true_iff|]. exact (step_worker p p' s ws i w w' I N).
  - apply andb_true_iff in T as [O T]. destruct (submitter_next s p) as [[p' s']|] eqn:N; [|done]. eapply rtc_l; [|exact (IH _ E T)]. split; [now apply negb_true_iff|]. exact (step_submitter p p' s s' ws N).
Qed.

(** The worker joins after the publication and takes the second part; the
    submitter finds the parts done, the worker still inside, and tests again. *)
Definition example_schedule : list (option nat) :=
  repeat None 10 ++ repeat (Some 0%nat) 8 ++ repeat None 10 ++ repeat (Some 0%nat) 2 ++ repeat None 2.

Definition example_begin : system Z := System (PoolState Unlocked 0 [] 0 0 0 0 [] false) (SLock [7; 8]) [WorkerAt WIdle 0].

Lemma example_begin_reachable : rtc pool_step (pool_start 1) example_begin.
Proof.
  apply rtc_l with (System (PoolState Unlocked 0 [] 0 0 0 0 [] false) SIdle [WorkerAt WIdle 0]).
  - exact (step_worker (PoolState Unlocked 0 [] 0 0 0 0 [] false) (PoolState Unlocked 0 [] 0 0 0 0 [] false) SIdle [WorkerAt WStart 0] 0 (WorkerAt WStart 0) (WorkerAt WIdle 0) eq_refl eq_refl).
  - apply rtc_once. apply step_submit.
Qed.

Lemma every_part_runs_once_witness : exists y, run_schedule example_schedule example_begin = Some y /\ submitter y = SFlush /\ map snd (executed (pool y)) = [8; 7] /\
  map snd (executed (pool y)) ≡ₚ [7; 8] /\ faulted (pool y) = false.
Proof.
  eexists. split; [vm_compute; reflexivity|]. split; [reflexivity|]. split; [reflexivity|].
  match goal with |- _ ≡ₚ _ /\ faulted (pool ?y) = _ => destruct (every_part_runs_once 1 example_begin y [7; 8] example_begin_reachable) as [F H] end.
  - reflexivity.
  - apply (run_schedule_round example_schedule); vm_compute; reflexivity.
  - split; [apply (H eq_refl)|exact F].
Defined.

(** After the submitter has finished its part: it waits for the worker to leave. *)
Lemma waves_end_witness : exists y, run_schedule (repeat None 10 ++ repeat (Some 0%nat) 8 ++ repeat None 9) example_begin = Some y /\ waiting y = true /\ work_left y = 5 /\
  exists z, pool_step y z /\ work_left z < 5.
Proof.
  eexists. split; [vm_compute; reflexivity|]. split; [reflexivity|]. split; [reflexivity|].
  eapply (waves_end 1); [|reflexivity].
  etrans; [exact example_begin_reachable|]. apply (run_schedule_steps (repeat None 10 ++ repeat (Some 0%nat) 8 ++ repeat None 9)). vm_compute. reflexivity.
Defined.
