(* ===== verification/BlitWaves.v ===== *)
(** * What a wave writes ([src/driver/ps5vk_queue.c])

    The parts of a record cover its rows once each and fill the array they are
    put in; and in whatever order a wave's parts run, the memory they leave is
    the one the records leave when they run one after the other.  What a range
    of rows reads and writes (the resampling itself, in floating point) is an
    interface. *)

From Stdlib Require Import ZArith Lia.
From stdpp Require Import base numbers list relations.
From S2P Require Import Prelude DriverPrelude DriverMemory CopySteps BlitPool.
Open Scope Z_scope.

(** ** Rows *)

Definition rows_of (p : blit_part) : list Z := seqZ (bp_row_begin p) (bp_row_end p - bp_row_begin p).

(** [ps5vk_blit_execute]: the record as one part *)
Definition whole (c : memory_copy) : blit_part := BlitPart c 0 (mc_height c).

Definition height_ok (threads : Z) (c : memory_copy) : Prop := 0 <= mc_height c /\ 1 <= threads /\ 2 * threads < 2 ^ 31 /\ mc_height c < 2 ^ 31.

Lemma part_rows_pos threads c : height_ok threads c -> 16 <= blit_part_rows (mc_height c) threads /\ mc_height c + blit_part_rows (mc_height c) threads < 2 ^ 32.
Proof.
  unfold height_ok, blit_part_rows, PS5VK_BLIT_MIN_ROWS, div_round_up. intros (H & T & T' & H'). split; [lia|]. rewrite u32_small by lia.
  assert ((mc_height c + 2 * threads - 1) / (2 * threads) <= mc_height c + 1); [|lia]. apply Z.div_le_upper_bound; nia.
Qed.

(** Rows taken [rows] at a time from [row] on. *)
Lemma cut_rows_spec fuel c rows row : 1 <= rows -> mc_height c + rows < 2 ^ 32 -> 0 <= row -> row < mc_height c \/ (row = 0 /\ mc_height c = 0) -> (Z.to_nat (mc_height c - row) < fuel)%nat ->
  let parts := cut_rows fuel c rows row in
  concat (map rows_of parts) = seqZ row (mc_height c - row) /\
  Z.of_nat (length parts) = Z.max 1 ((mc_height c - row + rows - 1) / rows) /\
  Forall (fun p => bp_copy p = c /\ row <= bp_row_begin p <= bp_row_end p /\ bp_row_end p <= mc_height c) parts.
Proof.
  intros R S. revert row. induction fuel as [|fuel IH]; intros row P C F; [lia|]. cbn [cut_rows]. rewrite u32_small by lia. cbv zeta.
  destruct (row + rows <? mc_height c) eqn:E; to_prop.
  - rewrite Z.min_r by lia. destruct (IH (row + rows)) as (Cv & Ln & Fp); [lia|lia|lia|]. cbn [map concat length]. rewrite Cv. split; [|split].
    + unfold rows_of. cbn [bp_row_begin bp_row_end]. replace (row + rows - row) with rows by lia.
      replace (mc_height c - row) with (rows + (mc_height c - (row + rows))) by lia. rewrite seqZ_app by lia. done.
    + rewrite Nat2Z.inj_succ, Ln. replace (mc_height c - row + rows - 1) with (mc_height c - (row + rows) + rows - 1 + 1 * rows) by lia. rewrite Z.div_add by lia.
      assert (1 <= (mc_height c - (row + rows) + rows - 1) / rows) by (apply Z.div_le_lower_bound; lia). lia.
    + constructor; [cbn [bp_copy bp_row_begin bp_row_end]; split; [done|lia]|]. eapply Forall_impl; [exact Fp|]. cbv beta. intros p (? & ? & ?). repeat split; auto; lia.
  - rewrite Z.min_l by lia. cbn [map concat length]. rewrite app_nil_r. split; [|split].
    + done.
    + assert ((mc_height c - row + rows - 1) / rows <= 1) by (apply Z.lt_succ_r, Z.div_lt_upper_bound; lia). lia.
    + constructor; [cbn [bp_copy bp_row_begin bp_row_end]; split; [done|lia]|constructor].
Qed.

Definition record_cut (threads : Z) (c : memory_copy) : list blit_part := cut_rows (S (Z.to_nat (mc_height c))) c (blit_part_rows (mc_height c) threads) 0.

Lemma record_cut_spec threads c : height_ok threads c ->
  concat (map rows_of (record_cut threads c)) = rows_of (whole c) /\ Z.of_nat (length (record_cut threads c)) = record_parts threads c /\
  Forall (fun p => bp_copy p = c /\ 0 <= bp_row_begin p <= bp_row_end p /\ bp_row_end p <= mc_height c) (record_cut threads c).
Proof.
  intros H. destruct (part_rows_pos threads c H) as [R L]. destruct H as (H0 & _).
  destruct (cut_rows_spec (S (Z.to_nat (mc_height c))) c (blit_part_rows (mc_height c) threads) 0) as (C & N & F); [lia|lia|lia|lia|lia|]. rewrite Z.sub_0_r in *.
  split; [|split; [|exact F]].
  - unfold record_cut. rewrite C. unfold rows_of, whole. cbn [bp_row_begin bp_row_end]. now rewrite Z.sub_0_r.
  - unfold record_cut, record_parts, div_round_up. rewrite N, u32_small by lia. done.
Qed.

(** ** What rows write *)

(** Resampling a range of rows, and the addresses it reads and writes. *)
Class BlitRows := {
  run_rows : blit_part -> memory -> memory;
  row_reads : memory_copy -> Z -> Z -> Prop;
  row_writes : memory_copy -> Z -> Z -> Prop
}.

Section Memory.
Context `{B : BlitRows}.

Definition reads (p : blit_part) (a : Z) : Prop := exists row, bp_row_begin p <= row < bp_row_end p /\ row_reads (bp_copy p) row a.
Definition writes (p : blit_part) (a : Z) : Prop := exists row, bp_row_begin p <= row < bp_row_end p /\ row_writes (bp_copy p) row a.

(** Rows are run in order, write what they name and depend on what they read. *)
Class BlitRowsLaws := {
  rows_outside : forall p m a, ~ writes p a -> run_rows p m a = m a;
  rows_inside : forall p m m' a, writes p a -> (forall b, reads p b -> m b = m' b) -> run_rows p m a = run_rows p m' a;
  rows_split : forall c b e f m, b <= e <= f -> run_rows (BlitPart c b f) m = run_rows (BlitPart c e f) (run_rows (BlitPart c b e) m);
  rows_decided : forall p a, writes p a \/ ~ writes p a
}.

(** Two parts that meet in nothing one of them writes. *)
Definition part_apart (p q : blit_part) : Prop := forall a, (writes p a -> ~ writes q a /\ ~ reads q a) /\ (writes q a -> ~ reads p a).

Definition run_parts (l : list blit_part) (m : memory) : memory := foldl (fun m p => run_rows p m) m l.
Definition same (m m' : memory) : Prop := forall a, m a = m' a.

#[global] Instance same_equivalence : Equivalence same.
Proof. split; [intros m a; done|intros m m' E a; now rewrite E|intros m m' m'' E E' a; now rewrite E, E']. Qed.

Context {L : BlitRowsLaws}.

#[global] Instance run_rows_proper p : Proper (same ==> same) (run_rows p).
Proof.
  intros m m' E a. destruct (rows_decided p a) as [W|W]; [|now rewrite !rows_outside]. apply rows_inside; auto.
Qed.

#[global] Instance run_parts_proper l : Proper (same ==> same) (run_parts l).
Proof. unfold run_parts. induction l as [|p l IH]; intros m m' E; [done|]. cbn [foldl]. apply IH. now rewrite E. Qed.

Lemma run_rows_swap p q m : part_apart p q -> same (run_rows p (run_rows q m)) (run_rows q (run_rows p m)).
Proof.
  intros A a. destruct (A a) as [Ap Aq]. destruct (rows_decided p a) as [Wp|Wp].
  - rewrite (rows_outside q _ a) by (now apply Ap). apply rows_inside; [done|]. intros b Rb. apply rows_outside. intros Wq. now apply (proj2 (A b)).
  - rewrite (rows_outside p _ a) by done. destruct (rows_decided q a) as [Wq|Wq].
    + apply rows_inside; [done|]. intros b Rb. symmetry. apply rows_outside. intros Wb. now apply (proj1 (A b)).
    + now rewrite !rows_outside.
Qed.

Lemma run_parts_app l l' m : run_parts (l ++ l') m = run_parts l' (run_parts l m).
Proof. unfold run_parts. apply foldl_app. Qed.

(** Parts apart from each other give one memory in every order. *)
Lemma run_parts_perm l l' m : l ≡ₚ l' -> (forall i j p q, l !! i = Some p -> l !! j = Some q -> i <> j -> part_apart p q) -> same (run_parts l m) (run_parts l' m).
Proof.
  intros P. revert m. induction P as [|p l l' P IH|p q l|l l' l'' P IH P' IH']; intros m A.
  - reflexivity.
  - cbn. apply IH. intros i j x y I J N. apply (A (S i) (S j)); auto.
  - cbn. apply run_parts_proper. apply run_rows_swap. now apply (A 1%nat 0%nat).
  - rewrite IH by done. apply IH'. intros i j x y I J N. destruct (Permutation_inj l' l) as [X _]. destruct (X (Permutation_sym P)) as (_ & f & Fi & Fp).
    rewrite Fp in I, J. apply (A (f i) (f j)); auto.
Qed.

(** The parts of one record, in order, are the record. *)
Lemma run_cut fuel c rows row m : 1 <= rows -> mc_height c + rows < 2 ^ 32 -> 0 <= row -> row < mc_height c \/ (row = 0 /\ mc_height c = 0) -> (Z.to_nat (mc_height c - row) < fuel)%nat ->
  run_parts (cut_rows fuel c rows row) m = run_rows (BlitPart c row (mc_height c)) m.
Proof.
  intros R S. revert row m. induction fuel as [|fuel IH]; intros row m P C F; [lia|]. cbn [cut_rows]. rewrite u32_small by lia. destruct (row + rows <? mc_height c) eqn:E; to_prop.
  - rewrite Z.min_r by lia. cbn [run_parts foldl]. fold (run_parts (cut_rows fuel c rows (row + rows)) (run_rows (BlitPart c row (row + rows)) m)).
    rewrite IH by lia. symmetry. apply rows_split. lia.
  - rewrite Z.min_l by lia. done.
Qed.

End Memory.

(** ** Waves *)

Definition in_span (span : Z * Z) (a : Z) : Prop := fst span <= a < fst span + snd span.

Section Waves.
Context `{B : BlitRows} {L : BlitRowsLaws}.

(** What recording a blit has checked: its rows stay in its spans, which do not
    wrap, no two of its rows write one texel, and it does not read what it writes. *)
Record blit_valid (c : memory_copy) : Prop := {
  bv_source : 0 <= fst (mc_source_span c) /\ 0 <= snd (mc_source_span c) /\ fst (mc_source_span c) + snd (mc_source_span c) < 2 ^ 64;
  bv_destination : 0 <= fst (mc_destination_span c) /\ 0 <= snd (mc_destination_span c) /\ fst (mc_destination_span c) + snd (mc_destination_span c) < 2 ^ 64;
  bv_reads : forall row a, 0 <= row < mc_height c -> row_reads c row a -> in_span (mc_source_span c) a;
  bv_writes : forall row a, 0 <= row < mc_height c -> row_writes c row a -> in_span (mc_destination_span c) a;
  bv_rows : forall row row' a, 0 <= row < mc_height c -> 0 <= row' < mc_height c -> row_writes c row a -> row_writes c row' a -> row = row';
  bv_apart : forall row row' a, 0 <= row < mc_height c -> 0 <= row' < mc_height c -> row_writes c row a -> ~ row_reads c row' a
}.

Definition pairwise_apart (l : list blit_part) : Prop := forall i j p q, l !! i = Some p -> l !! j = Some q -> i <> j -> part_apart p q.

Lemma part_apart_sym p q : part_apart p q -> part_apart q p.
Proof. intros A a. destruct (A a) as [A1 A2]. split; [|intros W; apply (A1 W)]. intros W. split; [|apply (A2 W)]. intros Wp. destruct (A1 Wp) as [N _]. now apply N. Qed.

Lemma pairwise_app l l' : pairwise_apart l -> pairwise_apart l' -> (forall p q, p ∈ l -> q ∈ l' -> part_apart p q) -> pairwise_apart (l ++ l').
Proof.
  intros A A' X i j p q I J N. apply lookup_app_Some in I as [I|[I1 I]]; apply lookup_app_Some in J as [J|[J1 J]].
  - now apply (A i j).
  - apply X; by eapply list_elem_of_lookup_2.
  - apply part_apart_sym, X; by eapply list_elem_of_lookup_2.
  - apply (A' _ _ _ _ I J). lia.
Qed.

Lemma rows_apart c p q : blit_valid c -> bp_copy p = c -> bp_copy q = c -> 0 <= bp_row_begin p -> bp_row_end p <= bp_row_begin q -> bp_row_begin q <= bp_row_end q -> bp_row_end q <= mc_height c ->
  part_apart p q.
Proof.
  intros V P Q B0 E Bq Eq a. unfold writes, reads. rewrite P, Q. split.
  - intros (r & R & W). split; intros (r' & R' & W'); [|apply (bv_apart c V r r' a); auto; lia]. pose proof (bv_rows c V r r' a ltac:(lia) ltac:(lia) W W'). lia.
  - intros (r & R & W) (r' & R' & W'). apply (bv_apart c V r r' a); auto; lia.
Qed.

Lemma cut_rows_apart fuel c rows row : blit_valid c -> 1 <= rows -> mc_height c + rows < 2 ^ 32 -> 0 <= row -> row < mc_height c \/ (row = 0 /\ mc_height c = 0) -> (Z.to_nat (mc_height c - row) < fuel)%nat ->
  pairwise_apart (cut_rows fuel c rows row).
Proof.
  intros V R S. revert row. induction fuel as [|fuel IH]; intros row P C F; [lia|]. cbn [cut_rows]. rewrite u32_small by lia. apply (pairwise_app [_]).
  - intros i j p q I J N. apply list_lookup_singleton_Some in I as [I _]. apply list_lookup_singleton_Some in J as [J _]. lia.
  - destruct (row + rows <? mc_height c) eqn:E; to_prop; [apply IH; lia|]. intros i j p q I. discriminate.
  - destruct (row + rows <? mc_height c) eqn:E; to_prop; [|intros p q _ Q; now apply elem_of_nil in Q]. intros p q Ip Iq. apply list_elem_of_singleton in Ip as ->.
    destruct (cut_rows_spec fuel c rows (row + rows)) as (_ & _ & Fq); [lia|lia|lia|lia|lia|]. rewrite Forall_forall in Fq. destruct (Fq q Iq) as (Cq & Rq & Eq).
    apply rows_apart with c; auto; cbn [bp_row_begin bp_row_end]; lia.
Qed.

(** Spans that do not overlap share no address. *)
Lemma spans_apart a b x : 0 <= fst a -> 0 <= fst b -> fst a + snd a < 2 ^ 64 -> fst b + snd b < 2 ^ 64 -> 0 <= snd a -> 0 <= snd b ->
  spans_overlap a b = false -> in_span a x -> in_span b x -> False.
Proof.
  unfold spans_overlap, in_span. intros A0 B0 A B' Sa Sb O I J. rewrite !u64_small in O by lia. apply andb_false_iff in O as [O|O]; to_prop; lia.
Qed.

Lemma records_apart threads c d p q : blit_valid c -> blit_valid d -> height_ok threads c -> height_ok threads d -> blits_meet c d = false ->
  p ∈ record_cut threads c -> q ∈ record_cut threads d -> part_apart p q.
Proof.
  intros Vc Vd Hc Hd M P Q. destruct (record_cut_spec threads c Hc) as (_ & _ & Fc). destruct (record_cut_spec threads d Hd) as (_ & _ & Fd).
  rewrite Forall_forall in Fc, Fd. destruct (Fc p P) as (Cp & Bp & Ep), (Fd q Q) as (Cq & Bq & Eq). unfold blits_meet in M. cbn [existsb] in M. rewrite !orb_false_r in M.
  apply orb_false_iff in M as [M1 M2]. apply orb_false_iff in M1 as [M11 M12]. apply orb_false_iff in M2 as [M21 M22].
  destruct Vc as [Sc Dc Rc Wc _ _], Vd as [Sd Dd Rd Wd _ _].
  assert (Wp : forall x, writes p x -> in_span (mc_destination_span c) x) by (intros x (r & R & W); rewrite Cp in W; apply (Wc r); [lia|done]).
  assert (Rp : forall x, reads p x -> in_span (mc_source_span c) x) by (intros x (r & R & W); rewrite Cp in W; apply (Rc r); [lia|done]).
  assert (Wq : forall x, writes q x -> in_span (mc_destination_span d) x) by (intros x (r & R & W); rewrite Cq in W; apply (Wd r); [lia|done]).
  assert (Rq : forall x, reads q x -> in_span (mc_source_span d) x) by (intros x (r & R & W); rewrite Cq in W; apply (Rd r); [lia|done]).
  intros x. split; [intros W; split|]; intros W' .
  - apply (spans_apart (mc_destination_span c) (mc_destination_span d) x); try apply Dc; try apply Dd; auto.
  - apply (spans_apart (mc_destination_span c) (mc_source_span d) x); try apply Dc; try apply Sd; auto.
  - intros W2. apply (spans_apart (mc_source_span c) (mc_destination_span d) x); try apply Sc; try apply Dd; auto.
Qed.

Lemma wave_parts_apart threads wave : wave_ok wave -> Forall blit_valid wave -> Forall (height_ok threads) wave -> pairwise_apart (wave_parts threads wave).
Proof.
  intros [_ W] V H. unfold wave_parts. fold (record_cut threads). induction wave as [|c wave IH]; cbn [map concat]; [intros i j p q I; discriminate|].
  apply Forall_cons in V as [Vc V]. apply Forall_cons in H as [Hc H]. apply pairwise_app.
  - destruct (part_rows_pos threads c Hc). destruct Hc as (Hh & _). apply cut_rows_apart; auto; lia.
  - apply IH; auto. intros i j a b I J N. apply (W (S i) (S j)); auto.
  - intros p q P Q. apply list_elem_of_In, in_concat in Q as (l & Il & Q). apply in_map_iff in Il as (d & <- & Id). apply list_elem_of_In in Id, Q.
    rewrite Forall_forall in V, H. apply records_apart with threads c d; auto. apply list_elem_of_lookup_1 in Id as [j J]. now apply (W 0%nat (S j)).
Qed.

Lemma run_wave_parts threads wave m : Forall (height_ok threads) wave -> run_parts (wave_parts threads wave) m = run_parts (map whole wave) m.
Proof.
  intros H. unfold wave_parts. revert m. induction H as [|c wave Hc H IH]; intros m; [done|]. cbn [map concat]. rewrite run_parts_app. destruct (part_rows_pos threads c Hc) as [R S]. destruct Hc as (Hh & _).
  rewrite run_cut by lia. rewrite IH. done.
Qed.

End Waves.

(** ** Properties *)

(** A record's parts take each of its rows once, in order, and are as many
    as the array they are written to has room for. *)
Theorem parts_cover_rows threads wave : Forall (height_ok threads) wave ->
  Forall (fun c => concat (map rows_of (record_cut threads c)) = seqZ 0 (mc_height c)) wave /\
  wave_parts threads wave = concat (map (record_cut threads) wave) /\
  Z.of_nat (length (wave_parts threads wave)) = wave_total threads wave.
Proof.
  intros H. split; [|split; [done|]].
  - eapply Forall_impl; [exact H|]. intros c Hc. destruct (record_cut_spec threads c Hc) as (E & _). rewrite E. unfold rows_of, whole. cbn [bp_row_begin bp_row_end]. now rewrite Z.sub_0_r.
  - unfold wave_parts, wave_total. induction H as [|c wave Hc H IH]; [done|]. cbn [map concat total foldr]. rewrite length_app, Nat2Z.inj_add, IH.
    destruct (record_cut_spec threads c Hc) as (_ & N & _). unfold record_cut in N. rewrite N. done.
Qed.

(** C1: a wave the pool runs leaves the memory its records leave one after the
    other.  For a wave [ps5vk_queue_run_copy_steps] puts together from the
    records at one split point, cut for any number of threads and run by the
    pool under any schedule, the parts run by the time of the flushes give the
    same memory, in the order they happened to run, as [ps5vk_blit_execute] of
    each record in turn. *)
Theorem parallel_wave_is_serial `{B : BlitRows} {L : BlitRowsLaws} n threads end' c rest (x y : system blit_part) m :
  let wave := fst (take_wave end' [c] rest) in
  blit_conflicts c [] = false -> Forall blit_valid wave -> Forall (height_ok threads) wave ->
  rtc pool_step (pool_start n) x -> submitter x = SLock (wave_parts threads wave) -> rtc round_step x y -> submitter y = SFlush ->
  same (run_parts (map snd (executed (pool y))) m) (run_parts (map whole wave) m).
Proof.
  intros wave Cf V H Rx Sx Ry Sy. destruct (round_end n x y _ Rx Sx Ry) as [_ E]. destruct (E Sy) as (P & _).
  assert (W : wave_ok wave).
  { pose proof (take_wave_spec end' [c] rest) as T. subst wave. destruct (take_wave end' [c] rest) as [out rest']. destruct T as (taken & -> & _ & Ok). cbn [fst]. apply Ok.
    unfold blit_conflicts in Cf. destruct (without_spans c) eqn:X; [discriminate|]. split; [now constructor|].
    intros i j a b I J N. apply list_lookup_singleton_Some in I as [I _]. apply list_lookup_singleton_Some in J as [J _]. lia. }
  rewrite <- (run_wave_parts threads wave m H). symmetry. apply run_parts_perm; [now symmetry|]. now apply wave_parts_apart.
Qed.

(** ** A resampling to try them on: rows of four bytes, copied *)

Definition example_row (c : memory_copy) (row : Z) (m : memory) : memory := fun a =>
  let offset := a - (fst (mc_destination_span c) + 4 * row) in
  if (0 <=? offset) && (offset <? 4) then m (fst (mc_source_span c) + 4 * row + offset) else m a.

#[export] Instance example_rows : BlitRows := {|
  run_rows p m := foldl (fun m row => example_row (bp_copy p) row m) m (rows_of p);
  row_reads c row a := in_span (fst (mc_source_span c) + 4 * row, 4) a;
  row_writes c row a := in_span (fst (mc_destination_span c) + 4 * row, 4) a
|}.

Lemma example_row_spec c row m a : (in_span (fst (mc_destination_span c) + 4 * row, 4) a /\ example_row c row m a = m (fst (mc_source_span c) + 4 * row + (a - (fst (mc_destination_span c) + 4 * row)))) \/
  (~ in_span (fst (mc_destination_span c) + 4 * row, 4) a /\ example_row c row m a = m a).
Proof. unfold example_row, in_span. cbn [fst snd]. cbv zeta. destruct (_ && _) eqn:E; [left|right]; [apply andb_true_iff in E as [E1 E2]|apply andb_false_iff in E as [E|E]]; to_prop; split; try done; lia. Qed.

Lemma in_rows p row : row ∈ rows_of p <-> bp_row_begin p <= row < bp_row_end p.
Proof. unfold rows_of. rewrite elem_of_seqZ. lia. Qed.

#[export] Instance example_laws : BlitRowsLaws.
Proof.
  constructor.
  - intros p m a N. cbn [run_rows example_rows]. assert (O : forall row, row ∈ rows_of p -> ~ in_span (fst (mc_destination_span (bp_copy p)) + 4 * row, 4) a) by (intros row R W; apply N; exists row; split; [now apply in_rows|done]).
    clear N. revert m. induction (rows_of p) as [|row l IH]; intros m; [done|]. cbn [foldl]. rewrite IH by (intros r R; apply O; now right).
    destruct (example_row_spec (bp_copy p) row m a) as [[W _]|[_ E]]; [|done]. exfalso. apply (O row); [left|done].
  - intros p m m' a W Eq. cbn [run_rows example_rows].
    assert (G : forall l (A : Z -> Prop) m m', (forall b, A b -> m b = m' b) -> (forall row b, row ∈ l -> row_reads (bp_copy p) row b -> A b) -> forall a, A a \/ (exists row, row ∈ l /\ row_writes (bp_copy p) row a) ->
      foldl (fun m row => example_row (bp_copy p) row m) m l a = foldl (fun m row => example_row (bp_copy p) row m) m' l a).
    { clear. induction l as [|row l IH]; intros A m m' Am Rl a Wa; cbn [foldl].
      - destruct Wa as [Wa|(row & R & _)]; [auto|now apply elem_of_nil in R].
      - apply (IH (fun b => A b \/ row_writes (bp_copy p) row b)).
        + intros b Hb. destruct (example_row_spec (bp_copy p) row m b) as [[W E]|[W E]], (example_row_spec (bp_copy p) row m' b) as [[W' E']|[W' E']]; try contradiction; rewrite E, E'; [|destruct Hb; [auto|contradiction]].
          apply Am, (Rl row); [left|]. cbn [row_reads example_rows]. unfold in_span in *. cbn [fst snd] in *. lia.
        + intros r b R Rb. left. apply (Rl r); [now right|done].
        + destruct Wa as [Wa|(r & R & Wr)]; [auto|]. apply elem_of_cons in R as [->|R]; [auto|]. right. now exists r. }
    apply (G _ (reads p)); auto.
    + intros row b R Rb. exists row. split; [now apply in_rows|done].
    + right. destruct W as (row & R & W). exists row. split; [now apply in_rows|done].
  - intros c b e f m E. cbn [run_rows example_rows bp_copy]. unfold rows_of. cbn [bp_row_begin bp_row_end]. rewrite <- foldl_app. f_equal.
    replace (f - b) with ((e - b) + (f - e)) by lia. rewrite seqZ_app by lia. do 2 f_equal. lia.
  - intros p a. set (d := a - fst (mc_destination_span (bp_copy p))).
    destruct (decide (bp_row_begin p <= d / 4 < bp_row_end p)) as [R|R]; [left|right].
    + exists (d / 4). split; [done|]. cbn [row_writes example_rows]. unfold in_span. cbn [fst snd]. pose proof (Z.div_mod d 4 ltac:(lia)). pose proof (Z.mod_pos_bound d 4 ltac:(lia)). subst d. lia.
    + intros (row & Rr & W). cbn [row_writes example_rows] in W. unfold in_span in W. cbn [fst snd] in W. apply R. pose proof (Z.div_mod d 4 ltac:(lia)). pose proof (Z.mod_pos_bound d 4 ltac:(lia)). subst d. lia.
Qed.

Definition example_blit (record source destination height : Z) : memory_copy :=
  MemoryCopy record false true false false false false false height (source, 4 * height) (destination, 4 * height) 0 0 0 None 0.


Lemma example_heights : Forall (height_ok 2) [example_blit 1 0 4096 40; example_blit 2 8192 12288 20].
Proof. repeat constructor; cbn; lia. Qed.

Lemma parts_cover_rows_witness : wave_total 2 [example_blit 1 0 4096 40; example_blit 2 8192 12288 20] = 5 /\
  Z.of_nat (length (wave_parts 2 [example_blit 1 0 4096 40; example_blit 2 8192 12288 20])) = 5.
Proof. split; [reflexivity|]. destruct (parts_cover_rows 2 _ example_heights) as (_ & _ & N). exact N. Defined.

(** A wave of one blit of 32 rows, run by the submitter and one worker. *)
Definition example_tall : memory_copy := example_blit 1 0 4096 32.

Lemma example_tall_valid : blit_valid example_tall.
Proof.
  constructor; unfold example_tall, example_blit, in_span; cbn [mc_source_span mc_destination_span mc_height row_reads row_writes example_rows fst snd]; unfold in_span; cbn [fst snd]; try lia; intros; lia.
Qed.

Definition example_wave_begin : system blit_part := System (PoolState Unlocked 0 [] 0 0 0 0 [] false) (SLock (wave_parts 2 [example_tall])) [WorkerAt WIdle 0].

Lemma example_wave_reachable : rtc pool_step (pool_start 1) example_wave_begin.
Proof.
  apply rtc_l with (System (PoolState Unlocked 0 [] 0 0 0 0 [] false) SIdle [WorkerAt WIdle 0]).
  - exact (step_worker (PoolState Unlocked 0 [] 0 0 0 0 [] false) (PoolState Unlocked 0 [] 0 0 0 0 [] false) SIdle [WorkerAt WStart 0] 0 (WorkerAt WStart 0) (WorkerAt WIdle 0) eq_refl eq_refl).
  - apply rtc_once. apply step_submit.
Qed.

(** The worker runs the second half before the submitter runs the first. *)
Lemma parallel_wave_is_serial_witness : exists y, run_schedule example_schedule example_wave_begin = Some y /\
  map (fun p => bp_row_begin (snd p)) (executed (pool y)) = [16; 0] /\
  same (run_parts (map snd (executed (pool y))) ramp) (run_parts [whole example_tall] ramp).
Proof.
  eexists. split; [vm_compute; reflexivity|]. split; [reflexivity|].
  match goal with |- same (run_parts (map snd (executed (pool ?y))) _) _ =>
    apply (parallel_wave_is_serial 1 2 7 example_tall [] example_wave_begin y ramp) end.
  - reflexivity.
  - constructor; [exact example_tall_valid|constructor].
  - repeat constructor; cbn; lia.
  - exact example_wave_reachable.
  - reflexivity.
  - apply (run_schedule_round example_schedule); vm_compute; reflexivity.
  - reflexivity.
Defined.
