(* ===== verification/XorMaps.v ===== *)
(** * Linear maps over the two-element field

    The tiled image maps place a texel by exclusive or of shifted and masked
    coordinates.  Such a map is determined by where it sends the single bits,
    so a check of those few values decides whether it is injective, which bits
    its values may have, and whether a value lies outside its image. *)

From Stdlib Require Import ZArith Lia Btauto.
From stdpp Require Import base numbers list.
From S2P Require Import Prelude.
Open Scope Z_scope.

(** The exclusive or of the selected values. *)
Fixpoint xor_sum (bits : list bool) (vs : list Z) : Z :=
  match bits, vs with
  | b :: bits', v :: vs' => Z.lxor (if b then v else 0) (xor_sum bits' vs')
  | _, _ => 0
  end.

(** The low [n] bits of a number, and the numbers with one of them. *)
Fixpoint low_bits (n : nat) (from x : Z) : list bool :=
  match n with
  | O => []
  | S n' => Z.testbit x from :: low_bits n' (from + 1) x
  end.
Fixpoint single_bits (n : nat) (from : Z) : list Z :=
  match n with
  | O => []
  | S n' => 2 ^ from :: single_bits n' (from + 1)
  end.

(** Gaussian elimination: each value clears its top bit from the ones after it,
    and none becomes zero. *)
Definition clear_bit (pivot v : Z) : Z := if Z.testbit v (Z.log2 pivot) then Z.lxor v pivot else v.
Fixpoint independent (fuel : nat) (vs : list Z) : bool :=
  match fuel, vs with
  | _, [] => true
  | S fuel', pivot :: vs' => (0 <? pivot) && independent fuel' (map (clear_bit pivot) vs')
  | O, _ => false
  end.

Definition linear (f : Z -> Z) : Prop := forall a b, f (Z.lxor a b) = Z.lxor (f a) (f b).

Create HintDb xor_map.

Lemma lxor_swap a b c : Z.lxor a (Z.lxor b c) = Z.lxor b (Z.lxor a c).
Proof. now rewrite <- !Z.lxor_assoc, (Z.lxor_comm a b). Qed.

Lemma lxor_cancel a b c : Z.lxor a b = Z.lxor a c -> b = c.
Proof.
  intros E. apply (f_equal (Z.lxor a)) in E. now rewrite <- !Z.lxor_assoc, Z.lxor_nilpotent, !Z.lxor_0_l in E.
Qed.

Lemma land_lxor_r a b m : Z.land (Z.lxor a b) m = Z.lxor (Z.land a m) (Z.land b m).
Proof. apply Z.bits_inj'. intros i _. rewrite Z.lxor_spec, !Z.land_spec, Z.lxor_spec. btauto. Qed.

Lemma linear_0 f : linear f -> f 0 = 0.
Proof. intros L. pose proof (L 0 0) as E. rewrite Z.lxor_nilpotent in E. rewrite E. apply Z.lxor_nilpotent. Qed.

Lemma linear_if f b v : linear f -> f (if b : bool then v else 0) = if b then f v else 0.
Proof. intros L. destruct b; [done|]. now apply linear_0. Qed.

Lemma linear_id : linear (fun a => a).
Proof. done. Qed.

Lemma linear_zero : linear (fun _ => 0).
Proof. intros a b. now rewrite Z.lxor_nilpotent. Qed.

Lemma linear_lxor f g : linear f -> linear g -> linear (fun a => Z.lxor (f a) (g a)).
Proof. intros F G a b. rewrite F, G, !Z.lxor_assoc. f_equal. apply lxor_swap. Qed.

Lemma linear_land f m : linear f -> linear (fun a => Z.land (f a) m).
Proof. intros F a b. now rewrite F, land_lxor_r. Qed.

Lemma linear_shiftl f n : linear f -> linear (fun a => Z.shiftl (f a) n).
Proof. intros F a b. now rewrite F, Z.shiftl_lxor. Qed.

Lemma linear_testbit i v : linear (fun a => if Z.testbit a i then v else 0).
Proof. intros a b. rewrite Z.lxor_spec. destruct (Z.testbit a i), (Z.testbit b i); cbn; now rewrite ?Z.lxor_nilpotent, ?Z.lxor_0_l, ?Z.lxor_0_r. Qed.

#[export] Hint Resolve linear_id linear_zero linear_lxor linear_land linear_shiftl linear_testbit : xor_map.

Lemma xor_sum_app bits bits' vs vs' : length bits = length vs -> xor_sum (bits ++ bits') (vs ++ vs') = Z.lxor (xor_sum bits vs) (xor_sum bits' vs').
Proof.
  revert vs. induction bits as [|b bits IH]; intros [|v vs] L; cbn in L |- *; try done.
  rewrite IH by lia. now rewrite Z.lxor_assoc.
Qed.

Lemma xor_sum_map f bits vs : linear f -> f (xor_sum bits vs) = xor_sum bits (map f vs).
Proof.
  intros L. revert vs. induction bits as [|b bits IH]; intros [|v vs]; cbn; try now apply linear_0.
  now rewrite L, linear_if, IH.
Qed.

Lemma low_bits_length n from x : length (low_bits n from x) = n.
Proof. revert from. induction n; intros from; cbn; auto. Qed.
Lemma single_bits_length n from : length (single_bits n from) = n.
Proof. revert from. induction n; intros from; cbn; auto. Qed.

(** A number is the exclusive or of its bits. *)
Lemma xor_sum_bits n from x : 0 <= from -> 0 <= x < 2 ^ (from + Z.of_nat n) ->
  xor_sum (low_bits n from x) (single_bits n from) = x - x mod 2 ^ from.
Proof.
  revert from. induction n as [|n IH]; intros from F X; cbn.
  { rewrite Z.add_0_r in X. rewrite Z.mod_small; lia. }
  rewrite IH by (try lia; replace (from + 1 + Z.of_nat n) with (from + Z.of_nat (S n)) by lia; lia).
  apply Z.bits_inj'. intros i I. rewrite Z.lxor_spec.
  assert (H : forall k, 0 <= k -> Z.testbit (x - x mod 2 ^ k) i = (k <=? i) && Z.testbit x i).
  { intros k K. replace (x - x mod 2 ^ k) with (Z.ldiff x (Z.ones k)).
    - rewrite Z.ldiff_spec, Z.testbit_ones_nonneg by lia. destruct (Z.leb_spec k i), (Z.ltb_spec i k); try lia; btauto.
    - rewrite Z.ldiff_ones_r by lia. rewrite Z.shiftl_mul_pow2, Z.shiftr_div_pow2 by lia. pose proof (Z.div_mod x (2 ^ k) ltac:(lia)). lia. }
  rewrite !H by lia. destruct (decide (i = from)) as [->|N].
  - rewrite Z.leb_refl. destruct (Z.leb_spec (from + 1) from); [lia|]. destruct (Z.testbit x from); [|now rewrite Z.bits_0].
    now rewrite Z.pow2_bits_true.
  - replace (Z.testbit (if Z.testbit x from then 2 ^ from else 0) i) with false.
    + destruct (Z.leb_spec (from + 1) i), (Z.leb_spec from i); try lia; btauto.
    + destruct (Z.testbit x from); [|now rewrite Z.bits_0]. rewrite Z.pow2_bits_eqb by lia. destruct (Z.eqb_spec from i); [lia|done].
Qed.

(** A linear map's value, from the values of the single bits. *)
Lemma linear_value f n x : linear f -> 0 <= x < 2 ^ Z.of_nat n -> f x = xor_sum (low_bits n 0 x) (map f (single_bits n 0)).
Proof.
  intros L X. rewrite <- xor_sum_map by done. rewrite xor_sum_bits by (rewrite ?Z.add_0_l; lia).
  f_equal. rewrite Z.pow_0_r, Z.mod_1_r. lia.
Qed.

Lemma low_bits_inj n from x x' : 0 <= from -> low_bits n from x = low_bits n from x' ->
  forall i, from <= i < from + Z.of_nat n -> Z.testbit x i = Z.testbit x' i.
Proof.
  revert from. induction n as [|n IH]; intros from F E i I; [lia|]. cbn in E. injection E as E1 E2.
  destruct (decide (i = from)) as [->|]; [done|]. apply (IH (from + 1)); auto; lia.
Qed.

Lemma low_bits_eq n x x' : 0 <= x < 2 ^ Z.of_nat n -> 0 <= x' < 2 ^ Z.of_nat n -> low_bits n 0 x = low_bits n 0 x' -> x = x'.
Proof.
  intros X X' E. pose proof (xor_sum_bits n 0 x ltac:(lia)) as H. pose proof (xor_sum_bits n 0 x' ltac:(lia)) as H'.
  rewrite Z.pow_0_r, Z.mod_1_r, Z.add_0_l in H, H'. rewrite E in H. specialize (H X). specialize (H' X'). lia.
Qed.

Lemma lxor_bounds n a b : 0 <= n -> 0 <= a < 2 ^ n -> 0 <= b < 2 ^ n -> 0 <= Z.lxor a b < 2 ^ n.
Proof.
  intros N A B. assert (E : Z.land (Z.lxor a b) (Z.ones n) = Z.lxor a b).
  { rewrite land_lxor_r, !Z.land_ones, !Z.mod_small by lia. done. }
  rewrite Z.land_ones in E by lia. rewrite <- E. apply Z.mod_pos_bound. lia.
Qed.

(** ** Independence *)

Lemma xor_sum_cleared pivot bits vs : exists c : bool, xor_sum bits vs = Z.lxor (if c then pivot else 0) (xor_sum bits (map (clear_bit pivot) vs)).
Proof.
  revert vs. induction bits as [|b bits IH]; intros [|v vs]; cbn; try (exists false; done).
  destruct (IH vs) as [c ->]. unfold clear_bit at 2. destruct b; [destruct (Z.testbit v (Z.log2 pivot))|].
  - exists (negb c). destruct c; cbn; rewrite ?Z.lxor_0_l.
    + now rewrite Z.lxor_assoc.
    + now rewrite (Z.lxor_comm v pivot), Z.lxor_assoc, <- (Z.lxor_assoc pivot pivot), Z.lxor_nilpotent, Z.lxor_0_l.
  - exists c. apply lxor_swap.
  - exists c. rewrite !Z.lxor_0_l. done.
Qed.

Lemma cleared_testbit pivot bits vs : 0 < pivot -> Z.testbit (xor_sum bits (map (clear_bit pivot) vs)) (Z.log2 pivot) = false.
Proof.
  intros P. revert vs. induction bits as [|b bits IH]; intros [|v vs]; cbn; try apply Z.bits_0.
  rewrite Z.lxor_spec, IH. destruct b; [|now rewrite Z.bits_0].
  unfold clear_bit. destruct (Z.testbit v (Z.log2 pivot)) eqn:B; [|now rewrite B]. rewrite Z.lxor_spec, B, Z.bit_log2; done.
Qed.

Lemma independent_spec fuel vs bits : independent fuel vs = true -> length bits = length vs -> xor_sum bits vs = 0 -> bits = replicate (length vs) false.
Proof.
  revert vs bits. induction fuel as [|fuel IH]; intros [|v vs] [|b bits] I L S; try done. cbn in I, L.
  apply andb_true_iff in I as [P I]. apply Z.ltb_lt in P. cbn in S.
  destruct (xor_sum_cleared v bits vs) as [c E].
  assert (Z0 : xor_sum bits (map (clear_bit v) vs) = 0).
  { pose proof (cleared_testbit v bits vs P) as T. rewrite E in S. apply (f_equal (fun n => Z.testbit n (Z.log2 v))) in S as B.
    rewrite !Z.lxor_spec, T, Z.bits_0 in B. destruct b, c; rewrite ?Z.bits_0, ?Z.bit_log2 in B by done; try discriminate; rewrite <- Z.lxor_assoc, Z.lxor_nilpotent, Z.lxor_0_l in S; done. }
  assert (R : bits = replicate (length vs) false).
  { specialize (IH (map (clear_bit v) vs) bits I). rewrite length_map in IH. apply IH; auto. }
  cbn. f_equal; [|done]. destruct b; [|done]. exfalso. assert (X0 : xor_sum bits vs = 0); [|rewrite X0, Z.lxor_0_r in S; lia].
  rewrite R. clear. induction vs; cbn; [done|]. now rewrite Z.lxor_0_l.
Qed.

Lemma xor_sum_xor bits bits' vs : length bits = length vs -> length bits' = length vs ->
  Z.lxor (xor_sum bits vs) (xor_sum bits' vs) = xor_sum (zip_with xorb bits bits') vs.
Proof.
  revert bits bits'. induction vs as [|v vs IH]; intros [|b bits] [|b' bits'] L L'; cbn in L, L' |- *; try done.
  rewrite <- IH by lia. destruct b, b'; cbn; rewrite ?Z.lxor_0_l, ?Z.lxor_assoc; try done.
  - now rewrite (lxor_swap (xor_sum bits vs)), <- Z.lxor_assoc, Z.lxor_nilpotent, Z.lxor_0_l.
  - apply lxor_swap.
Qed.

Lemma zip_xorb_false bits bits' n : length bits = n -> length bits' = n -> zip_with xorb bits bits' = replicate n false -> bits = bits'.
Proof.
  revert bits bits'. induction n as [|n IH]; intros [|b bits] [|b' bits'] L L' E; cbn in *; try done.
  injection E as E1 E2. apply xorb_eq in E1 as ->. f_equal. apply IH; auto.
Qed.

Lemma independent_inj fuel vs bits bits' : independent fuel vs = true -> length bits = length vs -> length bits' = length vs ->
  xor_sum bits vs = xor_sum bits' vs -> bits = bits'.
Proof.
  intros I L L' E. apply (zip_xorb_false _ _ (length vs)); auto. apply (independent_spec fuel); auto.
  - rewrite length_zip_with. lia.
  - rewrite <- xor_sum_xor by done. rewrite E. apply Z.lxor_nilpotent.
Qed.

(** ** Maps of two coordinates *)

Definition linear2 (f : Z -> Z -> Z) : Prop := forall x x' y y', f (Z.lxor x x') (Z.lxor y y') = Z.lxor (f x y) (f x' y').

(** Where the single bits of the two coordinates go. *)
Definition basis (f : Z -> Z -> Z) (a b : nat) : list Z := map (fun x => f x 0) (single_bits a 0) ++ map (f 0) (single_bits b 0).

(** The map is injective on [2^a] by [2^b] coordinates, and its values have no
    bits outside a mask. *)
Definition map_check (f : Z -> Z -> Z) (a b : nat) (mask : Z) : bool :=
  independent (a + b) (basis f a b) && forallb (fun v => Z.land v mask =? v) (basis f a b).

Lemma linear2_sum f g : linear f -> linear g -> linear2 (fun x y => Z.lxor (f x) (g y)).
Proof. intros F G x x' y y'. rewrite F, G, !Z.lxor_assoc. f_equal. apply lxor_swap. Qed.

Lemma linear2_lxor f g : linear2 f -> linear2 g -> linear2 (fun x y => Z.lxor (f x y) (g x y)).
Proof. intros F G x x' y y'. rewrite F, G, !Z.lxor_assoc. f_equal. apply lxor_swap. Qed.

Lemma linear2_zero : linear2 (fun _ _ => 0).
Proof. done. Qed.

Lemma linear2_l f : linear f -> linear2 (fun x _ => f x).
Proof. intros F x x' y y'. apply F. Qed.
Lemma linear2_r f : linear f -> linear2 (fun _ y => f y).
Proof. intros F x x' y y'. apply F. Qed.

#[export] Hint Resolve linear2_sum linear2_lxor linear2_zero linear2_l linear2_r : xor_map.

Lemma linear2_value f a b x y : linear2 f -> 0 <= x < 2 ^ Z.of_nat a -> 0 <= y < 2 ^ Z.of_nat b ->
  f x y = xor_sum (low_bits a 0 x ++ low_bits b 0 y) (basis f a b).
Proof.
  intros L X Y. unfold basis. rewrite xor_sum_app by now rewrite low_bits_length, length_map, single_bits_length.
  rewrite <- (linear_value (fun x => f x 0)), <- (linear_value (f 0)); try done.
  - rewrite <- L. now rewrite Z.lxor_0_r, Z.lxor_0_l.
  - intros u v. rewrite <- L. now rewrite Z.lxor_0_r.
  - intros u v. rewrite <- L. now rewrite Z.lxor_0_r.
Qed.

Lemma basis_length f a b : length (basis f a b) = (a + b)%nat.
Proof. unfold basis. now rewrite length_app, !length_map, !single_bits_length. Qed.

Lemma map_check_inj f a b mask x x' y y' : linear2 f -> map_check f a b mask = true ->
  0 <= x < 2 ^ Z.of_nat a -> 0 <= x' < 2 ^ Z.of_nat a -> 0 <= y < 2 ^ Z.of_nat b -> 0 <= y' < 2 ^ Z.of_nat b ->
  f x y = f x' y' -> x = x' /\ y = y'.
Proof.
  intros L C X X' Y Y' E. apply andb_true_iff in C as [C _]. rewrite (linear2_value f a b x y), (linear2_value f a b x' y') in E by done.
  apply (independent_inj (a + b)) in E; [|done|rewrite length_app, !low_bits_length, basis_length; lia..].
  apply app_inj_1 in E as [E1 E2]; [|now rewrite !low_bits_length]. split; eapply low_bits_eq; eauto.
Qed.

Lemma xor_sum_mask mask bits vs : forallb (fun v => Z.land v mask =? v) vs = true -> Z.land (xor_sum bits vs) mask = xor_sum bits vs.
Proof.
  revert vs. induction bits as [|b bits IH]; intros [|v vs] M; try done. cbn in M |- *. apply andb_true_iff in M as [M1 M2]. apply Z.eqb_eq in M1.
  rewrite land_lxor_r, IH by done. destruct b; [now rewrite M1|done].
Qed.

Lemma map_check_mask f a b mask x y : linear2 f -> map_check f a b mask = true ->
  0 <= x < 2 ^ Z.of_nat a -> 0 <= y < 2 ^ Z.of_nat b -> Z.land (f x y) mask = f x y.
Proof.
  intros L C X Y. apply andb_true_iff in C as [_ C]. rewrite (linear2_value f a b) by done. now apply xor_sum_mask.
Qed.

(** Values of the form [n * 2^k] below a power of two. *)
Definition unit_mask (n k : Z) : Z := 2 ^ n - 2 ^ k.

Lemma unit_mask_spec n k v : 0 <= k <= n -> Z.land v (unit_mask n k) = v -> 0 <= v < 2 ^ n /\ v mod 2 ^ k = 0.
Proof.
  intros K E. assert (M : unit_mask n k = Z.shiftl (Z.ones (n - k)) k).
  { unfold unit_mask. rewrite Z.shiftl_mul_pow2, Z.ones_equiv by lia. rewrite Z.mul_pred_l, <- Z.pow_add_r by lia. f_equal. f_equal. lia. }
  assert (V : v = Z.shiftl (Z.land (Z.shiftr v k) (Z.ones (n - k))) k).
  { rewrite <- E at 1. rewrite M. apply Z.bits_inj'. intros i I. rewrite Z.land_spec, !Z.shiftl_spec by lia.
    destruct (Z.ltb_spec i k); [rewrite (Z.testbit_neg_r _ (i - k)) by lia; rewrite (Z.testbit_neg_r (Z.land _ _)) by lia; btauto|].
    rewrite Z.land_spec, Z.shiftr_spec by lia. now replace (i - k + k) with i by lia. }
  rewrite Z.land_ones, Z.shiftl_mul_pow2 in V by lia. pose proof (Z.mod_pos_bound (Z.shiftr v k) (2 ^ (n - k)) ltac:(lia)) as B.
  assert (P : 2 ^ n = 2 ^ (n - k) * 2 ^ k) by (rewrite <- Z.pow_add_r by lia; f_equal; lia).
  split; [rewrite V, P; nia|]. rewrite V. apply Z.mod_mul. lia.
Qed.

(** Two blocks of a unit's size at different multiples of it do not meet. *)
Lemma units_apart u v w : 0 < u -> v mod u = 0 -> w mod u = 0 -> v <> w -> v + u <= w \/ w + u <= v.
Proof.
  intros U V W N. apply Z.mod_divide in V as [i ->], W as [j ->]; try lia. assert (i <> j) by congruence. nia.
Qed.
