(* ===== verification/ImageTiles.v ===== *)
(** * Where a tiled image's texels live ([src/driver/ps5vk_image.c])

    A tile is 64 KiB whatever its texels; inside it a texel's place is the
    exclusive or of shifted and masked bits of its coordinates, one table for
    each element size, turned by the tile's own place in the grid.  Every map is
    a placement: distinct texels of a surface get distinct, aligned places, and
    none leaves the tiles the surface is made of. *)

From Stdlib Require Import ZArith Lia.
From stdpp Require Import base numbers list.
From S2P Require Import Prelude DriverPrelude BlitPool XorMaps.
Open Scope Z_scope.

Definition PS5VK_TILE_BYTES : Z := 65536.

(** ** Tiles *)

(** [ps5vk_tile_extent]: its width and height in texels. *)
Definition tile_extent (texel_bytes : Z) (depth : bool) (samples : Z) : Z * Z :=
  let texel_bytes := if depth && negb (texel_bytes =? 2) && negb (texel_bytes =? 1) then 4 else texel_bytes in
  let log2_bytes := if texel_bytes =? 1 then 0 else if texel_bytes =? 2 then 1 else if texel_bytes =? 8 then 3 else if texel_bytes =? 16 then 4 else 2 in
  let n := 16 - log2_bytes - Z.log2 samples in
  (Z.shiftl 1 ((n + 1) / 2), Z.shiftl 1 (n / 2)).

(** ** Terms *)

(** [struct ps5vk_tiled_term] *)
Record tiled_term := Term { tt_coord : Z; tt_shift : Z; tt_mask : Z }.

Definition ps5vk_tiled_4b_terms : list tiled_term :=
  [Term 0 2 0x0c; Term 0 5 0x380; Term 0 4 0x400; Term 0 6 0x800; Term 0 9 0xa000;
   Term 1 4 0x70; Term 1 5 0xf00; Term 1 9 0x1000; Term 1 8 0x4000].

Definition ps5vk_tiled_1b_terms : list tiled_term :=
  [Term 0 0 0x7; Term 0 3 0x40; Term 0 5 0x300; Term 0 6 0x800; Term 0 4 0x400;
   Term 0 7 0x2000; Term 0 8 0x8000; Term 1 4 0x10; Term 1 2 0x8; Term 1 3 0xa0;
   Term 1 5 0xf00; Term 1 6 0x1000; Term 1 7 0x4000].

Definition ps5vk_tiled_8b_terms : list tiled_term :=
  [Term 0 3 0x8; Term 0 4 0x460; Term 0 5 0x300; Term 0 10 0x2000; Term 0 6 0x800;
   Term 0 9 0x8000; Term 1 4 0x10; Term 1 6 0x80; Term 1 10 0x5000; Term 1 5 0x700].

Definition ps5vk_tiled_16b_terms : list tiled_term :=
  [Term 0 4 0x10; Term 0 5 0x340; Term 0 11 0xa000; Term 0 6 0x800;
   Term 1 5 0x720; Term 1 6 0x80; Term 1 10 0x1000; Term 1 11 0x4000].

Definition ps5vk_tiled_2b_terms : list tiled_term :=
  [Term 0 1 0x0e; Term 0 4 0x480; Term 0 5 0x300; Term 0 6 0x800;
   Term 0 7 0x2000; Term 0 8 0x8000; Term 1 4 0x70; Term 1 5 0xf00;
   Term 1 8 0x5000].

Definition ps5vk_tiled_depth2_terms : list tiled_term :=
  [Term 0 1 0x2; Term 0 2 0x8; Term 0 3 0x20; Term 0 4 0x480;
   Term 0 5 0x300; Term 0 6 0x800; Term 0 7 0x2000; Term 0 8 0x8000;
   Term 1 2 0x4; Term 1 3 0x10; Term 1 4 0x40; Term 1 5 0xf00;
   Term 1 8 0x5000].

Definition ps5vk_tiled_stencil_terms : list tiled_term :=
  [Term 0 0 0x1; Term 0 1 0x4; Term 0 2 0x10; Term 0 3 0x40; Term 0 5 0x300;
   Term 0 6 0x800; Term 0 4 0x400; Term 0 7 0x2000; Term 0 8 0x8000; Term 1 1 0x2;
   Term 1 2 0x8; Term 1 3 0xa0; Term 1 5 0xf00; Term 1 6 0x1000; Term 1 7 0x4000].

Definition ps5vk_tiled_depth4_terms : list tiled_term :=
  [Term 0 4 0x10; Term 0 5 0x340; Term 0 13 0x8000; Term 0 9 0x2000; Term 0 6 0x800;
   Term 1 5 0x720; Term 1 6 0x80; Term 1 12 0x4000; Term 1 9 0x1000].

(** The loop over a table's terms. *)
Definition walk_term (in_x in_y local : Z) (t : tiled_term) : Z :=
  Z.lxor local (Z.land (u64 (Z.shiftl (if tt_coord t =? 0 then in_x else in_y) (tt_shift t))) (tt_mask t)).
Definition walk_terms (terms : list tiled_term) (in_x in_y : Z) : Z := fold_left (walk_term in_x in_y) terms 0.

(** The table of a colour element's size. *)
Definition colour_terms (element_bytes : Z) : list tiled_term :=
  if element_bytes =? 1 then ps5vk_tiled_1b_terms
  else if element_bytes =? 2 then ps5vk_tiled_2b_terms
  else if element_bytes =? 8 then ps5vk_tiled_8b_terms
  else if element_bytes =? 16 then ps5vk_tiled_16b_terms
  else ps5vk_tiled_4b_terms.

(** A tile's place in the grid, in bytes. *)
Definition block_bytes (column row blocks_per_row : Z) : Z := u64 (u64 (row * blocks_per_row + column) * PS5VK_TILE_BYTES).

(** What a tile's place turns of its texels' coordinates. *)
Definition block_turn (column row tile_width tile_height element_bytes samples : Z) : Z * Z :=
  if samples =? 4 then (Z.land row 1 * (tile_width / 2), Z.land column 1 * (tile_height / 2))
  else if element_bytes =? 8 then (Z.land row 1 * 32, 0)
  else if element_bytes =? 16 then (Z.land row 1 * (tile_width / 2), Z.land column 1 * (tile_height / 2))
  else (0, 0).

(** The walk over the tables of [ps5vk_tiled_texel_offset]: the tile's bytes
    before it and the place inside it. *)
Definition tiled_texel_walk (x y level_width tile_width tile_height element_bytes samples : Z) : Z * Z :=
  let '(turn_x, turn_y) := block_turn (x / tile_width) (y / tile_height) tile_width tile_height element_bytes samples in
  let in_x := Z.lxor (Z.land x (tile_width - 1)) turn_x in
  let in_y := Z.lxor (Z.land y (tile_height - 1)) turn_y in
  (block_bytes (x / tile_width) (y / tile_height) (div_round_up level_width tile_width), walk_terms (colour_terms element_bytes) in_x in_y).

(** Its fixed equation for a one-sample four-byte element. *)
Definition rgba8_offset (x y level_width : Z) : Z * Z :=
  let sx := Z.land x 127 in
  let sy := Z.land y 127 in
  (block_bytes (Z.shiftr x 7) (Z.shiftr y 7) (div_round_up level_width 128),
   Z.lxor (Z.lxor (Z.lxor (Z.lxor (Z.lxor (Z.lxor (Z.lxor (Z.lxor
     (Z.land (u32 (Z.shiftl sx 2)) 0x0c) (Z.land (u32 (Z.shiftl sx 5)) 0x380))
     (Z.land (u32 (Z.shiftl sx 4)) 0x400)) (Z.land (u32 (Z.shiftl sx 6)) 0x800))
     (Z.land (u32 (Z.shiftl sx 9)) 0xa000)) (Z.land (u32 (Z.shiftl sy 4)) 0x70))
     (Z.land (u32 (Z.shiftl sy 5)) 0xf00)) (Z.land (u32 (Z.shiftl sy 9)) 0x1000))
     (Z.land (u32 (Z.shiftl sy 8)) 0x4000)).

(** [ps5vk_tiled_texel_offset] *)
Definition tiled_texel_offset (x y level_width tile_width tile_height element_bytes samples : Z) : Z * Z :=
  if (element_bytes =? 4) && (samples =? 1) && (tile_width =? 128) && (tile_height =? 128) then rgba8_offset x y level_width
  else tiled_texel_walk x y level_width tile_width tile_height element_bytes samples.

(** The four-byte depth map's masks, one for each bit of a coordinate. *)
Definition depth_x_masks : list Z := [0x0004; 0x0010; 0x0040; 0x0100; 0x2200; 0x0800; 0x8400].
Definition depth_y_masks : list Z := [0x0008; 0x0020; 0x0080; 0x1100; 0x0200; 0x0400; 0x4800].

(** Its loop over the seven bits. *)
Fixpoint walk_bits (bit x y : Z) (masks : list (Z * Z)) (local : Z) : Z :=
  match masks with
  | [] => local
  | (x_mask, y_mask) :: masks' =>
      walk_bits (bit + 1) x y masks'
        (Z.lxor (Z.lxor local (if Z.testbit x bit then x_mask else 0)) (if Z.testbit y bit then y_mask else 0))
  end.

(** [ps5vk_tiled_depth_offset] *)
Definition tiled_depth_offset (x y level_width element_bytes : Z) : Z :=
  if element_bytes =? 1 then
    u64 (block_bytes (Z.shiftr x 8) (Z.shiftr y 8) (div_round_up level_width 256) + walk_terms ps5vk_tiled_stencil_terms (Z.land x 255) (Z.land y 255))
  else if element_bytes =? 2 then
    u64 (block_bytes (Z.shiftr x 8) (Z.shiftr y 7) (div_round_up level_width 256) + walk_terms ps5vk_tiled_depth2_terms (Z.land x 255) (Z.land y 127))
  else
    u64 (block_bytes (Z.shiftr x 7) (Z.shiftr y 7) (div_round_up level_width 128) + walk_bits 0 x y (combine depth_x_masks depth_y_masks) 0).

(** What a tile's place adds to a four-sample depth texel's. *)
Definition depth4_turn (column row : Z) : Z :=
  Z.lxor (Z.lxor (Z.lxor (Z.shiftl (Z.land column 1) 10) (Z.shiftl (Z.land row 1) 11)) (Z.shiftl (Z.land row 1) 14))
    (Z.shiftl (Z.land (Z.shiftr row 1) 1) 15).

(** [ps5vk_tiled_depth4_offset] *)
Definition tiled_depth4_offset (x y level_width tile_width tile_height : Z) : Z :=
  let column := x / tile_width in
  let row := y / tile_height in
  let local := walk_terms ps5vk_tiled_depth4_terms (Z.land x (tile_width - 1)) (Z.land y (tile_height - 1)) in
  u64 (block_bytes column row (div_round_up level_width tile_width) + Z.lxor local (depth4_turn column row)).

(** ** The maps are linear *)

Lemma linear_u64 f : linear f -> linear (fun a => u64 (f a)).
Proof. intros F a b. unfold u64. rewrite <- !Z.land_ones by lia. now rewrite F, land_lxor_r. Qed.
#[export] Hint Resolve linear_u64 : xor_map.

Lemma linear2_term t : linear2 (fun x y => Z.land (u64 (Z.shiftl (if tt_coord t =? 0 then x else y) (tt_shift t))) (tt_mask t)).
Proof. destruct (tt_coord t =? 0); [apply (linear2_l (fun x => Z.land (u64 (Z.shiftl x (tt_shift t))) (tt_mask t)))|apply (linear2_r (fun x => Z.land (u64 (Z.shiftl x (tt_shift t))) (tt_mask t)))]; auto with xor_map. Qed.

Lemma linear2_walk terms : linear2 (walk_terms terms).
Proof.
  unfold walk_terms. assert (G : forall f, linear2 f -> linear2 (fun x y => fold_left (walk_term x y) terms (f x y))); [|apply (G (fun _ _ => 0)), linear2_zero].
  induction terms as [|t terms IH]; intros f F; cbn [fold_left]; [done|]. apply (IH (fun x y => walk_term x y (f x y) t)). apply linear2_lxor; [done|apply linear2_term].
Qed.

Lemma linear2_walk_bits masks : linear2 (fun x y => walk_bits 0 x y masks 0).
Proof.
  assert (G : forall bit f, linear2 f -> linear2 (fun x y => walk_bits bit x y masks (f x y))); [|apply (G 0 (fun _ _ => 0)), linear2_zero].
  induction masks as [|[u v] masks IH]; intros bit f F; cbn [walk_bits]; [done|].
  apply (IH (bit + 1) (fun x y => Z.lxor (Z.lxor (f x y) (if Z.testbit x bit then u else 0)) (if Z.testbit y bit then v else 0))).
  apply linear2_lxor; [apply linear2_lxor; [done|apply (linear2_l (fun x => if Z.testbit x bit then u else 0))]|apply (linear2_r (fun y => if Z.testbit y bit then v else 0))]; auto with xor_map.
Qed.
#[export] Hint Resolve linear2_walk linear2_walk_bits : xor_map.

(** ** Placements *)

(** A map of a tile's texels, [2^a] wide and [2^b] high, each [2^k] bytes, into
    a tile of [2^n] bytes.  It may depend on where the tile is. *)
Record placement (a b n k : Z) (local : Z -> Z -> Z) : Prop := {
  placed_range x y : 0 <= x -> 0 <= y -> 0 <= local x y < 2 ^ n /\ local x y mod 2 ^ k = 0;
  placed_inj x y x' y' : 0 <= x -> 0 <= y -> 0 <= x' -> 0 <= y' -> x / 2 ^ a = x' / 2 ^ a -> y / 2 ^ b = y' / 2 ^ b ->
    local x y = local x' y' -> x = x' /\ y = y'
}.

(** A linear map of the coordinates in a tile, turned and shifted by amounts
    only the tile's place decides. *)
Lemma turned_placement (a b : nat) n k f (turn_x turn_y shift : Z -> Z -> Z) : 0 <= k <= n ->
  linear2 f -> map_check f a b (unit_mask n k) = true ->
  (forall c r, 0 <= turn_x c r < 2 ^ Z.of_nat a) -> (forall c r, 0 <= turn_y c r < 2 ^ Z.of_nat b) ->
  (forall c r, Z.land (shift c r) (unit_mask n k) = shift c r) ->
  placement (Z.of_nat a) (Z.of_nat b) n k (fun x y =>
    let c := x / 2 ^ Z.of_nat a in
    let r := y / 2 ^ Z.of_nat b in
    Z.lxor (f (Z.lxor (x mod 2 ^ Z.of_nat a) (turn_x c r)) (Z.lxor (y mod 2 ^ Z.of_nat b) (turn_y c r))) (shift c r)).
Proof.
  intros K L C TX TY S.
  assert (IX : forall x c r, 0 <= Z.lxor (x mod 2 ^ Z.of_nat a) (turn_x c r) < 2 ^ Z.of_nat a).
  { intros. apply lxor_bounds; [lia|apply Z.mod_pos_bound; lia|apply TX]. }
  assert (IY : forall y c r, 0 <= Z.lxor (y mod 2 ^ Z.of_nat b) (turn_y c r) < 2 ^ Z.of_nat b).
  { intros. apply lxor_bounds; [lia|apply Z.mod_pos_bound; lia|apply TY]. }
  split.
  - intros x y _ _. cbv zeta. apply unit_mask_spec; [done|]. rewrite land_lxor_r, S. f_equal. apply (map_check_mask f a b); auto.
  - intros x y x' y' X Y X' Y' EX EY E. cbv zeta in E. rewrite EX, EY in E. rewrite (Z.lxor_comm _ (shift _ _)), (Z.lxor_comm _ (shift _ _)) in E. apply lxor_cancel in E.
    apply (map_check_inj f a b (unit_mask n k)) in E as [E1 E2]; auto. rewrite (Z.lxor_comm _ (turn_x _ _)), (Z.lxor_comm _ (turn_x _ _)) in E1. rewrite (Z.lxor_comm _ (turn_y _ _)), (Z.lxor_comm _ (turn_y _ _)) in E2.
    apply lxor_cancel in E1, E2.
    rewrite (Z.div_mod x (2 ^ Z.of_nat a)), (Z.div_mod x' (2 ^ Z.of_nat a)), EX, E1 by lia.
    rewrite (Z.div_mod y (2 ^ Z.of_nat b)), (Z.div_mod y' (2 ^ Z.of_nat b)), EY, E2 by lia. done.
Qed.

Lemma placement_ext a b n k local local' : (forall x y, 0 <= x -> 0 <= y -> local' x y = local x y) -> placement a b n k local -> placement a b n k local'.
Proof. intros E [R I]. split; intros; rewrite !E in * by done; eauto. Qed.

(** Shifted by a constant. *)
Lemma placement_shift a b n k local c : 0 <= k <= n -> 0 <= c < 2 ^ n -> c mod 2 ^ k = 0 -> placement a b n k local -> placement a b n k (fun x y => Z.lxor (local x y) c).
Proof.
  intros K C A [R I]. split.
  - intros x y X Y. destruct (R x y X Y) as [B D]. split; [apply lxor_bounds; lia|].
    rewrite <- Z.land_ones in * by lia. rewrite land_lxor_r. now rewrite D, A.
  - intros x y x' y' X Y X' Y' EX EY E. rewrite !(Z.lxor_comm _ c) in E. apply lxor_cancel in E. eauto.
Qed.

(** ** Grids of tiles *)

Lemma div_round_up_pow2 w k : 0 <= k < 31 -> 0 <= w < 2 ^ 31 -> div_round_up w (2 ^ k) = (w + 2 ^ k - 1) / 2 ^ k.
Proof. intros K W. unfold div_round_up. rewrite u32_small; [done|]. assert (2 ^ k < 2 ^ 31) by (apply Z.pow_lt_mono_r; lia). lia. Qed.

Lemma column_bound w k x : 0 <= k < 31 -> 0 <= x < w -> w < 2 ^ 31 -> 0 <= x / 2 ^ k < div_round_up w (2 ^ k).
Proof.
  intros K X W. split; [apply Z.div_pos; lia|]. rewrite div_round_up_pow2 by lia.
  assert ((x + 1 * 2 ^ k) / 2 ^ k <= (w + 2 ^ k - 1) / 2 ^ k) by (apply Z.div_le_mono; lia). rewrite Z.div_add in H; lia.
Qed.

Lemma div_round_up_le w k : 0 <= k < 31 -> 0 <= w < 2 ^ 31 -> 0 <= div_round_up w (2 ^ k) <= w.
Proof.
  intros K W. rewrite div_round_up_pow2 by lia. split; [apply Z.div_pos; lia|].
  destruct (decide (w = 0)) as [->|]; [rewrite Z.div_small; lia|]. apply Z.div_le_upper_bound; [lia|]. nia.
Qed.

(** The bytes of the tiles a surface is made of. *)
Definition grid_bytes (width height tile_width tile_height : Z) : Z :=
  div_round_up width tile_width * div_round_up height tile_height * PS5VK_TILE_BYTES.

(** Surfaces whose coordinates stay far below the widths the code computes in;
    the driver's are at most 16384 texels each way. *)
Record surface (width height : Z) : Prop := { surface_width : 0 <= width <= 2 ^ 16; surface_height : 0 <= height <= 2 ^ 16 }.

Lemma block_bytes_spec w h a b x y : surface w h -> 0 <= a < 31 -> 0 <= b < 31 -> 0 <= x < w -> 0 <= y < h ->
  block_bytes (x / 2 ^ a) (y / 2 ^ b) (div_round_up w (2 ^ a)) = (y / 2 ^ b * div_round_up w (2 ^ a) + x / 2 ^ a) * PS5VK_TILE_BYTES.
Proof.
  intros [W H] A B X Y. pose proof (column_bound w a x A X ltac:(lia)). pose proof (column_bound h b y B Y ltac:(lia)).
  pose proof (div_round_up_le w a A ltac:(lia)). pose proof (div_round_up_le h b B ltac:(lia)).
  unfold block_bytes, PS5VK_TILE_BYTES. rewrite (u64_small (_ + _)) by nia. apply u64_small. nia.
Qed.

(** A map of the samples of a tile's texels, [m] of them, into the whole tile. *)
Record sample_placement (a b k m : Z) (local : Z -> Z -> Z -> Z) : Prop := {
  sample_range x y s : 0 <= x -> 0 <= y -> 0 <= s < m -> 0 <= local x y s < PS5VK_TILE_BYTES /\ local x y s mod 2 ^ k = 0;
  sample_inj x y s x' y' s' : 0 <= x -> 0 <= y -> 0 <= s < m -> 0 <= x' -> 0 <= y' -> 0 <= s' < m -> x / 2 ^ a = x' / 2 ^ a -> y / 2 ^ b = y' / 2 ^ b ->
    local x y s = local x' y' s' -> x = x' /\ y = y' /\ s = s'
}.

(** One sample is a texel's whole element. *)
Lemma one_sample a b k local : placement a b 16 k local -> sample_placement a b k 1 (fun x y _ => local x y).
Proof.
  intros [R I]. split.
  - intros x y s X Y _. apply R; done.
  - intros x y s x' y' s' X Y S X' Y' S' EX EY E. destruct (I x y x' y') as [-> ->]; auto. repeat split; lia.
Qed.

(** Samples in planes of the tile, one after the other. *)
Lemma plane_samples a b n k m local : 0 <= k <= n -> m * 2 ^ n <= PS5VK_TILE_BYTES -> placement a b n k local ->
  sample_placement a b k m (fun x y s => s * 2 ^ n + local x y).
Proof.
  intros K M [R I]. assert (P : 2 ^ n = 2 ^ (n - k) * 2 ^ k) by (rewrite <- Z.pow_add_r by lia; f_equal; lia). split.
  - intros x y s X Y S. destruct (R x y X Y) as [B D]. split; [nia|]. rewrite P, Z.mul_assoc, Z.add_comm, Z.mod_add by lia. done.
  - intros x y s x' y' s' X Y S X' Y' S' EX EY E. destruct (R x y X Y) as [B _], (R x' y' X' Y') as [B' _].
    destruct (Z.div_mod_unique (2 ^ n) s s' (local x y) (local x' y')) as [-> E']; [lia..|]. destruct (I x y x' y') as [-> ->]; auto.
Qed.

(** Samples inside a texel, an element each. *)
Lemma inner_samples a b k j m local : 0 <= j <= k -> k <= 16 -> m * 2 ^ j <= 2 ^ k -> placement a b 16 k local ->
  sample_placement a b j m (fun x y s => local x y + s * 2 ^ j).
Proof.
  intros J K M [R I]. assert (P : 2 ^ k = 2 ^ (k - j) * 2 ^ j) by (rewrite <- Z.pow_add_r by lia; f_equal; lia).
  assert (Q : 65536 = 2 ^ (16 - k) * 2 ^ k) by (rewrite <- Z.pow_add_r by lia; change 65536 with (2 ^ 16); f_equal; lia).
  assert (U : forall x y, 0 <= x -> 0 <= y -> exists q, local x y = q * 2 ^ k /\ 0 <= q < 2 ^ (16 - k)).
  { intros x y X Y. destruct (R x y X Y) as [B D]. apply Z.mod_divide in D as [q D]; [|lia]. exists q. split; [done|]. change (2 ^ 16) with 65536 in B. nia. }
  split.
  - intros x y s X Y S. destruct (U x y X Y) as (q & E & B). unfold PS5VK_TILE_BYTES. rewrite E. split; [nia|].
    rewrite P, Z.mul_assoc, <- Z.mul_add_distr_r. apply Z.mod_mul. lia.
  - intros x y s x' y' s' X Y S X' Y' S' EX EY E. destruct (U x y X Y) as (q & D & B), (U x' y' X' Y') as (q' & D' & B').
    destruct (Z.div_mod_unique (2 ^ k) q q' (s * 2 ^ j) (s' * 2 ^ j)) as [Eq Es]; [nia|nia|lia|].
    destruct (I x y x' y') as [-> ->]; auto; [congruence|]. repeat split. apply (Z.mul_reg_r _ _ (2 ^ j)); lia.
Qed.

(** Where a sample is, from the surface's start. *)
Definition sample_at (width a b : Z) (local : Z -> Z -> Z -> Z) (x y s : Z) : Z :=
  block_bytes (x / 2 ^ a) (y / 2 ^ b) (div_round_up width (2 ^ a)) + local x y s.

(** A sample's bytes lie in the surface's tiles, and two samples' do not meet. *)
Lemma grid_inside w h a b k m local x y s : surface w h -> 0 <= a < 31 -> 0 <= b < 31 -> 0 <= k <= 16 -> sample_placement a b k m local ->
  0 <= x < w -> 0 <= y < h -> 0 <= s < m ->
  0 <= sample_at w a b local x y s /\ sample_at w a b local x y s + 2 ^ k <= grid_bytes w h (2 ^ a) (2 ^ b) /\ sample_at w a b local x y s mod 2 ^ k = 0.
Proof.
  intros S A B K P X Y I. unfold sample_at. rewrite (block_bytes_spec w h) by done. destruct S as [W H].
  pose proof (column_bound w a x A X ltac:(lia)) as CX. pose proof (column_bound h b y B Y ltac:(lia)) as CY.
  destruct (sample_range _ _ _ _ _ P x y s ltac:(lia) ltac:(lia) I) as [R M]. unfold grid_bytes, PS5VK_TILE_BYTES in *.
  assert (D : 65536 = 2 ^ (16 - k) * 2 ^ k) by (rewrite <- Z.pow_add_r by lia; change 65536 with (2 ^ 16); f_equal; lia).
  assert (L : local x y s + 2 ^ k <= 65536).
  { apply Z.mod_divide in M as [q M]; [|lia]. assert (q < 2 ^ (16 - k)) by (apply (Z.mul_lt_mono_pos_r (2 ^ k)); lia). rewrite M. nia. }
  assert (T : y / 2 ^ b * div_round_up w (2 ^ a) + x / 2 ^ a + 1 <= div_round_up w (2 ^ a) * div_round_up h (2 ^ b)) by nia.
  split; [nia|]. split; [lia|]. rewrite D at 1. now rewrite Z.mul_assoc, Z.add_comm, Z.mod_add by lia.
Qed.

Lemma grid_apart w h a b k m local x y s x' y' s' : surface w h -> 0 <= a < 31 -> 0 <= b < 31 -> 0 <= k <= 16 -> sample_placement a b k m local ->
  0 <= x < w -> 0 <= y < h -> 0 <= s < m -> 0 <= x' < w -> 0 <= y' < h -> 0 <= s' < m -> (x, y, s) <> (x', y', s') ->
  sample_at w a b local x y s + 2 ^ k <= sample_at w a b local x' y' s' \/ sample_at w a b local x' y' s' + 2 ^ k <= sample_at w a b local x y s.
Proof.
  intros S A B K P X Y I X' Y' I' D. apply units_apart; [lia|apply (grid_inside w h a b k m)..|]; try done.
  unfold sample_at. rewrite !(block_bytes_spec w h) by done. destruct S as [W H]. intros E.
  destruct (sample_range _ _ _ _ _ P x y s ltac:(lia) ltac:(lia) I) as [R _]. destruct (sample_range _ _ _ _ _ P x' y' s' ltac:(lia) ltac:(lia) I') as [R' _].
  pose proof (column_bound w a x A X ltac:(lia)) as CX. pose proof (column_bound w a x' A X' ltac:(lia)) as CX'.
  unfold PS5VK_TILE_BYTES in *. assert (E1 : y / 2 ^ b * div_round_up w (2 ^ a) + x / 2 ^ a = y' / 2 ^ b * div_round_up w (2 ^ a) + x' / 2 ^ a) by lia.
  rewrite E1 in E. destruct (Z.div_mod_unique (div_round_up w (2 ^ a)) (y / 2 ^ b) (y' / 2 ^ b) (x / 2 ^ a) (x' / 2 ^ a)) as [EY EX]; [lia..|].
  apply D. destruct (sample_inj _ _ _ _ _ P x y s x' y' s') as (-> & -> & ->); lia || done.
Qed.

(** ** The driver's maps *)

Lemma land_pow2_pred x k : 0 <= k -> Z.land x (2 ^ k - 1) = x mod 2 ^ k.
Proof. intros K. rewrite <- Z.land_ones by lia. now rewrite Z.ones_equiv, Z.sub_1_r. Qed.

Lemma land_1_range x : 0 <= Z.land x 1 <= 1.
Proof. pose proof (Z.land_ones x 1 ltac:(lia)) as E. change (Z.ones 1) with 1 in E. rewrite E. pose proof (Z.mod_pos_bound x (2 ^ 1) ltac:(lia)). lia. Qed.

Lemma land_1_cases x : Z.land x 1 = 0 \/ Z.land x 1 = 1.
Proof. pose proof (land_1_range x). lia. Qed.

Lemma bit_mask x i m : 0 <= i -> Z.testbit m i = true -> Z.land (Z.shiftl (Z.land x 1) i) m = Z.shiftl (Z.land x 1) i.
Proof.
  intros I B. pose proof (land_1_range x) as R. assert (Z.land x 1 = 0 \/ Z.land x 1 = 1) as [-> | ->] by lia; [now rewrite Z.shiftl_0_l|].
  rewrite Z.shiftl_1_l. apply Z.bits_inj'. intros j J. rewrite Z.land_spec, Z.pow2_bits_eqb by lia. destruct (Z.eqb_spec i j) as [<-|]; [now rewrite B|done].
Qed.

(** Colour elements the driver maps: any size at one sample, four bytes at four. *)
Definition colour_mapped (element_bytes samples : Z) : Prop :=
  (element_bytes, samples) ∈ [(1, 1); (2, 1); (4, 1); (8, 1); (16, 1); (4, 4)].

(** The shape of a mapped colour tile: the logarithms of its width, its height,
    the bytes of the part of it one sample takes, and an element. *)
Definition colour_shape (element_bytes samples : Z) : nat * nat * Z * Z :=
  if samples =? 4 then (6%nat, 6%nat, 14, 2)
  else if element_bytes =? 1 then (8%nat, 8%nat, 16, 0)
  else if element_bytes =? 2 then (8%nat, 7%nat, 16, 1)
  else if element_bytes =? 8 then (7%nat, 6%nat, 16, 3)
  else if element_bytes =? 16 then (6%nat, 6%nat, 16, 4)
  else (7%nat, 7%nat, 16, 2).

Lemma colour_shape_extent eb s : colour_mapped eb s -> let '(a, b, n, k) := colour_shape eb s in
  tile_extent eb false s = (2 ^ Z.of_nat a, 2 ^ Z.of_nat b) /\ 2 ^ k = eb /\ 2 ^ (Z.of_nat a + Z.of_nat b + k) = 2 ^ n /\ s * 2 ^ n = PS5VK_TILE_BYTES.
Proof. unfold colour_mapped. rewrite !elem_of_cons, elem_of_nil. intros C. destruct_or! C; try done; injection C as -> ->; vm_compute; done. Qed.

(** The place inside its tile, by the table. *)
Definition colour_local (eb s tw th x y : Z) : Z :=
  let '(turn_x, turn_y) := block_turn (x / tw) (y / th) tw th eb s in
  walk_terms (colour_terms eb) (Z.lxor (x mod tw) turn_x) (Z.lxor (y mod th) turn_y).

Ltac colour_cases C := unfold colour_mapped in C; rewrite !elem_of_cons, elem_of_nil in C; destruct_or! C; try done; injection C as -> ->.

Lemma block_turn_range eb s c r : colour_mapped eb s -> let '(a, b, _, _) := colour_shape eb s in
  let turn := block_turn c r (2 ^ Z.of_nat a) (2 ^ Z.of_nat b) eb s in
  0 <= fst turn < 2 ^ Z.of_nat a /\ 0 <= snd turn < 2 ^ Z.of_nat b.
Proof.
  intros C. colour_cases C; cbn; try lia; unfold block_turn; cbn [Z.eqb Pos.eqb];
    destruct (land_1_cases c) as [Ec|Ec], (land_1_cases r) as [Er|Er]; rewrite ?Ec, ?Er; vm_compute; repeat split; discriminate.
Qed.

Lemma colour_check eb s : colour_mapped eb s -> let '(a, b, n, k) := colour_shape eb s in
  map_check (walk_terms (colour_terms eb)) a b (unit_mask n k) = true.
Proof. intros C. colour_cases C; vm_compute; reflexivity. Qed.

Lemma colour_placed eb s : colour_mapped eb s -> let '(a, b, n, k) := colour_shape eb s in
  placement (Z.of_nat a) (Z.of_nat b) n k (colour_local eb s (2 ^ Z.of_nat a) (2 ^ Z.of_nat b)).
Proof.
  intros C. pose proof (fun c r => block_turn_range eb s c r C) as T. pose proof (colour_check eb s C) as M. pose proof (colour_shape_extent eb s C) as S.
  assert (K : let '(_, _, n, k) := colour_shape eb s in 0 <= k <= n) by (clear -C; colour_cases C; vm_compute; split; discriminate).
  destruct (colour_shape eb s) as [[[a b] n] k].
  pose proof (turned_placement a b n k (walk_terms (colour_terms eb)) (fun c r => fst (block_turn c r (2 ^ Z.of_nat a) (2 ^ Z.of_nat b) eb s))
    (fun c r => snd (block_turn c r (2 ^ Z.of_nat a) (2 ^ Z.of_nat b) eb s)) (fun _ _ => 0) K (linear2_walk _) M ltac:(apply T) ltac:(apply T) ltac:(done)) as P.
  revert P. apply placement_ext. intros x y _ _. unfold colour_local. cbv zeta. rewrite Z.lxor_0_r. now destruct (block_turn _ _ _ _ _ _).
Qed.

(** The fixed equation is the walk over the four-byte table. *)
Lemma rgba8_offset_walk x y level_width : rgba8_offset x y level_width = tiled_texel_walk x y level_width 128 128 4 1.
Proof.
  unfold rgba8_offset, tiled_texel_walk. rewrite !Z.shiftr_div_pow2 by lia. change (2 ^ 7) with 128.
  change (block_turn (x / 128) (y / 128) 128 128 4 1) with (0, 0). cbv beta iota zeta. f_equal.
  change (Z.land x (128 - 1)) with (Z.land x 127). change (Z.land y (128 - 1)) with (Z.land y 127). rewrite !Z.lxor_0_r.
  change 127 with (2 ^ 7 - 1). rewrite !land_pow2_pred by lia. change (2 ^ 7) with 128.
  assert (G : forall v n, 0 <= n <= 9 -> u32 (Z.shiftl (v mod 128) n) = u64 (Z.shiftl (v mod 128) n)).
  { intros v n N. pose proof (Z.mod_pos_bound v 128 ltac:(lia)). rewrite Z.shiftl_mul_pow2 by lia.
    assert (0 < 2 ^ n <= 2 ^ 9) by (split; [lia|apply Z.pow_le_mono_r; lia]). rewrite u32_small, u64_small by nia. done. }
  rewrite !G by lia. reflexivity.
Qed.

Lemma texel_walk x y level_width tile_width tile_height element_bytes samples :
  tiled_texel_offset x y level_width tile_width tile_height element_bytes samples =
  tiled_texel_walk x y level_width tile_width tile_height element_bytes samples.
Proof.
  unfold tiled_texel_offset. destruct (_ && _) eqn:B; [|done]. apply andb_true_iff in B as [B B4]. apply andb_true_iff in B as [B B3].
  apply andb_true_iff in B as [B1 B2]. apply Z.eqb_eq in B1 as ->, B2 as ->, B3 as ->, B4 as ->. apply rgba8_offset_walk.
Qed.

Lemma colour_offset eb s a b n k x y lw : colour_mapped eb s -> colour_shape eb s = (a, b, n, k) -> 0 <= x -> 0 <= y ->
  let tw := 2 ^ Z.of_nat a in let th := 2 ^ Z.of_nat b in
  tiled_texel_offset x y lw tw th eb s = (block_bytes (x / tw) (y / th) (div_round_up lw tw), colour_local eb s tw th x y).
Proof.
  intros C E X Y tw th. rewrite texel_walk. unfold tiled_texel_walk, colour_local. destruct (block_turn _ _ _ _ _ _). subst tw th. now rewrite !land_pow2_pred by lia.
Qed.

(** The one-sample depth and stencil maps' shapes. *)
Definition depth_shape (element_bytes : Z) : nat * nat * Z :=
  if element_bytes =? 1 then (8%nat, 8%nat, 0) else if element_bytes =? 2 then (8%nat, 7%nat, 1) else (7%nat, 7%nat, 2).

Definition depth_local (element_bytes x y : Z) : Z :=
  if element_bytes =? 1 then walk_terms ps5vk_tiled_stencil_terms (x mod 256) (y mod 256)
  else if element_bytes =? 2 then walk_terms ps5vk_tiled_depth2_terms (x mod 256) (y mod 128)
  else walk_bits 0 (x mod 128) (y mod 128) (combine depth_x_masks depth_y_masks) 0.

Lemma depth_shape_extent eb : eb ∈ [1; 2; 4] -> let '(a, b, k) := depth_shape eb in
  tile_extent eb true 1 = (2 ^ Z.of_nat a, 2 ^ Z.of_nat b) /\ 2 ^ k = eb /\ 2 ^ (Z.of_nat a + Z.of_nat b + k) = PS5VK_TILE_BYTES.
Proof. rewrite !elem_of_cons, elem_of_nil. intros C. destruct_or! C; try done; subst; vm_compute; done. Qed.

(** The bits above the masks do not count. *)
Lemma walk_bits_mod n bit x y masks local : 0 <= bit -> bit + Z.of_nat (length masks) <= n ->
  walk_bits bit (x mod 2 ^ n) (y mod 2 ^ n) masks local = walk_bits bit x y masks local.
Proof.
  revert bit local. induction masks as [|[u v] masks IH]; intros bit local B N; cbn in N |- *; [done|].
  rewrite IH by lia. now rewrite !Z.mod_pow2_bits_low by lia.
Qed.

Lemma no_turn (a b : nat) k f g : 0 <= k <= 16 -> linear2 f -> map_check f a b (unit_mask 16 k) = true ->
  (forall x y, g x y = f (x mod 2 ^ Z.of_nat a) (y mod 2 ^ Z.of_nat b)) -> placement (Z.of_nat a) (Z.of_nat b) 16 k g.
Proof.
  intros K L M E. pose proof (turned_placement a b 16 k f (fun _ _ => 0) (fun _ _ => 0) (fun _ _ => 0) K L M ltac:(lia) ltac:(lia) ltac:(done)) as P.
  revert P. apply placement_ext. intros x y _ _. cbv zeta. now rewrite E, !Z.lxor_0_r.
Qed.

Lemma depth_placed eb : let '(a, b, k) := depth_shape eb in placement (Z.of_nat a) (Z.of_nat b) 16 k (depth_local eb).
Proof.
  unfold depth_shape, depth_local. destruct (eb =? 1); [|destruct (eb =? 2)].
  - apply (no_turn _ _ _ (walk_terms ps5vk_tiled_stencil_terms)); [lia|apply linear2_walk|vm_compute; reflexivity|reflexivity].
  - apply (no_turn _ _ _ (walk_terms ps5vk_tiled_depth2_terms)); [lia|apply linear2_walk|vm_compute; reflexivity|reflexivity].
  - apply (no_turn _ _ _ (fun x y => walk_bits 0 x y (combine depth_x_masks depth_y_masks) 0)); [lia|apply linear2_walk_bits|vm_compute; reflexivity|reflexivity].
Qed.

Lemma depth_offset eb a b k x y lw : depth_shape eb = (a, b, k) -> 0 <= x -> 0 <= y ->
  tiled_depth_offset x y lw eb = u64 (block_bytes (x / 2 ^ Z.of_nat a) (y / 2 ^ Z.of_nat b) (div_round_up lw (2 ^ Z.of_nat a)) + depth_local eb x y).
Proof.
  unfold depth_shape, tiled_depth_offset, depth_local. intros E X Y. rewrite !Z.shiftr_div_pow2 by lia.
  change 255 with (2 ^ 8 - 1). change 127 with (2 ^ 7 - 1). rewrite !land_pow2_pred by lia.
  destruct (eb =? 1); [|destruct (eb =? 2)]; injection E as <- <- <-; try reflexivity.
  change 128 with (2 ^ 7). rewrite walk_bits_mod by (cbn; lia). reflexivity.
Qed.

Lemma depth4_turn_mask c r : Z.land (depth4_turn c r) (unit_mask 16 4) = depth4_turn c r.
Proof. unfold depth4_turn. now rewrite !land_lxor_r, !bit_mask by (lia || reflexivity). Qed.

Definition depth4_local (x y : Z) : Z :=
  Z.lxor (walk_terms ps5vk_tiled_depth4_terms (x mod 64) (y mod 64)) (depth4_turn (x / 64) (y / 64)).

Lemma depth4_placed : placement 6 6 16 4 depth4_local.
Proof.
  pose proof (turned_placement 6 6 16 4 (walk_terms ps5vk_tiled_depth4_terms) (fun _ _ => 0) (fun _ _ => 0) depth4_turn ltac:(lia) (linear2_walk _)
    ltac:(vm_compute; reflexivity) ltac:(intros; cbn; lia) ltac:(intros; cbn; lia) depth4_turn_mask) as P.
  revert P. apply placement_ext. intros x y _ _. unfold depth4_local. cbv zeta. now rewrite !Z.lxor_0_r.
Qed.

Lemma depth4_offset x y lw : tiled_depth4_offset x y lw 64 64 = u64 (block_bytes (x / 64) (y / 64) (div_round_up lw 64) + depth4_local x y).
Proof. unfold tiled_depth4_offset, depth4_local. change (64 - 1) with (2 ^ 6 - 1). now rewrite !land_pow2_pred by lia. Qed.

(** ** Theorems *)

(** The fixed equation the common four-byte one-sample maps take gives the
    place the walk over the element tables gives, for every texel of every
    surface: whatever the tile, the element and the samples, the two paths of
    the map agree. *)
Theorem texel_offset_one_map x y level_width tile_width tile_height element_bytes samples :
  tiled_texel_offset x y level_width tile_width tile_height element_bytes samples =
  tiled_texel_walk x y level_width tile_width tile_height element_bytes samples.
Proof. apply texel_walk. Qed.
