(* ===== verification/ImageLayout.v ===== *)
(** * How images are stored ([src/driver/ps5vk_image.c])

    The storage of an image (rows padded to 256 bytes, or 64 KiB tiles with the
    measured mip chains and, for a stencil format, a stencil plane), the side a
    copy walks, and the address of a texel on it. *)

From Stdlib Require Import ZArith Lia.
From stdpp Require Import base numbers list.
From S2P Require Import Prelude DriverPrelude DirectMemory BlitPool XorMaps ImageTiles.
Open Scope Z_scope.

Definition PS5VK_TILED_ALIGNMENT : Z := 0x200000.
Definition PS5VK_ROW_ALIGNMENT : Z := 256.
Definition PS5VK_MAX_EXTENT_2D : Z := 16384.
Definition PS5VK_MAX_MIP_LEVELS : Z := 13.
Definition PS5VK_MAX_ARRAY_LAYERS : Z := 256.
Definition PS5VK_STENCIL_TILE_WIDTH : Z := 256.
Definition PS5VK_STENCIL_TILE_HEIGHT : Z := 256.

(** ** Images *)

(** A format, with what Mesa's queries and the driver's table answer for it. *)
Record format := Format {
  fmt_id : Z;
  fmt_blocksize : Z;
  fmt_depth : bool;
  fmt_stencil : bool;
  fmt_compressed : bool;
  fmt_storage_reversed : bool
}.

(** What a [VkImageCreateInfo] and the image made of it share. *)
Record image_shape := ImageShape {
  sh_format : format;
  sh_width : Z;
  sh_height : Z;
  sh_levels : Z;
  sh_layers : Z;
  sh_samples : Z
}.

Inductive image_storage := STORAGE_ROWS | STORAGE_TILES.
#[export] Instance image_storage_eq_dec : EqDecision image_storage.
Proof. solve_decision. Defined.

(** [struct ps5vk_image] *)
Record image := Image {
  im_shape : image_shape;
  im_storage : image_storage;
  im_size : Z;
  im_alignment : Z;
  im_stencil_offset : Z;
  im_address : Z
}.

Definition texel_size (sh : image_shape) : Z := fmt_blocksize (sh_format sh).

(** [align64] and [DIV_ROUND_UP] of 64-bit values. *)
Definition align64 (value alignment : Z) : Z := align_up_mask value alignment.
Definition div_round_up64 (a b : Z) : Z := u64 (a + b - 1) / b.

(** ** Rows *)

(** A level's stored extent, rounded up. *)
Definition stored_width (sh : image_shape) (level : Z) : Z := Z.max (div_round_up64 (sh_width sh) (Z.shiftl 1 level)) 1.
Definition stored_height (sh : image_shape) (level : Z) : Z := Z.max (div_round_up64 (sh_height sh) (Z.shiftl 1 level)) 1.
Definition row_pitch (sh : image_shape) (level : Z) : Z := align64 (u64 (stored_width sh level * texel_size sh)) PS5VK_ROW_ALIGNMENT.
Definition row_level_bytes (sh : image_shape) (level : Z) : Z := u64 (row_pitch sh level * stored_height sh level).

(** A 64-bit sum over a range of levels. *)
Definition sum_levels (f : Z -> Z) (from to : Z) : Z := fold_left (fun at_ level => u64 (at_ + f level)) (seqZ from (to - from)) 0.

(** [ps5vk_image_level_layout]: the level's offset, row pitch and extent. *)
Record level_layout := LevelLayout { ll_offset : Z; ll_pitch : Z; ll_width : Z; ll_height : Z }.
Definition image_level_layout (sh : image_shape) (level : Z) : level_layout :=
  LevelLayout (sum_levels (row_level_bytes sh) (level + 1) (sh_levels sh)) (row_pitch sh level) (u32 (stored_width sh level)) (u32 (stored_height sh level)).

(** ** Measured chains *)

(** [struct ps5vk_tiled_chain] *)
Record tiled_chain := Chain { tc_width : Z; tc_height : Z; tc_levels : Z; tc_bytes : Z; tc_bases : list Z }.

Definition ps5vk_tiled_chains : list tiled_chain :=
  [Chain 256 256 1 0x40000 [0];
   Chain 64 64 1 0x10000 [0];
   Chain 256 256 5 0x60000 [0x20000; 0x10000; 0x8400; 0x4800; 0x800];
   Chain 256 256 6 0x60000 [0x20000; 0x10000; 0x8400; 0x4800; 0x800; 0x400];
   Chain 128 128 4 0x20000 [0x10000; 0x8400; 0x4800; 0x800];
   Chain 512 512 5 0x160000 [0x60000; 0x20000; 0x10000; 0x8400; 0x4800];
   Chain 512 512 7 0x160000 [0x60000; 0x20000; 0x10000; 0x8400; 0x4800; 0x800; 0x400];
   Chain 1024 1024 8 0x560000 [0x160000; 0x60000; 0x20000; 0x10000; 0x8400; 0x4800; 0x800; 0x400];
   Chain 256 128 4 0x40000 [0x20000; 0x10000; 0x8400; 0x4800];
   Chain 64 64 3 0x10000 [0x8400; 0x4800; 0x800];
   Chain 32 32 2 0x10000 [0x8400; 0x4800]].

Definition chain_matches (sh : image_shape) (chain : tiled_chain) : bool :=
  (tc_width chain =? sh_width sh) && (tc_height chain =? sh_height sh) && (tc_levels chain =? sh_levels sh).

(** [ps5vk_tiled_chain_of] *)
Definition tiled_chain_of (sh : image_shape) : option tiled_chain :=
  if negb (texel_size sh =? 4) || negb (sh_samples sh =? 1) || (8 <? sh_levels sh) then None
  else find (chain_matches sh) ps5vk_tiled_chains.

Definition chain_base (chain : tiled_chain) (level : Z) : Z := nth (Z.to_nat level) (tc_bases chain) 0.

(** [ps5vk_image_tiled_level_base] *)
Definition image_tiled_level_base (sh : image_shape) (level : Z) : Z :=
  if (level =? 0) && (sh_levels sh =? 1) then 0
  else match tiled_chain_of sh with
       | None => UINT64_MAX
       | Some chain => if tc_levels chain <=? level then UINT64_MAX else chain_base chain level
       end.

(** [ps5vk_image_layer_bytes] *)
Definition image_layer_bytes (im : image) : Z :=
  let sh := im_shape im in
  if decide (im_storage im = STORAGE_TILES) then
    match tiled_chain_of sh with
    | Some chain => tc_bytes chain
    | None => if (sh_levels sh =? 1) && negb (fmt_stencil (sh_format sh)) then im_size im / Z.max (sh_layers sh) 1 else 0
    end
  else sum_levels (fun level => let l := image_level_layout sh level in u64 (ll_pitch l * ll_height l)) 0 (sh_levels sh).

(** [ps5vk_image_tiled_layer_level_base] *)
Definition image_tiled_layer_level_base (im : image) (level layer : Z) : Z :=
  if layer =? 0 then image_tiled_level_base (im_shape im) level
  else
    let slice := image_layer_bytes im in
    if slice =? 0 then UINT64_MAX
    else
      let base := image_tiled_level_base (im_shape im) level in
      if base =? UINT64_MAX then UINT64_MAX else u64 (u64 (slice * layer) + base).

(** ** Storage *)

(** A level's extent, rounded down. *)
Definition level_width (sh : image_shape) (level : Z) : Z := Z.max (Z.shiftr (sh_width sh) level) 1.
Definition level_height (sh : image_shape) (level : Z) : Z := Z.max (Z.shiftr (sh_height sh) level) 1.

Definition tiles_bytes (sh : image_shape) (tile_width tile_height level : Z) : Z :=
  u64 (div_round_up64 (level_width sh level) tile_width * div_round_up64 (level_height sh level) tile_height * PS5VK_TILE_BYTES).

(** [ps5vk_image_stencil_plane]: the plane's offset and bytes, for the bytes of
    the depth surface before it. *)
Definition image_stencil_plane (sh : image_shape) (depth_bytes : Z) : option (Z * Z) :=
  if fmt_stencil (sh_format sh) then
    Some (align64 depth_bytes PS5VK_TILE_BYTES,
          u64 (sum_levels (tiles_bytes sh PS5VK_STENCIL_TILE_WIDTH PS5VK_STENCIL_TILE_HEIGHT) 0 (sh_levels sh) * sh_layers sh))
  else None.

(** Usage bits, and the build's flag that tiles images whose rows need padding. *)
Definition USAGE_COLOR_ATTACHMENT : Z := 0x10.
Definition USAGE_DEPTH_STENCIL_ATTACHMENT : Z := 0x20.

Definition padded_single (sh : image_shape) : bool :=
  negb (fmt_depth (sh_format sh)) && negb (fmt_compressed (sh_format sh)) && (sh_levels sh =? 1) && (sh_layers sh =? 1) && (sh_samples sh =? 1) &&
  ((texel_size sh =? 1) || (texel_size sh =? 2) || (texel_size sh =? 4) || (texel_size sh =? 8) || (texel_size sh =? 16)) &&
  negb (u32 (sh_width sh * texel_size sh) mod 256 =? 0).

Definition stored_tiled (tile_padded : bool) (usage : Z) (sh : image_shape) : bool :=
  negb (Z.land usage (Z.lor USAGE_COLOR_ATTACHMENT USAGE_DEPTH_STENCIL_ATTACHMENT) =? 0) || fmt_stencil (sh_format sh) || (tile_padded && padded_single sh).

Record storage_layout := StorageLayout { st_storage : image_storage; st_size : Z; st_alignment : Z; st_stencil_offset : Z }.

(** The bytes of a tiled image's layer: the chain's, or its levels' tiles. *)
Definition tiled_layer_bytes (sh : image_shape) : Z :=
  let '(tile_width, tile_height) := tile_extent (texel_size sh) (fmt_depth (sh_format sh)) (sh_samples sh) in
  match (if (texel_size sh =? 4) && (sh_samples sh =? 1) then find (chain_matches sh) ps5vk_tiled_chains else None) with
  | Some chain => tc_bytes chain
  | None => sum_levels (tiles_bytes sh tile_width tile_height) 0 (sh_levels sh)
  end.

(** [ps5vk_image_storage] *)
Definition image_storage_of (tile_padded : bool) (usage : Z) (sh : image_shape) : storage_layout :=
  if stored_tiled tile_padded usage sh then
    let layer_bytes := tiled_layer_bytes sh in
    let size := align64 (u64 (layer_bytes * sh_layers sh)) PS5VK_TILED_ALIGNMENT in
    match image_stencil_plane sh layer_bytes with
    | None => StorageLayout STORAGE_TILES size PS5VK_TILED_ALIGNMENT 0
    | Some (offset, bytes) =>
        StorageLayout STORAGE_TILES (if bytes =? 0 then size else align64 (u64 (offset + bytes)) PS5VK_TILED_ALIGNMENT) PS5VK_TILED_ALIGNMENT offset
    end
  else
    StorageLayout STORAGE_ROWS (u64 (u64 (sum_levels (row_level_bytes sh) 0 (sh_levels sh) * sh_layers sh) * sh_samples sh)) PS5VK_ROW_ALIGNMENT 0.

(** ** Creation and binding *)

Inductive image_error := ERROR_FORMAT_NOT_SUPPORTED | ERROR_OUT_OF_DEVICE_MEMORY | ERROR_OUT_OF_HOST_MEMORY.

(** [ps5vk_CreateImage]: whether the combination is a supported image and
    whether Mesa's object can be allocated are the caller's. *)
Definition create_image (tile_padded supported allocated : bool) (usage : Z) (sh : image_shape) : image_error + image :=
  if negb supported then inl ERROR_FORMAT_NOT_SUPPORTED
  else if fmt_stencil (sh_format sh) && (negb (sh_levels sh =? 1) || negb (sh_layers sh =? 1) || negb (sh_samples sh =? 1)) then inl ERROR_FORMAT_NOT_SUPPORTED
  else
    let st := image_storage_of tile_padded usage sh in
    if PS5VK_ADDRESS_WINDOW_BYTES <? st_size st then inl ERROR_OUT_OF_DEVICE_MEMORY
    else if negb allocated then inl ERROR_OUT_OF_HOST_MEMORY
    else inr (Image sh (st_storage st) (st_size st) (st_alignment st) (st_stencil_offset st) 0).

(** [ps5vk_BindImageMemory2], for one image. *)
Definition bind_image_memory (im : image) (memory_address offset : Z) : image :=
  Image (im_shape im) (im_storage im) (im_size im) (im_alignment im) (im_stencil_offset im) (u64 (memory_address + offset)).

(** ** Sides of a copy *)

Definition ASPECT_COLOR : Z := 1.
Definition ASPECT_DEPTH : Z := 2.
Definition ASPECT_STENCIL : Z := 4.

(** [struct ps5vk_image_plane] *)
Record image_plane := ImagePlane { pl_offset : Z; pl_element_bytes : Z; pl_depth_map : bool }.

(** [ps5vk_image_plane] *)
Definition image_plane_of (im : image) (aspect : Z) : option image_plane :=
  let f := sh_format (im_shape im) in
  if negb (fmt_depth f) && negb (fmt_stencil f) then
    if aspect =? ASPECT_COLOR then Some (ImagePlane 0 (fmt_blocksize f) false) else None
  else if (aspect =? ASPECT_DEPTH) && fmt_depth f then Some (ImagePlane 0 (if fmt_stencil f then 4 else fmt_blocksize f) true)
  else if (aspect =? ASPECT_STENCIL) && fmt_stencil f && negb (im_stencil_offset im =? 0) then Some (ImagePlane (im_stencil_offset im) 1 true)
  else None.

(** [struct ps5vk_image_copy_side] *)
Record copy_side := CopySide {
  cs_address : Z;
  cs_row_pitch : Z;
  cs_level_width : Z;
  cs_tile_xor : Z;
  cs_tile_width : Z;
  cs_tile_height : Z;
  cs_element_bytes : Z;
  cs_samples : Z;
  cs_depth : bool;
  cs_tiled : bool
}.

(** [VkImageSubresourceLayers] *)
Record subresource := Subresource { sr_aspect : Z; sr_level : Z; sr_layer : Z; sr_layer_count : Z }.

(** [base & ~UINT64_C(0xffff)] and [base & UINT64_C(0xffff)] *)
Definition base_tile (base : Z) : Z := u64 (Z.land base (Z.lnot 0xffff)).
Definition base_xor (base : Z) : Z := Z.land base 0xffff.

(** [ps5vk_image_copy_side]: the texel's bytes and the side, or nothing for a
    placement the driver has no map of. *)
Definition image_copy_side (im : image) (sub : subresource) : option (Z * copy_side) :=
  let sh := im_shape im in
  match image_plane_of im (sr_aspect sub) with
  | None => None
  | Some plane =>
      let element_bytes := pl_element_bytes plane in
      if element_bytes =? 0 then None
      else if negb (sh_samples sh =? 1) && negb (sh_samples sh =? 4) then None
      else
        let samples := if sh_samples sh =? 4 then 4 else 1 in
        let texel_bytes := u32 (element_bytes * samples) in
        let depth := pl_depth_map plane in
        if negb (pl_offset plane =? 0) && (negb (sh_levels sh =? 1) || negb (sh_layers sh =? 1) || negb (sh_samples sh =? 1)) then None
        else if decide (im_storage im = STORAGE_TILES) then
          if negb (element_bytes =? 4) && negb (element_bytes =? 8) && negb (element_bytes =? 16) &&
             negb (((element_bytes =? 1) || (element_bytes =? 2)) && (samples =? 1)) then None
          else
            let '(tile_width, tile_height) := tile_extent element_bytes depth (sh_samples sh) in
            if negb (sh_levels sh =? 1) then
              let base := image_tiled_layer_level_base im (sr_level sub) (sr_layer sub) in
              if base =? UINT64_MAX then None
              else Some (texel_bytes, CopySide (u64 (im_address im + base_tile base)) 0 (u32 (level_width sh (sr_level sub))) (base_xor base)
                           tile_width tile_height element_bytes samples depth true)
            else
              let slice := image_layer_bytes im in
              if (1 <? sh_layers sh) && (slice =? 0) then None
              else
                let level_offset := if 1 <? sh_layers sh then u64 (slice * sr_layer sub) else 0 in
                if depth && negb (texel_bytes =? 4) && negb (texel_bytes =? 16) && negb (texel_bytes =? 1) then None
                else if depth && negb (sh_levels sh =? 1) then None
                else Some (texel_bytes, CopySide (u64 (im_address im + pl_offset plane + level_offset)) 0 (sh_width sh) 0
                             tile_width tile_height element_bytes samples depth true)
        else if negb (samples =? 1) then None
        else
          let l := image_level_layout sh (sr_level sub) in
          Some (texel_bytes, CopySide (u64 (im_address im + pl_offset plane + ll_offset l)) (ll_pitch l) (ll_width l) 0 0 0 element_bytes samples depth false)
  end.

Definition PS5VK_SAMPLE_PLANE_BYTES : Z := 0x4000.
Definition PS5VK_DEPTH_SAMPLE_BYTES : Z := 4.

(** [ps5vk_image_copy_address]: the coordinates are 32-bit signed. *)
Definition image_copy_address (side : copy_side) (x y texel_bytes sample : Z) : Z :=
  if cs_tiled side then
    if cs_depth side then
      if cs_samples side =? 4 then
        u64 (cs_address side + tiled_depth4_offset (Z.max x 0) (Z.max y 0) (cs_level_width side) (cs_tile_width side) (cs_tile_height side) +
             Z.land sample 3 * PS5VK_DEPTH_SAMPLE_BYTES)
      else u64 (cs_address side + tiled_depth_offset (Z.max x 0) (Z.max y 0) (cs_level_width side) texel_bytes)
    else
      let '(tile, swizzle) := tiled_texel_offset (u32 x) (u32 y) (cs_level_width side) (cs_tile_width side) (cs_tile_height side) (cs_element_bytes side) (cs_samples side) in
      let plane := if cs_samples side =? 4 then Z.land sample 3 * PS5VK_SAMPLE_PLANE_BYTES else 0 in
      u64 (cs_address side + tile + plane + Z.lxor swizzle (cs_tile_xor side))
  else u64 (cs_address side + u64 y * cs_row_pitch side + u64 x * texel_bytes).

(** ** Shapes the driver creates images of *)

Record shape_ok (sh : image_shape) : Prop := {
  shape_width : 1 <= sh_width sh <= PS5VK_MAX_EXTENT_2D;
  shape_height : 1 <= sh_height sh <= PS5VK_MAX_EXTENT_2D;
  shape_levels : 1 <= sh_levels sh <= PS5VK_MAX_MIP_LEVELS;
  shape_layers : 1 <= sh_layers sh <= PS5VK_MAX_ARRAY_LAYERS;
  shape_samples : sh_samples sh ∈ [1; 2; 4; 8];
  shape_texel : 1 <= texel_size sh <= 16;
  shape_depth : fmt_depth (sh_format sh) = true -> texel_size sh <= 8;
  shape_combined : fmt_depth (sh_format sh) = true -> fmt_stencil (sh_format sh) = true -> 4 <= texel_size sh
}.

Lemma sum_levels_total f from to bound : 0 <= from <= to -> (forall level, from <= level < to -> 0 <= f level <= bound) -> (to - from) * bound < 2 ^ 64 ->
  sum_levels f from to = total f (seqZ from (to - from)).
Proof.
  intros F B L. unfold sum_levels.
  assert (G : forall l s, Forall (fun level => 0 <= f level <= bound) l -> 0 <= s -> s + Z.of_nat (length l) * bound < 2 ^ 64 ->
    fold_left (fun at_ level => u64 (at_ + f level)) l s = s + total f l).
  { induction l as [|x l IH]; intros s A S D; cbn [fold_left total foldr]; [cbn; lia|]. inversion A as [|? ? A1 A2]; subst. cbn [length] in D.
    rewrite IH; [|done|unfold u64; apply Z.mod_pos_bound; lia|]; rewrite u64_small by nia; [cbn; unfold total; lia|nia]. }
  rewrite G; [lia|apply Forall_seqZ; intros; apply B; lia|lia|]. rewrite length_seqZ. nia.
Qed.

Lemma div_round_up64_bounds w k : 0 <= k < 40 -> 1 <= w <= PS5VK_MAX_EXTENT_2D -> 1 <= div_round_up64 w (Z.shiftl 1 k) <= w /\ w / 2 ^ k <= div_round_up64 w (Z.shiftl 1 k).
Proof.
  intros K W. unfold div_round_up64, PS5VK_MAX_EXTENT_2D in *. rewrite Z.shiftl_1_l. assert (P : 1 <= 2 ^ k <= 2 ^ 40) by (split; [lia|apply Z.pow_le_mono_r; lia]).
  rewrite u64_small by lia. split; [split|].
  - apply Z.div_le_lower_bound; lia.
  - apply Z.div_le_upper_bound; [lia|]. nia.
  - apply Z.div_le_mono; lia.
Qed.

Lemma total_seqZ_split (f : Z -> Z) a b c : a <= b <= c -> total f (seqZ a (c - a)) = total f (seqZ a (b - a)) + total f (seqZ b (c - b)).
Proof. intros B. rewrite <- total_app. f_equal. replace (c - a) with ((b - a) + (c - b)) by lia. rewrite seqZ_app by lia. do 2 f_equal. lia. Qed.

Lemma total_seqZ_step (f : Z -> Z) a level c : a <= level < c ->
  total f (seqZ a (c - a)) = total f (seqZ a (level - a)) + f level + total f (seqZ (level + 1) (c - (level + 1))).
Proof.
  intros B. rewrite (total_seqZ_split f a level c), (total_seqZ_split f level (level + 1) c) by lia. replace (level + 1 - level) with 1 by lia.
  change (seqZ level 1) with [0 + level]. cbn [total foldr]. unfold total. rewrite Z.add_0_l. lia.
Qed.

Lemma total_bound {A} (f : A -> Z) bound l : Forall (fun x => f x <= bound) l -> total f l <= Z.of_nat (length l) * bound.
Proof. induction 1 as [|x l B _ IH]; cbn [total foldr length]; [lia|]. unfold total in *. lia. Qed.

Lemma total_seqZ_nonneg (f : Z -> Z) a n : (forall level, a <= level < a + n -> 0 <= f level) -> 0 <= total f (seqZ a n).
Proof. intros N. apply total_ge_0, Forall_seqZ. intros; apply N; lia. Qed.

Lemma div_round_up_small w k : 0 <= k < 31 -> 1 <= w <= PS5VK_MAX_EXTENT_2D -> div_round_up64 w (2 ^ k) = div_round_up w (2 ^ k).
Proof.
  intros K W. unfold PS5VK_MAX_EXTENT_2D in W. unfold div_round_up, div_round_up64. assert (P : 1 <= 2 ^ k <= 2 ^ 30) by (split; [lia|apply Z.pow_le_mono_r; lia]).
  now rewrite u64_small, u32_small by lia.
Qed.

(** *** Rows *)

Section Rows.
Context (sh : image_shape) (S : shape_ok sh).

Lemma stored_bounds level : 0 <= level < sh_levels sh -> 1 <= stored_width sh level <= PS5VK_MAX_EXTENT_2D /\ 1 <= stored_height sh level <= PS5VK_MAX_EXTENT_2D.
Proof.
  intros L. destruct S as [W H V _ _ _ _ _]. unfold PS5VK_MAX_MIP_LEVELS in V. unfold stored_width, stored_height.
  pose proof (div_round_up64_bounds (sh_width sh) level ltac:(lia) W). pose proof (div_round_up64_bounds (sh_height sh) level ltac:(lia) H). lia.
Qed.

Lemma row_pitch_bounds level : 0 <= level < sh_levels sh -> stored_width sh level * texel_size sh <= row_pitch sh level < 2 ^ 19.
Proof.
  intros L. destruct (stored_bounds level L) as [W _]. destruct S as [_ _ _ _ _ T _ _]. unfold PS5VK_MAX_EXTENT_2D in W. unfold row_pitch, PS5VK_ROW_ALIGNMENT, align64.
  rewrite u64_small by nia. pose proof (align_up_mask_bounds (stored_width sh level * texel_size sh) 8 ltac:(lia) ltac:(nia) ltac:(nia)) as [B _].
  change (2 ^ 8) with 256 in B. nia.
Qed.

Lemma row_level_bytes_spec level : 0 <= level < sh_levels sh -> row_level_bytes sh level = row_pitch sh level * stored_height sh level /\ 0 <= row_level_bytes sh level <= 2 ^ 33.
Proof.
  intros L. destruct (stored_bounds level L) as [W H]. pose proof (row_pitch_bounds level L) as P. destruct S as [_ _ _ _ _ T _ _]. unfold PS5VK_MAX_EXTENT_2D in *.
  unfold row_level_bytes. rewrite u64_small by nia. split; [done|]. nia.
Qed.

Lemma row_offset level : 0 <= level < sh_levels sh -> ll_offset (image_level_layout sh level) = total (row_level_bytes sh) (seqZ (level + 1) (sh_levels sh - (level + 1))).
Proof.
  intros L. cbn [ll_offset image_level_layout]. pose proof (shape_levels _ S) as V. unfold PS5VK_MAX_MIP_LEVELS in V. apply (sum_levels_total _ _ _ (2 ^ 33)); [lia| |lia].
  intros l B. apply row_level_bytes_spec. lia.
Qed.

Lemma row_totals_nonneg from count : 0 <= from -> from + count <= sh_levels sh -> 0 <= total (row_level_bytes sh) (seqZ from count).
Proof. intros A B. apply total_seqZ_nonneg. intros l I. apply row_level_bytes_spec. lia. Qed.

(** A level follows the smaller ones. *)
Lemma row_levels_follow level smaller : 0 <= level < smaller -> smaller < sh_levels sh ->
  0 <= ll_offset (image_level_layout sh smaller) /\
  ll_offset (image_level_layout sh smaller) + row_level_bytes sh smaller <= ll_offset (image_level_layout sh level).
Proof.
  intros L M. rewrite !row_offset by lia. split; [apply row_totals_nonneg; lia|]. rewrite (total_seqZ_step _ (level + 1) smaller) by lia.
  pose proof (row_totals_nonneg (level + 1) (smaller - (level + 1)) ltac:(lia) ltac:(lia)). lia.
Qed.

(** The levels of a layer are all its bytes. *)
Lemma row_levels_inside level : 0 <= level < sh_levels sh ->
  0 <= ll_offset (image_level_layout sh level) /\
  ll_offset (image_level_layout sh level) + row_level_bytes sh level <= sum_levels (row_level_bytes sh) 0 (sh_levels sh) <= 2 ^ 37.
Proof.
  intros L. pose proof (shape_levels _ S) as V. unfold PS5VK_MAX_MIP_LEVELS in V. rewrite row_offset by lia.
  rewrite (sum_levels_total _ _ _ (2 ^ 33)) by (try lia; intros l B; apply row_level_bytes_spec; lia).
  split; [apply row_totals_nonneg; lia|]. split.
  - rewrite (total_seqZ_step _ 0 level) by lia. pose proof (row_totals_nonneg 0 (level - 0) ltac:(lia) ltac:(lia)). lia.
  - etransitivity; [apply (total_bound _ (2 ^ 33)), Forall_seqZ; intros l B; apply row_level_bytes_spec; lia|]. rewrite length_seqZ. lia.
Qed.
End Rows.

(** *** Slots *)

(** The bytes of a side's samples: they lie in a range, and two samples' do not
    meet. *)
Definition slot (side : copy_side) (x y s : Z) : Z := image_copy_address side x y (cs_element_bytes side) s.

Record in_side (side : copy_side) (w h x y s : Z) : Prop := { in_x : 0 <= x < w; in_y : 0 <= y < h; in_s : 0 <= s < cs_samples side }.

Record side_slots (side : copy_side) (w h lo hi : Z) : Prop := {
  slots_inside x y s : in_side side w h x y s -> lo <= slot side x y s /\ slot side x y s + cs_element_bytes side <= hi;
  slots_apart x y s x' y' s' : in_side side w h x y s -> in_side side w h x' y' s' -> (x, y, s) <> (x', y', s') ->
    slot side x y s + cs_element_bytes side <= slot side x' y' s' \/ slot side x' y' s' + cs_element_bytes side <= slot side x y s
}.

Lemma slots_weaken side w h w' h' lo hi lo' hi' : side_slots side w h lo hi -> w' <= w -> h' <= h -> lo' <= lo -> hi <= hi' -> side_slots side w' h' lo' hi'.
Proof.
  intros [I A] W H L U. assert (G : forall x y s, in_side side w' h' x y s -> in_side side w h x y s) by (intros x y s [X Y B]; constructor; lia).
  split; [intros x y s B; specialize (I x y s (G _ _ _ B)); lia|eauto].
Qed.

Lemma grid_slots side w h a b k local lo : surface w h -> 0 <= a < 31 -> 0 <= b < 31 -> 0 <= k <= 16 -> cs_element_bytes side = 2 ^ k ->
  sample_placement a b k (cs_samples side) local -> (forall x y s, in_side side w h x y s -> slot side x y s = lo + sample_at w a b local x y s) ->
  side_slots side w h lo (lo + grid_bytes w h (2 ^ a) (2 ^ b)).
Proof.
  intros S A B K E P V. split.
  - intros x y s I. rewrite V, E by done. destruct I as [X Y I]. pose proof (grid_inside w h a b k _ _ x y s S A B K P X Y I). lia.
  - intros x y s x' y' s' I I' D. rewrite !V, E by done. destruct I as [X Y I], I' as [X' Y' I'].
    pose proof (grid_apart w h a b k _ _ x y s x' y' s' S A B K P X Y I X' Y' I' D). lia.
Qed.

(** A colour side at one level: its grid starts at the side's address. *)
Definition colour_hi (side : copy_side) (w h : Z) : Z := cs_address side + grid_bytes w h (cs_tile_width side) (cs_tile_height side).

Lemma colour_shape_bounds eb s : colour_mapped eb s -> let '(a, b, n, k) := colour_shape eb s in
  Z.of_nat a < 31 /\ Z.of_nat b < 31 /\ 0 <= k <= n /\ (s = 4 /\ n = 14 \/ s = 1 /\ n = 16).
Proof. intros C. colour_cases C; cbn; lia. Qed.

Lemma sample_land s : 0 <= s < 4 -> Z.land s 3 = s.
Proof. intros S. change 3 with (2 ^ 2 - 1). rewrite land_pow2_pred by lia. apply Z.mod_small. lia. Qed.

(** The place of a colour side's sample in its tile. *)
Definition colour_samples (side : copy_side) (x y s : Z) : Z :=
  (if cs_samples side =? 4 then s * PS5VK_SAMPLE_PLANE_BYTES else 0) +
  Z.lxor (colour_local (cs_element_bytes side) (cs_samples side) (cs_tile_width side) (cs_tile_height side) x y) (cs_tile_xor side).

(** A colour side of a level [w] wide and [h] high. *)
Record colour_side (side : copy_side) (w h : Z) : Prop := {
  colour_tiled : cs_tiled side = true /\ cs_depth side = false;
  colour_element : colour_mapped (cs_element_bytes side) (cs_samples side);
  colour_extent : (cs_tile_width side, cs_tile_height side) = tile_extent (cs_element_bytes side) false (cs_samples side);
  colour_surface : cs_level_width side = w /\ surface w h;
  colour_xor : 0 <= cs_tile_xor side < 2 ^ 16 /\ cs_tile_xor side mod cs_element_bytes side = 0 /\ (cs_samples side = 4 -> cs_tile_xor side = 0);
  colour_range : 0 <= cs_address side /\ colour_hi side w h < 2 ^ 64
}.

Lemma colour_samples_placed side w h : colour_side side w h -> let '(a, b, n, k) := colour_shape (cs_element_bytes side) (cs_samples side) in
  cs_tile_width side = 2 ^ Z.of_nat a /\ cs_tile_height side = 2 ^ Z.of_nat b /\ cs_element_bytes side = 2 ^ k /\ Z.of_nat a < 31 /\ Z.of_nat b < 31 /\ 0 <= k <= 16 /\
  sample_placement (Z.of_nat a) (Z.of_nat b) k (cs_samples side) (colour_samples side).
Proof.
  intros [_ C E _ (X & XA & X4) _]. pose proof (colour_placed _ _ C) as P. pose proof (colour_shape_extent _ _ C) as SE. pose proof (colour_shape_bounds _ _ C) as SB.
  destruct (colour_shape (cs_element_bytes side) (cs_samples side)) as [[[a b] n] k].
  destruct SE as (EE & EK & EN & EM), SB as (BA & BB & K & ES). rewrite EE in E. injection E as EW EH. rewrite EW, EH, <- EK in *.
  repeat (split; [done || lia|]). unfold colour_samples. rewrite EW, EH. rewrite EK in *. destruct ES as [[ES ->]|[ES ->]].
  - rewrite (X4 ES), ES. cbn [Z.eqb Pos.eqb]. rewrite ES in P. pose proof (plane_samples _ _ 14 k 4 _ K ltac:(vm_compute; discriminate) P) as Q.
    destruct Q as [R I]. split; intros; rewrite !Z.lxor_0_r in *; eauto.
  - rewrite ES. cbn [Z.eqb Pos.eqb]. rewrite <- EK in XA. rewrite ES in P.
    pose proof (one_sample _ _ _ _ (placement_shift _ _ 16 k _ (cs_tile_xor side) K X XA P)) as [R I]. split; intros; rewrite ?Z.add_0_l in *; eauto.
Qed.

Lemma colour_value side w h x y s : colour_side side w h -> in_side side w h x y s -> let '(a, b, n, k) := colour_shape (cs_element_bytes side) (cs_samples side) in
  slot side x y s = cs_address side + sample_at w (Z.of_nat a) (Z.of_nat b) (colour_samples side) x y s.
Proof.
  intros CS I. pose proof (colour_samples_placed side w h CS) as P. destruct (colour_shape (cs_element_bytes side) (cs_samples side)) as [[[a b] n] k] eqn:SH.
  destruct P as (TW & TH & EK & BA & BB & BK & P). destruct CS as [[T D] C _ [LW S] _ [A U]]. unfold colour_hi in U. rewrite TW, TH in U. destruct I as [IX IY IS].
  destruct (grid_inside w h (Z.of_nat a) (Z.of_nat b) k _ _ x y s S ltac:(lia) ltac:(lia) BK P IX IY IS) as (G1 & G2 & _).
  unfold slot, image_copy_address. rewrite T, D, !(u32_small x), !(u32_small y), TW, TH, LW by (destruct S; lia).
  rewrite (colour_offset _ _ a b n k) by (done || lia). rewrite <- (u64_small (cs_address side + sample_at _ _ _ _ _ _ _)) by lia.
  f_equal. unfold sample_at, colour_samples. rewrite TW, TH. destruct (Z.eqb_spec (cs_samples side) 4) as [E|]; [rewrite sample_land by lia|]; lia.
Qed.

Lemma colour_slots side w h : colour_side side w h -> side_slots side w h (cs_address side) (colour_hi side w h).
Proof.
  intros CS. pose proof (colour_samples_placed side w h CS) as P. pose proof (fun x y s => colour_value side w h x y s CS) as V.
  destruct (colour_shape (cs_element_bytes side) (cs_samples side)) as [[[a b] n] k]. destruct P as (TW & TH & EK & BA & BB & BK & P).
  unfold colour_hi. rewrite TW, TH. apply (grid_slots side w h (Z.of_nat a) (Z.of_nat b) k (colour_samples side)); auto; try lia. apply (colour_surface _ _ _ CS).
Qed.

(** A depth or stencil side at one level. *)
Record depth_side (side : copy_side) (w h : Z) : Prop := {
  depth_tiled : cs_tiled side = true /\ cs_depth side = true /\ cs_samples side = 1;
  depth_element : cs_element_bytes side ∈ [1; 2; 4];
  depth_extent : (cs_tile_width side, cs_tile_height side) = tile_extent (cs_element_bytes side) true 1;
  depth_surface : cs_level_width side = w /\ surface w h;
  depth_range : 0 <= cs_address side /\ colour_hi side w h < 2 ^ 64
}.

Lemma depth_shape_bounds eb : let '(a, b, k) := depth_shape eb in Z.of_nat a < 31 /\ Z.of_nat b < 31 /\ 0 <= k <= 16.
Proof. unfold depth_shape. destruct (_ =? 1); [|destruct (_ =? 2)]; lia. Qed.

Lemma depth_value side w h x y s : depth_side side w h -> in_side side w h x y s -> let '(a, b, k) := depth_shape (cs_element_bytes side) in
  slot side x y s = cs_address side + sample_at w (Z.of_nat a) (Z.of_nat b) (fun x y _ => depth_local (cs_element_bytes side) x y) x y s.
Proof.
  intros [(T & D & M) C E [LW S] [A U]] [IX IY IS]. pose proof (depth_placed (cs_element_bytes side)) as P. pose proof (depth_shape_extent _ C) as SE. pose proof (depth_shape_bounds (cs_element_bytes side)) as SB.
  unfold colour_hi in U. destruct (depth_shape (cs_element_bytes side)) as [[a b] k] eqn:DS. destruct SE as (EE & EK & EN), SB as (BA & BB & K).
  rewrite EE in E. injection E as EW EH. rewrite EW, EH in *. apply one_sample in P. rewrite M in IS.
  destruct (grid_inside w h (Z.of_nat a) (Z.of_nat b) k _ _ x y s S ltac:(lia) ltac:(lia) K P IX IY IS) as (G1 & G2 & _).
  unfold slot, image_copy_address. rewrite T, D, M, LW, !Z.max_l by lia. cbn [Z.eqb Pos.eqb]. rewrite (depth_offset _ a b k) by (done || lia).
  unfold sample_at in *. rewrite (u64_small (block_bytes _ _ _ + _)) by lia. apply u64_small. lia.
Qed.

Lemma depth_slots side w h : depth_side side w h -> side_slots side w h (cs_address side) (colour_hi side w h).
Proof.
  intros DS. pose proof (depth_placed (cs_element_bytes side)) as P. pose proof (depth_shape_extent _ (depth_element _ _ _ DS)) as SE. pose proof (depth_shape_bounds (cs_element_bytes side)) as SB.
  pose proof (fun x y s => depth_value side w h x y s DS) as V. destruct DS as [(T & D & M) C E [LW S] [A U]].
  destruct (depth_shape (cs_element_bytes side)) as [[a b] k]. destruct SE as (EE & EK & EN), SB as (BA & BB & K). rewrite EE in E. injection E as EW EH. unfold colour_hi. rewrite EW, EH.
  apply (grid_slots side w h (Z.of_nat a) (Z.of_nat b) k (fun x y _ => depth_local (cs_element_bytes side) x y)); auto; try lia. rewrite M. now apply one_sample.
Qed.

(** A four-sample depth side. *)
Lemma depth4_slots side w h : cs_tiled side = true -> cs_depth side = true -> cs_samples side = 4 -> cs_element_bytes side = 4 ->
  (cs_tile_width side, cs_tile_height side) = (64, 64) -> cs_level_width side = w -> surface w h ->
  0 <= cs_address side -> colour_hi side w h < 2 ^ 64 -> side_slots side w h (cs_address side) (colour_hi side w h).
Proof.
  intros T D M C E LW S A U. unfold colour_hi in *. injection E as EW EH. rewrite EW, EH in *.
  pose proof (inner_samples 6 6 4 2 4 _ ltac:(lia) ltac:(lia) ltac:(vm_compute; discriminate) depth4_placed) as P.
  apply (grid_slots side w h 6 6 2 (fun x y s => depth4_local x y + s * 2 ^ 2)); auto; try lia; [now rewrite M|].
  intros x y s [IX IY IS]. rewrite M in IS. destruct (grid_inside w h 6 6 2 _ _ x y s S ltac:(lia) ltac:(lia) ltac:(lia) P IX IY IS) as (G1 & G2 & _).
  destruct (grid_inside w h 6 6 2 _ _ x y 0 S ltac:(lia) ltac:(lia) ltac:(lia) P IX IY ltac:(lia)) as (G0 & _).
  unfold slot, image_copy_address. rewrite T, D, M, LW, EW, EH, !Z.max_l, sample_land by lia. cbn [Z.eqb Pos.eqb]. rewrite depth4_offset.
  unfold sample_at in *. change (2 ^ 6) with 64 in *. change (2 ^ 2) with 4 in *. unfold PS5VK_DEPTH_SAMPLE_BYTES. rewrite (u64_small (block_bytes _ _ _ + depth4_local _ _)) by lia.
  rewrite u64_small by lia. lia.
Qed.

(** A side stored in rows. *)
Record row_side (side : copy_side) (w h : Z) : Prop := {
  row_tiled : cs_tiled side = false;
  row_samples : cs_samples side = 1;
  row_element : 0 < cs_element_bytes side;
  row_fits : w * cs_element_bytes side <= cs_row_pitch side;
  row_surface : surface w h;
  row_address : 0 <= cs_address side;
  row_end : cs_address side + h * cs_row_pitch side < 2 ^ 64
}.

Lemma row_slots side w h : row_side side w h -> side_slots side w h (cs_address side) (cs_address side + h * cs_row_pitch side).
Proof.
  intros [T M E P S A U]. assert (V : forall x y s, in_side side w h x y s -> slot side x y s = cs_address side + y * cs_row_pitch side + x * cs_element_bytes side /\ (x + 1) * cs_element_bytes side <= cs_row_pitch side /\ (y + 1) * cs_row_pitch side <= h * cs_row_pitch side).
  { intros x y s [IX IY _]. destruct S as [SW SH]. unfold slot, image_copy_address. rewrite T, !(u64_small y), !(u64_small x) by lia.
    assert ((x + 1) * cs_element_bytes side <= cs_row_pitch side) by nia. assert ((y + 1) * cs_row_pitch side <= h * cs_row_pitch side) by nia.
    rewrite u64_small by nia. lia. }
  split.
  - intros x y s I. destruct (V _ _ _ I) as (-> & V1 & V2). destruct I as [IX IY _]. nia.
  - intros x y s x' y' s' I I' D. destruct (V _ _ _ I) as (-> & V1 & V2), (V _ _ _ I') as (-> & V1' & V2'). destruct I as [IX IY IS], I' as [IX' IY' IS']. rewrite M in *.
    destruct (Z.lt_trichotomy y y') as [L|[->|L]]; [left; nia| |right; nia]. assert (x <> x') by (intros ->; apply D; repeat f_equal; lia). nia.
Qed.

(** *** Images the driver makes *)

(** An image created and bound: its storage is the one its shape asks for, and
    its memory lies where the GPU takes addresses. *)
Record bound_image (im : image) : Prop := {
  bound_shape : shape_ok (im_shape im);
  bound_created : exists tile_padded supported allocated usage made memory offset,
    create_image tile_padded supported allocated usage (im_shape im) = inr made /\ im = bind_image_memory made memory offset;
  bound_range : 0 < im_address im /\ im_address im + im_size im <= PS5VK_GPU_ADDRESS_LIMIT
}.

Lemma bound_storage im : bound_image im -> exists tile_padded usage, let st := image_storage_of tile_padded usage (im_shape im) in
  im_storage im = st_storage st /\ im_size im = st_size st /\ im_stencil_offset im = st_stencil_offset st /\
  (fmt_stencil (sh_format (im_shape im)) = true -> sh_levels (im_shape im) = 1 /\ sh_layers (im_shape im) = 1 /\ sh_samples (im_shape im) = 1).
Proof.
  intros [_ (tp & sup & al & us & made & mem & off & C & ->) _]. exists tp, us. unfold create_image in C. cbn [im_shape bind_image_memory] in *. set (sh := im_shape made) in *.
  destruct sup; [|done]. cbn [negb] in C. destruct (fmt_stencil (sh_format sh) && _) eqn:F; [done|]. destruct (_ <? _); [done|]. destruct al; [|done]. injection C as C. cbv zeta.
  assert (I : im_storage made = st_storage (image_storage_of tp us sh) /\ im_size made = st_size (image_storage_of tp us sh) /\ im_stencil_offset made = st_stencil_offset (image_storage_of tp us sh)) by now rewrite <- C.
  destruct I as (I1 & I2 & I3). split; [done|]. split; [done|]. split; [done|]. intros E. rewrite E in F. cbn in F. apply orb_false_iff in F as [F F3]. apply orb_false_iff in F as [F1 F2].
  apply negb_false_iff in F1, F2, F3. to_prop. done.
Qed.

Lemma tile_extent_pow2 tb d s : s ∈ [1; 2; 4; 8] -> exists a b : nat, tile_extent tb d s = (2 ^ Z.of_nat a, 2 ^ Z.of_nat b) /\ (4 <= a <= 8)%nat /\ (4 <= b <= 8)%nat.
Proof.
  intros S. unfold tile_extent. set (t := if _ && _ then 4 else tb).
  assert (L : (if t =? 1 then 0 else if t =? 2 then 1 else if t =? 8 then 3 else if t =? 16 then 4 else 2) ∈ [0; 1; 2; 3; 4]).
  { repeat case_match; repeat (left || right). }
  set (l := if t =? 1 then 0 else _) in *. clearbody l. clear t.
  rewrite !elem_of_cons, elem_of_nil in S. rewrite !elem_of_cons, elem_of_nil in L.
  destruct_or! L; try done; subst l; destruct_or! S; try done; subst s; cbn;
    lazymatch goal with |- exists a b : nat, (?x, ?y) = _ /\ _ => exists (Z.to_nat (Z.log2 x)), (Z.to_nat (Z.log2 y)) end; (split; [reflexivity|split; split; apply Nat.leb_le; reflexivity]).
Qed.

Lemma level_bounds sh level : shape_ok sh -> 0 <= level -> 1 <= level_width sh level <= PS5VK_MAX_EXTENT_2D /\ 1 <= level_height sh level <= PS5VK_MAX_EXTENT_2D.
Proof.
  intros [W H _ _ _ _ _ _] L. unfold level_width, level_height, PS5VK_MAX_EXTENT_2D in *. rewrite !Z.shiftr_div_pow2 by lia. assert (1 <= 2 ^ level) by lia.
  assert (G : forall v, 1 <= v <= 16384 -> v / 2 ^ level <= 16384) by (intros v V; transitivity v; [apply Z.div_le_upper_bound; nia|lia]).
  pose proof (G _ W). pose proof (G _ H). lia.
Qed.

Lemma level_surface sh level : shape_ok sh -> 0 <= level -> surface (level_width sh level) (level_height sh level).
Proof. intros S L. destruct (level_bounds sh level S L). unfold PS5VK_MAX_EXTENT_2D in *. constructor; lia. Qed.

(** A level's tiles, in 64 bits. *)
Lemma tiles_bytes_spec sh (a b : nat) level : shape_ok sh -> 0 <= level -> (a <= 8)%nat -> (b <= 8)%nat -> let tw := 2 ^ Z.of_nat a in let th := 2 ^ Z.of_nat b in
  tiles_bytes sh tw th level = grid_bytes (level_width sh level) (level_height sh level) tw th /\ 0 < tiles_bytes sh tw th level <= 2 ^ 44.
Proof.
  intros S L A B tw th. subst tw th. destruct (level_bounds sh level S L) as [W H]. unfold tiles_bytes, grid_bytes. rewrite !div_round_up_small by lia.
  unfold PS5VK_MAX_EXTENT_2D in *.
  pose proof (div_round_up_le (level_width sh level) (Z.of_nat a) ltac:(lia) ltac:(lia)). pose proof (div_round_up_le (level_height sh level) (Z.of_nat b) ltac:(lia) ltac:(lia)).
  pose proof (column_bound (level_width sh level) (Z.of_nat a) 0 ltac:(lia) ltac:(lia) ltac:(lia)) as P. pose proof (column_bound (level_height sh level) (Z.of_nat b) 0 ltac:(lia) ltac:(lia) ltac:(lia)) as Q.
  rewrite Z.div_0_l in P, Q by lia. unfold PS5VK_TILE_BYTES. rewrite u64_small by nia. split; [done|]. nia.
Qed.

(** *** The chains of the table *)

Definition chain_shape (f : format) (chain : tiled_chain) : image_shape := ImageShape f (tc_width chain) (tc_height chain) (tc_levels chain) 1 1.

(** A level's origin and tiles lie in the chain's bytes. *)
Definition level_fits (chain : tiled_chain) (level : Z) : bool :=
  let base := chain_base chain level in
  (0 <=? base) && (base <? 2 ^ 32) && (base mod 16 =? 0) &&
  (base_tile base + grid_bytes (Z.max (Z.shiftr (tc_width chain) level) 1) (Z.max (Z.shiftr (tc_height chain) level) 1) 128 128 <=? tc_bytes chain).
Definition chain_fits (chain : tiled_chain) : bool :=
  (1 <=? tc_levels chain) && (0 <? tc_bytes chain) && (tc_bytes chain <? 2 ^ 32) && forallb (level_fits chain) (seqZ 0 (tc_levels chain)).

Lemma chains_fit : forallb chain_fits ps5vk_tiled_chains = true.
Proof. vm_compute. reflexivity. Qed.

Lemma chain_fits_spec sh chain : find (chain_matches sh) ps5vk_tiled_chains = Some chain ->
  (tc_width chain = sh_width sh /\ tc_height chain = sh_height sh /\ tc_levels chain = sh_levels sh) /\ 0 < tc_bytes chain < 2 ^ 32 /\
  forall level, 0 <= level < sh_levels sh -> let base := chain_base chain level in
    0 <= base < 2 ^ 32 /\ base mod 16 = 0 /\ base_tile base + grid_bytes (level_width sh level) (level_height sh level) 128 128 <= tc_bytes chain.
Proof.
  intros F. apply find_some in F as [I M]. unfold chain_matches in M. apply andb_true_iff in M as [M M3]. apply andb_true_iff in M as [M1 M2]. apply Z.eqb_eq in M1, M2, M3.
  pose proof chains_fit as C. rewrite forallb_forall in C. specialize (C _ I). unfold chain_fits in C. apply andb_true_iff in C as [C CL]. apply andb_true_iff in C as [C C3]. apply andb_true_iff in C as [C1 C2]. to_prop.
  split; [done|]. split; [lia|]. intros level L base. rewrite forallb_forall in CL. specialize (CL level). unfold level_fits in CL. fold base in CL.
  rewrite M1, M2, M3 in CL. unfold level_width, level_height. assert (IL : In level (seqZ 0 (sh_levels sh))) by (apply list_elem_of_In, elem_of_seqZ; lia).
  specialize (CL IL). to_prop. lia.
Qed.

Lemma level_0 sh : shape_ok sh -> level_width sh 0 = sh_width sh /\ level_height sh 0 = sh_height sh.
Proof. intros [W H _ _ _ _ _ _]. unfold level_width, level_height, PS5VK_MAX_EXTENT_2D in *. rewrite !Z.shiftr_0_r. lia. Qed.

Lemma sum_tiles sh (a b : nat) : shape_ok sh -> (a <= 8)%nat -> (b <= 8)%nat -> let f := tiles_bytes sh (2 ^ Z.of_nat a) (2 ^ Z.of_nat b) in
  sum_levels f 0 (sh_levels sh) = total f (seqZ 0 (sh_levels sh)) /\ f 0 <= total f (seqZ 0 (sh_levels sh)) <= 2 ^ 48.
Proof.
  intros S A B f. pose proof (shape_levels _ S) as V. unfold PS5VK_MAX_MIP_LEVELS in V.
  assert (F : forall level, 0 <= level -> 0 < f level <= 2 ^ 44) by (intros level L; apply (tiles_bytes_spec sh a b level); auto).
  rewrite (sum_levels_total _ _ _ (2 ^ 44)); [|lia|intros l L; specialize (F l ltac:(lia)); lia|lia]. rewrite Z.sub_0_r. split; [done|]. split.
  - pose proof (total_seqZ_step f 0 0 (sh_levels sh) ltac:(lia)) as E. rewrite !Z.sub_0_r in E. change (total f (seqZ 0 0)) with 0 in E.
    pose proof (total_seqZ_nonneg f (0 + 1) (sh_levels sh - (0 + 1)) ltac:(intros l L; specialize (F l ltac:(lia)); lia)). lia.
  - etransitivity; [apply (total_bound _ (2 ^ 44)), Forall_seqZ; intros l L; specialize (F l ltac:(lia)); lia|]. rewrite length_seqZ. lia.
Qed.

(** A tiled layer's bytes hold its first level's tiles. *)
Lemma tiled_layer_bytes_spec sh tw th : shape_ok sh -> tile_extent (texel_size sh) (fmt_depth (sh_format sh)) (sh_samples sh) = (tw, th) ->
  0 < tiled_layer_bytes sh <= 2 ^ 48 /\ (sh_levels sh = 1 -> grid_bytes (sh_width sh) (sh_height sh) tw th <= tiled_layer_bytes sh).
Proof.
  intros S E. unfold tiled_layer_bytes. rewrite E. destruct (tile_extent_pow2 (texel_size sh) (fmt_depth (sh_format sh)) (sh_samples sh) (shape_samples _ S)) as (a & b & E' & A & B).
  rewrite E' in E. injection E as <- <-. destruct (sum_tiles sh a b S ltac:(lia) ltac:(lia)) as [T1 T2].
  destruct (tiles_bytes_spec sh a b 0 S ltac:(lia) ltac:(lia) ltac:(lia)) as [G1 G2]. destruct (level_0 sh S) as [L1 L2]. rewrite L1, L2 in G1.
  assert (N : 0 < sum_levels (tiles_bytes sh (2 ^ Z.of_nat a) (2 ^ Z.of_nat b)) 0 (sh_levels sh) <= 2 ^ 48 /\
    (sh_levels sh = 1 -> grid_bytes (sh_width sh) (sh_height sh) (2 ^ Z.of_nat a) (2 ^ Z.of_nat b) <= sum_levels (tiles_bytes sh (2 ^ Z.of_nat a) (2 ^ Z.of_nat b)) 0 (sh_levels sh))).
  { rewrite T1, <- G1. lia. }
  destruct ((texel_size sh =? 4) && (sh_samples sh =? 1)) eqn:C; [|done]. destruct (find _ _) as [chain|] eqn:F; [|done].
  apply chain_fits_spec in F as (M & B1 & L). split; [lia|]. intros V. destruct (L 0 ltac:(lia)) as (P & _ & Q). rewrite L1, L2 in Q.
  to_prop. assert (X : 2 ^ Z.of_nat a = 128 /\ 2 ^ Z.of_nat b = 128).
  { match goal with H : texel_size sh = 4, H' : sh_samples sh = 1 |- _ => rewrite H, H' in E' end.
    destruct (fmt_depth (sh_format sh)); change (tile_extent 4 _ 1) with (128, 128) in E'; injection E' as <- <-; done. }
  destruct X as [-> ->]. assert (0 <= base_tile (chain_base chain 0)) by (unfold base_tile, u64; apply Z.mod_pos_bound; lia). lia.
Qed.

Lemma tiled_alignment v : 0 <= v <= 2 ^ 60 -> v <= align64 v PS5VK_TILED_ALIGNMENT <= v + 2 ^ 21.
Proof. intros V. pose proof (align_up_mask_bounds v 21 ltac:(lia) ltac:(lia) ltac:(lia)) as [B _]. change (2 ^ 21) with PS5VK_TILED_ALIGNMENT in *. unfold align64. lia. Qed.

(** A tiled image's memory holds its first layer, and after it the stencil
    plane's tiles. *)
Lemma tiled_storage_holds tile_padded usage sh : shape_ok sh -> stored_tiled tile_padded usage sh = true ->
  (fmt_stencil (sh_format sh) = true -> sh_levels sh = 1 /\ sh_layers sh = 1 /\ sh_samples sh = 1) ->
  let st := image_storage_of tile_padded usage sh in
  st_storage st = STORAGE_TILES /\ tiled_layer_bytes sh <= st_size st /\
  if fmt_stencil (sh_format sh)
  then 0 < tiled_layer_bytes sh <= st_stencil_offset st /\ st_stencil_offset st + grid_bytes (sh_width sh) (sh_height sh) 256 256 <= st_size st
  else st_stencil_offset st = 0.
Proof.
  intros S T St. cbv zeta. unfold image_storage_of. rewrite T. destruct (tile_extent (texel_size sh) (fmt_depth (sh_format sh)) (sh_samples sh)) as [tw th] eqn:E.
  destruct (tiled_layer_bytes_spec sh tw th S E) as [B _]. pose proof (shape_layers _ S) as Y. unfold PS5VK_MAX_ARRAY_LAYERS in Y.
  unfold image_stencil_plane. destruct (fmt_stencil (sh_format sh)).
  - destruct (St eq_refl) as (V & L & _). rewrite V, L, !Z.mul_1_r.
    destruct (sum_tiles sh 8 8 S ltac:(lia) ltac:(lia)) as [T1 T2]. destruct (tiles_bytes_spec sh 8 8 0 S ltac:(lia) ltac:(lia) ltac:(lia)) as [G1 G2].
    destruct (level_0 sh S) as [L1 L2]. rewrite L1, L2 in G1. change (2 ^ Z.of_nat 8) with 256 in *. rewrite V in T1, T2.
    unfold PS5VK_STENCIL_TILE_WIDTH, PS5VK_STENCIL_TILE_HEIGHT. rewrite T1, !(u64_small (total _ _)) by lia. rewrite (u64_small (tiled_layer_bytes sh)) by lia.
    pose proof (align_up_mask_bounds (tiled_layer_bytes sh) 16 ltac:(lia) ltac:(lia) ltac:(lia)) as [A _]. change (2 ^ 16) with PS5VK_TILE_BYTES in A. fold (align64 (tiled_layer_bytes sh) PS5VK_TILE_BYTES) in A.
    assert (HT : PS5VK_TILE_BYTES = 65536) by reflexivity. destruct (_ =? 0) eqn:Z0; to_prop; [lia|]. cbn [st_storage st_size st_stencil_offset].
    rewrite u64_small by lia. pose proof (tiled_alignment (align64 (tiled_layer_bytes sh) PS5VK_TILE_BYTES + total (tiles_bytes sh 256 256) (seqZ 0 1)) ltac:(lia)). split; [done|]. lia.
  - cbn [st_storage st_size st_stencil_offset]. rewrite u64_small by nia. pose proof (tiled_alignment (tiled_layer_bytes sh * sh_layers sh) ltac:(nia)). split; [done|]. split; [nia|done].
Qed.

(** *** Where a side's texels lie *)

(** What a plane of a bound image is. *)
Lemma image_plane_cases im aspect p : image_plane_of im aspect = Some p ->
  let f := sh_format (im_shape im) in
  (fmt_depth f = false /\ fmt_stencil f = false /\ p = ImagePlane 0 (fmt_blocksize f) false) \/
  (fmt_depth f = true /\ p = ImagePlane 0 (if fmt_stencil f then 4 else fmt_blocksize f) true) \/
  (fmt_stencil f = true /\ im_stencil_offset im <> 0 /\ p = ImagePlane (im_stencil_offset im) 1 true).
Proof.
  unfold image_plane_of. cbv zeta. set (f := sh_format (im_shape im)). intros E. destruct (fmt_depth f) eqn:D, (fmt_stencil f) eqn:S; cbn [negb andb] in E; repeat case_match; to_prop; try discriminate; simplify_eq; auto 8;
    match goal with H : (_ && _)%bool = true |- _ => apply andb_true_iff in H as [? ?] | _ => idtac end; to_prop; auto 10.
Qed.

Lemma base_split base : 0 <= base < 2 ^ 32 -> base_tile base + base_xor base = base /\ 0 <= base_xor base < 2 ^ 16 /\ 0 <= base_tile base <= base.
Proof.
  intros B. unfold base_tile, base_xor. change 0xffff with (2 ^ 16 - 1). rewrite land_pow2_pred by lia. rewrite <- Z.ldiff_land. change (2 ^ 16 - 1) with (Z.ones 16). rewrite Z.ldiff_ones_r by lia.
  rewrite Z.shiftl_mul_pow2, Z.shiftr_div_pow2 by lia. pose proof (Z.div_mod base (2 ^ 16) ltac:(lia)). pose proof (Z.mod_pos_bound base (2 ^ 16) ltac:(lia)).
  rewrite u64_small by lia. lia.
Qed.

(** A row image's side. *)
Lemma row_side_of im sub tb side : bound_image im -> im_storage im = STORAGE_ROWS -> 0 <= sr_level sub < sh_levels (im_shape im) -> image_copy_side im sub = Some (tb, side) ->
  let l := image_level_layout (im_shape im) (sr_level sub) in
  row_side side (stored_width (im_shape im) (sr_level sub)) (stored_height (im_shape im) (sr_level sub)) /\
  side = CopySide (im_address im + ll_offset l) (ll_pitch l) (ll_width l) 0 0 0 tb 1 (cs_depth side) false /\
  row_level_bytes (im_shape im) (sr_level sub) = stored_height (im_shape im) (sr_level sub) * ll_pitch l /\
  ll_offset l + row_level_bytes (im_shape im) (sr_level sub) <= im_size im.
Proof.
  intros B R L E l. destruct (bound_storage _ B) as (tp & us & ST & SZ & SO & SS). pose proof (bound_shape _ B) as S. pose proof (bound_range _ B) as [A1 A2]. unfold PS5VK_GPU_ADDRESS_LIMIT in A2.
  set (sh := im_shape im) in *. rewrite ST in R. unfold image_storage_of in *.
  destruct (stored_tiled tp us sh) eqn:T; [destruct (image_stencil_plane _ _) as [[]|]; discriminate|]. cbn [st_size st_storage st_stencil_offset] in *.
  destruct (row_levels_inside sh S _ L) as (L1 & L2 & L3). destruct (row_level_bytes_spec sh S _ L) as [L4 L5].
  assert (Z1 : ll_offset l + row_level_bytes sh (sr_level sub) <= im_size im).
  { rewrite SZ. pose proof (shape_layers _ S) as Y. unfold PS5VK_MAX_ARRAY_LAYERS in Y. assert (X : 1 <= sh_samples sh <= 8).
    { pose proof (shape_samples _ S) as X. rewrite !elem_of_cons, elem_of_nil in X. destruct_or! X; try done; rewrite X; lia. }
    set (N := sum_levels (row_level_bytes sh) 0 (sh_levels sh)) in *. fold l in L1, L2. assert (N1 : N <= N * sh_layers sh <= 2 ^ 37 * 256) by nia.
    assert (N2 : N * sh_layers sh <= N * sh_layers sh * sh_samples sh <= 2 ^ 37 * 256 * 8) by nia. rewrite (u64_small (N * sh_layers sh)), u64_small by lia. lia. }
  enough (G : row_side side (stored_width sh (sr_level sub)) (stored_height sh (sr_level sub)) /\
    side = CopySide (im_address im + ll_offset l) (ll_pitch l) (ll_width l) 0 0 0 tb 1 (cs_depth side) false /\
    row_level_bytes sh (sr_level sub) = stored_height sh (sr_level sub) * ll_pitch l) by (destruct G as (G1 & G2 & G3); auto).
  unfold image_copy_side in E. fold sh in E. destruct (image_plane_of im (sr_aspect sub)) as [p|] eqn:P; [|done].
  assert (F : fmt_stencil (sh_format sh) = false).
  { unfold stored_tiled in T. apply orb_false_iff in T as [T _]. apply orb_false_iff in T as [_ T]. exact T. }
  assert (PE : pl_element_bytes p = texel_size sh /\ pl_offset p = 0).
  { apply image_plane_cases in P. cbv zeta in P. fold sh in P. rewrite F in P. destruct_or! P; destruct_and! P; subst; cbn; try done. }
  destruct PE as [PE PO]. rewrite PE, PO in E. destruct (texel_size sh =? 0); [done|]. destruct (negb (sh_samples sh =? 1) && negb (sh_samples sh =? 4)); [done|].
  cbn [Z.eqb negb andb] in E. rewrite ST in E. rewrite decide_False in E by discriminate.
  destruct (sh_samples sh =? 4) eqn:S4; cbn [Z.eqb Pos.eqb negb] in E; [done|]. injection E as <- <-. fold sh l.
  destruct (stored_bounds sh S _ L) as [W H]. unfold PS5VK_MAX_EXTENT_2D in *. pose proof (row_pitch_bounds sh S _ L) as PB. pose proof (shape_texel _ S) as TS.
  assert (U : im_address im + ll_offset l + row_level_bytes sh (sr_level sub) < 2 ^ 64) by (subst l; lia).
  assert (O : 0 <= ll_offset l) by (subst l; lia). change (sum_levels (row_level_bytes sh) (sr_level sub + 1) (sh_levels sh)) with (ll_offset l). assert (LP : ll_pitch l = row_pitch sh (sr_level sub)) by done. assert (LW : ll_width l = u32 (stored_width sh (sr_level sub))) by done. clearbody l.
  rewrite Z.mul_1_r, Z.add_0_r, (u32_small (texel_size sh)), u64_small by lia. rewrite Z.mul_comm in L4. rewrite LP, LW.
  split; [|split; done]. constructor; cbn [cs_tiled cs_samples cs_element_bytes cs_row_pitch cs_address]; try done; try lia; try (constructor; lia).
Qed.

Lemma row_side_slots im sub tb side : bound_image im -> im_storage im = STORAGE_ROWS -> 0 <= sr_level sub < sh_levels (im_shape im) -> image_copy_side im sub = Some (tb, side) ->
  let l := image_level_layout (im_shape im) (sr_level sub) in
  side_slots side (stored_width (im_shape im) (sr_level sub)) (stored_height (im_shape im) (sr_level sub))
    (im_address im + ll_offset l) (im_address im + ll_offset l + row_level_bytes (im_shape im) (sr_level sub)) /\
  ll_offset l + row_level_bytes (im_shape im) (sr_level sub) <= im_size im.
Proof.
  intros B R L E l. destruct (row_side_of im sub tb side B R L E) as (M & SE & P & F). fold l in SE, P, F. split; [|done].
  pose proof (f_equal cs_address SE) as CA. pose proof (f_equal cs_row_pitch SE) as CP. cbn [cs_address cs_row_pitch] in CA, CP. rewrite P, <- CA, <- CP. exact (row_slots _ _ _ M).
Qed.


(** The plane a tiled side of a bound image walks: where it starts, and that its
    tiles end inside the image. *)
Lemma tiled_plane im aspect p tw th : bound_image im -> im_storage im = STORAGE_TILES -> image_plane_of im aspect = Some p ->
  tile_extent (pl_element_bytes p) (pl_depth_map p) (sh_samples (im_shape im)) = (tw, th) ->
  sh_levels (im_shape im) = 1 ->
  0 <= pl_offset p /\ pl_offset p + grid_bytes (sh_width (im_shape im)) (sh_height (im_shape im)) tw th <= im_size im.
Proof.
  intros B T P E V. destruct (bound_storage _ B) as (tp & us & ST & SZ & SO & SS). pose proof (bound_shape _ B) as S. set (sh := im_shape im) in *.
  assert (TT : stored_tiled tp us sh = true).
  { rewrite ST in T. unfold image_storage_of in T. destruct (stored_tiled tp us sh); [done|discriminate]. }
  destruct (tiled_storage_holds tp us sh S TT SS) as (_ & H1 & H2). rewrite <- SZ, <- SO in *.
  destruct (tile_extent (texel_size sh) (fmt_depth (sh_format sh)) (sh_samples sh)) as [tw0 th0] eqn:E0. destruct (tiled_layer_bytes_spec sh tw0 th0 S E0) as [H3 H4]. specialize (H4 V).
  apply image_plane_cases in P. cbv zeta in P. fold sh in P. destruct P as [(P1 & P2 & ->)|[(P1 & ->)|(P1 & P2 & ->)]]; cbn [pl_offset pl_element_bytes pl_depth_map] in *.
  - unfold texel_size in E0. rewrite P1 in E0. rewrite E0 in E. injection E as <- <-. lia.
  - assert (X : tile_extent (if fmt_stencil (sh_format sh) then 4 else fmt_blocksize (sh_format sh)) true (sh_samples sh) = tile_extent (texel_size sh) true (sh_samples sh)).
    { pose proof (shape_combined _ S P1) as C. destruct (fmt_stencil (sh_format sh)) eqn:F; [|done]. specialize (C eq_refl). unfold tile_extent.
      destruct (Z.eqb_spec (texel_size sh) 1), (Z.eqb_spec (texel_size sh) 2); try lia. done. }
    rewrite P1, <- X, E in E0. injection E0 as <- <-. lia.
  - rewrite P1 in H2. destruct (SS P1) as (_ & _ & S1). rewrite S1 in E. change (tile_extent 1 true 1) with (256, 256) in E. injection E as <- <-. lia.
Qed.

(** A tiled side covers the checks of the code: an element it maps, a depth side
    of one level, and the sample count its maps were measured for. *)
Record measured (im : image) (side : copy_side) : Prop := {
  measured_samples : cs_samples side = 4 -> cs_element_bytes side = 4;
  measured_depth : cs_depth side = true -> sh_levels (im_shape im) = 1
}.

Lemma grid_bytes_nonneg w h (a b : nat) : surface w h -> (a < 31)%nat -> (b < 31)%nat -> 0 <= grid_bytes w h (2 ^ Z.of_nat a) (2 ^ Z.of_nat b).
Proof.
  intros [W H] A B. unfold grid_bytes, PS5VK_TILE_BYTES. pose proof (div_round_up_le w (Z.of_nat a) ltac:(lia) ltac:(lia)). pose proof (div_round_up_le h (Z.of_nat b) ltac:(lia) ltac:(lia)). nia.
Qed.

(** A tiled side the maps cover: the element, samples and extent they were
    measured for, and a surface below the end of the addresses. *)
Record mapped_side (side : copy_side) (w h : Z) : Prop := {
  mapped_tiled : cs_tiled side = true;
  mapped_extent : (cs_tile_width side, cs_tile_height side) = tile_extent (cs_element_bytes side) (cs_depth side) (cs_samples side);
  mapped_samples : cs_samples side = 1 \/ cs_samples side = 4;
  mapped_four : cs_samples side = 4 -> cs_element_bytes side = 4;
  mapped_element : cs_element_bytes side ∈ [1; 2; 4; 8; 16];
  mapped_depth : cs_depth side = true -> cs_element_bytes side ∈ [1; 4];
  mapped_width : cs_level_width side = w;
  mapped_surface : surface w h;
  mapped_xor : 0 <= cs_tile_xor side < 2 ^ 16;
  mapped_xor_aligned : cs_tile_xor side mod 16 = 0;
  mapped_xor_four : cs_samples side = 4 -> cs_tile_xor side = 0;
  mapped_address : 0 <= cs_address side;
  mapped_hi : colour_hi side w h < 2 ^ 64
}.

Lemma mod_16_element eb v : eb ∈ [1; 2; 4; 8; 16] -> v mod 16 = 0 -> v mod eb = 0.
Proof.
  intros EB V. pose proof (Z.div_mod v 16 ltac:(lia)) as D. rewrite V in D. rewrite !elem_of_cons, elem_of_nil in EB. destruct EB as [-> |[-> |[-> |[-> |[-> |[]]]]]]; rewrite D; [apply Z.mod_1_r|..].
  - replace (16 * (v / 16) + 0) with (8 * (v / 16) * 2) by lia. now apply Z.mod_mul.
  - replace (16 * (v / 16) + 0) with (4 * (v / 16) * 4) by lia. now apply Z.mod_mul.
  - replace (16 * (v / 16) + 0) with (2 * (v / 16) * 8) by lia. now apply Z.mod_mul.
  - replace (16 * (v / 16) + 0) with (v / 16 * 16) by lia. now apply Z.mod_mul.
Qed.

Lemma mapped_colour side w h : mapped_side side w h -> cs_depth side = false -> colour_side side w h.
Proof.
  intros [T E S S4 EB D W F X XA X4 A U] DP. rewrite DP in E. apply (mod_16_element _ _ EB) in XA. split; auto. unfold colour_mapped. destruct S as [S|S].
  - rewrite S. clear -EB. rewrite !elem_of_cons, elem_of_nil in EB. destruct EB as [-> |[-> |[-> |[-> |[-> |[]]]]]]; repeat (left || right).
  - rewrite S, (S4 S). rewrite !elem_of_cons. tauto.
Qed.

Lemma mapped_depth_side side w h : mapped_side side w h -> cs_depth side = true -> cs_samples side = 1 -> depth_side side w h.
Proof. intros [T E S S4 EB D W F X XA X4 A U] DP S1. split; auto; [|now rewrite S1, DP in E]. specialize (D DP). rewrite !elem_of_cons, elem_of_nil in *. tauto. Qed.

Lemma mapped_slots side w h : mapped_side side w h -> side_slots side w h (cs_address side) (colour_hi side w h).
Proof.
  intros M. destruct (cs_depth side) eqn:DP; [|now apply colour_slots, mapped_colour].
  destruct (mapped_samples _ _ _ M) as [S|S]; [now apply depth_slots, mapped_depth_side|].
  destruct M as [T E _ S4 EB D W F X XA X4 A U]. rewrite DP, S, (S4 S) in E. apply depth4_slots; auto.
Qed.

Lemma plane_depth_bytes im aspect p samples : bound_image im -> image_plane_of im aspect = Some p -> pl_depth_map p = true -> samples = 1 \/ samples = 4 -> (samples = 4 -> pl_element_bytes p = 4) ->
  pl_element_bytes p ∈ [4; 8; 16] \/ (pl_element_bytes p ∈ [1; 2] /\ samples = 1) ->
  negb (u32 (pl_element_bytes p * samples) =? 4) && negb (u32 (pl_element_bytes p * samples) =? 16) && negb (u32 (pl_element_bytes p * samples) =? 1) = false -> pl_element_bytes p ∈ [1; 4].
Proof.
  intros B P D S S4 EM DB. assert (L : pl_element_bytes p <= 8).
  { pose proof (shape_depth _ (bound_shape _ B)) as Q. apply image_plane_cases in P. cbv zeta in P. unfold texel_size in Q.
    destruct P as [(P1 & P2 & ->)|[(P1 & ->)|(P1 & P2 & ->)]]; cbn [pl_element_bytes pl_depth_map] in *; [done|destruct (fmt_stencil _); [lia|auto]|lia]. }
  rewrite !elem_of_cons, elem_of_nil in *. destruct S as [-> | ->]; [|specialize (S4 eq_refl); tauto].
  destruct EM as [[E|[E|[E|[]]]]|[[E|[E|[]]] _]]; rewrite E in *; cbn in DB; try discriminate; try lia; tauto.
Qed.

(** A chain level's side. *)
Record chain_side (im : image) (chain : tiled_chain) (level : Z) (side : copy_side) : Prop := {
  chain_address : cs_address side = im_address im + base_tile (chain_base chain level);
  chain_xor : cs_tile_xor side = base_xor (chain_base chain level);
  chain_element : cs_element_bytes side = 4 /\ cs_samples side = 1 /\ cs_depth side = false /\ cs_tiled side = true;
  chain_extent : cs_tile_width side = 128 /\ cs_tile_height side = 128 /\ cs_level_width side = level_width (im_shape im) level
}.

(** The side of a measured chain's level. *)
Lemma chain_side_of im sub tb side : bound_image im -> im_storage im = STORAGE_TILES -> sr_layer sub = 0 -> 0 <= sr_level sub < sh_levels (im_shape im) -> sh_levels (im_shape im) <> 1 ->
  image_copy_side im sub = Some (tb, side) -> measured im side ->
  exists chain, find (chain_matches (im_shape im)) ps5vk_tiled_chains = Some chain /\ tc_bytes chain <= im_size im /\ chain_side im chain (sr_level sub) side.
Proof.
  intros B T Y L LV E M. pose proof (bound_shape _ B) as S. pose proof (bound_range _ B) as [A1 A2]. unfold PS5VK_GPU_ADDRESS_LIMIT in A2.
  unfold image_copy_side in E. set (sh := im_shape im) in *. destruct (image_plane_of im (sr_aspect sub)) as [p|] eqn:P; [|done].
  destruct (pl_element_bytes p =? 0); [done|]. destruct (negb (sh_samples sh =? 1) && negb (sh_samples sh =? 4)); [done|].
  destruct (negb (pl_offset p =? 0) && _); [done|]. rewrite decide_True in E by done.
  match type of E with (if ?c then None else _) = _ => destruct c; [done|] end. destruct (tile_extent (pl_element_bytes p) (pl_depth_map p) (sh_samples sh)) as [tw th] eqn:TE.
  apply Z.eqb_neq in LV. rewrite LV in E. cbn [negb] in E. apply Z.eqb_neq in LV.
  set (base := image_tiled_layer_level_base im (sr_level sub) (sr_layer sub)) in *. destruct (base =? UINT64_MAX) eqn:BU; [done|]. injection E as _ <-. to_prop.
  assert (BE : exists chain, tiled_chain_of sh = Some chain /\ base = chain_base chain (sr_level sub)).
  { subst base. unfold image_tiled_layer_level_base in *. rewrite Y in *. cbn [Z.eqb] in *. unfold image_tiled_level_base in *. fold sh in BU |- *.
    destruct (Z.eqb_spec (sh_levels sh) 1); [lia|]. rewrite andb_false_r in *. destruct (tiled_chain_of sh) as [chain|]; [|done]. exists chain. split; [done|]. destruct (_ <=? _); done. }
  destruct BE as (chain & CE & BE). set (side := CopySide _ _ _ _ _ _ _ _ _ _) in *.
  assert (D : pl_depth_map p = false).
  { destruct (pl_depth_map p) eqn:D; [|done]. pose proof (measured_depth _ _ M) as Q. fold sh in Q. subst side. cbn [cs_depth] in Q. specialize (Q eq_refl). done. }
  unfold tiled_chain_of in CE. match type of CE with (if ?c then None else _) = _ => destruct c eqn:CC; [done|] end. to_prop.
  match goal with H : texel_size sh = 4 |- _ => rename H into T4 end. match goal with H : sh_samples sh = 1 |- _ => rename H into S1 end.
  assert (PE : pl_element_bytes p = 4).
  { apply image_plane_cases in P. cbv zeta in P. fold sh in P. destruct P as [(P1 & P2 & ->)|[(P1 & ->)|(P1 & P2 & ->)]]; cbn in D |- *; done. }
  destruct (bound_storage _ B) as (tp & us & ST & SZ & SO & SS). fold sh in ST, SZ, SO, SS.
  assert (TT : stored_tiled tp us sh = true) by (rewrite ST in T; unfold image_storage_of in T; destruct (stored_tiled tp us sh); [done|discriminate]).
  destruct (tiled_storage_holds tp us sh S TT SS) as (_ & HL & _). rewrite <- SZ in HL.
  assert (LB : tiled_layer_bytes sh = tc_bytes chain).
  { unfold tiled_layer_bytes. destruct (tile_extent _ _ _). rewrite T4, S1. cbn [Z.eqb Pos.eqb andb]. now rewrite CE. }
  destruct (chain_fits_spec sh chain CE) as (_ & _ & CF). destruct (CF (sr_level sub) ltac:(lia)) as (F1 & F2 & F3). rewrite <- BE in F1, F2, F3.
  destruct (base_split base F1) as (X1 & X2 & X3). pose proof (level_surface sh (sr_level sub) S ltac:(lia)) as SF.
  rewrite PE, D, S1 in TE. change (tile_extent 4 false 1) with (128, 128) in TE. injection TE as <- <-.
  pose proof (grid_bytes_nonneg _ _ 7 7 SF ltac:(lia) ltac:(lia)) as GN. change (2 ^ Z.of_nat 7) with 128 in GN.
  exists chain. split; [done|]. split; [lia|]. subst side. split; cbn [cs_address cs_tile_xor cs_element_bytes cs_samples cs_depth cs_tiled cs_tile_width cs_tile_height cs_level_width]; rewrite <- ?BE; try done.
  - rewrite u64_small; lia.
  - rewrite S1, PE. done.
  - fold sh. rewrite u32_small; [done|]. destruct SF. lia.
Qed.

Lemma chain_base_aligned base : base mod 16 = 0 -> base_xor base mod 16 = 0.
Proof.
  intros E. unfold base_xor. change 0xffff with (2 ^ 16 - 1). rewrite land_pow2_pred by lia. change (2 ^ 16) with (16 * 2 ^ 12). rewrite Z.rem_mul_r by lia. rewrite E, Z.add_0_l, Z.mul_comm. now apply Z.mod_mul.
Qed.

Lemma tiled_side_mapped im sub tb side : bound_image im -> im_storage im = STORAGE_TILES -> sr_layer sub = 0 -> 0 <= sr_level sub < sh_levels (im_shape im) ->
  image_copy_side im sub = Some (tb, side) -> measured im side ->
  let w := level_width (im_shape im) (sr_level sub) in let h := level_height (im_shape im) (sr_level sub) in
  mapped_side side w h /\ im_address im <= cs_address side /\ colour_hi side w h <= im_address im + im_size im.
Proof.
  intros B T Y L E M w h. pose proof E as E0. pose proof (bound_shape _ B) as S. pose proof (bound_range _ B) as [A1 A2]. unfold PS5VK_GPU_ADDRESS_LIMIT in A2.
  unfold image_copy_side in E. set (sh := im_shape im) in *. destruct (image_plane_of im (sr_aspect sub)) as [p|] eqn:P; [|done].
  destruct (pl_element_bytes p =? 0); [done|]. destruct (negb (sh_samples sh =? 1) && negb (sh_samples sh =? 4)) eqn:SA; [done|].
  destruct (negb (pl_offset p =? 0) && _) eqn:PO; [done|]. rewrite decide_True in E by done.
  match type of E with (if ?c then None else _) = _ => destruct c eqn:EB; [done|] end. destruct (tile_extent (pl_element_bytes p) (pl_depth_map p) (sh_samples sh)) as [tw th] eqn:TE.
  set (samples := if sh_samples sh =? 4 then 4 else 1) in *. assert (SM : samples = sh_samples sh).
  { subst samples. apply andb_false_iff in SA as [SA|SA]; apply negb_false_iff in SA; to_prop; rewrite SA; done. }
  assert (EM : pl_element_bytes p ∈ [4; 8; 16] \/ (pl_element_bytes p ∈ [1; 2] /\ samples = 1)).
  { rewrite !elem_of_cons, elem_of_nil. clear -EB. destruct (Z.eqb_spec (pl_element_bytes p) 4), (Z.eqb_spec (pl_element_bytes p) 8), (Z.eqb_spec (pl_element_bytes p) 16),
      (Z.eqb_spec (pl_element_bytes p) 1), (Z.eqb_spec (pl_element_bytes p) 2), (Z.eqb_spec samples 1); cbn in EB; try discriminate; tauto. }
  pose proof (level_surface sh (sr_level sub) S ltac:(lia)) as SF. fold w h in SF.
  destruct (sh_levels sh =? 1) eqn:LV; cbn [negb] in E; to_prop.
  - assert (L0 : sr_level sub = 0) by lia. destruct (level_0 sh S) as [W H]. rewrite <- L0 in W, H. fold w h in W, H.
    destruct (tiled_plane im _ p tw th B T P TE LV) as [O1 O2]. fold sh in O2. rewrite <- W, <- H in O2.
    rewrite Y, Z.mul_0_r in E. change (u64 0) with 0 in E. replace (if 1 <? sh_layers sh then 0 else 0) with 0 in E by (destruct (1 <? sh_layers sh); done).
    match type of E with (if ?c then None else _) = _ => destruct c; [done|] end.
    match type of E with (if ?c then None else _) = _ => destruct c eqn:DB; [done|] end.
    rewrite andb_false_r in E. injection E as _ <-. set (side := CopySide _ _ _ _ _ _ _ _ _ _) in *.
    destruct (tile_extent_pow2 (pl_element_bytes p) (pl_depth_map p) (sh_samples sh) (shape_samples _ S)) as (a & b & E' & Ba & Bb). rewrite E' in TE. injection TE as TW TH.
    assert (GN : 0 <= grid_bytes w h tw th) by (subst tw th; apply grid_bytes_nonneg; [done|lia..]).
    assert (CA : cs_address side = im_address im + pl_offset p) by (subst side; cbn [cs_address]; rewrite Z.add_0_r, u64_small; [done|lia]).
    assert (CH : colour_hi side w h = im_address im + pl_offset p + grid_bytes w h tw th) by (unfold colour_hi; rewrite CA; done).
    split; [|lia]. constructor; try done; try lia; subst side; cbn [cs_tile_width cs_tile_height cs_element_bytes cs_depth cs_samples cs_tile_xor cs_level_width] in *.
    + rewrite SM, E', TW, TH. done.
    + subst samples. destruct (sh_samples sh =? 4); auto.
    + apply (measured_samples _ _ M).
    + rewrite !elem_of_cons, elem_of_nil in *. tauto.
    + intros D. apply (plane_depth_bytes im (sr_aspect sub) p samples); auto; [subst samples; destruct (sh_samples sh =? 4); auto|apply (measured_samples _ _ M)|now rewrite D in DB].
  - destruct (chain_side_of im sub tb side B T Y L LV E0 M) as (chain & CF & CB & [CA CX (CE & CS & CD & CT) (CW & CH & CL)]). fold sh in CF, CL.
    destruct (chain_fits_spec sh chain CF) as (_ & _ & F). destruct (F (sr_level sub) ltac:(lia)) as (F1 & F2 & F3). fold w h in F3, CL. destruct (base_split _ F1) as (X1 & X2 & X3).
    assert (GN : 0 <= grid_bytes w h 128 128) by (change 128 with (2 ^ Z.of_nat 7); apply grid_bytes_nonneg; [done|lia..]).
    assert (CC : colour_hi side w h = cs_address side + grid_bytes w h 128 128) by (unfold colour_hi; rewrite CW, CH; done).
    split; [|lia]. constructor; rewrite ?CE, ?CS, ?CD, ?CW, ?CH, ?CX; try done; try lia; auto; try (repeat (left || right)).
    now apply chain_base_aligned.
Qed.

Lemma tiled_side_slots im sub tb side : bound_image im -> im_storage im = STORAGE_TILES -> sr_layer sub = 0 -> 0 <= sr_level sub < sh_levels (im_shape im) ->
  image_copy_side im sub = Some (tb, side) -> measured im side ->
  let w := level_width (im_shape im) (sr_level sub) in let h := level_height (im_shape im) (sr_level sub) in
  side_slots side w h (cs_address side) (colour_hi side w h) /\ im_address im <= cs_address side /\ colour_hi side w h <= im_address im + im_size im.
Proof. intros B T Y L E M. destruct (tiled_side_mapped im sub tb side B T Y L E M) as (MS & R). split; [now apply mapped_slots|exact R]. Qed.

Lemma copy_side_tiled im sub tb side : im_storage im = STORAGE_TILES -> image_copy_side im sub = Some (tb, side) -> cs_tiled side = true.
Proof. intros T E. unfold image_copy_side in E. repeat case_match; simplify_eq; done. Qed.

Lemma stored_covers sh level : shape_ok sh -> 0 <= level < sh_levels sh -> level_width sh level <= stored_width sh level /\ level_height sh level <= stored_height sh level.
Proof.
  intros [W H V _ _ _ _ _] L. unfold PS5VK_MAX_MIP_LEVELS in V. unfold level_width, level_height, stored_width, stored_height. rewrite !Z.shiftr_div_pow2 by lia.
  pose proof (div_round_up64_bounds (sh_width sh) level ltac:(lia) W). pose proof (div_round_up64_bounds (sh_height sh) level ltac:(lia) H). lia.
Qed.

Lemma samples_apart im sub tb side : bound_image im -> sr_layer sub = 0 -> 0 <= sr_level sub < sh_levels (im_shape im) ->
  image_copy_side im sub = Some (tb, side) -> (cs_tiled side = true -> measured im side) ->
  side_slots side (level_width (im_shape im) (sr_level sub)) (level_height (im_shape im) (sr_level sub)) (im_address im) (im_address im + im_size im).
Proof.
  intros B Y L E M. destruct (im_storage im) eqn:T.
  - destruct (row_side_slots im sub tb side B T L E) as [R I]. destruct (row_levels_inside _ (bound_shape _ B) _ L) as (O & _).
    pose proof (stored_covers _ _ (bound_shape _ B) L). eapply slots_weaken; [exact R|lia..].
  - assert (TS : cs_tiled side = true) by eauto using copy_side_tiled.
    destruct (tiled_side_slots im sub tb side B T Y L E (M TS)) as (R & I1 & I2). eapply slots_weaken; [exact R|lia..].
Qed.

(** ** Levels apart *)

(** Two levels of a chain: their tiles follow each other, or they share one
    tile and no texel of one is a texel of the other. *)
Definition extent_bits (a b : Z) : nat := Z.to_nat (Z.log2_up (Z.max a b)).
Definition share_tile (chain : tiled_chain) (level level' : Z) : bool :=
  let w := Z.max (Z.shiftr (tc_width chain) level) 1 in let h := Z.max (Z.shiftr (tc_height chain) level) 1 in
  let w' := Z.max (Z.shiftr (tc_width chain) level') 1 in let h' := Z.max (Z.shiftr (tc_height chain) level') 1 in
  let a := extent_bits w w' in let b := extent_bits h h' in
  (a <=? 7)%nat && (b <=? 7)%nat && (base_tile (chain_base chain level) =? base_tile (chain_base chain level')) &&
  independent (1 + (a + b)) (Z.lxor (base_xor (chain_base chain level)) (base_xor (chain_base chain level')) :: basis (walk_terms ps5vk_tiled_4b_terms) a b).
Definition tiles_follow (chain : tiled_chain) (level level' : Z) : bool :=
  base_tile (chain_base chain level) + grid_bytes (Z.max (Z.shiftr (tc_width chain) level) 1) (Z.max (Z.shiftr (tc_height chain) level) 1) 128 128 <=?
  base_tile (chain_base chain level').
Definition chain_levels_check (chain : tiled_chain) : bool :=
  forallb (fun level => forallb (fun level' => (level <=? level') || share_tile chain level level' || tiles_follow chain level level' || tiles_follow chain level' level)
                          (seqZ 0 (tc_levels chain))) (seqZ 0 (tc_levels chain)).

Lemma chain_levels_checked : forallb chain_levels_check ps5vk_tiled_chains = true.
Proof. vm_compute. reflexivity. Qed.

Lemma outside_image f (a b : nat) c x y : linear2 f -> independent (1 + (a + b)) (c :: basis f a b) = true -> 0 <= x < 2 ^ Z.of_nat a -> 0 <= y < 2 ^ Z.of_nat b -> f x y <> c.
Proof.
  intros L I X Y E. assert (S : true :: low_bits a 0 x ++ low_bits b 0 y = replicate (length (c :: basis f a b)) false); [|discriminate].
  apply (independent_spec _ _ _ I); cbn [length xor_sum].
  - now rewrite length_app, !low_bits_length, basis_length.
  - rewrite <- linear2_value by done. rewrite E. apply Z.lxor_nilpotent.
Qed.

Lemma extent_bits_spec a b x y : 0 <= x < a -> 0 <= y < b -> 0 <= Z.lxor x y < 2 ^ Z.of_nat (extent_bits a b).
Proof.
  intros X Y. unfold extent_bits. pose proof (Z.log2_up_nonneg (Z.max a b)). rewrite Z2Nat.id by done.
  destruct (decide (Z.max a b = 1)) as [E|]; [assert (x = 0 /\ y = 0) as [-> ->] by lia; rewrite E; vm_compute; split; congruence|].
  pose proof (Z.log2_up_spec (Z.max a b) ltac:(lia)). apply lxor_bounds; lia.
Qed.

Lemma chain_slot im chain level side x y s : chain_side im chain level side -> surface (level_width (im_shape im) level) (level_height (im_shape im) level) ->
  0 <= cs_address side -> colour_hi side (level_width (im_shape im) level) (level_height (im_shape im) level) < 2 ^ 64 -> 0 <= cs_tile_xor side < 2 ^ 16 -> cs_tile_xor side mod 4 = 0 ->
  in_side side (level_width (im_shape im) level) (level_height (im_shape im) level) x y s ->
  slot side x y s = cs_address side + sample_at (level_width (im_shape im) level) 7 7 (fun x y _ => Z.lxor (colour_local 4 1 128 128 x y) (cs_tile_xor side)) x y s.
Proof.
  intros [CA CX (CE & CS & CD & CT) (CW & CH & CL)] S A U X XA I.
  assert (C : colour_side side (level_width (im_shape im) level) (level_height (im_shape im) level)).
  { split; rewrite ?CE, ?CS, ?CW, ?CH; auto; [repeat (left || right)|split; [done|split; [done|lia]]]. }
  pose proof (colour_value _ _ _ x y s C I) as V. rewrite CE, CS in V. cbn [colour_shape Z.eqb Pos.eqb] in V. rewrite V. unfold sample_at, colour_samples.
  rewrite CE, CS, CW, CH. reflexivity.
Qed.

Lemma extent_bits_bound a b : (extent_bits a b <= 7)%nat -> 1 <= a -> 1 <= b -> a <= 128 /\ b <= 128.
Proof.
  unfold extent_bits. intros L A B. pose proof (Z.log2_up_nonneg (Z.max a b)). destruct (decide (Z.max a b = 1)); [lia|].
  pose proof (Z.log2_up_spec (Z.max a b) ltac:(lia)) as [_ U]. assert (2 ^ Z.log2_up (Z.max a b) <= 2 ^ 7) by (apply Z.pow_le_mono_r; lia). lia.
Qed.

(** A place in a surface of one tile. *)
Lemma one_tile_at w x y s c : 0 <= x < 128 -> 0 <= y < 128 ->
  sample_at w 7 7 (fun x y _ => Z.lxor (colour_local 4 1 128 128 x y) c) x y s = Z.lxor (walk_terms ps5vk_tiled_4b_terms x y) c.
Proof.
  intros X Y. unfold sample_at, colour_local. change (2 ^ 7) with 128. rewrite !(Z.div_small _ 128), !Z.mod_small by lia.
  unfold block_turn. cbn [Z.eqb Pos.eqb]. rewrite !Z.lxor_0_r. unfold block_bytes. cbn [Z.mul Z.add]. reflexivity.
Qed.

Lemma lxor_move a b c d : Z.lxor a b = Z.lxor c d -> Z.lxor a c = Z.lxor b d.
Proof.
  intros E. apply Z.bits_inj'. intros i I. apply (f_equal (fun z => Z.testbit z i)) in E. rewrite !Z.lxor_spec in *.
  destruct (Z.testbit a i), (Z.testbit b i), (Z.testbit c i), (Z.testbit d i); done.
Qed.

(** Two levels in one tile. *)
Lemma shared_tile_apart im chain level level' side side' x y s x' y' s' : shape_ok (im_shape im) -> find (chain_matches (im_shape im)) ps5vk_tiled_chains = Some chain ->
  0 <= level < sh_levels (im_shape im) -> 0 <= level' < sh_levels (im_shape im) -> 0 <= im_address im -> im_address im + tc_bytes chain < 2 ^ 64 ->
  chain_side im chain level side -> chain_side im chain level' side' -> share_tile chain level level' = true ->
  in_side side (level_width (im_shape im) level) (level_height (im_shape im) level) x y s ->
  in_side side' (level_width (im_shape im) level') (level_height (im_shape im) level') x' y' s' ->
  slot side x y s + 4 <= slot side' x' y' s' \/ slot side' x' y' s' + 4 <= slot side x y s.
Proof.
  intros S F L L' A U C C' T I I'. destruct (chain_fits_spec _ _ F) as ((M1 & M2 & M3) & _ & CF). destruct (CF _ L) as (B1 & B2 & B3), (CF _ L') as (B1' & B2' & B3').
  destruct (base_split _ B1) as (X1 & X2 & X3), (base_split _ B1') as (X1' & X2' & X3'). pose proof C as [CA CX (CE & CS & CD & CT) (CW & CH & CL)]. pose proof C' as [CA' CX' (CE' & CS' & CD' & CT') (CW' & CH' & CL')].
  pose proof (level_surface _ level S ltac:(lia)) as SF. pose proof (level_surface _ level' S ltac:(lia)) as SF'.
  assert (XA : forall base, base mod 16 = 0 -> base_xor base mod 4 = 0) by (intros base B; apply (mod_16_element 4); [repeat (left || right)|now apply chain_base_aligned]).
  rewrite (chain_slot im chain level), (chain_slot im chain level'); auto; try (rewrite ?CX, ?CX'; auto); try (unfold colour_hi; rewrite ?CA, ?CA', ?CW, ?CH, ?CW', ?CH'; lia); try lia.
  unfold share_tile in T. apply andb_true_iff in T as [T IN]. apply andb_true_iff in T as [T T3]. apply andb_true_iff in T as [T1 T2]. apply Nat.leb_le in T1, T2. apply Z.eqb_eq in T3.
  rewrite M1, M2 in *. fold (level_width (im_shape im) level) (level_height (im_shape im) level) (level_width (im_shape im) level') (level_height (im_shape im) level') in *.
  destruct I as [IX IY IS], I' as [IX' IY' IS'].
  destruct (extent_bits_bound _ _ T1 ltac:(lia) ltac:(lia)) as [W W'], (extent_bits_bound _ _ T2 ltac:(lia) ltac:(lia)) as [H H'].
  rewrite !one_tile_at, ?CX, ?CX', CA, CA', T3 by lia. set (v := walk_terms _ x y). set (v' := walk_terms _ x' y').
  assert (V : forall x y, 0 <= x < 128 -> 0 <= y < 128 -> walk_terms ps5vk_tiled_4b_terms x y mod 4 = 0).
  { intros a b Xa Yb. apply (unit_mask_spec 16 2); [lia|]. apply (map_check_mask _ 7 7); [apply linear2_walk|vm_compute; reflexivity|done..]. }
  assert (G : Z.lxor v (base_xor (chain_base chain level)) + 4 <= Z.lxor v' (base_xor (chain_base chain level')) \/
    Z.lxor v' (base_xor (chain_base chain level')) + 4 <= Z.lxor v (base_xor (chain_base chain level))); [|lia].
  assert (X4 : forall a b, a mod 4 = 0 -> b mod 4 = 0 -> Z.lxor a b mod 4 = 0).
  { intros a b Ea Eb. change 4 with (2 ^ 2) in *. rewrite <- Z.land_ones in * by lia. now rewrite land_lxor_r, Ea, Eb. }
  apply (units_apart 4); [lia|apply X4; [apply V; lia|auto]|apply X4; [apply V; lia|auto]|]. intros E.
  apply (outside_image _ _ _ _ (Z.lxor x x') (Z.lxor y y') (linear2_walk _) IN); [apply extent_bits_spec; lia|apply extent_bits_spec; lia|].
  rewrite linear2_walk. now apply lxor_move.
Qed.

Lemma chain_levels_meet chain level level' : chain_levels_check chain = true -> 0 <= level' < level -> level < tc_levels chain ->
  share_tile chain level level' = true \/ tiles_follow chain level level' = true \/ tiles_follow chain level' level = true.
Proof.
  intros C L M. unfold chain_levels_check in C. rewrite forallb_forall in C. specialize (C level ltac:(apply list_elem_of_In, elem_of_seqZ; lia)).
  rewrite forallb_forall in C. specialize (C level' ltac:(apply list_elem_of_In, elem_of_seqZ; lia)). apply orb_true_iff in C as [C|C]; [|auto].
  apply orb_true_iff in C as [C|C]; [|auto]. apply orb_true_iff in C as [C|C]; [|auto]. to_prop. lia.
Qed.

(** One direction of the theorem on levels. *)
Lemma levels_apart im sub sub' tb tb' side side' x y s x' y' s' : bound_image im -> sr_layer sub = 0 -> sr_layer sub' = 0 ->
  0 <= sr_level sub' < sr_level sub -> sr_level sub < sh_levels (im_shape im) ->
  image_copy_side im sub = Some (tb, side) -> image_copy_side im sub' = Some (tb', side') ->
  (cs_tiled side = true -> measured im side) -> (cs_tiled side' = true -> measured im side') ->
  in_side side (level_width (im_shape im) (sr_level sub)) (level_height (im_shape im) (sr_level sub)) x y s ->
  in_side side' (level_width (im_shape im) (sr_level sub')) (level_height (im_shape im) (sr_level sub')) x' y' s' ->
  slot side x y s + cs_element_bytes side <= slot side' x' y' s' \/ slot side' x' y' s' + cs_element_bytes side' <= slot side x y s.
Proof.
  intros B Y Y' L L' E E' M M' I I'. pose proof (bound_shape _ B) as S. pose proof (bound_range _ B) as [A1 A2]. unfold PS5VK_GPU_ADDRESS_LIMIT in A2.
  destruct (im_storage im) eqn:T.
  - destruct (row_side_slots im sub tb side B T ltac:(lia) E) as [[R _] _], (row_side_slots im sub' tb' side' B T ltac:(lia) E') as [[R' _] _].
    destruct (row_levels_follow _ S (sr_level sub') (sr_level sub) ltac:(lia) ltac:(lia)) as [O1 O2].
    assert (G : forall sub side x y s, 0 <= sr_level sub < sh_levels (im_shape im) -> in_side side (level_width (im_shape im) (sr_level sub)) (level_height (im_shape im) (sr_level sub)) x y s ->
      in_side side (stored_width (im_shape im) (sr_level sub)) (stored_height (im_shape im) (sr_level sub)) x y s).
    { clear -S. intros sub side x y s L [X Y I]. pose proof (stored_covers (im_shape im) (sr_level sub) S L). constructor; lia. }
    destruct (R _ _ _ (G sub _ _ _ _ ltac:(lia) I)), (R' _ _ _ (G sub' _ _ _ _ ltac:(lia) I')). lia.
  - specialize (M ltac:(eauto using copy_side_tiled)). specialize (M' ltac:(eauto using copy_side_tiled)).
    destruct (chain_side_of im sub tb side B T Y ltac:(lia) ltac:(lia) E M) as (chain & F & CB & C), (chain_side_of im sub' tb' side' B T Y' ltac:(lia) ltac:(lia) E' M') as (chain' & F' & _ & C').
    rewrite F in F'. injection F' as <-. destruct (tiled_side_slots im sub tb side B T Y ltac:(lia) E M) as ([R _] & _), (tiled_side_slots im sub' tb' side' B T Y' ltac:(lia) E' M') as ([R' _] & _).
    specialize (R _ _ _ I). specialize (R' _ _ _ I'). pose proof C as [CA CX (CE & _ & _ & _) (CW & CH & CL)]. pose proof C' as [CA' CX' (CE' & _ & _ & _) (CW' & CH' & CL')].
    destruct (chain_fits_spec _ _ F) as ((M1 & M2 & M3) & CB2 & _).
    pose proof chain_levels_checked as CK. rewrite forallb_forall in CK. specialize (CK chain ltac:(now apply find_some in F)).
    unfold colour_hi in R, R'. rewrite CE, CE', CW, CH, CW', CH' in *.
    destruct (chain_levels_meet chain (sr_level sub) (sr_level sub') CK ltac:(lia) ltac:(lia)) as [Sh|[Fo|Fo]].
    + apply (shared_tile_apart im chain (sr_level sub) (sr_level sub') side side'); auto; lia.
    + unfold tiles_follow in Fo. rewrite M1, M2 in Fo. fold (level_width (im_shape im) (sr_level sub)) (level_height (im_shape im) (sr_level sub)) in Fo. to_prop. lia.
    + unfold tiles_follow in Fo. rewrite M1, M2 in Fo. fold (level_width (im_shape im) (sr_level sub')) (level_height (im_shape im) (sr_level sub')) in Fo. to_prop. lia.
Qed.

(** ** Theorems *)

(** C5: The samples of a level of the first layer have bytes of their own, in
    every image the driver creates and binds whose shape its maps were measured
    for - rows, or a tiled surface that is a depth surface of one level or any
    colour chain, with one sample or with four of four bytes: the address map
    gives two different samples ranges that do not meet, and every range lies in
    the image's own memory.  (The code creates other shapes as well, where the
    samples meet: [wide_samples_collide], [depth_chain_levels_collide].) *)
Theorem image_samples_apart im sub tb side : bound_image im -> sr_layer sub = 0 -> 0 <= sr_level sub < sh_levels (im_shape im) ->
  image_copy_side im sub = Some (tb, side) -> (cs_tiled side = true -> measured im side) ->
  side_slots side (level_width (im_shape im) (sr_level sub)) (level_height (im_shape im) (sr_level sub)) (im_address im) (im_address im + im_size im).
Proof. apply samples_apart. Qed.

Lemma two_levels_apart im sub sub' tb tb' side side' x y s x' y' s' : bound_image im -> sr_layer sub = 0 -> sr_layer sub' = 0 ->
  0 <= sr_level sub < sh_levels (im_shape im) -> 0 <= sr_level sub' < sh_levels (im_shape im) -> sr_level sub <> sr_level sub' ->
  image_copy_side im sub = Some (tb, side) -> image_copy_side im sub' = Some (tb', side') ->
  (cs_tiled side = true -> measured im side) -> (cs_tiled side' = true -> measured im side') ->
  in_side side (level_width (im_shape im) (sr_level sub)) (level_height (im_shape im) (sr_level sub)) x y s ->
  in_side side' (level_width (im_shape im) (sr_level sub')) (level_height (im_shape im) (sr_level sub')) x' y' s' ->
  slot side x y s + cs_element_bytes side <= slot side' x' y' s' \/ slot side' x' y' s' + cs_element_bytes side' <= slot side x y s.
Proof.
  intros B Y Y' L L' N E E' M M' I I'. destruct (Z.lt_trichotomy (sr_level sub) (sr_level sub')) as [G|[G|G]]; [|done|].
  - destruct (levels_apart im sub' sub tb' tb side' side x' y' s' x y s); auto; lia.
  - apply (levels_apart im sub sub' tb tb'); auto; lia.
Qed.

(** C15: Two levels of the first layer of an image share no byte, where the image
    is rows or its maps were measured for its shape: a sample of one level and a
    sample of another have ranges that do not meet, for the padded rows of a row
    image and for every colour chain - where the small levels lie in one tile,
    packed by the exclusive or of their origin with the texel's place.  A depth
    chain is not among them: [depth_chain_levels_collide]. *)
Theorem image_levels_apart im sub sub' tb tb' side side' x y s x' y' s' : bound_image im -> sr_layer sub = 0 -> sr_layer sub' = 0 ->
  0 <= sr_level sub < sh_levels (im_shape im) -> 0 <= sr_level sub' < sh_levels (im_shape im) -> sr_level sub <> sr_level sub' ->
  image_copy_side im sub = Some (tb, side) -> image_copy_side im sub' = Some (tb', side') ->
  (cs_tiled side = true -> measured im side) -> (cs_tiled side' = true -> measured im side') ->
  in_side side (level_width (im_shape im) (sr_level sub)) (level_height (im_shape im) (sr_level sub)) x y s ->
  in_side side' (level_width (im_shape im) (sr_level sub')) (level_height (im_shape im) (sr_level sub')) x' y' s' ->
  slot side x y s + cs_element_bytes side <= slot side' x' y' s' \/ slot side' x' y' s' + cs_element_bytes side' <= slot side x y s.
Proof. apply two_levels_apart. Qed.

(** ** What the sides do not check

    [measured] is a hypothesis above because the code does not ensure it. *)

Definition rgba8 : format := Format 37 4 false false false false.
Definition rgba16f : format := Format 97 8 false false false false.
Definition d32 : format := Format 126 4 true false false false.
Definition d16 : format := Format 124 2 true false false false.

Definition example_image (f : format) (usage width height levels layers samples : Z) : image :=
  let sh := ImageShape f width height levels layers samples in
  let st := image_storage_of false usage sh in
  Image sh (st_storage st) (st_size st) (st_alignment st) (st_stencil_offset st) 0x200000000.

Lemma example_bound f usage width height levels layers samples : let im := example_image f usage width height levels layers samples in
  shape_ok (im_shape im) -> fmt_stencil f = false -> st_size (image_storage_of false usage (im_shape im)) <= 2 ^ 32 -> bound_image im.
Proof.
  intros im S F Z0. subst im. split; [done| |].
  - exists false, true, true, usage. set (sh := ImageShape f width height levels layers samples) in *. change (im_shape (example_image f usage width height levels layers samples)) with sh in *.
    set (st := image_storage_of false usage sh) in *.
    exists (Image sh (st_storage st) (st_size st) (st_alignment st) (st_stencil_offset st) 0), 0x200000000, 0. split; [|reflexivity].
    unfold create_image. cbn [negb sh_format]. change (sh_format sh) with f. rewrite F. cbn [andb]. fold st. destruct (Z.ltb_spec PS5VK_ADDRESS_WINDOW_BYTES (st_size st)); [unfold PS5VK_ADDRESS_WINDOW_BYTES in *; lia|reflexivity].
  - unfold PS5VK_GPU_ADDRESS_LIMIT. cbn [im_address im_size example_image] in *. cbn [im_shape example_image] in Z0. lia.
Qed.

(** C40: a depth image with a measured chain's shape has sides for its small
    levels, though no depth map of a packed level exists: the check that a depth
    image has one level stands after the return for the others.  The address
    map ignores the level's origin in the tile on a depth side, so two levels
    are given the same bytes: clearing the one overwrites the other. *)
Theorem depth_chain_levels_collide : let im := example_image d32 USAGE_DEPTH_STENCIL_ATTACHMENT 256 256 5 1 1 in
  bound_image im /\
  exists side2 side3, image_copy_side im (Subresource ASPECT_DEPTH 2 0 1) = Some (4, side2) /\ image_copy_side im (Subresource ASPECT_DEPTH 3 0 1) = Some (4, side3) /\
    level_width (im_shape im) 3 = 32 /\ level_height (im_shape im) 3 = 32 /\
    forall x y, 0 <= x < 32 -> 0 <= y < 32 -> slot side2 x y 0 = slot side3 x y 0.
Proof.
  cbv zeta. split.
  { apply example_bound; [|reflexivity|vm_compute; discriminate].
    constructor; unfold PS5VK_MAX_EXTENT_2D, PS5VK_MAX_MIP_LEVELS, PS5VK_MAX_ARRAY_LAYERS; cbn; try lia; try discriminate. left. }
  eexists _, _. split; [vm_compute; reflexivity|]. split; [vm_compute; reflexivity|]. split; [reflexivity|]. split; [reflexivity|].
  intros x y X Y. unfold slot, image_copy_address. cbn [cs_tiled cs_depth cs_samples cs_address cs_level_width cs_element_bytes Z.eqb Pos.eqb].
  rewrite !Z.max_l by lia. unfold tiled_depth_offset. cbn [Z.eqb Pos.eqb]. rewrite !Z.shiftr_div_pow2 by lia. change (2 ^ 7) with 128. rewrite !(Z.div_small _ 128) by lia.
  unfold block_bytes. cbn [Z.mul Z.add]. reflexivity.
Qed.

(** An eight-byte element with four samples has a side too, though its map was
    measured for one sample: its planes overlap. *)
Example wide_samples_collide : let im := example_image rgba16f USAGE_COLOR_ATTACHMENT 64 32 1 1 4 in
  exists side, image_copy_side im (Subresource ASPECT_COLOR 0 0 1) = Some (32, side) /\ slot side 16 16 0 = slot side 0 0 1.
Proof. eexists. split; [vm_compute; reflexivity|]. vm_compute. reflexivity. Qed.

(** A tiled array's layers: the storage is aligned to two megabytes and then
    divided, so a layer of a shape the table does not have is not its tiles. *)
Example padded_layers : let im := example_image rgba8 USAGE_COLOR_ATTACHMENT 128 128 1 3 1 in
  tiled_layer_bytes (im_shape im) = 0x10000 /\ image_layer_bytes im = 699050.
Proof. split; vm_compute; reflexivity. Qed.

(** No tiled sixteen-bit depth image has a side, though its map is there. *)
Lemma d16_has_no_side im sub : im_storage im = STORAGE_TILES -> sh_levels (im_shape im) = 1 -> fmt_depth (sh_format (im_shape im)) = true ->
  fmt_stencil (sh_format (im_shape im)) = false -> texel_size (im_shape im) = 2 -> image_copy_side im sub = None.
Proof.
  intros T L D S X. unfold image_copy_side. destruct (image_plane_of im (sr_aspect sub)) as [p|] eqn:P; [|done].
  assert (E : p = ImagePlane 0 2 true).
  { apply image_plane_cases in P. cbv zeta in P. rewrite D, S in P. unfold texel_size in X. rewrite X in P. destruct_or! P; destruct_and! P; done. }
  rewrite E, L. cbn [pl_element_bytes pl_offset pl_depth_map Z.eqb Pos.eqb negb andb orb]. destruct (negb (sh_samples (im_shape im) =? 1) && _); [done|].
  rewrite decide_True by done. destruct (sh_samples (im_shape im) =? 4); [done|]. cbn [Z.eqb Pos.eqb negb andb orb].
  destruct (tile_extent _ _ _). destruct (_ && _); done.
Qed.

(** ** Examples *)

Definition example_chain : image := example_image rgba8 USAGE_COLOR_ATTACHMENT 256 256 6 1 1.

Lemma example_chain_bound : bound_image example_chain.
Proof.
  apply example_bound; [|reflexivity|vm_compute; discriminate].
  constructor; unfold PS5VK_MAX_EXTENT_2D, PS5VK_MAX_MIP_LEVELS, PS5VK_MAX_ARRAY_LAYERS; cbn; try lia; try discriminate. left.
Defined.

Lemma image_samples_apart_witness : exists side, image_copy_side example_chain (Subresource ASPECT_COLOR 2 0 1) = Some (4, side) /\
  slot side 0 0 0 = 0x200008400 /\ side_slots side 64 64 0x200000000 0x200200000.
Proof.
  eexists. split; [vm_compute; reflexivity|]. split; [vm_compute; reflexivity|].
  apply (image_samples_apart example_chain (Subresource ASPECT_COLOR 2 0 1) 4); [apply example_chain_bound|reflexivity|split; [discriminate|reflexivity]|vm_compute; reflexivity|].
  intros _. split; cbn; [intros; reflexivity|discriminate].
Defined.

Lemma image_levels_apart_witness : exists side side', image_copy_side example_chain (Subresource ASPECT_COLOR 4 0 1) = Some (4, side) /\ image_copy_side example_chain (Subresource ASPECT_COLOR 5 0 1) = Some (4, side') /\
  (slot side 15 15 0 + 4 <= slot side' 7 7 0 \/ slot side' 7 7 0 + 4 <= slot side 15 15 0).
Proof.
  eexists _, _. split; [vm_compute; reflexivity|]. split; [vm_compute; reflexivity|].
  eapply (image_levels_apart example_chain (Subresource ASPECT_COLOR 4 0 1) (Subresource ASPECT_COLOR 5 0 1) 4 4);
    [apply example_chain_bound|reflexivity|reflexivity|split; [discriminate|reflexivity]|split; [discriminate|reflexivity]|discriminate|vm_compute; reflexivity|vm_compute; reflexivity|..];
    try (intros _; split; cbn; [intros; reflexivity|discriminate]); split; split; (discriminate || reflexivity).
Defined.
