(* ===== verification/ImageRuns.v ===== *)
(** * Runs of texels ([src/driver/ps5vk_queue.c])

    A tiled side's map keeps the bytes of a run of texels contiguous, so the
    queue's copies move a run at a time.  The run's length is a property of the
    map: the low bits of x are the low bits of the place, and nothing else
    reaches them. *)

From Stdlib Require Import ZArith Lia.
From stdpp Require Import base numbers list.
From S2P Require Import Prelude DriverPrelude BlitPool XorMaps ImageTiles ImageLayout.
Open Scope Z_scope.

Definition PS5VK_TILED_RUN_BYTES : Z := 16.

(** [ps5vk_copy_side_run_bytes] *)
Definition copy_side_run_bytes (side : copy_side) (texel_bytes : Z) : Z :=
  if negb (cs_tiled side) then UINT64_MAX
  else if cs_depth side then if cs_samples side =? 4 then texel_bytes else u64 (2 * cs_element_bytes side)
  else if cs_element_bytes side =? 1 then 8 else PS5VK_TILED_RUN_BYTES.

(** ** Contiguous maps *)

(** The [2^r] texels from a multiple of [2^r] on have consecutive places. *)
Definition contiguous (r k : Z) (local : Z -> Z -> Z) : Prop :=
  forall x y, 0 <= x -> 0 <= y -> local x y = local (x - x mod 2 ^ r) y + x mod 2 ^ r * 2 ^ k.

Definition run_check (f : Z -> Z -> Z) (a b r : nat) (n k : Z) : bool :=
  forallb (fun v => Z.land v (unit_mask n (k + Z.of_nat r)) =? v) (basis (fun x y => f (Z.shiftl x (Z.of_nat r)) y) (a - r) b) &&
  forallb (fun v => f v 0 =? Z.shiftl v k) (single_bits r 0).

Lemma xor_sum_map_eq (f g : Z -> Z) bits vs : forallb (fun v => f v =? g v) vs = true -> xor_sum bits (map f vs) = xor_sum bits (map g vs).
Proof.
  revert bits. induction vs as [|v vs IH]; intros [|b bits] E; try done. cbn in E |- *. apply andb_true_iff in E as [E1 E2]. apply Z.eqb_eq in E1. now rewrite E1, IH.
Qed.

(** A multiple of [2^k] and a number below it add without carries. *)
Lemma lxor_disjoint h l k : 0 <= k -> h mod 2 ^ k = 0 -> 0 <= l < 2 ^ k -> Z.lxor h l = h + l.
Proof.
  intros K H L. symmetry. apply Z.add_nocarry_lxor. apply Z.bits_inj'. intros i I. rewrite Z.land_spec, Z.bits_0.
  destruct (Z.ltb_spec i k).
  - rewrite <- (Z.mod_pow2_bits_low h k i), H, Z.bits_0 by lia. done.
  - rewrite <- (Z.mod_small l (2 ^ k)) by lia. rewrite Z.mod_pow2_bits_high by lia. apply andb_false_r.
Qed.

Lemma split_low x r : 0 <= r -> 0 <= x -> x = Z.lxor (Z.shiftl (x / 2 ^ r) r) (x mod 2 ^ r).
Proof.
  intros R X. pose proof (Z.mod_pos_bound x (2 ^ r) ltac:(lia)). rewrite Z.shiftl_mul_pow2 by lia. rewrite (lxor_disjoint _ _ r); [|lia|now apply Z.mod_mul; lia|lia].
  pose proof (Z.div_mod x (2 ^ r) ltac:(lia)). lia.
Qed.

Lemma turned_contiguous (a b r : nat) n k f (turn_x turn_y shift : Z -> Z -> Z) : 0 <= k -> k + Z.of_nat r <= n -> (r <= a)%nat ->
  linear2 f -> run_check f a b r n k = true ->
  (forall c q, 0 <= turn_x c q < 2 ^ Z.of_nat a /\ turn_x c q mod 2 ^ Z.of_nat r = 0) -> (forall c q, 0 <= turn_y c q < 2 ^ Z.of_nat b) ->
  (forall c q, shift c q mod 2 ^ (k + Z.of_nat r) = 0) ->
  contiguous (Z.of_nat r) k (fun x y =>
    let c := x / 2 ^ Z.of_nat a in
    let q := y / 2 ^ Z.of_nat b in
    Z.lxor (f (Z.lxor (x mod 2 ^ Z.of_nat a) (turn_x c q)) (Z.lxor (y mod 2 ^ Z.of_nat b) (turn_y c q))) (shift c q)).
Proof.
  intros K N R L C TX TY S x y X Y. cbv zeta. apply andb_true_iff in C as [C1 C2].
  set (A := Z.of_nat a). set (P := Z.of_nat r). assert (RA : 0 <= P <= A) by lia.
  set (lo := x mod 2 ^ P). set (x0 := x - lo). pose proof (Z.mod_pos_bound x (2 ^ P) ltac:(lia)) as LB. fold lo in LB.
  assert (D : 2 ^ A = 2 ^ (A - P) * 2 ^ P) by (rewrite <- Z.pow_add_r by lia; f_equal; lia).
  assert (X0 : x0 = x / 2 ^ P * 2 ^ P) by (subst x0 lo; pose proof (Z.div_mod x (2 ^ P) ltac:(lia)); lia).
  assert (Q0 : x0 / 2 ^ A = x / 2 ^ A).
  { rewrite X0, D, Z.div_mul_cancel_r by lia. rewrite (Z.mul_comm (2 ^ (A - P))), <- Z.div_div by lia. done. }
  set (hi := x / 2 ^ P mod 2 ^ (A - P)).
  assert (M0 : x0 mod 2 ^ A = hi * 2 ^ P) by (rewrite X0, D, Z.mul_mod_distr_r by lia; done).
  assert (M1 : x mod 2 ^ A = hi * 2 ^ P + lo).
  { rewrite D, (Z.mul_comm (2 ^ (A - P))), Z.rem_mul_r by lia. subst hi lo. lia. }
  rewrite Q0. set (c := x / 2 ^ A). set (q := y / 2 ^ Z.of_nat b). destruct (TX c q) as [T1 T2]. fold A in T1. fold P in T2.
  set (t := turn_x c q / 2 ^ P). assert (T : turn_x c q = Z.shiftl t P).
  { rewrite Z.shiftl_mul_pow2 by lia. subst t. pose proof (Z.div_mod (turn_x c q) (2 ^ P) ltac:(lia)). lia. }
  assert (TB : 0 <= t < 2 ^ (A - P)) by (subst t; split; [apply Z.div_pos; lia|apply Z.div_lt_upper_bound; [lia|]; rewrite Z.mul_comm, <- D; lia]).
  assert (HB : 0 <= hi < 2 ^ (A - P)) by (apply Z.mod_pos_bound; lia).
  set (v := Z.lxor (y mod 2 ^ Z.of_nat b) (turn_y c q)). assert (VB : 0 <= v < 2 ^ Z.of_nat b) by (apply lxor_bounds; [lia|apply Z.mod_pos_bound; lia|apply TY]).
  set (G := f (Z.shiftl (Z.lxor hi t) P) v).
  assert (GM : G mod 2 ^ (k + P) = 0).
  { apply (unit_mask_spec n (k + P)); [lia|]. unfold G. assert (UB : 0 <= Z.lxor hi t < 2 ^ (A - P)) by (apply lxor_bounds; lia).
    assert (L2 : linear2 (fun x y => f (Z.shiftl x P) y)) by (intros u u' w w'; rewrite Z.shiftl_lxor; apply L).
    rewrite (linear2_value (fun x y => f (Z.shiftl x P) y) (a - r) b) by (done || (replace (Z.of_nat (a - r)) with (A - P) by lia; done)). now apply xor_sum_mask. }
  assert (FL : f lo 0 = lo * 2 ^ k).
  { rewrite <- Z.shiftl_mul_pow2 by lia. rewrite (linear_value (fun x => f x 0) r lo), (linear_value (fun x => Z.shiftl x k) r lo); try (subst P; lia).
    - now apply xor_sum_map_eq.
    - intros u w. apply Z.shiftl_lxor.
    - intros u w. rewrite <- L. now rewrite Z.lxor_0_r. }
  assert (F0 : Z.lxor (x0 mod 2 ^ A) (turn_x c q) = Z.shiftl (Z.lxor hi t) P) by (rewrite M0, T, Z.shiftl_lxor, (Z.shiftl_mul_pow2 hi) by lia; done).
  assert (F1 : Z.lxor (x mod 2 ^ A) (turn_x c q) = Z.lxor (Z.shiftl (Z.lxor hi t) P) lo).
  { rewrite M1, <- (lxor_disjoint (hi * 2 ^ P) lo P) by (try apply Z.mod_mul; lia). rewrite T, Z.shiftl_lxor, (Z.shiftl_mul_pow2 hi), !Z.lxor_assoc by lia. f_equal. apply Z.lxor_comm. }
  rewrite F0, F1. rewrite <- (Z.lxor_0_r v) at 1. rewrite L. fold G. rewrite FL, Z.lxor_assoc, (Z.lxor_comm (lo * 2 ^ k)), <- Z.lxor_assoc.
  apply (lxor_disjoint _ _ (k + P)); [lia| |rewrite Z.pow_add_r by lia; nia].
  rewrite <- Z.land_ones by lia. rewrite land_lxor_r, !Z.land_ones by lia. rewrite GM. fold P in S. now rewrite S.
Qed.


(** ** The driver's maps *)

(** What a run is on a side: texels whose bytes follow each other. *)
Definition side_runs (side : copy_side) (w h r : Z) : Prop := forall x y, 0 <= x < w -> 0 <= y < h ->
  slot side x y 0 = slot side (x - x mod 2 ^ r) y 0 + x mod 2 ^ r * cs_element_bytes side.

Lemma run_start x r : 0 <= r -> 0 <= x -> 0 <= x - x mod 2 ^ r <= x.
Proof. intros R X. pose proof (Z.mod_le x (2 ^ r) X ltac:(lia)). pose proof (Z.mod_pos_bound x (2 ^ r) ltac:(lia)). lia. Qed.

Lemma run_same_tile x r a : 0 <= r <= a -> 0 <= x -> (x - x mod 2 ^ r) / 2 ^ a = x / 2 ^ a.
Proof.
  intros R X. replace (x - x mod 2 ^ r) with (x / 2 ^ r * 2 ^ r) by (pose proof (Z.div_mod x (2 ^ r) ltac:(lia)); lia).
  assert (D : 2 ^ a = 2 ^ r * 2 ^ (a - r)) by (rewrite <- Z.pow_add_r by lia; f_equal; lia). rewrite D, (Z.mul_comm (2 ^ r)), Z.div_mul_cancel_r by lia.
  now rewrite (Z.mul_comm (2 ^ (a - r))), <- Z.div_div by lia.
Qed.

(** A contiguous map makes contiguous runs of a grid's texels. *)
Lemma grid_runs side w h a b k r loc : 0 <= r <= a -> cs_element_bytes side = 2 ^ k -> contiguous r k (fun x y => loc x y 0) ->
  (forall x y, 0 <= x < w -> 0 <= y < h -> slot side x y 0 = cs_address side + sample_at w a b loc x y 0) -> side_runs side w h r.
Proof.
  intros R E C V x y X Y. pose proof (run_start x r ltac:(lia) ltac:(lia)). rewrite !V by lia. unfold sample_at. rewrite (run_same_tile x r a) by lia.
  rewrite (C x y), E by lia. lia.
Qed.

Definition colour_run (eb : Z) : nat := if eb =? 1 then 3%nat else Z.to_nat (4 - Z.log2 eb).

Lemma colour_run_check eb : colour_mapped eb 1 -> let '(a, b, n, k) := colour_shape eb 1 in
  run_check (walk_terms (colour_terms eb)) a b (colour_run eb) n k = true /\ (colour_run eb <= a)%nat /\ 0 <= k /\ k + Z.of_nat (colour_run eb) <= n /\
  forall c q, fst (block_turn c q (2 ^ Z.of_nat a) (2 ^ Z.of_nat b) eb 1) mod 2 ^ Z.of_nat (colour_run eb) = 0.
Proof.
  intros C. unfold colour_mapped in C. rewrite !elem_of_cons, elem_of_nil in C. destruct_or! C; try done; injection C as ->; (split; [vm_compute; reflexivity|]); (split; [apply Nat.leb_le; reflexivity|]); (split; [vm_compute; discriminate|]); (split; [vm_compute; discriminate|]);
    intros c q; unfold block_turn; cbn [Z.eqb Pos.eqb]; destruct (land_1_cases c) as [Ec|Ec], (land_1_cases q) as [Eq|Eq]; rewrite ?Ec, ?Eq; vm_compute; reflexivity.
Qed.

Lemma colour_local_turned eb s tw th x y : let turn := block_turn (x / tw) (y / th) tw th eb s in
  colour_local eb s tw th x y = walk_terms (colour_terms eb) (Z.lxor (x mod tw) (fst turn)) (Z.lxor (y mod th) (snd turn)).
Proof. unfold colour_local. cbv zeta. now destruct (block_turn _ _ _ _ _ _). Qed.

Lemma colour_runs side w h : colour_side side w h -> cs_samples side = 1 -> cs_tile_xor side mod (cs_element_bytes side * 2 ^ Z.of_nat (colour_run (cs_element_bytes side))) = 0 ->
  side_runs side w h (Z.of_nat (colour_run (cs_element_bytes side))).
Proof.
  intros CS S X. pose proof (colour_samples_placed side w h CS) as P. pose proof (fun x y s => colour_value side w h x y s CS) as V. pose proof (colour_element _ _ _ CS) as C. rewrite S in *.
  pose proof (colour_run_check _ C) as RC. pose proof (fun c r => block_turn_range _ _ c r C) as T.
  destruct (colour_shape (cs_element_bytes side) 1) as [[[a b] n] k]. destruct P as (TW & TH & EK & BA & BB & BK & P), RC as (R1 & R2 & R3 & R4 & R5).
  apply (grid_runs side w h (Z.of_nat a) (Z.of_nat b) k _ (colour_samples side)); [lia|done| |intros x y A B; apply V; constructor; lia].
  pose proof (turned_contiguous a b (colour_run (cs_element_bytes side)) n k _ (fun c r => fst (block_turn c r (2 ^ Z.of_nat a) (2 ^ Z.of_nat b) (cs_element_bytes side) 1))
    (fun c r => snd (block_turn c r (2 ^ Z.of_nat a) (2 ^ Z.of_nat b) (cs_element_bytes side) 1)) (fun _ _ => cs_tile_xor side) R3 R4 R2 (linear2_walk _) R1
    ltac:(intros c q; split; [apply T|apply R5]) ltac:(intros; apply T) ltac:(intros; rewrite Z.pow_add_r by lia; rewrite <- EK; done)) as G.
  intros x y A B. unfold colour_samples. rewrite !colour_local_turned, S, TW, TH. cbn [Z.eqb Pos.eqb]. rewrite !Z.add_0_l. exact (G x y A B).
Qed.

Lemma depth_run_check eb : let '(a, b, k) := depth_shape eb in exists f, linear2 f /\ run_check f a b 1 16 k = true /\ (1 <= a)%nat /\ 0 <= k /\ k + 1 <= 16 /\
  forall x y, depth_local eb x y = f (x mod 2 ^ Z.of_nat a) (y mod 2 ^ Z.of_nat b).
Proof.
  unfold depth_shape, depth_local. destruct (eb =? 1); [|destruct (eb =? 2)].
  - exists (walk_terms ps5vk_tiled_stencil_terms). split; [apply linear2_walk|]. split; [vm_compute; reflexivity|]. repeat (split; [lia|]). reflexivity.
  - exists (walk_terms ps5vk_tiled_depth2_terms). split; [apply linear2_walk|]. split; [vm_compute; reflexivity|]. repeat (split; [lia|]). reflexivity.
  - exists (fun x y => walk_bits 0 x y (combine depth_x_masks depth_y_masks) 0). split; [apply linear2_walk_bits|]. split; [vm_compute; reflexivity|]. repeat (split; [lia|]). reflexivity.
Qed.

Lemma depth_runs side w h : depth_side side w h -> side_runs side w h 1.
Proof.
  intros DS. pose proof (fun x y s => depth_value side w h x y s DS) as V. pose proof (depth_run_check (cs_element_bytes side)) as RC. pose proof (depth_shape_extent _ (depth_element _ _ _ DS)) as SE.
  destruct DS as [(T & D & M) _ _ _ _]. destruct (depth_shape (cs_element_bytes side)) as [[a b] k]. destruct RC as (f & L & R1 & R2 & R3 & R4 & E), SE as (_ & EK & _).
  apply (grid_runs side w h (Z.of_nat a) (Z.of_nat b) k _ (fun x y _ => depth_local (cs_element_bytes side) x y)); [lia|done| |intros x y A B; apply V; constructor; rewrite ?M; lia].
  pose proof (turned_contiguous a b 1 16 k f (fun _ _ => 0) (fun _ _ => 0) (fun _ _ => 0) R3 R4 R2 L R1 ltac:(intros; split; [lia|reflexivity]) ltac:(lia) ltac:(intros; now apply Z.mod_0_l; lia)) as G.
  intros x y A B. specialize (G x y A B). cbv beta zeta in G. rewrite !Z.lxor_0_r in G. cbv beta. rewrite !E. exact G.
Qed.

(** A row is one run. *)
Lemma row_slot side x y s : cs_tiled side = false -> 0 <= x < 2 ^ 32 -> 0 <= y < 2 ^ 32 -> slot side x y s = u64 (cs_address side + y * cs_row_pitch side + x * cs_element_bytes side).
Proof. intros T X Y. unfold slot, image_copy_address. rewrite T, !(u64_small x), !(u64_small y) by lia. done. Qed.

(** ** Runs of the queue *)

(** The texels from a multiple of [n] to before the next follow each other, as
    the texels at the places [at_] gives. *)
Definition runs_of (at_ : Z -> Z -> Z) (texel_bytes w h n : Z) : Prop := forall x i y, 0 <= x -> 0 <= i -> x mod n + i < n -> x + i < w -> 0 <= y < h ->
  at_ (x + i) y = at_ x y + i * texel_bytes.

Lemma side_runs_of side w h r : 0 <= r -> side_runs side w h r -> runs_of (fun x y => slot side x y 0) (cs_element_bytes side) w h (2 ^ r).
Proof.
  intros R S x i y X I M B Y. rewrite (S (x + i) y), (S x y) by lia. pose proof (Z.div_mod x (2 ^ r) ltac:(lia)) as D.
  assert (E : (x + i) mod 2 ^ r = x mod 2 ^ r + i).
  { rewrite <- (Z.mod_small (x mod 2 ^ r + i) (2 ^ r)) by (pose proof (Z.mod_pos_bound x (2 ^ r) ltac:(lia)); lia). rewrite Zplus_mod_idemp_l. done. }
  rewrite E. replace (x + i - (x mod 2 ^ r + i)) with (x - x mod 2 ^ r) by lia. lia.
Qed.

Lemma runs_of_one at_ tb w h : runs_of at_ tb w h 1.
Proof. intros x i y X I M B Y. rewrite Z.mod_1_r in M. assert (i = 0) as -> by lia. rewrite Z.add_0_r. lia. Qed.

(** A mapped side's runs are as long as the queue takes them. *)
Lemma mapped_runs side w h : mapped_side side w h -> cs_samples side = 1 -> let n := copy_side_run_bytes side (cs_element_bytes side) / cs_element_bytes side in
  1 <= n <= 8 /\ copy_side_run_bytes side (cs_element_bytes side) = n * cs_element_bytes side /\ copy_side_run_bytes side (cs_element_bytes side) ∈ [2; 8; 16] /\
  runs_of (fun x y => slot side x y 0) (cs_element_bytes side) w h n.
Proof.
  intros M S. pose proof (mapped_element _ _ _ M) as E. pose proof (mapped_xor_aligned _ _ _ M) as X. unfold copy_side_run_bytes. rewrite (mapped_tiled _ _ _ M), S. cbn [negb Z.eqb Pos.eqb].
  destruct (cs_depth side) eqn:D.
  - pose proof (mapped_depth _ _ _ M D) as DE. pose proof (side_runs_of side w h 1 ltac:(lia) (depth_runs side w h (mapped_depth_side side w h M D S))) as R.
    rewrite !elem_of_cons, elem_of_nil in DE. destruct DE as [Q|[Q|[]]]; rewrite Q in *; (split; [split; vm_compute; discriminate|]); (split; [reflexivity|]); (split; [repeat (left || right)|exact R]).
  - assert (CR : cs_tile_xor side mod (cs_element_bytes side * 2 ^ Z.of_nat (colour_run (cs_element_bytes side))) = 0).
    { apply mod_16_element; [|done]. rewrite !elem_of_cons, elem_of_nil in E. destruct E as [Q|[Q|[Q|[Q|[Q|[]]]]]]; rewrite Q; repeat (left || right). }
    pose proof (side_runs_of side w h _ (Nat2Z.is_nonneg _) (colour_runs side w h (mapped_colour side w h M D) S CR)) as R.
    rewrite !elem_of_cons, elem_of_nil in E. destruct E as [Q|[Q|[Q|[Q|[Q|[]]]]]]; rewrite Q in *; (split; [split; vm_compute; discriminate|]); (split; [reflexivity|]); (split; [repeat (left || right)|exact R]).
Qed.

(** Rows are one run, wherever it begins. *)
Lemma row_runs side tb x i y : cs_tiled side = false -> 0 <= x -> 0 <= i -> x + i < 2 ^ 32 -> 0 <= y < 2 ^ 32 -> 0 <= cs_address side -> 0 <= cs_row_pitch side -> 0 <= tb ->
  cs_address side + y * cs_row_pitch side + (x + i) * tb < 2 ^ 64 -> image_copy_address side (x + i) y tb 0 = image_copy_address side x y tb 0 + i * tb.
Proof. intros T X I B Y A P TB U. unfold image_copy_address. rewrite T, !(u64_small y), !(u64_small (x + i)), !(u64_small x) by lia. rewrite !u64_small by nia. lia. Qed.
