(* ===== verification/ImageCopies.v ===== *)
(** * Copies between images and buffers ([src/driver/ps5vk_queue.c])

    The queue walks an upload, a copy, a clear or a resolve of an image texel by
    texel or a run of texels at a time, at the addresses the sides' maps give.
    Cache evictions and flushes leave memory as it is and are not modelled. *)

From Stdlib Require Import ZArith Lia.
From stdpp Require Import base numbers list.
From S2P Require Import Prelude Bytes DriverPrelude DriverMemory CopySteps BlitPool XorMaps ImageTiles ImageLayout ImageRuns.
Open Scope Z_scope.

(** ** Records *)

(** What a walk reads of a [ps5vk_memory_copy]. *)
Record region_copy := RegionCopy {
  rc_source : Z;
  rc_source_pitch : Z;
  rc_source_side : copy_side;
  rc_destination_side : copy_side;
  rc_source_x : Z;
  rc_source_y : Z;
  rc_destination_x : Z;
  rc_destination_y : Z;
  rc_width : Z;
  rc_height : Z;
  rc_source_texel_bytes : Z;
  rc_destination_texel_bytes : Z;
  rc_reverse_texel_bytes : Z;
  rc_clear_texel : Bytes
}.

(** ** Runs *)

(** A run's texels, byte by byte in reverse: the loop of an upload. *)
Fixpoint reverse_run (fuel : nat) (at_ texel_bytes bytes from to : Z) (m : memory) : memory :=
  match fuel with
  | O => m
  | S fuel' => if at_ <? bytes then reverse_run fuel' (at_ + texel_bytes) texel_bytes bytes from to (reverse_texel (Z.to_nat texel_bytes) 0 texel_bytes (from + at_) (to + at_) m) else m
  end.

Definition write_run (reverse texel_bytes bytes from to : Z) (m : memory) : memory :=
  if reverse =? 0 then store_bytes m to (load_bytes (Z.to_nat bytes) m from)
  else reverse_run (Z.to_nat bytes) 0 texel_bytes bytes from to m.

Definition copy_run (reverse texel_bytes bytes from to : Z) (m : memory) : memory :=
  if reverse =? 0 then store_bytes m to (load_bytes (Z.to_nat bytes) m from)
  else reverse_loop (Z.to_nat bytes) 0 texel_bytes bytes from to m.

(** ** Uploads: [ps5vk_image_write_execute] *)

(** How many texels share one address. *)
Definition write_run_texels (side : copy_side) (texel_bytes : Z) : Z :=
  let run_limit := copy_side_run_bytes side texel_bytes in
  if negb (run_limit =? UINT64_MAX) && (texel_bytes <=? run_limit) && (Z.land (cs_tile_xor side) (run_limit - 1) =? 0) then u32 (run_limit / texel_bytes) else 1.

Fixpoint write_row (fuel : nat) (c : region_copy) (row x : Z) (m : memory) : memory :=
  match fuel with
  | O => m
  | S fuel' =>
      if x <? rc_width c then
        let texel_bytes := rc_destination_texel_bytes c in
        let run_texels := write_run_texels (rc_destination_side c) texel_bytes in
        let column := u32 (rc_destination_x c + x) in
        let count := Z.min (run_texels - column mod run_texels) (rc_width c - x) in
        let bytes := u32 (count * texel_bytes) in
        let destination := image_copy_address (rc_destination_side c) (s32 column) (s32 (rc_destination_y c + row)) texel_bytes 0 in
        let texels := u64 (rc_source c + row * rc_source_pitch c + x * texel_bytes) in
        write_row fuel' c row (x + count) (write_run (rc_reverse_texel_bytes c) texel_bytes bytes texels destination m)
      else m
  end.

Definition image_write_execute (c : region_copy) (m : memory) : memory :=
  fold_left (fun m row => write_row (Z.to_nat (rc_width c)) c row 0 m) (seqZ 0 (rc_height c)) m.

(** ** Copies: [ps5vk_image_copy_pass] *)

Definition copy_run_texels (c : region_copy) : Z :=
  let texel_bytes := rc_source_texel_bytes c in
  let run_bytes_limit := Z.min (copy_side_run_bytes (rc_source_side c) texel_bytes) (copy_side_run_bytes (rc_destination_side c) texel_bytes) in
  if run_bytes_limit =? UINT64_MAX then Z.max (rc_width c) 1 else Z.max (run_bytes_limit / texel_bytes) 1.

Fixpoint copy_row (fuel : nat) (c : region_copy) (row at_ : Z) (m : memory) : memory :=
  match fuel with
  | O => m
  | S fuel' =>
      let texel_bytes := rc_source_texel_bytes c in
      let row_bytes := u64 (rc_width c * texel_bytes) in
      let step := u64 (copy_run_texels c * texel_bytes) in
      if at_ <? row_bytes then
        let run_bytes := Z.min (row_bytes - at_) step in
        let source_at := image_copy_address (rc_source_side c) (s32 (rc_source_x c + at_ / texel_bytes)) (s32 (rc_source_y c + row)) texel_bytes 0 in
        let destination_at := image_copy_address (rc_destination_side c) (s32 (rc_destination_x c + at_ / texel_bytes)) (s32 (rc_destination_y c + row)) texel_bytes 0 in
        copy_row fuel' c row (at_ + step) (copy_run (rc_reverse_texel_bytes c) texel_bytes run_bytes source_at destination_at m)
      else m
  end.

(** [ps5vk_image_copy_execute]: the pass that moves; the two that evict leave
    memory as it is. *)
Definition image_copy_execute (c : region_copy) (m : memory) : memory :=
  fold_left (fun m row => copy_row (Z.to_nat (rc_width c)) c row 0 m) (seqZ 0 (rc_height c)) m.

(** ** Clears: [ps5vk_clear_execute] *)

Definition clear_samples (c : region_copy) : Z := if cs_samples (rc_destination_side c) =? 4 then 4 else 1.

Definition clear_texel (c : region_copy) (row column : Z) (m : memory) : memory :=
  let sample_bytes := rc_destination_texel_bytes c / clear_samples c in
  fold_left (fun m sample =>
    store_bytes m (image_copy_address (rc_destination_side c) (s32 (rc_destination_x c + column)) (s32 (rc_destination_y c + row)) sample_bytes sample)
      (take (Z.to_nat sample_bytes) (rc_clear_texel c))) (seqZ 0 (clear_samples c)) m.

Definition clear_execute (c : region_copy) (m : memory) : memory :=
  fold_left (fun m row => fold_left (fun m column => clear_texel c row column m) (seqZ 0 (rc_width c)) m) (seqZ 0 (rc_height c)) m.

(** ** Resolves: [ps5vk_resolve_execute] *)

(** One byte of a texel: the mean of its four samples', rounded. *)
Definition resolved_byte (c : region_copy) (row column : Z) (m : memory) (byte : Z) : Z :=
  let sample_bytes := rc_source_texel_bytes c / 4 in
  let sum := fold_left (fun sum sample => sum + m (image_copy_address (rc_source_side c) column row sample_bytes sample + byte)) (seqZ 0 4) 0 in
  (sum + 2) / 4.

Definition resolve_texel (c : region_copy) (row column : Z) (m : memory) : memory :=
  store_bytes m (image_copy_address (rc_destination_side c) (s32 (rc_destination_x c + column)) (s32 (rc_destination_y c + row)) (rc_destination_texel_bytes c) 0)
    (map (resolved_byte c row column m) (seqZ 0 (rc_destination_texel_bytes c))).

Definition resolve_execute (c : region_copy) (m : memory) : memory :=
  fold_left (fun m row => fold_left (fun m column => resolve_texel c row column m) (seqZ 0 (rc_width c)) m) (seqZ 0 (rc_height c)) m.

(** ** What a run moves *)

(** Where a texel's byte comes from. *)
Definition from_byte (reverse tb i : Z) : Z := if reverse =? 0 then i else mirrored tb i.

Lemma reverse_run_loop fuel k tb n from to m : 0 < tb -> 0 <= k -> reverse_run fuel (k * tb) tb (n * tb) from to m = reverse_loop fuel (k * tb) tb (n * tb) from to m.
Proof.
  intros T. revert k m. induction fuel as [|fuel IH]; intros k m K; cbn [reverse_run reverse_loop]; [done|].
  replace (k * tb + tb) with ((k + 1) * tb) by lia.
  destruct (Z.ltb_spec (k * tb) (n * tb)) as [L|L], (Z.leb_spec ((k + 1) * tb) (n * tb)) as [G|G]; [apply IH; lia| |nia|done].
  apply Z.mul_lt_mono_pos_r in L; [nia|lia].
Qed.

Lemma copy_run_spec reverse tb n from to m : 0 < tb -> 0 <= n -> from + n * tb <= to \/ to + n * tb <= from ->
  forall a, copy_run reverse tb (n * tb) from to m a = if (to <=? a) && (a <? to + n * tb) then m (from + from_byte reverse tb (a - to)) else m a.
Proof.
  intros T N D a. unfold copy_run, from_byte. destruct (reverse =? 0).
  - unfold store_bytes. unfold size. rewrite load_bytes_length, Z2Nat.id by nia. destruct (_ && _) eqn:E; [|done]. apply andb_true_iff in E as [E1 E2]. to_prop.
    rewrite load_bytes_at by lia. done.
  - pose proof (reverse_loop_spec (Z.to_nat (n * tb)) 0 tb (n * tb) from to m T ltac:(lia)) as R. rewrite Z.div_mul in R by lia.
    rewrite Z.mul_0_l, Z.add_0_r in R. apply R; nia.
Qed.

Lemma write_run_spec reverse tb n from to m : 0 < tb -> 0 <= n -> from + n * tb <= to \/ to + n * tb <= from ->
  forall a, write_run reverse tb (n * tb) from to m a = if (to <=? a) && (a <? to + n * tb) then m (from + from_byte reverse tb (a - to)) else m a.
Proof.
  intros T N D a. rewrite <- copy_run_spec by done. unfold write_run, copy_run. destruct (reverse =? 0); [done|].
  pose proof (reverse_run_loop (Z.to_nat (n * tb)) 0 tb n from to m T ltac:(lia)) as E. rewrite Z.mul_0_l in E. now rewrite E.
Qed.

(** Byte [j] of the [i]th texel of a run. *)
Lemma from_byte_texel reverse tb i j : 0 < tb -> 0 <= i -> 0 <= j < tb -> from_byte reverse tb (i * tb + j) = i * tb + from_byte reverse tb j.
Proof.
  intros T I J. unfold from_byte. destruct (reverse =? 0); [done|]. unfold mirrored.
  assert (E1 : (i * tb + j) / tb = i) by (symmetry; apply Z.div_unique with j; lia). assert (E2 : (i * tb + j) mod tb = j) by (symmetry; apply Z.mod_unique with i; lia).
  rewrite E1, E2, (Z.div_small j), (Z.mod_small j) by lia. lia.
Qed.

Lemma from_byte_range reverse tb j : 0 < tb -> 0 <= j < tb -> 0 <= from_byte reverse tb j < tb.
Proof. intros T J. unfold from_byte. destruct (reverse =? 0); [lia|]. pose proof (mirrored_range tb j 1 T ltac:(lia)). lia. Qed.

(** ** Walks over a region *)

Section Region.
(** A region of texels, where each is read and where it is written. *)
Context (width height tb reverse : Z) (from_at to_at : Z -> Z -> Z).
Context (TB : 0 < tb).

Definition in_region (c r : Z) : Prop := 0 <= c < width /\ 0 <= r < height.
Definition in_texel (at_ a : Z) : Prop := at_ <= a < at_ + tb.

(** The texels written lie apart, and apart from the texels read. *)
Context (TO : forall c r c' r' a, in_region c r -> in_region c' r' -> in_texel (to_at c r) a -> in_texel (to_at c' r') a -> c = c' /\ r = r').
Context (FROM : forall c r c' r' a, in_region c r -> in_region c' r' -> in_texel (from_at c r) a -> in_texel (to_at c' r') a -> False).

(** What a walk has done: the texels so far are in place, and nothing else
    changed. *)
Record moved (done_ : Z -> Z -> Prop) (m m' : memory) : Prop := {
  moved_in c r j : in_region c r -> done_ c r -> 0 <= j < tb -> m' (to_at c r + j) = m (from_at c r + from_byte reverse tb j);
  moved_out a : (forall c r, in_region c r -> done_ c r -> ~ in_texel (to_at c r) a) -> m' a = m a
}.

(** A run: texels that follow each other where they are read and written. *)
Record is_run (q row count : Z) : Prop := {
  run_region : 0 <= q /\ 0 <= count /\ q + count <= width /\ 0 <= row < height;
  run_from i : 0 <= i < count -> from_at (q + i) row = from_at q row + i * tb;
  run_to i : 0 <= i < count -> to_at (q + i) row = to_at q row + i * tb
}.

Lemma run_apart q row count : is_run q row count -> 0 < count -> from_at q row + count * tb <= to_at q row \/ to_at q row + count * tb <= from_at q row.
Proof.
  intros [(Q & C & W & R) F T] P. destruct (Z_le_gt_dec (from_at q row + count * tb) (to_at q row)) as [|L1]; [auto|].
  destruct (Z_le_gt_dec (to_at q row + count * tb) (from_at q row)) as [|L2]; [auto|]. exfalso.
  set (a := Z.max (from_at q row) (to_at q row)).
  assert (G : forall base, base <= a < base + count * tb -> exists i, 0 <= i < count /\ base + i * tb <= a < base + i * tb + tb).
  { intros base B. exists ((a - base) / tb). pose proof (Z.div_mod (a - base) tb ltac:(lia)). pose proof (Z.mod_pos_bound (a - base) tb TB).
    split; [|lia]. split; [apply Z.div_pos; lia|]. apply Z.div_lt_upper_bound; lia. }
  destruct (G (from_at q row) ltac:(lia)) as (i & I & Ai), (G (to_at q row) ltac:(lia)) as (j & J & Aj).
  apply (FROM (q + i) row (q + j) row a); unfold in_region, in_texel; try lia; rewrite ?F, ?T by lia; lia.
Qed.

(** A run moves its texels. *)
Lemma run_moved done_ q row count m m' m'' : is_run q row count -> 0 < count -> moved done_ m m' ->
  (forall c r, in_region c r -> done_ c r -> ~ (r = row /\ q <= c < q + count)) ->
  (forall a, m'' a = if (to_at q row <=? a) && (a <? to_at q row + count * tb) then m' (from_at q row + from_byte reverse tb (a - to_at q row)) else m' a) ->
  moved (fun c r => done_ c r \/ (r = row /\ q <= c < q + count)) m m''.
Proof.
  intros RU P [MI MO] ND E. pose proof RU as [(Q & C & W & R) F T].
  assert (IN : forall i, 0 <= i < count -> in_region (q + i) row) by (intros i I; unfold in_region; lia).
  assert (POS : forall a, to_at q row <= a < to_at q row + count * tb -> exists i, 0 <= i < count /\ in_texel (to_at (q + i) row) a).
  { intros a A. exists ((a - to_at q row) / tb). pose proof (Z.div_mod (a - to_at q row) tb ltac:(lia)). pose proof (Z.mod_pos_bound (a - to_at q row) tb TB).
    assert (I : 0 <= (a - to_at q row) / tb < count) by (split; [apply Z.div_pos; lia|apply Z.div_lt_upper_bound; lia]). split; [done|]. unfold in_texel. rewrite T by done. lia. }
  split.
  - intros c r j IR [D|[-> Cq]] J; rewrite E.
    + destruct (_ && _) eqn:X; [|now apply MI]. apply andb_true_iff in X as [X1 X2]. to_prop. exfalso. destruct (POS _ (conj X1 X2)) as (i & I & A).
      destruct (TO c r (q + i) row (to_at c r + j) IR (IN i I)) as [-> ->]; [unfold in_texel; lia|done|]. apply (ND (q + i) row (IN i I) D). lia.
    + set (i := c - q). replace c with (q + i) in * by lia. clearbody i. rewrite T, F by lia. rewrite (proj2 (Z.leb_le _ _)), (proj2 (Z.ltb_lt _ _)) by nia. cbn [andb].
      replace (to_at q row + i * tb + j - to_at q row) with (i * tb + j) by lia. rewrite from_byte_texel by lia.
      rewrite MO; [f_equal; lia|]. intros c' r' IR' D' A. apply (FROM (q + i) row c' r' (from_at q row + (i * tb + from_byte reverse tb j)) IR IR'); [|done].
      unfold in_texel. rewrite F by lia. pose proof (from_byte_range reverse tb j TB J). lia.
  - intros a A. rewrite E. destruct (_ && _) eqn:X.
    + apply andb_true_iff in X as [X1 X2]. to_prop. destruct (POS _ (conj X1 X2)) as (i & I & B). exfalso. apply (A (q + i) row (IN i I)); [right; lia|done].
    + apply MO. intros c r IR D. apply A; auto.
Qed.

Lemma moved_ext d d' m m' : (forall c r, in_region c r -> d c r <-> d' c r) -> moved d m m' -> moved d' m m'.
Proof. intros E [I O]. split; [intros c r j IR D; apply I; [done|now apply E]|intros a A; apply O; intros c r IR D; apply A; [done|now apply E]]. Qed.

Lemma moved_refl m : moved (fun _ _ => False) m m.
Proof. split; [done|done]. Qed.

(** The rows before [row], and the texels of [row] before [x]. *)
Definition before (row x c r : Z) : Prop := r < row \/ (r = row /\ c < x).

Lemma rows_moved step m : (forall row m', 0 <= row < height -> moved (before row 0) m m' -> moved (before row width) m (step m' row)) -> 0 <= height ->
  moved (fun _ _ => True) m (fold_left step (seqZ 0 height) m).
Proof.
  intros ST H. assert (G : forall n row m', 0 <= row -> row + Z.of_nat n = height -> moved (before row 0) m m' -> moved (before height 0) m (fold_left step (seqZ row (Z.of_nat n)) m')).
  { induction n as [|n IH]; intros row m' R E M.
    - change (seqZ row (Z.of_nat 0)) with (@nil Z). cbn. now replace height with row by lia.
    - rewrite seqZ_cons by lia. cbn [fold_left]. replace (Z.pred (Z.of_nat (S n))) with (Z.of_nat n) by lia. apply IH; [lia|lia|].
      specialize (ST row m' ltac:(lia) M). revert ST. apply moved_ext. intros c r [C Rr]. unfold before. lia. }
  specialize (G (Z.to_nat height) 0 m ltac:(lia) ltac:(lia)). rewrite Z2Nat.id in G by lia. specialize (G ltac:(apply (moved_ext (fun _ _ => False)); [unfold in_region, before; lia|apply moved_refl])).
  revert G. apply moved_ext. unfold in_region, before. lia.
Qed.
End Region.

(** *** The walk of an upload *)

(** A region inside a level of a one-sample side. *)
Record region_fits (w h tb x y width height : Z) : Prop := {
  fits_texel : 0 < tb <= 16;
  fits_x : 0 <= x /\ 0 <= width /\ x + width <= w /\ w <= 2 ^ 16;
  fits_y : 0 <= y /\ 0 <= height /\ y + height <= h /\ h <= 2 ^ 16
}.

Definition upload_from (c : region_copy) (column row : Z) : Z := rc_source c + row * rc_source_pitch c + column * rc_destination_texel_bytes c.
Definition texel_at (side : copy_side) (tb x y : Z) : Z := image_copy_address side x y tb 0.
Definition written_at (c : region_copy) (tb column row : Z) : Z := texel_at (rc_destination_side c) tb (rc_destination_x c + column) (rc_destination_y c + row).
Definition read_at (c : region_copy) (tb column row : Z) : Z := texel_at (rc_source_side c) tb (rc_source_x c + column) (rc_source_y c + row).

Section Upload.
Context (c : region_copy) (w h : Z).
Context (F : region_fits w h (rc_destination_texel_bytes c) (rc_destination_x c) (rc_destination_y c) (rc_width c) (rc_height c)).
Context (S : 0 <= rc_source c) (SP : 0 <= rc_source_pitch c) (SB : rc_source c + rc_height c * rc_source_pitch c + rc_width c * rc_destination_texel_bytes c < 2 ^ 64).
Context (N : 0 < write_run_texels (rc_destination_side c) (rc_destination_texel_bytes c)).
Context (RU : runs_of (texel_at (rc_destination_side c) (rc_destination_texel_bytes c)) (rc_destination_texel_bytes c) w h (write_run_texels (rc_destination_side c) (rc_destination_texel_bytes c))).

Abbreviation Tb := (rc_destination_texel_bytes c).
Abbreviation moved_ := (moved (rc_width c) (rc_height c) Tb (rc_reverse_texel_bytes c) (upload_from c) (written_at c Tb)).
Context (TO : forall x r x' r' a, in_region (rc_width c) (rc_height c) x r -> in_region (rc_width c) (rc_height c) x' r' ->
  in_texel Tb (written_at c Tb x r) a -> in_texel Tb (written_at c Tb x' r') a -> x = x' /\ r = r').
Context (FROM : forall x r x' r' a, in_region (rc_width c) (rc_height c) x r -> in_region (rc_width c) (rc_height c) x' r' ->
  in_texel Tb (upload_from c x r) a -> in_texel Tb (written_at c Tb x' r') a -> False).

Lemma write_row_moved fuel row x m m' : 0 <= row < rc_height c -> 0 <= x <= rc_width c -> (Z.to_nat (rc_width c - x) <= fuel)%nat ->
  moved_ (before row x) m m' -> moved_ (before row (rc_width c)) m (write_row fuel c row x m').
Proof.
  destruct F as [T (X1 & X2 & X3 & X4) (Y1 & Y2 & Y3 & Y4)]. set (R := write_run_texels _ _) in *.
  revert x m'. induction fuel as [|fuel IH]; intros x m' RW X B M; cbn [write_row].
  { assert (x = rc_width c) as -> by lia. exact M. }
  destruct (Z.ltb_spec x (rc_width c)) as [L|L]; [|assert (x = rc_width c) as -> by lia; exact M].
  fold R. rewrite (u32_small (rc_destination_x c + x)) by lia. set (column := rc_destination_x c + x). set (count := Z.min (R - column mod R) (rc_width c - x)).
  pose proof (Z.mod_pos_bound column R N) as MB. assert (C : 0 < count <= rc_width c - x) by lia.
  assert (run : is_run (rc_width c) (rc_height c) Tb (upload_from c) (written_at c Tb) x row count).
  { split; [lia| |]; intros i I.
    - unfold upload_from. lia.
    - unfold written_at. rewrite Z.add_assoc. fold column. rewrite RU by (subst column; lia). lia. }
  apply IH; [done|lia|lia|].
  pose proof (run_moved (rc_width c) (rc_height c) Tb (rc_reverse_texel_bytes c) (upload_from c) (written_at c Tb) ltac:(lia) TO FROM (before row x) x row count m m') as Q.
  apply (moved_ext _ _ _ _ _ _ (fun c0 r => before row x c0 r \/ (r = row /\ x <= c0 < x + count))); [unfold before, in_region; lia|].
  apply Q; auto; [lia|unfold before; lia|]. intros a.
  rewrite (u32_small (count * Tb)) by nia. replace (s32 column) with column by (unfold s32; rewrite u32_small by (subst column; lia); destruct (Z.ltb_spec column (2 ^ 31)); subst column; lia).
  replace (s32 (rc_destination_y c + row)) with (rc_destination_y c + row) by (unfold s32; rewrite u32_small by lia; destruct (Z.ltb_spec (rc_destination_y c + row) (2 ^ 31)); lia).
  replace (u64 (rc_source c + row * rc_source_pitch c + x * Tb)) with (upload_from c x row) by (unfold upload_from; symmetry; apply u64_small; nia).
  change (image_copy_address (rc_destination_side c) column (rc_destination_y c + row) Tb 0) with (written_at c Tb x row).
  apply write_run_spec; [lia|lia|]. apply (run_apart (rc_width c) (rc_height c) Tb (upload_from c) (written_at c Tb) ltac:(lia) FROM x row count run). lia.
Qed.

Lemma write_moved m : moved_ (fun _ _ => True) m (image_write_execute c m).
Proof.
  apply (rows_moved _ _ _ _ _ _ (fun m row => write_row (Z.to_nat (rc_width c)) c row 0 m)); [|apply (fits_y _ _ _ _ _ _ _ F)].
  intros row m' R M. apply write_row_moved; auto; pose proof (fits_x _ _ _ _ _ _ _ F); lia.
Qed.
End Upload.

(** *** The walk of a copy *)

Section Copy.
Context (c : region_copy) (w h w' h' : Z).
Context (FS : region_fits w h (rc_source_texel_bytes c) (rc_source_x c) (rc_source_y c) (rc_width c) (rc_height c)).
Context (FD : region_fits w' h' (rc_source_texel_bytes c) (rc_destination_x c) (rc_destination_y c) (rc_width c) (rc_height c)).
Context (N : 0 < copy_run_texels c < 2 ^ 32).
(** The texels of a run follow each other on both sides. *)
Context (RS : forall x i row, 0 <= x -> x mod copy_run_texels c = 0 -> 0 <= i < copy_run_texels c -> x + i < rc_width c -> 0 <= row < rc_height c ->
  read_at c (rc_source_texel_bytes c) (x + i) row = read_at c (rc_source_texel_bytes c) x row + i * rc_source_texel_bytes c).
Context (RD : forall x i row, 0 <= x -> x mod copy_run_texels c = 0 -> 0 <= i < copy_run_texels c -> x + i < rc_width c -> 0 <= row < rc_height c ->
  written_at c (rc_source_texel_bytes c) (x + i) row = written_at c (rc_source_texel_bytes c) x row + i * rc_source_texel_bytes c).

Abbreviation Tb := (rc_source_texel_bytes c).
Abbreviation moved_ := (moved (rc_width c) (rc_height c) Tb (rc_reverse_texel_bytes c) (read_at c Tb) (written_at c Tb)).
Context (TO : forall x r x' r' a, in_region (rc_width c) (rc_height c) x r -> in_region (rc_width c) (rc_height c) x' r' ->
  in_texel Tb (written_at c Tb x r) a -> in_texel Tb (written_at c Tb x' r') a -> x = x' /\ r = r').
Context (FROM : forall x r x' r' a, in_region (rc_width c) (rc_height c) x r -> in_region (rc_width c) (rc_height c) x' r' ->
  in_texel Tb (read_at c Tb x r) a -> in_texel Tb (written_at c Tb x' r') a -> False).

Lemma copy_row_moved fuel row x m m' : 0 <= row < rc_height c -> 0 <= x -> x mod copy_run_texels c = 0 -> (Z.to_nat (rc_width c - x) <= fuel)%nat ->
  moved_ (before row x) m m' -> moved_ (before row (rc_width c)) m (copy_row fuel c row (x * Tb) m').
Proof.
  destruct FS as [T (X1 & X2 & X3 & X4) (Y1 & Y2 & Y3 & Y4)], FD as [_ (X1' & _ & X3' & X4') (Y1' & _ & Y3' & Y4')]. set (R := copy_run_texels c) in *.
  revert x m'. assert (DONE : forall x m', rc_width c <= x -> moved_ (before row x) m m' -> moved_ (before row (rc_width c)) m m').
  { intros x m' X. apply moved_ext. unfold before, in_region. lia. }
  induction fuel as [|fuel IH]; intros x m' RW X A B M; cbn [copy_row].
  { apply (DONE x); [lia|done]. }
  rewrite (u64_small (rc_width c * Tb)), (u64_small (copy_run_texels c * Tb)) by (try (fold R); nia). fold R.
  destruct (Z.ltb_spec (x * Tb) (rc_width c * Tb)) as [L|L]; [|apply (DONE x); [apply Z.mul_le_mono_pos_r in L; lia|done]].
  apply Z.mul_lt_mono_pos_r in L; [|lia]. set (count := Z.min R (rc_width c - x)).
  assert (RB : Z.min (rc_width c * Tb - x * Tb) (R * Tb) = count * Tb) by (rewrite <- Z.mul_sub_distr_r, Z.mul_min_distr_nonneg_r by lia; f_equal; lia).
  rewrite RB, Z.div_mul by lia.
  assert (run : is_run (rc_width c) (rc_height c) Tb (read_at c Tb) (written_at c Tb) x row count).
  { split; [lia| |]; intros i I.
    - apply RS; (done || lia).
    - apply RD; (done || lia). }
  replace (x * Tb + R * Tb) with ((x + R) * Tb) by lia. apply IH; [done|lia| |lia|].
  { rewrite Z.add_mod, A, Z.mod_same by lia. now rewrite Z.mod_0_l by lia. }
  pose proof (run_moved (rc_width c) (rc_height c) Tb (rc_reverse_texel_bytes c) (read_at c Tb) (written_at c Tb) ltac:(lia) TO FROM (before row x) x row count m m') as Q.
  apply (moved_ext _ _ _ _ _ _ (fun c0 r => before row x c0 r \/ (r = row /\ x <= c0 < x + count))); [unfold before, in_region; lia|].
  apply Q; auto; [lia|unfold before; lia|]. intros a. assert (SM32 : forall v, 0 <= v < 2 ^ 31 -> s32 v = v) by (intros v V; unfold s32; rewrite u32_small by lia; destruct (Z.ltb_spec v (2 ^ 31)); lia).
  rewrite !SM32 by lia.
  change (image_copy_address (rc_source_side c) (rc_source_x c + x) (rc_source_y c + row) Tb 0) with (read_at c Tb x row).
  change (image_copy_address (rc_destination_side c) (rc_destination_x c + x) (rc_destination_y c + row) Tb 0) with (written_at c Tb x row).
  apply copy_run_spec; [lia|lia|]. apply (run_apart (rc_width c) (rc_height c) Tb (read_at c Tb) (written_at c Tb) ltac:(lia) FROM x row count run). lia.
Qed.

Lemma copy_moved m : moved_ (fun _ _ => True) m (image_copy_execute c m).
Proof.
  apply (rows_moved _ _ _ _ _ _ (fun m row => copy_row (Z.to_nat (rc_width c)) c row 0 m)); [|apply (fits_y _ _ _ _ _ _ _ FS)].
  intros row m' R M. apply (copy_row_moved (Z.to_nat (rc_width c)) row 0 m m' R ltac:(lia) ltac:(apply Z.mod_0_l; lia) ltac:(lia) M).
Qed.
End Copy.
