(* ===== verification/ImageTransfers.v ===== *)
(** * Recording transfers ([src/driver/ps5vk_image.c])

    vkCmdCopyMemoryToImage, vkCmdCopyImageToBuffer, vkCmdCopyImage, the image
    clears and vkCmdResolveImage turn their regions into the walks of
    ImageCopies, or refuse the recording by name.  The paths that draw instead
    (ps5vk_meta_*, in ps5vk_draw.c) and the resampling of a scaled blit are not
    modelled: these are the commands when those paths decline. *)

From Stdlib Require Import ZArith Lia.
From stdpp Require Import base numbers list.
From S2P Require Import Prelude Bytes DriverPrelude DriverMemory CopySteps BlitPool XorMaps ImageTiles ImageLayout ImageRuns ImageCopies.
Open Scope Z_scope.

(** ** Command buffers *)

(** The sentence a recording is refused with. *)
Inductive refusal :=
  | NO_MEMORY | NO_ADDRESS | OTHER_FORMAT | NOT_2D | DEPTH_WITH_COLOUR | NO_MAP | MULTI_SAMPLE | SEVERAL_LAYERS | BAD_LAYER | BAD_ASPECT
  | SHORT_ROW | SHORT_RANGE | NO_CHAIN | NO_PLACEMENT | RESOLVE_SAMPLES | RESOLVE_SOURCE | NO_ENCODING | PART_OF_SAMPLES | NOT_DEPTH | NOT_COLOUR.

(** A recorded walk; the record's kind is the queue's dispatch. *)
Inductive image_walk :=
  | WriteWalk (c : region_copy)
  | CopyWalk (c : region_copy)
  | ClearWalk (c : region_copy)
  | ResolveWalk (c : region_copy)
  | FillWalk (destination bytes value : Z).

(** What a command buffer keeps of transfers: the words so far, each walk with
    the words before it, and the refusal it ends invalid with. *)
Record cmd_buffer := CmdBuffer { cb_words : Z; cb_copies : list (Z * image_walk); cb_refusal : option refusal }.

Definition cmd_refuse (cb : cmd_buffer) (r : refusal) : cmd_buffer :=
  CmdBuffer (cb_words cb) (cb_copies cb) (match cb_refusal cb with Some r' => Some r' | None => Some r end).

(** Regions in order, until one refuses. *)
Fixpoint record_regions {A : Type} (record : cmd_buffer -> A -> cmd_buffer + cmd_buffer) (regions : list A) (cb : cmd_buffer) : cmd_buffer :=
  match regions with
  | [] => cb
  | r :: regions' => match record cb r with inl cb' => record_regions record regions' cb' | inr cb' => cb' end
  end.

Section Recording.
(** Whether the list of copies can grow. *)
Context (grows : nat -> bool).

Definition record_walk (cb : cmd_buffer) (walk : image_walk) : cmd_buffer + cmd_buffer :=
  if grows (length (cb_copies cb)) then inl (CmdBuffer (cb_words cb) (cb_copies cb ++ [(cb_words cb, walk)]) (cb_refusal cb))
  else inr (cmd_refuse cb NO_MEMORY).

(** ** Uploads: [ps5vk_CmdCopyMemoryToImageKHR] *)

(** [VkDeviceMemoryImageCopyKHR] *)
Record memory_image_copy := MemoryImageCopy {
  mi_address : Z;
  mi_size : Z;
  mi_row_length : Z;
  mi_subresource : subresource;
  mi_x : Z;
  mi_y : Z;
  mi_width : Z;
  mi_height : Z
}.

Definition reverse_bytes (im : image) (texel_bytes : Z) : Z := if fmt_storage_reversed (sh_format (im_shape im)) then texel_bytes else 0.

Definition no_side : copy_side := CopySide 0 0 0 0 0 0 0 0 false false.
Definition linear_side (address pitch : Z) : copy_side := CopySide address pitch 0 0 0 0 0 0 false false.

(** The pitch between the source's rows, computed in 32 bits. *)
Definition upload_pitch (r : memory_image_copy) (texel_bytes : Z) : Z := u32 ((if mi_row_length r =? 0 then mi_width r else mi_row_length r) * texel_bytes).
Definition upload_needed (r : memory_image_copy) (texel_bytes : Z) : Z :=
  if mi_height r =? 0 then 0 else u64 ((mi_height r - 1) * upload_pitch r texel_bytes + mi_width r * texel_bytes).

Definition upload_region (im : image) (cb : cmd_buffer) (r : memory_image_copy) : cmd_buffer + cmd_buffer :=
  let sub := mi_subresource r in
  let sh := im_shape im in
  let tiled := bool_decide (im_storage im <> STORAGE_ROWS) in
  let l := image_level_layout sh (sr_level sub) in
  let level_offset := u64 (ll_offset l + image_layer_bytes im * sr_layer sub) in
  if negb (sr_layer_count sub =? 1) then inr (cmd_refuse cb SEVERAL_LAYERS)
  else if sh_layers sh <=? sr_layer sub then inr (cmd_refuse cb BAD_LAYER)
  else match image_plane_of im (sr_aspect sub) with
  | None => inr (cmd_refuse cb BAD_ASPECT)
  | Some plane =>
      if negb (pl_offset plane =? 0) && (negb (sh_levels sh =? 1) || negb (sh_layers sh =? 1)) then inr (cmd_refuse cb BAD_ASPECT)
      else
        let texel_bytes := pl_element_bytes plane in
        let '(tile_width, tile_height) := if tiled then tile_extent texel_bytes (pl_depth_map plane) (sh_samples sh) else (0, 0) in
        if negb (mi_row_length r =? 0) && (mi_row_length r <? mi_width r) then inr (cmd_refuse cb SHORT_ROW)
        else
          let source_pitch := upload_pitch r texel_bytes in
          let needed := upload_needed r texel_bytes in
          if (mi_address r =? 0) || (needed =? 0) then inl cb
          else if mi_size r <? needed then inr (cmd_refuse cb SHORT_RANGE)
          else if tiled then
            let level_base := image_tiled_layer_level_base im (sr_level sub) (sr_layer sub) in
            if level_base =? UINT64_MAX then inr (cmd_refuse cb NO_CHAIN)
            else record_walk cb (WriteWalk (RegionCopy (mi_address r) source_pitch no_side
                   (CopySide (u64 (im_address im + pl_offset plane + base_tile level_base)) 0 (ll_width l) (base_xor level_base) tile_width tile_height texel_bytes 1 (pl_depth_map plane) true)
                   0 0 (mi_x r) (mi_y r) (mi_width r) (mi_height r) 0 texel_bytes (reverse_bytes im texel_bytes) []))
          else record_walk cb (CopyWalk (RegionCopy 0 0 (linear_side (mi_address r) source_pitch) (linear_side (u64 (im_address im + level_offset)) (ll_pitch l))
                   0 0 (mi_x r) (mi_y r) (mi_width r) (mi_height r) texel_bytes 0 (reverse_bytes im texel_bytes) []))
  end.

Definition copy_memory_to_image (im : image) (regions : list memory_image_copy) (cb : cmd_buffer) : cmd_buffer :=
  match cb_refusal cb, regions with
  | Some _, _ | _, [] => cb
  | None, _ => if im_address im =? 0 then cmd_refuse cb NO_ADDRESS else record_regions (upload_region im) regions cb
  end.

(** ** Readbacks: [ps5vk_CmdCopyImageToBuffer2KHR] *)

(** [VkBufferImageCopy2] *)
Record buffer_image_copy := BufferImageCopy {
  bi_offset : Z;
  bi_row_length : Z;
  bi_subresource : subresource;
  bi_x : Z;
  bi_y : Z;
  bi_width : Z;
  bi_height : Z
}.

Definition readback_region (im : image) (buffer_address : Z) (cb : cmd_buffer) (r : buffer_image_copy) : cmd_buffer + cmd_buffer :=
  let sub := bi_subresource r in
  if negb (sr_layer_count sub =? 1) || negb (sr_layer sub =? 0) then inr (cmd_refuse cb SEVERAL_LAYERS)
  else match image_copy_side im sub with
  | None => inr (cmd_refuse cb NO_PLACEMENT)
  | Some (texel_bytes, side) =>
      let pitch := u64 ((if negb (bi_row_length r =? 0) then bi_row_length r else bi_width r) * texel_bytes) in
      record_walk cb (CopyWalk (RegionCopy 0 0 side (linear_side (u64 (buffer_address + bi_offset r)) pitch)
        (s32 (bi_x r)) (s32 (bi_y r)) 0 0 (bi_width r) (bi_height r) texel_bytes 0 (reverse_bytes im texel_bytes) []))
  end.

(** The image's type is 2D in this model. *)
Definition copy_image_to_buffer (im : image) (buffer_address : Z) (regions : list buffer_image_copy) (cb : cmd_buffer) : cmd_buffer :=
  match cb_refusal cb, regions with
  | Some _, _ | _, [] => cb
  | None, _ => if buffer_address =? 0 then cmd_refuse cb NO_ADDRESS else record_regions (readback_region im buffer_address) regions cb
  end.

(** ** Copies between images *)

(** [struct ps5vk_image_copy], as a copy fills it. *)
Record image_region := ImageRegion {
  ir_source : subresource;
  ir_destination : subresource;
  ir_source_x : Z;
  ir_source_y : Z;
  ir_destination_x : Z;
  ir_destination_y : Z;
  ir_width : Z;
  ir_height : Z
}.

Definition depth_or_stencil (im : image) : bool := fmt_depth (sh_format (im_shape im)) || fmt_stencil (sh_format (im_shape im)).
Definition same_format (a b : image) : bool := fmt_id (sh_format (im_shape a)) =? fmt_id (sh_format (im_shape b)).

(** A tiled image's element and chain have measured maps. *)
Definition transfer_mapped (im : image) : bool :=
  if decide (im_storage im = STORAGE_TILES) then
    let sh := im_shape im in
    let bytes := texel_size sh in
    ((bytes =? 4) || (bytes =? 8) || (bytes =? 16) || (((bytes =? 1) || (bytes =? 2)) && (sh_samples sh =? 1))) &&
    ((sh_levels sh =? 1) || (negb (fmt_depth (sh_format sh)) && match tiled_chain_of sh with Some _ => true | None => false end))
  else true.

(** [ps5vk_image_transfer_check] *)
Definition transfer_check (source destination : image) (one_format : bool) : option refusal :=
  if (im_address source =? 0) || (im_address destination =? 0) then Some NO_ADDRESS
  else if one_format && negb (same_format source destination) then Some OTHER_FORMAT
  else if negb (Bool.eqb (depth_or_stencil source) (depth_or_stencil destination)) || (depth_or_stencil source && negb (same_format source destination)) then Some DEPTH_WITH_COLOUR
  else if negb (transfer_mapped source && transfer_mapped destination) then Some NO_MAP
  else None.

(** [ps5vk_image_region_sides]: the texel's bytes and the two sides. *)
Definition region_sides (source destination : image) (r : image_region) : refusal + (Z * copy_side * copy_side) :=
  let four im := (sh_samples (im_shape im) =? 4) && fmt_depth (sh_format (im_shape im)) && bool_decide (im_storage im = STORAGE_TILES) in
  if negb (four source && four destination) && (negb (sh_samples (im_shape source) =? 1) || negb (sh_samples (im_shape destination) =? 1)) then inl MULTI_SAMPLE
  else if negb (sr_layer_count (ir_source r) =? 1) || negb (sr_layer_count (ir_destination r) =? 1) || negb (sr_layer (ir_source r) =? 0) || negb (sr_layer (ir_destination r) =? 0)
  then inl SEVERAL_LAYERS
  else if negb (sr_aspect (ir_source r) =? sr_aspect (ir_destination r)) then inl BAD_ASPECT
  else match image_copy_side source (ir_source r), image_copy_side destination (ir_destination r) with
  | Some (texel_bytes, source_side), Some (_, destination_side) => inr (texel_bytes, source_side, destination_side)
  | _, _ => inl NO_PLACEMENT
  end.

Definition copy_region (source destination : image) (cb : cmd_buffer) (r : image_region) : cmd_buffer + cmd_buffer :=
  match region_sides source destination r with
  | inl refused => inr (cmd_refuse cb refused)
  | inr (texel_bytes, source_side, destination_side) =>
      record_walk cb (CopyWalk (RegionCopy 0 0 source_side destination_side (s32 (ir_source_x r)) (s32 (ir_source_y r)) (u32 (ir_destination_x r)) (u32 (ir_destination_y r))
        (ir_width r) (ir_height r) texel_bytes 0 0 []))
  end.

(** [ps5vk_cmd_buffer_copy_image], for vkCmdCopyImage and a one-to-one blit. *)
Definition copy_image (source destination : image) (regions : list image_region) (cb : cmd_buffer) : cmd_buffer :=
  match cb_refusal cb, regions with
  | Some _, _ | _, [] => cb
  | None, _ =>
      match transfer_check source destination true with
      | Some refused => cmd_refuse cb refused
      | None => record_regions (copy_region source destination) regions cb
      end
  end.

(** ** Clears *)

(** [VkImageSubresourceRange] *)
Record subresource_range := SubresourceRange { sg_aspect : Z; sg_level : Z; sg_level_count : Z; sg_layer : Z; sg_layer_count : Z }.

(** One level of one aspect, all of it. *)
Definition clear_level (im : image) (aspect : Z) (texel : Bytes) (cb : cmd_buffer) (level : Z) : cmd_buffer + cmd_buffer :=
  match image_copy_side im (Subresource aspect level 0 1) with
  | None => inr (cmd_refuse cb NO_PLACEMENT)
  | Some (texel_bytes, side) =>
      record_walk cb (ClearWalk (RegionCopy 0 0 no_side side 0 0 0 0 (level_width (im_shape im) level) (level_height (im_shape im) level) 0 texel_bytes 0 texel))
  end.

(** The levels of a range, in order; the sum of their first and their number is
    a 32-bit one. *)
Definition range_levels (g : subresource_range) : list Z := seqZ (sg_level g) (u32 (sg_level g + sg_level_count g) - sg_level g).

Fixpoint until_refused {A : Type} (record : cmd_buffer -> A -> cmd_buffer + cmd_buffer) (l : list A) (cb : cmd_buffer) : cmd_buffer + cmd_buffer :=
  match l with
  | [] => inl cb
  | x :: l' => match record cb x with inl cb' => until_refused record l' cb' | inr cb' => inr cb' end
  end.

Definition clear_colour_range (im : image) (texel : Bytes) (cb : cmd_buffer) (g : subresource_range) : cmd_buffer + cmd_buffer :=
  if negb (sg_layer g =? 0) || negb (sg_layer_count g =? 1) then inr (cmd_refuse cb SEVERAL_LAYERS)
  else until_refused (clear_level im (sg_aspect g) texel) (range_levels g) cb.

(** [ps5vk_CmdClearColorImage]; [texel] is the clear value encoded in the
    image's format, or nothing for a format without an encoding. *)
Definition clear_colour_image (im : image) (texel : option Bytes) (ranges : list subresource_range) (cb : cmd_buffer) : cmd_buffer :=
  match cb_refusal cb, ranges with
  | Some _, _ | _, [] => cb
  | None, _ =>
      if depth_or_stencil im then cmd_refuse cb NOT_COLOUR
      else match texel with
           | None => cmd_refuse cb NO_ENCODING
           | Some texel => record_regions (clear_colour_range im texel) ranges cb
           end
  end.

(** The depth and the stencil aspect of a range, each with its own texel. *)
Definition clear_depth_range (im : image) (texel stencil_texel : Bytes) (cb : cmd_buffer) (g : subresource_range) : cmd_buffer + cmd_buffer :=
  let known := Z.lor ASPECT_DEPTH (if fmt_stencil (sh_format (im_shape im)) then ASPECT_STENCIL else 0) in
  if (sg_aspect g =? 0) || negb (u32 (Z.land (sg_aspect g) (Z.lnot known)) =? 0) then inr (cmd_refuse cb BAD_ASPECT)
  else if negb (sg_layer g =? 0) || negb (sg_layer_count g =? 1) then inr (cmd_refuse cb SEVERAL_LAYERS)
  else until_refused (fun cb aspect =>
         if Z.land (sg_aspect g) aspect =? 0 then inl cb
         else until_refused (clear_level im aspect (if aspect =? ASPECT_STENCIL then stencil_texel else texel)) (range_levels g) cb)
       [ASPECT_DEPTH; ASPECT_STENCIL] cb.

(** [ps5vk_CmdClearDepthStencilImage] of an image the driver created. *)
Definition clear_depth_image (im : image) (texel : option Bytes) (stencil : Z) (ranges : list subresource_range) (cb : cmd_buffer) : cmd_buffer :=
  match cb_refusal cb, ranges with
  | Some _, _ | _, [] => cb
  | None, first :: _ =>
      if negb (fmt_depth (sh_format (im_shape im))) then cmd_refuse cb NOT_DEPTH
      else match texel with
           | None => cmd_refuse cb NO_ENCODING
           | Some texel =>
               if sh_samples (im_shape im) =? 4 then
                 if negb (length ranges =? 1)%nat || negb (sg_aspect first =? ASPECT_DEPTH) || negb (sg_level first =? 0) || negb (sg_level_count first =? 1) ||
                    negb (sg_layer first =? 0) || negb (sg_layer_count first =? 1) then cmd_refuse cb PART_OF_SAMPLES
                 else match record_walk cb (FillWalk (im_address im) (im_size im) (le_value (take 4 texel))) with inl cb' | inr cb' => cb' end
               else record_regions (clear_depth_range im texel (Z.land stencil 0xff :: replicate 15 0)) ranges cb
           end
  end.

(** ** Resolves *)

(** A region the loop of [ps5vk_CmdResolveImage2KHR] stops at without a
    refusal is a region the rest are dropped from. *)
Definition resolve_region (source destination : image) (cb : cmd_buffer) (r : image_region) : cmd_buffer + cmd_buffer :=
  match image_copy_side source (ir_source r), image_copy_side destination (ir_destination r) with
  | Some (source_texel_bytes, source_side), Some (destination_texel_bytes, destination_side) =>
      if negb (sr_layer_count (ir_source r) =? 1) || negb (sr_layer (ir_source r) =? 0) || negb (sr_layer_count (ir_destination r) =? 1) || negb (sr_layer (ir_destination r) =? 0)
      then inr (cmd_refuse cb SEVERAL_LAYERS)
      else record_walk cb (ResolveWalk (RegionCopy 0 0 source_side destination_side 0 0 (u32 (ir_destination_x r)) (u32 (ir_destination_y r))
             (ir_width r) (ir_height r) source_texel_bytes destination_texel_bytes 0 []))
  | _, _ => inr cb
  end.

(** [ps5vk_CmdResolveImage2KHR] when the GPU path declines. *)
Definition resolve_image (source destination : image) (regions : list image_region) (cb : cmd_buffer) : cmd_buffer :=
  match cb_refusal cb, regions with
  | Some _, _ | _, [] => cb
  | None, _ =>
      if negb (sh_samples (im_shape source) =? 4) || negb (sh_samples (im_shape destination) =? 1) then cmd_refuse cb RESOLVE_SAMPLES
      else match transfer_check source destination true with
           | Some refused => cmd_refuse (cmd_refuse cb refused) RESOLVE_SOURCE
           | None =>
               if bool_decide (im_storage source <> STORAGE_TILES) || negb (texel_size (im_shape source) =? 4) then cmd_refuse cb RESOLVE_SOURCE
               else record_regions (resolve_region source destination) regions cb
           end
  end.
End Recording.

(** ** Running what was recorded *)

(** The queue's dispatch of a walk ([CopySteps.copy_dispatch]). *)
Definition run_walk (w : image_walk) (m : memory) : memory :=
  match w with
  | WriteWalk c => image_write_execute c m
  | CopyWalk c => image_copy_execute c m
  | ClearWalk c => clear_execute c m
  | ResolveWalk c => resolve_execute c m
  | FillWalk destination bytes value => fill_loop (Z.to_nat (bytes / 4)) destination value m
  end.

Definition run_walks (l : list (Z * image_walk)) (m : memory) : memory := fold_left (fun m w => run_walk (snd w) m) l m.
