(* ===== verification/ImageEffects.v ===== *)
(** * What recorded transfers leave in memory

    An upload puts each texel of its region where the image's maps put it and
    changes nothing else, a readback finds it there, and the two give the bytes
    back.  The walks are those of ImageTransfers, run as ImageCopies runs them,
    on images the driver created and bound. *)

From Stdlib Require Import ZArith Lia.
From stdpp Require Import base numbers list.
From S2P Require Import Prelude Bytes DriverPrelude DriverMemory DirectMemory CopySteps BlitPool XorMaps ImageTiles ImageLayout ImageRuns ImageCopies ImageTransfers.
Open Scope Z_scope.

(** ** A level of a one-sample image *)

(** A row's texels follow each other. *)
Lemma row_runs_in side w h tb x i y : row_side side w h -> 0 < tb -> w * tb <= cs_row_pitch side -> 0 <= x -> 0 <= i -> x + i < w -> 0 <= y < h ->
  image_copy_address side (x + i) y tb 0 = image_copy_address side x y tb 0 + i * tb.
Proof.
  intros [T _ _ _ [W H] A U] TB F X I B Y. assert ((x + i) * tb <= w * tb) by (apply Z.mul_le_mono_nonneg_r; lia). assert (0 <= w * tb) by (apply Z.mul_nonneg_nonneg; lia).
  assert ((y + 1) * cs_row_pitch side <= h * cs_row_pitch side) by (apply Z.mul_le_mono_nonneg_r; lia). apply row_runs; auto; lia.
Qed.

Section Level.
Context (im : image) (sub : subresource) (tb : Z) (side : copy_side).
Context (B : bound_image im) (S1 : sh_samples (im_shape im) = 1) (DP : fmt_depth (sh_format (im_shape im)) = true -> sh_levels (im_shape im) = 1).
Context (Y : sr_layer sub = 0) (L : 0 <= sr_level sub < sh_levels (im_shape im)) (E : image_copy_side im sub = Some (tb, side)).

Abbreviation lw := (level_width (im_shape im) (sr_level sub)).
Abbreviation lh := (level_height (im_shape im) (sr_level sub)).

Lemma plane_bytes p : image_plane_of im (sr_aspect sub) = Some p -> 0 <= pl_element_bytes p <= 16.
Proof.
  intros P. apply image_plane_cases in P. pose proof (shape_texel _ (bound_shape _ B)) as T. unfold texel_size in T.
  destruct P as [(P1 & P2 & ->)|[(P1 & ->)|(P1 & P2 & ->)]]; cbn [pl_element_bytes]; [lia|destruct (fmt_stencil _); lia|lia].
Qed.

Lemma side_shape : exists p, image_plane_of im (sr_aspect sub) = Some p /\ tb = pl_element_bytes p /\ cs_element_bytes side = tb /\ cs_samples side = 1 /\ cs_depth side = pl_depth_map p /\ 1 <= tb <= 16.
Proof.
  pose proof E as E0. unfold image_copy_side in E0. destruct (image_plane_of im (sr_aspect sub)) as [p|] eqn:P; [|done]. exists p. pose proof (plane_bytes p P) as PB.
  rewrite S1 in E0. cbn [Z.eqb Pos.eqb negb andb] in E0. destruct (Z.eqb_spec (pl_element_bytes p) 0); [done|].
  repeat case_match; simplify_eq; cbn [cs_element_bytes cs_samples cs_depth]; rewrite u32_small by lia; repeat split; try done; lia.
Qed.

Lemma side_measured : measured im side.
Proof.
  destruct side_shape as (p & P & T & EB & SM & D & _). split; [lia|]. rewrite D. intros DM. destruct (bound_storage _ B) as (tp & us & _ & _ & _ & SS).
  apply image_plane_cases in P. destruct P as [(P1 & P2 & ->)|[(P1 & ->)|(P1 & P2 & ->)]]; cbn [pl_depth_map] in DM; [done|auto|now apply SS].
Qed.

Lemma level_slots : side_slots side lw lh (im_address im) (im_address im + im_size im).
Proof. apply (samples_apart im sub tb side); auto using side_measured. Qed.

Lemma texel_slot x y : texel_at side tb x y = slot side x y 0.
Proof. destruct side_shape as (p & P & T & EB & _). unfold texel_at, slot. now rewrite EB. Qed.

Lemma texel_inside x y : 0 <= x < lw -> 0 <= y < lh -> im_address im <= texel_at side tb x y /\ texel_at side tb x y + tb <= im_address im + im_size im.
Proof.
  intros X Yb. destruct side_shape as (p & P & T & EB & SM & _). rewrite texel_slot. pose proof (slots_inside _ _ _ _ _ level_slots x y 0 ltac:(constructor; lia)). lia.
Qed.

Lemma texels_apart x y x' y' a : 0 <= x < lw -> 0 <= y < lh -> 0 <= x' < lw -> 0 <= y' < lh -> in_texel tb (texel_at side tb x y) a -> in_texel tb (texel_at side tb x' y') a -> x = x' /\ y = y'.
Proof.
  intros X Yb X' Y' I I'. destruct side_shape as (p & P & T & EB & SM & _). rewrite !texel_slot in *. unfold in_texel in *.
  destruct (decide ((x, y, 0) = (x', y', 0))) as [Q|Q]; [now injection Q|].
  pose proof (slots_apart _ _ _ _ _ level_slots x y 0 x' y' 0 ltac:(constructor; lia) ltac:(constructor; lia) Q). lia.
Qed.

Lemma level_extent : lw <= 2 ^ 16 /\ lh <= 2 ^ 16.
Proof. destruct (level_bounds _ (sr_level sub) (bound_shape _ B) ltac:(lia)) as [W H]. unfold PS5VK_MAX_EXTENT_2D in *. lia. Qed.

(** The queue's runs on the side. *)
Definition side_run : Z := copy_side_run_bytes side tb / tb.

Lemma tiled_runs : im_storage im = STORAGE_TILES -> copy_side_run_bytes side tb = side_run * tb /\ 1 <= side_run <= 8 /\ copy_side_run_bytes side tb ∈ [2; 8; 16] /\
  Z.land (cs_tile_xor side) (copy_side_run_bytes side tb - 1) = 0 /\ runs_of (texel_at side tb) tb lw lh side_run.
Proof.
  intros T. destruct side_shape as (p & P & _ & EB & SM & _). destruct (tiled_side_mapped im sub tb side B T Y L E side_measured) as (M & _).
  destruct (mapped_runs side lw lh M SM) as (R1 & R2 & R3 & R4). rewrite EB in *. unfold side_run. split; [done|]. split; [done|]. split; [done|]. split.
  - rewrite !elem_of_cons, elem_of_nil in R3. pose proof (mapped_xor_aligned _ _ _ M) as X.
    destruct R3 as [-> |[-> |[-> |[]]]]; [change (2 - 1) with (2 ^ 1 - 1)|change (8 - 1) with (2 ^ 3 - 1)|change (16 - 1) with (2 ^ 4 - 1)]; rewrite land_pow2_pred by lia.
    + apply (mod_16_element 2); [repeat (left || right)|done].
    + apply (mod_16_element 8); [repeat (left || right)|done].
    + done.
  - intros x i y X I N W H. rewrite !texel_slot. now apply R4.
Qed.

(** The texels of a run that begins at a multiple of the side's, from a column
    that is one, follow each other; on rows any texels do. *)
Lemma run_follows n column x i y : (im_storage im = STORAGE_TILES -> n = side_run /\ column mod n = 0) -> 0 <= column -> 0 <= x -> x mod n = 0 -> 0 <= i < n -> column + x + i < lw -> 0 <= y < lh ->
  texel_at side tb (column + (x + i)) y = texel_at side tb (column + x) y + i * tb.
Proof.
  intros A C X M I W Yb. rewrite Z.add_assoc. destruct side_shape as (p & _ & _ & EB & _ & _ & T). destruct (decide (im_storage im = STORAGE_TILES)) as [ST|ST].
  - destruct (A ST) as [-> CM]. destruct (tiled_runs ST) as (_ & RN & _ & _ & RU). apply RU; try lia. rewrite Z.add_mod, CM, M by lia. rewrite Z.mod_0_l by lia. lia.
  - assert (SR : im_storage im = STORAGE_ROWS) by (destruct (im_storage im); done). destruct (row_side_of im sub tb side B SR L E) as (RS & _).
    destruct (stored_covers _ _ (bound_shape _ B) L) as [SW SH]. pose proof (row_fits _ _ _ RS) as RFi. rewrite EB in RFi.
    apply (row_runs_in side (stored_width (im_shape im) (sr_level sub)) (stored_height (im_shape im) (sr_level sub))); auto; lia.
Qed.
End Level.

(** ** The sides of an upload *)

(** A chain's levels halve exactly, so their stored and their own extents agree. *)
Definition chain_halves (chain : tiled_chain) : bool :=
  forallb (fun level => Z.max (div_round_up64 (tc_width chain) (Z.shiftl 1 level)) 1 =? Z.max (Z.shiftr (tc_width chain) level) 1) (seqZ 0 (tc_levels chain)).

Lemma chains_halve : forallb chain_halves ps5vk_tiled_chains = true.
Proof. vm_compute. reflexivity. Qed.

Lemma chain_stored sh chain level : find (chain_matches sh) ps5vk_tiled_chains = Some chain -> 0 <= level < sh_levels sh -> stored_width sh level = level_width sh level.
Proof.
  intros F L. destruct (chain_fits_spec _ _ F) as ((M1 & M2 & M3) & _). apply find_some in F as [I _]. pose proof chains_halve as C. rewrite forallb_forall in C. specialize (C _ I).
  unfold chain_halves in C. rewrite forallb_forall in C. specialize (C level). rewrite M1, M3 in C. apply Z.eqb_eq, C. apply list_elem_of_In, elem_of_seqZ. lia.
Qed.

(** The side an upload into tiles records. *)
Definition upload_side (im : image) (sub : subresource) (plane : image_plane) : copy_side :=
  let level_base := image_tiled_layer_level_base im (sr_level sub) (sr_layer sub) in
  let '(tile_width, tile_height) := tile_extent (pl_element_bytes plane) (pl_depth_map plane) (sh_samples (im_shape im)) in
  CopySide (u64 (im_address im + pl_offset plane + base_tile level_base)) 0 (ll_width (image_level_layout (im_shape im) (sr_level sub))) (base_xor level_base)
    tile_width tile_height (pl_element_bytes plane) 1 (pl_depth_map plane) true.

Section UploadSide.
Context (im : image) (sub : subresource) (tb : Z) (side : copy_side).
Context (B : bound_image im) (S1 : sh_samples (im_shape im) = 1) (DP : fmt_depth (sh_format (im_shape im)) = true -> sh_levels (im_shape im) = 1).
Context (Y : sr_layer sub = 0) (L : 0 <= sr_level sub < sh_levels (im_shape im)) (E : image_copy_side im sub = Some (tb, side)).

(** It is the side a readback or a copy takes. *)
Lemma upload_side_tiled p : im_storage im = STORAGE_TILES -> image_plane_of im (sr_aspect sub) = Some p ->
  image_tiled_layer_level_base im (sr_level sub) (sr_layer sub) <> UINT64_MAX /\ upload_side im sub p = side.
Proof.
  intros T P. pose proof E as E0. unfold image_copy_side in E0. rewrite P in E0. destruct (pl_element_bytes p =? 0); [done|].
  rewrite S1 in E0. cbn [Z.eqb Pos.eqb negb andb] in E0. match type of E0 with (if ?c then None else _) = _ => destruct c eqn:PO; [done|] end. rewrite decide_True in E0 by done.
  match type of E0 with (if ?c then None else _) = _ => destruct c; [done|] end. unfold upload_side. rewrite S1.
  destruct (tile_extent (pl_element_bytes p) (pl_depth_map p) 1) as [tw th]. rewrite Y in *. set (sh := im_shape im) in *. pose proof (bound_shape _ B) as S. fold sh in S.
  assert (BE : image_tiled_layer_level_base im (sr_level sub) 0 = image_tiled_level_base sh (sr_level sub)) by reflexivity. rewrite BE in *.
  destruct (level_bounds sh (sr_level sub) S ltac:(lia)) as [W _]. unfold PS5VK_MAX_EXTENT_2D in W. cbn [ll_width image_level_layout].
  destruct (Z.eqb_spec (sh_levels sh) 1) as [V|V]; cbn [negb] in E0.
  - assert (L0 : sr_level sub = 0) by lia. rewrite L0 in *. unfold image_tiled_level_base. rewrite V. cbn [Z.eqb Pos.eqb andb]. split; [discriminate|].
    rewrite Z.mul_0_r in E0. change (u64 0) with 0 in E0. replace (if 1 <? sh_layers sh then 0 else 0) with 0 in E0 by (destruct (1 <? sh_layers sh); done).
    repeat match type of E0 with (if ?c then None else _) = _ => destruct c; [done|] end. injection E0 as _ <-. f_equal.
    pose proof (shape_width _ S) as SW. unfold PS5VK_MAX_EXTENT_2D in SW. unfold stored_width, div_round_up64. rewrite Z.shiftl_0_r, u64_small, Z.div_1_r by lia. rewrite u32_small; lia.
  - destruct (image_tiled_level_base sh (sr_level sub) =? UINT64_MAX) eqn:BU; [done|]. apply Z.eqb_neq in BU. split; [done|].
    assert (O : pl_offset p = 0) by (destruct (Z.eqb_spec (pl_offset p) 0); [done|]; destruct (Z.eqb_spec (sh_levels sh) 1); [done|discriminate]).
    rewrite O, Z.add_0_r. injection E0 as _ <-. f_equal.
    unfold image_tiled_level_base in BU. destruct (Z.eqb_spec (sh_levels sh) 1); [done|]. rewrite andb_false_r in BU.
    destruct (tiled_chain_of sh) as [chain|] eqn:C; [|done]. unfold tiled_chain_of in C. match type of C with (if ?c then None else _) = _ => destruct c; [done|] end.
    now rewrite (chain_stored sh chain).
Qed.
End UploadSide.

(** ** Uploads *)

Definition appended (cb : cmd_buffer) (w : image_walk) : cmd_buffer := CmdBuffer (cb_words cb) (cb_copies cb ++ [(cb_words cb, w)]) (cb_refusal cb).

Lemma record_walk_inl grows cb w cb' : record_walk grows cb w = inl cb' -> cb' = appended cb w.
Proof. unfold record_walk. destruct (grows _); [|done]. now injection 1. Qed.

Definition upload_write (im : image) (u : memory_image_copy) (tb : Z) (side : copy_side) : region_copy :=
  RegionCopy (mi_address u) (upload_pitch u tb) no_side side 0 0 (mi_x u) (mi_y u) (mi_width u) (mi_height u) 0 tb (reverse_bytes im tb) [].
Definition upload_copy (im : image) (u : memory_image_copy) (tb : Z) (side : copy_side) : region_copy :=
  RegionCopy 0 0 (linear_side (mi_address u) (upload_pitch u tb)) side 0 0 (mi_x u) (mi_y u) (mi_width u) (mi_height u) tb 0 (reverse_bytes im tb) [].

(** What an application has to give (Vulkan's valid usage): a region of the
    level, and a source the region's rows lie in, apart from the image. *)
Record upload_valid (im : image) (u : memory_image_copy) : Prop := {
  up_layer : sr_layer (mi_subresource u) = 0;
  up_level : 0 <= sr_level (mi_subresource u) < sh_levels (im_shape im);
  up_x : 0 <= mi_x u /\ 0 < mi_width u /\ mi_x u + mi_width u <= level_width (im_shape im) (sr_level (mi_subresource u));
  up_y : 0 <= mi_y u /\ 0 < mi_height u /\ mi_y u + mi_height u <= level_height (im_shape im) (sr_level (mi_subresource u));
  up_pitch : 0 <= mi_row_length u < 2 ^ 28;
  up_range : 0 < mi_address u /\ mi_address u + mi_size u <= PS5VK_GPU_ADDRESS_LIMIT;
  up_apart : mi_address u + mi_size u <= im_address im \/ im_address im + im_size im <= mi_address u
}.

(** Where an upload reads a texel. *)
Definition uploaded_from (u : memory_image_copy) (tb x y : Z) : Z := mi_address u + y * upload_pitch u tb + x * tb.

Lemma row_length_ok l w : negb (l =? 0) && (l <? w) = false -> l = 0 \/ w <= l.
Proof. destruct (Z.eqb_spec l 0), (Z.ltb_spec l w); cbn; auto; done. Qed.

Section Upload.
Context (grows : nat -> bool) (im : image) (u : memory_image_copy) (tb : Z) (side : copy_side).
Context (B : bound_image im) (S1 : sh_samples (im_shape im) = 1) (DP : fmt_depth (sh_format (im_shape im)) = true -> sh_levels (im_shape im) = 1).
Context (U : upload_valid im u) (E : image_copy_side im (mi_subresource u) = Some (tb, side)).

Abbreviation sub := (mi_subresource u).

Lemma upload_tb : 1 <= tb <= 16.
Proof. destruct (side_shape im sub tb side B S1 E) as (p & _ & _ & _ & _ & _ & T). exact T. Qed.

(** The source's rows. *)
Lemma upload_rows : 0 < upload_pitch u tb < 2 ^ 32 /\ (mi_row_length u = 0 \/ mi_width u <= mi_row_length u -> mi_width u * tb <= upload_pitch u tb) /\
  upload_needed u tb = (mi_height u - 1) * upload_pitch u tb + mi_width u * tb.
Proof.
  destruct U as [Y L (X1 & X2 & X3) (Y1 & Y2 & Y3) P R A]. pose proof upload_tb as T. destruct (level_extent im sub B L) as [W H].
  assert (PB : 0 < upload_pitch u tb < 2 ^ 32 /\ (mi_row_length u = 0 \/ mi_width u <= mi_row_length u -> mi_width u * tb <= upload_pitch u tb)).
  { unfold upload_pitch. destruct (Z.eqb_spec (mi_row_length u) 0) as [Z0|Z0]; rewrite u32_small by nia; (split; [nia|intros [|]; nia]). }
  split; [apply PB|split; [apply PB|]]. unfold upload_needed. destruct (Z.eqb_spec (mi_height u) 0); [lia|]. destruct PB as [PB _]. apply u64_small. nia.
Qed.

(** What a region that is not refused records. *)
Lemma upload_recorded cb cb' : upload_region grows im cb u = inl cb' -> upload_needed u tb <= mi_size u /\ mi_width u * tb <= upload_pitch u tb /\
  cb' = appended cb (if decide (im_storage im = STORAGE_TILES) then WriteWalk (upload_write im u tb side) else CopyWalk (upload_copy im u tb (linear_side (cs_address side) (cs_row_pitch side)))).
Proof.
  intros Q. destruct U as [Y L (X1 & X2 & X3) (Y1 & Y2 & Y3) P (R1 & R2) A]. destruct (side_shape im sub tb side B S1 E) as (p & PL & PT & EB & SM & D & T).
  destruct upload_rows as (UP & UW & UN). unfold upload_region in Q. rewrite PL in Q.
  repeat match type of Q with (if ?c then inr _ else _) = _ => let C := fresh "C" in destruct c eqn:C; [done|] end. rewrite <- PT in Q.
  assert (NZ : (mi_address u =? 0) || (upload_needed u tb =? 0) = false) by (apply orb_false_iff; split; apply Z.eqb_neq; nia).
  assert (RL : mi_row_length u = 0 \/ mi_width u <= mi_row_length u -> upload_needed u tb <= mi_size u ->
    upload_needed u tb <= mi_size u /\ mi_width u * tb <= upload_pitch u tb) by auto.
  destruct (decide (im_storage im = STORAGE_TILES)) as [ST|ST].
  - destruct (upload_side_tiled im sub tb side B S1 Y L E p ST PL) as [LB US]. rewrite bool_decide_true in Q by (now rewrite ST).
    unfold upload_side in US. rewrite <- PT in US. destruct (tile_extent tb (pl_depth_map p) (sh_samples (im_shape im))) as [tw th].
    destruct (negb (mi_row_length u =? 0) && (mi_row_length u <? mi_width u)) eqn:SR; [done|]. rewrite NZ in Q. destruct (mi_size u <? upload_needed u tb) eqn:SZ; [done|].
    destruct (_ =? UINT64_MAX) in Q; [done|]. rewrite US in Q. apply record_walk_inl in Q as ->. apply Z.ltb_ge in SZ. destruct (RL (row_length_ok _ _ SR) SZ) as [G1 G2]. split; [exact G1|]. split; [exact G2|done].
  - assert (SR0 : im_storage im = STORAGE_ROWS) by (destruct (im_storage im); done). rewrite bool_decide_false in Q by (now rewrite SR0).
    destruct (negb (mi_row_length u =? 0) && (mi_row_length u <? mi_width u)) eqn:SR; [done|]. rewrite NZ in Q. destruct (mi_size u <? upload_needed u tb) eqn:SZ; [done|].
    apply record_walk_inl in Q as ->. apply Z.ltb_ge in SZ. destruct (RL (row_length_ok _ _ SR) SZ) as [G1 G2]. split; [exact G1|]. split; [exact G2|].
    destruct (row_side_of im sub tb side B SR0 L E) as (_ & SE & _). pose proof (f_equal cs_address SE) as CA. pose proof (f_equal cs_row_pitch SE) as CP. cbn [cs_address cs_row_pitch] in CA, CP.
    unfold upload_copy. rewrite Y, Z.mul_0_r, Z.add_0_r, CP. do 5 f_equal. rewrite CA. destruct (row_levels_inside _ (bound_shape _ B) _ L) as (O1 & O2 & O3).
    pose proof (bound_range _ B) as [A1 A2]. unfold PS5VK_GPU_ADDRESS_LIMIT in A2. destruct (row_side_slots im sub tb side B SR0 L E) as (_ & FI). destruct (row_level_bytes_spec _ (bound_shape _ B) _ L) as [_ RB].
    rewrite (u64_small (ll_offset _)) by lia. rewrite u64_small; lia.
Qed.

(** The walk of an upload. *)
Definition upload_walk : image_walk :=
  if decide (im_storage im = STORAGE_TILES) then WriteWalk (upload_write im u tb side) else CopyWalk (upload_copy im u tb (linear_side (cs_address side) (cs_row_pitch side))).

Context (UN : upload_needed u tb <= mi_size u) (UW : mi_width u * tb <= upload_pitch u tb).

Abbreviation to_ := (fun x y => texel_at side tb (mi_x u + x) (mi_y u + y)).

Lemma upload_source x y : in_region (mi_width u) (mi_height u) x y -> mi_address u <= uploaded_from u tb x y /\ uploaded_from u tb x y + tb <= mi_address u + mi_size u.
Proof.
  intros [X Yb]. destruct upload_rows as (UP & _ & Q). rewrite Q in UN. pose proof upload_tb as T. unfold uploaded_from.
  assert ((x + 1) * tb <= mi_width u * tb) by nia. assert (y * upload_pitch u tb <= (mi_height u - 1) * upload_pitch u tb) by nia. nia.
Qed.

Lemma upload_to_apart x r x' r' a : in_region (mi_width u) (mi_height u) x r -> in_region (mi_width u) (mi_height u) x' r' -> in_texel tb (to_ x r) a -> in_texel tb (to_ x' r') a -> x = x' /\ r = r'.
Proof.
  intros [X R] [X' R'] I I'. destruct U as [Y L (X1 & X2 & X3) (Y1 & Y2 & Y3) P _ A].
  destruct (texels_apart im sub tb side B S1 DP Y L E (mi_x u + x) (mi_y u + r) (mi_x u + x') (mi_y u + r') a); auto; lia.
Qed.

Lemma upload_from_apart x r x' r' a : in_region (mi_width u) (mi_height u) x r -> in_region (mi_width u) (mi_height u) x' r' -> in_texel tb (uploaded_from u tb x r) a -> in_texel tb (to_ x' r') a -> False.
Proof.
  intros I [X' R'] F T. pose proof (upload_source x r I). destruct U as [Y L (X1 & X2 & X3) (Y1 & Y2 & Y3) P _ A]. unfold in_texel in *.
  pose proof (texel_inside im sub tb side B S1 DP Y L E (mi_x u + x') (mi_y u + r') ltac:(lia) ltac:(lia)). lia.
Qed.

Lemma upload_fits : region_fits (level_width (im_shape im) (sr_level sub)) (level_height (im_shape im) (sr_level sub)) tb (mi_x u) (mi_y u) (mi_width u) (mi_height u).
Proof.
  destruct U as [Y L (X1 & X2 & X3) (Y1 & Y2 & Y3) P R A]. pose proof upload_tb. destruct (level_extent im sub B L). constructor; lia.
Qed.

Lemma upload_tiles_moved m : im_storage im = STORAGE_TILES ->
  moved (mi_width u) (mi_height u) tb (reverse_bytes im tb) (uploaded_from u tb) to_ (fun _ _ => True) m (image_write_execute (upload_write im u tb side) m).
Proof.
  intros T. destruct U as [Y L (X1 & X2 & X3) (Y1 & Y2 & Y3) P (R1 & R2) A]. destruct upload_rows as (UP & _ & Q). pose proof UN as UN'. rewrite Q in UN'. pose proof upload_tb as TB.
  destruct (tiled_runs im sub tb side B S1 DP Y L E T) as (RB & RN & RI & RX & RU). set (c := upload_write im u tb side). destruct (level_extent im sub B L) as [W H].
  assert (WR : write_run_texels (rc_destination_side c) (rc_destination_texel_bytes c) = side_run tb side).
  { subst c. unfold write_run_texels. cbn [rc_destination_side rc_destination_texel_bytes upload_write]. rewrite RX.
    rewrite (proj2 (Z.eqb_neq _ UINT64_MAX)), (proj2 (Z.leb_le _ _)) by (rewrite ?RB; unfold UINT64_MAX; nia). cbn [negb andb Z.eqb].
    fold (side_run tb side). apply u32_small. lia. }
  apply (write_moved c (level_width (im_shape im) (sr_level sub)) (level_height (im_shape im) (sr_level sub))); rewrite ?WR; try exact upload_fits; try exact upload_to_apart; try exact upload_from_apart; try exact RU;
    subst c; cbn [rc_source rc_source_pitch rc_height rc_width rc_destination_texel_bytes upload_write]; unfold PS5VK_GPU_ADDRESS_LIMIT in R2; try lia.
Qed.


Lemma upload_rows_moved m : im_storage im = STORAGE_ROWS ->
  moved (mi_width u) (mi_height u) tb (reverse_bytes im tb) (uploaded_from u tb) to_ (fun _ _ => True) m (image_copy_execute (upload_copy im u tb (linear_side (cs_address side) (cs_row_pitch side))) m).
Proof.
  intros R. destruct U as [Y L (X1 & X2 & X3) (Y1 & Y2 & Y3) P (R1 & R2) A]. destruct upload_rows as (UP & _ & Q). pose proof UN as UN'. rewrite Q in UN'. pose proof upload_tb as TB.
  destruct (level_extent im sub B L) as [W H]. destruct (row_side_of im sub tb side B R L E) as (RS & SE & RB & RF). destruct (stored_covers _ _ (bound_shape _ B) L) as [SW SH].
  pose proof (bound_range _ B) as [A1 A2]. unfold PS5VK_GPU_ADDRESS_LIMIT in *. set (c := upload_copy im u tb (linear_side (cs_address side) (cs_row_pitch side))).
  assert (N : copy_run_texels c = mi_width u).
  { unfold c, copy_run_texels, upload_copy, linear_side, copy_side_run_bytes. cbn [rc_source_side rc_destination_side cs_tiled negb rc_width]. rewrite Z.min_id, Z.eqb_refl. lia. }
  assert (TO : forall x y, 0 <= x < mi_width u -> 0 <= y < mi_height u -> written_at c tb x y = texel_at side tb (mi_x u + x) (mi_y u + y)).
  { intros x y X Yb. unfold written_at, texel_at, image_copy_address. rewrite (row_tiled _ _ _ RS). reflexivity. }
  assert (FR : forall x y, 0 <= x < mi_width u -> 0 <= y < mi_height u -> read_at c tb x y = uploaded_from u tb x y).
  { intros x y X Yb. pose proof (upload_source x y ltac:(split; lia)). unfold read_at, texel_at, image_copy_address, uploaded_from in *. cbn [c upload_copy linear_side rc_source_side cs_tiled cs_address cs_row_pitch rc_source_x rc_source_y].
    rewrite !Z.add_0_l, !(u64_small x), !(u64_small y), u64_small by lia. lia. }
  assert (G : moved (mi_width u) (mi_height u) tb (reverse_bytes im tb) (read_at c tb) (written_at c tb) (fun _ _ => True) m (image_copy_execute c m)).
  { apply (copy_moved c (mi_width u) (mi_height u) (level_width (im_shape im) (sr_level sub)) (level_height (im_shape im) (sr_level sub))).
    - constructor; cbn [c upload_copy rc_source_x rc_source_y rc_width rc_height rc_source_texel_bytes]; lia.
    - exact upload_fits.
    - rewrite N. lia.
    - rewrite N. cbn [c upload_copy rc_width rc_height rc_source_texel_bytes]. intros x i y X M I B' Yb. fold c. rewrite !FR by lia. unfold uploaded_from. lia.
    - rewrite N. cbn [c upload_copy rc_width rc_height rc_source_texel_bytes]. intros x i y X M I B' Yb. fold c. rewrite !TO by lia.
      apply (run_follows im sub tb side B S1 DP Y L E (mi_width u)); try lia. congruence.
    - cbn [c upload_copy rc_width rc_height rc_source_texel_bytes]. intros x r x' r' a [I1 I2] [I1' I2']. fold c. rewrite !TO by done. apply upload_to_apart; split; done.
    - cbn [c upload_copy rc_width rc_height rc_source_texel_bytes]. intros x r x' r' a [I1 I2] [I1' I2']. fold c. rewrite TO, FR by done. apply upload_from_apart; split; done. }
  destruct G as [GI GO]. split.
  - intros x y j [I1 I2] D J. rewrite <- (TO x y), <- (FR x y) by done. apply GI; [split; done|done|done].
  - intros a N'. apply GO. intros x y [I1 I2] D. rewrite TO by done. apply N'; [split; done|done].
Qed.

Lemma upload_moved m : moved (mi_width u) (mi_height u) tb (reverse_bytes im tb) (uploaded_from u tb) to_ (fun _ _ => True) m (run_walk upload_walk m).
Proof.
  unfold upload_walk. destruct (decide (im_storage im = STORAGE_TILES)) as [T|T]; [now apply upload_tiles_moved|]. apply upload_rows_moved. now destruct (im_storage im).
Qed.
End Upload.

(** ** Readbacks *)

Definition readback_pitch (r : buffer_image_copy) (tb : Z) : Z := u64 ((if negb (bi_row_length r =? 0) then bi_row_length r else bi_width r) * tb).
Definition readback_copy (im : image) (buffer : Z) (r : buffer_image_copy) (tb : Z) (side : copy_side) : region_copy :=
  RegionCopy 0 0 side (linear_side (u64 (buffer + bi_offset r)) (readback_pitch r tb)) (s32 (bi_x r)) (s32 (bi_y r)) 0 0 (bi_width r) (bi_height r) tb 0 (reverse_bytes im tb) [].

(** Where a readback puts a texel. *)
Definition read_to (buffer : Z) (r : buffer_image_copy) (tb x y : Z) : Z := buffer + bi_offset r + y * readback_pitch r tb + x * tb.

(** Vulkan's valid usage, the region's rows apart from the image; [buffer_end]
    is the end of the buffer's bytes. *)
Record readback_valid (im : image) (buffer buffer_end : Z) (r : buffer_image_copy) (tb : Z) : Prop := {
  rb_level : 0 <= sr_level (bi_subresource r) < sh_levels (im_shape im);
  rb_x : 0 <= bi_x r /\ 0 < bi_width r /\ bi_x r + bi_width r <= level_width (im_shape im) (sr_level (bi_subresource r));
  rb_y : 0 <= bi_y r /\ 0 < bi_height r /\ bi_y r + bi_height r <= level_height (im_shape im) (sr_level (bi_subresource r));
  rb_pitch : bi_row_length r = 0 \/ bi_width r <= bi_row_length r < 2 ^ 32;
  rb_range : 0 < buffer /\ 0 <= bi_offset r /\ read_to buffer r tb (bi_width r) (bi_height r - 1) <= buffer_end <= PS5VK_GPU_ADDRESS_LIMIT;
  rb_apart : buffer_end <= im_address im \/ im_address im + im_size im <= buffer
}.

Lemma s32_small v : 0 <= v < 2 ^ 31 -> s32 v = v.
Proof. intros V. unfold s32. rewrite u32_small by lia. destruct (Z.ltb_spec v (2 ^ 31)); lia. Qed.

Section Readback.
Context (grows : nat -> bool) (im : image) (buffer buffer_end : Z) (r : buffer_image_copy) (tb : Z) (side : copy_side).
Context (B : bound_image im) (S1 : sh_samples (im_shape im) = 1) (DP : fmt_depth (sh_format (im_shape im)) = true -> sh_levels (im_shape im) = 1).
Context (V : readback_valid im buffer buffer_end r tb) (E : image_copy_side im (bi_subresource r) = Some (tb, side)).

Abbreviation sub := (bi_subresource r).

Lemma readback_recorded cb cb' : readback_region grows im buffer cb r = inl cb' -> sr_layer sub = 0 /\ cb' = appended cb (CopyWalk (readback_copy im buffer r tb side)).
Proof.
  unfold readback_region. destruct (_ || _) eqn:C; [done|]. apply orb_false_iff in C as [_ C]. rewrite E. intros Q. apply record_walk_inl in Q as ->.
  split; [|done]. now apply negb_false_iff, Z.eqb_eq in C.
Qed.

Context (Y : sr_layer sub = 0) (AL : im_storage im = STORAGE_TILES -> bi_x r mod side_run tb side = 0).

Abbreviation from_ := (fun x y => texel_at side tb (bi_x r + x) (bi_y r + y)).

Lemma readback_tb : 1 <= tb <= 16.
Proof. destruct (side_shape im sub tb side B S1 E) as (p & _ & _ & _ & _ & _ & T). exact T. Qed.

Lemma readback_pitch_ok : bi_width r * tb <= readback_pitch r tb.
Proof.
  destruct V as [L (X1 & X2 & X3) (Y1 & Y2 & Y3) P _ _]. pose proof readback_tb as T. destruct (level_extent im sub B L) as [W H].
  unfold readback_pitch. destruct (Z.eqb_spec (bi_row_length r) 0); cbn [negb]; rewrite u64_small by nia; nia.
Qed.

Lemma readback_place x y : in_region (bi_width r) (bi_height r) x y -> buffer <= read_to buffer r tb x y /\ read_to buffer r tb x y + tb <= buffer_end.
Proof.
  intros [X Yb]. pose proof readback_pitch_ok as PO. pose proof readback_tb as T. destruct V as [_ _ _ _ (R1 & R2 & R3) _]. unfold read_to in *.
  assert (0 <= x * tb) by (apply Z.mul_nonneg_nonneg; lia). assert ((x + 1) * tb <= bi_width r * tb) by (apply Z.mul_le_mono_nonneg_r; lia).
  assert (0 <= bi_width r * tb) by (apply Z.mul_nonneg_nonneg; lia). assert (0 <= y * readback_pitch r tb) by (apply Z.mul_nonneg_nonneg; lia).
  assert (y * readback_pitch r tb <= (bi_height r - 1) * readback_pitch r tb) by (apply Z.mul_le_mono_nonneg_r; lia). lia.
Qed.

Lemma readback_to_apart x q x' q' a : in_region (bi_width r) (bi_height r) x q -> in_region (bi_width r) (bi_height r) x' q' ->
  in_texel tb (read_to buffer r tb x q) a -> in_texel tb (read_to buffer r tb x' q') a -> x = x' /\ q = q'.
Proof.
  intros [X Q] [X' Q'] I I'. pose proof readback_pitch_ok as PO. pose proof readback_tb as T. unfold read_to, in_texel in *. set (pitch := readback_pitch r tb) in *.
  assert (G : forall x, 0 <= x < bi_width r -> 0 <= x * tb /\ (x + 1) * tb <= pitch).
  { intros v R. split; [apply Z.mul_nonneg_nonneg; lia|]. assert ((v + 1) * tb <= bi_width r * tb) by (apply Z.mul_le_mono_nonneg_r; lia). lia. }
  destruct (G _ X), (G _ X'). assert (R : q = q'); [|subst q'; split; [|done]].
  - destruct (Z.lt_trichotomy q q') as [O|[O|O]]; [|done|].
    + assert ((q + 1) * pitch <= q' * pitch) by (apply Z.mul_le_mono_nonneg_r; lia). lia.
    + assert ((q' + 1) * pitch <= q * pitch) by (apply Z.mul_le_mono_nonneg_r; lia). lia.
  - destruct (Z.lt_trichotomy x x') as [O|[O|O]]; [|done|].
    + assert ((x + 1) * tb <= x' * tb) by (apply Z.mul_le_mono_nonneg_r; lia). lia.
    + assert ((x' + 1) * tb <= x * tb) by (apply Z.mul_le_mono_nonneg_r; lia). lia.
Qed.

Lemma readback_from_apart x q x' q' a : in_region (bi_width r) (bi_height r) x q -> in_region (bi_width r) (bi_height r) x' q' -> in_texel tb (from_ x q) a -> in_texel tb (read_to buffer r tb x' q') a -> False.
Proof.
  intros [X Q] I F T. pose proof (readback_place x' q' I). destruct V as [L (X1 & X2 & X3) (Y1 & Y2 & Y3) P _ A]. unfold in_texel in *.
  pose proof (texel_inside im sub tb side B S1 DP Y L E (bi_x r + x) (bi_y r + q) ltac:(lia) ltac:(lia)). lia.
Qed.

(** The texels of a run follow each other in the image. *)
Lemma readback_run n x i y : n = (if decide (im_storage im = STORAGE_TILES) then side_run tb side else bi_width r) ->
  0 <= x -> x mod n = 0 -> 0 <= i < n -> x + i < bi_width r -> 0 <= y < bi_height r -> from_ (x + i) y = from_ x y + i * tb.
Proof.
  intros N X M I W Yb. destruct V as [L (X1 & X2 & X3) (Y1 & Y2 & Y3) P _ A]. apply (run_follows im sub tb side B S1 DP Y L E n); try lia.
  intros ST. rewrite decide_True in N by done. subst n. auto.
Qed.

Lemma readback_run_texels : copy_run_texels (readback_copy im buffer r tb side) = if decide (im_storage im = STORAGE_TILES) then side_run tb side else bi_width r.
Proof.
  destruct V as [L (X1 & X2 & X3) (Y1 & Y2 & Y3) P _ A]. unfold copy_run_texels, readback_copy. cbn [rc_source_side rc_destination_side rc_source_texel_bytes rc_width].
  change (copy_side_run_bytes (linear_side _ _) tb) with UINT64_MAX. destruct (decide (im_storage im = STORAGE_TILES)) as [ST|ST].
  - destruct (tiled_runs im sub tb side B S1 DP Y L E ST) as (RB & RN & RI & _). pose proof readback_tb as T. unfold UINT64_MAX in *.
    assert (copy_side_run_bytes side tb <= 16) by (rewrite !elem_of_cons, elem_of_nil in RI; lia). rewrite Z.min_l by lia. rewrite (proj2 (Z.eqb_neq _ _)) by lia. fold (side_run tb side). lia.
  - assert (SR : im_storage im = STORAGE_ROWS) by (destruct (im_storage im); done). destruct (row_side_of im sub tb side B SR L E) as (RS & _). unfold copy_side_run_bytes. rewrite (row_tiled _ _ _ RS). cbn [negb].
    rewrite Z.min_id, Z.eqb_refl. lia.
Qed.

Lemma readback_moved m : moved (bi_width r) (bi_height r) tb (reverse_bytes im tb) from_ (read_to buffer r tb) (fun _ _ => True) m (image_copy_execute (readback_copy im buffer r tb side) m).
Proof.
  pose proof readback_run_texels as N. set (c := readback_copy im buffer r tb side) in *. pose proof V as [L (X1 & X2 & X3) (Y1 & Y2 & Y3) P (R1 & R2 & R3) A]. unfold PS5VK_GPU_ADDRESS_LIMIT in R3.
  pose proof readback_tb as T. destruct (level_extent im sub B L) as [W H]. pose proof (readback_place (bi_width r - 1) (bi_height r - 1) ltac:(split; lia)) as PL.
  assert (FR : forall x y, read_at c tb x y = texel_at side tb (bi_x r + x) (bi_y r + y)).
  { intros x y. unfold read_at. cbn [c readback_copy rc_source_side rc_source_x rc_source_y]. now rewrite !s32_small by lia. }
  assert (TO : forall x y, in_region (bi_width r) (bi_height r) x y -> written_at c tb x y = read_to buffer r tb x y).
  { intros x y I. pose proof (readback_place x y I). destruct I as [Ix Iy]. pose proof (readback_place 0 0 ltac:(split; lia)) as P0. unfold read_to in P0.
    unfold written_at, texel_at, image_copy_address, read_to in *. cbn [c readback_copy linear_side rc_destination_side cs_tiled cs_address cs_row_pitch rc_destination_x rc_destination_y].
    rewrite !Z.add_0_l, !(u64_small x), !(u64_small y), (u64_small (buffer + _)), u64_small by lia. lia. }
  assert (RN : 0 < copy_run_texels c < 2 ^ 32).
  { rewrite N. destruct (decide (im_storage im = STORAGE_TILES)) as [ST|ST]; [destruct (tiled_runs im sub tb side B S1 DP Y L E ST) as (_ & RN & _); lia|lia]. }
  assert (G : moved (bi_width r) (bi_height r) tb (reverse_bytes im tb) (read_at c tb) (written_at c tb) (fun _ _ => True) m (image_copy_execute c m)).
  { apply (copy_moved c (level_width (im_shape im) (sr_level sub)) (level_height (im_shape im) (sr_level sub)) (bi_width r) (bi_height r)).
    - constructor; cbn [c readback_copy rc_source_x rc_source_y rc_width rc_height rc_source_texel_bytes]; rewrite ?s32_small by lia; lia.
    - constructor; cbn [c readback_copy rc_destination_x rc_destination_y rc_width rc_height rc_source_texel_bytes]; lia.
    - exact RN.
    - cbn [c readback_copy rc_width rc_height rc_source_texel_bytes]. fold c. intros x i y X M I B' Yb. rewrite !FR. now apply (readback_run (copy_run_texels c)).
    - cbn [c readback_copy rc_width rc_height rc_source_texel_bytes]. fold c. intros x i y X M I B' Yb. rewrite !TO by (split; lia). unfold read_to. lia.
    - cbn [c readback_copy rc_width rc_height rc_source_texel_bytes]. fold c. intros x q x' q' a I I'. rewrite !TO by done. now apply readback_to_apart.
    - cbn [c readback_copy rc_width rc_height rc_source_texel_bytes]. fold c. intros x q x' q' a I I'. rewrite FR, TO by done. now apply readback_from_apart. }
  destruct G as [GI GO]. split.
  - intros x y j I D J. rewrite <- (TO x y), <- (FR x y) by done. now apply GI.
  - intros a N'. apply GO. intros x y I D. rewrite TO by done. now apply N'.
Qed.
End Readback.

(** ** The commands *)

Definition no_commands : cmd_buffer := CmdBuffer 0 [] None.

Lemma refuse_refused cb r : cb_refusal (cmd_refuse cb r) <> None.
Proof. cbn. now destruct (cb_refusal cb). Qed.

Lemma record_walk_inr grows cb w cb' : record_walk grows cb w = inr cb' -> cb_refusal cb' <> None.
Proof. unfold record_walk. destruct (grows _); [done|]. injection 1 as <-. apply refuse_refused. Qed.

Lemma upload_refused grows im cb u cb' : upload_region grows im cb u = inr cb' -> cb_refusal cb' <> None.
Proof.
  unfold upload_region. intros Q. repeat (case_match; try done); try (eapply record_walk_inr; exact Q); injection Q as <-; apply refuse_refused.
Qed.

Lemma readback_refused grows im buffer cb r cb' : readback_region grows im buffer cb r = inr cb' -> cb_refusal cb' <> None.
Proof.
  unfold readback_region. intros Q. repeat (case_match; try done); try (eapply record_walk_inr; exact Q); injection Q as <-; apply refuse_refused.
Qed.

(** One region of a command that is not refused. *)
Lemma upload_command grows im u cb : cb_refusal (copy_memory_to_image grows im [u] cb) = None -> upload_region grows im cb u = inl (copy_memory_to_image grows im [u] cb).
Proof.
  unfold copy_memory_to_image. destruct (cb_refusal cb) eqn:R; [congruence|]. destruct (im_address im =? 0); [intros Q; now apply refuse_refused in Q|].
  cbn [record_regions]. destruct (upload_region grows im cb u) as [cb'|cb'] eqn:U; [done|]. intros Q. now apply upload_refused in U.
Qed.

Lemma readback_command grows im buffer r cb : cb_refusal (copy_image_to_buffer grows im buffer [r] cb) = None -> readback_region grows im buffer cb r = inl (copy_image_to_buffer grows im buffer [r] cb).
Proof.
  unfold copy_image_to_buffer. destruct (cb_refusal cb) eqn:R; [congruence|]. destruct (buffer =? 0); [intros Q; now apply refuse_refused in Q|].
  cbn [record_regions]. destruct (readback_region grows im buffer cb r) as [cb'|cb'] eqn:U; [done|]. intros Q. now apply readback_refused in U.
Qed.

Lemma uploaded grows im u tb side cb m : bound_image im -> sh_samples (im_shape im) = 1 -> (fmt_depth (sh_format (im_shape im)) = true -> sh_levels (im_shape im) = 1) ->
  upload_valid im u -> image_copy_side im (mi_subresource u) = Some (tb, side) -> cb_refusal (copy_memory_to_image grows im [u] cb) = None ->
  exists w, copy_memory_to_image grows im [u] cb = appended cb w /\
    moved (mi_width u) (mi_height u) tb (reverse_bytes im tb) (uploaded_from u tb) (fun x y => texel_at side tb (mi_x u + x) (mi_y u + y)) (fun _ _ => True) m (run_walk w m).
Proof.
  intros B S D V E R. apply upload_command in R. destruct (upload_recorded grows im u tb side B S V E _ _ R) as (Q1 & Q2 & ->).
  exists (upload_walk im u tb side). split; [done|]. now apply upload_moved.
Qed.

Lemma read_back grows im buffer buffer_end r tb side cb m : bound_image im -> sh_samples (im_shape im) = 1 -> (fmt_depth (sh_format (im_shape im)) = true -> sh_levels (im_shape im) = 1) ->
  readback_valid im buffer buffer_end r tb -> image_copy_side im (bi_subresource r) = Some (tb, side) -> (im_storage im = STORAGE_TILES -> bi_x r mod side_run tb side = 0) ->
  cb_refusal (copy_image_to_buffer grows im buffer [r] cb) = None ->
  exists w, copy_image_to_buffer grows im buffer [r] cb = appended cb w /\
    moved (bi_width r) (bi_height r) tb (reverse_bytes im tb) (fun x y => texel_at side tb (bi_x r + x) (bi_y r + y)) (read_to buffer r tb) (fun _ _ => True) m (run_walk w m).
Proof.
  intros B S D V E A R. apply readback_command in R. destruct (readback_recorded grows im buffer r tb side E _ _ R) as (Y & ->). eexists. split; [done|].
  now apply (readback_moved im buffer buffer_end).
Qed.

(** C2: What an upload put into a region of a level of the first layer, a
    readback of the same region recorded after it gives back, when neither is
    refused: after the two walks each byte of each texel in the buffer is the
    one the application's memory held, for rows and for every measured tile map,
    for either byte order and for the pitches of both.  The image has one sample
    and, if it is a depth image, one level; the upload's rows have fewer than
    2^28 texels; in a tiled image the region begins at a multiple of the map's
    run ([unaligned_readback_moves_others] shows what happens otherwise); and
    the application's memory and the buffer lie outside the image. *)
Theorem upload_readback_round_trip grows im u buffer buffer_end r tb side m : bound_image im -> sh_samples (im_shape im) = 1 -> (fmt_depth (sh_format (im_shape im)) = true -> sh_levels (im_shape im) = 1) ->
  upload_valid im u -> readback_valid im buffer buffer_end r tb -> image_copy_side im (mi_subresource u) = Some (tb, side) -> (im_storage im = STORAGE_TILES -> bi_x r mod side_run tb side = 0) ->
  bi_subresource r = mi_subresource u -> (bi_x r, bi_y r) = (mi_x u, mi_y u) -> (bi_width r, bi_height r) = (mi_width u, mi_height u) ->
  let cb := copy_image_to_buffer grows im buffer [r] (copy_memory_to_image grows im [u] no_commands) in
  cb_refusal cb = None ->
  forall x y j, 0 <= x < mi_width u -> 0 <= y < mi_height u -> 0 <= j < tb -> run_walks (cb_copies cb) m (read_to buffer r tb x y + j) = m (uploaded_from u tb x y + j).
Proof.
  intros B S D VU VR E A SU XY WH cb R. injection XY as XE YE. injection WH as WE HE. rewrite <- SU in E.
  destruct (read_back grows im buffer buffer_end r tb side _ m B S D VR E A R) as (w2 & Q2 & _). rewrite SU in E.
  assert (R1 : cb_refusal (copy_memory_to_image grows im [u] no_commands) = None) by (unfold cb in R; rewrite Q2 in R; exact R).
  destruct (uploaded grows im u tb side no_commands m B S D VU E R1) as (w1 & Q1 & M1). rewrite <- SU in E.
  destruct (read_back grows im buffer buffer_end r tb side _ (run_walk w1 m) B S D VR E A R) as (w3 & Q3 & M2).
  intros x y j X Yb J. unfold cb. rewrite Q3, Q1. cbn [appended cb_copies no_commands run_walks]. unfold run_walks. cbn [app fold_left snd].
  rewrite (moved_in _ _ _ _ _ _ _ _ _ M2 x y j) by (unfold in_region; (lia || done)). rewrite XE, YE. pose proof (from_byte_range (reverse_bytes im tb) tb j ltac:(lia) J) as FB.
  rewrite (moved_in _ _ _ _ _ _ _ _ _ M1 x y) by (unfold in_region; (lia || done)). unfold from_byte in *. destruct (reverse_bytes im tb =? 0); [done|]. now rewrite mirrored_twice by lia.
Qed.

(** ** Examples *)

Definition rgba8_reversed : format := Format 57 4 false false false true.
Definition packed_image : image := example_image rgba8_reversed USAGE_COLOR_ATTACHMENT 256 256 6 1 1.
Definition packed_level : subresource := Subresource ASPECT_COLOR 3 0 1.
Definition example_upload : memory_image_copy := MemoryImageCopy 0x100000 0x1000 12 packed_level 4 2 8 4.
Definition example_readback : buffer_image_copy := BufferImageCopy 16 0 packed_level 4 2 8 4.

Lemma packed_image_bound : bound_image packed_image.
Proof.
  apply example_bound; [|reflexivity|vm_compute; discriminate].
  constructor; unfold PS5VK_MAX_EXTENT_2D, PS5VK_MAX_MIP_LEVELS, PS5VK_MAX_ARRAY_LAYERS; cbn; try lia; try discriminate. left.
Defined.

Lemma example_upload_valid : upload_valid packed_image example_upload.
Proof. split; vm_compute; try (split; congruence || split; congruence); auto; intuition congruence. Qed.

Lemma example_readback_valid : readback_valid packed_image 0x500000 0x501000 example_readback 4.
Proof. split; vm_compute; auto; intuition congruence. Qed.

Lemma upload_readback_round_trip_witness : let cb := copy_image_to_buffer (fun _ => true) packed_image 0x500000 [example_readback] (copy_memory_to_image (fun _ => true) packed_image [example_upload] no_commands) in
  length (cb_copies cb) = 2%nat /\ run_walks (cb_copies cb) (fun a => a mod 256) (0x500000 + 16 + 1 * 32 + 5 * 4 + 2) = (0x100000 + 1 * 48 + 5 * 4 + 2) mod 256.
Proof.
  intros cb. split; [vm_compute; reflexivity|].
  assert (E : exists side, image_copy_side packed_image packed_level = Some (4, side) /\ side_run 4 side = 4) by (eexists; split; [vm_compute; reflexivity|vm_compute; reflexivity]). destruct E as (side & E & N).
  apply (upload_readback_round_trip (fun _ => true) packed_image example_upload 0x500000 0x501000 example_readback 4 side (fun a => a mod 256)
    packed_image_bound eq_refl ltac:(discriminate) example_upload_valid example_readback_valid E ltac:(intros _; rewrite N; reflexivity) eq_refl eq_refl eq_refl ltac:(vm_compute; reflexivity) 5 1 2);
    vm_compute; (split; congruence).
Defined.

Definition unaligned_readback : buffer_image_copy := BufferImageCopy 16 0 packed_level 6 2 8 4.

(** A readback whose region does not begin at a multiple of the run is not
    refused, though it is as valid as one that does, and its runs cross from one
    run of the map into bytes of others: the third texel it puts into the buffer
    is not the image's. *)
Theorem unaligned_readback_moves_others : exists side,
  bound_image packed_image /\ image_copy_side packed_image packed_level = Some (4, side) /\ readback_valid packed_image 0x500000 0x501000 unaligned_readback 4 /\
  let cb := copy_image_to_buffer (fun _ => true) packed_image 0x500000 [unaligned_readback] no_commands in
  cb_refusal cb = None /\ exists m, run_walks (cb_copies cb) m (read_to 0x500000 unaligned_readback 4 2 0 + 0) <> m (texel_at side 4 (6 + 2) (2 + 0) + from_byte (reverse_bytes packed_image 4) 4 0).
Proof.
  eexists. split; [exact packed_image_bound|]. split; [vm_compute; reflexivity|]. split; [split; vm_compute; auto; intuition congruence|]. cbv zeta. split; [vm_compute; reflexivity|].
  exists (fun a => a mod 256). vm_compute. discriminate.
Qed.
