(* ===== verification/ImageClears.v ===== *)
(** * Clears and resolves

    A clear stores one texel at every sample of its region and a resolve the
    mean of a texel's samples at every texel of its own.  Both are stores at
    places that do not meet, of bytes that depend on nothing they write, so
    their order does not matter.  On images the driver created, a clear of a
    range of levels writes every sample of those levels and of no other. *)

From Stdlib Require Import ZArith Lia.
From stdpp Require Import base numbers list.
From S2P Require Import Prelude Bytes DriverPrelude DriverMemory DirectMemory CopySteps BlitPool XorMaps ImageTiles ImageLayout ImageRuns ImageCopies ImageTransfers ImageEffects.
Open Scope Z_scope.

(** ** Stores at places that do not meet *)

Section Scatter.
Context {A : Type} (place : A -> Z) (data : A -> memory -> Bytes) (n : Z) (cells : list A).

Definition scatter (l : list A) (m : memory) : memory := fold_left (fun m a => store_bytes m (place a) (data a m)) l m.
Definition at_place (a : A) (q : Z) : Prop := place a <= q < place a + n.

Context (LEN : forall a m, a ∈ cells -> size (data a m) = n).
Context (APART : forall a b, a ∈ cells -> b ∈ cells -> a <> b -> place a + n <= place b \/ place b + n <= place a).
Context (READS : forall a m m', a ∈ cells -> (forall q, (forall b, b ∈ cells -> ~ at_place b q) -> m q = m' q) -> data a m = data a m').

Lemma scattered l m : NoDup l -> l ⊆ cells ->
  (forall a j, a ∈ l -> 0 <= j < n -> scatter l m (place a + j) = byte_at (data a m) j) /\
  (forall q, (forall a, a ∈ l -> ~ at_place a q) -> scatter l m q = m q).
Proof.
  intros N. revert m. induction N as [|a l NI N IH]; intros m S.
  { split; [intros a j I; now apply not_elem_of_nil in I|done]. }
  cbn [scatter fold_left]. fold (scatter l (store_bytes m (place a) (data a m))). set (m1 := store_bytes m (place a) (data a m)).
  assert (AC : a ∈ cells) by (apply S; left). destruct (IH m1 ltac:(intros b I; apply S; now right)) as [In Out].
  assert (O1 : forall q, ~ at_place a q -> m1 q = m q) by (intros q Q; apply store_bytes_out; rewrite LEN by done; unfold at_place in Q; lia).
  assert (AB : forall b q, b ∈ l -> at_place a q -> ~ at_place b q).
  { intros b q I Q Q'. assert (a <> b) by (intros ->; done). destruct (APART a b AC ltac:(apply S; now right) H); unfold at_place in *; lia. }
  split.
  - intros b j I J. apply elem_of_cons in I as [-> |I].
    + rewrite Out by (intros b I; apply (AB b _ I); unfold at_place; lia). unfold m1. rewrite store_bytes_in by (rewrite LEN by done; lia). f_equal. lia.
    + rewrite In by done. f_equal. apply READS; [apply S; now right|]. intros q Q. apply O1, Q, AC.
  - intros q Q. rewrite Out by (intros b I; apply Q; now right). apply O1, Q. left.
Qed.
End Scatter.

(** ** The samples of a region *)

Definition samples_of (w h n : Z) : list (Z * Z * Z) := seqZ 0 h ≫= (fun y => seqZ 0 w ≫= (fun x => (fun s => (x, y, s)) <$> seqZ 0 n)).

Lemma samples_of_in w h n x y s : (x, y, s) ∈ samples_of w h n <-> 0 <= x < w /\ 0 <= y < h /\ 0 <= s < n.
Proof.
  unfold samples_of. rewrite list_elem_of_bind. split.
  - intros (y' & I & Y). apply list_elem_of_bind in I as (x' & I & X). apply list_elem_of_fmap in I as (s' & E & S). injection E as -> -> ->. apply elem_of_seqZ in X, Y, S. lia.
  - intros (X & Y & S). exists y. split; [|apply elem_of_seqZ; lia]. apply list_elem_of_bind. exists x. split; [|apply elem_of_seqZ; lia]. apply list_elem_of_fmap. exists s. split; [done|apply elem_of_seqZ; lia].
Qed.

Lemma samples_of_nodup w h n : NoDup (samples_of w h n).
Proof.
  unfold samples_of. apply NoDup_bind; [|intros y _; apply NoDup_bind; [|intros x _; apply NoDup_fmap_2; [|apply NoDup_seqZ]|apply NoDup_seqZ]|apply NoDup_seqZ].
  - intros y y' [[x0 y0] s0] _ _ I I'. apply list_elem_of_bind in I as (x & I & _), I' as (x' & I' & _). apply list_elem_of_fmap in I as (s & E & _), I' as (s' & E' & _). congruence.
  - intros x x' [[x0 y0] s0] _ _ I I'. apply list_elem_of_fmap in I as (s & E & _), I' as (s' & E' & _). congruence.
  - intros s s' E. congruence.
Qed.

Lemma fold_left_bind {A B C : Type} (f : C -> B -> C) (g : A -> list B) l c : fold_left f (l ≫= g) c = fold_left (fun c a => fold_left f (g a) c) l c.
Proof. revert c. induction l as [|a l IH]; intros c; [done|]. cbn. rewrite fold_left_app. apply IH. Qed.

Lemma fold_left_fmap {A B C : Type} (f : C -> B -> C) (g : A -> B) l c : fold_left f (g <$> l) c = fold_left (fun c a => f c (g a)) l c.
Proof. revert c. induction l as [|a l IH]; intros c; [done|]. cbn. apply IH. Qed.

Lemma fold_left_same {A B : Type} (f g : B -> A -> B) l b : (forall b a, f b a = g b a) -> fold_left f l b = fold_left g l b.
Proof. intros E. revert b. induction l as [|a l IH]; intros b; [done|]. cbn. now rewrite E. Qed.

(** A walk over rows, columns and samples is a walk over the samples. *)
Lemma fold_samples {B : Type} (f : B -> Z * Z * Z -> B) w h n b :
  fold_left (fun b y => fold_left (fun b x => fold_left (fun b s => f b (x, y, s)) (seqZ 0 n) b) (seqZ 0 w) b) (seqZ 0 h) b = fold_left f (samples_of w h n) b.
Proof.
  unfold samples_of. rewrite fold_left_bind. apply fold_left_same. intros b1 y. rewrite fold_left_bind. apply fold_left_same. intros b2 x. now rewrite fold_left_fmap.
Qed.

(** ** Clears *)

Definition clear_place (c : region_copy) (cell : Z * Z * Z) : Z :=
  let '(x, y, s) := cell in
  image_copy_address (rc_destination_side c) (s32 (rc_destination_x c + x)) (s32 (rc_destination_y c + y)) (rc_destination_texel_bytes c / clear_samples c) s.
Definition clear_bytes (c : region_copy) : Bytes := take (Z.to_nat (rc_destination_texel_bytes c / clear_samples c)) (rc_clear_texel c).

Lemma clear_scatter c m : clear_execute c m = scatter (clear_place c) (fun _ _ => clear_bytes c) (samples_of (rc_width c) (rc_height c) (clear_samples c)) m.
Proof. unfold clear_execute, clear_texel, scatter. rewrite <- fold_samples. reflexivity. Qed.

(** What a level's clear records. *)
Definition level_clear (im : image) (tb : Z) (side : copy_side) (texel : Bytes) (level : Z) : region_copy :=
  RegionCopy 0 0 no_side side 0 0 0 0 (level_width (im_shape im) level) (level_height (im_shape im) level) 0 tb 0 texel.

Section Level.
Context (im : image) (aspect level tb : Z) (side : copy_side) (texel : Bytes).
Context (B : bound_image im) (L : 0 <= level < sh_levels (im_shape im)).
Context (E : image_copy_side im (Subresource aspect level 0 1) = Some (tb, side)) (M : cs_tiled side = true -> measured im side) (T : size texel = 16).

Abbreviation lw := (level_width (im_shape im) level).
Abbreviation lh := (level_height (im_shape im) level).

Lemma clear_side : (cs_samples side = 1 \/ cs_samples side = 4) /\ 1 <= cs_element_bytes side <= 16 /\ tb = cs_element_bytes side * cs_samples side.
Proof.
  pose proof E as E0. unfold image_copy_side in E0. cbn [sr_aspect sr_level sr_layer] in E0. destruct (image_plane_of im aspect) as [p|] eqn:P; [|done].
  pose proof (plane_bytes im (Subresource aspect level 0 1) B p P) as PB. destruct (Z.eqb_spec (pl_element_bytes p) 0); [done|].
  destruct (negb (sh_samples (im_shape im) =? 1) && _); [done|].
  assert (G : forall n, n = 1 \/ n = 4 -> u32 (pl_element_bytes p * n) = pl_element_bytes p * n) by (intros n0 N; apply u32_small; lia).
  destruct (sh_samples (im_shape im) =? 4) eqn:S4; rewrite G in E0 by auto; cbn [Z.eqb Pos.eqb negb] in E0; repeat case_match; simplify_eq; cbn [cs_element_bytes cs_samples]; (split; [auto|lia]).
Qed.

Lemma level_slots_of : side_slots side lw lh (im_address im) (im_address im + im_size im).
Proof. apply (samples_apart im (Subresource aspect level 0 1) tb side); auto. Qed.

Lemma clear_level_extent : 1 <= lw <= 16384 /\ 1 <= lh <= 16384.
Proof. destruct (level_bounds _ level (bound_shape _ B) ltac:(lia)) as [W H]. unfold PS5VK_MAX_EXTENT_2D in *. lia. Qed.

(** It stores the texel at every sample of the level. *)
Lemma level_cleared m : let m' := clear_execute (level_clear im tb side texel level) m in
  (forall x y s j, in_side side lw lh x y s -> 0 <= j < cs_element_bytes side -> m' (slot side x y s + j) = byte_at texel j) /\
  (forall a, (forall x y s, in_side side lw lh x y s -> ~ (slot side x y s <= a < slot side x y s + cs_element_bytes side)) -> m' a = m a).
Proof.
  destruct clear_side as (SM & EB & TB). destruct clear_level_extent as [W H]. pose proof level_slots_of as SL. cbv zeta. rewrite clear_scatter. set (c := level_clear im tb side texel level).
  assert (CS : clear_samples c = cs_samples side) by (unfold clear_samples; cbn [c level_clear rc_destination_side]; destruct SM as [-> | ->]; reflexivity).
  assert (SB : rc_destination_texel_bytes c / clear_samples c = cs_element_bytes side) by (rewrite CS; cbn [c level_clear rc_destination_texel_bytes]; rewrite TB; apply Z.div_mul; lia).
  change (rc_width c) with lw. change (rc_height c) with lh. rewrite CS.
  assert (PL : forall x y s, (x, y, s) ∈ samples_of lw lh (cs_samples side) -> clear_place c (x, y, s) = slot side x y s).
  { intros x y s I. apply samples_of_in in I as (X & Y & S). unfold clear_place. rewrite SB. cbn [c level_clear rc_destination_side rc_destination_x rc_destination_y]. rewrite !Z.add_0_l, !s32_small by lia. done. }
  assert (IN : forall x y s, (x, y, s) ∈ samples_of lw lh (cs_samples side) <-> in_side side lw lh x y s).
  { intros x y s. rewrite samples_of_in. split; [intros (X & Y & S); now split|intros [X Y S]; auto]. }
  assert (LB : size (clear_bytes c) = cs_element_bytes side).
  { unfold clear_bytes. rewrite SB. cbn [c level_clear rc_clear_texel]. unfold size in *. rewrite length_take. lia. }
  destruct (scattered (clear_place c) (fun _ _ => clear_bytes c) (cs_element_bytes side) (samples_of lw lh (cs_samples side))) with (l := samples_of lw lh (cs_samples side)) (m := m) as [G1 G2]; auto.
  - intros [[x y] s] [[x' y'] s'] I I' D. rewrite !PL by done. apply (slots_apart _ _ _ _ _ SL); [now apply IN|now apply IN|done].
  - apply samples_of_nodup.
  - split.
    + intros x y s j I J. apply IN in I. rewrite <- PL by done. rewrite G1 by done. unfold clear_bytes. rewrite SB. cbn [c level_clear rc_clear_texel]. rewrite byte_at_firstn, Z2Nat.id by lia. now rewrite (proj2 (Z.ltb_lt _ _)) by lia.
    + intros a O. apply G2. intros [[x y] s] I. unfold at_place. rewrite PL by done. apply O. now apply IN.
Qed.
End Level.

(** ** Clears of ranges *)

Section Range.
Context (grows : nat -> bool) (im : image) (aspect : Z) (texel : Bytes).
Context (B : bound_image im) (T : size texel = 16).
Context (M : forall level tb side, image_copy_side im (Subresource aspect level 0 1) = Some (tb, side) -> measured im side).

Lemma clear_level_recorded level cb cb' : clear_level grows im aspect texel cb level = inl cb' ->
  exists tb side, image_copy_side im (Subresource aspect level 0 1) = Some (tb, side) /\ cb' = appended cb (ClearWalk (level_clear im tb side texel level)).
Proof. unfold clear_level. destruct (image_copy_side _ _) as [[tb side]|]; [|done]. intros Q. apply record_walk_inl in Q as ->. eauto. Qed.

Lemma levels_cleared levels cb cb' : Forall (fun level => 0 <= level < sh_levels (im_shape im)) levels -> until_refused (clear_level grows im aspect texel) levels cb = inl cb' ->
  exists walks, cb' = CmdBuffer (cb_words cb) (cb_copies cb ++ walks) (cb_refusal cb) /\ forall m,
    (forall level tb side x y s j, 0 <= level < sh_levels (im_shape im) -> image_copy_side im (Subresource aspect level 0 1) = Some (tb, side) ->
      in_side side (level_width (im_shape im) level) (level_height (im_shape im) level) x y s -> 0 <= j < cs_element_bytes side ->
      run_walks walks m (slot side x y s + j) = if decide (level ∈ levels) then byte_at texel j else m (slot side x y s + j)) /\
    (forall a, a < im_address im \/ im_address im + im_size im <= a -> run_walks walks m a = m a).
Proof.
  intros F. revert cb. induction F as [|level levels L F IH]; intros cb R; cbn [until_refused] in R.
  { injection R as <-. exists []. split; [rewrite app_nil_r; now destruct cb|]. intros m. split; [|done]. intros level tb side x y s j _ _ _ _. rewrite decide_False; [done|apply not_elem_of_nil]. }
  destruct (clear_level grows im aspect texel cb level) as [cb1|] eqn:Q; [|done]. apply clear_level_recorded in Q as (tb0 & side0 & E0 & ->).
  destruct (IH _ R) as (walks & -> & W). exists ((cb_words cb, ClearWalk (level_clear im tb0 side0 texel level)) :: walks).
  split; [cbn [appended cb_words cb_copies cb_refusal]; now rewrite <- app_assoc|]. intros m.
  pose proof (M _ _ _ E0) as M0. destruct (level_cleared im aspect level tb0 side0 texel B L E0 (fun _ => M0) T m) as [In Out]. set (m1 := clear_execute _ m) in *. destruct (W m1) as [W1 W2].
  change (run_walks ((cb_words cb, ClearWalk (level_clear im tb0 side0 texel level)) :: walks) m) with (run_walks walks m1).
  pose proof (level_slots_of im aspect level tb0 side0 B L E0 (fun _ => M0)) as SL. split.
  - intros level' tb side x y s j L' E I J. rewrite (W1 level' tb side x y s j) by done. destruct (decide (level' ∈ levels)) as [D|D].
    { rewrite decide_True; [done|now right]. }
    destruct (decide (level' = level)) as [-> |N].
    + rewrite decide_True by left. rewrite E0 in E. injection E as <- <-. now apply In.
    + rewrite decide_False by (rewrite elem_of_cons; tauto). apply Out. intros x' y' s' I' A. pose proof (M _ _ _ E) as M1.
      destruct (two_levels_apart im (Subresource aspect level 0 1) (Subresource aspect level' 0 1) tb0 tb side0 side x' y' s' x y s); auto; lia.
  - intros a O. rewrite W2 by done. apply Out. intros x y s I A. pose proof (slots_inside _ _ _ _ _ SL x y s I). lia.
Qed.
End Range.

Lemma range_levels_spec g : 0 <= sg_level g -> 0 <= sg_level_count g -> sg_level g + sg_level_count g < 2 ^ 32 -> range_levels g = seqZ (sg_level g) (sg_level_count g).
Proof. intros A C U. unfold range_levels. rewrite u32_small by lia. f_equal. lia. Qed.

Lemma colour_measured im aspect level tb side : depth_or_stencil im = false -> (sh_samples (im_shape im) = 4 -> texel_size (im_shape im) = 4) ->
  image_copy_side im (Subresource aspect level 0 1) = Some (tb, side) -> measured im side.
Proof.
  intros D S E. unfold depth_or_stencil in D. apply orb_false_iff in D as [D1 D2]. unfold image_copy_side in E. cbn [sr_aspect sr_level sr_layer] in E.
  destruct (image_plane_of im aspect) as [p|] eqn:P; [|done]. apply image_plane_cases in P. cbv zeta in P. rewrite D1, D2 in P. destruct P as [(_ & _ & ->)|[(? & _)|(? & _)]]; [|done..].
  unfold texel_size in S. cbn [pl_element_bytes pl_depth_map] in E. destruct (sh_samples (im_shape im) =? 4) eqn:S4.
  - apply Z.eqb_eq in S4. specialize (S S4). repeat case_match; simplify_eq; split; cbn [cs_samples cs_element_bytes cs_depth]; done.
  - repeat case_match; simplify_eq; split; cbn [cs_samples cs_element_bytes cs_depth]; done.
Qed.

Lemma until_refused_inr {A : Type} (record : cmd_buffer -> A -> cmd_buffer + cmd_buffer) l cb cb' : (forall cb x cb', record cb x = inr cb' -> cb_refusal cb' <> None) ->
  until_refused record l cb = inr cb' -> cb_refusal cb' <> None.
Proof. intros R. revert cb. induction l as [|x l IH]; intros cb; cbn [until_refused]; [done|]. destruct (record cb x) eqn:Q; [apply IH|]. injection 1 as <-. eauto. Qed.

Lemma clear_level_refused grows im aspect texel cb level cb' : clear_level grows im aspect texel cb level = inr cb' -> cb_refusal cb' <> None.
Proof. unfold clear_level. destruct (image_copy_side _ _) as [[tb side]|]; [apply record_walk_inr|]. injection 1 as <-. apply refuse_refused. Qed.

(** C6: Clearing a range of the levels of a colour image's first layer that is
    not refused stores the encoded texel at every sample of every level of the
    range, leaves every sample of every other level as it was, and touches
    nothing outside the image's memory.  If the image has four samples its
    texels have four bytes. *)
Theorem clear_colour_writes_range grows im texel g cb : bound_image im -> size texel = 16 -> (sh_samples (im_shape im) = 4 -> texel_size (im_shape im) = 4) ->
  0 <= sg_level g -> 0 <= sg_level_count g -> sg_level g + sg_level_count g <= sh_levels (im_shape im) ->
  cb_refusal (clear_colour_image grows im (Some texel) [g] cb) = None ->
  exists walks, clear_colour_image grows im (Some texel) [g] cb = CmdBuffer (cb_words cb) (cb_copies cb ++ walks) None /\ forall m,
    (forall level tb side x y s j, 0 <= level < sh_levels (im_shape im) -> image_copy_side im (Subresource (sg_aspect g) level 0 1) = Some (tb, side) ->
      in_side side (level_width (im_shape im) level) (level_height (im_shape im) level) x y s -> 0 <= j < cs_element_bytes side ->
      run_walks walks m (slot side x y s + j) = if decide (sg_level g <= level < sg_level g + sg_level_count g) then byte_at texel j else m (slot side x y s + j)) /\
    (forall a, a < im_address im \/ im_address im + im_size im <= a -> run_walks walks m a = m a).
Proof.
  intros B T S4 G1 G2 G3 R. unfold clear_colour_image in *. destruct (cb_refusal cb) eqn:RC; [congruence|]. destruct (depth_or_stencil im) eqn:D; [now apply refuse_refused in R|].
  cbn [record_regions] in *. destruct (clear_colour_range grows im texel cb g) as [cb'|cb'] eqn:Q.
  2: { exfalso. revert R. unfold clear_colour_range in Q. destruct (_ || _); [injection Q as <-; apply refuse_refused|]. eapply until_refused_inr; [apply clear_level_refused|exact Q]. }
  unfold clear_colour_range in Q. destruct (_ || _); [done|]. pose proof (shape_levels _ (bound_shape _ B)) as V. unfold PS5VK_MAX_MIP_LEVELS in V. rewrite range_levels_spec in Q by lia.
  destruct (levels_cleared grows im (sg_aspect g) texel B T (fun level tb side => colour_measured im (sg_aspect g) level tb side D S4) (seqZ (sg_level g) (sg_level_count g)) cb cb') as (walks & -> & W); [|exact Q|].
  { apply Forall_seqZ. intros level L. lia. }
  exists walks. split; [now rewrite RC|]. intros m. destruct (W m) as [W1 W2]. split; [|exact W2]. intros level tb side x y s j L E I J. rewrite (W1 level tb side x y s j) by done.
  destruct (decide (level ∈ seqZ (sg_level g) (sg_level_count g))) as [I1|I1], (decide (sg_level g <= level < sg_level g + sg_level_count g)) as [I2|I2]; try done; rewrite elem_of_seqZ in I1; lia.
Qed.

Lemma clear_colour_writes_range_witness : let cb := clear_colour_image (fun _ => true) packed_image (Some (seqZ 1 16)) [SubresourceRange ASPECT_COLOR 3 2 0 1] no_commands in
  length (cb_copies cb) = 2%nat /\ exists side, image_copy_side packed_image (Subresource ASPECT_COLOR 5 0 1) = Some (4, side) /\
    run_walks (cb_copies cb) (fun a => a mod 251) (slot side 7 5 0 + 2) = (slot side 7 5 0 + 2) mod 251.
Proof.
  intros cb. split; [vm_compute; reflexivity|]. assert (E : exists side, image_copy_side packed_image (Subresource ASPECT_COLOR 5 0 1) = Some (4, side) /\ cs_element_bytes side = 4 /\ cs_samples side = 1).
  { eexists. split; [vm_compute; reflexivity|]. split; reflexivity. }
  destruct E as (side & E & EB & SM). exists side. split; [exact E|].
  destruct (clear_colour_writes_range (fun _ => true) packed_image (seqZ 1 16) (SubresourceRange ASPECT_COLOR 3 2 0 1) no_commands) as (walks & Q & W);
    [apply packed_image_bound|reflexivity|discriminate|discriminate|discriminate|vm_compute; discriminate|vm_compute; reflexivity|].
  unfold cb. rewrite Q. cbn [cb_copies no_commands app]. destruct (W (fun a => a mod 251)) as [W1 _]. rewrite (W1 5 4 side 7 5 0 2); [reflexivity|split; [discriminate|reflexivity]|exact E| |rewrite EB; split; [discriminate|reflexivity]].
  split; [split; [discriminate|reflexivity]|split; [discriminate|reflexivity]|rewrite SM; split; [discriminate|reflexivity]].
Defined.

(** ** Resolves *)

Lemma fold_left_on {A B : Type} (P : A -> Prop) (f g : B -> A -> B) l b : (forall b a, P a -> f b a = g b a) -> Forall P l -> fold_left f l b = fold_left g l b.
Proof. intros E F. revert b. induction F as [|a l Pa F IH]; intros b; [done|]. cbn. now rewrite (E b a Pa). Qed.

(** What [ps5vk_CmdResolveImage2KHR] records of a region. *)
Definition region_resolve (r : image_region) (stb dtb : Z) (ss ds : copy_side) : region_copy :=
  RegionCopy 0 0 ss ds 0 0 (u32 (ir_destination_x r)) (u32 (ir_destination_y r)) (ir_width r) (ir_height r) stb dtb 0 [].

(** A region of a resolve: it lies in both levels. *)
Record resolve_valid (source destination : image) (r : image_region) : Prop := {
  rs_source_level : 0 <= sr_level (ir_source r) < sh_levels (im_shape source);
  rs_level : 0 <= sr_level (ir_destination r) < sh_levels (im_shape destination);
  rs_source : ir_width r <= level_width (im_shape source) (sr_level (ir_source r)) /\ ir_height r <= level_height (im_shape source) (sr_level (ir_source r));
  rs_x : 0 <= ir_destination_x r /\ ir_destination_x r + ir_width r <= level_width (im_shape destination) (sr_level (ir_destination r));
  rs_y : 0 <= ir_destination_y r /\ ir_destination_y r + ir_height r <= level_height (im_shape destination) (sr_level (ir_destination r));
  rs_apart : im_address source + im_size source <= im_address destination \/ im_address destination + im_size destination <= im_address source
}.

(** The mean of a texel's four samples, byte by byte. *)
Definition sample_sum (ss : copy_side) (m : memory) (x y byte : Z) : Z :=
  m (slot ss x y 0 + byte) + m (slot ss x y 1 + byte) + m (slot ss x y 2 + byte) + m (slot ss x y 3 + byte).

Lemma colour_side_bytes im sub tb side : depth_or_stencil im = false -> texel_size (im_shape im) = 4 -> image_copy_side im sub = Some (tb, side) ->
  measured im side /\ cs_element_bytes side = 4 /\ cs_samples side = (if sh_samples (im_shape im) =? 4 then 4 else 1) /\ tb = 4 * cs_samples side.
Proof.
  intros D T E. unfold depth_or_stencil in D. apply orb_false_iff in D as [D1 D2]. unfold image_copy_side in E.
  destruct (image_plane_of im (sr_aspect sub)) as [p|] eqn:P; [|done]. apply image_plane_cases in P. cbv zeta in P. rewrite D1, D2 in P. destruct P as [(_ & _ & ->)|[(? & _)|(? & _)]]; [|done..].
  unfold texel_size in T. cbn [pl_element_bytes pl_depth_map] in E. rewrite T in E.
  destruct (sh_samples (im_shape im) =? 4) eqn:S4; repeat case_match; simplify_eq; (split; [split; cbn [cs_samples cs_element_bytes cs_depth]; done|done]).
Qed.

Section Resolve.
Context (source destination : image) (r : image_region) (stb dtb : Z) (ss ds : copy_side).
Context (BS : bound_image source) (BD : bound_image destination) (CS : depth_or_stencil source = false) (CD : depth_or_stencil destination = false).
Context (S4 : sh_samples (im_shape source) = 4) (S1 : sh_samples (im_shape destination) = 1) (TS : texel_size (im_shape source) = 4) (TD : texel_size (im_shape destination) = 4).
Context (V : resolve_valid source destination r) (ES : image_copy_side source (ir_source r) = Some (stb, ss)) (ED : image_copy_side destination (ir_destination r) = Some (dtb, ds)).
Context (YS : sr_layer (ir_source r) = 0) (YD : sr_layer (ir_destination r) = 0).

Abbreviation W := (ir_width r).
Abbreviation H := (ir_height r).
Abbreviation to_ := (fun x y => slot ds (ir_destination_x r + x) (ir_destination_y r + y) 0).

Lemma region_resolved m : let m' := resolve_execute (region_resolve r stb dtb ss ds) m in
  (forall x y byte, in_region W H x y -> 0 <= byte < 4 -> m' (to_ x y + byte) = (sample_sum ss m x y byte + 2) / 4) /\
  (forall a, (forall x y, in_region W H x y -> ~ in_texel 4 (to_ x y) a) -> m' a = m a).
Proof.
  destruct V as [LS LD (X1 & Y1) (X2 & X3) (Y2 & Y3) A]. destruct (colour_side_bytes _ _ _ _ CS TS ES) as (MS & EBS & SMS & STB), (colour_side_bytes _ _ _ _ CD TD ED) as (MD & EBD & SMD & DTB).
  rewrite S4 in SMS. rewrite S1 in SMD. cbn [Z.eqb Pos.eqb] in SMS, SMD. rewrite SMS in STB. rewrite SMD in DTB. change (4 * 4) with 16 in STB. change (4 * 1) with 4 in DTB.
  pose proof (samples_apart _ _ _ _ BS YS LS ES (fun _ => MS)) as SS. pose proof (samples_apart _ _ _ _ BD YD LD ED (fun _ => MD)) as SD.
  destruct (level_bounds _ (sr_level (ir_source r)) (bound_shape _ BS) ltac:(lia)) as [WS HS]. destruct (level_bounds _ (sr_level (ir_destination r)) (bound_shape _ BD) ltac:(lia)) as [WD HD]. unfold PS5VK_MAX_EXTENT_2D in *.
  set (c := region_resolve r stb dtb ss ds). set (place := fun cell : Z * Z * Z => let '(x, y, _) := cell in to_ x y).
  set (data := fun (cell : Z * Z * Z) m => let '(x, y, _) := cell in map (fun byte => (sample_sum ss m x y byte + 2) / 4) (seqZ 0 4)).
  assert (IN : forall x y s, (x, y, s) ∈ samples_of W H 1 -> in_region W H x y /\ s = 0) by (intros x y s I; apply samples_of_in in I; unfold in_region; lia).
  assert (RE : forall m, resolve_execute c m = scatter place data (samples_of W H 1) m).
  { intros m0. unfold resolve_execute, scatter. change (rc_width c) with W. change (rc_height c) with H. rewrite <- fold_samples.
    apply (fold_left_on (fun y => 0 <= y < H)); [|apply Forall_seqZ; lia]. intros m1 y Y. apply (fold_left_on (fun x => 0 <= x < W)); [|apply Forall_seqZ; lia]. intros m2 x X.
    change (seqZ 0 1) with [0]. cbn [fold_left place data]. unfold resolve_texel. cbn [c region_resolve rc_destination_side rc_destination_x rc_destination_y rc_destination_texel_bytes].
    rewrite (u32_small (ir_destination_x r)), (u32_small (ir_destination_y r)), !s32_small, DTB by lia. unfold slot. rewrite EBD. f_equal.
    apply map_ext. intros byte. unfold resolved_byte, sample_sum, slot. cbn [c region_resolve rc_source_side rc_source_texel_bytes]. rewrite STB, EBS. change (16 / 4) with 4. change (seqZ 0 4) with [0; 1; 2; 3]. cbn [fold_left]. reflexivity. }
  cbv zeta. rewrite RE.
  assert (DI : forall x y, in_region W H x y -> in_side ds (level_width (im_shape destination) (sr_level (ir_destination r))) (level_height (im_shape destination) (sr_level (ir_destination r))) (ir_destination_x r + x) (ir_destination_y r + y) 0).
  { intros x y [IX IY]. constructor; lia. }
  destruct (scattered place data 4 (samples_of W H 1)) with (l := samples_of W H 1) (m := m) as [G1 G2]; auto using samples_of_nodup.
  - intros [[x y] s] m0 _. reflexivity.
  - intros [[x y] s] [[x' y'] s'] I I' N. apply IN in I as [I ->], I' as [I' ->]. cbn [place]. pose proof (slots_apart _ _ _ _ _ SD _ _ _ _ _ _ (DI _ _ I) (DI _ _ I')) as Q. rewrite EBD in Q. apply Q.
    intros E. injection E as E1 E2. apply N. repeat f_equal; lia.
  - intros [[x y] s] m0 m1 I Q. apply IN in I as [[IX IY] ->]. cbn [data]. apply map_ext_in. intros byte IB. apply list_elem_of_In, elem_of_seqZ in IB.
    assert (R : forall s, 0 <= s < 4 -> m0 (slot ss x y s + byte) = m1 (slot ss x y s + byte)).
    { intros s S. apply Q. intros [[x' y'] s'] I'. apply IN in I' as [I' ->]. unfold at_place. cbn [place].
      pose proof (slots_inside _ _ _ _ _ SS x y s ltac:(constructor; lia)) as P1. pose proof (slots_inside _ _ _ _ _ SD _ _ _ (DI _ _ I')) as P2. lia. }
    unfold sample_sum. now rewrite !R by lia.
  - split.
    + intros x y byte I J. assert (C : (x, y, 0) ∈ samples_of W H 1) by (destruct I; apply samples_of_in; lia). specialize (G1 (x, y, 0) byte C J). cbn [place data] in G1. rewrite G1.
      assert (byte = 0 \/ byte = 1 \/ byte = 2 \/ byte = 3) as [-> |[-> |[-> | ->]]] by lia; reflexivity.
    + intros a O. apply G2. intros [[x y] s] I. apply IN in I as [I ->]. exact (O x y I).
Qed.
End Resolve.

Lemma resolve_region_recorded grows source destination cb cb' r stb dtb ss ds : image_copy_side source (ir_source r) = Some (stb, ss) -> image_copy_side destination (ir_destination r) = Some (dtb, ds) ->
  resolve_region grows source destination cb r = inl cb' -> sr_layer (ir_source r) = 0 /\ sr_layer (ir_destination r) = 0 /\ cb' = appended cb (ResolveWalk (region_resolve r stb dtb ss ds)).
Proof.
  intros ES ED Q. unfold resolve_region in Q. rewrite ES, ED in Q. destruct (_ || _) eqn:C in Q; [done|]. apply record_walk_inl in Q as ->.
  apply orb_false_iff in C as [C C4]. apply orb_false_iff in C as [C C3]. apply orb_false_iff in C as [C1 C2]. apply negb_false_iff, Z.eqb_eq in C2, C4. auto.
Qed.

Lemma resolve_refused grows source destination cb cb' r : image_copy_side source (ir_source r) <> None -> image_copy_side destination (ir_destination r) <> None ->
  resolve_region grows source destination cb r = inr cb' -> cb_refusal cb' <> None.
Proof.
  intros NS ND. unfold resolve_region. destruct (image_copy_side source _) as [[]|]; [|done]. destruct (image_copy_side destination _) as [[]|]; [|done].
  destruct (_ || _); [injection 1 as <-; apply refuse_refused|apply record_walk_inr].
Qed.

(** C16: A resolve of one region of a four-sample colour image whose texels are
    four bytes, done on the CPU, stores in each byte of each texel of its region
    the mean of that byte of the four samples of a texel of the source, rounded
    to the nearest, and changes no other byte.  (For a format whose components
    are not bytes this is not the mean of the samples:
    [bytewise_mean_of_words].)  The texel of the source is the one as far into the
    source's level as the other is into the region: the region's own source
    offset is not read. *)
Theorem resolve_stores_means grows source destination r stb dtb ss ds cb : bound_image source -> bound_image destination ->
  depth_or_stencil source = false -> depth_or_stencil destination = false -> texel_size (im_shape source) = 4 -> texel_size (im_shape destination) = 4 ->
  resolve_valid source destination r -> image_copy_side source (ir_source r) = Some (stb, ss) -> image_copy_side destination (ir_destination r) = Some (dtb, ds) ->
  cb_refusal (resolve_image grows source destination [r] cb) = None ->
  exists w, resolve_image grows source destination [r] cb = appended cb w /\ forall m,
    let to_ x y := slot ds (ir_destination_x r + x) (ir_destination_y r + y) 0 in
    (forall x y byte, in_region (ir_width r) (ir_height r) x y -> 0 <= byte < 4 -> run_walk w m (to_ x y + byte) = (sample_sum ss m x y byte + 2) / 4) /\
    (forall a, (forall x y, in_region (ir_width r) (ir_height r) x y -> ~ in_texel 4 (to_ x y) a) -> run_walk w m a = m a).
Proof.
  intros BS BD CS CD TS TD V ES ED R. unfold resolve_image in *. destruct (cb_refusal cb) eqn:RC; [congruence|].
  destruct (Z.eqb_spec (sh_samples (im_shape source)) 4) as [S4|]; [|now apply refuse_refused in R]. destruct (Z.eqb_spec (sh_samples (im_shape destination)) 1) as [S1|]; [|now apply refuse_refused in R].
  cbn [negb orb] in *. destruct (transfer_check source destination true); [now apply refuse_refused in R|]. destruct (_ || _); [now apply refuse_refused in R|]. cbn [record_regions] in *.
  destruct (resolve_region grows source destination cb r) as [cb'|cb'] eqn:Q; [|exfalso; revert R; apply (resolve_refused grows source destination cb cb' r); congruence].
  destruct (resolve_region_recorded _ _ _ _ _ _ _ _ _ _ ES ED Q) as (YS & YD & ->). eexists. split; [reflexivity|]. intros m. now apply (region_resolved source destination r stb dtb ss ds).
Qed.

(** ** Examples *)

Lemma rebound im memory offset : bound_image im -> 0 < u64 (memory + offset) /\ u64 (memory + offset) + im_size im <= PS5VK_GPU_ADDRESS_LIMIT -> bound_image (bind_image_memory im memory offset).
Proof.
  intros [S (tp & su & al & us & made & mem & off & C & ->) _] R. split; [done| |exact R]. exists tp, su, al, us, made, memory, offset. split; [done|reflexivity].
Defined.

Definition sampled_image : image := example_image rgba8 USAGE_COLOR_ATTACHMENT 64 64 1 1 4.
Definition plain_image : image := bind_image_memory (example_image rgba8 0 64 64 1 1 1) 0x300000000 0.
Definition example_resolve : image_region := ImageRegion (Subresource ASPECT_COLOR 0 0 1) (Subresource ASPECT_COLOR 0 0 1) 8 8 2 3 16 16.

Lemma sampled_image_bound : bound_image sampled_image.
Proof.
  apply example_bound; [|reflexivity|vm_compute; discriminate].
  constructor; unfold PS5VK_MAX_EXTENT_2D, PS5VK_MAX_MIP_LEVELS, PS5VK_MAX_ARRAY_LAYERS; cbn; try lia; try discriminate. right; right; left.
Defined.

Lemma plain_image_bound : bound_image plain_image.
Proof.
  apply rebound; [|vm_compute; split; congruence]. apply example_bound; [|reflexivity|vm_compute; discriminate].
  constructor; unfold PS5VK_MAX_EXTENT_2D, PS5VK_MAX_MIP_LEVELS, PS5VK_MAX_ARRAY_LAYERS; cbn; try lia; try discriminate. left.
Defined.

Lemma resolve_stores_means_witness : exists ss ds w, image_copy_side sampled_image (Subresource ASPECT_COLOR 0 0 1) = Some (16, ss) /\ image_copy_side plain_image (Subresource ASPECT_COLOR 0 0 1) = Some (4, ds) /\
  resolve_image (fun _ => true) sampled_image plain_image [example_resolve] no_commands = appended no_commands w /\
  run_walk w (fun a => a / 0x4000 mod 256) (slot ds (2 + 5) (3 + 7) 0 + 1) = 2.
Proof.
  assert (ES : exists ss, image_copy_side sampled_image (Subresource ASPECT_COLOR 0 0 1) = Some (16, ss) /\ sample_sum ss (fun a => a / 0x4000 mod 256) 5 7 1 = 6) by (eexists; split; [vm_compute; reflexivity|vm_compute; reflexivity]).
  assert (ED : exists ds, image_copy_side plain_image (Subresource ASPECT_COLOR 0 0 1) = Some (4, ds)) by (eexists; vm_compute; reflexivity).
  destruct ES as (ss & ES & SUM), ED as (ds & ED).
  destruct (resolve_stores_means (fun _ => true) sampled_image plain_image example_resolve 16 4 ss ds no_commands) as (w & Q & W);
    [apply sampled_image_bound|apply plain_image_bound|reflexivity|reflexivity|reflexivity|reflexivity| |exact ES|exact ED|vm_compute; reflexivity|].
  { split; vm_compute; try (split; congruence). left. congruence. }
  exists ss, ds, w. split; [exact ES|]. split; [exact ED|]. split; [exact Q|]. destruct (W (fun a => a / 0x4000 mod 256)) as [W1 _].
  refine (eq_trans (W1 5 7 1 _ _) _); [repeat split; vm_compute; congruence|split; vm_compute; congruence|]. rewrite SUM. reflexivity.
Defined.

(** Of a two-byte component - 255 twice and 256 twice - the mean is 256; byte by
    byte it comes out as 128 + 256. *)
Definition word_samples (a : Z) : Z := if a / 0x4000 mod 4 <? 2 then (if a mod 2 =? 0 then 255 else 0) else (if a mod 2 =? 0 then 0 else 1).

Example bytewise_mean_of_words : exists ss, image_copy_side sampled_image (Subresource ASPECT_COLOR 0 0 1) = Some (16, ss) /\
  map (fun s => le_value (map (fun byte => word_samples (slot ss 0 0 s + byte)) (seqZ 0 2))) (seqZ 0 4) = [255; 255; 256; 256] /\
  le_value (map (fun byte => (sample_sum ss word_samples 0 0 byte + 2) / 4) (seqZ 0 2)) = 384 /\ (255 + 255 + 256 + 256 + 2) / 4 = 256.
Proof. eexists. split; [vm_compute; reflexivity|]. split; [vm_compute; reflexivity|]. split; vm_compute; reflexivity. Qed.
