(* ===== verification/ImageMoves.v ===== *)
(** * Copies between images

    vkCmdCopyImage between two images the driver created: what one region
    records, and that running it moves the region's texels and nothing else,
    whichever of the two storages each image has, for regions that begin at
    multiples of a tiled side's run. *)

From Stdlib Require Import ZArith Lia.
From stdpp Require Import base numbers list.
From S2P Require Import Prelude Bytes DriverPrelude DriverMemory DirectMemory CopySteps BlitPool XorMaps ImageTiles ImageLayout ImageRuns ImageCopies ImageTransfers ImageEffects ImageClears.
Open Scope Z_scope.

(** A region of a copy (Vulkan's valid usage): it lies in both levels, and the
    images' memory is apart. *)
Record copy_valid (source destination : image) (r : image_region) : Prop := {
  cv_source_level : 0 <= sr_level (ir_source r) < sh_levels (im_shape source);
  cv_level : 0 <= sr_level (ir_destination r) < sh_levels (im_shape destination);
  cv_extent : 0 < ir_width r /\ 0 < ir_height r;
  cv_source_x : 0 <= ir_source_x r /\ ir_source_x r + ir_width r <= level_width (im_shape source) (sr_level (ir_source r));
  cv_source_y : 0 <= ir_source_y r /\ ir_source_y r + ir_height r <= level_height (im_shape source) (sr_level (ir_source r));
  cv_x : 0 <= ir_destination_x r /\ ir_destination_x r + ir_width r <= level_width (im_shape destination) (sr_level (ir_destination r));
  cv_y : 0 <= ir_destination_y r /\ ir_destination_y r + ir_height r <= level_height (im_shape destination) (sr_level (ir_destination r));
  cv_apart : im_address source + im_size source <= im_address destination \/ im_address destination + im_size destination <= im_address source
}.

Definition region_moves (r : image_region) (tb : Z) (ss ds : copy_side) : region_copy :=
  RegionCopy 0 0 ss ds (s32 (ir_source_x r)) (s32 (ir_source_y r)) (u32 (ir_destination_x r)) (u32 (ir_destination_y r)) (ir_width r) (ir_height r) tb 0 0 [].

(** The images of one format, one sample each, as the commands ask for. *)
Record one_format (source destination : image) : Prop := {
  of_source : bound_image source;
  of_destination : bound_image destination;
  of_format : sh_format (im_shape source) = sh_format (im_shape destination);
  of_samples : sh_samples (im_shape source) = 1 /\ sh_samples (im_shape destination) = 1;
  of_depth : fmt_depth (sh_format (im_shape source)) = true -> sh_levels (im_shape source) = 1 /\ sh_levels (im_shape destination) = 1
}.

Lemma plane_kind im aspect p : image_plane_of im aspect = Some p -> pl_depth_map p = (fmt_depth (sh_format (im_shape im)) || fmt_stencil (sh_format (im_shape im))).
Proof.
  intros P. apply image_plane_cases in P. cbv zeta in P. destruct P as [(P1 & P2 & ->)|[(P1 & ->)|(P1 & P2 & ->)]]; cbn [pl_depth_map]; rewrite ?P1, ?P2; [done|done|now rewrite orb_true_r].
Qed.

Section Copy.
Context (source destination : image) (r : image_region) (tb : Z) (ss ds : copy_side).
Context (O : one_format source destination) (V : copy_valid source destination r).
Context (ES : image_copy_side source (ir_source r) = Some (tb, ss)) (ED : image_copy_side destination (ir_destination r) = Some (tb, ds)).
Context (YS : sr_layer (ir_source r) = 0) (YD : sr_layer (ir_destination r) = 0).
Context (AS : im_storage source = STORAGE_TILES -> ir_source_x r mod side_run tb ss = 0) (AD : im_storage destination = STORAGE_TILES -> ir_destination_x r mod side_run tb ds = 0).

Abbreviation W := (ir_width r).
Abbreviation H := (ir_height r).
Abbreviation from_ := (fun x y => texel_at ss tb (ir_source_x r + x) (ir_source_y r + y)).
Abbreviation to_ := (fun x y => texel_at ds tb (ir_destination_x r + x) (ir_destination_y r + y)).

Lemma depth_source : fmt_depth (sh_format (im_shape source)) = true -> sh_levels (im_shape source) = 1.
Proof. intros D. apply (of_depth _ _ O D). Qed.
Lemma depth_destination : fmt_depth (sh_format (im_shape destination)) = true -> sh_levels (im_shape destination) = 1.
Proof. intros D. rewrite <- (of_format _ _ O) in D. apply (of_depth _ _ O D). Qed.

Abbreviation on_source f := (f source (ir_source r) tb ss (of_source _ _ O) (proj1 (of_samples _ _ O)) depth_source YS (cv_source_level _ _ _ V) ES).
Abbreviation on_destination f := (f destination (ir_destination r) tb ds (of_destination _ _ O) (proj2 (of_samples _ _ O)) depth_destination YD (cv_level _ _ _ V) ED).

(** The runs of two tiled sides of one format are the same. *)
Lemma one_run : im_storage source = STORAGE_TILES -> im_storage destination = STORAGE_TILES -> copy_side_run_bytes ss tb = copy_side_run_bytes ds tb.
Proof.
  intros TS TD. destruct (side_shape source (ir_source r) tb ss (of_source _ _ O) (proj1 (of_samples _ _ O)) ES) as (p & P & _ & EB & SM & D & _).
  destruct (side_shape destination (ir_destination r) tb ds (of_destination _ _ O) (proj2 (of_samples _ _ O)) ED) as (p' & P' & _ & EB' & SM' & D' & _).
  apply plane_kind in P, P'. unfold copy_side_run_bytes. rewrite (copy_side_tiled _ _ _ _ TS ES), (copy_side_tiled _ _ _ _ TD ED), EB, EB', SM, SM', D, D', P, P', (of_format _ _ O). done.
Qed.

Lemma copy_runs : let n := copy_run_texels (region_moves r tb ss ds) in 0 < n < 2 ^ 32 /\
  (im_storage source = STORAGE_TILES -> n = side_run tb ss /\ ir_source_x r mod n = 0) /\ (im_storage destination = STORAGE_TILES -> n = side_run tb ds /\ ir_destination_x r mod n = 0).
Proof.
  destruct (side_shape source (ir_source r) tb ss (of_source _ _ O) (proj1 (of_samples _ _ O)) ES) as (p & _ & _ & _ & _ & _ & T).
  pose proof one_run as OR. destruct (level_extent source (ir_source r) (of_source _ _ O) (cv_source_level _ _ _ V)) as [WS _].
  pose proof (cv_extent _ _ _ V) as X. pose proof (cv_source_x _ _ _ V) as XS. pose proof (cv_x _ _ _ V) as XD.
  assert (rows : forall im sub side, bound_image im -> 0 <= sr_level sub < sh_levels (im_shape im) -> image_copy_side im sub = Some (tb, side) -> im_storage im = STORAGE_ROWS -> copy_side_run_bytes side tb = UINT64_MAX).
  { intros im sub side B L E R. destruct (row_side_of im sub tb side B R L E) as (RS & _). unfold copy_side_run_bytes. now rewrite (row_tiled _ _ _ RS). }
  assert (tiles : forall side, copy_side_run_bytes side tb = side_run tb side * tb -> 1 <= side_run tb side <= 8 -> copy_side_run_bytes side tb < UINT64_MAX) by (intros; unfold UINT64_MAX; nia).
  unfold copy_run_texels, region_moves. cbn [rc_source_texel_bytes rc_source_side rc_destination_side rc_width].
  assert (G : forall side, 1 <= side_run tb side <= 8 -> Z.max (copy_side_run_bytes side tb / tb) 1 = side_run tb side) by (intros side R; unfold side_run in *; lia).
  destruct (im_storage source) eqn:TS, (im_storage destination) eqn:TD.
  - rewrite (rows _ _ _ (of_source _ _ O) (cv_source_level _ _ _ V) ES TS), (rows _ _ _ (of_destination _ _ O) (cv_level _ _ _ V) ED TD), Z.min_id, Z.eqb_refl. split; [lia|]. split; discriminate.
  - destruct (on_destination tiled_runs TD) as (RB & RN & _). pose proof (tiles ds RB RN) as RU. rewrite (rows _ _ _ (of_source _ _ O) (cv_source_level _ _ _ V) ES TS), Z.min_r by lia.
    rewrite (proj2 (Z.eqb_neq _ _)) by lia. rewrite G by done. split; [lia|]. split; [discriminate|]. intros _. auto.
  - destruct (on_source tiled_runs TS) as (RB & RN & _). pose proof (tiles ss RB RN) as RU. rewrite (rows _ _ _ (of_destination _ _ O) (cv_level _ _ _ V) ED TD), Z.min_l by lia.
    rewrite (proj2 (Z.eqb_neq _ _)) by lia. rewrite G by done. split; [lia|]. split; [|discriminate]. intros _. auto.
  - destruct (on_source tiled_runs TS) as (RB & RN & _), (on_destination tiled_runs TD) as (RB' & RN' & _). specialize (OR eq_refl eq_refl). pose proof (tiles ss RB RN) as RU. rewrite OR in *. rewrite Z.min_id.
    rewrite (proj2 (Z.eqb_neq _ _)) by lia. rewrite G by done. assert (Q : side_run tb ss = side_run tb ds) by (unfold side_run; now rewrite OR).
    rewrite Q in *. split; [lia|]. auto.
Qed.

Lemma region_moved m : moved W H tb 0 from_ to_ (fun _ _ => True) m (image_copy_execute (region_moves r tb ss ds) m).
Proof.
  destruct copy_runs as (N & NS & ND). set (c := region_moves r tb ss ds) in *. pose proof V as [LS LD (W0 & H0) (X1 & X2) (Y1 & Y2) (X3 & X4) (Y3 & Y4) A].
  destruct (side_shape source (ir_source r) tb ss (of_source _ _ O) (proj1 (of_samples _ _ O)) ES) as (p & _ & _ & _ & _ & _ & T).
  destruct (level_extent source (ir_source r) (of_source _ _ O) LS) as [WS HS], (level_extent destination (ir_destination r) (of_destination _ _ O) LD) as [WD HD].
  assert (FR : forall x y, read_at c tb x y = texel_at ss tb (ir_source_x r + x) (ir_source_y r + y)).
  { intros x y. unfold read_at. cbn [c region_moves rc_source_side rc_source_x rc_source_y]. now rewrite !s32_small by lia. }
  assert (TO : forall x y, written_at c tb x y = texel_at ds tb (ir_destination_x r + x) (ir_destination_y r + y)).
  { intros x y. unfold written_at. cbn [c region_moves rc_destination_side rc_destination_x rc_destination_y]. now rewrite !u32_small by lia. }
  assert (G : moved W H tb 0 (read_at c tb) (written_at c tb) (fun _ _ => True) m (image_copy_execute c m)).
  { apply (copy_moved c (level_width (im_shape source) (sr_level (ir_source r))) (level_height (im_shape source) (sr_level (ir_source r)))
      (level_width (im_shape destination) (sr_level (ir_destination r))) (level_height (im_shape destination) (sr_level (ir_destination r)))).
    - constructor; cbn [c region_moves rc_source_x rc_source_y rc_width rc_height rc_source_texel_bytes]; rewrite ?s32_small by lia; lia.
    - constructor; cbn [c region_moves rc_destination_x rc_destination_y rc_width rc_height rc_source_texel_bytes]; rewrite ?u32_small by lia; lia.
    - exact N.
    - cbn [c region_moves rc_width rc_height rc_source_texel_bytes]. fold c. intros x i y X M I B' Yb. rewrite !FR. apply (on_source run_follows (copy_run_texels c)); (exact NS || lia).
    - cbn [c region_moves rc_width rc_height rc_source_texel_bytes]. fold c. intros x i y X M I B' Yb. rewrite !TO. apply (on_destination run_follows (copy_run_texels c)); (exact ND || lia).
    - cbn [c region_moves rc_width rc_height rc_source_texel_bytes]. fold c. intros x q x' q' a [I1 I2] [I1' I2']. rewrite !TO. intros P P'.
      destruct (on_destination texels_apart (ir_destination_x r + x) (ir_destination_y r + q) (ir_destination_x r + x') (ir_destination_y r + q') a); auto; lia.
    - cbn [c region_moves rc_width rc_height rc_source_texel_bytes]. fold c. intros x q x' q' a [I1 I2] [I1' I2']. rewrite FR, TO. unfold in_texel. intros P P'.
      pose proof (on_source texel_inside (ir_source_x r + x) (ir_source_y r + q) ltac:(lia) ltac:(lia)). pose proof (on_destination texel_inside (ir_destination_x r + x') (ir_destination_y r + q') ltac:(lia) ltac:(lia)). lia. }
  destruct G as [GI GO]. split.
  - intros x y j I D J. rewrite <- TO, <- FR. now apply GI.
  - intros a N'. apply GO. intros x y I D. rewrite TO. now apply N'.
Qed.
End Copy.

Lemma copy_recorded grows source destination cb cb' r tb ss ds : image_copy_side source (ir_source r) = Some (tb, ss) -> image_copy_side destination (ir_destination r) = Some (tb, ds) ->
  copy_region grows source destination cb r = inl cb' -> sr_layer (ir_source r) = 0 /\ sr_layer (ir_destination r) = 0 /\ cb' = appended cb (CopyWalk (region_moves r tb ss ds)).
Proof.
  intros ES ED. unfold copy_region, region_sides. rewrite ES, ED. destruct (_ && _); [done|]. destruct (_ || _) eqn:C; [done|]. destruct (sr_aspect _ =? sr_aspect _); [|done]. intros Q. apply record_walk_inl in Q as ->.
  apply orb_false_iff in C as [C C4]. apply orb_false_iff in C as [C C3]. apply negb_false_iff, Z.eqb_eq in C3, C4. auto.
Qed.

Lemma copy_refused grows source destination cb cb' r : copy_region grows source destination cb r = inr cb' -> cb_refusal cb' <> None.
Proof. unfold copy_region. destruct (region_sides _ _ _) as [|[[? ?] ?]]; [|apply record_walk_inr]. injection 1 as <-. apply refuse_refused. Qed.

(** C14: A copy between two images of one format that is not refused, of a region
    that begins at a multiple of the run on a tiled side, appends one walk, and
    running it gives each texel of the destination's rectangle the bytes of its
    texel of the source's and changes no other byte, whichever of the storages
    and maps the two images have. *)
Theorem image_copy_moves_texels grows source destination r tb ss ds cb m : one_format source destination -> copy_valid source destination r ->
  image_copy_side source (ir_source r) = Some (tb, ss) -> image_copy_side destination (ir_destination r) = Some (tb, ds) ->
  (im_storage source = STORAGE_TILES -> ir_source_x r mod side_run tb ss = 0) -> (im_storage destination = STORAGE_TILES -> ir_destination_x r mod side_run tb ds = 0) ->
  cb_refusal (copy_image grows source destination [r] cb) = None ->
  exists w, copy_image grows source destination [r] cb = appended cb w /\
    moved (ir_width r) (ir_height r) tb 0 (fun x y => texel_at ss tb (ir_source_x r + x) (ir_source_y r + y))
      (fun x y => texel_at ds tb (ir_destination_x r + x) (ir_destination_y r + y)) (fun _ _ => True) m (run_walk w m).
Proof.
  intros O V ES ED AS AD R. unfold copy_image in *. destruct (cb_refusal cb) eqn:RC; [congruence|]. destruct (transfer_check source destination true); [now apply refuse_refused in R|]. cbn [record_regions] in *.
  destruct (copy_region grows source destination cb r) as [cb'|cb'] eqn:Q; [|now apply copy_refused in Q]. destruct (copy_recorded _ _ _ _ _ _ _ _ _ ES ED Q) as (YS & YD & ->).
  eexists. split; [reflexivity|]. now apply (region_moved source destination).
Qed.

(** ** An example: a packed level into rows *)

Definition rows_image : image := bind_image_memory (example_image rgba8_reversed 0 64 64 1 1 1) 0x300000000 0.
Definition example_copy : image_region := ImageRegion packed_level (Subresource ASPECT_COLOR 0 0 1) 8 3 5 6 9 4.

Lemma rows_image_bound : bound_image rows_image.
Proof.
  apply rebound; [|vm_compute; split; congruence]. apply example_bound; [|reflexivity|vm_compute; discriminate].
  constructor; unfold PS5VK_MAX_EXTENT_2D, PS5VK_MAX_MIP_LEVELS, PS5VK_MAX_ARRAY_LAYERS; cbn; try lia; try discriminate. left.
Defined.

Lemma image_copy_moves_texels_witness : exists ss ds w, image_copy_side packed_image packed_level = Some (4, ss) /\ image_copy_side rows_image (Subresource ASPECT_COLOR 0 0 1) = Some (4, ds) /\
  copy_image (fun _ => true) packed_image rows_image [example_copy] no_commands = appended no_commands w /\
  run_walk w (fun a => a mod 251) (texel_at ds 4 (5 + 7) (6 + 2) + 1) = (texel_at ss 4 (8 + 7) (3 + 2) + 1) mod 251.
Proof.
  assert (ES : exists ss, image_copy_side packed_image packed_level = Some (4, ss) /\ side_run 4 ss = 4) by (eexists; split; [vm_compute; reflexivity|vm_compute; reflexivity]).
  assert (ED : exists ds, image_copy_side rows_image (Subresource ASPECT_COLOR 0 0 1) = Some (4, ds)) by (eexists; vm_compute; reflexivity).
  destruct ES as (ss & ES & RN), ED as (ds & ED).
  destruct (image_copy_moves_texels (fun _ => true) packed_image rows_image example_copy 4 ss ds no_commands (fun a => a mod 251)) as (w & Q & M);
    [split; [apply packed_image_bound|apply rows_image_bound|reflexivity|split; reflexivity|discriminate]| |exact ES|exact ED|intros _; rewrite RN; reflexivity|discriminate|vm_compute; reflexivity|].
  { split; vm_compute; try (split; congruence). left. congruence. }
  exists ss, ds, w. split; [exact ES|]. split; [exact ED|]. split; [exact Q|].
  refine (eq_trans (moved_in _ _ _ _ _ _ _ _ _ M 7 2 1 _ I _) _); [repeat split; vm_compute; congruence|split; vm_compute; congruence|reflexivity].
Defined.
