(* ===== verification/ShaderKeys.v ===== *)
(** * Keys of compiled shaders ([src/driver/ps5vk_shader_cache.c])

    A compiler output is kept under a digest of everything it was compiled from:
    the driver's build, the module, the entry point, each field of the compiler's
    options and the specialization data.  The file's name is the digest in
    hexadecimal, in the build's own directory. *)

From Stdlib Require Import ZArith Lia String Ascii.
From stdpp Require Import base numbers list.
From S2P Require Import Prelude Bytes.
Open Scope Z_scope.

(** ** Strings of the C library *)

(** [snprintf(s, n, "%s", text)]: what fits before the terminator. *)
Definition snprintf (n : nat) (text : string) : string := String.substring 0 (n - 1) text.

(** The characters up to the first of a set, [strcspn]. *)
Fixpoint cut_before (stop : list ascii) (text : string) : string :=
  match text with
  | EmptyString => EmptyString
  | String c text' => if existsb (Ascii.eqb c) stop then EmptyString else String c (cut_before stop text')
  end.

Definition line_ends : list ascii := ["013"%char; "010"%char; "000"%char].

(** ** The compiler's options *)

(** [PsbcVertexAttribute], [PsbcDescriptorBinding], [PsbcSpecializationEntry]:
    the fields the key reads. *)
Record vertex_attribute := VertexAttribute {
  va_location : Z; va_binding : Z; va_format : Z; va_offset : Z; va_stride : Z; va_alignment : Z; va_instance_divisor : Z
}.
Record descriptor_binding := DescriptorBinding {
  db_set : Z; db_binding : Z; db_type : Z; db_array_size : Z; db_offset : Z; db_stride : Z
}.
Record specialization_entry := SpecializationEntry { se_constant_id : Z; se_offset : Z; se_size : Z }.

(** [PsbcCompileOptions]: an array is given by the elements its count names. *)
Record compile_options := CompileOptions {
  entrypoint : option string;
  target : Z; stage : Z; optimise : Z; ngg : Z;
  omit_implicit_primitive_id : Z; primitive_id_per_primitive : Z;
  ps5_global_streamout : Z; ps5_global_primitive_query : Z;
  split_vertex_instances : Z; force_accelerated_dot : Z; primitive_type : Z;
  provoking_vtx_last : Z; flat_input_vertex_valid : Z; flat_input_vertex : Z;
  address32_hi : Z; multiview : Z;
  vertex_attributes : list vertex_attribute;
  descriptor_bindings : list descriptor_binding;
  rasterization_samples : Z; spi_shader_col_format : Z;
  color_is_int8 : Z; color_is_int10 : Z; gallium_buffer_arrays : Z;
  compute_private_buffer : Z; compute_buffer_spills : Z;
  specialization_entries : list specialization_entry;
  specialization_data : Bytes
}.

(** The sizes of the fields, which the compiler's header gives. *)
Class CompilerTypes := {
  head_widths : list nat;
  attribute_count_width : nat;
  attribute_widths : list nat;
  binding_count_width : nat;
  binding_widths : list nat;
  tail_widths : list nat;
  entry_count_width : nat;
  data_size_width : nat;
  entry_widths : list nat
}.

(** BLAKE3 and its hexadecimal form, from Mesa. *)
Class Blake3 := { blake3 : Bytes -> Bytes; blake3_hex : Bytes -> string }.

Class Blake3Laws `{Blake3} := {
  blake3_size b : size (blake3 b) = 32;
  blake3_bytes b : bytes_ok (blake3 b);
  blake3_hex_inj a b : bytes_ok a -> bytes_ok b -> blake3_hex a = blake3_hex b -> a = b
}.

(** ** The key *)

Definition attribute_values (a : vertex_attribute) : list Z :=
  [va_location a; va_binding a; va_format a; va_offset a; va_stride a; va_alignment a; va_instance_divisor a].
Definition binding_values (b : descriptor_binding) : list Z :=
  [db_set b; db_binding b; db_type b; db_array_size b; db_offset b; db_stride b].
Definition entry_values (e : specialization_entry) : list Z := [se_constant_id e; se_offset e; se_size e].

Definition head_values (o : compile_options) : list Z :=
  [target o; stage o; optimise o; ngg o;
   omit_implicit_primitive_id o; primitive_id_per_primitive o;
   ps5_global_streamout o; ps5_global_primitive_query o;
   split_vertex_instances o; force_accelerated_dot o; primitive_type o;
   provoking_vtx_last o; flat_input_vertex_valid o; flat_input_vertex o;
   address32_hi o; multiview o].
Definition tail_values (o : compile_options) : list Z :=
  [rasterization_samples o; spi_shader_col_format o;
   color_is_int8 o; color_is_int10 o; gallium_buffer_arrays o;
   compute_private_buffer o; compute_buffer_spills o].

(** [FIELD] of each of a list of values. *)
Fixpoint fields (widths : list nat) (values : list Z) : Bytes :=
  match widths, values with
  | w :: widths', v :: values' => le_bytes w v ++ fields widths' values'
  | _, _ => []
  end.

(** [FIELD] in a loop over an array. *)
Definition fields_of {A : Type} (widths : list nat) (values : A -> list Z) (l : list A) : Bytes :=
  concat (map (fun a => fields widths (values a)) l).

(** [options->entrypoint ? options->entrypoint : "main"] *)
Definition entry_name (o : compile_options) : string := default "main"%string (entrypoint o).

Section Keys.
Context `{CompilerTypes} `{Blake3}.

(** The bytes the key's hash is given, in the order of its updates. *)
Definition key_input (build : string) (words : Bytes) (o : compile_options) : Bytes :=
  bytes_of_string build ++ le_bytes 8 (size words) ++ words ++ bytes_of_string (entry_name o) ++ [0] ++
  fields head_widths (head_values o) ++
  le_bytes attribute_count_width (size (vertex_attributes o)) ++
  fields_of attribute_widths attribute_values (vertex_attributes o) ++
  le_bytes binding_count_width (size (descriptor_bindings o)) ++
  fields_of binding_widths binding_values (descriptor_bindings o) ++
  fields tail_widths (tail_values o) ++
  le_bytes entry_count_width (size (specialization_entries o)) ++
  le_bytes data_size_width (size (specialization_data o)) ++
  fields_of entry_widths entry_values (specialization_entries o) ++
  specialization_data o.

(** [struct ps5vk_shader_cache_key] *)
Record cache_key := CacheKey { k_path : string; k_digest : Bytes }.

Definition KEY_PATH_BYTES : nat := 1024.

Definition entry_path (directory : string) (digest : Bytes) : string := (directory ++ "/" ++ blake3_hex digest ++ ".bin")%string.

(** [ps5vk_shader_cache_key]: false without a directory or words, or when the
    name does not fit. *)
Definition shader_cache_key (directory : option string) (build : string) (words : Bytes) (o : compile_options) : option cache_key :=
  match directory with
  | None => None
  | Some d =>
      if size words =? 0 then None
      else let digest := blake3 (key_input build words o) in
           let text := entry_path d digest in
           if (0 <? String.length text)%nat && (String.length text <? KEY_PATH_BYTES)%nat
           then Some (CacheKey (snprintf KEY_PATH_BYTES text) digest) else None
  end.

(** [ps5vk_shader_cache_nir_key]: the blob of a shader Mesa serialized; [None]
    when it ran out of memory. *)
Definition nir_blob (serialized : Bytes) : Bytes := le_bytes 4 0 ++ serialized.
Definition shader_cache_nir_key (directory : option string) (build : string) (serialized : option Bytes) (o : compile_options) : option cache_key :=
  match serialized with
  | None => None
  | Some b => shader_cache_key directory build (nir_blob b) o
  end.

(** What is compiled: a module's words, or a shader of Mesa's, by what its serialization is. *)
Inductive shader_source := Spirv (words : Bytes) | Nir (serialized : Bytes).

Definition source_bytes (s : shader_source) : Bytes := match s with Spirv words => words | Nir b => nir_blob b end.

(** The key [ps5vk_compile_shader_deep] makes. *)
Definition source_key (directory : option string) (build : string) (s : shader_source) (o : compile_options) : option cache_key :=
  match s with
  | Spirv words => shader_cache_key directory build words o
  | Nir b => shader_cache_nir_key directory build (Some b) o
  end.

End Keys.

(** ** The directory *)

(** [ps5vk_shader_cache_directory_setup] and what [ps5vk_shader_cache_directory]
    then returns; [made] says whether the directories exist after it. *)
Definition cache_directory (linux : bool) (environment hook : option string) (build : string) (made : bool) : option string :=
  let base :=
    match environment with
    | Some e => snprintf 512 e
    | None =>
        if linux then EmptyString
        else let line := match hook with Some text => cut_before line_ends (snprintf 512 text) | None => EmptyString end in
             if (line =? "")%string then "/app0/ps5vk-shader-cache"%string else line
    end in
  if (base =? "")%string then None
  else if negb made then None
  else let directory := snprintf 768 (base ++ "/" ++ snprintf 17 build)%string in
       if (directory =? "")%string then None else Some directory.

(** ** Options as the C types hold them *)

Section Fits.
Context `{CompilerTypes}.

Definition value_fits (w : nat) (v : Z) : bool := (0 <=? v) && (v <? 256 ^ Z.of_nat w).
Fixpoint values_fit (widths : list nat) (values : list Z) : bool :=
  match widths, values with
  | [], [] => true
  | w :: widths', v :: values' => value_fits w v && values_fit widths' values'
  | _, _ => false
  end.

Definition no_nul (s : string) : bool := negb (existsb (Z.eqb 0) (bytes_of_string s)).

(** Every value fits its field, and the entry point is a C string. *)
Definition options_fit (o : compile_options) : bool :=
  no_nul (entry_name o) &&
  values_fit head_widths (head_values o) && values_fit tail_widths (tail_values o) &&
  value_fits attribute_count_width (size (vertex_attributes o)) &&
  forallb (fun a => values_fit attribute_widths (attribute_values a)) (vertex_attributes o) &&
  value_fits binding_count_width (size (descriptor_bindings o)) &&
  forallb (fun b => values_fit binding_widths (binding_values b)) (descriptor_bindings o) &&
  value_fits entry_count_width (size (specialization_entries o)) &&
  value_fits data_size_width (size (specialization_data o)) &&
  forallb (fun e => values_fit entry_widths (entry_values e)) (specialization_entries o).

(** A module begins with SPIR-V's magic number. *)
Definition spirv_magic : Bytes := [0x03; 0x02; 0x23; 0x07].
Definition source_valid (s : shader_source) : bool :=
  (size (source_bytes s) <? 2 ^ 64) &&
  match s with
  | Spirv words => if decide (take 4 words = spirv_magic) then true else false
  | Nir _ => true
  end.

(** The same up to the default entry point's name. *)
Definition with_entry (e : option string) (o : compile_options) : compile_options :=
  CompileOptions e (target o) (stage o) (optimise o) (ngg o)
   (omit_implicit_primitive_id o) (primitive_id_per_primitive o)
   (ps5_global_streamout o) (ps5_global_primitive_query o)
   (split_vertex_instances o) (force_accelerated_dot o) (primitive_type o)
   (provoking_vtx_last o) (flat_input_vertex_valid o) (flat_input_vertex o)
   (address32_hi o) (multiview o) (vertex_attributes o) (descriptor_bindings o)
   (rasterization_samples o) (spi_shader_col_format o)
   (color_is_int8 o) (color_is_int10 o) (gallium_buffer_arrays o)
   (compute_private_buffer o) (compute_buffer_spills o)
   (specialization_entries o) (specialization_data o).
Definition plain_options (o : compile_options) : compile_options := with_entry (Some (entry_name o)) o.

End Fits.

(** ** Strings *)

Lemma snprintf_whole n s : (String.length s < n)%nat -> snprintf n s = s.
Proof.
  intros L. unfold snprintf. assert (M : (String.length s <= n - 1)%nat) by lia. clear L. revert M. generalize (n - 1)%nat.
  induction s as [|c s IH]; intros [|k] I; cbn in *; try done; try lia. rewrite IH by lia. done.
Qed.

Lemma bytes_of_string_app a b : bytes_of_string (a ++ b) = bytes_of_string a ++ bytes_of_string b.
Proof. induction a as [|c a IH]; [done|]. unfold bytes_of_string in *. cbn. now rewrite IH. Qed.

Lemma string_length_app a b : String.length (a ++ b) = (String.length a + String.length b)%nat.
Proof. induction a; cbn; congruence. Qed.

(** An entry's name is no temporary name. *)
Lemma suffixes_differ a b : (a ++ ".bin")%string <> (b ++ ".tmp")%string.
Proof.
  intros E. apply (f_equal bytes_of_string) in E. rewrite !bytes_of_string_app in E.
  apply app_inj_2 in E as [_ E]; [|done]. vm_compute in E. discriminate.
Qed.

Lemma string_app_assoc a b c : (a ++ (b ++ c))%string = ((a ++ b) ++ c)%string.
Proof. induction a; cbn; congruence. Qed.

(** ** Unique reading *)

Lemma le_bytes_inj n a b : 0 <= a < 256 ^ Z.of_nat n -> 0 <= b < 256 ^ Z.of_nat n -> le_bytes n a = le_bytes n b -> a = b.
Proof.
  intros A B E. apply (f_equal le_value) in E. rewrite !le_value_bytes in E. now rewrite !Z.mod_small in E by lia.
Qed.

Lemma value_fits_range w v : value_fits w v = true -> 0 <= v < 256 ^ Z.of_nat w.
Proof. unfold value_fits. intros E. apply andb_true_iff in E as [A B]. lia. Qed.

Lemma field_app_inj w a b x y :
  value_fits w a = true -> value_fits w b = true -> le_bytes w a ++ x = le_bytes w b ++ y -> a = b /\ x = y.
Proof.
  intros A B E. apply app_inj_1 in E as [E1 E2]; [|apply Nat2Z.inj; change (size (le_bytes w a) = size (le_bytes w b)); now rewrite !size_le_bytes].
  split; [|done]. eapply le_bytes_inj; eauto using value_fits_range.
Qed.

Lemma fields_app_inj ws vs vs' x y :
  values_fit ws vs = true -> values_fit ws vs' = true -> fields ws vs ++ x = fields ws vs' ++ y -> vs = vs' /\ x = y.
Proof.
  revert vs vs'. induction ws as [|w ws IH]; intros [|v vs] [|v' vs'] F F' E; try done.
  cbn in F, F', E. apply andb_true_iff in F as [F1 F2]. apply andb_true_iff in F' as [F1' F2'].
  rewrite <- !app_assoc in E. apply field_app_inj in E as [-> E]; [|done..].
  apply IH in E as [-> ->]; done.
Qed.

Lemma fields_of_app_inj {A} ws (values : A -> list Z) l l' x y :
  (forall a b, values a = values b -> a = b) ->
  forallb (fun a => values_fit ws (values a)) l = true -> forallb (fun a => values_fit ws (values a)) l' = true ->
  length l = length l' -> fields_of ws values l ++ x = fields_of ws values l' ++ y -> l = l' /\ x = y.
Proof.
  intros I. unfold fields_of. revert l'. induction l as [|a l IH]; intros [|b l'] F F' L E; try done.
  cbn in F, F', L, E. apply andb_true_iff in F as [F1 F2]. apply andb_true_iff in F' as [F1' F2'].
  rewrite <- !app_assoc in E. apply fields_app_inj in E as [E1 E]; [|done..]. apply I in E1 as ->.
  apply IH in E as [-> ->]; [done..|lia].
Qed.

Lemma nul_terminated_inj (a b x y : Bytes) :
  existsb (Z.eqb 0) a = false -> existsb (Z.eqb 0) b = false -> a ++ [0] ++ x = b ++ [0] ++ y -> a = b /\ x = y.
Proof.
  revert b. induction a as [|c a IH]; intros [|d b] A B E; cbn in A, B, E.
  - now injection E.
  - injection E as <- _. done.
  - injection E as -> _. done.
  - apply orb_false_iff in A as [_ A]. apply orb_false_iff in B as [_ B]. injection E as -> E.
    apply IH in E as [-> ->]; done.
Qed.

Lemma bytes_of_string_inj s t : bytes_of_string s = bytes_of_string t -> s = t.
Proof. intros E. apply (f_equal string_of_bytes) in E. now rewrite !string_of_bytes_of_string in E. Qed.

Lemma attribute_values_inj a b : attribute_values a = attribute_values b -> a = b.
Proof. destruct a, b. cbn. now intros [=->->->->->->->]. Qed.
Lemma binding_values_inj a b : binding_values a = binding_values b -> a = b.
Proof. destruct a, b. cbn. now intros [=->->->->->->]. Qed.
Lemma entry_values_inj a b : entry_values a = entry_values b -> a = b.
Proof. destruct a, b. cbn. now intros [=->->->]. Qed.

#[export] Hint Resolve attribute_values_inj binding_values_inj entry_values_inj : core.

Lemma size_fits {A} (l : list A) : size l < 2 ^ 64 -> value_fits 8 (size l) = true.
Proof.
  intros L. pose proof (size_nonneg l). unfold value_fits. change (256 ^ Z.of_nat 8) with (2 ^ 64).
  apply andb_true_iff. split; [now apply Z.leb_le|now apply Z.ltb_lt].
Qed.

Lemma size_eq_length {A} (l l' : list A) : size l = size l' -> length l = length l'.
Proof. unfold size. lia. Qed.

Section Unique.
Context `{CompilerTypes}.

Lemma plain_options_eq o o' :
  entry_name o = entry_name o' -> head_values o = head_values o' -> vertex_attributes o = vertex_attributes o' ->
  descriptor_bindings o = descriptor_bindings o' -> tail_values o = tail_values o' ->
  specialization_entries o = specialization_entries o' -> specialization_data o = specialization_data o' ->
  plain_options o = plain_options o'.
Proof.
  intros E1 E2 E3 E4 E5 E6 E7. unfold plain_options. rewrite <- E1. clear E1. destruct o, o'.
  unfold with_entry, head_values, tail_values in *. cbn in *. injection E2; injection E5; intros; subst. reflexivity.
Qed.

(** The options behind the entry point are read back. *)
Lemma key_input_inj build words words' o o' :
  size words < 2 ^ 64 -> size words' < 2 ^ 64 -> options_fit o = true -> options_fit o' = true ->
  key_input build words o = key_input build words' o' -> words = words' /\ plain_options o = plain_options o'.
Proof.
  intros W W' F F' E. unfold options_fit in F, F'. repeat rewrite andb_true_iff in F, F'. destruct_and!.
  unfold key_input in E. apply app_inv_head in E.
  apply field_app_inj in E as [E1 E]; [|now apply size_fits..].
  apply app_inj_1 in E as [-> E]; [|now apply size_eq_length].
  apply nul_terminated_inj in E as [E2 E]; [|now apply negb_true_iff..].
  apply fields_app_inj in E as [E3 E]; [|done..].
  apply field_app_inj in E as [L1 E]; [|done..]. apply fields_of_app_inj in E as [E4 E]; [|auto using size_eq_length..].
  apply field_app_inj in E as [L2 E]; [|done..]. apply fields_of_app_inj in E as [E5 E]; [|auto using size_eq_length..].
  apply fields_app_inj in E as [E6 E]; [|done..].
  apply field_app_inj in E as [L3 E]; [|done..]. apply field_app_inj in E as [_ E]; [|done..].
  apply fields_of_app_inj in E as [E7 E]; [|auto using size_eq_length..].
  split; [done|]. apply plain_options_eq; auto using bytes_of_string_inj.
Qed.

Lemma source_bytes_inj s s' : source_valid s = true -> source_valid s' = true -> source_bytes s = source_bytes s' -> s = s'.
Proof.
  unfold source_valid. intros V V' E. apply andb_true_iff in V as [_ V]. apply andb_true_iff in V' as [_ V'].
  destruct s as [w|b], s' as [w'|b']; cbn in E, V, V'.
  - now subst.
  - case_decide as D; [|done]. subst w. done.
  - case_decide as D; [|done]. subst w'. done.
  - injection E as ->. done.
Qed.

End Unique.

(** ** What a key stands for *)

Section Meaning.
Context `{CompilerTypes} `{Blake3}.

Lemma shader_cache_key_some d build words o k :
  shader_cache_key d build words o = Some k ->
  exists dir, d = Some dir /\ 0 < size words /\ k_digest k = blake3 (key_input build words o) /\
  k_path k = entry_path dir (k_digest k) /\ (String.length (k_path k) < KEY_PATH_BYTES)%nat.
Proof.
  unfold shader_cache_key. intros E. destruct d as [dir|]; [|done]. destruct (Z.eqb_spec (size words) 0) as [|Z]; [done|].
  cbv zeta in E. destruct (_ && _) eqn:L in E; [|done]. injection E as <-. cbn [k_digest k_path].
  apply andb_true_iff in L as [_ L]. apply Nat.ltb_lt in L. pose proof (size_nonneg words).
  rewrite snprintf_whole by exact L. exists dir. repeat split; [lia|exact L].
Qed.

Lemma source_key_bytes d build s o : source_key d build s o = shader_cache_key d build (source_bytes s) o.
Proof. now destruct s. Qed.

Lemma key_input_plain build words o : key_input build words (plain_options o) = key_input build words o.
Proof. reflexivity. Qed.

Lemma same_input build s s' o o' :
  source_valid s = true -> source_valid s' = true -> options_fit o = true -> options_fit o' = true ->
  key_input build (source_bytes s) o = key_input build (source_bytes s') o' ->
  s = s' /\ plain_options o = plain_options o'.
Proof.
  intros V V' F F' E.
  assert (B : forall t, source_valid t = true -> size (source_bytes t) < 2 ^ 64).
  { intros t T. unfold source_valid in T. apply andb_true_iff in T as [T _]. now apply Z.ltb_lt in T. }
  apply key_input_inj in E as [E1 E2]; [|auto..]. split; [|done]. now apply source_bytes_inj.
Qed.

(** C18: A key stands for one compilation: its digest is BLAKE3 of bytes that
    determine the module - or the serialized shader, and which of the two it
    is - and every option, an absent entry point being the default one; so two
    compilations share a key only when they are the same or BLAKE3 collides on
    those two inputs. *)
Theorem key_names_compilation d build s s' o o' k k' :
  source_valid s = true -> source_valid s' = true -> options_fit o = true -> options_fit o' = true ->
  source_key d build s o = Some k -> source_key d build s' o' = Some k' ->
  k_digest k = blake3 (key_input build (source_bytes s) o) /\
  k_digest k' = blake3 (key_input build (source_bytes s') o') /\
  (key_input build (source_bytes s) o = key_input build (source_bytes s') o' <->
   s = s' /\ plain_options o = plain_options o').
Proof.
  rewrite !source_key_bytes. intros V V' F F' K K'.
  apply shader_cache_key_some in K as (_ & _ & _ & K & _). apply shader_cache_key_some in K' as (_ & _ & _ & K' & _).
  split; [done|]. split; [done|]. split; [now apply same_input|].
  intros [-> P]. rewrite <- (key_input_plain build _ o), P. apply key_input_plain.
Qed.

End Meaning.

(** ** A concrete setting *)

Definition hex_digit (v : Z) : ascii := ascii_of_byte (if v <? 10 then 48 + v else 87 + v).
Fixpoint hex_string (b : Bytes) : string :=
  match b with
  | [] => EmptyString
  | v :: b' => String (hex_digit (v / 16)) (String (hex_digit (v mod 16)) (hex_string b'))
  end.

(** A digest for examples: 32 weighted sums of the bytes. *)
Definition sample_digest (b : Bytes) : Bytes :=
  map (fun i => fold_left (fun h v => (h * (2 * i + 3) + v + i) mod 256) b (i mod 256)) (indices 0 32).
#[export] Instance sample_blake3 : Blake3 := {| blake3 := sample_digest; blake3_hex := hex_string |}.

Lemma hex_digit_inj v w : 0 <= v < 16 -> 0 <= w < 16 -> hex_digit v = hex_digit w -> v = w.
Proof.
  assert (C : forallb (fun v => forallb (fun w => (v =? w) || negb (Ascii.eqb (hex_digit v) (hex_digit w))) (indices 0 16)) (indices 0 16) = true) by reflexivity.
  intros V W E. rewrite forallb_forall in C. specialize (C v). rewrite in_indices, forallb_forall in C.
  specialize (C ltac:(lia) w). rewrite in_indices in C. specialize (C ltac:(lia)).
  apply orb_true_iff in C as [C|C]; [now apply Z.eqb_eq|]. now rewrite E, Ascii.eqb_refl in C.
Qed.

Lemma hex_string_inj a b : bytes_ok a -> bytes_ok b -> hex_string a = hex_string b -> a = b.
Proof.
  revert b. induction a as [|v a IH]; intros [|w b] A B E; try done. cbn [hex_string] in E.
  apply Forall_cons in A as [A1 A2]. apply Forall_cons in B as [B1 B2].
  assert (R : forall z, 0 <= z < 256 -> 0 <= z / 16 < 16 /\ 0 <= z mod 16 < 16).
  { intros z Z. split; [split; [apply Z.div_pos; lia|apply Z.div_lt_upper_bound; lia]|apply Z.mod_pos_bound; lia]. }
  injection E as E1 E2 E3. apply R in A1, B1. apply hex_digit_inj in E1; [|tauto..]. apply hex_digit_inj in E2; [|tauto..].
  f_equal; [|now apply IH]. rewrite (Z.div_mod v 16), (Z.div_mod w 16) by lia. lia.
Qed.

#[export] Instance sample_blake3_laws : Blake3Laws.
Proof.
  split.
  - intros b. unfold size, blake3. cbn [sample_blake3]. unfold sample_digest. now rewrite length_map, indices_length.
  - intros b. apply Forall_forall. intros v V. apply list_elem_of_In, in_map_iff in V as (i & <- & _).
    apply fold_left_invariant; [|apply Z.mod_pos_bound; lia]. intros h x _. apply Z.mod_pos_bound. lia.
  - exact hex_string_inj.
Qed.

#[export] Instance sample_types : CompilerTypes := {|
  head_widths := [4; 4; 1; 1; 1; 1; 1; 1; 1; 1; 4; 1; 1; 1; 4; 1];
  attribute_count_width := 4; attribute_widths := [1; 1; 4; 4; 4; 4; 4];
  binding_count_width := 4; binding_widths := [4; 4; 4; 4; 4; 4];
  tail_widths := [4; 4; 4; 4; 1; 1; 1];
  entry_count_width := 4; data_size_width := 8; entry_widths := [4; 4; 8] |}%nat.

Definition sample_options (entry : option string) (stage : Z) : compile_options :=
  CompileOptions entry 1 stage 1 1 0 0 0 0 0 0 3 0 0 0 2 0
    [VertexAttribute 0 0 7 0 16 4 0] [DescriptorBinding 0 0 6 1 0 16]
    0 4 0 0 0 0 0 [SpecializationEntry 3 0 4] [7; 0; 0; 0].
Definition sample_source : shader_source := Spirv [0x03; 0x02; 0x23; 0x07; 0; 0; 1; 0].

Lemma key_names_compilation_witness :
  exists k k', source_key (Some "/app0/c"%string) "b" sample_source (sample_options None 0) = Some k /\
    source_key (Some "/app0/c"%string) "b" (Nir [1; 2]) (sample_options (Some "main"%string) 1) = Some k' /\
    k_digest k = blake3 (key_input "b" (source_bytes sample_source) (sample_options None 0)) /\
    (key_input "b" (source_bytes sample_source) (sample_options None 0) =
       key_input "b" (source_bytes (Nir [1; 2])) (sample_options (Some "main"%string) 1) <->
     sample_source = Nir [1; 2] /\ plain_options (sample_options None 0) = plain_options (sample_options (Some "main"%string) 1)).
Proof.
  pose (k := source_key (Some "/app0/c"%string) "b" sample_source (sample_options None 0)).
  pose (k' := source_key (Some "/app0/c"%string) "b" (Nir [1; 2]) (sample_options (Some "main"%string) 1)).
  destruct k as [a|] eqn:K; [|vm_compute in K; discriminate].
  destruct k' as [b|] eqn:K'; [|vm_compute in K'; discriminate].
  unfold k in K. unfold k' in K'.
  exists a, b. split; [exact K|]. split; [exact K'|].
  pose proof (key_names_compilation (Some "/app0/c"%string) "b" sample_source (Nir [1; 2]) (sample_options None 0)
    (sample_options (Some "main"%string) 1) a b eq_refl eq_refl eq_refl eq_refl K K') as (D & _ & I).
  exact (conj D I).
Defined.
