(* ===== verification/ShaderCache.v ===== *)
(** * The files and the queue of the shader cache ([src/driver/ps5vk_shader_cache.c])

    An output is written as a header with its key, a checksum and its sizes,
    then its wrapper and its machine code.  A load takes a file only when all of
    them agree; outputs whose files are not written yet are found in a queue. *)

From Stdlib Require Import ZArith Lia String Ascii.
From stdpp Require Import base numbers list.
From S2P Require Import Prelude Bytes ShaderKeys.
Open Scope Z_scope.

(** ** Outputs *)

(** [PsbcShaderMetadata], as the bytes of the C object; the compiler's header
    gives its size, the fields a load looks at and their limits. *)
Class ShaderMetadata := {
  metadata_size : Z;
  metadata_version : Bytes -> Z;
  context_register_count : Bytes -> Z;
  shader_register_count : Bytes -> Z;
  input_semantic_count : Bytes -> Z;
  output_semantic_count : Bytes -> Z;
  descriptor_binding_count : Bytes -> Z;
  PSBC_SHADER_METADATA_VERSION : Z;
  PSBC_MAX_CONTEXT_REGISTERS : Z;
  PSBC_MAX_SHADER_REGISTERS : Z;
  PSBC_MAX_SEMANTICS : Z;
  PSBC_MAX_DESCRIPTOR_BINDINGS : Z;
  header_padding : Z
}.

(** [PsbcShaderOutput]: the wrapper's bytes, the machine code's, the metadata. *)
Record shader_output := ShaderOutput { so_data : Bytes; so_code : Bytes; so_metadata : Bytes }.

Definition CACHE_MAX_BYTES : Z := 16 * 1024 * 1024.

(** [struct cache_header]; the padding at its end is written and read with it. *)
Record cache_header := CacheHeader {
  ch_key : Bytes; ch_checksum : Bytes; ch_data_bytes : Z; ch_code_bytes : Z; ch_metadata : Bytes; ch_padding : Bytes
}.

(** [struct cache_job] *)
Record cache_job := CacheJob { job_path : string; job_header : cache_header; job_data : Bytes; job_code : Bytes }.

Section Entries.
Context `{Blake3} `{ShaderMetadata}.

Definition header_size : Z := 32 + 32 + 8 + 8 + metadata_size + header_padding.

(** The header as [fwrite] writes it and as [fread] reads it. *)
Definition header_bytes (h : cache_header) : Bytes :=
  ch_key h ++ ch_checksum h ++ le_bytes 8 (ch_data_bytes h) ++ le_bytes 8 (ch_code_bytes h) ++ ch_metadata h ++ ch_padding h.
Definition read_header (c : Bytes) : cache_header :=
  CacheHeader (sub c 0 32) (sub c 32 32) (le_value (sub c 64 8)) (le_value (sub c 72 8))
              (sub c 80 metadata_size) (sub c (80 + metadata_size) header_padding).

(** [checksum] *)
Definition checksum (data_bytes code_bytes : Z) (metadata data code : Bytes) : Bytes :=
  blake3 (le_bytes 8 data_bytes ++ le_bytes 8 code_bytes ++ metadata ++ data ++ code).

(** What [ps5vk_shader_cache_store] keeps. *)
Definition storable (o : shader_output) : bool :=
  negb (size (so_code o) =? 0) && (size (so_data o) <=? CACHE_MAX_BYTES) && (size (so_code o) <=? CACHE_MAX_BYTES).

(** The job it makes: [calloc]'s zeros are the header's padding. *)
Definition make_job (k : cache_key) (o : shader_output) : cache_job :=
  CacheJob (snprintf KEY_PATH_BYTES (k_path k))
    (CacheHeader (k_digest k) (checksum (size (so_data o)) (size (so_code o)) (so_metadata o) (so_data o) (so_code o))
                 (size (so_data o)) (size (so_code o)) (so_metadata o) (zeros header_padding))
    (so_data o) (so_code o).

(** What [cache_write] writes. *)
Definition file_bytes (j : cache_job) : Bytes := header_bytes (job_header j) ++ job_data j ++ job_code j.

(** [cache_pending]: the first queued job of the key, its output copied. *)
Fixpoint cache_pending (k : cache_key) (queue : list cache_job) : option shader_output :=
  match queue with
  | [] => None
  | j :: queue' =>
      if decide (ch_key (job_header j) = k_digest k)
      then Some (ShaderOutput (job_data j) (job_code j) (ch_metadata (job_header j)))
      else cache_pending k queue'
  end.

(** The metadata a load takes. *)
Definition metadata_in_limits (m : Bytes) : bool :=
  (metadata_version m =? PSBC_SHADER_METADATA_VERSION) &&
  (context_register_count m <=? PSBC_MAX_CONTEXT_REGISTERS) &&
  (shader_register_count m <=? PSBC_MAX_SHADER_REGISTERS) &&
  (input_semantic_count m <=? PSBC_MAX_SEMANTICS) &&
  (output_semantic_count m <=? PSBC_MAX_SEMANTICS) &&
  (descriptor_binding_count m <=? PSBC_MAX_DESCRIPTOR_BINDINGS).

Definition header_valid (k : cache_key) (h : cache_header) : bool :=
  (if decide (ch_key h = k_digest k) then true else false) &&
  (ch_data_bytes h <=? CACHE_MAX_BYTES) && (0 <? ch_code_bytes h) && (ch_code_bytes h <=? CACHE_MAX_BYTES) &&
  metadata_in_limits (ch_metadata h).

(** [ps5vk_shader_cache_load], from the file's bytes on. *)
Definition load_file (k : cache_key) (c : Bytes) : option shader_output :=
  let h := read_header c in
  if negb ((header_size <=? size c) && header_valid k h) then None
  else
    let data := sub c header_size (ch_data_bytes h) in
    let code := sub c (header_size + ch_data_bytes h) (ch_code_bytes h) in
    if negb ((size data =? ch_data_bytes h) && (size code =? ch_code_bytes h) &&
             (size c =? header_size + ch_data_bytes h + ch_code_bytes h)) then None
    else if decide (checksum (ch_data_bytes h) (ch_code_bytes h) (ch_metadata h) data code = ch_checksum h)
    then Some (ShaderOutput data code (ch_metadata h))
    else None.

(** An output as the C types hold it: metadata of its size, bytes. *)
Definition output_ok (o : shader_output) : Prop :=
  size (so_metadata o) = metadata_size /\ bytes_ok (so_metadata o) /\ bytes_ok (so_data o) /\ bytes_ok (so_code o).

(** A key as [ps5vk_shader_cache_key] makes them. *)
Definition key_ok (k : cache_key) : Prop := size (k_digest k) = 32 /\ (String.length (k_path k) < KEY_PATH_BYTES)%nat.

(** The file of an output: any padding. *)
Definition entry_bytes (k : cache_key) (o : shader_output) (padding : Bytes) : Bytes :=
  header_bytes (CacheHeader (k_digest k) (checksum (size (so_data o)) (size (so_code o)) (so_metadata o) (so_data o) (so_code o))
                            (size (so_data o)) (size (so_code o)) (so_metadata o) padding) ++
  so_data o ++ so_code o.

End Entries.

Class MetadataLaws `{ShaderMetadata} := { metadata_size_ge : 0 <= metadata_size; header_padding_ge : 0 <= header_padding }.

(** ** Reading at places *)

Lemma sub_front {A} (a x : list A) n : size a = n -> sub (a ++ x) 0 n = a.
Proof. unfold size, sub. intros <-. rewrite Nat2Z.id. change (Z.to_nat 0) with 0%nat. rewrite drop_0. apply take_app_length. Qed.

Lemma sub_behind {A} (a x : list A) b n m : size a = m -> m <= b -> sub (a ++ x) b n = sub x (b - m) n.
Proof.
  unfold size, sub. intros <- L. f_equal. rewrite skipn_app.
  rewrite drop_ge by lia. cbn. f_equal. lia.
Qed.

Lemma sub_cut {A} (l : list A) a n m : 0 <= a -> 0 <= n -> 0 <= m -> sub l a (n + m) = sub l a n ++ sub l (a + n) m.
Proof.
  intros A0 N M. unfold sub. rewrite !Z2Nat.inj_add by lia. rewrite <- drop_drop.
  rewrite take_take_drop. done.
Qed.

Lemma le_bytes_of_value n l : bytes_ok l -> size l = Z.of_nat n -> le_bytes n (le_value l) = l.
Proof.
  revert l. induction n as [|n IH]; intros [|b l] B S; try done.
  apply Forall_cons in B as [B1 B2]. cbn [le_bytes le_value].
  rewrite (Z.mul_comm 256), Z.mod_add, Z.div_add, Z.mod_small, Z.div_small by lia.
  f_equal. apply IH; [done|]. unfold size in *. cbn in S. lia.
Qed.

Section Files.
Context `{B : Blake3} `{L : !Blake3Laws} `{M : ShaderMetadata} `{ML : !MetadataLaws}.

(** A header whose parts have the sizes of their fields. *)
Record header_fits (h : cache_header) : Prop := {
  hf_key : size (ch_key h) = 32;
  hf_checksum : size (ch_checksum h) = 32;
  hf_data : 0 <= ch_data_bytes h < 2 ^ 64;
  hf_code : 0 <= ch_code_bytes h < 2 ^ 64;
  hf_metadata : size (ch_metadata h) = metadata_size;
  hf_padding : size (ch_padding h) = header_padding
}.

Lemma size_header_bytes h : header_fits h -> size (header_bytes h) = header_size.
Proof. intros []. unfold header_bytes, header_size. rewrite !size_app, !size_le_bytes. lia. Qed.

Lemma read_header_bytes h rest : header_fits h -> read_header (header_bytes h ++ rest) = h.
Proof.
  intros []. unfold read_header, header_bytes. destruct h as [k s d c m p]. cbn [ch_key ch_checksum ch_data_bytes ch_code_bytes ch_metadata ch_padding] in *.
  rewrite <- !app_assoc.
  pose proof (size_le_bytes 8 d) as D. pose proof (size_le_bytes 8 c) as C. cbn [Z.of_nat] in D, C.
  f_equal.
  - now apply sub_front.
  - rewrite (sub_behind k) with (m := 32) by (done || lia). now apply sub_front.
  - rewrite (sub_behind k) with (m := 32), (sub_behind s) with (m := 32) by (done || lia).
    change (64 - 32 - 32) with 0. rewrite sub_front by done. rewrite le_value_bytes. now apply Z.mod_small.
  - rewrite (sub_behind k) with (m := 32), (sub_behind s) with (m := 32), (sub_behind (le_bytes 8 d)) with (m := 8) by (done || lia).
    change (72 - 32 - 32 - 8) with 0. rewrite sub_front by done. rewrite le_value_bytes. now apply Z.mod_small.
  - rewrite (sub_behind k) with (m := 32), (sub_behind s) with (m := 32), (sub_behind (le_bytes 8 d)) with (m := 8), (sub_behind (le_bytes 8 c)) with (m := 8) by (done || lia).
    now apply sub_front.
  - pose proof metadata_size_ge.
    rewrite (sub_behind k) with (m := 32), (sub_behind s) with (m := 32), (sub_behind (le_bytes 8 d)) with (m := 8), (sub_behind (le_bytes 8 c)) with (m := 8), (sub_behind m) with (m := metadata_size) by (done || lia).
    replace (_ - _ - _ - _ - _ - _) with 0 by lia. now apply sub_front.
Qed.

Lemma header_of_front c : bytes_ok c -> header_size <= size c -> header_bytes (read_header c) = sub c 0 header_size /\ header_fits (read_header c).
Proof.
  intros Bc S. pose proof metadata_size_ge. pose proof header_padding_ge. unfold header_size in *.
  assert (V : forall a, 0 <= a -> a + 8 <= size c -> le_bytes 8 (le_value (sub c a 8)) = sub c a 8 /\ 0 <= le_value (sub c a 8) < 2 ^ 64).
  { intros a A1 A2. split; [apply le_bytes_of_value; [now apply bytes_ok_sub|now rewrite size_sub by lia]|].
    pose proof (le_value_range (sub c a 8) (bytes_ok_sub c a 8 Bc)) as R. rewrite size_sub in R by lia. exact R. }
  destruct (V 64 ltac:(lia) ltac:(lia)) as [V1 R1]. destruct (V 72 ltac:(lia) ltac:(lia)) as [V2 R2].
  split.
  - unfold header_bytes, read_header. cbn [ch_key ch_checksum ch_data_bytes ch_code_bytes ch_metadata ch_padding]. rewrite V1, V2.
    rewrite (sub_cut c 0 _ header_padding), (sub_cut c 0 _ metadata_size), (sub_cut c 0 _ 8), (sub_cut c 0 (32 + 32) 8), (sub_cut c 0 32 32) by lia.
    rewrite <- !app_assoc. reflexivity.
  - split; cbn [read_header ch_key ch_checksum ch_data_bytes ch_code_bytes ch_metadata ch_padding]; try exact R1; try exact R2; apply size_sub; lia.
Qed.

Lemma size_checksum d c m x y : size (checksum d c m x y) = 32.
Proof. apply blake3_size. Qed.

(** The header of an entry. *)
Lemma entry_header_fits k o p :
  key_ok k -> size (so_metadata o) = metadata_size -> storable o = true -> size p = header_padding ->
  header_fits (CacheHeader (k_digest k) (checksum (size (so_data o)) (size (so_code o)) (so_metadata o) (so_data o) (so_code o))
                            (size (so_data o)) (size (so_code o)) (so_metadata o) p).
Proof.
  intros [K _] S T P. unfold storable, CACHE_MAX_BYTES in T. to_prop.
  pose proof (size_nonneg (so_data o)). pose proof (size_nonneg (so_code o)).
  split; cbn; try done; [apply size_checksum|lia|lia].
Qed.

Lemma load_entry k k' o p :
  key_ok k -> key_ok k' -> size (so_metadata o) = metadata_size -> storable o = true -> size p = header_padding ->
  load_file k' (entry_bytes k o p) =
    if decide (k_digest k = k_digest k') then if metadata_in_limits (so_metadata o) then Some o else None else None.
Proof.
  intros K K' S T P. pose proof (entry_header_fits k o p K S T P) as F. unfold load_file, entry_bytes.
  set (h := CacheHeader _ _ _ _ _ _) in *. rewrite (read_header_bytes h _ F).
  pose proof (size_header_bytes h F) as Z. pose proof (size_nonneg (so_data o)) as Pd. pose proof (size_nonneg (so_code o)) as Pc.
  unfold header_valid. cbn [h ch_key ch_data_bytes ch_code_bytes ch_metadata ch_checksum].
  unfold storable, CACHE_MAX_BYTES in *. to_prop.
  rewrite !size_app, Z.
  rewrite (sub_behind (header_bytes h)) with (m := header_size), Z.sub_diag, sub_front by (done || lia).
  rewrite (sub_behind (header_bytes h)) with (m := header_size), (sub_behind (so_data o)) with (m := size (so_data o)) by (done || lia).
  replace (header_size + size (so_data o) - header_size - size (so_data o)) with 0 by lia. rewrite sub_all.
  rewrite !Z.eqb_refl.
  replace (header_size <=? _) with true by lia. replace (size (so_data o) <=? _) with true by lia.
  replace (size (so_code o) <=? _) with true by lia. replace (0 <? size (so_code o)) with true by lia.
  replace (header_size + (size (so_data o) + size (so_code o)) =? header_size + size (so_data o) + size (so_code o)) with true by lia.
  cbn [negb andb]. destruct (decide (k_digest k = k_digest k')); cbn [andb negb]; [|done].
  destruct (metadata_in_limits (so_metadata o)); cbn [andb negb]; [|done].
  rewrite decide_True by done. now destruct o.
Qed.

(** An entry's end is where its header says. *)
Lemma entry_app_inj k k' o o' p p' x y :
  key_ok k -> key_ok k' -> size (so_metadata o) = metadata_size -> size (so_metadata o') = metadata_size ->
  storable o = true -> storable o' = true -> size p = header_padding -> size p' = header_padding ->
  entry_bytes k o p ++ x = entry_bytes k' o' p' ++ y -> k_digest k = k_digest k' /\ o = o' /\ x = y.
Proof.
  intros K K' S S' T T' P P' E. pose proof (entry_header_fits k o p K S T P) as F. pose proof (entry_header_fits k' o' p' K' S' T' P') as F'.
  unfold entry_bytes in E. rewrite <- !app_assoc in E.
  pose proof (f_equal read_header E) as Eh. rewrite (read_header_bytes _ _ F), (read_header_bytes _ _ F') in Eh.
  rewrite Eh in E. apply app_inv_head in E. injection Eh as D _ L1 L2 M1 _.
  unfold size in L1, L2. apply app_inj_1 in E as [E1 E]; [|lia]. apply app_inj_1 in E as [E2 E]; [|lia].
  split; [done|]. split; [|done]. destruct o, o'. cbn in *. congruence.
Qed.

Lemma load_takes_entries_only k c o :
  key_ok k -> bytes_ok c -> load_file k c = Some o ->
  exists p, size p = header_padding /\ c = entry_bytes k o p /\ storable o = true /\
            size (so_metadata o) = metadata_size /\ metadata_in_limits (so_metadata o) = true.
Proof.
  intros K Bc.
  intros E. unfold load_file in E. pose proof (header_of_front c Bc) as HF.
  set (h := read_header c) in *. clearbody h. cbv zeta in E. destruct (negb _) eqn:G1 in E; [done|]. destruct (negb _) eqn:G2 in E; [done|].
  case_decide as D; [|done]. injection E as <-. apply negb_false_iff in G1, G2. unfold header_valid in G1. to_prop.
  destruct (decide (ch_key h = k_digest k)) as [Dk|]; [|done].
  destruct HF as [Hh Hf]; [lia|]. exists (ch_padding h).
  cbn [so_metadata so_data so_code]. split; [apply Hf|].
  assert (Sd : size (sub c header_size (ch_data_bytes h)) = ch_data_bytes h) by lia.
  assert (Sc : size (sub c (header_size + ch_data_bytes h) (ch_code_bytes h)) = ch_code_bytes h) by lia.
  destruct Hf. assert (0 <= header_size) by (unfold header_size; pose proof metadata_size_ge; pose proof header_padding_ge; lia).
  split; [|split; [|split]]; try done.
  + assert (Sz : size c = header_size + ch_data_bytes h + ch_code_bytes h) by lia. unfold entry_bytes. cbn [so_metadata so_data so_code]. rewrite Sd, Sc, D, <- Dk.
    replace (CacheHeader _ _ _ _ _ _) with h by now destruct h. rewrite Hh.
    rewrite <- (sub_all c) at 1. rewrite Sz, (sub_cut c 0 (_ + _)), (sub_cut c 0 header_size), <- app_assoc by lia. reflexivity.
  + unfold storable. cbn [so_metadata so_data so_code]. rewrite Sd, Sc. lia.
Qed.

(** An entry cut short or written past is refused. *)
Lemma torn_entry_refused k k' o p c x y :
  key_ok k -> key_ok k' -> size (so_metadata o) = metadata_size -> storable o = true -> size p = header_padding ->
  bytes_ok c -> c ++ x = entry_bytes k o p ++ y -> (x <> [] \/ y <> []) -> (x = [] \/ y = []) -> load_file k' c = None.
Proof.
  intros K K' S T P Bc E N1 N2. destruct (load_file k' c) as [o'|] eqn:Lf; [|done]. exfalso.
  apply load_takes_entries_only in Lf as (p' & P' & -> & T' & S' & _); [|done..].
  apply entry_app_inj in E as (_ & _ & ->); [|done..]. tauto.
Qed.

(** C17: The files a load takes are exactly those of a storable output with
    metadata in the limits under the key asked for, with the checksum of its
    contents, whatever the padding of the header; an entry cut short, or with
    anything behind it, is refused under every key. *)
Theorem load_takes_entries k c :
  key_ok k -> bytes_ok c ->
  (forall o, load_file k c = Some o <->
   exists p, size p = header_padding /\ c = entry_bytes k o p /\ storable o = true /\
             size (so_metadata o) = metadata_size /\ metadata_in_limits (so_metadata o) = true) /\
  (forall k' o p x y, key_ok k' -> size (so_metadata o) = metadata_size -> storable o = true -> size p = header_padding ->
     c ++ x = entry_bytes k' o p ++ y -> (x <> [] /\ y = []) \/ (x = [] /\ y <> []) -> load_file k c = None).
Proof.
  intros K Bc. split.
  2: { intros k' o p x y K' S T P E N. eapply torn_entry_refused with (k := k'); eauto; tauto. }
  intros o. split; [now apply load_takes_entries_only|].
  intros (p & P & -> & T & S & G). rewrite load_entry by done. now rewrite decide_True, G by done.
Qed.

End Files.

(** ** A concrete setting *)

#[export] Instance sample_metadata : ShaderMetadata := {|
  metadata_size := 28;
  metadata_version m := le_value (sub m 0 4);
  context_register_count m := le_value (sub m 4 4);
  shader_register_count m := le_value (sub m 8 4);
  input_semantic_count m := le_value (sub m 12 4);
  output_semantic_count m := le_value (sub m 16 4);
  descriptor_binding_count m := le_value (sub m 20 4);
  PSBC_SHADER_METADATA_VERSION := 9;
  PSBC_MAX_CONTEXT_REGISTERS := 32;
  PSBC_MAX_SHADER_REGISTERS := 32;
  PSBC_MAX_SEMANTICS := 32;
  PSBC_MAX_DESCRIPTOR_BINDINGS := 32;
  header_padding := 4 |}.
#[export] Instance sample_metadata_laws : MetadataLaws.
Proof. split; cbn; lia. Qed.

Definition sample_output : shader_output := ShaderOutput [1; 2; 3] [4; 5; 6; 7; 8] (9 :: replicate 27 0).
Definition sample_key : cache_key := CacheKey "/app0/c/k.bin" (blake3 [1; 2; 3]).

Lemma load_takes_entries_witness :
  load_file sample_key (file_bytes (make_job sample_key sample_output)) = Some sample_output /\
  load_file sample_key (removelast (file_bytes (make_job sample_key sample_output))) = None.
Proof.
  assert (K : key_ok sample_key) by (split; [apply blake3_size|cbn; unfold KEY_PATH_BYTES; lia]).
  split.
  - apply (proj1 (load_takes_entries sample_key (file_bytes (make_job sample_key sample_output)) K ltac:(apply (bool_decide_unpack _); vm_compute; exact I))).
    exists (zeros 4). repeat split; vm_compute; reflexivity.
  - apply (proj2 (load_takes_entries sample_key (removelast (file_bytes (make_job sample_key sample_output))) K ltac:(apply (bool_decide_unpack _); vm_compute; exact I)))
      with (k' := sample_key) (o := sample_output) (p := zeros 4) (x := [8]) (y := []);
      [exact K|vm_compute; reflexivity|vm_compute; reflexivity|vm_compute; reflexivity|vm_compute; reflexivity|left; split; [discriminate|reflexivity]].
Defined.
