(* ===== verification/ShaderThreads.v ===== *)
(** * Compiling through the shader cache
    ([src/driver/ps5vk_shader_cache.c], [ps5vk_compile_shader_deep] of
    [src/driver/ps5vk_pipeline.c])

    Several threads compile at once, and one more writes the files.  A step is
    one section under the cache's lock, one call of the file system, or one
    compilation; a load reads its file in one step, which no writer of the
    thread changes once it has its name.  A second layer, [program], adds the
    condition variables: the writer and the flushes asleep until they are
    woken. *)

From Stdlib Require Import ZArith Lia String Ascii.
From stdpp Require Import base numbers list gmap strings relations.
From S2P Require Import Prelude DriverPrelude Bytes ShaderKeys ShaderCache.
Open Scope Z_scope.

(** ** Files

    Names, and the contents of what they name; [fopen] of an existing name for
    writing empties its file. *)

Record file_system := Files { names : gmap string nat; contents : gmap nat Bytes; fresh : nat }.

Definition read_file (fs : file_system) (name : string) : option Bytes :=
  match names fs !! name with Some i => contents fs !! i | None => None end.

Definition open_write (fs : file_system) (name : string) : file_system * nat :=
  match names fs !! name with
  | Some i => (Files (names fs) (<[i := []]> (contents fs)) (fresh fs), i)
  | None => (Files (<[name := fresh fs]> (names fs)) (<[fresh fs := []]> (contents fs)) (S (fresh fs)), fresh fs)
  end.

(** A write at an offset; a gap before it reads as zeros. *)
Definition write_at (fs : file_system) (i : nat) (offset : Z) (b : Bytes) : file_system :=
  let old := default [] (contents fs !! i) in
  let padded := old ++ zeros (offset + size b - size old) in
  Files (names fs) (<[i := put padded offset b]> (contents fs)) (fresh fs).

(** [rename], which fails without its source, and [unlink]. *)
Definition rename_file (fs : file_system) (from to : string) : option file_system :=
  match names fs !! from with
  | Some i => Some (Files (<[to := i]> (delete from (names fs))) (contents fs) (fresh fs))
  | None => None
  end.
Definition unlink_file (fs : file_system) (name : string) : file_system :=
  Files (delete name (names fs)) (contents fs) (fresh fs).

(** ** One write of a file *)

(** Where [cache_write] is: before [fopen]; so many bytes written; closed, and
    whether all went well; through. *)
Inductive writing := Opening | Filling (i : nat) (n : Z) | Closed (written : bool) | Finished.
#[export] Instance writing_dec : EqDecision writing.
Proof. solve_decision. Defined.

(** Whether a step is one where nothing fails: [Refused] is a failure of the
    file system or of [malloc], [NoThread] one of [pthread_create]. *)
Inductive label := Ordinary | Refused | NoThread.

(** What the process gives: the digits of its id, its cache's directory and its build. *)
Class Process := { pid_digits : string; directory : option string; build : string }.

(** A compilation: what is asked of [ps5vk_compile_shader_deep]. *)
Record request := Request { rq_source : shader_source; rq_options : compile_options }.

Section Threads.
Context `{CompilerTypes} `{Blake3} `{ShaderMetadata} `{Process}.

Definition TEMPORARY_BYTES : nat := 1100.
Definition temporary (path : string) : string := snprintf TEMPORARY_BYTES (path ++ "." ++ pid_digits ++ ".tmp")%string.

(** [cache_write], a call at a time. *)
Inductive write_step (j : cache_job) : label -> file_system * writing -> file_system * writing -> Prop :=
  | write_open fs fs' i : open_write fs (temporary (job_path j)) = (fs', i) ->
      write_step j Ordinary (fs, Opening) (fs', Filling i 0)
  | write_unopened fs : write_step j Refused (fs, Opening) (fs, Finished)
  | write_more fs i n m : 0 < m -> n + m <= size (file_bytes j) ->
      write_step j Ordinary (fs, Filling i n) (write_at fs i n (sub (file_bytes j) n m), Filling i (n + m))
  | write_close fs i n : n = size (file_bytes j) -> write_step j Ordinary (fs, Filling i n) (fs, Closed true)
  | write_short fs i n : write_step j Refused (fs, Filling i n) (fs, Closed false)
  | write_rename fs fs' : rename_file fs (temporary (job_path j)) (job_path j) = Some fs' ->
      write_step j Ordinary (fs, Closed true) (fs', Finished)
  | write_no_temporary fs : rename_file fs (temporary (job_path j)) (job_path j) = None ->
      write_step j Ordinary (fs, Closed true) (unlink_file fs (temporary (job_path j)), Finished)
  | write_not_renamed fs : write_step j Refused (fs, Closed true) (unlink_file fs (temporary (job_path j)), Finished)
  | write_unlink fs : write_step j Ordinary (fs, Closed false) (unlink_file fs (temporary (job_path j)), Finished).

(** ** The cache and its callers *)

Definition request_key (r : request) : option cache_key := source_key directory build (rq_source r) (rq_options r).

(** Where a call of [ps5vk_compile_shader_deep] is: about to look at the queue;
    about to open the file; about to compile, and whether there is a key; about
    to store; writing the file itself; returned. *)
Inductive call :=
  | Wanted (r : request)
  | Missed (r : request)
  | Compiling (r : request) (cacheable : bool)
  | Storing (r : request) (o : shader_output)
  | Writing (r : request) (o : shader_output) (j : cache_job) (w : writing)
  | Returned (r : request) (result : Z + shader_output).

(** The queue, whether the writer was started, the file it writes outside the
    lock, the files and the calls. *)
Record cache := Cache {
  queue : list cache_job; writer_started : bool; writer : option writing; files : file_system; calls : list call
}.

(** The outputs the compiler may give, or its errors. *)
Context (compiles : request -> Z + shader_output -> Prop).

(** One step of a call. *)
Inductive call_step : label -> cache -> call -> cache -> call -> Prop :=
  | call_no_key s r : request_key r = None -> call_step Ordinary s (Wanted r) s (Compiling r false)
  | call_blob_refused s r b : rq_source r = Nir b -> call_step Refused s (Wanted r) s (Compiling r false)
  | call_hit s r k o : request_key r = Some k -> cache_pending k (queue s) = Some o ->
      call_step Ordinary s (Wanted r) s (Returned r (inr o))
  | call_hit_refused s r k o : request_key r = Some k -> cache_pending k (queue s) = Some o ->
      call_step Refused s (Wanted r) s (Missed r)
  | call_miss s r k : request_key r = Some k -> cache_pending k (queue s) = None ->
      call_step Ordinary s (Wanted r) s (Missed r)
  | call_load s r k c o : request_key r = Some k -> read_file (files s) (k_path k) = Some c -> load_file k c = Some o ->
      call_step Ordinary s (Missed r) s (Returned r (inr o))
  | call_invalid s r k c : request_key r = Some k -> read_file (files s) (k_path k) = Some c -> load_file k c = None ->
      call_step Ordinary s (Missed r) s (Compiling r true)
  | call_absent s r k : request_key r = Some k -> read_file (files s) (k_path k) = None ->
      call_step Ordinary s (Missed r) s (Compiling r true)
  | call_load_refused s r : call_step Refused s (Missed r) s (Compiling r true)
  | call_compiled s r o : compiles r (inr o) -> call_step Ordinary s (Compiling r true) s (Storing r o)
  | call_uncached s r res : compiles r res -> call_step Ordinary s (Compiling r false) s (Returned r res)
  | call_error s r e : compiles r (inl e) -> call_step Ordinary s (Compiling r true) s (Returned r (inl e))
  | call_not_storable s r o : storable o = false -> call_step Ordinary s (Storing r o) s (Returned r (inr o))
  | call_store_refused s r o : call_step Refused s (Storing r o) s (Returned r (inr o))
  | call_store s r k o : request_key r = Some k -> storable o = true ->
      call_step Ordinary s (Storing r o)
        (Cache (queue s ++ [make_job k o]) true (writer s) (files s) (calls s)) (Returned r (inr o))
  | call_no_thread s r k o : request_key r = Some k -> storable o = true -> writer_started s = false ->
      call_step NoThread s (Storing r o) s (Writing r o (make_job k o) Opening)
  | call_write s l r o j w fs w' : write_step j l (files s, w) (fs, w') ->
      call_step l s (Writing r o j w) (Cache (queue s) (writer_started s) (writer s) fs (calls s)) (Writing r o j w')
  | call_written s r o j : call_step Ordinary s (Writing r o j Finished) s (Returned r (inr o)).

(** One step of [cache_writer]. *)
Inductive writer_step : label -> cache -> cache -> Prop :=
  | writer_take q st fs cs j : writer_step Ordinary (Cache (j :: q) st None fs cs) (Cache (j :: q) st (Some Opening) fs cs)
  | writer_write l q st fs cs j w fs' w' : write_step j l (fs, w) (fs', w') ->
      writer_step l (Cache (j :: q) st (Some w) fs cs) (Cache (j :: q) st (Some w') fs' cs)
  | writer_done q st fs cs j : writer_step Ordinary (Cache (j :: q) st (Some Finished) fs cs) (Cache q st None fs cs).

(** A step of the program; the writer is there once it was started. *)
Inductive cache_step : label -> cache -> cache -> Prop :=
  | step_call l s i c s' c' : calls s !! i = Some c -> call_step l s c s' c' ->
      cache_step l s (Cache (queue s') (writer_started s') (writer s') (files s') (<[i := c']> (calls s)))
  | step_writer l s s' : writer_started s = true -> writer_step l s s' -> cache_step l s s'.

(** Runs of steps with some labels. *)
Inductive cache_run (allowed : label -> bool) : cache -> cache -> Prop :=
  | run_refl s : cache_run allowed s s
  | run_step l s s' s'' : cache_run allowed s s' -> allowed l = true -> cache_step l s' s'' -> cache_run allowed s s''.

Definition with_thread (l : label) : bool := match l with NoThread => false | _ => true end.
Definition nothing_fails (l : label) : bool := match l with Ordinary => true | _ => false end.
Definition anything (l : label) : bool := true.

(** What [ps5vk_shader_cache_flush] tests: nothing is queued. *)
Definition drained (s : cache) : bool := match queue s with [] => true | _ => false end.

(** The program as it starts, with calls to be made. *)
Definition cache_start (fs : file_system) (rs : list request) : cache := Cache [] false None fs (map Wanted rs).

End Threads.

(** ** Files one at a time *)

(** Every name has a file of its own. *)
Record fs_ok (fs : file_system) : Prop := {
  fo_apart a b i : names fs !! a = Some i -> names fs !! b = Some i -> a = b;
  fo_fresh a i : names fs !! a = Some i -> (i < fresh fs)%nat
}.

(** Other names read as before. *)
Definition only_file (t : string) (fs fs' : file_system) : Prop := forall a, a <> t -> read_file fs' a = read_file fs a.

Lemma open_write_ok fs t fs' i : fs_ok fs -> open_write fs t = (fs', i) ->
  fs_ok fs' /\ names fs' !! t = Some i /\ contents fs' !! i = Some [] /\ only_file t fs fs'.
Proof.
  intros [A F] E. unfold open_write in E. destruct (names fs !! t) as [k|] eqn:T; injection E as <- <-.
  - cbn. split; [now split|]. split; [done|]. split; [now rewrite lookup_insert_eq|].
    intros a Na. unfold read_file. cbn. destruct (names fs !! a) as [b|] eqn:Ea; [|done].
    rewrite lookup_insert_ne; [done|]. intros <-. apply Na. eapply A; eauto.
  - cbn. split; [split; cbn|split; [now rewrite lookup_insert_eq|split; [now rewrite lookup_insert_eq|]]].
    + intros a b i. rewrite !lookup_insert. repeat case_decide; subst; intros E1 E2; try done.
      * injection E1 as <-. apply F in E2. lia.
      * injection E2 as <-. apply F in E1. lia.
      * eapply A; eauto.
    + intros a i. rewrite lookup_insert. case_decide; intros E1; [injection E1 as <-; lia|apply F in E1; lia].
    + intros a Na. unfold read_file. cbn. rewrite lookup_insert_ne by done. destruct (names fs !! a) as [b|] eqn:Ea; [|done].
      rewrite lookup_insert_ne; [done|]. apply F in Ea. lia.
Qed.

Lemma write_at_ok fs t i n b : fs_ok fs -> names fs !! t = Some i ->
  fs_ok (write_at fs i n b) /\ names (write_at fs i n b) = names fs /\ only_file t fs (write_at fs i n b).
Proof.
  intros [A F] T. split; [now split|]. split; [done|]. intros a Na. unfold read_file, write_at. cbn.
  destruct (names fs !! a) as [k|] eqn:Ea; [|done]. rewrite lookup_insert_ne; [done|]. intros <-. apply Na. eapply A; eauto.
Qed.

Lemma write_at_next fs i (F : Bytes) n m : 0 <= n -> 0 < m -> n + m <= size F -> contents fs !! i = Some (sub F 0 n) ->
  contents (write_at fs i n (sub F n m)) !! i = Some (sub F 0 (n + m)).
Proof.
  intros N M S C. unfold write_at. cbn. rewrite lookup_insert_eq, C. cbn. f_equal.
  rewrite !size_sub by lia. replace (n + m - n) with m by lia. unfold put.
  assert (Ln : length (sub F 0 n) = Z.to_nat n) by (pose proof (size_sub F 0 n); unfold size in *; lia).
  assert (Lm : length (sub F n m) = Z.to_nat m) by (pose proof (size_sub F n m); unfold size in *; lia).
  rewrite <- Ln at 1. rewrite take_app_length, drop_ge, app_nil_r; [now rewrite (sub_cut F 0 n m) by lia|].
  rewrite length_app, Ln, Lm. unfold zeros. rewrite repeat_length. lia.
Qed.

Lemma rename_file_ok fs t p fs' : fs_ok fs -> t <> p -> rename_file fs t p = Some fs' ->
  fs_ok fs' /\ read_file fs' p = read_file fs t /\ (forall a, a <> t -> a <> p -> read_file fs' a = read_file fs a).
Proof.
  intros [A F] N E. unfold rename_file in E. destruct (names fs !! t) as [i|] eqn:T; [|done]. injection E as <-.
  split; [split; cbn|].
  - intros a b j. rewrite !lookup_insert. repeat case_decide; subst; try done; intros E1 E2; try apply lookup_delete_Some in E1; try apply lookup_delete_Some in E2.
    + injection E1 as <-. destruct E2 as [N2 E2]. destruct N2. eapply A; eauto.
    + injection E2 as <-. destruct E1 as [N1 E1]. destruct N1. eapply A; eauto.
    + destruct E1, E2. eapply A; eauto.
  - intros a j. rewrite lookup_insert. case_decide; [intros [=<-]; eauto|]. rewrite lookup_delete_Some. intros [_ E1]. eauto.
  - unfold read_file. cbn. rewrite lookup_insert_eq, T. split; [done|]. intros a N1 N2.
    now rewrite lookup_insert_ne, lookup_delete_ne by done.
Qed.

Lemma unlink_file_ok fs t : fs_ok fs -> fs_ok (unlink_file fs t) /\ only_file t fs (unlink_file fs t).
Proof.
  intros [A F]. split; [split; cbn|].
  - intros a b i. rewrite !lookup_delete_Some. intros [_ E1] [_ E2]. eapply A; eauto.
  - intros a i. rewrite lookup_delete_Some. intros [_ E1]. eauto.
  - intros a N. unfold read_file, unlink_file. cbn. now rewrite lookup_delete_ne.
Qed.

(** ** Names of files *)

(** The process's id has at most the digits of a [long]. *)
Class ProcessLaws `{Process} := { pid_digits_short : (String.length pid_digits <= 20)%nat }.

Section Names.
Context `{CT : CompilerTypes} `{B3 : Blake3} `{!Blake3Laws} `{Proc : Process} `{!ProcessLaws}.

Lemma request_key_ok r k : request_key r = Some k ->
  key_ok k /\ bytes_ok (k_digest k) /\
  exists d, directory = Some d /\ k_path k = entry_path d (k_digest k) /\
            k_digest k = blake3 (key_input build (source_bytes (rq_source r)) (rq_options r)).
Proof.
  unfold request_key. rewrite source_key_bytes. intros K. apply shader_cache_key_some in K as (d & E & _ & D & P & L).
  unfold key_ok. rewrite D at 1 2. split; [split; [apply blake3_size|done]|]. split; [apply blake3_bytes|]. eauto.
Qed.

Lemma job_path_whole `{ShaderMetadata} k o : key_ok k -> job_path (make_job k o) = k_path k.
Proof. intros [_ L]. now apply snprintf_whole. Qed.

Lemma temporary_apart `{ShaderMetadata} r r' k k' o : request_key r = Some k -> request_key r' = Some k' ->
  temporary (job_path (make_job k o)) <> k_path k'.
Proof.
  intros K K'. apply request_key_ok in K as (K & _). apply request_key_ok in K' as (_ & _ & d & _ & P & _).
  rewrite job_path_whole by done. unfold temporary. destruct K as [_ L]. pose proof pid_digits_short.
  rewrite snprintf_whole by (rewrite !string_length_app; cbn; unfold KEY_PATH_BYTES, TEMPORARY_BYTES in *; lia).
  rewrite P. unfold entry_path. rewrite !string_app_assoc. intros E. symmetry in E. now apply suffixes_differ in E.
Qed.

(** Different keys have different names. *)
Lemma paths_apart r r' k k' : request_key r = Some k -> request_key r' = Some k' -> k_path k = k_path k' -> k_digest k = k_digest k'.
Proof.
  intros K K' E. apply request_key_ok in K as (_ & Bk & d & D & P & _). apply request_key_ok in K' as (_ & Bk' & d' & D' & P' & _).
  rewrite D in D'. injection D' as <-. rewrite P, P' in E. unfold entry_path in E.
  apply blake3_hex_inj; [done..|]. apply bytes_of_string_inj.
  apply (f_equal bytes_of_string) in E. rewrite !bytes_of_string_app in E. apply app_inv_head in E. apply app_inv_head in E.
  now apply app_inj_2 in E as [E _].
Qed.

End Names.

(** ** What every step keeps *)

Section Invariant.
Context `{CT : CompilerTypes} `{B3 : Blake3} `{BL : !Blake3Laws} `{SM : ShaderMetadata} `{ML : !MetadataLaws} `{Proc : Process} `{PL : !ProcessLaws}.
Context (compiles : request -> Z + shader_output -> Prop) (requests : list request).

(** The requests in play are those C types hold. *)
Definition request_fits (r : request) : bool := source_valid (rq_source r) && options_fit (rq_options r).

(** BLAKE3 has different digests for the different compilations in play. *)
Definition digests_apart : Prop :=
  forall r r', r ∈ requests -> r' ∈ requests ->
  blake3 (key_input build (source_bytes (rq_source r)) (rq_options r)) =
  blake3 (key_input build (source_bytes (rq_source r')) (rq_options r')) ->
  key_input build (source_bytes (rq_source r)) (rq_options r) =
  key_input build (source_bytes (rq_source r')) (rq_options r').

Definition compiler_ok : Prop := forall r o, compiles r (inr o) -> size (so_metadata o) = metadata_size.

(** The compiler gives this output for what [r] asks for. *)
Definition compiled_for (r : request) (o : shader_output) : Prop :=
  exists r', rq_source r' = rq_source r /\ plain_options (rq_options r') = plain_options (rq_options r) /\ compiles r' (inr o).

(** The compiler has one output for what [r] asks for. *)
Definition repeatable (r : request) : Prop := forall o1 o2, compiled_for r o1 -> compiled_for r o2 -> o1 = o2.

(** No file that a load takes holds anything else. *)
Definition honest (fs : file_system) : Prop :=
  forall r k c o, r ∈ requests -> request_key r = Some k -> read_file fs (k_path k) = Some c -> load_file k c = Some o ->
  compiled_for r o.

Definition job_ok (j : cache_job) : Prop :=
  exists r k o, r ∈ requests /\ request_key r = Some k /\ storable o = true /\ compiles r (inr o) /\ j = make_job k o.

Definition writing_ok (fs : file_system) (j : cache_job) (w : writing) : Prop :=
  match w with
  | Filling i n => names fs !! temporary (job_path j) = Some i /\ 0 <= n <= size (file_bytes j) /\
                   contents fs !! i = Some (sub (file_bytes j) 0 n)
  | Closed true => read_file fs (temporary (job_path j)) = Some (file_bytes j)
  | _ => True
  end.

Definition call_ok (c : call) : Prop :=
  match c with
  | Wanted r | Compiling r false => r ∈ requests
  | Missed r | Compiling r true => r ∈ requests /\ request_key r <> None
  | Storing r o => r ∈ requests /\ request_key r <> None /\ compiles r (inr o)
  | Writing _ _ _ _ => False
  | Returned r (inl e) => compiles r (inl e)
  | Returned r (inr o) => r ∈ requests /\ compiled_for r o
  end.

Record cache_ok (s : cache) : Prop := {
  ck_jobs : Forall job_ok (queue s);
  ck_files : fs_ok (files s);
  ck_honest : honest (files s);
  ck_writer : match writer s with Some w => exists j q, queue s = j :: q /\ writing_ok (files s) j w | None => True end;
  ck_started : queue s <> [] -> writer_started s = true;
  ck_calls : Forall call_ok (calls s)
}.

Context (Hfit : Forall request_fits requests) (Hapart : digests_apart) (Hcompiler : compiler_ok).

Lemma compiled_for_self r o : compiles r (inr o) -> compiled_for r o.
Proof. intros C. exists r. done. Qed.

(** Keys with the same digest stand for the same compilation. *)
Lemma same_compilation r r' k k' : r ∈ requests -> r' ∈ requests -> request_key r = Some k -> request_key r' = Some k' -> k_digest k = k_digest k' ->
  rq_source r = rq_source r' /\ plain_options (rq_options r) = plain_options (rq_options r').
Proof using Hfit Hapart BL.
  intros R R' K K' D. apply request_key_ok in K as (_ & _ & _ & _ & _ & E). apply request_key_ok in K' as (_ & _ & _ & _ & _ & E').
  rewrite E, E' in D. apply Hapart in D; [|done..].
  pose proof (proj1 (Forall_forall _ _) Hfit r R) as F. pose proof (proj1 (Forall_forall _ _) Hfit r' R') as F'.
  apply Is_true_true, andb_true_iff in F as [F1 F2]. apply Is_true_true, andb_true_iff in F' as [F1' F2'].
  now apply same_input in D.
Qed.

Lemma compiled_for_key r r' k k' o :
  r ∈ requests -> r' ∈ requests -> request_key r = Some k -> request_key r' = Some k' ->
  k_digest k = k_digest k' -> compiles r (inr o) -> compiled_for r' o.
Proof using Hfit Hapart BL. intros R R' K K' D C. destruct (same_compilation r r' k k' R R' K K' D) as [D1 D2]. exists r. done. Qed.

Lemma compiled_for_same r r' k o :
  r ∈ requests -> r' ∈ requests -> request_key r = Some k -> request_key r' = Some k -> compiled_for r o -> compiled_for r' o.
Proof using Hfit Hapart BL.
  intros R R' K K' (q & Q1 & Q2 & C). destruct (same_compilation r r' k k R R' K K' eq_refl) as [D1 D2]. exists q. split; [congruence|]. split; [congruence|done].
Qed.

Lemma file_bytes_make_job k o : file_bytes (make_job k o) = entry_bytes k o (zeros header_padding).
Proof. reflexivity. Qed.

(** What a load finds in a job's file. *)
Lemma load_job j k r o : job_ok j -> r ∈ requests -> request_key r = Some k -> load_file k (file_bytes j) = Some o -> compiled_for r o.
Proof using Hfit Hapart Hcompiler BL ML.
  intros (r' & k' & o' & R' & K' & S' & C' & ->) R K E. rewrite file_bytes_make_job, load_entry in E.
  - case_decide as D; [|done]. destruct (metadata_in_limits _); [|done]. injection E as <-. exact (compiled_for_key r' r k' k o' R' R K' K D C').
  - now apply request_key_ok in K'.
  - now apply request_key_ok in K.
  - eauto.
  - done.
  - rewrite size_zeros; [done|apply header_padding_ge].
Qed.

Lemma pending_job k q o : Forall job_ok q -> cache_pending k q = Some o ->
  exists r k', r ∈ requests /\ request_key r = Some k' /\ k_digest k' = k_digest k /\ storable o = true /\ compiles r (inr o) /\ make_job k' o ∈ q.
Proof.
  induction 1 as [|j q (r & k' & o' & R & K & S & C & ->) F IH]; intros E; [done|].
  cbn [cache_pending] in E. case_decide as D.
  - injection E as <-. exists r, k'. cbn in D |- *. destruct o'. repeat split; try done. left.
  - destruct (IH E) as (r1 & k1 & I). exists r1, k1. rewrite elem_of_cons. intuition.
Qed.

(** A name of a job's file or its temporary is some key's, or it is left alone. *)
Lemma job_temporary_apart j r k : job_ok j -> request_key r = Some k -> temporary (job_path j) <> k_path k.
Proof using BL PL. intros (r' & k' & o & _ & K' & _ & _ & ->) K. eapply temporary_apart; eauto. Qed.

Lemma job_path_key j : job_ok j -> exists r k, r ∈ requests /\ request_key r = Some k /\ job_path j = k_path k.
Proof using BL.
  intros (r & k & o & R & K & _ & _ & ->). exists r, k. split; [done|]. split; [done|]. apply job_path_whole. now apply request_key_ok in K.
Qed.

(** One call of [cache_write]: other names are left alone, and the entry's name
    gets the whole file or none. *)
Lemma write_step_ok j l fs w fs' w' :
  job_ok j -> fs_ok fs -> writing_ok fs j w -> write_step j l (fs, w) (fs', w') ->
  fs_ok fs' /\ writing_ok fs' j w' /\
  (forall a, a <> temporary (job_path j) -> read_file fs' a = read_file fs a \/ a = job_path j /\ read_file fs' a = Some (file_bytes j)) /\
  (l = Ordinary -> w <> Closed false -> w' <> Closed false /\ (w' = Finished -> read_file fs' (job_path j) = Some (file_bytes j))).
Proof using BL PL.
  intros J F W E. inversion E; subst; clear E.
  - match goal with O : open_write _ _ = _ |- _ => apply open_write_ok in O as (F' & N & C & O); [|done] end.
    split; [done|]. split; [|split; [intros; left; auto|intros; split; done]]. cbn [writing_ok]. split; [done|]. pose proof (size_nonneg (file_bytes j)).
    split; [lia|]. exact C.
  - split; [done|]. split; [done|]. split; [auto|try done; intros; split; done].
  - destruct W as (N & L & C). destruct (write_at_ok fs (temporary (job_path j)) i n (sub (file_bytes j) n m) F N) as (F' & N' & O).
    split; [done|]. split; [|split; [intros; left; auto|intros; split; done]]. cbn [writing_ok]. rewrite N'. split; [done|]. split; [lia|].
    apply write_at_next; auto; lia.
  - destruct W as (N & L & C). split; [done|]. split; [|split; [auto|intros; split; done]]. cbn. unfold read_file. rewrite sub_all in C. now rewrite N.
  - split; [done|]. split; [done|]. split; [auto|try done; intros; split; done].
  - match goal with O : rename_file _ _ _ = _ |- _ => apply rename_file_ok in O as (F' & P & O); [|done|] end.
    + cbn in W. rewrite W in P. split; [done|]. split; [done|]. split; [|intros; split; [done|intros _; exact P]]. intros a N.
      destruct (decide (a = job_path j)) as [->|]; [auto|left; auto].
    + destruct (job_path_key j J) as (r & k & _ & K & P). intros N. apply (job_temporary_apart j r k J K). now rewrite N.
  - cbn in W. match goal with O : rename_file _ _ _ = None |- _ => unfold rename_file in O; unfold read_file in W; destruct (names fs !! temporary (job_path j)); done end.
  - destruct (unlink_file_ok fs (temporary (job_path j)) F) as [F' O]. split; [done|]. split; [done|]. split; [intros; left; auto|done].
  - destruct (unlink_file_ok fs (temporary (job_path j)) F) as [F' O]. split; [done|]. split; [done|]. split; [intros; left; auto|done].
Qed.

Lemma write_keeps_honest j l fs w fs' w' :
  job_ok j -> fs_ok fs -> writing_ok fs j w -> write_step j l (fs, w) (fs', w') -> honest fs -> honest fs'.
Proof using BL PL ML Hfit Hapart Hcompiler.
  intros J F W E Hn r k c o R K C Lf. apply write_step_ok in E as (_ & _ & O & _); [|done..].
  destruct (O (k_path k)) as [O1|[_ O1]].
  - intros N. now apply (job_temporary_apart j r k J K).
  - rewrite O1 in C. eapply Hn; eauto.
  - rewrite O1 in C. injection C as <-. eapply load_job; eauto.
Qed.

Lemma cache_ok_calls s cs : cache_ok s -> Forall call_ok cs ->
  cache_ok (Cache (queue s) (writer_started s) (writer s) (files s) cs).
Proof. intros [] F. now split. Qed.

Lemma call_step_ok l s c s' c' : with_thread l = true -> cache_ok s -> call_ok c -> call_step compiles l s c s' c' ->
  cache_ok s' /\ call_ok c' /\ calls s' = calls s.
Proof using BL ML PL Hfit Hapart Hcompiler.
  intros T O C E. destruct E; try done; cbn [call_ok] in C |- *;
    try match goal with K : request_key ?r = Some _ |- _ => assert (request_key r <> None) by congruence end;
    repeat match goal with P : _ /\ _ |- _ => destruct P end;
    repeat match goal with |- _ /\ _ => split end; try done; try now apply compiled_for_self.
  - destruct (pending_job k (queue s) o (ck_jobs s O)) as (r' & k' & R' & K' & D & _ & C' & _); [done|].
    exact (compiled_for_key r' r k' k o R' C K' H D C').
  - eapply (ck_honest s O); eauto.
  - destruct res; [done|]. split; [done|now apply compiled_for_self].
  - destruct O as [J F Hn W St Cs]. split; cbn; try done.
    + apply Forall_app. split; [done|]. apply Forall_singleton. exists r, k, o. done.
    + destruct (writer s) as [w|]; [|done]. destruct W as (j & q & -> & W). exists j, (q ++ [make_job k o]). done.
Qed.

Lemma writer_step_ok l s s' : cache_ok s -> writer_step l s s' -> cache_ok s' /\ calls s' = calls s.
Proof using BL ML PL Hfit Hapart Hcompiler.
  intros O E. destruct E; destruct O as [J F Hn W St Cs]; cbn in *; (split; [|done]).
  - split; cbn; try done. exists j, q. done.
  - destruct W as (j' & q' & [= <- <-] & W). pose proof (proj1 (proj1 (Forall_cons _ _ _) J)) as Jj.
    pose proof (write_keeps_honest _ _ _ _ _ _ Jj F W H Hn). apply write_step_ok in H as (F' & W' & _); [|done..].
    split; cbn; try done. eauto.
  - apply Forall_cons in J as [_ J]. split; cbn; try done. intros _. now apply St.
Qed.

Lemma cache_step_ok l s s' : with_thread l = true -> cache_ok s -> cache_step compiles l s s' -> cache_ok s'.
Proof using BL ML PL Hfit Hapart Hcompiler.
  intros T O E. destruct E as [l s i c s' c' I E|l s s' _ E].
  - pose proof (proj1 (Forall_lookup _ _) (ck_calls s O) i c I) as C.
    apply call_step_ok in E as (O' & C' & _); [|done..]. apply cache_ok_calls; [done|].
    apply Forall_insert; [apply O|done].
  - now apply writer_step_ok in E.
Qed.

Lemma cache_run_ok allowed s s' : (forall l, allowed l = true -> with_thread l = true) ->
  cache_ok s -> cache_run compiles allowed s s' -> cache_ok s'.
Proof using BL ML PL Hfit Hapart Hcompiler. intros A O R. induction R as [|l s s' s'' R IH L E]; [done|]. eapply cache_step_ok; [apply A, L|exact (IH O)|exact E]. Qed.

Lemma cache_start_ok fs rs : fs_ok fs -> honest fs -> Forall (fun r => r ∈ requests) rs -> cache_ok (cache_start fs rs).
Proof.
  intros F Hn R. split; cbn; try done. apply Forall_map. exact R.
Qed.

(** C3: The cache is invisible: from files that hold no wrong entry, in any
    interleaving of the compiling threads and the writer in which the writer's
    thread can be made when it is wanted, whatever else fails of the file system
    or of memory, and while BLAKE3 gives different requests different digests,
    every output a call returns is one
    the compiler gives for the module and the options asked for, and every
    error is the compiler's own; the files stay that way, and no temporary or
    partial file is ever taken. *)
Theorem cache_is_transparent fs rs s i r res :
  fs_ok fs -> honest fs -> Forall (fun r => r ∈ requests) rs ->
  cache_run compiles with_thread (cache_start fs rs) s ->
  honest (files s) /\
  (calls s !! i = Some (Returned r res) ->
   match res with
   | inr o => exists r', rq_source r' = rq_source r /\ plain_options (rq_options r') = plain_options (rq_options r) /\ compiles r' (inr o)
   | inl e => compiles r (inl e)
   end).
Proof.
  intros F Hn R Run. apply cache_run_ok in Run as O; [|done|now apply cache_start_ok]. split; [apply O|].
  intros I. pose proof (proj1 (Forall_lookup _ _) (ck_calls s O) i _ I) as C. cbn in C. destruct res; [done|]. apply C.
Qed.

End Invariant.

(** ** What is stored is found again *)

Section Kept.
Context `{CT : CompilerTypes} `{B3 : Blake3} `{BL : !Blake3Laws} `{SM : ShaderMetadata} `{ML : !MetadataLaws} `{Proc : Process} `{PL : !ProcessLaws}.
Context (compiles : request -> Z + shader_output -> Prop) (requests : list request).
Context (Hfit : Forall request_fits requests) (Hapart : digests_apart requests) (Hcompiler : compiler_ok compiles).
Context (Hlimits : forall r o, compiles r (inr o) -> metadata_in_limits (so_metadata o) = true).

Abbreviation ok := (cache_ok compiles requests).
Abbreviation good_job := (job_ok compiles requests).

Definition loadable (k : cache_key) (fs : file_system) : Prop :=
  exists c o, read_file fs (k_path k) = Some c /\ load_file k c = Some o.

(** An output for the key is queued or in its file. *)
Definition kept (k : cache_key) (s : cache) : Prop :=
  Exists (fun j => ch_key (job_header j) = k_digest k) (queue s) \/ loadable k (files s).

(** A file the writer is through with is in place: no write failed. *)
Definition written_in_place (s : cache) : Prop :=
  writer s <> Some (Closed false) /\
  (writer s = Some Finished -> exists j q, queue s = j :: q /\ read_file (files s) (job_path j) = Some (file_bytes j)).

Lemma job_loads j r k : good_job j -> request_key r = Some k -> job_path j = k_path k \/ ch_key (job_header j) = k_digest k ->
  job_path j = k_path k /\ exists o, load_file k (file_bytes j) = Some o.
Proof using Hcompiler Hlimits BL ML.
  intros (r' & k' & o & R' & K' & S & C & ->) K E.
  pose proof (request_key_ok _ _ K) as (Kk & _ & d & D & P & _). pose proof (request_key_ok _ _ K') as (Kk' & _ & d' & D' & P' & _).
  rewrite D in D'. injection D' as <-. rewrite job_path_whole in * by done.
  assert (Dg : k_digest k' = k_digest k) by (destruct E as [E|E]; [eapply paths_apart; eauto|exact E]).
  split; [rewrite P, P', Dg; done|]. exists o. rewrite file_bytes_make_job, load_entry; eauto.
  - rewrite decide_True by done. now rewrite (Hlimits _ _ C).
  - rewrite size_zeros; [done|apply header_padding_ge].
Qed.

Lemma pending_exists k q : Exists (fun j => ch_key (job_header j) = k_digest k) q -> exists o, cache_pending k q = Some o.
Proof.
  induction q as [|j q IH]; intros E; [now apply Exists_nil in E|]. cbn [cache_pending]. case_decide; [eauto|].
  apply Exists_cons in E as [E|E]; [done|auto].
Qed.

Lemma pending_queued k q o : cache_pending k q = Some o -> Exists (fun j => ch_key (job_header j) = k_digest k) q.
Proof.
  induction q as [|j q IH]; [done|]. cbn [cache_pending]. case_decide; intros E; [now left|right; auto].
Qed.

(** One call of [cache_write] takes no entry away. *)
Lemma write_keeps_loadable j l fs w fs' w' r k :
  good_job j -> fs_ok fs -> writing_ok fs j w -> write_step j l (fs, w) (fs', w') -> request_key r = Some k ->
  loadable k fs -> loadable k fs'.
Proof using Hcompiler Hlimits BL ML PL.
  intros J F W E K (c & o & C & Lf). apply (write_step_ok compiles requests) in E as (_ & _ & O & _); [|done..].
  destruct (O (k_path k)) as [O1|[P O1]].
  - intros N. now apply (job_temporary_apart compiles requests j r k J K).
  - exists c, o. now rewrite O1.
  - destruct (job_loads j r k J K) as (_ & o' & Lf'); [now left|]. exists (file_bytes j), o'. done.
Qed.

Lemma step_keeps_loadable l s s' r k : with_thread l = true -> ok s -> cache_step compiles l s s' -> request_key r = Some k ->
  loadable k (files s) -> loadable k (files s').
Proof using Hcompiler Hlimits BL ML PL.
  intros T O E K Lk. destruct E as [l s i c s' c' I E|l s s' _ E].
  - pose proof (proj1 (Forall_lookup _ _) (ck_calls _ _ s O) i c I) as C. destruct E; done.
  - destruct E; cbn in *; try done. destruct O as [J F Hn W St Cs]. cbn in *.
    destruct W as (j' & q' & [= <- <-] & W). apply Forall_cons in J as [J _]. eapply write_keeps_loadable; eauto.
Qed.

Lemma step_keeps l s s' r k : nothing_fails l = true -> ok s -> written_in_place s -> cache_step compiles l s s' ->
  request_key r = Some k -> kept k s -> kept k s'.
Proof using Hcompiler Hlimits BL ML PL.
  intros T O Wp E K [Q|Lk].
  2: { right. eapply step_keeps_loadable; [|exact O|exact E|exact K|exact Lk]. now destruct l. }
  destruct E as [l s i c s' c' I E|l s s' _ E].
  - left. destruct E; cbn; try done. apply Exists_app. now left.
  - destruct E; cbn in *; try (now left). apply Exists_cons in Q as [Q|Q]; [|now left]. right.
    destruct (proj2 Wp eq_refl) as (j' & q' & [= <- <-] & P). destruct O as [J F Hn W St Cs]. apply Forall_cons in J as [J _].
    destruct (job_loads j r k J K) as (P' & o & Lf); [now right|]. rewrite P' in P. exists (file_bytes j), o. done.
Qed.

Lemma step_in_place l s s' : nothing_fails l = true -> ok s -> written_in_place s -> cache_step compiles l s s' -> written_in_place s'.
Proof using BL PL.
  intros T O Wp E. destruct E as [l s i c s' c' I E|l s s' _ E].
  - pose proof (proj1 (Forall_lookup _ _) (ck_calls _ _ s O) i c I) as C. destruct E; try done.
    destruct Wp as [Nc Wp]. split; [done|]. intros Wf. destruct (Wp Wf) as (j & q & Q & P). exists j, (q ++ [make_job k o]). cbn in *. now rewrite Q.
  - destruct E; try done. destruct O as [J F Hn W St Cs]. cbn in *. destruct W as (j' & q' & [= <- <-] & W).
    apply Forall_cons in J as [J _]. apply (write_step_ok compiles requests) in H as (_ & _ & _ & H); [|done..].
    destruct H as [N H]; [now destruct l|intros ->; now apply (proj1 Wp)|]. split; [intros [= E]; now apply N|].
    intros [= E]. exists j, q. split; [done|]. now apply H.
Qed.

(** Every output returned is kept. *)
Definition returned_kept (s : cache) : Prop :=
  forall i r o k, calls s !! i = Some (Returned r (inr o)) -> request_key r = Some k -> storable o = true -> kept k s.

(** A call compiles without the cache only when it has no key. *)
Definition uncached_without_key (s : cache) : Prop :=
  forall i r, calls s !! i = Some (Compiling r false) -> request_key r = None.

Lemma step_calls l s s' i c' : cache_step compiles l s s' -> calls s' !! i = Some c' ->
  calls s !! i = Some c' \/ exists s1 c, calls s !! i = Some c /\ call_step compiles l s c s1 c' /\ queue s' = queue s1 /\ files s' = files s1.
Proof.
  intros E I. destruct E as [l s b c s' c1 B E|l s s' _ E]; [|left; destruct E; done]. cbn in I.
  apply list_lookup_insert_Some in I as [(<- & <- & _)|[_ I]]; [|now left]. right. exists s', c. done.
Qed.

Lemma step_uncached l s s' : nothing_fails l = true -> uncached_without_key s -> cache_step compiles l s s' -> uncached_without_key s'.
Proof.
  intros T U E i r I. destruct (step_calls _ _ _ _ _ E I) as [J|(s1 & c & J & E1 & _)]; [eauto|]. inversion E1; subst; done.
Qed.

Lemma step_returned_kept l s s' : nothing_fails l = true -> ok s -> written_in_place s -> uncached_without_key s ->
  returned_kept s -> cache_step compiles l s s' -> returned_kept s'.
Proof using Hcompiler Hlimits BL ML PL.
  intros T O Wp U Rk E i r o k I K S. destruct (step_calls _ _ _ _ _ E I) as [J|(s1 & c & J & E1 & Q & F)].
  { eapply step_keeps; eauto. }
  unfold kept. rewrite Q, F. inversion E1; subst; try done.
  - left. assert (k0 = k) as -> by congruence. eapply pending_queued; eassumption.
  - right. assert (k0 = k) as -> by congruence. eexists _, o. split; eassumption.
  - apply U in J. congruence.
  - congruence.
  - left. cbn. apply Exists_app. right. apply Exists_cons. left. cbn. congruence.
  - pose proof (proj1 (Forall_lookup _ _) (ck_calls _ _ _ O) _ _ J) as C. done.
Qed.

Record kept_ok (s : cache) : Prop := {
  ko_ok : ok s;
  ko_in_place : written_in_place s;
  ko_uncached : uncached_without_key s;
  ko_returned : returned_kept s
}.

Lemma nothing_fails_thread l : nothing_fails l = true -> with_thread l = true.
Proof. now destruct l. Qed.

Lemma step_kept_ok l s s' : nothing_fails l = true -> kept_ok s -> cache_step compiles l s s' -> kept_ok s'.
Proof using Hfit Hapart Hcompiler Hlimits BL ML PL.
  intros T [O Wp U Rk] E. split.
  - eapply cache_step_ok; eauto using nothing_fails_thread.
  - eapply step_in_place; eauto.
  - eapply step_uncached; eauto.
  - eapply step_returned_kept; eauto.
Qed.

Lemma run_kept_ok s s' : kept_ok s -> cache_run compiles nothing_fails s s' -> kept_ok s'.
Proof using Hfit Hapart Hcompiler Hlimits BL ML PL. intros O R. induction R as [|l s s' s'' R IH L E]; [done|]. exact (step_kept_ok _ _ _ L (IH O) E). Qed.

Lemma start_kept_ok fs rs : fs_ok fs -> honest compiles requests fs -> Forall (fun r => r ∈ requests) rs -> kept_ok (cache_start fs rs).
Proof.
  intros F Hn R. split; [now apply cache_start_ok|done| |].
  - intros i r I. cbn in I. rewrite list_lookup_fmap in I. destruct (rs !! i); done.
  - intros i r o k I. cbn in I. rewrite list_lookup_fmap in I. destruct (rs !! i); done.
Qed.

(** A call for a key that is kept: it finds the output. *)
Definition finds (k : cache_key) (r : request) (s : cache) (c : call) : Prop :=
  c = Wanted r \/ c = Missed r /\ loadable k (files s) \/ exists o, c = Returned r (inr o).

Lemma step_finds l s s' i r k : nothing_fails l = true -> kept_ok s -> cache_step compiles l s s' -> request_key r = Some k ->
  kept k s -> (exists c, calls s !! i = Some c /\ finds k r s c) -> exists c, calls s' !! i = Some c /\ finds k r s' c.
Proof using Hcompiler Hlimits BL ML PL.
  intros T O E K Kp (c & I & Fd). pose proof (ko_ok _ O) as O1.
  assert (Lk : loadable k (files s) -> loadable k (files s')) by (eapply step_keeps_loadable; eauto using nothing_fails_thread).
  assert (Old : calls s' !! i = Some c -> exists c, calls s' !! i = Some c /\ finds k r s' c).
  { intros J. exists c. split; [done|]. destruct Fd as [->|[[-> L1]|[o ->]]]; unfold finds; eauto. }
  destruct E as [l s b d s' d' B E|l s s' _ E]; [|apply Old; destruct E; done].
  destruct (decide (b = i)) as [->|N]; [|apply Old; cbn; now rewrite list_lookup_insert_ne].
  rewrite I in B. injection B as <-. exists d'. split.
  { cbn. apply list_lookup_insert_eq. eapply lookup_lt_Some. exact I. }
  unfold finds. cbn [files] in *.
  destruct Fd as [->|[[-> L1]|[o ->]]]; inversion E; subst; try done; eauto; try (assert (k0 = k) as -> by congruence).
  - congruence.
  - right. left. split; [done|]. destruct Kp as [Q|L1]; [|done]. apply pending_exists in Q as [o Q]. congruence.
  - destruct L1 as (c1 & o1 & C & Lf). congruence.
  - destruct L1 as (c1 & o1 & C & Lf). congruence.
Qed.

(** C11: What one call has returned no later call compiles.  Once a call with
    a key has returned an output the cache takes - with code, of both sizes at
    most 16 MiB, its counts in the limits a load checks - and while nothing
    fails, a call for the same key that has not looked yet never gets to the
    compiler: what it returns is an output the compiler gives for what it asks
    for, the very one the first call returned where the compiler has one for
    it - also when the writer finishes the file between the call's look at the
    queue and its [fopen].  And whenever the queue is empty, which is what a
    flush waits for, the key's file holds such an output. *)
Theorem returned_shader_is_found fs rs s1 s2 a b r r' o k :
  fs_ok fs -> honest compiles requests fs -> Forall (fun r => r ∈ requests) rs ->
  cache_run compiles nothing_fails (cache_start fs rs) s1 -> cache_run compiles nothing_fails s1 s2 ->
  calls s1 !! a = Some (Returned r (inr o)) -> request_key r = Some k -> storable o = true ->
  calls s1 !! b = Some (Wanted r') -> request_key r' = Some k ->
  (exists c, calls s2 !! b = Some c /\
     (c = Wanted r' \/ c = Missed r' \/
      exists o', c = Returned r' (inr o') /\ compiled_for compiles r' o' /\ (repeatable compiles r -> o' = o))) /\
  (drained s2 = true -> exists c o', read_file (files s2) (k_path k) = Some c /\ load_file k c = Some o' /\
     compiled_for compiles r o' /\ (repeatable compiles r -> o' = o)).
Proof.
  intros F Hn R R1 R2 A K S B K'. pose proof (run_kept_ok _ _ (start_kept_ok _ _ F Hn R) R1) as O1.
  pose proof (proj1 (Forall_lookup _ _) (ck_calls _ _ _ (ko_ok _ O1)) _ _ A) as [Rr Co].
  pose proof (proj1 (Forall_lookup _ _) (ck_calls _ _ _ (ko_ok _ O1)) _ _ B) as Rr'. cbn [call_ok] in Rr'.
  assert (G : kept_ok s2 /\ kept k s2 /\ exists c, calls s2 !! b = Some c /\ finds k r' s2 c).
  { induction R2 as [|l s s' s'' R2 IH L E].
    - split; [done|]. split; [eapply (ko_returned _ O1); eauto|]. exists (Wanted r'). split; [done|now left].
    - destruct IH as (O & Kp & Fd); [done..|]. split; [eapply step_kept_ok; eauto|].
      split; [eapply (step_keeps l s' s'' r k L (ko_ok _ O) (ko_in_place _ O) E K Kp)|]. eapply step_finds; eauto. }
  destruct G as (O2 & Kp & c & C & Fd). split.
  - exists c. split; [done|]. destruct Fd as [->|[[-> _]|[o' ->]]]; eauto. right. right. exists o'. split; [done|].
    pose proof (proj1 (Forall_lookup _ _) (ck_calls _ _ _ (ko_ok _ O2)) _ _ C) as [_ Co']. split; [done|]. intros U. apply U; [|done].
    now apply (compiled_for_same compiles requests Hfit Hapart r' r k).
  - unfold drained. intros Q. destruct Kp as [E|(c1 & o' & C1 & L1)]; [destruct (queue s2); [|done]; now apply Exists_nil in E|].
    exists c1, o'. pose proof (ck_honest _ _ _ (ko_ok _ O2) r k c1 o' Rr K C1 L1) as Co'. split; [done|]. split; [done|]. split; [done|]. intros U. now apply U.
Qed.

End Kept.

(** ** Flushing: the condition variables

    The threads again, with those that wait for the cache: the writer, asleep on
    [cache_queued] until a store signals it, and the callers of
    [ps5vk_shader_cache_flush], asleep on [cache_drained] until the writer's
    broadcast.  A thread sleeps until it is woken; a wakeup without a signal,
    which a condition variable allows, only has it test again and is left out. *)

(** A flush: about to test under the lock; asleep; returned. *)
Inductive flusher := Looking | Asleep | Back.
#[export] Instance flusher_dec : EqDecision flusher.
Proof. solve_decision. Defined.

Record program := Program { p_cache : cache; p_asleep : bool; p_flushers : list flusher }.

Section Program.
Context `{CT : CompilerTypes} `{B3 : Blake3} `{SM : ShaderMetadata} `{Proc : Process}.
Context (compiles : request -> Z + shader_output -> Prop).

(** One turn of a flush's loop: its test, and its wait or its return. *)
Definition flush_look (s : cache) : flusher := if drained s then Back else Asleep.

(** [pthread_cond_broadcast] of [cache_drained]. *)
Definition broadcast (f : flusher) : flusher := match f with Asleep => Looking | _ => f end.

(** Whether a call's step queued a file, which signals [cache_queued]. *)
Definition queued (s s' : cache) : bool := (length (queue s) <? length (queue s'))%nat.

(** A step of the program: a call's, with its signal; the writer's while it is
    awake, with its broadcast when it takes the last file off the queue; the
    writer's going to sleep; a flush's test. *)
Inductive program_step : label -> program -> program -> Prop :=
  | step_program_call l s asleep fl i c s' c' : calls s !! i = Some c -> call_step compiles l s c s' c' ->
      program_step l (Program s asleep fl)
        (Program (Cache (queue s') (writer_started s') (writer s') (files s') (<[i := c']> (calls s)))
                 (if queued s s' then false else asleep) fl)
  | step_program_writer l s s' fl : writer_started s = true -> writer_step l s s' ->
      program_step l (Program s false fl) (Program s' false (if drained s' then map broadcast fl else fl))
  | step_writer_sleeps s fl : writer_started s = true -> drained s = true ->
      program_step Ordinary (Program s false fl) (Program s true fl)
  | step_flush s asleep fl i : fl !! i = Some Looking ->
      program_step Ordinary (Program s asleep fl) (Program s asleep (<[i := flush_look s]> fl)).

(** Runs of so many steps, whatever fails. *)
Definition program_run : nat -> program -> program -> Prop := nsteps (fun x y => exists l, program_step l x y).

(** The program with calls to be made and so many flushes. *)
Definition program_start (fs : file_system) (rs : list request) (flushes : nat) : program :=
  Program (cache_start fs rs) false (replicate flushes Looking).

(** Its cache goes through steps of [cache_step]. *)
Lemma program_run_cache k x y : program_run k x y -> cache_run compiles anything (p_cache x) (p_cache y).
Proof.
  revert y. induction k as [|k IH]; intros y R; [inversion R; constructor|].
  apply nsteps_inv_r in R as (z & R & l & E). specialize (IH z R). destruct E; cbn [p_cache] in *; try done; (eapply run_step; [exact IH|reflexivity|]).
  - eapply step_call; eassumption.
  - apply step_writer; eassumption.
Qed.

(** Every call and every flush has returned, and nothing is queued. *)
Definition returned (c : call) : bool := match c with Returned _ _ => true | _ => false end.
Definition all_done (x : program) : Prop :=
  Forall (fun c => returned c = true) (calls (p_cache x)) /\ queue (p_cache x) = [] /\ Forall (fun f => f = Back) (p_flushers x).

End Program.

Section Flush.
Context `{CT : CompilerTypes} `{B3 : Blake3} `{BL : !Blake3Laws} `{SM : ShaderMetadata} `{ML : !MetadataLaws} `{Proc : Process} `{PL : !ProcessLaws}.
Context (compiles : request -> Z + shader_output -> Prop).
Context (Hcompiler : compiler_ok compiles).

(** *** What holds whatever fails *)

(** The largest file. *)
Definition job_limit : Z := header_size + 2 * CACHE_MAX_BYTES.
Definition job_small (j : cache_job) : Prop := size (file_bytes j) <= job_limit.

Definition place_ok (j : cache_job) (w : writing) : Prop := match w with Filling _ n => 0 <= n <= size (file_bytes j) | _ => True end.

Definition call_fits (c : call) : Prop :=
  match c with
  | Missed r | Compiling r true => request_key r <> None
  | Storing r o => request_key r <> None /\ compiles r (inr o)
  | Writing _ _ j w => job_small j /\ place_ok j w
  | _ => True
  end.

(** The writer sleeps only while nothing is queued, and a flush only while something is. *)
Record program_ok (x : program) : Prop := {
  pk_jobs : Forall job_small (queue (p_cache x));
  pk_writer : match writer (p_cache x) with Some w => exists j q, queue (p_cache x) = j :: q /\ place_ok j w | None => True end;
  pk_started : queue (p_cache x) <> [] -> writer_started (p_cache x) = true;
  pk_calls : Forall call_fits (calls (p_cache x));
  pk_asleep : p_asleep x = true -> queue (p_cache x) = [];
  pk_flushers : Asleep ∈ p_flushers x -> queue (p_cache x) <> []
}.

Lemma job_limit_pos : 0 <= job_limit.
Proof using ML. unfold job_limit, header_size, CACHE_MAX_BYTES. pose proof metadata_size_ge. pose proof header_padding_ge. lia. Qed.

Lemma make_job_small r k o : request_key r = Some k -> storable o = true -> compiles r (inr o) -> job_small (make_job k o).
Proof using BL ML Hcompiler.
  intros K S C. unfold job_small. rewrite file_bytes_make_job. unfold entry_bytes. rewrite !size_app, size_header_bytes.
  - unfold storable in S. to_prop. unfold job_limit. lia.
  - apply entry_header_fits; [now apply request_key_ok in K|now apply (Hcompiler r)|done|]. rewrite size_zeros; [done|apply header_padding_ge].
Qed.

Lemma write_step_place j l fs w fs' w' : place_ok j w -> write_step j l (fs, w) (fs', w') -> place_ok j w'.
Proof. pose proof (size_nonneg (file_bytes j)). intros W E. inversion E; subst; cbn in *; lia. Qed.

Lemma call_step_fits l s c s' c' : call_fits c -> call_step compiles l s c s' c' ->
  call_fits c' /\ writer s' = writer s /\ calls s' = calls s /\
  (queue s' = queue s /\ writer_started s' = writer_started s \/
   exists r k o, c = Storing r o /\ request_key r = Some k /\ job_small (make_job k o) /\ queue s' = queue s ++ [make_job k o] /\ writer_started s' = true).
Proof using BL ML Hcompiler.
  intros C E. destruct E; cbn [call_fits queue writer writer_started calls] in *;
    try match goal with K : request_key ?r = Some _ |- _ => assert (request_key r <> None) by congruence end;
    repeat match goal with P : _ /\ _ |- _ => destruct P end; try (split; [done|split; [done|split; [done|left; done]]]).
  - split; [done|]. split; [done|]. split; [done|]. right. exists r, k, o. split; [done|]. split; [done|]. split; [now apply (make_job_small r)|done].
  - split; [split; [now apply (make_job_small r)|done]|]. split; [done|]. split; [done|]. left. done.
  - split; [split; [done|]|]; [match goal with W : write_step _ _ _ _ |- _ => now apply (write_step_place _ _ _ _ _ _ ltac:(eassumption) W) end|]. split; [done|]. split; [done|]. left. done.
Qed.

Lemma broadcast_awake fl : Asleep ∉ map broadcast fl.
Proof. intros X. apply list_elem_of_fmap in X as ([] & E & _); done. Qed.

Lemma queued_app s s' j : queue s' = queue s ++ [j] -> queued s s' = true.
Proof. intros E. unfold queued. rewrite E, length_app. apply Nat.ltb_lt. cbn. lia. Qed.

Lemma queued_same s s' : queue s' = queue s -> queued s s' = false.
Proof. intros E. unfold queued. rewrite E. apply Nat.ltb_irrefl. Qed.

Lemma program_step_ok l x y : program_ok x -> program_step compiles l x y -> program_ok y.
Proof using BL ML Hcompiler.
  intros [J W St Cs As Fl] E. destruct E as [l s asleep fl i c s' c' I E|l s s' fl T E|s fl T D|s asleep fl i I]; cbn [p_cache p_asleep p_flushers] in *.
  - destruct (call_step_fits _ _ _ _ _ (proj1 (Forall_lookup _ _) Cs i c I) E) as (C' & Wr & _ & [[Q S]|(r & k & o & -> & K & Sm & Q & S)]);
      split; cbn [p_cache p_asleep p_flushers queue writer writer_started calls]; rewrite ?Q, ?S, ?Wr; try done; try (now apply Forall_insert).
    + now rewrite (queued_same s s' Q).
    + apply Forall_app. split; [done|]. now apply Forall_singleton.
    + destruct (writer s) as [w|]; [|done]. destruct W as (j & q & -> & W). now exists j, (q ++ [make_job k o]).
    + now rewrite (queued_app s s' _ Q).
    + intros X N. now apply app_nil in N as [_ N].
  - assert (D : Asleep ∈ (if drained s' then map broadcast fl else fl) -> queue s' <> []).
    { unfold drained. intros X. destruct (queue s'); [now apply broadcast_awake in X|done]. }
    destruct E; split; cbn [p_cache p_asleep p_flushers queue writer writer_started calls] in *; try done.
    + now exists j, q.
    + destruct W as (j1 & q1 & [= <- <-] & W). exists j, q. split; [done|]. eapply write_step_place; eassumption.
    + now apply Forall_cons in J as [_ J].
  - split; cbn [p_cache p_asleep p_flushers]; try done. intros _. unfold drained in D. now destruct (queue s).
  - split; cbn [p_cache p_asleep p_flushers]; try done. intros X. apply list_elem_of_lookup in X as [b X].
    apply list_lookup_insert_Some in X as [(_ & X & _)|[_ X]]; [|apply Fl; exact (list_elem_of_lookup_2 _ _ _ X)].
    unfold flush_look, drained in X. now destruct (queue s).
Qed.

Lemma program_start_ok fs rs n : program_ok (program_start fs rs n).
Proof.
  split; cbn; try done.
  - apply Forall_map, Forall_true. done.
  - intros X. now apply elem_of_replicate in X as [X _].
Qed.

(** *** The work left *)

Definition writing_left (j : cache_job) (w : writing) : Z :=
  match w with
  | Opening => size (file_bytes j) + 5
  | Filling _ n => size (file_bytes j) - n + 4
  | Closed _ => 2
  | Finished => 1
  end.

(** A queued file, with the flushes its end may wake, of [n]. *)
Fixpoint queue_left (n : Z) (q : list cache_job) : Z :=
  match q with [] => 0 | j :: q' => size (file_bytes j) + 6 + n + queue_left n q' end.
Definition writer_left (n : Z) (s : cache) : Z :=
  match queue s, writer s with
  | j :: q, Some w => writing_left j w + n + queue_left n q
  | q, _ => queue_left n q
  end.

Definition call_left (n : Z) (c : call) : Z :=
  match c with
  | Wanted _ => job_limit + n + 11 | Missed _ => job_limit + n + 10 | Compiling _ _ => job_limit + n + 9 | Storing _ _ => job_limit + n + 8
  | Writing _ _ j w => writing_left j w + 1
  | Returned _ _ => 0
  end.

Definition flusher_left (f : flusher) : Z := match f with Looking => 2 | Asleep => 1 | Back => 0 end.

Definition program_left (x : program) : Z :=
  let n := Z.of_nat (length (p_flushers x)) in
  total (call_left n) (calls (p_cache x)) + writer_left n (p_cache x) + (if p_asleep x then 0 else 1) + total flusher_left (p_flushers x).

Lemma queue_left_ge n q : 0 <= n -> 0 <= queue_left n q.
Proof. intros N. induction q as [|j q IH]; cbn; [lia|]. pose proof (size_nonneg (file_bytes j)). lia. Qed.

Lemma queue_left_app n q j : queue_left n (q ++ [j]) = queue_left n q + (size (file_bytes j) + 6 + n).
Proof. induction q as [|i q IH]; cbn [queue_left app]; lia. Qed.

Lemma writing_left_pos j w : place_ok j w -> 0 < writing_left j w.
Proof. pose proof (size_nonneg (file_bytes j)). destruct w; cbn; intros W; lia. Qed.

Lemma write_step_left j l fs w fs' w' : place_ok j w -> write_step j l (fs, w) (fs', w') -> writing_left j w' < writing_left j w.
Proof. pose proof (size_nonneg (file_bytes j)). intros W E. inversion E; subst; cbn in *; lia. Qed.

Lemma call_left_ge n c : 0 <= n -> call_fits c -> 0 <= call_left n c.
Proof using ML. intros N C. pose proof job_limit_pos. destruct c; cbn [call_left call_fits] in *; try lia. pose proof (writing_left_pos _ _ (proj2 C)). lia. Qed.

Lemma program_left_ge x : program_ok x -> 0 <= program_left x.
Proof using ML.
  intros O. unfold program_left. set (n := Z.of_nat _). assert (N : 0 <= n) by lia.
  assert (A : 0 <= total (call_left n) (calls (p_cache x))) by (apply total_ge_0, (Forall_impl _ _ _ (pk_calls _ O)); intros c; now apply call_left_ge).
  assert (B : 0 <= total flusher_left (p_flushers x)) by (apply total_ge_0, Forall_forall; intros [] _; cbn; lia).
  assert (W : 0 <= writer_left n (p_cache x)).
  { unfold writer_left. pose proof (queue_left_ge n (queue (p_cache x)) N). pose proof (pk_writer _ O) as P.
    destruct (queue (p_cache x)) as [|j q] eqn:Q; [done|]. destruct (writer (p_cache x)) as [w|]; [|done].
    destruct P as (j1 & q1 & [= <- <-] & P). pose proof (writing_left_pos _ _ P). pose proof (queue_left_ge n q N). lia. }
  destruct (p_asleep x); lia.
Qed.

(** Queueing behind what is queued. *)
Lemma writer_left_store n s s' j : 0 <= n -> match writer s with Some _ => queue s <> [] | None => True end ->
  queue s' = queue s ++ [j] -> writer s' = writer s -> writer_left n s' = writer_left n s + (size (file_bytes j) + 6 + n).
Proof.
  intros N W Q E. unfold writer_left. rewrite Q, E. destruct (queue s) as [|i q]; cbn [app]; [|destruct (writer s); cbn [queue_left]; rewrite queue_left_app; lia].
  destruct (writer s); [done|]. cbn [queue_left]. lia.
Qed.

Lemma call_step_left n l s c s' c' : 0 <= n -> call_fits c -> match writer s with Some _ => queue s <> [] | None => True end -> call_step compiles l s c s' c' ->
  call_left n c' + writer_left n s' + (if queued s s' then 1 else 0) < call_left n c + writer_left n s.
Proof using BL ML Hcompiler.
  intros N C W E. pose proof job_limit_pos as Jp. destruct (call_step_fits _ _ _ _ _ C E) as (C' & Wr & _ & [[Q _]|(r & k & o & -> & K & Sm & Q & _)]).
  - rewrite (queued_same s s' Q). assert (L : writer_left n s' = writer_left n s) by (unfold writer_left; now rewrite Q, Wr). rewrite L. clear L.
    destruct E; cbn [call_left call_fits writing_left] in *; try lia.
    + destruct C' as [Sm _]. unfold job_small in Sm. lia.
    + match goal with W : write_step _ _ _ _ |- _ => pose proof (write_step_left _ _ _ _ _ _ (proj2 C) W) end. lia.
  - rewrite (queued_app s s' _ Q), (writer_left_store n s s' _ N W Q Wr). cbn [call_left]. unfold job_small in Sm.
    assert (Ln : length (queue s') = S (length (queue s))) by (rewrite Q, length_app; cbn; lia). inversion E; subst; cbn [call_left]; lia.
Qed.

Lemma writer_step_left n l s s' : 0 <= n -> match writer s with Some w => exists j q, queue s = j :: q /\ place_ok j w | None => True end -> writer_step l s s' ->
  writer_left n s' + (if drained s' then n else 0) < writer_left n s /\ calls s' = calls s.
Proof.
  intros N P E. destruct E; unfold writer_left, drained; cbn [queue writer queue_left writing_left] in *; (split; [|done]).
  - lia.
  - destruct P as (j1 & q1 & [= <- <-] & P). match goal with W : write_step _ _ _ _ |- _ => pose proof (write_step_left _ _ _ _ _ _ P W) end. lia.
  - destruct q; cbn [queue_left]; lia.
Qed.

Lemma broadcast_left fl : total flusher_left (map broadcast fl) <= total flusher_left fl + Z.of_nat (length fl).
Proof. induction fl as [|f fl IH]; [done|]. cbn [map total foldr length] in *. fold (total flusher_left (map broadcast fl)) (total flusher_left fl). destruct f; cbn [broadcast flusher_left]; lia. Qed.

Lemma program_step_left l x y : program_ok x -> program_step compiles l x y -> program_left y < program_left x.
Proof using BL ML Hcompiler.
  intros [J W St Cs As Fl] E. unfold program_left.
  destruct E as [l s asleep fl i c s' c' I E|l s s' fl T E|s fl T D|s asleep fl i I]; cbn [p_cache p_asleep p_flushers calls] in *; set (n := Z.of_nat (length fl)) in *.
  - assert (Wq : match writer s with Some _ => queue s <> [] | None => True end) by (destruct (writer s); [destruct W as (j & q & -> & _)|]; done).
    pose proof (call_step_left n _ _ _ _ _ ltac:(lia) (proj1 (Forall_lookup _ _) Cs i c I) Wq E) as L. rewrite (total_insert _ _ _ _ _ I).
    replace (writer_left n (Cache (queue s') (writer_started s') (writer s') (files s') (<[i:=c']> (calls s)))) with (writer_left n s') by done.
    destruct (queued s s'), asleep; lia.
  - destruct (writer_step_left n l s s' ltac:(lia) W E) as [L ->]. pose proof (broadcast_left fl) as B. fold n in B. destruct (drained s'); [rewrite length_map|]; fold n; lia.
  - fold n. lia.
  - rewrite length_insert, (total_insert _ _ _ _ _ I). fold n. unfold flush_look. destruct (drained s); cbn [flusher_left]; lia.
Qed.

(** *** Some thread can move *)

Lemma write_moves j w fs : place_ok j w -> w <> Finished -> exists fs' w', write_step j Ordinary (fs, w) (fs', w').
Proof.
  intros P N. destruct w as [|i n|[]|]; try done.
  - destruct (open_write fs (temporary (job_path j))) as [fs' i] eqn:E. eexists _, _. apply write_open. exact E.
  - cbn in P. destruct (decide (n = size (file_bytes j))) as [->|Ne]; eexists _, _; [apply write_close; reflexivity|apply (write_more j fs i n 1); lia].
  - destruct (rename_file fs (temporary (job_path j)) (job_path j)) as [fs'|] eqn:E; eexists _, _; [apply write_rename|apply write_no_temporary]; exact E.
  - eexists _, _. apply write_unlink.
Qed.

(** The writer of a queue that is not empty has something it can do. *)
Lemma writer_moves s : match writer s with Some w => exists j q, queue s = j :: q /\ place_ok j w | None => True end -> queue s <> [] -> exists s', writer_step Ordinary s s'.
Proof.
  intros W Q. destruct s as [[|j q] st [w|] fs cs]; cbn [queue writer] in *; [done|done| |eexists; apply writer_take].
  destruct W as (j1 & q1 & [= <- <-] & W). destruct (decide (w = Finished)) as [->|N]; [eexists; apply writer_done|].
  destruct (write_moves j w fs W N) as (fs' & w' & E). eexists. apply writer_write. exact E.
Qed.

(** A call that has not returned has something it can do, once the compiler is done. *)
Lemma call_moves s c : (forall r, exists res, compiles r res) -> call_fits c -> returned c = false -> exists s' c', call_step compiles Ordinary s c s' c'.
Proof using.
  intros Hc C N. destruct c as [q|q|q []|q o|q o j w|q res]; cbn in C, N; try done.
  - destruct (request_key q) as [k|] eqn:K; [|eexists _, _; now apply call_no_key].
    destruct (cache_pending k (queue s)) eqn:P; eexists _, _; [eapply call_hit|eapply call_miss]; eassumption.
  - destruct (request_key q) as [k|] eqn:K; [|done].
    destruct (read_file (files s) (k_path k)) as [b|] eqn:F; [destruct (load_file k b) eqn:Lf|];
      eexists _, _; [eapply call_load|eapply call_invalid|eapply call_absent]; eassumption.
  - destruct (Hc q) as ([e|o] & E); eexists _, _; [eapply call_error|eapply call_compiled]; eassumption.
  - destruct (Hc q) as (res & E). eexists _, _. eapply call_uncached. eassumption.
  - destruct C as (C & _). destruct (request_key q) as [k|] eqn:K; [|done].
    destruct (storable o) eqn:S; eexists _, _; [eapply call_store|eapply call_not_storable]; eassumption.
  - destruct (decide (w = Finished)) as [->|Nw]; [eexists _, _; apply call_written|].
    destruct (write_moves j w (files s) (proj2 C) Nw) as (fs' & w' & E). eexists _, _. eapply call_write. exact E.
Qed.

Lemma program_moves x : (forall r, exists res, compiles r res) -> program_ok x -> all_done x \/ exists y, program_step compiles Ordinary x y.
Proof using.
  intros Hc [J W St Cs As Fl]. destruct x as [s asleep fl]. cbn [p_cache p_asleep p_flushers] in *.
  destruct (decide (Forall (fun c => returned c = true) (calls s))) as [R|R].
  2: { right. apply not_Forall_Exists in R; [|apply _]. apply Exists_exists in R as (c & R & N%not_true_is_false). apply list_elem_of_lookup in R as [i I].
       destruct (call_moves s c Hc (proj1 (Forall_lookup _ _) Cs i c I) N) as (s' & c' & E). eexists. eapply step_program_call; eassumption. }
  destruct (decide (queue s = [])) as [Q|Q].
  2: { right. destruct (writer_moves s W Q) as [s' E]. destruct asleep; [now specialize (As eq_refl)|]. eexists. apply step_program_writer; [now apply St|exact E]. }
  destruct (decide (Forall (fun f => f = Back) fl)) as [B|B]; [left; exact (conj R (conj Q B))|].
  right. apply not_Forall_Exists in B; [|apply _]. apply Exists_exists in B as (f & B & N). apply list_elem_of_lookup in B as [i I]. destruct f; [|destruct (Fl (list_elem_of_lookup_2 _ _ _ I) Q)|destruct (N eq_refl)].
  eexists. apply (step_flush compiles s asleep fl i I).
Qed.

Lemma program_run_left k x y : program_ok x -> program_run compiles k x y -> program_ok y /\ Z.of_nat k + program_left y <= program_left x.
Proof using BL ML Hcompiler.
  intros O R. induction R as [x|k x z y [l E] R IH]; [split; [done|lia]|]. pose proof (program_step_left _ _ _ O E). destruct IH as [O' L]; [eapply program_step_ok; eassumption|]. split; [done|lia].
Qed.

Lemma wanted_left n rs : total (call_left n) (map Wanted rs) = Z.of_nat (length rs) * (job_limit + n + 11).
Proof.
  induction rs as [|r rs' IH]; [reflexivity|]. cbn [map length]. change (total (call_left n) (Wanted r :: map Wanted rs')) with (call_left n (Wanted r) + total (call_left n) (map Wanted rs')).
  rewrite IH. cbn [call_left]. lia.
Qed.

(** C27: Flushes end, and so does every call: in any interleaving of the
    compiling calls, the writer and the flushing threads, each asleep on its
    condition variable until it is signalled, and whatever fails - memory, the
    files, the making of the writer's thread - a run has at most so many steps
    as the calls, the flushes and the largest file bound; and a run that cannot
    go on, the compiler having an answer for every request, is one where every
    call and every flush has returned and nothing is left to be written. *)
Theorem flush_ends fs rs n k x :
  program_run compiles k (program_start fs rs n) x ->
  Z.of_nat k <= Z.of_nat (length rs) * (header_size + 2 * CACHE_MAX_BYTES + Z.of_nat n + 11) + 1 + 2 * Z.of_nat n /\
  ((forall r, exists res, compiles r res) -> all_done x \/ exists y, program_step compiles Ordinary x y).
Proof.
  intros R. destruct (program_run_left _ _ _ (program_start_ok fs rs n) R) as [O L]. split; [|intros Hc; now apply program_moves].
  pose proof (program_left_ge _ O) as G. enough (S : program_left (program_start fs rs n) = Z.of_nat (length rs) * (header_size + 2 * CACHE_MAX_BYTES + Z.of_nat n + 11) + 1 + 2 * Z.of_nat n) by lia.
  unfold program_left, program_start, cache_start. cbn [p_cache p_asleep p_flushers calls]. rewrite length_replicate, total_replicate. unfold writer_left. cbn [queue writer queue_left flusher_left].
  rewrite wanted_left. unfold job_limit. lia.
Qed.

End Flush.

(** ** Without a writer *)

Section NoWriter.
Context `{CT : CompilerTypes} `{B3 : Blake3} `{BL : !Blake3Laws} `{SM : ShaderMetadata} `{ML : !MetadataLaws} `{Proc : Process} `{PL : !ProcessLaws}.
Context (compiles : request -> Z + shader_output -> Prop).

Lemma run_call allowed s0 s l i c s' c' : cache_run compiles allowed s0 s -> allowed l = true -> calls s !! i = Some c ->
  call_step compiles l s c s' c' ->
  cache_run compiles allowed s0 (Cache (queue s') (writer_started s') (writer s') (files s') (<[i := c']> (calls s))).
Proof. intros R A I E. eapply run_step; [exact R|exact A|]. eapply step_call; eassumption. Qed.

(** Without a writer thread a reader can see a partial entry: when no
    thread can be made, two calls for one shader write the same temporary
    file, and one renames it while the other has just emptied it. *)
Theorem partial_entry_without_thread fs r k o :
  request_key r = Some k -> compiles r (inr o) -> storable o = true ->
  read_file fs (k_path k) = None -> names fs !! temporary (k_path k) = None ->
  exists s, cache_run compiles anything (cache_start fs [r; r]) s /\
    calls s !! 1%nat = Some (Writing r o (make_job k o) (Filling (fresh fs) 0)) /\
    read_file (files s) (k_path k) = Some [].
Proof.
  intros K C S P T. pose proof (request_key_ok _ _ K) as (Kk & _). pose proof (job_path_whole k o Kk) as J.
  set (j := make_job k o) in *. pose proof (temporary_apart r r k k o K K) as Ap. fold j in Ap. rewrite J in Ap.
  assert (Both : exists s, cache_run compiles anything (cache_start fs [r; r]) s /\
    s = Cache [] false None fs [Writing r o j Opening; Writing r o j Opening]).
  { eexists. split; [|reflexivity]. pose proof (run_refl compiles anything (cache_start fs [r; r])) as R.
    eapply run_call with (i := 0%nat) in R; [|done|reflexivity|now apply (call_miss _ _ _ k)]. cbn in R.
    eapply run_call with (i := 0%nat) in R; [|done|reflexivity|now apply (call_absent _ _ _ k)]. cbn in R.
    eapply run_call with (i := 0%nat) in R; [|done|reflexivity|now apply (call_compiled _ _ _ o)]. cbn in R.
    eapply run_call with (i := 1%nat) in R; [|done|reflexivity|now apply (call_miss _ _ _ k)]. cbn in R.
    eapply run_call with (i := 1%nat) in R; [|done|reflexivity|now apply (call_absent _ _ _ k)]. cbn in R.
    eapply run_call with (i := 1%nat) in R; [|done|reflexivity|now apply (call_compiled _ _ _ o)]. cbn in R.
    eapply run_call with (i := 0%nat) in R; [|done|reflexivity|now apply (call_no_thread _ _ _ k)]. cbn in R.
    eapply run_call with (i := 1%nat) in R; [|done|reflexivity|now apply (call_no_thread _ _ _ k)]. cbn in R.
    exact R. }
  destruct Both as (s & R & ->).
  assert (Zf : 0 < size (file_bytes j)).
  { unfold file_bytes. rewrite !size_app. unfold storable in S. to_prop. cbn [j make_job job_code job_data].
    pose proof (size_nonneg (header_bytes (job_header j))). pose proof (size_nonneg (so_data o)). pose proof (size_nonneg (so_code o)). lia. }
  clearbody j. clear K C S P. set (t := temporary (k_path k)) in *. set (n := fresh fs).
  assert (O1 : exists fs1, open_write fs t = (fs1, n) /\ names fs1 !! t = Some n).
  { unfold open_write. rewrite T. eexists. split; [reflexivity|]. cbn. apply lookup_insert_eq. }
  destruct O1 as (fs1 & O1 & N1). set (fs2 := write_at fs1 n 0 (sub (file_bytes j) 0 (size (file_bytes j)))).
  assert (O3 : exists fs3, open_write fs2 t = (fs3, n) /\ names fs3 !! t = Some n /\ contents fs3 !! n = Some []).
  { unfold open_write. change (names fs2) with (names fs1). rewrite N1. eexists. split; [reflexivity|]. cbn. split; [done|apply lookup_insert_eq]. }
  destruct O3 as (fs3 & O3 & N3 & E3).
  assert (Rn : exists fs4, rename_file fs3 t (k_path k) = Some fs4 /\ read_file fs4 (k_path k) = Some []).
  { unfold rename_file. rewrite N3. eexists. split; [reflexivity|]. unfold read_file. cbn. now rewrite lookup_insert_eq. }
  destruct Rn as (fs4 & Rn & E4).
  eapply run_call with (i := 0%nat) in R; [|done|reflexivity|apply call_write, write_open; rewrite J; exact O1]. cbn in R.
  eapply run_call with (i := 0%nat) in R; [|done|reflexivity|eapply call_write; apply (write_more j fs1 n 0 (size (file_bytes j))); [exact Zf|lia]]. cbn in R.
  eapply run_call with (i := 0%nat) in R; [|done|reflexivity|eapply call_write; apply write_close; reflexivity]. cbn in R.
  eapply run_call with (i := 1%nat) in R; [|done|reflexivity|eapply call_write; apply write_open; rewrite J; exact O3]. cbn in R.
  eapply run_call with (i := 0%nat) in R; [|done|reflexivity|eapply call_write; apply write_rename; rewrite J; exact Rn]. cbn in R.
  eexists. split; [exact R|]. split; [reflexivity|]. exact E4.
Qed.

End NoWriter.

(** ** A concrete setting *)

Section Runs.
Context `{CT : CompilerTypes} `{B3 : Blake3} `{SM : ShaderMetadata} `{Proc : Process}.
Context (compiles : request -> Z + shader_output -> Prop).

(** A call that compiles and stores, others waiting. *)
Lemma first_call_runs fs r rs k o : request_key r = Some k -> compiles r (inr o) -> storable o = true -> read_file fs (k_path k) = None ->
  cache_run compiles nothing_fails (cache_start fs (r :: rs))
    (Cache [make_job k o] true None fs (Returned r (inr o) :: map Wanted rs)).
Proof.
  intros K C S P. pose proof (run_refl compiles nothing_fails (cache_start fs (r :: rs))) as R.
  eapply run_call with (l := Ordinary) (i := 0%nat) in R; [|done|reflexivity|now apply (call_miss _ _ _ k)]. cbn in R.
  eapply run_call with (l := Ordinary) (i := 0%nat) in R; [|done|reflexivity|now apply (call_absent _ _ _ k)]. cbn in R.
  eapply run_call with (l := Ordinary) (i := 0%nat) in R; [|done|reflexivity|now apply (call_compiled _ _ _ o)]. cbn in R.
  eapply run_call with (l := Ordinary) (i := 0%nat) in R; [|done|reflexivity|now apply (call_store _ _ _ k)]. exact R.
Qed.

(** A second call for the same key, while the first one's file is not written. *)
Lemma second_call_hits fs r r' k o : request_key r' = Some k ->
  cache_run compiles nothing_fails
    (Cache [make_job k o] true None fs [Returned r (inr o); Wanted r'])
    (Cache [make_job k o] true None fs [Returned r (inr o); Returned r' (inr o)]).
Proof.
  intros K. set (s := Cache _ _ _ _ [_; Wanted r']).
  assert (E : call_step compiles Ordinary s (Wanted r') s (Returned r' (inr o))).
  { apply (call_hit _ _ _ k); [exact K|]. cbn [s queue cache_pending]. rewrite decide_True by reflexivity. now destruct o. }
  exact (run_call compiles nothing_fails s s Ordinary 1%nat _ _ _ (run_refl compiles nothing_fails s) eq_refl eq_refl E).
Qed.

Lemma run_weaken allowed allowed' s s' : (forall l, allowed l = true -> allowed' l = true) ->
  cache_run compiles allowed s s' -> cache_run compiles allowed' s s'.
Proof. intros A R. induction R as [|l s s1 s2 R IH L E]; [constructor|]. exact (run_step _ _ _ _ _ _ IH (A _ L) E). Qed.

Lemma run_trans allowed s s1 s2 : cache_run compiles allowed s s1 -> cache_run compiles allowed s1 s2 -> cache_run compiles allowed s s2.
Proof. intros R R2. induction R2 as [|l s1 s2 s3 R2 IH L E]; [done|]. exact (run_step _ _ _ _ _ _ (IH R) L E). Qed.

End Runs.

#[export] Instance sample_process : Process := {| pid_digits := "77"; directory := Some "/app0/c"%string; build := "b" |}.
#[export] Instance sample_process_laws : ProcessLaws.
Proof. split. cbn. lia. Qed.

Definition sample_request (stage : Z) : request := Request sample_source (sample_options None stage).
Definition sample_requests : list request := [sample_request 0; sample_request 1].
Definition sample_compiles (r : request) (res : Z + shader_output) : Prop := res = inr sample_output.
Definition no_files : file_system := Files ∅ ∅ 0.

Lemma sample_requests_fit : Forall request_fits sample_requests.
Proof. repeat constructor. Qed.

Lemma sample_digests_apart : digests_apart sample_requests.
Proof.
  assert (D : sample_digest (key_input "b" (source_bytes sample_source) (sample_options None 0)) <>
              sample_digest (key_input "b" (source_bytes sample_source) (sample_options None 1))) by (vm_compute; discriminate).
  intros r r' R R' E. unfold sample_requests in R, R'. rewrite !elem_of_cons, elem_of_nil in R, R'.
  destruct R as [->|[->|[]]], R' as [->|[->|[]]]; try reflexivity; destruct D; [exact E|symmetry; exact E].
Qed.

Lemma sample_compiler_ok : compiler_ok sample_compiles.
Proof. intros r o [= ->]. reflexivity. Qed.

Lemma sample_limits r o : sample_compiles r (inr o) -> metadata_in_limits (so_metadata o) = true.
Proof. intros [= ->]. reflexivity. Qed.

Lemma no_files_ok : fs_ok no_files.
Proof. split; intros *; cbn; rewrite !lookup_empty; done. Qed.

Lemma no_files_honest : honest sample_compiles sample_requests no_files.
Proof. intros r k c o _ _ C. unfold read_file in C. cbn in C. now rewrite lookup_empty in C. Qed.

Lemma sample_in stage : stage = 0 \/ stage = 1 -> sample_request stage ∈ sample_requests.
Proof. unfold sample_requests. rewrite !elem_of_cons. intros [->| ->]; auto. Qed.

Lemma sample_key_some : exists k, request_key (sample_request 0) = Some k.
Proof. destruct (request_key (sample_request 0)) as [k|] eqn:K; [eauto|]. vm_compute in K. discriminate. Qed.

Lemma sample_run : exists k, request_key (sample_request 0) = Some k /\
  cache_run sample_compiles nothing_fails (cache_start no_files [sample_request 0; sample_request 0])
    (Cache [make_job k sample_output] true None no_files [Returned (sample_request 0) (inr sample_output); Wanted (sample_request 0)]).
Proof.
  destruct sample_key_some as [k K]. exists k. split; [exact K|].
  apply (first_call_runs sample_compiles no_files (sample_request 0) [sample_request 0] k sample_output K); reflexivity.
Qed.

Lemma sample_start : Forall (fun r => r ∈ sample_requests) [sample_request 0; sample_request 0].
Proof. repeat constructor; apply sample_in; auto. Qed.

Lemma cache_is_transparent_witness :
  exists s, cache_run sample_compiles with_thread (cache_start no_files [sample_request 0; sample_request 0]) s /\
    calls s !! 0%nat = Some (Returned (sample_request 0) (inr sample_output)) /\
    exists r', rq_source r' = sample_source /\ sample_compiles r' (inr sample_output).
Proof.
  destruct sample_run as (k & K & R).
  pose proof (run_weaken sample_compiles nothing_fails with_thread _ _ nothing_fails_thread R) as R'.
  eexists. split; [exact R'|]. split; [reflexivity|].
  destruct (proj2 (cache_is_transparent sample_compiles sample_requests sample_requests_fit sample_digests_apart sample_compiler_ok
    no_files _ _ 0%nat (sample_request 0) (inr sample_output) no_files_ok no_files_honest sample_start R') eq_refl) as (r' & S & _ & C).
  exists r'. split; [exact S|exact C].
Defined.

Lemma returned_shader_is_found_witness :
  exists s2 c, cache_run sample_compiles nothing_fails (cache_start no_files [sample_request 0; sample_request 0]) s2 /\
    calls s2 !! 1%nat = Some c /\
    (c = Wanted (sample_request 0) \/ c = Missed (sample_request 0) \/
     exists o', c = Returned (sample_request 0) (inr o') /\ compiled_for sample_compiles (sample_request 0) o' /\ (repeatable sample_compiles (sample_request 0) -> o' = sample_output)) /\
    c = Returned (sample_request 0) (inr sample_output) /\ repeatable sample_compiles (sample_request 0).
Proof.
  destruct sample_run as (k & K & R).
  pose proof (second_call_hits sample_compiles no_files (sample_request 0) (sample_request 0) k sample_output K) as R2.
  destruct (proj1 (returned_shader_is_found sample_compiles sample_requests sample_requests_fit sample_digests_apart sample_compiler_ok sample_limits
    no_files _ _ _ 0%nat 1%nat (sample_request 0) (sample_request 0) sample_output k no_files_ok no_files_honest sample_start R
    R2 eq_refl K eq_refl eq_refl K)) as (c & C & Fd).
  eexists _, c. split; [exact (run_trans sample_compiles nothing_fails _ _ _ R R2)|]. split; [exact C|]. split; [exact Fd|].
  split; [cbn in C; now injection C as <-|]. intros o1 o2 (r1 & _ & _ & C1) (r2 & _ & _ & C2). unfold sample_compiles in *. congruence.
Defined.

(** One call that compiles and stores, and one flush that looks before the file is written. *)
Lemma sample_flush_run : exists k, request_key (sample_request 0) = Some k /\
  program_run sample_compiles 5 (program_start no_files [sample_request 0] 1)
    (Program (Cache [make_job k sample_output] true None no_files [Returned (sample_request 0) (inr sample_output)]) false [Asleep]).
Proof.
  destruct sample_key_some as [k K]. exists k. split; [exact K|]. set (r := sample_request 0) in *.
  assert (St : forall n c c' s s' x, program_run sample_compiles n x (Program s false [Looking]) -> calls s = [c] -> call_step sample_compiles Ordinary s c s' c' ->
    program_run sample_compiles (S n) x (Program (Cache (queue s') (writer_started s') (writer s') (files s') [c']) (if queued s s' then false else false) [Looking])).
  { intros n c c' s s' x R C E. eapply nsteps_r; [exact R|]. exists Ordinary. replace [c'] with (<[0%nat := c']> (calls s)) by now rewrite C. apply step_program_call with c; [now rewrite C|exact E]. }
  assert (R : program_run sample_compiles 0 (program_start no_files [r] 1) (Program (Cache [] false None no_files [Wanted r]) false [Looking])) by constructor.
  eapply St in R; [|reflexivity|now apply (call_miss _ _ _ k)]. cbn in R.
  eapply St in R; [|reflexivity|now apply (call_absent _ _ _ k)]. cbn in R.
  eapply St in R; [|reflexivity|now apply (call_compiled _ _ _ sample_output)]. cbn in R.
  eapply St in R; [|reflexivity|now apply (call_store _ _ _ k)]. cbn in R.
  eapply nsteps_r; [exact R|]. exists Ordinary. exact (step_flush sample_compiles _ false [Looking] 0%nat eq_refl).
Qed.

Lemma flush_ends_witness :
  exists k x, program_run sample_compiles k (program_start no_files [sample_request 0] 1) x /\
    p_flushers x = [Asleep] /\ Z.of_nat k <= 1 * (header_size + 2 * CACHE_MAX_BYTES + 1 + 11) + 1 + 2 * 1 /\ (all_done x \/ exists y, program_step sample_compiles Ordinary x y).
Proof.
  destruct sample_flush_run as (k & K & R). eexists _, _. split; [exact R|]. split; [reflexivity|].
  destruct (flush_ends sample_compiles sample_compiler_ok no_files [sample_request 0] 1%nat _ _ R) as [B M].
  split; [exact B|]. apply M. intros r. exists (inr sample_output). reflexivity.
Defined.

Lemma partial_entry_without_thread_witness :
  exists k s, request_key (sample_request 0) = Some k /\
    cache_run sample_compiles anything (cache_start no_files [sample_request 0; sample_request 0]) s /\
    read_file (files s) (k_path k) = Some [].
Proof.
  destruct sample_key_some as [k K].
  destruct (partial_entry_without_thread sample_compiles no_files (sample_request 0) k sample_output K eq_refl eq_refl
    ltac:(unfold read_file; cbn [names no_files]; now rewrite lookup_empty) ltac:(cbn [names no_files]; apply lookup_empty)) as (s & R & _ & P).
  exists k, s. split; [exact K|]. split; [exact R|exact P].
Defined.
