(* ===== verification/Sync.v ===== *)
(** * Fences, semaphores and events ([src/driver/ps5vk_sync.c])

    A binary sync object is a flag under a lock; one that a submission signals
    holds only once the GPU has written the submission's marker value.  Here are
    the operations, and the threads that wait, signal, reset, move and submit
    as a step relation on the queues of [QueueMarkers]: one step is one section
    under a lock, one look at a marker, or one step of the GPU. *)

From Stdlib Require Import ZArith Lia.
From stdpp Require Import base numbers list.
From S2P Require Import Prelude DriverPrelude QueueMarkers.
Open Scope Z_scope.

(** ** Sync objects *)

(** [struct ps5vk_sync]: the queue by its number. *)
Record sync := Sync { sy_signaled : bool; sy_queue : option nat; sy_value : Z }.

Definition sync_init (initial_value : Z) : sync := Sync (negb (initial_value =? 0)) None 0.

Definition sync_set (signaled : bool) (queue : option nat) (value : Z) (s : sync) : sync :=
  Sync signaled (if signaled then queue else None) value.

Definition sync_signal_pending (queue : nat) (value : Z) (s : sync) : sync := sync_set true (Some queue) value s.
Definition sync_signal (s : sync) : sync := sync_set true None 0 s.
Definition sync_reset (s : sync) : sync := sync_set false None 0 s.

Definition sync_pending_on (queue : nat) (s : sync) : bool :=
  sy_signaled s && if decide (sy_queue s = Some queue) then true else false.

(** The source of [ps5vk_sync_move] after it, and the destination. *)
Definition sync_taken (s : sync) : sync := Sync false None (sy_value s).
Definition sync_moved (src dst : sync) : sync := sync_set (sy_signaled src) (sy_queue src) (sy_value src) dst.

(** The end of [ps5vk_sync_wait]: the signal is complete, unless it is another by now. *)
Definition sync_complete (queue : nat) (value : Z) (s : sync) : sync :=
  if (if decide (sy_queue s = Some queue) then true else false) && (sy_value s =? value)
  then Sync (sy_signaled s) None (sy_value s) else s.

(** ** Events *)

Inductive event_action := PS5VK_EVENT_ACTION_NONE | PS5VK_EVENT_ACTION_SET | PS5VK_EVENT_ACTION_RESET | PS5VK_EVENT_ACTION_WAIT.

(** A record of an event command: the word it falls at, the event, the action. *)
Record event_record := EventRecord { er_after_words : Z; er_event : nat; er_action : event_action }.

(** [ps5vk_cmd_buffer_record_event]; [None]: the command buffer is refused. *)
Definition record_event (grows : bool) (words : Z) (event : nat) (action : event_action) (records : list event_record) : option (list event_record) :=
  if grows then Some (records ++ [EventRecord (u32 words) event action]) else None.

(** [ps5vk_CmdSetEvent], [ps5vk_CmdResetEvent]: nothing without an event. *)
Definition cmd_set_event (grows refused : bool) (words : Z) (event : option nat) (records : list event_record) : option (list event_record) :=
  match event with
  | Some e => if refused then Some records else record_event grows words e PS5VK_EVENT_ACTION_SET records
  | None => Some records
  end.
Definition cmd_reset_event (grows refused : bool) (words : Z) (event : option nat) (records : list event_record) : option (list event_record) :=
  match event with
  | Some e => if refused then Some records else record_event grows words e PS5VK_EVENT_ACTION_RESET records
  | None => Some records
  end.

(** [ps5vk_CmdWaitEvents]: a record for each event, in order. *)
Fixpoint wait_events (grows : nat -> bool) (words : Z) (events : list (option nat)) (records : list event_record) : option (list event_record) :=
  match events with
  | [] => Some records
  | None :: events' => wait_events grows words events' records
  | Some e :: events' =>
      match record_event (grows (length records)) words e PS5VK_EVENT_ACTION_WAIT records with
      | Some records' => wait_events grows words events' records'
      | None => None
      end
  end.
Definition cmd_wait_events (grows : nat -> bool) (refused : bool) (words : Z) (events : list (option nat)) (records : list event_record) : option (list event_record) :=
  if refused then Some records else wait_events grows words events records.

(** [ps5vk_CreateEvent]: the flag of a new event, or out of memory; [ps5vk_event_set],
    which [ps5vk_SetEvent] and [ps5vk_ResetEvent] call; [ps5vk_GetEventStatus]. *)
Definition create_event (allocated lock_made : bool) : option bool := if allocated && lock_made then Some false else None.
Definition event_set (signaled flag : bool) : bool := signaled.
Inductive event_status := VK_EVENT_SET | VK_EVENT_RESET.
Definition get_event_status (flag : bool) : event_status := if flag then VK_EVENT_SET else VK_EVENT_RESET.

(** [ps5vk_event_execute]: the flag after it, and whether the device is lost;
    [seen t] is the flag at the [t]-th look of a wait. *)
Fixpoint event_polls (left : nat) (t : nat) (seen : nat -> bool) : bool :=
  match left with
  | O => false
  | S left' => if seen t then true else event_polls left' (S t) seen
  end.
Definition event_execute (action : event_action) (seen : nat -> bool) (flag : bool) : option bool :=
  match action with
  | PS5VK_EVENT_ACTION_WAIT => if event_polls (Z.to_nat PS5VK_MARKER_POLLS) 0 seen then Some flag else None
  | PS5VK_EVENT_ACTION_SET => Some true
  | _ => Some false
  end.

(** ** Queues, threads and the GPU *)

(** A queue: what the driver keeps of its markers, and - facts the driver sees
    only through the marker word - how many steps were submitted and run. *)
Record queue_state := QueueState { qs_marker : marker_state; qs_submitted : Z; qs_run : Z }.

(** [ps5vk_queue_poll]: the marker word holds the value of the last step run. *)
Definition queue_poll (k : queue_state) : queue_state :=
  QueueState (poll (step_value (qs_run k)) (qs_marker k)) (qs_submitted k) (qs_run k).
Definition queue_reached (k : queue_state) (value : Z) : bool := marker_reached (ms_completed (qs_marker k)) value.

Inductive sync_result := SYNC_SUCCESS | SYNC_TIMEOUT | SYNC_ERROR | SYNC_LOST.

(** Where [ps5vk_sync_wait] is: about to test the flag; between looks at the
    queue's marker; about to note that the signal is complete; returned. *)
Inductive waiting := Testing | Asking (queue : nat) (value : Z) | Clearing (queue : nat) (value : Z) | Waited (r : sync_result).

(** Where [ps5vk_queue_submit] is: before a wait, in one, before a step, before
    a signal, returned; with the semaphores and steps it has left. *)
Inductive submitting :=
  | SWaits (waits : list nat) (steps : list (step_calls * list flush_target)) (signals : list nat)
  | SWait (i : nat) (w : waiting) (waits : list nat) (steps : list (step_calls * list flush_target)) (signals : list nat)
  | SSteps (steps : list (step_calls * list flush_target)) (signals : list nat)
  | SSignals (pending : bool) (value : Z) (signals : list nat)
  | SReturned (success : bool).

(** What a signal stands for: nothing more, or that a queue has run so many
    steps.  These notes are not the driver's: no step reads them. *)
Definition need := option (nat * Z).

(** A thread, with the notes on the signals it found. *)
Inductive thread :=
  | Idle
  | Moving (dst : nat) (taken : sync) (note : option need)
  | Waiter (i : nat) (w : waiting) (found : list need)
  | Submitter (q : nat) (p : submitting) (found : list need).

Record device := Device { d_queues : list queue_state; d_syncs : list sync; d_notes : list (option need); d_threads : list thread }.

Definition with_queue (q : nat) (k : queue_state) (d : device) : device := Device (<[q := k]> (d_queues d)) (d_syncs d) (d_notes d) (d_threads d).
Definition with_sync (i : nat) (s : sync) (d : device) : device := Device (d_queues d) (<[i := s]> (d_syncs d)) (d_notes d) (d_threads d).
Definition with_note (i : nat) (n : option need) (d : device) : device := Device (d_queues d) (d_syncs d) (<[i := n]> (d_notes d)) (d_threads d).
Definition with_thread (a : nat) (t : thread) (d : device) : device := Device (d_queues d) (d_syncs d) (d_notes d) (<[a := t]> (d_threads d)).
Definition note_of (d : device) (i : nat) : need := default None (mjoin (d_notes d !! i)).

(** [ps5vk_sync_wait], a step at a time. *)
Inductive wait_step (i : nat) : device -> waiting -> list need -> device -> waiting -> list need -> Prop :=
  | wait_asleep d s f : d_syncs d !! i = Some s -> sy_signaled s = false -> wait_step i d Testing f d Testing f
  | wait_ends d s f r : d_syncs d !! i = Some s -> sy_signaled s = false -> r = SYNC_TIMEOUT \/ r = SYNC_ERROR ->
      wait_step i d Testing f d (Waited r) f
  | wait_complete d s f : d_syncs d !! i = Some s -> sy_signaled s = true -> sy_queue s = None ->
      wait_step i d Testing f d (Waited SYNC_SUCCESS) (note_of d i :: f)
  | wait_pending d s q f : d_syncs d !! i = Some s -> sy_signaled s = true -> sy_queue s = Some q ->
      wait_step i d Testing f d (Asking q (sy_value s)) (note_of d i :: f)
  | wait_reached d q v k f : d_queues d !! q = Some k -> queue_reached (queue_poll k) v = true ->
      wait_step i d (Asking q v) f (with_queue q (queue_poll k) d) (Clearing q v) f
  | wait_again d q v k f : d_queues d !! q = Some k -> queue_reached (queue_poll k) v = false ->
      wait_step i d (Asking q v) f (with_queue q (queue_poll k) d) (Asking q v) f
  | wait_gives_up d q v k f r : d_queues d !! q = Some k -> queue_reached (queue_poll k) v = false -> r = SYNC_TIMEOUT \/ r = SYNC_LOST ->
      wait_step i d (Asking q v) f (with_queue q (queue_poll k) d) (Waited r) f
  | wait_clears d q v s f : d_syncs d !! i = Some s ->
      wait_step i d (Clearing q v) f (with_sync i (sync_complete q v s) d) (Waited SYNC_SUCCESS) f.

(** [ps5vk_queue_submit] on queue [q], a step at a time.  A step of the stream
    goes out as [ps5vk_queue_run_step] sends it; one that fails loses the
    device and is not followed further. *)
Inductive submit_step `{Gpu} (q : nat) : device -> submitting -> list need -> device -> submitting -> list need -> Prop :=
  | submit_skips d i s ws st sg f : d_syncs d !! i = Some s -> sync_pending_on q s = true ->
      submit_step q d (SWaits (i :: ws) st sg) f d (SWaits ws st sg) (note_of d i :: f)
  | submit_waits d i s ws st sg f : d_syncs d !! i = Some s -> sync_pending_on q s = false ->
      submit_step q d (SWaits (i :: ws) st sg) f d (SWait i Testing ws st sg) f
  | submit_waiting d i w ws st sg f d' w' f' : wait_step i d w f d' w' f' ->
      submit_step q d (SWait i w ws st sg) f d' (SWait i w' ws st sg) f'
  | submit_waited d i ws st sg f : submit_step q d (SWait i (Waited SYNC_SUCCESS) ws st sg) f d (SWaits ws st sg) f
  | submit_refused d i r ws st sg f : r <> SYNC_SUCCESS ->
      submit_step q d (SWait i (Waited r) ws st sg) f d (SReturned false) f
  | submit_ready d st sg f : submit_step q d (SWaits [] st sg) f d (SSteps st sg) f
  | submit_sends d k c ts st sg f fuel t m : d_queues d !! q = Some k -> step_runs c ->
      run_step fuel c ts false t (qs_marker k) = Some (WAIT_SUCCESS, t, m) ->
      submit_step q d (SSteps ((c, ts) :: st) sg) f (with_queue q (QueueState m (qs_submitted k + 1) (qs_run k)) d) (SSteps st sg) f
  | submit_looks d k sg f : d_queues d !! q = Some k ->
      submit_step q d (SSteps [] sg) f (with_queue q (queue_poll k) d)
        (SSignals (negb (queue_reached (queue_poll k) (ms_submitted (qs_marker k)))) (ms_submitted (qs_marker k)) sg) f
  | submit_signals d k v i s sg f : d_queues d !! q = Some k -> d_syncs d !! i = Some s ->
      submit_step q d (SSignals true v (i :: sg)) f
        (with_note i (Some (Some (q, qs_submitted k))) (with_sync i (sync_signal_pending q v s) d)) (SSignals true v sg) f
  | submit_signals_now d k v i s sg f : d_queues d !! q = Some k -> d_syncs d !! i = Some s ->
      submit_step q d (SSignals false v (i :: sg)) f
        (with_note i (Some (Some (q, qs_submitted k))) (with_sync i (sync_signal s) d)) (SSignals false v sg) f
  | submit_returns d p v f : submit_step q d (SSignals p v []) f d (SReturned true) f.

(** Nothing is being submitted to a queue: Vulkan has the application see to it. *)
Definition submitting_to (q : nat) (t : thread) : bool :=
  match t with Submitter q' (SReturned _) _ => false | Submitter q' _ _ => if decide (q = q') then true else false | _ => false end.

(** A step of the program or of the GPU. *)
Inductive device_step `{Gpu} : device -> device -> Prop :=
  | gpu_runs d q k : d_queues d !! q = Some k -> qs_run k < qs_submitted k ->
      device_step d (with_queue q (QueueState (qs_marker k) (qs_submitted k) (qs_run k + 1)) d)
  | host_signals d i s : d_syncs d !! i = Some s -> device_step d (with_note i (Some None) (with_sync i (sync_signal s) d))
  | host_resets d i s : d_syncs d !! i = Some s -> device_step d (with_note i None (with_sync i (sync_reset s) d))
  | move_takes d a i j s : d_threads d !! a = Some Idle -> d_syncs d !! i = Some s ->
      device_step d (with_thread a (Moving j s (mjoin (d_notes d !! i))) (with_note i None (with_sync i (sync_taken s) d)))
  | move_puts d a j s n s' : d_threads d !! a = Some (Moving j s n) -> d_syncs d !! j = Some s' ->
      device_step d (with_thread a Idle (with_note j n (with_sync j (sync_moved s s') d)))
  | wait_begins d a i : d_threads d !! a = Some Idle -> device_step d (with_thread a (Waiter i Testing []) d)
  | wait_steps d a i w f d' w' f' : d_threads d !! a = Some (Waiter i w f) -> wait_step i d w f d' w' f' ->
      device_step d (with_thread a (Waiter i w' f') d')
  | submit_begins d a q ws st sg : d_threads d !! a = Some Idle -> Forall (fun t => submitting_to q t = false) (d_threads d) ->
      device_step d (with_thread a (Submitter q (SWaits ws st sg) []) d)
  | submit_steps d a q p f d' p' f' : d_threads d !! a = Some (Submitter q p f) -> submit_step q d p f d' p' f' ->
      device_step d (with_thread a (Submitter q p' f') d').

(** ** What the notes mean *)

Definition need_known (d : device) (n : need) : Prop :=
  match n with None => True | Some (q, v) => exists k, d_queues d !! q = Some k /\ 0 <= v <= qs_submitted k end.
Definition need_met (d : device) (n : need) : Prop :=
  match n with None => True | Some (q, v) => exists k, d_queues d !! q = Some k /\ v <= qs_run k end.

Definition queue_ok (k : queue_state) : Prop :=
  0 <= qs_run k <= qs_submitted k /\ exists comp, markers_ok (qs_submitted k) comp (qs_marker k) /\ comp <= qs_run k.

(** A sync object says what its note does: it is signalled exactly when there is
    a note, complete only when the GPU has run what the note names, and
    otherwise it names exactly that. *)
Definition sync_means (d : device) (s : sync) (m : option need) : Prop :=
  match m with
  | None => sy_signaled s = false /\ sy_queue s = None
  | Some n => sy_signaled s = true /\
              match sy_queue s with
              | None => need_met d n
              | Some q => n = Some (q, sy_value s) /\ need_known d n
              end
  end.

Record objects_ok (d : device) : Prop := {
  oo_queues : Forall queue_ok (d_queues d);
  oo_syncs i s : d_syncs d !! i = Some s -> exists m, d_notes d !! i = Some m /\ sync_means d s m
}.

(** Fewer than [2^31 - 1] steps have been submitted to any queue. *)
Definition bounded (d : device) : Prop := Forall (fun k => qs_submitted k < kWindow) (d_queues d).

(** What a wait found holds, or comes before on the queue that submits. *)
Definition found_ok (d : device) (q : nat) (n : need) : Prop :=
  need_met d n \/ exists v, n = Some (q, v) /\ need_known d n.

Definition waiting_ok (d : device) (before : list need) (w : waiting) (f : list need) : Prop :=
  match w with
  | Testing => f = before
  | Asking q v => f = Some (q, v) :: before /\ need_known d (Some (q, v))
  | Clearing q v => f = Some (q, v) :: before /\ need_met d (Some (q, v))
  | Waited SYNC_SUCCESS => exists n, f = n :: before /\ need_met d n
  | Waited _ => True
  end.

Definition submitting_ok (d : device) (q : nat) (p : submitting) (f : list need) : Prop :=
  match p with
  | SWaits _ _ _ | SSteps _ _ => Forall (found_ok d q) f
  | SWait _ w _ _ _ => exists before, waiting_ok d before w f /\ Forall (found_ok d q) before
  | SSignals pending v _ => Forall (found_ok d q) f /\
      exists k, d_queues d !! q = Some k /\ v = qs_submitted k /\ (pending = false -> qs_submitted k <= qs_run k)
  | SReturned success => success = true -> Forall (found_ok d q) f
  end.

Definition thread_ok (d : device) (t : thread) : Prop :=
  match t with
  | Idle => True
  | Moving _ s n => sync_means d s n
  | Waiter _ w f => waiting_ok d [] w f
  | Submitter q p f => submitting_ok d q p f
  end.

Record device_ok (d : device) : Prop := {
  do_objects : objects_ok d;
  do_threads a t : d_threads d !! a = Some t -> thread_ok d t;
  do_apart a b q t u : d_threads d !! a = Some t -> d_threads d !! b = Some u ->
    submitting_to q t = true -> submitting_to q u = true -> a = b
}.

(** ** Time passes *)

Definition later (d d' : device) : Prop := forall q k, d_queues d !! q = Some k ->
  exists k', d_queues d' !! q = Some k' /\ qs_submitted k <= qs_submitted k' /\ qs_run k <= qs_run k'.
Definition no_new_steps (q : nat) (d d' : device) : Prop := forall k, d_queues d !! q = Some k ->
  exists k', d_queues d' !! q = Some k' /\ qs_submitted k' = qs_submitted k /\ qs_run k <= qs_run k'.

Lemma need_known_later d d' n : later d d' -> need_known d n -> need_known d' n.
Proof. intros L. destruct n as [[q v]|]; [|done]. intros (k & K & V). destruct (L q k K) as (k' & K' & S & _). exists k'. split; [done|lia]. Qed.

Lemma need_met_later d d' n : later d d' -> need_met d n -> need_met d' n.
Proof. intros L. destruct n as [[q v]|]; [|done]. intros (k & K & V). destruct (L q k K) as (k' & K' & _ & R). exists k'. split; [done|lia]. Qed.

Lemma sync_means_later d d' s m : later d d' -> sync_means d s m -> sync_means d' s m.
Proof.
  intros L. destruct m as [n|]; [|done]. intros [S M]. split; [done|]. destruct (sy_queue s); [|now apply (need_met_later d)].
  destruct M. split; [done|now apply (need_known_later d)].
Qed.

Lemma found_ok_later d d' q n : later d d' -> found_ok d q n -> found_ok d' q n.
Proof.
  intros L [M|(v & N & K)]; [left; now apply (need_met_later d)|right].
  exists v. split; [done|]. now apply (need_known_later d).
Qed.

Lemma all_found_later d d' q f : later d d' -> Forall (found_ok d q) f -> Forall (found_ok d' q) f.
Proof. intros L F. eapply Forall_impl; [exact F|]. intros n. now apply found_ok_later. Qed.

Lemma waiting_ok_later d d' b w f : later d d' -> waiting_ok d b w f -> waiting_ok d' b w f.
Proof.
  intros L. destruct w as [|q v|q v|[]]; cbn [waiting_ok]; auto.
  - intros [E K]. split; [done|now apply (need_known_later d)].
  - intros [E K]. split; [done|now apply (need_met_later d)].
  - intros (n & E & K). exists n. split; [done|now apply (need_met_later d)].
Qed.

Lemma thread_ok_later d d' t : later d d' -> (forall q, submitting_to q t = true -> no_new_steps q d d') -> thread_ok d t -> thread_ok d' t.
Proof.
  intros L Q. destruct t as [|j s n|i w f|q p f]; cbn [thread_ok]; eauto using sync_means_later, waiting_ok_later.
  destruct p as [ws st sg|i w ws st sg|st sg|pend v sg|ok]; cbn [submitting_ok]; eauto using all_found_later.
  { intros (b & W & F). exists b. eauto using waiting_ok_later, all_found_later. }
  intros (F & k & K & V & P). split; [eauto using all_found_later|].
  destruct (Q q) with (k := k) as (k' & K' & S & R); [cbn; now rewrite decide_True|done|]. exists k'. split; [done|]. split; [congruence|]. intros E. specialize (P E). lia.
Qed.

Lemma later_refl d : later d d.
Proof. intros q k K. exists k. split; [done|lia]. Qed.

(** ** One queue *)

Lemma step_value_small n : 0 <= n < kWindow -> step_value n = n.
Proof. unfold step_value, kWindow, UINT32_MAX. intros N. destruct (n =? 0) eqn:E; to_prop; [done|]. rewrite Z.mod_small by lia. lia. Qed.

Lemma queue_poll_ok k : queue_ok k -> qs_submitted k < kWindow ->
  queue_ok (queue_poll k) /\ (forall v, 0 <= v <= qs_submitted k -> queue_reached (queue_poll k) v = (v <=? qs_run k)).
Proof.
  intros [R (comp & M & C)] B. destruct (poll_spec (qs_submitted k) comp (qs_run k) (qs_marker k) M) as (M' & _); [lia|lia|].
  rewrite Z.max_r in M' by lia. split.
  - split; [done|]. exists (qs_run k). split; [exact M'|]. cbn. lia.
  - intros v V. unfold queue_reached, queue_poll. cbn [qs_marker]. rewrite (mo_completed _ _ _ M'), <- (step_value_small v) at 1 by lia.
    apply marker_order; lia.
Qed.

Lemma queue_submitted_value k : queue_ok k -> qs_submitted k < kWindow -> ms_submitted (qs_marker k) = qs_submitted k.
Proof. intros [R (comp & M & C)] B. rewrite (mo_submitted _ _ _ M). apply step_value_small. lia. Qed.

(** ** Changes of a device *)

Lemma with_queue_later d q k k' : d_queues d !! q = Some k -> qs_submitted k <= qs_submitted k' -> qs_run k <= qs_run k' ->
  later d (with_queue q k' d).
Proof.
  intros K S R q0 k0 K0. cbn. destruct (decide (q = q0)) as [<-|N].
  - exists k'. rewrite list_lookup_insert_eq by (eapply lookup_lt_Some; exact K). split; [done|]. assert (k0 = k) as -> by congruence. lia.
  - exists k0. rewrite list_lookup_insert_ne by done. split; [done|lia].
Qed.

Lemma with_queue_no_new d q k k' : d_queues d !! q = Some k -> qs_submitted k' = qs_submitted k -> qs_run k <= qs_run k' ->
  forall q0, no_new_steps q0 d (with_queue q k' d).
Proof.
  intros K S R q0 k0 K0. cbn. destruct (decide (q = q0)) as [<-|N].
  - exists k'. rewrite list_lookup_insert_eq by (eapply lookup_lt_Some; exact K). assert (k0 = k) as -> by congruence. done.
  - exists k0. rewrite list_lookup_insert_ne by done. split; [done|lia].
Qed.

Lemma with_queue_objects d q k k' : objects_ok d -> d_queues d !! q = Some k -> queue_ok k' ->
  qs_submitted k <= qs_submitted k' -> qs_run k <= qs_run k' -> objects_ok (with_queue q k' d).
Proof.
  intros [Q S] K O L1 L2. split; cbn.
  - now apply Forall_insert.
  - intros i s I. destruct (S i s I) as (m & M & R). exists m. split; [done|]. eapply sync_means_later; [|exact R]. eapply with_queue_later; eauto.
Qed.

Lemma with_sync_objects d i s0 s n : objects_ok d -> d_syncs d !! i = Some s0 -> sync_means d s n ->
  objects_ok (with_note i n (with_sync i s d)).
Proof.
  intros [Q S] I M. destruct (S i s0 I) as (m0 & N0 & _). split; cbn; [done|]. intros j t J.
  destruct (decide (i = j)) as [<-|N].
  - rewrite list_lookup_insert_eq in J by (eapply lookup_lt_Some; exact I). injection J as <-.
    exists n. split; [apply list_lookup_insert_eq; eapply lookup_lt_Some; exact N0|exact M].
  - rewrite list_lookup_insert_ne in J by done. destruct (S j t J) as (m & Nm & R). exists m. now rewrite list_lookup_insert_ne.
Qed.

(** A sync object changed in a way its note does not tell. *)
Lemma with_sync_same_note d i s0 s : objects_ok d -> d_syncs d !! i = Some s0 ->
  (forall m, sync_means d s0 m -> sync_means d s m) -> objects_ok (with_sync i s d).
Proof.
  intros [Q S] I M. split; cbn; [done|]. intros j t J. destruct (decide (i = j)) as [<-|N].
  - rewrite list_lookup_insert_eq in J by (eapply lookup_lt_Some; exact I). injection J as <-.
    destruct (S i s0 I) as (m & Nm & R). exists m. split; [done|now apply M].
  - rewrite list_lookup_insert_ne in J by done. eauto.
Qed.

Lemma sync_complete_means d s q v m : need_met d (Some (q, v)) -> sync_means d s m -> sync_means d (sync_complete q v s) m.
Proof.
  intros M S. unfold sync_complete. destruct (decide (sy_queue s = Some q)) as [Q|]; cbn [andb]; [|done].
  destruct (Z.eqb_spec (sy_value s) v) as [V|]; [|done]. destruct m as [n|]; cbn [sync_means] in *; [|now destruct S].
  rewrite Q in S. destruct S as (Sg & -> & _). cbn [sy_signaled sy_queue]. rewrite V. done.
Qed.

(** What a look at a signalled object finds. *)
Lemma note_found d i s : objects_ok d -> d_syncs d !! i = Some s -> sy_signaled s = true -> sync_means d s (Some (note_of d i)).
Proof.
  intros [_ S] I Sg. destruct (S i s I) as (m & N & R). 
  assert (E : note_of d i = default None m) by exact (f_equal (fun x => default None (mjoin x)) N).
  rewrite E. destruct m as [n|]; [exact R|]. destruct R. congruence.
Qed.

Lemma wait_step_ok i d w f d' w' f' b : objects_ok d -> bounded d -> waiting_ok d b w f -> wait_step i d w f d' w' f' ->
  objects_ok d' /\ waiting_ok d' b w' f' /\ later d d' /\ (forall q0, no_new_steps q0 d d') /\ d_threads d' = d_threads d.
Proof.
  intros O B W E. assert (Nn : forall q0, no_new_steps q0 d d) by (intros q0 k K; exists k; split; [done|lia]).
  assert (Lk : forall q v k, d_queues d !! q = Some k ->
    objects_ok (with_queue q (queue_poll k) d) /\ later d (with_queue q (queue_poll k) d) /\
    (forall q0, no_new_steps q0 d (with_queue q (queue_poll k) d)) /\
    (0 <= v <= qs_submitted k -> queue_reached (queue_poll k) v = (v <=? qs_run k))).
  { intros q1 v k K. pose proof (proj1 (Forall_lookup _ _) (oo_queues _ O) q1 k K) as Ok. pose proof (proj1 (Forall_lookup _ _) B q1 k K) as Bk.
    destruct (queue_poll_ok k Ok Bk) as [Ok' Re]. split; [apply (with_queue_objects d q1 k); auto; cbn; lia|].
    split; [apply (with_queue_later d q1 k); auto; cbn; lia|]. split; [apply (with_queue_no_new d q1 k); auto; cbn; lia|auto]. }
  destruct E as [d s f I Sg|d s f r I Sg R|d s f I Sg Q|d s q1 f I Sg Q|d q1 v k f K Re|d q1 v k f K Re|d q1 v k f r K Re R|d q1 v s f I].
  - auto using later_refl.
  - split; [done|]. split; [destruct R as [-> | ->]; done|auto using later_refl].
  - pose proof (note_found _ _ _ O I Sg) as M. destruct M as [_ M]. rewrite Q in M.
    split; [done|]. split; [|auto using later_refl]. exists (note_of d i). cbn in W. now rewrite W.
  - pose proof (note_found _ _ _ O I Sg) as M. destruct M as [_ M]. rewrite Q in M. destruct M as [En M].
    split; [done|]. split; [|auto using later_refl]. cbn in W. rewrite En in M |- *. now rewrite W.
  - destruct (Lk q1 v k K) as (O' & L & N & Rv). destruct W as (-> & k0 & K0 & V). assert (k0 = k) as -> by congruence.
    rewrite Rv in Re by done. apply Z.leb_le in Re. split; [done|]. split; [|auto]. split; [done|].
    apply (need_met_later d); [done|]. exists k. done.
  - destruct (Lk q1 v k K) as (O' & L & N & Rv). split; [done|]. split; [now apply (waiting_ok_later d)|auto].
  - destruct (Lk q1 v k K) as (O' & L & N & Rv). split; [done|]. split; [destruct R as [-> | ->]; done|auto].
  - destruct W as (-> & M). split.
    { eapply with_sync_same_note; eauto. intros m. now apply sync_complete_means. }
    split; [now eexists|]. split; [exact (later_refl d)|]. split; [exact Nn|done].
Qed.

Lemma submit_step_ok `{G : Gpu} q d p f d' p' f' : objects_ok d -> bounded d -> submitting_ok d q p f -> submit_step q d p f d' p' f' ->
  bounded d' ->
  objects_ok d' /\ submitting_ok d' q p' f' /\ later d d' /\ (forall q0, q0 <> q -> no_new_steps q0 d d') /\ d_threads d' = d_threads d.
Proof.
  intros O B W E B'. assert (Nn : forall q0, no_new_steps q0 d d) by (intros q0 k K; exists k; split; [done|lia]).
  destruct E; cbn [submitting_ok] in W |- *; try (split; [done|split; [done|auto using later_refl]]).
  - split; [done|]. split; [|auto using later_refl]. constructor; [|exact W].
    unfold sync_pending_on in H0. apply andb_true_iff in H0 as [Sg Q]. destruct (decide (sy_queue s = Some q)) as [Qs|]; [|done].
    pose proof (note_found _ _ _ O H Sg) as M. destruct M as [_ M]. rewrite Qs in M. destruct M as [M Kn].
    right. eexists. split; [exact M|exact Kn].
  - split; [done|]. split; [exists f; done|auto using later_refl].
  - destruct W as (b & W & F). apply (wait_step_ok _ _ _ _ _ _ _ b) in H as (O' & W' & L & N & T); auto.
    split; [done|]. split; [exists b; eauto using all_found_later|auto].
  - destruct W as (b & (n & -> & M) & F). split; [done|]. split; [|auto using later_refl]. constructor; [now left|exact F].
  - pose proof (proj1 (Forall_lookup _ _) (oo_queues _ O) q k H) as [R (comp & M & C)]. pose proof (proj1 (Forall_lookup _ _) B q k H) as Bk.
    pose proof (proj1 (Forall_lookup _ _) B' q (QueueState m (qs_submitted k + 1) (qs_run k))) as B2. cbn in B2.
    rewrite list_lookup_insert_eq in B2 by (eapply lookup_lt_Some; exact H). specialize (B2 eq_refl). pose proof (mo_steps _ _ _ M).
    destruct (run_step_async fuel c ts t (qs_marker k) (qs_submitted k) comp H0 M) as (s' & E & M' & _); [lia|]. rewrite H1 in E. injection E as <-.
    assert (L : later d (with_queue q (QueueState m (qs_submitted k + 1) (qs_run k)) d)) by (apply (with_queue_later d q k); cbn; auto; lia).
    split; [apply (with_queue_objects d q k); auto; cbn; try lia; split; [cbn; lia|exists comp; done]|].
    split; [now apply (all_found_later d)|]. split; [done|]. split; [|done]. intros q0 Nq k0 K0. exists k0. cbn. rewrite list_lookup_insert_ne by done. split; [done|lia].
  - pose proof (proj1 (Forall_lookup _ _) (oo_queues _ O) q k H) as Ok. pose proof (proj1 (Forall_lookup _ _) B q k H) as Bk.
    destruct (queue_poll_ok k Ok Bk) as [Ok' Re].
    assert (L : later d (with_queue q (queue_poll k) d)) by (apply (with_queue_later d q k); cbn; auto; lia).
    split; [apply (with_queue_objects d q k); auto; cbn; lia|]. split.
    { split; [now apply (all_found_later d)|]. exists (queue_poll k). cbn [with_queue d_queues].
      rewrite list_lookup_insert_eq by (eapply lookup_lt_Some; exact H). split; [done|]. rewrite (queue_submitted_value k) by done. split; [done|].
      intros P. apply negb_false_iff in P. destruct Ok. rewrite Re in P by lia. apply Z.leb_le in P. exact P. }
    split; [done|]. split; [|done]. intros q0 _. apply (with_queue_no_new d q k); cbn; auto; lia.
  - destruct W as (F & k0 & K0 & V & P). assert (k0 = k) as -> by congruence.
    split; [|split; [split; [done|exists k; done]|split; [exact (later_refl d)|split; [intros q0 _; apply Nn|done]]]].
    apply (with_sync_objects d i s); auto. split; [done|]. cbn. split; [now rewrite V|]. exists k. split; [done|].
    pose proof (proj1 (Forall_lookup _ _) (oo_queues _ O) q k H) as [R _]. lia.
  - destruct W as (F & k0 & K0 & V & P). assert (k0 = k) as -> by congruence.
    split; [|split; [split; [done|exists k; done]|split; [exact (later_refl d)|split; [intros q0 _; apply Nn|done]]]].
    apply (with_sync_objects d i s); auto. split; [done|]. cbn. exists k. split; [done|]. now apply P.
  - destruct W as (F & _). split; [done|]. split; [done|auto using later_refl].
Qed.

(** ** Every step *)

Lemma environment_ok d d' : device_ok d -> objects_ok d' -> later d d' -> (forall q, no_new_steps q d d') -> d_threads d' = d_threads d -> device_ok d'.
Proof.
  intros [_ T A] O L N E. split; [done| |].
  - intros a t. rewrite E. intros I. apply (thread_ok_later d); eauto.
  - intros a b q t u. rewrite !E. apply A.
Qed.

Lemma thread_changed_ok d d' a old t : device_ok d -> d_threads d !! a = Some old -> objects_ok d' -> later d d' ->
  (forall q, submitting_to q old = false -> no_new_steps q d d') -> d_threads d' = d_threads d -> thread_ok d' t ->
  (forall q, submitting_to q t = true -> submitting_to q old = true \/ Forall (fun u => submitting_to q u = false) (d_threads d)) ->
  device_ok (with_thread a t d').
Proof.
  intros [_ T A] I O L N E Tk S.
  assert (Lt : forall b u, <[a := t]> (d_threads d') !! b = Some u -> b = a /\ u = t \/ b <> a /\ d_threads d !! b = Some u).
  { intros b u J. rewrite E in J. apply list_lookup_insert_Some in J as [(-> & <- & _)|[Nb J]]; [now left|right; auto]. }
  assert (Ot : forall b u q, b <> a -> d_threads d !! b = Some u -> submitting_to q u = true -> submitting_to q t = true -> False).
  { intros b u q Nb J Su St. destruct (S q St) as [So|F]; [apply Nb; eapply A; eauto|].
    pose proof (proj1 (Forall_lookup _ _) F b u J) as X. cbn in X. congruence. }
  split; cbn [with_thread d_threads].
  - destruct O as [O1 O2]. split; [exact O1|exact O2].
  - intros b u J. destruct (Lt b u J) as [[-> ->]|[Nb J']]; [destruct t; exact Tk|].
    assert (Th : thread_ok d' u).
    { apply (thread_ok_later d); [done| |eauto]. intros q Su. apply N. destruct (submitting_to q old) eqn:So; [|done]. destruct Nb. eapply A; eauto. }
    destruct u; exact Th.
  - intros b c q u v J K Su Sv. destruct (Lt b u J) as [[-> ->]|[Nb J']], (Lt c v K) as [[-> ->]|[Nc K']]; [done| | |eapply A; eauto].
    + destruct (Ot c v q Nc K' Sv Su).
    + destruct (Ot b u q Nb J' Su Sv).
Qed.

Lemma submit_keeps_queue `{G : Gpu} q d p f d' p' f' q0 : submit_step q d p f d' p' f' ->
  submitting_to q0 (Submitter q p' f') = true -> submitting_to q0 (Submitter q p f) = true.
Proof. intros E. destruct E; cbn; try done. Qed.

Lemma submitting_to_self `{G : Gpu} q d p f d' p' f' q0 : submit_step q d p f d' p' f' ->
  submitting_to q0 (Submitter q p f) = false -> q0 <> q.
Proof. intros E S ->. destruct E; cbn in S; rewrite decide_True in S; done. Qed.

Lemma device_step_ok `{G : Gpu} d d' : device_ok d -> bounded d -> bounded d' -> device_step d d' -> device_ok d'.
Proof.
  intros D B B' E. pose proof (do_objects _ D) as O. assert (Nn : forall q0, no_new_steps q0 d d) by (intros q0 k K; exists k; split; [done|lia]).
  destruct E as [d q k K R|d i s I|d i s I|d a i j s A I|d a j s n s' A I|d a i A|d a i w f d' w' f' A W|d a q ws st sg A F|d a q p f d' p' f' A W].
  - pose proof (proj1 (Forall_lookup _ _) (oo_queues _ O) q k K) as [R0 (comp & M & C)].
    apply (environment_ok d); auto; [|apply (with_queue_later d q k); cbn; auto; lia|intros q0; apply (with_queue_no_new d q k); cbn; auto; lia].
    apply (with_queue_objects d q k); auto; cbn; try lia. split; [cbn; lia|]. exists comp. split; [done|cbn; lia].
  - apply (environment_ok d); [done| |exact (later_refl d)|exact Nn|done]. apply (with_sync_objects d i s); auto. done.
  - apply (environment_ok d); [done| |exact (later_refl d)|exact Nn|done]. apply (with_sync_objects d i s); auto. done.
  - apply (thread_changed_ok d _ a Idle); [done|exact A| |exact (later_refl d)|intros q _; exact (Nn q)|done| |done].
    + apply (with_sync_objects d i s); auto. done.
    + destruct (oo_syncs _ O i s I) as (m & N & M). cbn [thread_ok]. assert (E : mjoin (d_notes d !! i) = m) by exact (f_equal mjoin N).
      rewrite E. exact M.
  - apply (thread_changed_ok d _ a (Moving j s n)); [done|exact A| |exact (later_refl d)|intros q _; exact (Nn q)|done|done|done].
    apply (with_sync_objects d j s'); auto. pose proof (do_threads _ D _ _ A) as M. cbn in M.
    unfold sync_moved, sync_set. destruct n as [n|]; [|destruct M as [E1 _]; rewrite E1; done]. destruct M as [Sg M]. rewrite Sg. split; [done|exact M].
  - apply (thread_changed_ok d d a Idle); [done|exact A|done|exact (later_refl d)|intros q _; exact (Nn q)|done|done|done].
  - pose proof (do_threads _ D _ _ A) as M. cbn in M. apply (wait_step_ok _ _ _ _ _ _ _ []) in W as (O' & W' & L & N & T); auto.
    apply (thread_changed_ok d d' a (Waiter i w f)); auto.
  - apply (thread_changed_ok d d a Idle); [done|exact A|done|exact (later_refl d)|intros q0 _; exact (Nn q0)|done|constructor|]. intros q0 S. right. cbn in S. destruct (decide (q0 = q)) as [->|]; done.
  - pose proof (do_threads _ D _ _ A) as M. cbn in M. pose proof W as W0. apply submit_step_ok in W as (O' & W' & L & N & T); auto.
    apply (thread_changed_ok d d' a (Submitter q p f)); auto.
    + intros q0 S. apply N. eapply submitting_to_self; eauto.
    + intros q0 S. left. eapply submit_keeps_queue; eauto.
Qed.

(** ** Runs *)

(** Runs in which no queue gets [2^31 - 1] steps. *)
Inductive device_run `{G : Gpu} : device -> device -> Prop :=
  | run_starts d : device_run d d
  | run_goes d d' d'' : device_run d d' -> device_step d' d'' -> bounded d'' -> device_run d d''.

(** New queues and unsignalled sync objects, and threads with nothing begun. *)
Definition device_start (queues syncs threads : nat) : device :=
  Device (replicate queues (QueueState marker_init 0 0)) (replicate syncs (sync_init 0)) (replicate syncs None) (replicate threads Idle).

Lemma device_start_ok nq ns nt : device_ok (device_start nq ns nt) /\ bounded (device_start nq ns nt).
Proof.
  split; [|apply Forall_replicate; unfold kWindow; cbn; lia]. split; [split; cbn| |]; cbn [device_start d_threads].
  - apply Forall_replicate. split; [cbn; lia|]. exists 0. split; [|cbn; lia]. split; cbn; try reflexivity; [unfold kWindow; lia|constructor].
  - intros i s I. apply lookup_replicate in I as [-> L]. exists None. split; [now apply lookup_replicate|done].
  - intros a t I. apply lookup_replicate in I as [-> _]. done.
  - intros a b q t u I _ S. apply lookup_replicate in I as [-> _]. done.
Qed.

Lemma device_run_ok `{G : Gpu} d d' : device_ok d -> bounded d -> device_run d d' -> device_ok d' /\ bounded d'.
Proof. intros O B R. induction R as [|d d' d'' R IH E B']; [done|]. destruct (IH O B). split; [|done]. eapply device_step_ok; eauto. Qed.

(** C21: A wait means what was signalled: whatever threads signal, reset, move,
    submit and wait in any interleaving, every sync object is signalled exactly
    while it holds a signal, shows it complete only when the queue has run every
    step submitted up to it, and otherwise names exactly that step - so a
    waiter's note that a signal is complete never marks a newer one; a wait
    that succeeds found a signal whose steps the GPU has run by then; and when
    a submission's steps go out, every semaphore it waited for is run already
    or stands for earlier steps of the same queue. *)
Theorem waits_mean_done `{G : Gpu} nq ns nt d : device_run (device_start nq ns nt) d ->
  (forall i s, d_syncs d !! i = Some s -> exists m, d_notes d !! i = Some m /\ sync_means d s m) /\
  (forall a i f, d_threads d !! a = Some (Waiter i (Waited SYNC_SUCCESS) f) -> exists n, f = [n] /\ need_met d n) /\
  (forall a q st sg f, d_threads d !! a = Some (Submitter q (SSteps st sg) f) ->
     Forall (fun n => need_met d n \/ exists v, n = Some (q, v) /\ need_known d n) f).
Proof.
  intros R. destruct (device_start_ok nq ns nt) as [O B]. destruct (device_run_ok _ _ O B R) as [O' _].
  split; [apply (do_objects _ O')|]. split.
  - intros a i f I. exact (do_threads _ O' a _ I).
  - intros a q st sg f I. exact (do_threads _ O' a _ I).
Qed.

Lemma run_on `{G : Gpu} d0 d d' : device_run d0 d -> device_step d d' -> bounded d' -> device_run d0 d'.
Proof. apply run_goes. Qed.

(** One more step of a run, by a tactic that proves it. *)
Ltac run_next R tac :=
  match type of R with
  | @device_run ?G ?d0 ?d =>
      let E := fresh "E" in let R' := fresh "R" in
      eassert (E : @device_step G d _) by tac;
      pose proof (@run_on G d0 d _ R E ltac:(repeat constructor)) as R'; clear E R; rename R' into R; cbn in R
  end.

(** A submission of one step signals a fence another thread waits for. *)
Lemma waits_mean_done_witness :
  exists d f, @device_run (steady_gpu 1) (device_start 1 1 2) d /\
    d_threads d !! 1%nat = Some (Waiter 0 (Waited SYNC_SUCCESS) f) /\ exists n, f = [n] /\ need_met d n.
Proof.
  pose proof (@run_starts (steady_gpu 1) (device_start 1 1 2)) as R. cbn in R.
  run_next R ltac:(apply (submit_begins _ 0 0 [] [(example_calls, [])] [0%nat]); [reflexivity|repeat constructor]).
  run_next R ltac:(eapply (submit_steps _ 0); [reflexivity|apply submit_ready]).
  run_next R ltac:(eapply (submit_steps _ 0); [reflexivity|eapply (submit_sends _ _ _ _ _ _ _ _ 0 0); [reflexivity|repeat split|reflexivity]]).
  run_next R ltac:(eapply (submit_steps _ 0); [reflexivity|eapply submit_looks; reflexivity]).
  run_next R ltac:(eapply (submit_steps _ 0); [reflexivity|eapply submit_signals; reflexivity]).
  run_next R ltac:(apply (wait_begins _ 1 0); reflexivity).
  run_next R ltac:(eapply (wait_steps _ 1); [reflexivity|eapply wait_pending; reflexivity]).
  run_next R ltac:(eapply (gpu_runs _ 0); [reflexivity|reflexivity]).
  run_next R ltac:(eapply (wait_steps _ 1); [reflexivity|eapply wait_reached; reflexivity]).
  run_next R ltac:(eapply (wait_steps _ 1); [reflexivity|eapply wait_clears; reflexivity]).
  eexists _, _. split; [exact R|]. split; [reflexivity|].
  apply (proj1 (proj2 (waits_mean_done 1 1 2 _ R)) 1%nat 0%nat). reflexivity.
Defined.

(** ** Bounds *)

(** A wait for an event succeeds exactly when one of its looks finds it set. *)
Lemma event_polls_spec left t seen : event_polls left t seen = true <-> exists n, (n < left)%nat /\ seen (t + n)%nat = true.
Proof.
  revert t. induction left as [|left IH]; intros t; cbn [event_polls].
  { split; [done|]. intros (n & L & _). lia. }
  destruct (seen t) eqn:Now.
  - split; [intros _; exists 0%nat; rewrite Nat.add_0_r; split; [lia|done]|done].
  - rewrite IH. split; intros (n & L & E).
    + exists (S n). rewrite Nat.add_succ_r. split; [lia|done].
    + destruct n as [|n]; [rewrite Nat.add_0_r in E; congruence|]. exists n. rewrite Nat.add_succ_r in E. split; [lia|done].
Qed.

Theorem event_wait_spec seen flag :
  event_execute PS5VK_EVENT_ACTION_WAIT seen flag <> None <-> exists n, (n < 2000)%nat /\ seen n = true.
Proof.
  unfold event_execute. change (Z.to_nat PS5VK_MARKER_POLLS) with 2000%nat. pose proof (event_polls_spec 2000 0 seen) as S. cbn [Nat.add] in S.
  rewrite <- S. destruct (event_polls 2000 0 seen); done.
Qed.

(** Why runs are bounded: a signal not waited for while 2^31 more steps run is
    taken for one that is still to come. *)
Theorem stale_signal_unseen n : 1 <= n < 2 ^ 31 - 1 -> marker_reached (step_value (n + 2 ^ 31)) (step_value n) = false.
Proof.
  intros N. assert (S : forall m, 1 <= m < 2 ^ 32 - 1 -> step_value m = m).
  { intros m M. unfold step_value, UINT32_MAX. destruct (m =? 0) eqn:E; to_prop; [lia|]. rewrite Z.mod_small by lia. lia. }
  unfold marker_reached. rewrite !S by lia. replace (n + 2 ^ 31 - n) with (2 ^ 31) by lia. reflexivity.
Qed.
